(* ===== verification/_CoqProject ===== *)
-Q . S2P
Prelude.v
Varint.v
CompactProtocol.v
ProtocolMethods.v
Bits.v
PackedInts.v
StringTable.v
Bitstream.v
RiceCodec.v
PcmSamples.v
CyclicHash.v
BloomFilter.v
Segmenter.v
FileRange.v
SegmentQueue.v
BlockMerger.v
FsSection.v
FilesystemParser.v
FilesystemWriter.v
ImageFile.v
FileChunks.v
FileView.v
Categorizer.v
SparseSeek.v
Metadata.v
MetadataReader.v
MetadataSafety.v
MetadataSession.v
EntryTree.v
MetadataBuilder.v
EntryLists.v
TreeTables.v
EntryData.v
EntryTables.v
GatheredMetadata.v
BuiltMetadata.v
RecoveredDirectories.v
OpenedTree.v
DirectoryTree.v
TreeAttributes.v
SortedTree.v
TreeRoundtrip.v
CheckedTables.v
CheckedTree.v
ChmodTransformer.v
FileScanner.v
FileDedup.v
ScannerRuns.v
FileNumbers.v
ScannedTree.v
InodeManager.v
InodeOrdering.v
OffsetCache.v
MetadataSeek.v
BlockCache.v
InodeReader.v
EndToEnd.v
Blockify.v
StoredChunks.v
StoredInodes.v
WholeTree.v
ScannedInodes.v
WholeScan.v
RemapBlocks.v
RewriteBlocks.v
TimeResolution.v
GlobRegex.v
GlobMeaning.v
EntryFilter.v
