(* ===== verification/Prelude.v ===== *)
(** * DwarFS: a verification library for the core of the file system

    DwarFS is a deduplicating, compressing, read-only file system.  [mkdwarfs]
    scans a tree of files, cuts the data of the files into blocks in which
    nothing is stored twice, compresses the blocks, and writes them with the
    metadata (names, inodes, chunks) as the sections of an image.  The reader
    finds the sections of an image, checks and unpacks the metadata, and answers
    lookups and reads, decompressing blocks through a cache.  This library models
    the libraries that do this, not the command line tools.

    ** How the code is modelled

    A pure function is a function.  A class is a record with its members, an
    operation that may throw is a state-and-exception action ([action] below) or,
    where the state does not outlive the error, a function into [result].  An
    integer of [w] bits is a [Z] with its wrap-around written out ([wrapu],
    [wraps]); bytes are [Z] in [0, 256).  Reading what is not there (an index out
    of range that the code does not check) is [None] or the error [Undefined], so
    that proofs have to exclude it; [DWARFS_CHECK] is an error of its own.
    Threads are interleaved steps, one for each critical section.  Loops whose
    recursion is not structural have fuel; each theorem says how much is enough
    (the number of directories to unpack directories, the length of the input to
    read thrift data, five rounds to pack strings).  Third-party code (frozen
    layouts, FSST, compressors, checksums, the operating system) is a parameter
    with laws in a [Class], and each class has an instance in a witness.

    ** The parts, the files that model them, and what is shown

    Serialization ([include/dwarfs/thrift_lite], [src/thrift_lite]):
    - [Varint]: varints and zigzag integers, with their round trip and the
      rejection of what is too long or overflows;
    - [CompactProtocol]: the compact protocol's writer and reader; skipping a
      value ends on every input;
    - [ProtocolMethods]: typed values over the protocol; round trip, the skipping
      of unknown fields, schema evolution, and totality on damaged input.

    Containers of the metadata:
    - [Bits], [PackedInts]: [bit_view], [packed_int_vector]
      ([include/dwarfs/bit_view.h], [internal/packed_int_vector.h]), which refines
      a list of integers, and delta coding;
    - [StringTable]: [src/internal/string_table.cpp], packed or not, with FSST or
      not, gives the strings back, where packing ends at all.

    Compression of images and audio ([ricepp/], [src/pcm_sample_transformer.cpp]):
    - [Bitstream]: bit streams and their round trip;
    - [RiceCodec]: the Rice coder: round trip, the bound on the size of the
      output, and the split that is optimal;
    - [PcmSamples]: samples of every width and byte order are unpacked and packed
      to what they were.

    Which entries are stored ([src/internal/glob_to_regex.cpp],
    [src/glob_matcher.cpp], [src/writer/rule_based_entry_filter.cpp]):
    - [GlobRegex]: globs as regular expressions, the part of [std::regex] they
      use, and the meaning of a glob;
    - [GlobMeaning]: the regular expression of a glob accepts what the glob means;
    - [EntryFilter]: the first rule that means a path decides, unless one matches
      from above the input; merging files of rules ends.

    Writing file data ([src/writer]):
    - [CyclicHash], [BloomFilter]: the rolling hash and the lookup structures;
    - [Segmenter]: [segmenter.cpp]; what it cuts can be put together again, and
      blocks stay within their size;
    - [FileRange], [SegmentQueue]: data and holes of files, and segments loaded on
      demand, which have the bytes of the file;
    - [BlockMerger]: the merger of blocks of several producers: its output does
      not depend on the schedule, its queue is bounded, and it makes progress;
    - [FileView]: a file that is mapped, with its holes ([mmap_file_view.cpp]);
    - [Categorizer]: the job that asks the categorizers ([categorizer.cpp]);
    - [InodeManager], [InodeOrdering]: [inode_manager.cpp], [inode_ordering.cpp]
      and [sortable_inode_span]: inodes with their fragments and files, and the
      orders in which they are written, each of which, but the explicit and the
      nilsimsa one, hands out every inode once and in the order it is named for;
    - [Blockify]: the jobs of [scanner.cpp] that build blocks of the fragments of
      each category;
    - [FileChunks]: from the chunks of fragments to the chunk tables and back,
      holes included;
    - [FsSection], [FilesystemWriter]: section headers with checksums, the queue
      of numbered sections and the section index.

    Which files are the same ([src/writer]):
    - [FileScanner]: [file_scanner.cpp], the objects of [entry.cpp] it shares, and
      the queue of [src/internal/worker_group.cpp]: files are hashed by jobs that
      wait for each other's latches;
    - [FileDedup], [ScannerRuns]: the invariant of all interleavings; no check
      fails, every run ends, and files share an inode exactly when they have the
      same contents;
    - [FileNumbers], [ScannedTree]: the numbers of files and inodes are those that
      the metadata builder requires.

    Writing the metadata ([src/writer]):
    - [EntryTree]: the tree of entries, the visitors of [scanner.cpp] and
      [global_entry_data];
    - [MetadataBuilder]: [scanner_::scan] from the tree on, and
      [metadata_builder_]: inode numbers, tables, link counts, the cache of sizes,
      packing;
    - [EntryLists], [TreeTables], [EntryData], [EntryTables], [GatheredMetadata],
      [BuiltMetadata]: what each of its tables holds, in terms of the entries of
      the tree; what is required of the numbers of files is the interface
      [FinalizesFiles], which [ScannedTree] discharges;
    - [RecoveredDirectories], [OpenedTree], [DirectoryTree], [TreeAttributes]:
      the reader opens these tables, recovers packed directories, and finds paths,
      directory entries, attributes and chunks in terms of the entries;
    - [SortedTree], [TreeRoundtrip]: [scan] sorts the tree first; put together, a
      tree of files is found again through its metadata;
    - [CheckedTables], [CheckedTree]: the metadata of a tree of files passes every
      check of the reader;
    - [ChmodTransformer]: [chmod_transformer.cpp]: specifications are parsed and
      change modes as they say, one permission at a time;

    Reading ([src/reader]):
    - [FilesystemParser]: finds the image and its sections, with the index or by
      iterating, and detects what is damaged;
    - [ImageFile]: an image that was written is read back;
    - [Metadata]: the metadata of [thrift/metadata.thrift] and [check_metadata];
    - [MetadataReader]: [metadata_types.cpp] and [metadata_v2.cpp]: views, lookup
      by name and path, directories, links, attributes, chunks;
    - [MetadataSafety], [MetadataSession]: on metadata that passed the checks no
      session of calls reads what is not there;
    - [SparseSeek]: [SEEK_DATA] and [SEEK_HOLE] over the chunks of a file;
    - [OffsetCache]: the LRU cache and the cache of offsets of chunks;
    - [MetadataSeek]: seeking in the files of an image, with the cache of seekers;
    - [BlockCache]: the cache of decompressed blocks with its threads: every
      request is answered, and with the bytes of the block where it is inside;
    - [InodeReader]: reads return the bytes of the file, also when concurrent
      reads share the caches;
    - [EndToEnd]: files cut by the segmenter, described by the metadata and read
      by the reader have their bytes.

    Writing and reading, put together:
    - [StoredChunks], [StoredInodes]: what is built of the fragments of all
      categories passes the checks of the chunk tables, and has the contents of
      the inodes;
    - [WholeTree]: a tree whose inodes have the numbers of their files is written,
      opened with all checks, and its files are read back;
    - [ScannedInodes], [WholeScan]: the inodes of a scan are such inodes: the files
      of a tree, scanned by any schedule of the threads, are read back from the
      image as they were on disk.

    Time stamps, and changing an image:
    - [TimeResolution]: time stamps are rounded down to a resolution, when an image
      is written and when it is rewritten with a coarser one;
    - [RemapBlocks], [RewriteBlocks]: when the blocks of an image are cut anew, the
      chunks are remapped to the new blocks and files keep their contents.

    [Prelude] has the monads with their notations, fixed-width integers, and the
    lemmas on bits, lists and slices that the others share.

    ** Not modelled

    Vendored code (frozen, FSST, zstd, nanoprintf, boost), wrappers of compression
    libraries and checksums, I/O of the operating system, the FUSE drivers and
    command line tools, the self-extracting stub, logging, progress and output and
    generated tables.  Of the categorizers and the similarity ordering, what looks
    at contents or at hashes of them only chooses a category or an order; it is an
    argument of the model, and the theorems hold whatever category it chooses, and
    whatever order that hands out every inode once ([Blockify.SpanOrder]).  Jobs of
    categories run one after the other in [Blockify]: they share only the numbers
    of blocks, which are an argument.  Of the modelled parts, what else is left out
    is said at the head of each file: totals and names of categories in the
    metadata, case-insensitive lookup, what only prints.

    Not modelled, but open to it: the upgrade of old metadata, the order in which
    a walk of the data visits files, the parsers of sizes, times and options. *)

#[global] Set Warnings "-register-all".
From stdpp Require Export base tactics option list numbers strings gmap pretty.
From Stdlib Require Export ZArith Lia Sorted.

Local Open Scope Z_scope.

(** ** Results, and the state-and-exception monad of the stateful classes *)

(** [Err e] is a thrown exception, [Ok a] a normal return. *)
Inductive result (E A : Type) : Type :=
  | Ok (a : A)
  | Err (e : E).
Arguments Ok {E A} a.
Arguments Err {E A} e.

Definition rbind {E A B} (m : result E A) (f : A -> result E B) : result E B :=
  match m with Ok a => f a | Err e => Err e end.

(** A member function of an object with state [S]: it returns or throws, and
    leaves the object in some state either way. *)
Definition action (E S A : Type) : Type := S -> result E A * S.

Definition ret {E S A} (a : A) : action E S A := fun s => (Ok a, s).
Definition throw {E S A} (e : E) : action E S A := fun s => (Err e, s).
Definition get {E S} : action E S S := fun s => (Ok s, s).
Definition put {E S} (s' : S) : action E S unit := fun _ => (Ok tt, s').
Definition modify {E S} (f : S -> S) : action E S unit := fun s => (Ok tt, f s).

Definition abind {E S A B} (m : action E S A) (f : A -> action E S B) : action E S B :=
  fun s => match m s with
           | (Ok a, s') => f a s'
           | (Err e, s') => (Err e, s')
           end.

Declare Scope dwarfs_scope.
Delimit Scope dwarfs_scope with dwarfs.
Notation "'let!' x := m 'in' k" := (abind m (fun x => k))
  (at level 10, x name, m at level 100, k at level 200) : dwarfs_scope.
Notation "'let!' ' p := m 'in' k" := (abind m (fun x => match x with p => k end))
  (at level 10, p strict pattern, m at level 100, k at level 200) : dwarfs_scope.
Notation "m ;; k" := (abind m (fun _ => k))
  (at level 100, k at level 200, right associativity) : dwarfs_scope.
Notation "'let?' x := m 'in' k" := (rbind m (fun x => k))
  (at level 10, x name, m at level 100, k at level 200) : dwarfs_scope.
Notation "'let?' ' p := m 'in' k" := (rbind m (fun x => match x with p => k end))
  (at level 10, p strict pattern, m at level 100, k at level 200) : dwarfs_scope.
#[global] Open Scope dwarfs_scope.

(** [for (i = 0; i < n; ++i) body] over an action without a result. *)
Definition repeatA {E S} (body : action E S unit) : nat -> action E S unit :=
  fix go n := match n with
              | O => ret tt
              | Datatypes.S n => body ;; go n
              end.

(** [for (x : l) body(x)]. *)
Definition forA {E S A} (body : A -> action E S unit) : list A -> action E S unit :=
  fix go l := match l with
              | [] => ret tt
              | x :: l => body x ;; go l
              end.

(** A loop that appends one read value to a container per iteration. *)
Definition readA {E S A} (body : action E S A) : nat -> action E S (list A) :=
  fix go n := match n with
              | O => ret []
              | Datatypes.S n => let! x := body in let! l := go n in ret (x :: l)
              end.

(** Equations for running a composed action on a state. *)
Lemma abind_ok {E S A B} (m : action E S A) (f : A -> action E S B) s a s' :
  m s = (Ok a, s') -> abind m f s = f a s'.
Proof. unfold abind. by intros ->. Qed.

Lemma abind_ret {E S A B} (a : A) (f : A -> action E S B) s : abind (ret a) f s = f a s.
Proof. done. Qed.

Lemma abind_get {E S B} (f : S -> action E S B) s : abind get f s = f s s.
Proof. done. Qed.

Lemma abind_err {E S A B} (m : action E S A) (f : A -> action E S B) s e s' :
  m s = (Err e, s') -> abind m f s = (Err e, s').
Proof. unfold abind. by intros ->. Qed.

Lemma abind_assoc {E S A B C} (m : action E S A) (f : A -> action E S B) (g : B -> action E S C) s :
  abind (abind m f) g s = abind m (fun a => abind (f a) g) s.
Proof. unfold abind. by destruct (m s) as [[|] ?]. Qed.

(** [bind_to H] runs the head of a composed action with the equation [H]. *)
Ltac bind_to H := erewrite abind_ok; [|H].

(** ** Fixed-width integers *)

(** Conversion to an unsigned, and to a signed two's complement, [w]-bit type. *)
Definition wrapu (w z : Z) : Z := z mod 2 ^ w.
Definition wraps (w z : Z) : Z :=
  let u := wrapu w z in if u <? 2 ^ (w - 1) then u else u - 2 ^ w.

(** [std::bit_width]. *)
Definition bit_width (z : Z) : Z := if z =? 0 then 0 else Z.log2 z + 1.

(** Ranges of the unsigned and signed [w]-bit types. *)
Definition in_u (w z : Z) : Prop := 0 <= z < 2 ^ w.
Definition in_s (w z : Z) : Prop := - 2 ^ (w - 1) <= z < 2 ^ (w - 1).

(** A byte of a [std::vector<std::byte>] or [std::span<std::byte>]. *)
Abbreviation is_byte := (in_u 8).

#[global] Instance in_u_dec w z : Decision (in_u w z).
Proof. unfold in_u. apply _. Defined.
#[global] Instance in_s_dec w z : Decision (in_s w z).
Proof. unfold in_s. apply _. Defined.

Create HintDb dwarfs.

Section width.
Context (w : Z).

Lemma wrapu_small z : in_u w z -> wrapu w z = z.
Proof. intros H. unfold wrapu, in_u in *. by apply Z.mod_small. Qed.

Lemma pow2_pos : 0 <= w -> 0 < 2 ^ w.
Proof. intros. lia. Qed.

Lemma wrapu_range z : 0 <= w -> in_u w (wrapu w z).
Proof. intros. apply Z.mod_pos_bound. lia. Qed.

Lemma pow2_half : 0 < w -> 2 ^ w = 2 * 2 ^ (w - 1).
Proof. intros. rewrite <- Z.pow_succ_r by lia. f_equal. lia. Qed.

Lemma wraps_range z : 0 < w -> in_s w (wraps w z).
Proof.
  intros Hw. pose proof (wrapu_range z ltac:(lia)) as H.
  pose proof (pow2_half Hw). unfold wraps, in_s, in_u in *.
  destruct (Z.ltb_spec (wrapu w z) (2 ^ (w - 1))); lia.
Qed.

Lemma wraps_wrapu z : 0 < w -> in_s w z -> wraps w (wrapu w z) = z.
Proof.
  intros Hw Hz. pose proof (pow2_half Hw) as Hp. unfold in_s in Hz.
  unfold wraps. rewrite (wrapu_small (wrapu w z)) by (apply wrapu_range; lia).
  unfold wrapu. destruct (Z_lt_le_dec z 0).
  - rewrite <- (Z.mod_add z 1) by lia. rewrite Z.mod_small by lia.
    destruct (Z.ltb_spec (z + 1 * 2 ^ w) (2 ^ (w - 1))); lia.
  - rewrite Z.mod_small by lia. destruct (Z.ltb_spec z (2 ^ (w - 1))); lia.
Qed.

Lemma wrapu_wraps z : 0 < w -> in_u w z -> wrapu w (wraps w z) = z.
Proof.
  intros Hw Hz. pose proof (pow2_half Hw) as Hp. unfold in_u in Hz.
  unfold wraps. rewrite (wrapu_small z) by done.
  destruct (Z.ltb_spec z (2 ^ (w - 1))); [by apply wrapu_small|].
  unfold wrapu. rewrite <- (Z.mod_add _ 1) by lia.
  rewrite Z.mod_small; lia.
Qed.

Lemma wrapu_idemp z : 0 <= w -> wrapu w (wrapu w z) = wrapu w z.
Proof. intros. by apply wrapu_small, wrapu_range. Qed.

Lemma wrapu_of_wraps z : 0 <= w -> wrapu w (wraps w z) = wrapu w z.
Proof.
  intros. unfold wraps. destruct (_ <? _); [by apply wrapu_idemp|].
  unfold wrapu. replace (z mod 2 ^ w - 2 ^ w) with (z mod 2 ^ w + (-1) * 2 ^ w) by lia.
  rewrite Z.mod_add by lia. by apply Z.mod_mod; lia.
Qed.

Lemma wraps_mod_eq a b : wrapu w a = wrapu w b -> wraps w a = wraps w b.
Proof. unfold wraps. by intros ->. Qed.

Lemma wraps_small z : 0 < w -> in_s w z -> wraps w z = z.
Proof.
  intros Hw Hz. etransitivity; [|by apply wraps_wrapu].
  apply wraps_mod_eq. symmetry. apply wrapu_idemp. lia.
Qed.
End width.

#[export] Hint Extern 2 (_ < _) => lia : dwarfs.
#[export] Hint Extern 2 (_ <= _) => lia : dwarfs.
#[export] Hint Resolve wrapu_range wraps_range : dwarfs.

(** ** Bits *)

Lemma lor_shiftl_add a b n :
  0 <= n -> 0 <= a < 2 ^ n -> Z.lor a (Z.shiftl b n) = a + b * 2 ^ n.
Proof.
  intros Hn Ha.
  assert (Z.land a (Z.shiftl b n) = 0) as Hd.
  { apply Z.bits_inj'. intros i Hi. rewrite Z.land_spec, Z.bits_0, Z.shiftl_spec by lia.
    destruct (Z_lt_le_dec i n).
    - rewrite (Z.testbit_neg_r b) by lia. apply andb_false_r.
    - rewrite <- (Z.mod_small a (2 ^ n)) by lia.
      rewrite Z.mod_pow2_bits_high by lia. done. }
  rewrite Z.add_nocarry_lxor.
  - rewrite Z.shiftl_mul_pow2 in * by lia. symmetry.
    by apply Z.lxor_lor.
  - by rewrite Z.shiftl_mul_pow2 in Hd by lia.
Qed.

Lemma testbit_above p a i : 0 <= p <= i -> 0 <= a < 2 ^ p -> Z.testbit a i = false.
Proof.
  intros Hi Ha. rewrite <- (Z.mod_small a (2 ^ p)) by lia.
  apply Z.mod_pow2_bits_high. lia.
Qed.

Lemma bit_width_spec z n : 0 <= z -> 0 <= n -> bit_width z <= n <-> z < 2 ^ n.
Proof.
  intros Hz Hn. unfold bit_width. destruct (Z.eqb_spec z 0) as [->|Hne].
  - split; intros; lia.
  - rewrite (Z.log2_lt_pow2 z n) by lia. lia.
Qed.

Lemma bit_width_nonneg z : 0 <= bit_width z.
Proof. unfold bit_width. pose proof (Z.log2_nonneg z). destruct (z =? 0); lia. Qed.

(** Exhaustive proof over the 256 byte values. *)
Lemma byte_ind (f : Z -> bool) :
  forallb f (seqZ 0 256) = true -> forall b, is_byte b -> f b = true.
Proof.
  intros H b Hb. rewrite forallb_forall in H. apply H.
  apply list_elem_of_In, elem_of_seqZ. unfold in_u in Hb. lia.
Qed.

Ltac by_bytes b Hb :=
  revert b Hb;
  match goal with |- forall b, _ -> @?l b = @?r b =>
    enough (forall b, is_byte b -> Z.eqb (l b) (r b) = true)
      by (let H := fresh in intros b' Hb'; apply Z.eqb_eq; auto);
    apply byte_ind; vm_compute; reflexivity
  end.

Lemma byte_low7 b : is_byte b -> Z.land b 0x7f = b mod 128.
Proof. intros Hb. apply (Z.land_ones b 7). lia. Qed.

Lemma byte_high1 b : is_byte b -> Z.land b 0x80 = if b <? 0x80 then 0 else 0x80.
Proof. intros Hb. by_bytes b Hb. Qed.

Lemma byte_or_high1 b : 0 <= b < 0x80 -> Z.lor b 0x80 = b + 0x80.
Proof. intros Hb. apply (lor_shiftl_add b 1 7); lia. Qed.

Lemma land_ones_mod a n : 0 <= n -> Z.land a (2 ^ n - 1) = a mod 2 ^ n.
Proof. intros. rewrite <- Z.land_ones, Z.ones_equiv by lia. done. Qed.

Lemma land_le_r a b : 0 <= b -> 0 <= Z.land a b <= b.
Proof.
  intros Hb. split; [apply Z.land_nonneg; by right|].
  enough (0 <= b - Z.land a b) by lia. rewrite Z.sub_nocarry_ldiff; [apply Z.ldiff_nonneg; by left|].
  apply Z.bits_inj'. intros i Hi. rewrite Z.ldiff_spec, Z.land_spec, Z.bits_0.
  destruct (Z.testbit a i), (Z.testbit b i); done.
Qed.

Lemma shiftr_7_lt v n : 0 <= v < 2 ^ (n + 7) -> 0 <= n -> 0 <= Z.shiftr v 7 < 2 ^ n.
Proof.
  intros Hv Hn. rewrite Z.shiftr_div_pow2 by lia. rewrite Z.pow_add_r in Hv by lia.
  split; [apply Z.div_pos; lia | apply Z.div_lt_upper_bound; lia].
Qed.

(** Appending the next [k] bits of [x] to its low [n] bits. *)
Lemma mod_pow2_app x n k : 0 <= n -> 0 <= k ->
  x mod 2 ^ (n + k) = x mod 2 ^ n + Z.shiftr x n mod 2 ^ k * 2 ^ n.
Proof.
  intros. rewrite Z.pow_add_r, Z.rem_mul_r, Z.shiftr_div_pow2 by lia. lia.
Qed.

Lemma mod_pow2_range x n : 0 <= n -> 0 <= x mod 2 ^ n < 2 ^ n.
Proof. intros. apply Z.mod_pos_bound. lia. Qed.

(** ** Lists *)

Lemma lookup_nth {A} (l : list A) i d : (i < length l)%nat -> l !! i = Some (nth i l d).
Proof. intros Hi. destruct (nth_lookup_or_length l i d); [done|lia]. Qed.

(** Lengths and spans with [size_t] offsets. *)
Definition zlen {A} (l : list A) : Z := Z.of_nat (length l).

(** [std::span::subspan(off, n)]. *)
Definition slice (l : list Z) (off n : Z) : list Z := take (Z.to_nat n) (drop (Z.to_nat off) l).

Lemma StronglySorted_lookup {A} (R : A -> A -> Prop) l i j x y : StronglySorted R l -> (i < j)%nat -> l !! i = Some x -> l !! j = Some y -> R x y.
Proof.
  intros Hs. revert i j. induction Hs as [|z l Hs IH Hz]; intros i j Hij Hx Hy; [done|]. destruct j as [|j]; [lia|]. destruct i as [|i].
  - injection Hx as <-. rewrite Forall_forall in Hz. apply Hz. by eapply list_elem_of_lookup_2.
  - apply (IH i j); [lia|done|done].
Qed.

Lemma zlen_nonneg {A} (l : list A) : 0 <= zlen l.
Proof. unfold zlen. lia. Qed.

Lemma zlen_map {A B} (f : A -> B) l : zlen (map f l) = zlen l.
Proof. unfold zlen. by rewrite length_map. Qed.

Lemma zlen_app {A} (l1 l2 : list A) : zlen (l1 ++ l2) = zlen l1 + zlen l2.
Proof. unfold zlen. rewrite length_app. lia. Qed.

Lemma slice_length l off n : 0 <= off -> 0 <= n -> off + n <= zlen l -> zlen (slice l off n) = n.
Proof. unfold slice, zlen. intros. rewrite length_take, length_drop. lia. Qed.

Lemma take_add (l : list Z) n m : take (n + m) l = take n l ++ take m (drop n l).
Proof. revert l. induction n as [|n IH]; intros l; [done|]. destruct l; simpl; [by rewrite take_nil|by rewrite IH]. Qed.

Lemma slice_add l off n m : 0 <= off -> 0 <= n -> 0 <= m ->
  slice l off (n + m) = slice l off n ++ slice l (off + n) m.
Proof.
  intros. unfold slice. rewrite Z2Nat.inj_add, take_add, drop_drop by lia. f_equal. f_equal. f_equal. lia.
Qed.

Lemma slice_0 l off : slice l off 0 = [].
Proof. done. Qed.

Lemma slice_all l n : zlen l <= n -> slice l 0 n = l.
Proof. unfold zlen, slice. intros. rewrite drop_0. apply take_ge. lia. Qed.

Lemma slice_app_l l1 l2 off n : 0 <= off -> 0 <= n -> off + n <= zlen l1 -> slice (l1 ++ l2) off n = slice l1 off n.
Proof.
  unfold zlen, slice. intros. rewrite drop_app_le by lia. rewrite take_app_le; [done|]. rewrite length_drop. lia.
Qed.

Lemma slice_app_end l1 l2 off : 0 <= off <= zlen l1 ->
  slice (l1 ++ l2) off (zlen l1 - off + zlen l2) = slice l1 off (zlen l1 - off) ++ l2.
Proof.
  intros. unfold slice, zlen in *. rewrite drop_app_le, !take_ge by (rewrite ?length_app, ?length_drop; lia). done.
Qed.

Lemma slice_skip l1 l2 off n k : zlen l1 = k -> 0 <= k <= off -> slice (l1 ++ l2) off n = slice l2 (off - k) n.
Proof. unfold slice, zlen. intros. rewrite drop_app_ge by lia. do 2 f_equal. lia. Qed.

Lemma slice_head l1 l2 off n : off = 0 -> zlen l1 = n -> slice (l1 ++ l2) off n = l1.
Proof. unfold slice, zlen. intros -> <-. rewrite drop_0, Nat2Z.id. apply take_app_length. Qed.

Lemma slice_whole l off n : off = 0 -> zlen l <= n -> slice l off n = l.
Proof. intros ->. apply slice_all. Qed.

Lemma slice_slice l off n o m : 0 <= off -> 0 <= o -> 0 <= m -> o + m <= n -> 0 <= n ->
  slice (slice l off n) o m = slice l (off + o) m.
Proof.
  intros. unfold slice.
  rewrite (skipn_firstn_comm (Z.to_nat o)), take_take, drop_drop. f_equal; [lia|f_equal; lia].
Qed.

