(* ===== verification/Varint.v ===== *)
(** * Varint: LEB128 varints and zigzag integers of the thrift_lite library

    [include/dwarfs/thrift_lite/varint.h]: [zigzag_encode]/[zigzag_decode],
    [varint_size], [varint_encode] and the checked [varint_decode].  The width
    [w] of the C++ integer type is a parameter of every operation; a byte is a
    [Z] in [0, 256). *)

From S2P Require Import Prelude.
Local Open Scope Z_scope.

Inductive varint_error : Type :=
  | none
  | end_of_input
  | result_overflow.

(** The message of the error category. *)
Definition varint_message (e : varint_error) : string :=
  match e with
  | none => "no error"
  | end_of_input => "unexpected end of input"
  | result_overflow => "integer result overflow"
  end.

(** [v] is a signed, the result an unsigned [w]-bit integer.  For types
    narrower than [int] the operands are promoted and only the result is
    converted; for the others every operation wraps, which gives the same
    value. *)
Definition zigzag_encode (w v : Z) : Z :=
  let uv := wrapu w v in
  wrapu w (Z.lxor (Z.shiftl uv 1) (0 - Z.shiftr uv (w - 1))).

Definition zigzag_decode (w v : Z) : Z :=
  wraps w (Z.lxor (Z.shiftr v 1) (wrapu w (0 - Z.land v 1))).

Definition varint_size (v : Z) : Z :=
  let bw := bit_width v in if bw =? 0 then 1 else (bw + 6) / 7.

Definition max_varint_size (w : Z) : Z := (w + 6) / 7.

(** The output iterator of [varint_encode] walks over a buffer of [room]
    bytes; [None] is a write past its end. *)
Fixpoint varint_encode (room : nat) (v : Z) : option (list Z) :=
  match room with
  | O => None
  | S room =>
      if 0x80 <=? v then
        match varint_encode room (Z.shiftr v 7) with
        | Some out => Some (Z.lor (Z.land v 0x7f) 0x80 :: out)
        | None => None
        end
      else Some [v]
  end.

(** The [for] loop of [varint_decode]: [fuel] is [max_varint_size<T> - i]. *)
Fixpoint varint_decode_loop (w : Z) (fuel : nat) (result shift : Z) (it : list Z)
  : Prelude.result varint_error (Z * list Z) :=
  match fuel with
  | O => Err result_overflow
  | S fuel =>
      match it with
      | [] => Err end_of_input
      | byte :: it =>
          let payload := Z.land byte 0x7f in
          let result := Z.lor result (wrapu w (Z.shiftl payload shift)) in
          if Z.land byte 0x80 =? 0 then
            if w <? bit_width payload + shift then Err result_overflow
            else Ok (result, it)
          else varint_decode_loop w fuel result (shift + 7) it
      end
  end.

(** [begin] is assigned on success only: the second component is the position
    the caller sees afterwards. *)
Definition varint_decode (w : Z) : action varint_error (list Z) Z :=
  fun it =>
    match varint_decode_loop w (Z.to_nat (max_varint_size w)) 0 0 it with
    | Ok (v, it') => (Ok v, it')
    | Err e => (Err e, it)
    end.

(** The overload for signed types. *)
Definition varint_decode_signed (w : Z) : action varint_error (list Z) Z :=
  let! uv := varint_decode w in ret (zigzag_decode w uv).

(** ** Zigzag *)

Lemma lxor_m1 a : Z.lxor a (-1) = - a - 1.
Proof. rewrite Z.lxor_m1_r. unfold Z.lnot. lia. Qed.

Lemma land_1 v : Z.land v 1 = v mod 2.
Proof. apply (Z.land_ones v 1). lia. Qed.

Lemma wrapu_lxor w a b : 0 <= w -> wrapu w (Z.lxor a b) = Z.lxor (wrapu w a) (wrapu w b).
Proof.
  intros. unfold wrapu. rewrite <- !Z.land_ones by lia.
  apply Z.bits_inj'. intros i Hi. rewrite !Z.lxor_spec, !Z.land_spec, Z.lxor_spec.
  destruct (Z.testbit a i), (Z.testbit b i), (Z.testbit (Z.ones w) i); done.
Qed.

(** The arithmetic meaning of the bit trick: non-negative numbers go to the
    even, negative ones to the odd codes. *)
Lemma zigzag_encode_spec w v : 0 < w -> in_s w v ->
  zigzag_encode w v = if v <? 0 then - 2 * v - 1 else 2 * v.
Proof.
  intros Hw Hv. pose proof (pow2_half w Hw) as Hp. unfold in_s in Hv.
  unfold zigzag_encode.
  assert (0 < 2 ^ (w - 1)) by lia.
  assert (Z.shiftr (wrapu w v) (w - 1) = if v <? 0 then 1 else 0) as Hs.
  { rewrite Z.shiftr_div_pow2 by lia. unfold wrapu.
    destruct (Z.ltb_spec v 0).
    - rewrite <- (Z.mod_add v 1), Z.mod_small by lia.
      symmetry. apply Z.div_unique with (v + 1 * 2 ^ w - 2 ^ (w - 1)); lia.
    - rewrite Z.mod_small by lia. apply Z.div_small. lia. }
  assert (wrapu w (Z.shiftl (wrapu w v) 1) = wrapu w (2 * v)) as Hl.
  { rewrite Z.shiftl_mul_pow2 by lia. unfold wrapu.
    rewrite Z.mul_mod_idemp_l by lia. f_equal. lia. }
  rewrite Hs. destruct (Z.ltb_spec v 0); simpl.
  - rewrite wrapu_lxor, Hl, <- wrapu_lxor by lia.
    change (0 - 1) with (-1). rewrite lxor_m1.
    rewrite wrapu_small; unfold in_u; lia.
  - rewrite Z.lxor_0_r, Hl. apply wrapu_small. unfold in_u; lia.
Qed.

Lemma zigzag_decode_spec w u : 0 < w -> in_u w u ->
  zigzag_decode w u = if u mod 2 =? 0 then u / 2 else - (u / 2) - 1.
Proof.
  intros Hw Hu. pose proof (pow2_half w Hw) as Hp. unfold in_u in Hu.
  pose proof (Z.div_mod u 2 ltac:(lia)). pose proof (Z.mod_pos_bound u 2 ltac:(lia)).
  unfold zigzag_decode. rewrite land_1, Z.shiftr_div_pow2 by lia.
  change (2 ^ 1) with 2.
  destruct (Z.eqb_spec (u mod 2) 0) as [->|Hodd].
  - rewrite wrapu_small by (unfold in_u; lia). rewrite Z.lxor_0_r.
    rewrite <- (wraps_wrapu w (u / 2)) at 2 by (unfold in_s; lia).
    apply wraps_mod_eq. symmetry. apply wrapu_small. apply wrapu_range. lia.
  - replace (0 - u mod 2) with (-1) by lia.
    rewrite <- (wraps_wrapu w (- (u / 2) - 1)) by (unfold in_s; lia).
    apply wraps_mod_eq. rewrite <- lxor_m1, !wrapu_lxor by lia.
    rewrite !(wrapu_small w (wrapu w _)) by (apply wrapu_range; lia). done.
Qed.

Lemma zigzag_encode_range w v : 0 < w -> in_u w (zigzag_encode w v).
Proof. intros. apply wrapu_range. lia. Qed.

Lemma zigzag_decode_range w u : 0 < w -> in_s w (zigzag_decode w u).
Proof. intros. by apply wraps_range. Qed.

Lemma zigzag_decode_encode w v : 0 < w -> in_s w v -> zigzag_decode w (zigzag_encode w v) = v.
Proof.
  intros Hw Hv. rewrite zigzag_decode_spec by auto using zigzag_encode_range.
  rewrite zigzag_encode_spec by done. destruct (Z.ltb_spec v 0).
  - replace (-2 * v - 1) with (1 + (- v - 1) * 2) by lia.
    rewrite Z.mod_add, Z.div_add by lia. change (1 mod 2) with 1. change (1 / 2) with 0.
    simpl. lia.
  - replace (2 * v) with (v * 2) by lia. rewrite Z.mod_mul, Z.div_mul by lia. done.
Qed.

Lemma zigzag_encode_decode w u : 0 < w -> in_u w u -> zigzag_encode w (zigzag_decode w u) = u.
Proof.
  intros Hw Hu. rewrite zigzag_encode_spec by auto using zigzag_decode_range.
  rewrite zigzag_decode_spec by done. unfold in_u in Hu.
  pose proof (Z.div_mod u 2 ltac:(lia)). pose proof (Z.mod_pos_bound u 2 ltac:(lia)).
  pose proof (Z.div_pos u 2 ltac:(lia) ltac:(lia)).
  destruct (Z.eqb_spec (u mod 2) 0).
  - destruct (Z.ltb_spec (u / 2) 0); lia.
  - destruct (Z.ltb_spec (- (u / 2) - 1) 0); lia.
Qed.

(** ** The reference decoder *)

(** The number a group sequence denotes: seven bits a byte, low groups first. *)
Fixpoint varint_value (bs : list Z) : Z :=
  match bs with
  | [] => 0
  | b :: bs => b mod 128 + 128 * varint_value bs
  end.

(** What the wire format prescribes: the groups up to the first byte without a
    continuation bit, of which there are at most [max_varint_size]. *)
Definition varint_spec (w : Z) (it : list Z) : Prelude.result varint_error (Z * list Z) :=
  let n := Z.to_nat (max_varint_size w) in
  match list_find (fun b => b < 0x80) (take n it) with
  | Some (i, _) =>
      let v := varint_value (take (S i) it) in
      if v <? 2 ^ w then Ok (v, drop (S i) it) else Err result_overflow
  | None => if (length it <? n)%nat then Err end_of_input else Err result_overflow
  end.

Lemma varint_value_nonneg bs : 0 <= varint_value bs.
Proof. induction bs as [|b bs IH]; simpl; [lia|]. pose proof (Z.mod_pos_bound b 128). lia. Qed.

Lemma group_overflow w r s p : 0 <= s <= w -> 0 <= r < 2 ^ s -> 0 <= p ->
  (w <? bit_width p + s) = negb (r + p * 2 ^ s <? 2 ^ w).
Proof.
  intros Hs Hr Hp. pose proof (bit_width_spec p (w - s) Hp ltac:(lia)) as Hb.
  replace (2 ^ w) with (2 ^ (w - s) * 2 ^ s) by (rewrite <- Z.pow_add_r by lia; f_equal; lia).
  destruct (Z.ltb_spec w (bit_width p + s)), (Z.ltb_spec (r + p * 2 ^ s) (2 ^ (w - s) * 2 ^ s)); try done; exfalso.
  - assert (p < 2 ^ (w - s)) by nia. lia.
  - assert (p < 2 ^ (w - s)) by (apply Hb; lia). nia.
Qed.

Lemma varint_decode_loop_spec w fuel r s it :
  Forall is_byte it -> 0 <= s -> s + 7 * Z.of_nat fuel <= w + 6 -> 0 <= r < 2 ^ s ->
  varint_decode_loop w fuel r s it =
  match list_find (fun b => b < 0x80) (take fuel it) with
  | Some (i, _) =>
      let v := r + varint_value (take (S i) it) * 2 ^ s in
      if v <? 2 ^ w then Ok (v, drop (S i) it) else Err result_overflow
  | None => if (length it <? fuel)%nat then Err end_of_input else Err result_overflow
  end.
Proof.
  intros Hb. revert r s it Hb. induction fuel as [|fuel IH]; intros r s it Hb Hs Hf Hr.
  { by rewrite take_0. }
  destruct it as [|b it]; [done|]. apply Forall_cons in Hb as [Hb Hit]. cbn [varint_decode_loop].
  rewrite byte_low7, byte_high1 by done.
  pose proof (Z.mod_pos_bound b 128 ltac:(lia)) as Hm. unfold in_u in Hb.
  cbn [take list_find]. destruct (Z.ltb_spec b 0x80) as [Hlt|Hge].
  - rewrite decide_True by lia. cbn -[Z.pow Z.mul Z.modulo].
    rewrite (group_overflow w r s) by lia. rewrite Z.mul_0_r, Z.add_0_r.
    rewrite (Z.mod_small b 128) by lia.
    destruct (Z.ltb_spec (r + b * 2 ^ s) (2 ^ w)) as [Hov|]; simpl; [|done].
    rewrite wrapu_small, lor_shiftl_add by
      (unfold in_u; rewrite ?Z.shiftl_mul_pow2 by lia; lia).
    by rewrite drop_0.
  - rewrite decide_False by lia. change (0x80 =? 0) with false. cbv iota.
    destruct fuel as [|fuel].
    { rewrite take_0. simpl. destruct (length it); done. }
    assert (0 <= Z.shiftl (b mod 128) s < 2 ^ (s + 7)) as Hsh.
    { rewrite Z.shiftl_mul_pow2, Z.pow_add_r by lia. change (2 ^ 7) with 128. nia. }
    assert (2 ^ (s + 7) <= 2 ^ w) by (apply Z.pow_le_mono_r; lia).
    rewrite wrapu_small, lor_shiftl_add by (try (unfold in_u); lia).
    rewrite IH; [|done|lia|lia|].
    2:{ rewrite Z.pow_add_r in * by lia. change (2 ^ 7) with 128 in *. nia. }
    destruct (list_find _ _) as [[i x]|] eqn:Hfind; [|done]. simpl.
    set (v := varint_value _). replace (r + b mod 128 * 2 ^ s + v * 2 ^ (s + 7))
      with (r + (b mod 128 + 128 * v) * 2 ^ s)
      by (rewrite Z.pow_add_r by lia; change (2 ^ 7) with 128; lia).
    done.
Qed.

Lemma max_varint_size_pos w : 0 < w -> 0 < max_varint_size w /\ 7 * max_varint_size w <= w + 6.
Proof.
  intros. unfold max_varint_size. pose proof (Z.div_mod (w + 6) 7 ltac:(lia)).
  pose proof (Z.mod_pos_bound (w + 6) 7 ltac:(lia)). lia.
Qed.

Lemma varint_decode_loop_reference w it : 0 < w -> Forall is_byte it ->
  varint_decode_loop w (Z.to_nat (max_varint_size w)) 0 0 it = varint_spec w it.
Proof.
  intros Hw Hit. pose proof (max_varint_size_pos w Hw).
  rewrite varint_decode_loop_spec by (done || lia). unfold varint_spec.
  destruct (list_find _ _) as [[i x]|]; [|done]. simpl.
  by rewrite Z.mul_1_r.
Qed.

(** ** The encoder *)

Lemma varint_encode_value room v n : 0 <= v < 2 ^ n -> 0 <= n -> n <= 7 * Z.of_nat room ->
  (0 < room)%nat ->
  exists bs, varint_encode room v = Some bs /\ Forall is_byte bs /\ varint_value bs = v /\
    (forall fuel rest, (length bs <= fuel)%nat ->
       exists b, list_find (fun b => b < 0x80) (take fuel (bs ++ rest)) = Some (pred (length bs), b)) /\
    (0 < length bs <= room)%nat.
Proof.
  revert v n. induction room as [|room IH]; intros v n Hv Hn Hlen Hroom; [lia|].
  cbn [varint_encode]. destruct (Z.leb_spec 0x80 v) as [Hge|Hlt].
  - assert (7 < n) by (apply (Z.pow_lt_mono_r_iff 2); lia).
    destruct (IH (Z.shiftr v 7) (n - 7)) as (bs & -> & Hbs & Hval & Hfind & Hlb); [|lia..|].
    { apply shiftr_7_lt; [|lia]. replace (n - 7 + 7) with n by lia. done. }
    assert (Z.land v 0x7f = v mod 128) as Hl by (apply (Z.land_ones v 7); lia).
    pose proof (Z.mod_pos_bound v 128 ltac:(lia)).
    rewrite Hl, byte_or_high1 by done. eexists; split; [done|]. split_and!; simpl; [| |  |lia|lia].
    + constructor; [|done]. unfold in_u. lia.
    + rewrite Hval, Z.shiftr_div_pow2 by lia. change (2 ^ 7) with 128.
      replace (v mod 128 + 128) with (v mod 128 + 1 * 128) by lia.
      rewrite Z.mod_add, Z.mod_mod by lia. pose proof (Z.div_mod v 128). lia.
    + intros [|fuel] rest Hf; [lia|]. simpl. rewrite decide_False by lia.
      destruct (Hfind fuel rest ltac:(lia)) as [b ->]. exists b. simpl. do 2 f_equal. lia.
  - exists [v]. split_and!; simpl; [done| | | |lia|lia].
    + constructor; [|done]. unfold in_u. lia.
    + rewrite Z.mod_small; lia.
    + intros [|fuel] rest Hf; [lia|]. simpl. exists v. by rewrite decide_True by lia.
Qed.

Lemma varint_size_step v : 0x80 <= v -> varint_size v = 1 + varint_size (Z.shiftr v 7).
Proof.
  intros Hv. assert (7 <= Z.log2 v) by (apply Z.log2_le_pow2; lia).
  assert (0 < Z.shiftr v 7) as Hpos.
  { rewrite Z.shiftr_div_pow2 by lia. change (2 ^ 7) with 128. apply Z.div_str_pos. lia. }
  unfold varint_size, bit_width.
  rewrite Z.log2_shiftr, Z.max_r by lia.
  destruct (Z.eqb_spec v 0), (Z.eqb_spec (Z.shiftr v 7) 0); try lia.
  destruct (Z.eqb_spec (Z.log2 v + 1) 0), (Z.eqb_spec (Z.log2 v - 7 + 1) 0); try lia.
  replace (Z.log2 v + 1 + 6) with (Z.log2 v - 7 + 1 + 6 + 1 * 7) by lia.
  rewrite Z.div_add by lia. lia.
Qed.

Lemma varint_size_small v : 0 <= v < 0x80 -> varint_size v = 1.
Proof.
  intros Hv. unfold varint_size. pose proof (bit_width_spec v 7 ltac:(lia) ltac:(lia)).
  pose proof (bit_width_nonneg v).
  destruct (Z.eqb_spec (bit_width v) 0); [done|].
  symmetry. apply Z.div_unique with (bit_width v - 1); lia.
Qed.

Lemma varint_encode_length room v bs : 0 <= v -> varint_encode room v = Some bs ->
  Z.of_nat (length bs) = varint_size v.
Proof.
  revert v bs. induction room as [|room IH]; intros v bs Hv; cbn [varint_encode]; [done|].
  destruct (Z.leb_spec 0x80 v) as [Hge|Hlt].
  - destruct (varint_encode room _) as [out|] eqn:He; [|done]. intros [= <-].
    apply IH in He; [|apply Z.shiftr_nonneg; lia]. simpl. rewrite varint_size_step; lia.
  - intros [= <-]. by rewrite varint_size_small.
Qed.

(** ** What clients use *)

Lemma varint_encode_decode w v rest : 0 < w -> in_u w v -> Forall is_byte rest ->
  exists bs, varint_encode (Z.to_nat (max_varint_size w)) v = Some bs /\
    Forall is_byte bs /\ (0 < length bs)%nat /\ Z.of_nat (length bs) = varint_size v /\
    varint_decode w (bs ++ rest) = (Ok v, rest).
Proof.
  intros Hw Hv Hrest. pose proof (max_varint_size_pos w Hw).
  assert (w <= 7 * max_varint_size w).
  { unfold max_varint_size. pose proof (Z.div_mod (w + 6) 7 ltac:(lia)).
    pose proof (Z.mod_pos_bound (w + 6) 7 ltac:(lia)). lia. }
  destruct (varint_encode_value (Z.to_nat (max_varint_size w)) v w)
    as (bs & He & Hbs & Hval & Hfind & Hlen); [done|lia..|].
  exists bs. split_and!; [done..|lia| |].
  { eapply varint_encode_length; [|done]. unfold in_u in Hv. lia. }
  unfold varint_decode.
  rewrite varint_decode_loop_reference by (done || by apply Forall_app).
  unfold varint_spec. destruct (Hfind (Z.to_nat (max_varint_size w)) rest) as [b ->]; [lia|].
  replace (S (pred (length bs))) with (length bs) by lia.
  rewrite take_app_length, drop_app_length, Hval. unfold in_u in Hv.
  by destruct (Z.ltb_spec v (2 ^ w)); [|lia].
Qed.

#[export] Hint Resolve zigzag_encode_range zigzag_decode_range : dwarfs.

(** ** Properties *)

(** Encoding any [w]-bit unsigned integer fits the buffer of
    [max_varint_size] bytes, produces exactly [varint_size] bytes, and decoding
    them in front of any further input gives the integer back and leaves the
    read position right behind it. *)
Theorem varint_roundtrip w v rest : 0 < w -> in_u w v -> Forall is_byte rest ->
  exists bs, varint_encode (Z.to_nat (max_varint_size w)) v = Some bs /\
    Z.of_nat (length bs) = varint_size v /\
    varint_decode w (bs ++ rest) = (Ok v, rest).
Proof.
  intros Hw Hv Hr. destruct (varint_encode_decode w v rest) as (bs & ? & ? & ? & ? & ?); eauto.
Qed.

Lemma varint_roundtrip_witness :
  exists bs, varint_encode (Z.to_nat (max_varint_size 32)) 300 = Some bs /\
    Z.of_nat (length bs) = varint_size 300 /\
    varint_decode 32 (bs ++ [7]) = (Ok 300, [7]).
Proof.
  apply (varint_roundtrip 32 300 [7]); [reflexivity|split; [discriminate|reflexivity]|].
  constructor; [split; [discriminate|reflexivity]|constructor].
Defined.

(** On any input bytes the decoding loop is the reference decoder: it
    accepts exactly the inputs whose first group without continuation bit is
    among the first [max_varint_size] bytes and whose value fits the type; on
    an error, classified as truncation or overflow, the position is left
    alone. *)
Theorem varint_decode_reference w it : 0 < w -> Forall is_byte it ->
  varint_decode w it =
    match varint_spec w it with
    | Ok (v, it') => (Ok v, it')
    | Err e => (Err e, it)
    end.
Proof.
  intros Hw Hit. unfold varint_decode. by rewrite varint_decode_loop_reference.
Qed.

Lemma varint_decode_reference_witness :
  varint_decode 16 [0x80; 0x80; 0x04] =
    match varint_spec 16 [0x80; 0x80; 0x04] with
    | Ok (v, it') => (Ok v, it')
    | Err e => (Err e, [0x80; 0x80; 0x04])
    end /\ varint_spec 16 [0x80; 0x80; 0x04] = Err result_overflow.
Proof.
  split; [|reflexivity]. apply (varint_decode_reference 16 [0x80; 0x80; 0x04]); [reflexivity|].
  repeat constructor; discriminate.
Defined.

(** Zigzag is a bijection between the signed and the unsigned [w]-bit
    integers, so a signed varint round trips. *)
Theorem zigzag_bijection w : 0 < w ->
  (forall v, in_s w v -> in_u w (zigzag_encode w v) /\ zigzag_decode w (zigzag_encode w v) = v) /\
  (forall u, in_u w u -> in_s w (zigzag_decode w u) /\ zigzag_encode w (zigzag_decode w u) = u).
Proof.
  split; intros; split; eauto using zigzag_decode_encode, zigzag_encode_decode with dwarfs.
Qed.

Lemma zigzag_bijection_witness : zigzag_decode 16 (zigzag_encode 16 (-2)) = -2.
Proof. apply (proj1 (zigzag_bijection 16 eq_refl) (-2)). split; [discriminate|reflexivity]. Defined.
