(* ===== verification/CompactProtocol.v ===== *)
(** * CompactProtocol: the Thrift compact protocol of thrift_lite

    [src/thrift_lite/compact_writer.cpp], [src/thrift_lite/compact_reader.cpp]
    and [src/thrift_lite/internal/compact_wire.cpp].  Writer and reader are
    the C++ classes' states as records and their member functions as actions.
    A [std::vector] used as a stack is a list with its back at the head. *)

From S2P Require Import Prelude Varint.
Local Open Scope Z_scope.

Inductive ttype : Type :=
  | stop_t | bool_t | byte_t | i16_t | i32_t | i64_t | double_t | binary_t
  | string_t | list_t | set_t | map_t | struct_t | uuid_t.

#[export] Instance ttype_eq_dec : EqDecision ttype.
Proof. solve_decision. Defined.

(** What the operations throw. [panic] is [TL_PANIC]/[TL_CHECK];
    [buffer_overrun] a varint that does not fit the stack buffer, and
    [out_of_fuel] the end of the fuel of a recursive model function: neither
    ever happens (see the properties). *)
Inductive tl_error : Type :=
  | protocol_error (what : string)
  | panic (what : string)
  | buffer_overrun
  | out_of_fuel.

(** ** Compact type ids *)

Definition ct_stop : Z := 0x00.
Definition ct_boolean_true : Z := 0x01.
Definition ct_boolean_false : Z := 0x02.
Definition ct_byte : Z := 0x03.
Definition ct_i16 : Z := 0x04.
Definition ct_i32 : Z := 0x05.
Definition ct_i64 : Z := 0x06.
Definition ct_double : Z := 0x07.
Definition ct_binary : Z := 0x08.
Definition ct_list : Z := 0x09.
Definition ct_set : Z := 0x0a.
Definition ct_map : Z := 0x0b.
Definition ct_struct : Z := 0x0c.
Definition ct_uuid : Z := 0x0d.

Definition compact_type_id_for_field (t : ttype) : result tl_error Z :=
  match t with
  | byte_t => Ok ct_byte
  | i16_t => Ok ct_i16
  | i32_t => Ok ct_i32
  | i64_t => Ok ct_i64
  | double_t => Ok ct_double
  | binary_t | string_t => Ok ct_binary
  | list_t => Ok ct_list
  | set_t => Ok ct_set
  | map_t => Ok ct_map
  | struct_t => Ok ct_struct
  | uuid_t => Ok ct_uuid
  | stop_t => Ok ct_stop
  | bool_t => Err (panic "bool_t must be encoded via field-header TRUE/FALSE or element bool encoding")
  end.

Definition compact_type_id_for_collection (t : ttype) : result tl_error Z :=
  if decide (t = bool_t) then Ok ct_boolean_true else compact_type_id_for_field t.

(** ** [compact_writer] *)

Record compact_writer : Type := CompactWriter {
  w_out : list Z;
  w_last_field_stack : list Z;
  w_last_field_id : Z;
  w_pending_bool_field_id : option Z
}.

Abbreviation writer := (action tl_error compact_writer).

Definition compact_writer_init : compact_writer := CompactWriter [] [] 0 None.

Definition lift_w {A} (r : result tl_error A) : writer A := fun w => (r, w).

Definition write_bytes (bytes : list Z) : writer unit :=
  modify (fun w => CompactWriter (w_out w ++ bytes) (w_last_field_stack w)
                     (w_last_field_id w) (w_pending_bool_field_id w)).

Definition write_u8 (b : Z) : writer unit := write_bytes [b].

Definition set_last_field_id (id : Z) : writer unit :=
  modify (fun w => CompactWriter (w_out w) (w_last_field_stack w) id (w_pending_bool_field_id w)).

Definition set_pending_bool_field_id (p : option Z) : writer unit :=
  modify (fun w => CompactWriter (w_out w) (w_last_field_stack w) (w_last_field_id w) p).

(** [write_varint<Out>] for an unsigned and for a signed [Out] of [w] bits:
    the value is converted to [Out] and encoded into a stack buffer of
    [max_varint_size] bytes. *)
Definition write_varint_u (w v : Z) : writer unit :=
  match varint_encode (Z.to_nat (max_varint_size w)) (wrapu w v) with
  | Some buf => write_bytes buf
  | None => throw buffer_overrun
  end.

Definition write_varint_s (w v : Z) : writer unit :=
  match varint_encode (Z.to_nat (max_varint_size w)) (zigzag_encode w (wraps w v)) with
  | Some buf => write_bytes buf
  | None => throw buffer_overrun
  end.

Definition ensure_no_pending_bool : writer unit :=
  let! w := get in
  match w_pending_bool_field_id w with
  | Some _ => throw (protocol_error
      "bool field pending: write_bool() must follow write_field_begin(bool_t, id)")
  | None => ret tt
  end.

Definition write_i16 (v : Z) : writer unit := ensure_no_pending_bool ;; write_varint_s 16 v.
Definition write_i32 (v : Z) : writer unit := ensure_no_pending_bool ;; write_varint_s 32 v.
Definition write_i64 (v : Z) : writer unit := ensure_no_pending_bool ;; write_varint_s 64 v.

Definition write_struct_begin : writer unit :=
  ensure_no_pending_bool ;;
  modify (fun w => CompactWriter (w_out w) (w_last_field_id w :: w_last_field_stack w)
                     0 (w_pending_bool_field_id w)).

Definition write_struct_end : writer unit :=
  ensure_no_pending_bool ;;
  let! w := get in
  match w_last_field_stack w with
  | [] => throw (protocol_error "write_struct_end without matching write_struct_begin")
  | id :: stack => put (CompactWriter (w_out w) stack id (w_pending_bool_field_id w))
  end.

Definition write_field_header (compact_type_id field_id : Z) : writer unit :=
  let! w := get in
  let delta := field_id - w_last_field_id w in
  (if (w_last_field_id w <? field_id) && (1 <=? delta) && (delta <=? 15)
   then write_u8 (wrapu 8 (Z.lor (Z.shiftl delta 4) compact_type_id))
   else write_u8 compact_type_id ;; write_i16 field_id) ;;
  set_last_field_id field_id.

Definition flush_pending_bool_field (field_id : Z) (value : bool) : writer unit :=
  set_pending_bool_field_id None ;;
  let ct := if value then ct_boolean_true else ct_boolean_false in
  write_field_header ct field_id.

Definition write_field_begin (type : ttype) (field_id : Z) : writer unit :=
  ensure_no_pending_bool ;;
  if decide (type = bool_t) then set_pending_bool_field_id (Some field_id)
  else let! ct := lift_w (compact_type_id_for_field type) in write_field_header ct field_id.

Definition write_field_end : writer unit := ret tt.

Definition write_field_stop : writer unit := ensure_no_pending_bool ;; write_u8 ct_stop.

Definition write_bool (v : bool) : writer unit :=
  let! w := get in
  match w_pending_bool_field_id w with
  | Some field_id => flush_pending_bool_field field_id v
  | None => write_u8 (if v then ct_boolean_true else ct_boolean_false)
  end.

Definition write_byte (v : Z) : writer unit :=
  ensure_no_pending_bool ;; write_u8 (wrapu 8 v).

(** A double is the 64-bit integer [std::bit_cast] gives. *)
Definition write_double (bits : Z) : writer unit :=
  forA (fun i => write_u8 (Z.land (Z.shiftr bits (i * 8)) 0xff)) (seqZ 0 8).

Definition write_binary (bytes : list Z) : writer unit :=
  ensure_no_pending_bool ;;
  (if 2 ^ 31 - 1 <? Z.of_nat (length bytes) then throw (protocol_error "binary too large")
   else ret tt) ;;
  write_varint_u 32 (Z.of_nat (length bytes)) ;;
  (if bool_decide (bytes = []) then ret tt else write_bytes bytes).

Definition write_string (utf8 : list Z) : writer unit := write_binary utf8.

Definition write_list_begin (elem_type : ttype) (size : Z) : writer unit :=
  ensure_no_pending_bool ;;
  (if size <? 0 then throw (protocol_error "negative list size") else ret tt) ;;
  let! et := lift_w (compact_type_id_for_collection elem_type) in
  if size <=? 14 then write_u8 (wrapu 8 (Z.lor (Z.shiftl size 4) et))
  else write_u8 (wrapu 8 (Z.lor 0xf0 et)) ;; write_varint_u 32 size.

Definition write_list_end : writer unit := ret tt.
Definition write_set_begin (elem_type : ttype) (size : Z) : writer unit :=
  write_list_begin elem_type size.
Definition write_set_end : writer unit := ret tt.

Definition write_map_begin (key_type val_type : ttype) (size : Z) : writer unit :=
  ensure_no_pending_bool ;;
  (if size <? 0 then throw (protocol_error "negative map size") else ret tt) ;;
  write_varint_u 32 size ;;
  if size =? 0 then ret tt
  else
    let! kt := lift_w (compact_type_id_for_collection key_type) in
    let! vt := lift_w (compact_type_id_for_collection val_type) in
    write_u8 (wrapu 8 (Z.lor (Z.shiftl kt 4) vt)).

Definition write_map_end : writer unit := ret tt.

(** ** [compact_reader] *)

Record decode_options : Type := DecodeOptions {
  max_struct_depth : Z;
  max_container_elems : Z;
  max_string_bytes : Z
}.

Definition default_decode_options : decode_options :=
  DecodeOptions (2 ^ 32 - 1) (2 ^ 32 - 1) (2 ^ 32 - 1).

Record compact_reader : Type := CompactReader {
  r_in : list Z;
  r_pos : Z;
  r_options : decode_options;
  r_last_field_stack : list Z;
  r_last_field_id : Z;
  r_struct_depth : Z;
  r_pending_bool_value : option bool
}.

Abbreviation reader := (action tl_error compact_reader).

Definition compact_reader_init (bytes : list Z) (options : decode_options) : compact_reader :=
  CompactReader bytes 0 options [] 0 0 None.

Definition consumed_bytes (r : compact_reader) : Z := r_pos r.
Definition remaining_bytes (r : compact_reader) : Z := Z.of_nat (length (r_in r)) - r_pos r.

Definition set_pos (pos : Z) (r : compact_reader) : compact_reader :=
  CompactReader (r_in r) pos (r_options r) (r_last_field_stack r) (r_last_field_id r)
    (r_struct_depth r) (r_pending_bool_value r).
Definition set_r_last_field_id (id : Z) (r : compact_reader) : compact_reader :=
  CompactReader (r_in r) (r_pos r) (r_options r) (r_last_field_stack r) id
    (r_struct_depth r) (r_pending_bool_value r).
Definition set_pending_bool_value (p : option bool) (r : compact_reader) : compact_reader :=
  CompactReader (r_in r) (r_pos r) (r_options r) (r_last_field_stack r) (r_last_field_id r)
    (r_struct_depth r) p.

Definition ensure_available (n : Z) : reader unit :=
  let! r := get in
  if remaining_bytes r <? n then throw (protocol_error "unexpected end of input") else ret tt.

(** [in_[pos_]] is only evaluated behind [ensure_available(1)]; an index out
    of range would be undefined behaviour and is a [panic] of the model. *)
Definition take_u8 : reader Z :=
  ensure_available 1 ;;
  let! r := get in
  match r_in r !! Z.to_nat (r_pos r) with
  | Some b => put (set_pos (r_pos r + 1) r) ;; ret b
  | None => throw (panic "in_[pos_] out of range")
  end.

Definition skip_bytes (n : Z) : reader unit :=
  ensure_available n ;; modify (fun r => set_pos (r_pos r + n) r).

Definition r_ensure_no_pending_bool : reader unit :=
  let! r := get in
  match r_pending_bool_value r with
  | Some _ => throw (protocol_error "bool value pending: read_bool() must be called next")
  | None => ret tt
  end.

(** [read_varint<T>], over the decoder of the (un)signed type. *)
Definition read_varint (decode : action varint_error (list Z) Z) : reader Z :=
  let! r := get in
  let it := drop (Z.to_nat (r_pos r)) (r_in r) in
  match decode it with
  | (Err ec, _) => throw (protocol_error ("read_varint: " +:+ varint_message ec))
  | (Ok val, it') =>
      put (set_pos (r_pos r + (Z.of_nat (length it) - Z.of_nat (length it'))) r) ;; ret val
  end.

Definition read_i16_unchecked : reader Z := read_varint (varint_decode_signed 16).

Definition to_ttype (compact_type : Z) : reader ttype :=
  if compact_type =? ct_stop then ret stop_t
  else if (compact_type =? ct_boolean_true) || (compact_type =? ct_boolean_false) then ret bool_t
  else if compact_type =? ct_byte then ret byte_t
  else if compact_type =? ct_i16 then ret i16_t
  else if compact_type =? ct_i32 then ret i32_t
  else if compact_type =? ct_i64 then ret i64_t
  else if compact_type =? ct_double then ret double_t
  else if compact_type =? ct_binary then ret binary_t
  else if compact_type =? ct_list then ret list_t
  else if compact_type =? ct_set then ret set_t
  else if compact_type =? ct_map then ret map_t
  else if compact_type =? ct_struct then ret struct_t
  else if compact_type =? ct_uuid then ret uuid_t
  else throw (protocol_error ("invalid compact type: " +:+ pretty compact_type)).

Definition read_struct_begin : reader unit :=
  r_ensure_no_pending_bool ;;
  let! r := get in
  if max_struct_depth (r_options r) <=? r_struct_depth r
  then throw (protocol_error "max struct depth exceeded")
  else put (CompactReader (r_in r) (r_pos r) (r_options r)
              (r_last_field_id r :: r_last_field_stack r) 0
              (r_struct_depth r + 1) (r_pending_bool_value r)).

Definition read_struct_end : reader unit :=
  r_ensure_no_pending_bool ;;
  let! r := get in
  match r_last_field_stack r with
  | [] => throw (protocol_error "read_struct_end without matching read_struct_begin")
  | id :: stack =>
      put (CompactReader (r_in r) (r_pos r) (r_options r) stack id
             (r_struct_depth r) (r_pending_bool_value r)) ;;
      if 0 <? r_struct_depth r
      then put (CompactReader (r_in r) (r_pos r) (r_options r) stack id
                  (r_struct_depth r - 1) (r_pending_bool_value r))
      else throw (panic "internal error: struct depth underflow")
  end.

Definition read_field_begin : reader (ttype * Z) :=
  r_ensure_no_pending_bool ;;
  let! header := take_u8 in
  if header =? ct_stop then ret (stop_t, 0)
  else
    let compact_type := Z.land header 0x0f in
    let delta := Z.shiftr header 4 in
    let! r := get in
    let! field_id := (if negb (delta =? 0) then ret (wraps 16 (r_last_field_id r + delta))
                      else read_i16_unchecked) in
    let! type := (if compact_type =? ct_boolean_true then
                    modify (set_pending_bool_value (Some true)) ;; ret bool_t
                  else if compact_type =? ct_boolean_false then
                    modify (set_pending_bool_value (Some false)) ;; ret bool_t
                  else to_ttype compact_type) in
    modify (set_r_last_field_id field_id) ;;
    ret (type, field_id).

Definition read_field_end : reader unit := ret tt.

Definition read_bool : reader bool :=
  let! r := get in
  match r_pending_bool_value r with
  | Some v => put (set_pending_bool_value None r) ;; ret v
  | None =>
      let! b := take_u8 in
      if b =? ct_boolean_true then ret true
      else if b =? ct_boolean_false then ret false
      else throw (protocol_error "invalid bool encoding")
  end.

Definition read_byte : reader Z :=
  r_ensure_no_pending_bool ;; let! b := take_u8 in ret (wraps 8 b).
Definition read_i16 : reader Z := r_ensure_no_pending_bool ;; read_i16_unchecked.
Definition read_i32 : reader Z := r_ensure_no_pending_bool ;; read_varint (varint_decode_signed 32).
Definition read_i64 : reader Z := r_ensure_no_pending_bool ;; read_varint (varint_decode_signed 64).

(** The loop of [read_double], at [i]. *)
Fixpoint read_double_loop (n : nat) (i bits : Z) : reader Z :=
  match n with
  | O => ret bits
  | S n => let! b := take_u8 in read_double_loop n (i + 1) (Z.lor bits (wrapu 64 (Z.shiftl b (i * 8))))
  end.

Definition read_double : reader Z := read_double_loop 8 0 0.

Definition read_size_i32 (what : string) : reader Z :=
  let! u := read_varint (varint_decode 32) in
  let! r := get in
  if 2 ^ 31 - 1 <? u then throw (protocol_error (what +:+ " too large"))
  else if max_container_elems (r_options r) <? u
  then throw (protocol_error (what +:+ " exceeds max_container_elems"))
  else ret u.

Definition read_size (what : string) : reader Z :=
  r_ensure_no_pending_bool ;;
  let! size := read_varint (varint_decode 32) in
  let! r := get in
  if 2 ^ 31 - 1 <? size then throw (protocol_error (what +:+ " too large"))
  else if max_string_bytes (r_options r) <? size
  then throw (protocol_error (what +:+ " exceeds max_string_bytes"))
  else ret size.

Definition read_data (what : string) : reader (list Z) :=
  let! sz := read_size what in
  ensure_available sz ;;
  let! r := get in
  put (set_pos (r_pos r + sz) r) ;;
  ret (take (Z.to_nat sz) (drop (Z.to_nat (r_pos r)) (r_in r))).

Definition read_binary : reader (list Z) := read_data "binary".
Definition read_string : reader (list Z) := read_data "string".

Definition read_list_begin : reader (ttype * Z) :=
  r_ensure_no_pending_bool ;;
  let! b := take_u8 in
  let size_nibble := Z.shiftr b 4 in
  let type_nibble := Z.land b 0x0f in
  let! elem_type := to_ttype type_nibble in
  if decide (elem_type = stop_t) then throw (protocol_error "invalid list element type: stop")
  else
    let! size := (if size_nibble =? 0x0f then read_size_i32 "list size" else ret size_nibble) in
    ret (elem_type, size).

Definition read_list_end : reader unit := ret tt.
Definition read_set_begin : reader (ttype * Z) := read_list_begin.
Definition read_set_end : reader unit := ret tt.

Definition read_map_begin : reader (ttype * ttype * Z) :=
  r_ensure_no_pending_bool ;;
  let! size := read_size_i32 "map size" in
  if size =? 0 then ret (stop_t, stop_t, size)
  else
    let! types := take_u8 in
    let kt := Z.shiftr types 4 in
    let vt := Z.land types 0x0f in
    let! key_type := to_ttype kt in
    let! val_type := to_ttype vt in
    if bool_decide (key_type = stop_t) || bool_decide (val_type = stop_t)
    then throw (protocol_error "invalid map key/value type")
    else ret (key_type, val_type, size).

Definition read_map_end : reader unit := ret tt.

(** [skip_impl] recurses on the input, so it has fuel; twice the number of
    remaining bytes plus two is enough ([skip_terminates]). The field loop of
    a struct is [skip_fields]. *)
Fixpoint skip_impl (fuel : nat) (type : ttype) (depth : Z) {struct fuel} : reader unit :=
  match fuel with
  | O => throw out_of_fuel
  | S fuel =>
      let! r := get in
      if max_struct_depth (r_options r) <? depth
      then throw (protocol_error "max skip depth exceeded")
      else
        match type with
        | stop_t => throw (protocol_error "cannot skip stop type")
        | bool_t => let! _ := read_bool in ret tt
        | byte_t => let! _ := read_byte in ret tt
        | i16_t => let! _ := read_i16 in ret tt
        | i32_t => let! _ := read_i32 in ret tt
        | i64_t => let! _ := read_i64 in ret tt
        | double_t => let! _ := read_double in ret tt
        | binary_t => let! n := read_size "binary" in skip_bytes n
        | string_t => let! n := read_size "string" in skip_bytes n
        | uuid_t => r_ensure_no_pending_bool ;; skip_bytes 16
        | list_t =>
            let! '(elem_type, n) := read_list_begin in
            repeatA (skip_impl fuel elem_type (depth + 1)) (Z.to_nat n) ;; read_list_end
        | set_t =>
            let! '(elem_type, n) := read_set_begin in
            repeatA (skip_impl fuel elem_type (depth + 1)) (Z.to_nat n) ;; read_set_end
        | map_t =>
            let! '(key_type, val_type, n) := read_map_begin in
            repeatA (skip_impl fuel key_type (depth + 1) ;; skip_impl fuel val_type (depth + 1))
              (Z.to_nat n) ;;
            read_map_end
        | struct_t => read_struct_begin ;; skip_fields fuel depth ;; read_struct_end
        end
  end
with skip_fields (fuel : nat) (depth : Z) {struct fuel} : reader unit :=
  match fuel with
  | O => throw out_of_fuel
  | S fuel =>
      let! '(ft, fid) := read_field_begin in
      if decide (ft = stop_t) then ret tt
      else skip_impl fuel ft (depth + 1) ;; read_field_end ;; skip_fields fuel depth
  end.

Definition skip (type : ttype) : reader unit :=
  fun r => skip_impl (2 * Z.to_nat (remaining_bytes r) + 2) type 0 r.

(** ** The wire grammar

    Pure byte strings; the writer emits them ([write_*_emit]) and the reader
    consumes them ([read_*_at]). *)

Definition varint_bytes (w v : Z) : list Z :=
  default [] (varint_encode (Z.to_nat (max_varint_size w)) v).
Definition wire_int (w v : Z) : list Z := varint_bytes w (zigzag_encode w v).
Definition wire_size (n : Z) : list Z := varint_bytes 32 n.
Definition wire_bool (b : bool) : Z := if b then ct_boolean_true else ct_boolean_false.
Definition wire_binary (bs : list Z) : list Z := wire_size (Z.of_nat (length bs)) ++ bs.
Definition wire_double (bits : Z) : list Z :=
  map (fun i => Z.land (Z.shiftr bits (i * 8)) 0xff) (seqZ 0 8).
(** Type ids of collection elements and of (non-boolean) fields. *)
Definition ct_of (t : ttype) : Z :=
  match compact_type_id_for_collection t with Ok c => c | Err _ => 0 end.
Definition wire_list_header (t : ttype) (n : Z) : list Z :=
  if n <=? 14 then [n * 16 + ct_of t] else (0xf0 + ct_of t) :: wire_size n.
Definition wire_map_header (k v : ttype) (n : Z) : list Z :=
  wire_size n ++ if n =? 0 then [] else [ct_of k * 16 + ct_of v].
Definition wire_field_header (last id ct : Z) : list Z :=
  if (last <? id) && (id - last <=? 15) then [(id - last) * 16 + ct] else ct :: wire_int 16 id.

Lemma varint_bytes_spec w v : 0 < w -> in_u w v ->
  varint_encode (Z.to_nat (max_varint_size w)) v = Some (varint_bytes w v) /\
  Forall is_byte (varint_bytes w v) /\ (0 < length (varint_bytes w v))%nat /\
  forall rest, Forall is_byte rest -> varint_decode w (varint_bytes w v ++ rest) = (Ok v, rest).
Proof.
  intros Hw Hv. unfold varint_bytes.
  destruct (varint_encode_decode w v [] Hw Hv (List.Forall_nil _)) as (bs & He & Hb & Hl & _ & _).
  rewrite He. simpl. split_and!; [done..|]. intros rest Hr.
  destruct (varint_encode_decode w v rest Hw Hv Hr) as (bs' & He' & _ & _ & _ & Hd). congruence.
Qed.

Lemma wire_int_decode w v rest : 0 < w -> in_s w v -> Forall is_byte rest ->
  varint_decode_signed w (wire_int w v ++ rest) = (Ok v, rest).
Proof.
  intros Hw Hv Hr. unfold varint_decode_signed, wire_int.
  erewrite abind_ok by (apply varint_bytes_spec; auto with dwarfs).
  unfold ret. by rewrite zigzag_decode_encode.
Qed.

Lemma wire_int_bytes w v : 0 < w -> in_s w v -> Forall is_byte (wire_int w v) /\ (0 < length (wire_int w v))%nat.
Proof. intros Hw Hv. split; apply varint_bytes_spec; auto with dwarfs. Qed.

Lemma ct_of_range t : 0 <= ct_of t < 16.
Proof. by destruct t. Qed.

Lemma nibbles a b : 0 <= a < 16 -> 0 <= b < 16 ->
  wrapu 8 (Z.lor (Z.shiftl a 4) b) = a * 16 + b /\
  Z.shiftr (a * 16 + b) 4 = a /\ Z.land (a * 16 + b) 0x0f = b /\ is_byte (a * 16 + b).
Proof.
  intros Ha Hb. rewrite Z.lor_comm, lor_shiftl_add by lia. unfold in_u.
  change (2 ^ 4) with 16. split_and!; [| | |lia|lia].
  - rewrite wrapu_small; unfold in_u; lia.
  - rewrite Z.shiftr_div_pow2 by lia. change (2 ^ 4) with 16.
    rewrite Z.add_comm, Z.div_add, Z.div_small; lia.
  - change 0x0f with (2 ^ 4 - 1). rewrite land_ones_mod by lia. change (2 ^ 4) with 16.
    rewrite Z.add_comm, Z.mod_add, Z.mod_small; lia.
Qed.

(** *** The writer emits the grammar *)

Definition emit (bs : list Z) (w : compact_writer) : compact_writer :=
  CompactWriter (w_out w ++ bs) (w_last_field_stack w) (w_last_field_id w)
    (w_pending_bool_field_id w).

Lemma emit_emit a b w : emit b (emit a w) = emit (a ++ b) w.
Proof. unfold emit. simpl. by rewrite app_assoc. Qed.

Lemma emit_nil w : emit [] w = w.
Proof. destruct w. unfold emit. simpl. by rewrite app_nil_r. Qed.

Definition idle (w : compact_writer) : Prop := w_pending_bool_field_id w = None.

Lemma idle_emit bs w : idle w -> idle (emit bs w).
Proof. done. Qed.

Lemma ensure_idle w : idle w -> ensure_no_pending_bool w = (Ok tt, w).
Proof. unfold ensure_no_pending_bool, idle, abind, get, ret. by intros ->. Qed.

Lemma write_varint_u_emit w v wr : 0 < w -> in_u w v ->
  write_varint_u w v wr = (Ok tt, emit (varint_bytes w v) wr).
Proof.
  intros Hw Hv. unfold write_varint_u. rewrite wrapu_small by done.
  by rewrite (proj1 (varint_bytes_spec w v Hw Hv)).
Qed.

Lemma write_varint_s_emit w v wr : 0 < w -> in_s w v ->
  write_varint_s w v wr = (Ok tt, emit (wire_int w v) wr).
Proof.
  intros Hw Hv. unfold write_varint_s, wire_int. rewrite wraps_small by done.
  by rewrite (proj1 (varint_bytes_spec w (zigzag_encode w v) Hw ltac:(auto with dwarfs))).
Qed.

Lemma write_u8_emit b w : write_u8 b w = (Ok tt, emit [b] w).
Proof. done. Qed.

Ltac run_idle := erewrite (abind_ok ensure_no_pending_bool) by (apply ensure_idle; done).

Lemma write_i16_emit v w : idle w -> in_s 16 v -> write_i16 v w = (Ok tt, emit (wire_int 16 v) w).
Proof. intros Hw Hv. unfold write_i16. run_idle. by apply write_varint_s_emit. Qed.
Lemma write_i32_emit v w : idle w -> in_s 32 v -> write_i32 v w = (Ok tt, emit (wire_int 32 v) w).
Proof. intros Hw Hv. unfold write_i32. run_idle. by apply write_varint_s_emit. Qed.
Lemma write_i64_emit v w : idle w -> in_s 64 v -> write_i64 v w = (Ok tt, emit (wire_int 64 v) w).
Proof. intros Hw Hv. unfold write_i64. run_idle. by apply write_varint_s_emit. Qed.

Lemma write_byte_emit v w : idle w -> write_byte v w = (Ok tt, emit [wrapu 8 v] w).
Proof. intros Hw. unfold write_byte. by run_idle. Qed.

Lemma write_bool_emit v w : idle w -> write_bool v w = (Ok tt, emit [wire_bool v] w).
Proof. unfold write_bool, idle, abind, get. by intros ->. Qed.

Lemma write_double_emit bits w : write_double bits w = (Ok tt, emit (wire_double bits) w).
Proof.
  unfold write_double, wire_double. generalize (seqZ 0 8). intros l.
  revert w. induction l as [|i l IH]; intros w; simpl; [by rewrite emit_nil|].
  erewrite abind_ok by done. rewrite IH. fold (emit [Z.land (Z.shiftr bits (i * 8)) 0xff] w).
  by rewrite emit_emit.
Qed.

Lemma write_binary_emit bs w : idle w -> Z.of_nat (length bs) < 2 ^ 31 ->
  write_binary bs w = (Ok tt, emit (wire_binary bs) w).
Proof.
  intros Hw Hl. unfold write_binary. run_idle.
  destruct (Z.ltb_spec (2 ^ 31 - 1) (Z.of_nat (length bs))); [lia|].
  rewrite abind_ret. unfold wire_binary, wire_size.
  erewrite abind_ok by (apply write_varint_u_emit; [|unfold in_u]; lia).
  case_bool_decide as Hn; [by subst; rewrite app_nil_r|].
  unfold write_bytes, modify. by rewrite <- emit_emit.
Qed.

Lemma lift_ct {A} t (f : Z -> writer A) w : t <> stop_t ->
  abind (lift_w (compact_type_id_for_collection t)) f w = f (ct_of t) w.
Proof. by destruct t. Qed.

Lemma write_list_begin_emit t n w : idle w -> t <> stop_t -> 0 <= n < 2 ^ 31 ->
  write_list_begin t n w = (Ok tt, emit (wire_list_header t n) w).
Proof.
  intros Hw Ht Hn. unfold write_list_begin. run_idle.
  destruct (Z.ltb_spec n 0); [lia|]. rewrite abind_ret.
  rewrite lift_ct by done.
  pose proof (ct_of_range t). unfold wire_list_header.
  destruct (Z.leb_spec n 14).
  - destruct (nibbles n (ct_of t)) as (-> & _); [lia..|done].
  - destruct (nibbles 15 (ct_of t)) as (Hh & _); [lia..|].
    change 0xf0 with (Z.shiftl 15 4). rewrite Hh.
    erewrite abind_ok by apply write_u8_emit.
    rewrite write_varint_u_emit by (unfold in_u; lia). by rewrite emit_emit.
Qed.

Lemma write_map_begin_emit k v n w : idle w -> k <> stop_t -> v <> stop_t -> 0 <= n < 2 ^ 31 ->
  write_map_begin k v n w = (Ok tt, emit (wire_map_header k v n) w).
Proof.
  intros Hw Hk Hv Hn. unfold write_map_begin, wire_map_header. run_idle.
  destruct (Z.ltb_spec n 0); [lia|]. rewrite abind_ret.
  erewrite abind_ok by (apply write_varint_u_emit; [|unfold in_u]; lia).
  destruct (Z.eqb_spec n 0); [by rewrite app_nil_r|].
  rewrite !lift_ct by done.
  destruct (nibbles (ct_of k) (ct_of v)) as (-> & _); [apply ct_of_range..|].
  unfold write_u8, write_bytes, modify. by rewrite <- emit_emit.
Qed.

(** A header is emitted relative to the previous field id, and moves it. *)
Definition at_field (id : Z) (w : compact_writer) : compact_writer :=
  CompactWriter (w_out w) (w_last_field_stack w) id (w_pending_bool_field_id w).

Lemma write_field_header_emit ct id w : idle w -> 0 <= ct < 16 -> in_s 16 id ->
  write_field_header ct id w =
    (Ok tt, at_field id (emit (wire_field_header (w_last_field_id w) id ct) w)).
Proof.
  intros Hw Hct Hid. unfold write_field_header. rewrite abind_get.
  unfold wire_field_header. set (delta := id - w_last_field_id w).
  assert ((write_u8 ct ;; write_i16 id) w = (Ok tt, emit (ct :: wire_int 16 id) w)) as Hlong.
  { erewrite abind_ok by apply write_u8_emit. rewrite write_i16_emit by done. by rewrite emit_emit. }
  destruct (Z.ltb_spec (w_last_field_id w) id) as [Hlt|]; simpl; [|by erewrite abind_ok].
  destruct (Z.leb_spec 1 delta); [|lia]. simpl.
  destruct (Z.leb_spec delta 15); [|by erewrite abind_ok].
  by destruct (nibbles delta ct) as (-> & _); [lia..|].
Qed.

(** *** The reader consumes the grammar *)

(** The input still to be read is [bs]. *)
Definition at_ (bs : list Z) (r : compact_reader) : Prop :=
  0 <= r_pos r /\ r_pos r <= Z.of_nat (length (r_in r)) /\
  drop (Z.to_nat (r_pos r)) (r_in r) = bs /\ Forall is_byte (r_in r) /\ 0 <= r_struct_depth r.

Definition adv (n : nat) (r : compact_reader) : compact_reader := set_pos (r_pos r + Z.of_nat n) r.

Definition quiet (r : compact_reader) : Prop := r_pending_bool_value r = None.

Lemma at_adv a b r : at_ (a ++ b) r -> at_ b (adv (length a) r).
Proof.
  intros (H0 & H1 & Hd & Hb & Hn). unfold at_, adv, set_pos. simpl.
  pose proof (f_equal length Hd) as Hl. rewrite length_drop, length_app in Hl.
  split_and!; [lia|lia| |done|done].
  replace (Z.to_nat (r_pos r + Z.of_nat (length a))) with (Z.to_nat (r_pos r) + length a)%nat by lia.
  by rewrite <- drop_drop, Hd, drop_app_length.
Qed.

Lemma at_bytes bs r : at_ bs r -> Forall is_byte bs.
Proof. intros (_ & _ & <- & H & _). by apply Forall_drop. Qed.

Lemma at_remaining bs r : at_ bs r -> remaining_bytes r = Z.of_nat (length bs).
Proof.
  intros (H0 & H1 & Hd & _). unfold remaining_bytes.
  pose proof (f_equal length Hd) as Hl. rewrite length_drop in Hl. lia.
Qed.

Lemma adv_adv a b r : adv b (adv a r) = adv (a + b) r.
Proof. unfold adv, set_pos. simpl. f_equal. lia. Qed.

Lemma adv_0 r : adv 0 r = r.
Proof. destruct r. unfold adv, set_pos. simpl. f_equal. lia. Qed.

Lemma ensure_quiet r : quiet r -> r_ensure_no_pending_bool r = (Ok tt, r).
Proof. unfold r_ensure_no_pending_bool, quiet, abind, get, ret. by intros ->. Qed.

Ltac run_quiet := erewrite (abind_ok r_ensure_no_pending_bool) by (apply ensure_quiet; done).

Lemma ensure_available_at n bs r : at_ bs r -> n <= Z.of_nat (length bs) ->
  ensure_available n r = (Ok tt, r).
Proof.
  intros Ha Hn. unfold ensure_available. rewrite abind_get, (at_remaining bs) by done.
  by destruct (Z.ltb_spec (Z.of_nat (length bs)) n); [lia|].
Qed.

Lemma take_u8_at b bs r : at_ (b :: bs) r -> take_u8 r = (Ok b, adv 1 r).
Proof.
  intros Ha. unfold take_u8. erewrite abind_ok by (eapply ensure_available_at; [done|simpl; lia]).
  rewrite abind_get. destruct Ha as (_ & _ & Hd & _).
  assert (r_in r !! Z.to_nat (r_pos r) = Some b) as ->; [|done].
  by rewrite <- (Nat.add_0_r (Z.to_nat _)), <- lookup_drop, Hd.
Qed.

Lemma skip_bytes_at a b r : at_ (a ++ b) r ->
  skip_bytes (Z.of_nat (length a)) r = (Ok tt, adv (length a) r).
Proof.
  intros Ha. unfold skip_bytes. erewrite abind_ok; [done|].
  eapply ensure_available_at; [done|]. rewrite length_app. lia.
Qed.

Lemma read_varint_at decode a b v r : at_ (a ++ b) r -> decode (a ++ b) = (Ok v, b) ->
  read_varint decode r = (Ok v, adv (length a) r).
Proof.
  intros Ha Hd. unfold read_varint. rewrite abind_get.
  destruct Ha as (_ & _ & -> & _). rewrite Hd. unfold adv, put, ret, abind.
  do 3 f_equal. rewrite length_app. lia.
Qed.

Lemma read_unsigned_at w v bs r : 0 < w -> in_u w v -> at_ (varint_bytes w v ++ bs) r ->
  read_varint (varint_decode w) r = (Ok v, adv (length (varint_bytes w v)) r).
Proof.
  intros Hw Hv Ha. eapply read_varint_at; [done|].
  apply at_bytes in Ha as Hb. apply Forall_app in Hb as [_ Hb]. by apply varint_bytes_spec.
Qed.

Lemma read_signed_at w v bs r : 0 < w -> in_s w v -> at_ (wire_int w v ++ bs) r ->
  read_varint (varint_decode_signed w) r = (Ok v, adv (length (wire_int w v)) r).
Proof.
  intros Hw Hv Ha. eapply read_varint_at; [done|].
  apply at_bytes in Ha as Hb. apply Forall_app in Hb as [_ Hb]. by apply wire_int_decode.
Qed.

Lemma read_i16_at v bs r : quiet r -> in_s 16 v -> at_ (wire_int 16 v ++ bs) r ->
  read_i16 r = (Ok v, adv (length (wire_int 16 v)) r).
Proof. intros. unfold read_i16. run_quiet. by eapply read_signed_at. Qed.
Lemma read_i32_at v bs r : quiet r -> in_s 32 v -> at_ (wire_int 32 v ++ bs) r ->
  read_i32 r = (Ok v, adv (length (wire_int 32 v)) r).
Proof. intros. unfold read_i32. run_quiet. by eapply read_signed_at. Qed.
Lemma read_i64_at v bs r : quiet r -> in_s 64 v -> at_ (wire_int 64 v ++ bs) r ->
  read_i64 r = (Ok v, adv (length (wire_int 64 v)) r).
Proof. intros. unfold read_i64. run_quiet. by eapply read_signed_at. Qed.

Lemma read_byte_at b bs r : quiet r -> at_ (b :: bs) r -> read_byte r = (Ok (wraps 8 b), adv 1 r).
Proof. intros. unfold read_byte. run_quiet. by erewrite abind_ok by by eapply take_u8_at. Qed.

Lemma read_bool_at v bs r : quiet r -> at_ (wire_bool v :: bs) r -> read_bool r = (Ok v, adv 1 r).
Proof.
  intros Hq Ha. unfold read_bool. rewrite abind_get, Hq.
  erewrite abind_ok by by eapply take_u8_at. by destruct v.
Qed.

Lemma read_double_loop_at n i bits bs r : 0 <= i -> i + Z.of_nat n <= 8 ->
  at_ (map (fun i => Z.land (Z.shiftr bits (i * 8)) 0xff) (seqZ i (Z.of_nat n)) ++ bs) r ->
  read_double_loop n i (bits mod 2 ^ (i * 8)) r = (Ok (bits mod 2 ^ ((i + Z.of_nat n) * 8)), adv n r).
Proof.
  revert i r. induction n as [|n IH]; intros i r Hi Hn Ha.
  { simpl. by rewrite Z.add_0_r, adv_0. }
  rewrite Nat2Z.inj_succ in *. rewrite seqZ_cons in Ha by lia. cbn [map app] in Ha.
  cbn [read_double_loop]. erewrite abind_ok by by eapply take_u8_at.
  apply (at_adv [_]) in Ha. rewrite Z.pred_succ in Ha.
  change 0xff with (2 ^ 8 - 1) in *. rewrite land_ones_mod by lia.
  pose proof (mod_pow2_range (Z.shiftr bits (i * 8)) 8 ltac:(lia)).
  pose proof (mod_pow2_range bits (i * 8) ltac:(lia)).
  pose proof (mod_pow2_app bits (i * 8) 8 ltac:(lia) ltac:(lia)) as Happ.
  pose proof (mod_pow2_range bits (i * 8 + 8) ltac:(lia)).
  assert (2 ^ (i * 8 + 8) <= 2 ^ 64) by (apply Z.pow_le_mono_r; lia).
  assert (0 <= Z.shiftr bits (i * 8) mod 2 ^ 8 * 2 ^ (i * 8)) by (apply Z.mul_nonneg_nonneg; lia).
  rewrite wrapu_small by (unfold in_u; rewrite Z.shiftl_mul_pow2 by lia; lia).
  rewrite lor_shiftl_add, <- Happ by lia.
  replace (i * 8 + 8) with (Z.succ i * 8) by lia.
  rewrite (IH (Z.succ i)); [|lia|lia|exact Ha]. rewrite adv_adv.
  by replace (Z.succ i + Z.of_nat n) with (i + Z.succ (Z.of_nat n)) by lia.
Qed.

Lemma read_double_at bits bs r : in_u 64 bits -> at_ (wire_double bits ++ bs) r ->
  read_double r = (Ok bits, adv 8 r).
Proof.
  intros Hb Ha. unfold read_double. pose proof (read_double_loop_at 8 0 bits bs r) as H.
  rewrite Z.mod_1_r in H. rewrite H by (done || lia). do 2 f_equal. by apply wrapu_small.
Qed.

Lemma read_size_at what n bs r : quiet r -> 0 <= n < 2 ^ 31 -> n <= max_string_bytes (r_options r) ->
  at_ (wire_size n ++ bs) r -> read_size what r = (Ok n, adv (length (wire_size n)) r).
Proof.
  intros Hq Hn Hm Ha. unfold read_size. run_quiet.
  erewrite abind_ok by (eapply read_unsigned_at; [| |done]; [|unfold in_u]; lia).
  rewrite abind_get. change (r_options (adv _ r)) with (r_options r).
  destruct (Z.ltb_spec (2 ^ 31 - 1) n); [lia|].
  by destruct (Z.ltb_spec (max_string_bytes (r_options r)) n); [lia|].
Qed.

Lemma read_size_i32_at what n bs r : 0 <= n < 2 ^ 31 -> n <= max_container_elems (r_options r) ->
  at_ (wire_size n ++ bs) r -> read_size_i32 what r = (Ok n, adv (length (wire_size n)) r).
Proof.
  intros Hn Hm Ha. unfold read_size_i32.
  erewrite abind_ok by (eapply read_unsigned_at; [| |done]; [|unfold in_u]; lia).
  rewrite abind_get. change (r_options (adv _ r)) with (r_options r).
  destruct (Z.ltb_spec (2 ^ 31 - 1) n); [lia|].
  by destruct (Z.ltb_spec (max_container_elems (r_options r)) n); [lia|].
Qed.

Lemma read_data_at what data bs r : quiet r -> Z.of_nat (length data) < 2 ^ 31 ->
  Z.of_nat (length data) <= max_string_bytes (r_options r) ->
  at_ (wire_binary data ++ bs) r ->
  read_data what r = (Ok data, adv (length (wire_binary data)) r).
Proof.
  intros Hq Hl Hm Ha. unfold wire_binary in *. rewrite <- app_assoc in Ha.
  unfold read_data. erewrite abind_ok by (eapply (read_size_at _ (Z.of_nat (length data))); [done|lia|done|done]).
  apply at_adv in Ha.
  erewrite abind_ok by (eapply ensure_available_at; [done|rewrite length_app; lia]).
  rewrite abind_get. destruct Ha as (_ & _ & Hd & _). unfold put, abind, ret.
  rewrite Hd, Nat2Z.id, take_app_length, length_app, <- adv_adv. done.
Qed.

Lemma to_ttype_ct t r : t <> stop_t -> t <> string_t -> to_ttype (ct_of t) r = (Ok t, r).
Proof. by destruct t. Qed.

Lemma read_list_begin_at t n bs r : quiet r -> t <> stop_t -> t <> string_t -> 0 <= n < 2 ^ 31 ->
  n <= max_container_elems (r_options r) -> at_ (wire_list_header t n ++ bs) r ->
  read_list_begin r = (Ok (t, n), adv (length (wire_list_header t n)) r).
Proof.
  intros Hq Ht Ht' Hn Hm Ha. unfold read_list_begin. run_quiet.
  pose proof (ct_of_range t) as Hct.
  unfold wire_list_header in *. destruct (Z.leb_spec n 14); simpl in Ha.
  - erewrite abind_ok by by eapply take_u8_at.
    destruct (nibbles n (ct_of t)) as (_ & -> & -> & _); [lia..|].
    erewrite abind_ok by by apply to_ttype_ct. rewrite decide_False by done.
    destruct (Z.eqb_spec n 0x0f); [lia|]. done.
  - erewrite abind_ok by by eapply take_u8_at. apply (at_adv [_]) in Ha.
    destruct (nibbles 15 (ct_of t)) as (_ & Hh & Hl & _); [lia..|].
    change 0xf0 with (15 * 16). rewrite Hh, Hl.
    erewrite abind_ok by by apply to_ttype_ct. rewrite decide_False by done. simpl.
    erewrite abind_ok by (eapply (read_size_i32_at _ n); [lia|done|done]).
    by rewrite adv_adv.
Qed.

Lemma read_map_begin_at k v n bs r : quiet r -> k <> stop_t -> k <> string_t ->
  v <> stop_t -> v <> string_t -> 0 <= n < 2 ^ 31 ->
  n <= max_container_elems (r_options r) -> at_ (wire_map_header k v n ++ bs) r ->
  read_map_begin r = (Ok (if n =? 0 then (stop_t, stop_t, 0) else (k, v, n)),
                      adv (length (wire_map_header k v n)) r).
Proof.
  intros Hq Hk Hk' Hv Hv' Hn Hm Ha. unfold read_map_begin. run_quiet.
  unfold wire_map_header in *. rewrite <- app_assoc in Ha.
  erewrite abind_ok by (eapply (read_size_i32_at _ n); [lia|done|done]). apply at_adv in Ha.
  destruct (Z.eqb_spec n 0) as [->|]; [by rewrite app_nil_r|].
  erewrite abind_ok by by eapply take_u8_at.
  destruct (nibbles (ct_of k) (ct_of v)) as (_ & -> & -> & _); [apply ct_of_range..|].
  erewrite abind_ok by by apply to_ttype_ct. erewrite abind_ok by by apply to_ttype_ct.
  rewrite !bool_decide_eq_false_2 by done. simpl.
  by rewrite length_app, adv_adv.
Qed.

Lemma read_struct_begin_at r : quiet r -> r_struct_depth r < max_struct_depth (r_options r) ->
  read_struct_begin r =
    (Ok tt, CompactReader (r_in r) (r_pos r) (r_options r)
              (r_last_field_id r :: r_last_field_stack r) 0
              (r_struct_depth r + 1) (r_pending_bool_value r)).
Proof.
  intros Hq Hd. unfold read_struct_begin. run_quiet. rewrite abind_get.
  by destruct (Z.leb_spec (max_struct_depth (r_options r)) (r_struct_depth r)); [lia|].
Qed.

Lemma read_struct_end_at r id stack : quiet r -> r_last_field_stack r = id :: stack ->
  0 < r_struct_depth r ->
  read_struct_end r =
    (Ok tt, CompactReader (r_in r) (r_pos r) (r_options r) stack id
              (r_struct_depth r - 1) (r_pending_bool_value r)).
Proof.
  intros Hq Hs Hd. unfold read_struct_end. run_quiet. rewrite abind_get, Hs.
  erewrite abind_ok by done. by destruct (Z.ltb_spec 0 (r_struct_depth r)); [|lia].
Qed.

Lemma read_field_stop_at bs r : quiet r -> at_ (ct_stop :: bs) r ->
  read_field_begin r = (Ok (stop_t, 0), adv 1 r).
Proof.
  intros Hq Ha. unfold read_field_begin. run_quiet. by erewrite abind_ok by by eapply take_u8_at.
Qed.

(** Whatever the previous field id, the header gives the type and id back. *)
Lemma read_field_begin_at t v id bs r : quiet r -> t <> stop_t -> t <> string_t ->
  in_s 16 id -> in_s 16 (r_last_field_id r) ->
  at_ (wire_field_header (r_last_field_id r) id
         (if decide (t = bool_t) then wire_bool v else ct_of t) ++ bs) r ->
  read_field_begin r =
    (Ok (t, id), set_r_last_field_id id
       (set_pending_bool_value (if decide (t = bool_t) then Some v else None)
          (adv (length (wire_field_header (r_last_field_id r) id
                  (if decide (t = bool_t) then wire_bool v else ct_of t))) r))).
Proof.
  set (ct := if decide (t = bool_t) then wire_bool v else ct_of t).
  intros Hq Ht Ht' Hid Hlast Ha. unfold read_field_begin. run_quiet.
  assert (0 < ct < 16) as Hct.
  { unfold ct. case_decide; [by destruct v|]. by destruct t. }
  assert (forall r', r_pending_bool_value r' = None ->
    (let! type := (if ct =? ct_boolean_true then
                     modify (set_pending_bool_value (Some true)) ;; ret bool_t
                   else if ct =? ct_boolean_false then
                     modify (set_pending_bool_value (Some false)) ;; ret bool_t
                   else to_ttype ct) in
     modify (set_r_last_field_id id) ;; ret (type, id)) r' =
    (Ok (t, id), set_r_last_field_id id
       (set_pending_bool_value (if decide (t = bool_t) then Some v else None) r'))) as Hrest.
  { intros [] Hp. simpl in Hp. subst. unfold ct. by destruct t, v. }
  unfold wire_field_header in *. unfold in_s in *.
  destruct (Z.ltb_spec (r_last_field_id r) id), (Z.leb_spec (id - r_last_field_id r) 15);
    simpl in Ha |- *; (erewrite abind_ok by by eapply take_u8_at); apply (at_adv [_]) in Ha.
  1: { destruct (nibbles (id - r_last_field_id r) ct) as (_ & -> & -> & _); [lia..|].
    destruct (Z.eqb_spec ((id - r_last_field_id r) * 16 + ct) ct_stop) as [He|]; [unfold ct_stop in He; lia|].
    destruct (Z.eqb_spec (id - r_last_field_id r) 0); [lia|]. cbv zeta. rewrite abind_get. simpl negb. cbv iota.
    rewrite abind_ret. change (r_last_field_id (adv 1 r)) with (r_last_field_id r).
    rewrite wraps_small by (try (unfold in_s); lia).
    replace (r_last_field_id r + (id - r_last_field_id r)) with id by lia. by apply Hrest. }
  all: destruct (nibbles 0 ct) as (_ & Hh & Hl & _); [lia..|]; change (0 * 16 + ct) with ct in Hh, Hl;
    (destruct (Z.eqb_spec ct ct_stop) as [He|]; [unfold ct_stop in He; lia|]);
    cbv zeta; rewrite abind_get, Hh, Hl; simpl negb; cbv iota;
    (erewrite abind_ok by by eapply (read_signed_at 16 id)); rewrite adv_adv; by apply Hrest.
Qed.

(** ** Safety and termination of the reader on arbitrary input *)

Definition reader_inv (r : compact_reader) : Prop :=
  0 <= r_pos r <= Z.of_nat (length (r_in r)) /\ Forall is_byte (r_in r) /\
  r_struct_depth r = Z.of_nat (length (r_last_field_stack r)).

(** [safe B n m]: from a consistent reader with at most [B] bytes left, [m]
    ends in a consistent reader of the same input at a position no smaller,
    and [n] bytes further if it returns; what it throws is a
    [protocol_error]. *)
Definition safe {A} (B n : Z) (m : reader A) : Prop :=
  forall r, reader_inv r -> remaining_bytes r <= B ->
    let (res, r') := m r in
    reader_inv r' /\ r_in r' = r_in r /\ r_options r' = r_options r /\ r_pos r <= r_pos r' /\
    match res with
    | Ok _ => r_pos r + n <= r_pos r'
    | Err e => exists what, e = protocol_error what
    end.

Lemma safe_ret {A} B (a : A) : safe B 0 (ret a).
Proof. intros r Hr _. simpl. split_and!; try done; try lia. Qed.

Lemma safe_throw {A} B n s : safe B n (@throw _ _ A (protocol_error s)).
Proof. intros r Hr _. simpl. split_and!; try done; try lia; eauto. Qed.

Lemma safe_weaken {A} B B' n n' (m : reader A) : safe B n m -> B' <= B -> n' <= n -> safe B' n' m.
Proof.
  intros Hm HB Hn r Hr Hrem. specialize (Hm r Hr ltac:(lia)). destruct (m r) as [[a|e] r'];
    destruct Hm as (?&?&?&?&?); split_and!; try done; lia.
Qed.

Lemma safe_bind {A C} B n k (m : reader A) (f : A -> reader C) :
  safe B n m -> (forall a, safe (B - n) k (f a)) -> safe B (n + k) (abind m f).
Proof.
  intros Hm Hf r Hr Hrem. specialize (Hm r Hr Hrem). unfold abind.
  destruct (m r) as [[a|e] r'] eqn:E; [|done].
  destruct Hm as (Hr' & Hin & Hopt & Hpos & Hadv).
  assert (remaining_bytes r' <= B - n) as Hrem'.
  { unfold remaining_bytes in *. rewrite Hin. lia. }
  specialize (Hf a r' Hr' Hrem'). destruct (f a r') as [[c|e] r''];
    destruct Hf as (?&?&?&?&?); split_and!; try done; try lia; congruence.
Qed.

Lemma safe_drop {A} B (m : reader A) : safe B 1 m -> safe B 0 m.
Proof. intros Hm. by apply (safe_weaken B B 1 0). Qed.

(** The next action may look at the state. *)
Lemma safe_get {C} B k (f : compact_reader -> reader C) :
  (forall r, reader_inv r -> remaining_bytes r <= B -> safe B k (f r)) -> safe B k (abind get f).
Proof. intros Hf r Hr Hrem. unfold abind, get. by apply Hf. Qed.

Lemma safe_if {A} (b : bool) B k (m1 m2 : reader A) :
  safe B k m1 -> safe B k m2 -> safe B k (if b then m1 else m2).
Proof. by destruct b. Qed.

Lemma safe_bind0 {A C} B k (m : reader A) (f : A -> reader C) :
  safe B 0 m -> (forall a, safe B k (f a)) -> safe B k (abind m f).
Proof.
  intros Hm Hf. apply (safe_bind B 0 k); [done|]. intros a. by rewrite Z.sub_0_r.
Qed.

Lemma safe_bind1 {A C} B (m : reader A) (f : A -> reader C) :
  safe B 1 m -> (forall a, safe (B - 1) 0 (f a)) -> safe B 1 (abind m f).
Proof. intros Hm Hf. by apply (safe_bind B 1 0). Qed.

Lemma safe_bind01 {A C} B (m : reader A) (f : A -> reader C) :
  safe B 0 m -> (forall a, safe B 1 (f a)) -> safe B 1 (abind m f).
Proof. apply safe_bind0. Qed.

(** An update of the bookkeeping that leaves position and stack alone. *)
Lemma safe_modify B (f : compact_reader -> compact_reader) :
  (forall r, reader_inv r -> reader_inv (f r) /\ r_in (f r) = r_in r /\
     r_options (f r) = r_options r /\ r_pos (f r) = r_pos r) ->
  safe B 0 (modify f).
Proof.
  intros Hf r Hr _. destruct (Hf r Hr) as (? & ? & ? & ?). simpl. split_and!; try done; lia.
Qed.

Lemma ensure_quiet_safe B : safe B 0 r_ensure_no_pending_bool.
Proof.
  unfold r_ensure_no_pending_bool. apply safe_get. intros r _ _.
  destruct (r_pending_bool_value r); [apply safe_throw|apply safe_ret].
Qed.

Lemma take_u8_safe B : safe B 1 take_u8.
Proof.
  intros r Hr _. unfold take_u8, ensure_available, abind, get, put, ret, throw.
  destruct Hr as (Hpos & Hb & Hd). destruct (Z.ltb_spec (remaining_bytes r) 1).
  { split_and!; try done; try lia; eauto. }
  unfold remaining_bytes in *. destruct (lookup_lt_is_Some_2 (r_in r) (Z.to_nat (r_pos r))) as [b ->]; [lia|].
  unfold reader_inv. simpl. split_and!; try done; lia.
Qed.

Lemma skip_bytes_safe B n : 0 <= n -> safe B 0 (skip_bytes n).
Proof.
  intros Hn r Hr _. unfold skip_bytes, ensure_available, abind, get, modify, ret, throw.
  destruct Hr as (Hpos & Hb & Hd). destruct (Z.ltb_spec (remaining_bytes r) n).
  { split_and!; try done; try lia; eauto. }
  unfold remaining_bytes in *. unfold reader_inv. simpl. split_and!; try done; lia.
Qed.

(** What a decoder does to its input: it drops at least a byte. *)
Definition decoder_ok (decode : action varint_error (list Z) Z) : Prop :=
  forall it, Forall is_byte it ->
    match decode it with
    | (Ok _, it') => (length it' < length it)%nat
    | (Err _, _) => True
    end.

Lemma varint_decode_ok w : 0 < w -> decoder_ok (varint_decode w).
Proof.
  intros Hw it Hit. unfold varint_decode. rewrite varint_decode_loop_reference by done.
  unfold varint_spec. destruct (list_find _ _) as [[i x]|] eqn:Hf; [|by destruct (_ <? _)%nat].
  apply list_find_Some in Hf as [Hi _]. apply lookup_lt_Some in Hi. rewrite length_take in Hi.
  simpl. destruct (_ <? _); [|done]. rewrite length_drop. lia.
Qed.

Lemma varint_decode_signed_ok w : 0 < w -> decoder_ok (varint_decode_signed w).
Proof.
  intros Hw it Hit. pose proof (varint_decode_ok w Hw it Hit) as H.
  unfold varint_decode_signed, abind, ret. by destruct (varint_decode w it) as [[]].
Qed.

Lemma read_varint_safe B decode : decoder_ok decode -> safe B 1 (read_varint decode).
Proof.
  intros Hok r Hr _. unfold read_varint, abind, get, put, ret, throw.
  destruct Hr as (Hpos & Hb & Hd).
  specialize (Hok (drop (Z.to_nat (r_pos r)) (r_in r)) ltac:(by apply Forall_drop)).
  rewrite length_drop in *.
  destruct (decode _) as [[v|e] it']; unfold reader_inv; simpl; split_and!; try done; try lia; eauto.
Qed.

#[export] Hint Resolve varint_decode_ok varint_decode_signed_ok read_varint_safe take_u8_safe
  ensure_quiet_safe safe_ret safe_throw : dwarfs.

(** [safe_step] peels one construct off an action. *)
Ltac safe_step :=
  match goal with
  | |- forall _, _ => intros ?
  | |- safe _ _ (if decide _ then _ else _) => case_decide
  | |- safe _ _ (if ?b then _ else _) => apply (safe_if b)
  | |- safe _ _ (abind get _) => apply safe_get; intros ? ? ?
  | |- safe _ 0 (abind _ _) => apply safe_bind0
  | |- safe _ 1 (abind _ _) => first [apply safe_bind01; [solve [eauto with dwarfs]|] | apply safe_bind1]
  | |- safe _ _ (modify _) => apply safe_modify; intros [] (? & ? & ?); unfold reader_inv in *; simpl in *; split_and!; (done || lia)
  | |- safe _ _ (match ?x with _ => _ end) => destruct x
  | |- safe _ _ _ => solve [eauto with dwarfs
                     | apply safe_drop; eauto with dwarfs]
  end.

Lemma to_ttype_safe B t : safe B 0 (to_ttype t).
Proof. unfold to_ttype. repeat safe_step. Qed.
#[export] Hint Resolve to_ttype_safe : dwarfs.

Lemma read_i16_unchecked_safe B : safe B 1 read_i16_unchecked.
Proof. unfold read_i16_unchecked. auto with dwarfs. Qed.
#[export] Hint Resolve read_i16_unchecked_safe : dwarfs.

(** [get] followed by an action of the state it returned, pointwise. *)
Lemma safe_get_at {C} B k (f : compact_reader -> reader C) :
  (forall B' r, B' = remaining_bytes r -> B' <= B -> reader_inv r -> 
     forall g, g = f r -> exists m, safe B' k m /\ g r = m r) -> safe B k (abind get f).
Proof.
  intros Hf r Hr Hrem. unfold abind, get.
  destruct (Hf _ r eq_refl Hrem Hr _ eq_refl) as (m & Hm & ->). by apply Hm.
Qed.

(** Replacing the state that was read by a bookkeeping update of it. *)
Lemma safe_get_put {A} B k f (m : reader A) :
  safe B k (modify f ;; m) -> forall r, (put (f r) ;; m) r = (modify f ;; m) r.
Proof. done. Qed.

Lemma read_bool_safe B : safe B 0 read_bool.
Proof.
  unfold read_bool. apply safe_get_at. intros B' r -> HB Hr g ->.
  destruct (r_pending_bool_value r) as [v|] eqn:E.
  - exists (modify (set_pending_bool_value None) ;; ret v). split; [|done]. repeat safe_step.
  - eexists. split; [|done]. repeat safe_step.
Qed.
Lemma read_byte_safe B : safe B 1 read_byte.
Proof. unfold read_byte. repeat safe_step. Qed.
Lemma read_i16_safe B : safe B 1 read_i16.
Proof. unfold read_i16. repeat safe_step. Qed.
Lemma read_i32_safe B : safe B 1 read_i32.
Proof. unfold read_i32. repeat safe_step. Qed.
Lemma read_i64_safe B : safe B 1 read_i64.
Proof. unfold read_i64. repeat safe_step. Qed.

Lemma read_double_loop_safe B n i bits : safe B 0 (read_double_loop n i bits).
Proof. revert i bits B. induction n as [|n IH]; intros; cbn [read_double_loop]; repeat safe_step. Qed.
Lemma read_double_safe B : safe B 0 read_double.
Proof. apply read_double_loop_safe. Qed.

Lemma read_struct_begin_safe B : safe B 0 read_struct_begin.
Proof.
  unfold read_struct_begin. apply safe_bind0; [auto with dwarfs|]. intros _. apply safe_get_at.
  intros B' r -> HB Hr g ->. exists (if max_struct_depth (r_options r) <=? r_struct_depth r
    then throw (protocol_error "max struct depth exceeded") else
    modify (fun r => CompactReader (r_in r) (r_pos r) (r_options r)
              (r_last_field_id r :: r_last_field_stack r) 0
              (r_struct_depth r + 1) (r_pending_bool_value r))).
  split; [|by destruct (_ <=? _)].
  destruct (_ <=? _); [apply safe_throw|]. apply safe_modify.
  intros r' (? & ? & ?). unfold reader_inv in *. simpl in *. split_and!; done || lia.
Qed.

(** [TL_CHECK(struct_depth_ > 0)] holds because the depth is the stack's. *)
Lemma read_struct_end_safe B : safe B 0 read_struct_end.
Proof.
  unfold read_struct_end. apply safe_bind0; [auto with dwarfs|]. intros _.
  intros r (? & ? & Hd) _. unfold abind, get. destruct (r_last_field_stack r) eqn:Hs.
  - simpl. split_and!; try done; try lia; [|eauto]. unfold reader_inv. by rewrite Hs.
  - simpl in *. destruct (Z.ltb_spec 0 (r_struct_depth r)); [|lia].
    unfold reader_inv. simpl. split_and!; done || lia.
Qed.

Lemma read_field_begin_safe B : safe B 1 read_field_begin.
Proof. unfold read_field_begin. repeat safe_step. Qed.

Lemma read_size_i32_safe B what : safe B 1 (read_size_i32 what).
Proof. unfold read_size_i32. repeat safe_step. Qed.

Lemma read_size_safe B what : safe B 1 (read_size what).
Proof. unfold read_size. repeat safe_step. Qed.
#[export] Hint Resolve read_bool_safe read_byte_safe read_i16_safe read_i32_safe read_i64_safe
  read_double_safe read_struct_begin_safe read_struct_end_safe read_field_begin_safe
  read_size_i32_safe read_size_safe : dwarfs.

Lemma read_list_begin_safe B : safe B 1 read_list_begin.
Proof. unfold read_list_begin. repeat safe_step. Qed.

Lemma read_map_begin_safe B : safe B 1 read_map_begin.
Proof. unfold read_map_begin. repeat safe_step. Qed.
#[export] Hint Resolve read_list_begin_safe read_map_begin_safe : dwarfs.

(** Sequencing after an action with a postcondition on its result. *)
Lemma safe_bind_post {A C} (P : A -> Prop) B n k (m : reader A) (f : A -> reader C) :
  safe B n m -> (forall r a r', reader_inv r -> m r = (Ok a, r') -> P a) ->
  (forall a, P a -> safe (B - n) k (f a)) -> safe B (n + k) (abind m f).
Proof.
  intros Hm HP Hf r Hr Hrem. specialize (Hm r Hr Hrem). unfold abind.
  destruct (m r) as [[a|e] r'] eqn:E; [|done].
  destruct Hm as (Hr' & Hin & Hopt & Hpos & Hadv).
  assert (remaining_bytes r' <= B - n) as Hrem' by (unfold remaining_bytes in *; rewrite Hin; lia).
  specialize (Hf a (HP _ _ _ Hr E) r' Hr' Hrem'). destruct (f a r') as [[c|e] r''];
    destruct Hf as (?&?&?&?&?); split_and!; try done; try lia; congruence.
Qed.

Lemma varint_decode_nonneg w it v it' : 0 < w -> Forall is_byte it ->
  varint_decode w it = (Ok v, it') -> 0 <= v.
Proof.
  intros Hw Hit. unfold varint_decode. rewrite varint_decode_loop_reference by done.
  unfold varint_spec. destruct (list_find _ _) as [[i x]|]; [|by destruct (_ <? _)%nat].
  pose proof (varint_value_nonneg (take (S i) it)). cbv zeta. destruct (_ <? _); [|done]. by intros [= <- _].
Qed.

Lemma read_size_nonneg what r n r' : reader_inv r -> read_size what r = (Ok n, r') -> 0 <= n.
Proof.
  intros (_ & Hb & _). unfold read_size, r_ensure_no_pending_bool, read_varint, abind, get, put, ret, throw.
  destruct (r_pending_bool_value r); simpl; [discriminate|].
  destruct (varint_decode 32 _) as [[v|e] it'] eqn:E; [|simpl; discriminate].
  apply varint_decode_nonneg in E; [|done|by apply Forall_drop].
  destruct (_ <? v); [simpl; discriminate|]. destruct (_ <? v); [simpl; discriminate|]. by intros [= <- _].
Qed.

Lemma read_data_safe B what : safe B 1 (read_data what).
Proof.
  unfold read_data. apply (safe_bind_post (fun n => 0 <= n) B 1 0); [auto with dwarfs|by apply read_size_nonneg|].
  intros sz Hsz r (Hpos & Hb & Hd) _. unfold ensure_available, abind, get, put, ret, throw.
  destruct (Z.ltb_spec (remaining_bytes r) sz); [split_and!; try done; try lia; eauto|].
  unfold remaining_bytes, reader_inv in *. simpl. split_and!; try done; lia.
Qed.

Lemma safe_neg {A} B n (m : reader A) : B < 0 -> safe B n m.
Proof. intros HB r (? & _) Hrem. unfold remaining_bytes in *. lia. Qed.

Lemma repeatA_safe B n (body : reader unit) : safe B 0 body -> safe B 0 (repeatA body n).
Proof. intros Hb. induction n as [|n IH]; simpl; [auto with dwarfs|]. by apply safe_bind0. Qed.

(** With the fuel [skip] takes, nothing runs out: every field header and
    every collection header consumes a byte. *)
Lemma skip_impl_safe fuel :
  (forall t d B, 2 * B + 2 <= Z.of_nat fuel -> safe B 0 (skip_impl fuel t d)) /\
  (forall d B, 2 * B + 1 <= Z.of_nat fuel -> safe B 0 (skip_fields fuel d)).
Proof.
  induction fuel as [|fuel [IHi IHf]].
  { split; intros; apply safe_neg; lia. }
  split.
  - intros t d B HB. cbn [skip_impl]. apply safe_get. intros r _ _. apply safe_if; [apply safe_throw|].
    destruct t; [solve [repeat safe_step]..| | | | | | | ].
    + apply safe_drop, (safe_bind_post (fun n => 0 <= n) B 1 0); [auto with dwarfs|by apply read_size_nonneg|].
      intros n Hn. by apply skip_bytes_safe.
    + apply safe_drop, (safe_bind_post (fun n => 0 <= n) B 1 0); [auto with dwarfs|by apply read_size_nonneg|].
      intros n Hn. by apply skip_bytes_safe.
    + apply safe_drop, safe_bind1; [auto with dwarfs|]. intros [et n].
      apply safe_bind0; [|intros; apply safe_ret]. apply repeatA_safe, IHi. lia.
    + apply safe_drop, safe_bind1; [apply read_list_begin_safe|]. intros [et n].
      apply safe_bind0; [|intros; apply safe_ret]. apply repeatA_safe, IHi. lia.
    + apply safe_drop, safe_bind1; [auto with dwarfs|]. intros [[kt vt] n].
      apply safe_bind0; [|intros; apply safe_ret]. apply repeatA_safe.
      apply safe_bind0; [apply IHi; lia|]. intros _. apply IHi. lia.
    + apply safe_bind0; [auto with dwarfs|]. intros _.
      apply safe_bind0; [apply IHf; lia|]. intros _. auto with dwarfs.
    + apply safe_bind0; [auto with dwarfs|]. intros _. by apply skip_bytes_safe.
  - intros d B HB. cbn [skip_fields]. apply safe_drop, safe_bind1; [auto with dwarfs|]. intros [ft fid].
    case_decide; [apply safe_ret|]. apply safe_bind0; [apply IHi; lia|]. intros _.
    apply safe_bind0; [apply safe_ret|]. intros _. apply IHf. lia.
Qed.

Lemma skip_safe B t : safe B 0 (skip t).
Proof.
  intros r Hr Hrem. unfold skip.
  apply (proj1 (skip_impl_safe _) t 0 (remaining_bytes r)); [|done|lia].
  destruct Hr as [? _]. unfold remaining_bytes in *. lia.
Qed.
#[export] Hint Resolve skip_safe read_data_safe : dwarfs.

(** [skip] on arbitrary input bytes always ends: it returns, or throws a
    [protocol_error] (never a failed internal check, an access outside the
    buffer or the end of the model's fuel), does not move backwards and stays
    within the buffer. *)
Theorem skip_terminates t bytes options : Forall is_byte bytes ->
  let (res, r') := skip t (compact_reader_init bytes options) in
  0 <= consumed_bytes r' <= Z.of_nat (length bytes) /\
  match res with Ok _ => True | Err e => exists what, e = protocol_error what end.
Proof.
  intros Hb. set (r := compact_reader_init bytes options).
  assert (reader_inv r) as Hr by (unfold reader_inv; simpl; split_and!; try done; lia).
  pose proof (skip_safe (remaining_bytes r) t r Hr ltac:(lia)) as H.
  destruct (skip t r) as [[] r'']; destruct H as ((? & _) & Hin & _ & _ & H); unfold consumed_bytes;
    rewrite Hin in *; done.
Qed.

Lemma skip_terminates_witness :
  let (res, r') := skip struct_t (compact_reader_init [0x19; 0x25; 0x02] default_decode_options) in
  (0 <= consumed_bytes r' <= 3) /\
  match res with Ok _ => True | Err e => exists what, e = protocol_error what end.
Proof.
  apply (skip_terminates struct_t [0x19; 0x25; 0x02] default_decode_options).
  repeat constructor; discriminate.
Defined.
