(* ===== verification/ProtocolMethods.v ===== *)
(** * ProtocolMethods: reading and writing typed values over the protocol

    [include/dwarfs/thrift_lite/detail/protocol_methods.h] and
    [protocol_type.h], and the [read]/[write] members that
    [cmake/thrift-lite.py] emits for every struct.  A C++ type with its type
    class is a [ty], an object a [value].  A struct is the list of the fields
    that are set, in ascending order of their ids; a set and a map are their
    elements in iteration order. *)

From S2P Require Import Prelude Varint CompactProtocol.
Local Open Scope Z_scope.

Inductive int_width : Type := I8 | I16 | I32 | I64.

Inductive ty : Type :=
  | TBool
  | TInt (w : int_width) (sgn : bool)
  | TDouble
  | TEnum
  | TBinary
  | TString
  | TList (e : ty)
  | TSet (e : ty)
  | TMap (k m : ty)
  | TStruct (fields : list (Z * ty)).

Inductive value : Type :=
  | VBool (b : bool)
  | VInt (z : Z)
  | VDouble (bits : Z)
  | VBytes (bs : list Z)
  | VList (l : list value)
  | VSet (l : list value)
  | VMap (l : list (value * value))
  | VStruct (l : list (Z * value)).

Section value_ind.
Context (P : value -> Prop).
Hypothesis Hbool : forall b, P (VBool b).
Hypothesis Hint : forall z, P (VInt z).
Hypothesis Hdouble : forall z, P (VDouble z).
Hypothesis Hbytes : forall bs, P (VBytes bs).
Hypothesis Hlist : forall l, Forall P l -> P (VList l).
Hypothesis Hset : forall l, Forall P l -> P (VSet l).
Hypothesis Hmap : forall l, Forall (fun p => P p.1 /\ P p.2) l -> P (VMap l).
Hypothesis Hstruct : forall l, Forall (fun p => P p.2) l -> P (VStruct l).

Lemma value_ind_nested v : P v.
Proof.
  revert v. fix IH 1. intros [b|z|z|bs|l|l|l|l].
  - apply Hbool.
  - apply Hint.
  - apply Hdouble.
  - apply Hbytes.
  - apply Hlist. induction l; constructor; [apply IH|done].
  - apply Hset. induction l; constructor; [apply IH|done].
  - apply Hmap. induction l as [|[]]; constructor; [split; apply IH|done].
  - apply Hstruct. induction l as [|[]]; constructor; [apply IH|done].
Qed.
End value_ind.

#[export] Instance value_eq_dec : EqDecision value.
Proof.
  refine (fix go x y := let _ : EqDecision value := @go in
    match x, y with
    | VBool a, VBool b => cast_if (decide (a = b))
    | VInt a, VInt b => cast_if (decide (a = b))
    | VDouble a, VDouble b => cast_if (decide (a = b))
    | VBytes a, VBytes b => cast_if (decide (a = b))
    | VList a, VList b => cast_if (decide (a = b))
    | VSet a, VSet b => cast_if (decide (a = b))
    | VMap a, VMap b => cast_if (decide (a = b))
    | VStruct a, VStruct b => cast_if (decide (a = b))
    | _, _ => right _
    end); abstract congruence.
Defined.

(** ** Operations *)

Definition ttype_int (w : int_width) : ttype :=
  match w with I8 => byte_t | I16 => i16_t | I32 => i32_t | I64 => i64_t end.

(** [ttype_v<TypeClass, T>]. *)
Definition ttype_v (t : ty) : ttype :=
  match t with
  | TBool => bool_t
  | TInt w _ => ttype_int w
  | TDouble => double_t
  | TEnum => i32_t
  | TBinary | TString => binary_t
  | TList _ => list_t
  | TSet _ => set_t
  | TMap _ _ => map_t
  | TStruct _ => struct_t
  end.

(** The type of the field with an id, which selects the [case]. *)
Fixpoint field_type (fs : list (Z * ty)) (id : Z) : option ty :=
  match fs with
  | [] => None
  | (i, t) :: fs => if i =? id then Some t else field_type fs id
  end.

Definition write_int (w : int_width) (z : Z) : writer unit :=
  match w with
  | I8 => write_byte (wraps 8 z)
  | I16 => write_i16 (wraps 16 z)
  | I32 => write_i32 (wraps 32 z)
  | I64 => write_i64 (wraps 64 z)
  end.

Definition read_int (w : int_width) (sgn : bool) : reader Z :=
  match w with
  | I8 => let! z := read_byte in ret (if sgn then z else wrapu 8 z)
  | I16 => let! z := read_i16 in ret (if sgn then z else wrapu 16 z)
  | I32 => let! z := read_i32 in ret (if sgn then z else wrapu 32 z)
  | I64 => let! z := read_i64 in ret (if sgn then z else wrapu 64 z)
  end.

(** A value whose shape is not its type's cannot be written in C++: it is a
    [panic] of the model. *)
Definition ill_typed {A} : writer A := throw (panic "ill-typed value").

(** [write] of the container type classes, over the [write] of their
    elements, and of a generated struct. *)
Definition write_list (et : ttype) (we : value -> writer unit) (l : list value) : writer unit :=
  write_list_begin et (wraps 32 (Z.of_nat (length l))) ;;
  forA we l ;;
  write_list_end.

Definition write_set (et : ttype) (we : value -> writer unit) (l : list value) : writer unit :=
  write_set_begin et (wraps 32 (Z.of_nat (length l))) ;;
  forA we l ;;
  write_set_end.

Definition write_map (kt mt : ttype) (wk wm : value -> writer unit) (l : list (value * value)) : writer unit :=
  write_map_begin kt mt (wraps 32 (Z.of_nat (length l))) ;;
  forA (fun p => match p with (key, mapped) => wk key ;; wm mapped end) l ;;
  write_map_end.

Definition write_struct (wf : Z -> value -> writer unit) (l : list (Z * value)) : writer unit :=
  write_struct_begin ;;
  forA (fun p => match p with (id, v) => wf id v end) l ;;
  write_field_stop ;;
  write_struct_end.

Fixpoint write_value (t : ty) (v : value) {struct v} : writer unit :=
  match t, v with
  | TBool, VBool b => write_bool b
  | TInt w _, VInt z => write_int w z
  | TDouble, VDouble bits => write_double bits
  | TEnum, VInt z => write_i32 (wraps 32 z)
  | TBinary, VBytes bs => write_binary bs
  | TString, VBytes bs => write_string bs
  | TList e, VList l => write_list (ttype_v e) (write_value e) l
  | TSet e, VSet l => write_set (ttype_v e) (write_value e) l
  | TMap k m, VMap l => write_map (ttype_v k) (ttype_v m) (write_value k) (write_value m) l
  | TStruct fs, VStruct l =>
      write_struct (fun id v =>
        match field_type fs id with
        | Some t => write_field_begin (ttype_v t) id ;; write_value t v ;; write_field_end
        | None => ill_typed
        end) l
  | _, _ => ill_typed
  end.

(** [detail::skip_elements]. *)
Definition skip_elements (size : Z) (element_types : list ttype) : reader unit :=
  repeatA (forA skip element_types) (Z.to_nat size).

(** [out.insert(x)] of a set, and the [emplace] of a map: an element with an
    equivalent key keeps its place. *)
Definition set_insert (x : value) (out : list value) : list value :=
  if decide (x ∈ out) then out else out ++ [x].
Definition map_emplace (p : value * value) (out : list (value * value)) : list (value * value) :=
  if decide (p.1 ∈ map fst out) then out else out ++ [p].

(** Assignment of a struct's field. *)
Fixpoint set_field (id : Z) (v : value) (l : list (Z * value)) : list (Z * value) :=
  match l with
  | [] => [(id, v)]
  | (i, x) :: l =>
      if id <? i then (id, v) :: (i, x) :: l
      else if id =? i then (id, v) :: l
      else (i, x) :: set_field id v l
  end.

(** The element loops: [n] iterations reading into a container. *)
Definition read_into {A B} (body : reader A) (add : A -> list B -> list B) (n : nat) : reader (list B) :=
  let! l := readA body n in ret (foldl (fun out x => add x out) [] l).

(** The [switch (field_id)] of a struct's [read]: [rv] reads a field of a
    type, an unknown field or one of another wire type is skipped. *)
Definition read_field (rv : ty -> reader value) (fs : list (Z * ty)) (field_type_ : ttype)
    (field_id : Z) (l : list (Z * value)) : reader (list (Z * value)) :=
  match field_type fs field_id with
  | Some t =>
      if decide (field_type_ = ttype_v t)
      then let! v := rv t in ret (set_field field_id v l)
      else skip field_type_ ;; ret l
  | None => skip field_type_ ;; ret l
  end.

(** [read] of the container type classes, over the [read] of their elements. *)
Definition read_list (et : ttype) (re : reader value) : reader (list value) :=
  let! '(elem_type, size) := read_list_begin in
  let! out := (if decide (elem_type = et)
               then read_into re (fun x out => out ++ [x]) (Z.to_nat size)
               else skip_elements size [elem_type] ;; ret []) in
  read_list_end ;;
  ret out.

Definition read_set (et : ttype) (re : reader value) : reader (list value) :=
  let! '(elem_type, size) := read_set_begin in
  let! out := (if decide (elem_type = et)
               then read_into re set_insert (Z.to_nat size)
               else skip_elements size [elem_type] ;; ret []) in
  read_set_end ;;
  ret out.

Definition read_map (kt mt : ttype) (rk rm : reader value) : reader (list (value * value)) :=
  let! '(key_tt, mapped_tt, size) := read_map_begin in
  let! out := (if bool_decide (key_tt = kt) && bool_decide (mapped_tt = mt)
               then read_into (let! key := rk in let! mapped := rm in ret (key, mapped))
                      map_emplace (Z.to_nat size)
               else skip_elements size [key_tt; mapped_tt] ;; ret []) in
  read_map_end ;;
  ret out.

(** As for [skip], the fuel bounds the recursion; [read] takes what is enough
    for the input at hand. *)
Fixpoint read_value (fuel : nat) (t : ty) {struct fuel} : reader value :=
  match fuel with
  | O => throw out_of_fuel
  | S fuel =>
      match t with
      | TBool => let! b := read_bool in ret (VBool b)
      | TInt w sgn => let! z := read_int w sgn in ret (VInt z)
      | TDouble => let! bits := read_double in ret (VDouble bits)
      | TEnum => let! z := read_i32 in ret (VInt z)
      | TBinary => let! bs := read_binary in ret (VBytes bs)
      | TString => let! bs := read_string in ret (VBytes bs)
      | TList e => let! l := read_list (ttype_v e) (read_value fuel e) in ret (VList l)
      | TSet e => let! l := read_set (ttype_v e) (read_value fuel e) in ret (VSet l)
      | TMap k m =>
          let! l := read_map (ttype_v k) (ttype_v m) (read_value fuel k) (read_value fuel m) in ret (VMap l)
      | TStruct fs =>
          read_struct_begin ;;
          let! l := read_fields fuel fs [] in
          read_struct_end ;;
          ret (VStruct l)
      end
  end
with read_fields (fuel : nat) (fs : list (Z * ty)) (l : list (Z * value)) {struct fuel}
  : reader (list (Z * value)) :=
  match fuel with
  | O => throw out_of_fuel
  | S fuel =>
      let! '(field_type_, field_id) := read_field_begin in
      if decide (field_type_ = stop_t) then ret l
      else
        let! l := read_field (read_value fuel) fs field_type_ field_id l in
        read_field_end ;;
        read_fields fuel fs l
  end.

Definition read (t : ty) : reader value :=
  fun r => read_value (2 * Z.to_nat (remaining_bytes r) + 2) t r.

(** ** The wire grammar of typed values *)

Definition wire_int_value (w : int_width) (z : Z) : list Z :=
  match w with
  | I8 => [wrapu 8 z]
  | I16 => wire_int 16 (wraps 16 z)
  | I32 => wire_int 32 (wraps 32 z)
  | I64 => wire_int 64 (wraps 64 z)
  end.

(** The type nibble of a field header. *)
Definition field_ct (t : ty) (v : value) : Z :=
  match v with VBool b => wire_bool b | _ => ct_of (ttype_v t) end.

Fixpoint wire (t : ty) (v : value) {struct v} : list Z :=
  match t, v with
  | TBool, VBool b => [wire_bool b]
  | TInt w _, VInt z => wire_int_value w z
  | TDouble, VDouble bits => wire_double bits
  | TEnum, VInt z => wire_int 32 z
  | TBinary, VBytes bs => wire_binary bs
  | TString, VBytes bs => wire_binary bs
  | TList e, VList l => wire_list_header (ttype_v e) (Z.of_nat (length l)) ++ concat (map (wire e) l)
  | TSet e, VSet l => wire_list_header (ttype_v e) (Z.of_nat (length l)) ++ concat (map (wire e) l)
  | TMap k m, VMap l =>
      wire_map_header (ttype_v k) (ttype_v m) (Z.of_nat (length l)) ++
      concat (map (fun p => match p with (x, y) => wire k x ++ wire m y end) l)
  | TStruct fs, VStruct l =>
      (fix go (last : Z) (l : list (Z * value)) : list Z :=
         match l with
         | [] => [ct_stop]
         | (id, v) :: l =>
             match field_type fs id with
             | Some t =>
                 wire_field_header last id (field_ct t v) ++
                 (match v with VBool _ => [] | _ => wire t v end) ++ go id l
             | None => []
             end
         end) 0 l
  | _, _ => []
  end.

Fixpoint wire_fields (fs : list (Z * ty)) (last : Z) (l : list (Z * value)) : list Z :=
  match l with
  | [] => [ct_stop]
  | (id, v) :: l =>
      match field_type fs id with
      | Some t =>
          wire_field_header last id (field_ct t v) ++
          (match v with VBool _ => [] | _ => wire t v end) ++ wire_fields fs id l
      | None => []
      end
  end.

Lemma wire_struct fs l : wire (TStruct fs) (VStruct l) = wire_fields fs 0 l.
Proof.
  cbn [wire]. generalize 0. induction l as [|[id v] l IH]; intros last; [done|].
  cbn [wire_fields]. destruct (field_type fs id) as [t|]; [|done]. by rewrite <- IH.
Qed.

(** ** Well-typed values *)

Definition int_bits (w : int_width) : Z :=
  match w with I8 => 8 | I16 => 16 | I32 => 32 | I64 => 64 end.

Abbreviation fits_i32 l := (Z.of_nat (length l) < 2 ^ 31).

Inductive has_type : ty -> value -> Prop :=
  | ht_bool b : has_type TBool (VBool b)
  | ht_int w (sgn : bool) z : (if sgn then in_s (int_bits w) z else in_u (int_bits w) z) ->
      has_type (TInt w sgn) (VInt z)
  | ht_double bits : in_u 64 bits -> has_type TDouble (VDouble bits)
  | ht_enum z : in_s 32 z -> has_type TEnum (VInt z)
  | ht_binary bs : fits_i32 bs -> Forall is_byte bs -> has_type TBinary (VBytes bs)
  | ht_string bs : fits_i32 bs -> Forall is_byte bs -> has_type TString (VBytes bs)
  | ht_list e l : fits_i32 l -> Forall (has_type e) l -> has_type (TList e) (VList l)
  | ht_set e l : fits_i32 l -> NoDup l -> Forall (has_type e) l -> has_type (TSet e) (VSet l)
  | ht_map k m l : fits_i32 l -> NoDup (map fst l) ->
      Forall (fun p => has_type k p.1 /\ has_type m p.2) l -> has_type (TMap k m) (VMap l)
  | ht_struct fs l : StronglySorted Z.lt (map fst l) ->
      Forall (fun p => in_s 16 p.1 /\ exists t, field_type fs p.1 = Some t /\ has_type t p.2) l ->
      has_type (TStruct fs) (VStruct l).

Definition zmax (l : list Z) : Z := foldr Z.max 0 l.

(** The limits of [decode_options] a value needs: nesting depth and sizes. *)
Fixpoint nesting (v : value) : Z :=
  match v with
  | VList l | VSet l => 1 + zmax (map nesting l)
  | VMap l => 1 + zmax (map (fun p => match p with (x, y) => Z.max (nesting x) (nesting y) end) l)
  | VStruct l => 1 + zmax (map (fun p => match p with (_, x) => nesting x end) l)
  | _ => 0
  end.

Fixpoint sizes_ok (o : decode_options) (v : value) : bool :=
  match v with
  | VBytes bs => Z.of_nat (length bs) <=? max_string_bytes o
  | VList l | VSet l => (Z.of_nat (length l) <=? max_container_elems o) && forallb (sizes_ok o) l
  | VMap l => (Z.of_nat (length l) <=? max_container_elems o) &&
      forallb (fun p => match p with (x, y) => sizes_ok o x && sizes_ok o y end) l
  | VStruct l => forallb (fun p => match p with (_, x) => sizes_ok o x end) l
  | _ => true
  end.

Lemma zmax_le x l : In x l -> x <= zmax l.
Proof. induction l as [|y l IH]; simpl; [done|]. intros [->|H]; [lia|]. apply IH in H. unfold zmax in *. lia. Qed.

Lemma zmax_nonneg l : 0 <= zmax l.
Proof. induction l; simpl; [done|]. unfold zmax in *. lia. Qed.

Lemma nesting_nonneg v : 0 <= nesting v.
Proof. destruct v; simpl; try lia; match goal with |- context [zmax ?l] => pose proof (zmax_nonneg l) end; lia. Qed.

Lemma ttype_v_ok t : ttype_v t <> stop_t /\ ttype_v t <> string_t.
Proof. by destruct t as [|[]| | | | | | | |]. Qed.

Lemma ttype_v_bool t v : has_type t v -> (ttype_v t = bool_t <-> exists b, v = VBool b).
Proof. intros []; try destruct w; simpl; (split; [by eauto|by intros [? [=]]]). Qed.

Lemma field_ct_range t v : 0 <= field_ct t v < 16.
Proof. destruct v as [[]| | | | | | |]; simpl; try apply ct_of_range; done. Qed.

(** ** The writer refines the grammar *)

Lemma write_int_emit w z wr : idle wr -> write_int w z wr = (Ok tt, emit (wire_int_value w z) wr).
Proof.
  intros Hw. destruct w; simpl.
  - by rewrite write_byte_emit, wrapu_of_wraps.
  - apply write_i16_emit; [done|]. by apply wraps_range.
  - apply write_i32_emit; [done|]. by apply wraps_range.
  - apply write_i64_emit; [done|]. by apply wraps_range.
Qed.

Lemma forA_emit {A} (body : A -> writer unit) (f : A -> list Z) l w :
  Forall (fun x => forall w, idle w -> body x w = (Ok tt, emit (f x) w)) l -> idle w ->
  forA body l w = (Ok tt, emit (concat (map f l)) w).
Proof.
  intros Hl. revert w. induction Hl as [|x l Hx Hl IH]; intros w Hw; simpl; [by rewrite emit_nil|].
  erewrite abind_ok by by apply Hx. rewrite IH by done. by rewrite emit_emit.
Qed.

Definition writes (v : value) : Prop := forall t w, has_type t v -> idle w ->
  write_value t v w = (Ok tt, emit (wire t v) w).

(** One field: header and value, or the header alone for a boolean. *)
Lemma write_field_emit t v id out stack last : writes v -> has_type t v -> in_s 16 id ->
  (write_field_begin (ttype_v t) id ;; write_value t v ;; write_field_end)
    (CompactWriter out stack last None) =
  (Ok tt, CompactWriter (out ++ wire_field_header last id (field_ct t v) ++
             (match v with VBool _ => [] | _ => wire t v end)) stack id None).
Proof.
  intros Hv Ht Hid. unfold write_field_begin.
  rewrite abind_assoc. run_idle.
  case_decide as Hb.
  - apply (ttype_v_bool t v Ht) in Hb as [b ->]. inversion Ht; subst. simpl.
    unfold set_pending_bool_field_id, modify. erewrite abind_ok by done. simpl.
    erewrite abind_ok; [done|]. unfold write_bool. rewrite abind_get. cbn [w_pending_bool_field_id].
    unfold flush_pending_bool_field, set_pending_bool_field_id, modify. erewrite abind_ok by done. simpl.
    rewrite write_field_header_emit by (done || by destruct b). unfold at_field, emit. simpl.
    rewrite app_nil_r. by destruct b.
  - assert (field_ct t v = ct_of (ttype_v t)) as Hct.
    { destruct v; try done. inversion Ht; subst. by destruct Hb. }
    assert (exists c, compact_type_id_for_field (ttype_v t) = Ok c /\ ct_of (ttype_v t) = c) as (c & Hc & Hc').
    { pose proof (ttype_v_ok t) as [H1 H2]. by destruct (ttype_v t); eauto. }
    rewrite abind_assoc. erewrite abind_ok by (unfold lift_w; by rewrite Hc).
    erewrite abind_ok.
    2:{ apply write_field_header_emit; [done| |done]. rewrite <- Hc'. apply ct_of_range. }
    erewrite abind_ok by (apply Hv; [exact Ht|done]).
    assert ((match v with VBool _ => [] | _ => wire t v end) = wire t v) as ->.
    { destruct v; try done. inversion Ht; subst. by destruct Hb. }
    unfold write_field_end, ret, emit, at_field. simpl. by rewrite Hct, Hc', app_assoc.
Qed.

Lemma write_fields_emit fs l out stack last id0 :
  Forall (fun p => writes p.2) l ->
  Forall (fun p => in_s 16 p.1 /\ exists t, field_type fs p.1 = Some t /\ has_type t p.2) l ->
  (forA (fun p => match p with (id, v) =>
           match field_type fs id with
           | Some t => write_field_begin (ttype_v t) id ;; write_value t v ;; write_field_end
           | None => ill_typed
           end end) l ;; write_field_stop ;; write_struct_end)
    (CompactWriter out (id0 :: stack) last None) =
  (Ok tt, CompactWriter (out ++ wire_fields fs last l) stack id0 None).
Proof.
  revert out last. induction l as [|[id v] l IH]; intros out last Hw Ht; [done|].
  apply Forall_cons in Hw as [Hv Hw]. apply Forall_cons in Ht as [(Hid & t & Hf & Htv) Ht].
  simpl in *. rewrite abind_assoc. rewrite Hf.
  erewrite abind_ok by by apply write_field_emit.
  rewrite IH by done. by rewrite <- !app_assoc.
Qed.

Lemma write_value_emit v : writes v.
Proof.
  induction v as [b|z|bits|bs|l IH|l IH|l IH|l IH] using value_ind_nested; intros t w Ht Hw;
    inversion Ht; subst; cbn [write_value]; rewrite ?wire_struct; cbn [wire];
    unfold write_list, write_set, write_map, write_struct.
  - by apply write_bool_emit.
  - by apply write_int_emit.
  - rewrite wraps_small by done. by apply write_i32_emit.
  - by apply write_double_emit.
  - by apply write_binary_emit.
  - by apply write_binary_emit.
  - rewrite wraps_small by (try (unfold in_s); lia).
    erewrite abind_ok by (apply write_list_begin_emit; [done|apply ttype_v_ok|lia]).
    erewrite abind_ok; [by rewrite <- emit_emit|]. apply forA_emit; [|done].
    rewrite Forall_forall in *. intros x Hx w' Hw'. apply IH; auto.
  - rewrite wraps_small by (try (unfold in_s); lia).
    erewrite abind_ok by (apply write_list_begin_emit; [done|apply ttype_v_ok|lia]).
    erewrite abind_ok; [by rewrite <- emit_emit|]. apply forA_emit; [|done].
    rewrite Forall_forall in *. intros x Hx w' Hw'. apply IH; auto.
  - rewrite wraps_small by (try (unfold in_s); lia).
    erewrite abind_ok by (apply write_map_begin_emit; [done|apply ttype_v_ok|apply ttype_v_ok|lia]).
    erewrite abind_ok; [by rewrite <- emit_emit|]. apply forA_emit; [|done].
    rewrite Forall_forall in *. intros [x y] Hx w' Hw'. specialize (IH _ Hx) as [IHx IHy].
    destruct (H3 _ Hx) as [Hx' Hy']. simpl in *.
    erewrite abind_ok by by apply IHx. rewrite IHy by done. by rewrite emit_emit.
  - destruct w as [out stack last p]. unfold idle in Hw. simpl in Hw. subst p.
    unfold write_struct_begin. rewrite abind_assoc. run_idle. unfold modify.
    erewrite abind_ok by done. by apply write_fields_emit.
Qed.

(** ** The reader inverts the grammar *)

(** [parses o d N m bs a]: with options [o], at struct depth [d] and with at
    most [N] bytes left of which [bs] are the first, [m] returns [a] and
    moves over exactly [bs]. *)
Definition parses {A} (o : decode_options) (d N : Z) (m : reader A) (bs : list Z) (a : A) : Prop :=
  forall r tl, quiet r -> r_options r = o -> r_struct_depth r = d -> at_ (bs ++ tl) r ->
    Z.of_nat (length (bs ++ tl)) <= N -> m r = (Ok a, adv (length bs) r).

Lemma parses_ret {A} o d N (a : A) : parses o d N (ret a) [] a.
Proof. intros r tl _ _ _ _ _. by rewrite adv_0. Qed.

Lemma parses_bind {A C} o d N (m : reader A) (f : A -> reader C) b1 b2 a c :
  parses o d N m b1 a -> parses o d (N - Z.of_nat (length b1)) (f a) b2 c ->
  parses o d N (abind m f) (b1 ++ b2) c.
Proof.
  intros Hm Hf r tl Hq Ho Hd Ha HN. rewrite <- app_assoc in Ha, HN.
  erewrite abind_ok by by apply Hm with (tl := b2 ++ tl).
  rewrite (Hf (adv (length b1) r) tl); [by rewrite adv_adv, length_app|done..| |].
  - by apply at_adv.
  - rewrite !length_app in *. lia.
Qed.

Lemma parses_map {A C} o d N (m : reader A) (f : A -> reader C) bs a c :
  parses o d N m bs a -> (forall r, f a r = (Ok c, r)) -> parses o d N (abind m f) bs c.
Proof.
  intros Hm Hf r tl Hq Ho Hd Ha HN. by erewrite abind_ok by by apply Hm with (tl := tl).
Qed.

Lemma parses_mono {A} o d N N' (m : reader A) bs a : parses o d N m bs a -> N' <= N -> parses o d N' m bs a.
Proof. intros Hm HN r tl Hq Ho Hd Ha HN'. apply (Hm r tl); done || lia. Qed.

Lemma parses_readA {A B} o d N (body : reader A) (f : B -> list Z) (g : B -> A) l :
  Forall (fun x => parses o d N body (f x) (g x)) l ->
  parses o d N (readA body (length l)) (concat (map f l)) (map g l).
Proof.
  intros Hl. revert N Hl. induction l as [|x l IH]; intros N Hl; [apply parses_ret|].
  apply Forall_cons in Hl as [Hx Hl]. simpl. eapply parses_bind; [done|].
  eapply parses_map; [apply IH|done].
  eapply Forall_impl; [done|]. simpl. intros y Hy. eapply parses_mono; [done|lia].
Qed.

Lemma parses_repeatA {B} o d N (body : reader unit) (f : B -> list Z) l :
  Forall (fun x => parses o d N body (f x) tt) l ->
  parses o d N (repeatA body (length l)) (concat (map f l)) tt.
Proof.
  intros Hl. revert N Hl. induction l as [|x l IH]; intros N Hl; [apply parses_ret|].
  apply Forall_cons in Hl as [Hx Hl]. simpl. eapply parses_bind; [done|]. apply IH.
  eapply Forall_impl; [done|]. simpl. intros y Hy. eapply parses_mono; [done|lia].
Qed.

Lemma parses_list_begin o d N t n : 0 <= n < 2 ^ 31 -> n <= max_container_elems o ->
  parses o d N read_list_begin (wire_list_header (ttype_v t) n) (ttype_v t, n).
Proof.
  intros Hn Hm r tl Hq <- Hd Ha _. eapply read_list_begin_at; try apply ttype_v_ok; done.
Qed.

Lemma parses_map_begin o d N k m n : 0 <= n < 2 ^ 31 -> n <= max_container_elems o ->
  parses o d N read_map_begin (wire_map_header (ttype_v k) (ttype_v m) n)
    (if n =? 0 then (stop_t, stop_t, 0) else (ttype_v k, ttype_v m, n)).
Proof.
  intros Hn Hm r tl Hq <- Hd Ha _.
  eapply read_map_begin_at; try apply ttype_v_ok; done.
Qed.

Lemma parses_int o d N w (sgn : bool) z :
  (if sgn then in_s (int_bits w) z else in_u (int_bits w) z) ->
  parses o d N (read_int w sgn) (wire_int_value w z) z.
Proof.
  intros Hz.
  assert (in_s (int_bits w) (wraps (int_bits w) z)) as Hs by (apply wraps_range; by destruct w).
  assert ((if sgn then wraps (int_bits w) z else wrapu (int_bits w) (wraps (int_bits w) z)) = z) as Hback.
  { destruct sgn; [apply wraps_small; by destruct w|apply wrapu_wraps; by destruct w]. }
  intros r tl Hq _ _ Ha _. destruct w; simpl in *.
  - erewrite abind_ok by by eapply read_byte_at. unfold ret. do 2 f_equal.
    rewrite (wraps_mod_eq 8 _ z) by (apply wrapu_idemp; lia). by f_equal.
  - erewrite abind_ok by (eapply read_i16_at; [done|exact Hs|done]). unfold ret. by rewrite Hback.
  - erewrite abind_ok by (eapply read_i32_at; [done|exact Hs|done]). unfold ret. by rewrite Hback.
  - erewrite abind_ok by (eapply read_i64_at; [done|exact Hs|done]). unfold ret. by rewrite Hback.
Qed.

Lemma foldl_snoc {A} (l acc : list A) : foldl (fun out x => out ++ [x]) acc l = acc ++ l.
Proof.
  revert acc. induction l as [|x l IH]; intros acc; simpl; [by rewrite app_nil_r|].
  by rewrite IH, <- app_assoc.
Qed.

Lemma foldl_set_insert l acc : NoDup (acc ++ l) -> foldl (fun out x => set_insert x out) acc l = acc ++ l.
Proof.
  revert acc. induction l as [|x l IH]; intros acc Hnd; simpl; [by rewrite app_nil_r|].
  unfold set_insert at 2. rewrite decide_False.
  - rewrite IH by by rewrite <- app_assoc. by rewrite <- app_assoc.
  - apply NoDup_app in Hnd as (_ & Hd & _). intros Hin. apply (Hd x Hin). left.
Qed.

Lemma foldl_map_emplace l acc : NoDup (map fst (acc ++ l)) ->
  foldl (fun out x => map_emplace x out) acc l = acc ++ l.
Proof.
  revert acc. induction l as [|x l IH]; intros acc Hnd; simpl; [by rewrite app_nil_r|].
  unfold map_emplace at 2. rewrite decide_False.
  - rewrite IH by by rewrite <- app_assoc. by rewrite <- app_assoc.
  - rewrite map_app in Hnd. apply NoDup_app in Hnd as (_ & Hd & _). intros Hin.
    apply (Hd _ Hin). simpl. left.
Qed.

Lemma set_field_last id v l : Forall (fun i => i < id) (map fst l) -> set_field id v l = l ++ [(id, v)].
Proof.
  induction l as [|[i x] l IH]; simpl; [done|]. intros [Hi Hl]%Forall_cons.
  destruct (Z.ltb_spec id i); [lia|]. destruct (Z.eqb_spec id i); [lia|]. by rewrite IH.
Qed.

Definition reads (v : value) : Prop := forall t o d N fuel,
  has_type t v -> sizes_ok o v = true -> d + nesting v <= max_struct_depth o ->
  2 * N + 2 <= Z.of_nat fuel -> parses o d N (read_value fuel t) (wire t v) v.

Definition skips (v : value) : Prop := forall t o d N fuel depth,
  has_type t v -> sizes_ok o v = true -> d + nesting v <= max_struct_depth o ->
  depth + nesting v <= max_struct_depth o ->
  2 * N + 2 <= Z.of_nat fuel -> parses o d N (skip_impl fuel (ttype_v t) depth) (wire t v) tt.

(** What a reader with schema [fs'] keeps of a struct written with [fs]. *)
Definition same_wire_type (fs fs' : list (Z * ty)) (p : Z * value) : Prop :=
  ttype_v <$> field_type fs' p.1 = ttype_v <$> field_type fs p.1.
#[export] Instance same_wire_type_dec fs fs' p : Decision (same_wire_type fs fs' p).
Proof. unfold same_wire_type. apply _. Defined.

Definition compatible (fs fs' : list (Z * ty)) : Prop := forall id t t',
  field_type fs id = Some t -> field_type fs' id = Some t' -> ttype_v t' = ttype_v t -> t' = t.

(** The bytes of a field after its header. *)
Definition wire_body (t : ty) (v : value) : list Z := match v with VBool _ => [] | _ => wire t v end.
Definition pending_of (v : value) : option bool := match v with VBool b => Some b | _ => None end.

Lemma header_at fs t v id bs r : has_type t v -> quiet r -> in_s 16 id -> in_s 16 (r_last_field_id r) ->
  at_ (wire_field_header (r_last_field_id r) id (field_ct t v) ++ bs) r ->
  field_type fs id = Some t ->
  read_field_begin r = (Ok (ttype_v t, id), set_r_last_field_id id (set_pending_bool_value (pending_of v)
     (adv (length (wire_field_header (r_last_field_id r) id (field_ct t v))) r))).
Proof.
  intros Ht Hq Hid Hl Ha _. destruct (ttype_v_ok t) as [H1 H2]. pose proof (ttype_v_bool t v Ht) as Hb.
  pose proof (read_field_begin_at (ttype_v t) (match v with VBool b => b | _ => false end) id bs r Hq H1 H2 Hid Hl) as H.
  case_decide as Hd.
  - apply Hb in Hd as [b ->]. by apply H.
  - assert (field_ct t v = ct_of (ttype_v t) /\ pending_of v = None) as [Hc Hp].
    { destruct v; try done. inversion Ht; subst. by destruct Hd. }
    rewrite Hc, Hp in *. by apply H.
Qed.

Lemma reads_body v t o d N fuel r tl id : reads v -> has_type t v -> sizes_ok o v = true ->
  d + nesting v <= max_struct_depth o -> 2 * N + 2 <= Z.of_nat fuel -> 
  quiet r -> r_options r = o -> r_struct_depth r = d -> at_ (wire_body t v ++ tl) r ->
  Z.of_nat (length (wire_body t v ++ tl)) <= N ->
  read_value fuel t (set_r_last_field_id id (set_pending_bool_value (pending_of v) r)) =
    (Ok v, set_r_last_field_id id (adv (length (wire_body t v)) r)).
Proof.
  intros Hv Ht Hs Hd HF Hq Ho Hdep Ha HN. destruct fuel as [|fuel]; [lia|].
  destruct v as [b|z|z|bs|l|l|l|l]; simpl wire_body in *; simpl pending_of.
  { inversion Ht; subst. cbn [read_value]. unfold read_bool. simpl. rewrite adv_0.
    destruct r; unfold quiet in Hq; simpl in *; by subst. }
  all: pose proof (Hv t o d N (S fuel) Ht Hs Hd HF) as Hp;
    specialize (Hp (set_r_last_field_id id (set_pending_bool_value None r)) tl);
    rewrite Hp by (done || (destruct r; simpl in *; done)); destruct r; unfold quiet in Hq; simpl in Hq; by subst.
Qed.

Lemma skips_body v t o d N fuel depth r tl id : skips v -> has_type t v -> sizes_ok o v = true ->
  d + nesting v <= max_struct_depth o -> depth + nesting v <= max_struct_depth o ->
  2 * N + 2 <= Z.of_nat fuel ->
  quiet r -> r_options r = o -> r_struct_depth r = d -> at_ (wire_body t v ++ tl) r ->
  Z.of_nat (length (wire_body t v ++ tl)) <= N ->
  skip_impl fuel (ttype_v t) depth (set_r_last_field_id id (set_pending_bool_value (pending_of v) r)) =
    (Ok tt, set_r_last_field_id id (adv (length (wire_body t v)) r)).
Proof.
  intros Hv Ht Hs Hd Hdp HF Hq Ho Hdep Ha HN. destruct fuel as [|fuel]; [lia|].
  destruct v as [b|z|z|bs|l|l|l|l]; simpl wire_body in *; simpl pending_of.
  { inversion Ht; subst. cbn [skip_impl ttype_v]. rewrite abind_get. simpl. simpl in Hdp.
    destruct (Z.ltb_spec (max_struct_depth (r_options r)) depth); [lia|].
    unfold read_bool, abind, get. simpl. rewrite adv_0.
    destruct r; unfold quiet in Hq; simpl in *; by subst. }
  all: pose proof (Hv t o d N (S fuel) depth Ht Hs Hd Hdp HF) as Hp;
    specialize (Hp (set_r_last_field_id id (set_pending_bool_value None r)) tl);
    rewrite Hp by (done || (destruct r; simpl in *; done)); destruct r; unfold quiet in Hq; simpl in Hq; by subst.
Qed.

Lemma wire_fields_cons fs last id v l t : field_type fs id = Some t ->
  wire_fields fs last ((id, v) :: l) =
    wire_field_header last id (field_ct t v) ++ wire_body t v ++ wire_fields fs id l.
Proof. simpl. by intros ->. Qed.

Lemma wire_field_header_length last id ct : (0 < length (wire_field_header last id ct))%nat.
Proof. unfold wire_field_header. destruct (_ && _); simpl; lia. Qed.

(** Conditions on the fields of a struct that is read or skipped at struct
    depth [d] with option limits [o]. *)
Definition field_ok (fs : list (Z * ty)) (o : decode_options) (d depth : Z) (p : Z * value) : Prop :=
  in_s 16 p.1 /\ sizes_ok o p.2 = true /\ d + nesting p.2 <= max_struct_depth o /\
  depth + nesting p.2 <= max_struct_depth o /\
  exists t, field_type fs p.1 = Some t /\ has_type t p.2.

Lemma skip_at v t r tl : skips v -> has_type t v -> sizes_ok (r_options r) v = true ->
  r_struct_depth r + nesting v <= max_struct_depth (r_options r) ->
  nesting v <= max_struct_depth (r_options r) ->
  quiet r -> at_ (wire_body t v ++ tl) r -> forall id,
  skip (ttype_v t) (set_r_last_field_id id (set_pending_bool_value (pending_of v) r)) =
    (Ok tt, set_r_last_field_id id (adv (length (wire_body t v)) r)).
Proof.
  intros Hv Ht Hs Hd Hn Hq Ha id. unfold skip.
  change (remaining_bytes (set_r_last_field_id id (set_pending_bool_value (pending_of v) r)))
    with (remaining_bytes r).
  rewrite (at_remaining _ _ Ha).
  by eapply (skips_body v t (r_options r) (r_struct_depth r)
    (Z.of_nat (length (wire_body t v ++ tl)))); try done; try lia.
Qed.

Lemma sorted_below (a b : list Z) x : StronglySorted Z.lt (a ++ x :: b) -> Forall (fun i => i < x) a.
Proof.
  induction a as [|y a IH]; simpl; [done|]. intros [Hs Hy]%StronglySorted_inv.
  constructor; [|by apply IH]. rewrite List.Forall_forall in Hy. apply Hy, in_or_app. right. by left.
Qed.

Lemma sorted_without (a b : list Z) x : StronglySorted Z.lt (a ++ x :: b) -> StronglySorted Z.lt (a ++ b).
Proof.
  induction a as [|y a IH]; simpl; intros [Hs Hy]%StronglySorted_inv; [done|].
  constructor; [by apply IH|]. rewrite List.Forall_forall in *. intros z Hz. apply Hy.
  apply in_app_or in Hz as [Hz|Hz]; apply in_or_app; [by left|right; by right].
Qed.

(** One field in front of the rest of its struct: kept or skipped. *)
Lemma read_field_at fs fs' o d fuel id v t acc r tl : compatible fs fs' -> reads v -> skips v ->
  field_ok fs o d 0 (id, v) -> field_type fs id = Some t -> Forall (fun i => i < id) (map fst acc) ->
  quiet r -> r_options r = o -> r_struct_depth r = d -> at_ (wire_body t v ++ tl) r ->
  2 * Z.of_nat (length (wire_body t v ++ tl)) + 2 <= Z.of_nat fuel ->
  read_field (read_value fuel) fs' (ttype_v t) id acc
    (set_r_last_field_id id (set_pending_bool_value (pending_of v) r)) =
  (Ok (acc ++ filter (same_wire_type fs fs') [(id, v)]),
   set_r_last_field_id id (adv (length (wire_body t v)) r)).
Proof.
  intros Hcompat Hrd Hsk (Hid & Hs & Hdep & Hdep0 & t0 & Hft & Ht) Hft0 Hacc Hq Ho Hd Ha HF.
  simpl in *. simplify_eq. unfold read_field.
  assert ((skip (ttype_v t0) ;; ret acc) (set_r_last_field_id id (set_pending_bool_value (pending_of v) r)) =
    (Ok acc, set_r_last_field_id id (adv (length (wire_body t0 v)) r))) as Hskip.
  { erewrite abind_ok; [done|]. by eapply skip_at; try done. }
  destruct (field_type fs' id) as [t'|] eqn:Hft'.
  2:{ rewrite filter_cons_False, filter_nil, app_nil_r; [done|].
      unfold same_wire_type. simpl. by rewrite Hft, Hft'. }
  case_decide as Htt.
  - assert (t' = t0) as -> by (eapply Hcompat; done).
    rewrite filter_cons_True, filter_nil by (unfold same_wire_type; simpl; by rewrite Hft, Hft').
    rewrite <- set_field_last by done. erewrite abind_ok; [done|].
    by eapply (reads_body v t0 _ _ (Z.of_nat (length (wire_body t0 v ++ tl)))).
  - rewrite filter_cons_False, filter_nil, app_nil_r; [done|].
    unfold same_wire_type. simpl. rewrite Hft, Hft'. simpl. congruence.
Qed.

Lemma read_fields_at fs fs' o d l : compatible fs fs' ->
  Forall (fun p => reads p.2 /\ skips p.2) l -> Forall (field_ok fs o d 0) l ->
  forall fuel acc r tl last, StronglySorted Z.lt (map fst acc ++ map fst l) ->
  r_last_field_id r = last -> in_s 16 last ->
  quiet r -> r_options r = o -> r_struct_depth r = d -> at_ (wire_fields fs last l ++ tl) r ->
  2 * Z.of_nat (length (wire_fields fs last l ++ tl)) + 1 <= Z.of_nat fuel ->
  exists id', read_fields fuel fs' acc r =
    (Ok (acc ++ filter (same_wire_type fs fs') l),
     set_r_last_field_id id' (adv (length (wire_fields fs last l)) r)).
Proof.
  intros Hcompat. induction l as [|[id v] l IH]; intros Hrs Hok [|fuel] acc r tl last Hsort <- Hlast Hq Ho Hd Ha HF; try lia.
  - cbn [read_fields]. cbn [wire_fields app] in Ha. erewrite abind_ok by (eapply read_field_stop_at; done).
    exists (r_last_field_id r). rewrite app_nil_r. by destruct r.
  - apply Forall_cons in Hrs as [[Hrd Hsk] Hrs]. apply Forall_cons in Hok as [Hf Hok].
    pose proof Hf as (Hid & _ & _ & _ & t & Hft & Ht). simpl in Hid, Hft, Ht.
    rewrite (wire_fields_cons _ _ _ _ _ _ Hft) in *. rewrite <- !app_assoc in *.
    cbn [read_fields]. erewrite abind_ok by by eapply header_at.
    cbv beta iota. rewrite decide_False by apply ttype_v_ok.
    pose proof (wire_field_header_length (r_last_field_id r) id (field_ct t v)) as Hhl.
    set (hd := wire_field_header _ _ _) in *. apply at_adv in Ha.
    rewrite (length_app hd) in HF. simpl in Hsort.
    erewrite abind_ok.
    2:{ eapply (read_field_at fs fs'); try done; [by eapply sorted_below|lia]. }
    erewrite abind_ok by done. apply (at_adv (wire_body t v)) in Ha. rewrite (length_app (wire_body t v)) in HF.
    edestruct (IH Hrs Hok fuel) as (id' & ->); [| | | | | |exact Ha| |]; try done; [|lia|].
    + rewrite map_app, <- app_assoc.
      destruct (decide (same_wire_type fs fs' (id, v))) as [Hy|Hn];
        [by rewrite filter_cons_True by done|rewrite filter_cons_False by done; by eapply sorted_without].
    + exists id'. rewrite <- app_assoc, <- filter_app. f_equal.
      rewrite !length_app. unfold adv, set_pos, set_r_last_field_id. simpl. f_equal. lia.
Qed.

Lemma skip_fields_at fs o d depth l :
  Forall (fun p => skips p.2) l -> Forall (field_ok fs o d (depth + 1)) l ->
  forall fuel r tl last, r_last_field_id r = last -> in_s 16 last ->
  quiet r -> r_options r = o -> r_struct_depth r = d -> at_ (wire_fields fs last l ++ tl) r ->
  2 * Z.of_nat (length (wire_fields fs last l ++ tl)) + 1 <= Z.of_nat fuel ->
  exists id', skip_fields fuel depth r =
    (Ok tt, set_r_last_field_id id' (adv (length (wire_fields fs last l)) r)).
Proof.
  induction l as [|[id v] l IH]; intros Hrs Hok [|fuel] r tl last <- Hlast Hq Ho Hd Ha HF; try lia.
  - cbn [skip_fields]. cbn [wire_fields app] in Ha. erewrite abind_ok by (eapply read_field_stop_at; done).
    exists (r_last_field_id r). by destruct r.
  - apply Forall_cons in Hrs as [Hsk Hrs]. apply Forall_cons in Hok as [Hf Hok].
    destruct Hf as (Hid & Hs & Hn & Hn' & t & Hft & Ht). simpl in Hid, Hft, Ht, Hs, Hn, Hn', Hsk.
    rewrite (wire_fields_cons _ _ _ _ _ _ Hft) in *. rewrite <- !app_assoc in *.
    cbn [skip_fields]. erewrite abind_ok by by eapply (header_at fs t v id).
    cbv beta iota. rewrite decide_False by apply ttype_v_ok.
    pose proof (wire_field_header_length (r_last_field_id r) id (field_ct t v)) as Hhl.
    set (hd := wire_field_header _ _ _) in *. apply at_adv in Ha.
    rewrite (length_app hd) in HF.
    erewrite abind_ok.
    2:{ eapply (skips_body v t o d (Z.of_nat (length (wire_body t v ++ wire_fields fs id l ++ tl)))); try done; lia. }
    erewrite abind_ok by done. apply (at_adv (wire_body t v)) in Ha. rewrite (length_app (wire_body t v)) in HF.
    edestruct (IH Hrs Hok fuel) as (id' & ->); [| | | | |exact Ha| |]; try done; [lia|].
    exists id'. f_equal. rewrite !length_app. unfold adv, set_pos, set_r_last_field_id. simpl. f_equal. lia.
Qed.

(** The two ends of a struct around its fields. *)
Lemma struct_at {A C} o d N (fields : reader A) (k : A -> reader C) bs a c :
  d + 1 <= max_struct_depth o ->
  (forall r, k a r = (read_struct_end ;; ret c) r) ->
  (forall r tl, r_last_field_id r = 0 -> quiet r -> r_options r = o -> r_struct_depth r = d + 1 ->
     at_ (bs ++ tl) r -> Z.of_nat (length (bs ++ tl)) <= N ->
     exists id', fields r = (Ok a, set_r_last_field_id id' (adv (length bs) r))) ->
  parses o d N (read_struct_begin ;; let! x := fields in k x) bs c.
Proof.
  intros Hd Hk Hf r tl Hq Ho Hdep Ha HN. assert (0 <= d) by (destruct Ha as (_ & _ & _ & _ & ?); lia).
  erewrite abind_ok by (apply read_struct_begin_at; [done|subst o; lia]).
  set (r' := CompactReader _ _ _ _ _ _ _).
  destruct (Hf r' tl) as (id' & Hf'); [done|done|done|simpl; lia| |exact HN|].
  { destruct Ha as (? & ? & ? & ? & ?). unfold at_. simpl. split_and!; done || lia. }
  erewrite abind_ok by exact Hf'. rewrite Hk.
  erewrite abind_ok by (apply (read_struct_end_at _ (r_last_field_id r) (r_last_field_stack r)); [done|done|simpl; lia]).
  unfold ret. f_equal. destruct r. unfold adv, set_pos. simpl. f_equal. lia.
Qed.

Lemma in_zmax {A} (f : A -> Z) x l n : 1 + zmax (map f l) <= n -> In x l -> f x <= n - 1.
Proof. intros Hn Hx. pose proof (zmax_le (f x) (map f l) (in_map f l x Hx)). lia. Qed.

Lemma struct_fields_ok fs o d depth l :
  Forall (fun p => in_s 16 p.1 /\ exists t, field_type fs p.1 = Some t /\ has_type t p.2) l ->
  sizes_ok o (VStruct l) = true -> d + nesting (VStruct l) <= max_struct_depth o ->
  depth + nesting (VStruct l) <= max_struct_depth o ->
  Forall (field_ok fs o (d + 1) (depth + 1)) l.
Proof.
  intros Ht Hs Hn Hn'. simpl in *. rewrite forallb_forall in Hs. rewrite Forall_forall in *.
  intros [id v] Hx. destruct (Ht _ Hx) as (Hid & Htv). pose proof Hx as Hx'. rewrite list_elem_of_In in Hx'.
  specialize (Hs _ Hx').
  pose proof (in_zmax (fun p : Z * value => match p with (_, x) => nesting x end) _ l
    (zmax (map (fun p : Z * value => match p with (_, x) => nesting x end) l) + 1) ltac:(lia) Hx') as Hz.
  split_and!; [done|done|simpl in *; lia|simpl in *; lia|done].
Qed.

(** Elements of a collection. *)
Lemma elements_ok (P : value -> Prop) e o d l :
  Forall P l -> Forall (has_type e) l -> forallb (sizes_ok o) l = true ->
  forall n, d + (1 + zmax (map nesting l)) <= n ->
  Forall (fun x => P x /\ has_type e x /\ sizes_ok o x = true /\ d + 1 + nesting x <= n) l.
Proof.
  intros HP Ht Hs n Hn. rewrite forallb_forall in Hs. rewrite !Forall_forall in *.
  intros x Hx. pose proof Hx as Hx'. rewrite list_elem_of_In in Hx'.
  pose proof (in_zmax nesting x l (n - d) ltac:(lia) Hx'). split_and!; auto; lia.
Qed.

Lemma pairs_ok (P : value -> Prop) k m o d (l : list (value * value)) :
  Forall (fun p => P p.1 /\ P p.2) l -> Forall (fun p => has_type k p.1 /\ has_type m p.2) l ->
  forallb (fun p => match p with (x, y) => sizes_ok o x && sizes_ok o y end) l = true ->
  forall n, d + (1 + zmax (map (fun p => match p with (x, y) => Z.max (nesting x) (nesting y) end) l)) <= n ->
  Forall (fun p => (P p.1 /\ has_type k p.1 /\ sizes_ok o p.1 = true /\ d + 1 + nesting p.1 <= n) /\
                   (P p.2 /\ has_type m p.2 /\ sizes_ok o p.2 = true /\ d + 1 + nesting p.2 <= n)) l.
Proof.
  intros HP Ht Hs n Hn. rewrite forallb_forall in Hs. rewrite !Forall_forall in *.
  intros [x y] Hx. pose proof Hx as Hx'. rewrite list_elem_of_In in Hx'.
  pose proof (in_zmax (fun p : value * value => match p with (x, y) => Z.max (nesting x) (nesting y) end)
    _ l (n - d) ltac:(lia) Hx') as Hz. simpl in Hz.
  specialize (Hs _ Hx'). simpl in Hs. apply andb_true_iff in Hs as [Hs1 Hs2].
  destruct (HP _ Hx), (Ht _ Hx). simpl in *. split_and!; done || lia.
Qed.

Lemma wire_list_header_length t n : (0 < length (wire_list_header t n))%nat.
Proof. unfold wire_list_header. destruct (_ <=? _); simpl; lia. Qed.

Lemma wire_map_header_length k m n : 0 <= n < 2 ^ 31 -> (0 < length (wire_map_header k m n))%nat.
Proof.
  intros. unfold wire_map_header. rewrite length_app.
  pose proof (varint_bytes_spec 32 n ltac:(lia) ltac:(unfold in_u; lia)) as (_ & _ & ? & _).
  unfold wire_size. lia.
Qed.

(** Lists and sets, read and skipped. *)
Lemma list_reads e o d N fuel l (add : value -> list value -> list value) :
  Forall (fun x => reads x /\ has_type e x /\ sizes_ok o x = true /\ d + 1 + nesting x <= max_struct_depth o) l ->
  2 * N + 2 <= Z.of_nat (S fuel) ->
  parses o d (N - Z.of_nat (length (wire_list_header (ttype_v e) (Z.of_nat (length l)))))
    (read_into (read_value fuel e) add (length l))
    (concat (map (wire e) l)) (foldl (fun out x => add x out) [] l).
Proof.
  intros Hl HF. unfold read_into.
  apply (parses_map _ _ _ _ _ _ (map (fun x => x) l)); [|intros r; by rewrite map_id].
  apply parses_readA. eapply Forall_impl; [exact Hl|].
  intros x (Hr & Ht & Hs & Hn). simpl. apply Hr; [done|done|lia|].
  pose proof (wire_list_header_length (ttype_v e) (Z.of_nat (length l))). lia.
Qed.

Lemma list_skips e o d N fuel depth l :
  Forall (fun x => skips x /\ has_type e x /\ sizes_ok o x = true /\ d + 1 + nesting x <= max_struct_depth o) l ->
  Forall (fun x => depth + 1 + nesting x <= max_struct_depth o) l ->
  2 * N + 2 <= Z.of_nat (S fuel) ->
  parses o d (N - Z.of_nat (length (wire_list_header (ttype_v e) (Z.of_nat (length l)))))
    (repeatA (skip_impl fuel (ttype_v e) (depth + 1)) (length l)) (concat (map (wire e) l)) tt.
Proof.
  intros Hl Hl' HF. apply parses_repeatA. rewrite !Forall_forall in *. intros x Hx.
  destruct (Hl x Hx) as (Hr & Ht & Hs & Hn). specialize (Hl' x Hx). simpl in *. apply Hr; try done; try lia.
  pose proof (wire_list_header_length (ttype_v e) (Z.of_nat (length l))). lia.
Qed.

(** Maps, read and skipped. *)
Lemma map_reads k m o d N fuel (l : list (value * value)) n :
  Forall (fun p => (reads p.1 /\ has_type k p.1 /\ sizes_ok o p.1 = true /\ d + 1 + nesting p.1 <= max_struct_depth o) /\
    (reads p.2 /\ has_type m p.2 /\ sizes_ok o p.2 = true /\ d + 1 + nesting p.2 <= max_struct_depth o)) l ->
  2 * N + 2 <= Z.of_nat (S fuel) -> (0 < n)%nat ->
  parses o d (N - Z.of_nat n)
    (read_into (let! key := read_value fuel k in let! mapped := read_value fuel m in ret (key, mapped))
       map_emplace (length l))
    (concat (map (fun p => match p with (x, y) => wire k x ++ wire m y end) l))
    (foldl (fun out x => map_emplace x out) [] l).
Proof.
  intros Hl HF Hn. unfold read_into.
  apply (parses_map _ _ _ _ _ _ (map (fun x => x) l)); [|intros r; by rewrite map_id].
  apply parses_readA. eapply Forall_impl; [exact Hl|].
  intros [x y] [(Hr & Ht & Hs & Hd) (Hr' & Ht' & Hs' & Hd')]. simpl in *.
  eapply parses_bind; [apply Hr; done || lia|].
  eapply parses_map; [apply Hr'; done || lia|done].
Qed.

Lemma map_skips k m o d N fuel depth (l : list (value * value)) n :
  Forall (fun p => (skips p.1 /\ has_type k p.1 /\ sizes_ok o p.1 = true /\ d + 1 + nesting p.1 <= max_struct_depth o) /\
    (skips p.2 /\ has_type m p.2 /\ sizes_ok o p.2 = true /\ d + 1 + nesting p.2 <= max_struct_depth o)) l ->
  Forall (fun p => depth + 1 + nesting p.1 <= max_struct_depth o /\ depth + 1 + nesting p.2 <= max_struct_depth o) l ->
  2 * N + 2 <= Z.of_nat (S fuel) -> (0 < n)%nat ->
  parses o d (N - Z.of_nat n)
    (repeatA (skip_impl fuel (ttype_v k) (depth + 1) ;; skip_impl fuel (ttype_v m) (depth + 1)) (length l))
    (concat (map (fun p => match p with (x, y) => wire k x ++ wire m y end) l)) tt.
Proof.
  intros Hl Hl' HF Hn. apply parses_repeatA. rewrite !Forall_forall in *. intros [x y] Hx.
  destruct (Hl _ Hx) as [(Hr & Ht & Hs & Hd) (Hr' & Ht' & Hs' & Hd')]. destruct (Hl' _ Hx). simpl in *.
  eapply parses_bind; [apply Hr; done || lia|]. apply Hr'; done || lia.
Qed.

Lemma parses_vac {A} o d N (m : reader A) bs a : N < 0 -> parses o d N m bs a.
Proof. intros HN r tl _ _ _ _ H. lia. Qed.

Lemma compatible_refl fs : compatible fs fs.
Proof. intros id t t' H1 H2 _. congruence. Qed.

Lemma same_wire_type_refl fs (l : list (Z * value)) : filter (same_wire_type fs fs) l = l.
Proof. induction l as [|x l IH]; [done|]. rewrite filter_cons_True by done. by rewrite IH. Qed.

Lemma collection_reads e o d N fuel l (add : value -> list value -> list value) :
  fits_i32 l -> Forall reads l -> Forall (has_type e) l ->
  (Z.of_nat (length l) <=? max_container_elems o) && forallb (sizes_ok o) l = true ->
  d + (1 + zmax (map nesting l)) <= max_struct_depth o ->
  foldl (fun out x => add x out) [] l = l ->
  2 * N + 2 <= Z.of_nat (S fuel) ->
  parses o d N
    (let! '(elem_type, size) := read_list_begin in
     let! out := (if decide (elem_type = ttype_v e)
                  then read_into (read_value fuel e) add (Z.to_nat size)
                  else skip_elements size [elem_type] ;; ret []) in
     read_list_end ;; ret out)
    (wire_list_header (ttype_v e) (Z.of_nat (length l)) ++ concat (map (wire e) l)) l.
Proof.
  intros Hf Hr Ht Hs Hn Hadd HF. apply andb_true_iff in Hs as [Hlen Hs]. apply Z.leb_le in Hlen.
  eapply parses_bind; [apply parses_list_begin; lia|]. cbv beta iota. rewrite decide_True by done. rewrite Nat2Z.id.
  apply (parses_map _ _ _ _ _ _ l); [|done].
  pose proof (list_reads e o d N fuel l add) as Hp. rewrite Hadd in Hp.
  apply Hp; [|done]. by eapply elements_ok.
Qed.

Lemma collection_skips e o d N fuel depth l :
  fits_i32 l -> Forall skips l -> Forall (has_type e) l ->
  (Z.of_nat (length l) <=? max_container_elems o) && forallb (sizes_ok o) l = true ->
  d + (1 + zmax (map nesting l)) <= max_struct_depth o ->
  depth + (1 + zmax (map nesting l)) <= max_struct_depth o ->
  2 * N + 2 <= Z.of_nat (S fuel) ->
  parses o d N
    (let! '(elem_type, n) := read_list_begin in
     repeatA (skip_impl fuel elem_type (depth + 1)) (Z.to_nat n) ;; read_list_end)
    (wire_list_header (ttype_v e) (Z.of_nat (length l)) ++ concat (map (wire e) l)) tt.
Proof.
  intros Hf Hr Ht Hs Hn Hn' HF. apply andb_true_iff in Hs as [Hlen Hs]. apply Z.leb_le in Hlen.
  eapply parses_bind; [apply parses_list_begin; lia|]. cbv beta iota. rewrite Nat2Z.id.
  eapply parses_map; [|done]. apply list_skips; [by eapply elements_ok| |done].
  eapply Forall_impl; [by eapply (elements_ok _ e o depth)|]. by intros x (_ & _ & _ & ?).
Qed.

Lemma Forall_pair {A} (P Q : A -> Prop) l : Forall (fun x => P x /\ Q x) l -> Forall P l /\ Forall Q l.
Proof. intros H. split; (eapply Forall_impl; [exact H|by intros ? []]). Qed.

Lemma parses_leaf {A} o d N (m : reader A) (wrap : A -> value) bs a :
  parses o d N m bs a -> parses o d N (let! x := m in ret (wrap x)) bs (wrap a).
Proof. intros H. by eapply parses_map. Qed.

Lemma reads_leaf v : (match v with VList _ | VSet _ | VMap _ | VStruct _ => False | _ => True end) -> reads v.
Proof.
  intros Hl t o d N fuel Ht Hs Hn HF. destruct fuel as [|fuel]; [apply parses_vac; lia|].
  destruct v; try done; inversion Ht; subst; cbn [read_value wire]; apply parses_leaf;
    simpl in Hs; rewrite ?Z.leb_le in Hs.
  - intros r tl Hq _ _ Ha _. by eapply read_bool_at.
  - by apply parses_int.
  - intros r tl Hq _ _ Ha _. by eapply read_i32_at.
  - intros r tl Hq _ _ Ha _. by eapply read_double_at.
  - intros r tl Hq <- _ Ha _. by eapply read_data_at.
  - intros r tl Hq <- _ Ha _. by eapply read_data_at.
Qed.

(** Skipping the fixed-size and integer types is reading without result. *)
Lemma skip_int w sgn z o d N fuel depth : depth <= max_struct_depth o ->
  parses o d N (read_int w sgn) (wire_int_value w z) z ->
  parses o d N (skip_impl (S fuel) (ttype_int w) depth) (wire_int_value w z) tt.
Proof.
  intros Hd Hp r tl Hq Ho Hdep Ha HN. specialize (Hp r tl Hq Ho Hdep Ha HN). revert Hp.
  cbn [skip_impl]. rewrite abind_get, Ho. destruct (Z.ltb_spec (max_struct_depth o) depth); [lia|].
  destruct w; cbn [read_int ttype_int]; unfold abind, ret;
    [destruct (read_byte r) as [[] ?]|destruct (read_i16 r) as [[] ?]
    |destruct (read_i32 r) as [[] ?]|destruct (read_i64 r) as [[] ?]]; congruence.
Qed.

Lemma skip_bytes_parses o d N what bs : fits_i32 bs -> Z.of_nat (length bs) <= max_string_bytes o ->
  parses o d N (let! n := read_size what in skip_bytes n) (wire_binary bs) tt.
Proof.
  intros Hf Hm. unfold wire_binary. apply (parses_bind _ _ _ _ _ _ _ (Z.of_nat (length bs))).
  - intros r tl Hq <- _ Ha _. eapply read_size_at; done || lia.
  - intros r tl Hq _ _ Ha _. by eapply skip_bytes_at.
Qed.

Lemma skips_leaf v : (match v with VList _ | VSet _ | VMap _ | VStruct _ => False | _ => True end) -> skips v.
Proof.
  intros Hl t o d N fuel depth Ht Hs Hn Hn' HF. destruct fuel as [|fuel]; [apply parses_vac; lia|].
  assert (depth <= max_struct_depth o) as Hdepth by (destruct v; simpl in *; done || lia).
  assert (forall (m : reader unit) bs, parses o d N m bs tt -> parses o d N
    (let! r := get in if max_struct_depth (r_options r) <? depth
       then throw (protocol_error "max skip depth exceeded") else m) bs tt) as Hgo.
  { intros m bs Hm r tl Hq Ho Hd Ha HN. rewrite abind_get, Ho.
    destruct (Z.ltb_spec (max_struct_depth o) depth); [lia|]. by apply (Hm r tl). }
  destruct v; try done; inversion Ht; subst; simpl in Hs; rewrite ?Z.leb_le in Hs;
    cbn [wire ttype_v].
  - apply Hgo. eapply parses_map; [|done]. intros r tl Hq _ _ Ha _. by eapply read_bool_at.
  - eapply skip_int; [done|by apply parses_int].
  - apply Hgo. eapply parses_map; [|done]. intros r tl Hq _ _ Ha _. by eapply read_i32_at.
  - apply Hgo. eapply parses_map; [|done]. intros r tl Hq _ _ Ha _. by eapply read_double_at.
  - apply Hgo. by apply skip_bytes_parses.
  - apply Hgo. by apply skip_bytes_parses.
Qed.

Lemma struct_reads l : Forall (fun p => reads p.2 /\ skips p.2) l -> reads (VStruct l).
Proof.
  intros IH t o d N fuel Ht Hs Hn HF. destruct fuel as [|fuel]; [apply parses_vac; lia|].
  inversion Ht; subst. rewrite wire_struct. cbn [read_value].
  assert (0 <= zmax (map (fun p : Z * value => match p with (_, x) => nesting x end) l)) by apply zmax_nonneg.
  apply (struct_at _ _ _ _ _ _ l); [simpl in Hn; lia|done|].
  intros r tl Hl Hq Ho Hd Ha HN. assert (-1 <= d) by (destruct Ha as (_ & _ & _ & _ & ?); lia).
  destruct (read_fields_at fs fs o (d + 1) l (compatible_refl fs) IH) with fuel ([] : list (Z * value)) r tl 0
    as (id' & Hr); try done; try lia.
  - eapply Forall_impl; [apply (struct_fields_ok fs o d (-1)); done || lia|]. done.
  - exists id'. by rewrite same_wire_type_refl in Hr.
Qed.

Lemma struct_skips l : Forall (fun p => reads p.2 /\ skips p.2) l -> skips (VStruct l).
Proof.
  intros IH t o d N fuel depth Ht Hs Hn Hn' HF. destruct fuel as [|fuel]; [apply parses_vac; lia|].
  inversion Ht; subst. rewrite wire_struct. cbn [skip_impl ttype_v].
  assert (0 <= zmax (map (fun p : Z * value => match p with (_, x) => nesting x end) l)) by apply zmax_nonneg.
  intros r tl Hq Ho Hdep Ha HN. rewrite abind_get, Ho. simpl in Hn, Hn'.
  destruct (Z.ltb_spec (max_struct_depth o) depth); [lia|].
  apply (struct_at o d N _ (fun _ => read_struct_end) _ tt tt) with tl; try done; [lia| |].
  { intros r'. unfold abind, ret. by destruct (read_struct_end r') as [[[]|] ?]. }
  clear r tl Hq Ho Hdep Ha HN. intros r tl Hl Hq Ho Hd Ha HN.
  apply (skip_fields_at fs o (d + 1) depth l) with tl; try done; try lia.
  - by apply Forall_pair in IH as [_ IH].
  - apply struct_fields_ok; try done; simpl; lia.
Qed.

(** Collections of both kinds are skipped alike. *)
Lemma skip_guard o d N fuel t depth bs (m : reader unit) : depth <= max_struct_depth o ->
  (forall r, skip_impl (S fuel) t depth r = (let! r := get in
     if max_struct_depth (r_options r) <? depth
     then throw (protocol_error "max skip depth exceeded") else m) r) ->
  parses o d N m bs tt -> parses o d N (skip_impl (S fuel) t depth) bs tt.
Proof.
  intros Hd Heq Hm r tl Hq Ho Hdep Ha HN. rewrite Heq, abind_get, Ho.
  destruct (Z.ltb_spec (max_struct_depth o) depth); [lia|]. by apply (Hm r tl).
Qed.

Lemma list_reads_and_skips l : Forall (fun v => reads v /\ skips v) l -> reads (VList l) /\ skips (VList l).
Proof.
  intros [IHr IHs]%Forall_pair. pose proof (zmax_nonneg (map nesting l)).
  split; intros t o d N [|fuel]; intros; try (apply parses_vac; lia);
    match goal with H : has_type _ _ |- _ => inversion H; subst end; simpl in *.
  - apply parses_leaf, collection_reads; try done. apply foldl_snoc.
  - eapply (skip_guard o d N fuel list_t depth); [lia|done|]. by apply collection_skips.
Qed.

Lemma set_reads_and_skips l : Forall (fun v => reads v /\ skips v) l -> reads (VSet l) /\ skips (VSet l).
Proof.
  intros [IHr IHs]%Forall_pair. pose proof (zmax_nonneg (map nesting l)).
  split; intros t o d N [|fuel]; intros; try (apply parses_vac; lia);
    match goal with H : has_type _ _ |- _ => inversion H; subst end; simpl in *.
  - apply parses_leaf, collection_reads; try done. by apply foldl_set_insert.
  - eapply (skip_guard o d N fuel set_t depth); [lia|done|]. by apply collection_skips.
Qed.

Lemma map_elements_reads k m o d N fuel l : fits_i32 l -> NoDup (map fst l) ->
  Forall (fun p => has_type k p.1 /\ has_type m p.2) l -> Forall (fun p => reads p.1 /\ reads p.2) l ->
  sizes_ok o (VMap l) = true -> d + nesting (VMap l) <= max_struct_depth o ->
  2 * N + 2 <= Z.of_nat (S fuel) ->
  parses o d N (read_value (S fuel) (TMap k m)) (wire (TMap k m) (VMap l)) (VMap l).
Proof.
  intros Hf Hnd Ht Hr Hs Hn HF. simpl in Hs, Hn. apply andb_true_iff in Hs as [Hlen Hs]. apply Z.leb_le in Hlen.
  cbn [read_value wire]. apply parses_leaf. unfold read_map. eapply parses_bind; [apply parses_map_begin; lia|].
  destruct (Z.eqb_spec (Z.of_nat (length l)) 0) as [H0|H0]; cbv beta iota;
    (apply (parses_map _ _ _ _ _ _ l); [|done]).
  - destruct l; [|done].
    destruct (bool_decide (stop_t = ttype_v k) && bool_decide (stop_t = ttype_v m)); apply parses_ret.
  - rewrite !bool_decide_eq_true_2 by done. cbn [andb]. rewrite Nat2Z.id.
    pose proof (map_reads k m o d N fuel l (length (wire_map_header (ttype_v k) (ttype_v m) (Z.of_nat (length l))))) as Hp.
    rewrite foldl_map_emplace in Hp by done. apply Hp; [|done|apply wire_map_header_length; lia].
    by eapply pairs_ok.
Qed.

Lemma map_elements_skips k m o d N fuel depth l : fits_i32 l ->
  Forall (fun p => has_type k p.1 /\ has_type m p.2) l -> Forall (fun p => skips p.1 /\ skips p.2) l ->
  sizes_ok o (VMap l) = true -> d + nesting (VMap l) <= max_struct_depth o ->
  depth + nesting (VMap l) <= max_struct_depth o ->
  2 * N + 2 <= Z.of_nat (S fuel) ->
  parses o d N (skip_impl (S fuel) map_t depth) (wire (TMap k m) (VMap l)) tt.
Proof.
  intros Hf Ht Hr Hs Hn Hn' HF. simpl in Hs, Hn, Hn'. apply andb_true_iff in Hs as [Hlen Hs]. apply Z.leb_le in Hlen.
  match type of Hn with context [zmax ?l] => pose proof (zmax_nonneg l) end.
  eapply skip_guard; [lia|done|]. cbn [wire].
  eapply parses_bind; [apply parses_map_begin; lia|].
  destruct (Z.eqb_spec (Z.of_nat (length l)) 0) as [H0|H0]; [destruct l; [apply parses_ret|done]|].
  cbv beta iota. rewrite Nat2Z.id. eapply parses_map; [|done].
  apply map_skips; [by eapply pairs_ok| |done|apply wire_map_header_length; lia].
  eapply Forall_impl; [by eapply (pairs_ok skips k m o depth)|]. by intros p ((_ & _ & _ & ?) & (_ & _ & _ & ?)).
Qed.

Lemma reads_and_skips v : reads v /\ skips v.
Proof.
  induction v as [b|z|bits|bs|l IH|l IH|l IH|l IH] using value_ind_nested;
    try (split; [by apply reads_leaf|by apply skips_leaf]).
  - by apply list_reads_and_skips.
  - by apply set_reads_and_skips.
  - split; intros t o d N [|fuel]; intros; try (apply parses_vac; lia);
      match goal with H : has_type _ _ |- _ => inversion H; subst end.
    + apply map_elements_reads; try done. eapply Forall_impl; [exact IH|]. by intros p [[] []].
    + apply map_elements_skips; try done. eapply Forall_impl; [exact IH|]. by intros p [[] []].
  - split; [by apply struct_reads|by apply struct_skips].
Qed.

(** ** The bytes of a value *)

Lemma concat_bytes {A} (f : A -> list Z) l : Forall (fun x => Forall is_byte (f x)) l ->
  Forall is_byte (concat (map f l)).
Proof. induction 1; simpl; [constructor|]. by apply Forall_app. Qed.

Lemma wire_size_bytes n : 0 <= n < 2 ^ 31 -> Forall is_byte (wire_size n).
Proof. intros. apply varint_bytes_spec; [lia|unfold in_u; lia]. Qed.

Lemma wire_list_header_bytes t n : 0 <= n < 2 ^ 31 -> Forall is_byte (wire_list_header t n).
Proof.
  intros Hn. unfold wire_list_header. pose proof (ct_of_range t).
  destruct (Z.leb_spec n 14); constructor; try (unfold in_u; lia); [constructor|by apply wire_size_bytes].
Qed.

Lemma wire_field_header_bytes last id ct : in_s 16 id -> 0 <= ct < 16 ->
  Forall is_byte (wire_field_header last id ct).
Proof.
  intros Hid Hct. unfold wire_field_header. destruct (Z.ltb_spec last id), (Z.leb_spec (id - last) 15); simpl;
    constructor; try (unfold in_u; lia); try constructor; by apply wire_int_bytes.
Qed.

Lemma wire_double_bytes bits : Forall is_byte (wire_double bits).
Proof.
  unfold wire_double. apply List.Forall_forall. intros x (i & <- & _)%in_map_iff.
  change 0xff with (2 ^ 8 - 1). rewrite land_ones_mod by lia. apply mod_pow2_range. lia.
Qed.

Lemma wire_fields_bytes fs l last :
  Forall (fun p => forall t, has_type t p.2 -> Forall is_byte (wire t p.2)) l ->
  Forall (fun p => in_s 16 p.1 /\ exists t, field_type fs p.1 = Some t /\ has_type t p.2) l ->
  Forall is_byte (wire_fields fs last l).
Proof.
  intros IH Ht. revert last. induction l as [|[id v] l IHl]; intros last; [by repeat constructor|].
  apply Forall_cons in IH as [Hv IH]. apply Forall_cons in Ht as [(Hid & t & Hf & Hvt) Ht].
  simpl in Hid, Hf, Hvt. rewrite (wire_fields_cons _ _ _ _ _ _ Hf). rewrite !Forall_app. split_and!.
  - apply wire_field_header_bytes; [done|apply field_ct_range].
  - destruct v; try by apply Hv. constructor.
  - by apply IHl.
Qed.

Lemma wire_bytes v : forall t, has_type t v -> Forall is_byte (wire t v).
Proof.
  induction v as [b|z|bits|bs|l IH|l IH|l IH|l IH] using value_ind_nested; intros t Ht; inversion Ht; subst;
    rewrite ?wire_struct; cbn [wire].
  - by destruct b; repeat constructor.
  - destruct w; simpl; [|apply wire_int_bytes; [lia|by apply wraps_range]..].
    constructor; [apply wrapu_range; lia|constructor].
  - by apply wire_int_bytes.
  - apply wire_double_bytes.
  - unfold wire_binary. apply Forall_app. split; [apply wire_size_bytes; lia|done].
  - unfold wire_binary. apply Forall_app. split; [apply wire_size_bytes; lia|done].
  - apply Forall_app. split; [apply wire_list_header_bytes; lia|]. apply concat_bytes.
    rewrite Forall_forall in *. auto.
  - apply Forall_app. split; [apply wire_list_header_bytes; lia|]. apply concat_bytes.
    rewrite Forall_forall in *. auto.
  - unfold wire_map_header. rewrite !Forall_app. split_and!; [apply wire_size_bytes; lia| |].
    + destruct (_ =? 0); [constructor|]. constructor; [|constructor].
      pose proof (ct_of_range (ttype_v k)). pose proof (ct_of_range (ttype_v m)). unfold in_u. lia.
    + apply concat_bytes. rewrite Forall_forall in *. intros [x y] Hx.
      destruct (IH _ Hx), (H3 _ Hx). apply Forall_app. auto.
  - by apply wire_fields_bytes.
Qed.

(** ** Reading arbitrary input *)

Lemma readA_safe {A} B n (body : reader A) : safe B 0 body -> safe B 0 (readA body n).
Proof.
  intros Hb. induction n as [|n IH]; simpl; [apply safe_ret|].
  apply safe_bind0; [done|]. intros a. apply safe_bind0; [done|]. intros l. apply safe_ret.
Qed.

Lemma forA_safe {A} B (body : A -> reader unit) l : (forall x, safe B 0 (body x)) -> safe B 0 (forA body l).
Proof.
  intros Hb. induction l as [|x l IH]; simpl; [apply safe_ret|]. by apply safe_bind0.
Qed.

Lemma skip_elements_safe B n ts : safe B 0 (skip_elements n ts).
Proof. apply repeatA_safe, forA_safe. intros. apply skip_safe. Qed.

Lemma read_into_safe {A C} B (body : reader A) (add : A -> list C -> list C) n :
  safe B 0 body -> safe B 0 (read_into body add n).
Proof. intros. apply safe_bind0; [by apply readA_safe|]. intros. apply safe_ret. Qed.

Lemma read_int_safe B w sgn : safe B 0 (read_int w sgn).
Proof. destruct w; simpl; apply safe_bind0; try (intros; apply safe_ret); apply safe_drop; auto with dwarfs. Qed.

Lemma read_field_safe B rv fs t id l : (forall t, safe B 0 (rv t)) -> safe B 0 (read_field rv fs t id l).
Proof.
  intros Hrv. unfold read_field.
  assert (safe B 0 (skip t ;; ret l)) by (apply safe_bind0; [apply skip_safe|intros; apply safe_ret]).
  destruct (field_type fs id) as [t'|]; [|done]. case_decide; [|done].
  apply safe_bind0; [done|]. intros. apply safe_ret.
Qed.

#[export] Hint Resolve skip_elements_safe read_int_safe : dwarfs.

Lemma read_list_safe B et re : safe (B - 1) 0 re -> safe B 0 (read_list et re).
Proof.
  intros Hre. apply safe_drop, safe_bind1; [auto with dwarfs|]. intros [t n].
  apply safe_bind0; [|repeat safe_step]. case_decide; [|repeat safe_step]. by apply read_into_safe.
Qed.

Lemma read_set_safe B et re : safe (B - 1) 0 re -> safe B 0 (read_set et re).
Proof.
  intros Hre. apply safe_drop, safe_bind1; [apply read_list_begin_safe|]. intros [t n].
  apply safe_bind0; [|repeat safe_step]. case_decide; [|repeat safe_step]. by apply read_into_safe.
Qed.

Lemma read_map_safe B kt mt rk rm : safe (B - 1) 0 rk -> safe (B - 1) 0 rm ->
  safe B 0 (read_map kt mt rk rm).
Proof.
  intros Hrk Hrm. apply safe_drop, safe_bind1; [auto with dwarfs|]. intros [[k m] n].
  apply safe_bind0; [|repeat safe_step]. destruct (_ && _); [|repeat safe_step].
  apply read_into_safe, safe_bind0; [done|]. intros key.
  apply safe_bind0; [done|]. intros. apply safe_ret.
Qed.

Lemma read_value_safe fuel :
  (forall t B, 2 * B + 2 <= Z.of_nat fuel -> safe B 0 (read_value fuel t)) /\
  (forall fs l B, 2 * B + 1 <= Z.of_nat fuel -> safe B 0 (read_fields fuel fs l)).
Proof.
  induction fuel as [|fuel [IHv IHf]]; [split; intros; apply safe_neg; lia|]. split.
  - intros t B HB. destruct t; cbn [read_value]; [solve [repeat safe_step]..| | | |].
    + apply safe_bind0; [|intros; apply safe_ret]. apply read_list_safe, IHv. lia.
    + apply safe_bind0; [|intros; apply safe_ret]. apply read_set_safe, IHv. lia.
    + apply safe_bind0; [|intros; apply safe_ret]. apply read_map_safe; apply IHv; lia.
    + apply safe_bind0; [auto with dwarfs|]. intros _.
      apply safe_bind0; [apply IHf; lia|]. repeat safe_step.
  - intros fs l B HB. cbn [read_fields]. apply safe_drop, safe_bind1; [auto with dwarfs|]. intros [ft fid].
    case_decide; [apply safe_ret|]. apply safe_bind0; [apply read_field_safe; intros; apply IHv; lia|]. intros l'.
    apply safe_bind0; [apply safe_ret|]. intros _. apply IHf. lia.
Qed.

(** ** Properties *)

Lemma at_init bytes o : Forall is_byte bytes -> at_ bytes (compact_reader_init bytes o).
Proof. intros. unfold at_. simpl. split_and!; done || lia. Qed.

Lemma reader_inv_init bytes o : Forall is_byte bytes -> reader_inv (compact_reader_init bytes o).
Proof. intros. unfold reader_inv. simpl. split_and!; done || lia. Qed.

(** C10: every well-typed value that respects the reader's limits can be
    written, and reading the bytes back gives the same value and consumes all
    of them. *)
Theorem thrift_roundtrip t v o : has_type t v -> sizes_ok o v = true -> nesting v <= max_struct_depth o ->
  exists w r, write_value t v compact_writer_init = (Ok tt, w) /\
    read t (compact_reader_init (w_out w) o) = (Ok v, r) /\ remaining_bytes r = 0.
Proof.
  intros Ht Hs Hn. pose proof (at_init (wire t v) o (wire_bytes v t Ht)) as Ha.
  exists (emit (wire t v) compact_writer_init). simpl.
  eexists. split; [by apply write_value_emit|]. split.
  - unfold read. apply (proj1 (reads_and_skips v) t o 0 (Z.of_nat (length (wire t v)))) with [];
      rewrite ?app_nil_r; try done; unfold remaining_bytes; simpl; lia.
  - unfold remaining_bytes. simpl. lia.
Qed.

Definition demo_schema : list (Z * ty) :=
  [(1, TBool); (2, TInt I32 false); (40, TList TString); (41, TMap (TInt I16 true) TBool)].
Definition demo_fields : list (Z * value) :=
  [(1, VBool true); (2, VInt 4000000000); (40, VList [VBytes [100; 119]; VBytes []]);
   (41, VMap [(VInt (-3), VBool false)])].
Definition demo_value : value := VStruct demo_fields.

Lemma demo_typed : has_type (TStruct demo_schema) demo_value.
Proof.
  repeat first [apply ht_struct | apply ht_bool | apply ht_int | apply ht_list | apply ht_map | apply ht_string
    | constructor | reflexivity | discriminate | eexists
    | match goal with |- _ ∉ _ => apply not_elem_of_nil end ].
Qed.

Lemma thrift_roundtrip_witness :
  exists w r, write_value (TStruct demo_schema) demo_value compact_writer_init = (Ok tt, w) /\
    read (TStruct demo_schema) (compact_reader_init (w_out w) default_decode_options) = (Ok demo_value, r) /\
    remaining_bytes r = 0.
Proof.
  apply (thrift_roundtrip (TStruct demo_schema) demo_value default_decode_options);
    [exact demo_typed|reflexivity|discriminate].
Defined.

(** A reader that does not know a field skips exactly the bytes its
    writer produced, whatever follows them. *)
Theorem thrift_skip t v o rest : has_type t v -> sizes_ok o v = true -> nesting v <= max_struct_depth o ->
  Forall is_byte rest ->
  exists w r, write_value t v compact_writer_init = (Ok tt, w) /\
    skip (ttype_v t) (compact_reader_init (w_out w ++ rest) o) = (Ok tt, r) /\
    consumed_bytes r = Z.of_nat (length (w_out w)).
Proof.
  intros Ht Hs Hn Hr.
  assert (Forall is_byte (wire t v ++ rest)) as Hb by (apply Forall_app; eauto using wire_bytes).
  pose proof (at_init _ o Hb) as Ha. exists (emit (wire t v) compact_writer_init). simpl.
  eexists. split; [by apply write_value_emit|]. split.
  - unfold skip. apply (proj2 (reads_and_skips v) t o 0 (Z.of_nat (length (wire t v ++ rest)))) with rest;
      try done; unfold remaining_bytes; simpl; lia.
  - unfold consumed_bytes. simpl. lia.
Qed.

Lemma thrift_skip_witness :
  exists w r, write_value (TStruct demo_schema) demo_value compact_writer_init = (Ok tt, w) /\
    skip struct_t (compact_reader_init (w_out w ++ [255; 0]) default_decode_options) = (Ok tt, r) /\
    consumed_bytes r = Z.of_nat (length (w_out w)).
Proof.
  apply (thrift_skip (TStruct demo_schema) demo_value default_decode_options [255; 0]);
    [exact demo_typed|reflexivity|discriminate|].
  repeat constructor; discriminate.
Defined.

(** C27: schema evolution. A struct written with schema [fs] and read with a
    schema [fs'] in which the shared fields either kept their type or changed
    their wire type, yields exactly the fields that [fs'] has with the same
    wire type; the others are skipped. *)
Theorem thrift_schema_evolution fs fs' l o : compatible fs fs' ->
  has_type (TStruct fs) (VStruct l) -> sizes_ok o (VStruct l) = true ->
  nesting (VStruct l) <= max_struct_depth o ->
  exists w r, write_value (TStruct fs) (VStruct l) compact_writer_init = (Ok tt, w) /\
    read (TStruct fs') (compact_reader_init (w_out w) o) =
      (Ok (VStruct (filter (same_wire_type fs fs') l)), r) /\ remaining_bytes r = 0.
Proof.
  intros Hc Ht Hs Hn. pose proof (at_init _ o (wire_bytes _ _ Ht)) as Ha.
  exists (emit (wire (TStruct fs) (VStruct l)) compact_writer_init). change (w_out _) with (wire (TStruct fs) (VStruct l)).
  exists (adv (length (wire (TStruct fs) (VStruct l))) (compact_reader_init (wire (TStruct fs) (VStruct l)) o)).
  split; [by apply write_value_emit|]. split; [|unfold remaining_bytes; cbn -[wire]; lia].
  inversion Ht; subst. rewrite wire_struct in *. unfold read.
  replace (2 * _ + 2)%nat with (S (2 * length (wire_fields fs 0 l) + 1)) by (unfold remaining_bytes; simpl; lia).
  cbn [read_value]. 
  pose proof (zmax_nonneg (map (fun p : Z * value => match p with (_, x) => nesting x end) l)).
  apply (struct_at o 0 (Z.of_nat (length (wire_fields fs 0 l))) _ _ _ (filter (same_wire_type fs fs') l)) with [];
    rewrite ?app_nil_r; try done; [simpl in Hn; lia|].
  intros r tl Hl Hq Ho Hd Ha' HN.
  apply (read_fields_at fs fs' o (0 + 1) l Hc) with tl; try done; try lia.
  - apply Forall_forall. intros p _. apply reads_and_skips.
  - apply (struct_fields_ok fs o 0 (-1)); done || lia.
Qed.

(** The reader dropped field 2, and field 40 became an integer. *)
Definition demo_schema' : list (Z * ty) := [(1, TBool); (40, TInt I64 true); (41, TMap (TInt I16 true) TBool)].

Lemma thrift_schema_evolution_witness :
  exists w r, write_value (TStruct demo_schema) demo_value compact_writer_init = (Ok tt, w) /\
    read (TStruct demo_schema') (compact_reader_init (w_out w) default_decode_options) =
      (Ok (VStruct [(1, VBool true); (41, VMap [(VInt (-3), VBool false)])]), r) /\ remaining_bytes r = 0.
Proof.
  replace [(1, VBool true); (41, VMap [(VInt (-3), VBool false)])]
    with (filter (same_wire_type demo_schema demo_schema') demo_fields) by (vm_compute; reflexivity).
  apply (thrift_schema_evolution demo_schema demo_schema' demo_fields default_decode_options);
    [|exact demo_typed|reflexivity|discriminate].
  intros id t t'. unfold demo_schema, demo_schema'. cbn [field_type].
  destruct (1 =? id), (2 =? id), (40 =? id), (41 =? id); intros [= <-] [= <-]; done.
Defined.

(** C35: reading any input bytes with any schema ends, returning a value or
    throwing a [protocol_error]; the position stays inside the buffer. *)
Theorem thrift_read_total t bytes o : Forall is_byte bytes ->
  let (res, r) := read t (compact_reader_init bytes o) in
  0 <= consumed_bytes r <= Z.of_nat (length bytes) /\
  match res with Ok _ => True | Err e => exists what, e = protocol_error what end.
Proof.
  intros Hb. set (r0 := compact_reader_init bytes o).
  pose proof (proj1 (read_value_safe (2 * Z.to_nat (remaining_bytes r0) + 2)) t (remaining_bytes r0)) as Hsafe.
  specialize (Hsafe ltac:(unfold remaining_bytes, r0; simpl; lia) r0 (reader_inv_init _ _ Hb) ltac:(lia)).
  unfold read. destruct (read_value _ t r0) as [[] r]; destruct Hsafe as ((? & _) & Hin & _ & _ & ?);
    unfold consumed_bytes; rewrite Hin in *; done.
Qed.

Lemma thrift_read_total_witness :
  let (res, r) := read (TStruct demo_schema) (compact_reader_init [0x28; 0xff; 0xff] default_decode_options) in
  0 <= consumed_bytes r <= 3 /\
  match res with Ok _ => True | Err e => exists what, e = protocol_error what end.
Proof.
  apply (thrift_read_total (TStruct demo_schema) [0x28; 0xff; 0xff] default_decode_options).
  repeat constructor; discriminate.
Defined.
