(* ===== verification/Bits.v ===== *)
(** * Bits: integers, bytes and bit sequences

    Bit sequences, least significant bit first, are the specification level of
    the bit streams and of the packed containers; little-endian bytes are
    their machine representation. *)

From S2P Require Import Prelude.
Local Open Scope Z_scope.

(** The low [n] bits of [z]. *)
Fixpoint bits (n : nat) (z : Z) : list bool :=
  match n with
  | O => []
  | S n => Z.odd z :: bits n (Z.div2 z)
  end.

(** The number a bit sequence denotes. *)
Fixpoint of_bits (bs : list bool) : Z :=
  match bs with
  | [] => 0
  | b :: bs => Z.b2z b + 2 * of_bits bs
  end.

(** Little-endian bytes. *)
Fixpoint le_bytes (n : nat) (z : Z) : list Z :=
  match n with
  | O => []
  | S n => z mod 256 :: le_bytes n (Z.shiftr z 8)
  end.

Fixpoint le_value (l : list Z) : Z :=
  match l with
  | [] => 0
  | b :: l => b + 256 * le_value l
  end.

Definition bytes_bits (l : list Z) : list bool := concat (map (bits 8) l).

(** [std::countr_zero] and [std::countl_zero] of a [w]-bit integer. *)
Fixpoint countr_zero (w : nat) (z : Z) : nat :=
  match w with
  | O => O
  | S w => if Z.odd z then O else S (countr_zero w (Z.div2 z))
  end.

Definition countl_zero (w z : Z) : Z := w - bit_width z.

Lemma length_bits n z : length (bits n z) = n.
Proof. revert z. induction n; intros; simpl; auto. Qed.

Lemma bits_add n m z : bits (n + m) z = bits n z ++ bits m (Z.shiftr z (Z.of_nat n)).
Proof.
  revert z. induction n as [|n IH]; intros z; simpl; [done|]. f_equal. rewrite IH. do 2 f_equal.
  rewrite Z.div2_spec, Z.shiftr_shiftr by lia. f_equal. lia.
Qed.

Lemma bits_lookup n z i : (i < n)%nat -> bits n z !! i = Some (Z.testbit z (Z.of_nat i)).
Proof.
  revert z i. induction n as [|n IH]; intros z i Hi; [lia|]. destruct i as [|i].
  - done.
  - change (bits n (Z.div2 z) !! i = Some (Z.testbit z (Z.of_nat (S i)))).
    rewrite IH by lia. f_equal. rewrite Z.div2_spec, Z.shiftr_spec by lia. f_equal. lia.
Qed.

Lemma bits_ext n a b : (forall i, 0 <= i < Z.of_nat n -> Z.testbit a i = Z.testbit b i) -> bits n a = bits n b.
Proof.
  intros H. apply list_eq. intros i. destruct (decide (i < n)%nat).
  - rewrite !bits_lookup by done. f_equal. apply H. lia.
  - by rewrite !lookup_ge_None_2 by (rewrite length_bits; lia).
Qed.

Lemma bits_mod n z : bits n (z mod 2 ^ Z.of_nat n) = bits n z.
Proof. apply bits_ext. intros i Hi. by rewrite Z.mod_pow2_bits_low by lia. Qed.

Lemma bits_inj n a b : 0 <= a < 2 ^ Z.of_nat n -> 0 <= b < 2 ^ Z.of_nat n -> bits n a = bits n b -> a = b.
Proof.
  intros Ha Hb H. apply Z.bits_inj'. intros i Hi.
  destruct (Z_lt_le_dec i (Z.of_nat n)).
  - apply (f_equal (fun l => l !! Z.to_nat i)) in H. rewrite !bits_lookup in H by lia.
    rewrite Z2Nat.id in H by lia. congruence.
  - by rewrite !(testbit_above (Z.of_nat n)) by lia.
Qed.

(** A low part of [n] bits under a shifted high part. *)
Lemma bits_lor_shiftl n m a b : 0 <= a < 2 ^ Z.of_nat n ->
  bits (n + m) (Z.lor a (Z.shiftl b (Z.of_nat n))) = bits n a ++ bits m b.
Proof.
  intros Ha. rewrite bits_add. f_equal.
  - apply bits_ext. intros i Hi. rewrite Z.lor_spec, Z.shiftl_spec_low by lia. apply orb_false_r.
  - f_equal. rewrite Z.shiftr_lor, Z.shiftr_shiftl_l, Z.sub_diag, Z.shiftl_0_r by lia.
    rewrite Z.shiftr_div_pow2, Z.div_small by lia. done.
Qed.

Lemma bits_zero n : bits n 0 = replicate n false.
Proof. induction n; simpl; [done|]. by f_equal. Qed.

Lemma bits_ones n : bits n (2 ^ Z.of_nat n - 1) = replicate n true.
Proof.
  assert (2 ^ Z.of_nat n - 1 = Z.ones (Z.of_nat n)) as -> by (rewrite Z.ones_equiv; lia).
  apply list_eq. intros i. destruct (decide (i < n)%nat).
  - rewrite bits_lookup, lookup_replicate_2 by done. f_equal. apply Z.ones_spec_low. lia.
  - by rewrite !lookup_ge_None_2 by (rewrite ?length_bits, ?length_replicate; lia).
Qed.

(** Trailing zero bits above the value. *)
Lemma bits_pad n m a : 0 <= a < 2 ^ Z.of_nat n -> bits (n + m) a = bits n a ++ replicate m false.
Proof.
  intros Ha. rewrite bits_add, Z.shiftr_div_pow2, Z.div_small by lia. by rewrite bits_zero.
Qed.

Lemma length_le_bytes n z : length (le_bytes n z) = n.
Proof. revert z. induction n; intros; simpl; auto. Qed.

Lemma le_bytes_is_byte n z : Forall is_byte (le_bytes n z).
Proof.
  revert z. induction n as [|n IH]; intros z; simpl; constructor; [|done].
  apply Z.mod_pos_bound. lia.
Qed.

Lemma bytes_bits_app a b : bytes_bits (a ++ b) = bytes_bits a ++ bytes_bits b.
Proof. unfold bytes_bits. by rewrite map_app, concat_app. Qed.

Lemma length_bytes_bits l : length (bytes_bits l) = (8 * length l)%nat.
Proof.
  unfold bytes_bits. induction l as [|b l IH]; [done|]. cbn [map concat].
  rewrite length_app, length_bits, IH. simpl. lia.
Qed.

Lemma bytes_bits_le_bytes n z : bytes_bits (le_bytes n z) = bits (8 * n) z.
Proof.
  revert z. induction n as [|n IH]; intros z; [done|].
  replace (8 * S n)%nat with (8 + 8 * n)%nat by lia. rewrite bits_add.
  unfold bytes_bits in *. cbn [le_bytes map concat]. rewrite IH. f_equal. apply (bits_mod 8).
Qed.

Lemma le_value_range l : Forall is_byte l -> 0 <= le_value l < 2 ^ (8 * Z.of_nat (length l)).
Proof.
  induction 1 as [|b l Hb Hl IH]; simpl; [lia|].
  replace (8 * Z.of_nat (S (length l))) with (8 + 8 * Z.of_nat (length l)) by lia.
  rewrite Z.pow_add_r by lia. unfold in_u in Hb. lia.
Qed.

Lemma bits_le_value l : Forall is_byte l -> bits (8 * length l) (le_value l) = bytes_bits l.
Proof.
  induction 1 as [|b l Hb Hl IH]; [done|]. cbn [length le_value].
  replace (8 * S (length l))%nat with (8 + 8 * length l)%nat by lia.
  replace (b + 256 * le_value l) with (Z.lor b (Z.shiftl (le_value l) 8))
    by (rewrite lor_shiftl_add by (unfold in_u in Hb; lia); change (2 ^ 8) with 256; lia).
  rewrite (bits_lor_shiftl 8) by exact Hb. by rewrite IH.
Qed.

Lemma le_value_le_bytes n z : le_value (le_bytes n z) = z mod 2 ^ (8 * Z.of_nat n).
Proof.
  revert z. induction n as [|n IH]; intros z; [by rewrite Z.mod_1_r|]. cbn [le_bytes le_value].
  rewrite IH. replace (8 * Z.of_nat (S n)) with (8 + 8 * Z.of_nat n) by lia.
  rewrite mod_pow2_app by lia. change (2 ^ 8) with 256. lia.
Qed.

Lemma le_bytes_le_value l : Forall is_byte l -> le_bytes (length l) (le_value l) = l.
Proof.
  induction 1 as [|b l Hb Hl IH]; [done|]. cbn [length le_value le_bytes]. unfold in_u in Hb. f_equal.
  - by rewrite (Z.mul_comm 256), Z.mod_add, Z.mod_small by lia.
  - rewrite Z.shiftr_div_pow2 by lia. change (2 ^ 8) with 256.
    rewrite (Z.mul_comm 256), Z.div_add, Z.div_small, Z.add_0_l by lia. exact IH.
Qed.

Lemma countr_zero_spec w z rest k : bits w z = replicate k false ++ true :: rest -> countr_zero w z = k.
Proof.
  revert z k. induction w as [|w IH]; intros z k; simpl; [by destruct k|].
  destruct k as [|k]; simpl; intros [= Hz Hr]; rewrite Hz; [done|]. f_equal. by apply IH.
Qed.

Lemma countr_zero_none w z : bits w z = replicate w false -> countr_zero w z = w.
Proof.
  revert z. induction w as [|w IH]; intros z; simpl; [done|]. intros [= Hz Hr]. rewrite Hz. f_equal. by apply IH.
Qed.

Lemma bits_cases w z : (exists k rest, bits w z = replicate k false ++ true :: rest) \/ bits w z = replicate w false.
Proof.
  revert z. induction w as [|w IH]; intros z; simpl; [by right|].
  destruct (Z.odd z); [left; by exists O, (bits w (Z.div2 z))|].
  destruct (IH (Z.div2 z)) as [(k & rest & ->)| ->]; [left; by exists (S k), rest|by right].
Qed.

#[global] Arguments bits : simpl never.
#[global] Arguments le_bytes : simpl never.
