(* ===== verification/PackedInts.v ===== *)
(** * PackedInts: packed integers and delta coding

    [bit_view] ([include/dwarfs/bit_view.h]) over storage words of the width of
    the integers, [packed_int_vector] ([include/dwarfs/internal/packed_int_vector.h])
    for an unsigned type, and the two algorithms of the C++ library that the
    packed tables of the metadata are made with, [std::partial_sum] and
    [std::adjacent_difference], at 32 bits. *)

From S2P Require Import Prelude Bits.
Local Open Scope Z_scope.

(** ** [std::partial_sum], [std::adjacent_difference] over [uint32_t] *)

Fixpoint partial_sum_from (acc : Z) (l : list Z) : list Z :=
  match l with
  | [] => []
  | x :: l => let acc := wrapu 32 (acc + x) in acc :: partial_sum_from acc l
  end.
Definition partial_sum (l : list Z) : list Z := partial_sum_from 0 l.

Fixpoint adjacent_difference_from (prev : Z) (l : list Z) : list Z :=
  match l with
  | [] => []
  | x :: l => wrapu 32 (x - prev) :: adjacent_difference_from x l
  end.
Definition adjacent_difference (l : list Z) : list Z := adjacent_difference_from 0 l.

(** [std::accumulate] over [size_t], which nothing here can overflow. *)
Definition accumulate (l : list Z) (init : Z) : Z := foldl Z.add init l.

(** ** [bit_view] *)

Section view.
(** The width of the integers and of the words, [8 * chunk_bytes]. *)
Context (lg_bytes : Z).
Definition chunk_bytes : Z := 2 ^ lg_bytes.
Definition chunk_bits : Z := 8 * chunk_bytes.

Definition bit_mask (width : Z) : Z := if width <? chunk_bits then Z.shiftl 1 width - 1 else 2 ^ chunk_bits - 1.

Definition locate (bit_offset : Z) : Z * Z :=
  let byte0 := Z.shiftr bit_offset 3 in
  let chunk0_byte := Z.land byte0 (Z.lnot (chunk_bytes - 1)) in
  let bit_in_byte := Z.land bit_offset 7 in
  (chunk0_byte, 8 * (byte0 - chunk0_byte) + bit_in_byte).

(** Out of range there is nothing to read or to write. *)
Definition load (words : list Z) (byte_offset : Z) : option Z := words !! Z.to_nat (byte_offset / chunk_bytes).
Definition store (words : list Z) (byte_offset value : Z) : option (list Z) :=
  if byte_offset / chunk_bytes <? zlen words then Some (<[Z.to_nat (byte_offset / chunk_bytes) := value]> words) else None.

Definition view_read (words : list Z) (bit_offset width : Z) : option Z :=
  if width =? 0 then Some 0
  else
    let '(chunk0_byte, shift) := locate bit_offset in
    a ← load words chunk0_byte;
    value ← (if shift + width <=? chunk_bits then Some (Z.shiftr a shift)
             else b ← load words (chunk0_byte + chunk_bytes);
                  Some (Z.lor (Z.shiftr a shift) (wrapu chunk_bits (Z.shiftl b (chunk_bits - shift)))));
    Some (Z.land value (bit_mask width)).

Definition view_write (words : list Z) (bit_offset width v : Z) : option (list Z) :=
  if width =? 0 then Some words
  else
    let value_mask := bit_mask width in
    let value := Z.land (wrapu chunk_bits v) value_mask in
    let '(chunk0_byte, shift) := locate bit_offset in
    if shift + width <=? chunk_bits then
      a ← load words chunk0_byte;
      store words chunk0_byte (Z.lor (Z.ldiff a (wrapu chunk_bits (Z.shiftl value_mask shift))) (wrapu chunk_bits (Z.shiftl value shift)))
    else
      let lo_bits := chunk_bits - shift in
      let hi_bits := width - lo_bits in
      a ← load words chunk0_byte;
      b ← load words (chunk0_byte + chunk_bytes);
      let lo_mask := wrapu chunk_bits (Z.shiftl (bit_mask lo_bits) shift) in
      let hi_mask := bit_mask hi_bits in
      let a := Z.lor (Z.ldiff a lo_mask) (Z.land (wrapu chunk_bits (Z.shiftl value shift)) lo_mask) in
      let b := Z.lor (Z.ldiff b hi_mask) (Z.shiftr value lo_bits) in
      words ← store words chunk0_byte a;
      store words (chunk0_byte + chunk_bytes) b.

(** ** [packed_int_vector] *)

Record packed_int_vector : Type := PackedIntVector { pv_size : Z; pv_bits : Z; pv_data : list Z }.

Definition min_data_size (size bits : Z) : Z := (size * bits + chunk_bits - 1) / chunk_bits.

(** [std::vector::resize]. *)
Definition vector_resize (n : Z) (l : list Z) : list Z := take (Z.to_nat n) l ++ replicate (Z.to_nat (n - zlen l)) 0.

(** The constructors.  The third one initialises the vector of words with braces,
    which makes one word of the number of words that are needed. *)
Definition pv_default : packed_int_vector := PackedIntVector 0 0 [].
Definition pv_with_bits (bits : Z) : packed_int_vector := PackedIntVector 0 bits [].
Definition pv_create (bits size : Z) : packed_int_vector :=
  PackedIntVector size bits [wrapu chunk_bits (min_data_size size bits)].

Definition pv_reset (bits size : Z) (v : packed_int_vector) : packed_int_vector :=
  PackedIntVector size bits (vector_resize (min_data_size size bits) []).
Definition pv_resize (size : Z) (v : packed_int_vector) : packed_int_vector :=
  PackedIntVector size (pv_bits v) (vector_resize (min_data_size size (pv_bits v)) (pv_data v)).
Definition pv_clear (v : packed_int_vector) : packed_int_vector := PackedIntVector 0 (pv_bits v) [].

Definition pv_get (v : packed_int_vector) (i : Z) : option Z :=
  if 0 <? pv_bits v then view_read (pv_data v) (i * pv_bits v) (pv_bits v) else Some 0.

(** [at]: [Err] where it throws. *)
Definition pv_at (v : packed_int_vector) (i : Z) : result unit (option Z) :=
  if pv_size v <=? i then Err tt else Ok (pv_get v i).

Definition pv_set (i value : Z) (v : packed_int_vector) : option packed_int_vector :=
  if 0 <? pv_bits v then
    data ← view_write (pv_data v) (i * pv_bits v) (pv_bits v) value;
    Some (PackedIntVector (pv_size v) (pv_bits v) data)
  else Some v.

Definition pv_push_back (value : Z) (v : packed_int_vector) : option packed_int_vector :=
  let data :=
    if zlen (pv_data v) <? min_data_size (pv_size v + 1) (pv_bits v) then vector_resize (zlen (pv_data v) + 1) (pv_data v)
    else pv_data v in
  pv_set (pv_size v) value (PackedIntVector (pv_size v + 1) (pv_bits v) data).

Definition pv_pop_back (v : packed_int_vector) : packed_int_vector :=
  let size := if 0 <? pv_size v then pv_size v - 1 else pv_size v in
  let data :=
    if min_data_size size (pv_bits v) <? zlen (pv_data v) then vector_resize (zlen (pv_data v) - 1) (pv_data v)
    else pv_data v in
  PackedIntVector size (pv_bits v) data.

Definition pv_back (v : packed_int_vector) : option Z := pv_get v (pv_size v - 1).
Definition pv_front (v : packed_int_vector) : option Z := pv_get v 0.

Definition pv_unpack (v : packed_int_vector) : option (list Z) :=
  mapM (fun i => pv_get v (Z.of_nat i)) (seq 0 (Z.to_nat (pv_size v))).

(** ** The bits of the words *)

Context (Hlg : 0 <= lg_bytes).

Lemma chunk_bits_pow : chunk_bits = 2 ^ (lg_bytes + 3).
Proof. unfold chunk_bits, chunk_bytes. rewrite Z.pow_add_r by lia. change (2 ^ 3) with 8. lia. Qed.

Lemma chunk_bits_pos : 0 < chunk_bits.
Proof. rewrite chunk_bits_pow. apply Z.pow_pos_nonneg; lia. Qed.

Lemma locate_spec off : 0 <= off -> exists c, locate off = (c, off mod chunk_bits) /\ c / chunk_bytes = off / chunk_bits /\
  (c + chunk_bytes) / chunk_bytes = off / chunk_bits + 1.
Proof.
  intros Hoff. unfold locate. set (b := Z.shiftr off 3).
  assert (chunk_bytes - 1 = Z.ones lg_bytes) as -> by (unfold chunk_bytes; rewrite Z.ones_equiv; lia).
  rewrite <- Z.ldiff_land, Z.ldiff_ones_r by lia. set (c := Z.shiftl _ _).
  assert (c = off / chunk_bits * chunk_bytes) as Hc.
  { unfold c, b. rewrite Z.shiftl_mul_pow2, !Z.shiftr_div_pow2 by lia. rewrite Z.div_div, <- Z.pow_add_r by lia.
    rewrite chunk_bits_pow, (Z.add_comm 3). done. }
  assert (0 < chunk_bytes) as Hpos by (apply Z.pow_pos_nonneg; lia).
  exists c. rewrite Hc, Z.div_mul by lia. split_and!; [|done|].
  - f_equal. change 7 with (Z.ones 3). rewrite Z.land_ones by lia. unfold b. rewrite Z.shiftr_div_pow2 by lia.
    change (2 ^ 3) with 8. pose proof (Z.div_mod off 8 ltac:(lia)). pose proof (Z.div_mod off chunk_bits ltac:(pose proof chunk_bits_pos; lia)) as H'.
    unfold chunk_bits in *. lia.
  - rewrite <- (Z.mul_1_l chunk_bytes) at 2. rewrite <- Z.mul_add_distr_r. by rewrite Z.div_mul by lia.
Qed.
Definition words_bit (words : list Z) (k : Z) : bool :=
  match words !! Z.to_nat (k / chunk_bits) with Some x => Z.testbit x (k mod chunk_bits) | None => false end.
Definition words_ok (words : list Z) : Prop := Forall (in_u chunk_bits) words.

Lemma bit_mask_ones width : 0 <= width <= chunk_bits -> bit_mask width = Z.ones width.
Proof.
  intros H. unfold bit_mask. rewrite Z.ones_equiv. destruct (Z.ltb_spec width chunk_bits).
  - rewrite Z.shiftl_mul_pow2 by lia. lia.
  - replace width with chunk_bits by lia. lia.
Qed.

Lemma wrapu_testbit z j : 0 <= j -> Z.testbit (wrapu chunk_bits z) j = (j <? chunk_bits) && Z.testbit z j.
Proof.
  intros Hj. pose proof chunk_bits_pos. unfold wrapu. rewrite Z.testbit_mod_pow2 by lia. done.
Qed.

Lemma ones_testbit n j : 0 <= n -> 0 <= j -> Z.testbit (Z.ones n) j = (j <? n).
Proof. intros. rewrite Z.testbit_ones by lia. replace (0 <=? j) with true by lia. done. Qed.

Lemma in_u_testbit w z : 0 <= w -> 0 <= z -> (forall j, w <= j -> Z.testbit z j = false) -> in_u w z.
Proof.
  intros Hw Hz H. split; [done|]. destruct (Z.eq_dec z 0) as [->|Hne]; [apply Z.pow_pos_nonneg; lia|].
  apply Z.log2_lt_pow2; [lia|]. destruct (Z_lt_le_dec (Z.log2 z) w) as [|Hge]; [done|].
  specialize (H _ Hge). rewrite Z.bit_log2 in H by lia. done.
Qed.

Lemma in_u_above w z j : 0 <= w -> in_u w z -> w <= j -> Z.testbit z j = false.
Proof. intros Hw Hz Hj. apply (testbit_above w); [unfold in_u in Hz; lia..]. Qed.

(** A range of bits in one word, or at the end of one and the start of the next. *)
Lemma div_mod_next off j : 0 <= off -> 0 <= j -> off mod chunk_bits + j < 2 * chunk_bits ->
  (off + j) / chunk_bits = off / chunk_bits + (if off mod chunk_bits + j <? chunk_bits then 0 else 1) /\
  (off + j) mod chunk_bits = off mod chunk_bits + j - (if off mod chunk_bits + j <? chunk_bits then 0 else chunk_bits).
Proof.
  intros Ho Hj Hlt. pose proof chunk_bits_pos as Hp. pose proof (Z.div_mod off chunk_bits ltac:(lia)) as E.
  pose proof (Z.mod_pos_bound off chunk_bits Hp). destruct (Z.ltb_spec (off mod chunk_bits + j) chunk_bits).
  - assert (off / chunk_bits = (off + j) / chunk_bits) as H1 by (apply (Z.div_unique _ _ _ (off mod chunk_bits + j)); lia).
    assert (off mod chunk_bits + j = (off + j) mod chunk_bits) as H2 by (apply (Z.mod_unique _ _ (off / chunk_bits)); lia). lia.
  - assert (off / chunk_bits + 1 = (off + j) / chunk_bits) as H1 by (apply (Z.div_unique _ _ _ (off mod chunk_bits + j - chunk_bits)); lia).
    assert (off mod chunk_bits + j - chunk_bits = (off + j) mod chunk_bits) as H2 by (apply (Z.mod_unique _ _ (off / chunk_bits + 1)); lia). lia.
Qed.

Lemma word_at words i : words_ok words -> 0 <= i < zlen words -> exists x, words !! Z.to_nat i = Some x /\ in_u chunk_bits x.
Proof.
  intros Hok Hi. destruct (lookup_lt_is_Some_2 words (Z.to_nat i)) as [x Hx]; [unfold zlen in Hi; lia|].
  exists x. split; [done|]. unfold words_ok in Hok. rewrite Forall_lookup in Hok. by apply (Hok _ x Hx).
Qed.

Definition bits_within (words : list Z) (off width : Z) : Prop :=
  words_ok words /\ 0 <= off /\ 0 < width <= chunk_bits /\ off + width <= zlen words * chunk_bits.

Lemma second_word words off width : bits_within words off width -> chunk_bits < off mod chunk_bits + width ->
  0 <= off / chunk_bits + 1 < zlen words.
Proof.
  intros (_ & Ho & Hw & Hle) Hgt. pose proof chunk_bits_pos as Hp. pose proof (Z.div_mod off chunk_bits ltac:(lia)) as E.
  assert (0 <= off / chunk_bits) by (apply Z.div_pos; lia). split; [lia|].
  apply (Zmult_lt_reg_r _ _ chunk_bits); lia.
Qed.

Lemma first_word words off width : bits_within words off width -> 0 <= off / chunk_bits < zlen words.
Proof.
  intros (_ & Ho & Hw & Hle). pose proof chunk_bits_pos as Hp. split; [apply Z.div_pos; lia|].
  apply Z.div_lt_upper_bound; lia.
Qed.

Lemma view_read_spec words off width : bits_within words off width ->
  exists r, view_read words off width = Some r /\ in_u width r /\
    forall j, 0 <= j < width -> Z.testbit r j = words_bit words (off + j).
Proof.
  intros Hin. pose proof (first_word _ _ _ Hin) as H0. pose proof (second_word _ _ _ Hin) as H1. destruct Hin as (Hok & Ho & Hw & _).
  pose proof chunk_bits_pos as Hp. unfold view_read. replace (width =? 0) with false by lia.
  destruct (locate_spec off Ho) as (c & -> & Hc & Hc1). unfold load. rewrite Hc, Hc1.
  destruct (word_at words _ Hok H0) as (a & Ha & Hau). rewrite Ha. cbn [mbind option_bind].
  set (s := off mod chunk_bits) in *. pose proof (Z.mod_pos_bound off chunk_bits Hp) as Hs. fold s in Hs.
  rewrite bit_mask_ones by lia.
  assert (forall value, 0 <= value -> (forall j, 0 <= j < width -> Z.testbit value j = words_bit words (off + j)) ->
    exists r, Some (Z.land value (Z.ones width)) = Some r /\ in_u width r /\
    forall j, 0 <= j < width -> Z.testbit r j = words_bit words (off + j)) as Hfin.
  { intros value Hv H. eexists. split; [done|]. split.
    - rewrite Z.land_ones by lia. apply Z.mod_pos_bound. apply Z.pow_pos_nonneg; lia.
    - intros j Hj. rewrite Z.land_spec, ones_testbit, H by lia. replace (j <? width) with true by lia. apply andb_true_r. }
  destruct (Z.leb_spec (s + width) chunk_bits) as [Hle|Hgt]; cbn [mbind option_bind].
  - apply Hfin; [apply Z.shiftr_nonneg, Hau|]. intros j Hj. rewrite Z.shiftr_spec by lia. unfold words_bit.
    destruct (div_mod_next off j Ho ltac:(lia) ltac:(fold s; lia)) as [-> ->]. fold s. replace (s + j <? chunk_bits) with true by lia.
    rewrite Z.add_0_r, Ha, Z.sub_0_r. f_equal. lia.
  - destruct (word_at words _ Hok (H1 Hgt)) as (b & Hb & Hbu). rewrite Hb. cbn [mbind option_bind].
    apply Hfin. { apply Z.lor_nonneg. split; [apply Z.shiftr_nonneg, Hau|apply Z.mod_pos_bound, Z.pow_pos_nonneg; lia]. }
    intros j Hj. rewrite Z.lor_spec, Z.shiftr_spec, wrapu_testbit by lia. unfold words_bit.
    destruct (div_mod_next off j Ho ltac:(lia) ltac:(fold s; lia)) as [-> ->]. fold s. replace (j <? chunk_bits) with true by lia.
    destruct (Z.ltb_spec (s + j) chunk_bits).
    + rewrite Z.add_0_r, Ha, Z.sub_0_r, Z.shiftl_spec_low by lia. rewrite andb_false_r, orb_false_r. f_equal. lia.
    + rewrite Hb, (in_u_above chunk_bits a), Z.shiftl_spec by (done || lia). cbn. f_equal. lia.
Qed.

Lemma words_bit_insert words i x k : 0 <= i < zlen words -> 0 <= k ->
  words_bit (<[Z.to_nat i := x]> words) k = if k / chunk_bits =? i then Z.testbit x (k mod chunk_bits) else words_bit words k.
Proof.
  intros Hi Hk. pose proof chunk_bits_pos as Hp. unfold words_bit. assert (0 <= k / chunk_bits) by (apply Z.div_pos; lia).
  destruct (Z.eqb_spec (k / chunk_bits) i) as [->|Hne].
  - rewrite list_lookup_insert_eq by (unfold zlen in Hi; lia). done.
  - by rewrite list_lookup_insert_ne by lia.
Qed.

(** A range [off, off + width) against the word of [k]. *)
Lemma in_range_same off width k : 0 <= off -> 0 <= k -> k / chunk_bits = off / chunk_bits ->
  (off <= k < off + width <-> off mod chunk_bits <= k mod chunk_bits < off mod chunk_bits + width) /\
  k - off = k mod chunk_bits - off mod chunk_bits.
Proof.
  intros Ho Hk E. pose proof chunk_bits_pos as Hp.
  pose proof (Z.div_mod off chunk_bits ltac:(lia)) as E1. pose proof (Z.div_mod k chunk_bits ltac:(lia)) as E2.
  rewrite E in E2. split; lia.
Qed.

Lemma in_range_next off width k : 0 <= off -> 0 <= k -> k / chunk_bits = off / chunk_bits + 1 ->
  (off <= k < off + width <-> k mod chunk_bits < off mod chunk_bits + width - chunk_bits) /\
  k - off = k mod chunk_bits + (chunk_bits - off mod chunk_bits).
Proof.
  intros Ho Hk E. pose proof chunk_bits_pos as Hp. pose proof (Z.mod_pos_bound off chunk_bits Hp).
  pose proof (Z.mod_pos_bound k chunk_bits Hp).
  pose proof (Z.div_mod off chunk_bits ltac:(lia)) as E1. pose proof (Z.div_mod k chunk_bits ltac:(lia)) as E2.
  rewrite E in E2. split; lia.
Qed.

Lemma not_in_range off width k : 0 <= off -> 0 <= width -> 0 <= k -> k / chunk_bits <> off / chunk_bits ->
  (off mod chunk_bits + width <= chunk_bits \/ off mod chunk_bits + width <= 2 * chunk_bits /\ k / chunk_bits <> off / chunk_bits + 1) ->
  ~ (off <= k < off + width).
Proof.
  intros Ho Hw Hk E Hor Hin. pose proof chunk_bits_pos as Hp. pose proof (Z.mod_pos_bound off chunk_bits Hp).
  destruct (div_mod_next off (k - off) Ho ltac:(lia) ltac:(lia)) as [Ed _]. replace (off + (k - off)) with k in Ed by lia.
  destruct (Z.ltb_spec (off mod chunk_bits + (k - off)) chunk_bits); lia.
Qed.

(** The value that is written, and the words it is written to. *)
Definition written (v width : Z) : Z := Z.land (wrapu chunk_bits v) (bit_mask width).

Lemma written_testbit v width j : 0 < width <= chunk_bits -> 0 <= j -> Z.testbit (written v width) j = (j <? width) && Z.testbit v j.
Proof.
  intros Hw Hj. unfold written. rewrite Z.land_spec, wrapu_testbit, bit_mask_ones, ones_testbit by lia.
  destruct (Z.ltb_spec j width); [|by rewrite andb_false_r]. replace (j <? chunk_bits) with true by lia. by rewrite andb_true_r.
Qed.

Lemma wrapu_nonneg z : 0 <= wrapu chunk_bits z.
Proof. pose proof chunk_bits_pos. apply Z.mod_pos_bound, Z.pow_pos_nonneg; lia. Qed.

Lemma one_word a v width s : 0 < width -> 0 <= s -> s + width <= chunk_bits -> 0 <= a ->
  let a' := Z.lor (Z.ldiff a (wrapu chunk_bits (Z.shiftl (bit_mask width) s))) (wrapu chunk_bits (Z.shiftl (written v width) s)) in
  0 <= a' /\ forall j, 0 <= j -> Z.testbit a' j = if bool_decide (s <= j < s + width) then Z.testbit v (j - s) else Z.testbit a j.
Proof.
  intros Hw Hs Hle Ha a'. split.
  { apply Z.lor_nonneg. split; [apply Z.ldiff_nonneg; by left|apply wrapu_nonneg]. }
  intros j Hj. unfold a'. rewrite Z.lor_spec, Z.ldiff_spec, !wrapu_testbit, !Z.shiftl_spec, bit_mask_ones by lia. case_bool_decide as Hd.
  - rewrite written_testbit, ones_testbit by lia. replace (j <? chunk_bits) with true by lia. replace (j - s <? width) with true by lia.
    cbn. by rewrite andb_false_r.
  - destruct (Z_lt_le_dec j s).
    + rewrite !(Z.testbit_neg_r _ (j - s)) by lia. rewrite !andb_false_r. cbn. by rewrite andb_true_r, orb_false_r.
    + rewrite written_testbit, ones_testbit by lia. replace (j - s <? width) with false by lia. cbn. rewrite !andb_false_r. cbn.
      by rewrite andb_true_r, orb_false_r.
Qed.

Lemma low_word a v width s : 0 < width <= chunk_bits -> 0 <= s < chunk_bits -> chunk_bits < s + width -> 0 <= a ->
  let lo_mask := wrapu chunk_bits (Z.shiftl (bit_mask (chunk_bits - s)) s) in
  let a' := Z.lor (Z.ldiff a lo_mask) (Z.land (wrapu chunk_bits (Z.shiftl (written v width) s)) lo_mask) in
  0 <= a' /\ forall j, 0 <= j -> Z.testbit a' j = if bool_decide (s <= j < chunk_bits) then Z.testbit v (j - s) else Z.testbit a j.
Proof.
  intros Hw Hs Hgt Ha lo_mask a'. split.
  { apply Z.lor_nonneg. split; [apply Z.ldiff_nonneg; by left|]. apply Z.land_nonneg. left. apply wrapu_nonneg. }
  intros j Hj. unfold a', lo_mask. rewrite Z.lor_spec, Z.ldiff_spec, Z.land_spec, !wrapu_testbit, !Z.shiftl_spec, bit_mask_ones by lia.
  case_bool_decide as Hd.
  - rewrite written_testbit, ones_testbit by lia. replace (j <? chunk_bits) with true by lia. replace (j - s <? width) with true by lia.
    replace (j - s <? chunk_bits - s) with true by lia. cbn. by rewrite andb_false_r, andb_true_r.
  - destruct (Z_lt_le_dec j s).
    + rewrite !(Z.testbit_neg_r _ (j - s)) by lia. rewrite !andb_false_r. cbn. by rewrite andb_true_r, orb_false_r.
    + replace (j <? chunk_bits) with false by lia. cbn. by rewrite andb_true_r, orb_false_r.
Qed.

Lemma high_word b v width s : 0 < width <= chunk_bits -> 0 <= s < chunk_bits -> chunk_bits < s + width -> 0 <= b ->
  let lo_bits := chunk_bits - s in
  let b' := Z.lor (Z.ldiff b (bit_mask (width - lo_bits))) (Z.shiftr (written v width) lo_bits) in
  0 <= b' /\ forall j, 0 <= j -> Z.testbit b' j = if bool_decide (j < s + width - chunk_bits) then Z.testbit v (j + (chunk_bits - s)) else Z.testbit b j.
Proof.
  intros Hw Hs Hgt Hb lo_bits b'. split.
  { apply Z.lor_nonneg. split; [apply Z.ldiff_nonneg; by left|]. apply Z.shiftr_nonneg, Z.land_nonneg. left. apply wrapu_nonneg. }
  intros j Hj. unfold b', lo_bits. rewrite Z.lor_spec, Z.ldiff_spec, Z.shiftr_spec, bit_mask_ones, ones_testbit, written_testbit by lia.
  case_bool_decide as Hd.
  - replace (j <? width - (chunk_bits - s)) with true by lia. replace (j + (chunk_bits - s) <? width) with true by lia. cbn. by rewrite andb_false_r.
  - replace (j <? width - (chunk_bits - s)) with false by lia. replace (j + (chunk_bits - s) <? width) with false by lia.
    cbn. by rewrite andb_true_r, orb_false_r.
Qed.

(** A word whose bits beyond its width are those of a word. *)
Lemma changed_word a' a P `{forall j, Decision (P j)} g : 0 <= a' -> in_u chunk_bits a -> (forall j, chunk_bits <= j -> ~ P j) ->
  (forall j, 0 <= j -> Z.testbit a' j = if bool_decide (P j) then g j else Z.testbit a j) -> in_u chunk_bits a'.
Proof.
  intros H0 Ha HP Hb. pose proof chunk_bits_pos. apply in_u_testbit; [lia|done|]. intros j Hj.
  rewrite Hb, bool_decide_false by (lia || by apply HP). by apply (in_u_above chunk_bits); [lia| |].
Qed.

Lemma view_write_spec words off width v : bits_within words off width ->
  exists words', view_write words off width v = Some words' /\ words_ok words' /\ zlen words' = zlen words /\
    forall k, 0 <= k -> words_bit words' k = if bool_decide (off <= k < off + width) then Z.testbit v (k - off) else words_bit words k.
Proof.
  intros Hin. pose proof (first_word _ _ _ Hin) as H0. pose proof (second_word _ _ _ Hin) as H1. destruct Hin as (Hok & Ho & Hw & _).
  pose proof chunk_bits_pos as Hp. unfold view_write. replace (width =? 0) with false by lia.
  destruct (locate_spec off Ho) as (c & -> & Hc & Hc1). unfold load, store. rewrite Hc, Hc1.
  destruct (word_at words _ Hok H0) as (a & Ha & Hau). rewrite Ha. cbn [mbind option_bind].
  replace (off / chunk_bits <? zlen words) with true by lia. fold (written v width).
  set (s := off mod chunk_bits) in *. pose proof (Z.mod_pos_bound off chunk_bits Hp) as Hs. fold s in Hs.
  destruct (Z.leb_spec (s + width) chunk_bits) as [Hle|Hgt].
  - destruct (one_word a v width s) as [Ha0 Ha']; [apply Hw|apply Hs|done|apply Hau|]. eexists. split; [done|]. set (a' := Z.lor _ _) in *. split_and!.
    + apply Forall_insert; [done|]. eapply (changed_word a' a); [done|done| |exact Ha']. cbv beta. lia.
    + unfold zlen. by rewrite length_insert.
    + intros k Hk. rewrite words_bit_insert by done. destruct (Z.eqb_spec (k / chunk_bits) (off / chunk_bits)) as [E|E].
      * pose proof (Z.mod_pos_bound k chunk_bits Hp). rewrite Ha' by lia. destruct (in_range_same off width k Ho Hk E) as [Hiff ->].
        rewrite (bool_decide_ext _ _ Hiff). fold s. case_bool_decide; [done|]. unfold words_bit. by rewrite E, Ha.
      * rewrite bool_decide_false; [done|]. apply not_in_range; lia.
  - destruct (word_at words _ Hok (H1 Hgt)) as (b & Hb & Hbu). rewrite Hb. cbn [mbind option_bind].
    destruct (low_word a v width s) as [Ha0 Ha']; [done|done|done|apply Hau|]. destruct (high_word b v width s) as [Hb0 Hb']; [done|done|done|apply Hbu|].
    set (a' := Z.lor (Z.ldiff a _) _) in *. set (b' := Z.lor (Z.ldiff b _) _) in *. set (words1 := <[_ := a']> words).
    assert (zlen words1 = zlen words) as Hlen by (unfold zlen, words1; by rewrite length_insert).
    replace (off / chunk_bits + 1 <? zlen words1) with true by (specialize (H1 Hgt); lia). eexists. split; [done|]. split_and!.
    + apply Forall_insert; [apply Forall_insert; [done|]|].
      * eapply (changed_word a' a); [done|done| |exact Ha']. cbv beta. lia.
      * eapply (changed_word b' b); [done|done| |exact Hb']. cbv beta. lia.
    + unfold zlen. by rewrite length_insert.
    + intros k Hk. rewrite words_bit_insert by (rewrite ?Hlen; auto). pose proof (Z.mod_pos_bound k chunk_bits Hp).
      destruct (Z.eqb_spec (k / chunk_bits) (off / chunk_bits + 1)) as [E|E].
      * rewrite Hb' by lia. destruct (in_range_next off width k Ho Hk E) as [Hiff ->]. fold s in Hiff |- *.
        rewrite (bool_decide_ext _ _ Hiff). case_bool_decide; [done|]. unfold words_bit. by rewrite E, Hb.
      * unfold words1. rewrite words_bit_insert by done. destruct (Z.eqb_spec (k / chunk_bits) (off / chunk_bits)) as [E'|E'].
        -- rewrite Ha' by lia. destruct (in_range_same off width k Ho Hk E') as [Hiff ->]. fold s in Hiff |- *.
           rewrite (bool_decide_ext (off <= k < off + width) (s <= k mod chunk_bits < chunk_bits)) by lia.
           case_bool_decide; [done|]. unfold words_bit. by rewrite E', Ha.
        -- rewrite bool_decide_false; [done|]. apply not_in_range; lia.
Qed.

(** ** Packed vectors as lists *)

(** The elements of a vector: what its words hold, in as many words as that
    takes. *)
Record pv_inv (v : packed_int_vector) (l : list Z) : Prop := {
  pi_size : pv_size v = zlen l;
  pi_bits : 0 <= pv_bits v <= chunk_bits;
  pi_words : words_ok (pv_data v);
  pi_len : zlen (pv_data v) = min_data_size (pv_size v) (pv_bits v);
  pi_range : Forall (in_u (pv_bits v)) l;
  pi_elems : forall i x j, l !! i = Some x -> 0 <= j < pv_bits v ->
    Z.testbit x j = words_bit (pv_data v) (Z.of_nat i * pv_bits v + j)
}.

Lemma min_data_size_spec size bits : 0 <= size * bits ->
  0 <= min_data_size size bits /\ size * bits <= min_data_size size bits * chunk_bits < size * bits + chunk_bits.
Proof.
  intros H. pose proof chunk_bits_pos as Hp. unfold min_data_size.
  pose proof (Z.div_mod (size * bits + chunk_bits - 1) chunk_bits ltac:(lia)).
  pose proof (Z.mod_pos_bound (size * bits + chunk_bits - 1) chunk_bits Hp).
  assert (0 <= (size * bits + chunk_bits - 1) / chunk_bits) by (apply Z.div_pos; lia). lia.
Qed.

Lemma min_data_size_0 bits : min_data_size 0 bits = 0.
Proof. pose proof (min_data_size_spec 0 bits ltac:(lia)). pose proof chunk_bits_pos. nia. Qed.

Lemma min_data_size_step size bits : 0 <= size -> 0 <= bits <= chunk_bits ->
  min_data_size size bits <= min_data_size (size + 1) bits <= min_data_size size bits + 1.
Proof.
  intros Hs Hb. pose proof chunk_bits_pos. pose proof (min_data_size_spec size bits ltac:(nia)) as [_ H1].
  pose proof (min_data_size_spec (size + 1) bits ltac:(nia)) as [_ H2]. nia.
Qed.

Lemma min_data_size_mono m n bits : 0 <= m <= n -> 0 <= bits -> min_data_size m bits <= min_data_size n bits.
Proof.
  intros Hmn Hb. pose proof chunk_bits_pos. pose proof (min_data_size_spec m bits ltac:(nia)) as [_ H1].
  pose proof (min_data_size_spec n bits ltac:(nia)) as [_ H2]. nia.
Qed.

Lemma vector_resize_len n l : 0 <= n -> zlen (vector_resize n l) = n.
Proof. intros. unfold vector_resize, zlen. rewrite length_app, length_take, length_replicate. lia. Qed.

Lemma vector_resize_ok n l : words_ok l -> words_ok (vector_resize n l).
Proof.
  intros H. apply Forall_app. split; [by apply Forall_take|]. apply Forall_replicate. split; [done|].
  apply Z.pow_pos_nonneg; pose proof chunk_bits_pos; lia.
Qed.

(** What is kept is the same, what is added is zero. *)
Lemma vector_resize_bit n l k : 0 <= k < n * chunk_bits -> words_bit (vector_resize n l) k = words_bit l k.
Proof.
  intros Hk. pose proof chunk_bits_pos as Hp. assert (0 <= k / chunk_bits < n) by (split; [apply Z.div_pos|apply Z.div_lt_upper_bound]; lia).
  unfold words_bit, vector_resize. set (i := Z.to_nat (k / chunk_bits)). destruct (decide (i < length l)%nat).
  - rewrite lookup_app_l by (rewrite length_take; lia). by rewrite lookup_take_lt by lia.
  - rewrite lookup_app_r by (rewrite length_take; lia). rewrite (lookup_ge_None_2 l) by lia.
    rewrite lookup_replicate_2 by (rewrite length_take; unfold zlen; lia). apply Z.bits_0.
Qed.

Lemma elem_within v l i : pv_inv v l -> 0 <= i < pv_size v -> 0 < pv_bits v -> bits_within (pv_data v) (i * pv_bits v) (pv_bits v).
Proof.
  intros [] Hi Hb. split; [done|]. pose proof (min_data_size_spec (pv_size v) (pv_bits v) ltac:(nia)). rewrite pi_len0. nia.
Qed.

Lemma in_u_0 x : in_u 0 x -> x = 0.
Proof. unfold in_u. lia. Qed.

Lemma pv_get_ok v l i x : pv_inv v l -> l !! i = Some x -> pv_get v (Z.of_nat i) = Some x.
Proof.
  intros Hinv Hi. pose proof Hinv as []. pose proof (Forall_lookup_1 _ _ _ _ pi_range0 Hi) as Hx. unfold pv_get.
  apply lookup_lt_Some in Hi as Hlt. destruct (Z.ltb_spec 0 (pv_bits v)).
  - destruct (view_read_spec (pv_data v) (Z.of_nat i * pv_bits v) (pv_bits v)) as (r & -> & Hr & Hbits).
    { eapply elem_within; [done| |done]. rewrite pi_size0. unfold zlen. lia. }
    f_equal. apply Z.bits_inj'. intros j Hj. destruct (Z_lt_le_dec j (pv_bits v)).
    + rewrite Hbits by lia. symmetry. by apply pi_elems0.
    + rewrite !(in_u_above (pv_bits v)) by (done || lia). done.
  - f_equal. symmetry. apply in_u_0. by replace 0 with (pv_bits v) by lia.
Qed.

Lemma pv_unpack_ok v l : pv_inv v l -> pv_unpack v = Some l.
Proof.
  intros Hinv. unfold pv_unpack. rewrite (pi_size _ _ Hinv). unfold zlen. rewrite Nat2Z.id. apply mapM_Some.
  apply Forall2_same_length_lookup. rewrite length_seq. split; [done|]. intros i n x Hn Hx.
  apply lookup_seq in Hn as [-> _]. by apply pv_get_ok with (l := l).
Qed.

Lemma pv_reset_inv bits size v : 0 <= bits <= chunk_bits -> 0 <= size -> pv_inv (pv_reset bits size v) (replicate (Z.to_nat size) 0).
Proof.
  intros Hb Hs. pose proof (min_data_size_spec size bits ltac:(nia)) as [H0 Hm]. split; cbn.
  - unfold zlen. rewrite length_replicate. lia.
  - done.
  - apply vector_resize_ok. constructor.
  - by apply vector_resize_len.
  - apply Forall_replicate. split; [done|]. apply Z.pow_pos_nonneg; lia.
  - intros i x j Hi Hj. apply lookup_replicate in Hi as [-> Hi]. rewrite Z.bits_0, vector_resize_bit by nia.
    unfold words_bit. by rewrite lookup_nil.
Qed.

Lemma pv_set_ok v l i x : pv_inv v l -> (i < length l)%nat ->
  exists v', pv_set (Z.of_nat i) x v = Some v' /\ pv_inv v' (<[i := wrapu (pv_bits v) x]> l) /\ pv_bits v' = pv_bits v.
Proof.
  intros Hinv Hi. pose proof Hinv as []. unfold pv_set.
  assert (in_u (pv_bits v) (wrapu (pv_bits v) x)) as Hr by (apply wrapu_range; lia).
  destruct (Z.ltb_spec 0 (pv_bits v)).
  - destruct (view_write_spec (pv_data v) (Z.of_nat i * pv_bits v) (pv_bits v) x) as (data & -> & Hok & Hlen & Hbits).
    { eapply elem_within; [done| |done]. rewrite pi_size0. unfold zlen. lia. }
    eexists. split; [done|]. split; [|done]. split; cbn; try done.
    + rewrite pi_size0. unfold zlen. by rewrite length_insert.
    + by rewrite Hlen.
    + by apply Forall_insert.
    + intros k y j Hk Hj. rewrite Hbits by nia. destruct (decide (i = k)) as [<-|Hne].
      * rewrite list_lookup_insert_eq in Hk by done. injection Hk as <-. rewrite bool_decide_true by lia.
        unfold wrapu. rewrite Z.mod_pow2_bits_low by lia. f_equal. lia.
      * rewrite list_lookup_insert_ne in Hk by done. rewrite bool_decide_false by nia. by apply pi_elems0.
  - exists v. split; [done|]. split; [|done]. assert (pv_bits v = 0) as Hb0 by lia.
    assert (l !! i = Some 0) as Hl0.
    { destruct (lookup_lt_is_Some_2 l i Hi) as [y Hy]. rewrite Hy. f_equal. apply in_u_0. rewrite <- Hb0. by apply (Forall_lookup_1 _ _ _ _ pi_range0 Hy). }
    rewrite Hb0. assert (wrapu 0 x = 0) as -> by apply Z.mod_1_r. by rewrite list_insert_id.
Qed.

Lemma pv_grow_inv v l data : pv_inv v l -> words_ok data -> zlen data = min_data_size (pv_size v + 1) (pv_bits v) ->
  (forall k, 0 <= k < zlen (pv_data v) * chunk_bits -> words_bit data k = words_bit (pv_data v) k) ->
  exists y, pv_inv (PackedIntVector (pv_size v + 1) (pv_bits v) data) (l ++ [y]).
Proof.
  intros [] Hok Hlen Hsame. assert (exists y, in_u (pv_bits v) y /\
    forall j, 0 <= j < pv_bits v -> Z.testbit y j = words_bit data (pv_size v * pv_bits v + j)) as (y & Hy & Hbits).
  { destruct (Z.eq_dec (pv_bits v) 0) as [E|E]; [exists 0; rewrite E; split; [by vm_compute|lia]|].
    destruct (view_read_spec data (pv_size v * pv_bits v) (pv_bits v)) as (r & _ & Hr & Hbits); [|by exists r].
    pose proof (zlen_nonneg l). split; [done|]. rewrite Hlen. pose proof (min_data_size_spec (pv_size v + 1) (pv_bits v) ltac:(nia)). nia. }
  exists y. split; cbn; try done.
  - rewrite pi_size0, zlen_app. done.
  - apply Forall_app. split; [done|]. by constructor.
  - intros i x j Hi Hj. apply lookup_app_Some in Hi as [Hi|[Hge Hi]].
    + rewrite (pi_elems0 i x j Hi Hj). symmetry. apply Hsame. apply lookup_lt_Some in Hi.
      pose proof (zlen_nonneg l).
      pose proof (min_data_size_spec (pv_size v) (pv_bits v) ltac:(nia)). rewrite pi_len0. unfold zlen in pi_size0. nia.
    + apply list_lookup_singleton_Some in Hi as [H0 <-]. rewrite Hbits by done.
      assert (Z.of_nat i = pv_size v) as -> by (rewrite pi_size0; unfold zlen; lia). done.
Qed.

Lemma pv_push_back_ok v l x : pv_inv v l ->
  exists v', pv_push_back x v = Some v' /\ pv_inv v' (l ++ [wrapu (pv_bits v) x]) /\ pv_bits v' = pv_bits v.
Proof.
  intros Hinv. pose proof Hinv as []. unfold pv_push_back.
  match goal with |- context [PackedIntVector _ _ ?d] => set (data := d) end.
  pose proof (zlen_nonneg l). pose proof (zlen_nonneg (pv_data v)).
  pose proof (min_data_size_step (pv_size v) (pv_bits v) ltac:(lia) pi_bits0) as Hstep.
  destruct (pv_grow_inv v l data Hinv) as [y Hy].
  - unfold data. destruct (_ <? _); [by apply vector_resize_ok|done].
  - unfold data. destruct (Z.ltb_spec (zlen (pv_data v)) (min_data_size (pv_size v + 1) (pv_bits v))); [rewrite vector_resize_len|]; lia.
  - intros k Hk. unfold data. destruct (_ <? _); [|done]. apply vector_resize_bit. lia.
  - destruct (pv_set_ok _ _ (length l) x Hy) as (v' & Hv' & Hinv' & Hb); [rewrite length_app; simpl; lia|].
    exists v'. cbn in Hv'. rewrite pi_size0. unfold zlen. rewrite <- Hv'. split; [by rewrite pi_size0|]. split; [|done].
    by rewrite insert_app_r_alt, Nat.sub_diag in Hinv' by lia.
Qed.

Lemma pv_resize_ok v l n : pv_inv v l -> 0 <= n <= pv_size v -> pv_inv (pv_resize n v) (take (Z.to_nat n) l).
Proof.
  intros [] Hn. pose proof (min_data_size_spec n (pv_bits v) ltac:(nia)) as [H0 Hm]. split; cbn.
  - unfold zlen in *. rewrite length_take. lia.
  - done.
  - by apply vector_resize_ok.
  - by apply vector_resize_len.
  - by apply Forall_take.
  - intros i x j Hi Hj. apply lookup_take_Some in Hi as [Hi Hlt]. rewrite vector_resize_bit by nia. by apply pi_elems0.
Qed.

Lemma pv_pop_back_ok v l : pv_inv v l -> pv_inv (pv_pop_back v) (removelast l).
Proof.
  intros Hinv. pose proof Hinv as []. rewrite removelast_firstn_len. unfold pv_pop_back.
  destruct (Z.ltb_spec 0 (pv_size v)) as [Hlt|Hge].
  - pose proof (pv_resize_ok v l (pv_size v - 1) Hinv ltac:(lia)) as H.
    replace (Nat.pred (length l)) with (Z.to_nat (pv_size v - 1)) by (unfold zlen in *; lia).
    pose proof (min_data_size_step (pv_size v - 1) (pv_bits v) ltac:(lia) pi_bits0) as Hstep. rewrite Z.sub_add in Hstep.
    unfold pv_resize in H. destruct (Z.ltb_spec (min_data_size (pv_size v - 1) (pv_bits v)) (zlen (pv_data v))).
    + by replace (zlen (pv_data v) - 1) with (min_data_size (pv_size v - 1) (pv_bits v)) by lia.
    + replace (min_data_size (pv_size v - 1) (pv_bits v)) with (zlen (pv_data v)) in H by lia.
      unfold vector_resize in H. rewrite Z.sub_diag, app_nil_r in H. unfold zlen in H at 1. by rewrite Nat2Z.id, firstn_all in H.
  - assert (l = []) as -> by (destruct l; [done|]; rewrite pi_size0 in Hge; unfold zlen in Hge; cbn in Hge; lia).
    assert (pv_size v = 0) as E0 by done. cbn [length Nat.pred take]. rewrite pi_len0, E0, Z.ltb_irrefl. rewrite <- E0.
    destruct v; exact Hinv.
Qed.

(** *** Sequences of calls *)

Inductive pv_call : Type :=
  | PvSet (i : nat) (x : Z)
  | PvPushBack (x : Z)
  | PvPopBack
  | PvShrink (n : nat)
  | PvClear
  | PvReset (bits : Z) (size : nat).

Definition pv_call_run (v : packed_int_vector) (call : pv_call) : option packed_int_vector :=
  match call with
  | PvSet i x => pv_set (Z.of_nat i) x v
  | PvPushBack x => pv_push_back x v
  | PvPopBack => Some (pv_pop_back v)
  | PvShrink n => Some (pv_resize (Z.of_nat n) v)
  | PvClear => Some (pv_clear v)
  | PvReset bits size => Some (pv_reset bits (Z.of_nat size) v)
  end.

Fixpoint pv_run (calls : list pv_call) (v : packed_int_vector) : option packed_int_vector :=
  match calls with
  | [] => Some v
  | call :: calls => v ← pv_call_run v call; pv_run calls v
  end.

(** What the calls do to a vector of integers of some bits. *)
Definition list_call (s : Z * list Z) (call : pv_call) : Z * list Z :=
  let '(bits, l) := s in
  match call with
  | PvSet i x => (bits, <[i := wrapu bits x]> l)
  | PvPushBack x => (bits, l ++ [wrapu bits x])
  | PvPopBack => (bits, removelast l)
  | PvShrink n => (bits, take n l)
  | PvClear => (bits, [])
  | PvReset bits size => (bits, replicate size 0)
  end.

Definition call_valid (l : list Z) (call : pv_call) : Prop :=
  match call with
  | PvSet i _ => (i < length l)%nat
  | PvShrink n => (n <= length l)%nat
  | PvReset bits _ => 0 <= bits <= chunk_bits
  | _ => True
  end.

Fixpoint calls_valid (s : Z * list Z) (calls : list pv_call) : Prop :=
  match calls with
  | [] => True
  | call :: calls => call_valid s.2 call /\ calls_valid (list_call s call) calls
  end.

Lemma pv_clear_ok v l : pv_inv v l -> pv_inv (pv_clear v) [].
Proof. intros []. split; cbn; try done; try by constructor. by rewrite min_data_size_0. Qed.

Lemma pv_call_ok v bits l call : pv_inv v l -> pv_bits v = bits -> call_valid l call ->
  exists v', pv_call_run v call = Some v' /\ pv_inv v' (list_call (bits, l) call).2 /\ pv_bits v' = (list_call (bits, l) call).1.
Proof.
  intros Hinv <- Hv. destruct call as [i x|x| |n| |b n]; cbn [pv_call_run list_call fst snd].
  - by apply pv_set_ok.
  - by apply pv_push_back_ok.
  - eexists. split_and!; [done|by apply pv_pop_back_ok|done].
  - eexists. split_and!; [done| |done]. rewrite <- (Nat2Z.id n) at 2. apply pv_resize_ok; [done|]. cbn in Hv.
    rewrite (pi_size _ _ Hinv). unfold zlen. lia.
  - eexists. split_and!; [done|by eapply pv_clear_ok|done].
  - eexists. split_and!; [done| |done]. rewrite <- (Nat2Z.id n) at 2. apply pv_reset_inv; [done|lia].
Qed.

Lemma pv_run_ok calls v bits l : pv_inv v l -> pv_bits v = bits -> calls_valid (bits, l) calls ->
  exists v', pv_run calls v = Some v' /\ pv_inv v' (foldl list_call (bits, l) calls).2.
Proof.
  revert v bits l. induction calls as [|call calls IH]; intros v bits l Hinv Hb Hv; [by exists v|].
  destruct Hv as [Hv Hvs]. cbn [snd] in Hv. destruct (pv_call_ok v bits l call Hinv Hb Hv) as (v' & Hrun & Hinv' & Hb').
  cbn [pv_run foldl]. rewrite Hrun. cbn [mbind option_bind]. destruct (list_call (bits, l) call) as [bits' l'] eqn:E.
  by apply (IH v' bits').
Qed.

Lemma pv_at_ok v l i : pv_inv v l -> pv_at v (Z.of_nat i) = match l !! i with Some x => Ok (Some x) | None => Err tt end.
Proof.
  intros Hinv. unfold pv_at. rewrite (pi_size _ _ Hinv). unfold zlen. destruct (l !! i) as [x|] eqn:E.
  - rewrite (pv_get_ok v l i x Hinv E). apply lookup_lt_Some in E. by replace (Z.of_nat (length l) <=? Z.of_nat i) with false by lia.
  - apply lookup_ge_None in E. by replace (Z.of_nat (length l) <=? Z.of_nat i) with true by lia.
Qed.

Lemma pv_with_bits_inv bits : 0 <= bits <= chunk_bits -> pv_inv (pv_with_bits bits) [].
Proof. intros Hb. split; cbn; try done; try by constructor. by rewrite min_data_size_0. Qed.

(** The constructor with a size leaves too few words as soon as two are needed. *)
Lemma pv_create_too_few bits size : chunk_bits < size * bits ->
  zlen (pv_data (pv_create bits size)) < min_data_size size bits.
Proof.
  intros H. pose proof chunk_bits_pos. pose proof (min_data_size_spec size bits ltac:(lia)).
  change (zlen (pv_data (pv_create bits size))) with 1. nia.
Qed.

End view.

(** *** Delta coding *)

Lemma wrapu_add_sub x p : in_u 32 x -> wrapu 32 (p + wrapu 32 (x - p)) = x.
Proof.
  intros Hx. unfold wrapu. rewrite Zplus_mod_idemp_r. replace (p + (x - p)) with x by lia. by apply wrapu_small.
Qed.

Lemma partial_sum_adjacent_difference_from l p : Forall (in_u 32) l -> partial_sum_from p (adjacent_difference_from p l) = l.
Proof.
  intros H. revert p. induction H as [|x l Hx Hl IH]; intros p; [done|]. cbn [adjacent_difference_from partial_sum_from].
  rewrite wrapu_add_sub by done. by rewrite IH.
Qed.

(** Summing up undoes taking differences, even where they wrap around. *)
Lemma partial_sum_adjacent_difference l : Forall (in_u 32) l -> partial_sum (adjacent_difference l) = l.
Proof. apply partial_sum_adjacent_difference_from. Qed.

Lemma length_adjacent_difference_from l p : length (adjacent_difference_from p l) = length l.
Proof. revert p. induction l as [|x l IH]; intros p; [done|]. cbn. by rewrite IH. Qed.

Lemma length_adjacent_difference l : length (adjacent_difference l) = length l.
Proof. apply length_adjacent_difference_from. Qed.

Lemma length_partial_sum_from acc l : length (partial_sum_from acc l) = length l.
Proof. revert acc. induction l as [|x l IH]; intros acc; [done|]. cbn. by rewrite IH. Qed.

Lemma length_partial_sum l : length (partial_sum l) = length l.
Proof. apply length_partial_sum_from. Qed.

