(* ===== verification/StringTable.v ===== *)
(** * StringTable: the tables of names and symbolic links

    [src/internal/string_table.cpp] and its use of FSST in
    [src/internal/fsst.cpp].  The functions of the FSST library are
    parameters.  A string is the list of its bytes; what is read outside of a
    table is [None]. *)

From S2P Require Import Prelude PackedInts.
Local Open Scope Z_scope.

(** [thrift::metadata::string_table]. *)
Record string_table_data : Type := StringTableData {
  st_buffer : list Z;
  st_symtab : option (list Z);
  st_index : list Z;
  st_packed_index : bool
}.

Definition total_bytes (input : list (list Z)) : Z := accumulate (map zlen input) 0.

Section string_table.
(** The encoder made for some strings, its exported symbols, the compressed
    strings that fit into an output of some size; the decoder read from the
    exported symbols with the number of bytes read, the decompression of a
    string into an output of some size. *)
Context {encoder decoder : Type}.
Context (fsst_create : list (list Z) -> encoder) (fsst_export : encoder -> list Z)
  (fsst_compress : encoder -> list (list Z) -> Z -> list (list Z))
  (fsst_import : list Z -> Z * decoder) (fsst_decompress : decoder -> list Z -> Z -> list Z).

(** ** [fsst.cpp] *)

Record bulk_compression_result : Type := BulkCompressionResult {
  dictionary : list Z;
  buffer : list Z;
  compressed_data : list (list Z)
}.

(** [Some None] is the return without a result. *)
Fixpoint compress_loop (fuel : nat) (enc : encoder) (input : list (list Z)) (buffer_size : Z) (force : bool) :
    option (option (list (list Z))) :=
  match fuel with
  | O => None
  | S fuel =>
      let out := fsst_compress enc input buffer_size in
      if zlen out =? zlen input then Some (Some out)
      else if negb force then Some None
      else compress_loop fuel enc input (2 * buffer_size) force
  end.

Definition fsst_compress_ (fuel : nat) (input : list (list Z)) (force : bool) : option (option bulk_compression_result) :=
  match input with
  | [] => Some None
  | _ =>
      let total_input_size := total_bytes input in
      let enc := fsst_create input in
      let symtab := fsst_export enc in
      if (total_input_size <=? zlen symtab) && negb force then Some None
      else
        res ← compress_loop fuel enc input total_input_size force;
        match res with
        | None => Some None
        | Some out =>
            let compressed_size := total_bytes out in
            if (total_input_size <=? zlen symtab + compressed_size) && negb force then Some None
            else Some (Some (BulkCompressionResult symtab (concat out) out))
        end
  end.

(** The constructor of [fsst_decoder_], and [decompress]. *)
Definition fsst_decoder_create (dictionary : list Z) : result string decoder :=
  let '(read, d) := fsst_import dictionary in
  if read =? zlen dictionary then Ok d else Err "read symtab bytes".

Definition decompress (d : decoder) (data : list Z) : list Z := fsst_decompress d data (8 * zlen data).

(** ** [string_table.cpp] *)

Record pack_options : Type := PackOptions { pack_data : bool; pack_index : bool; force_pack_data : bool }.

(** [None] only when [fuel] runs out. *)
Definition pack_generic (fuel : nat) (input : list (list Z)) (options : pack_options) : option string_table_data :=
  res ← (if pack_data options then fsst_compress_ fuel input (force_pack_data options) else Some None);
  let '(buffer, symtab, sizes) :=
    match res with
    | Some r => (buffer r, Some (dictionary r), map zlen (compressed_data r))
    | None => (concat input, None, map zlen input)
    end in
  let index := map (wrapu 32) sizes in
  Some (StringTableData buffer symtab (if pack_index options then index else partial_sum (0 :: index)) (pack_index options)).

Inductive string_table : Type :=
  | LegacyTable (v : list (list Z))
  | PackedTable (v : string_table_data) (index : list Z) (dec : option decoder).

Definition string_table_create (v : string_table_data) : result string string_table :=
  let? dec := match st_symtab v with
              | None => Ok None
              | Some st => let? d := fsst_decoder_create st in Ok (Some d)
              end in
  Ok (PackedTable v (if st_packed_index v then 0 :: partial_sum (st_index v) else st_index v) dec).

Definition lookup (t : string_table) (index : Z) : option (list Z) :=
  match t with
  | LegacyTable v => v !! Z.to_nat index
  | PackedTable v ix dec =>
      beg ← ix !! Z.to_nat index;
      end_ ← ix !! Z.to_nat (index + 1);
      if (beg <=? end_) && (end_ <=? zlen (st_buffer v)) then
        let s := slice (st_buffer v) beg (end_ - beg) in
        Some (match dec with Some d => decompress d s | None => s end)
      else None
  end.

Definition lookup_all (t : string_table) (n : Z) : option (list (list Z)) :=
  mapM (fun i => lookup t (Z.of_nat i)) (seq 0 (Z.to_nat n)).

Definition unpack (t : string_table) : result string (option (list (list Z))) :=
  match t with
  | LegacyTable _ => Err "cannot unpack legacy string table"
  | PackedTable v ix _ => Ok (if 0 <? zlen ix then lookup_all t (zlen ix - 1) else Some [])
  end.

Definition is_packed (t : string_table) : bool := match t with LegacyTable _ => false | PackedTable _ _ _ => true end.

Definition unpacked_size (t : string_table) : option Z :=
  match t with
  | LegacyTable v => Some (total_bytes v)
  | PackedTable _ ix _ => if zlen ix =? 0 then None else l ← lookup_all t (zlen ix - 1); Some (total_bytes l)
  end.
End string_table.
Arguments string_table : clear implicits.
Arguments LegacyTable {_} v.
Arguments PackedTable {_} v index dec.

(** ** What goes in comes out *)

(** What is documented of FSST: a string takes up to twice its bytes and a
    string that is decompressed up to eight times its bytes; a buffer of seven
    bytes and twice the bytes of the strings takes all of them; the decoder
    that is imported gives the strings back. *)
Class Fsst {encoder decoder} (fsst_create : list (list Z) -> encoder) (fsst_export : encoder -> list Z)
    (fsst_compress : encoder -> list (list Z) -> Z -> list (list Z))
    (fsst_import : list Z -> Z * decoder) (fsst_decompress : decoder -> list Z -> Z -> list Z) : Prop := {
  fsst_small input n i c s : fsst_compress (fsst_create input) input n !! i = Some c -> input !! i = Some s -> zlen c <= 2 * zlen s;
  fsst_count input n : zlen (fsst_compress (fsst_create input) input n) <= zlen input;
  fsst_fits input n : 7 + 2 * total_bytes input <= n -> zlen (fsst_compress (fsst_create input) input n) = zlen input;
  fsst_imports input : (fsst_import (fsst_export (fsst_create input))).1 = zlen (fsst_export (fsst_create input));
  fsst_inverse input n i c s : fsst_compress (fsst_create input) input n !! i = Some c -> input !! i = Some s ->
    fsst_decompress (fsst_import (fsst_export (fsst_create input))).2 c (8 * zlen c) = s
}.

Lemma accumulate_init l i : accumulate l i = i + accumulate l 0.
Proof.
  unfold accumulate. revert i. induction l as [|x l IH]; intros i; cbn [foldl]; [lia|]. rewrite IH, (IH (0 + x)). lia.
Qed.

Lemma total_bytes_cons s l : total_bytes (s :: l) = zlen s + total_bytes l.
Proof. unfold total_bytes. cbn [map]. unfold accumulate at 1. cbn [foldl]. fold (accumulate (map zlen l) (0 + zlen s)). rewrite accumulate_init. lia. Qed.

Lemma total_bytes_nonneg l : 0 <= total_bytes l.
Proof. induction l as [|s l IH]; [done|]. rewrite total_bytes_cons. pose proof (zlen_nonneg s). lia. Qed.

Lemma total_bytes_concat l : zlen (concat l) = total_bytes l.
Proof. induction l as [|s l IH]; [done|]. cbn [concat]. by rewrite zlen_app, total_bytes_cons, IH. Qed.

(** The positions of strings behind each other. *)
Fixpoint offsets (base : Z) (l : list (list Z)) : list Z :=
  match l with
  | [] => [base]
  | s :: l => base :: offsets (base + zlen s) l
  end.

Lemma partial_sum_sizes l base : 0 <= base -> base + total_bytes l < 2 ^ 32 ->
  base :: partial_sum_from base (map (wrapu 32) (map zlen l)) = offsets base l.
Proof.
  revert base. induction l as [|s l IH]; intros base H0 Hlt; [done|]. rewrite total_bytes_cons in Hlt.
  pose proof (zlen_nonneg s). pose proof (total_bytes_nonneg l). cbn [map partial_sum_from offsets]. f_equal.
  rewrite !(wrapu_small 32) by (unfold in_u; rewrite ?wrapu_small by (unfold in_u; lia); lia). apply IH; lia.
Qed.

Lemma offsets_lookup l base i s : l !! i = Some s ->
  offsets base l !! i = Some (base + total_bytes (take i l)) /\
  offsets base l !! S i = Some (base + total_bytes (take i l) + zlen s).
Proof.
  revert base i. induction l as [|x l IH]; intros base [|i] H; try done.
  - injection H as ->. cbn [take offsets]. change (total_bytes []) with 0. rewrite Z.add_0_r. split; [done|]. cbn. by destruct l.
  - cbn [take offsets]. destruct (IH (base + zlen x) i H) as [H1 H2]. rewrite total_bytes_cons.
    split; [rewrite <- (Z.add_assoc base (zlen x)) in H1|rewrite <- (Z.add_assoc base (zlen x)) in H2]; rewrite Z.add_assoc in *; done.
Qed.

Lemma offsets_length l base : zlen (offsets base l) = zlen l + 1.
Proof.
  revert base. induction l as [|s l IH]; intros base; [done|]. cbn [offsets]. unfold zlen in *. cbn [length]. specialize (IH (base + zlen s)).
  unfold zlen in IH. lia.
Qed.

Lemma slice_concat l i s : l !! i = Some s -> slice (concat l) (total_bytes (take i l)) (zlen s) = s.
Proof.
  intros H. rewrite <- (take_drop_middle l i s H) at 1. rewrite concat_app. cbn [concat].
  rewrite slice_skip with (k := total_bytes (take i l)); [|by rewrite total_bytes_concat|pose proof (total_bytes_nonneg (take i l)); lia].
  apply slice_head; [lia|done].
Qed.

Section roundtrip.
Context {encoder decoder : Type} (fsst_create : list (list Z) -> encoder) (fsst_export : encoder -> list Z)
  (fsst_compress : encoder -> list (list Z) -> Z -> list (list Z))
  (fsst_import : list Z -> Z * decoder) (fsst_decompress : decoder -> list Z -> Z -> list Z)
  `{!Fsst fsst_create fsst_export fsst_compress fsst_import fsst_decompress}.

(** What a compression that returns a result has done. *)
Definition compressed (input out : list (list Z)) : Prop :=
  zlen out = zlen input /\ exists n, out = fsst_compress (fsst_create input) input n.

Lemma compress_loop_result fuel input n force out :
  compress_loop fsst_compress fuel (fsst_create input) input n force = Some (Some out) -> compressed input out.
Proof.
  revert n. induction fuel as [|fuel IH]; intros n H; [done|]. cbn [compress_loop] in H.
  destruct (Z.eqb_spec (zlen (fsst_compress (fsst_create input) input n)) (zlen input)) as [E|E].
  - injection H as <-. split; [done|by eexists].
  - destruct (negb force); [done|]. by apply IH in H.
Qed.

Lemma compress_loop_ends fuel input n force : 0 < n -> (force = true -> 7 + 2 * total_bytes input <= n * 2 ^ Z.of_nat fuel) ->
  exists res, compress_loop fsst_compress (S fuel) (fsst_create input) input n force = Some res /\ (force = true -> is_Some res).
Proof.
  revert n. induction fuel as [|fuel IH]; intros n Hn Hf; cbn [compress_loop].
  - destruct (Z.eqb_spec (zlen (fsst_compress (fsst_create input) input n)) (zlen input)) as [E|E]; [by eexists|].
    destruct force; cbn [negb]; [|by eexists]. specialize (Hf eq_refl). rewrite Z.mul_1_r in Hf. by rewrite fsst_fits in E.
  - destruct (Z.eqb_spec (zlen (fsst_compress (fsst_create input) input n)) (zlen input)) as [E|E]; [by eexists|].
    destruct force; cbn [negb]; [|by eexists]. apply IH; [lia|]. intros _. specialize (Hf eq_refl).
    replace (Z.of_nat (S fuel)) with (Z.of_nat fuel + 1) in Hf by lia. rewrite Z.pow_add_r in Hf by lia. lia.
Qed.

(** FSST compresses nothing into a buffer without the space it asks for
    ([fsst.h]): an empty buffer stays empty when it is doubled, and the loop goes
    on whatever the fuel. *)
Lemma compress_loop_empty fuel input : (forall n, n < 7 -> fsst_compress (fsst_create input) input n = []) -> input <> [] ->
  compress_loop fsst_compress fuel (fsst_create input) input 0 true = None.
Proof.
  intros Hc Hi. induction fuel as [|fuel IH]; [done|]. cbn [compress_loop]. rewrite Hc by lia. destruct input; [done|]. apply IH.
Qed.

Lemma forced_empty_never_ends fuel input options : (forall n, n < 7 -> fsst_compress (fsst_create input) input n = []) ->
  pack_data options = true -> force_pack_data options = true -> input <> [] -> total_bytes input = 0 ->
  pack_generic fsst_create fsst_export fsst_compress fuel input options = None.
Proof.
  intros Hc Hp Hf Hi Ht. unfold pack_generic, fsst_compress_. rewrite Hp, Hf. destruct input as [|s l]; [done|].
  rewrite andb_false_r, Ht, compress_loop_empty by done. done.
Qed.

(** Four doublings of the buffer are enough. *)
Lemma fsst_compress_ends fuel input force : (force = true -> input = [] \/ 0 < total_bytes input) -> (5 <= fuel)%nat ->
  exists res, fsst_compress_ fsst_create fsst_export fsst_compress fuel input force = Some res /\
    match res with
    | None => True
    | Some r => dictionary r = fsst_export (fsst_create input) /\ buffer r = concat (compressed_data r) /\ compressed input (compressed_data r)
    end.
Proof.
  intros Ht Hfuel. unfold fsst_compress_. destruct input as [|s l]; [by exists None|]. set (input := s :: l) in *.
  destruct ((total_bytes input <=? zlen (fsst_export (fsst_create input))) && negb force) eqn:E0; [by exists None|].
  assert (0 < total_bytes input) as Hpos.
  { destruct force; [destruct (Ht eq_refl) as [?|?]; done|]. rewrite andb_true_r in E0. pose proof (zlen_nonneg (fsst_export (fsst_create input))). lia. }
  destruct fuel as [|fuel]; [lia|]. destruct (compress_loop_ends fuel input (total_bytes input) force Hpos) as (res & Hres & _).
  { intros _. assert (2 ^ 4 <= 2 ^ Z.of_nat fuel) by (apply Z.pow_le_mono_r; lia). nia. }
  rewrite Hres. cbn [mbind option_bind]. destruct res as [out|]; [|by exists None].
  apply compress_loop_result in Hres. 
  clear E0. destruct (_ && _); [by exists None|].
  eexists. split; [done|]. by split_and!.
Qed.

Lemma compressed_small input out : compressed input out -> Forall2 (fun c s => zlen c <= 2 * zlen s) out input.
Proof.
  intros [Hlen (n & ->)]. apply Forall2_same_length_lookup. split; [unfold zlen in Hlen; lia|]. intros i c s Hc Hs. by eapply fsst_small.
Qed.

Lemma compressed_total input out : compressed input out -> total_bytes out <= 2 * total_bytes input.
Proof.
  intros H%compressed_small. induction H as [|c s l l' Hcs Hl IH]; [done|]. rewrite !total_bytes_cons. lia.
Qed.

(** A table over strings that are behind each other in the buffer. *)
Lemma lookup_packed v out dec i c : st_buffer v = concat out -> out !! i = Some c ->
  lookup fsst_decompress (PackedTable v (offsets 0 out) dec) (Z.of_nat i) =
    Some (match dec with Some d => decompress fsst_decompress d c | None => c end).
Proof.
  intros Hb Hc. unfold lookup. destruct (offsets_lookup out 0 i c Hc) as [H1 H2]. rewrite !Z.add_0_l in *.
  replace (Z.to_nat (Z.of_nat i + 1)) with (S i) by lia. rewrite Nat2Z.id, H1, H2. cbn [mbind option_bind].
  pose proof (zlen_nonneg c). pose proof (total_bytes_nonneg (take i out)).
  assert (total_bytes (take i out) + zlen c <= zlen (concat out)) as Hle.
  { rewrite <- (take_drop_middle out i c Hc) at 2. rewrite concat_app. cbn [concat]. rewrite !zlen_app, total_bytes_concat.
    pose proof (zlen_nonneg (concat (drop (S i) out))). lia. }
  rewrite Hb. replace (total_bytes (take i out) <=? total_bytes (take i out) + zlen c) with true by lia.
  replace (total_bytes (take i out) + zlen c <=? zlen (concat out)) with true by lia. cbn [andb].
  replace (total_bytes (take i out) + zlen c - total_bytes (take i out)) with (zlen c) by lia. by rewrite slice_concat.
Qed.

Lemma lookup_packed_out v out dec i : (length out <= i)%nat -> lookup fsst_decompress (PackedTable v (offsets 0 out) dec) (Z.of_nat i) = None.
Proof.
  intros Hi. unfold lookup. replace (Z.to_nat (Z.of_nat i + 1)) with (S i) by lia.
  rewrite (lookup_ge_None_2 (offsets 0 out) (S i)) by (pose proof (offsets_length out 0); unfold zlen in *; lia).
  by destruct (offsets 0 out !! Z.to_nat (Z.of_nat i)).
Qed.

(** A table whose strings are those of a list. *)
Record table_of (t : string_table decoder) (input : list (list Z)) : Prop := {
  to_lookup i : lookup fsst_decompress t (Z.of_nat i) = input !! i;
  to_unpack : unpack fsst_decompress t = Ok (Some input);
  to_size : unpacked_size fsst_decompress t = Some (total_bytes input)
}.

Lemma table_of_packed v out dec input : st_buffer v = concat out -> length out = length input ->
  (forall i c s, out !! i = Some c -> input !! i = Some s -> match dec with Some d => decompress fsst_decompress d c | None => c end = s) ->
  table_of (PackedTable v (offsets 0 out) dec) input.
Proof.
  intros Hb Hlen Hs. set (t := PackedTable _ _ _).
  assert (forall i, lookup fsst_decompress t (Z.of_nat i) = input !! i) as Hl.
  { intros i. destruct (decide (i < length out)%nat) as [Hlt|Hge].
    - destruct (lookup_lt_is_Some_2 out i Hlt) as [c Hc]. destruct (lookup_lt_is_Some_2 input i) as [s Hin]; [lia|].
      unfold t. rewrite (lookup_packed v out dec i c Hb Hc), Hin. f_equal. by eapply Hs.
    - unfold t. rewrite lookup_packed_out by lia. symmetry. apply lookup_ge_None. lia. }
  assert (zlen (offsets 0 out) - 1 = zlen input) as Hn by (rewrite offsets_length; unfold zlen; lia).
  assert (lookup_all fsst_decompress t (zlen input) = Some input) as Hall.
  { unfold lookup_all, zlen. rewrite Nat2Z.id. apply mapM_Some, Forall2_same_length_lookup. rewrite length_seq. split; [done|].
    intros i n s Hi Hsn. apply lookup_seq in Hi as [-> _]. by rewrite Hl. }
  pose proof (zlen_nonneg input). split; [done| |]; cbn [unpack unpacked_size t].
  - replace (0 <? zlen (offsets 0 out)) with true by lia. fold t. by rewrite Hn, Hall.
  - replace (zlen (offsets 0 out) =? 0) with false by lia. fold t. by rewrite Hn, Hall.
Qed.

Lemma index_offsets (pack_index : bool) out : total_bytes out < 2 ^ 32 ->
  let index := map (wrapu 32) (map zlen out) in
  (if pack_index then 0 :: partial_sum (if pack_index then index else partial_sum (0 :: index))
   else if pack_index then index else partial_sum (0 :: index)) = offsets 0 out.
Proof. intros H index. rewrite <- (partial_sum_sizes out 0) by lia. by destruct pack_index. Qed.

(** What is stored: strings in a row, each at most twice as long as its
    original, and their sizes or positions. *)
Definition packed_shape (options : pack_options) (v : string_table_data) (input : list (list Z)) : Prop :=
  exists out, Forall2 (fun c s => zlen c <= 2 * zlen s) out input /\ (pack_data options = false -> out = input) /\ total_bytes out < 2 ^ 32 /\
    st_buffer v = concat out /\ st_index v = if st_packed_index v then map zlen out else offsets 0 out.

Lemma sizes_small out : total_bytes out < 2 ^ 32 -> map (wrapu 32) (map zlen out) = map zlen out.
Proof.
  induction out as [|s out IH]; intros H; [done|]. rewrite total_bytes_cons in H. pose proof (total_bytes_nonneg out). pose proof (zlen_nonneg s).
  cbn [map]. rewrite IH by lia. rewrite wrapu_small by (unfold in_u; lia). done.
Qed.

Lemma packed_shape_ok options v input out : Forall2 (fun c s => zlen c <= 2 * zlen s) out input -> (pack_data options = false -> out = input) ->
  total_bytes out < 2 ^ 32 -> st_buffer v = concat out -> st_packed_index v = pack_index options ->
  st_index v = (if pack_index options then map (wrapu 32) (map zlen out) else partial_sum (0 :: map (wrapu 32) (map zlen out))) ->
  packed_shape options v input.
Proof.
  intros Hl Hp Ht Hb Hpi Hi. exists out. split_and!; try done. rewrite Hi, Hpi. destruct (pack_index options); [by apply sizes_small|].
  rewrite <- (partial_sum_sizes out 0) by lia. done.
Qed.

Lemma string_table_roundtrip_spec input options fuel :
  total_bytes input < 2 ^ 31 -> (pack_data options = true -> force_pack_data options = true -> input = [] \/ 0 < total_bytes input) -> (5 <= fuel)%nat ->
  exists v t, pack_generic fsst_create fsst_export fsst_compress fuel input options = Some v /\
    string_table_create fsst_import v = Ok t /\ table_of t input /\ packed_shape options v input.
Proof.
  intros Hsmall Hforce Hfuel. unfold pack_generic.
  assert (exists res, (if pack_data options then fsst_compress_ fsst_create fsst_export fsst_compress fuel input (force_pack_data options) else Some None) = Some res /\
    match res with
    | None => True
    | Some r => pack_data options = true /\ dictionary r = fsst_export (fsst_create input) /\ buffer r = concat (compressed_data r) /\ compressed input (compressed_data r)
    end) as (res & -> & Hres).
  { destruct (pack_data options); [|by exists None]. destruct (fsst_compress_ends fuel input (force_pack_data options) (Hforce eq_refl) Hfuel) as (res & E & H). exists res. split; [done|]. by destruct res. }
  cbn [mbind option_bind]. destruct res as [r|].
  - destruct Hres as (Hpd & Hd & Hb & Hc). pose proof (compressed_total _ _ Hc) as Htot. pose proof (fsst_imports input) as Him.
    destruct (fsst_import (fsst_export (fsst_create input))) as [read d] eqn:Ed. cbn [fst] in Him. eexists _, _. split; [done|].
    unfold string_table_create, fsst_decoder_create. cbn [st_symtab st_packed_index st_index rbind].
    rewrite index_offsets by lia. rewrite Hd, Ed, Him, Z.eqb_refl. cbn [rbind].
    split; [done|]. split; [|apply (packed_shape_ok _ _ _ (compressed_data r)); try done; [by apply compressed_small| |lia]].
    2: { by rewrite Hpd. }
    destruct Hc as [Hlen (n & Hn)]. apply table_of_packed; [done|unfold zlen in Hlen; lia|].
    intros i c s Hi Hs. unfold decompress. rewrite Hn in Hi. pose proof (fsst_inverse input n i c s Hi Hs) as H. by rewrite Ed in H.
  - eexists _, _. split; [done|]. unfold string_table_create. cbn [st_symtab st_packed_index st_index rbind].
    rewrite index_offsets by lia. split; [done|]. split; [apply table_of_packed; [done|done|]; intros i c s H1 H2; congruence|].
    apply (packed_shape_ok _ _ _ input); try done; [|lia]. apply Forall2_same_length_lookup. split; [done|]. intros i c s H1 H2. rewrite H1 in H2. injection H2 as <-. pose proof (zlen_nonneg c). lia.
Qed.

(** C37: a table of strings gives the strings back. Whatever the options, with
    FSST or without, with an index of sizes or of positions, but for FSST that is
    forced on strings that are all empty, packing ends (after four doublings of
    the buffer at most), the table that is packed can be opened, each index gives
    its string, an index outside of the table gives none, and unpacking gives all
    of them.  What is left out never ends: [forced_empty_never_ends]. *)
Theorem string_table_roundtrip input options fuel :
  total_bytes input < 2 ^ 31 -> (pack_data options = true -> force_pack_data options = true -> input = [] \/ 0 < total_bytes input) -> (5 <= fuel)%nat ->
  exists v t, pack_generic fsst_create fsst_export fsst_compress fuel input options = Some v /\
    string_table_create fsst_import v = Ok t /\ is_packed t = true /\
    (forall i, lookup fsst_decompress t (Z.of_nat i) = input !! i) /\
    unpack fsst_decompress t = Ok (Some input) /\ unpacked_size fsst_decompress t = Some (total_bytes input).
Proof.
  intros Hs Hf Hn. destruct (string_table_roundtrip_spec input options fuel Hs Hf Hn) as (v & t & Hp & Ht & [] & _).
  exists v, t. split_and!; try done. destruct t; [|done]. unfold unpack in to_unpack0. done.
Qed.
End roundtrip.

(** A code without symbols: every byte is escaped. *)
Module Escapes.
Definition create (input : list (list Z)) : unit := tt.
Definition export (enc : unit) : list Z := [9].
Definition compress (enc : unit) (input : list (list Z)) (n : Z) : list (list Z) :=
  if 7 + 2 * total_bytes input <=? n then map (fun s => concat (map (fun b => [255; b]) s)) input else [].
Definition import (dict : list Z) : Z * unit := (1, tt).
Fixpoint unescape (l : list Z) : list Z := match l with _ :: b :: l => b :: unescape l | _ => [] end.
Definition expand (d : unit) (l : list Z) (n : Z) : list Z := take (Z.to_nat n) (unescape l).

Lemma escaped_length s : zlen (concat (map (fun b => [255; b]) s)) = 2 * zlen s.
Proof. induction s as [|b s IH]; [done|]. cbn [map concat]. rewrite zlen_app, IH. unfold zlen. cbn [length]. lia. Qed.

Lemma unescape_escaped s : unescape (concat (map (fun b => [255; b]) s)) = s.
Proof. induction s as [|b s IH]; [done|]. cbn [map concat app unescape]. by rewrite IH. Qed.

#[global] Instance fsst : Fsst create export compress import expand.
Proof.
  split.
  - intros input n i c s. unfold compress. destruct (_ <=? _); [|done]. rewrite list_lookup_fmap. intros H Hs. rewrite Hs in H.
    injection H as <-. rewrite escaped_length. lia.
  - intros input n. unfold compress. destruct (_ <=? _); [unfold zlen; rewrite length_map; lia|]. apply zlen_nonneg.
  - intros input n H. unfold compress. replace (_ <=? n) with true by lia. unfold zlen. by rewrite length_map.
  - done.
  - intros input n i c s. unfold compress. destruct (_ <=? _); [|done]. rewrite list_lookup_fmap. intros H Hs. rewrite Hs in H.
    injection H as <-. unfold expand. rewrite unescape_escaped, escaped_length. apply take_ge. unfold zlen. lia.
Qed.

Definition names : list (list Z) := [[97]; [98; 98]; []; [99; 100; 101]].
End Escapes.

Lemma string_table_roundtrip_witness :
  exists v t, pack_generic Escapes.create Escapes.export Escapes.compress 5 Escapes.names (PackOptions true false true) = Some v /\
    string_table_create Escapes.import v = Ok t /\ lookup Escapes.expand t 3 = Some [99; 100; 101] /\ st_index v = [0; 2; 6; 6; 12].
Proof.
  destruct (string_table_roundtrip Escapes.create Escapes.export Escapes.compress Escapes.import Escapes.expand Escapes.names
    (PackOptions true false true) 5) as (v & t & Hv & Ht & _ & Hl & _).
  - vm_compute. reflexivity.
  - intros _ _. right. vm_compute. reflexivity.
  - lia.
  - exists v, t. split; [exact Hv|]. split; [exact Ht|]. split; [exact (Hl 3%nat)|].
    vm_compute in Hv. injection Hv as <-. reflexivity.
Defined.
