(* ===== verification/Bitstream.v ===== *)
(** * Bitstream: the bit streams of ricepp

    [ricepp/include/ricepp/bitstream_writer.h] and [bitstream_reader.h]: a
    64-bit accumulator in front of a byte sequence, least significant bit
    first.  The output iterator is the list of bytes written so far, the
    input iterators are the list of bytes not yet read. *)

From S2P Require Import Prelude Bits.
Local Open Scope Z_scope.

Definition kBitsTypeBits : Z := 64.

(** ** [bitstream_writer] *)

Record bitstream_writer : Type := BitstreamWriter {
  data : Z;
  bit_pos : Z;
  out : list Z
}.

Definition bitstream_writer_init (out : list Z) : bitstream_writer := BitstreamWriter 0 0 out.

Definition write_packet (bits : Z) (w : bitstream_writer) : bitstream_writer :=
  let to_copy := if bit_pos w =? 0 then 8 else (bit_pos w + 7) / 8 in
  BitstreamWriter (data w) (bit_pos w) (out w ++ take (Z.to_nat to_copy) (le_bytes 8 bits)).

Definition write_bits_impl (bits num_bits : Z) (w : bitstream_writer) : bitstream_writer :=
  let bits := if num_bits <? kBitsTypeBits
              then Z.land bits (wrapu 64 (Z.shiftl 1 num_bits) - 1) else bits in
  let w := BitstreamWriter (Z.lor (data w) (wrapu 64 (Z.shiftl bits (bit_pos w))))
             (bit_pos w + num_bits) (out w) in
  if bit_pos w =? kBitsTypeBits then
    let w := write_packet (data w) w in BitstreamWriter 0 0 (out w)
  else w.

Definition write_bit1 (bit : bool) (w : bitstream_writer) : bitstream_writer :=
  write_bits_impl (Z.b2z bit) 1 w.

(** The [while] loop of the repeating [write_bit]: the number of whole
    packets and what is left to repeat. *)
Fixpoint write_packets (fuel : nat) (bits repeat : Z) (w : bitstream_writer) : Z * bitstream_writer :=
  match fuel with
  | O => (repeat, w)
  | S fuel =>
      if kBitsTypeBits <? repeat
      then write_packets fuel bits (repeat - kBitsTypeBits) (write_packet bits w)
      else (repeat, w)
  end.

(** [repeat / 64] iterations are enough for the loop. *)
Definition write_bit (bit : bool) (repeat : Z) (w : bitstream_writer) : bitstream_writer :=
  let bits := if bit then 2 ^ 64 - 1 else 0 in
  let '(repeat, w) :=
    if negb (bit_pos w =? 0) then
      let remaining_bits := kBitsTypeBits - bit_pos w in
      if remaining_bits <? repeat
      then (repeat - remaining_bits, write_bits_impl bits remaining_bits w)
      else (repeat, w)
    else (repeat, w) in
  let '(repeat, w) := write_packets (Z.to_nat (repeat / 64)) bits repeat w in
  if 0 <? repeat then write_bits_impl bits repeat w else w.

(** The loop of [write_bits] runs at most twice for an argument of at most 64
    bits; [fuel] is the number of bits. *)
Fixpoint write_bits_loop (fuel : nat) (bits num_bits : Z) (w : bitstream_writer) : bitstream_writer :=
  match fuel with
  | O => w
  | S fuel =>
      let bits_to_write := Z.min num_bits (kBitsTypeBits - bit_pos w) in
      let w := write_bits_impl bits bits_to_write w in
      let bits := Z.shiftr bits bits_to_write in
      if num_bits =? bits_to_write then w
      else write_bits_loop fuel bits (num_bits - bits_to_write) w
  end.

Definition write_bits (bits num_bits : Z) (w : bitstream_writer) : bitstream_writer :=
  if 0 <? num_bits then write_bits_loop (Z.to_nat num_bits) bits num_bits w else w.

(** The number of bits flushed, and the writer. *)
Definition flush (w : bitstream_writer) : Z * bitstream_writer :=
  let bits_flushed := bit_pos w in
  (bits_flushed,
   if 0 <? bits_flushed then
     let w := write_packet (data w) w in BitstreamWriter 0 0 (out w)
   else w).

(** ** [bitstream_reader] *)

Record bitstream_reader : Type := BitstreamReader {
  r_data : Z;
  r_bit_pos : Z;
  beg : list Z
}.

(** The exception of [read_packet]. *)
Inductive bitstream_error : Type := out_of_range.

Abbreviation bit_reader := (action bitstream_error bitstream_reader).

Definition bitstream_reader_init (bytes : list Z) : bitstream_reader := BitstreamReader 0 0 bytes.

(** Up to eight bytes; missing ones are zero. *)
Definition read_packet_nocheck : bit_reader Z :=
  let! r := get in
  put (BitstreamReader (r_data r) (r_bit_pos r) (drop 8 (beg r))) ;;
  ret (le_value (take 8 (beg r))).

Definition read_packet : bit_reader Z :=
  let! r := get in
  if bool_decide (beg r = []) then throw out_of_range else read_packet_nocheck.

Definition set_data (d : Z) : bit_reader unit :=
  modify (fun r => BitstreamReader d (r_bit_pos r) (beg r)).
Definition set_bit_pos (p : Z) : bit_reader unit :=
  modify (fun r => BitstreamReader (r_data r) p (beg r)).

Definition peek_bits (num_bits : Z) : bit_reader Z :=
  let! r := get in
  let bp := r_bit_pos r in
  (if bp =? 0 then let! d := read_packet in set_data d else ret tt) ;;
  let! r := get in
  let bits := Z.shiftr (r_data r) bp in
  ret (if num_bits <? kBitsTypeBits then Z.land bits (wrapu 64 (Z.shiftl 1 num_bits) - 1) else bits).

Definition skip_bits (num_bits : Z) : bit_reader unit :=
  let! r := get in
  set_bit_pos (Z.land (r_bit_pos r + num_bits) (kBitsTypeBits - 1)).

Definition peek_bit : bit_reader bool :=
  let! r := get in
  ret (Z.land (Z.shiftr (r_data r) (r_bit_pos r)) 1 =? 1).

Definition read_bits_impl (num_bits : Z) : bit_reader Z :=
  let! bits := peek_bits num_bits in skip_bits num_bits ;; ret bits.

Definition read_bit : bit_reader bool := let! b := read_bits_impl 1 in ret (b =? 1).

(** The loop of [read_bits<T>] for a [w]-bit [T]. *)
Fixpoint read_bits_loop (fuel : nat) (w bits pos num_bits : Z) : bit_reader Z :=
  match fuel with
  | O => ret bits
  | S fuel =>
      let! r := get in
      let remain := kBitsTypeBits - r_bit_pos r in
      if num_bits <=? remain then
        let! b := read_bits_impl num_bits in
        ret (Z.lor bits (wrapu w (Z.shiftl (wrapu w b) pos)))
      else
        let! b := read_bits_impl remain in
        read_bits_loop fuel w (Z.lor bits (wrapu w (Z.shiftl (wrapu w b) pos)))
          (pos + remain) (num_bits - remain)
  end.

Definition read_bits (w num_bits : Z) : bit_reader Z :=
  if 0 <? num_bits then read_bits_loop (Z.to_nat num_bits) w 0 0 num_bits else ret 0.

(** The packet loop of [find_first_set]; every packet consumes a byte. *)
Fixpoint find_first_set_loop (fuel : nat) (zeros : Z) : bit_reader Z :=
  match fuel with
  | O => throw out_of_range
  | S fuel =>
      let! bits := read_packet in
      if negb (bits =? 0) then
        let ffs := Z.of_nat (countr_zero 64 bits) in
        (if negb (ffs + 1 =? kBitsTypeBits) then set_data bits ;; set_bit_pos (ffs + 1)
         else set_bit_pos 0) ;;
        ret (zeros + ffs)
      else find_first_set_loop fuel (zeros + kBitsTypeBits)
  end.

Definition find_first_set : bit_reader Z :=
  let! r := get in
  let scan zeros := fun r => find_first_set_loop (S (length (beg r))) zeros r in
  if negb (r_bit_pos r =? 0) then
    let! b := peek_bit in
    if (b : bool) then skip_bits 1 ;; ret 0
    else
      let remaining_bits := kBitsTypeBits - r_bit_pos r in
      let! bits := peek_bits remaining_bits in
      let ffs := Z.of_nat (countr_zero 64 bits) in
      if ffs <? remaining_bits then skip_bits (ffs + 1) ;; ret ffs
      else set_bit_pos 0 ;; scan remaining_bits
  else scan 0.

(** ** The writer appends bits *)

Definition writer_inv (w : bitstream_writer) : Prop :=
  0 <= bit_pos w < 64 /\ 0 <= data w < 2 ^ bit_pos w /\ Forall is_byte (out w).

(** What has been written. *)
Definition written (w : bitstream_writer) : list bool :=
  bytes_bits (out w) ++ bits (Z.to_nat (bit_pos w)) (data w).

Lemma mask_mod b n : 0 <= n < 64 -> Z.land b (wrapu 64 (Z.shiftl 1 n) - 1) = b mod 2 ^ n.
Proof.
  intros Hn. rewrite Z.shiftl_1_l. assert (2 ^ n < 2 ^ 64) by (apply Z.pow_lt_mono_r; lia).
  rewrite wrapu_small by (unfold in_u; lia). apply land_ones_mod; lia.
Qed.

Lemma write_packet_full b w : bit_pos w = 0 \/ bit_pos w = 64 ->
  write_packet b w = BitstreamWriter (data w) (bit_pos w) (out w ++ le_bytes 8 b).
Proof.
  intros Hp. unfold write_packet. f_equal. f_equal.
  by destruct Hp as [-> | ->].
Qed.

Lemma write_bits_impl_spec b n w : writer_inv w -> 0 < n -> bit_pos w + n <= 64 ->
  writer_inv (write_bits_impl b n w) /\ written (write_bits_impl b n w) = written w ++ bits (Z.to_nat n) b /\
  (bit_pos (write_bits_impl b n w) = if bit_pos w + n =? 64 then 0 else bit_pos w + n).
Proof.
  destruct w as [d p o]. intros (Hp & Hd & Ho) Hn Hfit. simpl in *.
  unfold write_bits_impl. cbn [data bit_pos out].
  set (masked := if n <? kBitsTypeBits then _ else b).
  assert (Z.lor d (wrapu 64 (Z.shiftl masked p)) = Z.lor d (Z.shiftl (b mod 2 ^ n) p)) as ->.
  { f_equal. unfold masked, kBitsTypeBits. destruct (Z.ltb_spec n 64).
    - rewrite mask_mod by lia. pose proof (mod_pow2_range b n ltac:(lia)).
      apply wrapu_small. unfold in_u. rewrite Z.shiftl_mul_pow2 by lia.
      assert (2 ^ (n + p) <= 2 ^ 64) as Hle by (apply Z.pow_le_mono_r; lia).
      rewrite Z.pow_add_r in Hle by lia. nia.
    - assert (n = 64) as -> by lia. assert (p = 0) as -> by lia. by rewrite !Z.shiftl_0_r. }
  set (d' := Z.lor d _). pose proof (mod_pow2_range b n ltac:(lia)) as Hm.
  assert (0 <= d' < 2 ^ (p + n)) as Hd'.
  { unfold d'. rewrite lor_shiftl_add, Z.pow_add_r by lia. nia. }
  assert (bits (Z.to_nat (p + n)) d' = bits (Z.to_nat p) d ++ bits (Z.to_nat n) b) as Hbits.
  { pose proof (bits_lor_shiftl (Z.to_nat p) (Z.to_nat n) d (b mod 2 ^ n)) as Hl.
    rewrite !Z2Nat.id in Hl by lia. unfold d'. rewrite Z2Nat.inj_add, Hl by lia. f_equal.
    rewrite <- (bits_mod _ b), Z2Nat.id by lia. done. }
  unfold kBitsTypeBits in *. destruct (Z.eqb_spec (p + n) 64) as [H64|H64].
  - rewrite write_packet_full by (simpl; auto). unfold writer_inv, written. simpl out. simpl bit_pos. simpl data.
    split_and!; try done; try lia.
    + apply Forall_app. split; [done|apply le_bytes_is_byte].
    + rewrite app_nil_r, bytes_bits_app, bytes_bits_le_bytes, <- app_assoc, <- Hbits, H64. done.
  - unfold writer_inv, written. simpl. split_and!; try done; try lia.
    by rewrite Hbits, app_assoc.
Qed.

Lemma write_packets_spec fuel (bit : bool) n w : writer_inv w -> bit_pos w = 0 -> 0 <= n ->
  n <= 64 * (Z.of_nat fuel + 1) ->
  exists n' w', write_packets fuel (if bit then 2 ^ 64 - 1 else 0) n w = (n', w') /\
    writer_inv w' /\ bit_pos w' = 0 /\ 0 <= n' <= 64 /\
    written w' ++ replicate (Z.to_nat n') bit = written w ++ replicate (Z.to_nat n) bit.
Proof.
  revert n w. induction fuel as [|fuel IH]; intros n w Hw Hp Hn Hf; cbn [write_packets].
  { exists n, w. split_and!; done || lia. }
  unfold kBitsTypeBits. destruct (Z.ltb_spec 64 n); [|exists n, w; split_and!; done || lia].
  rewrite write_packet_full by auto. destruct w as [d p o]. simpl in *. subst p.
  destruct Hw as (_ & Hd & Ho). simpl in *. assert (d = 0) as -> by lia.
  set (b := if bit then _ else _). 
  destruct (IH (n - 64) (BitstreamWriter 0 0 (o ++ le_bytes 8 b))) as (n' & w' & E & Hw' & Hp' & Hn' & Hwr);
    [|done|lia|lia|].
  { unfold writer_inv. simpl. split_and!; try lia. apply Forall_app. split; [done|apply le_bytes_is_byte]. }
  exists n', w'. split_and!; try done; try lia. rewrite Hwr. unfold written. simpl.
  rewrite !app_nil_r, bytes_bits_app, bytes_bits_le_bytes, <- app_assoc. f_equal.
  replace (Z.to_nat n) with (64 + Z.to_nat (n - 64))%nat by lia. rewrite replicate_add. f_equal.
  unfold b. destruct bit; [apply (bits_ones 64)|apply (bits_zero 64)].
Qed.

Lemma repeated_bits (bit : bool) n : 0 <= n <= 64 ->
  bits (Z.to_nat n) (if bit then 2 ^ 64 - 1 else 0) = replicate (Z.to_nat n) bit.
Proof.
  intros Hn. destruct bit; [|apply bits_zero]. rewrite <- bits_ones. apply bits_ext. intros i Hi.
  replace (2 ^ 64 - 1) with (Z.ones 64) by done.
  replace (2 ^ Z.of_nat (Z.to_nat n) - 1) with (Z.ones (Z.of_nat (Z.to_nat n))) by (rewrite Z.ones_equiv; lia).
  by rewrite !Z.ones_spec_low by lia.
Qed.

Lemma write_bit_spec bit n w : writer_inv w -> 0 <= n ->
  writer_inv (write_bit bit n w) /\ written (write_bit bit n w) = written w ++ replicate (Z.to_nat n) bit.
Proof.
  intros Hw Hn. unfold write_bit. cbv zeta. set (b := if bit then _ else _).
  pose proof Hw as (Hp & _ & _).
  assert (exists n1 w1, (if negb (bit_pos w =? 0) then
      if kBitsTypeBits - bit_pos w <? n
      then (n - (kBitsTypeBits - bit_pos w), write_bits_impl b (kBitsTypeBits - bit_pos w) w) else (n, w)
    else (n, w)) = (n1, w1) /\ writer_inv w1 /\ 0 <= n1 /\ (n1 + bit_pos w1 <= 64 \/ bit_pos w1 = 0) /\
    written w1 ++ replicate (Z.to_nat n1) bit = written w ++ replicate (Z.to_nat n) bit) as (n1 & w1 & -> & Hw1 & Hn1 & Hfit & Hwr).
  { unfold kBitsTypeBits. destruct (Z.eqb_spec (bit_pos w) 0); simpl; [exists n, w; split_and!; try done; lia|].
    destruct (Z.ltb_spec (64 - bit_pos w) n); [|exists n, w; split_and!; try done; lia].
    destruct (write_bits_impl_spec b (64 - bit_pos w) w Hw) as (H1 & H2 & H3); [lia..|].
    do 2 eexists. split; [done|]. split_and!; [done|lia| |].
    - right. rewrite H3. destruct (Z.eqb_spec (bit_pos w + (64 - bit_pos w)) 64); lia.
    - rewrite H2. unfold b. rewrite repeated_bits, <- app_assoc, <- replicate_add by lia.
      do 2 f_equal. lia. }
  cbv iota beta. rewrite <- Hwr. clear Hwr.
  assert (exists n2 w2, write_packets (Z.to_nat (n1 / 64)) b n1 w1 = (n2, w2) /\ writer_inv w2 /\
    0 <= n2 /\ n2 + bit_pos w2 <= 64 /\
    written w2 ++ replicate (Z.to_nat n2) bit = written w1 ++ replicate (Z.to_nat n1) bit) as (n2 & w2 & -> & Hw2 & Hn2 & Hfit2 & <-).
  { pose proof (Z.div_mod n1 64 ltac:(lia)). pose proof (Z.mod_pos_bound n1 64 ltac:(lia)).
    destruct (decide (bit_pos w1 = 0)).
    - destruct (write_packets_spec (Z.to_nat (n1 / 64)) bit n1 w1) as (n2 & w2 & ? & ? & ? & ? & ?); [done|done|lia|lia|].
      exists n2, w2. split_and!; try done; lia.
    - assert (n1 < 64) by (destruct Hw1; lia). rewrite Z.div_small by lia. exists n1, w1. split_and!; try done; lia. }
  cbv iota beta. destruct (Z.ltb_spec 0 n2).
  - destruct (write_bits_impl_spec b n2 w2 Hw2) as (H1 & -> & _); [lia..|]. split; [done|].
    unfold b. by rewrite repeated_bits by (destruct Hw2; lia).
  - assert (n2 = 0) as -> by lia. simpl. by rewrite app_nil_r.
Qed.

Lemma write_bits_loop_spec fuel b n w : writer_inv w -> 0 < n -> n <= Z.of_nat fuel ->
  writer_inv (write_bits_loop fuel b n w) /\ written (write_bits_loop fuel b n w) = written w ++ bits (Z.to_nat n) b.
Proof.
  revert b n w. induction fuel as [|fuel IH]; intros b n w Hw Hn Hf; [lia|]. cbn [write_bits_loop].
  unfold kBitsTypeBits. set (k := Z.min n (64 - bit_pos w)). pose proof Hw as (Hp & _ & _).
  destruct (write_bits_impl_spec b k w Hw) as (H1 & H2 & H3); [lia..|].
  destruct (Z.eqb_spec n k) as [He|Hne]; [split; [done|]; by rewrite H2, He|].
  destruct (IH (Z.shiftr b k) (n - k) (write_bits_impl b k w)) as (H4 & ->); [done|lia|lia|].
  split; [done|]. rewrite H2, <- app_assoc. f_equal.
  replace (Z.to_nat n) with (Z.to_nat k + Z.to_nat (n - k))%nat by lia.
  rewrite bits_add. by rewrite Z2Nat.id by lia.
Qed.

Lemma write_bits_spec b n w : writer_inv w -> 0 <= n ->
  writer_inv (write_bits b n w) /\ written (write_bits b n w) = written w ++ bits (Z.to_nat n) b.
Proof.
  intros Hw Hn. unfold write_bits. destruct (Z.ltb_spec 0 n); [apply write_bits_loop_spec; done || lia|].
  assert (n = 0) as -> by lia. simpl. by rewrite app_nil_r.
Qed.

(** The final packet: whole bytes, padded with zeros. *)
Lemma flush_spec w : writer_inv w ->
  Forall is_byte (out (flush w).2) /\
  (exists pad, bytes_bits (out (flush w).2) = written w ++ replicate pad false) /\
  Z.of_nat (length (out (flush w).2)) = (Z.of_nat (length (written w)) + 7) / 8.
Proof.
  destruct w as [d p o]. intros (Hp & Hd & Ho). simpl in *. unfold flush, written. simpl.
  rewrite length_app, length_bits, length_bytes_bits.
  destruct (Z.ltb_spec 0 p).
  - unfold write_packet. simpl. destruct (Z.eqb_spec p 0); [lia|].
    pose proof (Z.div_mod (p + 7) 8 ltac:(lia)). pose proof (Z.mod_pos_bound (p + 7) 8 ltac:(lia)).
    set (k := (p + 7) / 8) in *. assert (Z.to_nat k <= 8)%nat by lia.
    assert (take (Z.to_nat k) (le_bytes 8 d) = le_bytes (Z.to_nat k) d) as ->.
    { destruct (Z.to_nat k) as [|[|[|[|[|[|[|[|[|]]]]]]]]]; done || lia. }
    split_and!.
    + apply Forall_app. split; [done|apply le_bytes_is_byte].
    + exists (Z.to_nat (8 * k - p)). rewrite bytes_bits_app, bytes_bits_le_bytes, <- app_assoc. f_equal.
      replace (8 * Z.to_nat k)%nat with (Z.to_nat p + Z.to_nat (8 * k - p))%nat by lia.
      apply bits_pad. by rewrite Z2Nat.id by lia.
    + rewrite length_app, length_le_bytes. apply Z.div_unique with ((p + 7) mod 8); lia.
  - assert (p = 0) as -> by lia. simpl. split_and!; [done| |].
    + exists O. by rewrite !app_nil_r.
    + apply Z.div_unique with 7; lia.
Qed.

(** ** The reader takes bits off *)

Definition reader_inv (r : bitstream_reader) : Prop :=
  0 <= r_bit_pos r < 64 /\ 0 <= r_data r < 2 ^ 64 /\ Forall is_byte (beg r).

(** The bits in the accumulator from position [p] on. *)
Definition acc_bits (d p : Z) : list bool := bits (Z.to_nat (64 - p)) (Z.shiftr d p).

Definition unread (r : bitstream_reader) : list bool :=
  (if r_bit_pos r =? 0 then [] else acc_bits (r_data r) (r_bit_pos r)) ++ bytes_bits (beg r).

(** The next bits are [bs]. *)
Definition ahead (bs : list bool) (r : bitstream_reader) : Prop :=
  reader_inv r /\ exists tl, unread r = bs ++ tl.

Lemma ahead_init bytes bs pad : Forall is_byte bytes -> bytes_bits bytes = bs ++ pad ->
  ahead bs (bitstream_reader_init bytes).
Proof. intros Hb He. split; [by repeat split|]. by exists pad. Qed.

(** A packet holds the next 64 bits; a short one is padded with zeros. *)
Lemma packet_bits l : Forall is_byte l -> exists pad,
  bits 64 (le_value (take 8 l)) ++ bytes_bits (drop 8 l) = bytes_bits l ++ replicate pad false /\
  0 <= le_value (take 8 l) < 2 ^ 64.
Proof.
  intros Hl. assert (Forall is_byte (take 8 l)) as Ht by by apply Forall_take.
  pose proof (le_value_range _ Ht) as Hr. rewrite length_take in Hr.
  pose proof (bits_le_value _ Ht) as Hb. rewrite length_take in Hb.
  assert (2 ^ (8 * Z.of_nat (8 `min` length l)) <= 2 ^ 64) by (apply Z.pow_le_mono_r; lia).
  exists (64 - 8 * (8 `min` length l))%nat. split; [|lia].
  replace 64%nat with (8 * (8 `min` length l) + (64 - 8 * (8 `min` length l)))%nat at 1 by lia.
  rewrite bits_pad by (rewrite Nat2Z.inj_mul; simpl Z.of_nat at 1; lia). rewrite Hb.
  destruct (decide (8 <= length l)%nat).
  - replace (64 - 8 * (8 `min` length l))%nat with O by lia. simpl replicate.
    by rewrite !app_nil_r, <- bytes_bits_app, take_drop.
  - rewrite take_ge, drop_ge by lia. unfold bytes_bits at 2. simpl. by rewrite app_nil_r.
Qed.

Lemma bits_prefix_val n m a v bs tl : (n <= m)%nat ->
  bits m a ++ tl = bits n v ++ bs ->
  a mod 2 ^ Z.of_nat n = v mod 2 ^ Z.of_nat n /\ bits (m - n) (Z.shiftr a (Z.of_nat n)) ++ tl = bs.
Proof.
  intros Hnm H. replace m with (n + (m - n))%nat in H by lia.
  rewrite bits_add, <- app_assoc in H. apply app_inj_1 in H as [H1 H2]; [|by rewrite !length_bits].
  split; [|done]. apply (bits_inj n); [apply mod_pow2_range; lia..|]. by rewrite !bits_mod.
Qed.

(** What [read_bits_impl] computes once the accumulator is loaded. *)
Lemma acc_take d p n v bs tl : 0 <= p < 64 -> 0 < n -> p + n <= 64 -> 0 <= d < 2 ^ 64 ->
  acc_bits d p ++ tl = bits (Z.to_nat n) v ++ bs ->
  (if n <? 64 then Z.land (Z.shiftr d p) (wrapu 64 (Z.shiftl 1 n) - 1) else Z.shiftr d p) = v mod 2 ^ n /\
  (if Z.land (p + n) 63 =? 0 then [] else acc_bits d (Z.land (p + n) 63)) ++ tl = bs /\
  Z.land (p + n) 63 = (p + n) mod 64.
Proof.
  intros Hp Hn Hfit Hd H. apply bits_prefix_val in H as [Hv Hrest]; [|lia].
  rewrite Z2Nat.id in Hv, Hrest by lia.
  assert (Z.land (p + n) 63 = (p + n) mod 64) as Hl by (apply (Z.land_ones _ 6); lia).
  split_and!; [|rewrite Hl|done].
  - destruct (Z.ltb_spec n 64); [by rewrite mask_mod by lia|].
    assert (n = 64) as -> by lia. assert (p = 0) as -> by lia. rewrite Z.shiftr_0_r in *.
    by rewrite <- Hv, Z.mod_small by lia.
  - destruct (decide (p + n = 64)) as [H64|].
    + rewrite H64. simpl. replace (Z.to_nat (64 - p) - Z.to_nat n)%nat with O in Hrest by lia. done.
    + rewrite Z.mod_small by lia. destruct (Z.eqb_spec (p + n) 0); [lia|]. unfold acc_bits.
      rewrite Z.shiftr_shiftr in Hrest by lia.
      by replace (Z.to_nat (64 - (p + n))) with (Z.to_nat (64 - p) - Z.to_nat n)%nat by lia.
Qed.

Lemma bytes_bits_nonempty l bs : bytes_bits l = bs -> bs <> [] -> l <> [].
Proof. intros <- H ->. by apply H. Qed.

Lemma read_bits_impl_spec n v bs r : ahead (bits (Z.to_nat n) v ++ bs) r -> 0 < n -> r_bit_pos r + n <= 64 ->
  exists r', read_bits_impl n r = (Ok (v mod 2 ^ n), r') /\ ahead bs r' /\
    r_bit_pos r' = (r_bit_pos r + n) mod 64.
Proof.
  destruct r as [d p l]. intros [(Hp & Hd & Hl) [tl Hun]] Hn Hfit. cbn [r_data r_bit_pos beg] in *.
  unfold unread in Hun. cbn [r_data r_bit_pos beg] in Hun. rewrite <- app_assoc in Hun.
  unfold read_bits_impl, peek_bits, skip_bits, set_bit_pos, abind, get, modify, ret, kBitsTypeBits.
  change (64 - 1) with 63. cbn [r_data r_bit_pos beg]. destruct (Z.eqb_spec p 0) as [->|Hp0].
  - unfold read_packet, abind, get, set_data, modify.
    assert (l <> []) as Hne.
    { eapply bytes_bits_nonempty; [exact Hun|]. destruct (Z.to_nat n) eqn:E; [lia|done]. }
    cbn [beg]. rewrite bool_decide_eq_false_2 by done.
    unfold read_packet_nocheck, abind, get, put, ret. cbn [r_data r_bit_pos beg].
    destruct (packet_bits l Hl) as (pad & Hpk & Hrange). set (d' := le_value (take 8 l)) in *.
    simpl app in Hun. rewrite Hun, <- !app_assoc in Hpk.
    assert (acc_bits d' 0 ++ bytes_bits (drop 8 l) = bits (Z.to_nat n) v ++ bs ++ tl ++ replicate pad false) as Hacc.
    { unfold acc_bits. rewrite Z.shiftr_0_r. exact Hpk. }
    apply acc_take in Hacc as (-> & Hrest & Hland); [|lia..].
    eexists. split; [done|]. split; [|exact Hland]. split.
    + unfold reader_inv. cbn [r_data r_bit_pos beg]. rewrite Hland. pose proof (Z.mod_pos_bound (0 + n) 64 ltac:(lia)).
      split_and!; try lia. by apply Forall_drop.
    + exists (tl ++ replicate pad false). exact Hrest.
  - cbn [r_data r_bit_pos beg]. apply acc_take in Hun as (-> & Hrest & Hland); [|lia..].
    eexists. split; [done|]. split; [|exact Hland]. split.
    + unfold reader_inv. cbn [r_data r_bit_pos beg]. rewrite Hland. pose proof (Z.mod_pos_bound (p + n) 64 ltac:(lia)). split_and!; done || lia.
    + exists tl. exact Hrest.
Qed.

Lemma read_bits_loop_spec fuel w acc pos n v bs r : ahead (bits (Z.to_nat n) v ++ bs) r ->
  0 < n -> n <= Z.of_nat fuel -> 0 <= pos -> pos + n <= w -> 0 <= acc < 2 ^ pos ->
  exists r', read_bits_loop fuel w acc pos n r = (Ok (acc + v mod 2 ^ n * 2 ^ pos), r') /\ ahead bs r'.
Proof.
  revert acc pos n v r. induction fuel as [|fuel IH]; intros acc pos n v r Ha Hn Hf Hpos Hw Hacc; [lia|].
  cbn [read_bits_loop]. rewrite abind_get. unfold kBitsTypeBits.
  assert (0 <= r_bit_pos r < 64) as Hbp by (destruct Ha as [[? _] _]; done).
  assert (forall k x, 0 < k -> pos + k <= w ->
    Z.lor acc (wrapu w (Z.shiftl (wrapu w (x mod 2 ^ k)) pos)) = acc + x mod 2 ^ k * 2 ^ pos /\
    0 <= acc + x mod 2 ^ k * 2 ^ pos < 2 ^ (pos + k)) as Hor.
  { intros k x Hk Hkw. pose proof (mod_pow2_range x k ltac:(lia)).
    assert (2 ^ k <= 2 ^ w) by (apply Z.pow_le_mono_r; lia).
    assert (2 ^ (pos + k) <= 2 ^ w) by (apply Z.pow_le_mono_r; lia).
    rewrite (wrapu_small w (x mod 2 ^ k)) by (unfold in_u; lia).
    rewrite Z.pow_add_r in * by lia.
    rewrite wrapu_small by (unfold in_u; rewrite Z.shiftl_mul_pow2 by lia; nia).
    rewrite lor_shiftl_add by lia. split; [done|nia]. }
  destruct (Z.leb_spec n (64 - r_bit_pos r)).
  - destruct (read_bits_impl_spec n v bs r Ha) as (r' & Hr & Ha' & _); [lia..|].
    erewrite abind_ok by exact Hr. unfold ret. destruct (Hor n v) as [-> _]; [lia..|]. eauto.
  - set (k := 64 - r_bit_pos r) in *.
    replace (Z.to_nat n) with (Z.to_nat k + Z.to_nat (n - k))%nat in Ha by lia.
    rewrite bits_add, <- app_assoc, Z2Nat.id in Ha by lia.
    destruct (read_bits_impl_spec k v (bits (Z.to_nat (n - k)) (Z.shiftr v k) ++ bs) r Ha) as (r' & Hr & Ha' & _); [lia..|].
    erewrite abind_ok by exact Hr. destruct (Hor k v) as [-> Hrange]; [lia..|].
    destruct (IH (acc + v mod 2 ^ k * 2 ^ pos) (pos + k) (n - k) (Z.shiftr v k) r') as (r'' & -> & Ha''); try done; try lia.
    exists r''. split; [|done]. do 2 f_equal.
    pose proof (mod_pow2_app v k (n - k) ltac:(lia) ltac:(lia)) as Hv. replace (k + (n - k)) with n in Hv by lia.
    rewrite Hv, Z.pow_add_r by lia. ring.
Qed.

Lemma read_bits_spec w n v bs r : ahead (bits (Z.to_nat n) v ++ bs) r -> 0 <= n <= w ->
  exists r', read_bits w n r = (Ok (v mod 2 ^ n), r') /\ ahead bs r'.
Proof.
  intros Ha Hn. unfold read_bits. destruct (Z.ltb_spec 0 n).
  - destruct (read_bits_loop_spec (Z.to_nat n) w 0 0 n v bs r) as (r' & -> & Ha'); try done; try lia.
    exists r'. split; [|done]. do 2 f_equal. lia.
  - assert (n = 0) as -> by lia. exists r. split; [by rewrite Z.mod_1_r|done].
Qed.

(** *** Unary runs *)

Lemma run_in_bits m a tl k bs : (k < m)%nat -> bits m a ++ tl = replicate k false ++ true :: bs ->
  bits m a = replicate k false ++ true :: bits (m - S k) (Z.shiftr a (Z.of_nat (S k))) /\
  bits (m - S k) (Z.shiftr a (Z.of_nat (S k))) ++ tl = bs.
Proof.
  intros Hk H. replace m with (S k + (m - S k))%nat in H |- * by lia.
  replace (S k + (m - S k) - S k)%nat with (m - S k)%nat by lia.
  rewrite bits_add in *. rewrite <- app_assoc in H.
  change (true :: bs) with ([true] ++ bs) in H. rewrite (app_assoc (replicate k false)) in H.
  apply app_inj_1 in H as [H1 H2]; [|rewrite length_bits, length_app, length_replicate; simpl; lia].
  rewrite H1. by rewrite <- app_assoc.
Qed.

Lemma run_past_bits m a tl k bs : (m <= k)%nat -> bits m a ++ tl = replicate k false ++ true :: bs ->
  bits m a = replicate m false /\ tl = replicate (k - m) false ++ true :: bs.
Proof.
  intros Hk H. replace k with (m + (k - m))%nat in H by lia. rewrite replicate_add, <- app_assoc in H.
  apply app_inj_1 in H; [done|]. by rewrite length_bits, length_replicate.
Qed.

(** The accumulator after a packet whose first set bit is at [k]. *)
Lemma acc_after_run d k l bs tl : (k < 64)%nat -> 0 <= d < 2 ^ 64 -> Forall is_byte l ->
  bits 64 d ++ bytes_bits l = replicate k false ++ true :: bs ++ tl ->
  countr_zero 64 d = k /\
  ahead bs (if Z.of_nat k + 1 =? 64 then BitstreamReader d 0 l else BitstreamReader d (Z.of_nat k + 1) l).
Proof.
  intros Hk Hd Hl H. apply run_in_bits in H as [H1 H2]; [|done].
  split; [by eapply countr_zero_spec|]. destruct (Z.eqb_spec (Z.of_nat k + 1) 64).
  - split; [unfold reader_inv; cbn [r_bit_pos r_data beg]; split_and!; done || lia|]. exists tl.
    replace (64 - S k)%nat with O in H2 by lia. exact H2.
  - split; [unfold reader_inv; cbn [r_bit_pos r_data beg]; split_and!; done || lia|]. exists tl.
    unfold unread. cbn [r_bit_pos r_data beg]. destruct (Z.eqb_spec (Z.of_nat k + 1) 0); [lia|].
    rewrite <- H2. unfold acc_bits. do 2 f_equal; [lia|f_equal; lia].
Qed.

Lemma find_first_set_loop_spec fuel zeros k bs d p l tl : 0 <= d < 2 ^ 64 -> Forall is_byte l -> (length l < fuel)%nat ->
  bytes_bits l = replicate k false ++ true :: bs ++ tl ->
  exists r', find_first_set_loop fuel zeros (BitstreamReader d p l) = (Ok (zeros + Z.of_nat k), r') /\ ahead bs r'.
Proof.
  intros Hd. revert zeros k tl l. induction fuel as [|fuel IH]; intros zeros k tl l Hl Hf Hbits; [lia|].
  assert (l <> []) as Hne by (eapply bytes_bits_nonempty; [exact Hbits|by destruct k]).
  cbn [find_first_set_loop]. unfold read_packet, read_packet_nocheck, set_data, set_bit_pos, abind, get, put, ret, modify.
  cbn [r_data r_bit_pos beg]. rewrite bool_decide_eq_false_2 by done. cbn [r_data r_bit_pos beg].
  destruct (packet_bits l Hl) as (pad & Hpk & Hrange). set (d' := le_value (take 8 l)) in *.
  rewrite Hbits, <- app_assoc in Hpk. cbn [app] in Hpk. rewrite <- app_assoc in Hpk.
  assert (Forall is_byte (drop 8 l)) as Hl' by by apply Forall_drop.
  destruct (decide (k < 64)%nat) as [Hk|Hk].
  - pose proof (run_in_bits _ _ _ _ _ Hk Hpk) as [Hrun _].
    apply acc_after_run in Hpk as [Hctz Hahead]; [|done..].
    destruct (Z.eqb_spec d' 0) as [H0|H0].
    { rewrite H0, bits_zero in Hrun. apply (f_equal (fun l => l !! k)) in Hrun.
      rewrite lookup_replicate_2, lookup_app_r, length_replicate, Nat.sub_diag in Hrun
        by (rewrite ?length_replicate; lia). done. }
    cbn [negb]. rewrite Hctz. unfold kBitsTypeBits.
    destruct (Z.eqb_spec (Z.of_nat k + 1) 64); cbn [negb]; eexists; (split; [done|]); [|exact Hahead].
    destruct Hahead as [(Hp & _ & Hb) Hx]. by split.
  - apply run_past_bits in Hpk as [Hzero Hrest]; [|lia].
    assert (d' = 0) as ->.
    { apply (bits_inj 64); [done|lia|]. by rewrite Hzero, bits_zero. }
    cbn [negb Z.eqb]. rewrite (app_assoc bs) in Hrest.
    destruct (IH (zeros + kBitsTypeBits) (k - 64)%nat (tl ++ replicate pad false) (drop 8 l)) as (r' & -> & Ha');
      [done| |by rewrite Hrest, <- app_assoc|].
    { rewrite length_drop. destruct l; [done|]. simpl in *. lia. }
    exists r'. split; [|done]. unfold kBitsTypeBits. do 2 f_equal. lia.
Qed.

Lemma find_first_set_spec k bs r : ahead (replicate k false ++ true :: bs) r ->
  exists r', find_first_set r = (Ok (Z.of_nat k), r') /\ ahead bs r'.
Proof.
  destruct r as [d p l]. intros [(Hp & Hd & Hl) [tl Hun]]. cbn [r_data r_bit_pos beg] in *.
  unfold unread in Hun. cbn [r_data r_bit_pos beg] in Hun. rewrite <- app_assoc in Hun. cbn [app] in Hun.
  unfold find_first_set. rewrite abind_get. cbn [r_data r_bit_pos beg].
  destruct (Z.eqb_spec p 0) as [->|Hp0]; cbn [negb].
  { destruct (find_first_set_loop_spec (S (length l)) 0 k bs d 0 l tl) as (r' & Hr & Ha); try done; [lia|]. eauto. }
  unfold kBitsTypeBits. set (m := Z.to_nat (64 - p)). unfold acc_bits in Hun. fold m in Hun.
  assert (0 <= Z.shiftr d p < 2 ^ Z.of_nat m) as Hdp.
  { rewrite Z.shiftr_div_pow2 by lia. split; [apply Z.div_pos; lia|].
    apply Z.div_lt_upper_bound; [lia|]. rewrite <- Z.pow_add_r by lia. replace (p + Z.of_nat m) with 64 by lia. lia. }
  assert (forall j, 0 < j -> p + j <= 64 -> skip_bits j (BitstreamReader d p l) =
    (Ok tt, BitstreamReader d ((p + j) mod 64) l)) as Hskip.
  { intros j Hj Hpj. unfold skip_bits, set_bit_pos, modify, abind, get. cbn [r_data r_bit_pos beg]. do 2 f_equal.
    by apply (Z.land_ones _ 6). }
  (* the reader after skipping over the one at position [k] of the accumulator *)
  assert ((k < m)%nat -> ahead bs (BitstreamReader d ((p + (Z.of_nat k + 1)) mod 64) l)) as Hafter.
  { intros Hk. apply run_in_bits in Hun as [_ H2]; [|done]. split.
    - unfold reader_inv. cbn [r_data r_bit_pos beg]. split_and!; try done; try lia; apply Z.mod_pos_bound; lia.
    - exists tl. unfold unread. cbn [r_data r_bit_pos beg]. rewrite <- H2. f_equal.
      destruct (decide (p + (Z.of_nat k + 1) = 64)) as [E|].
      + rewrite E. by replace (m - S k)%nat with O by lia.
      + rewrite Z.mod_small by lia. destruct (Z.eqb_spec (p + (Z.of_nat k + 1)) 0); [lia|].
        unfold acc_bits. rewrite Z.shiftr_shiftr by lia. f_equal; [lia|f_equal; lia]. }
  unfold peek_bit. rewrite abind_assoc, abind_get, abind_ret. cbn [r_data r_bit_pos beg].
  assert ((Z.land (Z.shiftr d p) 1 =? 1) = Z.odd (Z.shiftr d p)) as ->.
  { change 1 with (2 ^ 1 - 1) at 1. rewrite land_ones_mod by lia. change (2 ^ 1) with 2.
    rewrite Zmod_odd. by destruct (Z.odd _). }
  destruct (Z.odd (Z.shiftr d p)) eqn:Hodd.
  - assert (k = 0%nat) as ->.
    { destruct m as [|m'] eqn:Em; [lia|]. destruct k as [|k]; [done|].
      unfold bits in Hun. fold bits in Hun. rewrite Hodd in Hun. done. }
    erewrite abind_ok by (apply Hskip; lia). eexists. split; [done|]. apply Hafter. lia.
  - assert (peek_bits (64 - p) (BitstreamReader d p l) = (Ok (Z.shiftr d p), BitstreamReader d p l)) as Hpeek.
    { unfold peek_bits, abind, get, ret. cbn [r_data r_bit_pos beg].
      destruct (Z.eqb_spec p 0); [lia|]. cbn [r_data r_bit_pos beg].
      unfold kBitsTypeBits. destruct (Z.ltb_spec (64 - p) 64); [|lia].
      rewrite mask_mod by lia. replace (64 - p) with (Z.of_nat m) by lia. by rewrite Z.mod_small by lia. }
    erewrite abind_ok by exact Hpeek.
    destruct (decide (k < m)%nat) as [Hk|Hk].
    + pose proof (run_in_bits _ _ _ _ _ Hk Hun) as [Hrun _].
      assert (countr_zero 64 (Z.shiftr d p) = k) as ->.
      { eapply countr_zero_spec. replace 64%nat with (m + (64 - m))%nat by lia.
        rewrite bits_pad, Hrun by lia. by rewrite <- app_assoc. }
      destruct (Z.ltb_spec (Z.of_nat k) (64 - p)); [|lia].
      erewrite abind_ok by (apply Hskip; lia). eexists. split; [done|]. by apply Hafter.
    + apply run_past_bits in Hun as [Hzero Hrest]; [|lia].
      assert (Z.shiftr d p = 0) as ->.
      { apply (bits_inj m); [done|lia|]. by rewrite Hzero, bits_zero. }
      rewrite (countr_zero_none 64 0) by apply bits_zero.
      destruct (Z.ltb_spec (Z.of_nat 64) (64 - p)); [lia|].
      unfold set_bit_pos, modify. erewrite abind_ok by done. cbn [r_data r_bit_pos beg].
      destruct (find_first_set_loop_spec (S (length l)) (64 - p) (k - m) bs d 0 l tl) as (r' & -> & Ha); try done; [lia|].
      exists r'. split; [|done]. do 2 f_equal. lia.
Qed.

Lemma read_bit_spec b bs r : ahead (b :: bs) r ->
  exists r', read_bit r = (Ok b, r') /\ ahead bs r'.
Proof.
  intros Ha. destruct (read_bits_impl_spec 1 (Z.b2z b) bs r) as (r' & Hr & Ha' & _); [by destruct b|lia| |].
  { destruct Ha as [[? _] _]. lia. }
  exists r'. split; [|done]. unfold read_bit. erewrite abind_ok by exact Hr. by destruct b.
Qed.

(** ** What a client writes and reads back *)

(** A field of a stream: one bit, a run of [n] zeros closed by a one (a unary
    number), or the low [n] bits of an integer. *)
Inductive field : Type :=
  | FBit (b : bool)
  | FUnary (n : Z)
  | FBits (v n : Z).

Definition field_ok (f : field) : Prop :=
  match f with
  | FBit _ => True
  | FUnary n => 0 <= n
  | FBits v n => 0 <= n <= 64 /\ in_u n v
  end.

Definition field_bits (f : field) : list bool :=
  match f with
  | FBit b => [b]
  | FUnary n => replicate (Z.to_nat n) false ++ [true]
  | FBits v n => bits (Z.to_nat n) v
  end.

Definition put_field (f : field) (w : bitstream_writer) : bitstream_writer :=
  match f with
  | FBit b => write_bit1 b w
  | FUnary n => write_bit1 true (write_bit false n w)
  | FBits v n => write_bits v n w
  end.

(** Reads a field of the same shape. *)
Definition get_field (f : field) : bit_reader field :=
  match f with
  | FBit _ => let! b := read_bit in ret (FBit b)
  | FUnary _ => let! n := find_first_set in ret (FUnary n)
  | FBits _ n => let! v := read_bits 64 n in ret (FBits v n)
  end.

Definition get_fields : list field -> bit_reader (list field) :=
  fix go l := match l with
              | [] => ret []
              | f :: l => let! x := get_field f in let! xs := go l in ret (x :: xs)
              end.

Definition put_fields (l : list field) (w : bitstream_writer) : bitstream_writer :=
  foldl (fun w f => put_field f w) w l.

Lemma write_bit1_spec b w : writer_inv w ->
  writer_inv (write_bit1 b w) /\ written (write_bit1 b w) = written w ++ [b].
Proof.
  intros Hw. unfold write_bit1. pose proof Hw as [Hp _].
  destruct (write_bits_impl_spec (Z.b2z b) 1 w) as (? & -> & _); [done|lia..|].
  split; [done|]. by destruct b.
Qed.

Lemma put_field_spec f w : writer_inv w -> field_ok f ->
  writer_inv (put_field f w) /\ written (put_field f w) = written w ++ field_bits f.
Proof.
  intros Hw Hf. destruct f as [b|n|v n]; simpl in *.
  - by apply write_bit1_spec.
  - destruct (write_bit_spec false n w Hw Hf) as [Hw' Hwr].
    destruct (write_bit1_spec true _ Hw') as [? ->]. split; [done|].
    by rewrite Hwr, app_assoc.
  - apply write_bits_spec; [done|lia].
Qed.

Lemma put_fields_spec l w : writer_inv w -> Forall field_ok l ->
  writer_inv (put_fields l w) /\ written (put_fields l w) = written w ++ concat (map field_bits l).
Proof.
  revert w. induction l as [|f l IH]; intros w Hw Hl; [by rewrite app_nil_r|].
  apply Forall_cons in Hl as [Hf Hl]. destruct (put_field_spec f w Hw Hf) as [Hw' Hwr].
  destruct (IH _ Hw' Hl) as [? E]. split; [done|]. simpl in *. by rewrite E, Hwr, app_assoc.
Qed.

Lemma get_field_spec f bs r : field_ok f -> ahead (field_bits f ++ bs) r ->
  exists r', get_field f r = (Ok f, r') /\ ahead bs r'.
Proof.
  intros Hf Ha. destruct f as [b|n|v n]; simpl in *.
  - destruct (read_bit_spec b bs r Ha) as (r' & E & ?). exists r'. by erewrite abind_ok by exact E.
  - rewrite <- app_assoc in Ha. destruct (find_first_set_spec _ _ _ Ha) as (r' & E & ?). exists r'.
    erewrite abind_ok by exact E. by rewrite Z2Nat.id.
  - destruct (read_bits_spec 64 n v bs r Ha) as (r' & E & ?); [lia|]. exists r'.
    erewrite abind_ok by exact E. by rewrite Z.mod_small by apply Hf.
Qed.

Lemma get_fields_spec l bs r : Forall field_ok l -> ahead (concat (map field_bits l) ++ bs) r ->
  exists r', get_fields l r = (Ok l, r') /\ ahead bs r'.
Proof.
  revert r. induction l as [|f l IH]; intros r Hl Ha; [by exists r|].
  apply Forall_cons in Hl as [Hf Hl]. simpl in Ha. rewrite <- app_assoc in Ha.
  destruct (get_field_spec f _ r Hf Ha) as (r1 & E1 & Ha1). destruct (IH r1 Hl Ha1) as (r2 & E2 & ?).
  exists r2. split; [|done]. simpl. erewrite abind_ok by exact E1. by erewrite abind_ok by exact E2.
Qed.

(** C30: any sequence of bits, unary runs of any length and integers of up to
    64 bits, written one after the other and flushed, occupies exactly as many
    bytes as its bits need, and reading fields of the same shapes returns the
    values written, wherever they straddle the 64-bit packets. *)
Theorem bitstream_roundtrip l : Forall field_ok l ->
  let bytes := out (flush (put_fields l (bitstream_writer_init []))).2 in
  Forall is_byte bytes /\
  Z.of_nat (length bytes) = (Z.of_nat (length (concat (map field_bits l))) + 7) / 8 /\
  fst (get_fields l (bitstream_reader_init bytes)) = Ok l.
Proof.
  intros Hl bytes. destruct (put_fields_spec l (bitstream_writer_init [])) as [Hw Hwr]; [|done|].
  { unfold writer_inv. simpl. split_and!; done || lia. }
  destruct (flush_spec _ Hw) as (Hb & [pad Hpad] & Hlen). rewrite Hwr in Hpad, Hlen.
  split_and!; [done|done|].
  destruct (get_fields_spec l [] (bitstream_reader_init bytes)) as (r & -> & _); [done| |done].
  rewrite app_nil_r. by eapply ahead_init.
Qed.

Lemma bitstream_roundtrip_witness :
  let l := [FBits 5 3; FUnary 200; FBit false; FBits (2 ^ 64 - 2) 64; FUnary 0] in
  fst (get_fields l (bitstream_reader_init (out (flush (put_fields l (bitstream_writer_init []))).2))) = Ok l.
Proof.
  apply (bitstream_roundtrip [FBits 5 3; FUnary 200; FBit false; FBits (2 ^ 64 - 2) 64; FUnary 0]).
  repeat constructor; discriminate.
Defined.
