(* ===== verification/RiceCodec.v ===== *)
(** * RiceCodec: the Rice entropy coder of ricepp

    [ricepp/include/ricepp/detail/encode.h], [detail/decode.h], [codec.h],
    [byteswap.h], and from the library itself the pixel traits and the
    encoder and decoder objects of [ricepp_cpuspecific_traits.h] and
    [ricepp_cpuspecific.cpp], for [uint16_t], the one pixel type the library
    instantiates.  The width [vbits] of [uint_fast32_t] and the native byte
    order are parameters.  [chunk], [drop] and [stride] are the views of
    these names of the C++ ranges library. *)

From S2P Require Import Prelude Bits Bitstream.
Local Open Scope Z_scope.

(** ** Constants of [encode_block] and [decode_block] at [uint16_t] *)

Definition kPixelBits : Z := 16.
Definition kFsBits : Z := Z.of_nat (countr_zero 32 kPixelBits).
Definition kFsMax : Z := kPixelBits - 2.
Definition kPixelMsb : Z := Z.shiftl 1 (kPixelBits - 1).
Definition kMaxBlockSize : Z := 512.

(** ** Byte order and pixel traits *)

Inductive endian : Type := little | big.
#[global] Instance endian_eq_dec : EqDecision endian.
Proof. solve_decision. Defined.

(** [detail::byteswap] of a [uint16_t]: the bytes of its representation
    reversed. *)
Definition byteswap_fallback (value : Z) : Z := le_value (rev (le_bytes 2 value)).

Definition byteswap (native : endian) (value : Z) (byteorder : endian) : Z :=
  if decide (byteorder = native) then value else byteswap_fallback value.

Record dynamic_pixel_traits : Type := PixelTraits {
  byteorder_ : endian;
  unused_lsb_count_ : Z
}.

Section traits.
Context (native : endian) (t : dynamic_pixel_traits).

Definition traits_read (value : Z) : Z :=
  let tmp := byteswap native value (byteorder_ t) in
  Z.shiftr tmp (unused_lsb_count_ t).

Definition traits_write (value : Z) : Z :=
  byteswap native (wrapu 16 (Z.shiftl value (unused_lsb_count_ t))) (byteorder_ t).
End traits.

(** ** [compute_best_split] *)

(** The [uint32] sum of the masked deltas. *)
Definition masked_sum (mask : Z) (delta : list Z) : Z :=
  foldl (fun bits d => wrapu 32 (bits + Z.land d mask)) 0 delta.

Definition bits_for_fs (delta : list Z) (fs : Z) : Z :=
  let mask := Z.shiftl 65535 fs in
  let bits := masked_sum mask delta in
  wrapu 64 (Z.of_nat (length delta) * (fs + 1) + Z.shiftr bits fs).

(** [cand_fs] moves from 0 < cand_fs < FsMax by one in one direction: [FsMax]
    iterations are enough. *)
Fixpoint best_split_loop (fuel : nat) (delta : list Z) (direction cand_fs bits : Z) : Z * Z :=
  match fuel with
  | O => (cand_fs, bits)
  | S fuel =>
      if (0 <? cand_fs) && (cand_fs <? kFsMax) then
        let tmp := bits_for_fs delta (cand_fs + direction) in
        if wrapu 64 bits <? tmp then (cand_fs, bits)
        else best_split_loop fuel delta direction (cand_fs + direction) (wraps 32 tmp)
      else (cand_fs, bits)
  end.

Definition compute_best_split (delta : list Z) (sum : Z) : Z * Z :=
  let start_fs := 64 - Z.min 64 (countl_zero 64 (sum / Z.of_nat (length delta)) + 2) in
  let bits0 := bits_for_fs delta start_fs in
  let bits1 := bits_for_fs delta (start_fs + 1) in
  let '(cand_fs, bits, direction) :=
    if bits1 <=? bits0 then (start_fs + 1, wraps 32 bits1, 1)
    else (start_fs, wraps 32 bits0, -1) in
  if negb (bits0 =? bits1)
  then best_split_loop (Z.to_nat kFsMax) delta direction cand_fs bits
  else (cand_fs, bits).

(** ** Blocks *)

Section codec.
Context (vbits : Z) (native : endian) (t : dynamic_pixel_traits).

(** One iteration of the first loop of [encode_block]: the delta of a pixel. *)
Definition pixel_delta (last pixel : Z) : Z :=
  let diff := wrapu vbits (pixel - last) in
  wrapu 16 (if negb (Z.land diff kPixelMsb =? 0)
            then Z.lnot (Z.shiftl diff 1) else Z.shiftl diff 1).

(** That loop: the deltas, their sum and the last pixel. *)
Fixpoint compute_deltas (block : list Z) (last sum : Z) : list Z * Z * Z :=
  match block with
  | [] => ([], sum, last)
  | b :: block =>
      let pixel := traits_read native t b in
      let d := pixel_delta last pixel in
      let '(delta, sum, last) := compute_deltas block pixel (wrapu 64 (sum + d)) in
      (d :: delta, sum, last)
  end.

Definition write_rice (fs diff : Z) (w : bitstream_writer) : bitstream_writer :=
  let top := Z.shiftr diff fs in
  let w := if 0 <? top then write_bit false top w else w in
  write_bits diff fs (write_bit1 true w).

(** The writer and the new [last_value]. *)
Definition encode_block (block : list Z) (w : bitstream_writer) (last_value : Z) : bitstream_writer * Z :=
  let '(delta, sum, last) := compute_deltas block last_value 0 in
  let w :=
    if 0 <? sum then
      let '(fs, bits_used) := compute_best_split delta sum in
      if (fs <? kFsMax) && (bits_used <? kPixelBits * Z.of_nat (length block)) then
        foldl (fun w diff => write_rice fs diff w) (write_bits (fs + 1) kFsBits w) delta
      else
        foldl (fun w b => write_bits b kPixelBits w) (write_bits (kFsMax + 1) kFsBits w) block
    else write_bits 0 kFsBits w in
  (w, last).

(** [last += ...] of [decode_block]. *)
Definition add_diff (last diff : Z) : Z :=
  wrapu vbits (last +
    wraps vbits (Z.lxor (wrapu vbits (Z.land diff 1 * wrapu vbits (-1))) (Z.shiftr diff 1))).

(** The Rice loop of [decode_block]. *)
Fixpoint read_rice (fs : Z) (n : nat) (last : Z) : bit_reader (list Z * Z) :=
  match n with
  | O => ret ([], last)
  | S n =>
      let! top := find_first_set in
      let! low := read_bits vbits fs in
      let diff := Z.lor (wrapu vbits (wrapu 64 (Z.shiftl top fs))) low in
      let last := add_diff last diff in
      let! ' (block, last') := read_rice fs n last in
      ret (traits_write native t (wrapu 16 last) :: block, last')
  end.

(** Decodes into a block of [n] pixels; the block and the new [last_value]. *)
Definition decode_block (n : nat) (last_value : Z) : bit_reader (list Z * Z) :=
  let! fsp1 := read_bits vbits kFsBits in
  if 0 <? fsp1 then
    if fsp1 <=? kFsMax then read_rice (fsp1 - 1) n last_value
    else
      let! block := readA (let! b := read_bits vbits kPixelBits in ret (wrapu 16 b)) n in
      ret (block, traits_read native t (default 0 (last block)))
  else ret (replicate n (traits_write native t (wrapu 16 last_value)), last_value).

(** ** [codec] *)

(** [views::chunk], by recursion on the length of the range. *)
Fixpoint chunk_fuel (fuel : nat) (n : nat) (l : list Z) : list (list Z) :=
  match fuel with
  | O => []
  | S fuel => if bool_decide (l = []) then [] else take n l :: chunk_fuel fuel n (drop n l)
  end.
Definition chunk (n : nat) (l : list Z) : list (list Z) := chunk_fuel (length l) n l.

(** [views::stride]. *)
Definition stride (k : nat) (l : list Z) : list Z :=
  map (fun j => nth (j * k) l 0) (seq 0 ((length l + k - 1) / k)).

(** Stores [vals] through the view [drop(i) | stride(k)] of [pixels]. *)
Definition store_stride (k i : nat) (vals pixels : list Z) : list Z :=
  imap (fun idx old => if decide (idx `mod` k = i)%nat then nth (idx / k) vals old else old) pixels.

Section streams.
Context (k : nat) (block_size_ : nat).

(** The component loop over the pixels of one chunk. *)
Definition encode_chunk (pixels : list Z) (s : bitstream_writer * list Z) : bitstream_writer * list Z :=
  foldl (fun '(w, last_value) i =>
           let '(w, last) := encode_block (stride k (drop i pixels)) w (nth i last_value 0) in
           (w, <[i := last]> last_value))
    s (seq 0 k).

Definition encode_multi (input : list Z) (w : bitstream_writer) : bitstream_writer :=
  let last_value := map (fun i => traits_read native t (nth i input 0)) (seq 0 k) in
  let w := foldl (fun w l => write_bits l kPixelBits w) w last_value in
  (foldl (fun s pixels => encode_chunk pixels s) (w, last_value) (chunk (k * block_size_) input)).1.

Definition encode_single (input : list Z) (w : bitstream_writer) : bitstream_writer :=
  let last_value := traits_read native t (nth 0 input 0) in
  let w := write_bits last_value kPixelBits w in
  (foldl (fun '(w, last_value) pixels => encode_block pixels w last_value)
     (w, last_value) (chunk block_size_ input)).1.

Definition encode (input : list Z) (w : bitstream_writer) : bitstream_writer :=
  (flush (if decide (k = 1)%nat then encode_single input w else encode_multi input w)).2.

Fixpoint decode_components (comps : list nat) (pixels last_value : list Z) : bit_reader (list Z * list Z) :=
  match comps with
  | [] => ret (pixels, last_value)
  | i :: comps =>
      let! ' (block, last) := decode_block (length (stride k (drop i pixels))) (nth i last_value 0) in
      decode_components comps (store_stride k i block pixels) (<[i := last]> last_value)
  end.

Fixpoint decode_chunks (chunks : list (list Z)) (last_value : list Z) : bit_reader (list Z) :=
  match chunks with
  | [] => ret []
  | pixels :: chunks =>
      let! ' (pixels, last_value) := decode_components (seq 0 k) pixels last_value in
      let! rest := decode_chunks chunks last_value in
      ret (pixels ++ rest)
  end.

Definition decode_multi (output : list Z) : bit_reader (list Z) :=
  let! last_value := readA (read_bits vbits kPixelBits) k in
  decode_chunks (chunk (k * block_size_) output) last_value.

Fixpoint decode_blocks (chunks : list (list Z)) (last_value : Z) : bit_reader (list Z) :=
  match chunks with
  | [] => ret []
  | pixels :: chunks =>
      let! ' (block, last_value) := decode_block (length pixels) last_value in
      let! rest := decode_blocks chunks last_value in
      ret (block ++ rest)
  end.

Definition decode_single (output : list Z) : bit_reader (list Z) :=
  let! last_value := read_bits vbits kPixelBits in
  decode_blocks (chunk block_size_ output) last_value.

(** Overwrites the pixels of [output]. *)
Definition decode (output : list Z) : bit_reader (list Z) :=
  if decide (k = 1)%nat then decode_single output else decode_multi output.

Definition worst_case_bit_count (pixel_count : Z) : Z :=
  let pixel_count := pixel_count / Z.of_nat k in
  let num := kPixelBits + kFsBits * ((pixel_count + Z.of_nat block_size_ - 1) / Z.of_nat block_size_)
             + kPixelBits * pixel_count in
  num * Z.of_nat k.

(** ** [encoder_impl] and [decoder_impl] *)

Definition worst_case_encoded_bytes (pixel_count : Z) : Z :=
  (worst_case_bit_count pixel_count + 8 - 1) / 8.

Definition encode_impl (input : list Z) : list Z := out (encode input (bitstream_writer_init [])).

Definition decode_impl (output input : list Z) : result bitstream_error (list Z) :=
  (decode output (bitstream_reader_init input)).1.
End streams.
End codec.

(** ** Pixel traits *)

Section traits_lemmas.
Context (native : endian) (t : dynamic_pixel_traits).

(** The low [unused_lsb_count_] bits of a pixel, in its byte order, are zero:
    what [read] asserts. *)
Definition pixel_ok (p : Z) : Prop :=
  in_u 16 p /\ byteswap native p (byteorder_ t) mod 2 ^ unused_lsb_count_ t = 0.

Lemma byteswap_fallback_u16 v : in_u 16 (byteswap_fallback v).
Proof.
  unfold byteswap_fallback. apply (le_value_range (rev (le_bytes 2 v))).
  apply Forall_rev, le_bytes_is_byte.
Qed.

Lemma byteswap_fallback_invol v : in_u 16 v -> byteswap_fallback (byteswap_fallback v) = v.
Proof.
  intros Hv. unfold byteswap_fallback.
  assert (le_bytes 2 (le_value (rev (le_bytes 2 v))) = rev (le_bytes 2 v)) as ->.
  { apply (le_bytes_le_value (rev (le_bytes 2 v))). apply Forall_rev, le_bytes_is_byte. }
  rewrite rev_involutive, le_value_le_bytes. apply Z.mod_small. apply Hv.
Qed.

Lemma byteswap_u16 v e : in_u 16 v -> in_u 16 (byteswap native v e).
Proof. intros Hv. unfold byteswap. case_decide; [done|]. apply byteswap_fallback_u16. Qed.

Lemma byteswap_invol v e : in_u 16 v -> byteswap native (byteswap native v e) e = v.
Proof. intros Hv. unfold byteswap. case_decide; [done|]. by apply byteswap_fallback_invol. Qed.

Lemma traits_read_u16 p : 0 <= unused_lsb_count_ t -> in_u 16 p -> in_u 16 (traits_read native t p).
Proof.
  intros Hu Hp. apply (byteswap_u16 _ (byteorder_ t)) in Hp. unfold traits_read, in_u in *.
  rewrite Z.shiftr_div_pow2 by done. split; [apply Z.div_pos; lia|].
  apply Z.div_lt_upper_bound; [lia|]. nia.
Qed.

Lemma traits_write_read p : 0 <= unused_lsb_count_ t -> pixel_ok p ->
  traits_write native t (traits_read native t p) = p.
Proof.
  intros Hu [Hp Hz]. unfold traits_write, traits_read.
  pose proof (byteswap_u16 p (byteorder_ t) Hp) as Hs.
  rewrite Z.shiftl_mul_pow2, Z.shiftr_div_pow2 by done.
  rewrite Z.mul_comm, <- Z_div_exact_full_2 by (done || lia).
  rewrite wrapu_small by done. by apply byteswap_invol.
Qed.

Lemma traits_write_u16 v : in_u 16 (traits_write native t v).
Proof. apply byteswap_u16, wrapu_range. lia. Qed.
End traits_lemmas.

(** ** The best split *)

(** The number of bits of the unary parts at split [fs]. *)
Definition unary_bits (delta : list Z) (fs : Z) : Z := foldr (fun d s => Z.shiftr d fs + s) 0 delta.

(** The exact cost in bits of a block at split [fs]. *)
Definition split_cost (delta : list Z) (fs : Z) : Z :=
  Z.of_nat (length delta) * (fs + 1) + unary_bits delta fs.

Definition delta_ok (delta : list Z) : Prop :=
  Forall (in_u 16) delta /\ 0 < Z.of_nat (length delta) <= kMaxBlockSize.

Lemma land_mask d fs : in_u 16 d -> 0 <= fs -> Z.land d (Z.shiftl 65535 fs) = Z.shiftr d fs * 2 ^ fs.
Proof.
  intros Hd Hfs. rewrite <- Z.shiftl_mul_pow2 by done. apply Z.bits_inj'. intros i Hi.
  rewrite Z.land_spec. destruct (Z_lt_le_dec i fs).
  - rewrite !Z.shiftl_spec_low by done. apply andb_false_r.
  - rewrite !Z.shiftl_spec, Z.shiftr_spec by lia. replace (i - fs + fs) with i by lia.
    change 65535 with (Z.ones 16). destruct (Z_lt_le_dec (i - fs) 16).
    + by rewrite Z.ones_spec_low, andb_true_r by lia.
    + rewrite (testbit_above 16 d) by (unfold in_u in Hd; lia). done.
Qed.

Lemma shiftr_u16 d fs : in_u 16 d -> 0 <= fs -> 0 <= Z.shiftr d fs /\ Z.shiftr d fs * 2 ^ fs < 65536.
Proof.
  intros Hd Hfs. unfold in_u in Hd. rewrite Z.shiftr_div_pow2 by done. split; [apply Z.div_pos; lia|].
  pose proof (Z.mul_div_le d (2 ^ fs) ltac:(lia)). lia.
Qed.

Lemma unary_bits_bounds delta fs : Forall (in_u 16) delta -> 0 <= fs ->
  0 <= unary_bits delta fs /\ unary_bits delta fs * 2 ^ fs <= 65535 * Z.of_nat (length delta).
Proof.
  intros Hd Hfs. induction Hd as [|d delta Hd _ IH]; simpl; [lia|].
  pose proof (shiftr_u16 d fs Hd Hfs). lia.
Qed.

Lemma masked_sum_spec delta fs acc : Forall (in_u 16) delta -> 0 <= fs -> 0 <= acc ->
  acc + 65535 * Z.of_nat (length delta) < 2 ^ 32 ->
  foldl (fun bits d => wrapu 32 (bits + Z.land d (Z.shiftl 65535 fs))) acc delta =
  acc + unary_bits delta fs * 2 ^ fs.
Proof.
  intros Hd Hfs. revert acc. induction Hd as [|d delta Hd Hl IH]; intros acc Ha Hlt; [simpl; lia|].
  cbn [foldl unary_bits foldr length] in *. pose proof (shiftr_u16 d fs Hd Hfs).
  rewrite land_mask by done. rewrite wrapu_small by (unfold in_u; lia).
  rewrite IH by lia. unfold unary_bits. lia.
Qed.

Lemma bits_for_fs_spec delta fs : delta_ok delta -> 0 <= fs <= 15 -> bits_for_fs delta fs = split_cost delta fs.
Proof.
  intros [Hd Hlen] Hfs. unfold bits_for_fs, masked_sum, split_cost, kMaxBlockSize in *.
  rewrite masked_sum_spec by (done || lia). rewrite Z.add_0_l, Z.shiftr_div_pow2, Z.div_mul by lia.
  pose proof (unary_bits_bounds delta fs Hd ltac:(lia)). apply wrapu_small. unfold in_u. nia.
Qed.

Lemma split_cost_int delta fs : delta_ok delta -> 0 <= fs <= 15 ->
  0 <= split_cost delta fs < 2 ^ 31.
Proof.
  intros [Hd Hlen] Hfs. unfold split_cost, kMaxBlockSize in *.
  pose proof (unary_bits_bounds delta fs Hd ltac:(lia)). nia.
Qed.

(** The cost is convex in the split. *)
Lemma unary_bits_convex delta fs : Forall (in_u 16) delta -> 0 <= fs ->
  unary_bits delta (fs + 1) - unary_bits delta (fs + 2) <= unary_bits delta fs - unary_bits delta (fs + 1).
Proof.
  intros Hd Hfs. induction Hd as [|d delta Hd _ IH]; [simpl; lia|]. cbn [unary_bits foldr].
  fold (unary_bits delta). pose proof (shiftr_u16 d fs Hd Hfs) as [Hx _].
  rewrite <- (Z.shiftr_shiftr d fs 1), <- (Z.shiftr_shiftr d fs 2) by lia.
  rewrite !(Z.shiftr_div_pow2 (Z.shiftr d fs)) by lia. change (2 ^ 1) with 2. change (2 ^ 2) with 4.
  set (x := Z.shiftr d fs) in *.
  enough (x / 2 - x / 4 <= x - x / 2) by (unfold unary_bits in *; lia).
  Z.to_euclidean_division_equations. lia.
Qed.

Section convex.
Context (f : Z -> Z).
Context (Hf : forall j, 0 <= j -> f (j + 1) - f j <= f (j + 2) - f (j + 1)).

Lemma convex_slope i j : 0 <= i <= j -> f (i + 1) - f i <= f (j + 1) - f j.
Proof.
  intros [Hi Hij]. pattern j. apply (Zlt_lower_bound_ind _ i); [|done]. clear j Hij.
  intros j IH Hj. destruct (decide (j = i)) as [->|]; [lia|].
  specialize (IH (j - 1) ltac:(lia)). specialize (Hf (j - 1) ltac:(lia)).
  replace (j - 1 + 1) with j in * by lia. replace (j - 1 + 2) with (j + 1) in * by lia. lia.
Qed.

Lemma convex_right s j : 0 <= s <= j -> f s <= f (s + 1) -> f s <= f j.
Proof.
  intros Hj Hup. replace j with (s + Z.of_nat (Z.to_nat (j - s))) by lia.
  induction (Z.to_nat (j - s)) as [|n IH]; [by rewrite Z.add_0_r|].
  pose proof (convex_slope s (s + Z.of_nat n) ltac:(lia)).
  replace (s + Z.of_nat (S n)) with (s + Z.of_nat n + 1) by lia. lia.
Qed.

Lemma convex_left s j : 0 <= j <= s -> f s <= f (s - 1) -> f s <= f j.
Proof.
  intros Hj Hdown. assert (forall n, Z.of_nat n <= s -> f s <= f (s - Z.of_nat n)) as H.
  { induction n as [|n IH]; intros Hn; [by rewrite Z.sub_0_r|]. specialize (IH ltac:(lia)).
    pose proof (convex_slope (s - Z.of_nat (S n)) (s - 1) ltac:(lia)) as Hs.
    replace (s - Z.of_nat (S n) + 1) with (s - Z.of_nat n) in Hs by lia.
    replace (s - 1 + 1) with s in Hs by lia. lia. }
  specialize (H (Z.to_nat (s - j)) ltac:(lia)). by replace (s - Z.of_nat (Z.to_nat (s - j))) with j in H by lia.
Qed.
End convex.

Lemma split_cost_convex delta j : delta_ok delta -> 0 <= j ->
  split_cost delta (j + 1) - split_cost delta j <= split_cost delta (j + 2) - split_cost delta (j + 1).
Proof.
  intros [Hd _] Hj. pose proof (unary_bits_convex delta j Hd Hj). unfold split_cost. lia.
Qed.

(** The first candidate splits are at most 15. *)
Lemma start_fs_range q : 0 <= q < 2 ^ 16 ->
  let start_fs := 64 - Z.min 64 (countl_zero 64 q + 2) in
  0 <= start_fs <= 14 /\ (q < 2 ^ 15 -> start_fs <= 13).
Proof.
  intros Hq start_fs. unfold start_fs, countl_zero.
  pose proof (bit_width_nonneg q). pose proof (proj2 (bit_width_spec q 16 ltac:(lia) ltac:(lia)) ltac:(lia)).
  split; [lia|]. intros Hq'. pose proof (proj2 (bit_width_spec q 15 ltac:(lia) ltac:(lia)) Hq'). lia.
Qed.

Section best_split.
Context (delta : list Z) (Hdelta : delta_ok delta).
#[local] Abbreviation f := (split_cost delta).

(** What the search returns: the exact cost, and a split that no other one in
    reach beats. *)
Definition split_optimal (r : Z * Z) : Prop :=
  r.2 = f r.1 /\ 0 <= r.1 <= 15 /\ forall j, 0 <= j <= kFsMax -> r.2 <= f j.

Lemma best_split_up fuel c : 1 <= c <= 15 -> f c <= f (c - 1) -> kFsMax <= c + Z.of_nat fuel ->
  split_optimal (best_split_loop fuel delta 1 c (f c)).
Proof.
  pose proof (fun j => split_cost_convex delta j Hdelta) as Hconv.
  revert c. induction fuel as [|fuel IH]; intros c Hc Hle Hfuel; unfold split_optimal, kFsMax, kPixelBits in *.
  - cbn [best_split_loop]. split_and!; cbn [fst snd]; try done; try lia.
    intros j Hj. apply (convex_left f Hconv); lia.
  - cbn [best_split_loop]. unfold kFsMax, kPixelBits.
    destruct (Z.ltb_spec 0 c); [|lia]. destruct (Z.ltb_spec c (16 - 2)); cbn [andb].
    + rewrite bits_for_fs_spec by (done || lia). pose proof (split_cost_int delta c Hdelta ltac:(lia)).
      rewrite wrapu_small by (unfold in_u; lia). destruct (Z.ltb_spec (f c) (f (c + 1))).
      * split_and!; cbn [fst snd]; try done; try lia. intros j Hj.
        destruct (Z_le_gt_dec j c); [apply (convex_left f Hconv); lia|apply (convex_right f Hconv); lia].
      * pose proof (split_cost_int delta (c + 1) Hdelta ltac:(lia)).
        rewrite wraps_small by (unfold in_s; lia). apply IH; try lia.
        by replace (c + 1 - 1) with c by lia.
    + split_and!; cbn [fst snd]; try done; try lia. intros j Hj. apply (convex_left f Hconv); lia.
Qed.

Lemma best_split_down fuel c : 0 <= c <= 13 -> f c <= f (c + 1) -> c <= Z.of_nat fuel ->
  split_optimal (best_split_loop fuel delta (-1) c (f c)).
Proof.
  pose proof (fun j => split_cost_convex delta j Hdelta) as Hconv.
  revert c. induction fuel as [|fuel IH]; intros c Hc Hle Hfuel; unfold split_optimal, kFsMax, kPixelBits in *.
  - cbn [best_split_loop]. split_and!; cbn [fst snd]; try done; try lia.
    intros j Hj. apply (convex_right f Hconv); lia.
  - cbn [best_split_loop]. unfold kFsMax, kPixelBits.
    destruct (Z.ltb_spec c (16 - 2)); [|lia]. destruct (Z.ltb_spec 0 c); cbn [andb].
    + rewrite bits_for_fs_spec by (done || lia). pose proof (split_cost_int delta c Hdelta ltac:(lia)).
      rewrite wrapu_small by (unfold in_u; lia). destruct (Z.ltb_spec (f c) (f (c + -1))).
      * split_and!; cbn [fst snd]; try done; try lia. intros j Hj.
        replace (c + -1) with (c - 1) in * by lia.
        destruct (Z_le_gt_dec j c); [apply (convex_left f Hconv); lia|apply (convex_right f Hconv); lia].
      * pose proof (split_cost_int delta (c + -1) Hdelta ltac:(lia)).
        rewrite wraps_small by (unfold in_s; lia). apply IH; try lia.
        by replace (c + -1 + 1) with c by lia.
    + split_and!; cbn [fst snd]; try done; try lia. intros j Hj. apply (convex_right f Hconv); lia.
Qed.

(** From a start at 14 the loop is not entered. *)
Lemma best_split_stop fuel dir bits c : kFsMax <= c -> best_split_loop fuel delta dir c bits = (c, bits).
Proof.
  intros Hc. destruct fuel; [done|]. cbn [best_split_loop].
  destruct (Z.ltb_spec c kFsMax); [lia|]. by rewrite andb_false_r.
Qed.

Lemma compute_best_split_spec sum : 0 <= sum / Z.of_nat (length delta) < 2 ^ 16 ->
  let r := compute_best_split delta sum in
  r.2 = f r.1 /\ 0 <= r.1 <= 15 /\ (sum / Z.of_nat (length delta) < 2 ^ 15 -> split_optimal r).
Proof.
  intros Hq. pose proof (fun j => split_cost_convex delta j Hdelta) as Hconv.
  destruct (start_fs_range _ Hq) as [Hs Hs']. unfold compute_best_split.
  set (s := 64 - Z.min 64 _) in *. rewrite !bits_for_fs_spec by (done || lia).
  pose proof (split_cost_int delta s Hdelta ltac:(lia)). pose proof (split_cost_int delta (s + 1) Hdelta ltac:(lia)).
  rewrite !wraps_small by (unfold in_s; lia).
  destruct (Z.leb_spec (f (s + 1)) (f s)).
  - assert (split_optimal (best_split_loop (Z.to_nat kFsMax) delta 1 (s + 1) (f (s + 1)))) as Hup.
    { apply best_split_up; [lia| |unfold kFsMax, kPixelBits; lia]. by replace (s + 1 - 1) with s by lia. }
    destruct (Z.eqb_spec (f s) (f (s + 1))) as [E|]; cbn [negb]; cbv zeta.
    + cbn [fst snd]. split_and!; [done|lia|lia|]. intros _. split_and!; cbn [fst snd]; [done|lia..|].
      intros j Hj. destruct (Z_le_gt_dec j (s + 1)).
      * apply (convex_left f Hconv); [lia|]. replace (s + 1 - 1) with s by lia. lia.
      * rewrite <- E. apply (convex_right f Hconv); lia.
    + by destruct Hup as (? & ? & ?).
  - destruct (Z.eqb_spec (f s) (f (s + 1))); [lia|]. cbn [negb]. cbv zeta.
    destruct (decide (s = 14)) as [E|].
    + rewrite best_split_stop by (unfold kFsMax, kPixelBits; lia). cbn [fst snd].
      split_and!; [done|lia..|]. intros Hq'. specialize (Hs' Hq'). lia.
    + assert (split_optimal (best_split_loop (Z.to_nat kFsMax) delta (-1) s (f s))) as Hdown.
      { apply best_split_down; unfold kFsMax, kPixelBits; lia. }
      by destruct Hdown as (? & ? & ?).
Qed.
End best_split.

(** ** Deltas *)

Section blocks.
Context (vbits : Z) (Hv : 32 <= vbits <= 64) (native : endian) (t : dynamic_pixel_traits).
Context (Hu : 0 <= unused_lsb_count_ t).

Lemma wrapu_congr a b w : 0 <= w -> a mod 2 ^ w = b mod 2 ^ w -> wrapu w a = wrapu w b.
Proof. done. Qed.

Lemma wrapu_mod16 z : wrapu vbits z mod 2 ^ 16 = z mod 2 ^ 16.
Proof.
  unfold wrapu. replace (2 ^ vbits) with (2 ^ 16 * 2 ^ (vbits - 16)) by (rewrite <- Z.pow_add_r by lia; f_equal; lia).
  rewrite Z.rem_mul_r by lia. rewrite Z.mul_comm, Z.mod_add, Z.mod_mod by lia. done.
Qed.

Lemma kPixelMsb_test z : 0 <= z -> (Z.land z kPixelMsb =? 0) = (z mod 2 ^ 16 <? 2 ^ 15).
Proof.
  intros Hz. change kPixelMsb with (2 ^ 15). 
  assert (Z.land z (2 ^ 15) = if Z.testbit z 15 then 2 ^ 15 else 0) as ->.
  { apply Z.bits_inj'. intros i Hi. rewrite Z.land_spec, Z.pow2_bits_eqb by lia.
    destruct (Z.eqb_spec 15 i) as [<-|]; [|rewrite andb_false_r; destruct (Z.testbit z 15); [|by rewrite Z.bits_0];
      rewrite Z.pow2_bits_eqb by lia; symmetry; apply Z.eqb_neq; lia].
    rewrite andb_true_r. by destruct (Z.testbit z 15). }
  rewrite Z.testbit_eqb by lia.
  pose proof (mod_pow2_app z 15 1 ltac:(lia) ltac:(lia)) as E. rewrite Z.shiftr_div_pow2 in E by lia.
  change (15 + 1) with 16 in E. change (2 ^ 1) with 2 in E. rewrite E.
  pose proof (mod_pow2_range z 15 ltac:(lia)). pose proof (Z.mod_pos_bound (z / 2 ^ 15) 2 ltac:(lia)).
  destruct (Z.eqb_spec ((z / 2 ^ 15) mod 2) 1); destruct (Z.ltb_spec (z mod 2 ^ 15 + (z / 2 ^ 15) mod 2 * 2 ^ 15) (2 ^ 15));
    try done; lia.
Qed.

(** The zig-zag image of the 16-bit difference. *)
Lemma pixel_delta_spec last pixel : let e := (pixel - last) mod 2 ^ 16 in
  pixel_delta vbits last pixel = if e <? 2 ^ 15 then 2 * e else 2 ^ 17 - 1 - 2 * e.
Proof.
  intros e. unfold pixel_delta.
  pose proof (wrapu_range vbits (pixel - last) ltac:(lia)) as Hr. unfold in_u in Hr.
  pose proof (wrapu_mod16 (pixel - last)) as E. fold e in E.
  rewrite kPixelMsb_test, E by lia. assert (0 <= e < 2 ^ 16) as He by (apply mod_pow2_range; lia).
  set (z := wrapu vbits (pixel - last)) in *. rewrite Z.shiftl_mul_pow2 by lia. change (2 ^ 1) with 2.
  pose proof (Z.div_mod z (2 ^ 16) ltac:(lia)) as Hz. rewrite E in Hz. unfold wrapu.
  destruct (Z.ltb_spec e (2 ^ 15)); cbn [negb].
  - symmetry. apply (Z.mod_unique_pos _ _ (2 * (z / 2 ^ 16))); lia.
  - unfold Z.lnot. symmetry. apply (Z.mod_unique_pos _ _ (- 2 * (z / 2 ^ 16) - 2)); lia.
Qed.

Lemma pixel_delta_u16 last pixel : in_u 16 (pixel_delta vbits last pixel).
Proof.
  unfold in_u. rewrite pixel_delta_spec. cbv zeta. pose proof (mod_pow2_range (pixel - last) 16 ltac:(lia)).
  destruct (Z.ltb_spec ((pixel - last) mod 2 ^ 16) (2 ^ 15)); lia.
Qed.

(** Adding a delta to a value congruent to the encoder's last pixel. *)
Lemma add_diff_delta last last' pixel : last' mod 2 ^ 16 = last mod 2 ^ 16 ->
  add_diff vbits last' (pixel_delta vbits last pixel) mod 2 ^ 16 = pixel mod 2 ^ 16.
Proof.
  intros Hl. unfold add_diff. rewrite wrapu_mod16.
  set (x := Z.lxor _ _). enough (wraps vbits x mod 2 ^ 16 = (pixel - last) mod 2 ^ 16) as E.
  { rewrite Z.add_mod, Hl, E, <- Z.add_mod by lia. f_equal. lia. }
  rewrite <- wrapu_mod16, wrapu_of_wraps, wrapu_mod16 by lia. unfold x.
  rewrite pixel_delta_spec. cbv zeta. pose proof (mod_pow2_range (pixel - last) 16 ltac:(lia)) as He.
  set (e := (pixel - last) mod 2 ^ 16) in *. 
  set (d := if e <? 2 ^ 15 then _ else _). change (Z.land d 1) with (Z.land d (2 ^ 1 - 1)).
  rewrite land_ones_mod, Z.shiftr_div_pow2 by lia. subst d. change (2 ^ 1) with 2.
  assert (2 ^ 32 <= 2 ^ vbits) by (apply Z.pow_le_mono_r; lia).
  destruct (Z.ltb_spec e (2 ^ 15)).
  - rewrite (Z.mul_comm 2), Z.mod_mul, Z.div_mul by lia. unfold wrapu. rewrite Z.mul_0_l, Z.mod_0_l by lia.
    rewrite Z.lxor_0_l. by apply Z.mod_small.
  - replace (2 ^ 17 - 1 - 2 * e) with (1 + (2 ^ 16 - 1 - e) * 2) by lia.
    rewrite Z.mod_add, Z.div_add by lia. change (1 mod 2) with 1. change (1 / 2) with 0.
    rewrite Z.mul_1_l, Z.add_0_l, wrapu_idemp by lia.
    assert (wrapu vbits (-1) = Z.ones vbits) as ->.
    { rewrite Z.ones_equiv. unfold wrapu. symmetry. apply (Z.mod_unique_pos _ _ (-1)); lia. }
    assert (0 <= 2 ^ 16 - 1 - e < 2 ^ 16) as Hc by lia. set (c := 2 ^ 16 - 1 - e) in *.
    assert (Z.lxor (Z.ones vbits) c = Z.ones vbits - c) as ->.
    {       rewrite Z.sub_nocarry_ldiff.
      - apply Z.bits_inj'. intros i Hi. rewrite Z.lxor_spec, Z.ldiff_spec.
        destruct (Z_lt_le_dec i vbits).
        + rewrite Z.ones_spec_low by lia. by destruct (Z.testbit c i).
        + rewrite Z.ones_spec_high by lia. by rewrite (testbit_above 16 c) by lia.
      - apply Z.bits_inj'. intros i Hi. rewrite Z.ldiff_spec, Z.bits_0.
        destruct (Z_lt_le_dec i vbits).
        + rewrite Z.ones_spec_low by lia. apply andb_false_r.
        + by rewrite (testbit_above 16 c) by lia. }
    rewrite Z.ones_equiv. unfold c.
    replace (Z.pred (2 ^ vbits) - (2 ^ 16 - 1 - e)) with (e + (2 ^ (vbits - 16) - 1) * 2 ^ 16).
    + rewrite Z.mod_add by lia. by apply Z.mod_small.
    + rewrite Z.mul_sub_distr_r, <- Z.pow_add_r by lia. replace (vbits - 16 + 16) with vbits by lia. lia.
Qed.

(** ** The bits of a block *)

#[local] Abbreviation px := (traits_read native t).
#[local] Abbreviation pixel := (pixel_ok native t).

Fixpoint deltas (block : list Z) (last : Z) : list Z :=
  match block with
  | [] => []
  | b :: block => pixel_delta vbits last (px b) :: deltas block (px b)
  end.

Definition last_pixel (block : list Z) (last : Z) : Z := foldl (fun _ b => px b) last block.

Definition sum_list (l : list Z) : Z := foldr Z.add 0 l.

Lemma deltas_u16 block last : Forall (in_u 16) (deltas block last).
Proof. revert last. induction block; intros; constructor; [by apply pixel_delta_u16|done]. Qed.

Lemma length_deltas block last : length (deltas block last) = length block.
Proof. revert last. induction block; intros; simpl; congruence. Qed.

Lemma sum_list_bounds l : Forall (in_u 16) l -> 0 <= sum_list l <= 65535 * Z.of_nat (length l).
Proof. induction 1 as [|x l Hx _ IH]; simpl; unfold in_u in *; lia. Qed.

Lemma compute_deltas_spec block last sum : 0 <= sum -> sum + 65535 * Z.of_nat (length block) < 2 ^ 64 ->
  compute_deltas vbits native t block last sum =
  (deltas block last, sum + sum_list (deltas block last), last_pixel block last).
Proof.
  revert last sum. induction block as [|b block IH]; intros last sum Hs Hlt; simpl; [by rewrite Z.add_0_r|].
  pose proof (pixel_delta_u16 last (px b)) as Hd. unfold in_u in Hd. cbn [length] in Hlt.
  rewrite wrapu_small by (unfold in_u; lia). rewrite IH by lia.
  cbn [last_pixel foldl]. do 2 f_equal. lia.
Qed.

Definition rice_bits (fs d : Z) : list bool :=
  replicate (Z.to_nat (Z.shiftr d fs)) false ++ true :: bits (Z.to_nat fs) d.

Definition block_bits (block : list Z) (last : Z) : list bool :=
  let delta := deltas block last in
  if 0 <? sum_list delta then
    let '(fs, bits_used) := compute_best_split delta (sum_list delta) in
    if (fs <? kFsMax) && (bits_used <? kPixelBits * Z.of_nat (length block))
    then bits 4 (fs + 1) ++ concat (map (rice_bits fs) delta)
    else bits 4 15 ++ concat (map (bits 16) block)
  else bits 4 0.

Lemma write_rice_spec fs d w : writer_inv w -> in_u 16 d -> 0 <= fs ->
  writer_inv (write_rice fs d w) /\ written (write_rice fs d w) = written w ++ rice_bits fs d.
Proof.
  intros Hw Hd Hfs. unfold write_rice. destruct (shiftr_u16 d fs Hd Hfs) as [Htop _].
  set (w1 := if 0 <? _ then _ else w).
  assert (writer_inv w1 /\ written w1 = written w ++ replicate (Z.to_nat (Z.shiftr d fs)) false) as [Hw1 E1].
  { unfold w1. destruct (Z.ltb_spec 0 (Z.shiftr d fs)); [by apply write_bit_spec|].
    split; [done|]. replace (Z.to_nat _) with O by lia. by rewrite app_nil_r. }
  destruct (write_bit1_spec true w1 Hw1) as [Hw2 E2].
  destruct (write_bits_spec d fs _ Hw2 Hfs) as [Hw3 E3]. split; [done|].
  rewrite E3, E2, E1. unfold rice_bits. by rewrite <- !app_assoc.
Qed.

Lemma foldl_writes {A} (f : A -> bitstream_writer -> bitstream_writer) (g : A -> list bool) (P : A -> Prop) l w :
  (forall a w, writer_inv w -> P a -> writer_inv (f a w) /\ written (f a w) = written w ++ g a) ->
  writer_inv w -> Forall P l ->
  writer_inv (foldl (fun w a => f a w) w l) /\
  written (foldl (fun w a => f a w) w l) = written w ++ concat (map g l).
Proof.
  intros Hf Hw Hl. revert w Hw. induction Hl as [|a l Ha _ IH]; intros w Hw; simpl; [by rewrite app_nil_r|].
  destruct (Hf a w Hw Ha) as [Hw' E]. destruct (IH _ Hw') as [? ->]. split; [done|].
  by rewrite E, app_assoc.
Qed.

Lemma delta_ok_deltas block last : 0 < Z.of_nat (length block) <= kMaxBlockSize -> delta_ok (deltas block last).
Proof. intros Hl. split; [apply deltas_u16|]. by rewrite length_deltas. Qed.

Lemma mean_range l : 0 < Z.of_nat (length l) -> Forall (in_u 16) l ->
  0 <= sum_list l / Z.of_nat (length l) < 2 ^ 16.
Proof.
  intros Hl Hu16. apply sum_list_bounds in Hu16. split; [apply Z.div_pos; lia|].
  apply Z.div_lt_upper_bound; lia.
Qed.

Lemma encode_block_spec block w last : writer_inv w -> Forall (in_u 16) block ->
  0 < Z.of_nat (length block) <= kMaxBlockSize ->
  exists w', encode_block vbits native t block w last = (w', last_pixel block last) /\
    writer_inv w' /\ written w' = written w ++ block_bits block last.
Proof.
  intros Hw Hb Hlen. unfold encode_block, block_bits, kMaxBlockSize in *.
  rewrite compute_deltas_spec by lia. rewrite Z.add_0_l. eexists. split; [done|].
  change kFsBits with 4. destruct (Z.ltb_spec 0 (sum_list (deltas block last))).
  - pose proof (compute_best_split_spec (deltas block last) (delta_ok_deltas _ _ Hlen)
      (sum_list (deltas block last))) as Hs.
    destruct (compute_best_split _ _) as [fs bits_used]. cbn [fst snd] in Hs.
    destruct Hs as (_ & Hfs & _); [apply mean_range; [rewrite length_deltas; lia|apply deltas_u16]|].
    destruct (_ && _).
    + destruct (write_bits_spec (fs + 1) 4 w Hw ltac:(lia)) as [Hw1 E1].
      destruct (foldl_writes (write_rice fs) (rice_bits fs) (in_u 16) (deltas block last) _
        (fun d w' H1 H2 => write_rice_spec fs d w' H1 H2 (proj1 Hfs)) Hw1 (deltas_u16 _ _)) as [? ->].
      split; [done|]. by rewrite E1, <- app_assoc.
    + destruct (write_bits_spec (kFsMax + 1) 4 w Hw ltac:(lia)) as [Hw1 E1].
      destruct (foldl_writes (fun b => write_bits b kPixelBits) (bits 16) (in_u 16) block _
        (fun d w' H1 _ => write_bits_spec d 16 w' H1 ltac:(lia)) Hw1 Hb) as [? ->].
      split; [done|]. by rewrite E1, <- app_assoc.
  - by apply write_bits_spec.
Qed.

(** *** Decoding a block *)

Lemma rice_value fs d : in_u 16 d -> 0 <= fs <= 15 ->
  Z.lor (wrapu vbits (wrapu 64 (Z.shiftl (Z.shiftr d fs) fs))) (d mod 2 ^ fs) = d.
Proof.
  intros Hd Hfs. pose proof (shiftr_u16 d fs Hd ltac:(lia)) as [H0 H1].
  assert (2 ^ 32 <= 2 ^ vbits) by (apply Z.pow_le_mono_r; lia).
  rewrite !wrapu_small by (unfold in_u; rewrite ?Z.shiftl_mul_pow2 by lia; try (rewrite wrapu_small by (unfold in_u; lia)); lia).
  rewrite Z.lor_comm, lor_shiftl_add by (try apply mod_pow2_range; lia).
  rewrite Z.shiftr_div_pow2 by lia. pose proof (Z.div_mod d (2 ^ fs) ltac:(lia)). lia.
Qed.

Lemma read_rice_spec fs block last last' bs r : 0 <= fs <= 15 ->
  Forall pixel block -> last' mod 2 ^ 16 = last mod 2 ^ 16 ->
  ahead (concat (map (rice_bits fs) (deltas block last)) ++ bs) r ->
  exists l' r', read_rice vbits native t fs (length block) last' r = (Ok (block, l'), r') /\
    l' mod 2 ^ 16 = last_pixel block last mod 2 ^ 16 /\ ahead bs r'.
Proof.
  intros Hfs Hb. revert last last' r. induction Hb as [|b block Hb _ IH]; intros last last' r Hl Ha.
  { by exists last', r. }
  cbn [deltas map concat] in Ha. unfold rice_bits at 1 in Ha. rewrite <- !app_assoc in Ha. cbn [app] in Ha.
  pose proof (pixel_delta_u16 last (px b)) as Hd.
  destruct (shiftr_u16 _ fs Hd ltac:(lia)) as [Htop _].
  cbn [length read_rice]. destruct (find_first_set_spec _ _ _ Ha) as (r1 & E1 & Ha1).
  erewrite abind_ok by exact E1. rewrite Z2Nat.id by done.
  destruct (read_bits_spec vbits fs _ _ _ Ha1) as (r2 & E2 & Ha2); [lia|].
  erewrite abind_ok by exact E2. rewrite rice_value by done.
  set (l1 := add_diff vbits last' _).
  assert (l1 mod 2 ^ 16 = px b mod 2 ^ 16) as Hl1 by (by apply add_diff_delta).
  destruct (IH (px b) l1 r2 Hl1 Ha2) as (l2 & r3 & E3 & Hl2 & Ha3).
  erewrite abind_ok by exact E3. exists l2, r3. split_and!; [|done|done].
  unfold ret. do 3 f_equal. unfold wrapu. rewrite Hl1.
  rewrite Z.mod_small by (apply traits_read_u16; [done|apply Hb]). f_equal. by apply traits_write_read.
Qed.

Lemma read_plain_spec block bs r : Forall (in_u 16) block -> ahead (concat (map (bits 16) block) ++ bs) r ->
  exists r', readA (let! b := read_bits vbits kPixelBits in ret (wrapu 16 b)) (length block) r = (Ok block, r') /\
    ahead bs r'.
Proof.
  intros Hb. revert r. induction Hb as [|b block Hb _ IH]; intros r Ha; [by exists r|].
  cbn [map concat] in Ha. rewrite <- app_assoc in Ha. cbn [length readA].
  destruct (read_bits_spec vbits 16 b _ r Ha) as (r1 & E1 & Ha1); [lia|].
  destruct (IH r1 Ha1) as (r2 & E2 & Ha2). exists r2. split; [|done].
  rewrite abind_assoc. erewrite abind_ok by exact E1. rewrite abind_ret. erewrite abind_ok by exact E2.
  unfold ret. do 3 f_equal. rewrite Z.mod_small by done. by apply wrapu_small.
Qed.

Lemma deltas_zero block last : sum_list (deltas block last) <= 0 -> in_u 16 last -> Forall pixel block ->
  map px block = replicate (length block) last /\ last_pixel block last = last.
Proof.
  intros Hs Hl Hb. revert last Hs Hl. induction Hb as [|b block Hb _ IH]; intros last Hs Hl; [done|].
  cbn [deltas sum_list foldr] in Hs. fold (sum_list (deltas block (px b))) in Hs.
  pose proof (pixel_delta_u16 last (px b)) as Hd. unfold in_u in Hd.
  pose proof (sum_list_bounds _ (deltas_u16 block (px b))).
  assert (pixel_delta vbits last (px b) = 0) as Hz by lia.
  assert (in_u 16 (px b)) as Hp by (apply traits_read_u16; [done|apply Hb]).
  assert (px b = last) as E.
  { rewrite pixel_delta_spec in Hz. cbv zeta in Hz. pose proof (mod_pow2_range (px b - last) 16 ltac:(lia)).
    assert ((px b - last) mod 2 ^ 16 = 0) as E by (destruct (Z.ltb_spec ((px b - last) mod 2 ^ 16) (2 ^ 15)); lia).
    apply Z.mod_divide in E as [q E]; [|lia]. unfold in_u in *. assert (q = 0) by nia. lia. }
  rewrite E in *. destruct (IH last) as [Em El]; [lia|done|].
  unfold last_pixel in *. cbn [map length replicate foldl]. by rewrite E, Em, El.
Qed.

Lemma last_pixel_last block x : block <> [] -> last_pixel block x = px (default 0 (last block)).
Proof.
  intros Hne. destruct block as [|b0 block _] using rev_ind; [done|].
  unfold last_pixel. by rewrite foldl_app, last_snoc.
Qed.

Lemma last_pixel_u16 block last : in_u 16 last -> Forall (in_u 16) block -> in_u 16 (last_pixel block last).
Proof.
  intros Hl Hb. revert last Hl. induction Hb as [|b block Hb _ IH]; intros last Hl; [done|].
  apply IH. by apply traits_read_u16.
Qed.

Lemma decode_block_spec block last last' bs r : 0 < Z.of_nat (length block) <= kMaxBlockSize ->
  Forall pixel block -> in_u 16 last -> last' mod 2 ^ 16 = last mod 2 ^ 16 ->
  ahead (block_bits block last ++ bs) r ->
  exists l' r', decode_block vbits native t (length block) last' r = (Ok (block, l'), r') /\
    l' mod 2 ^ 16 = last_pixel block last mod 2 ^ 16 /\ ahead bs r'.
Proof.
  intros Hlen Hb Hl Hl' Ha. assert (Forall (in_u 16) block) as Hb16 by (eapply Forall_impl; [exact Hb|by intros ? []]).
  assert (forall x bs' r, 0 <= x < 16 -> ahead (bits 4 x ++ bs') r ->
    exists r', read_bits vbits kFsBits r = (Ok x, r') /\ ahead bs' r') as Hread.
  { intros x bs' r0 Hx Ha0. destruct (read_bits_spec vbits 4 x bs' r0 Ha0) as (r' & E & ?); [lia|].
    exists r'. by rewrite Z.mod_small in E by lia. }
  unfold block_bits in Ha. unfold decode_block. destruct (Z.ltb_spec 0 (sum_list (deltas block last))) as [Hs|Hs].
  - pose proof (compute_best_split_spec (deltas block last) (delta_ok_deltas _ _ Hlen)
      (sum_list (deltas block last))) as Hsp.
    destruct (compute_best_split _ _) as [fs bits_used]. cbn [fst snd] in Hsp.
    destruct Hsp as (_ & Hfs & _); [apply mean_range; [rewrite length_deltas; lia|apply deltas_u16]|].
    destruct (Z.ltb_spec fs kFsMax) as [Hmax|Hmax]; cbn [andb] in Ha; [destruct (_ <? _)|]; rewrite <- app_assoc in Ha.
    + destruct (Hread (fs + 1) _ _ ltac:(unfold kFsMax, kPixelBits in *; lia) Ha) as (r1 & E1 & Ha1). erewrite abind_ok by exact E1.
      destruct (Z.ltb_spec 0 (fs + 1)); [|lia]. destruct (Z.leb_spec (fs + 1) kFsMax); [|lia].
      replace (fs + 1 - 1) with fs by lia. by apply (read_rice_spec fs block last).
    + destruct (Hread 15 _ _ ltac:(unfold kFsMax, kPixelBits in *; lia) Ha) as (r1 & E1 & Ha1). erewrite abind_ok by exact E1. cbn [Z.ltb Z.compare].
      change (15 <=? kFsMax) with false. cbv iota. destruct (read_plain_spec _ _ _ Hb16 Ha1) as (r2 & E2 & Ha2).
      erewrite abind_ok by exact E2. eexists _, r2. split_and!; [done| |done].
      rewrite last_pixel_last; [done|]. by intros ->.
    + destruct (Hread 15 _ _ ltac:(unfold kFsMax, kPixelBits in *; lia) Ha) as (r1 & E1 & Ha1). erewrite abind_ok by exact E1. cbn [Z.ltb Z.compare].
      change (15 <=? kFsMax) with false. cbv iota. destruct (read_plain_spec _ _ _ Hb16 Ha1) as (r2 & E2 & Ha2).
      erewrite abind_ok by exact E2. eexists _, r2. split_and!; [done| |done].
      rewrite last_pixel_last; [done|]. by intros ->.
  - destruct (Hread 0 _ _ ltac:(unfold kFsMax, kPixelBits in *; lia) Ha) as (r1 & E1 & Ha1). erewrite abind_ok by exact E1. cbn [Z.ltb Z.compare].
    destruct (deltas_zero block last Hs Hl Hb) as [E El].
    exists last', r1. split_and!; [|by rewrite El|done].
    unfold ret. do 3 f_equal. unfold wrapu. rewrite Hl', Z.mod_small by apply Hl.
    clear -E Hb Hu. revert E. induction Hb as [|b block Hb _ IH]; intros E; [done|].
    cbn [length replicate map] in *. injection E as Eb E. rewrite IH by done. f_equal.
    rewrite <- Eb. by apply traits_write_read.
Qed.

(** A block never takes more than its plain encoding. *)
Lemma block_bits_bound block last : 0 < Z.of_nat (length block) <= kMaxBlockSize ->
  Z.of_nat (length (block_bits block last)) <= kFsBits + kPixelBits * Z.of_nat (length block).
Proof.
  intros Hlen. unfold block_bits. change kFsBits with 4. unfold kPixelBits.
  assert (forall l, length (concat (map (bits 16) l)) = (16 * length l)%nat) as Hplain.
  { induction l as [|x l IH]; [done|]. cbn [map concat]. rewrite length_app, length_bits, IH. simpl. lia. }
  destruct (Z.ltb_spec 0 (sum_list (deltas block last))) as [Hs|Hs]; [|rewrite length_bits; lia].
  pose proof (compute_best_split_spec (deltas block last) (delta_ok_deltas _ _ Hlen)
      (sum_list (deltas block last))) as Hsp.
  destruct (compute_best_split _ _) as [fs bits_used]. cbn [fst snd] in Hsp.
  destruct Hsp as (Hcost & Hfs & _); [apply mean_range; [rewrite length_deltas; lia|apply deltas_u16]|].
  destruct (fs <? kFsMax); cbn [andb].
  - destruct (Z.ltb_spec bits_used (16 * Z.of_nat (length block))); rewrite length_app, length_bits; [|rewrite Hplain; lia].
    enough (Z.of_nat (length (concat (map (rice_bits fs) (deltas block last)))) = split_cost (deltas block last) fs) by lia.
    unfold split_cost. clear -Hfs Hv. pose proof (deltas_u16 block last) as Hd.
    induction Hd as [|d l Hd _ IH]; [done|]. cbn [map concat]. unfold rice_bits at 1.
    rewrite !length_app, length_replicate. cbn [length unary_bits foldr] in *. fold (unary_bits l).
    rewrite length_bits. destruct (shiftr_u16 d fs Hd ltac:(lia)). unfold unary_bits in *. lia.
  - rewrite length_app, length_bits, Hplain. lia.
Qed.
End blocks.

(** ** Chunks and strides *)

Lemma chunk_fuel_irrel f1 f2 n l : (0 < n)%nat -> (length l <= f1)%nat -> (length l <= f2)%nat ->
  chunk_fuel f1 n l = chunk_fuel f2 n l.
Proof.
  intros Hn. revert f2 l. induction f1 as [|f1 IH]; intros [|f2] l H1 H2; try (destruct l; simpl in *; done || lia).
  cbn [chunk_fuel]. case_bool_decide as Hl; [done|]. f_equal.
  assert (length l <> 0)%nat by (by destruct l). apply IH; rewrite length_drop; lia.
Qed.

Lemma chunk_nil n : chunk n [] = [].
Proof. done. Qed.

Lemma chunk_step n l : (0 < n)%nat -> l <> [] -> chunk n l = take n l :: chunk n (drop n l).
Proof.
  intros Hn Hl. unfold chunk. destruct l as [|x l']; [done|]. set (l := x :: l') in *.
  change (length l) with (S (length l')). cbn [chunk_fuel]. rewrite bool_decide_eq_false_2 by done. f_equal.
  apply chunk_fuel_irrel; [done|rewrite length_drop; subst l; simpl; lia|done].
Qed.

(** Induction on the chunks of a range of [k * m] elements. *)
Lemma chunk_ind (k bs : nat) (P : nat -> list Z -> list (list Z) -> Prop) :
  (0 < k)%nat -> (0 < bs)%nat -> P O [] [] ->
  (forall m c l, (length c = k * Nat.min (S m) bs)%nat -> (length l = k * (S m - bs))%nat ->
    P (S m - bs)%nat l (chunk (k * bs) l) -> P (S m) (c ++ l) (c :: chunk (k * bs) l)) ->
  forall m l, length l = (k * m)%nat -> P m l (chunk (k * bs) l).
Proof.
  intros Hk Hbs H0 HS m. induction (lt_wf m) as [m _ IH]. intros l Hl.
  destruct m as [|m]; [destruct l; [done|simpl in *; lia]|].
  assert (l <> []) by (intros ->; simpl in *; lia). rewrite chunk_step by (done || lia).
  assert (length (drop (k * bs) l) = k * (S m - bs))%nat as Hd by (rewrite length_drop; nia).
  rewrite <- (take_drop (k * bs) l) at 1. apply HS; [rewrite length_take; nia|done|].
  apply IH; [lia|done].
Qed.

Definition chunk_ok (k bs : nat) (c : list Z) : Prop :=
  exists m, length c = (k * m)%nat /\ (0 < m <= bs)%nat.

Section chunk_facts.
Context (k bs : nat) (Hk : (0 < k)%nat) (Hbs : (0 < bs)%nat) (m : nat) (l : list Z) (Hl : length l = (k * m)%nat).

Lemma concat_chunk : concat (chunk (k * bs) l) = l.
Proof.
  revert m l Hl. apply (chunk_ind k bs (fun _ l c => concat c = l)); [done..|].
  intros m c l _ _ E. cbn [concat]. by rewrite E.
Qed.

Lemma chunks_ok : Forall (chunk_ok k bs) (chunk (k * bs) l).
Proof.
  revert m l Hl. apply (chunk_ind k bs (fun _ _ c => Forall (chunk_ok k bs) c)); [done..|].
  intros m c l Hc _ IH. constructor; [|done]. exists (Nat.min (S m) bs). split; [done|lia].
Qed.

Lemma chunks_count : Z.of_nat (length (chunk (k * bs) l)) = (Z.of_nat m + Z.of_nat bs - 1) / Z.of_nat bs.
Proof.
  revert m l Hl. apply (chunk_ind k bs (fun m _ c => Z.of_nat (length c) = (Z.of_nat m + Z.of_nat bs - 1) / Z.of_nat bs)); [done..| |].
  - symmetry. apply Z.div_small. lia.
  - intros m c l _ _ IH. cbn [length]. rewrite Nat2Z.inj_succ, IH. destruct (Nat.le_gt_cases bs (S m)).
    + rewrite Nat2Z.inj_sub by lia. rewrite <- Z.add_1_r, <- (Z.div_add _ 1) by lia. f_equal. lia.
    + replace (S m - bs)%nat with O by lia. rewrite Z.div_small by lia.
      apply (Z.div_unique _ _ _ (Z.of_nat m)); lia.
Qed.
End chunk_facts.

Lemma chunk_same_length n a b : (0 < n)%nat -> length a = length b ->
  Forall2 (fun x y : list Z => length x = length y) (chunk n a) (chunk n b).
Proof.
  intros Hn. remember (length a) as len eqn:E. revert a b E. induction (lt_wf len) as [len _ IH].
  intros a b Ea Eb. destruct a as [|x a]; [by destruct b; simplify_eq/=|].
  destruct b as [|y b]; [simplify_eq/=|]. rewrite (chunk_step n (x :: a)), (chunk_step n (y :: b)) by done.
  constructor; [rewrite !length_take; lia|]. apply (IH (len - n)%nat); rewrite ?length_drop; simpl in *; lia.
Qed.

Section stride.
Context (k m : nat) (Hk : (0 < k)%nat).

Lemma length_stride i l : length l = (k * m)%nat -> (i < k)%nat -> length (stride k (drop i l)) = m.
Proof.
  intros Hl Hi. unfold stride. rewrite length_map, length_seq, length_drop, Hl.
  destruct m as [|m']; [apply Nat.div_small; lia|].
  symmetry. apply (Nat.div_unique _ _ _ (k - 1 - i)); nia.
Qed.

Lemma nth_stride i l q d : length l = (k * m)%nat -> (i < k)%nat -> (q < m)%nat ->
  nth q (stride k (drop i l)) d = nth (i + q * k) l 0.
Proof.
  intros Hl Hi Hq. pose proof (length_stride i l Hl Hi) as Hlen. unfold stride in *.
  rewrite length_map, length_seq in Hlen. rewrite Hlen.
  rewrite (nth_indep _ d (nth (0 * k) (drop i l) 0)) by (by rewrite length_map, length_seq).
  rewrite (map_nth (fun j => nth (j * k) (drop i l) 0)), seq_nth by done.
  rewrite !nth_lookup, lookup_drop. done.
Qed.

Lemma Forall_stride (P : Z -> Prop) i l : length l = (k * m)%nat -> (i < k)%nat -> Forall P l ->
  Forall P (stride k (drop i l)).
Proof.
  intros Hl Hi HP. apply Forall_forall. intros x Hx. apply list_elem_of_In, (In_nth _ _ 0) in Hx as (q & Hq & <-).
  rewrite length_stride in Hq by done. rewrite nth_stride by done.
  apply Forall_lookup_1 with (i := (i + q * k)%nat) (l := l); [done|].
  apply lookup_nth. nia.
Qed.

(** Storing the stream [i] of [l] into an array of the same length. *)
Lemma store_stride_lookup i l pixels j : length l = (k * m)%nat -> length pixels = length l -> (i < k)%nat ->
  store_stride k i (stride k (drop i l)) pixels !! j =
  if decide (j `mod` k = i)%nat then l !! j else pixels !! j.
Proof.
  intros Hl Hp Hi. unfold store_stride. rewrite list_lookup_imap.
  destruct (pixels !! j) as [old|] eqn:E; simpl.
  - apply lookup_lt_Some in E as Hj. case_decide as Hm; [|done].
    pose proof (Nat.div_mod_eq j k). assert (j / k < m)%nat by (apply Nat.Div0.div_lt_upper_bound; lia).
    rewrite nth_stride by done. replace (i + j / k * k)%nat with j by lia. symmetry. apply lookup_nth. lia.
  - apply lookup_ge_None in E. case_decide; [|done]. symmetry. apply lookup_ge_None. lia.
Qed.

Lemma length_store_stride i vals pixels : length (store_stride k i vals pixels) = length pixels.
Proof. apply length_imap. Qed.
End stride.

Lemma stride_1 l : stride 1 (drop 0 l) = l.
Proof.
  unfold stride. rewrite drop_0. replace ((length l + 1 - 1) / 1)%nat with (length l) by (rewrite Nat.div_1_r; lia).
  apply list_eq. intros j. rewrite list_lookup_fmap. destruct (decide (j < length l)%nat).
  - rewrite lookup_seq_lt by done. simpl. rewrite Nat.mul_1_r. symmetry. by apply lookup_nth.
  - rewrite lookup_seq_ge, (lookup_ge_None_2 l) by lia. done.
Qed.

(** ** The component streams *)

Section codec_lemmas.
Context (vbits : Z) (Hv : 32 <= vbits <= 64) (native : endian) (t : dynamic_pixel_traits).
Context (Hu : 0 <= unused_lsb_count_ t).
Context (k bs : nat) (Hk : (0 < k)%nat) (Hbs : (0 < bs)%nat) (Hmax : Z.of_nat bs <= kMaxBlockSize).

#[local] Abbreviation pixel := (pixel_ok native t).
#[local] Abbreviation component i l := (stride k (drop i l)).
#[local] Abbreviation next block x := (last_pixel native t block x).
#[local] Abbreviation bbits := (block_bits vbits native t).

Fixpoint comps_bits (comps : list nat) (pixels lasts : list Z) : list bool * list Z :=
  match comps with
  | [] => ([], lasts)
  | i :: comps =>
      let '(b, l) := comps_bits comps pixels (<[i := next (component i pixels) (nth i lasts 0)]> lasts) in
      (bbits (component i pixels) (nth i lasts 0) ++ b, l)
  end.

Fixpoint chunks_bits (chunks : list (list Z)) (lasts : list Z) : list bool :=
  match chunks with
  | [] => []
  | c :: chunks => let '(b, l) := comps_bits (seq 0 k) c lasts in b ++ chunks_bits chunks l
  end.

Definition lasts_ok (lasts : list Z) : Prop := length lasts = k /\ Forall (in_u 16) lasts.

Lemma pixel_u16 l : Forall pixel l -> Forall (in_u 16) l.
Proof. intros H. eapply Forall_impl; [exact H|]. by intros ? []. Qed.

Lemma lasts_ok_nth lasts i : lasts_ok lasts -> (i < k)%nat -> in_u 16 (nth i lasts 0).
Proof.
  intros [Hl Hf] Hi. eapply Forall_lookup_1; [exact Hf|]. apply lookup_nth. lia.
Qed.

Lemma component_ok c i : chunk_ok k bs c -> Forall pixel c -> (i < k)%nat ->
  0 < Z.of_nat (length (component i c)) <= kMaxBlockSize /\ Forall pixel (component i c).
Proof.
  intros (m & Hc & Hm) Hp Hi. split; [rewrite (length_stride k m) by done; lia|].
  by apply (Forall_stride k m).
Qed.

Lemma lasts_ok_insert lasts c i : chunk_ok k bs c -> Forall pixel c -> (i < k)%nat -> lasts_ok lasts ->
  lasts_ok (<[i := next (component i c) (nth i lasts 0)]> lasts).
Proof.
  intros Hc Hp Hi Hl. pose proof (lasts_ok_nth lasts i Hl Hi). destruct Hl as [Hlen Hf].
  split; [by rewrite length_insert|]. apply Forall_insert; [done|].
  apply last_pixel_u16; [done..|]. by apply pixel_u16, component_ok.
Qed.

Lemma comps_bits_ok comps c lasts : chunk_ok k bs c -> Forall pixel c -> Forall (fun i => (i < k)%nat) comps ->
  lasts_ok lasts -> lasts_ok (comps_bits comps c lasts).2.
Proof.
  intros Hc Hp Hcomps. revert lasts. induction Hcomps as [|i comps Hi _ IH]; intros lasts Hl; [done|].
  cbn [comps_bits]. specialize (IH _ (lasts_ok_insert _ _ _ Hc Hp Hi Hl)).
  by destruct (comps_bits _ _ _).
Qed.

Lemma comps_lt : Forall (fun i => (i < k)%nat) (seq 0 k).
Proof. apply Forall_seq. lia. Qed.

(** *** Encoding *)

Lemma encode_comps_spec comps c w lasts : chunk_ok k bs c -> Forall pixel c -> Forall (fun i => (i < k)%nat) comps ->
  lasts_ok lasts -> writer_inv w ->
  exists w', foldl (fun '(w, last_value) i =>
      let '(w, last) := encode_block vbits native t (component i c) w (nth i last_value 0) in
      (w, <[i := last]> last_value)) (w, lasts) comps = (w', (comps_bits comps c lasts).2) /\
    writer_inv w' /\ written w' = written w ++ (comps_bits comps c lasts).1.
Proof.
  intros Hc Hp Hcomps. revert w lasts. induction Hcomps as [|i comps Hi _ IH]; intros w lasts Hl Hw.
  { exists w. by rewrite app_nil_r. }
  cbn [foldl comps_bits]. destruct (component_ok c i Hc Hp Hi) as [Hlen Hpi].
  destruct (encode_block_spec vbits Hv native t (component i c) w (nth i lasts 0)) as (w1 & -> & Hw1 & E1);
    [done|by apply pixel_u16|done|].
  destruct (IH w1 _ (lasts_ok_insert _ _ _ Hc Hp Hi Hl) Hw1) as (w2 & -> & Hw2 & E2).
  destruct (comps_bits comps c _) as [b l]. cbn [fst snd] in *.
  exists w2. split_and!; [done|done|]. by rewrite E2, E1, <- app_assoc.
Qed.

Lemma encode_chunks_spec chunks w lasts : Forall (chunk_ok k bs) chunks -> Forall (Forall pixel) chunks ->
  lasts_ok lasts -> writer_inv w ->
  let w' := (foldl (fun s c => encode_chunk vbits native t k c s) (w, lasts) chunks).1 in
  writer_inv w' /\ written w' = written w ++ chunks_bits chunks lasts.
Proof.
  intros Hc. revert w lasts. induction Hc as [|c chunks Hc _ IH]; intros w lasts Hp Hl Hw; cbv zeta in *; cbn [foldl].
  { by rewrite app_nil_r. }
  apply Forall_cons in Hp as [Hpc Hp].
  destruct (encode_comps_spec (seq 0 k) c w lasts Hc Hpc comps_lt Hl Hw) as (w1 & E & Hw1 & E1).
  assert (encode_chunk vbits native t k c (w, lasts) = (w1, (comps_bits (seq 0 k) c lasts).2)) as -> by exact E.
  pose proof (comps_bits_ok (seq 0 k) c lasts Hc Hpc comps_lt Hl) as Hl1.
  cbn [chunks_bits]. destruct (comps_bits (seq 0 k) c lasts) as [b l]. cbn [fst snd] in *.
  destruct (IH w1 l Hp Hl1 Hw1) as [? ->]. split; [done|]. by rewrite E1, <- app_assoc.
Qed.

(** *** Decoding *)

Definition congr16 (a b : Z) : Prop := a mod 2 ^ 16 = b mod 2 ^ 16.

Lemma decode_comps_spec comps c cur lasts lasts' rest r : chunk_ok k bs c -> Forall pixel c ->
  Forall (fun i => (i < k)%nat) comps -> lasts_ok lasts -> Forall2 congr16 lasts' lasts -> length cur = length c ->
  ahead ((comps_bits comps c lasts).1 ++ rest) r ->
  exists cur' l' r', decode_components vbits native t k comps cur lasts' r = (Ok (cur', l'), r') /\
    Forall2 congr16 l' (comps_bits comps c lasts).2 /\ length cur' = length c /\
    (forall j, cur' !! j = if decide ((j `mod` k)%nat ∈ comps) then c !! j else cur !! j) /\ ahead rest r'.
Proof.
  intros Hc Hp Hcomps. revert cur lasts lasts' r.
  induction Hcomps as [|i comps Hi _ IH]; intros cur lasts lasts' r Hl Hl' Hcur Ha.
  { exists cur, lasts', r. by split_and!. }
  destruct (component_ok c i Hc Hp Hi) as [Hlen Hpi]. pose proof Hc as (m & Hcm & Hm).
  pose proof (lasts_ok_insert lasts c i Hc Hp Hi Hl) as Hl1.
  cbn [comps_bits decode_components] in *.
  assert (length (component i cur) = length (component i c)) as -> by (rewrite !(length_stride k m) by (done || congruence); done).
  destruct (comps_bits comps c _) as [b lf] eqn:Eb. cbn [fst snd] in Ha. rewrite <- app_assoc in Ha.
  assert (congr16 (nth i lasts' 0) (nth i lasts 0)) as Hcongr.
  { eapply Forall2_lookup_lr; [exact Hl'|apply lookup_nth..]; [|destruct Hl; lia].
    apply Forall2_length in Hl'. destruct Hl. lia. }
  destruct (decode_block_spec vbits Hv native t Hu (component i c) (nth i lasts 0) (nth i lasts' 0) (b ++ rest) r)
    as (x & r1 & E1 & Hx & Ha1); [done|done|by apply lasts_ok_nth|done|done|].
  erewrite abind_ok by exact E1.
  destruct (IH (store_stride k i (component i c) cur) _ (<[i := x]> lasts') r1 Hl1) as (cur' & l' & r' & -> & Hl2 & Hlen' & Hj & Ha2).
  - by apply Forall2_insert.
  - by rewrite length_store_stride.
  - by rewrite Eb.
  - rewrite Eb in Hl2. exists cur', l', r'. split_and!; try done. intros j. rewrite Hj.
    rewrite (store_stride_lookup k m) by done.
    destruct (decide (j `mod` k ∈ i :: comps)%nat) as [Hin|Hin]; rewrite elem_of_cons in Hin; repeat case_decide; try done; tauto.
Qed.

Lemma decode_comps_all c cur lasts lasts' rest r : chunk_ok k bs c -> Forall pixel c ->
  lasts_ok lasts -> Forall2 congr16 lasts' lasts -> length cur = length c ->
  ahead ((comps_bits (seq 0 k) c lasts).1 ++ rest) r ->
  exists l' r', decode_components vbits native t k (seq 0 k) cur lasts' r = (Ok (c, l'), r') /\
    Forall2 congr16 l' (comps_bits (seq 0 k) c lasts).2 /\ ahead rest r'.
Proof.
  intros Hc Hp Hl Hl' Hcur Ha.
  destruct (decode_comps_spec (seq 0 k) c cur lasts lasts' rest r) as (cur' & l' & r' & E & ? & ? & Hj & ?);
    try done; [apply comps_lt|].
  exists l', r'. split_and!; [|done|done]. rewrite E. do 3 f_equal. apply list_eq. intros j. rewrite Hj.
  rewrite decide_True; [done|]. apply elem_of_seq. pose proof (Nat.mod_upper_bound j k). lia.
Qed.

Lemma decode_chunks_spec chunks curs lasts lasts' rest r : Forall (chunk_ok k bs) chunks ->
  Forall (Forall pixel) chunks -> Forall2 (fun x y : list Z => length x = length y) chunks curs ->
  lasts_ok lasts -> Forall2 congr16 lasts' lasts -> ahead (chunks_bits chunks lasts ++ rest) r ->
  exists r', decode_chunks vbits native t k curs lasts' r = (Ok (concat chunks), r') /\ ahead rest r'.
Proof.
  intros Hc Hp Hcur. revert lasts lasts' r.
  induction Hcur as [|c cur chunks curs Hlen _ IH]; intros lasts lasts' r Hl Hl' Ha; [by exists r|].
  apply Forall_cons in Hc as [Hc Hcs]. apply Forall_cons in Hp as [Hp Hps].
  pose proof (comps_bits_ok (seq 0 k) c lasts Hc Hp comps_lt Hl) as Hl1.
  cbn [chunks_bits decode_chunks concat] in *.
  destruct (comps_bits (seq 0 k) c lasts) as [b l] eqn:Eb. rewrite <- app_assoc in Ha.
  destruct (decode_comps_all c cur lasts lasts' (chunks_bits chunks l ++ rest) r) as (l' & r1 & E1 & Hl2 & Ha1);
    try done; [by rewrite Eb|].
  erewrite abind_ok by exact E1. rewrite Eb in Hl2. cbn [fst snd] in *.
  destruct (IH Hcs Hps l l' r1 Hl1 Hl2 Ha1) as (r2 & E2 & Ha2).
  erewrite abind_ok by exact E2. by exists r2.
Qed.

(** *** Whole images *)

Definition image_ok (input : list Z) : Prop :=
  (exists m, length input = (k * m)%nat /\ (0 < m)%nat) /\ Forall pixel input.

Definition first_pixels (input : list Z) : list Z := map (fun i => traits_read native t (nth i input 0)) (seq 0 k).

(** The bits of an encoded image. *)
Definition image_bits (input : list Z) : list bool :=
  concat (map (bits 16) (first_pixels input)) ++ chunks_bits (chunk (k * bs) input) (first_pixels input).

Lemma first_pixels_ok input : image_ok input -> lasts_ok (first_pixels input).
Proof.
  intros [(m & Hm & Hm0) Hp]. unfold lasts_ok, first_pixels.
  split; [by rewrite length_map, length_seq|].
  apply Forall_map, Forall_seq. intros i Hi. apply traits_read_u16; [done|].
  eapply Forall_lookup_1; [by apply pixel_u16|]. apply lookup_nth. nia.
Qed.

Lemma chunks_pixels input : image_ok input ->
  Forall (chunk_ok k bs) (chunk (k * bs) input) /\ Forall (Forall pixel) (chunk (k * bs) input) /\
  concat (chunk (k * bs) input) = input.
Proof.
  intros [(m & Hm & Hm0) Hp]. pose proof (concat_chunk k bs Hk Hbs m input Hm) as E.
  split_and!; [by eapply chunks_ok| |done]. apply Forall_concat. by rewrite E.
Qed.

Lemma encode_single_multi input w : k = 1%nat ->
  encode_single vbits native t bs input w = encode_multi vbits native t k bs input w.
Proof.
  intros ->. unfold encode_single, encode_multi. cbn [seq map foldl]. rewrite Nat.mul_1_l.
  generalize (traits_read native t (nth 0 input 0)). intros x. generalize (write_bits x kPixelBits w). revert x.
  induction (chunk bs input) as [|c chunks IH]; intros x w1; [done|]. cbn [foldl].
  unfold encode_chunk at 2. cbn [seq foldl nth]. rewrite stride_1.
  destruct (encode_block vbits native t c w1 x) as [w' x']. cbn [list_insert insert]. apply IH.
Qed.

Lemma encode_spec input : image_ok input ->
  let w := encode vbits native t k bs input (bitstream_writer_init []) in
  Forall is_byte (out w) /\
  (exists pad, bytes_bits (out w) = image_bits input ++ replicate pad false) /\
  Z.of_nat (length (out w)) = (Z.of_nat (length (image_bits input)) + 7) / 8.
Proof.
  intros Hi. unfold encode. cbv zeta.
  assert ((if decide (k = 1%nat) then encode_single vbits native t bs input (bitstream_writer_init [])
           else encode_multi vbits native t k bs input (bitstream_writer_init [])) =
          encode_multi vbits native t k bs input (bitstream_writer_init [])) as ->.
  { case_decide; [by apply encode_single_multi|done]. }
  destruct (chunks_pixels input Hi) as (Hc & Hp & _). pose proof (first_pixels_ok input Hi) as Hl.
  unfold encode_multi. fold (first_pixels input).
  assert (writer_inv (bitstream_writer_init [])) as Hw0 by (unfold writer_inv; simpl; split_and!; done || lia).
  destruct (foldl_writes (fun b => write_bits b kPixelBits) (bits 16) (in_u 16) (first_pixels input) _
    (fun d w' H1 _ => write_bits_spec d 16 w' H1 ltac:(lia)) Hw0 (proj2 Hl)) as [Hw1 E1].
  destruct (encode_chunks_spec _ _ _ Hc Hp Hl Hw1) as [Hw2 E2]. rewrite E1 in E2.
  apply flush_spec in Hw2. unfold image_bits. by rewrite E2 in Hw2.
Qed.

Lemma read_firsts lasts rest r : Forall (in_u 16) lasts -> ahead (concat (map (bits 16) lasts) ++ rest) r ->
  exists r', readA (read_bits vbits kPixelBits) (length lasts) r = (Ok lasts, r') /\ ahead rest r'.
Proof.
  intros Hl. revert r. induction Hl as [|x lasts Hx _ IH]; intros r Ha; [by exists r|].
  cbn [map concat length readA] in *. rewrite <- app_assoc in Ha.
  destruct (read_bits_spec vbits 16 x _ r Ha) as (r1 & E1 & Ha1); [lia|]. rewrite Z.mod_small in E1 by done.
  destruct (IH r1 Ha1) as (r2 & E2 & Ha2). exists r2. split; [|done].
  erewrite abind_ok by exact E1. by erewrite abind_ok by exact E2.
Qed.

Lemma decode_blocks_spec chunks curs x x' rest r : k = 1%nat -> Forall (chunk_ok k bs) chunks ->
  Forall (Forall pixel) chunks -> Forall2 (fun a b : list Z => length a = length b) chunks curs ->
  in_u 16 x -> congr16 x' x -> ahead (chunks_bits chunks [x] ++ rest) r ->
  exists r', decode_blocks vbits native t curs x' r = (Ok (concat chunks), r') /\ ahead rest r'.
Proof.
  intros Hk1 Hc Hp Hcur. revert x x' r.
  induction Hcur as [|c cur chunks curs Hlen _ IH]; intros x x' r Hx Hx' Ha; [by exists r|].
  apply Forall_cons in Hc as [(m & Hcm & Hm) Hcs]. apply Forall_cons in Hp as [Hp Hps].
  cbn [chunks_bits decode_blocks concat] in *. rewrite Hk1 in Hcm, Ha at 1. cbn [seq comps_bits nth] in Ha.
  rewrite Hk1, stride_1, app_nil_r, <- app_assoc in Ha. cbn [list_insert insert] in Ha. rewrite <- Hlen.
  destruct (decode_block_spec vbits Hv native t Hu c x x' (chunks_bits chunks [next c x] ++ rest) r) as (x1 & r1 & E1 & Hx1 & Ha1); [lia|done..|].
  erewrite abind_ok by exact E1.
  destruct (IH Hcs Hps (next c x) x1 r1) as (r2 & E2 & Ha2); try done.
  { apply last_pixel_u16; [done..|]. by apply pixel_u16. }
  erewrite abind_ok by exact E2. by exists r2.
Qed.

Lemma decode_spec input output r : image_ok input -> length output = length input -> ahead (image_bits input) r ->
  exists r', decode vbits native t k bs output r = (Ok input, r').
Proof.
  intros Hi Ho Ha. destruct (chunks_pixels input Hi) as (Hc & Hp & E). pose proof (first_pixels_ok input Hi) as [Hl1 Hl2].
  assert (Forall2 (fun a b : list Z => length a = length b) (chunk (k * bs) input) (chunk (k * bs) output)) as Hcur
    by (apply chunk_same_length; lia).
  unfold image_bits in Ha. rewrite <- (app_nil_r (chunks_bits _ _)) in Ha. unfold decode. case_decide as Hk1.
  - unfold decode_single. assert (k * bs = bs)%nat as Ekb by (rewrite Hk1; lia). rewrite Ekb in *.
    rewrite Hk1 in Hl1. destruct (first_pixels input) as [|x [|]]; try done.
    apply Forall_cons in Hl2 as [Hx _]. cbn [map concat] in Ha. rewrite app_nil_r in *.
    destruct (read_bits_spec vbits 16 x _ r Ha) as (r1 & E1 & Ha1); [lia|]. rewrite Z.mod_small in E1 by done.
    erewrite abind_ok by exact E1.
    rewrite app_nil_r in Ha1. rewrite <- (app_nil_r (chunks_bits _ _)) in Ha1.
    destruct (decode_blocks_spec (chunk bs input) (chunk bs output) x x [] r1) as (r2 & E2 & _); try done.
    rewrite E2, E. by exists r2.
  - unfold decode_multi. destruct (read_firsts _ _ _ Hl2 Ha) as (r1 & E1 & Ha1). rewrite Hl1 in E1.
    erewrite abind_ok by exact E1.
    destruct (decode_chunks_spec (chunk (k * bs) input) (chunk (k * bs) output) (first_pixels input)
      (first_pixels input) [] r1) as (r2 & E2 & _); try done.
    { apply Forall_Forall2_diag. by apply Forall_true. }
    rewrite E2, E. by exists r2.
Qed.

(** *** Size *)

Lemma comps_bits_bound m comps c lasts : length c = (k * m)%nat -> (0 < m <= bs)%nat ->
  Forall (fun i => (i < k)%nat) comps ->
  Z.of_nat (length (comps_bits comps c lasts).1) <= Z.of_nat (length comps) * (kFsBits + kPixelBits * Z.of_nat m).
Proof.
  intros Hc Hm Hcomps. revert lasts. induction Hcomps as [|i comps Hi _ IH]; intros lasts; [done|].
  cbn [comps_bits]. specialize (IH (<[i:=next (component i c) (nth i lasts 0)]> lasts)).
  destruct (comps_bits comps c _) as [b l]. cbn [fst length] in *. rewrite length_app.
  pose proof (length_stride k m Hk i c Hc Hi) as Hlen.
  pose proof (block_bits_bound vbits Hv native t (component i c) (nth i lasts 0)) as Hb.
  rewrite Hlen in Hb. specialize (Hb ltac:(lia)). lia.
Qed.

Lemma chunks_bits_bound m input lasts : length input = (k * m)%nat ->
  Z.of_nat (length (chunks_bits (chunk (k * bs) input) lasts)) <=
  Z.of_nat k * (kFsBits * Z.of_nat (length (chunk (k * bs) input)) + kPixelBits * Z.of_nat m).
Proof.
  intros Hm. revert lasts. revert m input Hm.
  apply (chunk_ind k bs (fun m _ cs => forall lasts, Z.of_nat (length (chunks_bits cs lasts)) <=
    Z.of_nat k * (kFsBits * Z.of_nat (length cs) + kPixelBits * Z.of_nat m))); [done..| |].
  - intros lasts. simpl. lia.
  - intros m c l Hc Hl IH lasts. cbn [chunks_bits length].
    pose proof (comps_bits_bound (Nat.min (S m) bs) (seq 0 k) c lasts Hc ltac:(lia) comps_lt) as Hb.
    destruct (comps_bits (seq 0 k) c lasts) as [b l']. cbn [fst] in Hb. rewrite length_seq in Hb.
    specialize (IH l'). rewrite length_app. change kFsBits with 4 in *. unfold kPixelBits in *. nia.
Qed.

Lemma image_bits_bound input : image_ok input ->
  Z.of_nat (length (image_bits input)) <= worst_case_bit_count k bs (Z.of_nat (length input)).
Proof.
  intros [(m & Hm & Hm0) Hp]. unfold image_bits, worst_case_bit_count. rewrite length_app.
  pose proof (chunks_bits_bound m input (first_pixels input) Hm) as Hb.
  rewrite (chunks_count k bs Hk Hbs m input Hm) in Hb.
  assert (forall l, length (concat (map (bits 16) l)) = (16 * length l)%nat) as Hplain.
  { induction l as [|x l IH]; [done|]. cbn [map concat]. rewrite length_app, length_bits, IH. simpl. lia. }
  rewrite Hplain. unfold first_pixels at 1. rewrite length_map, length_seq, Hm, Nat2Z.inj_mul.
  rewrite (Z.mul_comm (Z.of_nat k)), Z.div_mul by lia. cbv zeta.
  set (q := _ / Z.of_nat bs) in *. unfold kPixelBits in *. lia.
Qed.
End codec_lemmas.

(** ** Theorems *)

(** What a caller of the codec guarantees: a block size and a number of
    component streams that [create_codec_] accepts, and an image of whole
    pixels whose unused bits are zero. *)
Definition codec_input (native : endian) (t : dynamic_pixel_traits) (k bs : nat) (input : list Z) : Prop :=
  0 <= unused_lsb_count_ t /\ (0 < k)%nat /\ (0 < bs)%nat /\ Z.of_nat bs <= kMaxBlockSize /\
  image_ok native t k input.

(** C18: for every width of [uint_fast32_t] from 32 to 64 bits, either byte
    order, every number of unused bits, block size up to 512 and number of
    component streams, decoding an encoded image into a buffer of its size,
    whatever the buffer holds, gives the image back, without running out of
    input. *)
Theorem ricepp_roundtrip vbits native t k bs input output : 32 <= vbits <= 64 ->
  codec_input native t k bs input -> length output = length input ->
  decode_impl vbits native t k bs output (encode_impl vbits native t k bs input) = Ok input.
Proof.
  intros Hv (Hu & Hk & Hbs & Hmax & Hi) Ho. unfold decode_impl, encode_impl.
  destruct (encode_spec vbits Hv native t Hu k bs Hk Hbs Hmax input Hi) as (Hb & [pad Hpad] & _).
  destruct (decode_spec vbits Hv native t Hu k bs Hk Hbs Hmax input output
    (bitstream_reader_init (out (encode vbits native t k bs input (bitstream_writer_init []))))) as (r & ->); try done.
  by eapply ahead_init.
Qed.

Lemma ricepp_roundtrip_witness :
  let t := PixelTraits big 2 in
  let input := map (traits_write little t) [3; 5; 100; 16383; 0; 7; 7; 7; 8; 9; 200; 201; 16000; 16001] in
  decode_impl 64 little t 2 3 (replicate 14 0) (encode_impl 64 little t 2 3 input) = Ok input.
Proof.
  apply (ricepp_roundtrip 64 little (PixelTraits big 2) 2 3
    (map (traits_write little (PixelTraits big 2)) [3; 5; 100; 16383; 0; 7; 7; 7; 8; 9; 200; 201; 16000; 16001])).
  - lia.
  - split_and!; try (cbn; lia); [done|]. split; [by exists 7%nat; split; [|lia]|].
    unfold pixel_ok, in_u. repeat constructor; vm_compute; discriminate || reflexivity.
  - reflexivity.
Defined.

(** C34: the encoder never writes beyond the buffer of
    [worst_case_encoded_bytes] it allocates (or demands of its caller). *)
Theorem encode_within_worst_case vbits native t k bs input : 32 <= vbits <= 64 ->
  codec_input native t k bs input ->
  Z.of_nat (length (encode_impl vbits native t k bs input)) <=
  worst_case_encoded_bytes k bs (Z.of_nat (length input)).
Proof.
  intros Hv (Hu & Hk & Hbs & Hmax & Hi). unfold encode_impl, worst_case_encoded_bytes.
  destruct (encode_spec vbits Hv native t Hu k bs Hk Hbs Hmax input Hi) as (_ & _ & ->).
  pose proof (image_bits_bound vbits Hv native t k bs Hk Hbs Hmax input Hi).
  apply Z.div_le_mono; lia.
Qed.

Lemma encode_within_worst_case_witness :
  Z.of_nat (length (encode_impl 64 little (PixelTraits little 0) 1 4 [1; 40000; 3; 65535; 0; 9])) <=
  worst_case_encoded_bytes 1 4 6.
Proof.
  apply (encode_within_worst_case 64 little (PixelTraits little 0) 1 4 [1; 40000; 3; 65535; 0; 9]); [lia|].
  split_and!; try (cbn; lia); [done|]. split; [by exists 6%nat; split; [|lia]|].
  unfold pixel_ok, in_u. repeat constructor; vm_compute; discriminate || reflexivity.
Defined.

(** The cost [compute_best_split] returns is the exact number of bits the
    Rice code needs at the split it returns, and no split up to [kFsMax] needs
    fewer, whenever the mean delta is below 2^15: the walk from the first
    guess, in either direction, finds the global minimum. *)
Theorem compute_best_split_optimal delta :
  Forall (in_u 16) delta -> 0 < Z.of_nat (length delta) <= kMaxBlockSize ->
  sum_list delta / Z.of_nat (length delta) < 2 ^ 15 ->
  let '(fs, bits) := compute_best_split delta (sum_list delta) in
  bits = Z.of_nat (length (concat (map (rice_bits fs) delta))) /\
  forall j, 0 <= j <= kFsMax -> bits <= Z.of_nat (length (concat (map (rice_bits j) delta))).
Proof.
  intros Hd Hlen Hmean.
  assert (forall j, 0 <= j -> Z.of_nat (length (concat (map (rice_bits j) delta))) = split_cost delta j) as Hcost.
  { intros j Hj. unfold split_cost. clear Hlen Hmean. induction Hd as [|d l Hd _ IH]; [done|].
    cbn [map concat]. unfold rice_bits at 1. rewrite !length_app, length_replicate.
    cbn [length unary_bits foldr] in *. fold (unary_bits l). rewrite length_bits.
    destruct (shiftr_u16 d j Hd Hj). unfold unary_bits in *. lia. }
  pose proof (compute_best_split_spec delta (conj Hd Hlen) (sum_list delta)) as Hsp.
  destruct (compute_best_split _ _) as [fs bits]. cbn [fst snd] in Hsp.
  destruct Hsp as (Hc & Hfs & Hopt); [apply mean_range; [lia|done]|]. destruct (Hopt Hmean) as (_ & _ & Hmin).
  rewrite Hcost by lia. split; [done|]. intros j Hj. rewrite Hcost by lia. by apply Hmin.
Qed.

Lemma compute_best_split_optimal_witness :
  compute_best_split [5; 9; 100; 3] 117 = (4, 26) /\
  let '(fs, bits) := compute_best_split [5; 9; 100; 3] (sum_list [5; 9; 100; 3]) in
  bits = Z.of_nat (length (concat (map (rice_bits fs) [5; 9; 100; 3]))) /\
  forall j, 0 <= j <= kFsMax -> bits <= Z.of_nat (length (concat (map (rice_bits j) [5; 9; 100; 3]))).
Proof.
  split; [vm_compute; reflexivity|].
  apply (compute_best_split_optimal [5; 9; 100; 3]); [|vm_compute; split; [reflexivity|discriminate]|reflexivity].
  unfold in_u. repeat constructor; vm_compute; discriminate || reflexivity.
Defined.
