(* ===== verification/PcmSamples.v ===== *)
(** * PcmSamples: audio samples as integers

    [src/pcm_sample_transformer.cpp]: samples of one to four bytes, of either
    byte order, signed or not, with their padding at either end, are unpacked to
    32-bit integers for the audio codec, and packed again.  Signed integers wrap
    around where the code subtracts from or adds to them. *)

From S2P Require Import Prelude Bits.
Local Open Scope Z_scope.

Inductive pcm_sample_endianness : Type := Big | Little.
Inductive pcm_sample_signedness : Type := Signed | Unsigned.
Inductive pcm_sample_padding : Type := Lsb | Msb.

(** ** [basic_pcm_sample_transformer<int32_t>] *)

Definition unpack_native (sig : pcm_sample_signedness) (pad : pcm_sample_padding) (bytes src bits : Z) : Z :=
  let src := match pad with Lsb => Z.shiftr src (8 * bytes - bits) | Msb => src end in
  match sig with
  | Signed =>
      let src := if (bits <? 32) && negb (Z.land src (wrapu 32 (Z.shiftl 1 (bits - 1))) =? 0)
                 then Z.lor src (wrapu 32 (Z.shiftl (2 ^ 32 - 1) bits)) else src in
      wraps 32 src
  | Unsigned => wraps 32 (wraps 32 src - wraps 32 (Z.shiftl 1 (bits - 1)))
  end.

Definition pack_native (sig : pcm_sample_signedness) (pad : pcm_sample_padding) (bytes src bits : Z) : Z :=
  let src := match sig with Unsigned => wraps 32 (src + wraps 32 (Z.shiftl 1 (bits - 1))) | Signed => src end in
  match pad with
  | Lsb => wrapu 32 (wraps 32 (Z.shiftl src (8 * bytes - bits)))
  | Msb => wrapu 32 src
  end.

(** The bytes of a sample, in the order of the code; the number of bytes is the
    length. *)
Definition unpack_word (e : pcm_sample_endianness) (src : list Z) : option Z :=
  match e, src with
  | Big, [a] => Some (Z.shiftl a 0)
  | Big, [a; b] => Some (Z.lor (Z.shiftl a 8) (Z.shiftl b 0))
  | Big, [a; b; c] => Some (Z.lor (Z.lor (Z.shiftl a 16) (Z.shiftl b 8)) (Z.shiftl c 0))
  | Big, [a; b; c; d] => Some (Z.lor (Z.lor (Z.lor (Z.shiftl a 24) (Z.shiftl b 16)) (Z.shiftl c 8)) (Z.shiftl d 0))
  | Little, [a] => Some (Z.shiftl a 0)
  | Little, [a; b] => Some (Z.lor (Z.shiftl a 0) (Z.shiftl b 8))
  | Little, [a; b; c] => Some (Z.lor (Z.lor (Z.shiftl a 0) (Z.shiftl b 8)) (Z.shiftl c 16))
  | Little, [a; b; c; d] => Some (Z.lor (Z.lor (Z.lor (Z.shiftl a 0) (Z.shiftl b 8)) (Z.shiftl c 16)) (Z.shiftl d 24))
  | _, _ => None
  end.

Definition low_byte (tmp shift : Z) : Z := Z.land (Z.shiftr tmp shift) 0xFF.

Definition pack_word (e : pcm_sample_endianness) (bytes tmp : Z) : option (list Z) :=
  match e, bytes with
  | Big, 1 => Some [low_byte tmp 0]
  | Big, 2 => Some [low_byte tmp 8; low_byte tmp 0]
  | Big, 3 => Some [low_byte tmp 16; low_byte tmp 8; low_byte tmp 0]
  | Big, 4 => Some [low_byte tmp 24; low_byte tmp 16; low_byte tmp 8; low_byte tmp 0]
  | Little, 1 => Some [low_byte tmp 0]
  | Little, 2 => Some [low_byte tmp 0; low_byte tmp 8]
  | Little, 3 => Some [low_byte tmp 0; low_byte tmp 8; low_byte tmp 16]
  | Little, 4 => Some [low_byte tmp 0; low_byte tmp 8; low_byte tmp 16; low_byte tmp 24]
  | _, _ => None
  end.

(** ** The transformers *)

(** The template arguments of [pcm_sample_transformer_fixed] and
    [pcm_sample_transformer_generic]; the latter keeps the bits as a member. *)
Record sample_format : Type := SampleFormat {
  sf_end : pcm_sample_endianness;
  sf_sig : pcm_sample_signedness;
  sf_pad : pcm_sample_padding;
  sf_bytes : Z
}.

Inductive pcm_sample_transformer : Type :=
  | TransformerFixed (f : sample_format) (Bits : Z)
  | TransformerGeneric (f : sample_format) (bits_ : Z).

Definition unpack_one (f : sample_format) (bits : Z) (src : list Z) : option Z :=
  tmp ← unpack_word (sf_end f) src; Some (unpack_native (sf_sig f) (sf_pad f) (sf_bytes f) tmp bits).
Definition pack_one (f : sample_format) (bits : Z) (src : Z) : option (list Z) :=
  pack_word (sf_end f) (sf_bytes f) (pack_native (sf_sig f) (sf_pad f) (sf_bytes f) src bits).

(** The loops over the samples; [n] is the length of the destination. *)
Fixpoint unpack_all (f : sample_format) (bits : Z) (n : nat) (src : list Z) : option (list Z) :=
  match n with
  | O => Some []
  | S n =>
      x ← unpack_one f bits (slice src 0 (sf_bytes f));
      xs ← unpack_all f bits n (drop (Z.to_nat (sf_bytes f)) src);
      Some (x :: xs)
  end.

Fixpoint pack_all (f : sample_format) (bits : Z) (src : list Z) : option (list Z) :=
  match src with
  | [] => Some []
  | x :: src => b ← pack_one f bits x; bs ← pack_all f bits src; Some (b ++ bs)
  end.

Definition unpack_samples (t : pcm_sample_transformer) (n : nat) (src : list Z) : option (list Z) :=
  match t with TransformerFixed f Bits => unpack_all f Bits n src | TransformerGeneric f bits_ => unpack_all f bits_ n src end.
Definition pack_samples (t : pcm_sample_transformer) (src : list Z) : option (list Z) :=
  match t with TransformerFixed f Bits => pack_all f Bits src | TransformerGeneric f bits_ => pack_all f bits_ src end.

(** [make_pcm_sample_transformer<UnpackedType, End, Sig, Pad, Bytes>]. *)
Definition make_for_bytes (f : sample_format) (bits : Z) : pcm_sample_transformer :=
  match sf_bytes f with
  | 1 => if bits =? 8 then TransformerFixed f 8 else TransformerGeneric f bits
  | 2 => if bits =? 16 then TransformerFixed f 16 else TransformerGeneric f bits
  | 3 => if bits =? 20 then TransformerFixed f 20 else if bits =? 24 then TransformerFixed f 24 else TransformerGeneric f bits
  | _ => if bits =? 20 then TransformerFixed f 20 else if bits =? 24 then TransformerFixed f 24 else if bits =? 32 then TransformerFixed f 32 else TransformerGeneric f bits
  end.

Inductive pcm_error : Type := unsupported_number_of_bytes.

Definition make_pcm_sample_transformer (e : pcm_sample_endianness) (sig : pcm_sample_signedness) (pad : pcm_sample_padding) (bytes bits : Z) :
    result pcm_error pcm_sample_transformer :=
  match bytes with
  | 1 | 2 | 3 | 4 => Ok (make_for_bytes (SampleFormat e sig pad bytes) bits)
  | _ => Err unsupported_number_of_bytes
  end.

(** ** The bytes of a word *)

Definition in_order (e : pcm_sample_endianness) (l : list Z) : list Z := match e with Little => l | Big => rev l end.

Lemma in_order_involutive e l : in_order e (in_order e l) = l.
Proof. destruct e; [apply rev_involutive|done]. Qed.

Lemma in_order_bytes e l : Forall is_byte l -> Forall is_byte (in_order e l).
Proof. destruct e; [apply Forall_rev|done]. Qed.

Lemma in_order_length e l : length (in_order e l) = length l.
Proof. destruct e; [apply length_rev|done]. Qed.

Lemma unpack_word_value e src : Forall is_byte src -> (1 <= length src <= 4)%nat -> unpack_word e src = Some (le_value (in_order e src)).
Proof.
  intros Hb Hl. assert (Forall (fun b => 0 <= b < 2 ^ 8) src) as H by (eapply Forall_impl; [exact Hb|done]). clear Hb.
  destruct src as [|a [|b [|c [|d [|x src]]]]]; cbn in Hl; try lia;
    repeat (match goal with H : Forall _ (_ :: _) |- _ => apply Forall_cons in H as [? H] end); destruct e; cbn [unpack_word in_order rev app le_value]; f_equal; rewrite ?Z.shiftl_0_r;
    [lia|lia| | | | | | ].
  1: rewrite Z.lor_comm. 3: rewrite (Z.lor_comm _ c), (Z.lor_comm (Z.shiftl a 16)), Z.lor_assoc.
  5: rewrite (Z.lor_comm _ d), (Z.lor_comm _ (Z.shiftl c 8)), (Z.lor_comm (Z.shiftl a 24)), !Z.lor_assoc.
  all: rewrite !lor_shiftl_add by (rewrite ?lor_shiftl_add by (rewrite ?lor_shiftl_add by lia; lia); lia); lia.
Qed.

Lemma low_byte_mod tmp s : low_byte tmp s = Z.shiftr tmp s mod 256.
Proof. apply (Z.land_ones _ 8). lia. Qed.

Lemma pack_word_bytes e n tmp : (1 <= n <= 4)%nat -> pack_word e (Z.of_nat n) tmp = Some (in_order e (le_bytes n tmp)).
Proof.
  intros Hn. assert (n = 1 \/ n = 2 \/ n = 3 \/ n = 4)%nat as [->|[->|[->| ->]]] by lia; destruct e; cbn [pack_word Z.of_nat Pos.of_succ_nat Pos.succ le_bytes in_order rev app];
    rewrite !low_byte_mod, ?Z.shiftr_0_r, ?Z.shiftr_shiftr by lia; reflexivity.
Qed.

(** ** A sample *)

(** The widths that are supported. *)
Definition width_ok (bytes bits : Z) : Prop := 1 <= bytes <= 4 /\ 1 <= bits <= 8 * bytes.

Lemma wrapu_add_wraps w a b : 0 <= w -> wrapu w (a + wraps w b) = wrapu w (a + b).
Proof. intros Hw. unfold wrapu. rewrite Z.add_mod by lia. fold (wrapu w (wraps w b)). rewrite wrapu_of_wraps by done. unfold wrapu. by rewrite <- Z.add_mod by lia. Qed.

Lemma wrapu_sub_wraps w a b : 0 <= w -> wrapu w (a - wraps w b) = wrapu w (a - b).
Proof. intros Hw. unfold wrapu. rewrite Zminus_mod. fold (wrapu w (wraps w b)). rewrite wrapu_of_wraps by done. unfold wrapu. by rewrite <- Zminus_mod. Qed.

Lemma mod_mod_pow a n m : 0 <= n <= m -> (a mod 2 ^ m) mod 2 ^ n = a mod 2 ^ n.
Proof. intros H. symmetry. apply Znumtheory.Zmod_div_mod; [lia|lia|]. exists (2 ^ (m - n)). rewrite <- Z.pow_add_r by lia. f_equal. lia. Qed.

(** Setting the bits from [n] up. *)
Lemma lor_high_bits v n : 0 <= n < 32 -> 0 <= v < 2 ^ 32 -> Z.lor v (wrapu 32 (Z.shiftl (2 ^ 32 - 1) n)) = v mod 2 ^ n + (2 ^ 32 - 2 ^ n).
Proof.
  intros Hn Hv. assert (2 ^ 32 = 2 ^ n * 2 ^ (32 - n)) as Ep by (rewrite <- Z.pow_add_r by lia; f_equal; lia).
  assert (0 < 2 ^ (32 - n)) by lia. assert (0 < 2 ^ n) by lia.
  assert (wrapu 32 (Z.shiftl (2 ^ 32 - 1) n) = Z.shiftl (2 ^ (32 - n) - 1) n) as ->.
  { rewrite !Z.shiftl_mul_pow2 by lia. unfold wrapu. replace ((2 ^ 32 - 1) * 2 ^ n) with ((2 ^ (32 - n) - 1) * 2 ^ n + (2 ^ n - 1) * 2 ^ 32) by nia. rewrite Z.mod_add by lia. apply Z.mod_small. nia. }
  rewrite (Z.div_mod v (2 ^ n)) at 1 by lia. rewrite Z.add_comm, Z.mul_comm. rewrite <- (lor_shiftl_add (v mod 2 ^ n) (v / 2 ^ n) n) by (apply Z.mod_pos_bound || lia; lia).
  rewrite <- Z.lor_assoc, <- Z.shiftl_lor. assert (0 <= v / 2 ^ n < 2 ^ (32 - n)) as Hd by (split; [apply Z.div_pos; lia|apply Z.div_lt_upper_bound; nia]).
  replace (Z.lor (v / 2 ^ n) (2 ^ (32 - n) - 1)) with (2 ^ (32 - n) - 1).
  - rewrite lor_shiftl_add by (apply Z.mod_pos_bound || lia; lia). nia.
  - rewrite Z.sub_1_r, <- Z.ones_equiv. symmetry. apply Z.lor_ones_low; [lia|]. destruct (decide (v / 2 ^ n = 0)) as [->|]; [cbn; lia|]. apply Z.log2_lt_pow2; lia.
Qed.

(** What a sample is stored as. *)
Definition stored_sample (sig : pcm_sample_signedness) (pad : pcm_sample_padding) (bytes bits x : Z) : Z :=
  let y := match sig with Unsigned => x + 2 ^ (bits - 1) | Signed => x end in
  match pad with Lsb => y * 2 ^ (8 * bytes - bits) | Msb => y end mod 2 ^ (8 * bytes).

Section width.
Context (bytes bits : Z) (Hw : width_ok bytes bits).

Lemma width_pows : 0 < 2 ^ (bits - 1) /\ 2 ^ bits = 2 * 2 ^ (bits - 1) /\ 2 ^ (8 * bytes) = 2 ^ bits * 2 ^ (8 * bytes - bits) /\ 0 < 2 ^ (8 * bytes - bits) /\ 2 ^ (8 * bytes) <= 2 ^ 32.
Proof.
  destruct Hw as [Hb Hs]. split; [lia|]. split; [rewrite <- Z.pow_succ_r by lia; f_equal; lia|]. split; [rewrite <- Z.pow_add_r by lia; f_equal; lia|]. split; [lia|apply Z.pow_le_mono_r; lia].
Qed.

Lemma pack_native_value sig pad x : pack_native sig pad bytes x bits mod 2 ^ (8 * bytes) = stored_sample sig pad bytes bits x.
Proof.
  destruct Hw as [Hb Hs]. unfold pack_native, stored_sample. set (s := match sig with Signed => x | Unsigned => wraps 32 (x + wraps 32 (Z.shiftl 1 (bits - 1))) end).
  set (y := match sig with Signed => x | Unsigned => x + 2 ^ (bits - 1) end).
  assert (wrapu 32 s = wrapu 32 y) as E by (unfold s, y; destruct sig; [done|rewrite wrapu_of_wraps, wrapu_add_wraps, Z.shiftl_1_l by lia; done]).
  destruct pad.
  - rewrite wrapu_of_wraps, Z.shiftl_mul_pow2 by lia. unfold wrapu in *. rewrite mod_mod_pow by lia. rewrite <- (mod_mod_pow (s * _) (8 * bytes) 32), <- (mod_mod_pow (y * _) (8 * bytes) 32) by lia.
    f_equal. rewrite <- Z.mul_mod_idemp_l, E, Z.mul_mod_idemp_l by lia. done.
  - rewrite E. unfold wrapu. by rewrite mod_mod_pow by lia.
Qed.

(** The word that is unpacked. *)
Definition shifted (pad : pcm_sample_padding) (v : Z) : Z := match pad with Lsb => Z.shiftr v (8 * bytes - bits) | Msb => v end.

Lemma testbit_half y : 0 <= y < 2 ^ bits -> Z.testbit y (bits - 1) = (2 ^ (bits - 1) <=? y).
Proof.
  intros Hy. destruct width_pows as (P1 & P2 & _). destruct Hw as [Hb Hs]. rewrite Z.testbit_odd, Z.shiftr_div_pow2 by lia. destruct (Z.leb_spec (2 ^ (bits - 1)) y) as [H|H].
  - replace (y / 2 ^ (bits - 1)) with 1; [done|]. apply (Z.div_unique_pos y _ 1 (y - 2 ^ (bits - 1))); lia.
  - by rewrite Z.div_small by lia.
Qed.

Lemma sign_bit u : 0 <= u -> (Z.land u (wrapu 32 (Z.shiftl 1 (bits - 1))) =? 0) = negb (2 ^ (bits - 1) <=? u mod 2 ^ bits).
Proof.
  intros Hu. destruct Hw as [Hb Hs]. assert (2 ^ (bits - 1) < 2 ^ 32) by (apply Z.pow_lt_mono_r; lia). rewrite Z.shiftl_1_l, wrapu_small by (unfold in_u; lia).
  rewrite <- testbit_half by (apply Z.mod_pos_bound; lia). rewrite Z.mod_pow2_bits_low by lia.
  destruct (Z.testbit u (bits - 1)) eqn:E; cbn [negb].
  - apply Z.eqb_neq. intros H0. assert (Z.testbit (Z.land u (2 ^ (bits - 1))) (bits - 1) = true) as Ht by (rewrite Z.land_spec, E, Z.pow2_bits_true by lia; done). by rewrite H0, Z.bits_0 in Ht.
  - apply Z.eqb_eq, Z.bits_inj'. intros i Hi. rewrite Z.land_spec, Z.bits_0. destruct (decide (i = bits - 1)) as [->|Hne]; [by rewrite E|]. rewrite Z.pow2_bits_false by lia. apply andb_false_r.
Qed.

Lemma unpack_unsigned pad v : 0 <= v < 2 ^ (8 * bytes) -> shifted pad v < 2 ^ bits -> unpack_native Unsigned pad bytes v bits = shifted pad v - 2 ^ (bits - 1).
Proof.
  intros Hv Hlt. destruct width_pows as (P1 & P2 & P3 & P4 & P5). destruct Hw as [Hb Hs].
  assert (0 <= shifted pad v) as H0 by (unfold shifted; destruct pad; [apply Z.shiftr_nonneg|]; lia).
  unfold unpack_native. fold (shifted pad v). rewrite Z.shiftl_1_l. assert (2 ^ (bits - 1) <= 2 ^ 31) by (apply Z.pow_le_mono_r; lia).
  etransitivity; [|apply (wraps_small 32); [lia|unfold in_s; lia]]. apply wraps_mod_eq. rewrite wrapu_sub_wraps by lia. unfold wrapu. rewrite Zminus_mod. fold (wrapu 32 (wraps 32 (shifted pad v))).
  rewrite wrapu_of_wraps by lia. unfold wrapu. by rewrite <- Zminus_mod.
Qed.

(** Of a signed sample the bits above its own have to be zero where it is not
    negative. *)
Lemma unpack_signed pad v : 0 <= v < 2 ^ (8 * bytes) -> let u := shifted pad v in let y := u mod 2 ^ bits in (y < 2 ^ (bits - 1) -> u < 2 ^ bits) ->
  unpack_native Signed pad bytes v bits = if 2 ^ (bits - 1) <=? y then y - 2 ^ bits else y.
Proof.
  intros Hv u y Hy. destruct width_pows as (P1 & P2 & P3 & P4 & P5). destruct Hw as [Hb Hs].
  assert (0 <= u < 2 ^ 32) as Hu. { unfold u, shifted. destruct pad; [rewrite Z.shiftr_div_pow2 by lia; split; [apply Z.div_pos; lia|apply Z.div_lt_upper_bound; nia]|lia]. }
  assert (0 <= y < 2 ^ bits) as Hr by (apply Z.mod_pos_bound; lia). unfold unpack_native. fold (shifted pad v). fold u. rewrite sign_bit by lia. fold y. rewrite negb_involutive.
  assert (2 ^ (bits - 1) <= 2 ^ 31) by (apply Z.pow_le_mono_r; lia).
  destruct (Z.leb_spec (2 ^ (bits - 1)) y) as [Hn|Hn].
  - etransitivity; [|apply (wraps_small 32); [lia|unfold in_s; lia]]. apply wraps_mod_eq. destruct (Z.ltb_spec bits 32) as [Hlt|Hge]; cbn [andb].
    + rewrite lor_high_bits by lia. fold y. unfold wrapu. replace (y + (2 ^ 32 - 2 ^ bits)) with (y - 2 ^ bits + 1 * 2 ^ 32) by lia. by rewrite Z.mod_add by lia.
    + assert (2 ^ bits = 2 ^ 32) as E by (f_equal; lia). unfold y. rewrite E, (Z.mod_small u) by exact Hu. unfold wrapu. rewrite <- (Z.mod_add (u - 2 ^ 32) 1) by lia. f_equal. lia.
  - rewrite andb_false_r. assert (u = y) as E by (unfold y; rewrite Z.mod_small; [done|split; [lia|auto]]). rewrite E. apply wraps_small; [lia|]. unfold in_s. lia.
Qed.

Lemma stored_range sig pad x : 0 <= stored_sample sig pad bytes bits x < 2 ^ (8 * bytes).
Proof. destruct Hw. apply Z.mod_pos_bound. lia. Qed.

(** A sample is unpacked from what it is stored as. *)
Lemma native_roundtrip sig pad x : in_s bits x -> unpack_native sig pad bytes (stored_sample sig pad bytes bits x) bits = x.
Proof.
  intros Hx. destruct width_pows as (P1 & P2 & P3 & P4 & P5). pose proof Hw as [Hb Hs]. unfold in_s in Hx. pose proof (stored_range sig pad x) as Hr.
  set (y := match sig with Unsigned => x + 2 ^ (bits - 1) | Signed => x end).
  assert (shifted pad (stored_sample sig pad bytes bits x) mod 2 ^ bits = y mod 2 ^ bits /\ (0 <= y -> y < 2 ^ bits -> shifted pad (stored_sample sig pad bytes bits x) = y)) as [E1 E2].
  { unfold shifted, stored_sample. fold y. destruct pad.
    - rewrite Z.shiftr_div_pow2, P3, Z.mul_mod_distr_r, Z.div_mul by lia. split; [apply Z.mod_mod; lia|]. intros. apply Z.mod_small. lia.
    - split; [rewrite mod_mod_pow by lia; done|]. intros. apply Z.mod_small. rewrite P3. nia. }
  destruct sig; unfold y in *.
  - rewrite unpack_signed; [| |].
    + rewrite E1. destruct (Z_lt_le_dec x 0) as [Hn|Hn].
      * replace (x mod 2 ^ bits) with (x + 2 ^ bits); [|rewrite <- (Z.mod_add x 1) by lia; rewrite Z.mod_small; lia]. destruct (Z.leb_spec (2 ^ (bits - 1)) (x + 2 ^ bits)); lia.
      * rewrite Z.mod_small by lia. destruct (Z.leb_spec (2 ^ (bits - 1)) x); lia.
    + done.
    + rewrite E1. intros Hlt. destruct (Z_lt_le_dec x 0) as [Hn|Hn]; [|rewrite E2; lia]. exfalso. rewrite <- (Z.mod_add x 1), Z.mod_small in Hlt by lia. lia.
  - rewrite unpack_unsigned by (done || rewrite E2; lia). rewrite E2; lia.
Qed.
End width.

(** The words that are written: the padding is zero, or the sign. *)
Definition canonical (sig : pcm_sample_signedness) (pad : pcm_sample_padding) (bytes bits v : Z) : Prop :=
  match pad, sig with
  | Lsb, _ => v mod 2 ^ (8 * bytes - bits) = 0
  | Msb, Unsigned => v < 2 ^ bits
  | Msb, Signed => v < 2 ^ (bits - 1) \/ 2 ^ (8 * bytes) - 2 ^ (bits - 1) <= v
  end.

Lemma canonical_stored sig pad bytes bits v : width_ok bytes bits -> 0 <= v < 2 ^ (8 * bytes) -> canonical sig pad bytes bits v ->
  exists x, in_s bits x /\ v = stored_sample sig pad bytes bits x.
Proof.
  intros Hw Hv Hc. destruct (width_pows bytes bits Hw) as (P1 & P2 & P3 & P4 & P5). unfold in_s, canonical, stored_sample in *. set (k := 8 * bytes - bits) in *. destruct pad.
  - pose proof (Z.div_mod v (2 ^ k) ltac:(lia)) as E. rewrite Hc, Z.add_0_r in E. set (u := v / 2 ^ k) in *. assert (0 <= u < 2 ^ bits) as Hu by nia.
    destruct sig; [destruct (Z_lt_le_dec u (2 ^ (bits - 1)))|].
    + exists u. split; [lia|]. rewrite Z.mod_small by nia. lia.
    + exists (u - 2 ^ bits). split; [lia|]. replace ((u - 2 ^ bits) * 2 ^ k) with (v + (-1) * 2 ^ (8 * bytes)) by nia. by rewrite Z.mod_add, Z.mod_small by lia.
    + exists (u - 2 ^ (bits - 1)). split; [lia|]. replace (u - 2 ^ (bits - 1) + 2 ^ (bits - 1)) with u by lia. rewrite Z.mod_small by nia. lia.
  - destruct sig; [destruct Hc as [Hc|Hc]|].
    + exists v. split; [lia|]. by rewrite Z.mod_small by lia.
    + exists (v - 2 ^ (8 * bytes)). split; [lia|]. replace (v - 2 ^ (8 * bytes)) with (v + (-1) * 2 ^ (8 * bytes)) by lia. by rewrite Z.mod_add, Z.mod_small by lia.
    + exists (v - 2 ^ (bits - 1)). split; [lia|]. replace (v - 2 ^ (bits - 1) + 2 ^ (bits - 1)) with v by lia. by rewrite Z.mod_small by lia.
Qed.

(** ** Many samples *)

Section transformer.
Context (f : sample_format) (bits : Z) (Hw : width_ok (sf_bytes f) bits).

#[local] Abbreviation width := (Z.to_nat (sf_bytes f)).
#[local] Abbreviation stored := (stored_sample (sf_sig f) (sf_pad f) (sf_bytes f) bits).

Definition sample_bytes (x : Z) : list Z := in_order (sf_end f) (le_bytes width (stored x)).

Lemma le_bytes_mod n z : le_bytes n (z mod 2 ^ (8 * Z.of_nat n)) = le_bytes n z.
Proof.
  rewrite <- (le_value_le_bytes n z). pose proof (le_bytes_le_value (le_bytes n z) (le_bytes_is_byte n z)) as H. by rewrite length_le_bytes in H.
Qed.

Lemma pack_one_value x : pack_one f bits x = Some (sample_bytes x).
Proof.
  destruct Hw as [Hb _]. unfold pack_one, sample_bytes. replace (sf_bytes f) with (Z.of_nat width) at 1 by lia. rewrite pack_word_bytes by lia.
  do 2 f_equal. rewrite <- le_bytes_mod. f_equal. rewrite Z2Nat.id by lia. by apply pack_native_value.
Qed.

Lemma sample_bytes_ok x : Forall is_byte (sample_bytes x) /\ zlen (sample_bytes x) = sf_bytes f.
Proof.
  destruct Hw as [Hb _]. split; [apply in_order_bytes, le_bytes_is_byte|]. unfold zlen, sample_bytes. rewrite in_order_length, length_le_bytes. lia.
Qed.

Lemma unpack_one_value x : in_s bits x -> unpack_one f bits (sample_bytes x) = Some x.
Proof.
  intros Hx. destruct (sample_bytes_ok x) as [H1 H2]. pose proof Hw as [Hb _]. unfold unpack_one. rewrite unpack_word_value by (done || unfold zlen in *; lia). cbn [mbind option_bind].
  unfold sample_bytes. rewrite in_order_involutive, le_value_le_bytes, Z2Nat.id by lia. rewrite Z.mod_small by (by apply stored_range). f_equal. by apply native_roundtrip.
Qed.

Lemma pack_all_value xs : pack_all f bits xs = Some (concat (map sample_bytes xs)).
Proof. induction xs as [|x xs IH]; [done|]. cbn [pack_all map concat]. by rewrite pack_one_value, IH. Qed.

Lemma unpack_all_value xs : Forall (in_s bits) xs -> unpack_all f bits (length xs) (concat (map sample_bytes xs)) = Some xs.
Proof.
  induction 1 as [|x xs Hx _ IH]; [done|]. cbn [length unpack_all map concat]. destruct (sample_bytes_ok x) as [_ Hl].
  rewrite slice_head by done. rewrite unpack_one_value by done. cbn [mbind option_bind]. rewrite drop_app_length' by (unfold zlen in Hl; lia). by rewrite IH.
Qed.

Lemma all_bytes xs : Forall is_byte (concat (map sample_bytes xs)) /\ zlen (concat (map sample_bytes xs)) = sf_bytes f * zlen xs.
Proof.
  induction xs as [|x xs [IH1 IH2]]; [split; [constructor|unfold zlen; cbn; lia]|]. cbn [map concat]. destruct (sample_bytes_ok x) as [H1 H2]. split; [by apply Forall_app|].
  rewrite zlen_app, IH2, H2. unfold zlen. cbn [length]. lia.
Qed.

(** A word as it is written is that of a sample. *)
Lemma word_of_sample w : Forall is_byte w -> zlen w = sf_bytes f -> canonical (sf_sig f) (sf_pad f) (sf_bytes f) bits (le_value (in_order (sf_end f) w)) ->
  exists x, in_s bits x /\ w = sample_bytes x.
Proof.
  intros Hb Hl Hc. pose proof Hw as [Hn _]. pose proof (in_order_bytes (sf_end f) w Hb) as Hb'. pose proof (le_value_range _ Hb') as Hr. rewrite in_order_length in Hr.
  destruct (canonical_stored _ _ _ _ _ Hw ltac:(unfold zlen in Hl; rewrite Hl in Hr; exact Hr) Hc) as (x & Hx & E). exists x. split; [done|].
  unfold sample_bytes. rewrite <- E. replace width with (length (in_order (sf_end f) w)) by (rewrite in_order_length; unfold zlen in Hl; lia). by rewrite le_bytes_le_value, in_order_involutive by done.
Qed.

Lemma words_of_samples ws : Forall (fun w => Forall is_byte w /\ zlen w = sf_bytes f /\ canonical (sf_sig f) (sf_pad f) (sf_bytes f) bits (le_value (in_order (sf_end f) w))) ws ->
  exists xs, Forall (in_s bits) xs /\ ws = map sample_bytes xs.
Proof.
  induction 1 as [|w ws (H1 & H2 & H3) _ (xs & I1 & ->)]; [by exists []|]. destruct (word_of_sample w H1 H2 H3) as (x & Hx & ->). exists (x :: xs). split; [by constructor|done].
Qed.
End transformer.

Lemma make_runs e sig pad bytes bits : width_ok bytes bits -> exists t, make_pcm_sample_transformer e sig pad bytes bits = Ok t /\
  (forall n src, unpack_samples t n src = unpack_all (SampleFormat e sig pad bytes) bits n src) /\ (forall src, pack_samples t src = pack_all (SampleFormat e sig pad bytes) bits src).
Proof.
  intros [Hb _]. assert (bytes = 1 \/ bytes = 2 \/ bytes = 3 \/ bytes = 4) as [->|[->|[->| ->]]] by lia; (eexists; split; [reflexivity|]); unfold make_for_bytes; cbn [sf_bytes];
    repeat (match goal with |- context [bits =? ?n] => destruct (Z.eqb_spec bits n) as [->|] end); done.
Qed.

(** C19: For every byte order, signedness, padding and width of one to four bytes
    and up to as many bits, a transformer is made; samples of that many bits are
    packed to so many bytes each and unpacked to the samples they were, and
    bytes whose padding is zero, or the sign, are unpacked to samples of that
    many bits and packed to the bytes they were. *)
Theorem samples_roundtrip e sig pad bytes bits : width_ok bytes bits ->
  exists t, make_pcm_sample_transformer e sig pad bytes bits = Ok t /\
    (forall xs, Forall (in_s bits) xs -> exists bs, pack_samples t xs = Some bs /\ Forall is_byte bs /\ zlen bs = bytes * zlen xs /\ unpack_samples t (length xs) bs = Some xs) /\
    (forall ws, Forall (fun w => Forall is_byte w /\ zlen w = bytes /\ canonical sig pad bytes bits (le_value (in_order e w))) ws ->
       exists xs, unpack_samples t (length ws) (concat ws) = Some xs /\ Forall (in_s bits) xs /\ pack_samples t xs = Some (concat ws)).
Proof.
  intros Hw. destruct (make_runs e sig pad bytes bits Hw) as (t & E & Hu & Hp). exists t. split; [done|]. set (f := SampleFormat e sig pad bytes) in *. split.
  - intros xs Hx. exists (concat (map (sample_bytes f bits) xs)). destruct (all_bytes f bits Hw xs) as [H1 H2]. rewrite Hp, Hu. split; [by apply pack_all_value|]. split; [done|]. split; [done|]. by apply unpack_all_value.
  - intros ws Hws. destruct (words_of_samples f bits Hw ws Hws) as (xs & Hx & ->). exists xs. rewrite Hu, Hp, length_map. split; [by apply unpack_all_value|]. split; [done|]. by apply pack_all_value.
Qed.

(** Samples of twelve bits in two bytes, as in the program's own tests. *)
Lemma samples_roundtrip_witness : exists t, make_pcm_sample_transformer Big Unsigned Lsb 2 12 = Ok t /\
  unpack_samples t 3 [0x00; 0x00; 0x7F; 0xF0; 0xFF; 0xF0] = Some [-2048; -1; 2047] /\ pack_samples t [-2048; -1; 2047] = Some [0x00; 0x00; 0x7F; 0xF0; 0xFF; 0xF0].
Proof.
  destruct (samples_roundtrip Big Unsigned Lsb 2 12) as (t & E & H1 & H2); [by split|]. exists t. split; [exact E|]. injection E as <-. split; vm_compute; reflexivity.
Defined.

Example samples_signed : rbind (make_pcm_sample_transformer Little Signed Msb 3 20) (fun t => Ok (unpack_samples t 2 [0xFF; 0xFF; 0xFF; 0x00; 0x00; 0x08], pack_samples t [-1; -524288])) =
  Ok (Some [-1; -524288], Some [0xFF; 0xFF; 0xFF; 0x00; 0x00; 0xF8]).
Proof. vm_compute. reflexivity. Qed.
