(* ===== verification/CyclicHash.v ===== *)
(** * CyclicHash: the rolling hash of the segmenter

    [rsync_hash] of [include/dwarfs/writer/internal/cyclic_hash.h]: two 16-bit
    sums over a window of bytes, and the theorems that sliding the window and
    hashing it from scratch agree. *)

From S2P Require Import Prelude.
Local Open Scope Z_scope.

(** [uint16_t a_, b_; int32_t len_]. *)
Record rsync_hash : Type := RsyncHash {
  a_ : Z;
  b_ : Z;
  len_ : Z
}.

Definition rsync_init : rsync_hash := RsyncHash 0 0 0.

(** [operator()]. *)
Definition hash_value (h : rsync_hash) : Z := Z.lor (a_ h) (Z.shiftl (b_ h) 16).

(** [update(inbyte)]. *)
Definition update_in (h : rsync_hash) (inbyte : Z) : rsync_hash :=
  let a := wrapu 16 (a_ h + inbyte) in
  RsyncHash a (wrapu 16 (b_ h + a)) (len_ h + 1).

(** [update(outbyte, inbyte)]. *)
Definition update_slide (h : rsync_hash) (outbyte inbyte : Z) : rsync_hash :=
  let a := wrapu 16 (a_ h - outbyte + inbyte) in
  let b := wrapu 16 (b_ h - len_ h * outbyte) in
  RsyncHash a (wrapu 16 (b + a)) (len_ h).

Definition hash_clear (h : rsync_hash) : rsync_hash := RsyncHash 0 0 0.

Definition repeating_window (byte length : Z) : Z :=
  let a := wrapu 16 (byte * length) in
  let b := wrapu 16 (wrapu 64 (byte * wrapu 64 (length * (length + 1))) / 2) in
  Z.lor a (Z.shiftl b 16).

(** ** The hash of a window *)

Definition hash_of (window : list Z) : rsync_hash := foldl update_in rsync_init window.

(** The sums of the definition: the plain sum, and the sum weighted by the
    distance from the end of the window. *)
Fixpoint sum1 (l : list Z) : Z := match l with [] => 0 | x :: l => x + sum1 l end.
Fixpoint sum2 (l : list Z) : Z :=
  match l with [] => 0 | x :: l => Z.of_nat (S (length l)) * x + sum2 l end.

Lemma sum1_app l1 l2 : sum1 (l1 ++ l2) = sum1 l1 + sum1 l2.
Proof. induction l1 as [|x l1 IH]; simpl; lia. Qed.

Lemma sum2_app l1 l2 : sum2 (l1 ++ l2) = sum2 l1 + Z.of_nat (length l2) * sum1 l1 + sum2 l2.
Proof. induction l1 as [|x l1 IH]; cbn [app sum2 sum1]; [lia|]. rewrite length_app. lia. Qed.

Lemma wrapu_add_l w x y : wrapu w (wrapu w x + y) = wrapu w (x + y).
Proof. unfold wrapu. apply Zplus_mod_idemp_l. Qed.
Lemma wrapu_add_r w x y : wrapu w (x + wrapu w y) = wrapu w (x + y).
Proof. unfold wrapu. apply Zplus_mod_idemp_r. Qed.

Lemma hash_of_sums l :
  hash_of l = RsyncHash (wrapu 16 (sum1 l)) (wrapu 16 (sum2 l)) (Z.of_nat (length l)).
Proof.
  induction l as [|x l IH] using rev_ind; [done|]. unfold hash_of in *.
  rewrite foldl_app, IH. cbn [foldl]. unfold update_in. cbn [a_ b_ len_].
  rewrite sum1_app, sum2_app, length_app. cbn [sum1 sum2 length].
  rewrite wrapu_add_l, wrapu_add_l, wrapu_add_r. f_equal; [f_equal; lia|f_equal; lia|lia].
Qed.

Lemma update_slide_hash_of x l y : update_slide (hash_of (x :: l)) x y = hash_of (l ++ [y]).
Proof.
  rewrite !hash_of_sums. unfold update_slide. cbn [a_ b_ len_].
  rewrite sum1_app, sum2_app, length_app. cbn [sum1 sum2 length].
  unfold Z.sub. rewrite <- !Z.add_assoc, !wrapu_add_l, wrapu_add_r.
  f_equal; [f_equal; lia| |lia].
  rewrite !Z.add_assoc. rewrite <- !Z.add_assoc, wrapu_add_l. f_equal. lia.
Qed.

(** Slides the window over [ins], dropping the bytes of [outs]. *)
Fixpoint slide (h : rsync_hash) (outs ins : list Z) : rsync_hash :=
  match outs, ins with
  | x :: outs, y :: ins => slide (update_slide h x y) outs ins
  | _, _ => h
  end.

(** Rolling the hash over a sequence, byte by byte, gives at every
    position the hash computed from scratch over the window there: what the
    segmenter looks up for a file is what it stored for a block. *)
Theorem rsync_rolling w ins :
  slide (hash_of w) (w ++ ins) ins = hash_of (drop (length ins) (w ++ ins)).
Proof.
  revert w. induction ins as [|y ins IH]; intros w; [rewrite app_nil_r; by destruct w|].
  destruct w as [|x w].
  - cbn [app slide]. assert (update_slide (hash_of []) y y = hash_of []) as ->.
    { unfold update_slide, hash_of. cbn [foldl rsync_init a_ b_ len_].
      replace (0 - y + y) with 0 by lia. done. }
    exact (IH []).
  - cbn [app slide length]. rewrite update_slide_hash_of.
    change (drop (S (length ins)) (x :: w ++ y :: ins)) with (drop (length ins) (w ++ y :: ins)).
    replace (w ++ y :: ins) with ((w ++ [y]) ++ ins) by by rewrite <- app_assoc.
    apply IH.
Qed.

Lemma sum1_replicate n x : sum1 (replicate n x) = Z.of_nat n * x.
Proof. induction n as [|n IH]; cbn [replicate sum1]; lia. Qed.

Lemma sum2_replicate n x : 2 * sum2 (replicate n x) = x * (Z.of_nat n * (Z.of_nat n + 1)).
Proof. induction n as [|n IH]; cbn [replicate sum2]; [lia|]. rewrite length_replicate. nia. Qed.

(** The closed form for a window of equal bytes is their hash. *)
Theorem repeating_window_hash byte n : is_byte byte -> Z.of_nat n < 2 ^ 27 ->
  repeating_window byte (Z.of_nat n) = hash_value (hash_of (replicate n byte)).
Proof.
  intros Hb Hn. unfold repeating_window, hash_value. rewrite hash_of_sums. cbn [a_ b_].
  rewrite sum1_replicate. pose proof (sum2_replicate n byte) as H2. unfold in_u in *.
  rewrite (wrapu_small 64 (Z.of_nat n * (Z.of_nat n + 1))) by (unfold in_u; nia).
  rewrite (wrapu_small 64) by (unfold in_u; nia). rewrite <- H2.
  rewrite (Z.mul_comm 2), Z.div_mul by lia. by rewrite (Z.mul_comm byte).
Qed.

Lemma repeating_window_hash_witness :
  repeating_window 200 (Z.of_nat 4096) = hash_value (hash_of (replicate 4096 200)).
Proof. apply (repeating_window_hash 200 4096); [split; vm_compute; congruence|vm_compute; reflexivity]. Defined.
