(* ===== verification/BloomFilter.v ===== *)
(** * BloomFilter: the lookup structures of the segmenter

    [bloom_filter] and [fast_multimap] of [src/writer/segmenter.cpp]. *)

From S2P Require Import Prelude.
Local Open Scope Z_scope.

(** ** [bloom_filter] *)

Definition value_mask : Z := 63.
Definition index_shift : Z := 6.

(** [bits_] has [size_ / 64] words; it is empty (a null pointer) when the
    size is zero. *)
Record bloom_filter : Type := BloomFilter {
  bits_ : list Z;
  index_mask_ : Z;
  size_ : Z
}.

Inductive bloom_error : Type := size_not_power_of_two | size_mismatch.

Definition bloom_create (size : Z) : result bloom_error bloom_filter :=
  let index_mask := Z.shiftr (Z.max size (value_mask + 1)) index_shift - 1 in
  let size_ := if 0 <? size then Z.max size (value_mask + 1) else 0 in
  if 0 <? size then
    if negb (Z.land size (size - 1) =? 0) then Err size_not_power_of_two
    else Ok (BloomFilter (replicate (Z.to_nat (size_ / 64)) 0) index_mask size_)
  else Ok (BloomFilter [] index_mask size_).

Definition word_index (f : bloom_filter) (ix : Z) : nat :=
  Z.to_nat (Z.land (Z.shiftr ix index_shift) (index_mask_ f)).
Definition word_bit (ix : Z) : Z := Z.shiftl 1 (Z.land ix value_mask).

Definition bloom_add (ix : Z) (f : bloom_filter) : bloom_filter :=
  BloomFilter (alter (fun w => Z.lor w (word_bit ix)) (word_index f ix) (bits_ f)) (index_mask_ f) (size_ f).

Definition bloom_test (f : bloom_filter) (ix : Z) : bool :=
  negb (Z.land (nth (word_index f ix) (bits_ f) 0) (word_bit ix) =? 0).

Definition bloom_clear (f : bloom_filter) : bloom_filter :=
  BloomFilter (map (fun _ => 0) (bits_ f)) (index_mask_ f) (size_ f).

Definition bloom_merge (f other : bloom_filter) : result bloom_error bloom_filter :=
  if negb (size_ f =? size_ other) then Err size_mismatch
  else Ok (BloomFilter (zip_with Z.lor (bits_ f) (bits_ other)) (index_mask_ f) (size_ f)).

(** ** [fast_multimap] *)

Section multimap.
Context {V : Type}.

Record fast_multimap : Type := FastMultimap {
  values_ : gmap Z V;
  collisions_ : gmap Z (list V)
}.

Definition multimap_empty : fast_multimap := FastMultimap ∅ ∅.

Definition multimap_insert (key : Z) (val : V) (m : fast_multimap) : fast_multimap :=
  match values_ m !! key with
  | None => FastMultimap (<[key := val]> (values_ m)) (collisions_ m)
  | Some _ => FastMultimap (values_ m)
                (<[key := default [] (collisions_ m !! key) ++ [val]]> (collisions_ m))
  end.

(** The values [for_each_value] visits, in order. *)
Definition for_each_value (key : Z) (m : fast_multimap) : list V :=
  match values_ m !! key with
  | None => []
  | Some v => v :: match collisions_ m !! key with Some vs => vs | None => [] end
  end.

Definition any_value_is (key : Z) (func : V -> bool) (m : fast_multimap) : bool :=
  match values_ m !! key with
  | None => false
  | Some v =>
      if func v then true
      else match collisions_ m !! key with Some vs => existsb func vs | None => false end
  end.

(** Keys with collisions have a first value. *)
Definition multimap_inv (m : fast_multimap) : Prop :=
  forall key, is_Some (collisions_ m !! key) -> is_Some (values_ m !! key).

Lemma multimap_inv_empty : multimap_inv multimap_empty.
Proof. intros key [? H]. cbn in H. by rewrite lookup_empty in H. Qed.

Lemma multimap_inv_insert key val m : multimap_inv m -> multimap_inv (multimap_insert key val m).
Proof.
  unfold multimap_inv, multimap_insert. intros Hm k H. destruct (values_ m !! key) eqn:E; cbn in *.
  - destruct (decide (k = key)) as [->|]; [by eexists|]. rewrite lookup_insert_ne in H by done. auto.
  - destruct (decide (k = key)) as [->|]; [by rewrite lookup_insert_eq; eexists|].
    rewrite lookup_insert_ne by done. auto.
Qed.

(** Inserting appends to the values of the key, and changes no other key. *)
Lemma for_each_value_insert key val m k : multimap_inv m ->
  for_each_value k (multimap_insert key val m) =
  if decide (k = key) then for_each_value k m ++ [val] else for_each_value k m.
Proof.
  intros Hm. unfold for_each_value, multimap_insert. specialize (Hm key).
  destruct (values_ m !! key) as [v|] eqn:E; cbn; case_decide as Hk; subst; rewrite ?E.
  - rewrite lookup_insert_eq. by destruct (collisions_ m !! key).
  - by rewrite lookup_insert_ne by done.
  - rewrite lookup_insert_eq. destruct (collisions_ m !! key); [|done].
    by destruct (Hm ltac:(by eexists)).
  - by rewrite lookup_insert_ne by done.
Qed.

Lemma any_value_is_spec key func m : any_value_is key func m = existsb func (for_each_value key m).
Proof.
  unfold any_value_is, for_each_value. destruct (values_ m !! key); [|done]. simpl.
  destruct (func v); [done|]. by destruct (collisions_ m !! key).
Qed.
End multimap.
Arguments fast_multimap V : clear implicits.

(** ** No false negatives *)

(** The bit field has a word for every masked index. *)
Definition bloom_wf (f : bloom_filter) : Prop :=
  0 <= index_mask_ f /\ Z.of_nat (length (bits_ f)) = index_mask_ f + 1.

Lemma word_index_lt f ix : bloom_wf f -> 0 <= ix -> (word_index f ix < length (bits_ f))%nat.
Proof.
  intros [Hm Hl] Hix. unfold word_index.
  pose proof (land_le_r (Z.shiftr ix index_shift) (index_mask_ f) Hm). lia.
Qed.

(** A test is a test of one bit. *)
Lemma bloom_test_bit f ix : bloom_test f ix = Z.testbit (nth (word_index f ix) (bits_ f) 0) (Z.land ix value_mask).
Proof.
  unfold bloom_test, word_bit. set (w := nth _ _ _). set (b := Z.land ix value_mask).
  assert (0 <= b) by (unfold b; apply Z.land_nonneg; right; done). rewrite Z.shiftl_1_l.
  assert (Z.land w (2 ^ b) = if Z.testbit w b then 2 ^ b else 0) as ->.
  { apply Z.bits_inj'. intros i Hi. rewrite Z.land_spec, Z.pow2_bits_eqb by lia.
    destruct (Z.eqb_spec b i) as [->|].
    - rewrite andb_true_r. destruct (Z.testbit w i) eqn:E; [by rewrite Z.pow2_bits_true|by rewrite Z.bits_0].
    - rewrite andb_false_r. destruct (Z.testbit w b); [|by rewrite Z.bits_0].
      rewrite Z.pow2_bits_eqb by lia. symmetry. by apply Z.eqb_neq. }
  destruct (Z.testbit w b); [|done]. destruct (Z.eqb_spec (2 ^ b) 0); [lia|done].
Qed.

Lemma bloom_add_wf f x : bloom_wf f -> bloom_wf (bloom_add x f).
Proof. intros [? ?]. split; [done|]. by unfold bloom_add; cbn; rewrite length_alter. Qed.

Lemma bloom_test_add f x y : bloom_wf f -> 0 <= x -> 0 <= y ->
  bloom_test (bloom_add x f) y =
  bloom_test f y || (bool_decide (word_index f x = word_index f y) && (Z.land x value_mask =? Z.land y value_mask)).
Proof.
  intros Hf Hx Hy. rewrite !bloom_test_bit. cbn [bloom_add bits_]. unfold word_index at 1. cbn [index_mask_ bloom_add].
  fold (word_index f y). pose proof (word_index_lt f x Hf Hx). pose proof (word_index_lt f y Hf Hy).
  assert (0 <= Z.land x value_mask /\ 0 <= Z.land y value_mask) as [? ?] by (split; apply Z.land_nonneg; right; done).
  rewrite !nth_lookup. case_bool_decide as E; cbn [andb].
  - rewrite <- E, list_lookup_alter_eq.
    destruct (lookup_lt_is_Some_2 (bits_ f) (word_index f x)) as [w ->]; [lia|]. cbn.
    rewrite Z.lor_spec. unfold word_bit. by rewrite Z.shiftl_1_l, Z.pow2_bits_eqb by lia.
  - rewrite list_lookup_alter_ne by done. by rewrite orb_false_r.
Qed.

Lemma bloom_add_self f x : bloom_wf f -> 0 <= x -> bloom_test (bloom_add x f) x = true.
Proof.
  intros. rewrite bloom_test_add by done. rewrite bool_decide_eq_true_2, Z.eqb_refl by done. apply orb_true_r.
Qed.

Lemma bloom_add_mono f x y : bloom_wf f -> 0 <= x -> 0 <= y -> bloom_test f y = true ->
  bloom_test (bloom_add x f) y = true.
Proof. intros ? ? ? E. by rewrite bloom_test_add, E by done. Qed.

Lemma bloom_test_clear f x : bloom_test (bloom_clear f) x = false.
Proof.
  unfold bloom_test. unfold bloom_clear at 2. cbn [bits_].
  assert (forall i l, nth i (map (fun _ : Z => 0) l) 0 = 0) as ->.
  { intros i l. revert i. induction l as [|? l IH]; intros [|i]; simpl; auto. }
  by rewrite Z.land_0_l.
Qed.

Lemma bloom_clear_wf f : bloom_wf f -> bloom_wf (bloom_clear f).
Proof. intros [? ?]. split; [done|]. by unfold bloom_clear; cbn; rewrite length_map. Qed.

Lemma bloom_merge_spec f g : bloom_wf f -> bloom_wf g -> size_ f = size_ g -> index_mask_ f = index_mask_ g ->
  exists h, bloom_merge f g = Ok h /\ bloom_wf h /\ size_ h = size_ f /\ index_mask_ h = index_mask_ f /\
    forall x, 0 <= x -> bloom_test h x = bloom_test f x || bloom_test g x.
Proof.
  intros Hf Hg Hs Hm. unfold bloom_merge. rewrite Hs, Z.eqb_refl. cbn [negb]. eexists. split; [done|].
  assert (length (bits_ f) = length (bits_ g)) as Hl by (destruct Hf, Hg; lia).
  split_and!; try done.
  - destruct Hf. split; [done|]. cbn. rewrite length_zip_with. lia.
  - intros x Hx. rewrite !bloom_test_bit. cbn [bits_]. unfold word_index at 1 3. cbn [index_mask_]. rewrite <- Hm.
    change (Z.to_nat (Z.land (Z.shiftr x index_shift) (index_mask_ f))) with (word_index f x).
    pose proof (word_index_lt f x Hf Hx). rewrite !nth_lookup, lookup_zip_with.
    destruct (lookup_lt_is_Some_2 (bits_ f) (word_index f x)) as [a ->]; [lia|].
    destruct (lookup_lt_is_Some_2 (bits_ g) (word_index f x)) as [b ->]; [lia|]. cbn. apply Z.lor_spec.
Qed.

(** Creation succeeds for powers of two. *)
Lemma bloom_create_spec k : 0 <= k ->
  exists f, bloom_create (2 ^ k) = Ok f /\ bloom_wf f /\ size_ f = Z.max (2 ^ k) 64 /\
    forall x, bloom_test f x = false.
Proof.
  intros Hk. unfold bloom_create, value_mask, index_shift. destruct (Z.ltb_spec 0 (2 ^ k)); [|lia].
  assert (Z.land (2 ^ k) (2 ^ k - 1) = 0) as ->.
  { rewrite land_ones_mod by done. by apply Z.mod_same; lia. }
  cbn [Z.eqb negb]. eexists. split; [done|].
  assert (Z.max (2 ^ k) 64 mod 64 = 0) as Hmod.
  { destruct (Z.le_gt_cases k 6).
    - assert (2 ^ k <= 2 ^ 6) by (apply Z.pow_le_mono_r; lia). by rewrite Z.max_r by lia.
    - assert (2 ^ 6 <= 2 ^ k) by (apply Z.pow_le_mono_r; lia). rewrite Z.max_l by lia.
      replace k with (k - 6 + 6) by lia. rewrite Z.pow_add_r by lia. apply Z.mod_mul. lia. }
  split_and!; [|done|].
  - unfold bloom_wf. cbn. rewrite length_replicate, Z.shiftr_div_pow2 by done. change (2 ^ 6) with 64.
    pose proof (Z.div_le_mono 64 (Z.max (2 ^ k) 64) 64 ltac:(lia) ltac:(lia)). change (64 / 64) with 1 in *.
    change (63 + 1) with 64. lia.
  - intros x. unfold bloom_test. cbn [bits_].
    assert (forall n i, nth i (replicate n 0) 0 = 0) as -> by (induction n; intros [|i]; simpl; auto).
    by rewrite Z.land_0_l.
Qed.

(** The filter never gives a false negative: of the values added to a
    filter, in any order, none is ever rejected, none that the filter accepted
    before is lost, and merging another filter accepts what either accepts. *)
Theorem bloom_no_false_negative f adds other x :
  bloom_wf f -> bloom_wf other -> size_ f = size_ other -> index_mask_ f = index_mask_ other ->
  Forall (Z.le 0) adds -> 0 <= x -> x ∈ adds \/ bloom_test f x = true \/ bloom_test other x = true ->
  let f' := foldl (fun f ix => bloom_add ix f) f adds in
  exists h, bloom_merge f' other = Ok h /\ bloom_test h x = true.
Proof.
  intros Hf Ho Hs Hm Hadds Hx Hin f'.
  assert (bloom_wf f' /\ size_ f' = size_ f /\ index_mask_ f' = index_mask_ f /\
          (x ∈ adds \/ bloom_test f x = true -> bloom_test f' x = true)) as (Hf' & Hs' & Hm' & Hin').
  { subst f'. clear Hin Hs Hm. revert f Hf. induction Hadds as [|a adds Ha _ IH]; intros f Hf; cbn [foldl].
    - split_and!; try done. intros [Hx0|]; [by apply not_elem_of_nil in Hx0|done].
    - destruct (IH _ (bloom_add_wf f a Hf)) as (? & -> & -> & IH'). split_and!; try done.
      intros [[<-|?]%elem_of_cons|?]; apply IH'; [right; by apply bloom_add_self|by left|right; by apply bloom_add_mono]. }
  destruct (bloom_merge_spec f' other) as (h & E & _ & _ & _ & Ht); [done|done|congruence|congruence|].
  exists h. split; [done|]. rewrite Ht by done. apply orb_true_iff. tauto.
Qed.

Lemma bloom_no_false_negative_witness :
  exists f, bloom_create 128 = Ok f /\
    exists h, bloom_merge (foldl (fun f ix => bloom_add ix f) f [77; 4000000000; 5]) f = Ok h /\
      bloom_test h 4000000000 = true.
Proof.
  eexists. split; [reflexivity|].
  apply (bloom_no_false_negative _ [77; 4000000000; 5] _ 4000000000).
  - split; vm_compute; congruence.
  - split; vm_compute; congruence.
  - reflexivity.
  - reflexivity.
  - repeat constructor; vm_compute; congruence.
  - lia.
  - left. apply list_elem_of_In. right. left. reflexivity.
Defined.
