(* ===== verification/Segmenter.v ===== *)
(** * Segmenter: deduplication of file data into blocks

    [src/writer/segmenter.cpp]: the segmenter cuts the data of files into
    blocks of bounded size and describes each file by chunks, references into
    blocks; data found in an active block is not stored again.

    All quantities called [in_frames] count frames of [granularity] bytes.
    Extents with raw bytes are modelled ([granular_extent_adapter] without
    segment queue).  Logging, progress and the match statistics are left out.
    The block manager, which other segmenters share, is the function
    [logical_block]: the numbers it returns to this segmenter's requests. *)

From S2P Require Import Prelude CyclicHash BloomFilter.
Local Open Scope Z_scope.

(** [segmenter::config]. *)
Record segmenter_config : Type := SegmenterConfig {
  blockhash_window_size : Z;
  window_increment_shift : Z;
  max_active_blocks : Z;
  cfg_bloom_filter_size : Z;
  block_size_bits : Z;
  enable_sparse_files : bool
}.

(** What [chunkable::add_chunk] and [add_hole] receive. *)
Inductive chunk_ref : Type :=
  | DataChunk (block offset size : Z)
  | HoleChunk (size : Z).

Inductive extent_kind : Type := extent_data | extent_hole.

(** [file_extent]: its kind and its bytes, zeros for a hole. *)
Record file_extent : Type := FileExtent { kind : extent_kind; raw_bytes : list Z }.

(** [chunkable]: its size and its extents. *)
Record chunkable : Type := Chunkable { chk_size : Z; extents : list file_extent }.

Inductive segmenter_error : Type :=
  | check_failed            (* DWARFS_CHECK *)
  | filter_error (e : bloom_error)
  | no_block                (* back() or front() of an empty deque *)
  | out_of_fuel.

(** [active_block]: the data appended so far, with the hasher and the offsets
    of the windows hashed. *)
Record active_block : Type := ActiveBlock {
  num : Z;
  hasher : rsync_hash;
  filter : bloom_filter;
  offsets : fast_multimap Z;
  block_data : list Z
}.

(** The members of [segmenter_] that change, with the blocks given to the
    [block_ready] callback and the chunks of the current chunkable. *)
Record segmenter : Type := Segmenter {
  chunk_offset : Z;
  chunk_size : Z;
  global_filter : bloom_filter;
  blocks : list active_block;
  repeating_sequence_hash_values : gmap Z (list Z);
  logical_blocks : nat;
  ready : list (Z * list Z);
  chunks : list chunk_ref
}.

Abbreviation seg := (action segmenter_error segmenter).

(** The length of the common prefix: [std::mismatch]. *)
Fixpoint mismatch (a b : list Z) : nat :=
  match a, b with
  | x :: a, y :: b => if x =? y then S (mismatch a b) else O
  | _, _ => O
  end.

Definition bit_ceil (x : Z) : Z := if x <=? 1 then 1 else 2 ^ bit_width (x - 1).

Section config.
Context (cfg : segmenter_config) (granularity : Z) (logical_block : nat -> Z).

(** ** Sizes *)

Definition window_size : Z :=
  if 0 <? blockhash_window_size cfg then Z.shiftl 1 (blockhash_window_size cfg) else 0.
Definition window_step : Z := Z.max 1 (Z.shiftr window_size (window_increment_shift cfg)).

Definition bytes_to_frames (size : Z) : Z := size / granularity.
Definition frames_to_bytes (size : Z) : Z := size * granularity.
Definition constrained_block_size (size : Z) : Z :=
  if 1 <? granularity then size - size mod granularity else size.

(** The policies [create_segmenter] chooses. *)
Definition is_segmentation_enabled : bool :=
  negb ((max_active_blocks cfg =? 0) || (blockhash_window_size cfg =? 0)).
Definition is_multi_block_mode : bool :=
  is_segmentation_enabled && negb (max_active_blocks cfg =? 1).

Definition block_size_in_frames : Z :=
  bytes_to_frames (constrained_block_size (Z.shiftl 1 (block_size_bits cfg))).

Definition bloom_filter_size : Z :=
  if is_segmentation_enabled then
    let hash_count := bit_ceil (Z.max 1 (max_active_blocks cfg) * (block_size_in_frames / window_step)) in
    Z.shiftl 1 (cfg_bloom_filter_size cfg) * hash_count
  else 0.

(** The constructor. *)
Definition segmenter_create : result segmenter_error segmenter :=
  match bloom_create bloom_filter_size with
  | Err e => Err (filter_error e)
  | Ok f =>
      let repseq :=
        if is_segmentation_enabled then
          foldl (fun m i => let val := repeating_window i (frames_to_bytes window_size) in
                            <[val := default [] (m !! val) ++ [i]]> m) ∅ (seqZ 0 256)
        else ∅ in
      Ok (Segmenter 0 0 f [] repseq O [] [])
  end.

(** ** Hashing frames: the container and extent adapters *)

Definition update_hash_in (h : rsync_hash) (data : list Z) (offset : Z) : rsync_hash :=
  foldl update_in h (slice data (frames_to_bytes offset) granularity).

Definition update_hash_slide (h : rsync_hash) (data : list Z) (from to : Z) : rsync_hash :=
  foldl (fun h '(x, y) => update_slide h x y) h
    (zip (slice data (frames_to_bytes from) granularity) (slice data (frames_to_bytes to) granularity)).

(** [hash_window::seek]: the hash and the new offset. *)
Definition seek (h : rsync_hash) (data : list Z) (offset : Z) : rsync_hash * Z :=
  (foldl (fun h o => update_hash_in h data o) h (seqZ offset window_size), offset + window_size).

(** [hash_window::slide]. *)
Definition window_slide (h : rsync_hash) (data : list Z) (offset : Z) : rsync_hash * Z :=
  (update_hash_slide h data (offset - window_size) offset, offset + 1).

(** [granular_extent_adapter::compare() == 0], [match_backward], [match_forward]. *)
Definition compare_eq (data : list Z) (offset : Z) (rhs : list Z) : bool :=
  bool_decide (slice data (frames_to_bytes offset) (zlen rhs) = rhs).

Definition match_backward (data : list Z) (offset : Z) (rhs : list Z) : Z :=
  let lhs := slice data (frames_to_bytes offset) (zlen rhs) in
  let match_length := Z.of_nat (mismatch (rev lhs) (rev rhs)) in
  bytes_to_frames (match_length - match_length mod granularity).

Definition match_forward (data : list Z) (offset : Z) (rhs : list Z) : Z :=
  let lhs := slice data (frames_to_bytes offset) (zlen rhs) in
  let match_length := Z.of_nat (mismatch lhs rhs) in
  bytes_to_frames (match_length - match_length mod granularity).

(** ** [active_block] *)

Definition size_in_frames (b : active_block) : Z := bytes_to_frames (zlen (block_data b)).
Definition full (b : active_block) : bool := size_in_frames b =? block_size_in_frames.

Definition block_window_size : Z := if 0 <? max_active_blocks cfg then window_size else 0.
Definition window_step_mask : Z := window_step - 1.

Definition next_hash_distance_in_frames (b : active_block) : Z :=
  window_step_mask + 1 - Z.land (size_in_frames b) window_step_mask.

(** [for_each_offset] and [for_each_offset_filter]. *)
Definition for_each_offset (key : Z) (b : active_block) : list Z := for_each_value key (offsets b).
Definition for_each_offset_filter (key : Z) (b : active_block) : list Z :=
  if bloom_test (filter b) key then for_each_value key (offsets b) else [].

(** All bytes of the window at frame [offset] are [byte]. *)
Definition window_is (data : list Z) (offset byte : Z) : bool :=
  forallb (fun b => b =? byte) (slice data (frames_to_bytes offset) (frames_to_bytes block_window_size)).

Definition is_existing_repeating_sequence (repseqmap : gmap Z (list Z)) (b : active_block)
    (hashval offset : Z) : bool :=
  match repseqmap !! hashval with
  | None => false
  | Some bytes =>
      let byte := nth (Z.to_nat (frames_to_bytes offset)) (block_data b) 0 in
      if negb (bool_decide (byte ∈ bytes)) then false
      else if window_is (block_data b) offset byte then
        any_value_is hashval (fun off => window_is (block_data b) off byte) (offsets b)
      else false
  end.

(** One iteration of the hashing loop of [append_bytes]; [offset] is the
    frame to add. *)
Definition hash_frame (repseqmap : gmap Z (list Z)) (offset : Z) (b : active_block) (global_filter : bloom_filter) :
    active_block * bloom_filter :=
  let v := block_data b in
  let hasher :=
    if offset <? block_window_size then update_hash_in (hasher b) v offset
    else update_hash_slide (hasher b) v (offset - block_window_size) offset in
  let b := ActiveBlock (num b) hasher (filter b) (offsets b) v in
  let offset := offset + 1 in
  if (block_window_size <=? offset) && (Z.land offset window_step_mask =? 0) then
    let hashval := hash_value hasher in
    if negb (is_existing_repeating_sequence repseqmap b hashval (offset - block_window_size)) then
      let filter := if 0 <? size_ (filter b) then bloom_add hashval (filter b) else filter b in
      (ActiveBlock (num b) hasher filter
         (multimap_insert hashval (wrapu 32 (offset - block_window_size)) (offsets b)) v,
       bloom_add hashval global_filter)
    else (b, global_filter)
  else (b, global_filter).

Definition append_bytes (repseqmap : gmap Z (list Z)) (data : list Z) (data_offset data_size : Z)
    (b : active_block) (global_filter : bloom_filter) : result segmenter_error (active_block * bloom_filter) :=
  let offset := size_in_frames b in
  if negb (offset + bytes_to_frames data_size <=? block_size_in_frames) then Err check_failed
  else
    let b := ActiveBlock (num b) (hasher b) (filter b) (offsets b)
               (block_data b ++ slice data data_offset data_size) in
    if 0 <? block_window_size then
      Ok (foldl (fun '(b, gf) o => hash_frame repseqmap o b gf) (b, global_filter)
            (seqZ offset (size_in_frames b - offset)))
    else Ok (b, global_filter).

(** ** [segment_match] *)

Record segment_match : Type := SegmentMatch {
  m_block : active_block;
  m_offset : Z;
  m_size : Z;
  m_pos : Z
}.

Definition add_match (b : active_block) (off : Z) : segment_match := SegmentMatch b off 0 0.

Definition verify_and_extend (data : list Z) (pos len begin end_ : Z) (m : segment_match) : segment_match :=
  let v := block_data (m_block m) in
  let offset_ := m_offset m in
  let subspan o n := slice v (frames_to_bytes o) (frames_to_bytes n) in
  if compare_eq data pos (subspan offset_ len) then
    let begin := if begin + offset_ <? pos then pos - offset_ else begin in
    let end_ := if bytes_to_frames (zlen v) - offset_ <? end_ - pos
                then pos + (bytes_to_frames (zlen v) - offset_) else end_ in
    let prefixlen := pos - begin in
    let prefixmatchlen := match_backward data begin (subspan (offset_ - prefixlen) prefixlen) in
    let suffixlen := end_ - (pos + len) in
    let suffixmatchlen := match_forward data (pos + len) (subspan (offset_ + len) suffixlen) in
    SegmentMatch (m_block m) (wrapu 32 (offset_ - prefixmatchlen))
      (wrapu 32 (len + prefixmatchlen + suffixmatchlen)) (pos - prefixmatchlen)
  else m.

(** [operator<], and [std::max_element]: the first of the greatest. *)
Definition match_lt (a b : segment_match) : bool :=
  (m_size a <? m_size b) ||
  ((m_size a =? m_size b) &&
   ((num (m_block a) <? num (m_block b)) ||
    ((num (m_block a) =? num (m_block b)) && (m_offset a <? m_offset b)))).

Definition max_element (m : segment_match) (ms : list segment_match) : segment_match :=
  foldl (fun best m => if match_lt best m then m else best) m ms.

(** ** [segmenter_] *)

Definition set_chunk (off size : Z) : seg unit :=
  modify (fun s => Segmenter off size (global_filter s) (blocks s) (repeating_sequence_hash_values s)
                     (logical_blocks s) (ready s) (chunks s)).
Definition set_blocks (bs : list active_block) (gf : bloom_filter) : seg unit :=
  modify (fun s => Segmenter (chunk_offset s) (chunk_size s) gf bs (repeating_sequence_hash_values s)
                     (logical_blocks s) (ready s) (chunks s)).

(** [chkable.add_chunk], [chkable.add_hole]. *)
Definition add_chunk (c : chunk_ref) : seg unit :=
  modify (fun s => Segmenter (chunk_offset s) (chunk_size s) (global_filter s) (blocks s)
                     (repeating_sequence_hash_values s) (logical_blocks s) (ready s) (chunks s ++ [c])).

(** [blkmgr_->get_logical_block()]. *)
Definition get_logical_block : seg Z :=
  let! s := get in
  put (Segmenter (chunk_offset s) (chunk_size s) (global_filter s) (blocks s)
         (repeating_sequence_hash_values s) (S (logical_blocks s)) (ready s) (chunks s)) ;;
  ret (logical_block (logical_blocks s)).

Definition back : seg active_block :=
  let! s := get in
  match last (blocks s) with Some b => ret b | None => throw no_block end.

Definition lift_filter {A} (r : result bloom_error A) : seg A :=
  match r with Ok a => ret a | Err e => throw (filter_error e) end.

Definition block_ready : seg unit :=
  let! b := back in
  modify (fun s => Segmenter (chunk_offset s) (chunk_size s) (global_filter s) (blocks s)
                     (repeating_sequence_hash_values s) (logical_blocks s)
                     (ready s ++ [(num b, block_data b)]) (chunks s)).

Definition finish_chunk : seg unit :=
  let! s := get in
  if 0 <? chunk_size s then
    let! block := back in
    add_chunk (DataChunk (num block) (frames_to_bytes (chunk_offset s)) (frames_to_bytes (chunk_size s))) ;;
    set_chunk (if full block then 0 else size_in_frames block) 0
  else ret tt.

(** [global_filter_.merge(b.filter())] for all blocks. *)
Fixpoint merge_filters (bs : list active_block) (gf : bloom_filter) : result bloom_error bloom_filter :=
  match bs with
  | [] => Ok gf
  | b :: bs => let? gf := bloom_merge gf (filter b) in merge_filters bs gf
  end.

(** The first part of [append_to_block]: a new block when there is none or
    the last one is full. *)
Definition new_block : seg unit :=
  let! s := get in
  let bs := if Z.max 1 (max_active_blocks cfg) <=? zlen (blocks s) then tail (blocks s) else blocks s in
  let! gf :=
    if is_segmentation_enabled then
      let gf := bloom_clear (global_filter s) in
      if is_multi_block_mode then lift_filter (merge_filters bs gf) else ret gf
    else ret (global_filter s) in
  let! n := get_logical_block in
  let! f := lift_filter (bloom_create (if is_multi_block_mode then size_ gf else 0)) in
  if negb (Z.land window_step window_step_mask =? 0) then throw check_failed
  else set_blocks (bs ++ [ActiveBlock n rsync_init f multimap_empty []]) gf.

Definition append_to_block (data : list Z) (offset_in_frames size_in_frames_ : Z) : seg unit :=
  let! s := get in
  (if match last (blocks s) with None => true | Some b => full b end then new_block else ret tt) ;;
  let! block := back in
  let! s := get in
  match append_bytes (repeating_sequence_hash_values s) data (frames_to_bytes offset_in_frames)
          (frames_to_bytes size_in_frames_) block (global_filter s) with
  | Err e => throw e
  | Ok (block, gf) =>
      set_blocks (removelast (blocks s) ++ [block]) gf ;;
      set_chunk (chunk_offset s) (chunk_size s + size_in_frames_) ;;
      if full block then finish_chunk ;; block_ready else ret tt
  end.

(** Every second iteration appends at least one frame. *)
Fixpoint add_data_loop (fuel : nat) (data : list Z) (offset_in_frames size_in_frames_ : Z) : seg unit :=
  if 0 <? size_in_frames_ then
    match fuel with
    | O => throw out_of_fuel
    | S fuel =>
        let! s := get in
        let block_offset_in_frames :=
          match last (blocks s) with None => 0 | Some b => size_in_frames b end in
        let chunk_size_in_frames := Z.min size_in_frames_ (block_size_in_frames - block_offset_in_frames) in
        append_to_block data offset_in_frames chunk_size_in_frames ;;
        add_data_loop fuel data (offset_in_frames + chunk_size_in_frames) (size_in_frames_ - chunk_size_in_frames)
    end
  else ret tt.

Definition add_data (data : list Z) (offset_in_frames size_in_frames_ : Z) : seg unit :=
  add_data_loop (2 * Z.to_nat size_in_frames_) data offset_in_frames size_in_frames_.

(** The matches of a hash in the active blocks. *)
Definition find_matches (key : Z) : seg (list segment_match) :=
  let! s := get in
  if bloom_test (global_filter s) key then
    if is_multi_block_mode then
      ret (flat_map (fun b => map (add_match b) (for_each_offset_filter key b)) (blocks s))
    else
      match blocks s with
      | [] => throw no_block
      | b :: _ => ret (map (add_match b) (for_each_offset key b))
      end
  else ret [].

Definition lookback_size_in_frames : Z := window_size + window_step.

(** A match: the data before it is added, then its chunk. *)
Definition write_match (data : list Z) (frames_written : Z) (best : segment_match) : seg unit :=
  let num_to_write := m_pos best - frames_written in
  add_data data frames_written num_to_write ;;
  finish_chunk ;;
  add_chunk (DataChunk (num (m_block best)) (frames_to_bytes (m_offset best)) (frames_to_bytes (m_size best))).

(** No match: data is added at the next hash offset, and the window slides;
    [continue_] is the next iteration. *)
Definition no_match (continue_ : rsync_hash -> Z -> Z -> Z -> seg Z) (data : list Z) (h : rsync_hash)
    (offset frames_written next_hash_offset : Z) : seg Z :=
  if offset =? next_hash_offset then
    let num_to_write := offset - lookback_size_in_frames - frames_written in
    add_data data frames_written num_to_write ;;
    let '(h, offset) := window_slide h data offset in
    continue_ h offset (frames_written + num_to_write) (next_hash_offset + window_step)
  else
    let '(h, offset) := window_slide h data offset in
    continue_ h offset frames_written next_hash_offset.

(** The main loop of [segment_and_add_data]; the result is [frames_written].
    Every iteration moves [offset_in_frames]. *)
Fixpoint segment_loop (fuel : nat) (data : list Z) (size : Z) (h : rsync_hash)
    (offset frames_written next_hash_offset : Z) : seg Z :=
  if offset <? size then
    match fuel with
    | O => throw out_of_fuel
    | S fuel =>
        let! matches := find_matches (hash_value h) in
        match map (verify_and_extend data (offset - window_size) window_size frames_written size) matches with
        | [] => no_match (segment_loop fuel data size) data h offset frames_written next_hash_offset
        | m :: ms =>
            let best := max_element m ms in
            if 0 <? m_size best then
              write_match data frames_written best ;;
              let frames_written := frames_written + (m_pos best - frames_written) + m_size best in
              if size - frames_written <? window_size then ret frames_written
              else
                let '(h, offset) := seek (hash_clear h) data frames_written in
                let! b := back in
                segment_loop fuel data size h offset frames_written
                  (frames_written + lookback_size_in_frames + next_hash_distance_in_frames b)
            else no_match (segment_loop fuel data size) data h offset frames_written next_hash_offset
        end
    end
  else ret frames_written.

Definition segment_and_add_data (data : list Z) (size : Z) : seg unit :=
  let! s := get in
  let next_hash_offset :=
    lookback_size_in_frames +
    match last (blocks s) with None => window_step | Some b => next_hash_distance_in_frames b end in
  if negb (window_size <=? size) then throw check_failed
  else
    let '(h, offset) := seek rsync_init data 0 in
    let! frames_written := segment_loop (Z.to_nat size) data size h offset 0 next_hash_offset in
    add_data data frames_written (size - frames_written) ;;
    finish_chunk.

Definition add_extent (ext : file_extent) : seg unit :=
  let hole := match kind ext with extent_hole => true | extent_data => false end in
  if enable_sparse_files cfg && hole then add_chunk (HoleChunk (zlen (raw_bytes ext)))
  else
    let size := bytes_to_frames (zlen (raw_bytes ext)) in
    if negb is_segmentation_enabled || (size <? window_size) then
      add_data (raw_bytes ext) 0 size ;; finish_chunk
    else segment_and_add_data (raw_bytes ext) size.

(** The chunks the chunkable receives. *)
Definition add_chunkable (c : chunkable) : seg (list chunk_ref) :=
  modify (fun s => Segmenter (chunk_offset s) (chunk_size s) (global_filter s) (blocks s)
                     (repeating_sequence_hash_values s) (logical_blocks s) (ready s) []) ;;
  (if 0 <? chk_size c then forA add_extent (extents c) else ret tt) ;;
  let! s := get in ret (chunks s).

Definition finish : seg unit :=
  let! s := get in
  match last (blocks s) with
  | Some b => if negb (full b) then block_ready else ret tt
  | None => ret tt
  end.
End config.

(** ** Common prefixes and suffixes *)

Lemma mismatch_take a b : take (mismatch a b) a = take (mismatch a b) b.
Proof.
  revert b. induction a as [|x a IH]; intros [|y b]; try done. cbn [mismatch].
  destruct (Z.eqb_spec x y) as [->|]; [|done]. cbn [take]. by rewrite IH.
Qed.

Lemma mismatch_le a b : (mismatch a b <= length a)%nat /\ (mismatch a b <= length b)%nat.
Proof.
  revert b. induction a as [|x a IH]; intros [|y b]; cbn [mismatch length]; try lia.
  destruct (x =? y); [|lia]. destruct (IH b). lia.
Qed.

Lemma mismatch_prefix a b n : 0 <= n <= Z.of_nat (mismatch a b) -> slice a 0 n = slice b 0 n.
Proof.
  intros Hn. unfold slice. rewrite !drop_0. pose proof (mismatch_take a b) as E.
  apply (f_equal (take (Z.to_nat n))) in E. rewrite !take_take in E.
  by replace (Nat.min (Z.to_nat n) (mismatch a b)) with (Z.to_nat n) in E by lia.
Qed.

Lemma mismatch_suffix a b n : length a = length b -> 0 <= n <= Z.of_nat (mismatch (rev a) (rev b)) ->
  slice a (zlen a - n) n = slice b (zlen b - n) n.
Proof.
  intros Hl Hn. pose proof (mismatch_prefix (rev a) (rev b) n Hn) as E.
  destruct (mismatch_le (rev a) (rev b)) as [Hm _]. rewrite length_rev in Hm. unfold slice, zlen in *. rewrite !drop_0 in E.
  rewrite !firstn_rev in E. apply (f_equal (@rev Z)) in E. rewrite !rev_involutive in E.
  rewrite !take_ge by (rewrite length_drop; lia).
  replace (Z.to_nat (Z.of_nat (length a) - n)) with (length a - Z.to_nat n)%nat by lia.
  replace (Z.to_nat (Z.of_nat (length b) - n)) with (length b - Z.to_nat n)%nat by lia. done.
Qed.

(** ** The configuration *)

Section segmenter_lemmas.
Context (cfg : segmenter_config) (granularity : Z) (logical_block : nat -> Z).

(** Parameters [create_segmenter] is called with: the granularity fits a
    block, and block offsets fit 32 bits. *)
Definition cfg_ok : Prop :=
  0 < granularity /\ granularity <= 2 ^ block_size_bits cfg /\ 0 <= block_size_bits cfg < 32 /\
  0 <= blockhash_window_size cfg /\ 0 <= window_increment_shift cfg /\ 0 <= max_active_blocks cfg /\
  0 <= cfg_bloom_filter_size cfg.

Context (Hcfg : cfg_ok) (Hinj : Inj (=) (=) logical_block).

#[local] Abbreviation g := granularity.
#[local] Abbreviation bsf := (block_size_in_frames cfg granularity).
#[local] Abbreviation size_f := (size_in_frames granularity).
#[local] Abbreviation is_full := (full cfg granularity).
#[local] Abbreviation win := (window_size cfg).

Lemma g_pos : 0 < g.
Proof. apply Hcfg. Qed.

Lemma bsf_range : 1 <= bsf < 2 ^ 32.
Proof.
  destruct Hcfg as (Hg & Hg2 & Hb & _). unfold block_size_in_frames, bytes_to_frames, constrained_block_size.
  rewrite Z.shiftl_1_l. set (s := 2 ^ block_size_bits cfg) in *.
  assert (s <= 2 ^ 31) as Hs by (apply Z.pow_le_mono_r; lia).
  assert (bsf_eq : (if 1 <? g then s - s mod g else s) / g = s / g).
  { destruct (Z.ltb_spec 1 g); [|done]. pose proof (Z.div_mod s g ltac:(lia)).
    replace (s - s mod g) with (s / g * g) by lia. by rewrite Z.div_mul by lia. }
  rewrite bsf_eq. split; [apply Z.div_le_lower_bound; lia|]. apply Z.div_lt_upper_bound; nia.
Qed.

Lemma window_pos : is_segmentation_enabled cfg = true -> 1 <= win /\ block_window_size cfg = win.
Proof.
  unfold is_segmentation_enabled, block_window_size, window_size. destruct Hcfg as (_ & _ & _ & Hw & _ & Hm & _).
  destruct (Z.eqb_spec (max_active_blocks cfg) 0); [done|].
  destruct (Z.eqb_spec (blockhash_window_size cfg) 0); [done|]. intros _.
  destruct (Z.ltb_spec 0 (blockhash_window_size cfg)); [|lia]. destruct (Z.ltb_spec 0 (max_active_blocks cfg)); [|lia].
  rewrite Z.shiftl_1_l. split; [lia|done].
Qed.

Lemma block_window_nonneg : 0 <= block_window_size cfg.
Proof.
  unfold block_window_size, window_size. destruct (0 <? max_active_blocks cfg); [|done].
  destruct (0 <? blockhash_window_size cfg); [|done]. rewrite Z.shiftl_1_l. lia.
Qed.

Lemma window_step_pow2 : exists k, 0 <= k /\ window_step cfg = 2 ^ k.
Proof.
  destruct Hcfg as (_ & _ & _ & Hw & Hs & _). unfold window_step, window_size.
  destruct (Z.ltb_spec 0 (blockhash_window_size cfg)).
  - rewrite Z.shiftl_1_l. destruct (Z.le_gt_cases (window_increment_shift cfg) (blockhash_window_size cfg)).
    + exists (blockhash_window_size cfg - window_increment_shift cfg). split; [lia|].
      rewrite Z.shiftr_div_pow2, <- Z.pow_sub_r by lia. apply Z.max_r. lia.
    + exists 0. split; [done|]. rewrite Z.shiftr_div_pow2 by lia. rewrite Z.div_small; [done|].
      split; [lia|]. apply Z.pow_lt_mono_r; lia.
  - exists 0. split; [done|]. by rewrite Z.shiftr_0_l.
Qed.

Lemma window_step_pos : 1 <= window_step cfg.
Proof. unfold window_step. lia. Qed.

Lemma step_check : Z.land (window_step cfg) (window_step_mask cfg) = 0.
Proof.
  destruct window_step_pow2 as (k & Hk & E). unfold window_step_mask. rewrite E, land_ones_mod by done.
  by apply Z.mod_same; lia.
Qed.

Lemma next_hash_distance_pos b : 1 <= next_hash_distance_in_frames cfg granularity b.
Proof.
  unfold next_hash_distance_in_frames. pose proof window_step_pos.
  pose proof (land_le_r (size_f b) (window_step_mask cfg)). unfold window_step_mask in *. lia.
Qed.

Lemma lookback_ge : win + 1 <= lookback_size_in_frames cfg.
Proof. unfold lookback_size_in_frames. pose proof window_step_pos. lia. Qed.

Lemma frames_exact n : n mod g = 0 -> bytes_to_frames g n * g = n.
Proof. intros E. unfold bytes_to_frames. pose proof g_pos. pose proof (Z.div_mod n g ltac:(lia)). lia. Qed.

Lemma bytes_of_frames n : bytes_to_frames g (frames_to_bytes g n) = n.
Proof. unfold bytes_to_frames, frames_to_bytes. apply Z.div_mul. pose proof g_pos. lia. Qed.

(** ** Blocks *)

(** The stored offsets are windows of the block. *)
Definition offsets_ok (b : active_block) : Prop :=
  forall key o, o ∈ for_each_value key (offsets b) -> 0 <= o /\ o + block_window_size cfg <= size_f b.

Record block_inv (b : active_block) : Prop := {
  bi_aligned : zlen (block_data b) mod g = 0;
  bi_size : size_f b <= bsf;
  bi_map : multimap_inv (offsets b);
  bi_offsets : offsets_ok b
}.

Lemma size_nonneg b : 0 <= size_f b.
Proof. unfold size_in_frames, bytes_to_frames. pose proof g_pos. pose proof (zlen_nonneg (block_data b)). apply Z.div_pos; lia. Qed.

Lemma size_bytes b : block_inv b -> size_f b * g = zlen (block_data b).
Proof. intros Hb. apply frames_exact, Hb. Qed.

Lemma offsets_ok_insert b key o : multimap_inv (offsets b) -> offsets_ok b ->
  0 <= o -> o + block_window_size cfg <= size_f b ->
  forall k o', o' ∈ for_each_value k (multimap_insert key o (offsets b)) ->
    0 <= o' /\ o' + block_window_size cfg <= size_f b.
Proof.
  intros Hm Ho H0 H1 k o'. rewrite for_each_value_insert by done. case_decide; [|apply Ho].
  rewrite elem_of_app, list_elem_of_singleton. intros [?| ->]; [by eapply Ho|done].
Qed.

(** What hashing changes: the hasher, the filters and the offsets. *)
Definition hashed (b b' : active_block) (gf gf' : bloom_filter) : Prop :=
  num b' = num b /\ block_data b' = block_data b /\ multimap_inv (offsets b') /\ offsets_ok b' /\
  size_ (filter b') = size_ (filter b) /\ size_ gf' = size_ gf.

Lemma hash_frame_spec rsm o b gf : multimap_inv (offsets b) -> offsets_ok b -> 0 <= o -> o + 1 <= size_f b ->
  size_f b <= bsf -> let '(b', gf') := hash_frame cfg g rsm o b gf in hashed b b' gf gf'.
Proof.
  intros Hm Ho H0 H1 Hbsf. unfold hash_frame. cbv zeta. set (h := if o <? _ then _ else _).
  destruct (Z.leb_spec (block_window_size cfg) (o + 1)); cbn [andb]; [|by split_and!].
  destruct (_ =? 0); [|by split_and!]. destruct (negb _); [|by split_and!].
  unfold hashed. cbn [num block_data offsets filter].
  pose proof bsf_range. pose proof block_window_nonneg.
  split_and!; try done.
  - by apply multimap_inv_insert.
  - unfold offsets_ok. cbn [offsets]. rewrite wrapu_small by (unfold in_u; lia).
    apply (offsets_ok_insert b); [done|done|lia|lia].
  - by destruct (0 <? size_ (filter b)).
Qed.

Lemma hash_frames_spec rsm l b gf : multimap_inv (offsets b) -> offsets_ok b -> size_f b <= bsf ->
  Forall (fun o => 0 <= o /\ o + 1 <= size_f b) l ->
  let '(b', gf') := foldl (fun '(b, gf) o => hash_frame cfg g rsm o b gf) (b, gf) l in hashed b b' gf gf'.
Proof.
  intros Hm Ho Hbsf Hl. revert b gf Hm Ho Hbsf Hl. induction l as [|o l IH]; intros b gf Hm Ho Hbsf Hl; cbn [foldl]; [by split_and!|].
  apply Forall_cons in Hl as [[H0 H1] Hl]. pose proof (hash_frame_spec rsm o b gf Hm Ho H0 H1 Hbsf) as Hs.
  destruct (hash_frame cfg g rsm o b gf) as [b1 gf1]. destruct Hs as (E1 & E2 & Hm1 & Ho1 & E3 & E4).
  assert (size_f b1 = size_f b) as Es by (unfold size_in_frames; by rewrite E2).
  specialize (IH b1 gf1 Hm1 Ho1 ltac:(lia)). rewrite Es in IH. specialize (IH Hl).
  destruct (foldl _ _ _) as [b2 gf2]. destruct IH as (? & ? & ? & ? & ? & ?). split_and!; congruence || done.
Qed.

Lemma append_bytes_spec rsm data off n b gf : block_inv b -> 0 <= off -> 0 <= n ->
  off * g + n * g <= zlen data -> size_f b + n <= bsf ->
  exists b' gf', append_bytes cfg g rsm data (off * g) (n * g) b gf = Ok (b', gf') /\ block_inv b' /\
    num b' = num b /\ block_data b' = block_data b ++ slice data (off * g) (n * g) /\
    size_f b' = size_f b + n /\ size_ (filter b') = size_ (filter b) /\ size_ gf' = size_ gf.
Proof.
  intros Hb Hoff Hn Hfit Hcap. pose proof g_pos. unfold append_bytes.
  change (bytes_to_frames g (n * g)) with (bytes_to_frames g (frames_to_bytes g n)). rewrite bytes_of_frames.
  destruct (Z.leb_spec (size_f b + n) bsf); [|lia]. cbn [negb]. cbv zeta.
  set (b1 := ActiveBlock (num b) _ _ _ _).
  assert (zlen (block_data b1) = (size_f b + n) * g) as Hz.
  { cbn. rewrite zlen_app, slice_length by nia. rewrite <- (size_bytes b) by done. lia. }
  assert (size_f b1 = size_f b + n) as Hs1.
  { unfold size_in_frames at 1. rewrite Hz. apply (bytes_of_frames (size_f b + n)). }
  assert (offsets_ok b1) as Ho1.
  { intros key o Hin. destruct (bi_offsets b Hb key o Hin). lia. }
  destruct (Z.ltb_spec 0 (block_window_size cfg)).
  - rewrite Hs1. pose proof (hash_frames_spec rsm (seqZ (size_f b) (size_f b + n - size_f b)) b1 gf (bi_map b Hb) Ho1) as Hf.
    destruct (foldl _ _ _) as [b2 gf2]. destruct Hf as (E1 & E2 & ? & ? & ? & ?); [lia| |].
    { apply Forall_forall. intros o Ho%elem_of_seqZ. pose proof (size_nonneg b). lia. }
    assert (size_f b2 = size_f b + n) as Hs2 by (unfold size_in_frames at 1; by rewrite E2).
    exists b2, gf2. split_and!; try done. split; [|lia|done|done]. rewrite E2, Hz. by apply Z.mod_mul; lia.
  - exists b1, gf. split_and!; try done. split; [|lia|apply Hb|done]. rewrite Hz. by apply Z.mod_mul; lia.
Qed.

(** ** Matches *)

Lemma match_len_frames m : 0 <= m -> let n := bytes_to_frames g (m - m mod g) in 0 <= n /\ n * g <= m.
Proof.
  intros Hm. cbv zeta. pose proof g_pos. unfold bytes_to_frames. pose proof (Z.div_mod m g ltac:(lia)).
  replace (m - m mod g) with (m / g * g) by lia. rewrite Z.div_mul by lia.
  pose proof (Z.div_pos m g). pose proof (Z.mod_pos_bound m g). lia.
Qed.

(** A match extended forward (backward) is equal bytes, frame by frame. *)
Lemma match_forward_spec data off v o n : 0 <= off -> 0 <= o -> 0 <= n ->
  off * g + n * g <= zlen data -> o * g + n * g <= zlen v ->
  let m := match_forward g data off (slice v (o * g) (n * g)) in
  0 <= m <= n /\ slice data (off * g) (m * g) = slice v (o * g) (m * g).
Proof.
  cbv zeta. intros. pose proof g_pos. unfold match_forward. cbv zeta.
  assert (zlen (slice v (o * g) (n * g)) = n * g) as Hz by (apply slice_length; nia). rewrite Hz.
  unfold frames_to_bytes. set (lhs := slice data (off * g) (n * g)). set (rhs := slice v (o * g) (n * g)).
  assert (zlen lhs = n * g) as Hl by (apply slice_length; nia).
  destruct (mismatch_le lhs rhs) as [Hm _]. unfold zlen in Hl.
  destruct (match_len_frames (Z.of_nat (mismatch lhs rhs)) ltac:(lia)) as [Hm1 Hm2]. set (m := bytes_to_frames _ _) in *.
  assert (m <= n) by nia. split; [lia|].
  assert (slice lhs 0 (m * g) = slice rhs 0 (m * g)) as E by (apply mismatch_prefix; nia).
  unfold lhs, rhs in E. rewrite !slice_slice in E by nia. by rewrite !Z.add_0_r in E.
Qed.

Lemma match_backward_spec data off v o n : 0 <= off -> 0 <= o -> 0 <= n ->
  off * g + n * g <= zlen data -> o * g + n * g <= zlen v ->
  let m := match_backward g data off (slice v (o * g) (n * g)) in
  0 <= m <= n /\ slice data ((off + n - m) * g) (m * g) = slice v ((o + n - m) * g) (m * g).
Proof.
  cbv zeta. intros. pose proof g_pos. unfold match_backward. cbv zeta.
  assert (zlen (slice v (o * g) (n * g)) = n * g) as Hz by (apply slice_length; nia). rewrite Hz.
  unfold frames_to_bytes. set (lhs := slice data (off * g) (n * g)). set (rhs := slice v (o * g) (n * g)).
  assert (zlen lhs = n * g) as Hl by (apply slice_length; nia).
  destruct (mismatch_le (rev lhs) (rev rhs)) as [Hm _]. rewrite length_rev in Hm. unfold zlen in Hl, Hz.
  destruct (match_len_frames (Z.of_nat (mismatch (rev lhs) (rev rhs))) ltac:(lia)) as [Hm1 Hm2]. set (m := bytes_to_frames _ _) in *.
  assert (m <= n) by nia. split; [lia|].
  assert (slice lhs (zlen lhs - m * g) (m * g) = slice rhs (zlen rhs - m * g) (m * g)) as E.
  { apply mismatch_suffix; [unfold rhs; lia|nia]. }
  unfold zlen in E. rewrite Hl in E. fold rhs in Hz. rewrite Hz in E.
  unfold lhs, rhs in E. rewrite !slice_slice in E by nia.
  replace ((off + n - m) * g) with (off * g + (n * g - m * g)) by lia.
  by replace ((o + n - m) * g) with (o * g + (n * g - m * g)) by lia.
Qed.

(** What a verified match is: [m_size] frames of the data at [m_pos], which
    contain the window, equal to the frames of the block at [m_offset]. *)
Record match_ok (data : list Z) (pos len begin end_ : Z) (m : segment_match) : Prop := {
  mo_begin : begin <= m_pos m <= pos;
  mo_end : pos + len <= m_pos m + m_size m <= end_;
  mo_block : 0 <= m_offset m /\ m_offset m + m_size m <= size_f (m_block m);
  mo_data : slice data (m_pos m * g) (m_size m * g) = slice (block_data (m_block m)) (m_offset m * g) (m_size m * g)
}.

Lemma verify_and_extend_spec data pos len begin end_ b o : block_inv b ->
  0 <= begin <= pos -> 0 < len -> pos + len <= end_ -> end_ * g <= zlen data ->
  0 <= o -> o + len <= size_f b ->
  let m := verify_and_extend g data pos len begin end_ (add_match b o) in
  m_block m = b /\ (m_size m = 0 \/ match_ok data pos len begin end_ m).
Proof.
  intros Hb Hbegin Hlen Hend Hdata Ho Hfit. pose proof g_pos. cbv zeta. unfold verify_and_extend, add_match.
  cbn [m_block m_offset]. unfold compare_eq, frames_to_bytes. cbv zeta beta. pose proof (size_bytes b Hb) as Hz.
  fold (size_f b). set (v := block_data b) in *.
  assert (zlen (slice v (o * g) (len * g)) = len * g) as Hzl by (apply slice_length; nia). rewrite Hzl.
  case_bool_decide as Heq; [|split; [done|by left]].
  set (begin' := if begin + o <? pos then pos - o else begin).
  set (end' := if size_f b - o <? end_ - pos then pos + (size_f b - o) else end_).
  assert (begin <= begin' <= pos /\ pos - begin' <= o) as [Hb1 Hb2] by (unfold begin'; destruct (Z.ltb_spec (begin + o) pos); lia).
  assert (pos + len <= end' <= end_ /\ end' - pos <= size_f b - o) as [He1 He2]
    by (unfold end'; destruct (Z.ltb_spec (size_f b - o) (end_ - pos)); lia).
  destruct (match_backward_spec data begin' v (o - (pos - begin')) (pos - begin')) as [Hp Ep]; [nia..|].
  set (pm := match_backward _ _ _ _) in *.
  destruct (match_forward_spec data (pos + len) v (o + len) (end' - (pos + len))) as [Hs Es]; [nia..|].
  set (sm := match_forward _ _ _ _) in *. pose proof bsf_range. pose proof (bi_size b Hb). pose proof (size_nonneg b).
  replace (begin' + (pos - begin') - pm) with (pos - pm) in Ep by lia.
  replace (o - (pos - begin') + (pos - begin') - pm) with (o - pm) in Ep by lia.
  rewrite !wrapu_small by (unfold in_u; lia). split; [done|right]. split; cbn [m_block m_offset m_size m_pos]; fold v; try lia.
  replace ((len + pm + sm) * g) with (pm * g + (len * g + sm * g)) by lia.
  rewrite !(slice_add _ _ (pm * g)), !(slice_add _ _ (len * g)) by nia.
  rewrite Ep. replace ((pos - pm) * g + pm * g) with (pos * g) by lia. replace ((o - pm) * g + pm * g) with (o * g) by lia.
  rewrite Heq. f_equal. f_equal. replace (pos * g + len * g) with ((pos + len) * g) by lia.
  by replace (o * g + len * g) with ((o + len) * g) by lia.
Qed.

Lemma max_element_in m ms : max_element m ms ∈ m :: ms.
Proof.
  unfold max_element. revert m. induction ms as [|m' ms IH]; intros m; [by apply list_elem_of_singleton|].
  cbn [foldl]. specialize (IH (if match_lt m m' then m' else m)). rewrite !elem_of_cons in *.
  destruct (match_lt m m'); tauto.
Qed.

(** ** The store: what the chunks refer to *)

(** The last block while it is still open. *)
Definition open_block (s : segmenter) : list (Z * list Z) :=
  match last (blocks s) with
  | Some b => if is_full b then [] else [(num b, block_data b)]
  | None => []
  end.

(** Every block, by number: those handed over and the open one. *)
Definition store (s : segmenter) : list (Z * list Z) := ready s ++ open_block s.

Definition chunk_holds (st : list (Z * list Z)) (c : chunk_ref) (x : list Z) : Prop :=
  match c with
  | HoleChunk n => 0 <= n /\ x = replicate (Z.to_nat n) 0
  | DataChunk n off size =>
      exists d, (n, d) ∈ st /\ 0 <= off /\ 0 <= size /\ off + size <= zlen d /\ x = slice d off size
  end.

Definition chunks_hold (st : list (Z * list Z)) (cs : list chunk_ref) (x : list Z) : Prop :=
  exists xs, Forall2 (chunk_holds st) cs xs /\ x = concat xs.

(** Blocks only grow. *)
Definition extends (st st' : list (Z * list Z)) : Prop :=
  forall n d, (n, d) ∈ st -> exists d', (n, d ++ d') ∈ st'.

#[export] Instance extends_preorder : PreOrder extends.
Proof.
  split.
  - intros st n d H. exists []. by rewrite app_nil_r.
  - intros st1 st2 st3 H12 H23 n d H. destruct (H12 n d H) as [d1 H1]. destruct (H23 _ _ H1) as [d2 H2].
    exists (d1 ++ d2). by rewrite app_assoc.
Qed.

Lemma chunk_holds_extends st st' c x : extends st st' -> chunk_holds st c x -> chunk_holds st' c x.
Proof.
  intros He. destruct c as [n off size|n]; [|done]. intros (d & Hin & H0 & H1 & H2 & ->).
  destruct (He n d Hin) as [d' Hin']. exists (d ++ d'). rewrite zlen_app. pose proof (zlen_nonneg d').
  split_and!; try done; try lia. by rewrite slice_app_l.
Qed.

Lemma chunks_hold_extends st st' cs x : extends st st' -> chunks_hold st cs x -> chunks_hold st' cs x.
Proof.
  intros He (xs & Hf & ->). exists xs. split; [|done]. eapply Forall2_impl; [exact Hf|].
  intros c x. by apply chunk_holds_extends.
Qed.

Lemma chunks_hold_snoc st cs c x y : chunks_hold st cs x -> chunk_holds st c y -> chunks_hold st (cs ++ [c]) (x ++ y).
Proof.
  intros (xs & Hf & ->) Hc. exists (xs ++ [y]). split; [by apply Forall2_app; [|constructor]|].
  by rewrite concat_app, concat_cons, app_nil_r.
Qed.

(** Data the open chunk covers but no emitted chunk does. *)
Definition pending (s : segmenter) : list Z :=
  match last (blocks s) with
  | Some b => slice (block_data b) (chunk_offset s * g) (chunk_size s * g)
  | None => []
  end.

(** The chunkable's data so far: the chunks emitted and the pending data. *)
Definition emitted (s : segmenter) (x : list Z) : Prop :=
  exists y, chunks_hold (store s) (chunks s) y /\ x = y ++ pending s.

(** The open chunk ends at the end of the last block. *)
Definition chunk_inv (s : segmenter) : Prop :=
  match last (blocks s) with
  | None => chunk_offset s = 0 /\ chunk_size s = 0
  | Some b =>
      0 <= chunk_offset s /\ 0 <= chunk_size s /\
      (if is_full b then chunk_offset s = 0 /\ chunk_size s = 0
       else chunk_offset s + chunk_size s = size_f b)
  end.

Definition filters_inv (s : segmenter) : Prop :=
  is_multi_block_mode cfg = true ->
  (exists k, 0 <= k /\ size_ (global_filter s) = 2 ^ k /\ 64 <= 2 ^ k) /\
  Forall (fun b => size_ (filter b) = size_ (global_filter s)) (blocks s).

(** A chunk that is not empty, and of whole frames; holes only when enabled. *)
Definition aligned (c : chunk_ref) : Prop :=
  match c with
  | HoleChunk n => 0 < n /\ enable_sparse_files cfg = true
  | DataChunk _ off size => off mod g = 0 /\ size mod g = 0 /\ 0 < size
  end.

(** A block that may be handed over. *)
Definition stored_ok (e : Z * list Z) : Prop := zlen e.2 mod g = 0 /\ zlen e.2 <= bsf * g.

Record seg_inv (s : segmenter) : Prop := {
  si_blocks : Forall block_inv (blocks s);
  si_full : Forall (fun b => is_full b = true) (removelast (blocks s));
  si_ready : Forall (fun b => is_full b = true -> (num b, block_data b) ∈ ready s) (blocks s);
  si_nums : NoDup (store s).*1;
  si_alloc : Forall (fun n => exists i, (i < logical_blocks s)%nat /\ n = logical_block i) (store s).*1;
  si_chunk : chunk_inv s;
  si_filters : filters_inv s;
  si_empty : blocks s = [] -> forall x, bloom_test (global_filter s) x = false;
  si_stored : Forall stored_ok (ready s);
  si_aligned : Forall aligned (chunks s)
}.

Lemma last_in {A} (l : list A) b : last l = Some b -> b ∈ l.
Proof. intros H. apply last_Some in H as [l' ->]. apply elem_of_app. right. by apply list_elem_of_singleton. Qed.

Lemma removelast_snoc {A} (l : list A) b : removelast (l ++ [b]) = l.
Proof. induction l as [|x l IH]; [done|]. cbn. rewrite IH. by destruct l. Qed.

Lemma split_last {A} (l : list A) b : last l = Some b -> l = removelast l ++ [b].
Proof. intros H. apply last_Some in H as [l' ->]. by rewrite removelast_snoc. Qed.

(** Every active block is in the store. *)
Lemma block_in_store s b : seg_inv s -> b ∈ blocks s -> (num b, block_data b) ∈ store s.
Proof.
  intros Hs Hb. unfold store. apply elem_of_app. destruct (is_full b) eqn:Hfull.
  { left. pose proof (si_ready s Hs) as H. rewrite Forall_forall in H. by apply H. }
  right. unfold open_block. destruct (last (blocks s)) as [l|] eqn:El.
  - rewrite (split_last _ _ El) in Hb. apply elem_of_app in Hb as [Hb|Hb].
    + pose proof (si_full s Hs) as H. rewrite Forall_forall in H. rewrite (H b Hb) in Hfull. done.
    + apply list_elem_of_singleton in Hb as ->. rewrite Hfull. by apply list_elem_of_singleton.
  - apply last_None in El. rewrite El in Hb. by apply not_elem_of_nil in Hb.
Qed.

Lemma last_block_inv s b : seg_inv s -> last (blocks s) = Some b -> block_inv b.
Proof. intros Hs Hb. pose proof (si_blocks s Hs) as H. rewrite Forall_forall in H. by apply H, last_in. Qed.

Lemma back_ok s b : last (blocks s) = Some b -> back s = (Ok b, s).
Proof. intros H. unfold back. rewrite abind_get, H. done. Qed.

(** *** finish_chunk *)

(** Emitting the pending data; [b] is the last block. *)
Definition chunk_finished (s s' : segmenter) : Prop :=
  blocks s' = blocks s /\ ready s' = ready s /\ logical_blocks s' = logical_blocks s /\
  global_filter s' = global_filter s /\ chunk_size s' = 0.

Lemma finish_chunk_last st s b y : last (blocks s) = Some b -> block_inv b ->
  0 <= chunk_offset s -> 0 <= chunk_size s -> chunk_offset s + chunk_size s = size_f b ->
  (num b, block_data b) ∈ st -> Forall aligned (chunks s) -> chunks_hold st (chunks s) y ->
  exists s', finish_chunk cfg g s = (Ok tt, s') /\ chunk_finished s s' /\
    Forall aligned (chunks s') /\ chunks_hold st (chunks s') (y ++ pending s) /\
    chunk_offset s' = (if 0 <? chunk_size s then if is_full b then 0 else size_f b else chunk_offset s).
Proof.
  intros Hl Hb H0 H1 Hsum Hin Hal Hy. pose proof g_pos. unfold finish_chunk. rewrite abind_get.
  unfold pending. rewrite Hl. destruct (Z.ltb_spec 0 (chunk_size s)).
  - erewrite abind_ok by (by apply back_ok). unfold add_chunk, set_chunk, modify, abind.
    eexists. split; [reflexivity|]. split_and!; try done; cbn [chunks chunk_offset].
    + apply Forall_app. split; [done|]. constructor; [|constructor]. unfold aligned, frames_to_bytes.
      split_and!; [apply Z.mod_mul; lia|apply Z.mod_mul; lia|nia].
    + apply chunks_hold_snoc; [done|]. exists (block_data b). unfold frames_to_bytes.
      pose proof (size_bytes b Hb). split_and!; try done; nia.
  - exists s. assert (chunk_size s = 0) as E by lia. rewrite E, slice_0, app_nil_r. by split_and!.
Qed.

Lemma finish_chunk_spec s x : seg_inv s -> emitted s x ->
  exists s', finish_chunk cfg g s = (Ok tt, s') /\ seg_inv s' /\ chunk_finished s s' /\
    chunks_hold (store s') (chunks s') x.
Proof.
  intros Hs Hx. pose proof (si_chunk s Hs) as Hc. unfold chunk_inv in Hc.
  destruct (last (blocks s)) as [b|] eqn:El.
  - pose proof (last_block_inv s b Hs El) as Hb. destruct Hc as (H0 & H1 & Hc).
    destruct (is_full b) eqn:Hfull.
    + destruct Hc as [Ho Hsz]. exists s. unfold finish_chunk. rewrite abind_get, Hsz. split_and!; try done.
      destruct Hx as (y & Hy & ->). unfold pending. by rewrite El, Hsz, slice_0, app_nil_r.
    + destruct Hx as (y & Hy & ->).
      destruct (finish_chunk_last (store s) s b y) as (s' & -> & (E1 & E2 & E3 & E4 & E5) & Ha & Hh & Ho); try done; [|apply Hs|].
      { by apply block_in_store, last_in. }
      exists s'. assert (store s' = store s) as Est by (unfold store, open_block; by rewrite E1, E2).
      split_and!; try done; [|by rewrite Est]. destruct Hs. split; rewrite ?E1, ?E2, ?E3, ?E4, ?Est; try done.
      * unfold chunk_inv. rewrite E1, El, E5, Ho, Hfull. destruct (Z.ltb_spec 0 (chunk_size s)); pose proof (size_nonneg b); lia.
      * unfold filters_inv. by rewrite E1, E4.
  - destruct Hc as [Ho Hsz]. exists s. unfold finish_chunk. rewrite abind_get, Hsz. split_and!; try done.
    destruct Hx as (y & Hy & ->). unfold pending. by rewrite El, app_nil_r.
Qed.

(** *** new_block *)

Lemma merge_filters_ok bs gf : Forall (fun b => size_ (filter b) = size_ gf) bs ->
  exists gf', merge_filters bs gf = Ok gf' /\ size_ gf' = size_ gf.
Proof.
  intros Hbs. revert gf Hbs. induction bs as [|b bs IH]; intros gf Hbs; [by exists gf|].
  apply Forall_cons in Hbs as [Hb Hbs]. cbn [merge_filters]. unfold bloom_merge. rewrite Hb, Z.eqb_refl. cbn [negb rbind].
  destruct (IH (BloomFilter (zip_with Z.lor (bits_ gf) (bits_ (filter b))) (index_mask_ gf) (size_ gf)) Hbs) as (gf' & -> & E).
  by exists gf'.
Qed.

Lemma new_filters_ok s bs : filters_inv s -> (forall b, b ∈ bs -> b ∈ blocks s) ->
  exists gf, (if is_segmentation_enabled cfg then
      if is_multi_block_mode cfg then lift_filter (merge_filters bs (bloom_clear (global_filter s)))
      else ret (bloom_clear (global_filter s))
    else ret (global_filter s)) s = (Ok gf, s) /\ size_ gf = size_ (global_filter s).
Proof.
  intros Hf Hin. destruct (is_segmentation_enabled cfg) eqn:Ee; [|by exists (global_filter s)].
  destruct (is_multi_block_mode cfg) eqn:Em; [|by exists (bloom_clear (global_filter s))].
  destruct (Hf Em) as [_ Hb]. destruct (merge_filters_ok bs (bloom_clear (global_filter s))) as (gf & E & Hsz).
  { apply Forall_forall. intros b Hb'. rewrite Forall_forall in Hb. apply Hb, Hin, Hb'. }
  exists gf. by rewrite E.
Qed.

Lemma block_filter_ok gf : (is_multi_block_mode cfg = true -> exists k, 0 <= k /\ size_ gf = 2 ^ k /\ 64 <= 2 ^ k) ->
  exists f, bloom_create (if is_multi_block_mode cfg then size_ gf else 0) = Ok f /\
    (is_multi_block_mode cfg = true -> size_ f = size_ gf).
Proof.
  intros H. destruct (is_multi_block_mode cfg); [|by eexists].
  destruct (H eq_refl) as (k & Hk & -> & Hle). destruct (bloom_create_spec k Hk) as (f & -> & _ & Hs & _).
  exists f. split; [done|]. intros _. rewrite Hs. lia.
Qed.

(** The state in which [append_to_block] asks for a new block. *)
Definition needs_block (s : segmenter) : bool :=
  match last (blocks s) with None => true | Some b => is_full b end.

Lemma needs_block_full s : seg_inv s -> needs_block s = true ->
  Forall (fun b => is_full b = true) (blocks s) /\ store s = ready s /\ chunk_offset s = 0 /\ chunk_size s = 0 /\
  pending s = [].
Proof.
  intros Hs Hn. unfold needs_block in Hn. pose proof (si_chunk s Hs) as Hc. unfold chunk_inv in Hc.
  unfold store, open_block, pending. destruct (last (blocks s)) as [b|] eqn:El.
  - rewrite Hn in Hc. destruct Hc as (_ & _ & Ho & Hsz). rewrite Hn, Hsz, app_nil_r. split_and!; try done.
    rewrite (split_last _ _ El). apply Forall_app. split; [apply Hs|by constructor].
  - apply last_None in El. rewrite El, app_nil_r. destruct Hc. by split_and!.
Qed.

Lemma tail_in {A} (l : list A) x : x ∈ tail l -> x ∈ l.
Proof. destruct l; [done|]. by right. Qed.

Lemma new_block_spec s : seg_inv s -> needs_block s = true ->
  exists s' b, new_block cfg logical_block s = (Ok tt, s') /\ seg_inv s' /\ extends (store s) (store s') /\
    last (blocks s') = Some b /\ block_data b = [] /\ chunks s' = chunks s /\ chunk_size s' = 0.
Proof.
  intros Hs Hn. destruct (needs_block_full s Hs Hn) as (Hfull & Hst & Ho & Hsz & _).
  unfold new_block. rewrite abind_get. set (bs := if _ <=? _ then _ else _).
  assert (forall b, b ∈ bs -> b ∈ blocks s) as Hbs by (intros b; unfold bs; destruct (_ <=? _); [apply tail_in|done]).
  destruct (new_filters_ok s bs (si_filters s Hs) Hbs) as (gf & E & Hgf). cbv zeta. erewrite abind_ok by exact E. clear E.
  erewrite (abind_ok (get_logical_block logical_block)) by reflexivity. set (s1 := Segmenter _ _ _ _ _ _ _ _).
  destruct (block_filter_ok gf) as (f & Ef & Hf).
  { intros Hm. rewrite Hgf. apply (si_filters s Hs Hm). }
  rewrite Ef. cbn [lift_filter]. rewrite abind_ret, step_check. cbn [Z.eqb negb].
  set (b := ActiveBlock (logical_block (logical_blocks s)) rsync_init f multimap_empty []).
  assert (is_full b = false) as Hb0.
  { apply Z.eqb_neq. change (size_f b) with (bytes_to_frames g 0). unfold bytes_to_frames. rewrite Zdiv_0_l.
    pose proof bsf_range. lia. }
  eexists _, b. split; [reflexivity|].
  assert (forall b', b' ∈ bs ++ [b] -> b' ∈ blocks s \/ b' = b) as Hcase.
  { intros b' [H|H]%elem_of_app; [left; by apply Hbs|right; by apply list_elem_of_singleton]. }
  assert (store (Segmenter (chunk_offset s1) (chunk_size s1) gf (bs ++ [b]) (repeating_sequence_hash_values s1)
    (logical_blocks s1) (ready s1) (chunks s1)) = ready s ++ [(logical_block (logical_blocks s), [])]) as Est.
  { unfold store, open_block. cbn [blocks ready]. by rewrite last_snoc, Hb0. }
  split_and!; try done; [|rewrite Hst, Est; intros n d H; exists []; rewrite app_nil_r; apply elem_of_app; by left|cbn; apply last_snoc].
  pose proof (si_alloc s Hs) as Halloc. pose proof (si_nums s Hs) as Hnums. rewrite Hst in Halloc, Hnums.
  split; rewrite ?Est; cbn [blocks ready chunks logical_blocks global_filter s1 chunk_offset chunk_size].
  - apply Forall_forall. intros b' [H| ->]%Hcase; [by eapply Forall_forall in H; [|apply Hs]|].
    split; cbn; [by apply Z.mod_0_l; pose proof g_pos; lia| |apply multimap_inv_empty|].
    + change (bytes_to_frames g 0 <= bsf). unfold bytes_to_frames. rewrite Zdiv_0_l. pose proof bsf_range. lia.
    + intros key o H. unfold for_each_value in H. cbn in H. rewrite lookup_empty in H. by apply not_elem_of_nil in H.
  - rewrite removelast_snoc. apply Forall_forall. intros b' H. rewrite Forall_forall in Hfull. by apply Hfull, Hbs.
  - apply Forall_forall. intros b' [H| ->]%Hcase Hb'; [|congruence].
    pose proof (si_ready s Hs) as Hr. rewrite Forall_forall in Hr. by apply Hr.
  - rewrite fmap_app. apply NoDup_app. split_and!; [done| |apply NoDup_singleton].
    intros n Hin Hn'. apply list_elem_of_singleton in Hn'. cbn in Hn'. subst n.
    rewrite Forall_forall in Halloc. destruct (Halloc _ Hin) as (i & Hi & E). apply Hinj in E. lia.
  - rewrite fmap_app. apply Forall_app. split.
    + eapply Forall_impl; [exact Halloc|]. intros n (i & Hi & ->). exists i. split; [lia|done].
    + constructor; [|constructor]. exists (logical_blocks s). split; [lia|done].
  - unfold chunk_inv. cbn [blocks chunk_offset chunk_size]. rewrite last_snoc, Hb0, Ho, Hsz.
    change (size_f b) with (bytes_to_frames g 0). unfold bytes_to_frames. rewrite Zdiv_0_l. lia.
  - intros Hm. cbn [global_filter blocks]. rewrite Hgf. destruct (si_filters s Hs Hm) as [Hk Hall]. split; [done|].
    apply Forall_forall. intros b' [H| ->]%Hcase; [by eapply Forall_forall in H; [|exact Hall]|].
    cbn. by rewrite Hf, Hgf.
  - intros H. by apply app_nil in H as [_ ?].
  - apply Hs.
  - apply Hs.
Qed.

(** *** append_to_block *)

(** A state in which the open block [b] has become [b']. *)
Lemma append_inv s b b' s' : seg_inv s -> last (blocks s) = Some b -> is_full b = false ->
  block_inv b' -> num b' = num b -> size_ (filter b') = size_ (filter b) ->
  blocks s' = removelast (blocks s) ++ [b'] ->
  ready s' = ready s ++ (if is_full b' then [(num b', block_data b')] else []) ->
  logical_blocks s' = logical_blocks s -> size_ (global_filter s') = size_ (global_filter s) ->
  chunk_inv s' -> Forall aligned (chunks s') ->
  seg_inv s' /\ store s' = ready s ++ [(num b, block_data b')].
Proof.
  intros Hs Hl Hnf Hb' Hnum Hf Ebl Er Elb Egf Hc Ha.
  assert (store s = ready s ++ [(num b, block_data b)]) as Est by (unfold store, open_block; by rewrite Hl, Hnf).
  assert (store s' = ready s ++ [(num b, block_data b')]) as Est'.
  { unfold store, open_block. rewrite Ebl, last_snoc, Er, <- Hnum. destruct (is_full b'); [by rewrite app_nil_r|by rewrite app_nil_r]. }
  pose proof (split_last _ _ Hl) as Esp. destruct Hs as [I1 I2 I3 I4 I5 I6 I7 I8 I9 I10].
  rewrite Esp in I1, I3. apply Forall_app in I1 as [I1 _]. apply Forall_app in I3 as [I3 _].
  rewrite Est, fmap_app in I4, I5. split; [|done].
  split; rewrite ?Est', ?fmap_app; try done.
  - rewrite Ebl. apply Forall_app. split; [done|by constructor].
  - by rewrite Ebl, removelast_snoc.
  - rewrite Ebl, Er. apply Forall_app. split.
    + eapply Forall_impl; [exact I3|]. intros b0 H0 H1. apply elem_of_app. left. by apply H0.
    + constructor; [|constructor]. intros ->. apply elem_of_app. right. by apply list_elem_of_singleton.
  - by rewrite Elb.
  - intros Hm. destruct (I7 Hm) as [Hk Hall]. rewrite Egf. split; [done|]. rewrite Ebl.
    rewrite Esp in Hall. apply Forall_app in Hall as [Hall Hlast]. apply Forall_app. split; [done|].
    constructor; [|constructor]. apply Forall_cons in Hlast as [? _]. congruence.
  - intros E. rewrite Ebl in E. by apply app_nil in E as [_ ?].
  - rewrite Er. apply Forall_app. split; [done|]. destruct (is_full b'); [|constructor]. constructor; [|constructor].
    split; cbn; [apply Hb'|]. rewrite <- (size_bytes b') by done. pose proof (bi_size b' Hb'). pose proof g_pos. nia.
Qed.

Lemma extends_grow r n d d' : extends (r ++ [(n, d)]) (r ++ [(n, d ++ d')]).
Proof.
  intros m x [H|H]%elem_of_app.
  - exists []. rewrite app_nil_r. apply elem_of_app. by left.
  - apply list_elem_of_singleton in H as [= -> ->]. exists d'. apply elem_of_app. right. by apply list_elem_of_singleton.
Qed.

(** The second part of [append_to_block], with an open last block. *)
Definition append_open (data : list Z) (off n : Z) : seg unit :=
  let! block := back in
  let! s := get in
  match append_bytes cfg g (repeating_sequence_hash_values s) data (frames_to_bytes g off)
          (frames_to_bytes g n) block (global_filter s) with
  | Err e => throw e
  | Ok (block, gf) =>
      set_blocks (removelast (blocks s) ++ [block]) gf ;;
      set_chunk (chunk_offset s) (chunk_size s + n) ;;
      if is_full block then finish_chunk cfg g ;; block_ready else ret tt
  end.

Lemma append_open_spec data off n s b x : seg_inv s -> last (blocks s) = Some b -> is_full b = false ->
  0 <= off -> 0 <= n -> off * g + n * g <= zlen data -> size_f b + n <= bsf -> emitted s x ->
  exists s' b', append_open data off n s = (Ok tt, s') /\ seg_inv s' /\ extends (store s) (store s') /\
    emitted s' (x ++ slice data (off * g) (n * g)) /\
    last (blocks s') = Some b' /\ size_f b' = size_f b + n.
Proof.
  intros Hs Hl Hnf Hoff Hn Hfit Hcap (y & Hy & ->). pose proof (last_block_inv s b Hs Hl) as Hb. pose proof g_pos.
  destruct (append_bytes_spec (repeating_sequence_hash_values s) data off n b (global_filter s) Hb Hoff Hn Hfit Hcap)
    as (b' & gf' & E & Hb' & Hnum & Hdata & Hsize & Hf & Hgf).
  unfold append_open. erewrite abind_ok by (by apply back_ok). rewrite abind_get. unfold frames_to_bytes. rewrite E.
  unfold set_blocks at 1, set_chunk at 1, modify at 1 2. erewrite abind_ok by reflexivity. erewrite abind_ok by reflexivity.
  cbn [chunk_offset chunk_size global_filter blocks repeating_sequence_hash_values logical_blocks ready chunks].
  set (s1 := Segmenter _ _ _ _ _ _ _ _).
  pose proof (si_chunk s Hs) as Hc. unfold chunk_inv in Hc. rewrite Hl, Hnf in Hc. destruct Hc as (Hc0 & Hc1 & Hc2).
  assert (last (blocks s1) = Some b') as Hl1 by (cbn; apply last_snoc).
  assert (pending s1 = pending s ++ slice data (off * g) (n * g)) as Epend.
  { unfold pending. rewrite Hl1, Hl. cbn [s1 chunk_offset chunk_size]. rewrite Hdata.
    pose proof (size_bytes b Hb) as Ez.
    replace ((chunk_size s + n) * g) with (zlen (block_data b) - chunk_offset s * g + zlen (slice data (off * g) (n * g)))
      by (rewrite slice_length by nia; nia).
    rewrite slice_app_end by nia. do 2 f_equal. nia. }
  assert (extends (store s) (ready s ++ [(num b, block_data b')])) as Hext.
  { assert (store s = ready s ++ [(num b, block_data b)]) as -> by (unfold store, open_block; by rewrite Hl, Hnf).
    rewrite Hdata. apply extends_grow. }
  pose proof (chunks_hold_extends _ _ _ _ Hext Hy) as Hy1.
  destruct (is_full b') eqn:Hfull.
  - destruct (finish_chunk_last (ready s ++ [(num b, block_data b')]) s1 b' y) as (s2 & E2 & (F1 & F2 & F3 & F4 & F5) & Ha & Hh & Ho);
      try done; [cbn; lia|cbn; lia|rewrite <- Hnum; apply elem_of_app; right; by apply list_elem_of_singleton|apply Hs|].
    erewrite abind_ok by exact E2. unfold block_ready. erewrite abind_ok by (apply back_ok; by rewrite F1).
    unfold modify. eexists _, b'. split; [reflexivity|].
    match goal with |- seg_inv ?s' /\ _ => set (s3 := s') end.
    destruct (append_inv s b b' s3) as [Hs3 Est3]; try done.
    + cbn. by rewrite F2, Hfull.
    + cbn. by rewrite F4.
    + unfold chunk_inv. cbn [s3 blocks chunk_offset chunk_size]. rewrite F1, Hl1, Hfull, F5, Ho.
      cbn [s1 chunk_size chunk_offset]. rewrite Hfull. destruct (Z.ltb_spec 0 (chunk_size s + n)); [lia|].
      apply Z.eqb_eq in Hfull. apply Z.eqb_neq in Hnf. lia.
    + rewrite Est3. split_and!; try done.
      * exists (y ++ pending s1). rewrite Est3. split; [exact Hh|].
        unfold pending at 3. cbn [s3 blocks chunk_size]. rewrite F1, Hl1, F5, slice_0, app_nil_r.
        by rewrite Epend, app_assoc.
      * cbn. by rewrite F1.
  - eexists _, b'. split; [reflexivity|]. destruct (append_inv s b b' s1) as [Hs1 Est1]; try done.
    + cbn. by rewrite Hfull, app_nil_r.
    + unfold chunk_inv. rewrite Hl1, Hfull. cbn. lia.
    + apply Hs.
    + rewrite Est1. split_and!; try done. exists y. rewrite Est1. split; [exact Hy1|]. by rewrite Epend, app_assoc.
Qed.

(** The frames in the last block. *)
Definition cur (s : segmenter) : Z := match last (blocks s) with None => 0 | Some b => size_f b end.

Lemma append_to_block_spec data off n s x : seg_inv s -> 0 <= off -> 0 <= n -> off * g + n * g <= zlen data ->
  (if needs_block s then 0 else cur s) + n <= bsf -> emitted s x ->
  exists s', append_to_block cfg g logical_block data off n s = (Ok tt, s') /\ seg_inv s' /\
    extends (store s) (store s') /\ emitted s' (x ++ slice data (off * g) (n * g)) /\ blocks s' <> [] /\
    cur s' = (if needs_block s then 0 else cur s) + n.
Proof.
  intros Hs Hoff Hn Hfit Hcap Hx. unfold append_to_block. rewrite abind_get. fold (needs_block s).
  change (let! block := back in let! s0 := get in _) with (append_open data off n).
  destruct (needs_block s) eqn:Hneed.
  - destruct (new_block_spec s Hs Hneed) as (s1 & b & E1 & Hs1 & He1 & Hl1 & Hd & Ech & Esz).
    erewrite abind_ok by exact E1.
    assert (size_f b = 0) as Hb0 by (unfold size_in_frames, bytes_to_frames; rewrite Hd; apply Zdiv_0_l).
    assert (is_full b = false) as Hnf by (apply Z.eqb_neq; rewrite Hb0; pose proof bsf_range; lia).
    assert (emitted s1 x) as Hx1.
    { destruct Hx as (y & Hy & ->). exists y. rewrite Ech. split; [by eapply chunks_hold_extends|].
      destruct (needs_block_full s Hs Hneed) as (_ & _ & _ & _ & ->). unfold pending. by rewrite Hl1, Esz. }
    destruct (append_open_spec data off n s1 b x Hs1 Hl1 Hnf Hoff Hn Hfit ltac:(lia) Hx1)
      as (s2 & b2 & E2 & Hs2 & He2 & Hx2 & Hl2 & Hsz).
    exists s2. split_and!; try done; [by etransitivity|by intros H; rewrite H in Hl2|]. unfold cur. rewrite Hl2. lia.
  - unfold ret at 1. erewrite abind_ok by reflexivity. unfold needs_block in Hneed. unfold cur in Hcap |- *.
    destruct (last (blocks s)) as [b|] eqn:Hl; [|done].
    destruct (append_open_spec data off n s b x Hs Hl Hneed Hoff Hn Hfit Hcap Hx)
      as (s2 & b2 & E2 & Hs2 & He2 & Hx2 & Hl2 & Hsz).
    exists s2. split_and!; try done; [by intros H; rewrite H in Hl2|]. by rewrite Hl2.
Qed.

(** *** add_data *)

Lemma cur_needs s : seg_inv s -> 0 <= cur s <= bsf /\ (needs_block s = false -> cur s < bsf) /\
  (needs_block s = true -> cur s = bsf \/ cur s = 0).
Proof.
  intros Hs. unfold cur, needs_block. pose proof bsf_range. destruct (last (blocks s)) as [b|] eqn:Hl.
  - pose proof (last_block_inv s b Hs Hl) as Hb. pose proof (bi_size b Hb). pose proof (size_nonneg b).
    unfold full. split_and!; try lia; destruct (Z.eqb_spec (size_f b) bsf); try done; try lia; auto.
  - split_and!; try lia; auto; done.
Qed.

Lemma add_data_loop_spec fuel data off n s x : seg_inv s -> 0 <= off -> 0 <= n -> off * g + n * g <= zlen data ->
  2 * n <= Z.of_nat fuel + (if needs_block s then 0 else 1) -> emitted s x ->
  exists s', add_data_loop cfg g logical_block fuel data off n s = (Ok tt, s') /\ seg_inv s' /\
    extends (store s) (store s') /\ emitted s' (x ++ slice data (off * g) (n * g)) /\
    (blocks s <> [] -> blocks s' <> []).
Proof.
  revert off n s x. induction fuel as [|fuel IH]; intros off n s x Hs Hoff Hn Hfit Hfuel Hx; cbn [add_data_loop].
  { destruct (Z.ltb_spec 0 n); [destruct (needs_block s); lia|]. assert (n = 0) as -> by lia.
    exists s. rewrite slice_0, app_nil_r. by split_and!. }
  destruct (Z.ltb_spec 0 n); [|assert (n = 0) as -> by lia; exists s; rewrite slice_0, app_nil_r; by split_and!].
  rewrite abind_get. fold (cur s). destruct (cur_needs s Hs) as (Hcur & Hopen & Hneeds). pose proof bsf_range. pose proof g_pos.
  set (m := Z.min n (bsf - cur s)).
  destruct (append_to_block_spec data off m s x) as (s1 & E1 & Hs1 & He1 & Hx1 & Hne1 & Hcur1); try done; try nia.
  { destruct (needs_block s); lia. }
  erewrite abind_ok by exact E1.
  destruct (IH (off + m) (n - m) s1 (x ++ slice data (off * g) (m * g)) Hs1) as (s2 & E2 & Hs2 & He2 & Hx2 & Hne2); try done; try nia.
  - destruct (needs_block s) eqn:Hnd; [|destruct (needs_block s1); lia].
    destruct (cur_needs s1 Hs1) as (Hc1 & _ & Hn1).
    destruct (Hneeds eq_refl) as [Hc|Hc]; [|destruct (needs_block s1); lia].
    assert (m = 0) by lia. destruct (needs_block s1) eqn:Hnd1; [|lia].
    (* an open block was made, so the new state needs none *)
    exfalso. destruct (Hn1 eq_refl) as [|Hz]; [lia|]. unfold needs_block, cur in *.
    destruct (last (blocks s1)) as [b1|] eqn:El1; [|by apply last_None in El1].
    apply Z.eqb_eq in Hnd1. lia.
  - exists s2. split_and!; try done; [by etransitivity| |auto].
    replace (n * g) with (m * g + (n - m) * g) by lia. rewrite slice_add by nia.
    rewrite app_assoc. by replace (off * g + m * g) with ((off + m) * g) by lia.
Qed.

Lemma add_data_spec data off n s x : seg_inv s -> 0 <= off -> 0 <= n -> off * g + n * g <= zlen data -> emitted s x ->
  exists s', add_data cfg g logical_block data off n s = (Ok tt, s') /\ seg_inv s' /\
    extends (store s) (store s') /\ emitted s' (x ++ slice data (off * g) (n * g)) /\
    (blocks s <> [] -> blocks s' <> []).
Proof.
  intros. unfold add_data. apply add_data_loop_spec; try done. destruct (needs_block s); lia.
Qed.

(** *** Finding matches *)

Definition candidate (s : segmenter) (m : segment_match) : Prop :=
  exists b o, m = add_match b o /\ b ∈ blocks s /\ 0 <= o /\ o + win <= size_f b.

Lemma candidates s b key : seg_inv s -> is_segmentation_enabled cfg = true -> b ∈ blocks s ->
  Forall (candidate s) (map (add_match b) (for_each_offset key b)).
Proof.
  intros Hs He Hb. apply Forall_map, Forall_forall. intros o Ho. exists b, o.
  pose proof (si_blocks s Hs) as H. rewrite Forall_forall in H.
  destruct (bi_offsets b (H b Hb) key o Ho). destruct (window_pos He) as [_ <-]. by split_and!.
Qed.

Lemma find_matches_spec key s : seg_inv s -> is_segmentation_enabled cfg = true ->
  exists ms, find_matches cfg key s = (Ok ms, s) /\ Forall (candidate s) ms.
Proof.
  intros Hs He. unfold find_matches. rewrite abind_get. destruct (bloom_test (global_filter s) key) eqn:Ht; [|by exists []].
  destruct (is_multi_block_mode cfg).
  - eexists. split; [done|]. apply Forall_flat_map, Forall_forall. intros b Hb.
    pose proof (candidates s b key Hs He Hb). unfold for_each_offset_filter, for_each_offset in *.
    by destruct (bloom_test (filter b) key).
  - destruct (blocks s) as [|b bs] eqn:Eb.
    + rewrite (si_empty s Hs Eb) in Ht. done.
    + eexists. split; [done|]. apply candidates; [done..|]. rewrite Eb. by left.
Qed.

(** The best of the verified candidates, when it has any size, is a match in
    an active block. *)
Lemma best_match_ok s data pos begin end_ ms m ms' : seg_inv s -> Forall (candidate s) ms ->
  0 <= begin <= pos -> 0 < win -> pos + win <= end_ -> end_ * g <= zlen data ->
  map (verify_and_extend g data pos win begin end_) ms = m :: ms' ->
  let best := max_element m ms' in
  m_block best ∈ blocks s /\ (m_size best = 0 \/ match_ok data pos win begin end_ best).
Proof.
  intros Hs Hms Hb Hw He Hz E best. pose proof (max_element_in m ms') as Hin. rewrite <- E in Hin.
  apply list_elem_of_In, in_map_iff in Hin as (m0 & Em & Hin%list_elem_of_In). fold best in Em.
  rewrite Forall_forall in Hms. destruct (Hms m0 Hin) as (b & o & -> & Hbin & Ho & Hfit).
  pose proof (si_blocks s Hs) as Hbi. rewrite Forall_forall in Hbi.
  destruct (verify_and_extend_spec data pos win begin end_ b o (Hbi b Hbin) Hb Hw He Hz Ho Hfit) as [E1 E2].
  rewrite Em in E1, E2. by rewrite E1.
Qed.

(** *** segment_and_add_data *)

Lemma add_chunk_spec s c x y : seg_inv s -> chunk_size s = 0 -> chunks_hold (store s) (chunks s) x ->
  chunk_holds (store s) c y -> aligned c ->
  exists s', add_chunk c s = (Ok tt, s') /\ seg_inv s' /\ store s' = store s /\ blocks s' = blocks s /\
    chunk_size s' = 0 /\ chunks_hold (store s') (chunks s') (x ++ y).
Proof.
  intros Hs Hz Hx Hy Ha. eexists. split; [reflexivity|].
  match goal with |- seg_inv ?s' /\ _ => set (s1 := s') end.
  assert (store s1 = store s) as E by done. split_and!; try done; [|by apply chunks_hold_snoc].
  destruct Hs. split; rewrite ?E; try done. apply Forall_app. split; [done|by constructor].
Qed.

Lemma emitted_closed s x : seg_inv s -> chunk_size s = 0 -> chunks_hold (store s) (chunks s) x -> emitted s x.
Proof.
  intros Hs Hz Hx. exists x. split; [done|]. unfold pending. rewrite Hz.
  destruct (last (blocks s)); rewrite ?slice_0; by rewrite app_nil_r.
Qed.

Lemma slice_prefix data a b : 0 <= a <= b -> slice data 0 (a * g) ++ slice data (a * g) ((b - a) * g) = slice data 0 (b * g).
Proof.
  intros. pose proof g_pos. replace (b * g) with (a * g + (b - a) * g) by lia. by rewrite slice_add by nia.
Qed.

(** Writing a match: the data before it, then its chunk. *)
Lemma write_match_spec data size fw best s x : seg_inv s -> zlen data = size * g ->
  0 <= fw -> fw <= m_pos best -> 0 < m_size best -> m_pos best + m_size best <= size ->
  m_block best ∈ blocks s -> 0 <= m_offset best -> m_offset best + m_size best <= size_f (m_block best) ->
  slice data (m_pos best * g) (m_size best * g) = slice (block_data (m_block best)) (m_offset best * g) (m_size best * g) ->
  emitted s (x ++ slice data 0 (fw * g)) ->
  exists s', write_match cfg g logical_block data fw best s
    = (Ok tt, s') /\ seg_inv s' /\ extends (store s) (store s') /\ blocks s' <> [] /\
    emitted s' (x ++ slice data 0 ((m_pos best + m_size best) * g)).
Proof.
  intros Hs Hz Hfw Hpos Hsz Hend Hin Ho Hfit Hdata Hx. pose proof g_pos.
  destruct (add_data_spec data fw (m_pos best - fw) s _ Hs ltac:(lia) ltac:(lia) ltac:(nia) Hx)
    as (s1 & E1 & Hs1 & He1 & Hx1 & Hne1).
  rewrite <- app_assoc, slice_prefix in Hx1 by lia.
  destruct (finish_chunk_spec s1 _ Hs1 Hx1) as (s2 & E2 & Hs2 & (F1 & F2 & F3 & F4 & F5) & Hx2).
  assert (store s2 = store s1) as Est by (unfold store, open_block; by rewrite F1, F2).
  destruct (He1 _ _ (block_in_store s _ Hs Hin)) as [d' Hin1].
  pose proof (si_blocks s Hs) as Hbi. rewrite Forall_forall in Hbi. specialize (Hbi _ Hin).
  pose proof (size_bytes _ Hbi) as Hbytes.
  destruct (add_chunk_spec s2 (DataChunk (num (m_block best)) (frames_to_bytes g (m_offset best)) (frames_to_bytes g (m_size best)))
    _ (slice data (m_pos best * g) (m_size best * g)) Hs2 F5 Hx2) as (s3 & E3 & Hs3 & Est3 & Eb3 & Hz3 & Hx3).
  { exists (block_data (m_block best) ++ d'). unfold frames_to_bytes. rewrite Est, zlen_app. pose proof (zlen_nonneg d').
    split_and!; try done; try nia. by rewrite slice_app_l by nia. }
  { unfold frames_to_bytes. split_and!; [apply Z.mod_mul; lia|apply Z.mod_mul; lia|nia]. }
  exists s3. unfold write_match. erewrite abind_ok by exact E1. erewrite abind_ok by exact E2. split_and!; try done.
  - rewrite Est3, Est. done.
  - rewrite Eb3, F1. apply Hne1. intros E. rewrite E in Hin. by apply not_elem_of_nil in Hin.
  - replace ((m_pos best + m_size best) * g) with (m_pos best * g + m_size best * g) by lia.
    rewrite slice_add, Z.add_0_l, app_assoc by nia. by apply emitted_closed.
Qed.

Lemma segment_loop_spec data size x : is_segmentation_enabled cfg = true -> zlen data = size * g ->
  forall fuel h offset fw next s, seg_inv s -> emitted s (x ++ slice data 0 (fw * g)) ->
  0 <= fw -> fw + win <= offset <= size -> fw + lookback_size_in_frames cfg <= next ->
  size - offset <= Z.of_nat fuel ->
  exists fw' s', segment_loop cfg g logical_block fuel data size h offset fw next s = (Ok fw', s') /\ seg_inv s' /\
    extends (store s) (store s') /\ emitted s' (x ++ slice data 0 (fw' * g)) /\ 0 <= fw' <= size.
Proof.
  intros Hen Hz. destruct (window_pos Hen) as [Hwin _]. pose proof window_step_pos. pose proof lookback_ge. pose proof g_pos.
  induction fuel as [|fuel IH]; intros h offset fw next s Hs Hx Hfw Hoff Hnext Hfuel; cbn [segment_loop].
  { destruct (Z.ltb_spec offset size); [lia|]. exists fw, s. split_and!; done || lia. }
  destruct (Z.ltb_spec offset size); [|exists fw, s; split_and!; done || lia].
  destruct (find_matches_spec (hash_value h) s Hs Hen) as (ms & Ems & Hms).
  assert (exists fw' s', no_match cfg g logical_block (segment_loop cfg g logical_block fuel data size) data h offset fw next s
    = (Ok fw', s') /\ seg_inv s' /\
    extends (store s) (store s') /\ emitted s' (x ++ slice data 0 (fw' * g)) /\ 0 <= fw' <= size) as Hno.
  { unfold no_match, window_slide. destruct (Z.eqb_spec offset next) as [Heq|].
    - destruct (add_data_spec data fw (offset - lookback_size_in_frames cfg - fw) s _ Hs ltac:(lia) ltac:(lia) ltac:(nia) Hx)
        as (s1 & E1 & Hs1 & He1 & Hx1 & _).
      erewrite abind_ok by exact E1. rewrite <- app_assoc in Hx1.
      rewrite slice_prefix in Hx1 by lia.
      edestruct (IH (update_hash_slide g h data (offset - win) offset) (offset + 1)
        (fw + (offset - lookback_size_in_frames cfg - fw)) (next + window_step cfg) s1) as (fw' & s2 & E2 & ? & ? & ? & ?);
        [done| |lia..|].
      { by replace (fw + (offset - lookback_size_in_frames cfg - fw)) with (offset - lookback_size_in_frames cfg) by lia. }
      exists fw', s2. split_and!; try done; try lia. by etransitivity.
    - apply IH; done || lia. }
  erewrite abind_ok by exact Ems.
  destruct (map _ ms) as [|m ms'] eqn:Emap; [exact Hno|].
  destruct (best_match_ok s data (offset - win) fw size ms m ms' Hs Hms ltac:(lia) ltac:(lia) ltac:(lia) ltac:(lia) Emap)
    as [Hin Hok]. cbv zeta. set (best := max_element m ms') in *.
  destruct (Z.ltb_spec 0 (m_size best)); [|exact Hno].
  destruct Hok as [|[Mb Me [Mo1 Mo2] Md]]; [lia|].
  destruct (write_match_spec data size fw best s x) as (s1 & E1 & Hs1 & He1 & Hne1 & Hx1); try done; try lia.
  erewrite abind_ok by exact E1.
  replace (fw + (m_pos best - fw) + m_size best) with (m_pos best + m_size best) by lia.
  set (fw1 := m_pos best + m_size best) in *. destruct (Z.ltb_spec (size - fw1) win).
  - exists fw1, s1. split_and!; done || lia.
  - unfold seek. destruct (last (blocks s1)) as [b|] eqn:El; [|by apply last_None in El].
    erewrite abind_ok by (by apply back_ok). pose proof (next_hash_distance_pos b).
    edestruct (IH (foldl (fun h o => update_hash_in g h data o) (hash_clear h) (seqZ fw1 win)) (fw1 + win) fw1
      (fw1 + lookback_size_in_frames cfg + next_hash_distance_in_frames cfg g b) s1) as (fw' & s2 & E2 & ? & ? & ? & ?);
      [done|done|lia..|].
    exists fw', s2. split_and!; try done; try lia. by etransitivity.
Qed.

Lemma segment_and_add_data_spec data size s x : is_segmentation_enabled cfg = true -> zlen data = size * g ->
  win <= size -> seg_inv s -> emitted s x ->
  exists s', segment_and_add_data cfg g logical_block data size s = (Ok tt, s') /\ seg_inv s' /\
    extends (store s) (store s') /\ chunk_size s' = 0 /\ chunks_hold (store s') (chunks s') (x ++ data).
Proof.
  intros Hen Hz Hsz Hs Hx. destruct (window_pos Hen) as [Hwin _]. pose proof lookback_ge. pose proof g_pos.
  unfold segment_and_add_data. rewrite abind_get. cbv zeta. destruct (Z.leb_spec win size); [|lia]. cbn [negb]. unfold seek.
  destruct (segment_loop_spec data size x Hen Hz (Z.to_nat size)
    (foldl (fun h o => update_hash_in g h data o) rsync_init (seqZ 0 win)) (0 + win) 0
    (lookback_size_in_frames cfg + match last (blocks s) with None => window_step cfg | Some b => next_hash_distance_in_frames cfg g b end) s)
    as (fw & s1 & E1 & Hs1 & He1 & Hx1 & Hfw); try done; try lia.
  { by rewrite slice_0, app_nil_r. }
  { pose proof window_step_pos. destruct (last (blocks s)) as [b|]; [pose proof (next_hash_distance_pos b)|]; lia. }
  erewrite abind_ok by exact E1.
  destruct (add_data_spec data fw (size - fw) s1 _ Hs1 ltac:(lia) ltac:(lia) ltac:(nia) Hx1) as (s2 & E2 & Hs2 & He2 & Hx2 & _).
  erewrite abind_ok by exact E2. rewrite <- app_assoc, slice_prefix, slice_all in Hx2 by lia.
  destruct (finish_chunk_spec s2 _ Hs2 Hx2) as (s3 & E3 & Hs3 & (F1 & F2 & F3 & F4 & F5) & Hx3).
  exists s3. split_and!; try done. etransitivity; [exact He1|].
  assert (store s3 = store s2) as -> by (unfold store, open_block; by rewrite F1, F2). done.
Qed.

(** *** Extents and chunkables *)

(** What the extents of a file are: whole frames, and zeros in the holes. *)
Definition extent_ok (e : file_extent) : Prop :=
  zlen (raw_bytes e) mod g = 0 /\ 0 < zlen (raw_bytes e) /\
  (kind e = extent_hole -> raw_bytes e = replicate (length (raw_bytes e)) 0).

Lemma add_extent_spec e s x : extent_ok e -> seg_inv s -> chunk_size s = 0 -> chunks_hold (store s) (chunks s) x ->
  exists s', add_extent cfg g logical_block e s = (Ok tt, s') /\ seg_inv s' /\
    extends (store s) (store s') /\ chunk_size s' = 0 /\ chunks_hold (store s') (chunks s') (x ++ raw_bytes e).
Proof.
  intros (Hal & Hne & Hhole) Hs Hz Hx. unfold add_extent. destruct (_ && _) eqn:Eh.
  - apply andb_true_iff in Eh as [Esparse Eh]. destruct (kind e); [done|].
    destruct (add_chunk_spec s (HoleChunk (zlen (raw_bytes e))) x (raw_bytes e)) as (s1 & E1 & Hs1 & Est & _ & Hz1 & Hx1); try done.
    { split; [apply zlen_nonneg|]. unfold zlen. rewrite Nat2Z.id. by apply Hhole. }
    exists s1. rewrite Est. by split_and!; rewrite <- ?Est.
  - pose proof (frames_exact _ Hal) as Hf. pose proof (emitted_closed s x Hs Hz Hx) as Hem.
    set (size := bytes_to_frames g (zlen (raw_bytes e))) in *. pose proof g_pos. pose proof (zlen_nonneg (raw_bytes e)).
    assert (0 <= size) by nia. destruct (negb _ || _) eqn:Eb.
    + destruct (add_data_spec (raw_bytes e) 0 size s x Hs ltac:(lia) ltac:(lia) ltac:(lia) Hem) as (s1 & E1 & Hs1 & He1 & Hx1 & _).
      erewrite abind_ok by exact E1. rewrite Z.mul_0_l, slice_all in Hx1 by lia.
      destruct (finish_chunk_spec s1 _ Hs1 Hx1) as (s2 & E2 & Hs2 & (F1 & F2 & F3 & F4 & F5) & Hx2).
      exists s2. assert (store s2 = store s1) as Est by (unfold store, open_block; by rewrite F1, F2).
      split_and!; try done. by rewrite Est.
    + apply orb_false_iff in Eb as [Hen Hsz]. apply negb_false_iff in Hen. apply Z.ltb_ge in Hsz.
      by apply segment_and_add_data_spec.
Qed.

Lemma add_extents_spec es s x : Forall extent_ok es -> seg_inv s -> chunk_size s = 0 -> chunks_hold (store s) (chunks s) x ->
  exists s', forA (add_extent cfg g logical_block) es s = (Ok tt, s') /\ seg_inv s' /\
    extends (store s) (store s') /\ chunk_size s' = 0 /\
    chunks_hold (store s') (chunks s') (x ++ concat (map raw_bytes es)).
Proof.
  intros Hes. revert s x. induction Hes as [|e es He _ IH]; intros s x Hs Hz Hx.
  { exists s. by rewrite app_nil_r. }
  destruct (add_extent_spec e s x He Hs Hz Hx) as (s1 & E1 & Hs1 & He1 & Hz1 & Hx1).
  destruct (IH s1 _ Hs1 Hz1 Hx1) as (s2 & E2 & Hs2 & He2 & Hz2 & Hx2).
  exists s2. cbn [forA]. erewrite abind_ok by exact E1. split_and!; try done; [by etransitivity|].
  cbn [map concat]. by rewrite app_assoc.
Qed.

Definition content (c : chunkable) : list Z := concat (map raw_bytes (extents c)).

Definition chunkable_ok (c : chunkable) : Prop :=
  chk_size c = zlen (content c) /\ Forall extent_ok (extents c).

Lemma add_chunkable_spec c s : chunkable_ok c -> seg_inv s -> chunk_size s = 0 ->
  exists s' cs, add_chunkable cfg g logical_block c s = (Ok cs, s') /\ seg_inv s' /\
    extends (store s) (store s') /\ chunk_size s' = 0 /\ chunks_hold (store s') cs (content c) /\ Forall aligned cs.
Proof.
  intros [Hsize Hes] Hs Hz. unfold add_chunkable. unfold modify at 1. erewrite abind_ok by reflexivity.
  set (s0 := Segmenter _ _ _ _ _ _ _ _).
  assert (seg_inv s0) as Hs0 by (destruct Hs; split; try done; constructor).
  assert (chunks_hold (store s0) (chunks s0) []) as Hx0 by (exists []; by split; [constructor|]).
  destruct (Z.ltb_spec 0 (chk_size c)).
  - destruct (add_extents_spec (extents c) s0 [] Hes Hs0 Hz Hx0) as (s1 & E1 & Hs1 & He1 & Hz1 & Hx1).
    erewrite abind_ok by exact E1. exists s1, (chunks s1). split_and!; try done. apply Hs1.
  - unfold ret at 1. erewrite abind_ok by reflexivity. exists s0, []. split_and!; try done.
    assert (content c = []) as -> by (destruct (content c); [done|unfold zlen in *; cbn in *; lia]). done.
Qed.

Lemma finish_spec s : seg_inv s ->
  exists s', finish cfg g s = (Ok tt, s') /\ ready s' = store s.
Proof.
  intros Hs. unfold finish. rewrite abind_get. unfold store, open_block. destruct (last (blocks s)) as [b|] eqn:El.
  - destruct (is_full b); cbn [negb]; [exists s; by rewrite app_nil_r|].
    unfold block_ready. erewrite abind_ok by (by apply back_ok). by eexists.
  - exists s. by rewrite app_nil_r.
Qed.

(** *** Creation *)

Lemma bit_ceil_pow2 x : exists k, 0 <= k /\ bit_ceil x = 2 ^ k.
Proof.
  unfold bit_ceil. destruct (x <=? 1); [by exists 0|]. exists (bit_width (x - 1)). split; [apply bit_width_nonneg|done].
Qed.

Lemma segmenter_create_spec : exists s, segmenter_create cfg g = Ok s /\ seg_inv s /\ chunk_size s = 0.
Proof.
  assert (exists f, bloom_create (bloom_filter_size cfg g) = Ok f /\ (forall x, bloom_test f x = false) /\
    (is_multi_block_mode cfg = true -> exists k, 0 <= k /\ size_ f = 2 ^ k /\ 64 <= 2 ^ k)) as (f & E & Hf & Hm).
  { unfold bloom_filter_size, is_multi_block_mode. destruct (is_segmentation_enabled cfg) eqn:Ee; cbn [andb].
    - destruct (bit_ceil_pow2 (Z.max 1 (max_active_blocks cfg) * (bsf / window_step cfg))) as (k & Hk & ->).
      assert (0 <= cfg_bloom_filter_size cfg) by apply Hcfg. rewrite Z.shiftl_1_l, <- Z.pow_add_r by lia.
      destruct (bloom_create_spec (cfg_bloom_filter_size cfg + k)) as (f & -> & _ & Hs & Hf); [lia|].
      exists f. split_and!; try done. intros _. exists (Z.max (cfg_bloom_filter_size cfg + k) 6). split; [lia|].
      rewrite Hs. destruct (Z.max_spec (cfg_bloom_filter_size cfg + k) 6) as [[Hlt ->]|[Hle ->]].
      + assert (2 ^ (cfg_bloom_filter_size cfg + k) <= 2 ^ 6) by (apply Z.pow_le_mono_r; lia). lia.
      + assert (2 ^ 6 <= 2 ^ (cfg_bloom_filter_size cfg + k)) by (apply Z.pow_le_mono_r; lia). lia.
    - eexists. split; [done|]. split; [|done]. intros x. unfold bloom_test, word_bit. cbn [bits_].
      by destruct (word_index _ x). }
  unfold segmenter_create. rewrite E. eexists. split; [done|]. split; [|done].
  split; cbn; try done; try by constructor.
  intros Hmm. cbn. split; [by apply Hm|constructor].
Qed.

(** ** A whole run *)

Fixpoint add_chunkables (cs : list chunkable) : seg (list (list chunk_ref)) :=
  match cs with
  | [] => ret []
  | c :: cs =>
      let! r := add_chunkable cfg g logical_block c in
      let! rs := add_chunkables cs in
      ret (r :: rs)
  end.

(** The chunks of every file; the blocks are those given to [block_ready]. *)
Definition segment_files (cs : list chunkable) : seg (list (list chunk_ref)) :=
  let! rs := add_chunkables cs in finish cfg g ;; ret rs.

Lemma add_chunkables_spec cs s : Forall chunkable_ok cs -> seg_inv s -> chunk_size s = 0 ->
  exists s' rs, add_chunkables cs s = (Ok rs, s') /\ seg_inv s' /\ extends (store s) (store s') /\
    Forall2 (fun c r => chunks_hold (store s') r (content c)) cs rs /\ Forall (Forall aligned) rs.
Proof.
  intros Hcs. revert s. induction Hcs as [|c cs Hc _ IH]; intros s Hs Hz; [exists s, []; by split_and!|].
  destruct (add_chunkable_spec c s Hc Hs Hz) as (s1 & r & E1 & Hs1 & He1 & Hz1 & Hr & Ha).
  destruct (IH s1 Hs1 Hz1) as (s2 & rs & E2 & Hs2 & He2 & Hrs & Has).
  exists s2, (r :: rs). cbn [add_chunkables]. erewrite abind_ok by exact E1. erewrite abind_ok by exact E2.
  split_and!; try done; [by etransitivity| |by constructor].
  constructor; [by eapply chunks_hold_extends|done].
Qed.

Lemma store_stored s : seg_inv s -> Forall stored_ok (store s).
Proof.
  intros Hs. unfold store. apply Forall_app. split; [apply Hs|].
  unfold open_block. destruct (last (blocks s)) as [b|] eqn:El; [|constructor].
  destruct (is_full b); constructor; [|constructor]. pose proof (last_block_inv s b Hs El) as Hb.
  split; cbn; [apply Hb|]. rewrite <- (size_bytes b) by done. pose proof (bi_size b Hb). pose proof g_pos. nia.
Qed.

Lemma segment_files_spec cs : Forall chunkable_ok cs ->
  exists s rs s', segmenter_create cfg g = Ok s /\ segment_files cs s = (Ok rs, s') /\
    Forall2 (fun c r => chunks_hold (ready s') r (content c)) cs rs /\ Forall (Forall aligned) rs /\
    NoDup (ready s').*1 /\ Forall stored_ok (ready s').
Proof.
  intros Hcs. destruct segmenter_create_spec as (s & E & Hs & Hz).
  destruct (add_chunkables_spec cs s Hcs Hs Hz) as (s1 & rs & E1 & Hs1 & _ & Hrs & Ha).
  destruct (finish_spec s1 Hs1) as (s2 & E2 & Er). exists s, rs, s2. split; [done|].
  unfold segment_files. erewrite abind_ok by exact E1. erewrite abind_ok by exact E2. rewrite Er.
  split_and!; try done; [apply Hs1|by apply store_stored].
Qed.
End segmenter_lemmas.

(** ** Reading files back *)

(** What a chunk refers to in the given blocks. *)
Definition read_chunk (blocks : gmap Z (list Z)) (c : chunk_ref) : option (list Z) :=
  match c with
  | HoleChunk n => Some (replicate (Z.to_nat n) 0)
  | DataChunk n off size =>
      d ← blocks !! n;
      if (0 <=? off) && (0 <=? size) && (off + size <=? zlen d) then Some (slice d off size) else None
  end.

Definition reassemble (blocks : list (Z * list Z)) (cs : list chunk_ref) : option (list Z) :=
  xs ← mapM (read_chunk (list_to_map blocks)) cs; Some (concat xs).

Lemma chunks_hold_reassemble st cs x : NoDup st.*1 -> chunks_hold st cs x -> reassemble st cs = Some x.
Proof.
  intros Hn (xs & Hf & ->). unfold reassemble.
  assert (mapM (read_chunk (list_to_map st)) cs = Some xs) as ->; [|done].
  apply mapM_Some. eapply Forall2_impl; [exact Hf|]. intros c y Hc. destruct c as [n off size|n].
  - destruct Hc as (d & Hin & H0 & H1 & H2 & ->). cbn. rewrite (proj1 (elem_of_list_to_map _ _ _ Hn) Hin). cbn.
    destruct (Z.leb_spec 0 off), (Z.leb_spec 0 size), (Z.leb_spec (off + size) (zlen d)); try lia. done.
  - by destruct Hc as [_ ->].
Qed.

(** C9: deduplication loses nothing.  For every configuration, granularity
    and sequence of files of data and holes, the segmenter runs to the end
    (no check fails, no loop runs out of fuel), and reading the chunks it
    emitted for each file from the blocks it handed over gives exactly the
    content of the file; whether and where matches were found does not
    matter. *)
Theorem segmenter_reassembles cfg granularity logical_block files :
  cfg_ok cfg granularity -> Inj (=) (=) logical_block -> Forall (chunkable_ok granularity) files ->
  exists s chunks s',
    segmenter_create cfg granularity = Ok s /\
    segment_files cfg granularity logical_block files s = (Ok chunks, s') /\
    Forall2 (fun c r => reassemble (ready s') r = Some (content c)) files chunks.
Proof.
  intros Hcfg Hinj Hf. destruct (segment_files_spec cfg granularity logical_block Hcfg Hinj files Hf)
    as (s & rs & s' & E & Er & Hrs & _ & Hn & _).
  exists s, rs, s'. split_and!; try done. eapply Forall2_impl; [exact Hrs|].
  intros c r. by apply chunks_hold_reassemble.
Qed.

Definition witness_config : segmenter_config := SegmenterConfig 2 1 2 2 4 true.
Definition witness_files : list chunkable :=
  [Chunkable 18 [FileExtent extent_data [1; 2; 3; 4; 5; 6; 7; 8; 9; 10; 11; 12; 13; 14; 15; 16; 17; 18]];
   Chunkable 20 [FileExtent extent_data [99; 1; 2; 3; 4; 5; 6; 7; 8; 9; 10; 11; 12; 77; 76]; FileExtent extent_hole [0; 0; 0; 0; 0]]].

Lemma witness_config_ok : cfg_ok witness_config 1.
Proof. repeat split; discriminate. Defined.

Lemma witness_files_ok : Forall (chunkable_ok 1) witness_files.
Proof. repeat (split || constructor); discriminate. Defined.

Lemma segmenter_reassembles_witness :
  exists s chunks s',
    segmenter_create witness_config 1 = Ok s /\
    segment_files witness_config 1 Z.of_nat witness_files s = (Ok chunks, s') /\
    Forall2 (fun c r => reassemble (ready s') r = Some (content c)) witness_files chunks.
Proof.
  apply (segmenter_reassembles witness_config 1 Z.of_nat witness_files).
  - apply witness_config_ok.
  - exact Nat2Z.inj.
  - apply witness_files_ok.
Defined.

(** A block handed over is no longer than the configured size. *)
Lemma stored_ok_size cfg granularity e : cfg_ok cfg granularity -> stored_ok cfg granularity e ->
  zlen e.2 <= 2 ^ block_size_bits cfg < 2 ^ 32.
Proof.
  intros (Hg & _ & Hb & _) [_ H2]. split; [|apply Z.pow_lt_mono_r; lia]. etransitivity; [exact H2|].
  unfold block_size_in_frames, bytes_to_frames, constrained_block_size. rewrite Z.shiftl_1_l.
  set (z := 2 ^ block_size_bits cfg). pose proof (Z.mod_pos_bound z granularity Hg).
  destruct (1 <? granularity); rewrite Z.mul_comm; etransitivity; (apply Z.mul_div_le; lia) || lia.
Qed.

(** C33: every block handed over has its own number, holds whole frames only
    and is no longer than the configured block size, and every chunk is
    not empty, is a hole only when holes are enabled, and starts and ends on a frame: no sample of a granular stream
    is ever cut. *)
Theorem segmenter_blocks_bounded cfg granularity logical_block files s chunks s' :
  cfg_ok cfg granularity -> Inj (=) (=) logical_block -> Forall (chunkable_ok granularity) files ->
  segmenter_create cfg granularity = Ok s ->
  segment_files cfg granularity logical_block files s = (Ok chunks, s') ->
  NoDup (ready s').*1 /\
  Forall (fun '(_, d) => zlen d mod granularity = 0 /\ zlen d <= 2 ^ block_size_bits cfg) (ready s') /\
  Forall (Forall (aligned cfg granularity)) chunks.
Proof.
  intros Hcfg Hinj Hf E Er. destruct (segment_files_spec cfg granularity logical_block Hcfg Hinj files Hf)
    as (s0 & rs & s1 & E' & Er' & _ & Ha & Hn & Hst).
  rewrite E in E'. injection E' as <-. rewrite Er in Er'. injection Er' as <- <-. split_and!; try done.
  eapply Forall_impl; [exact Hst|]. intros e H. destruct (stored_ok_size cfg granularity e Hcfg H) as [Hz _].
  destruct e as [n d], H as [H1 _]. by split.
Qed.

Lemma segmenter_blocks_bounded_witness :
  exists s chunks s', segmenter_create witness_config 1 = Ok s /\
    segment_files witness_config 1 Z.of_nat witness_files s = (Ok chunks, s') /\
    (NoDup (ready s').*1 /\
     Forall (fun '(_, d) => zlen d mod 1 = 0 /\ zlen d <= 2 ^ block_size_bits witness_config) (ready s') /\
     Forall (Forall (aligned witness_config 1)) chunks).
Proof.
  destruct (segment_files_spec witness_config 1 Z.of_nat witness_config_ok Nat2Z.inj witness_files witness_files_ok)
    as (s & rs & s' & E & Er & _).
  exists s, rs, s'. split; [exact E|]. split; [exact Er|].
  exact (segmenter_blocks_bounded witness_config 1 Z.of_nat witness_files s rs s'
    witness_config_ok Nat2Z.inj witness_files_ok E Er).
Defined.
