(* ===== verification/FileRange.v ===== *)
(** * FileRange: ranges of a file, and iterating over its data

    [include/dwarfs/file_range.h], [src/file_range_utils.cpp],
    [src/file_segments_iterable.cpp] and [src/file_extents_iterable.cpp].
    Reading a range of a file ([file_view_impl::segment_at]) is a slice of the
    file's bytes. *)

From S2P Require Import Prelude.
Local Open Scope Z_scope.

(** ** [file_range] *)

Record file_range : Type := FileRange { offset_ : Z; size_ : Z }.

Definition range_empty (r : file_range) : bool := size_ r =? 0.
Definition range_begin (r : file_range) : Z := offset_ r.
Definition range_end (r : file_range) : Z := offset_ r + size_ r.
Definition subrange (r : file_range) (offset size : Z) : file_range := FileRange (offset_ r + offset) size.
Definition subrange_from (r : file_range) (offset : Z) : file_range :=
  FileRange (offset_ r + offset) (size_ r - offset).
Definition advance (r : file_range) (n : Z) : file_range := FileRange (offset_ r + n) (size_ r - n).

#[global] Instance file_range_eq_dec : EqDecision file_range.
Proof. solve_decision. Defined.

(** ** [intersect_ranges] and [complement_ranges] *)

(** Every iteration advances one of the iterators. *)
Fixpoint intersect_loop (fuel : nat) (a b out : list file_range) : list file_range :=
  match fuel with
  | O => out
  | S fuel =>
      match a, b with
      | ia :: a', ib :: b' =>
          let lo := Z.max (range_begin ia) (range_begin ib) in
          let hi := Z.min (range_end ia) (range_end ib) in
          let out := if lo <? hi then out ++ [FileRange lo (hi - lo)] else out in
          if range_end ia <=? range_end ib then intersect_loop fuel a' b out
          else intersect_loop fuel a b' out
      | _, _ => out
      end
  end.

Definition intersect_ranges (a b : list file_range) : list file_range :=
  intersect_loop (length a + length b) a b [].

Inductive range_error : Type := range_exceeds_size.

Fixpoint complement_loop (ranges : list file_range) (size pos : Z) (out : list file_range) :
    result range_error (list file_range) :=
  match ranges with
  | [] => Ok (if pos <? size then out ++ [FileRange pos (size - pos)] else out)
  | h :: ranges =>
      if size <? range_end h then Err range_exceeds_size
      else
        let out := if pos <? offset_ h then out ++ [FileRange pos (offset_ h - pos)] else out in
        complement_loop ranges size (range_end h) out
  end.

Definition complement_ranges (ranges : list file_range) (size : Z) : result range_error (list file_range) :=
  complement_loop ranges size 0 [].

(** ** [file_segments_iterable] *)

(** The state of the iterator: the next offset and the current segment, [None]
    at the end. *)
Record segment_iterator : Type := SegmentIterator {
  it_offset : Z;
  it_seg : option file_range
}.

Section segments.
Context (range : file_range) (max_bytes overlap_bytes : Z).

(** [iterator::advance]. *)
Definition segment_advance (it : segment_iterator) : segment_iterator :=
  if size_ range <=? it_offset it then SegmentIterator (it_offset it) None
  else
    let len := Z.min max_bytes (size_ range - it_offset it) in
    let seg := subrange range (it_offset it) len in
    let offset := it_offset it + len in
    SegmentIterator (if offset <? size_ range then offset - overlap_bytes else offset) (Some seg).

Definition segments_begin : segment_iterator := segment_advance (SegmentIterator 0 None).

(** The segments a loop from [it] visits. *)
Fixpoint segments_from (fuel : nat) (it : segment_iterator) : list file_range :=
  match fuel, it_seg it with
  | S fuel, Some seg => seg :: segments_from fuel (segment_advance it)
  | _, _ => []
  end.

(** The loop from [it] to the end, with the segments it visits: it has a
    derivation only if it ends. *)
Inductive visits : segment_iterator -> list file_range -> Prop :=
  | visits_end it : it_seg it = None -> visits it []
  | visits_next it seg segs : it_seg it = Some seg -> visits (segment_advance it) segs -> visits it (seg :: segs).

(** The segments that are visited.  Every segment moves the offset forward: the
    size of the range bounds their number, and the fuel cuts nothing off
    ([segments_visited]). *)
Definition segments : list file_range := segments_from (Z.to_nat (size_ range)) segments_begin.
End segments.

(** ** [file_extents_iterable] *)

Section extents.
Context {K : Type}.

(** [detail::file_extent_info]: a kind and a range. *)
Record extent_info : Type := ExtentInfo { ext_kind : K; ext_range : file_range }.

Definition skip_extents (extents : list extent_info) (range : file_range) : list extent_info :=
  (fix go l := match l with
               | [] => []
               | e :: l' => if range_end (ext_range e) <=? offset_ range then go l' else l
               end) extents.

(** [iterator::operator++], from the extents behind the current one. *)
Fixpoint extents_rest (extents : list extent_info) (end_offset : Z) : list extent_info :=
  match extents with
  | [] => []
  | e :: extents =>
      let r := ext_range e in
      if offset_ r <? end_offset then
        let r := if end_offset <? range_end r then FileRange (offset_ r) (end_offset - offset_ r) else r in
        ExtentInfo (ext_kind e) r :: extents_rest extents end_offset
      else []
  end.

(** The extents a loop over the range visits. *)
Definition extents_in (extents : list extent_info) (range : file_range) : list extent_info :=
  if range_empty range then []
  else
    match skip_extents extents range with
    | [] => []
    | e :: extents =>
        ExtentInfo (ext_kind e)
          (FileRange (offset_ range) (Z.min (range_end (ext_range e)) (range_end range) - offset_ range))
        :: extents_rest extents (range_end range)
    end.
End extents.
Arguments extent_info K : clear implicits.

(** ** Sets of positions *)

Definition covers (r : file_range) (x : Z) : Prop := offset_ r <= x < range_end r.
Definition in_ranges (rs : list file_range) (x : Z) : Prop := Exists (fun r => covers r x) rs.

(** Ranges in order, from [lo] on, without overlap. *)
Fixpoint ordered (lo : Z) (rs : list file_range) : Prop :=
  match rs with
  | [] => True
  | r :: rs => lo <= offset_ r /\ 0 <= size_ r /\ ordered (range_end r) rs
  end.

Lemma ordered_weaken lo lo' rs : lo' <= lo -> ordered lo rs -> ordered lo' rs.
Proof. destruct rs as [|r rs]; simpl; [done|]. intros ? (? & ? & ?). split_and!; [lia|done..]. Qed.

Lemma ordered_above lo rs x : ordered lo rs -> in_ranges rs x -> lo <= x.
Proof.
  revert lo. induction rs as [|r rs IH]; intros lo Ho Hx; [by apply Exists_nil in Hx|].
  destruct Ho as (H1 & H2 & H3). apply Exists_cons in Hx as [Hx|Hx].
  - unfold covers in Hx. lia.
  - specialize (IH _ H3 Hx). unfold range_end in *. lia.
Qed.

Lemma in_ranges_app a b x : in_ranges (a ++ b) x <-> in_ranges a x \/ in_ranges b x.
Proof. apply Exists_app. Qed.

Lemma in_ranges_cons r rs x : in_ranges (r :: rs) x <-> covers r x \/ in_ranges rs x.
Proof. apply Exists_cons. Qed.

Lemma in_ranges_nil x : in_ranges [] x <-> False.
Proof. apply Exists_nil. Qed.

(** Appending a non-empty range when its bounds are in order. *)
Lemma in_ranges_snoc_if out (lo hi : Z) x :
  in_ranges (if lo <? hi then out ++ [FileRange lo (hi - lo)] else out) x <-> in_ranges out x \/ lo <= x < hi.
Proof.
  destruct (Z.ltb_spec lo hi).
  - rewrite in_ranges_app, in_ranges_cons, in_ranges_nil. unfold covers, range_end. cbn. intuition lia.
  - intuition lia.
Qed.

Lemma intersect_loop_spec fuel a b out la lb x : (length a + length b <= fuel)%nat ->
  ordered la a -> ordered lb b ->
  in_ranges (intersect_loop fuel a b out) x <-> in_ranges out x \/ (in_ranges a x /\ in_ranges b x).
Proof.
  revert a b out la lb. induction fuel as [|fuel IH]; intros a b out la lb Hf Ha Hb.
  { destruct a, b; simpl in *; try lia. rewrite in_ranges_nil. tauto. }
  cbn [intersect_loop]. destruct a as [|ia a']; [rewrite in_ranges_nil; tauto|].
  destruct b as [|ib b']; [rewrite in_ranges_nil; tauto|].
  pose proof Ha as (Ha1 & Ha2 & Ha3). pose proof Hb as (Hb1 & Hb2 & Hb3). unfold range_begin. cbn [length] in Hf.
  pose proof (ordered_above _ _ x Ha3). pose proof (ordered_above _ _ x Hb3).
  assert (Hov : Z.max (offset_ ia) (offset_ ib) <= x < Z.min (range_end ia) (range_end ib) <-> covers ia x /\ covers ib x)
    by (unfold covers; lia).
  destruct (Z.leb_spec (range_end ia) (range_end ib)).
  - assert (covers ia x -> ~ in_ranges b' x) by (unfold covers; intros ? ?; intuition lia).
    rewrite (IH a' (ib :: b') _ (range_end ia) lb) by (done || (cbn [length]; lia)).
    rewrite in_ranges_snoc_if, !in_ranges_cons. tauto.
  - assert (covers ib x -> ~ in_ranges a' x) by (unfold covers; intros ? ?; intuition lia).
    rewrite (IH (ia :: a') b' _ la (range_end ib)) by (done || (cbn [length]; lia)).
    rewrite in_ranges_snoc_if, !in_ranges_cons. tauto.
Qed.

(** the two-pointer sweep computes the intersection: of ordered ranges,
    exactly the positions covered by both. *)
Theorem intersect_ranges_spec a b x : ordered 0 a -> ordered 0 b ->
  in_ranges (intersect_ranges a b) x <-> in_ranges a x /\ in_ranges b x.
Proof.
  intros Ha Hb. unfold intersect_ranges. rewrite (intersect_loop_spec _ a b [] 0 0) by done.
  rewrite in_ranges_nil. tauto.
Qed.

Lemma intersect_ranges_spec_witness :
  in_ranges (intersect_ranges [FileRange 0 10; FileRange 20 10] [FileRange 5 20]) 22 <->
  in_ranges [FileRange 0 10; FileRange 20 10] 22 /\ in_ranges [FileRange 5 20] 22.
Proof. apply intersect_ranges_spec; vm_compute; intuition discriminate. Defined.

Lemma complement_loop_spec rs size pos out : ordered pos rs -> 
  match complement_loop rs size pos out with
  | Ok out' => Forall (fun r => range_end r <= size) rs /\
      forall x, in_ranges out' x <-> in_ranges out x \/ (pos <= x < size /\ ~ in_ranges rs x)
  | Err _ => Exists (fun r => size < range_end r) rs
  end.
Proof.
  revert pos out. induction rs as [|h rs IH]; intros pos out Ho; cbn [complement_loop].
  - split; [constructor|]. intros x. rewrite in_ranges_snoc_if, in_ranges_nil. tauto.
  - destruct Ho as (H1 & H2 & H3). destruct (Z.ltb_spec size (range_end h)); [by constructor|].
    specialize (IH (range_end h) (if pos <? offset_ h then out ++ [FileRange pos (offset_ h - pos)] else out) H3).
    destruct (complement_loop _ _ _ _) as [out'|]; [|by apply Exists_cons_tl].
    destruct IH as [Hf IH]. split; [by constructor|]. intros x. rewrite IH, in_ranges_snoc_if, in_ranges_cons.
    pose proof (ordered_above _ _ x H3). unfold covers, range_end in *.
    split; [intros [[?|?]|?]; intuition lia|]. intros [?|[? Hn]]; [tauto|].
    destruct (Z.lt_ge_cases x (offset_ h)); [left; right; lia|].
    destruct (Z.lt_ge_cases x (offset_ h + size_ h)); [tauto|]. right. split; [lia|tauto].
Qed.

(** the complement of ordered ranges fails exactly when a range exceeds
    the size, and otherwise covers exactly the positions below the size that no
    range covers. *)
Theorem complement_ranges_spec rs size : ordered 0 rs ->
  match complement_ranges rs size with
  | Ok out => Forall (fun r => range_end r <= size) rs /\
      forall x, in_ranges out x <-> 0 <= x < size /\ ~ in_ranges rs x
  | Err _ => Exists (fun r => size < range_end r) rs
  end.
Proof.
  intros Ho. unfold complement_ranges. pose proof (complement_loop_spec rs size 0 [] Ho) as H.
  destruct (complement_loop _ _ _ _); [|done]. destruct H as [Hf H]. split; [done|].
  intros x. rewrite H, in_ranges_nil. tauto.
Qed.

Lemma complement_ranges_spec_witness :
  match complement_ranges [FileRange 2 3; FileRange 7 1] 10 with
  | Ok out => Forall (fun r => range_end r <= 10) [FileRange 2 3; FileRange 7 1] /\
      forall x, in_ranges out x <-> 0 <= x < 10 /\ ~ in_ranges [FileRange 2 3; FileRange 7 1] x
  | Err _ => Exists (fun r => 10 < range_end r) [FileRange 2 3; FileRange 7 1]
  end.
Proof. apply (complement_ranges_spec [FileRange 2 3; FileRange 7 1] 10). vm_compute. intuition discriminate. Defined.

(** ** Iterating over a file *)

(** [file_view_impl::segment_at]: the bytes of a range. *)
Definition read_range (data : list Z) (r : file_range) : list Z := slice data (offset_ r) (size_ r).

Section iteration.
Context (data : list Z) (range : file_range).
Context (Hrange : 0 <= offset_ range /\ 0 <= size_ range /\ range_end range <= zlen data).

(** A loop over segments that skips the bytes shared with the segment before. *)
Definition joined (overlap : Z) (segs : list file_range) : list Z :=
  match segs with
  | [] => []
  | s :: segs => read_range data s ++ concat (map (fun s => drop (Z.to_nat overlap) (read_range data s)) segs)
  end.

Definition segment_ok (max_bytes : Z) (s : file_range) : Prop :=
  0 < size_ s <= max_bytes /\ range_begin range <= offset_ s /\ range_end s <= range_end range.

Lemma drop_slice n l off m : 0 <= n <= m -> 0 <= off -> drop (Z.to_nat n) (slice l off m) = slice l (off + n) (m - n).
Proof.
  intros. unfold slice. rewrite skipn_firstn_comm, drop_drop. f_equal; [lia|f_equal; lia].
Qed.

(** The segments from offset [o] on. *)
Definition segs_at (max overlap : Z) (fuel : nat) (o : Z) : list file_range :=
  segments_from range max overlap fuel (segment_advance range max overlap (SegmentIterator o None)).

Lemma segs_at_step max overlap fuel o : 0 <= o < size_ range ->
  let len := Z.min max (size_ range - o) in
  segs_at max overlap (S fuel) o = subrange range o len ::
    (if o + len <? size_ range then segs_at max overlap fuel (o + len - overlap) else []).
Proof.
  intros Ho len. unfold segs_at. unfold segment_advance at 1. cbn [it_offset].
  destruct (Z.leb_spec (size_ range) o); [lia|]. cbv zeta. fold len. cbn [segments_from it_seg]. f_equal.
  unfold segment_advance at 1. cbn [it_offset]. destruct (Z.ltb_spec (o + len) (size_ range)).
  - done.
  - destruct (Z.leb_spec (size_ range) (o + len)); [|lia]. by destruct fuel.
Qed.

Lemma segs_at_spec max overlap fuel o : 0 < max -> 0 <= overlap < max ->
  0 <= o < size_ range -> size_ range - o <= Z.of_nat fuel ->
  Forall (segment_ok max) (segs_at max overlap fuel o) /\
  joined overlap (segs_at max overlap fuel o) = slice data (offset_ range + o) (size_ range - o) /\
  exists segs, segs_at max overlap fuel o = subrange range o (Z.min max (size_ range - o)) :: segs.
Proof.
  intros Hmax Hov. revert o. induction fuel as [|fuel IH]; intros o Ho Hf; [lia|].
  rewrite segs_at_step by done. cbv zeta. set (len := Z.min max (size_ range - o)).
  assert (segment_ok max (subrange range o len)) as Hok.
  { unfold segment_ok, subrange, range_begin, range_end. cbn. lia. }
  destruct (Z.ltb_spec (o + len) (size_ range)).
  - destruct (IH (o + len - overlap) ltac:(lia) ltac:(lia)) as (Hall & Ej & segs & E).
    split_and!; [by constructor| |by eexists]. rewrite E in Ej |- *. cbn [joined map concat] in *.
    set (s := subrange range (o + len - overlap) _) in *.
    apply (f_equal (drop (Z.to_nat overlap))) in Ej. rewrite drop_slice in Ej by lia.
    assert (zlen (read_range data s) = size_ s) as Hz by (apply slice_length; unfold s, subrange, range_end in *; cbn; lia).
    rewrite drop_app_le in Ej by (unfold zlen, s, subrange in *; cbn in *; lia). rewrite Ej.
    unfold read_range, subrange. cbn [offset_ size_].
    replace (offset_ range + (o + len - overlap) + overlap) with (offset_ range + o + len) by lia.
    rewrite <- slice_add by lia. f_equal. lia.
  - split_and!; [by constructor; [|constructor]| |by eexists]. cbn [joined map concat]. rewrite app_nil_r.
    unfold read_range, subrange. cbn [offset_ size_]. f_equal. lia.
Qed.
End iteration.

(** The fuel is enough: the loop visits these segments and ends. *)
Lemma segs_at_visited range max overlap fuel o : 0 <= size_ range -> 0 < max -> 0 <= overlap < max ->
  0 <= o < size_ range -> size_ range - o <= Z.of_nat fuel ->
  visits range max overlap (segment_advance range max overlap (SegmentIterator o None)) (segs_at range max overlap fuel o).
Proof.
  intros Hs Hmax Hov. revert o. induction fuel as [|fuel IH]; intros o Ho Hf; [lia|].
  rewrite segs_at_step by done. cbv zeta. set (len := Z.min max (size_ range - o)).
  unfold segment_advance at 1. cbn [it_offset]. destruct (Z.leb_spec (size_ range) o); [lia|]. cbv zeta. fold len.
  eapply visits_next; [done|]. destruct (Z.ltb_spec (o + len) (size_ range)).
  - apply (IH (o + len - overlap)); lia.
  - apply visits_end. unfold segment_advance. cbn [it_offset]. by destruct (Z.leb_spec (size_ range) (o + len)); [|lia].
Qed.

Lemma segments_visited range max overlap : 0 <= size_ range -> 0 < max -> 0 <= overlap < max ->
  visits range max overlap (segments_begin range max overlap) (segments range max overlap).
Proof.
  intros Hs Hmax Hov. destruct (decide (size_ range = 0)) as [Hz|].
  - unfold segments. rewrite Hz. apply visits_end. unfold segments_begin, segment_advance. cbn [it_offset]. by rewrite Hz.
  - apply (segs_at_visited range max overlap (Z.to_nat (size_ range)) 0); lia.
Qed.

Lemma segments_spec data range max_bytes overlap :
  0 <= offset_ range /\ 0 <= size_ range /\ range_end range <= zlen data ->
  0 < max_bytes -> 0 <= overlap < max_bytes ->
  Forall (segment_ok range max_bytes) (segments range max_bytes overlap) /\
  joined data overlap (segments range max_bytes overlap) = read_range data range.
Proof.
  intros Hr Hmax Hov. destruct (decide (size_ range = 0)) as [Hz|].
  - assert (segments range max_bytes overlap = []) as -> by (unfold segments; by rewrite Hz).
    split; [constructor|]. unfold read_range. by rewrite Hz.
  - destruct (segs_at_spec data range Hr max_bytes overlap (Z.to_nat (size_ range)) 0) as (Hall & Ej & _); [lia..|].
    change (segments range max_bytes overlap) with (segs_at range max_bytes overlap (Z.to_nat (size_ range)) 0).
    split; [done|]. rewrite Ej. unfold read_range. f_equal; lia.
Qed.

(** C21: iterating over the segments of a range ends: the loop visits [segments]
    and comes to the end of the iterator.  The segments have between one and
    [max_bytes] bytes and are inside the range, and they read the whole range in
    order, every segment repeating the last [overlap] bytes of the one before. *)
Theorem segments_read_range data range max_bytes overlap :
  0 <= offset_ range /\ 0 <= size_ range /\ range_end range <= zlen data ->
  0 < max_bytes -> 0 <= overlap < max_bytes ->
  visits range max_bytes overlap (segments_begin range max_bytes overlap) (segments range max_bytes overlap) /\
  Forall (segment_ok range max_bytes) (segments range max_bytes overlap) /\
  joined data overlap (segments range max_bytes overlap) = read_range data range.
Proof.
  intros Hr Hmax Hov. split; [apply segments_visited; lia|]. by apply segments_spec.
Qed.

Lemma segments_read_range_witness :
  let data := seqZ 0 20 in
  segments (FileRange 3 12) 5 2 = [FileRange 3 5; FileRange 6 5; FileRange 9 5; FileRange 12 3] /\
  (visits (FileRange 3 12) 5 2 (segments_begin (FileRange 3 12) 5 2) (segments (FileRange 3 12) 5 2) /\
   Forall (segment_ok (FileRange 3 12) 5) (segments (FileRange 3 12) 5 2) /\
   joined data 2 (segments (FileRange 3 12) 5 2) = read_range data (FileRange 3 12)).
Proof.
  split; [vm_compute; reflexivity|].
  apply (segments_read_range (seqZ 0 20) (FileRange 3 12) 5 2); vm_compute; intuition discriminate.
Defined.

(** *** Extents *)

Section extents_lemmas.
Context {K : Type}.

(** Extents that follow each other, from [lo] to [hi], as a file view keeps
    them for a whole file. *)
Fixpoint contiguous (lo hi : Z) (es : list (extent_info K)) : Prop :=
  match es with
  | [] => lo = hi
  | e :: es => offset_ (ext_range e) = lo /\ 0 < size_ (ext_range e) /\ contiguous (range_end (ext_range e)) hi es
  end.

Definition read_extents (data : list Z) (es : list (extent_info K)) : list Z :=
  concat (map (fun e => read_range data (ext_range e)) es).

Lemma contiguous_le lo hi es : contiguous lo hi es -> lo <= hi.
Proof.
  revert lo. induction es as [|e es IH]; intros lo; simpl; [lia|]. intros (<- & ? & H).
  specialize (IH _ H). unfold range_end in *. lia.
Qed.

Lemma extents_rest_spec data es lo hi end_ : 0 <= lo -> contiguous lo hi es -> lo <= end_ <= hi -> hi <= zlen data ->
  read_extents data (extents_rest es end_) = slice data lo (end_ - lo).
Proof.
  revert lo. induction es as [|e es IH]; intros lo H0 Hc He Hz.
  { cbn in Hc. replace (end_ - lo) with 0 by lia. done. }
  destruct Hc as (<- & Hs & Hc). cbn [extents_rest]. destruct (Z.ltb_spec (offset_ (ext_range e)) end_).
  - cbn [read_extents map concat ext_range]. pose proof (contiguous_le _ _ _ Hc). unfold range_end in *.
    destruct (Z.ltb_spec end_ (offset_ (ext_range e) + size_ (ext_range e))).
    + unfold read_range at 1. cbn [offset_ size_]. assert (extents_rest es end_ = []) as ->.
      { destruct es as [|e' es]; [done|]. destruct Hc as (E & _). cbn [extents_rest]. rewrite E.
        by destruct (Z.ltb_spec (offset_ (ext_range e) + size_ (ext_range e)) end_); [lia|]. }
      by rewrite app_nil_r.
    + fold (read_extents data (extents_rest es end_)). rewrite (IH (offset_ (ext_range e) + size_ (ext_range e))) by (done || lia).
      unfold read_range. rewrite <- slice_add by lia. f_equal. lia.
  - by replace (end_ - offset_ (ext_range e)) with 0 by lia.
Qed.

Lemma skip_extents_spec es lo hi range : contiguous lo hi es -> lo <= offset_ range -> offset_ range < hi ->
  exists e es', skip_extents es range = e :: es' /\ offset_ (ext_range e) <= offset_ range < range_end (ext_range e) /\
    contiguous (range_end (ext_range e)) hi es' /\ lo <= offset_ (ext_range e).
Proof.
  revert lo. induction es as [|e es IH]; intros lo Hc Hlo Hhi; [cbn in Hc; lia|]. destruct Hc as (E & Hs & Hc).
  unfold skip_extents. destruct (Z.leb_spec (range_end (ext_range e)) (offset_ range)).
  - destruct (IH _ Hc) as (e' & es' & Esk & ? & ? & ?); [lia..|]. exists e', es'.
    split_and!; try done; try lia. unfold range_end in *. lia.
  - exists e, es. split_and!; try done; lia.
Qed.
End extents_lemmas.

Lemma extents_in_spec {K} (data : list Z) (es : list (extent_info K)) range :
  contiguous 0 (zlen data) es -> 0 <= offset_ range -> 0 <= size_ range -> range_end range <= zlen data ->
  read_extents data (extents_in es range) = read_range data range.
Proof.
  intros Hc Ho Hs He. unfold extents_in, range_empty. destruct (Z.eqb_spec (size_ range) 0) as [E|].
  { unfold read_range. by rewrite E. }
  unfold range_end in He.
  destruct (skip_extents_spec es 0 (zlen data) range Hc Ho) as (e & es' & -> & He1 & Hc' & He2); [lia|].
  cbn [read_extents map concat ext_range]. fold (read_extents data (extents_rest es' (range_end range))).
  pose proof (contiguous_le _ _ _ Hc'). unfold range_end in *.
  set (ee := offset_ (ext_range e) + size_ (ext_range e)) in *.
  destruct (Z.le_gt_cases ee (offset_ range + size_ range)).
  - rewrite (extents_rest_spec data es' ee (zlen data)) by (done || lia). unfold read_range. cbn [offset_ size_].
    rewrite Z.min_l by lia. replace ee with (offset_ range + (ee - offset_ range)) at 2 by lia.
    rewrite <- slice_add by lia. f_equal. lia.
  - assert (extents_rest es' (offset_ range + size_ range) = []) as ->.
    { destruct es' as [|e' es']; [done|]. destruct Hc' as (E & _). cbn [extents_rest]. rewrite E.
      by destruct (Z.ltb_spec ee (offset_ range + size_ range)); [lia|]. }
    cbn. rewrite app_nil_r. unfold read_range. cbn [offset_ size_]. rewrite Z.min_r by lia. f_equal. lia.
Qed.

(** An extent that is visited is the part of an extent that lies in the range. *)
Definition clipped {K} (range : file_range) (e e' : extent_info K) : Prop :=
  ext_kind e' = ext_kind e /\ offset_ (ext_range e') = Z.max (offset_ (ext_range e)) (offset_ range) /\
  range_end (ext_range e') = Z.min (range_end (ext_range e)) (range_end range) /\ 0 < size_ (ext_range e').

Lemma extents_rest_clipped {K} (es : list (extent_info K)) range lo hi : contiguous lo hi es -> offset_ range <= lo ->
  Forall (fun e' => exists e, e ∈ es /\ clipped range e e') (extents_rest es (range_end range)).
Proof.
  revert lo. induction es as [|e es IH]; intros lo Hc Hlo; [constructor|]. destruct Hc as (Eo & Hs & Hc). cbn [extents_rest].
  destruct (Z.ltb_spec (offset_ (ext_range e)) (range_end range)) as [H|]; [|constructor]. unfold range_end in *. constructor.
  - exists e. split; [by left|]. unfold clipped, range_end. destruct (Z.ltb_spec (offset_ range + size_ range) (offset_ (ext_range e) + size_ (ext_range e))); cbn; split_and!; done || lia.
  - eapply Forall_impl; [apply (IH _ Hc); lia|]. intros e' (e1 & He1 & H1). exists e1. split; [by right|done].
Qed.

Lemma extents_in_clipped {K} (es : list (extent_info K)) range hi : contiguous 0 hi es -> 0 <= offset_ range -> 0 <= size_ range -> range_end range <= hi ->
  Forall (fun e' => exists e, e ∈ es /\ clipped range e e') (extents_in es range).
Proof.
  intros Hc Ho Hs He. unfold extents_in, range_empty. destruct (Z.eqb_spec (size_ range) 0) as [E|]; [constructor|]. unfold range_end in He.
  assert (exists pre, es = pre ++ skip_extents es range) as [pre Epre].
  { clear. induction es as [|e es [pre IH]]; [by exists []|]. unfold skip_extents. destruct (range_end (ext_range e) <=? offset_ range); [|by exists []].
    exists (e :: pre). by rewrite IH at 1. }
  destruct (skip_extents_spec es 0 hi range Hc Ho) as (e & es' & E & He1 & Hc' & He2); [lia|]. rewrite E in Epre |- *.
  assert (forall x, x ∈ e :: es' -> x ∈ es) as Hin by (intros x Hx; rewrite Epre; apply elem_of_app; by right).
  unfold range_end in *. constructor.
  - exists e. split; [apply Hin; by left|]. unfold clipped, range_end. cbn. split_and!; done || lia.
  - eapply Forall_impl; [apply (extents_rest_clipped es' range _ _ Hc'); unfold range_end; lia|]. intros e' (e1 & He1' & H1). exists e1. split; [apply Hin; by right|done].
Qed.

(** The data of the extents visited for a range of a file is the data of
    the range: the extents before it are skipped, the first and the last one
    are clipped, and none is lost or repeated. *)
Theorem extents_read_range {K} (data : list Z) (es : list (extent_info K)) range :
  contiguous 0 (zlen data) es -> 0 <= offset_ range -> 0 <= size_ range -> range_end range <= zlen data ->
  read_extents data (extents_in es range) = read_range data range.
Proof. apply extents_in_spec. Qed.

Lemma extents_read_range_witness :
  let es := [ExtentInfo true (FileRange 0 4); ExtentInfo false (FileRange 4 6); ExtentInfo true (FileRange 10 10)] in
  extents_in es (FileRange 2 10) = [ExtentInfo true (FileRange 2 2); ExtentInfo false (FileRange 4 6); ExtentInfo true (FileRange 10 2)] /\
  read_extents (seqZ 0 20) (extents_in es (FileRange 2 10)) = read_range (seqZ 0 20) (FileRange 2 10).
Proof.
  split; [vm_compute; reflexivity|].
  apply extents_read_range; vm_compute; intuition discriminate.
Defined.
