(* ===== verification/SegmentQueue.v ===== *)
(** * SegmentQueue: file data without random access

    [segment_queue] and the variant of [granular_extent_adapter] that uses it,
    from [src/writer/segmenter.cpp]: when a file extent has no raw bytes, the
    segmenter reads it through a queue of segments that are loaded on demand
    and released when they are not needed any more. *)

From S2P Require Import Prelude FileRange Segmenter.
Local Open Scope Z_scope.

(** ** [queue_data] *)

Record queued_segment : Type := QueuedSegment {
  seg_range : file_range;
  seg_bytes : list Z
}.

#[global] Instance queued_segment_eq_dec : EqDecision queued_segment.
Proof. solve_decision. Defined.

(** The queue, the segments [seg_it_] has yet to deliver, and the version. *)
Record queue_data : Type := QueueData {
  queue_ : list queued_segment;
  seg_it_ : list queued_segment;
  queue_version_ : nat
}.

Inductive queue_error : Type :=
  | offset_out_of_range      (* std::out_of_range *)
  | dangling_iterator.       (* a hint to a released segment *)

Abbreviation queue := (action queue_error queue_data).

(** The loading loop of [find_segment]; every iteration takes a segment. *)
Fixpoint load_until (offset : Z) (pending q : list queued_segment) (version : nat) : option queue_data :=
  let need := match last q with None => true | Some s => range_end (seg_range s) <=? offset end in
  if need then
    match pending with
    | [] => None
    | s :: pending => load_until offset pending (q ++ [s]) (S version)
    end
  else Some (QueueData q pending version).

(** The search from the back of the queue. *)
Definition search_back (offset : Z) (q : list queued_segment) : option queued_segment :=
  (fix go l := match l with
               | [] => None
               | s :: l => if offset_ (seg_range s) <=? offset then Some s else go l
               end) (rev q).

Definition find_segment (offset : Z) : queue queued_segment := fun d =>
  match load_until offset (seg_it_ d) (queue_ d) (queue_version_ d) with
  | None => (Err offset_out_of_range,
             QueueData (queue_ d ++ seg_it_ d) [] (queue_version_ d + length (seg_it_ d)))
  | Some d =>
      match search_back offset (queue_ d) with
      | Some s => (Ok s, d)
      | None => (Err offset_out_of_range, d)
      end
  end.

Definition queue_span (offset : Z) : queue (list Z) :=
  let! s := find_segment offset in
  ret (drop (Z.to_nat (offset - offset_ (seg_range s))) (seg_bytes s)).

(** [versioned_iterator]: the segment pointed to, and the version. *)
Abbreviation lookup_hint := (option (queued_segment * nat)).

(** [at]: the byte and the hint left behind. *)
Definition queue_at (offset : Z) (hint : lookup_hint) : queue (Z * lookup_hint) :=
  let! d := get in
  let slow : queue (Z * lookup_hint) :=
    let! s := find_segment offset in
    let! d := get in
    ret (nth (Z.to_nat (offset - offset_ (seg_range s))) (seg_bytes s) 0, Some (s, queue_version_ d)) in
  match hint with
  | Some (s, version) =>
      if Nat.eqb version (queue_version_ d) then
        if bool_decide (s ∈ queue_ d) then
          let r := seg_range s in
          if (offset_ r <=? offset) && (offset <? range_end r)
          then ret (nth (Z.to_nat (offset - offset_ r)) (seg_bytes s) 0, hint)
          else slow
        else throw dangling_iterator
      else slow
  | None => slow
  end.

Definition release_until (offset : Z) : queue unit :=
  modify (fun d => QueueData
    ((fix go q := match q with
                  | [] => []
                  | s :: q' => if range_end (seg_range s) <=? offset then go q' else q
                  end) (queue_ d)) (seg_it_ d) (queue_version_ d)).

(** ** [span_range_iterable] *)

(** The spans a loop over the range visits; none is empty, so the size of the
    range bounds their number. *)
Fixpoint span_range (fuel : nat) (cur end_ : Z) : queue (list (list Z)) :=
  if cur <? end_ then
    match fuel with
    | O => throw offset_out_of_range
    | S fuel =>
        let remain := end_ - cur in
        let! span := queue_span cur in
        let span := if remain <? zlen span then take (Z.to_nat remain) span else span in
        let! spans := span_range fuel (cur + zlen span) end_ in
        ret (span :: spans)
    end
  else ret [].

(** ** [granular_extent_adapter] over a queue *)

Section adapter.
Context (granularity ext_offset : Z).

Definition collect_spans (offset_in_bytes size_in_bytes : Z) : queue (list (list Z)) :=
  span_range (Z.to_nat size_in_bytes) (ext_offset + offset_in_bytes) (ext_offset + offset_in_bytes + size_in_bytes).

Definition queue_append_to (v : list Z) (offset size : Z) : queue (list Z) :=
  let! spans := collect_spans offset size in ret (foldl app v spans).

(** The loop of [compare], [true] for a result of zero. *)
Fixpoint compare_spans (spans : list (list Z)) (rhs : list Z) : bool :=
  match spans with
  | [] => true
  | span :: spans =>
      if bool_decide (span = take (length span) rhs) then compare_spans spans (drop (length span) rhs) else false
  end.

Definition queue_compare (offset : Z) (rhs : list Z) : queue bool :=
  let! spans := collect_spans (frames_to_bytes granularity offset) (zlen rhs) in
  ret (compare_spans spans rhs).

(** The loop of [match_forward]. *)
Fixpoint forward_spans (spans : list (list Z)) (rhs : list Z) (match_length : nat) : nat :=
  match spans with
  | [] => match_length
  | lhs :: spans =>
      let sub := mismatch lhs rhs in
      let match_length := (match_length + sub)%nat in
      if negb (Nat.eqb sub (length lhs)) && negb (Nat.eqb sub (length rhs)) then match_length
      else forward_spans spans (drop sub rhs) match_length
  end.

Definition queue_match_forward (offset : Z) (rhs : list Z) : queue Z :=
  let! spans := collect_spans (frames_to_bytes granularity offset) (zlen rhs) in
  let match_length := Z.of_nat (forward_spans spans rhs 0) in
  ret (bytes_to_frames granularity (match_length - match_length mod granularity)).

(** The loop of [match_backward], over the spans in reverse. *)
Fixpoint backward_spans (spans : list (list Z)) (rhs : list Z) (match_length : nat) : nat :=
  match spans with
  | [] => match_length
  | lhs :: spans =>
      let sub := mismatch (rev lhs) (rev rhs) in
      let match_length := (match_length + sub)%nat in
      if negb (Nat.eqb sub (length lhs)) && negb (Nat.eqb sub (length rhs)) then match_length
      else backward_spans spans (take (length rhs - sub) rhs) match_length
  end.

Definition queue_match_backward (offset : Z) (rhs : list Z) : queue Z :=
  let! spans := collect_spans (frames_to_bytes granularity offset) (zlen rhs) in
  let match_length := Z.of_nat (backward_spans (rev spans) rhs 0) in
  ret (bytes_to_frames granularity (match_length - match_length mod granularity)).

Definition queue_release_until (offset_in_bytes : Z) : queue unit := release_until (ext_offset + offset_in_bytes).
End adapter.

(** ** Matching over spans *)

Lemma mismatch_app_full a b rhs : mismatch a rhs = length a ->
  mismatch (a ++ b) rhs = (length a + mismatch b (drop (length a) rhs))%nat.
Proof.
  revert rhs. induction a as [|x a IH]; intros rhs H; [by destruct rhs|].
  destruct rhs as [|y rhs]; [done|]. cbn [app mismatch length drop] in *.
  destruct (x =? y); [|done]. injection H as H. by rewrite IH.
Qed.

Lemma mismatch_app_stop a b rhs : mismatch a rhs <> length a -> mismatch (a ++ b) rhs = mismatch a rhs.
Proof.
  revert rhs. induction a as [|x a IH]; intros rhs H; [by destruct rhs|].
  destruct rhs as [|y rhs]; [done|]. cbn [app mismatch length] in *.
  destruct (x =? y); [|done]. rewrite IH; [done|lia].
Qed.

Lemma forward_spans_acc spans rhs n : forward_spans spans rhs n = (n + forward_spans spans rhs 0)%nat.
Proof.
  revert rhs n. induction spans as [|lhs spans IH]; intros rhs n; cbn [forward_spans]; [lia|].
  destruct (_ && _); [lia|]. rewrite IH, (IH _ (0 + _)%nat). lia.
Qed.

Lemma backward_spans_acc spans rhs n : backward_spans spans rhs n = (n + backward_spans spans rhs 0)%nat.
Proof.
  revert rhs n. induction spans as [|lhs spans IH]; intros rhs n; cbn [backward_spans]; [lia|].
  destruct (_ && _); [lia|]. rewrite IH, (IH _ (0 + _)%nat). lia.
Qed.

(** The spans are as long as what they are compared with. *)
Lemma forward_spans_concat spans rhs : length (concat spans) = length rhs ->
  forward_spans spans rhs 0 = mismatch (concat spans) rhs.
Proof.
  revert rhs. induction spans as [|lhs spans IH]; intros rhs Hl; [by destruct rhs|].
  cbn [forward_spans concat] in *. rewrite length_app in Hl. destruct (mismatch_le lhs rhs) as [Hm1 Hm2].
  destruct (Nat.eqb_spec (mismatch lhs rhs) (length lhs)) as [E|E]; cbn [negb andb].
  - rewrite forward_spans_acc, mismatch_app_full, E, IH by (done || (rewrite length_drop; lia)). lia.
  - rewrite mismatch_app_stop by done. destruct (Nat.eqb_spec (mismatch lhs rhs) (length rhs)); [lia|]. done.
Qed.

Lemma backward_spans_concat spans rhs : length (concat (rev spans)) = length rhs ->
  backward_spans spans rhs 0 = mismatch (rev (concat (rev spans))) (rev rhs).
Proof.
  revert rhs. induction spans as [|lhs spans IH]; intros rhs Hl; [by destruct (rev rhs)|].
  cbn [backward_spans rev]. cbn [rev] in Hl. rewrite concat_app in *. cbn [concat] in *. rewrite app_nil_r in *.
  rewrite length_app in Hl. rewrite rev_app_distr.
  destruct (mismatch_le (rev lhs) (rev rhs)) as [Hm1 Hm2]. rewrite length_rev in Hm1, Hm2.
  destruct (Nat.eqb_spec (mismatch (rev lhs) (rev rhs)) (length lhs)) as [E|E]; cbn [negb andb].
  - rewrite backward_spans_acc, mismatch_app_full, E, IH, length_rev by (rewrite ?length_rev, ?length_take; done || lia).
    by rewrite skipn_rev.
  - rewrite mismatch_app_stop by (by rewrite length_rev).
    destruct (Nat.eqb_spec (mismatch (rev lhs) (rev rhs)) (length rhs)); [lia|]. done.
Qed.

Lemma compare_spans_concat spans rhs : length (concat spans) = length rhs ->
  compare_spans spans rhs = bool_decide (concat spans = rhs).
Proof.
  revert rhs. induction spans as [|lhs spans IH]; intros rhs Hl; cbn [compare_spans concat] in *.
  { destruct rhs; [|done]. by rewrite bool_decide_eq_true_2. }
  rewrite length_app in Hl. case_bool_decide as E.
  - rewrite IH by (rewrite length_drop; lia). apply bool_decide_ext. split.
    + intros ->. rewrite E at 1. apply take_drop.
    + intros <-. by rewrite drop_app_length.
  - symmetry. apply bool_decide_eq_false_2. intros <-. apply E. by rewrite take_app_length.
Qed.

(** ** The queue holds a window of the file *)

Section queue_lemmas.
Context (data : list Z).

(** Segments that follow each other from [lo] to [hi], with the file's bytes. *)
Fixpoint segs_contiguous (lo hi : Z) (l : list queued_segment) : Prop :=
  match l with
  | [] => lo = hi
  | s :: l => offset_ (seg_range s) = lo /\ 0 < size_ (seg_range s) /\
      seg_bytes s = read_range data (seg_range s) /\ segs_contiguous (range_end (seg_range s)) hi l
  end.

(** Everything from [lo] to [hi] is in the queue or still to come. *)
Definition queue_inv (lo hi : Z) (d : queue_data) : Prop :=
  0 <= lo /\ hi <= zlen data /\ segs_contiguous lo hi (queue_ d ++ seg_it_ d).

Lemma segs_contiguous_app lo hi l1 l2 :
  segs_contiguous lo hi (l1 ++ l2) <-> exists mid, segs_contiguous lo mid l1 /\ segs_contiguous mid hi l2.
Proof.
  revert lo. induction l1 as [|s l1 IH]; intros lo; cbn [app segs_contiguous].
  - split; [eauto|]. by intros (? & -> & ?).
  - rewrite IH. split.
    + intros (? & ? & ? & mid & ? & ?). exists mid. by split_and!.
    + intros (mid & (? & ? & ? & ?) & ?). split_and!; try done. by exists mid.
Qed.

Lemma segs_contiguous_le lo hi l : segs_contiguous lo hi l -> lo <= hi.
Proof.
  revert lo. induction l as [|s l IH]; intros lo; cbn; [lia|]. intros (<- & ? & _ & H). specialize (IH _ H).
  unfold range_end in *. lia.
Qed.

Lemma segs_contiguous_in lo hi l s : segs_contiguous lo hi l -> s ∈ l ->
  lo <= offset_ (seg_range s) /\ 0 < size_ (seg_range s) /\ range_end (seg_range s) <= hi /\
  seg_bytes s = read_range data (seg_range s).
Proof.
  intros H Hin. apply list_elem_of_split in Hin as (l1 & l2 & ->).
  apply segs_contiguous_app in H as (mid & H1 & <- & ? & ? & H2).
  apply segs_contiguous_le in H1, H2. by split_and!.
Qed.

Lemma last_end lo hi q s : segs_contiguous lo hi q -> last q = Some s -> range_end (seg_range s) = hi.
Proof.
  intros H Hl. apply last_Some in Hl as [l ->]. apply segs_contiguous_app in H as (mid & _ & _ & _ & _ & <-). done.
Qed.

Lemma load_until_spec lo hi off p q v : segs_contiguous lo hi (q ++ p) -> lo <= off < hi ->
  exists q' p' v', load_until off p q v = Some (QueueData q' p' v') /\ q' ++ p' = q ++ p /\
    (exists s, last q' = Some s /\ off < range_end (seg_range s)) /\
    (v <= v')%nat /\ (v' = v -> q' = q) /\ exists q2, q' = q ++ q2.
Proof.
  revert q v. induction p as [|s p IH]; intros q v Hc Ho; cbn [load_until].
  - rewrite app_nil_r in *. destruct (last q) as [s|] eqn:El.
    + pose proof (last_end _ _ _ _ Hc El). destruct (Z.leb_spec (range_end (seg_range s)) off); [lia|].
      exists q, [], v. rewrite app_nil_r. split_and!; try done; [by exists s|exists []; by rewrite app_nil_r].
    + apply last_None in El as ->. cbn in Hc. lia.
  - assert (q ++ s :: p = (q ++ [s]) ++ p) as E by by rewrite <- app_assoc.
    assert (exists q' p' v', load_until off p (q ++ [s]) (S v) = Some (QueueData q' p' v') /\ q' ++ p' = q ++ s :: p /\
      (exists s, last q' = Some s /\ off < range_end (seg_range s)) /\
      (v <= v')%nat /\ (v' = v -> q' = q) /\ exists q2, q' = q ++ q2) as Hstep.
    { rewrite E in Hc. destruct (IH _ (S v) Hc Ho) as (q' & p' & v' & H1 & H2 & H3 & H4 & H5 & q2 & ->).
      exists ((q ++ [s]) ++ q2), p', v'. rewrite E. split_and!; try done; [lia|lia|].
      exists (s :: q2). by rewrite <- app_assoc. }
    destruct (last q) as [l|] eqn:El; [|done].
    destruct (Z.leb_spec (range_end (seg_range l)) off); [done|].
    exists q, (s :: p), v. split_and!; try done; [by exists l|exists []; by rewrite app_nil_r].
Qed.

Lemma search_back_spec lo hi q off : segs_contiguous lo hi q -> lo <= off < hi ->
  exists s, search_back off q = Some s /\ s ∈ q /\ covers (seg_range s) off.
Proof.
  revert hi. induction q as [|s q IH] using rev_ind; intros hi Hc Ho; [cbn in Hc; lia|].
  apply segs_contiguous_app in Hc as (mid & Hc & Hs & Hsz & _ & Hhi). cbn in Hhi.
  unfold search_back. rewrite rev_app_distr. cbn [rev app].
  destruct (Z.leb_spec (offset_ (seg_range s)) off).
  - exists s. split_and!; [done|apply elem_of_app; right; by apply list_elem_of_singleton|].
    unfold covers. lia.
  - destruct (IH mid Hc ltac:(lia)) as (s' & E & Hin & Hcov). exists s'. split_and!; [exact E| |done].
    apply elem_of_app. by left.
Qed.

Definition hint_ok (d : queue_data) (h : lookup_hint) : Prop :=
  match h with
  | Some (s, v) => (v <= queue_version_ d)%nat /\ (v = queue_version_ d -> s ∈ queue_ d)
  | None => True
  end.

(** What finding a segment does to the queue: it may grow, at the end. *)
Definition loaded (d d' : queue_data) : Prop :=
  queue_ d' ++ seg_it_ d' = queue_ d ++ seg_it_ d /\ (queue_version_ d <= queue_version_ d')%nat /\
  (queue_version_ d' = queue_version_ d -> queue_ d' = queue_ d).

Lemma loaded_refl d : loaded d d.
Proof. by split_and!. Qed.

Lemma loaded_trans d1 d2 d3 : loaded d1 d2 -> loaded d2 d3 -> loaded d1 d3.
Proof.
  intros (H1 & H2 & H3) (H4 & H5 & H6). split_and!; [congruence|lia|]. intros E.
  rewrite H6 by lia. apply H3. lia.
Qed.

Lemma hint_ok_loaded d d' h : loaded d d' -> hint_ok d h -> hint_ok d' h.
Proof.
  intros (_ & Hv & Hq) Hh. destruct h as [[s v]|]; [|done]. destruct Hh as [Hle Hin]. split; [lia|].
  intros ->. rewrite Hq by lia. apply Hin. lia.
Qed.

Lemma queue_inv_loaded lo hi d d' : loaded d d' -> queue_inv lo hi d -> queue_inv lo hi d'.
Proof. intros (E & _) (? & ? & ?). split_and!; [done..|by rewrite E]. Qed.

Lemma find_segment_spec lo hi off d : queue_inv lo hi d -> lo <= off < hi ->
  exists s d', find_segment off d = (Ok s, d') /\ loaded d d' /\ s ∈ queue_ d' /\ covers (seg_range s) off.
Proof.
  intros (H0 & Hz & Hc) Ho. unfold find_segment.
  destruct (load_until_spec lo hi off (seg_it_ d) (queue_ d) (queue_version_ d) Hc Ho)
    as (q' & p' & v' & -> & E & (s & Hl & Hs) & Hv & Hq & _).
  rewrite <- E in Hc. apply segs_contiguous_app in Hc as (mid & Hc & Hp).
  pose proof (last_end _ _ _ _ Hc Hl) as Hmid.
  destruct (search_back_spec lo mid q' off Hc) as (s' & Es & Hin & Hcov); [lia|]. cbn [queue_]. rewrite Es.
  exists s', (QueueData q' p' v'). by split_and!.
Qed.

Lemma queue_in lo hi d s : queue_inv lo hi d -> s ∈ queue_ d ->
  lo <= offset_ (seg_range s) /\ 0 < size_ (seg_range s) /\ range_end (seg_range s) <= hi /\
  seg_bytes s = read_range data (seg_range s).
Proof.
  intros (_ & _ & Hc) Hin. eapply segs_contiguous_in; [exact Hc|]. apply elem_of_app. by left.
Qed.

Lemma queue_span_spec lo hi off d : queue_inv lo hi d -> lo <= off < hi ->
  exists n d', queue_span off d = (Ok (slice data off n), d') /\ loaded d d' /\ 0 < n /\ off + n <= hi.
Proof.
  intros Hd Ho. destruct (find_segment_spec lo hi off d Hd Ho) as (s & d' & E & Hl & Hin & Hcov).
  unfold queue_span. erewrite abind_ok by exact E.
  destruct (queue_in _ _ _ _ (queue_inv_loaded _ _ _ _ Hl Hd) Hin) as (H1 & H2 & H3 & ->).
  destruct Hd as (H0 & Hz & _). unfold covers, range_end, read_range in *.
  rewrite drop_slice by lia. exists (size_ (seg_range s) - (off - offset_ (seg_range s))), d'.
  split_and!; try done; [|lia|lia]. unfold ret. do 3 f_equal. lia.
Qed.

Lemma span_range_spec lo hi fuel cur end_ d : queue_inv lo hi d -> lo <= cur <= end_ -> end_ <= hi ->
  end_ - cur <= Z.of_nat fuel ->
  exists spans d', span_range fuel cur end_ d = (Ok spans, d') /\ loaded d d' /\
    concat spans = slice data cur (end_ - cur).
Proof.
  revert cur d. induction fuel as [|fuel IH]; intros cur d Hd Hc He Hf; cbn [span_range].
  { destruct (Z.ltb_spec cur end_); [lia|]. exists [], d. replace (end_ - cur) with 0 by lia.
    split_and!; [done|apply loaded_refl|done]. }
  destruct (Z.ltb_spec cur end_).
  2: { exists [], d. replace (end_ - cur) with 0 by lia. split_and!; [done|apply loaded_refl|done]. }
  destruct (queue_span_spec lo hi cur d Hd ltac:(lia)) as (n & d1 & E1 & Hl1 & Hn & Hnh).
  erewrite abind_ok by exact E1. pose proof Hd as (H0 & Hz & _).
  assert (zlen (slice data cur n) = n) as Hlen by (apply slice_length; lia). rewrite Hlen.
  set (m := Z.min n (end_ - cur)).
  assert ((if end_ - cur <? n then take (Z.to_nat (end_ - cur)) (slice data cur n) else slice data cur n) = slice data cur m) as Ecut.
  { destruct (Z.ltb_spec (end_ - cur) n); unfold m; [|by rewrite Z.min_l by lia].
    rewrite Z.min_r by lia. unfold slice. rewrite take_take. f_equal. lia. }
  rewrite Ecut. assert (zlen (slice data cur m) = m) as Hlm by (apply slice_length; lia). rewrite Hlm.
  destruct (IH (cur + m) d1) as (spans & d2 & E2 & Hl2 & Ec); [by eapply queue_inv_loaded|lia..|].
  erewrite abind_ok by exact E2. exists (slice data cur m :: spans), d2.
  split_and!; [done|by eapply loaded_trans|]. cbn [concat]. rewrite Ec, <- slice_add by lia. f_equal. lia.
Qed.

(** *** Releasing *)

Lemma release_spec lo hi off d : queue_inv lo hi d ->
  exists lo' d', release_until off d = (Ok tt, d') /\ queue_inv lo' hi d' /\ lo <= lo' <= Z.max lo off /\
    forall h, hint_ok d h -> (forall s v, h = Some (s, v) -> off < range_end (seg_range s)) -> hint_ok d' h.
Proof.
  intros (H0 & Hz & Hc). unfold release_until, modify. destruct d as [q p v]. cbn [queue_ seg_it_ queue_version_] in *.
  set (go := fix go q := match q with [] => [] | s :: q' => if range_end (seg_range s) <=? off then go q' else q end).
  enough (exists lo', segs_contiguous lo' hi (go q ++ p) /\ lo <= lo' <= Z.max lo off /\
    forall s, s ∈ q -> off < range_end (seg_range s) -> s ∈ go q) as (lo' & Hc' & Hlo & Hin).
  { exists lo'. eexists. split; [reflexivity|]. split; [split_and!; [lia|done..]|]. split; [done|].
    intros [[s w]|] Hh Hoff; [|done]. destruct Hh as [Hw Hs]. split; [done|]. intros E. apply Hin; [by apply Hs|].
    by eapply Hoff. }
  clear H0 Hz. revert lo Hc. induction q as [|s q IH]; intros lo Hc; [exists lo; split_and!; try done; lia|].
  cbn [app segs_contiguous] in Hc. destruct Hc as (H1 & H2 & H3 & H4). cbn [go]. fold go.
  destruct (Z.leb_spec (range_end (seg_range s)) off).
  - destruct (IH _ H4) as (lo' & Hc' & Hlo & Hin). exists lo'. split_and!; [done| |unfold range_end in *; lia|].
    + unfold range_end in *. lia.
    + intros s' [<-|Hs']%elem_of_cons Hoff; [lia|by apply Hin].
  - exists lo. split_and!; [by split_and!|lia|lia|done].
Qed.

(** *** Single bytes *)

Lemma nth_slice_byte l o n i : 0 <= o -> 0 <= i < n -> o + n <= zlen l ->
  nth (Z.to_nat i) (slice l o n) 0 = nth (Z.to_nat (o + i)) l 0.
Proof.
  intros. unfold slice, zlen in *. rewrite !nth_lookup, lookup_take_lt, lookup_drop by lia.
  f_equal. f_equal. lia.
Qed.

Lemma queue_at_spec lo hi off h d : queue_inv lo hi d -> hint_ok d h -> lo <= off < hi ->
  exists s v d', queue_at off h d = (Ok (nth (Z.to_nat off) data 0, Some (s, v)), d') /\ loaded d d' /\
    hint_ok d' (Some (s, v)) /\ off < range_end (seg_range s).
Proof.
  intros Hd Hh Ho. unfold queue_at. rewrite abind_get.
  set (slow := let! s := find_segment off in _).
  assert (forall s, s ∈ queue_ d -> covers (seg_range s) off ->
    nth (Z.to_nat (off - offset_ (seg_range s))) (seg_bytes s) 0 = nth (Z.to_nat off) data 0) as Hbyte0.
  { intros s Hin Hcov. destruct (queue_in _ _ _ _ Hd Hin) as (H1 & H2 & H3 & ->). destruct Hd as (H0 & Hz & _).
    unfold covers, range_end, read_range in *. rewrite nth_slice_byte by lia. do 2 f_equal. lia. }
  assert (exists s v d', slow d = (Ok (nth (Z.to_nat off) data 0, Some (s, v)), d') /\ loaded d d' /\
    hint_ok d' (Some (s, v)) /\ off < range_end (seg_range s)) as Hslow.
  { destruct (find_segment_spec lo hi off d Hd Ho) as (s & d' & E & Hl & Hin & Hcov).
    unfold slow. erewrite abind_ok by exact E. rewrite abind_get. exists s, (queue_version_ d'), d'.
    destruct (queue_in _ _ _ _ (queue_inv_loaded _ _ _ _ Hl Hd) Hin) as (H1 & H2 & H3 & Eb).
    split_and!; [|done|split; [lia|done]|apply Hcov]. destruct Hd as (H0 & Hz & _).
    unfold ret, covers, range_end, read_range in *. rewrite Eb, nth_slice_byte by lia. do 4 f_equal. lia. }
  destruct h as [[s v]|]; [|done]. destruct Hh as [Hv Hin].
  destruct (Nat.eqb_spec v (queue_version_ d)) as [E|]; [|done].
  rewrite bool_decide_eq_true_2 by auto.
  destruct (Z.leb_spec (offset_ (seg_range s)) off), (Z.ltb_spec off (range_end (seg_range s))); cbn [andb]; try done.
  exists s, v, d. split_and!; [|apply loaded_refl|done|done]. unfold ret. rewrite Hbyte0; [done|auto|done].
Qed.

(** *** The adapter *)

Lemma collect_spans_spec lo base size d o n : queue_inv lo (base + size) d ->
  0 <= base -> 0 <= o -> lo <= base + o -> 0 <= n -> o + n <= size ->
  exists spans d', collect_spans base o n d = (Ok spans, d') /\ loaded d d' /\
    concat spans = slice (slice data base size) o n.
Proof.
  intros Hd Hb Ho Hlo Hn Hs. destruct (span_range_spec lo (base + size) (Z.to_nat n) (base + o) (base + o + n) d Hd)
    as (spans & d' & E & Hl & Ec); [lia..|].
  exists spans, d'. split_and!; [exact E|done|]. rewrite Ec, slice_slice by lia. f_equal. lia.
Qed.

(** A byte iterator, interleaved with other uses of the queue: it reads the
    next byte, data before a position is released, or spans are read. *)
Inductive queue_op : Type :=
  | NextByte
  | Release (offset : Z)
  | ReadSpans (cur end_ : Z).

Fixpoint run_iterator (ops : list queue_op) (off : Z) (h : lookup_hint) : queue (list Z) :=
  match ops with
  | [] => ret []
  | NextByte :: ops =>
      let! ' (b, h) := queue_at off h in
      let! bs := run_iterator ops (off + 1) h in
      ret (b :: bs)
  | Release o :: ops => release_until o ;; run_iterator ops off h
  | ReadSpans cur end_ :: ops => span_range (Z.to_nat (end_ - cur)) cur end_ ;; run_iterator ops off h
  end.

(** The iterator stays below [hi]; what is released lies before the byte it
    read last, what is read has not been released. *)
Fixpoint ops_ok (lo hi off : Z) (ops : list queue_op) : Prop :=
  match ops with
  | [] => True
  | NextByte :: ops => off < hi /\ ops_ok lo hi (off + 1) ops
  | Release o :: ops => o < off /\ ops_ok (Z.max lo o) hi off ops
  | ReadSpans cur end_ :: ops => lo <= cur <= end_ /\ end_ <= hi /\ ops_ok lo hi off ops
  end.

Fixpoint bytes_read (ops : list queue_op) : Z :=
  match ops with
  | [] => 0
  | NextByte :: ops => 1 + bytes_read ops
  | _ :: ops => bytes_read ops
  end.

Lemma bytes_read_nonneg ops : 0 <= bytes_read ops.
Proof. induction ops as [|[]]; cbn; lia. Qed.

Lemma ops_ok_le lo hi off ops : off <= hi -> ops_ok lo hi off ops -> off + bytes_read ops <= hi.
Proof.
  revert lo off. induction ops as [|[] ops IH]; intros lo off Ho H; cbn in *.
  - lia.
  - destruct H as [H1 H2]. specialize (IH lo (off + 1) ltac:(lia) H2). lia.
  - destruct H as [H1 H2]. by apply IH in H2.
  - destruct H as (_ & _ & H2). by apply IH in H2.
Qed.

Lemma run_iterator_spec ops lo b hi off h d : queue_inv lo hi d -> lo <= b -> hint_ok d h ->
  (forall s v, h = Some (s, v) -> off - 1 < range_end (seg_range s)) -> lo <= off <= hi -> ops_ok b hi off ops ->
  exists d', run_iterator ops off h d = (Ok (slice data off (bytes_read ops)), d').
Proof.
  revert lo b off h d. induction ops as [|[|o|cur end_] ops IH]; intros lo b off h d Hd Hlo Hh Hend Ho Hops; cbn [run_iterator bytes_read].
  - by exists d.
  - cbn in Hops. destruct Hops as [Hlt Hops].
    destruct (queue_at_spec lo hi off h d Hd Hh) as (s & v & d1 & E1 & Hl & Hh1 & Hs); [lia|].
    erewrite abind_ok by exact E1.
    destruct (IH lo b (off + 1) (Some (s, v)) d1) as (d2 & E2); [by eapply queue_inv_loaded|done|done| |lia|done|].
    { intros s' v' [= <- <-]. lia. }
    erewrite abind_ok by exact E2. exists d2. unfold ret. do 2 f_equal.
    pose proof (ops_ok_le b hi (off + 1) ops ltac:(lia) Hops). pose proof (bytes_read_nonneg ops). destruct Hd as (Hlo0 & Hz & _).
    rewrite slice_add by lia. change (nth (Z.to_nat off) data 0 :: ?l) with ([nth (Z.to_nat off) data 0] ++ l). f_equal.
    unfold slice, zlen in *. change (Z.to_nat 1) with 1%nat.
    destruct (drop (Z.to_nat off) data) as [|x l] eqn:Ed.
    + apply (f_equal length) in Ed. rewrite length_drop in Ed. cbn in Ed. lia.
    + apply (f_equal (fun l => l !! 0%nat)) in Ed. rewrite lookup_drop, Nat.add_0_r in Ed. cbn in Ed.
      rewrite nth_lookup, Ed. cbn. by rewrite take_0.
  - cbn in Hops. destruct Hops as [Hlt Hops].
    destruct (release_spec lo hi o d Hd) as (lo' & d1 & E1 & Hd1 & Hlo' & Hhint).
    erewrite abind_ok by exact E1. apply (IH lo' (Z.max b o) off h d1); try done; [lia| |lia].
    apply Hhint; [done|]. intros s v E. specialize (Hend s v E). lia.
  - cbn in Hops. destruct Hops as (Hc & He & Hops).
    destruct (span_range_spec lo hi (Z.to_nat (end_ - cur)) cur end_ d Hd) as (spans & d1 & E1 & Hl & _); [lia..|].
    erewrite abind_ok by exact E1. apply (IH lo b off h d1); try done; [by eapply queue_inv_loaded|by eapply hint_ok_loaded].
Qed.
End queue_lemmas.

(** ** Theorems *)

(** Reading through the queue is reading the bytes: for a queue that
    holds, or can still load, everything from [lo] to the end of the extent,
    appending, comparing and matching in both directions succeed and give what
    the adapter over the raw bytes of the extent gives, wherever the segments
    are cut. *)
Theorem queue_adapter_raw data lo base size d g offset rhs v :
  queue_inv data lo (base + size) d -> 0 <= base -> 0 < g -> 0 <= offset ->
  lo <= base + offset * g -> offset * g + zlen rhs <= size ->
  let ext := slice data base size in
  (queue_compare g base offset rhs d).1 = Ok (compare_eq g ext offset rhs) /\
  (queue_match_forward g base offset rhs d).1 = Ok (match_forward g ext offset rhs) /\
  (queue_match_backward g base offset rhs d).1 = Ok (match_backward g ext offset rhs) /\
  (queue_append_to base v (offset * g) (zlen rhs) d).1 = Ok (v ++ slice ext (offset * g) (zlen rhs)).
Proof.
  intros Hd Hb Hg Ho Hlo Hfit ext. pose proof (zlen_nonneg rhs).
  destruct (collect_spans_spec data lo base size d (offset * g) (zlen rhs)) as (spans & d' & E & _ & Ec);
    [done|done|nia|lia|lia|lia|]. fold ext in Ec.
  assert (length (concat spans) = length rhs) as Hl.
  { rewrite Ec. apply Nat2Z.inj. apply slice_length; [nia|lia|].
    destruct Hd as (_ & ? & _). unfold ext. rewrite slice_length; unfold zlen in *; nia. }
  unfold queue_compare, queue_match_forward, queue_match_backward, queue_append_to, frames_to_bytes.
  repeat (erewrite abind_ok by exact E). cbn [ret fst].
  unfold compare_eq, match_forward, match_backward, frames_to_bytes. cbv zeta. rewrite <- Ec. split_and!.
  - by rewrite compare_spans_concat.
  - by rewrite forward_spans_concat.
  - rewrite backward_spans_concat; by rewrite rev_involutive.
  - f_equal. clear. revert v. induction spans as [|s spans IH]; intros v; cbn; [by rewrite app_nil_r|].
    by rewrite IH, app_assoc.
Qed.

Definition witness_data : list Z := [10; 11; 12; 13; 14; 15; 16; 17; 18; 19].
Definition witness_queue : queue_data :=
  QueueData [QueuedSegment (FileRange 2 3) [12; 13; 14]]
    [QueuedSegment (FileRange 5 1) [15]; QueuedSegment (FileRange 6 4) [16; 17; 18; 19]] 1.

Lemma witness_queue_inv : queue_inv witness_data 2 (1 + 9) witness_queue.
Proof. vm_compute. intuition (discriminate || reflexivity). Defined.

Lemma queue_adapter_raw_witness :
  let ext := slice witness_data 1 9 in
  (queue_compare 2 1 1 [13; 14; 15; 16] witness_queue).1 = Ok (compare_eq 2 ext 1 [13; 14; 15; 16]) /\
  (queue_match_forward 2 1 1 [13; 14; 15; 16] witness_queue).1 = Ok (match_forward 2 ext 1 [13; 14; 15; 16]) /\
  (queue_match_backward 2 1 1 [13; 14; 15; 16] witness_queue).1 = Ok (match_backward 2 ext 1 [13; 14; 15; 16]) /\
  (queue_append_to 1 [7] (1 * 2) (zlen [13; 14; 15; 16]) witness_queue).1 =
    Ok ([7] ++ slice ext (1 * 2) (zlen [13; 14; 15; 16])).
Proof.
  apply (queue_adapter_raw witness_data 2 1 9 witness_queue 2 1 [13; 14; 15; 16] [7]).
  - apply witness_queue_inv.
  - discriminate.
  - reflexivity.
  - discriminate.
  - discriminate.
  - discriminate.
Defined.

(** A byte iterator over the queue reads exactly the bytes of the file,
    although its cached position is reused while other reads grow the queue
    and processed segments are released under it: as long as only data before
    the last byte read is released, the cached position never dangles. *)
Theorem queue_iterator_bytes data lo hi off ops d :
  queue_inv data lo hi d -> lo <= off <= hi -> ops_ok lo hi off ops ->
  (run_iterator ops off None d).1 = Ok (slice data off (bytes_read ops)).
Proof.
  intros Hd Ho Hops. destruct (run_iterator_spec data ops lo lo hi off None d) as (d' & ->); done.
Qed.

Lemma queue_iterator_bytes_witness :
  (run_iterator [NextByte; ReadSpans 3 9; NextByte; NextByte; Release 5; NextByte; Release 6; NextByte] 3 None witness_queue).1 =
  Ok (slice witness_data 3 5).
Proof.
  apply (queue_iterator_bytes witness_data 2 10 3
    [NextByte; ReadSpans 3 9; NextByte; NextByte; Release 5; NextByte; Release 6; NextByte] witness_queue).
  - apply witness_queue_inv.
  - lia.
  - vm_compute. intuition discriminate.
Defined.
