(* ===== verification/BlockMerger.v ===== *)
(** * BlockMerger: merging blocks of several producers in a fixed order

    [multi_queue_block_merger_impl] of
    [include/dwarfs/writer/internal/detail/multi_queue_block_merger_impl.h].
    Producer threads call [add] and [finish], consumers call [release]; each
    call runs under a mutex, so an execution is a sequence of calls, and a
    call of [add] happens when its wait condition holds.  The block policy is
    a parameter.  The cached maximum of the worst case sizes is recomputed. *)

From S2P Require Import Prelude.
Local Open Scope Z_scope.

Inductive merger_error : Type :=
  | invalid_source
  | bad_optional_access.   (* active_slots_[ix].value() of an empty slot *)

Section merger.
Context {B : Type} (block_size : B -> Z) (worst_case_source_block_size : Z -> Z).

(** The slots: [source_queue_], [active_slots_], [active_slot_index_], and
    what [on_block_merged_callback_] received, with the source. *)
Record merge_slots : Type := MergeSlots {
  active_slot_index_ : nat;
  source_queue_ : list Z;
  active_slots_ : list (option Z);
  merged : list (Z * B)
}.

(** The other members; a source without an entry has an empty queue. *)
Record merger : Type := Merger {
  slots : merge_slots;
  max_queueable_size_ : Z;
  releaseable_size_ : Z;
  block_queues_ : gmap Z (list (option B))
}.

(** The constructor. *)
Fixpoint fill_slots (n : nat) (sources : list Z) : list (option Z) * list Z :=
  match n with
  | O => ([], sources)
  | S n =>
      match sources with
      | [] => let '(sl, q) := fill_slots n [] in (None :: sl, q)
      | src :: sources => let '(sl, q) := fill_slots n sources in (Some src :: sl, q)
      end
  end.

Definition merger_init (num_active_slots : nat) (max_queued_size : Z) (sources : list Z) : merger :=
  let '(sl, q) := fill_slots num_active_slots sources in
  Merger (MergeSlots 0 q sl []) max_queued_size 0 ∅.

Definition queue_of (s : merger) (src : Z) : list (option B) := default [] (block_queues_ s !! src).

Definition opt_size (b : option B) : Z := match b with Some b => block_size b | None => 0 end.
Definition queue_size (q : list (option B)) : Z := foldr (fun b n => opt_size b + n) 0 q.

Definition queued_size (s : merger) : Z := map_fold (fun _ q n => queue_size q + n) 0 (block_queues_ s).
Definition queueable_size (s : merger) : Z := max_queueable_size_ s - (queued_size s + releaseable_size_ s).

Definition active_slot (c : merge_slots) : option Z := active_slots_ c !! active_slot_index_ c ≫= id.

Definition is_valid_source (c : merge_slots) (src : Z) : bool :=
  bool_decide (Some src ∈ active_slots_ c) || bool_decide (src ∈ source_queue_ c).

Definition max_worst_case_source_block_size (c : merge_slots) : Z :=
  let m := foldl (fun m src => match src with
                               | Some src => Z.max m (worst_case_source_block_size src)
                               | None => m
                               end) 0 (active_slots_ c) in
  foldl (fun m src => Z.max m (worst_case_source_block_size src)) m (source_queue_ c).

(** [update_active]. *)
Definition update_active (ix : nat) (c : merge_slots) : merge_slots :=
  match source_queue_ c with
  | src :: q => MergeSlots (active_slot_index_ c) q (<[ix := Some src]> (active_slots_ c)) (merged c)
  | [] => MergeSlots (active_slot_index_ c) [] (<[ix := None]> (active_slots_ c)) (merged c)
  end.

(** The [do]-[while] loop that looks for the next slot in use; it visits every
    slot at most once. *)
Fixpoint next_slot (fuel : nat) (sl : list (option Z)) (ix i : nat) : nat :=
  let i := ((i + 1) mod length sl)%nat in
  match fuel with
  | O => i
  | S fuel =>
      if negb (Nat.eqb i ix) && bool_decide (sl !! i ≫= id = None) then next_slot fuel sl ix i else i
  end.

(** What [try_merge_block] does to the slots when it takes [blk] from the
    queue of the source [src] in slot [ix]. *)
Definition take_block (src : Z) (blk : option B) (c : merge_slots) : merge_slots :=
  let ix := active_slot_index_ c in
  let c := match blk with
           | Some b => MergeSlots ix (source_queue_ c) (active_slots_ c) (merged c ++ [(src, b)])
           | None => update_active ix c
           end in
  MergeSlots (next_slot (length (active_slots_ c)) (active_slots_ c) ix ix)
    (source_queue_ c) (active_slots_ c) (merged c).

(** Whether to go on, and the state. *)
Definition try_merge_block (s : merger) : result merger_error (bool * merger) :=
  let ix := active_slot_index_ (slots s) in
  match active_slot (slots s) with
  | None => Err bad_optional_access
  | Some src =>
      match queue_of s src with
      | [] => Ok (false, s)
      | blk :: q =>
          let c := take_block src blk (slots s) in
          let s := Merger c (max_queueable_size_ s)
                     (match blk with Some b => releaseable_size_ s + block_size b | None => releaseable_size_ s end)
                     (match blk with Some _ => <[src := q]> (block_queues_ s) | None => delete src (block_queues_ s) end) in
          Ok (negb (Nat.eqb (active_slot_index_ c) ix) || bool_decide (active_slot c <> None), s)
      end
  end.

(** [while (try_merge_block()) {}]: every iteration takes an entry of a queue. *)
Fixpoint merge_loop (fuel : nat) (s : merger) : result merger_error merger :=
  match fuel with
  | O => Ok s
  | S fuel =>
      let? ' (go_on, s) := try_merge_block s in
      if (go_on : bool) then merge_loop fuel s else Ok s
  end.

Definition queued_entries (s : merger) : Z := map_fold (fun _ q n => Z.of_nat (length q) + n) 0 (block_queues_ s).
Definition merge_all (s : merger) : result merger_error merger := merge_loop (S (Z.to_nat (queued_entries s))) s.

Definition push (src : Z) (blk : option B) (s : merger) : merger :=
  Merger (slots s) (max_queueable_size_ s) (releaseable_size_ s)
    (<[src := queue_of s src ++ [blk]]> (block_queues_ s)).

(** The condition [add] waits for. *)
Definition can_add (src : Z) (blk : B) (s : merger) : bool :=
  if decide (active_slot (slots s) = Some src) then block_size blk <=? queueable_size s
  else block_size blk + max_worst_case_source_block_size (slots s) <=? queueable_size s.

(** [add], once it can go on. *)
Definition add (src : Z) (blk : B) (s : merger) : result merger_error merger :=
  if negb (is_valid_source (slots s) src) then Err invalid_source
  else merge_all (push src (Some blk) s).

Definition finish (src : Z) (s : merger) : result merger_error merger := merge_all (push src None s).

Definition release (amount : Z) (s : merger) : merger :=
  Merger (slots s) (max_queueable_size_ s) (releaseable_size_ s - amount) (block_queues_ s).

(** ** Executions *)

Inductive event : Type :=
  | Add (src : Z) (blk : B)
  | Finish (src : Z)
  | Release (amount : Z).

(** A call; a release gives back no more than is held. *)
Inductive step : merger -> event -> merger -> Prop :=
  | step_add s src blk s' : can_add src blk s = true -> add src blk s = Ok s' -> step s (Add src blk) s'
  | step_finish s src s' : finish src s = Ok s' -> step s (Finish src) s'
  | step_release s n : 0 <= n <= releaseable_size_ s -> step s (Release n) (release n s).

Inductive execution (s0 : merger) : list event -> merger -> Prop :=
  | exec_nil : execution s0 [] s0
  | exec_step tr s e s' : execution s0 tr s -> step s e s' -> execution s0 (tr ++ [e]) s'.

(** What an execution has passed for a source. *)
Definition delivered (src : Z) (tr : list event) : list (option B) :=
  omap (fun e => match e with
                 | Add src' b => if decide (src' = src) then Some (Some b) else None
                 | Finish src' => if decide (src' = src) then Some None else None
                 | Release _ => None
                 end) tr.

(** The blocks of a source among those merged. *)
Definition merged_of (src : Z) (c : merge_slots) : list B :=
  omap (fun '(src', b) => if decide (src' = src) then Some b else None) (merged c).
End merger.

(** ** Sums over the queues *)

Section sums.
Context {A : Type}.

Lemma map_sum_insert (f : A -> Z) (m : gmap Z A) k a : m !! k = None ->
  map_fold (fun _ q n => f q + n) 0 (<[k := a]> m) = f a + map_fold (fun _ q n => f q + n) 0 m.
Proof. intros H. rewrite map_fold_insert_L; [done| |done]. intros. lia. Qed.

Lemma map_sum_delete (f : A -> Z) (m : gmap Z A) k :
  map_fold (fun _ q n => f q + n) 0 m =
  match m !! k with Some a => f a | None => 0 end + map_fold (fun _ q n => f q + n) 0 (delete k m).
Proof.
  destruct (m !! k) as [a|] eqn:E.
  - rewrite <- (insert_delete_id m k a) at 1 by done. apply map_sum_insert. apply lookup_delete_eq.
  - rewrite delete_id by done. lia.
Qed.

Lemma map_sum_set (f : A -> Z) (m : gmap Z A) k a :
  map_fold (fun _ q n => f q + n) 0 (<[k := a]> m) =
  f a + map_fold (fun _ q n => f q + n) 0 m - match m !! k with Some a => f a | None => 0 end.
Proof.
  rewrite (map_sum_delete f (<[k := a]> m) k), lookup_insert_eq, delete_insert_eq, (map_sum_delete f m k). lia.
Qed.
End sums.

(** ** The slots *)

Section slots_lemmas.
Context {B : Type}.
#[local] Abbreviation core := (@merge_slots B).

(** The sources not finished yet. *)
Definition all_sources (c : core) : list Z := omap id (active_slots_ c) ++ source_queue_ c.

Record slots_inv (n : nat) (c : core) : Prop := {
  sl_length : length (active_slots_ c) = n;
  sl_index : (active_slot_index_ c < n)%nat;
  sl_nodup : NoDup (all_sources c);
  sl_filled : None ∈ active_slots_ c -> source_queue_ c = [];
  sl_active : active_slot c = None -> Forall (fun o => o = None) (active_slots_ c)
}.

Lemma is_valid_source_spec (c : core) src : is_valid_source c src = true <-> src ∈ all_sources c.
Proof.
  unfold is_valid_source, all_sources. rewrite orb_true_iff, !bool_decide_eq_true, elem_of_app, list_elem_of_omap.
  split; (intros [H|H]; [left|by right]).
  - by exists (Some src).
  - destruct H as ([x|] & Hin & [= ->]). done.
Qed.

Lemma active_slot_in (c : core) src : active_slot c = Some src ->
  active_slots_ c !! active_slot_index_ c = Some (Some src).
Proof. unfold active_slot. destruct (active_slots_ c !! active_slot_index_ c) as [[x|]|]; cbn; congruence. Qed.

(** *** Finding the next slot *)

Lemma next_slot_spec sl ix k fuel : (0 < length sl)%nat -> (ix < length sl)%nat -> (k < length sl)%nat ->
  (length sl <= k + fuel)%nat ->
  (forall j, (1 <= j <= k)%nat -> sl !! ((ix + j) mod length sl)%nat ≫= id = None) ->
  let r := next_slot fuel sl ix ((ix + k) mod length sl)%nat in
  (r < length sl)%nat /\ (r <> ix -> sl !! r ≫= id <> None) /\
  (sl !! r ≫= id = None -> forall p, (p < length sl)%nat -> sl !! p ≫= id = @None Z).
Proof.
  set (n := length sl). intros Hn Hix. revert k. induction fuel as [|fuel IH]; intros k Hk Hf Hvis; [lia|].
  cbn [next_slot]. fold n.
  assert ((((ix + k) mod n + 1) mod n = (ix + (k + 1)) mod n)%nat) as E.
  { rewrite Nat.Div0.add_mod_idemp_l. f_equal. lia. }
  rewrite E. assert (((ix + (k + 1)) mod n < n)%nat) as Hr by (apply Nat.mod_upper_bound; lia).
  destruct (Nat.eqb_spec ((ix + (k + 1)) mod n) ix) as [Eix|Nix]; cbn [negb andb].
  - split; [done|]. split; [done|]. intros Hnone p Hp.
    (* back at the start: every slot has been visited *)
    assert (k + 1 = n)%nat as Ek.
    { destruct (decide (ix + (k + 1) < n)%nat); [rewrite Nat.mod_small in Eix by lia; lia|].
      rewrite <- (Nat.mod_unique (ix + (k + 1)) n 1 (ix + (k + 1) - n)) in Eix by lia. lia. }
    destruct (decide (p = ix)) as [->|]; [by rewrite Eix in Hnone|].
    destruct (decide (ix < p)%nat).
    + specialize (Hvis (p - ix)%nat ltac:(lia)). rewrite Nat.mod_small in Hvis by lia.
      by replace (ix + (p - ix))%nat with p in Hvis by lia.
    + specialize (Hvis (p + n - ix)%nat ltac:(lia)).
      rewrite <- (Nat.mod_unique (ix + (p + n - ix)) n 1 p) in Hvis by lia. done.
  - case_bool_decide as Hslot.
    + apply IH; [|lia|].
      * destruct (decide (k + 1 = n)%nat) as [Ek|]; [|lia]. exfalso. apply Nix. rewrite Ek.
        rewrite <- (Nat.mod_unique (ix + n) n 1 ix); lia.
      * intros j Hj. destruct (decide (j = k + 1)%nat) as [->|]; [done|]. apply Hvis. lia.
    + split; [done|]. split; [by intros _ ?|]. intros Hnone. by destruct Hslot.
Qed.

Lemma next_slot_ok sl ix : (ix < length sl)%nat ->
  let r := next_slot (length sl) sl ix ix in
  (r < length sl)%nat /\ (r <> ix -> sl !! r ≫= id <> None) /\
  (sl !! r ≫= id = None -> Forall (fun o : option Z => o = None) sl).
Proof.
  intros Hix. pose proof (next_slot_spec sl ix 0 (length sl)) as H. rewrite Nat.add_0_r, Nat.mod_small in H by done.
  destruct H as (H1 & H0 & H2); try lia. split; [done|]. split; [done|]. intros Hr. apply Forall_lookup. intros p o Hp.
  specialize (H2 Hr p ltac:(by eapply lookup_lt_Some)). rewrite Hp in H2. by destruct o.
Qed.

(** *** Taking a block *)

Lemma take_block_some src b (c : core) n : slots_inv n c ->
  slots_inv n (take_block src (Some b) c) /\ all_sources (take_block src (Some b) c) = all_sources c /\
  merged (take_block src (Some b) c) = merged c ++ [(src, b)].
Proof.
  intros [H1 H2 H3 H4 H5]. split; [|done].
  destruct (next_slot_ok (active_slots_ c) (active_slot_index_ c)) as (Hr & _ & Hnone); [lia|].
  split; cbn; try done; try lia.
Qed.

Lemma omap_insert_some (sl : list (option Z)) ix o o' : sl !! ix = Some o ->
  exists l1 l2, omap id sl = l1 ++ option_list o ++ l2 /\ omap id (<[ix := o']> sl) = l1 ++ option_list o' ++ l2.
Proof.
  intros H. exists (omap id (take ix sl)), (omap id (drop (S ix) sl)).
  assert (forall l1 (l2 : list (option Z)), omap id (l1 ++ l2) = omap id l1 ++ omap id l2) as Happ.
  { intros l1 l2. induction l1 as [|[x|] l1 IH]; cbn; [done|by f_equal|done]. }
  split.
  - rewrite <- (take_drop_middle sl ix o) at 1 by done. rewrite Happ. by destruct o.
  - rewrite insert_take_drop by (by eapply lookup_lt_Some). rewrite Happ. by destruct o'.
Qed.

Lemma take_block_none src (c : core) n : slots_inv n c -> active_slot c = Some src ->
  slots_inv n (take_block src None c) /\ all_sources c ≡ₚ src :: all_sources (take_block src None c) /\
  merged (take_block src None c) = merged c.
Proof.
  intros [H1 H2 H3 H4 H5] Ha. apply active_slot_in in Ha as Hlk.
  set (c1 := update_active (active_slot_index_ c) c).
  assert (take_block src None c = MergeSlots (next_slot (length (active_slots_ c1)) (active_slots_ c1)
    (active_slot_index_ c) (active_slot_index_ c)) (source_queue_ c1) (active_slots_ c1) (merged c1)) as -> by done.
  assert (length (active_slots_ c1) = n /\ merged c1 = merged c /\ all_sources c ≡ₚ src :: all_sources c1 /\
    (None ∈ active_slots_ c1 -> source_queue_ c1 = [])) as (Hlen & Hm & Hp & Hf).
  { unfold c1, update_active. destruct (source_queue_ c) as [|f q] eqn:Eq; cbn; rewrite length_insert; split_and!; try done.
    - unfold all_sources. cbn. rewrite Eq, !app_nil_r.
      destruct (omap_insert_some (active_slots_ c) (active_slot_index_ c) (Some src) None Hlk) as (l1 & l2 & -> & ->).
      cbn. by rewrite Permutation_middle.
    - unfold all_sources. cbn. rewrite Eq.
      destruct (omap_insert_some (active_slots_ c) (active_slot_index_ c) (Some src) (Some f) Hlk) as (l1 & l2 & -> & ->).
      cbn. rewrite <- !app_assoc. cbn. rewrite <- !Permutation_middle. done.
    - intros Hin. apply list_elem_of_lookup in Hin as (i & Hi). rewrite list_lookup_insert in Hi.
      case_decide; [done|]. exfalso. apply list_elem_of_lookup_2 in Hi. specialize (H4 Hi). congruence. }
  destruct (next_slot_ok (active_slots_ c1) (active_slot_index_ c)) as (Hr & _ & Hnone); [lia|].
  split; [|split; [done|by rewrite Hm]]. split; cbn; try done; try lia.
  rewrite Hp in H3. by apply NoDup_cons in H3 as [_ ?].
Qed.

(** The sources after taking a block: all of them, or all but one that ended. *)
Lemma take_block_sources src blk (c : core) n : slots_inv n c -> active_slot c = Some src ->
  slots_inv n (take_block src blk c) /\
  forall src', src' ∈ all_sources (take_block src blk c) <-> src' ∈ all_sources c /\ (blk = None -> src' <> src).
Proof.
  intros Hinv Ha. destruct blk as [b|].
  - destruct (take_block_some src b c n Hinv) as (H1 & -> & _). split; [done|]. intros src'. split; [by intros ?|by intros [? _]].
  - destruct (take_block_none src c n Hinv Ha) as (H1 & H2 & _). split; [done|]. intros src'.
    pose proof (sl_nodup _ _ Hinv) as Hnd. rewrite H2 in Hnd. apply NoDup_cons in Hnd as [Hn _].
    rewrite H2, elem_of_cons. split; [|by intros [[->|?] Hne]; [specialize (Hne eq_refl)|]].
    intros Hs. split; [by right|]. intros _ ->. by apply Hn.
Qed.
End slots_lemmas.

(** *** What a step does to the sums, the queues and the bounds *)

Section step_lemmas.
Context {B : Type} (block_size : B -> Z) (worst : Z -> Z).
#[local] Abbreviation core := (@merge_slots B).
#[local] Abbreviation state := (@merger B).

Lemma fold_max_le (l : list Z) m M :
  foldl (fun m src => Z.max m (worst src)) m l <= M <-> m <= M /\ forall src, src ∈ l -> worst src <= M.
Proof.
  revert m. induction l as [|x l IH]; intros m; cbn.
  - split; [intros ?; split; [done|by intros src ?%elem_of_nil]|by intros [? _]].
  - rewrite IH, Z.max_lub_iff. split.
    + intros [[H1 H2] H3]. split; [done|]. intros src [->|Hs]%elem_of_cons; [done|by apply H3].
    + intros [H1 H2]. split; [split; [done|apply H2; left]|]. intros src Hs. apply H2. by right.
Qed.

Lemma fold_max_opt (l : list (option Z)) m :
  foldl (fun m src => match src with Some src => Z.max m (worst src) | None => m end) m l =
  foldl (fun m src => Z.max m (worst src)) m (omap id l).
Proof. revert m. induction l as [|[x|] l IH]; intros m; cbn; [done|apply IH|apply IH]. Qed.

Lemma max_worst_le (c : core) M :
  max_worst_case_source_block_size worst c <= M <-> 0 <= M /\ forall src, src ∈ all_sources c -> worst src <= M.
Proof. unfold max_worst_case_source_block_size, all_sources. rewrite fold_max_opt, <- foldl_app. apply fold_max_le. Qed.

Lemma max_worst_mono (c c' : core) : (forall src, src ∈ all_sources c' -> src ∈ all_sources c) ->
  max_worst_case_source_block_size worst c' <= max_worst_case_source_block_size worst c.
Proof.
  intros H. pose proof (proj1 (max_worst_le c _) (Z.le_refl _)) as [H1 H2]. apply max_worst_le. split; [done|].
  intros src Hs. by apply H2, H.
Qed.

Lemma queue_of_cons (s : state) src blk q : queue_of s src = blk :: q -> block_queues_ s !! src = Some (blk :: q).
Proof. unfold queue_of. destruct (block_queues_ s !! src); cbn; congruence. Qed.

#[local] Arguments queue_size : simpl never.

Lemma queue_size_cons b q : queue_size block_size (b :: q) = opt_size block_size b + queue_size block_size q.
Proof. done. Qed.

Lemma queue_size_app q1 q2 : queue_size block_size (q1 ++ q2) = queue_size block_size q1 + queue_size block_size q2.
Proof. unfold queue_size. induction q1 as [|x q1 IH]; cbn; [done|]. rewrite IH. lia. Qed.

Lemma push_queue_of src blk (s : state) src' :
  queue_of (push src blk s) src' = if decide (src = src') then queue_of s src ++ [blk] else queue_of s src'.
Proof. unfold queue_of at 1. cbn. rewrite lookup_insert. by case_decide. Qed.

Lemma push_queued_size src blk (s : state) :
  queued_size block_size (push src blk s) = queued_size block_size s + opt_size block_size blk.
Proof.
  unfold queued_size. cbn. rewrite map_sum_set, queue_size_app, queue_size_cons. unfold queue_of.
  change (queue_size block_size []) with 0.
  destruct (block_queues_ s !! src); cbn; change (queue_size block_size []) with 0; lia.
Qed.

Lemma push_queued_entries src blk (s : state) : queued_entries (push src blk s) = queued_entries s + 1.
Proof.
  unfold queued_entries. cbn. rewrite (map_sum_set (fun q => Z.of_nat (length q))), length_app. unfold queue_of.
  destruct (block_queues_ s !! src); cbn; lia.
Qed.

Lemma merged_of_take src src' (blk : option B) (c : core) :
  map Some (merged_of src' (take_block src blk c)) =
  map Some (merged_of src' c) ++ match blk with Some b => if decide (src = src') then [Some b] else [] | None => [] end.
Proof.
  unfold merged_of, take_block. destruct blk as [b|]; cbn.
  - rewrite omap_app, map_app. cbn. by case_decide.
  - rewrite app_nil_r. unfold update_active. by destruct (source_queue_ c).
Qed.

(** What [try_merge_block] leaves when it takes [blk]. *)
Definition merge_one (src : Z) (blk : option B) (q : list (option B)) (s : state) : state :=
  Merger (take_block src blk (slots s)) (max_queueable_size_ s)
    (releaseable_size_ s + opt_size block_size blk)
    (match blk with Some _ => <[src := q]> (block_queues_ s) | None => delete src (block_queues_ s) end).

Lemma merge_one_sums src blk q (s : state) : queue_of s src = blk :: q -> (blk = None -> q = []) ->
  queued_size block_size (merge_one src blk q s) = queued_size block_size s - opt_size block_size blk /\
  queued_entries (merge_one src blk q s) = queued_entries s - 1.
Proof.
  intros H%queue_of_cons Hq. unfold queued_size, queued_entries. destruct blk as [b|]; cbn.
  - rewrite map_sum_set, (map_sum_set (fun q => Z.of_nat (length q))), H, queue_size_cons. cbn. lia.
  - specialize (Hq eq_refl) as ->.
    rewrite (map_sum_delete (queue_size block_size) (block_queues_ s) src),
      (map_sum_delete (fun q => Z.of_nat (length q)) (block_queues_ s) src), H, queue_size_cons.
    change (queue_size block_size []) with 0. cbn. lia.
Qed.

Lemma merge_one_queue_of src blk q (s : state) src' : (blk = None -> q = []) ->
  queue_of (merge_one src blk q s) src' = if decide (src = src') then q else queue_of s src'.
Proof.
  intros Hq. unfold queue_of, merge_one. destruct blk as [b|]; cbn.
  - rewrite lookup_insert. by case_decide.
  - specialize (Hq eq_refl) as ->. rewrite lookup_delete. by case_decide.
Qed.

Lemma queued_entries_nonneg (s : state) : 0 <= queued_entries s.
Proof.
  unfold queued_entries. generalize (block_queues_ s). intros m.
  induction m as [|k q m Hk IH] using map_ind; [done|].
  rewrite (map_sum_insert (fun q => Z.of_nat (length q))) by done. lia.
Qed.

Lemma queued_entries_cons (s : state) src blk q : queue_of s src = blk :: q -> 0 < queued_entries s.
Proof.
  intros H%queue_of_cons. unfold queued_entries. rewrite (map_sum_delete (fun q => Z.of_nat (length q)) _ src), H. cbn [length].
  pose proof (queued_entries_nonneg (Merger (slots s) 0 0 (delete src (block_queues_ s)))) as H1.
  unfold queued_entries in H1. cbn in H1. lia.
Qed.
End step_lemmas.

(** ** The invariant of an execution *)

Section executions.
Context {B : Type} (block_size : B -> Z) (worst : Z -> Z).
Context (streams : Z -> list B) (srcs : list Z) (n : nat) (max : Z).
#[local] Abbreviation core := (@merge_slots B).
#[local] Abbreviation state := (@merger B).

(** What the source [src] passes in all: its blocks, then its end. *)
Definition full_stream (src : Z) : list (option B) := map Some (streams src) ++ [None].

(** The producers keep to their streams. *)
Definition protocol (tr : list event) : Prop :=
  forall src, if decide (src ∈ srcs) then delivered src tr `prefix_of` full_stream src else delivered src tr = [].

Definition complete (tr : list event) : Prop := forall src, src ∈ srcs -> delivered src tr = full_stream src.

(** The reference: with the whole streams at hand, take the next element of
    the stream of the active slot, round robin. *)
Definition ref_step (c : core) : core :=
  match active_slot c with
  | Some src =>
      match full_stream src !! length (merged_of src c) with
      | Some blk => take_block src blk c
      | None => c
      end
  | None => c
  end.

Definition reference (steps : nat) : core := Nat.iter steps ref_step (slots (merger_init n max srcs)).

(** The size of the first entry for the active slot. *)
Definition head_size (s : state) : Z :=
  match active_slot (slots s) with
  | Some src => match queue_of s src with blk :: _ => opt_size block_size blk | [] => 0 end
  | None => 0
  end.

Record merger_inv (tr : list event) (s : state) : Prop := {
  mi_slots : slots_inv n (slots s);
  mi_sources : forall src, src ∈ all_sources (slots s) -> src ∈ srcs;
  mi_live : forall src, src ∈ all_sources (slots s) ->
    delivered src tr = map Some (merged_of src (slots s)) ++ queue_of s src;
  mi_done : forall src, src ∈ srcs -> src ∉ all_sources (slots s) ->
    delivered src tr = map Some (merged_of src (slots s)) ++ None :: queue_of s src;
  mi_ref : exists k, slots s = reference k /\ Z.of_nat k + queued_entries s <= Z.of_nat (length tr);
  mi_max : max_queueable_size_ s = max;
  mi_releaseable : 0 <= releaseable_size_ s;
  mi_memory : queued_size block_size s + releaseable_size_ s <= max;
  mi_room : queued_size block_size s - head_size s + max_worst_case_source_block_size worst (slots s) <= max
}.

(** Nothing is left to merge. *)
Definition settled (s : state) : Prop := forall src, active_slot (slots s) = Some src -> queue_of s src = [].

Context (Hsize : forall b, 0 <= block_size b).

Lemma opt_size_nonneg b : 0 <= opt_size block_size b.
Proof. destruct b; cbn; [apply Hsize|done]. Qed.

Lemma head_size_nonneg s : 0 <= head_size s.
Proof.
  unfold head_size. destruct (active_slot (slots s)) as [src|]; [|done].
  destruct (queue_of s src); [done|apply opt_size_nonneg].
Qed.

Lemma active_in_sources (c : core) src : active_slot c = Some src -> src ∈ all_sources c.
Proof.
  intros H%active_slot_in%list_elem_of_lookup_2. apply elem_of_app. left. apply list_elem_of_omap. by exists (Some src).
Qed.

(** The next element of a live source, by what has been merged of it. *)
Lemma live_next tr s src blk q : merger_inv tr s -> protocol tr -> src ∈ all_sources (slots s) ->
  queue_of s src = blk :: q ->
  full_stream src !! length (merged_of src (slots s)) = Some blk /\ (blk = None -> q = []).
Proof.
  intros Hinv Hp Hs Hq. pose proof (mi_live _ _ Hinv src Hs) as Hd. rewrite Hq in Hd.
  specialize (Hp src). rewrite decide_True in Hp by (by apply (mi_sources _ _ Hinv)). destruct Hp as [rest Hp].
  rewrite Hd, <- app_assoc in Hp. rewrite Hp. split.
  - rewrite lookup_app_r, length_map, Nat.sub_diag by (by rewrite length_map). done.
  - intros ->. unfold full_stream in Hp. cbn in Hp.
    assert (forall (l1 : list B) l2 rest, map Some l1 ++ [None] = map Some l2 ++ None :: rest -> rest = []) as Hends.
    { clear. intros l1 l2. revert l1. induction l2 as [|y l2 IH]; intros [|x l1] rest H; cbn in H; simplify_eq; [done|].
      by apply (IH l1). }
    apply Hends in Hp. by apply app_eq_nil in Hp as [-> _].
Qed.

Lemma try_merge_eq s src blk q : active_slot (slots s) = Some src -> queue_of s src = blk :: q ->
  try_merge_block block_size s =
  let s' := merge_one block_size src blk q s in
  Ok (negb (Nat.eqb (active_slot_index_ (slots s')) (active_slot_index_ (slots s))) ||
      bool_decide (active_slot (slots s') <> None), s').
Proof.
  intros Ha Hq. unfold try_merge_block. rewrite Ha, Hq. unfold merge_one. cbv zeta.
  destruct blk as [b|]; cbn [opt_size]; [done|]. by rewrite Z.add_0_r.
Qed.

Lemma merge_one_go_on s src blk q : slots_inv n (slots s) ->
  let s' := merge_one block_size src blk q s in
  negb (Nat.eqb (active_slot_index_ (slots s')) (active_slot_index_ (slots s))) ||
  bool_decide (active_slot (slots s') <> None) = bool_decide (active_slot (slots s') <> None).
Proof.
  intros [H1 H2 H3 H4 H5]. cbv zeta. cbn [slots merge_one].
  destruct (Nat.eqb_spec (active_slot_index_ (take_block src blk (slots s))) (active_slot_index_ (slots s))) as [E|E]; [done|].
  cbn [negb orb]. symmetry. apply bool_decide_eq_true. revert E. unfold active_slot, take_block. destruct blk as [b|]; cbn.
  - by destruct (next_slot_ok (active_slots_ (slots s)) (active_slot_index_ (slots s))) as (_ & E & _); [lia|].
  - set (c := update_active _ _).
    destruct (next_slot_ok (active_slots_ c) (active_slot_index_ (slots s))) as (_ & E & _); [|done].
    unfold c, update_active. destruct (source_queue_ (slots s)); cbn; rewrite length_insert; lia.
Qed.

Lemma merge_one_inv tr s src blk q : merger_inv tr s -> protocol tr ->
  active_slot (slots s) = Some src -> queue_of s src = blk :: q -> merger_inv tr (merge_one block_size src blk q s).
Proof.
  intros Hinv Hp Ha Hq. pose proof (active_in_sources _ _ Ha) as Hs.
  destruct (live_next tr s src blk q Hinv Hp Hs Hq) as [Hnext Hlast].
  destruct (take_block_sources src blk (slots s) n (mi_slots _ _ Hinv) Ha) as [Hinv' Hsrcs].
  destruct (merge_one_sums block_size src blk q s Hq Hlast) as [Hsz Hent].
  pose proof (opt_size_nonneg blk) as Hb.
  split; cbn [slots merge_one max_queueable_size_ releaseable_size_].
  - done.
  - intros src' [H _]%Hsrcs. by apply (mi_sources _ _ Hinv).
  - intros src' [H1 H2]%Hsrcs. rewrite (mi_live _ _ Hinv src' H1), merged_of_take, merge_one_queue_of, <- app_assoc by done.
    destruct (decide (src = src')) as [<-|]; [|by destruct blk]. rewrite Hq. destruct blk; [done|by destruct H2].
  - intros src' H1 H2. rewrite Hsrcs in H2. rewrite merged_of_take, merge_one_queue_of by done.
    destruct (decide (src' ∈ all_sources (slots s))) as [H3|H3].
    + destruct blk as [b|]; [by destruct H2; split|]. destruct (decide (src' = src)) as [->|]; [|by destruct H2; split].
      by rewrite decide_True, (mi_live _ _ Hinv), Hq, app_nil_r by done.
    + rewrite (mi_done _ _ Hinv src' H1 H3). destruct (decide (src = src')) as [<-|]; [done|]. destruct blk; by rewrite app_nil_r.
  - destruct (mi_ref _ _ Hinv) as (k & Hk & Hlen). exists (S k). rewrite Hent. split; [|lia].
    unfold reference. rewrite Nat.iter_succ. fold (reference k). rewrite <- Hk. unfold ref_step. by rewrite Ha, Hnext.
  - apply (mi_max _ _ Hinv).
  - pose proof (mi_releaseable _ _ Hinv). lia.
  - pose proof (mi_memory _ _ Hinv). lia.
  - pose proof (mi_room _ _ Hinv) as Hr. pose proof (head_size_nonneg (merge_one block_size src blk q s)) as Hh.
    unfold head_size in Hr. rewrite Ha, Hq in Hr.
    pose proof (max_worst_mono worst (slots s) (take_block src blk (slots s))) as Hm.
    rewrite Hsz. specialize (Hm ltac:(by intros src' [? _]%Hsrcs)). lia.
Qed.

Lemma merge_loop_inv tr fuel : protocol tr -> forall s, merger_inv tr s -> active_slot (slots s) <> None ->
  queued_entries s < Z.of_nat fuel ->
  exists s', merge_loop block_size fuel s = Ok s' /\ merger_inv tr s' /\ settled s'.
Proof.
  intros Hp. induction fuel as [|fuel IH]; intros s Hinv Ha Hf; [pose proof (queued_entries_nonneg s); lia|].
  cbn [merge_loop]. destruct (active_slot (slots s)) as [src|] eqn:Hact; [|done].
  destruct (queue_of s src) as [|blk q] eqn:Hq.
  - unfold try_merge_block. rewrite Hact, Hq. cbn. exists s. split_and!; try done. intros src'. congruence.
  - rewrite (try_merge_eq s src blk q Hact Hq). cbv zeta. rewrite (merge_one_go_on s src blk q (mi_slots _ _ Hinv)). cbn.
    pose proof (merge_one_inv tr s src blk q Hinv Hp Hact Hq) as Hinv'.
    destruct (live_next tr s src blk q Hinv Hp (active_in_sources _ _ Hact) Hq) as [_ Hlast].
    destruct (merge_one_sums block_size src blk q s Hq Hlast) as [_ Hent].
    case_bool_decide as Hgo.
    + apply IH; [done|done|]. lia.
    + eexists. split_and!; [done|done|]. intros src' H. cbn in H. congruence.
Qed.

Lemma merge_all_inv tr s : protocol tr -> merger_inv tr s -> active_slot (slots s) <> None ->
  exists s', merge_all block_size s = Ok s' /\ merger_inv tr s' /\ settled s'.
Proof. intros. apply merge_loop_inv; [done|done|done|]. pose proof (queued_entries_nonneg s). lia. Qed.

(** *** The start *)

Lemma fill_slots_eq k l : fill_slots k l = (map Some (take k l) ++ replicate (k - length l) None, drop k l).
Proof.
  revert l. induction k as [|k IH]; intros l; cbn; [done|]. destruct l as [|x l].
  - rewrite IH. cbn. by rewrite take_nil, Nat.sub_0_r, drop_nil.
  - by rewrite IH.
Qed.

Lemma omap_id_some (l : list Z) k : omap id (map Some l ++ replicate k None) = l.
Proof. induction l as [|x l IH]; cbn; [by induction k|by rewrite IH]. Qed.

Lemma init_sources : all_sources (slots (merger_init (B := B) n max srcs)) = srcs.
Proof. unfold all_sources, merger_init. rewrite fill_slots_eq. cbn. by rewrite omap_id_some, take_drop. Qed.

Context (Hn : (0 < n)%nat) (Hnd : NoDup srcs) (Hmax : 0 <= max) (Hworst : forall src, src ∈ srcs -> worst src <= max).

Lemma merger_init_inv : merger_inv [] (merger_init n max srcs) /\ settled (merger_init n max srcs).
Proof.
  assert (forall src, queue_of (merger_init (B := B) n max srcs) src = []) as Hq.
  { intros src. unfold merger_init. rewrite fill_slots_eq. unfold queue_of. cbn. by rewrite lookup_empty. }
  split; [|by intros src _].
  assert (merged (slots (merger_init (B := B) n max srcs)) = []) as Hm by (unfold merger_init; by rewrite fill_slots_eq).
  split.
  - split.
    + unfold merger_init. rewrite fill_slots_eq. cbn. rewrite length_app, length_map, length_replicate, length_take. lia.
    + unfold merger_init. by rewrite fill_slots_eq.
    + by rewrite init_sources.
    + unfold merger_init. rewrite fill_slots_eq. cbn. intros [(x & [=] & _)%list_elem_of_fmap|Hr]%elem_of_app.
      apply elem_of_replicate in Hr as [_ Hr]. apply drop_ge. lia.
    + unfold merger_init, active_slot. rewrite fill_slots_eq. cbn. destruct srcs as [|x l]; [|by destruct n].
      intros _. rewrite take_nil. cbn. rewrite Nat.sub_0_r. by apply Forall_replicate.
  - intros src. by rewrite init_sources.
  - intros src _. rewrite Hq. unfold merged_of. by rewrite Hm.
  - intros src H1 H2. rewrite init_sources in H2. done.
  - exists O. split; [done|]. unfold queued_entries, merger_init. rewrite fill_slots_eq. cbn. by rewrite map_fold_empty.
  - unfold merger_init. by rewrite fill_slots_eq.
  - unfold merger_init. by rewrite fill_slots_eq.
  - unfold queued_size, merger_init. rewrite fill_slots_eq. cbn. rewrite map_fold_empty. lia.
  - unfold head_size. destruct (active_slot _) as [src|]; [rewrite Hq|];
    (assert (max_worst_case_source_block_size worst (slots (merger_init (B := B) n max srcs)) <= max) as Hw;
     [apply max_worst_le; split; [done|]; intros src'; rewrite init_sources; apply Hworst|]);
    unfold queued_size, merger_init in *; rewrite fill_slots_eq in *; cbn in *; rewrite map_fold_empty; lia.
Qed.

(** *** The calls *)

Definition passed (e : event) (src : Z) (blk : option B) : Prop :=
  e = match blk with Some b => Add src b | None => Finish src end.

Lemma delivered_snoc e src blk tr src' : passed e src blk ->
  delivered src' (tr ++ [e]) = delivered src' tr ++ if decide (src = src') then [blk] else [].
Proof. intros ->. unfold delivered. rewrite omap_app. destruct blk; cbn; by case_decide. Qed.

Lemma delivered_release m src' tr : delivered (B := B) src' (tr ++ [Release m]) = delivered src' tr.
Proof. unfold delivered. rewrite omap_app. cbn. by rewrite app_nil_r. Qed.

Lemma protocol_prefix tr e : protocol (tr ++ [e]) -> protocol tr.
Proof.
  intros H src. specialize (H src). unfold delivered in *. rewrite omap_app in H. case_decide.
  - etransitivity; [|exact H]. by exists (omap (fun e => match e with
      | Add src' b => if decide (src' = src) then Some (Some b) else None
      | Finish src' => if decide (src' = src) then Some None else None
      | Release _ => None end) [e]).
  - by apply app_eq_nil in H as [? _].
Qed.

(** Nothing follows the end of a stream. *)
Lemma full_stream_end src l q : map Some l ++ None :: q `prefix_of` full_stream src ->
  q = [] /\ l = streams src.
Proof.
  unfold full_stream. generalize (streams src) as l2. clear. induction l as [|x l IH]; intros [|y l2] [r H]; cbn in H; simplify_eq.
  - symmetry in H. by apply app_eq_nil in H as [-> _].
  - destruct (IH l2) as [-> ->]; [by exists r|done].
Qed.

Lemma no_active_no_sources tr s : merger_inv tr s -> active_slot (slots s) = None -> all_sources (slots s) = [].
Proof.
  intros Hinv Ha. pose proof (mi_slots _ _ Hinv) as [H1 H2 _ H4 H5]. specialize (H5 Ha). unfold all_sources.
  destruct (active_slots_ (slots s)) as [|o l] eqn:E; [cbn in H1; lia|].
  assert (o = None) as -> by exact (Forall_inv H5). rewrite H4, app_nil_r by left. clear -H5. revert H5. generalize (None :: l). clear.
  intros l. induction 1 as [|? ? -> _ IH]; [done|exact IH].
Qed.

Lemma protocol_live tr s e src blk : merger_inv tr s -> passed e src blk -> protocol (tr ++ [e]) ->
  src ∈ all_sources (slots s).
Proof.
  intros Hinv He Hp. destruct (decide (src ∈ all_sources (slots s))) as [|Hno]; [done|]. exfalso.
  specialize (Hp src). rewrite (delivered_snoc e src blk), (decide_True (P := src = src)) in Hp by done. case_decide as Hs.
  - rewrite (mi_done _ _ Hinv src Hs Hno), <- app_assoc in Hp. cbn in Hp. apply full_stream_end in Hp as [Hp _].
    by apply app_eq_nil in Hp as [_ ?].
  - by apply app_eq_nil in Hp as [_ ?].
Qed.

Lemma settled_head s : settled s -> head_size s = 0.
Proof. unfold head_size. intros H. destruct (active_slot (slots s)) as [src|] eqn:E; [|done]. by rewrite (H src E). Qed.

Lemma push_inv tr s e src blk : merger_inv tr s -> settled s -> passed e src blk -> protocol (tr ++ [e]) ->
  queued_size block_size s + releaseable_size_ s + opt_size block_size blk <= max ->
  active_slot (slots s) = Some src \/
    queued_size block_size s + opt_size block_size blk + max_worst_case_source_block_size worst (slots s) <= max ->
  merger_inv (tr ++ [e]) (push src blk s).
Proof.
  intros Hinv Hset He Hp Hmem Hroom. pose proof (protocol_live tr s e src blk Hinv He Hp) as Hlive.
  pose proof (settled_head s Hset) as Hh. split; cbn [slots push max_queueable_size_ releaseable_size_].
  - apply (mi_slots _ _ Hinv).
  - apply (mi_sources _ _ Hinv).
  - intros src' H. rewrite (delivered_snoc e src blk), push_queue_of, (mi_live _ _ Hinv src' H), <- app_assoc by done.
    case_decide; [by subst|by rewrite app_nil_r].
  - intros src' H1 H2. rewrite (delivered_snoc e src blk), push_queue_of, (mi_done _ _ Hinv src' H1 H2) by done.
    case_decide; [by subst|by rewrite app_nil_r].
  - destruct (mi_ref _ _ Hinv) as (k & Hk & Hlen). exists k. rewrite push_queued_entries, length_app. cbn [length]. split; [done|lia].
  - apply (mi_max _ _ Hinv).
  - apply (mi_releaseable _ _ Hinv).
  - rewrite push_queued_size. lia.
  - rewrite push_queued_size. pose proof (mi_room _ _ Hinv) as Hr. rewrite Hh in Hr.
    pose proof (head_size_nonneg (push src blk s)) as Hp'. destruct Hroom as [Ha|?]; [|lia].
    unfold head_size. cbn [slots push]. rewrite Ha, push_queue_of, decide_True, (Hset src Ha) by done. cbn. lia.
Qed.

Lemma push_active tr s e src blk : merger_inv tr s -> passed e src blk -> protocol (tr ++ [e]) ->
  active_slot (slots s) <> None.
Proof.
  intros Hinv He Hp Ha. pose proof (protocol_live tr s e src blk Hinv He Hp) as H.
  rewrite (no_active_no_sources tr s Hinv Ha) in H. by apply elem_of_nil in H.
Qed.

(** A call that keeps to the protocol succeeds and keeps the invariant. *)
Lemma add_inv tr s src b : merger_inv tr s -> settled s -> protocol (tr ++ [Add src b]) -> can_add block_size worst src b s = true ->
  exists s', add block_size src b s = Ok s' /\ merger_inv (tr ++ [Add src b]) s' /\ settled s'.
Proof.
  intros Hinv Hset Hp Hcan. pose proof (protocol_live tr s _ src (Some b) Hinv eq_refl Hp) as Hlive. unfold add.
  rewrite (proj2 (is_valid_source_spec (slots s) src) Hlive). cbn [negb].
  apply merge_all_inv; [done| |by apply (push_active tr s (Add src b) src (Some b))].
  pose proof (mi_releaseable _ _ Hinv). pose proof (proj1 (max_worst_le worst (slots s) _) (Z.le_refl _)) as [Hw _].
  unfold can_add, queueable_size in Hcan. rewrite (mi_max _ _ Hinv) in Hcan.
  apply (push_inv tr s (Add src b) src (Some b)); [done|done|done|done| |]; cbn [opt_size]; case_decide as Ha; apply Z.leb_le in Hcan; first [by left|lia].
Qed.

Lemma finish_inv tr s src : merger_inv tr s -> settled s -> protocol (tr ++ [Finish src]) ->
  exists s', finish block_size src s = Ok s' /\ merger_inv (tr ++ [Finish src]) s' /\ settled s'.
Proof.
  intros Hinv Hset Hp. apply merge_all_inv; [done| |by apply (push_active tr s (Finish src) src None)].
  pose proof (mi_memory _ _ Hinv). pose proof (mi_room _ _ Hinv) as Hr. rewrite (settled_head s Hset) in Hr.
  apply (push_inv tr s (Finish src) src None); [done|done|done|done| |]; cbn; [lia|right; lia].
Qed.

Lemma release_inv tr s m : merger_inv tr s -> settled s -> 0 <= m <= releaseable_size_ s ->
  merger_inv (tr ++ [Release m]) (release m s) /\ settled (release m s).
Proof.
  intros [] Hset Hm. split; [|exact Hset]. split; cbn [slots release max_queueable_size_ releaseable_size_]; try done.
  - intros src H. rewrite delivered_release. by apply mi_live0.
  - intros src H1 H2. rewrite delivered_release. by apply mi_done0.
  - destruct mi_ref0 as (k & Hk & Hl). exists k. split; [done|]. rewrite length_app. cbn [length]. unfold release, queued_entries in *. cbn. lia.
  - lia.
  - unfold release, queued_size in *. cbn. lia.
Qed.

Lemma execution_inv tr s : execution block_size worst (merger_init n max srcs) tr s -> protocol tr ->
  merger_inv tr s /\ settled s.
Proof.
  induction 1 as [|tr s e s' Hexec IH Hstep]; intros Hp; [apply merger_init_inv|].
  destruct (IH (protocol_prefix tr e Hp)) as [Hinv Hset]. destruct Hstep as [s src b s' Hcan Hadd|s src s' Hfin|s m Hm].
  - destruct (add_inv tr s src b Hinv Hset Hp Hcan) as (s'' & E & ? & ?). rewrite Hadd in E. by injection E as ->.
  - destruct (finish_inv tr s src Hinv Hset Hp) as (s'' & E & ? & ?). rewrite Hfin in E. by injection E as ->.
  - by apply release_inv.
Qed.

Lemma omap_map_some (l : list B) : omap id (map Some l) = l.
Proof. induction l as [|x l IH]; cbn; [done|by rewrite IH]. Qed.

Lemma map_some_prefix (l m : list B) q : map Some l ++ q `prefix_of` map Some m ++ [None] -> l `prefix_of` m.
Proof.
  revert m. induction l as [|x l IH]; intros [|y m] [r H]; cbn in H; simplify_eq; [apply prefix_nil..|].
  apply prefix_cons, IH. by exists r.
Qed.

Lemma queued_size_nonneg s : 0 <= queued_size block_size s.
Proof.
  unfold queued_size. generalize (block_queues_ s). intros m. induction m as [|k q m Hk IH] using map_ind; [done|].
  rewrite map_sum_insert by done. assert (0 <= queue_size block_size q); [|lia].
  clear -Hsize. induction q as [|x q IH]; cbn; [done|]. pose proof (opt_size_nonneg x).
  unfold queue_size in IH. lia.
Qed.

(** A source that has passed only blocks has another entry to pass. *)
Lemma next_entry tr src l : protocol tr -> src ∈ srcs -> delivered src tr = map Some l ->
  exists blk, (forall e, passed e src blk -> protocol (tr ++ [e])) /\
    match blk with Some b => b ∈ streams src | None => True end.
Proof.
  intros Hp Hs Hd. pose proof (Hp src) as Hpre. rewrite decide_True, Hd in Hpre by done.
  assert (exists blk, map Some l ++ [blk] `prefix_of` full_stream src /\
    match blk with Some b => b ∈ streams src | None => True end) as (blk & Hnext & Hin).
  { revert Hpre. unfold full_stream. generalize (streams src). clear.
    induction l as [|x l IH]; intros [|y m] [r H]; cbn in H; simplify_eq.
    - exists None. split; [by exists []|done].
    - exists (Some y). split; [by exists (map Some m ++ [None])|left].
    - destruct (IH m) as (blk & [r' Hr] & Hin); [by exists r|]. exists blk. split; [|destruct blk; [by right|done]].
      exists r'. cbn. by rewrite Hr. }
  exists blk. split; [|done]. intros e He src'. specialize (Hp src'). rewrite (delivered_snoc e src blk) by done.
  destruct (decide (src = src')) as [<-|]; [by rewrite decide_True, Hd by done|]. by rewrite app_nil_r.
Qed.

(** The sources that ended have passed their whole stream. *)
Lemma done_complete tr s src : merger_inv tr s -> protocol tr -> src ∈ srcs -> src ∉ all_sources (slots s) ->
  delivered src tr = full_stream src /\ merged_of src (slots s) = streams src.
Proof.
  intros Hinv Hp H1 H2. specialize (Hp src). rewrite decide_True in Hp by done.
  rewrite (mi_done _ _ Hinv src H1 H2) in Hp |- *. apply full_stream_end in Hp as [-> Hm]. unfold full_stream. by rewrite Hm.
Qed.

Lemma reference_stuck k m : ref_step (reference k) = reference k -> reference (k + m) = reference k.
Proof.
  intros H. rewrite Nat.add_comm. induction m as [|m IH]; [done|]. unfold reference in *. rewrite Nat.add_succ_l, Nat.iter_succ, IH. done.
Qed.

(** C29: [multi_queue_block_merger_impl] keeps the order of every source and
    loses nothing: at every point of an execution in which the sources pass
    blocks of their streams in order, what has been merged of a source, followed
    by what is in its queue, is what it has passed, and what is merged is a
    prefix of its stream; and the blocks held, queued or merged and not
    released, never exceed the limit given to the constructor. *)
Theorem merger_order_and_bound tr s :
  execution block_size worst (merger_init n max srcs) tr s -> protocol tr ->
  (forall src, src ∈ srcs ->
     omap id (delivered src tr) = merged_of src (slots s) ++ omap id (queue_of s src) /\
     merged_of src (slots s) `prefix_of` streams src) /\
  0 <= queued_size block_size s + releaseable_size_ s <= max.
Proof.
  intros Hexec Hp. destruct (execution_inv tr s Hexec Hp) as [Hinv Hset]. split.
  - intros src Hs. pose proof (Hp src) as Hpre. rewrite decide_True in Hpre by done.
    destruct (decide (src ∈ all_sources (slots s))) as [H|H].
    + rewrite (mi_live _ _ Hinv src H) in Hpre |- *. rewrite omap_app, omap_map_some. split; [done|].
      apply (map_some_prefix _ _ (queue_of s src)), Hpre.
    + rewrite (mi_done _ _ Hinv src Hs H) in Hpre |- *. rewrite omap_app, omap_map_some. split; [done|].
      by apply full_stream_end in Hpre as [_ ->].
  - pose proof (mi_memory _ _ Hinv). pose proof (mi_releaseable _ _ Hinv). pose proof (queued_size_nonneg s). lia.
Qed.

(** C20: the merged order does not depend on the scheduling of the producers:
    once every source has passed its whole stream, every block has been merged,
    and the merged blocks are those of the sequential reference that takes the
    next element of the stream of the active slot, round robin over the slots. *)
Theorem merger_deterministic tr s k :
  execution block_size worst (merger_init n max srcs) tr s -> protocol tr -> complete tr ->
  (length tr <= k)%nat ->
  merged (slots s) = merged (reference k) /\ all_sources (slots s) = [] /\
  forall src, src ∈ srcs -> merged_of src (slots s) = streams src.
Proof.
  intros Hexec Hp Hc Hk. destruct (execution_inv tr s Hexec Hp) as [Hinv Hset].
  assert (active_slot (slots s) = None) as Ha.
  { destruct (active_slot (slots s)) as [src|] eqn:E; [|done]. exfalso. pose proof (active_in_sources _ _ E) as Hs.
    pose proof (Hc src (mi_sources _ _ Hinv src Hs)) as Hd. rewrite (mi_live _ _ Hinv src Hs), (Hset src E), app_nil_r in Hd.
    assert (None ∈ map Some (merged_of src (slots s))) as Hin by (rewrite Hd; apply elem_of_app; right; left).
    by apply list_elem_of_fmap in Hin as (? & [=] & _). }
  pose proof (no_active_no_sources tr s Hinv Ha) as Hnil. split_and!; [|done|].
  - destruct (mi_ref _ _ Hinv) as (j & Hj & Hlen). pose proof (queued_entries_nonneg s).
    replace k with (j + (k - j))%nat by lia. rewrite reference_stuck; [by rewrite Hj|].
    rewrite <- Hj. unfold ref_step. by rewrite Ha.
  - intros src Hs. apply (done_complete tr s src Hinv Hp Hs). rewrite Hnil. apply not_elem_of_nil.
Qed.

(** C28: the merger cannot deadlock: when what has been merged has been released
    and some source has not passed its whole stream, a source can make its next
    call (the block fits, the call returns), whatever the blocks queued by the
    others. *)
Theorem merger_progress tr s :
  execution block_size worst (merger_init n max srcs) tr s -> protocol tr ->
  (forall src b, src ∈ srcs -> b ∈ streams src -> block_size b <= worst src) ->
  releaseable_size_ s = 0 -> ~ complete tr ->
  exists e src blk s', passed e src blk /\ protocol (tr ++ [e]) /\ step block_size worst s e s'.
Proof.
  intros Hexec Hp Hblk Hrel Hnc. destruct (execution_inv tr s Hexec Hp) as [Hinv Hset].
  destruct (active_slot (slots s)) as [src|] eqn:Ha.
  2:{ exfalso. apply Hnc. intros src Hs. apply (done_complete tr s src Hinv Hp Hs).
      rewrite (no_active_no_sources tr s Hinv Ha). apply not_elem_of_nil. }
  pose proof (active_in_sources _ _ Ha) as Hlive. pose proof (mi_sources _ _ Hinv src Hlive) as Hs.
  pose proof (mi_live _ _ Hinv src Hlive) as Hd. rewrite (Hset src Ha), app_nil_r in Hd.
  destruct (next_entry tr src (merged_of src (slots s)) Hp Hs Hd) as (blk & Hnext & Hin).
  destruct blk as [b|].
  - pose proof (Hnext (Add src b) eq_refl) as Hp'.
    assert (can_add block_size worst src b s = true) as Hcan.
    { unfold can_add, queueable_size. rewrite decide_True, Hrel, (mi_max _ _ Hinv) by done. apply Z.leb_le.
      pose proof (mi_room _ _ Hinv) as Hr. rewrite (settled_head s Hset) in Hr.
      pose proof (proj1 (max_worst_le worst (slots s) _) (Z.le_refl _)) as [_ Hw]. specialize (Hw src Hlive).
      specialize (Hblk src b Hs Hin). lia. }
    destruct (add_inv tr s src b Hinv Hset Hp' Hcan) as (s' & E & _ & _).
    exists (Add src b), src, (Some b), s'. split_and!; [done|done|by constructor].
  - pose proof (Hnext (Finish src) eq_refl) as Hp'. destruct (finish_inv tr s src Hinv Hset Hp') as (s' & E & _ & _).
    exists (Finish src), src, None, s'. split_and!; [done|done|by constructor].
Qed.
End executions.

(** ** Running executions *)

Section running.
Context {B : Type} (block_size : B -> Z) (worst : Z -> Z).

Definition run_event (s : merger) (e : event) : option (@merger B) :=
  match e with
  | Add src b =>
      if can_add block_size worst src b s
      then match add block_size src b s with Ok s' => Some s' | Err _ => None end else None
  | Finish src => match finish block_size src s with Ok s' => Some s' | Err _ => None end
  | Release m => if (0 <=? m) && (m <=? releaseable_size_ s) then Some (release m s) else None
  end.

Definition run (s0 : merger) (tr : list event) : option merger :=
  foldl (fun o e => o ≫= fun s => run_event s e) (Some s0) tr.

Lemma run_event_step s e s' : run_event s e = Some s' -> step block_size worst s e s'.
Proof.
  destruct e as [src b|src|m]; cbn [run_event]; intros H.
  - destruct (can_add block_size worst src b s) eqn:E; [|done]. destruct (add block_size src b s) eqn:E2; [|done].
    simplify_eq. by constructor.
  - destruct (finish block_size src s) eqn:E; [|done]. simplify_eq. by constructor.
  - destruct (0 <=? m) eqn:E1; [|done]. destruct (m <=? releaseable_size_ s) eqn:E2; [|done]. cbn in H. simplify_eq.
    constructor. lia.
Qed.

Lemma run_execution s0 tr s : run s0 tr = Some s -> execution block_size worst s0 tr s.
Proof.
  revert s. induction tr as [|e tr IH] using rev_ind; intros s; unfold run; [intros [= <-]; constructor|].
  rewrite foldl_app. cbn. fold (run s0 tr). destruct (run s0 tr) as [s1|]; [|done]. cbn. intros H%run_event_step.
  econstructor; [by apply IH|done].
Qed.
End running.

(** ** Witnesses: two producers, one slot each, blocks given by their sizes *)

Module Example.
Definition streams (src : Z) : list nat := (if (src =? 1)%Z then [10; 20] else if (src =? 2)%Z then [30] else [5])%nat.
Definition calls : list (event (B := nat)) :=
  [Add 2 30%nat; Add 1 10%nat; Finish 2; Release 40; Add 1 20%nat; Add 3 5%nat; Finish 1; Finish 3].
Definition state (tr : list (event (B := nat))) : merger :=
  default (merger_init 2 100 [1; 2; 3]) (run Z.of_nat (fun _ => 40) (merger_init 2 100 [1; 2; 3]) tr).

Lemma sources_bound src : src ∈ [1; 2; 3] -> src = 1 \/ src = 2 \/ src = 3.
Proof. rewrite !elem_of_cons, elem_of_nil. tauto. Qed.

Lemma calls_protocol : protocol streams [1; 2; 3] calls.
Proof.
  intros src. case_decide as H.
  - apply sources_bound in H as [-> | [-> | ->]]; vm_compute; by exists [].
  - unfold calls. unfold delivered. cbn. repeat case_decide; subst; try done; exfalso; apply H; set_solver.
Qed.

Lemma prefix_protocol tr tr' : protocol streams [1; 2; 3] (tr ++ tr') -> protocol streams [1; 2; 3] tr.
Proof.
  revert tr. induction tr' as [|e tr' IH]; intros tr; [by rewrite app_nil_r|].
  replace (tr ++ e :: tr') with ((tr ++ [e]) ++ tr') by by rewrite <- app_assoc.
  intros H%IH. by apply (protocol_prefix _ _ tr e).
Qed.

Lemma state_execution tr : run Z.of_nat (fun _ => 40) (merger_init 2 100 [1; 2; 3]) tr <> None ->
  execution Z.of_nat (fun _ => 40) (merger_init 2 100 [1; 2; 3]) tr (state tr).
Proof. unfold state. intros H. apply run_execution. by destruct (run _ _ _ _). Qed.

Lemma distinct : NoDup [1; 2; 3].
Proof. by apply (bool_decide_unpack _). Qed.
End Example.

Lemma merger_order_and_bound_witness :
  merged (slots (Example.state (take 3 Example.calls))) = [(1, 10%nat); (2, 30%nat)] /\
  ((forall src, src ∈ [1; 2; 3] ->
     omap id (delivered src (take 3 Example.calls)) =
       merged_of src (slots (Example.state (take 3 Example.calls))) ++
       omap id (queue_of (Example.state (take 3 Example.calls)) src) /\
     merged_of src (slots (Example.state (take 3 Example.calls))) `prefix_of` Example.streams src) /\
   0 <= queued_size Z.of_nat (Example.state (take 3 Example.calls)) +
        releaseable_size_ (Example.state (take 3 Example.calls)) <= 100).
Proof.
  split; [vm_compute; done|].
  apply (merger_order_and_bound Z.of_nat (fun _ => 40) Example.streams [1; 2; 3] 2 100);
    [lia|lia|apply Example.distinct|lia|lia| |].
  - apply Example.state_execution. by vm_compute.
  - apply (Example.prefix_protocol _ (drop 3 Example.calls)). rewrite take_drop. apply Example.calls_protocol.
Defined.

Lemma merger_deterministic_witness :
  merged (slots (Example.state Example.calls)) =
    merged (reference Example.streams [1; 2; 3] 2 100 8) /\
  all_sources (slots (Example.state Example.calls)) = [] /\
  forall src, src ∈ [1; 2; 3] -> merged_of src (slots (Example.state Example.calls)) = Example.streams src.
Proof.
  apply (merger_deterministic Z.of_nat (fun _ => 40) Example.streams [1; 2; 3] 2 100)
    with (tr := Example.calls); [lia|lia|apply Example.distinct|lia|lia| | | |by vm_compute].
  - apply Example.state_execution. by vm_compute.
  - apply Example.calls_protocol.
  - intros src [-> | [-> | ->]]%Example.sources_bound; by vm_compute.
Defined.

Lemma merger_progress_witness :
  exists e src blk s', passed e src blk /\ protocol Example.streams [1; 2; 3] (take 4 Example.calls ++ [e]) /\
    step Z.of_nat (fun _ => 40) (Example.state (take 4 Example.calls)) e s'.
Proof.
  apply (merger_progress Z.of_nat (fun _ => 40) Example.streams [1; 2; 3] 2 100);
    [lia|lia|apply Example.distinct|lia|lia| | | |by vm_compute|].
  - apply Example.state_execution. by vm_compute.
  - apply (Example.prefix_protocol _ (drop 4 Example.calls)). rewrite take_drop. apply Example.calls_protocol.
  - intros src b [-> | [-> | ->]]%Example.sources_bound; cbn; rewrite ?elem_of_cons, ?elem_of_nil; lia.
  - intros H. specialize (H 1 ltac:(left)). by vm_compute in H.
Defined.
