(* ===== verification/FsSection.v ===== *)
(** * FsSection: the sections of a file system image

    The headers of [include/dwarfs/fstypes.h] as bytes, the reading of a section
    header with its checks and the three kinds of section of
    [src/internal/fs_section.cpp], and the checks of
    [src/internal/fs_section_checker.cpp].  A file view is the list of its
    bytes; the two checksum algorithms are parameters. *)

From S2P Require Import Prelude Bits.
Local Open Scope Z_scope.

(** ** [fstypes.h] *)

Definition MAJOR_VERSION : Z := 2.
Definition MINOR_VERSION : Z := 5.
Definition MINOR_VERSION_ACCEPTED : Z := 6.

(** [section_type]; a section can have any type of 16 bits. *)
Definition BLOCK : Z := 0.
Definition METADATA_V2_SCHEMA : Z := 7.
Definition METADATA_V2 : Z := 8.
Definition SECTION_INDEX : Z := 9.
Definition HISTORY : Z := 10.

(** [compression_type] *)
Definition compression_types : list Z := [0; 1; 2; 3; 4; 5; 6; 7].
Definition compression_NONE : Z := 0.

Definition is_known_section_type (type : Z) : bool :=
  bool_decide (type ∈ [BLOCK; METADATA_V2_SCHEMA; METADATA_V2; SECTION_INDEX; HISTORY]).
Definition is_known_compression_type (type : Z) : bool := bool_decide (type ∈ compression_types).

(** "DWARFS" *)
Definition magic_chars : list Z := [0x44; 0x57; 0x41; 0x52; 0x46; 0x53].

Record file_header : Type := FileHeader { fh_magic : list Z; fh_major : Z; fh_minor : Z }.
Definition sizeof_file_header : Z := 8.
Definition file_header_of (b : list Z) : file_header :=
  FileHeader (slice b 0 6) (le_value (slice b 6 1)) (le_value (slice b 7 1)).

Record section_header : Type := SectionHeader { sh_type : Z; sh_compression : Z; sh_unused : Z; sh_length : Z }.
Definition sizeof_section_header : Z := 8.
Definition section_header_of (b : list Z) : section_header :=
  SectionHeader (le_value (slice b 0 2)) (le_value (slice b 2 1)) (le_value (slice b 3 1)) (le_value (slice b 4 4)).

Record section_header_v2 : Type := SectionHeaderV2 {
  magic : list Z;
  major : Z;
  minor : Z;
  sha2_512_256 : list Z;
  xxh3_64 : list Z;
  number : Z;
  type : Z;
  compression : Z;
  length_ : Z
}.
Definition sizeof_section_header_v2 : Z := 64.
Definition offsetof_xxh3_64 : Z := 40.
Definition offsetof_number : Z := 48.

Definition section_header_v2_of (b : list Z) : section_header_v2 :=
  SectionHeaderV2 (slice b 0 6) (le_value (slice b 6 1)) (le_value (slice b 7 1)) (slice b 8 32) (slice b 40 8)
    (le_value (slice b 48 4)) (le_value (slice b 52 2)) (le_value (slice b 54 2)) (le_value (slice b 56 8)).

(** The header in memory, and in a file: the part the first checksum covers,
    the part the second one covers, the whole. *)
Definition header_numbers (h : section_header_v2) : list Z :=
  le_bytes 4 (number h) ++ le_bytes 2 (type h) ++ le_bytes 2 (compression h) ++ le_bytes 8 (length_ h).
Definition header_tail (h : section_header_v2) : list Z := xxh3_64 h ++ header_numbers h.
Definition section_header_v2_bytes (h : section_header_v2) : list Z :=
  magic h ++ le_bytes 1 (major h) ++ le_bytes 1 (minor h) ++ sha2_512_256 h ++ header_tail h.

(** ** The file view *)

Inductive image_error : Type :=
  | invalid_argument
  | result_out_of_range
  | invalid_image_end
  | image_end_too_small
  | truncated_section_header
  | offset_length_overflow
  | truncated_section_data
  | unknown_section_type (n : Z)
  | unknown_compression_type (n : Z)
  | unsupported_section_version (n : Z)
  | filesystem_image_too_small
  | magic_not_found
  | unsupported_major_version
  | unsupported_minor_version
  | no_filesystem_found.

(** [copy_to], for a type of [n > 0] bytes. *)
Definition copy_to (mm : list Z) (offset n : Z) : result image_error (list Z) :=
  if offset <? 0 then Err invalid_argument
  else if zlen mm <? offset + n then Err result_out_of_range
  else Ok (slice mm offset n).

(** [segment_at]: no bytes where there is no segment. *)
Definition segment_at (mm : list Z) (offset n : Z) : list Z :=
  if (offset <? 0) || (n =? 0) || (zlen mm <? offset + n) then [] else slice mm offset n.

(** ** [read_section_header_common] *)

Definition read_section_header_common {T} (sizeof : Z) (decode : list Z -> T) (length_of : T -> Z)
    (mm : list Z) (offset image_end : Z) : result image_error (T * Z) :=
  if zlen mm <? image_end then Err invalid_image_end
  else if image_end <? sizeof then Err image_end_too_small
  else if image_end - sizeof <? offset then Err truncated_section_header
  else
    let? b := copy_to mm offset sizeof in
    let header := decode b in
    let offset := offset + sizeof in
    let section_end := wraps 64 (offset + length_of header) in
    if section_end <? offset then Err offset_length_overflow
    else if image_end <? section_end then Err truncated_section_data
    else Ok (header, offset).

(** ** The sections *)

Inductive check_state : Type := unknown | passed | failed.
#[global] Instance check_state_eq_dec : EqDecision check_state.
Proof. solve_decision. Defined.

Record fs_section_v1 : Type := SectionV1 { v1_start : Z; v1_hdr : section_header }.
Record fs_section_v2 : Type := SectionV2 { v2_start : Z; v2_hdr : section_header_v2; v2_state : check_state }.
Record fs_section_v2_lazy : Type := SectionV2Lazy {
  lazy_type : Z;
  lazy_offset : Z;
  lazy_size : Z;
  lazy_image_end : Z;
  lazy_sec : option fs_section_v2
}.

Inductive fs_section : Type :=
  | impl_v1 (s : fs_section_v1)
  | impl_v2 (s : fs_section_v2)
  | impl_v2_lazy (s : fs_section_v2_lazy).

(** [check_section] *)
Definition check_section (type compression : Z) : result image_error unit :=
  if negb (is_known_section_type type) then Err (unknown_section_type type)
  else if negb (is_known_compression_type compression) then Err (unknown_compression_type compression)
  else Ok tt.

Definition fs_section_v1_create (mm : list Z) (offset image_end : Z) : result image_error fs_section_v1 :=
  let? ' (hdr, start) := read_section_header_common sizeof_section_header section_header_of sh_length mm offset image_end in
  let? _ := check_section (sh_type hdr) (sh_compression hdr) in
  Ok (SectionV1 start hdr).

Definition fs_section_v2_create (mm : list Z) (offset image_end : Z) : result image_error fs_section_v2 :=
  let? ' (hdr, start) :=
    read_section_header_common sizeof_section_header_v2 section_header_v2_of length_ mm offset image_end in
  Ok (SectionV2 start hdr unknown).

(** The two constructors of [fs_section]. *)
Definition fs_section_create (mm : list Z) (offset image_end version : Z) : result image_error fs_section :=
  if version =? 1 then let? s := fs_section_v1_create mm offset image_end in Ok (impl_v1 s)
  else if version =? 2 then let? s := fs_section_v2_create mm offset image_end in Ok (impl_v2 s)
  else Err (unsupported_section_version version).

Definition fs_section_create_lazy (type offset size image_end version : Z) : result image_error fs_section :=
  if version =? 2 then Ok (impl_v2_lazy (SectionV2Lazy type offset size image_end None))
  else Err (unsupported_section_version version).

Section checks.
Context (xxh3_64_digest sha2_512_256_digest : list Z -> list Z).

(** [segment] and [data]. *)
Definition v2_segment (mm : list Z) (s : fs_section_v2) : list Z :=
  segment_at mm (v2_start s - sizeof_section_header_v2) (length_ (v2_hdr s) + sizeof_section_header_v2).
Definition v2_data (seg : list Z) : list Z := drop (Z.to_nat sizeof_section_header_v2) seg.

(** [fs_section_checker::check] and [verify]. *)
Definition checker_check (s : fs_section_v2) (seg : list Z) : bool :=
  bool_decide (xxh3_64_digest (drop (Z.to_nat offsetof_number) seg) = xxh3_64 (v2_hdr s)).
Definition checker_verify (s : fs_section_v2) (seg : list Z) : bool :=
  bool_decide (sha2_512_256_digest (drop (Z.to_nat offsetof_xxh3_64) seg) = sha2_512_256 (v2_hdr s)).

(** [fs_section_v2::check_fast]: the state is set once. *)
Definition v2_check_fast (seg : list Z) (s : fs_section_v2) : bool * fs_section_v2 :=
  match v2_state s with
  | passed => (true, s)
  | failed => (false, s)
  | unknown =>
      let ok := checker_check s seg in
      (ok, SectionV2 (v2_start s) (v2_hdr s) (if ok then passed else failed))
  end.

(** [fs_section_v2_lazy::section]: the section read, when it is first needed. *)
Definition lazy_section (mm : list Z) : action image_error fs_section_v2_lazy fs_section_v2 :=
  fun s =>
    match lazy_sec s with
    | Some sec => (Ok sec, s)
    | None =>
        match fs_section_v2_create mm (lazy_offset s) (lazy_image_end s) with
        | Ok sec => (Ok sec, SectionV2Lazy (lazy_type s) (lazy_offset s) (lazy_size s) (lazy_image_end s) (Some sec))
        | Err e => (Err e, s)
        end
    end.

(** What is known of a section without reading its header: [start], [length],
    [type], [end]. *)
Definition section_start (s : fs_section) : Z :=
  match s with
  | impl_v1 s => v1_start s
  | impl_v2 s => v2_start s
  | impl_v2_lazy s => lazy_offset s + sizeof_section_header_v2
  end.
Definition section_length (s : fs_section) : Z :=
  match s with
  | impl_v1 s => sh_length (v1_hdr s)
  | impl_v2 s => length_ (v2_hdr s)
  | impl_v2_lazy s => lazy_size s - sizeof_section_header_v2
  end.
Definition section_type (s : fs_section) : Z :=
  match s with
  | impl_v1 s => sh_type (v1_hdr s)
  | impl_v2 s => type (v2_hdr s)
  | impl_v2_lazy s => lazy_type s
  end.
Definition section_end (s : fs_section) : Z := section_start s + section_length s.

(** What needs the header: the compression, the number, the data and the two
    checks; the sections are returned with what they have remembered. *)
Record section_info : Type := SectionInfo {
  info_compression : Z;
  info_number : option Z;
  info_data : list Z;
  info_check_fast : bool;
  info_verify : bool
}.

Definition v2_info (mm : list Z) (s : fs_section_v2) : section_info * fs_section_v2 :=
  let seg := v2_segment mm s in
  let '(ok, s) := v2_check_fast seg s in
  (SectionInfo (compression (v2_hdr s)) (Some (number (v2_hdr s))) (v2_data seg) ok (checker_verify s seg), s).

Definition v1_info (mm : list Z) (s : fs_section_v1) : section_info :=
  let seg := segment_at mm (v1_start s - sizeof_section_header) (sh_length (v1_hdr s) + sizeof_section_header) in
  SectionInfo (sh_compression (v1_hdr s)) None (drop (Z.to_nat sizeof_section_header) seg) true true.

Definition read_section (mm : list Z) : action image_error fs_section section_info :=
  fun s =>
    match s with
    | impl_v1 s => (Ok (v1_info mm s), impl_v1 s)
    | impl_v2 s => let '(i, s) := v2_info mm s in (Ok i, impl_v2 s)
    | impl_v2_lazy s =>
        match lazy_section mm s with
        | (Ok sec, s) =>
            let '(i, sec) := v2_info mm sec in
            (Ok i, impl_v2_lazy (SectionV2Lazy (lazy_type s) (lazy_offset s) (lazy_size s) (lazy_image_end s) (Some sec)))
        | (Err e, s) => (Err e, impl_v2_lazy s)
        end
    end.
End checks.

(** ** Headers and their bytes *)

Record header_ok (h : section_header_v2) : Prop := {
  ok_magic : zlen (magic h) = 6;
  ok_major : in_u 8 (major h);
  ok_minor : in_u 8 (minor h);
  ok_sha : zlen (sha2_512_256 h) = 32;
  ok_xxh : zlen (xxh3_64 h) = 8;
  ok_number : in_u 32 (number h);
  ok_type : in_u 16 (type h);
  ok_compression : in_u 16 (compression h);
  ok_length : in_u 64 (length_ h)
}.

Lemma zlen_le_bytes n z k : Z.of_nat n = k -> zlen (le_bytes n z) = k.
Proof. unfold zlen. by rewrite length_le_bytes. Qed.

Lemma le_value_field n z : in_u (8 * Z.of_nat n) z -> le_value (le_bytes n z) = z.
Proof. intros H. rewrite le_value_le_bytes. by apply Z.mod_small. Qed.

(** Solves the length of a field. *)
Ltac field_len := first [eassumption | apply zlen_le_bytes; reflexivity].
(** Takes a field out of the fields of a record. *)
Ltac take_field :=
  repeat (erewrite slice_skip; [|field_len|lia]);
  first [rewrite slice_head; [|lia|field_len] | rewrite slice_whole; [|lia|erewrite zlen_le_bytes by reflexivity; lia]].

Lemma section_header_v2_of_bytes h rest : header_ok h ->
  section_header_v2_of (section_header_v2_bytes h ++ rest) = h.
Proof.
  intros []. destruct h as [mg ma mi sha xxh nu ty co le].
  unfold section_header_v2_bytes, header_tail, header_numbers, section_header_v2_of in *. cbn in *.
  change (wrapu) with wrapu in *. rewrite <- !app_assoc.
  f_equal; take_field; try done; apply le_value_field; done.
Qed.

Lemma zlen_header_bytes h : header_ok h -> zlen (section_header_v2_bytes h) = sizeof_section_header_v2.
Proof.
  intros []. unfold section_header_v2_bytes, header_tail, header_numbers. rewrite !zlen_app, !(zlen_le_bytes _ _ _ eq_refl).
  unfold sizeof_section_header_v2. lia.
Qed.

(** ** Which headers are accepted *)

(** The bounds of a section without the wrap-around of the machine integers. *)
Definition read_section_reference {T} (sizeof : Z) (decode : list Z -> T) (length_of : T -> Z)
    (mm : list Z) (offset image_end : Z) : result image_error (T * Z) :=
  if zlen mm <? image_end then Err invalid_image_end
  else if image_end <? sizeof then Err image_end_too_small
  else if image_end <? offset + sizeof then Err truncated_section_header
  else if offset <? 0 then Err invalid_argument
  else
    let h := decode (slice mm offset sizeof) in
    let end_ := offset + sizeof + length_of h in
    if 2 ^ 63 <=? end_ then Err offset_length_overflow
    else if image_end <? end_ then Err truncated_section_data
    else Ok (h, offset + sizeof).

Lemma wraps_overflow o n : 0 <= o < 2 ^ 63 -> 0 <= n < 2 ^ 64 ->
  (if 2 ^ 63 <=? o + n then wraps 64 (o + n) < o else wraps 64 (o + n) = o + n).
Proof.
  intros Ho Hn. destruct (Z.leb_spec (2 ^ 63) (o + n)) as [H|H].
  - unfold wraps, wrapu. change (2 ^ (64 - 1)) with (2 ^ 63).
    destruct (Z.lt_ge_cases (o + n) (2 ^ 64)) as [H1|H1].
    + rewrite Z.mod_small by lia. destruct (Z.ltb_spec (o + n) (2 ^ 63)); lia.
    + replace (o + n) with (o + n - 2 ^ 64 + 1 * 2 ^ 64) by lia.
      rewrite Z_mod_plus_full, Z.mod_small by lia. destruct (Z.ltb_spec (o + n - 2 ^ 64) (2 ^ 63)); lia.
  - apply wraps_small; [lia|]. unfold in_s. change (2 ^ (64 - 1)) with (2 ^ 63). lia.
Qed.

Lemma read_section_common_reference {T} sizeof (decode : list Z -> T) length_of mm offset image_end :
  Forall is_byte mm -> zlen mm < 2 ^ 63 - 1 -> 0 < sizeof ->
  (forall b, Forall is_byte b -> 0 <= length_of (decode b) < 2 ^ 64) ->
  read_section_header_common sizeof decode length_of mm offset image_end =
    read_section_reference sizeof decode length_of mm offset image_end.
Proof.
  intros Hb Hmm Hsz Hlen. unfold read_section_header_common, read_section_reference, copy_to.
  destruct (Z.ltb_spec (zlen mm) image_end); [done|].
  destruct (Z.ltb_spec image_end sizeof); [done|].
  replace (image_end - sizeof <? offset) with (image_end <? offset + sizeof) by
    (destruct (Z.ltb_spec image_end (offset + sizeof)), (Z.ltb_spec (image_end - sizeof) offset); lia).
  destruct (Z.ltb_spec image_end (offset + sizeof)); [done|].
  destruct (Z.ltb_spec offset 0); [done|].
  replace (zlen mm <? offset + sizeof) with false by lia. cbn [rbind].
  assert (Forall is_byte (slice mm offset sizeof)) as Hs by (by apply Forall_take, Forall_drop).
  pose proof (Hlen _ Hs) as Hl. set (h := decode _) in *.
  pose proof (wraps_overflow (offset + sizeof) (length_of h) ltac:(lia) Hl) as Hw.
  destruct (Z.leb_spec (2 ^ 63) (offset + sizeof + length_of h)) as [Ho|Ho].
  - by replace (_ <? _) with true by lia.
  - rewrite Hw. by replace (_ <? _) with false by lia.
Qed.

Lemma le_value_field_range b o n : Forall is_byte b -> 0 <= n -> 0 <= le_value (slice b o n) < 2 ^ (8 * n).
Proof.
  intros Hb Hn. assert (Forall is_byte (slice b o n)) as H by (unfold slice; by apply Forall_take, Forall_drop).
  pose proof (le_value_range _ H) as [H1 H2]. split; [done|]. eapply Z.lt_le_trans; [exact H2|].
  apply Z.pow_le_mono_r; [lia|]. unfold slice. rewrite length_take. lia.
Qed.

(** The size of a header of a version. *)
Definition sizeof_header (version : Z) : Z := if version =? 1 then sizeof_section_header else sizeof_section_header_v2.

Lemma reference_ok {T} sizeof (decode : list Z -> T) length_of mm offset image_end h start :
  read_section_reference sizeof decode length_of mm offset image_end = Ok (h, start) <->
  image_end <= zlen mm /\ sizeof <= image_end /\ 0 <= offset /\ h = decode (slice mm offset sizeof) /\
    start = offset + sizeof /\ start <= image_end /\ start + length_of h < 2 ^ 63 /\ start + length_of h <= image_end.
Proof.
  unfold read_section_reference.
  destruct (Z.ltb_spec (zlen mm) image_end); [split; [done|intros; lia]|].
  destruct (Z.ltb_spec image_end sizeof); [split; [done|intros; lia]|].
  destruct (Z.ltb_spec image_end (offset + sizeof)); [split; [done|intros; lia]|].
  destruct (Z.ltb_spec offset 0); [split; [done|intros; lia]|].
  set (h' := decode _).
  destruct (Z.leb_spec (2 ^ 63) (offset + sizeof + length_of h')).
  { split; [done|]. intros (? & ? & ? & -> & -> & ? & ? & ?). subst h'. lia. }
  destruct (Z.ltb_spec image_end (offset + sizeof + length_of h')).
  { split; [done|]. intros (? & ? & ? & -> & -> & ? & ? & ?). subst h'. lia. }
  split.
  - intros [= <- <-]. split_and!; done || lia.
  - by intros (_ & _ & _ & -> & -> & _).
Qed.

Section creation.
Context (mm : list Z) (Hmm : Forall is_byte mm) (Hlen : zlen mm < 2 ^ 63 - 1).

Lemma v1_length_range b : Forall is_byte b -> 0 <= sh_length (section_header_of b) < 2 ^ 64.
Proof. intros Hb. pose proof (le_value_field_range b 4 4 Hb ltac:(lia)). cbn. lia. Qed.

Lemma v2_length_range b : Forall is_byte b -> 0 <= length_ (section_header_v2_of b) < 2 ^ 64.
Proof. intros Hb. by pose proof (le_value_field_range b 56 8 Hb ltac:(lia)). Qed.

Lemma v2_create_ok offset image_end s :
  fs_section_v2_create mm offset image_end = Ok s <->
  image_end <= zlen mm /\ 0 <= offset /\
    s = SectionV2 (offset + sizeof_section_header_v2)
          (section_header_v2_of (slice mm offset sizeof_section_header_v2)) unknown /\
    offset + sizeof_section_header_v2 + length_ (v2_hdr s) <= image_end.
Proof.
  unfold fs_section_v2_create. rewrite (read_section_common_reference _ _ _ _ _ _ Hmm Hlen); [|done|apply v2_length_range].
  destruct (read_section_reference _ _ _ mm offset image_end) as [[h start]|e] eqn:E; cbn [rbind].
  - apply reference_ok in E as (H1 & H2 & H3 & -> & -> & H4 & H5 & H6). split.
    + intros [= <-]. split_and!; done || lia.
    + by intros (_ & _ & -> & _).
  - split; [done|]. intros (H1 & H2 & -> & H3). cbn [v2_hdr] in H3. exfalso.
    assert (Forall is_byte (slice mm offset sizeof_section_header_v2)) as Hs by (by apply Forall_take, Forall_drop).
    pose proof (v2_length_range _ Hs) as Hr.
    assert (Err e = Ok (section_header_v2_of (slice mm offset sizeof_section_header_v2), offset + sizeof_section_header_v2)) as X; [|done].
    rewrite <- E. apply reference_ok. unfold sizeof_section_header_v2 in *. split_and!; done || lia.
Qed.

(** A section lies inside the image, behind its header. *)
Lemma section_create_bounds offset image_end version s :
  fs_section_create mm offset image_end version = Ok s ->
  0 <= offset /\ section_start s = offset + sizeof_header version /\ 0 <= section_length s /\
    section_end s <= image_end /\ image_end <= zlen mm.
Proof.
  unfold fs_section_create, section_end, sizeof_header. destruct (Z.eqb_spec version 1) as [->|Hv].
  - unfold fs_section_v1_create. rewrite (read_section_common_reference _ _ _ _ _ _ Hmm Hlen); [|done|apply v1_length_range].
    destruct (read_section_reference _ _ _ mm offset image_end) as [[h start]|e] eqn:E; cbn [rbind]; [|done].
    apply reference_ok in E as (H1 & H2 & H3 & -> & -> & H4 & H5 & H6).
    destruct (check_section _ _); cbn [rbind]; [|done]. intros [= <-].
    cbn [section_start section_length v1_start v1_hdr]. pose proof (v1_length_range (slice mm offset sizeof_section_header)) as Hr.
    assert (Forall is_byte (slice mm offset sizeof_section_header)) as Hs by (by apply Forall_take, Forall_drop).
    specialize (Hr Hs). split_and!; lia.
  - destruct (Z.eqb_spec version 2) as [->|]; [|done].
    destruct (fs_section_v2_create mm offset image_end) as [s'|e] eqn:E; cbn [rbind]; [|done].
    intros [= <-]. cbn [section_start section_length].
    apply v2_create_ok in E as (H1 & H2 & -> & H3). cbn [v2_start v2_hdr] in *.
    assert (Forall is_byte (slice mm offset sizeof_section_header_v2)) as Hs by (by apply Forall_take, Forall_drop).
    pose proof (v2_length_range _ Hs) as Hr. split_and!; lia.
Qed.
End creation.
