(* ===== verification/FilesystemParser.v ===== *)
(** * FilesystemParser: finding and reading the sections of an image

    [filesystem_parser_] of [src/reader/internal/filesystem_parser.cpp]: the
    search for the start of the image, the checks of the file header, the
    section index, and the iteration over the sections.  Trace messages are
    left out. *)

From S2P Require Import Prelude Bits FileRange FsSection.
Local Open Scope Z_scope.

Definition kMagic : list Z := magic_chars ++ [MAJOR_VERSION].
Definition section_offset_mask : Z := 2 ^ 48 - 1.
Definition IMAGE_OFFSET_AUTO : Z := -1.

(** ** The search for an image *)

(** [std::memchr] from [from] to the end. *)
Fixpoint memchr_loop (l : list Z) (i c : Z) : option Z :=
  match l with
  | [] => None
  | x :: l => if x =? c then Some i else memchr_loop l (i + 1) c
  end.
Definition memchr (h : list Z) (from c : Z) : option Z := memchr_loop (drop (Z.to_nat from) h) from c.

(** [search_dwarfs_header]: the loop goes from one byte like the major version
    to the next and looks for the magic in front of it. *)
Fixpoint search_magic (fuel : nat) (haystack : list Z) (p : Z) : Z :=
  match fuel with
  | O => zlen haystack
  | S fuel =>
      if p <=? zlen haystack - 1 then
        match memchr haystack p MAJOR_VERSION with
        | None => zlen haystack
        | Some i =>
            if bool_decide (slice haystack (i - 6) 6 = magic_chars) then i - 6
            else search_magic fuel haystack (i + 1)
        end
      else zlen haystack
  end.

Definition search_dwarfs_header (haystack : list Z) : Z :=
  if zlen haystack <? zlen kMagic then zlen haystack
  else search_magic (length haystack) haystack 6.

(** What [search_image_in_segment] does with the magic at [pos]: the image
    starts here, stop searching the segment, or go on. *)
Inductive search_outcome : Type := image_found | search_done | search_on.

(** The compression types of v1. *)
Definition is_valid_compression (c : Z) : bool := bool_decide (c ∈ [0; 1; 2; 3; 4]).

Definition check_v1_image (mm : list Z) (seg_offset : Z) (seg : list Z) (pos : Z) : result image_error search_outcome :=
  if zlen seg <=? pos + sizeof_file_header + sizeof_section_header then Ok search_done
  else
    let sh := section_header_of (slice seg (pos + sizeof_file_header) sizeof_section_header) in
    let shtype := sh_type sh in
    if ((shtype =? BLOCK) || (shtype =? METADATA_V2_SCHEMA)) && is_valid_compression (sh_compression sh) && (0 <? sh_length sh)
    then
      let nextshpos := wrapu 64 (seg_offset + pos + sizeof_file_header + sizeof_section_header + sh_length sh) in
      if nextshpos <? sh_length sh then Ok search_done
      else if zlen mm <=? wrapu 64 (nextshpos + sizeof_section_header) then Ok search_done
      else
        let? b := copy_to mm (wraps 64 nextshpos) sizeof_section_header in
        let nsh := section_header_of b in
        let nshtype := sh_type nsh in
        if (if shtype =? BLOCK then (nshtype =? BLOCK) || (nshtype =? METADATA_V2_SCHEMA) else nshtype =? METADATA_V2) &&
           is_valid_compression (sh_compression nsh) && (0 <? sh_length nsh)
        then Ok image_found
        else Ok search_on
    else Ok search_on.

Definition check_v2_image (mm : list Z) (seg_offset : Z) (seg : list Z) (pos : Z) : result image_error search_outcome :=
  if zlen seg <=? pos + sizeof_section_header_v2 then Ok search_done
  else
    let sh := section_header_v2_of (slice seg pos sizeof_section_header_v2) in
    if number sh =? 0 then
      let endpos := wrapu 64 (pos + length_ sh + 2 * sizeof_section_header_v2) in
      if endpos <? length_ sh then Ok search_done
      else if zlen mm <=? endpos then Ok search_done
      else
        let? b := copy_to mm (wraps 64 (seg_offset + pos + length_ sh + sizeof_section_header_v2)) sizeof_section_header_v2 in
        let nsh := section_header_v2_of b in
        if bool_decide (magic nsh = magic_chars) && (major nsh =? MAJOR_VERSION) && (number nsh =? 1)
        then Ok image_found
        else Ok search_on
    else Ok search_on.

(** [search_image_in_segment]: every turn moves [start] forward. *)
Fixpoint search_segment (fuel : nat) (mm : list Z) (seg_offset : Z) (seg : list Z) (start : Z) : result image_error Z :=
  match fuel with
  | O => Ok (-1)
  | S fuel =>
      if negb (start + zlen kMagic <? zlen seg) then Ok (-1)
      else
        let ss := drop (Z.to_nat start) seg in
        let dp := search_dwarfs_header ss in
        if zlen ss <=? dp then Ok (-1)
        else
          let pos := start + dp in
          if zlen seg <=? pos + sizeof_file_header then Ok (-1)
          else
            let fh := file_header_of (slice seg pos sizeof_file_header) in
            let? o := (if fh_minor fh <? 2 then check_v1_image else check_v2_image) mm seg_offset seg pos in
            match o with
            | image_found => Ok pos
            | search_done => Ok (-1)
            | search_on => search_segment fuel mm seg_offset seg (pos + zlen kMagic)
            end
  end.

Definition search_image_in_segment (mm : list Z) (seg : file_range) : result image_error Z :=
  search_segment (length mm) mm (offset_ seg) (slice mm (offset_ seg) (size_ seg)) 0.

(** [extent_kind] *)
Inductive extent_kind : Type := data_extent | hole_extent.

Fixpoint search_segments (mm : list Z) (segs : list file_range) : result image_error (option Z) :=
  match segs with
  | [] => Ok None
  | seg :: segs =>
      let? pos := search_image_in_segment mm seg in
      if 0 <=? pos then Ok (Some (offset_ seg + pos)) else search_segments mm segs
  end.

Fixpoint search_extents (mm : list Z) (default_segment_size : Z) (extents : list (extent_info extent_kind)) :
    result image_error Z :=
  match extents with
  | [] => Err no_filesystem_found
  | ext :: extents =>
      match ext_kind ext with
      | hole_extent => search_extents mm default_segment_size extents
      | data_extent =>
          let? r := search_segments mm (segments (ext_range ext) default_segment_size sizeof_section_header_v2) in
          match r with
          | Some pos => Ok pos
          | None => search_extents mm default_segment_size extents
          end
      end
  end.

Definition find_image_offset (mm : list Z) (default_segment_size : Z) (extents : list (extent_info extent_kind))
    (image_offset : Z) : result image_error Z :=
  if negb (image_offset =? IMAGE_OFFSET_AUTO) then Ok image_offset
  else search_extents mm default_segment_size extents.

(** ** The parser *)

Record filesystem_parser : Type := Parser {
  mm_ : list Z;
  image_offset_ : Z;
  image_size_ : Z;
  parser_offset_ : Z;
  header_version_ : Z;
  fs_major : Z;
  fs_minor : Z;
  index_ : list Z
}.

Definition set_offset (o : Z) (p : filesystem_parser) : filesystem_parser :=
  Parser (mm_ p) (image_offset_ p) (image_size_ p) o (header_version_ p) (fs_major p) (fs_minor p) (index_ p).

Definition image_end (p : filesystem_parser) : Z := image_offset_ p + image_size_ p.

Section parser.
Context (xxh3_64_digest sha2_512_256_digest : list Z -> list Z).

(** The entries of the index. *)
Fixpoint u64_values (n : nat) (l : list Z) : list Z :=
  match n with
  | O => []
  | S n => le_value (slice l 0 8) :: u64_values n (drop 8 l)
  end.

(** [std::ranges::is_sorted] by the offsets. *)
Fixpoint is_sorted_by_offset (l : list Z) : bool :=
  match l with
  | a :: ((b :: _) as l) =>
      negb (Z.land b section_offset_mask <? Z.land a section_offset_mask) && is_sorted_by_offset l
  | _ => true
  end.

(** [find_index]: the index, empty where there is none. *)
Definition find_index (mm : list Z) (image_offset image_size version : Z) : result image_error (list Z) :=
  let? b := copy_to mm (image_offset + image_size - 8) 8 in
  let index_pos := le_value b in
  if negb (Z.shiftr index_pos 48 =? SECTION_INDEX) then Ok []
  else
    let index_pos := wrapu 64 (Z.land index_pos section_offset_mask + image_offset) in
    if image_offset + image_size <=? index_pos then Ok []
    else
      let? section := fs_section_create mm (wraps 64 index_pos) (image_offset + image_size) version in
      let? info := (read_section xxh3_64_digest sha2_512_256_digest mm section).1 in
      if negb (section_type section =? SECTION_INDEX) then Ok []
      else if negb (info_compression info =? compression_NONE) then Ok []
      else if negb (section_length section mod 8 =? 0) then Ok []
      else if negb (info_check_fast info) then Ok []
      else
        let section_count := section_length section / 8 in
        if section_count <? 3 then Ok []
        else
          let index := u64_values (Z.to_nat section_count) (info_data info) in
          if negb (is_sorted_by_offset index) then Ok []
          else if negb (Z.land (default 0 (head index)) section_offset_mask =? 0) then Ok []
          else Ok index.

Definition rewind (p : filesystem_parser) : filesystem_parser :=
  set_offset (if bool_decide (index_ p = [])
              then (if header_version_ p =? 1 then image_offset_ p + sizeof_file_header else image_offset_ p)
              else 0) p.

Definition parser_create (mm : list Z) (default_segment_size : Z) (extents : list (extent_info extent_kind))
    (image_offset image_size : Z) : result image_error filesystem_parser :=
  let? image_offset := find_image_offset mm default_segment_size extents image_offset in
  let image_size := Z.min image_size (zlen mm - image_offset) in
  if image_size <? sizeof_file_header then Err filesystem_image_too_small
  else
    let? b := copy_to mm image_offset sizeof_file_header in
    let fh := file_header_of b in
    if negb (bool_decide (fh_magic fh = magic_chars)) then Err magic_not_found
    else if negb (fh_major fh =? MAJOR_VERSION) then Err unsupported_major_version
    else if MINOR_VERSION_ACCEPTED <? fh_minor fh then Err unsupported_minor_version
    else
      let header_version := if 2 <=? fh_minor fh then 2 else 1 in
      let? index := (if 4 <=? fh_minor fh then find_index mm image_offset image_size header_version else Ok []) in
      Ok (rewind (Parser mm image_offset image_size 0 header_version (fh_major fh) (fh_minor fh) index)).

Definition next_section : action image_error filesystem_parser (option fs_section) :=
  let! p := get in
  if bool_decide (index_ p = []) then
    if parser_offset_ p <? image_offset_ p + image_size_ p then
      match fs_section_create (mm_ p) (parser_offset_ p) (image_end p) (header_version_ p) with
      | Err e => throw e
      | Ok section => put (set_offset (section_end section) p) ;; ret (Some section)
      end
    else ret None
  else if parser_offset_ p <? zlen (index_ p) then
    let id := default 0 (index_ p !! Z.to_nat (parser_offset_ p)) in
    put (set_offset (parser_offset_ p + 1) p) ;;
    let offset := Z.land id section_offset_mask in
    let next_offset := if parser_offset_ p + 1 <? zlen (index_ p)
                       then Z.land (default 0 (index_ p !! Z.to_nat (parser_offset_ p + 1))) section_offset_mask
                       else image_size_ p in
    match fs_section_create_lazy (wrapu 16 (Z.shiftr id 48)) (image_offset_ p + offset) (wrapu 64 (next_offset - offset))
            (image_end p) (header_version_ p) with
    | Err e => throw e
    | Ok section => ret (Some section)
    end
  else ret None.

(** The loop over the sections. *)
Fixpoint read_sections (fuel : nat) : action image_error filesystem_parser (list fs_section) :=
  match fuel with
  | O => ret []
  | S fuel =>
      let! s := next_section in
      match s with
      | None => ret []
      | Some s => let! rest := read_sections fuel in ret (s :: rest)
      end
  end.
End parser.

(** ** The search finds the first magic *)

Lemma memchr_loop_spec l i c :
  match memchr_loop l i c with
  | Some j => i <= j < i + zlen l /\ l !! Z.to_nat (j - i) = Some c /\ (forall k, i <= k < j -> l !! Z.to_nat (k - i) <> Some c)
  | None => forall k, i <= k < i + zlen l -> l !! Z.to_nat (k - i) <> Some c
  end.
Proof.
  revert i. induction l as [|x l IH]; intros i; cbn [memchr_loop].
  { intros k Hk. change (zlen []) with 0 in Hk. lia. }
  assert (zlen (x :: l) = 1 + zlen l) as Ez by (unfold zlen; cbn [length]; lia). pose proof (zlen_nonneg l).
  destruct (Z.eqb_spec x c) as [->|Hx].
  { rewrite Z.sub_diag. split_and!; [lia..|done|intros; lia]. }
  assert (forall k, i + 1 <= k -> (x :: l) !! Z.to_nat (k - i) = l !! Z.to_nat (k - (i + 1))) as Hs.
  { intros k Hk. by replace (Z.to_nat (k - i)) with (S (Z.to_nat (k - (i + 1)))) by lia. }
  assert (forall k, k = i -> (x :: l) !! Z.to_nat (k - i) <> Some c) as H0.
  { intros k ->. rewrite Z.sub_diag. by intros [= ?]. }
  specialize (IH (i + 1)). destruct (memchr_loop l (i + 1) c) as [j|].
  - destruct IH as (I1 & I2 & I3). split; [lia|]. split; [by rewrite Hs by lia|].
    intros k Hk. destruct (decide (k = i)) as [->|]; [by apply H0|]. rewrite Hs by lia. apply I3. lia.
  - intros k Hk. destruct (decide (k = i)) as [->|]; [by apply H0|]. rewrite Hs by lia. apply IH. lia.
Qed.

Lemma memchr_spec h from c : 0 <= from ->
  match memchr h from c with
  | Some j => from <= j < zlen h /\ h !! Z.to_nat j = Some c /\ (forall k, from <= k < j -> h !! Z.to_nat k <> Some c)
  | None => forall k, from <= k < zlen h -> h !! Z.to_nat k <> Some c
  end.
Proof.
  intros Hf. unfold memchr. pose proof (memchr_loop_spec (drop (Z.to_nat from) h) from c) as H.
  assert (zlen (drop (Z.to_nat from) h) = Z.max 0 (zlen h - from)) as Ez by (unfold zlen; rewrite length_drop; lia).
  assert (forall k, from <= k -> drop (Z.to_nat from) h !! Z.to_nat (k - from) = h !! Z.to_nat k) as Hl.
  { intros k Hk. rewrite lookup_drop. f_equal. lia. }
  rewrite Ez in H. destruct (memchr_loop _ from c) as [j|].
  - destruct H as (H1 & H2 & H3). split; [lia|]. rewrite <- Hl by lia. split; [done|].
    intros k Hk. rewrite <- Hl by lia. by apply H3.
  - intros k Hk. rewrite <- Hl by lia. apply H. lia.
Qed.

(** The magic is at a position. *)
Definition magic_at (h : list Z) (i : Z) : Prop := slice h i 7 = kMagic.

Lemma magic_at_split h i : 0 <= i -> magic_at h i <-> slice h i 6 = magic_chars /\ h !! Z.to_nat (i + 6) = Some MAJOR_VERSION.
Proof.
  intros Hi. unfold magic_at. change 7 with (6 + 1). rewrite slice_add by lia. unfold kMagic.
  assert (slice h (i + 6) 1 = match h !! Z.to_nat (i + 6) with Some x => [x] | None => [] end) as ->.
  { unfold slice. change (Z.to_nat 1) with 1%nat. destruct (h !! Z.to_nat (i + 6)) as [x|] eqn:E.
    - by rewrite (drop_S _ _ _ E).
    - apply lookup_ge_None in E. by rewrite drop_ge. }
  split.
  - intros E. destruct (h !! Z.to_nat (i + 6)) as [x|] eqn:Ex.
    + apply app_inj_tail in E as [-> ->]. done.
    + rewrite app_nil_r in E. apply (f_equal length) in E. unfold slice in E. rewrite length_take in E. cbn in E. lia.
  - by intros [-> ->].
Qed.

(** The first magic of a haystack, its length where there is none. *)
Definition first_magic (h : list Z) (d : Z) : Prop :=
  (magic_at h d /\ 0 <= d /\ d + 7 <= zlen h /\ forall k, 0 <= k < d -> ~ magic_at h k) \/
  (d = zlen h /\ forall k, 0 <= k -> ~ magic_at h k).

Lemma search_magic_spec fuel h p : 6 <= p -> zlen h - p < Z.of_nat fuel -> (forall k, 0 <= k < p - 6 -> ~ magic_at h k) ->
  first_magic h (search_magic fuel h p).
Proof.
  revert p. induction fuel as [|fuel IH]; intros p Hp Hf Hb; cbn [search_magic].
  { right. split; [done|]. intros k Hk Hm. destruct (decide (k < p - 6)); [by apply (Hb k); [lia|]|].
    apply magic_at_split in Hm as [_ Hm]; [|done]. apply lookup_lt_Some in Hm. unfold zlen in *. lia. }
  destruct (Z.leb_spec p (zlen h - 1)).
  - pose proof (memchr_spec h p MAJOR_VERSION ltac:(lia)) as Hm. destruct (memchr h p MAJOR_VERSION) as [i|].
    + destruct Hm as (M1 & M2 & M3). assert (forall k, 0 <= k < i - 6 -> ~ magic_at h k) as Hb'.
      { intros k Hk Hat. destruct (decide (k < p - 6)); [by apply (Hb k); [lia|]|].
        apply magic_at_split in Hat as [_ Hat]; [|lia]. by apply (M3 (k + 6)); [lia|]. }
      case_bool_decide as Hc.
      * left. split_and!; [|lia|lia|done]. apply magic_at_split; [lia|]. split; [done|].
        by replace (i - 6 + 6) with i by lia.
      * apply IH; [lia|lia|]. intros k Hk Hat. destruct (decide (k < i - 6)); [by apply (Hb' k); [lia|]|].
        assert (k = i - 6) as -> by lia. apply magic_at_split in Hat as [Hat _]; [done|lia].
    + right. split; [done|]. intros k Hk Hat. destruct (decide (k < p - 6)); [by apply (Hb k); [lia|]|].
      apply magic_at_split in Hat as [_ Hat]; [|done]. apply (Hm (k + 6)); [|done].
      apply lookup_lt_Some in Hat. unfold zlen. lia.
  - right. split; [done|]. intros k Hk Hat. destruct (decide (k < p - 6)); [by apply (Hb k); [lia|]|].
    apply magic_at_split in Hat as [_ Hat]; [|done]. apply lookup_lt_Some in Hat. unfold zlen in *. lia.
Qed.

Lemma search_dwarfs_header_spec h : first_magic h (search_dwarfs_header h).
Proof.
  unfold search_dwarfs_header. change (zlen kMagic) with 7. destruct (Z.ltb_spec (zlen h) 7).
  - right. split; [done|]. intros k Hk Hm. apply magic_at_split in Hm as [_ Hm]; [|done].
    apply lookup_lt_Some in Hm. unfold zlen in *. lia.
  - apply search_magic_spec; unfold zlen in *; lia.
Qed.

(** ** Scanning an image without an index *)

Section scanning.
Context (mm : list Z) (Hmm : Forall is_byte mm) (Hlen : zlen mm < 2 ^ 63 - 1).

(** The sections follow each other from [lo] to [hi]: each one is read where
    the one before ends, has its data behind its header and inside the image. *)
Fixpoint tiles (image_end version lo hi : Z) (ss : list fs_section) : Prop :=
  match ss with
  | [] => lo = hi
  | s :: ss =>
      fs_section_create mm lo image_end version = Ok s /\
      section_start s = lo + sizeof_header version /\ 0 <= section_length s /\ section_end s <= image_end /\
      tiles image_end version (section_end s) hi ss
  end.

(** What a parser keeps of the file it was created for. *)
Record parser_ok (p : filesystem_parser) : Prop := {
  po_mm : mm_ p = mm;
  po_index : index_ p = [];
  po_end : 0 <= parser_offset_ p <= image_end p
}.

Lemma sizeof_header_pos v : 8 <= sizeof_header v.
Proof. unfold sizeof_header, sizeof_section_header, sizeof_section_header_v2. destruct (v =? 1); lia. Qed.

Lemma read_sections_spec fuel p : parser_ok p -> image_end p - parser_offset_ p < Z.of_nat fuel ->
  exists r p', read_sections fuel p = (r, p') /\ parser_ok p' /\
    image_end p' = image_end p /\ header_version_ p' = header_version_ p /\
    match r with
    | Ok ss => tiles (image_end p) (header_version_ p) (parser_offset_ p) (image_end p) ss /\
        parser_offset_ p' = image_end p
    | Err e => exists ss, tiles (image_end p) (header_version_ p) (parser_offset_ p) (parser_offset_ p') ss /\
        parser_offset_ p' < image_end p /\
        fs_section_create mm (parser_offset_ p') (image_end p) (header_version_ p) = Err e
    end.
Proof.
  revert p. induction fuel as [|fuel IH]; intros p [E1 E2 E3] Hf; [lia|].
  cbn [read_sections]. unfold abind at 1. unfold next_section. rewrite abind_get, E2, bool_decide_true by done.
  fold (image_end p). destruct (Z.ltb_spec (parser_offset_ p) (image_end p)) as [Hlt|Hge].
  - rewrite E1. destruct (fs_section_create mm (parser_offset_ p) (image_end p) (header_version_ p)) as [s|e] eqn:E.
    + unfold abind at 1, put. cbn [ret].
      destruct (section_create_bounds _ Hmm Hlen _ _ _ _ E) as (B1 & B2 & B3 & B4 & _).
      pose proof (sizeof_header_pos (header_version_ p)). unfold section_end in *.
      destruct (IH (set_offset (section_start s + section_length s) p)) as (r & p' & Er & Hp' & Ee & Ev & Hr).
      { constructor; try done. cbn. unfold image_end in *. cbn. lia. }
      { unfold image_end in *. cbn. lia. }
      change (image_end (set_offset _ p)) with (image_end p) in *. cbn [header_version_ set_offset parser_offset_] in *.
      unfold abind. rewrite Er. destruct r as [ss|e].
      * destruct Hr as [Ht Ho]. eexists _, p'. split; [done|]. by split_and!.
      * destruct Hr as (ss & Ht & Ho & He). eexists _, p'. split; [done|]. split; [done|]. split; [done|].
        split; [done|]. exists (s :: ss). by split_and!.
    + eexists _, p. split; [done|]. split_and!; try done. exists []. by split.
  - assert (parser_offset_ p = image_end p) as Ho by lia. eexists _, p. split; [done|]. by split_and!.
Qed.
End scanning.

(** C40: scanning the sections of any file, whatever its bytes, ends, and every
    section lies in the image, its header where the section before ends and its
    data behind the header.  Either the sections fill the image exactly, or the
    error is that of the header behind the last good section. *)
Theorem scan_sections_spec mm p :
  Forall is_byte mm -> zlen mm < 2 ^ 63 - 1 ->
  mm_ p = mm -> index_ p = [] -> 0 <= parser_offset_ p <= image_end p -> image_end p <= zlen mm ->
  exists r p', read_sections (S (length mm)) p = (r, p') /\
    match r with
    | Ok ss => tiles mm (image_end p) (header_version_ p) (parser_offset_ p) (image_end p) ss /\
        next_section p' = (Ok None, p')
    | Err e => exists ss, tiles mm (image_end p) (header_version_ p) (parser_offset_ p) (parser_offset_ p') ss /\
        parser_offset_ p' < image_end p /\
        fs_section_create mm (parser_offset_ p') (image_end p) (header_version_ p) = Err e
    end.
Proof.
  intros Hmm Hlen E1 E2 E3 Hend.
  destruct (read_sections_spec mm Hmm Hlen (S (length mm)) p) as (r & p' & Er & Hp' & Ee & Ev & Hr);
    [by constructor|unfold zlen in *; lia|].
  exists r, p'. split; [done|]. destruct r as [ss|e]; [|done]. destruct Hr as [Ht Ho]. split; [done|].
  destruct Hp' as [_ I _]. unfold next_section. rewrite abind_get, I, bool_decide_true by done.
  fold (image_end p'). rewrite Ho, Ee. by replace (image_end p <? image_end p) with false by lia.
Qed.

(** A v1 section of three bytes, and a header that is cut off. *)
Lemma scan_sections_spec_witness :
  let mm := [0; 0; 1; 0; 3; 0; 0; 0; 11; 12; 13; 0; 0; 1] in
  let p := Parser mm 0 14 0 1 2 1 [] in
  exists p', read_sections (S (length mm)) p = (Err truncated_section_header, p') /\
    exists ss, tiles mm 14 1 0 (parser_offset_ p') ss /\ parser_offset_ p' < 14.
Proof.
  intros mm p. destruct (scan_sections_spec mm p) as (r & p' & E & H).
  - unfold mm. rewrite !Forall_cons. split_and!; [done..|apply Forall_nil_2].
  - done.
  - done.
  - done.
  - by vm_compute.
  - done.
  - exists p'. assert (read_sections (S (length mm)) p = (Err truncated_section_header, set_offset 11 p)) as Ec by (vm_compute; reflexivity).
    rewrite E in Ec. injection Ec as -> ->. split; [done|]. destruct H as (ss & Ht & Ho & _). by exists ss.
Defined.
