(* ===== verification/FilesystemWriter.v ===== *)
(** * FilesystemWriter: writing the sections of an image

    [filesystem_writer_] of [src/writer/filesystem_writer.cpp]: the section
    headers with their checksums, the choice of the compressor, the queue of
    numbered sections between the threads that add them and the writer thread,
    and the section index.  The compressors and the checksums are parameters;
    the decompression of a section that is rewritten, the limit on the memory
    of the queue, progress and logging are left out. *)

From stdpp Require Import relations.
From S2P Require Import Prelude Bits FsSection.
Local Open Scope Z_scope.

(** A [block_compressor]: its type, what it makes of some data ([None] for
    [bad_compression_ratio_error]), and whether its requirements on metadata
    are met without any. *)
Record block_compressor : Type := Compressor {
  bc_type : Z;
  bc_compress : list Z -> option (list Z);
  bc_needs_no_metadata : bool
}.

Inductive writer_error : Type :=
  | compressor_registered_twice
  | section_index_is_uncompressed
  | metadata_requirements_not_met
  | category_only_for_blocks
  | bad_optional_access.

(** A compressed [fsblock]: what it is of, and the header of the section it is
    a copy of. *)
Record fsblock : Type := FsBlock {
  fb_type : Z;
  fb_compression : Z;
  fb_data : list Z;
  fb_sec : option section_header_v2
}.

Record filesystem_writer : Type := Writer {
  os_ : list Z;
  image_size_ : Z;
  has_header_ : bool;
  remove_header_ : bool;
  no_section_index_ : bool;
  default_bc_ : option block_compressor;
  category_bc_ : gmap Z block_compressor;
  section_bc_ : gmap Z block_compressor;
  queue_ : list (Z * fsblock);
  flush_ : bool;
  section_number_ : Z;
  section_index_ : list Z;
  header_size_ : Z
}.

Definition set_compressors d c s (w : filesystem_writer) : filesystem_writer :=
  Writer (os_ w) (image_size_ w) (has_header_ w) (remove_header_ w) (no_section_index_ w) d c s
    (queue_ w) (flush_ w) (section_number_ w) (section_index_ w) (header_size_ w).
Definition set_queue q n (w : filesystem_writer) : filesystem_writer :=
  Writer (os_ w) (image_size_ w) (has_header_ w) (remove_header_ w) (no_section_index_ w) (default_bc_ w) (category_bc_ w)
    (section_bc_ w) q (flush_ w) n (section_index_ w) (header_size_ w).
Definition set_output o z i h (w : filesystem_writer) : filesystem_writer :=
  Writer o z (has_header_ w) (remove_header_ w) (no_section_index_ w) (default_bc_ w) (category_bc_ w)
    (section_bc_ w) (queue_ w) (flush_ w) (section_number_ w) i h.
Definition set_flush (w : filesystem_writer) : filesystem_writer :=
  Writer (os_ w) (image_size_ w) (has_header_ w) (remove_header_ w) (no_section_index_ w) (default_bc_ w) (category_bc_ w)
    (section_bc_ w) (queue_ w) true (section_number_ w) (section_index_ w) (header_size_ w).

Section writer.
Context (xxh3_64_digest sha2_512_256_digest : list Z -> list Z).

(** ** [fsblock::build_section_header] *)

Definition build_section_header (type compression number : Z) (range : list Z) (sec : option section_header_v2) :
    section_header_v2 :=
  let sh xxh sha := SectionHeaderV2 magic_chars MAJOR_VERSION MINOR_VERSION sha xxh number type compression (zlen range) in
  let zero := sh (replicate 8 0) (replicate 32 0) in
  let computed :=
    let xxh := xxh3_64_digest (header_numbers zero ++ range) in
    let zero := sh xxh (replicate 32 0) in
    sh xxh (sha2_512_256_digest (header_tail zero ++ range)) in
  match sec with
  | Some s => if FsSection.number s =? number then sh (xxh3_64 s) (sha2_512_256 s) else computed
  | None => computed
  end.

Definition header (number : Z) (b : fsblock) : section_header_v2 :=
  build_section_header (fb_type b) (fb_compression b) number (fb_data b) (fb_sec b).

(** [raw_fsblock::compress]: the data itself where compression does not pay. *)
Definition raw_fsblock (type : Z) (bc : block_compressor) (data : list Z) : fsblock :=
  match bc_compress bc data with
  | Some c => FsBlock type (bc_type bc) c None
  | None => FsBlock type compression_NONE data None
  end.

(** ** The compressors *)

#[local] Abbreviation act := (action writer_error filesystem_writer).

Definition add_default_compressor (bc : block_compressor) : act unit :=
  let! w := get in
  match default_bc_ w with
  | Some _ => throw compressor_registered_twice
  | None => put (set_compressors (Some bc) (category_bc_ w) (section_bc_ w) w)
  end.

Definition add_category_compressor (cat : Z) (bc : block_compressor) : act unit :=
  let! w := get in
  match category_bc_ w !! cat with
  | Some _ => throw compressor_registered_twice
  | None => put (set_compressors (default_bc_ w) (<[cat := bc]> (category_bc_ w)) (section_bc_ w) w)
  end.

Definition add_section_compressor (type : Z) (bc : block_compressor) : act unit :=
  if type =? SECTION_INDEX then throw section_index_is_uncompressed
  else if negb (bc_needs_no_metadata bc) then throw metadata_requirements_not_met
  else
    let! w := get in
    match section_bc_ w !! type with
    | Some _ => throw compressor_registered_twice
    | None => put (set_compressors (default_bc_ w) (category_bc_ w) (<[type := bc]> (section_bc_ w)) w)
    end.

Definition default_compressor : act block_compressor :=
  let! w := get in
  match default_bc_ w with Some bc => ret bc | None => throw bad_optional_access end.

Definition compressor_for_category (cat : Z) : act block_compressor :=
  let! w := get in
  match category_bc_ w !! cat with Some bc => ret bc | None => default_compressor end.

Definition get_compressor (type : Z) (cat : option Z) : act block_compressor :=
  match cat with
  | Some cat => if negb (type =? BLOCK) then throw category_only_for_blocks else compressor_for_category cat
  | None => let! w := get in match section_bc_ w !! type with Some bc => ret bc | None => default_compressor end
  end.

(** ** Adding sections *)

(** Under the lock: the number is assigned and the section queued; the number
    is what the callback of a block is called with. *)
Definition enqueue (b : fsblock) : act Z :=
  let! w := get in
  let number := section_number_ w in
  put (set_queue (queue_ w ++ [(number, b)]) (wrapu 32 (number + 1)) w) ;;
  ret number.

(** [on_block_merged], of a block added by [write_block]. *)
Definition on_block_merged (b : fsblock) : act Z := enqueue b.
Definition write_block (cat : Z) (data : list Z) : act fsblock :=
  let! bc := compressor_for_category cat in ret (raw_fsblock BLOCK bc data).

Definition write_section_impl (type : Z) (data : list Z) : act Z :=
  let! bc := get_compressor type None in enqueue (raw_fsblock type bc data).
Definition write_metadata_v2_schema (data : list Z) : act Z := write_section_impl METADATA_V2_SCHEMA data.
Definition write_metadata_v2 (data : list Z) : act Z := write_section_impl METADATA_V2 data.
Definition write_history (data : list Z) : act Z := write_section_impl HISTORY data.

(** [rewrite_section], [rewrite_block]: [data] is what the section holds. *)
Definition rewrite_section_delayed_data (type : Z) (data : list Z) (cat : option Z) : act Z :=
  let! bc := get_compressor type cat in enqueue (raw_fsblock type bc data).

Definition write_compressed_section (sec : section_header_v2) (data : list Z) : act Z :=
  enqueue (FsBlock (FsSection.type sec) (FsSection.compression sec) data (Some sec)).

(** ** Writing *)

Definition write_data (data : list Z) (w : filesystem_writer) : filesystem_writer :=
  set_output (os_ w ++ data) (image_size_ w + zlen data) (section_index_ w) (header_size_ w) w.

Definition push_section_index (type : Z) (w : filesystem_writer) : filesystem_writer :=
  set_output (os_ w) (image_size_ w)
    (section_index_ w ++ [Z.lor (wrapu 64 (Z.shiftl type 48)) (wrapu 64 (image_size_ w - header_size_ w))]) (header_size_ w) w.

(** [write] of a section. *)
Definition write_fsblock (number : Z) (b : fsblock) (w : filesystem_writer) : filesystem_writer :=
  let w := if fb_type b =? SECTION_INDEX then w else push_section_index (fb_type b) w in
  write_data (fb_data b) (write_data (section_header_v2_bytes (header number b)) w).

Definition write_section_index (w : filesystem_writer) : filesystem_writer :=
  let w := push_section_index SECTION_INDEX w in
  let data := concat (map (le_bytes 8) (section_index_ w)) in
  let number := section_number_ w in
  write_fsblock number (FsBlock SECTION_INDEX compression_NONE data None) (set_queue (queue_ w) (wrapu 32 (number + 1)) w).

(** The constructor, with the bytes of the header stream, and [copy_header]. *)
Definition writer_create (hdr : option (list Z)) (remove_header no_section_index : bool) : filesystem_writer :=
  let w := Writer [] 0 (bool_decide (is_Some hdr)) remove_header no_section_index None ∅ ∅ [] false 0 [] 0 in
  match hdr with
  | Some h => if remove_header then w else set_output h (zlen h) [] (zlen h) w
  | None => w
  end.

Definition copy_header (h : list Z) (w : filesystem_writer) : filesystem_writer :=
  if remove_header_ w then w
  else if has_header_ w then w
  else let w := write_data h w in set_output (os_ w) (image_size_ w) (section_index_ w) (image_size_ w) w.

(** ** The threads *)

(** The writer thread waits for a section, writes it while it is still at the
    front of the queue, and takes it off; it stops on [flush].  [Done] is after
    the section index.  [accepted] is what has been added, in order. *)
Inductive thread_state : Type := Waiting | Writing | Popping | Stopped | Done.

Record system : Type := System { writer_ : filesystem_writer; thread_ : thread_state; accepted : list fsblock }.

Inductive writer_step : system -> system -> Prop :=
  | step_enqueue w t acc b n w' :
      flush_ w = false -> enqueue b w = (Ok n, w') ->
      writer_step (System w t acc) (System w' t (acc ++ [b]))
  | step_take w acc : queue_ w <> [] -> writer_step (System w Waiting acc) (System w Writing acc)
  | step_write w acc n b q :
      queue_ w = (n, b) :: q -> writer_step (System w Writing acc) (System (write_fsblock n b w) Popping acc)
  | step_pop w acc x q :
      queue_ w = x :: q -> writer_step (System w Popping acc) (System (set_queue q (section_number_ w) w) Waiting acc)
  | step_flush w t acc : flush_ w = false -> writer_step (System w t acc) (System (set_flush w) t acc)
  | step_stop w acc :
      queue_ w = [] -> flush_ w = true -> writer_step (System w Waiting acc) (System w Stopped acc)
  | step_finish w acc :
      writer_step (System w Stopped acc)
        (System (if no_section_index_ w then w else write_section_index w) Done acc).
End writer.

(** ** The image, as a function of the sections *)

Section image.
Context (xxh3_64_digest sha2_512_256_digest : list Z -> list Z).
#[local] Abbreviation header := (header xxh3_64_digest sha2_512_256_digest).
#[local] Abbreviation write_fsblock := (write_fsblock xxh3_64_digest sha2_512_256_digest).
#[local] Abbreviation writer_step := (writer_step xxh3_64_digest sha2_512_256_digest).

Definition section_bytes (n : Z) (b : fsblock) : list Z := section_header_v2_bytes (header (wrapu 32 n) b) ++ fb_data b.

Fixpoint body (n : Z) (bs : list fsblock) : list Z :=
  match bs with
  | [] => []
  | b :: bs => section_bytes n b ++ body (n + 1) bs
  end.

Definition index_entry (type pos : Z) : Z := Z.lor (wrapu 64 (Z.shiftl type 48)) (wrapu 64 pos).

(** The entries of the index for sections from [pos]. *)
Fixpoint index_entries (n pos : Z) (bs : list fsblock) : list Z :=
  match bs with
  | [] => []
  | b :: bs =>
      (if fb_type b =? SECTION_INDEX then [] else [index_entry (fb_type b) pos]) ++
        index_entries (n + 1) (pos + zlen (section_bytes n b)) bs
  end.

Definition section_index (bs : list fsblock) : fsblock :=
  FsBlock SECTION_INDEX compression_NONE
    (concat (map (le_bytes 8) (index_entries 0 0 bs ++ [index_entry SECTION_INDEX (zlen (body 0 bs))]))) None.

(** All the sections of the image. *)
Definition all_sections (no_index : bool) (bs : list fsblock) : list fsblock :=
  if no_index then bs else bs ++ [section_index bs].

Lemma body_app n a b : body n (a ++ b) = body n a ++ body (n + zlen a) b.
Proof.
  revert n. induction a as [|x a IH]; intros n; [by rewrite Z.add_0_r|].
  cbn [body app]. rewrite IH, <- app_assoc. do 3 f_equal. unfold zlen. cbn [length]. lia.
Qed.

Lemma index_entries_app n pos a b :
  index_entries n pos (a ++ b) = index_entries n pos a ++ index_entries (n + zlen a) (pos + zlen (body n a)) b.
Proof.
  revert n pos. induction a as [|x a IH]; intros n pos; [cbn [app index_entries body]; change (zlen (@nil Z)) with 0; change (zlen (@nil fsblock)) with 0; by rewrite !Z.add_0_r|].
  cbn [index_entries app body]. rewrite IH, <- app_assoc. do 2 f_equal.
  rewrite zlen_app. f_equal; [unfold zlen; cbn [length]; lia|lia].
Qed.

(** The queue: sections with the numbers from [n]. *)
Fixpoint numbered (n : Z) (bs : list fsblock) : list (Z * fsblock) :=
  match bs with
  | [] => []
  | b :: bs => (wrapu 32 n, b) :: numbered (n + 1) bs
  end.

Lemma numbered_app n a b : numbered n (a ++ b) = numbered n a ++ numbered (n + zlen a) b.
Proof.
  revert n. induction a as [|x a IH]; intros n; [by rewrite Z.add_0_r|].
  cbn [numbered app]. rewrite IH. do 3 f_equal. unfold zlen. cbn [length]. lia.
Qed.

Lemma wrapu_succ n : wrapu 32 (wrapu 32 n + 1) = wrapu 32 (n + 1).
Proof. apply Z.add_mod_idemp_l. lia. Qed.

(** *** The invariant *)

Context (hdr : list Z).

(** What has been written of an image. *)
Record written_so_far (w : filesystem_writer) (written : list fsblock) : Prop := {
  ws_os : os_ w = hdr ++ body 0 written;
  ws_size : image_size_ w = zlen (os_ w);
  ws_header : header_size_ w = zlen hdr;
  ws_index : section_index_ w = index_entries 0 0 written
}.

Definition sys_inv (s : system) : Prop :=
  let w := writer_ s in
  match thread_ s with
  | Done => flush_ w = true /\ image_size_ w = zlen (os_ w) /\
      os_ w = hdr ++ body 0 (all_sections (no_section_index_ w) (accepted s))
  | t =>
      section_number_ w = wrapu 32 (zlen (accepted s)) /\
      exists written pending, accepted s = written ++ pending /\
        match t with
        | Waiting => written_so_far w written /\ queue_ w = numbered (zlen written) pending
        | Writing => written_so_far w written /\ queue_ w = numbered (zlen written) pending /\ pending <> []
        | Popping => exists b written', written = written' ++ [b] /\ written_so_far w written /\
            queue_ w = numbered (zlen written') (b :: pending)
        | Stopped => written_so_far w written /\ pending = [] /\ flush_ w = true
        | Done => False
        end
  end.

Lemma write_fsblock_spec w written b : written_so_far w written ->
  written_so_far (write_fsblock (wrapu 32 (zlen written)) b w) (written ++ [b]).
Proof.
  intros [Ho Hs Hh Hi]. unfold FilesystemWriter.write_fsblock, push_section_index, write_data.
  destruct (fb_type b =? SECTION_INDEX) eqn:Et; split; cbn [os_ image_size_ header_size_ section_index_ set_output];
    rewrite ?body_app, ?index_entries_app; cbn [body index_entries]; rewrite ?Et, ?app_nil_r, ?zlen_app; try lia.
  all: rewrite ?Ho, ?Hs, ?Hh, ?Hi, <- ?app_assoc; try done.
  rewrite Ho, zlen_app. unfold index_entry. do 4 f_equal. lia.
Qed.

Lemma set_queue_written q n w written : written_so_far w written -> written_so_far (set_queue q n w) written.
Proof. by intros []. Qed.

Lemma writer_step_inv s s' : sys_inv s -> writer_step s s' -> sys_inv s'.
Proof.
  intros Hinv Hstep. unfold sys_inv in *.
  destruct Hstep as [w t acc b n w' Hf E|w acc Hq|w acc n b q Hq|w acc x q Hq|w t acc Hf|w acc Hq Hf|w acc];
    cbn [writer_ thread_ accepted] in *.
  - unfold enqueue, abind, put, get, ret in E. injection E as <- <-.
    destruct t; [..|by destruct Hinv as [? _]; congruence].
    all: destruct Hinv as (Hn & written & pending & -> & H).
    4: { destruct H as (_ & _ & ?). congruence. }
    all: split; [cbn; by rewrite Hn, wrapu_succ, !zlen_app|].
    all: exists written, (pending ++ [b]); split; [by rewrite app_assoc|].
    + destruct H as [Hw Hq]. split; [by apply set_queue_written|].
      cbn. rewrite Hq, Hn, numbered_app, zlen_app. done.
    + destruct H as (Hw & Hq & Hp). split_and!; [by apply set_queue_written| |by destruct pending].
      cbn. rewrite Hq, Hn, numbered_app, zlen_app. done.
    + destruct H as (b' & written' & -> & Hw & Hq). exists b', written'. split_and!; [done|by apply set_queue_written|].
      cbn [queue_ set_queue]. rewrite Hq, Hn. change (b' :: pending ++ [b]) with ((b' :: pending) ++ [b]).
      rewrite (numbered_app _ (b' :: pending)). cbn [numbered]. do 4 f_equal. rewrite !zlen_app. unfold zlen. cbn [length]. lia.
  - destruct Hinv as (Hn & written & pending & -> & Hw & Hq'). split; [done|]. exists written, pending.
    split_and!; try done. intros ->. by rewrite Hq' in Hq.
  - destruct Hinv as (Hn & written & pending & -> & Hw & Hq' & Hp). destruct pending as [|b' pending]; [done|].
    rewrite Hq in Hq'. cbn [numbered] in Hq'. injection Hq' as -> -> Hq'. split.
    { unfold FilesystemWriter.write_fsblock. by destruct (fb_type _ =? _). }
    exists (written ++ [b']), pending. split; [by rewrite <- app_assoc|]. exists b', written. split_and!; [done|by apply write_fsblock_spec|].
    unfold FilesystemWriter.write_fsblock. destruct (fb_type _ =? _); cbn; by rewrite Hq, Hq'.
  - destruct Hinv as (Hn & written & pending & -> & b & written' & -> & Hw & Hq'). rewrite Hq in Hq'.
    cbn [numbered] in Hq'. injection Hq' as -> ->. split; [done|]. exists (written' ++ [b]), pending.
    split_and!; [done|by apply set_queue_written|]. cbn. by rewrite zlen_app.
  - destruct t; [..|by destruct Hinv].
    all: destruct Hinv as (Hn & written & pending & -> & H); split; [done|]; exists written, pending; split; [done|].
    + by destruct H as [[] ?].
    + by destruct H as ([] & ? & ?).
    + destruct H as (b & written' & ? & [] & ?). by exists b, written'.
    + by destruct H as ([] & ? & ?).
  - destruct Hinv as (Hn & written & pending & -> & Hw & Hq'). split; [done|]. exists written, pending.
    split_and!; try done. rewrite Hq in Hq'. by destruct pending.
  - destruct Hinv as (Hn & written & pending & -> & Hw & -> & Hf). rewrite app_nil_r in *.
    destruct (no_section_index_ w) eqn:Ei.
    + rewrite Ei. destruct Hw. by split_and!.
    + unfold write_section_index.
      destruct Hw as [Ho Hs Hh Hi]. split; [done|].
      unfold FilesystemWriter.write_fsblock, push_section_index, write_data. cbn [fb_type fb_data].
      change (SECTION_INDEX =? SECTION_INDEX) with true. cbn -[body section_header_v2_bytes FilesystemWriter.header].
      rewrite Ei, Hn, Hs, Hh, Hi, Ho, !zlen_app. split; [lia|].
      replace (zlen hdr + zlen (body 0 written) - zlen hdr) with (zlen (body 0 written)) by lia.
      cbn [all_sections]. rewrite body_app, <- !app_assoc. cbn [body]. unfold section_bytes, section_index. by rewrite !app_nil_r.
Qed.

Lemma flush_write_fsblock n b w : flush_ (write_fsblock n b w) = flush_ w.
Proof. unfold FilesystemWriter.write_fsblock. by destruct (fb_type b =? SECTION_INDEX). Qed.

Lemma queue_write_fsblock n b w : queue_ (write_fsblock n b w) = queue_ w.
Proof. unfold FilesystemWriter.write_fsblock. by destruct (fb_type b =? SECTION_INDEX). Qed.

(** Once flushed, the writer thread writes what is queued and stops. *)
Lemma drain q w acc : queue_ w = q -> flush_ w = true ->
  exists w', rtc writer_step (System w Waiting acc) (System w' Done acc).
Proof.
  revert w. induction q as [|[n b] q IH]; intros w Hq Hf.
  - eexists. eapply rtc_l; [by apply step_stop|]. eapply rtc_l; [apply step_finish|]. apply rtc_refl.
  - destruct (IH (set_queue q (section_number_ (write_fsblock n b w)) (write_fsblock n b w))) as [w' Hw'];
      [done|cbn [flush_ set_queue]; by rewrite flush_write_fsblock|].
    exists w'. eapply rtc_l; [apply step_take; by rewrite Hq|]. eapply rtc_l; [by eapply step_write|].
    eapply rtc_l; [eapply step_pop with (x := (n, b)); by rewrite queue_write_fsblock|done].
Qed.

Lemma finishes s : sys_inv s -> flush_ (writer_ s) = true ->
  exists w', rtc writer_step s (System w' Done (accepted s)).
Proof.
  destruct s as [w t acc]. intros Hinv Hf. unfold sys_inv in Hinv. cbn [writer_ thread_ accepted] in *.
  destruct t.
  - by eapply drain.
  - destruct Hinv as (Hn & written & pending & -> & Hw & Hq & Hp). destruct pending as [|b pending]; [done|].
    cbn [numbered] in Hq.
    destruct (drain (numbered (zlen written + 1) pending)
      (set_queue (numbered (zlen written + 1) pending) (section_number_ (write_fsblock (wrapu 32 (zlen written)) b w))
        (write_fsblock (wrapu 32 (zlen written)) b w)) (written ++ b :: pending)) as [w' Hw'];
      [done|cbn [flush_ set_queue]; by rewrite flush_write_fsblock|].
    exists w'. eapply rtc_l; [by eapply step_write|]. eapply rtc_l; [|done].
    eapply step_pop with (x := (wrapu 32 (zlen written), b)). by rewrite queue_write_fsblock.
  - destruct Hinv as (Hn & written & pending & -> & b & written' & -> & Hw & Hq). cbn [numbered] in Hq.
    destruct (drain (numbered (zlen written' + 1) pending)
      (set_queue (numbered (zlen written' + 1) pending) (section_number_ w) w) ((written' ++ [b]) ++ pending)) as [w' Hw']; [done|done|].
    exists w'. eapply rtc_l; [by eapply step_pop|done].
  - eexists. eapply rtc_l; [apply step_finish|apply rtc_refl].
  - eexists. apply rtc_refl.
Qed.

(** A writer that has written nothing but the header. *)
Record ready (w : filesystem_writer) : Prop := {
  rd_os : os_ w = hdr;
  rd_size : image_size_ w = zlen hdr;
  rd_header : header_size_ w = zlen hdr;
  rd_queue : queue_ w = [];
  rd_number : section_number_ w = 0;
  rd_index : section_index_ w = [];
  rd_flush : flush_ w = false
}.

Lemma ready_inv w : ready w -> sys_inv (System w Waiting []).
Proof.
  intros []. unfold sys_inv. cbn. split; [done|]. exists [], []. split; [done|]. split; [|done].
  split; [|congruence|done|done]. by rewrite app_nil_r.
Qed.

Lemma written_image_spec w s : ready w -> rtc writer_step (System w Waiting []) s -> sys_inv s.
Proof.
  intros Hw. apply ready_inv in Hw. revert Hw. generalize (System w Waiting []). intros s0 H0 Hr.
  induction Hr as [|x y z Hxy _ IH]; [done|]. apply IH. by eapply writer_step_inv.
Qed.
End image.

(** The writers that are ready. *)
Lemma writer_create_ready h no_index : ready h (writer_create (Some h) false no_index).
Proof. by split. Qed.

Lemma writer_create_no_header_ready no_index : ready [] (writer_create None false no_index).
Proof. by split. Qed.

Lemma copy_header_ready h w : ready [] w -> has_header_ w = false -> remove_header_ w = false -> ready h (copy_header h w).
Proof. intros [] Hh Hr. unfold copy_header. rewrite Hr, Hh. split; cbn; try done; rewrite ?rd_os0, ?rd_size0; done. Qed.

Lemma add_default_compressor_ready h bc w u w' : ready h w -> add_default_compressor bc w = (Ok u, w') -> ready h w'.
Proof.
  intros []. unfold add_default_compressor, abind, get, put, throw. destruct (default_bc_ w); [done|]. intros [= <- <-]. by split.
Qed.

(** For every schedule of the threads that add sections and of the writer
    thread, the number a section is given is its place among the sections; once
    everything is flushed the writer finishes, and the image is the header, the
    sections in the order of their numbers, each behind its section header, and
    the index with the type and the offset of each. *)
Theorem written_image xxh3_64_digest sha2_512_256_digest hdr w s :
  ready hdr w -> rtc (writer_step xxh3_64_digest sha2_512_256_digest) (System w Waiting []) s ->
  (forall b n w', flush_ (writer_ s) = false -> enqueue b (writer_ s) = (Ok n, w') -> n = wrapu 32 (zlen (accepted s))) /\
  (thread_ s = Done ->
    os_ (writer_ s) = hdr ++ body xxh3_64_digest sha2_512_256_digest 0
      (all_sections xxh3_64_digest sha2_512_256_digest (no_section_index_ (writer_ s)) (accepted s)) /\
    image_size_ (writer_ s) = zlen (os_ (writer_ s))) /\
  (flush_ (writer_ s) = true ->
    exists w', rtc (writer_step xxh3_64_digest sha2_512_256_digest) s (System w' Done (accepted s))).
Proof.
  intros Hw Hr. pose proof (written_image_spec _ _ _ _ _ Hw Hr) as Hinv. split_and!.
  - intros b n w' Hf [= <- <-]. unfold sys_inv in Hinv.
    destruct (thread_ s); [by destruct Hinv..|]. destruct Hinv. congruence.
  - intros Hd. unfold sys_inv in Hinv. rewrite Hd in Hinv. by destruct Hinv as (_ & ? & ?).
  - by apply (finishes _ _ hdr).
Qed.

Lemma written_image_witness :
  let xxh l := le_bytes 8 (zlen l) in
  let sha l := le_bytes 32 (zlen l) in
  let w := writer_create (Some [7; 7]) false false in
  let b := FsBlock BLOCK 1 [1; 2; 3] None in
  let s := System (set_flush (enqueue b w).2) Waiting [b] in
  rtc (writer_step xxh sha) (System w Waiting []) s /\
  exists w', rtc (writer_step xxh sha) s (System w' Done [b]).
Proof.
  intros xxh sha w b s.
  assert (rtc (writer_step xxh sha) (System w Waiting []) s) as Hr.
  { eapply rtc_l; [exact (step_enqueue xxh sha w Waiting [] b 0 (enqueue b w).2 eq_refl eq_refl)|].
    eapply rtc_l; [by apply step_flush|]. apply rtc_refl. }
  split; [done|].
  destruct (written_image xxh sha [7; 7] w s) as (_ & _ & H); [by split|done|]. by apply H.
Defined.
