(* ===== verification/ImageFile.v ===== *)
(** * ImageFile: an image that was written is read back

    The writer ([FilesystemWriter]) and the parser ([FilesystemParser]) of an
    image against each other: where the parser finds the image, what the
    sections it reads hold, with and without the section index. *)

From S2P Require Import Prelude Bits FileRange FsSection FilesystemParser FilesystemWriter.
Local Open Scope Z_scope.

(** What is documented of the two checksums: the size of the digests. *)
Class Digests (xxh3_64_digest sha2_512_256_digest : list Z -> list Z) : Prop := {
  xxh_size l : zlen (xxh3_64_digest l) = 8;
  sha_size l : zlen (sha2_512_256_digest l) = 32;
  xxh_bytes l : Forall is_byte (xxh3_64_digest l);
  sha_bytes l : Forall is_byte (sha2_512_256_digest l)
}.

Section image.
Context (xxh3_64_digest sha2_512_256_digest : list Z -> list Z) `{!Digests xxh3_64_digest sha2_512_256_digest}.
#[local] Abbreviation header := (header xxh3_64_digest sha2_512_256_digest).
#[local] Abbreviation body := (body xxh3_64_digest sha2_512_256_digest).
#[local] Abbreviation section_bytes := (section_bytes xxh3_64_digest sha2_512_256_digest).
#[local] Abbreviation read_section := (read_section xxh3_64_digest sha2_512_256_digest).

(** A section the writer may be given: a copy has a header that fits its data,
    with the checksums of the data. *)
Record block_ok (b : fsblock) : Prop := {
  bo_type : in_u 16 (fb_type b);
  bo_compression : in_u 16 (fb_compression b);
  bo_size : in_u 63 (zlen (fb_data b));
  bo_data : Forall is_byte (fb_data b);
  bo_sec : forall s, fb_sec b = Some s ->
    type s = fb_type b /\ compression s = fb_compression b /\ length_ s = zlen (fb_data b) /\
    xxh3_64 s = xxh3_64_digest (header_numbers s ++ fb_data b) /\
    sha2_512_256 s = sha2_512_256_digest (header_tail s ++ fb_data b)
}.

(** The header of a section has the checksums of the section. *)
Record header_of (n : Z) (b : fsblock) (h : section_header_v2) : Prop := {
  ho_magic : magic h = magic_chars;
  ho_major : major h = MAJOR_VERSION;
  ho_minor : minor h = MINOR_VERSION;
  ho_number : number h = n;
  ho_type : type h = fb_type b;
  ho_compression : compression h = fb_compression b;
  ho_length : length_ h = zlen (fb_data b);
  ho_xxh : xxh3_64 h = xxh3_64_digest (header_numbers h ++ fb_data b);
  ho_sha : sha2_512_256 h = sha2_512_256_digest (header_tail h ++ fb_data b)
}.

Lemma header_spec n b : block_ok b -> header_of n b (header n b).
Proof.
  intros [_ _ _ _ Hsec]. unfold FilesystemWriter.header, build_section_header.
  destruct (fb_sec b) as [s|] eqn:E; [|by split].
  destruct (Hsec s eq_refl) as (Ht & Hc & Hl & Hx & Hs).
  destruct (Z.eqb_spec (FsSection.number s) n) as [<-|]; [|by split].
  split; try done; unfold header_tail, header_numbers in *; cbn; rewrite <- Hl, <- Ht, <- Hc; done.
Qed.

Lemma header_ok_of n b h : block_ok b -> in_u 32 n -> header_of n b h -> header_ok h.
Proof.
  intros [] Hn []. split; try congruence.
  - by rewrite ho_magic0.
  - by rewrite ho_major0.
  - by rewrite ho_minor0.
  - by rewrite ho_sha0, sha_size.
  - by rewrite ho_xxh0, xxh_size.
  - rewrite ho_length0. unfold in_u in *. pose proof (Z.pow_lt_mono_r 2 63 64). lia.
Qed.

Lemma wrapu32_in n : in_u 32 (wrapu 32 n).
Proof. by apply wrapu_range. Qed.

Lemma section_bytes_length n b : block_ok b -> zlen (section_bytes n b) = 64 + zlen (fb_data b).
Proof.
  intros Hb. unfold FilesystemWriter.section_bytes. rewrite zlen_app.
  rewrite zlen_header_bytes by (eapply header_ok_of; [done|apply wrapu32_in|by apply header_spec]). done.
Qed.

(** What a section of the image is: its type, and what is read of it, with
    both checks passed; also after it has been read. *)
Definition reads_as (mm : list Z) (n : Z) (b : fsblock) (s : fs_section) : Prop :=
  section_type s = fb_type b /\ section_length s = zlen (fb_data b) /\
  section_start s + section_length s <= zlen mm /\
  slice mm (section_start s) (section_length s) = fb_data b /\
  exists s', read_section mm s =
      (Ok (SectionInfo (fb_compression b) (Some (wrapu 32 n)) (fb_data b) true true), s') /\
    read_section mm s' = (Ok (SectionInfo (fb_compression b) (Some (wrapu 32 n)) (fb_data b) true true), s').

Section at_.
Context (pre post : list Z) (n : Z) (b : fsblock) (Hb : block_ok b).
#[local] Abbreviation mm := (pre ++ section_bytes n b ++ post).
Context (Hmm : Forall is_byte mm) (Hlen : zlen mm < 2 ^ 63 - 1).
#[local] Abbreviation sec := (SectionV2 (zlen pre + 64) (header (wrapu 32 n) b) unknown).

Lemma section_header_at : slice mm (zlen pre) sizeof_section_header_v2 = section_header_v2_bytes (header (wrapu 32 n) b).
Proof.
  erewrite slice_skip by (reflexivity || (pose proof (zlen_nonneg pre); lia)). rewrite Z.sub_diag.
  unfold FilesystemWriter.section_bytes. rewrite <- app_assoc. apply slice_head; [done|].
  apply zlen_header_bytes. eapply header_ok_of; [done|apply wrapu32_in|by apply header_spec].
Qed.

Lemma create_at image_end : zlen pre + 64 + zlen (fb_data b) <= image_end <= zlen mm ->
  fs_section_v2_create mm (zlen pre) image_end = Ok sec.
Proof.
  intros He. apply (v2_create_ok _ Hmm Hlen). split; [lia|]. split; [apply zlen_nonneg|].
  rewrite section_header_at. pose proof (header_spec (wrapu 32 n) b Hb) as Hh.
  rewrite <- (app_nil_r (section_header_v2_bytes _)).
  rewrite section_header_v2_of_bytes by (eapply header_ok_of; [done|apply wrapu32_in|done]).
  split; [done|]. cbn [v2_hdr]. rewrite (ho_length _ _ _ Hh). unfold sizeof_section_header_v2. lia.
Qed.

Lemma v2_info_at s : s = sec \/ s = SectionV2 (zlen pre + 64) (header (wrapu 32 n) b) passed ->
  v2_info xxh3_64_digest sha2_512_256_digest mm s =
    (SectionInfo (fb_compression b) (Some (wrapu 32 n)) (fb_data b) true true,
     SectionV2 (zlen pre + 64) (header (wrapu 32 n) b) passed).
Proof.
  intros Hs. pose proof (header_spec (wrapu 32 n) b Hb) as Hh.
  assert (header_ok (header (wrapu 32 n) b)) as Hok by (eapply header_ok_of; [done|apply wrapu32_in|done]).
  assert (v2_segment mm s = section_bytes n b) as Hseg.
  { unfold v2_segment, segment_at, sizeof_section_header_v2.
    assert (v2_start s = zlen pre + 64 /\ v2_hdr s = header (wrapu 32 n) b) as [-> ->] by (by destruct Hs as [->| ->]).
    rewrite (ho_length _ _ _ Hh). pose proof (zlen_nonneg pre). pose proof (zlen_nonneg post). pose proof (zlen_nonneg (fb_data b)).
    rewrite !zlen_app, section_bytes_length by done.
    replace ((_ <? 0) || _ || _) with false by lia.
    rewrite (slice_skip _ _ _ _ (zlen pre)) by lia. apply slice_head; [lia|]. rewrite section_bytes_length by done. lia. }
  assert (drop (Z.to_nat offsetof_number) (section_bytes n b) = header_numbers (header (wrapu 32 n) b) ++ fb_data b /\
    drop (Z.to_nat offsetof_xxh3_64) (section_bytes n b) = header_tail (header (wrapu 32 n) b) ++ fb_data b /\
    v2_data (section_bytes n b) = fb_data b) as (D1 & D2 & D3).
  { unfold v2_data. pose proof (zlen_header_bytes _ Hok) as Hz. destruct Hok.
    unfold FilesystemWriter.section_bytes in *. split_and!.
    - unfold section_header_v2_bytes, header_tail. rewrite !app_assoc. rewrite <- (app_assoc _ _ (fb_data b)).
      apply drop_app_length'. unfold offsetof_number, zlen in *. rewrite !length_app, !length_le_bytes. lia.
    - unfold section_header_v2_bytes. rewrite !app_assoc. rewrite <- (app_assoc _ _ (fb_data b)).
      apply drop_app_length'. unfold offsetof_xxh3_64, zlen in *. rewrite !length_app, !length_le_bytes. lia.
    - apply drop_app_length'. unfold sizeof_section_header_v2, zlen in *. lia. }
  assert (v2_hdr s = header (wrapu 32 n) b /\ v2_start s = zlen pre + 64) as [Eh Es] by (by destruct Hs as [->| ->]).
  assert (checker_check xxh3_64_digest s (section_bytes n b) = true) as Hcheck.
  { unfold checker_check. rewrite D1, Eh, (ho_xxh _ _ _ Hh). by apply bool_decide_true. }
  assert (checker_verify sha2_512_256_digest s (section_bytes n b) = true) as Hverify.
  { unfold checker_verify. rewrite D2, Eh, (ho_sha _ _ _ Hh). by apply bool_decide_true. }
  unfold v2_info. rewrite Hseg. unfold v2_check_fast.
  destruct Hs as [->| ->]; cbn [v2_state]; rewrite ?Hcheck; unfold checker_verify in *; cbn [v2_hdr v2_start] in *;
    rewrite Hverify, D3, (ho_compression _ _ _ Hh), (ho_number _ _ _ Hh); done.
Qed.

Lemma data_at : slice mm (zlen pre + 64) (zlen (fb_data b)) = fb_data b.
Proof.
  pose proof (zlen_nonneg pre). erewrite slice_skip by (reflexivity || lia). replace (zlen pre + 64 - zlen pre) with 64 by lia.
  unfold FilesystemWriter.section_bytes. rewrite <- app_assoc.
  rewrite (slice_skip _ _ _ _ 64); [|by apply zlen_header_bytes; eapply header_ok_of; [done|apply wrapu32_in|by apply header_spec]|lia].
  by apply slice_head.
Qed.

Lemma at_end : zlen pre + 64 + zlen (fb_data b) <= zlen mm.
Proof. rewrite !zlen_app, section_bytes_length by done. pose proof (zlen_nonneg post). lia. Qed.

Lemma reads_as_at : reads_as mm n b (impl_v2 sec).
Proof.
  pose proof (header_spec (wrapu 32 n) b Hb) as Hh. unfold reads_as. cbn [section_type section_length section_start v2_start v2_hdr].
  rewrite (ho_type _ _ _ Hh), (ho_length _ _ _ Hh), data_at. split_and!; [done..|apply at_end|done|].
  exists (impl_v2 (SectionV2 (zlen pre + 64) (header (wrapu 32 n) b) passed)).
  unfold FsSection.read_section. by rewrite !v2_info_at by auto.
Qed.

Lemma reads_as_lazy image_end : zlen pre + 64 + zlen (fb_data b) <= image_end <= zlen mm ->
  reads_as mm n b (impl_v2_lazy (SectionV2Lazy (fb_type b) (zlen pre) (zlen (section_bytes n b)) image_end None)).
Proof.
  intros He. unfold reads_as. cbn [section_type section_length section_start lazy_type lazy_offset lazy_size].
  rewrite section_bytes_length by done. unfold sizeof_section_header_v2.
  replace (64 + zlen (fb_data b) - 64) with (zlen (fb_data b)) by lia.
  split_and!; [done..|apply at_end|apply data_at|].
  eexists. unfold FsSection.read_section, lazy_section. cbn [lazy_sec lazy_offset lazy_image_end].
  rewrite create_at by done. rewrite v2_info_at by auto. split; [done|]. cbn [lazy_sec]. by rewrite v2_info_at by auto.
Qed.
End at_.

(** *** Scanning *)

Lemma scan_written bs : forall pre n p fuel, Forall block_ok bs ->
  let mm := pre ++ body n bs in
  Forall is_byte mm -> zlen mm < 2 ^ 63 - 1 ->
  mm_ p = mm -> index_ p = [] -> header_version_ p = 2 -> parser_offset_ p = zlen pre -> image_end p = zlen mm ->
  (length bs < fuel)%nat ->
  exists ss p', read_sections fuel p = (Ok ss, p') /\ length ss = length bs /\
    forall i b s, bs !! i = Some b -> ss !! i = Some s -> reads_as mm (n + Z.of_nat i) b s.
Proof.
  induction bs as [|b bs IH]; intros pre n p fuel Hbs mm Hmm Hlen Em Ei Ev Eo Ee Hf; (destruct fuel as [|fuel]; [cbn in Hf; lia|]);
    cbn [read_sections]; unfold abind at 1; unfold next_section; rewrite abind_get, Ei, bool_decide_true by done;
    fold (image_end p); rewrite Eo, Ee.
  - unfold mm. cbn [FilesystemWriter.body]. rewrite app_nil_r. replace (zlen pre <? zlen pre) with false by lia.
    exists [], p. split; [done|]. split; [done|]. intros i b s H. by rewrite lookup_nil in H.
  - apply Forall_cons in Hbs as [Hb Hbs]. unfold mm in *. cbn [FilesystemWriter.body] in *.
    assert (zlen (pre ++ section_bytes n b ++ body (n + 1) bs) = zlen pre + 64 + zlen (fb_data b) + zlen (body (n + 1) bs)) as Ez
      by (rewrite !zlen_app, section_bytes_length by done; lia).
    pose proof (zlen_nonneg (fb_data b)). pose proof (zlen_nonneg (body (n + 1) bs)).
    replace (zlen pre <? _) with true by lia. rewrite Em, Ev. unfold fs_section_create. cbn [Z.eqb Pos.eqb].
    rewrite create_at by (done || lia). cbn [rbind]. unfold abind at 1, put. cbn [ret].
    pose proof (header_spec (wrapu 32 n) b Hb) as Hh.
    assert (section_end (impl_v2 (SectionV2 (zlen pre + 64) (header (wrapu 32 n) b) unknown)) = zlen (pre ++ section_bytes n b)) as Eend.
    { unfold section_end. cbn. rewrite (ho_length _ _ _ Hh), zlen_app, section_bytes_length by done. lia. }
    rewrite Eend. rewrite app_assoc in Hmm, Hlen, Em, Ez |- *.
    destruct (IH (pre ++ section_bytes n b) (n + 1) (set_offset (zlen (pre ++ section_bytes n b)) p) fuel Hbs Hmm Hlen)
      as (ss & p' & Er & El & Hs); [done..|by unfold image_end in *; cbn; rewrite Ee, app_assoc|cbn in Hf; lia|].
    unfold abind. rewrite Er. eexists _, p'. split; [done|]. split; [cbn; lia|].
    intros [|i] b' s Hb' Hs'; cbn in Hb', Hs'.
    + injection Hb' as <-. injection Hs' as <-. rewrite Z.add_0_r, <- app_assoc. apply reads_as_at; [done|..]; by rewrite app_assoc.
    + replace (n + Z.of_nat (S i)) with (n + 1 + Z.of_nat i) by lia. by eapply Hs.
Qed.

(** *** The index *)

(** The entries of all sections from [pos]. *)
Fixpoint all_entries (n pos : Z) (bs : list fsblock) : list Z :=
  match bs with
  | [] => []
  | b :: bs => index_entry (fb_type b) pos :: all_entries (n + 1) (pos + zlen (section_bytes n b)) bs
  end.

Lemma index_entries_all n pos bs : Forall (fun b => fb_type b <> SECTION_INDEX) bs ->
  index_entries xxh3_64_digest sha2_512_256_digest n pos bs = all_entries n pos bs.
Proof.
  intros H. revert n pos. induction H as [|b bs Hb _ IH]; intros n pos; [done|].
  cbn [index_entries all_entries]. by rewrite (proj2 (Z.eqb_neq _ _) Hb), IH.
Qed.

Lemma all_entries_app n pos a b :
  all_entries n pos (a ++ b) = all_entries n pos a ++ all_entries (n + zlen a) (pos + zlen (body n a)) b.
Proof.
  revert n pos. induction a as [|x a IH]; intros n pos.
  { cbn [app all_entries FilesystemWriter.body]. change (zlen (@nil Z)) with 0. change (zlen (@nil fsblock)) with 0. by rewrite !Z.add_0_r. }
  cbn [app all_entries FilesystemWriter.body]. rewrite IH. do 2 f_equal. rewrite zlen_app. f_equal; [unfold zlen; cbn [length]; lia|lia].
Qed.

Lemma length_all_entries n pos bs : length (all_entries n pos bs) = length bs.
Proof. revert n pos. induction bs as [|b bs IH]; intros; [done|]. cbn. by rewrite IH. Qed.

Lemma index_entry_spec t pos : in_u 16 t -> 0 <= pos < 2 ^ 48 ->
  Z.shiftr (index_entry t pos) 48 = t /\ Z.land (index_entry t pos) section_offset_mask = pos /\ in_u 64 (index_entry t pos).
Proof.
  intros Ht Hp. unfold in_u in Ht. unfold index_entry. rewrite Z.shiftl_mul_pow2 by lia.
  rewrite !wrapu_small by (unfold in_u; change (2 ^ 64) with (2 ^ 16 * 2 ^ 48); nia).
  rewrite <- Z.shiftl_mul_pow2 by lia. rewrite Z.lor_comm, lor_shiftl_add by lia.
  unfold section_offset_mask. rewrite land_ones_mod, Z.shiftr_div_pow2 by lia. split_and!.
  - rewrite Z.div_add, Z.div_small by lia. lia.
  - rewrite Z_mod_plus_full. apply Z.mod_small. lia.
  - unfold in_u. change (2 ^ 64) with (2 ^ 16 * 2 ^ 48). nia.
Qed.

Lemma all_entries_in n pos bs : Forall block_ok bs -> 0 <= pos -> pos + zlen (body n bs) < 2 ^ 48 ->
  Forall (in_u 64) (all_entries n pos bs).
Proof.
  intros H. revert n pos. induction H as [|b bs Hb _ IH]; intros n pos Hp Hl; [constructor|].
  cbn [FilesystemWriter.body all_entries] in *. rewrite zlen_app in Hl.
  pose proof (zlen_nonneg (body (n + 1) bs)). pose proof (zlen_nonneg (section_bytes n b)).
  constructor; [apply index_entry_spec; [apply Hb|lia]|apply IH; lia].
Qed.

Lemma sorted_cons a b l : is_sorted_by_offset (a :: b :: l) =
  negb (Z.land b section_offset_mask <? Z.land a section_offset_mask) && is_sorted_by_offset (b :: l).
Proof. done. Qed.

Lemma all_entries_sorted n pos bs : Forall block_ok bs -> 0 <= pos -> pos + zlen (body n bs) < 2 ^ 48 ->
  is_sorted_by_offset (all_entries n pos bs) = true.
Proof.
  intros H. revert n pos. induction H as [|b bs Hb Hbs IH]; intros n pos Hp Hl; [done|].
  cbn [FilesystemWriter.body all_entries] in *. rewrite zlen_app in Hl.
  pose proof (zlen_nonneg (body (n + 1) bs)). pose proof (zlen_nonneg (section_bytes n b)).
  specialize (IH (n + 1) (pos + zlen (section_bytes n b)) ltac:(lia) ltac:(lia)).
  destruct Hbs as [|b' bs Hb' Hbs]; [done|]. cbn [all_entries] in *. rewrite sorted_cons.
  rewrite IH, andb_true_r. cbn [FilesystemWriter.body] in *. rewrite zlen_app in *.
  pose proof (zlen_nonneg (section_bytes (n + 1) b')). pose proof (zlen_nonneg (body (n + 1 + 1) bs)).
  destruct (index_entry_spec (fb_type b) pos) as (_ & -> & _); [apply Hb|lia|].
  destruct (index_entry_spec (fb_type b') (pos + zlen (section_bytes n b))) as (_ & -> & _); [apply Hb'|lia|].
  apply negb_true_iff. lia.
Qed.

Lemma u64_values_bytes es : Forall (in_u 64) es -> u64_values (length es) (concat (map (le_bytes 8) es)) = es.
Proof.
  induction 1 as [|e es He _ IH]; [done|]. cbn [u64_values length map concat].
  rewrite slice_head by (done || by apply zlen_le_bytes). rewrite le_value_field by done.
  rewrite drop_app_length' by (by rewrite length_le_bytes). by rewrite IH.
Qed.

Lemma zlen_entries_bytes es : zlen (concat (map (le_bytes 8) es)) = 8 * zlen es.
Proof.
  induction es as [|e es IH]; [done|]. cbn [map concat]. rewrite zlen_app, IH, (zlen_le_bytes 8 e 8) by done.
  unfold zlen. cbn [length]. lia.
Qed.

(** Reading by the index, from one of its entries. *)
Lemma scan_index hdr bs : forall before done n pos p fuel, Forall block_ok bs ->
  let mm := hdr ++ before ++ body n bs in
  Forall is_byte mm -> zlen mm < 2 ^ 63 - 1 -> zlen before = pos -> pos + zlen (body n bs) < 2 ^ 48 ->
  mm_ p = mm -> index_ p = done ++ all_entries n pos bs -> done ++ all_entries n pos bs <> [] -> header_version_ p = 2 ->
  parser_offset_ p = zlen done -> image_offset_ p = zlen hdr -> FilesystemParser.image_size_ p = pos + zlen (body n bs) ->
  (length bs < fuel)%nat ->
  exists ss p', read_sections fuel p = (Ok ss, p') /\ length ss = length bs /\
    forall i b s, bs !! i = Some b -> ss !! i = Some s -> reads_as mm (n + Z.of_nat i) b s.
Proof.
  induction bs as [|b bs IH]; intros before dn n pos p fuel Hbs mm Hmm Hlen Hpos Hsz Em Ei Ene Ev Eo Eh Es Hf;
    (destruct fuel as [|fuel]; [cbn in Hf; lia|]);
    cbn [read_sections]; unfold abind at 1; unfold next_section; rewrite abind_get;
    rewrite (bool_decide_false (index_ p = [])) by (by rewrite Ei); rewrite Eo, Ei.
  - rewrite app_nil_r. replace (zlen dn <? zlen dn) with false by lia.
    exists [], p. split; [done|]. split; [done|]. intros i b s H. by rewrite lookup_nil in H.
  - apply Forall_cons in Hbs as [Hb Hbs]. unfold mm in *. cbn [FilesystemWriter.body all_entries] in *.
    pose proof (zlen_nonneg (fb_data b)) as Hd. pose proof (zlen_nonneg (body (n + 1) bs)) as Hrest. pose proof (zlen_nonneg before).
    pose proof (section_bytes_length n b Hb) as Hsb. pose proof (zlen_nonneg dn). pose proof (zlen_nonneg hdr).
    rewrite zlen_app in Hsz, Es.
    assert (zlen (dn ++ index_entry (fb_type b) pos :: all_entries (n + 1) (pos + zlen (section_bytes n b)) bs) =
      zlen dn + 1 + Z.of_nat (length bs)) as Ezi.
    { rewrite zlen_app. unfold zlen at 2. cbn [length]. rewrite length_all_entries. lia. }
    rewrite Ezi. replace (zlen dn <? _) with true by lia.
    assert (forall x l, (dn ++ x :: l) !! Z.to_nat (zlen dn) = Some x) as Hl1.
    { intros x l. rewrite lookup_app_r by (unfold zlen; lia). by replace (Z.to_nat (zlen dn) - length dn)%nat with 0%nat by (unfold zlen; lia). }
    rewrite Hl1. cbn [default from_option id].
    destruct (index_entry_spec (fb_type b) pos) as (E1 & E2 & _); [apply Hb|lia|].
    unfold abind at 1, put. rewrite E1, E2, Ev.
    assert ((if zlen dn + 1 <? zlen dn + 1 + Z.of_nat (length bs)
      then Z.land (default 0 ((dn ++ index_entry (fb_type b) pos :: all_entries (n + 1) (pos + zlen (section_bytes n b)) bs) !! Z.to_nat (zlen dn + 1))) section_offset_mask
      else FilesystemParser.image_size_ p) = pos + zlen (section_bytes n b)) as ->.
    { destruct bs as [|b' bs].
      - change (Z.of_nat (length (@nil fsblock))) with 0. rewrite Z.add_0_r, Z.ltb_irrefl. rewrite Es. cbn [FilesystemWriter.body]. change (zlen (@nil Z)) with 0. lia.
      - rewrite (proj2 (Z.ltb_lt (zlen dn + 1) (zlen dn + 1 + Z.of_nat (length (b' :: bs))))) by (cbn [length]; lia). cbn [all_entries].
        change (?x :: ?y :: ?l) with ([x] ++ y :: l). rewrite app_assoc.
        rewrite lookup_app_r by (rewrite length_app; unfold zlen; cbn [length]; lia).
        replace (Z.to_nat (zlen dn + 1) - length (dn ++ [index_entry (fb_type b) pos]))%nat with 0%nat
          by (rewrite length_app; unfold zlen; cbn [length]; lia).
        cbn [lookup list_lookup default from_option id].
        apply Forall_cons in Hbs as [Hb' _]. cbn [FilesystemWriter.body] in *. rewrite zlen_app in *.
        pose proof (zlen_nonneg (section_bytes (n + 1) b')). pose proof (zlen_nonneg (body (n + 1 + 1) bs)).
        apply index_entry_spec; [apply Hb'|lia]. }
    rewrite !wrapu_small; [|unfold in_u; change (2 ^ 64) with (2 ^ 16 * 2 ^ 48); lia|apply Hb].
    unfold fs_section_create_lazy. cbn [Z.eqb Pos.eqb]. cbn [ret].
    assert (image_end p = zlen (hdr ++ before ++ section_bytes n b ++ body (n + 1) bs)) as Eend.
    { unfold image_end. rewrite Eh, Es, !zlen_app. lia. }
    rewrite Eend. replace (pos + zlen (section_bytes n b) - pos) with (zlen (section_bytes n b)) by lia.
    rewrite Eh.
    set (mm' := hdr ++ before ++ section_bytes n b ++ body (n + 1) bs) in *.
    destruct (IH (before ++ section_bytes n b) (dn ++ [index_entry (fb_type b) pos]) (n + 1) (pos + zlen (section_bytes n b))
      (set_offset (zlen dn + 1) p) fuel Hbs) as (ss & p' & Er & El & Hs).
    all: rewrite <- ?app_assoc; try done.
    { rewrite zlen_app. lia. }
    { lia. }
    { cbn. by rewrite zlen_app. }
    { cbn. rewrite Es. lia. }
    { cbn in Hf. lia. }
    unfold abind. rewrite Er. eexists _, p'. split; [done|]. split; [cbn; lia|].
    intros [|i] b' s Hb' Hs'; cbn in Hb', Hs'.
    + injection Hb' as <-. injection Hs' as <-. rewrite Z.add_0_r. unfold mm' in *. rewrite !(app_assoc hdr before) in *.
      rewrite <- Hpos, <- zlen_app. apply reads_as_lazy; [done..|]. split; [apply at_end; done|lia].
    + replace (n + Z.of_nat (S i)) with (n + 1 + Z.of_nat i) by lia. rewrite <- app_assoc in Hs. by eapply Hs.
Qed.

(** *** Finding the image *)

Section finding.
Context (hdr : list Z) (b0 b1 : fsblock) (bs : list fsblock) (rest : list Z).
#[local] Abbreviation mm := (hdr ++ section_bytes 0 b0 ++ section_bytes 1 b1 ++ rest).
Context (Hb0 : block_ok b0) (Hb1 : block_ok b1) (Hrest : 0 < zlen (fb_data b1) + zlen rest).
Context (Hmm : Forall is_byte mm) (Hlen : zlen mm < 2 ^ 63 - 1).
Context (Hfirst : forall i, 0 <= i < zlen hdr -> ~ magic_at mm i).

Lemma mm_length : zlen mm = zlen hdr + 64 + zlen (fb_data b0) + 64 + zlen (fb_data b1) + zlen rest.
Proof. rewrite !zlen_app, !section_bytes_length by done. lia. Qed.

Lemma first_header_at : section_header_v2_of (slice mm (zlen hdr) 64) = header 0 b0.
Proof.
  pose proof (section_header_at hdr (section_bytes 1 b1 ++ rest) 0 b0 Hb0) as H.
  change sizeof_section_header_v2 with 64 in H. change (wrapu 32 0) with 0 in H. rewrite H.
  rewrite <- (app_nil_r (section_header_v2_bytes _)). apply section_header_v2_of_bytes.
  apply (header_ok_of 0 b0); [done|by apply (wrapu32_in 0)|by apply header_spec].
Qed.

Lemma second_header_at : section_header_v2_of (slice mm (zlen hdr + (64 + zlen (fb_data b0))) 64) = header 1 b1.
Proof.
  pose proof (section_header_at (hdr ++ section_bytes 0 b0) rest 1 b1 Hb1) as H.
  change sizeof_section_header_v2 with 64 in H. change (wrapu 32 1) with 1 in H.
  rewrite zlen_app, section_bytes_length, <- app_assoc in H by done. rewrite H.
  rewrite <- (app_nil_r (section_header_v2_bytes _)). apply section_header_v2_of_bytes.
  apply (header_ok_of 1 b1); [done|by apply (wrapu32_in 1)|by apply header_spec].
Qed.

Lemma header_bytes_start n b : block_ok b -> in_u 32 n ->
  slice (section_header_v2_bytes (header n b)) 0 7 = kMagic /\ slice (section_header_v2_bytes (header n b)) 0 8 = kMagic ++ [MINOR_VERSION].
Proof.
  intros Hb Hn. destruct (header_spec n b Hb) as [Hm Hma Hmi _ _ _ _ _ _].
  unfold section_header_v2_bytes. rewrite Hm, Hma, Hmi. done.
Qed.

Lemma magic_at_image : slice mm (zlen hdr) 7 = kMagic /\ slice mm (zlen hdr) 8 = kMagic ++ [MINOR_VERSION].
Proof.
  pose proof (section_header_at hdr (section_bytes 1 b1 ++ rest) 0 b0 Hb0) as H. change (wrapu 32 0) with 0 in H.
  assert (forall n, 0 <= n <= 64 -> slice mm (zlen hdr) n = slice (section_header_v2_bytes (header 0 b0)) 0 n) as E.
  { intros n Hn. rewrite <- H. rewrite slice_slice by (unfold sizeof_section_header_v2; pose proof (zlen_nonneg hdr); lia). by rewrite Z.add_0_r. }
  rewrite !E by lia. apply header_bytes_start; [done|by apply (wrapu32_in 0)].
Qed.

(** In a segment that starts before the image: found, when its first header
    lies in the segment. *)
Lemma search_in_segment o n : 0 <= o <= zlen hdr -> 0 < n -> o + n <= zlen mm ->
  search_image_in_segment mm (FileRange o n) = Ok (if zlen hdr + 64 <? o + n then zlen hdr - o else -1).
Proof.
  intros Ho Hn Hon. pose proof mm_length as Hz. pose proof magic_at_image as [Hmag Hmag8].
  unfold search_image_in_segment. cbn [offset_ size_].
  set (seg := slice mm o n). assert (zlen seg = n) as Hseg by (apply slice_length; lia).
  assert (forall i k, 0 <= i -> 0 <= k -> i + k <= n -> slice seg i k = slice mm (o + i) k) as Hsl.
  { intros i k Hi Hk Hik. unfold seg. by rewrite slice_slice by lia. }
  assert (length mm = S (pred (length mm)) ) as -> by (unfold zlen in *; lia). cbn [search_segment].
  change (zlen kMagic) with 7. rewrite Hseg. change (0 + 7) with 7. rewrite drop_0, Hseg.
  destruct (Z.ltb_spec 7 n); cbn [negb].
  2: { replace (zlen hdr + 64 <? o + n) with false by lia. done. }
  pose proof (search_dwarfs_header_spec seg) as [(F1 & F2 & F3 & F4)|[F1 F2]].
  2: { rewrite F1, Hseg. replace (n <=? n) with true by lia. destruct (Z.ltb_spec (zlen hdr + 64) (o + n)); [|done].
       exfalso. apply (F2 (zlen hdr - o)); [lia|]. unfold magic_at. rewrite Hsl by lia.
       by replace (o + (zlen hdr - o)) with (zlen hdr) by lia. }
  set (dp := search_dwarfs_header seg) in *. rewrite Hseg in F3.
  replace (n <=? dp) with false by lia. rewrite Z.add_0_l.
  assert (zlen hdr <= o + dp) as Hge.
  { destruct (decide (zlen hdr <= o + dp)); [done|]. exfalso. apply (Hfirst (o + dp)); [lia|].
    unfold magic_at in *. by rewrite Hsl in F1 by lia. }
  destruct (decide (o + dp = zlen hdr)) as [Heq|Hne].
  2: { assert (zlen hdr < o + dp) by lia. exfalso. apply (F4 (zlen hdr - o)); [lia|].
       unfold magic_at. rewrite Hsl by lia. by replace (o + (zlen hdr - o)) with (zlen hdr) by lia. }
  destruct (Z.leb_spec n (dp + sizeof_file_header)) as [H8|H8]; unfold sizeof_file_header in H8.
  { by replace (zlen hdr + 64 <? o + n) with false by lia. }
  assert (fh_minor (file_header_of (slice seg dp sizeof_file_header)) = MINOR_VERSION) as ->.
  { unfold sizeof_file_header. rewrite Hsl by lia. by rewrite Heq, Hmag8. }
  change (MINOR_VERSION <? 2) with false. cbn match. unfold check_v2_image. change sizeof_section_header_v2 with 64. rewrite Hseg.
  destruct (Z.leb_spec n (dp + 64)).
  { cbn [rbind]. by replace (zlen hdr + 64 <? o + n) with false by lia. }
  replace (zlen hdr + 64 <? o + n) with true by lia.
  rewrite Hsl, Heq, first_header_at by lia.
  pose proof (header_spec 0 b0 Hb0) as Hh0. pose proof (header_spec 1 b1 Hb1) as Hh1.
  rewrite (ho_number _ _ _ Hh0), (ho_length _ _ _ Hh0). change (0 =? 0) with true. cbn match.
  pose proof (zlen_nonneg (fb_data b0)). pose proof (zlen_nonneg hdr). pose proof (zlen_nonneg (fb_data b1)).
  rewrite wrapu_small by (unfold in_u; change (2 ^ 64) with (2 * 2 ^ 63); lia).
  replace (dp + zlen (fb_data b0) + 2 * 64 <? zlen (fb_data b0)) with false by lia.
  replace (zlen mm <=? dp + zlen (fb_data b0) + 2 * 64) with false by lia.
  rewrite wraps_small by (try lia; unfold in_s; change (2 ^ (64 - 1)) with (2 ^ 63); lia).
  unfold copy_to. replace (zlen hdr + zlen (fb_data b0) + 64 <? 0) with false by lia.
  replace (zlen mm <? zlen hdr + zlen (fb_data b0) + 64 + 64) with false by lia. cbn [rbind].
  replace (zlen hdr + zlen (fb_data b0) + 64) with (zlen hdr + (64 + zlen (fb_data b0))) by lia.
  rewrite second_header_at, (ho_magic _ _ _ Hh1), (ho_major _ _ _ Hh1), (ho_number _ _ _ Hh1).
  rewrite bool_decide_true by done. cbn. f_equal. lia.
Qed.

Lemma search_in_segments max fuel o : 64 < max -> 0 <= o <= zlen hdr -> zlen mm - o <= Z.of_nat fuel ->
  search_segments mm (segs_at (FileRange 0 (zlen mm)) max 64 fuel o) = Ok (Some (zlen hdr)).
Proof.
  intros Hmax. revert o. pose proof mm_length as Hz. pose proof (zlen_nonneg (fb_data b0)). pose proof (zlen_nonneg (fb_data b1)). pose proof (zlen_nonneg rest).
  induction fuel as [|fuel IH]; intros o Ho Hf; [lia|].
  rewrite segs_at_step by (cbn [size_]; lia). cbn [size_ search_segments]. unfold subrange. cbn [offset_]. rewrite Z.add_0_l.
  set (len := Z.min max (zlen mm - o)). rewrite search_in_segment by lia. cbn [rbind].
  destruct (Z.ltb_spec (zlen hdr + 64) (o + len)) as [H64|H64].
  - replace (0 <=? zlen hdr - o) with true by lia. do 2 f_equal. lia.
  - change (0 <=? -1) with false. cbn match. replace (o + len <? zlen mm) with true by lia. apply IH; lia.
Qed.

Lemma find_image_auto default_segment_size : 64 < default_segment_size ->
  find_image_offset mm default_segment_size [ExtentInfo data_extent (FileRange 0 (zlen mm))] IMAGE_OFFSET_AUTO = Ok (zlen hdr).
Proof.
  intros Hd. unfold find_image_offset. cbn [Z.eqb negb IMAGE_OFFSET_AUTO Pos.eqb search_extents ext_kind ext_range].
  pose proof (zlen_nonneg hdr).
  change (segments (FileRange 0 (zlen mm)) default_segment_size sizeof_section_header_v2) with
    (segs_at (FileRange 0 (zlen mm)) default_segment_size 64 (Z.to_nat (zlen mm)) 0).
  rewrite search_in_segments by lia. done.
Qed.
End finding.

(** *** Finding the index *)

Lemma body_size bs n : Forall block_ok bs -> 64 * zlen bs <= zlen (body n bs).
Proof.
  intros H. revert n. induction H as [|b bs Hb _ IH]; intros n; [done|]. cbn [FilesystemWriter.body].
  rewrite zlen_app, section_bytes_length by done. pose proof (zlen_nonneg (fb_data b)). specialize (IH (n + 1)).
  unfold zlen in *. cbn [length]. lia.
Qed.

#[local] Abbreviation section_index := (section_index xxh3_64_digest sha2_512_256_digest).

Section index.
Context (hdr : list Z) (bs : list fsblock) (Hbs : Forall block_ok bs) (Hty : Forall (fun b => fb_type b <> SECTION_INDEX) bs).
#[local] Abbreviation ix := (section_index bs).
#[local] Abbreviation mm := (hdr ++ body 0 (bs ++ [ix])).
Context (Hmm : Forall is_byte mm) (Hlen : zlen mm < 2 ^ 48).

Lemma entries_with_index : all_entries 0 0 (bs ++ [ix]) = all_entries 0 0 bs ++ [index_entry SECTION_INDEX (zlen (body 0 bs))].
Proof. by rewrite all_entries_app. Qed.

Lemma ix_data : fb_data ix = concat (map (le_bytes 8) (all_entries 0 0 (bs ++ [ix]))).
Proof. rewrite entries_with_index. cbn [FilesystemWriter.section_index fb_data]. by rewrite index_entries_all. Qed.

Lemma ix_size : zlen (fb_data ix) = 8 * (zlen bs + 1).
Proof.
  rewrite ix_data, zlen_entries_bytes. unfold zlen. rewrite length_all_entries, length_app. cbn [length]. lia.
Qed.

Lemma bs_small : zlen (body 0 bs) < 2 ^ 48.
Proof. rewrite zlen_app, body_app, zlen_app in Hlen. pose proof (zlen_nonneg hdr). pose proof (zlen_nonneg (body (0 + zlen bs) [ix])). lia. Qed.

Lemma ix_ok : block_ok ix.
Proof.
  split; [done|done| | |done].
  2: { rewrite ix_data. apply Forall_concat, Forall_map, Forall_true. intros e. apply le_bytes_is_byte. }
  rewrite ix_size. pose proof (body_size bs 0 Hbs). pose proof bs_small.
  unfold in_u. change (2 ^ 63) with (2 ^ 15 * 2 ^ 48). unfold zlen in *. lia.
Qed.

Lemma find_index_written :
  find_index xxh3_64_digest sha2_512_256_digest mm (zlen hdr) (zlen mm - zlen hdr) 2 =
    Ok (if zlen bs + 1 <? 3 then [] else all_entries 0 0 (bs ++ [ix])).
Proof.
  pose proof ix_ok as Hix. pose proof bs_small as Hsm. pose proof (zlen_nonneg hdr) as H0. pose proof (zlen_nonneg (body 0 bs)) as H1.
  set (e := index_entry SECTION_INDEX (zlen (body 0 bs))).
  destruct (index_entry_spec SECTION_INDEX (zlen (body 0 bs))) as (E1 & E2 & E3); [done|lia|]. fold e in E1, E2, E3.
  assert (exists X, mm = X ++ le_bytes 8 e) as [X HX].
  { rewrite body_app. cbn [FilesystemWriter.body]. unfold FilesystemWriter.section_bytes at 1. rewrite ix_data, entries_with_index, map_app, concat_app.
    cbn [map concat]. rewrite !app_nil_r. eexists. rewrite !app_assoc. done. }
  assert (zlen mm = zlen X + 8) as HzX by (by rewrite HX, zlen_app, (zlen_le_bytes 8 e 8)).
  assert (zlen mm = zlen hdr + zlen (body 0 bs) + 64 + zlen (fb_data ix)) as Hz.
  { rewrite body_app. cbn [FilesystemWriter.body]. rewrite app_nil_r, !zlen_app, section_bytes_length by done. lia. }
  unfold find_index, copy_to. replace (zlen hdr + (zlen mm - zlen hdr)) with (zlen mm) by lia.
  pose proof (zlen_nonneg X). pose proof (zlen_nonneg (fb_data ix)). replace (zlen mm - 8 <? 0) with false by lia. replace (zlen mm <? zlen mm - 8 + 8) with false by lia.
  cbn [rbind].
  assert (slice mm (zlen mm - 8) 8 = le_bytes 8 e) as ->.
  { rewrite HX at 1. rewrite (slice_skip _ _ _ _ (zlen X)) by lia. apply slice_whole; [lia|]. by rewrite (zlen_le_bytes 8 e 8). }
  rewrite le_value_field by done. rewrite E1. change (SECTION_INDEX =? SECTION_INDEX) with true. cbn [negb]. rewrite E2.
  rewrite wrapu_small by (unfold in_u; change (2 ^ 64) with (2 ^ 16 * 2 ^ 48); lia).
  replace (zlen mm <=? zlen (body 0 bs) + zlen hdr) with false by lia.
  rewrite wraps_small by (try lia; unfold in_s; change (2 ^ (64 - 1)) with (2 ^ 15 * 2 ^ 48); lia).
  assert (mm = (hdr ++ body 0 bs) ++ section_bytes (zlen bs) ix ++ []) as Emm.
  { rewrite body_app. cbn [FilesystemWriter.body]. rewrite Z.add_0_l. by rewrite <- app_assoc. }
  assert (zlen (body 0 bs) + zlen hdr = zlen (hdr ++ body 0 bs)) as -> by (rewrite zlen_app; lia).
  assert (zlen (hdr ++ body 0 bs) + 64 + zlen (fb_data ix) = zlen mm) as Hend by (rewrite zlen_app; lia).
  unfold fs_section_create. cbn [Z.eqb Pos.eqb]. rewrite Emm in Hmm, Hlen, Hend |- *. rewrite create_at by (done || lia). cbn [rbind].
  unfold FsSection.read_section. rewrite v2_info_at by auto. cbn [fst rbind section_type section_length v2_hdr].
  pose proof (header_spec (wrapu 32 (zlen bs)) ix Hix) as Hh. rewrite (ho_type _ _ _ Hh), (ho_length _ _ _ Hh).
  change (fb_type ix) with SECTION_INDEX. change (SECTION_INDEX =? SECTION_INDEX) with true.
  cbn [negb info_compression info_check_fast info_data]. change (fb_compression ix =? compression_NONE) with true. cbn [negb].
  rewrite ix_size, (Z.mul_comm 8), Z_mod_mult, Z.div_mul by lia. change (0 =? 0) with true. cbn [negb].
  destruct (Z.ltb_spec (zlen bs + 1) 3); [done|].
  assert (Z.to_nat (zlen bs + 1) = length (all_entries 0 0 (bs ++ [ix]))) as ->.
  { rewrite length_all_entries, length_app. unfold zlen. cbn [length]. lia. }
  rewrite ix_data.
  assert (Forall block_ok (bs ++ [ix])) as Hall by (apply Forall_app; split; [done|by constructor]).
  assert (0 + zlen (body 0 (bs ++ [ix])) < 2 ^ 48) as Hsz.
  { rewrite body_app. cbn [FilesystemWriter.body]. rewrite app_nil_r, zlen_app, section_bytes_length by done. rewrite <- Emm in Hlen. lia. }
  rewrite u64_values_bytes by (by apply all_entries_in). rewrite all_entries_sorted by done. cbn [negb].
  destruct bs as [|b bs']; [done|]. cbn [app all_entries head default from_option id].
  apply Forall_cons in Hbs as [Hb _]. destruct (index_entry_spec (fb_type b) 0) as (_ & -> & _); [apply Hb|lia|]. done.
Qed.
End index.

(** *** The bytes of the image *)

Lemma section_bytes_is_byte n b : block_ok b -> Forall is_byte (section_bytes n b).
Proof.
  intros Hb. destruct (header_spec (wrapu 32 n) b Hb).
  unfold FilesystemWriter.section_bytes, section_header_v2_bytes, header_tail, header_numbers.
  rewrite ho_magic0, ho_xxh0, ho_sha0. rewrite !Forall_app. split_and!; try apply le_bytes_is_byte.
  - unfold magic_chars. rewrite !Forall_cons. by split_and!.
  - apply sha_bytes.
  - apply xxh_bytes.
  - apply bo_data, Hb.
Qed.

Lemma body_is_byte n bs : Forall block_ok bs -> Forall is_byte (body n bs).
Proof.
  intros H. revert n. induction H as [|b bs Hb _ IH]; intros n; [constructor|]. cbn [FilesystemWriter.body].
  apply Forall_app. split; [by apply section_bytes_is_byte|apply IH].
Qed.

(** *** Opening the image *)

(** Where the parser is told to look: at the image, or anywhere, when the
    header in front of it does not look like an image itself. *)
Definition findable (hdr : list Z) (all : list fsblock) (default_segment_size : Z) (extents : list (extent_info extent_kind))
    (image_offset : Z) : Prop :=
  image_offset = zlen hdr \/
  (image_offset = IMAGE_OFFSET_AUTO /\ 64 < default_segment_size /\
   extents = [ExtentInfo data_extent (FileRange 0 (zlen (hdr ++ body 0 all)))] /\
   (forall i, 0 <= i < zlen hdr -> ~ magic_at (hdr ++ body 0 all) i) /\
   exists b0 b1 bs, all = b0 :: b1 :: bs /\ 0 < zlen (fb_data b1) + zlen (body 2 bs)).

(** An image without an index does not end like one with an index. *)
Definition no_index_at_end (mm : list Z) : Prop := Z.shiftr (le_value (slice mm (zlen mm - 8) 8)) 48 <> SECTION_INDEX.

Lemma image_read_back_spec hdr no_index bs default_segment_size extents image_offset image_size :
  Forall is_byte hdr -> Forall block_ok bs -> Forall (fun b => fb_type b <> SECTION_INDEX) bs -> bs <> [] ->
  let all := all_sections xxh3_64_digest sha2_512_256_digest no_index bs in
  let mm := hdr ++ body 0 all in
  zlen mm < 2 ^ 48 -> (no_index = true -> no_index_at_end mm) ->
  findable hdr all default_segment_size extents image_offset -> zlen mm - zlen hdr <= image_size ->
  exists p ss p',
    parser_create xxh3_64_digest sha2_512_256_digest mm default_segment_size extents image_offset image_size = Ok p /\
    image_offset_ p = zlen hdr /\
    read_sections (S (length mm)) p = (Ok ss, p') /\ length ss = length all /\
    forall i b s, all !! i = Some b -> ss !! i = Some s -> reads_as mm (Z.of_nat i) b s.
Proof.
  intros Hhdr Hbs Hty Hne all mm Hlen Hnoix Hfind Hsize.
  assert (Forall block_ok all) as Hall.
  { unfold all, all_sections. destruct no_index; [done|]. apply Forall_app. split; [done|]. constructor; [|done].
    by apply (ix_ok hdr). }
  assert (Forall is_byte mm) as Hmm by (apply Forall_app; split; [done|by apply body_is_byte]).
  assert (zlen mm < 2 ^ 63 - 1) as Hlen' by lia. pose proof (zlen_nonneg hdr) as H0.
  assert (exists b0 rest, all = b0 :: rest) as (b0 & rest & Eall).
  { destruct all as [|b0 rest] eqn:Eall; [|by eauto]. exfalso. unfold all, all_sections in Eall.
    destruct no_index; [done|]. by destruct bs. }
  assert (block_ok b0) as Hb0 by (rewrite Eall in Hall; by apply Forall_cons in Hall as [? _]).
  assert (mm = hdr ++ section_bytes 0 b0 ++ body 1 rest) as Emm by (unfold mm; by rewrite Eall).
  assert (zlen mm = zlen hdr + 64 + zlen (fb_data b0) + zlen (body 1 rest)) as Hz.
  { rewrite Emm, !zlen_app, section_bytes_length by done. lia. }
  pose proof (zlen_nonneg (fb_data b0)). pose proof (zlen_nonneg (body 1 rest)).
  assert (find_image_offset mm default_segment_size extents image_offset = Ok (zlen hdr)) as Hoff.
  { destruct Hfind as [->|(-> & Hseg & -> & Hfirst & c0 & c1 & cs & Ec & Hc)].
    - unfold find_image_offset, IMAGE_OFFSET_AUTO. by replace (zlen hdr =? -1) with false by lia.
    - unfold mm in *. rewrite Ec in *. apply Forall_cons in Hall as [Hc0 Hall]. apply Forall_cons in Hall as [Hc1 _].
      by apply (find_image_auto hdr c0 c1 (body 2 cs)). }
  unfold parser_create. rewrite Hoff. cbn [rbind]. rewrite Z.min_r by lia. unfold sizeof_file_header.
  replace (zlen mm - zlen hdr <? 8) with false by lia. unfold copy_to at 1.
  replace (zlen hdr <? 0) with false by lia. replace (zlen mm <? zlen hdr + 8) with false by lia. cbn [rbind].
  assert (slice mm (zlen hdr) 8 = kMagic ++ [MINOR_VERSION]) as ->.
  { pose proof (section_header_at hdr (body 1 rest) 0 b0 Hb0) as Hh. change (wrapu 32 0) with 0 in Hh. rewrite <- Emm in Hh.
    transitivity (slice (section_header_v2_bytes (header 0 b0)) 0 8).
    - rewrite <- Hh. rewrite slice_slice by (unfold sizeof_section_header_v2; lia). by rewrite Z.add_0_r.
    - by apply header_bytes_start. }
  change (file_header_of (kMagic ++ [MINOR_VERSION])) with (FileHeader magic_chars MAJOR_VERSION MINOR_VERSION).
  cbn [fh_magic fh_major fh_minor]. rewrite bool_decide_true by done.
  change (MAJOR_VERSION =? MAJOR_VERSION) with true. change (MINOR_VERSION_ACCEPTED <? MINOR_VERSION) with false.
  change (2 <=? MINOR_VERSION) with true. change (4 <=? MINOR_VERSION) with true. cbn [negb].
  set (img_size := zlen mm - zlen hdr) in *.
  assert (exists idx, find_index xxh3_64_digest sha2_512_256_digest mm (zlen hdr) img_size 2 = Ok idx /\
    (idx = [] \/ idx = all_entries 0 0 all)) as (idx & -> & Hidx).
  { unfold mm, all, all_sections in *. destruct no_index.
    - exists []. split; [|by left]. unfold find_index, copy_to. unfold img_size.
      set (m := hdr ++ body 0 bs) in *. replace (zlen hdr + (zlen m - zlen hdr)) with (zlen m) by lia.
      replace (zlen m - 8 <? 0) with false by lia. replace (zlen m <? zlen m - 8 + 8) with false by lia. cbn [rbind].
      specialize (Hnoix eq_refl). unfold no_index_at_end in Hnoix. by rewrite (proj2 (Z.eqb_neq _ _) Hnoix).
    - eexists. split; [by apply find_index_written|]. case_match; auto. }
  cbn [rbind]. eexists. 
  assert (zlen all <= zlen mm) as Hn.
  { pose proof (body_size all 0 Hall). unfold mm. rewrite zlen_app. pose proof (zlen_nonneg all). lia. }
  destruct Hidx as [->| ->].
  - destruct (scan_written all hdr 0 (rewind (Parser mm (zlen hdr) img_size 0 2 MAJOR_VERSION MINOR_VERSION []))
      (S (length mm)) Hall Hmm Hlen') as (ss & p' & Er & El & Hs); [done..| |unfold zlen in *; lia|].
    { change (zlen hdr + img_size = zlen mm). unfold img_size. lia. }
    exists ss, p'. split; [done|]. by split_and!.
  - assert (all_entries 0 0 all <> []) as Hidx by (by rewrite Eall).
    destruct (scan_index hdr all [] [] 0 0 (rewind (Parser mm (zlen hdr) img_size 0 2 MAJOR_VERSION MINOR_VERSION (all_entries 0 0 all)))
      (S (length mm)) Hall Hmm Hlen') as (ss & p' & Er & El & Hs); [done|..].
    all: try (cbn; by rewrite ?bool_decide_false by done).
    { unfold mm in Hlen. rewrite zlen_app in Hlen. lia. }
    { cbn. unfold img_size, mm. rewrite zlen_app. lia. }
    { unfold zlen in *. lia. }
    exists ss, p'. split; [done|]. by split_and!.
Qed.
End image.

(** C5: an image that was written is read back.  Whatever sections are added to
    a writer by however many threads, once it is done the parser finds the image
    behind its header, told where it is or searching for it, and the sections
    it returns, by the index or by scanning, are the ones that were added, in
    order: type, compression, number and data, every checksum correct. *)
Theorem image_roundtrip xxh3_64_digest sha2_512_256_digest `{!Digests xxh3_64_digest sha2_512_256_digest}
    hdr w s default_segment_size extents image_offset image_size :
  Forall is_byte hdr -> ready hdr w ->
  rtc (writer_step xxh3_64_digest sha2_512_256_digest) (System w Waiting []) s -> thread_ s = Done ->
  Forall (block_ok xxh3_64_digest sha2_512_256_digest) (accepted s) ->
  Forall (fun b => fb_type b <> SECTION_INDEX) (accepted s) -> accepted s <> [] ->
  let no_index := no_section_index_ (writer_ s) in
  let all := all_sections xxh3_64_digest sha2_512_256_digest no_index (accepted s) in
  let mm := os_ (writer_ s) in
  zlen mm < 2 ^ 48 -> (no_index = true -> no_index_at_end mm) ->
  findable xxh3_64_digest sha2_512_256_digest hdr all default_segment_size extents image_offset ->
  zlen mm - zlen hdr <= image_size ->
  exists p ss p',
    parser_create xxh3_64_digest sha2_512_256_digest mm default_segment_size extents image_offset image_size = Ok p /\
    image_offset_ p = zlen hdr /\
    read_sections (S (length mm)) p = (Ok ss, p') /\ length ss = length all /\
    forall i b s', all !! i = Some b -> ss !! i = Some s' ->
      reads_as xxh3_64_digest sha2_512_256_digest mm (Z.of_nat i) b s'.
Proof.
  intros Hhdr Hw Hr Hd Hbs Hty Hne no_index all mm.
  pose proof (written_image_spec _ _ _ _ _ Hw Hr) as Hinv. unfold sys_inv in Hinv. rewrite Hd in Hinv.
  destruct Hinv as (_ & _ & E). unfold mm, all, no_index. rewrite E. by apply image_read_back_spec.
Qed.

(** ** Witness: two sections behind a header, found by searching *)
Module ImageExample.
Definition xxh (l : list Z) : list Z := le_bytes 8 (foldr Z.add 1 l).
Definition sha (l : list Z) : list Z := le_bytes 32 (foldr Z.add 2 l).

#[global] Instance digests : Digests xxh sha.
Proof.
  split; intros l; try apply le_bytes_is_byte; by apply zlen_le_bytes.
Defined.

Definition hdr : list Z := [0x23; 0x21; 0x0a].
Definition w0 : filesystem_writer := writer_create (Some hdr) false false.
Definition b0 : fsblock := FsBlock BLOCK 2 [1; 2; 3] None.
Definition b1 : fsblock := FsBlock METADATA_V2 0 [4; 5] None.
Definition w1 : filesystem_writer := set_flush (enqueue b1 (enqueue b0 w0).2).2.
Definition w2 : filesystem_writer := set_queue [(1, b1)] 2 (write_fsblock xxh sha 0 b0 w1).
Definition w3 : filesystem_writer := set_queue [] 2 (write_fsblock xxh sha 1 b1 w2).
Definition final : system := System (write_section_index xxh sha w3) Done [b0; b1].

Lemma run : rtc (writer_step xxh sha) (System w0 Waiting []) final.
Proof.
  eapply rtc_l; [exact (step_enqueue xxh sha w0 Waiting [] b0 0 (enqueue b0 w0).2 eq_refl eq_refl)|]. eapply rtc_l; [exact (step_enqueue xxh sha (enqueue b0 w0).2 Waiting [b0] b1 1 (enqueue b1 (enqueue b0 w0).2).2 eq_refl eq_refl)|].
  eapply rtc_l; [by apply step_flush|]. eapply rtc_l; [by apply step_take|]. eapply rtc_l; [eapply step_write; reflexivity|].
  eapply rtc_l; [eapply step_pop; reflexivity|]. eapply rtc_l; [by apply step_take|]. eapply rtc_l; [eapply step_write; reflexivity|].
  eapply rtc_l; [eapply step_pop; reflexivity|]. eapply rtc_l; [by apply step_stop|]. eapply rtc_l; [by apply step_finish|]. apply rtc_refl.
Qed.

Lemma blocks_ok : Forall (block_ok xxh sha) [b0; b1].
Proof.
  rewrite !Forall_cons. split_and!; [..|apply Forall_nil_2]; split; try done; unfold b0, b1; cbn [fb_data];
    rewrite !Forall_cons; split_and!; try done; apply Forall_nil_2.
Qed.
End ImageExample.

Lemma image_roundtrip_witness :
  let mm := os_ (writer_ ImageExample.final) in
  exists p ss p',
    parser_create ImageExample.xxh ImageExample.sha mm 4096 [ExtentInfo data_extent (FileRange 0 (zlen mm))] IMAGE_OFFSET_AUTO (2 ^ 63 - 1) = Ok p /\
    image_offset_ p = 3 /\ read_sections (S (length mm)) p = (Ok ss, p') /\ length ss = 3%nat.
Proof.
  destruct (image_roundtrip ImageExample.xxh ImageExample.sha ImageExample.hdr ImageExample.w0 ImageExample.final 4096
    [ExtentInfo data_extent (FileRange 0 (zlen (os_ (writer_ ImageExample.final))))] IMAGE_OFFSET_AUTO (2 ^ 63 - 1))
    as (p & ss & p' & E1 & E2 & E3 & E4 & _).
  - unfold ImageExample.hdr. rewrite !Forall_cons. split_and!; [done..|apply Forall_nil_2].
  - by split.
  - apply ImageExample.run.
  - done.
  - apply ImageExample.blocks_ok.
  - cbn [accepted ImageExample.final]. rewrite !Forall_cons. split_and!; [done..|apply Forall_nil_2].
  - done.
  - by vm_compute.
  - done.
  - right. split_and!; [done|done|by vm_compute| |].
    + intros i Hi. change (zlen ImageExample.hdr) with 3 in Hi. assert (i = 0 \/ i = 1 \/ i = 2) as [-> | [-> | ->]] by lia; by vm_compute.
    + eexists _, _, _. split; [reflexivity|]. by vm_compute.
  - by vm_compute.
  - exists p, ss, p'. split; [exact E1|]. split; [exact E2|]. split; [exact E3|]. rewrite E4. vm_compute. reflexivity.
Defined.
