(* ===== verification/FileChunks.v ===== *)
(** * FileChunks: the chunks of a file, from the writer to the reader

    The writer side: [single_inode_fragment] ([writer/inode_fragments.h],
    [src/writer/inode_fragments.cpp]) collects the chunks the segmenter emits,
    [inode_hole_mapper] packs the size of a hole into the fields of a data
    chunk, [block_manager] maps logical blocks to written blocks and
    [metadata_builder_::gather_chunks] builds the chunk tables.  The reader
    side: [chunk_view] and [chunk_range] ([reader/internal/metadata_types.h]).
    The category of a fragment, which only the statistics use, is left out. *)

From S2P Require Import Prelude Bits.
Local Open Scope Z_scope.

(** [metadata_defs.h]. *)
Definition kChunkBitsSizeMask : Z := 0x7FFFFFFFFFFFFFFF.
Definition kChunkBitsHoleBit : Z := 0x8000000000000000.
Definition kChunkOffsetIsLargeHole : Z := 0xFFFFFFFF.

(** ** [single_inode_fragment] *)

(** [single_inode_fragment::chunk]; the reader's [chunk_view] has the same
    members. *)
Record chunk : Type := Chunk { block_ : Z; offset_ : Z; bits_ : Z }.

#[global] Instance chunk_eq_dec : EqDecision chunk.
Proof. solve_decision. Defined.

Definition data_chunk (block offset size : Z) : chunk := Chunk block offset (wrapu 64 size).
Definition hole_chunk (size : Z) : chunk := Chunk 0 0 (Z.lor (wrapu 64 size) kChunkBitsHoleBit).

Definition is_hole (c : chunk) : bool := negb (Z.land (bits_ c) kChunkBitsHoleBit =? 0).
Definition is_data (c : chunk) : bool := negb (is_hole c).
Definition size (c : chunk) : Z := Z.land (bits_ c) kChunkBitsSizeMask.

Definition grow_by (n : Z) (c : chunk) : chunk :=
  Chunk (block_ c) (offset_ c) (Z.lor (wrapu 64 (size c + n)) (Z.land (bits_ c) kChunkBitsHoleBit)).

(** [single_inode_fragment]. *)
Record fragment : Type := Fragment { frag_bits_ : Z; chunks_ : list chunk }.

Definition frag_size (f : fragment) : Z := Z.land (frag_bits_ f) kChunkBitsSizeMask.

Definition data_fragment (length : Z) : fragment := Fragment (wrapu 64 length) [].
Definition hole_fragment (length : Z) : fragment := Fragment (Z.lor (wrapu 64 length) kChunkBitsHoleBit) [].

Definition extend (length : Z) (f : fragment) : fragment :=
  Fragment (Z.lor (wrapu 64 (frag_size f + length)) (Z.land (frag_bits_ f) kChunkBitsHoleBit)) (chunks_ f).

(** [to<T>] converts to 32 bits. *)
Definition add_chunk (block offset n : Z) (f : fragment) : fragment :=
  let cs := chunks_ f in
  let fresh := cs ++ [data_chunk (wrapu 32 block) (wrapu 32 offset) n] in
  match last cs with
  | Some c =>
      if is_data c && (block_ c =? block) && (offset_ c + size c =? offset)
      then Fragment (frag_bits_ f) (removelast cs ++ [grow_by n c])
      else Fragment (frag_bits_ f) fresh
  | None => Fragment (frag_bits_ f) fresh
  end.

Definition add_hole (n : Z) (f : fragment) : fragment :=
  Fragment (frag_bits_ f) (chunks_ f ++ [hole_chunk n]).

Definition chunks_are_consistent (f : fragment) : bool :=
  if (0 <? frag_size f) && bool_decide (chunks_ f = []) then false
  else foldl (fun acc c => acc + size c) 0 (chunks_ f) =? frag_size f.

(** [inode_fragments::total_size]. *)
Definition total_size (fs : list fragment) : Z := foldl (fun acc f => acc + frag_size f) 0 fs.

(** ** [inode_hole_mapper] *)

(** The thrift struct [chunk] of the metadata: three [UInt32]. *)
Record meta_chunk : Type := MetaChunk { mc_block : Z; mc_offset : Z; mc_size : Z }.

Record hole_mapper : Type := HoleMapper {
  hole_count_ : Z;
  hole_block_index_ : Z;
  block_size_bits_ : Z;
  inline_hole_size_limit_ : Z;
  large_hole_sizes_ : list Z;
  large_hole_size_map_ : gmap Z Z
}.

Definition compute_inline_hole_size_limit (size_bits offset_bits : Z) : Z :=
  if 64 <=? size_bits + offset_bits then 2 ^ 64 - 1
  else Z.shiftl 1 (size_bits + offset_bits) - 1.

Definition hole_mapper_create (hole_block_index block_size max_data_chunk_size : Z) : hole_mapper :=
  let block_size_bits := Z.of_nat (countr_zero 64 block_size) in
  HoleMapper 0 hole_block_index block_size_bits
    (compute_inline_hole_size_limit (bit_width max_data_chunk_size) block_size_bits) [] ∅.

Definition map_hole (n : Z) (m : hole_mapper) : meta_chunk * hole_mapper :=
  let size64 := wrapu 64 n in
  let offset := Z.land size64 (Z.shiftl 1 (block_size_bits_ m) - 1) in
  if (size64 <=? inline_hole_size_limit_ m) && negb (offset =? kChunkOffsetIsLargeHole) then
    (MetaChunk (wrapu 32 (hole_block_index_ m)) (wrapu 32 offset) (wrapu 32 (Z.shiftr size64 (block_size_bits_ m))),
     HoleMapper (hole_count_ m + 1) (hole_block_index_ m) (block_size_bits_ m) (inline_hole_size_limit_ m)
       (large_hole_sizes_ m) (large_hole_size_map_ m))
  else
    let '(ix, sizes, map) :=
      match large_hole_size_map_ m !! size64 with
      | Some ix => (ix, large_hole_sizes_ m, large_hole_size_map_ m)
      | None =>
          let ix := zlen (large_hole_sizes_ m) in
          (ix, large_hole_sizes_ m ++ [size64], <[size64 := ix]> (large_hole_size_map_ m))
      end in
    (MetaChunk (wrapu 32 (hole_block_index_ m)) kChunkOffsetIsLargeHole (wrapu 32 ix),
     HoleMapper (hole_count_ m + 1) (hole_block_index_ m) (block_size_bits_ m) (inline_hole_size_limit_ m) sizes map).

Definition mapper_is_hole (m : hole_mapper) (c : meta_chunk) : bool := mc_block c =? hole_block_index_ m.
Definition has_holes (m : hole_mapper) : bool := 0 <? hole_count_ m.

(** ** [block_manager] *)

Inductive chunks_error : Type :=
  | hole_without_mapper      (* DWARFS_CHECK *)
  | block_not_written.       (* std::out_of_range, std::bad_optional_access *)

Record block_manager : Type := BlockManager {
  num_blocks_ : Z;
  block_map_ : list (option Z)
}.

Definition get_logical_block (bm : block_manager) : Z * block_manager :=
  (num_blocks_ bm, BlockManager (num_blocks_ bm + 1) (block_map_ bm)).

Definition set_written_block (logical_block written_block : Z) (bm : block_manager) : block_manager :=
  let map := if zlen (block_map_ bm) <? num_blocks_ bm
             then block_map_ bm ++ replicate (Z.to_nat (num_blocks_ bm - zlen (block_map_ bm))) None
             else block_map_ bm in
  BlockManager (num_blocks_ bm) (<[Z.to_nat logical_block := Some written_block]> map).

Fixpoint map_logical_blocks (bm : block_manager) (hm : option hole_mapper) (vec : list meta_chunk) :
    result chunks_error (list meta_chunk) :=
  match vec with
  | [] => Ok []
  | c :: vec =>
      let? c := (if match hm with Some m => mapper_is_hole m c | None => false end then Ok c
                 else match block_map_ bm !! Z.to_nat (mc_block c) with
                      | Some (Some written) => Ok (MetaChunk (wrapu 32 written) (mc_offset c) (mc_size c))
                      | _ => Err block_not_written
                      end) in
      let? vec := map_logical_blocks bm hm vec in
      Ok (c :: vec)
  end.

(** ** [inode_::append_chunks_to] and [metadata_builder_::gather_chunks] *)

(** [src/writer/internal/inode_manager.cpp]. *)
Definition max_data_chunk_size (inodes : list (list fragment)) : Z :=
  foldl (fun m c => if is_data c then Z.max m (size c) else m) 0
    (concat (map (fun fs => concat (map chunks_ fs)) inodes)).

Definition append_chunk (src : chunk) (hm : option hole_mapper) : result chunks_error (meta_chunk * option hole_mapper) :=
  if is_hole src then
    match hm with
    | None => Err hole_without_mapper
    | Some m => let '(chk, m) := map_hole (size src) m in Ok (chk, Some m)
    end
  else Ok (MetaChunk (block_ src) (offset_ src) (wrapu 32 (size src)), hm).

Fixpoint append_chunks (srcs : list chunk) (vec : list meta_chunk) (hm : option hole_mapper) :
    result chunks_error (list meta_chunk * option hole_mapper) :=
  match srcs with
  | [] => Ok (vec, hm)
  | src :: srcs =>
      let? ' (chk, hm) := append_chunk src hm in
      append_chunks srcs (vec ++ [chk]) hm
  end.

Definition append_chunks_to (fragments : list fragment) (vec : list meta_chunk) (hm : option hole_mapper) :
    result chunks_error (list meta_chunk * option hole_mapper) :=
  if forallb chunks_are_consistent fragments
  then append_chunks (concat (map chunks_ fragments)) vec hm
  else Ok (vec, hm).

(** What of [thrift::metadata::metadata] describes chunks. *)
Record metadata : Type := Metadata {
  md_chunks : list meta_chunk;
  md_chunk_table : list Z;
  md_block_size : Z;
  md_hole_block_index : option Z;
  md_large_hole_size : option (list Z)
}.

(** The loop over the inodes, in the order of their numbers. *)
Fixpoint gather_inodes (inodes : list (list fragment)) (chunks : list meta_chunk) (table : list Z)
    (hm : option hole_mapper) : result chunks_error (list meta_chunk * list Z * option hole_mapper) :=
  match inodes with
  | [] => Ok (chunks, table, hm)
  | ino :: inodes =>
      let table := table ++ [wrapu 32 (zlen chunks)] in
      let? ' (chunks, hm) := append_chunks_to ino chunks hm in
      gather_inodes inodes chunks table hm
  end.

Definition gather_chunks (enable_sparse_files : bool) (block_size : Z) (bm : block_manager)
    (inodes : list (list fragment)) : result chunks_error metadata :=
  let hm := if enable_sparse_files
            then Some (hole_mapper_create (num_blocks_ bm) block_size (max_data_chunk_size inodes)) else None in
  let? ' (chunks, table, hm) := gather_inodes inodes [] [] hm in
  let? chunks := map_logical_blocks bm hm chunks in
  let table := table ++ [wrapu 32 (zlen chunks)] in
  Ok match hm with
     | Some m =>
         if has_holes m
         then Metadata chunks table block_size (Some (wrapu 32 (hole_block_index_ m))) (Some (large_hole_sizes_ m))
         else Metadata chunks table block_size None None
     | None => Metadata chunks table block_size None None
     end.

(** ** The reader: [chunk_view], [chunk_range] *)

(** [None] where the index of a large hole is out of range, which
    [check_chunks] excludes when a file system is opened. *)
Definition chunk_view (meta : metadata) (v : meta_chunk) : option chunk :=
  let b := mc_block v in
  let o := mc_offset v in
  let s := mc_size v in
  if bool_decide (md_hole_block_index meta = Some b) then
    bits ← (if o =? kChunkOffsetIsLargeHole
            then default [] (md_large_hole_size meta) !! Z.to_nat s
            else Some (wrapu 64 (wrapu 64 (s * md_block_size meta) + o)));
    Some (Chunk 0 0 (Z.lor bits kChunkBitsHoleBit))
  else Some (Chunk b o s).

(** [get_chunk_range_from_index], and a loop over the range. *)
Definition get_chunk_range_from_index (meta : metadata) (index : Z) : option (Z * Z) :=
  if (0 <=? index) && (index + 1 <? wraps 32 (zlen (md_chunk_table meta))) then
    b ← md_chunk_table meta !! Z.to_nat index;
    e ← md_chunk_table meta !! Z.to_nat (index + 1);
    Some (b, e)
  else None.

Definition range_chunks (meta : metadata) (range : Z * Z) : option (list chunk) :=
  mapM (fun i => v ← md_chunks meta !! Z.to_nat i; chunk_view meta v) (seqZ range.1 (range.2 - range.1)).

(** [inode_size_provider::get]: the size and the allocated size. *)
Definition inode_size_provider_get (meta : metadata) (index : Z) : option (Z * Z * Z) :=
  range ← get_chunk_range_from_index meta index;
  acc ← foldl (fun acc i =>
          '(sz, alloc) ← acc; v ← md_chunks meta !! Z.to_nat i;
          if mc_block v =? default (2 ^ 32 - 1) (md_hole_block_index meta) then
            if mc_offset v =? kChunkOffsetIsLargeHole then
              n ← default [] (md_large_hole_size meta) !! Z.to_nat (mc_size v);
              Some (wrapu 64 (sz + n), alloc)
            else Some (wrapu 64 (sz + mc_size v * md_block_size meta + mc_offset v), alloc)
          else Some (wrapu 64 (sz + mc_size v), wrapu 64 (alloc + mc_size v)))
        (Some (0, 0)) (seqZ range.1 (range.2 - range.1));
  Some (range.2 - range.1, acc.1, acc.2).

(** ** Sizes and bits *)

Definition hole_ok (c : chunk) : Prop := exists n, 0 <= n < 2 ^ 63 /\ c = hole_chunk n.
Definition data_ok (num_blocks : Z) (c : chunk) : Prop :=
  0 <= block_ c < num_blocks /\ 0 <= offset_ c < 2 ^ 32 /\ 0 <= bits_ c < 2 ^ 32.

Lemma low_bits_hole n : 0 <= n < 2 ^ 63 -> Z.land n kChunkBitsHoleBit = 0 /\ Z.land n kChunkBitsSizeMask = n.
Proof.
  intros Hn. split.
  - apply Z.bits_inj'. intros i Hi. rewrite Z.land_spec, Z.bits_0. change kChunkBitsHoleBit with (2 ^ 63).
    rewrite Z.pow2_bits_eqb by lia. destruct (Z.eqb_spec 63 i) as [<-|]; [|by rewrite andb_false_r].
    by rewrite (testbit_above 63) by lia.
  - change kChunkBitsSizeMask with (2 ^ 63 - 1). rewrite land_ones_mod by lia. apply Z.mod_small. lia.
Qed.

Lemma hole_bits_spec n : 0 <= n < 2 ^ 63 ->
  Z.lor n kChunkBitsHoleBit = n + 2 ^ 63 /\
  Z.land (Z.lor n kChunkBitsHoleBit) kChunkBitsHoleBit = kChunkBitsHoleBit /\
  Z.land (Z.lor n kChunkBitsHoleBit) kChunkBitsSizeMask = n.
Proof.
  intros Hn. split_and!.
  - change kChunkBitsHoleBit with (2 ^ 63). rewrite <- (Z.shiftl_1_l 63), lor_shiftl_add, ?Z.shiftl_1_l by lia. lia.
  - rewrite Z.land_lor_distr_l, (proj1 (low_bits_hole n Hn)). done.
  - rewrite Z.land_lor_distr_l, (proj2 (low_bits_hole n Hn)). change (Z.land kChunkBitsHoleBit kChunkBitsSizeMask) with 0.
    apply Z.lor_0_r.
Qed.

Lemma hole_chunk_spec n : 0 <= n < 2 ^ 63 -> is_hole (hole_chunk n) = true /\ size (hole_chunk n) = n.
Proof.
  intros Hn. unfold is_hole, size, hole_chunk. cbn. rewrite wrapu_small by (unfold in_u; lia).
  destruct (hole_bits_spec n Hn) as (_ & -> & ->). done.
Qed.

Lemma data_bits_spec b o n : 0 <= n < 2 ^ 63 -> is_hole (Chunk b o n) = false /\ size (Chunk b o n) = n.
Proof. intros Hn. unfold is_hole, size. cbn. destruct (low_bits_hole n Hn) as [-> ->]. done. Qed.

Lemma data_ok_spec k c : data_ok k c -> is_hole c = false /\ size c = bits_ c.
Proof. destruct c as [b o n]. intros (_ & _ & H). cbn [bits_] in *. apply data_bits_spec. lia. Qed.

Lemma hole_ok_spec c : hole_ok c -> is_hole c = true /\ 0 <= size c < 2 ^ 63 /\ c = hole_chunk (size c).
Proof. intros (n & Hn & ->). destruct (hole_chunk_spec n Hn) as [H1 H2]. by rewrite H1, H2. Qed.

(** ** Packing holes *)

Section holes.
Context (k : Z) (Hk : 0 <= k < 32).
#[local] Abbreviation bs := (2 ^ k).

(** The mapper keeps its list and its map in step; [w] bits hold the size of
    a data chunk. *)
Record mapper_inv (w hix : Z) (m : hole_mapper) : Prop := {
  hm_index : hole_block_index_ m = hix;
  hm_bits : block_size_bits_ m = k;
  hm_limit : inline_hole_size_limit_ m = compute_inline_hole_size_limit w k;
  hm_count : zlen (large_hole_sizes_ m) <= hole_count_ m;
  hm_map : forall x i, large_hole_size_map_ m !! x = Some i ->
    0 <= i < zlen (large_hole_sizes_ m) /\ large_hole_sizes_ m !! Z.to_nat i = Some x
}.

Definition hole_decodes (large : list Z) (v : meta_chunk) (n : Z) : Prop :=
  if mc_offset v =? kChunkOffsetIsLargeHole then large !! Z.to_nat (mc_size v) = Some n
  else wrapu 64 (wrapu 64 (mc_size v * bs) + mc_offset v) = n.

Lemma hole_decodes_mono large large' v n : large `prefix_of` large' -> hole_decodes large v n -> hole_decodes large' v n.
Proof. unfold hole_decodes. intros H. destruct (_ =? _); [|done]. intros Hl. by eapply prefix_lookup_Some. Qed.

Lemma countr_zero_pow2 : Z.of_nat (countr_zero 64 bs) = k.
Proof.
  rewrite (countr_zero_spec 64 bs (replicate (63 - Z.to_nat k) false) (Z.to_nat k)); [lia|].
  replace 64%nat with (Z.to_nat k + S (63 - Z.to_nat k))%nat by lia. rewrite bits_add.
  rewrite Z.shiftr_div_pow2, Z2Nat.id, Z.div_same by lia. cbn. f_equal; [|by rewrite <- bits_zero].
  rewrite <- bits_zero. rewrite <- (bits_mod (Z.to_nat k) bs), Z2Nat.id, Z.mod_same by lia. done.
Qed.

Lemma hole_mapper_create_inv hix max : mapper_inv (bit_width max) hix (hole_mapper_create hix bs max).
Proof. unfold hole_mapper_create. rewrite countr_zero_pow2. split; cbn; try done; lia. Qed.

Lemma map_hole_spec w hix m n : 0 <= w <= 32 -> mapper_inv w hix m -> 0 <= hix < 2 ^ 32 -> 0 <= n < 2 ^ 63 ->
  hole_count_ m < 2 ^ 32 ->
  let '(v, m') := map_hole n m in
  mapper_inv w hix m' /\ large_hole_sizes_ m `prefix_of` large_hole_sizes_ m' /\
  hole_count_ m' = hole_count_ m + 1 /\ mc_block v = hix /\ hole_decodes (large_hole_sizes_ m') v n /\
  in_u 32 (mc_offset v) /\ in_u 32 (mc_size v).
Proof.
  intros Hw [H1 H2 H3 H4 H5] Hh Hn Hc. unfold map_hole. rewrite wrapu_small by (unfold in_u; lia).
  rewrite H1, H2, Z.shiftl_1_l, land_ones_mod, (wrapu_small 32 hix) by (unfold in_u; lia).
  pose proof (pow2_pos k ltac:(lia)) as Hp. pose proof (Z.mod_pos_bound n bs Hp) as Hm.
  assert (bs <= 2 ^ 31) as Hb by (apply Z.pow_le_mono_r; lia).
  assert ((n mod bs =? kChunkOffsetIsLargeHole) = false) as -> by (apply Z.eqb_neq; unfold kChunkOffsetIsLargeHole; lia).
  rewrite andb_true_r. destruct (Z.leb_spec n (inline_hole_size_limit_ m)) as [Hl|Hl].
  - rewrite H3 in Hl. unfold compute_inline_hole_size_limit in Hl. destruct (Z.leb_spec 64 (w + k)); [lia|].
    rewrite Z.shiftl_1_l, Z.pow_add_r in Hl by lia. rewrite Z.shiftr_div_pow2 by lia.
    assert (2 ^ w <= 2 ^ 32) by (apply Z.pow_le_mono_r; lia).
    assert (0 <= n / bs < 2 ^ 32) as Hd by (split; [apply Z.div_pos; lia|apply Z.div_lt_upper_bound; nia]).
    rewrite !wrapu_small by (unfold in_u; lia). split_and!; cbn; try done; try (unfold in_u; lia).
    + split; cbn; try done; lia.
    + unfold hole_decodes. cbn. destruct (Z.eqb_spec (n mod bs) kChunkOffsetIsLargeHole) as [E|_];
        [unfold kChunkOffsetIsLargeHole in E; lia|].
      pose proof (Z.div_mod n bs ltac:(lia)) as Hdm. rewrite Z.mul_comm in Hdm.
      rewrite (wrapu_small 64 (n / bs * bs)), wrapu_small; unfold in_u; lia.
  - destruct (large_hole_size_map_ m !! n) as [i|] eqn:E.
    + destruct (H5 n i E) as [Hi Hl']. rewrite wrapu_small by (unfold in_u; lia).
      split_and!; cbn; try done; try (unfold in_u; lia). split; cbn; try done; lia.
    + rewrite (wrapu_small 32) by (unfold in_u, zlen in *; lia).
      split_and!; cbn; try done; try (unfold in_u, zlen in *; lia).
      * split; cbn; try done.
        -- rewrite zlen_app. unfold zlen in *. cbn. lia.
        -- intros x i. rewrite zlen_app, lookup_insert. change (zlen [n]) with 1. case_decide as Ex.
           ++ intros [= <-]. subst x. split; [unfold zlen; lia|]. rewrite lookup_app_r by (unfold zlen; lia).
              unfold zlen. by rewrite Nat2Z.id, Nat.sub_diag.
           ++ intros Hx. destruct (H5 x i Hx) as [? Hl']. split; [lia|]. by apply lookup_app_l_Some.
      * by apply prefix_app_r.
      * unfold hole_decodes. cbn. rewrite lookup_app_r by (unfold zlen; lia). unfold zlen. by rewrite Nat2Z.id, Nat.sub_diag.
Qed.
End holes.

(** ** The tables *)

(** Where the chunks of the inodes start. *)
Fixpoint starts {A} (base : Z) (vss : list (list A)) : list Z :=
  match vss with
  | [] => []
  | vs :: vss => base :: starts (base + zlen vs) vss
  end.

Lemma starts_lookup {A} (vss : list (list A)) base i : (i <= length vss)%nat ->
  (starts base vss ++ [base + zlen (concat vss)]) !! i = Some (base + zlen (concat (take i vss))).
Proof.
  revert base i. induction vss as [|vs vss IH]; intros base [|i] Hi; cbn in *; try lia; try done.
  - f_equal. unfold zlen. cbn. lia.
  - rewrite !zlen_app, !Z.add_assoc. apply IH. lia.
Qed.

Lemma concat_take_lookup {A} (vss : list (list A)) i vs : vss !! i = Some vs ->
  concat vss = concat (take i vss) ++ vs ++ concat (drop (S i) vss) /\
  zlen (concat (take (S i) vss)) = zlen (concat (take i vss)) + zlen vs.
Proof.
  intros H. split.
  - rewrite <- (take_drop_middle vss i vs H) at 1. rewrite concat_app. done.
  - rewrite (take_S_r vss i vs) by done. rewrite concat_app, zlen_app. cbn. by rewrite app_nil_r.
Qed.

Lemma mapM_range {A B} (f : A -> option B) (pre mid post : list A) out : mapM f mid = Some out ->
  mapM (fun i => v ← (pre ++ mid ++ post) !! Z.to_nat i; f v) (seqZ (zlen pre) (zlen mid)) = Some out.
Proof.
  revert pre out. induction mid as [|a mid IH]; intros pre out H; [done|]. cbn in H.
  unfold zlen at 2. cbn [length]. rewrite seqZ_cons by lia. cbn [mapM].
  replace ((pre ++ (a :: mid) ++ post) !! Z.to_nat (zlen pre)) with (Some a)
    by (unfold zlen; by rewrite Nat2Z.id, lookup_app_r, Nat.sub_diag by lia).
  cbn. destruct (f a) as [b|]; [|done]. cbn in *. destruct (mapM f mid) as [bs|]; [|done]. cbn in *. simplify_eq.
  replace (Z.succ (zlen pre)) with (zlen (pre ++ [a])) by (unfold zlen; rewrite length_app; cbn; lia).
  replace (Z.pred (Z.of_nat (S (length mid)))) with (zlen mid) by (unfold zlen; lia).
  replace (pre ++ a :: mid ++ post) with ((pre ++ [a]) ++ mid ++ post) by by rewrite <- app_assoc.
  by rewrite (IH (pre ++ [a]) bs).
Qed.

Lemma foldl_range {A B} (f : option B -> option A -> option B) (pre mid post : list A) acc :
  foldl (fun acc i => f acc ((pre ++ mid ++ post) !! Z.to_nat i)) acc (seqZ (zlen pre) (zlen mid)) =
  foldl (fun acc v => f acc (Some v)) acc mid.
Proof.
  revert pre acc. induction mid as [|a mid IH]; intros pre acc; [done|].
  unfold zlen at 2. cbn [length]. rewrite seqZ_cons by lia. cbn [foldl].
  replace ((pre ++ (a :: mid) ++ post) !! Z.to_nat (zlen pre)) with (Some a)
    by (unfold zlen; by rewrite Nat2Z.id, lookup_app_r, Nat.sub_diag by lia).
  replace (Z.succ (zlen pre)) with (zlen (pre ++ [a])) by (unfold zlen; rewrite length_app; cbn; lia).
  replace (Z.pred (Z.of_nat (S (length mid)))) with (zlen mid) by (unfold zlen; lia).
  replace (pre ++ (a :: mid) ++ post) with ((pre ++ [a]) ++ mid ++ post) by by rewrite <- app_assoc.
  apply IH.
Qed.

Section tables.
Context (k : Z) (Hk : 0 <= k < 32) (w : Z) (Hw : 0 <= w <= 32) (bm : block_manager).
Context (Hnum : 0 <= num_blocks_ bm < 2 ^ 32 - 1).

Definition written_block (b : Z) : option Z := block_map_ bm !! Z.to_nat b ≫= id.
Definition blocks_written : Prop :=
  forall b, 0 <= b < num_blocks_ bm -> exists x, written_block b = Some x /\ 0 <= x < num_blocks_ bm.

(** The chunk with its block as written. *)
Definition written (c : chunk) : chunk :=
  if is_hole c then c else Chunk (default 0 (written_block (block_ c))) (offset_ c) (bits_ c).

Definition chunk_ok (sparse : bool) (c : chunk) : Prop := (sparse = true /\ hole_ok c) \/ data_ok (num_blocks_ bm) c.

Definition hm_inv (hm : option hole_mapper) : Prop :=
  match hm with Some m => mapper_inv k w (num_blocks_ bm) m | None => True end.
Definition hm_count_of (hm : option hole_mapper) : Z := match hm with Some m => hole_count_ m | None => 0 end.
Definition hm_le (hm hm' : option hole_mapper) : Prop :=
  match hm, hm' with
  | Some m, Some m' => large_hole_sizes_ m `prefix_of` large_hole_sizes_ m' /\ hole_count_ m <= hole_count_ m'
  | None, None => True
  | _, _ => False
  end.

(** [v] stands for the chunk [c] before blocks are mapped. *)
Definition enc (hm : option hole_mapper) (c : chunk) (v : meta_chunk) : Prop :=
  (exists m, hole_ok c /\ hm = Some m /\ 0 < hole_count_ m /\ mc_block v = num_blocks_ bm /\
     hole_decodes k (large_hole_sizes_ m) v (size c) /\ in_u 32 (mc_offset v) /\ in_u 32 (mc_size v)) \/
  (data_ok (num_blocks_ bm) c /\ v = MetaChunk (block_ c) (offset_ c) (bits_ c)).

Lemma hm_le_refl hm : hm_le hm hm.
Proof. by destruct hm. Qed.

Lemma hm_le_trans a b c : hm_le a b -> hm_le b c -> hm_le a c.
Proof. destruct a, b, c; cbn; try tauto. intros [? ?] [? ?]. split; [by etransitivity|lia]. Qed.

Lemma enc_mono hm hm' c v : hm_le hm hm' -> enc hm c v -> enc hm' c v.
Proof.
  intros Hle [(m & H1 & -> & H2 & H3 & H4 & H5 & H6)|H]; [left|by right]. destruct hm' as [m'|]; [|done]. destruct Hle as [Hp Hc].
  exists m'. split_and!; try done; [lia|]. by apply (hole_decodes_mono k (large_hole_sizes_ m)).
Qed.

Lemma append_chunk_spec c hm : hm_inv hm -> chunk_ok (bool_decide (hm <> None)) c ->
  0 <= hm_count_of hm < 2 ^ 32 ->
  exists v hm', append_chunk c hm = Ok (v, hm') /\ hm_inv hm' /\ hm_le hm hm' /\ enc hm' c v /\
    hm_count_of hm <= hm_count_of hm' <= hm_count_of hm + 1.
Proof.
  intros Hinv Hc Hcnt. unfold append_chunk. destruct Hc as [[Hs Hh]|Hd].
  - apply bool_decide_eq_true in Hs. destruct hm as [m|]; [|done]. destruct (hole_ok_spec c Hh) as (-> & Hsz & _).
    pose proof (map_hole_spec k Hk w (num_blocks_ bm) m (size c) Hw Hinv ltac:(lia) Hsz ltac:(cbn in Hcnt; lia)) as H.
    destruct (map_hole (size c) m) as [v m']. destruct H as (H1 & H2 & H3 & H4 & H5 & H6 & H7).
    exists v, (Some m'). cbn in *. split_and!; try done; try lia. left. exists m'. split_and!; try done. lia.
  - destruct (data_ok_spec _ _ Hd) as [-> ->]. exists (MetaChunk (block_ c) (offset_ c) (bits_ c)), hm.
    rewrite wrapu_small by apply Hd. split_and!; try done; try lia; [apply hm_le_refl|by right].
Qed.

Lemma append_chunks_spec cs vec hm : hm_inv hm -> Forall (chunk_ok (bool_decide (hm <> None))) cs ->
  0 <= hm_count_of hm -> hm_count_of hm + zlen cs < 2 ^ 32 ->
  exists vs hm', append_chunks cs vec hm = Ok (vec ++ vs, hm') /\ hm_inv hm' /\ hm_le hm hm' /\
    Forall2 (enc hm') cs vs /\ 0 <= hm_count_of hm' <= hm_count_of hm + zlen cs.
Proof.
  revert vec hm. induction cs as [|c cs IH]; intros vec hm Hinv Hok H0 Hcnt.
  - exists [], hm. rewrite app_nil_r. split_and!; try done; [apply hm_le_refl|unfold zlen; cbn; lia].
  - inversion Hok as [|? ? Hc Hcs]; subst. change (zlen (c :: cs)) with (Z.of_nat (S (length cs))) in *.
    pose proof (zlen_nonneg cs).
    destruct (append_chunk_spec c hm Hinv Hc ltac:(lia)) as (v & hm1 & E1 & Hi1 & Hl1 & Hv & Hc1).
    cbn [append_chunks]. rewrite E1. cbn [rbind].
    destruct (IH (vec ++ [v]) hm1 Hi1) as (vs & hm' & E & Hi & Hl & Hvs & Hc2); [|lia|unfold zlen in *; lia|].
    { eapply Forall_impl; [exact Hcs|]. intros c'. destruct hm, hm1; done. }
    exists (v :: vs), hm'. rewrite E, <- app_assoc. split_and!; try done; [by eapply hm_le_trans| |lia|unfold zlen in *; lia].
    constructor; [by eapply enc_mono|done].
Qed.

(** The chunks an inode gets. *)
Definition inode_chunks (fs : list fragment) : list chunk :=
  if forallb chunks_are_consistent fs then concat (map chunks_ fs) else [].

Lemma gather_inodes_spec inodes chunks table hm : hm_inv hm ->
  Forall (fun fs => Forall (chunk_ok (bool_decide (hm <> None))) (inode_chunks fs)) inodes ->
  0 <= hm_count_of hm <= zlen chunks -> zlen chunks + zlen (concat (map inode_chunks inodes)) < 2 ^ 32 ->
  exists vss hm', gather_inodes inodes chunks table hm =
      Ok (chunks ++ concat vss, table ++ starts (zlen chunks) vss, hm') /\ hm_le hm hm' /\ hm_inv hm' /\
    Forall2 (fun fs vs => Forall2 (enc hm') (inode_chunks fs) vs) inodes vss.
Proof.
  revert chunks table hm. induction inodes as [|fs inodes IH]; intros chunks table hm Hinv Hok Hcnt Hlen.
  - exists [], hm. rewrite !app_nil_r. split_and!; [done|apply hm_le_refl|done|constructor].
  - inversion Hok as [|? ? Hfs Hok']; subst. cbn [map concat] in Hlen. rewrite zlen_app in Hlen.
    pose proof (zlen_nonneg (inode_chunks fs)). pose proof (zlen_nonneg (concat (map inode_chunks inodes))).
    destruct (append_chunks_spec (inode_chunks fs) chunks hm Hinv Hfs ltac:(lia) ltac:(lia))
      as (vs & hm1 & E & Hi1 & Hl1 & Hvs & Hc1).
    assert (append_chunks_to fs chunks hm = Ok (chunks ++ vs, hm1)) as E1.
    { unfold append_chunks_to. revert E. unfold inode_chunks. by destruct (forallb chunks_are_consistent fs). }
    pose proof (Forall2_length _ _ _ Hvs) as Hlv.
    cbn [gather_inodes]. rewrite E1. cbn [rbind].
    destruct (IH (chunks ++ vs) (table ++ [wrapu 32 (zlen chunks)]) hm1 Hi1) as (vss & hm' & E2 & Hl & Hi & Hvss).
    + eapply Forall_impl; [exact Hok'|]. intros fs'. destruct hm, hm1; done.
    + rewrite zlen_app. unfold zlen in *. lia.
    + rewrite zlen_app. unfold zlen in *. lia.
    + exists (vs :: vss), hm'. rewrite E2. cbn [concat starts].
      rewrite wrapu_small by (unfold in_u, zlen in *; lia). rewrite <- !app_assoc, zlen_app.
      split_and!; [done|by eapply hm_le_trans|done|]. constructor; [|done].
      eapply Forall2_impl; [exact Hvs|]. intros c v. by apply enc_mono.
Qed.
End tables.

(** ** From the writer to the reader *)

Section roundtrip.
Context (k : Z) (Hk : 0 <= k < 32) (w : Z) (Hw : 0 <= w <= 32) (bm : block_manager).
Context (Hnum : 0 <= num_blocks_ bm < 2 ^ 32 - 1) (Hbm : blocks_written bm).

Definition relabel (hm : option hole_mapper) (v : meta_chunk) : meta_chunk :=
  if match hm with Some m => mapper_is_hole m v | None => false end then v
  else MetaChunk (wrapu 32 (default 0 (written_block bm (mc_block v)))) (mc_offset v) (mc_size v).

Definition meta_of (hm : option hole_mapper) (chunks : list meta_chunk) (table : list Z) : metadata :=
  match hm with
  | Some m =>
      if has_holes m
      then Metadata chunks table (2 ^ k) (Some (wrapu 32 (hole_block_index_ m))) (Some (large_hole_sizes_ m))
      else Metadata chunks table (2 ^ k) None None
  | None => Metadata chunks table (2 ^ k) None None
  end.

Lemma relabel_hole hm c v : hm_inv k w bm hm -> enc k bm hm c v -> is_hole c = true ->
  relabel hm v = v /\ mc_block v = num_blocks_ bm.
Proof.
  intros Hinv [(m & Hh & -> & H1 & H2 & _)|[Hd _]] Hc; [|by rewrite (proj1 (data_ok_spec _ _ Hd)) in Hc].
  split; [|done]. unfold relabel, mapper_is_hole. by rewrite (hm_index _ _ _ _ Hinv), H2, Z.eqb_refl.
Qed.

Lemma relabel_data hm c v : hm_inv k w bm hm -> enc k bm hm c v -> is_hole c = false ->
  exists x, written_block bm (block_ c) = Some x /\ 0 <= x < num_blocks_ bm /\ data_ok (num_blocks_ bm) c /\
    relabel hm v = MetaChunk x (offset_ c) (bits_ c) /\ v = MetaChunk (block_ c) (offset_ c) (bits_ c).
Proof.
  intros Hinv [(m & Hh & _)|[Hd ->]] Hc; [by rewrite (proj1 (hole_ok_spec _ Hh)) in Hc|].
  destruct (Hbm (block_ c)) as (x & Hx & Hr); [apply Hd|]. exists x. split_and!; try done; try lia.
  unfold relabel, mapper_is_hole. cbn [mc_block mc_offset mc_size].
  assert ((match hm with Some m => block_ c =? hole_block_index_ m | None => false end) = false) as ->.
  { destruct hm as [m|]; [|done]. rewrite (hm_index _ _ _ _ Hinv). apply Z.eqb_neq. destruct Hd. lia. }
  rewrite Hx. cbn. by rewrite wrapu_small by (unfold in_u; lia).
Qed.

Lemma map_logical_blocks_ok hm cs vs : hm_inv k w bm hm -> Forall2 (enc k bm hm) cs vs ->
  map_logical_blocks bm hm vs = Ok (map (relabel hm) vs).
Proof.
  intros Hinv. induction 1 as [|c v cs vs Hv _ IH]; [done|]. cbn. rewrite IH.
  destruct (is_hole c) eqn:Hc.
  - destruct (relabel_hole hm c v Hinv Hv Hc) as [H1 H2]. destruct Hv as [(m & _ & -> & _)|[Hd _]];
      [|by rewrite (proj1 (data_ok_spec _ _ Hd)) in Hc].
    unfold relabel, mapper_is_hole in *. rewrite H2, (hm_index _ _ _ _ Hinv), Z.eqb_refl. done.
  - destruct (relabel_data hm c v Hinv Hv Hc) as (x & Hx & _ & Hd & _ & ->). unfold relabel, mapper_is_hole. cbn.
    unfold written_block in *.
    destruct (match hm with Some m => block_ c =? hole_block_index_ m | None => false end); [done|].
    destruct (block_map_ bm !! Z.to_nat (block_ c)) as [[y|]|]; cbn in Hx; simplify_eq. done.
Qed.

(** The reader decodes what the writer packed. *)
Lemma chunk_view_ok hm c v chunks table : hm_inv k w bm hm -> enc k bm hm c v ->
  chunk_view (meta_of hm chunks table) (relabel hm v) = Some (written bm c).
Proof.
  intros Hinv Hv. destruct (is_hole c) eqn:Hc.
  - destruct (relabel_hole hm c v Hinv Hv Hc) as [-> Hb]. destruct Hv as [(m & Hh & -> & H1 & H2 & H3 & H4 & H5)|[Hd _]];
      [|by rewrite (proj1 (data_ok_spec _ _ Hd)) in Hc].
    unfold meta_of, has_holes. rewrite (proj2 (Z.ltb_lt 0 _)) by lia. unfold chunk_view, written. cbn.
    rewrite (hm_index _ _ _ _ Hinv), wrapu_small by (unfold in_u; lia). rewrite Hb, bool_decide_true, Hc by done.
    destruct (hole_ok_spec c Hh) as (_ & Hs & Ec). transitivity (Some (hole_chunk (size c))); [|by rewrite <- Ec].
    unfold hole_decodes in H3. unfold hole_chunk. rewrite (wrapu_small 64 (size c)) by (unfold in_u; lia).
    destruct (mc_offset v =? kChunkOffsetIsLargeHole); [by rewrite H3|]. cbn. by rewrite H3.
  - destruct (relabel_data hm c v Hinv Hv Hc) as (x & Hx & Hr & Hd & -> & _).
    unfold chunk_view, written. rewrite Hc, Hx. cbn.
    rewrite bool_decide_false; [done|]. unfold meta_of. destruct hm as [m|]; [|done]. destruct (has_holes m); [|done]. cbn.
    rewrite (hm_index _ _ _ _ Hinv), wrapu_small by (unfold in_u; lia). intros [= E]. lia.
Qed.

(** *** The sizes *)

Definition sum_sizes (cs : list chunk) : Z := foldr (fun c n => size c + n) 0 cs.
Definition sum_data_sizes (cs : list chunk) : Z := foldr (fun c n => (if is_hole c then 0 else size c) + n) 0 cs.

Definition size_step (meta : metadata) (acc : option (Z * Z)) (v : option meta_chunk) : option (Z * Z) :=
  '(sz, alloc) ← acc; v ← v;
  if mc_block v =? default (2 ^ 32 - 1) (md_hole_block_index meta) then
    if mc_offset v =? kChunkOffsetIsLargeHole then
      n ← default [] (md_large_hole_size meta) !! Z.to_nat (mc_size v);
      Some (wrapu 64 (sz + n), alloc)
    else Some (wrapu 64 (sz + mc_size v * md_block_size meta + mc_offset v), alloc)
  else Some (wrapu 64 (sz + mc_size v), wrapu 64 (alloc + mc_size v)).

Lemma wrapu64_add_l a b : wrapu 64 (wrapu 64 a + b) = wrapu 64 (a + b).
Proof. apply Z.add_mod_idemp_l. lia. Qed.

Lemma size_step_ok hm c v chunks table a d : hm_inv k w bm hm -> enc k bm hm c v ->
  size_step (meta_of hm chunks table) (Some (wrapu 64 a, wrapu 64 d)) (Some (relabel hm v)) =
  Some (wrapu 64 (a + size c), wrapu 64 (d + if is_hole c then 0 else size c)).
Proof.
  intros Hinv Hv. unfold size_step. cbn [mbind option_bind]. destruct (is_hole c) eqn:Hc.
  - destruct (relabel_hole hm c v Hinv Hv Hc) as [-> Hb]. destruct Hv as [(m & Hh & -> & H1 & H2 & H3 & H4 & H5)|[Hd _]];
      [|by rewrite (proj1 (data_ok_spec _ _ Hd)) in Hc].
    unfold meta_of, has_holes. rewrite (proj2 (Z.ltb_lt 0 _)) by lia. cbn.
    rewrite (hm_index _ _ _ _ Hinv), (wrapu_small 32) by (unfold in_u; lia). rewrite Hb, Z.eqb_refl, Z.add_0_r.
    unfold hole_decodes in H3. destruct (mc_offset v =? kChunkOffsetIsLargeHole); [rewrite H3; cbn; by rewrite wrapu64_add_l|].
    do 2 f_equal. rewrite <- H3. rewrite <- Z.add_assoc, wrapu64_add_l. unfold wrapu.
    rewrite Z.add_mod_idemp_l, Z.add_mod_idemp_r by lia. done.
  - destruct (relabel_data hm c v Hinv Hv Hc) as (x & Hx & Hr & Hd & -> & _). cbn.
    assert ((x =? default (2 ^ 32 - 1) (md_hole_block_index (meta_of hm chunks table))) = false) as ->.
    { apply Z.eqb_neq. unfold meta_of. destruct hm as [m|]; [|cbn; lia]. destruct (has_holes m); [|cbn; lia]. cbn.
      rewrite (hm_index _ _ _ _ Hinv), wrapu_small by (unfold in_u; lia). lia. }
    rewrite (proj2 (data_ok_spec _ _ Hd)), !wrapu64_add_l. done.
Qed.

Lemma sizes_ok hm cs vs chunks table a d : hm_inv k w bm hm -> Forall2 (enc k bm hm) cs vs ->
  foldl (fun acc v => size_step (meta_of hm chunks table) acc (Some v)) (Some (wrapu 64 a, wrapu 64 d)) (map (relabel hm) vs) =
  Some (wrapu 64 (a + sum_sizes cs), wrapu 64 (d + sum_data_sizes cs)).
Proof.
  intros Hinv H. revert a d. induction H as [|c v cs vs Hv _ IH]; intros a d; cbn [map foldl sum_sizes sum_data_sizes foldr].
  - by rewrite !Z.add_0_r.
  - rewrite (size_step_ok hm c v) by done. rewrite IH, !Z.add_assoc. done.
Qed.

Lemma views_ok hm cs vs chunks table : hm_inv k w bm hm -> Forall2 (enc k bm hm) cs vs ->
  mapM (chunk_view (meta_of hm chunks table)) (map (relabel hm) vs) = Some (map (written bm) cs).
Proof.
  intros Hinv. induction 1 as [|c v cs vs Hv _ IH]; [done|]. cbn [map mapM]. rewrite (chunk_view_ok hm c v), IH by done. done.
Qed.
End roundtrip.

Lemma fold_max_data_lt cs m k : 0 <= m < 2 ^ 32 -> Forall (fun c => data_ok k c \/ hole_ok c) cs ->
  0 <= foldl (fun m c => if is_data c then Z.max m (size c) else m) m cs < 2 ^ 32.
Proof.
  intros Hm H. revert m Hm. induction H as [|c cs Hc _ IH]; intros m Hm; [done|]. cbn. apply IH. unfold is_data.
  destruct Hc as [Hd|Hh].
  - destruct (data_ok_spec _ _ Hd) as [-> ->]. destruct Hd. cbn. lia.
  - rewrite (proj1 (hole_ok_spec _ Hh)). done.
Qed.

Lemma length_starts {A} (vss : list (list A)) base : length (starts base vss) = length vss.
Proof. revert base. induction vss as [|v vss IH]; intros b; cbn; [done|by rewrite IH]. Qed.

(** The range of an inode in the table. *)
Lemma range_ok {A} (vss : list (list A)) meta i vs :
  md_chunk_table meta = starts 0 vss ++ [0 + zlen (concat vss)] -> vss !! i = Some vs -> zlen vss < 2 ^ 31 - 1 ->
  get_chunk_range_from_index meta (Z.of_nat i) =
  Some (zlen (concat (take i vss)), zlen (concat (take i vss)) + zlen vs).
Proof.
  intros Ht Hvs Hn. pose proof (lookup_lt_Some _ _ _ Hvs). destruct (concat_take_lookup vss i vs Hvs) as [_ Hz].
  unfold get_chunk_range_from_index. rewrite Ht.
  assert (zlen (starts 0 vss ++ [0 + zlen (concat vss)]) = zlen vss + 1) as ->.
  { unfold zlen. rewrite length_app, length_starts. cbn. lia. }
  rewrite wraps_small by (unfold in_s, zlen in *; lia).
  destruct (Z.leb_spec 0 (Z.of_nat i)), (Z.ltb_spec (Z.of_nat i + 1) (zlen vss + 1)); try (unfold zlen in *; lia). cbn [andb].
  rewrite Nat2Z.id, starts_lookup by lia. cbn [mbind option_bind].
  replace (Z.to_nat (Z.of_nat i + 1)) with (S i) by lia. rewrite starts_lookup by lia. cbn [mbind option_bind].
  unfold zlen in *. do 2 f_equal; lia.
Qed.

(** What the reader and the size provider make of a range. *)
Lemma decode_ok k (Hk : 0 <= k < 32) w (Hw : 0 <= w <= 32) bm (Hnum : 0 <= num_blocks_ bm < 2 ^ 32 - 1) (Hbm : blocks_written bm)
    hm cs pre vs post chunks table r i : hm_inv k w bm hm -> Forall2 (enc k bm hm) cs vs ->
  chunks = map (relabel bm hm) pre ++ map (relabel bm hm) vs ++ post -> r = (zlen pre, zlen pre + zlen vs) ->
  get_chunk_range_from_index (meta_of k hm chunks table) i = Some r ->
  range_chunks (meta_of k hm chunks table) r = Some (map (written bm) cs) /\
  inode_size_provider_get (meta_of k hm chunks table) i =
    Some (zlen cs, wrapu 64 (sum_sizes cs), wrapu 64 (sum_data_sizes cs)).
Proof.
  intros Hinv Henc Hch -> Hr.
  assert (md_chunks (meta_of k hm chunks table) = chunks) as Ec.
  { unfold meta_of. destruct hm as [m|]; [|done]. by destruct (has_holes m). }
  assert (zlen pre = zlen (map (relabel bm hm) pre) /\ zlen pre + zlen vs - zlen pre = zlen (map (relabel bm hm) vs)) as [E1 E2]
    by (unfold zlen; rewrite !length_map; lia).
  split.
  - unfold range_chunks. cbn [fst snd]. rewrite Ec.
    pose proof (views_ok k w bm Hnum Hbm hm cs vs chunks table Hinv Henc) as Hv. revert Hv.
    generalize (chunk_view (meta_of k hm chunks table)) as f. intros f Hv. rewrite E2, E1, Hch. by apply mapM_range.
  - unfold inode_size_provider_get. rewrite Hr. cbn [mbind option_bind fst snd]. rewrite Ec.
    pose proof (sizes_ok k w bm Hnum Hbm hm cs vs chunks table 0 0 Hinv Henc) as Hs.
    match goal with |- context [foldl ?g _ _] =>
      change g with (fun acc i => size_step (meta_of k hm chunks table) acc (chunks !! Z.to_nat i)) end.
    revert Hs. generalize (size_step (meta_of k hm chunks table)) as f. intros f Hs.
    change (wrapu 64 0) with 0 in Hs. rewrite E2, E1, Hch, foldl_range, Hs. cbn [mbind option_bind fst snd].
    unfold zlen. by rewrite length_map, (Forall2_length _ _ _ Henc).
Qed.

(** No other index has a range. *)
Lemma range_outside {A} (vss : list (list A)) meta i :
  md_chunk_table meta = starts 0 vss ++ [0 + zlen (concat vss)] -> zlen vss < 2 ^ 31 - 1 ->
  ~ 0 <= i < zlen vss -> get_chunk_range_from_index meta i = None.
Proof.
  intros Ht Hn Hi. unfold get_chunk_range_from_index. rewrite Ht.
  assert (zlen (starts 0 vss ++ [0 + zlen (concat vss)]) = zlen vss + 1) as ->.
  { unfold zlen. rewrite length_app, length_starts. cbn. lia. }
  pose proof (zlen_nonneg vss). rewrite wraps_small by (unfold in_s; lia).
  destruct (Z.leb_spec 0 i), (Z.ltb_spec (i + 1) (zlen vss + 1)); cbn [andb]; try done; lia.
Qed.

Section gathered.
Context (sparse : bool) (k : Z) (bm : block_manager) (inodes : list (list fragment)).
Context (Hk : 0 <= k < 32) (Hnum : 0 <= num_blocks_ bm < 2 ^ 32 - 1) (Hbm : blocks_written bm).
Context (Hok : Forall (fun fs => Forall (chunk_ok bm sparse) (concat (map chunks_ fs))) inodes).
Context (Hlen : zlen (concat (map inode_chunks inodes)) < 2 ^ 32) (Hino : zlen inodes < 2 ^ 31 - 1).

(** The tables that are made, of what stands for the chunks of each inode. *)
Definition tables_of (hm : option hole_mapper) (vss : list (list meta_chunk)) : metadata :=
  meta_of k hm (map (relabel bm hm) (concat vss)) (starts 0 vss ++ [0 + zlen (concat vss)]).

Record made (w : Z) (hm : option hole_mapper) (vss : list (list meta_chunk)) : Prop := {
  ma_width : 0 <= w <= 32;
  ma_mapper : hm_inv k w bm hm;
  ma_inodes : Forall2 (fun fs vs => Forall2 (enc k bm hm) (inode_chunks fs) vs) inodes vss
}.

Lemma made_chunks w hm vss : made w hm vss -> Forall2 (enc k bm hm) (concat (map inode_chunks inodes)) (concat vss).
Proof. intros [_ _ H]. clear -H. induction H as [|fs vs inodes vss H _ IH]; [done|]. cbn. by apply Forall2_app. Qed.

Lemma tables_table hm vss : md_chunk_table (tables_of hm vss) = starts 0 vss ++ [0 + zlen (concat vss)].
Proof. unfold tables_of, meta_of. destruct hm as [m|]; [|done]. by destruct (has_holes m). Qed.

Lemma gather_chunks_made : exists w hm vss, made w hm vss /\ gather_chunks sparse (2 ^ k) bm inodes = Ok (tables_of hm vss).
Proof.
  set (max := max_data_chunk_size inodes). set (w := bit_width max).
  assert (Forall (fun fs => Forall (chunk_ok bm sparse) (inode_chunks fs)) inodes) as Hok'.
  { eapply Forall_impl; [exact Hok|]. intros fs Hfs. unfold inode_chunks. by destruct (forallb _ _). }
  assert (0 <= max < 2 ^ 32) as Hmax.
  { apply (fold_max_data_lt _ _ (num_blocks_ bm)); [lia|]. apply Forall_concat, Forall_map.
    eapply Forall_impl; [exact Hok|]. intros fs Hfs. eapply Forall_impl; [exact Hfs|]. intros c [[_ ?]|?]; [by right|by left]. }
  assert (0 <= w <= 32) as Hw by (split; [apply bit_width_nonneg|apply bit_width_spec; lia]).
  set (hm := if sparse then Some (hole_mapper_create (num_blocks_ bm) (2 ^ k) max) else None).
  assert (hm_inv k w bm hm /\ bool_decide (hm <> None) = sparse /\ hm_count_of hm = 0) as (Hinv & Hsp & Hcnt).
  { unfold hm. destruct sparse; [|done]. split_and!; [apply hole_mapper_create_inv|..]; done. }
  rewrite <- Hsp in Hok'.
  destruct (gather_inodes_spec k Hk w Hw bm Hnum inodes [] [] hm Hinv Hok') as (vss & hm' & E & _ & Hinv' & Hvss);
    [change (zlen (@nil meta_chunk)) with 0; lia|change (zlen (@nil meta_chunk)) with 0; lia|].
  assert (made w hm' vss) as Hm by done. exists w, hm', vss. split; [done|].
  pose proof (made_chunks w hm' vss Hm) as Hall. pose proof (Forall2_length _ _ _ Hall) as Hl.
  unfold gather_chunks. fold max hm. rewrite E. cbn [rbind app].
  rewrite (map_logical_blocks_ok k w bm Hnum Hbm hm' _ _ Hinv' Hall). cbn [rbind].
  assert (starts (zlen (@nil meta_chunk)) vss ++ [wrapu 32 (zlen (map (relabel bm hm') (concat vss)))] = starts 0 vss ++ [0 + zlen (concat vss)]) as ->.
  { unfold zlen in *. do 2 f_equal. rewrite length_map, wrapu_small by (unfold in_u; lia). lia. }
  unfold tables_of. by destruct hm' as [m|]; [unfold meta_of; destruct (has_holes m)|].
Qed.

Lemma made_inode w hm vss i fs : made w hm vss -> inodes !! i = Some fs ->
  exists r, get_chunk_range_from_index (tables_of hm vss) (Z.of_nat i) = Some r /\
    range_chunks (tables_of hm vss) r = Some (map (written bm) (inode_chunks fs)) /\
    inode_size_provider_get (tables_of hm vss) (Z.of_nat i) =
      Some (zlen (inode_chunks fs), wrapu 64 (sum_sizes (inode_chunks fs)), wrapu 64 (sum_data_sizes (inode_chunks fs))).
Proof.
  intros [Hw Hinv Hvss] Hi. pose proof (Forall2_length _ _ _ Hvss) as Hln.
  destruct (Forall2_lookup_l _ _ _ _ _ Hvss Hi) as (vs & Hvs & Henc). destruct (concat_take_lookup vss i vs Hvs) as [Hcc _].
  pose proof (range_ok vss _ i vs (tables_table hm vss) Hvs ltac:(unfold zlen in *; lia)) as Hr. eexists. split; [exact Hr|].
  apply (decode_ok k Hk w Hw bm Hnum Hbm hm (inode_chunks fs) (concat (take i vss)) vs
    (map (relabel bm hm) (concat (drop (S i) vss)))); try done. by rewrite Hcc, !map_app.
Qed.

Lemma made_outside w hm vss i : made w hm vss -> ~ 0 <= i < zlen inodes -> get_chunk_range_from_index (tables_of hm vss) i = None.
Proof.
  intros [_ _ Hvss] Hi. pose proof (Forall2_length _ _ _ Hvss) as Hln.
  apply (range_outside vss); [apply tables_table|unfold zlen in *; lia|unfold zlen in *; lia].
Qed.

Lemma gather_chunks_spec : exists meta, gather_chunks sparse (2 ^ k) bm inodes = Ok meta /\
    (forall i fs, inodes !! i = Some fs ->
      exists r, get_chunk_range_from_index meta (Z.of_nat i) = Some r /\
        range_chunks meta r = Some (map (written bm) (inode_chunks fs)) /\
        inode_size_provider_get meta (Z.of_nat i) =
          Some (zlen (inode_chunks fs), wrapu 64 (sum_sizes (inode_chunks fs)), wrapu 64 (sum_data_sizes (inode_chunks fs))))
    /\ forall i, ~ 0 <= i < zlen inodes -> get_chunk_range_from_index meta i = None.
Proof.
  destruct gather_chunks_made as (w & hm & vss & Hm & E). exists (tables_of hm vss). split; [done|].
  split; [intros i fs; by apply made_inode with w|intros i; by apply made_outside with w].
Qed.
End gathered.

(** The chunk tables carry the chunks of every file from the writer to the
    reader: when every chunk of the fragments is in range, [gather_chunks]
    succeeds, and for every inode the reader finds its range in the chunk
    table and decodes exactly its chunks, holes with their sizes and data with
    logical blocks replaced by written blocks (none when the fragments are
    inconsistent), and no range for another index; the sizes the writer caches are those of these chunks. *)
Theorem gather_chunks_roundtrip sparse k bm inodes :
  0 <= k < 32 -> 0 <= num_blocks_ bm < 2 ^ 32 - 1 -> blocks_written bm ->
  Forall (fun fs => Forall (chunk_ok bm sparse) (concat (map chunks_ fs))) inodes ->
  zlen (concat (map inode_chunks inodes)) < 2 ^ 32 -> zlen inodes < 2 ^ 31 - 1 ->
  exists meta, gather_chunks sparse (2 ^ k) bm inodes = Ok meta /\
    (forall i fs, inodes !! i = Some fs ->
      exists r, get_chunk_range_from_index meta (Z.of_nat i) = Some r /\
        range_chunks meta r = Some (map (written bm) (inode_chunks fs)) /\
        inode_size_provider_get meta (Z.of_nat i) =
          Some (zlen (inode_chunks fs), wrapu 64 (sum_sizes (inode_chunks fs)), wrapu 64 (sum_data_sizes (inode_chunks fs))))
    /\ forall i, ~ 0 <= i < zlen inodes -> get_chunk_range_from_index meta i = None.
Proof. apply gather_chunks_spec. Qed.

(** ** Collecting the chunks of a fragment *)

(** The calls a segmenter makes for a fragment. *)
Inductive emission : Type :=
  | EmitData (block offset size : Z)
  | EmitHole (size : Z).

Definition emit (f : fragment) (e : emission) : fragment :=
  match e with
  | EmitData b o n => add_chunk b o n f
  | EmitHole n => add_hole n f
  end.

Definition emission_size (e : emission) : Z := match e with EmitData _ _ n => n | EmitHole n => n end.
Definition emitted_size (es : list emission) : Z := foldr (fun e n => emission_size e + n) 0 es.

Section collecting.
Context (num_blocks : Z) (Hnum : num_blocks <= 2 ^ 32) (blocks : Z -> list Z).
Context (Hblocks : forall b, zlen (blocks b) < 2 ^ 32) (sparse : bool).

Definition emission_bytes (e : emission) : list Z :=
  match e with
  | EmitData b o n => slice (blocks b) o n
  | EmitHole n => replicate (Z.to_nat n) 0
  end.

Definition emission_ok (e : emission) : Prop :=
  match e with
  | EmitData b o n => 0 <= b < num_blocks /\ 0 <= o /\ 0 < n /\ o + n <= zlen (blocks b)
  | EmitHole n => sparse = true /\ 0 < n < 2 ^ 63
  end.

(** What a chunk stands for. *)
Definition chunk_bytes (c : chunk) : list Z :=
  if is_hole c then replicate (Z.to_nat (size c)) 0 else slice (blocks (block_ c)) (offset_ c) (size c).

Definition chunk_in (c : chunk) : Prop :=
  0 < size c /\ ((sparse = true /\ hole_ok c) \/ data_ok num_blocks c /\ offset_ c + size c <= zlen (blocks (block_ c))).

Lemma sum_sizes_app a b : sum_sizes (a ++ b) = sum_sizes a + sum_sizes b.
Proof. unfold sum_sizes. induction a as [|c a IH]; cbn; [done|]. rewrite IH. lia. Qed.

Lemma sum_sizes_foldl cs a : foldl (fun acc c => acc + size c) a cs = a + sum_sizes cs.
Proof. revert a. unfold sum_sizes. induction cs as [|c cs IH]; intros a; cbn; [lia|]. rewrite IH. lia. Qed.

Lemma fresh_chunk_in b o n : emission_ok (EmitData b o n) ->
  let c := data_chunk (wrapu 32 b) (wrapu 32 o) n in
  chunk_in c /\ is_hole c = false /\ size c = n /\ chunk_bytes c = slice (blocks b) o n.
Proof.
  intros (Hb & Ho & Hn & Hl). cbv zeta. pose proof (Hblocks b).
  rewrite !(wrapu_small 32) by (unfold in_u; lia). unfold data_chunk. rewrite wrapu_small by (unfold in_u; lia).
  destruct (data_bits_spec b o n ltac:(lia)) as [E1 E2]. unfold chunk_in, chunk_bytes. rewrite E1, E2. split_and!; try done; try lia.
  right. split; [|done]. split_and!; cbn; lia.
Qed.

Lemma grow_chunk_in c n : chunk_in c -> is_hole c = false -> 0 < n ->
  offset_ c + size c + n <= zlen (blocks (block_ c)) ->
  chunk_in (grow_by n c) /\ size (grow_by n c) = size c + n /\
  chunk_bytes (grow_by n c) = chunk_bytes c ++ slice (blocks (block_ c)) (offset_ c + size c) n.
Proof.
  intros [Hs Hc] Hh Hn Hl. pose proof (Hblocks (block_ c)).
  destruct Hc as [[_ Hc]|[Hd _]]; [by rewrite (proj1 (hole_ok_spec c Hc)) in Hh|].
  pose proof Hd as (H1 & H2 & H3). destruct (data_ok_spec _ _ Hd) as [_ Es].
  unfold grow_by. rewrite wrapu_small by (unfold in_u; lia).
  rewrite (proj1 (low_bits_hole (bits_ c) ltac:(lia))), Z.lor_0_r.
  destruct (data_bits_spec (block_ c) (offset_ c) (size c + n) ltac:(lia)) as [E1 E2].
  unfold chunk_in, chunk_bytes. rewrite Hh, E1, E2. cbn [block_ offset_]. split_and!; [lia| |done|].
  - right. split; [|lia]. split_and!; cbn; lia.
  - by rewrite slice_add by lia.
Qed.

Lemma emit_spec f e : Forall chunk_in (chunks_ f) -> emission_ok e ->
  Forall chunk_in (chunks_ (emit f e)) /\ frag_bits_ (emit f e) = frag_bits_ f /\
  concat (map chunk_bytes (chunks_ (emit f e))) = concat (map chunk_bytes (chunks_ f)) ++ emission_bytes e /\
  sum_sizes (chunks_ (emit f e)) = sum_sizes (chunks_ f) + emission_size e.
Proof.
  intros Hf He. destruct e as [b o n|n]; cbn [emit emission_bytes emission_size].
  - destruct (fresh_chunk_in b o n He) as (F1 & F2 & F3 & F4).
    set (c0 := data_chunk (wrapu 32 b) (wrapu 32 o) n) in *.
    assert (Forall chunk_in (chunks_ f ++ [c0]) /\
      concat (map chunk_bytes (chunks_ f ++ [c0])) = concat (map chunk_bytes (chunks_ f)) ++ slice (blocks b) o n /\
      sum_sizes (chunks_ f ++ [c0]) = sum_sizes (chunks_ f) + n) as (G1 & G2 & G3).
    { split_and!; [by apply Forall_app; split; [|constructor]| |].
      - rewrite map_app, concat_app. cbn. by rewrite app_nil_r, F4.
      - rewrite sum_sizes_app. cbn. lia. }
    unfold add_chunk. fold c0. destruct (last (chunks_ f)) as [c|] eqn:El; [|done].
    destruct (is_data c && (block_ c =? b) && (offset_ c + size c =? o)) eqn:Em; [|done].
    apply andb_prop in Em as [[Hd Hb]%andb_prop Ho]. apply Z.eqb_eq in Hb, Ho. unfold is_data in Hd.
    apply negb_true_iff in Hd. subst b o. cbn [chunks_ frag_bits_].
    apply last_Some in El as [cs Ecs]. rewrite Ecs in *. rewrite removelast_last.
    apply Forall_app in Hf as [Hcs Hc]. apply Forall_inv in Hc. destruct He as (_ & _ & Hn & Hl).
    destruct (grow_chunk_in c n Hc Hd Hn ltac:(lia)) as (K1 & K2 & K3). split_and!; [|done| |].
    + by apply Forall_app; split; [|constructor].
    + rewrite !map_app, !concat_app. cbn. by rewrite !app_nil_r, K3, app_assoc.
    + rewrite !sum_sizes_app. cbn. lia.
  - cbn in He. destruct (hole_chunk_spec n ltac:(lia)) as [E1 E2].
    unfold add_hole. cbn [chunks_ frag_bits_]. split_and!; [|done| |].
    + apply Forall_app; split; [done|]. constructor; [|done]. split; [lia|]. left. split; [apply He|]. exists n. split; [lia|done].
    + rewrite map_app, concat_app. cbn. unfold chunk_bytes at 2. by rewrite E1, E2, app_nil_r.
    + rewrite sum_sizes_app. cbn. lia.
Qed.

Lemma collects_spec f0 es : Forall emission_ok es -> chunks_ f0 = [] ->
  let f := foldl emit f0 es in
  Forall chunk_in (chunks_ f) /\ frag_bits_ f = frag_bits_ f0 /\
  concat (map chunk_bytes (chunks_ f)) = concat (map emission_bytes es) /\
  chunks_are_consistent f = bool_decide (emitted_size es = frag_size f0).
Proof.
  intros Hes H0. assert (forall f, Forall chunk_in (chunks_ f) ->
    Forall chunk_in (chunks_ (foldl emit f es)) /\ frag_bits_ (foldl emit f es) = frag_bits_ f /\
    concat (map chunk_bytes (chunks_ (foldl emit f es))) = concat (map chunk_bytes (chunks_ f)) ++ concat (map emission_bytes es) /\
    sum_sizes (chunks_ (foldl emit f es)) = sum_sizes (chunks_ f) + emitted_size es) as H.
  { induction Hes as [|e es He _ IH]; intros f Hf.
    - cbn. rewrite app_nil_r. split_and!; try done. lia.
    - cbn [foldl map concat emitted_size foldr]. destruct (emit_spec f e Hf He) as (H1 & H2 & H3 & H4).
      destruct (IH (emit f e) H1) as (I1 & I2 & I3 & I4). rewrite I2, I3, I4, H2, H3, H4, <- app_assoc.
      split_and!; try done. unfold emitted_size. lia. }
  destruct (H f0) as (H1 & H2 & H3 & H4); [by rewrite H0|]. rewrite H0 in H3, H4. cbv zeta. split_and!; [done|done|done|].
  unfold chunks_are_consistent, frag_size. rewrite H2, sum_sizes_foldl, H4. fold (frag_size f0). cbn [sum_sizes foldr].
  destruct (Z.ltb_spec 0 (frag_size f0)), (bool_decide_reflect (chunks_ (foldl emit f0 es) = [])) as [E|E];
    cbn [andb]; try (case_bool_decide; [apply Z.eqb_eq; lia|apply Z.eqb_neq; lia]).
  symmetry. apply bool_decide_eq_false. rewrite E in H4. cbn in H4. lia.
Qed.

Lemma frag_size_data n : 0 <= n < 2 ^ 63 -> frag_size (data_fragment n) = n.
Proof. intros H. unfold frag_size, data_fragment. cbn [frag_bits_]. rewrite wrapu_small by (unfold in_u; lia). by apply low_bits_hole. Qed.

(** A fragment collects exactly what the segmenter emits for it, merging
    chunks that continue each other in a block: its chunks are in range, cover
    the same bytes in the same order, and are found consistent exactly when the
    sizes emitted add up to the size of the fragment. *)
Theorem fragment_collects es length : Forall emission_ok es -> 0 <= length < 2 ^ 63 ->
  let f := foldl emit (data_fragment length) es in
  Forall chunk_in (chunks_ f) /\
  concat (map chunk_bytes (chunks_ f)) = concat (map emission_bytes es) /\
  chunks_are_consistent f = bool_decide (emitted_size es = length).
Proof. intros He Hl f. destruct (collects_spec (data_fragment length) es He eq_refl) as (H1 & _ & H2 & H3). by rewrite frag_size_data in H3. Qed.
End collecting.

(** ** Witnesses *)

Definition witness_fragment : fragment :=
  foldl emit (data_fragment 32) [EmitData 1 0 4; EmitData 1 4 2; EmitHole 20; EmitData 0 8 6].
Definition witness_manager : block_manager :=
  set_written_block 0 1 (set_written_block 1 0 (get_logical_block (get_logical_block (BlockManager 0 [])).2).2).

Lemma fragment_collects_witness :
  length (chunks_ witness_fragment) = 3%nat /\
  chunks_are_consistent witness_fragment = bool_decide (emitted_size [EmitData 1 0 4; EmitData 1 4 2; EmitHole 20; EmitData 0 8 6] = 32).
Proof.
  split; [done|].
  destruct (fragment_collects 2 ltac:(lia) (fun _ => replicate 16 0) ltac:(intros b; done) true
    [EmitData 1 0 4; EmitData 1 4 2; EmitHole 20; EmitData 0 8 6] 32) as (_ & _ & H); [|lia|exact H].
  rewrite !Forall_cons. unfold emission_ok. change (zlen (replicate 16 0)) with 16.
  split_and!; try lia. apply Forall_nil_2.
Defined.

Lemma gather_chunks_roundtrip_witness :
  exists meta, gather_chunks true (2 ^ 4) witness_manager [[witness_fragment]; []] = Ok meta /\
    exists r, get_chunk_range_from_index meta 0 = Some r /\
      range_chunks meta r = Some [Chunk 0 0 6; hole_chunk 20; Chunk 1 8 6].
Proof.
  destruct (gather_chunks_roundtrip true 4 witness_manager [[witness_fragment]; []]) as (meta & E & H);
    [lia|by vm_compute| | |by vm_compute|by vm_compute|].
  - intros b Hb. change (num_blocks_ witness_manager) with 2 in *. assert (b = 0 \/ b = 1) as [-> | ->] by lia.
    + exists 1. split; [done|lia].
    + exists 0. split; [done|lia].
  - rewrite !Forall_cons. cbn [map concat]. split_and!; [|apply Forall_nil_2|apply Forall_nil_2].
    assert (chunks_ witness_fragment ++ [] = [Chunk 1 0 6; hole_chunk 20; Chunk 0 8 6]) as -> by done.
    rewrite !Forall_cons. split_and!; [right; split_and!; cbn; lia| |right; split_and!; cbn; lia|apply Forall_nil_2].
    left. split; [done|]. exists 20. split; [lia|done].
  - exists meta. split; [done|]. destruct (proj1 H 0%nat [witness_fragment] eq_refl) as (r & Hr & Hc & _). exists r. split; [done|].
    rewrite Hc. by vm_compute.
Defined.
