(* ===== verification/FileView.v ===== *)
(** * FileView: a file and its holes

    [src/internal/mmap_file_view.cpp], [include/dwarfs/file_view.h]: a file that
    was opened, with its extents, and reading segments of it.  The bytes of the
    file and its extents, which the operating system gives, are the state; a
    mapping of the file shows its bytes. *)

From S2P Require Import Prelude FileRange Segmenter.
Local Open Scope Z_scope.

(** [mmap_file_view]: the bytes of the file, and the extents. *)
Record file_view : Type := FileView { fv_file : list Z; fv_extents : list (extent_info extent_kind) }.

(** [get_file_extents]; [os_extents] is what the system says. *)
Definition get_file_extents (hollow : bool) (file : list Z) (os_extents : list (extent_info extent_kind)) : list (extent_info extent_kind) :=
  if hollow then if 0 <? zlen file then [ExtentInfo extent_hole (FileRange 0 (zlen file))] else []
  else os_extents.

Definition open_view (hollow : bool) (file : list Z) (os_extents : list (extent_info extent_kind)) : file_view :=
  FileView file (get_file_extents hollow file os_extents).

Definition fv_size (v : file_view) : Z := zlen (fv_file v).

Definition is_hole_extent (e : extent_info extent_kind) : bool := match ext_kind e with extent_hole => true | extent_data => false end.

(** The extent with the offset is the first that ends behind it. *)
Definition range_is_all_zero (v : file_view) (r : file_range) : bool :=
  match skip_extents (fv_extents v) r with
  | e :: _ => is_hole_extent e && (range_end r <=? range_end (ext_range e))
  | [] => false
  end.

(** [None] is the empty segment. *)
Definition segment_at (v : file_view) (r : file_range) : option (list Z) :=
  if (offset_ r <? 0) || (size_ r =? 0) || (fv_size v <? offset_ r + size_ r) then None
  else if range_is_all_zero v r then Some (replicate (Z.to_nat (size_ r)) 0)
  else Some (read_range (fv_file v) r).

Definition default_segment_size : Z := 16 * 2 ^ 20.

(** What a loop over the segments of an extent reads. *)
Definition extent_bytes (v : file_view) (max_bytes : Z) (e : extent_info extent_kind) : list Z :=
  concat (map (fun r => default [] (segment_at v r)) (segments (ext_range e) (if max_bytes =? 0 then default_segment_size else max_bytes) 0)).

(** [file_view::extents], each with what is read of it. *)
Definition view_extents (v : file_view) (range : option file_range) : list file_extent :=
  map (fun e => FileExtent (ext_kind e) (extent_bytes v 0 e)) (extents_in (fv_extents v) (default (FileRange 0 (fv_size v)) range)).

(** ** What a view shows *)

(** The bytes of the file, but zeros where there are holes. *)
Definition shown (v : file_view) : list Z :=
  concat (map (fun e => if is_hole_extent e then replicate (Z.to_nat (size_ (ext_range e))) 0 else read_range (fv_file v) (ext_range e)) (fv_extents v)).

(** The extents are those of the file. *)
Definition view_ok (v : file_view) : Prop := contiguous 0 (fv_size v) (fv_extents v).

Lemma get_file_extents_ok hollow file os_extents : contiguous 0 (zlen file) os_extents -> view_ok (open_view hollow file os_extents).
Proof.
  intros H. unfold view_ok, open_view, fv_size, get_file_extents. cbn [fv_file fv_extents]. destruct hollow; [|done].
  pose proof (zlen_nonneg file). destruct (Z.ltb_spec 0 (zlen file)); cbn; unfold range_end; cbn; lia.
Qed.

Lemma zlen_replicate (n : Z) (x : Z) : 0 <= n -> zlen (replicate (Z.to_nat n) x) = n.
Proof. intros H. unfold zlen. rewrite length_replicate. lia. Qed.

Lemma slice_replicate (n o m : Z) : 0 <= o -> 0 <= m -> o + m <= n -> slice (replicate (Z.to_nat n) 0) o m = replicate (Z.to_nat m) 0.
Proof. intros Ho Hm H. unfold slice. rewrite drop_replicate, take_replicate. f_equal. lia. Qed.

Section shown.
Context (v : file_view).

#[local] Abbreviation part := (fun e => if is_hole_extent e then replicate (Z.to_nat (size_ (ext_range e))) 0 else read_range (fv_file v) (ext_range e)).

Lemma part_length e : 0 <= offset_ (ext_range e) -> 0 <= size_ (ext_range e) -> range_end (ext_range e) <= fv_size v -> zlen (part e) = size_ (ext_range e).
Proof.
  intros Ho Hs He. cbv beta. destruct (is_hole_extent e); [by apply zlen_replicate|]. apply slice_length; [done..|]. unfold range_end, fv_size in He. lia.
Qed.

Lemma parts_length es lo : contiguous lo (fv_size v) es -> 0 <= lo -> zlen (concat (map part es)) = fv_size v - lo.
Proof.
  revert lo. induction es as [|e es IH]; intros lo Hc Hlo; [cbn in Hc; unfold zlen; cbn; lia|]. destruct Hc as (Eo & Hp & Hc).
  pose proof (contiguous_le _ _ _ Hc) as Hle. cbn [map concat]. rewrite zlen_app, part_length, (IH _ Hc) by (unfold range_end in *; lia). unfold range_end. lia.
Qed.

Lemma parts_slice es lo r e : contiguous lo (fv_size v) es -> 0 <= lo -> e ∈ es -> offset_ (ext_range e) <= offset_ r -> 0 <= size_ r -> range_end r <= range_end (ext_range e) ->
  slice (concat (map part es)) (offset_ r - lo) (size_ r) = if is_hole_extent e then replicate (Z.to_nat (size_ r)) 0 else read_range (fv_file v) r.
Proof.
  revert lo. induction es as [|e' es IH]; intros lo Hc Hlo Hin Ho Hs He; [by apply elem_of_nil in Hin|]. destruct Hc as (Eo & Hpos & Hc). cbn [map concat].
  pose proof (contiguous_le _ _ _ Hc) as Hle. pose proof (part_length e') as Hl. unfold range_end in *. apply elem_of_cons in Hin as [->|Hin].
  - rewrite slice_app_l by lia. destruct (is_hole_extent e'); [apply slice_replicate; lia|]. unfold read_range. rewrite slice_slice by lia. f_equal. lia.
  - assert (offset_ (ext_range e') + size_ (ext_range e') <= offset_ (ext_range e)) as Hb.
    { revert Hc Hin. clear. generalize (offset_ (ext_range e') + size_ (ext_range e')) as k. induction es as [|x es IH]; intros k Hc Hin; [by apply elem_of_nil in Hin|].
      destruct Hc as (<- & Hp & Hc). apply elem_of_cons in Hin as [->|Hin]; [lia|]. specialize (IH _ Hc Hin). unfold range_end in IH. lia. }
    rewrite (slice_skip _ _ _ _ (size_ (ext_range e'))) by (apply Hl || idtac; lia). rewrite <- (IH _ Hc) by (done || lia). f_equal. lia.
Qed.

Context (Hv : view_ok v).

Lemma shown_length : zlen (shown v) = fv_size v.
Proof. unfold shown. rewrite (parts_length _ 0) by done. lia. Qed.

Lemma shown_range r e : e ∈ fv_extents v -> offset_ (ext_range e) <= offset_ r -> 0 <= size_ r -> range_end r <= range_end (ext_range e) ->
  read_range (shown v) r = if is_hole_extent e then replicate (Z.to_nat (size_ r)) 0 else read_range (fv_file v) r.
Proof. intros Hin Ho Hs He. unfold read_range at 1, shown. rewrite <- (parts_slice (fv_extents v) 0 r e) by done. f_equal. lia. Qed.

(** The extent that is found for a range inside of an extent is that extent. *)
Lemma skip_extents_found (es : list (extent_info extent_kind)) lo r e : contiguous lo (fv_size v) es -> e ∈ es -> offset_ (ext_range e) <= offset_ r < range_end (ext_range e) ->
  exists es', skip_extents es r = e :: es'.
Proof.
  revert lo. induction es as [|e' es IH]; intros lo Hc Hin Hr; [by apply elem_of_nil in Hin|]. destruct Hc as (Eo & Hpos & Hc). unfold skip_extents.
  destruct (Z.leb_spec (range_end (ext_range e')) (offset_ r)) as [Hle|Hgt].
  - apply elem_of_cons in Hin as [->|Hin]; [lia|]. by apply (IH _ Hc).
  - apply elem_of_cons in Hin as [->|Hin]; [by eexists|]. exfalso. revert Hc Hin Hr Hgt. clear. generalize (range_end (ext_range e')) as k. induction es as [|x es IH]; intros k Hc Hin Hr Hgt; [by apply elem_of_nil in Hin|].
    destruct Hc as (<- & Hp & Hc). apply elem_of_cons in Hin as [->|Hin]; [lia|]. apply (IH _ Hc Hin Hr). unfold range_end. lia.
Qed.

Lemma extent_bounds (es : list (extent_info extent_kind)) lo e : contiguous lo (fv_size v) es -> 0 <= lo -> e ∈ es -> 0 <= offset_ (ext_range e) /\ 0 < size_ (ext_range e) /\ range_end (ext_range e) <= fv_size v.
Proof.
  revert lo. induction es as [|x es IH]; intros lo Hc Hlo Hin; [by apply elem_of_nil in Hin|]. destruct Hc as (E & Hp & Hc). pose proof (contiguous_le _ _ _ Hc).
  apply elem_of_cons in Hin as [->|Hin]; [lia|]. apply (IH _ Hc); [unfold range_end; lia|done].
Qed.

(** A segment of an extent is what the view shows there. *)
Lemma segment_at_shown r e : e ∈ fv_extents v -> offset_ (ext_range e) <= offset_ r -> 0 < size_ r -> range_end r <= range_end (ext_range e) ->
  segment_at v r = Some (read_range (shown v) r).
Proof.
  intros Hin Ho Hs He. destruct (extent_bounds _ 0 e Hv ltac:(lia) Hin) as (B1 & B2 & B3). unfold segment_at, range_end in *.
  destruct (Z.ltb_spec (offset_ r) 0), (Z.eqb_spec (size_ r) 0), (Z.ltb_spec (fv_size v) (offset_ r + size_ r)); try lia. cbn [orb].
  unfold range_is_all_zero. destruct (skip_extents_found _ 0 r e Hv Hin) as [es' ->]; [unfold range_end; lia|]. rewrite (shown_range r e) by (unfold range_end; done || lia).
  destruct (Z.leb_spec (range_end r) (range_end (ext_range e))); [|unfold range_end in *; lia]. rewrite andb_true_r. by destruct (is_hole_extent e).
Qed.

Lemma extent_bytes_shown max_bytes e e' range : 0 <= max_bytes -> e ∈ fv_extents v -> clipped range e e' ->
  extent_bytes v max_bytes e' = read_range (shown v) (ext_range e').
Proof.
  intros Hmax Hin (_ & Ho & He & Hs). destruct (extent_bounds _ 0 e Hv ltac:(lia) Hin) as (B1 & B2 & B3). unfold extent_bytes.
  set (m := if max_bytes =? 0 then default_segment_size else max_bytes). assert (0 < m) as Hm by (unfold m, default_segment_size; destruct (Z.eqb_spec max_bytes 0); lia).
  assert (0 <= offset_ (ext_range e') /\ 0 <= size_ (ext_range e') /\ range_end (ext_range e') <= zlen (shown v)) as Hr by (rewrite shown_length; unfold range_end in *; lia).
  destruct (segments_spec (shown v) (ext_range e') m 0 Hr Hm ltac:(lia)) as [Hall <-]. revert Hall. generalize (segments (ext_range e') m 0) as segs. intros segs Hall.
  transitivity (concat (map (read_range (shown v)) segs)).
  - f_equal. apply map_ext_Forall. eapply Forall_impl; [exact Hall|]. intros r (H1 & H2 & H3). rewrite (segment_at_shown r e) by (unfold range_begin, range_end in *; done || lia). done.
  - destruct segs as [|s segs]; [done|]. cbn [joined map concat]. f_equal.
Qed.
End shown.

(** What is iterated over in a range is what the view shows there, with zeros in
    the holes, and no extent is empty. *)
Lemma view_extents_shown v range : view_ok v -> let r := default (FileRange 0 (fv_size v)) range in
  0 <= offset_ r -> 0 <= size_ r -> range_end r <= fv_size v ->
  concat (map raw_bytes (view_extents v range)) = read_range (shown v) r /\
  Forall (fun x => 0 < zlen (raw_bytes x) /\ (kind x = extent_hole -> raw_bytes x = replicate (length (raw_bytes x)) 0)) (view_extents v range).
Proof.
  intros Hv r Ho Hs He. pose proof (extents_in_clipped (fv_extents v) r (fv_size v) Hv Ho Hs He) as Hc.
  assert (contiguous 0 (zlen (shown v)) (fv_extents v)) as Hv' by by rewrite shown_length.
  rewrite <- (extents_in_spec (shown v) (fv_extents v) r) by (rewrite ?shown_length; done). unfold view_extents, read_extents. fold r. rewrite map_map. cbn [raw_bytes]. split.
  - f_equal. apply map_ext_Forall. eapply Forall_impl; [exact Hc|]. intros e' (e & Hin & H). by apply (extent_bytes_shown v Hv 0 e e' r).
  - apply Forall_map. eapply Forall_impl; [exact Hc|]. intros e' (e & Hin & H). cbn [raw_bytes kind]. rewrite (extent_bytes_shown v Hv 0 e e' r) by done.
    destruct H as (Hk & Ho' & He' & Hs'). destruct (extent_bounds v _ 0 e Hv ltac:(lia) Hin) as (B1 & B2 & B3). split.
    + unfold read_range. rewrite slice_length; rewrite ?shown_length by done; unfold range_end in *; lia.
    + intros Ek. rewrite (shown_range v Hv _ e) by (unfold range_end in *; done || lia). unfold is_hole_extent. rewrite <- Hk, Ek, length_replicate. done.
Qed.
