(* ===== verification/Categorizer.v ===== *)
(** * Categorizer: what category each part of a file has

    [src/writer/categorizer.cpp], [include/dwarfs/writer/categorizer.h],
    [include/dwarfs/writer/fragment_category.h]: the categories, and the job that
    asks the categorizers in their order.  The categorizers themselves, which are
    chosen when the program starts, are arguments: one that looks at the whole
    file, or one that is given its data in order. *)

From S2P Require Import Prelude FileChunks FileRange Segmenter FileView.
Local Open Scope Z_scope.

(** ** [fragment_category] *)

Definition uninitialized : Z := 2 ^ 32 - 1.

Record fragment_category : Type := FragmentCategory { fc_value : Z; fc_subcategory : Z }.

#[export] Instance fragment_category_eq_dec : EqDecision fragment_category.
Proof. solve_decision. Defined.

#[export] Instance fragment_category_countable : Countable fragment_category.
Proof. refine (inj_countable' (fun c => (fc_value c, fc_subcategory c)) (fun p => FragmentCategory p.1 p.2) _). by intros []. Qed.

Definition category_empty (c : fragment_category) : bool := fc_value c =? uninitialized.
Definition has_subcategory (c : fragment_category) : bool := negb (category_empty c) && negb (fc_subcategory c =? uninitialized).

(** The defaulted [operator<=>]. *)
Definition category_less (a b : fragment_category) : bool :=
  (fc_value a <? fc_value b) || ((fc_value a =? fc_value b) && (fc_subcategory a <? fc_subcategory b)).

(** [categorizer_manager::default_category]. *)
Definition default_category : fragment_category := FragmentCategory 0 uninitialized.

(** A [single_inode_fragment] with its category, and [inode_fragments]. *)
Definition inode_fragment : Type := fragment_category * FileChunks.fragment.

Definition fragments_total_size (fs : list inode_fragment) : Z := foldl (fun acc f => acc + frag_size f.2) 0 fs.

(** [get_category_sizes]. *)
Definition get_category_sizes (fs : list inode_fragment) : gmap fragment_category Z :=
  foldl (fun m f => <[f.1 := default 0 (m !! f.1) + frag_size f.2]> m) ∅ fs.

(** ** [categorizer_job] *)

(** What a [sequential_categorizer_job] is given. *)
Inductive seq_event : Type :=
  | AddData (bytes : list Z)
  | AddHole (size : Z).

(** Such a job: its result, from what it was given. *)
Definition sequential_job : Type := list seq_event -> list inode_fragment.

Inductive categorizer : Type :=
  | RandomAccess (categorize : list Z -> file_view -> list inode_fragment)
  | Sequential (job : list Z -> Z -> option sequential_job).

(** [seq_jobs_] has the index of the categorizer, its job, and what that was given. *)
Record categorizer_job : Type := CategorizerJob {
  best_ : list inode_fragment;
  index_ : option nat;
  is_global_best_ : bool;
  total_size_ : Z;
  seq_jobs_ : list (nat * sequential_job * list seq_event)
}.

Inductive categorizer_error : Type := index_already_set.

Definition new_job : categorizer_job := CategorizerJob [] None false 0 [].

Section job.
Context (categorizers : list categorizer) (path : list Z).

Definition set_total_size (total_size : Z) (j : categorizer_job) : categorizer_job :=
  CategorizerJob (best_ j) (index_ j) (is_global_best_ j) total_size (seq_jobs_ j).

(** The loop, from the categorizer [i] on. *)
Fixpoint random_access_loop (cats : list categorizer) (i : nat) (v : file_view) (global_best : bool) (j : categorizer_job) : categorizer_job :=
  match cats with
  | [] => j
  | RandomAccess categorize :: cats =>
      match categorize path v with
      | [] => random_access_loop cats (S i) v global_best j
      | c => CategorizerJob c (Some i) global_best (total_size_ j) (seq_jobs_ j)
      end
  | Sequential _ :: cats => random_access_loop cats (S i) v false j
  end.

Definition categorize_random_access (v : file_view) (j : categorizer_job) : result categorizer_error categorizer_job :=
  match index_ j with
  | Some _ => Err index_already_set
  | None => Ok (random_access_loop categorizers 0 v true (set_total_size (fv_size v) j))
  end.

(** The jobs of the categorizers before [index_]. *)
Fixpoint make_seq_jobs (cats : list categorizer) (i : nat) (index : option nat) (total_size : Z) : list (nat * sequential_job * list seq_event) :=
  match cats with
  | [] => []
  | c :: cats =>
      if match index with Some k => (k <=? i)%nat | None => false end then []
      else
        match c with
        | Sequential make =>
            match make path total_size with
            | Some job => (i, job, []) :: make_seq_jobs cats (S i) index total_size
            | None => make_seq_jobs cats (S i) index total_size
            end
        | RandomAccess _ => make_seq_jobs cats (S i) index total_size
        end
  end.

(** What the jobs are given of an extent. *)
Definition extent_events (v : file_view) (chunk_size : Z) (e : extent_info extent_kind) : list seq_event :=
  match ext_kind e with
  | extent_hole => [AddHole (size_ (ext_range e))]
  | extent_data => map (fun r => AddData (default [] (segment_at v r))) (segments (ext_range e) (if chunk_size =? 0 then default_segment_size else chunk_size) 0)
  end.

Definition file_events (v : file_view) (chunk_size : Z) : list seq_event :=
  concat (map (extent_events v chunk_size) (extents_in (fv_extents v) (FileRange 0 (fv_size v)))).

Definition feed (events : list seq_event) (job : nat * sequential_job * list seq_event) : nat * sequential_job * list seq_event :=
  let '(i, f, given) := job in (i, f, given ++ events).

Definition categorize_sequential (v : file_view) (chunk_size : Z) (j : categorizer_job) : categorizer_job :=
  if is_global_best_ j then j
  else
    let jobs := match seq_jobs_ j with [] => make_seq_jobs categorizers 0 (index_ j) (total_size_ j) | jobs => jobs end in
    CategorizerJob (best_ j) (index_ j) (is_global_best_ j) (total_size_ j) (map (feed (file_events v chunk_size)) jobs).

Fixpoint first_result (jobs : list (nat * sequential_job * list seq_event)) (best : list inode_fragment) : list inode_fragment :=
  match jobs with
  | [] => best
  | (_, job, given) :: jobs => match job given with [] => first_result jobs best | c => c end
  end.

Definition job_result (j : categorizer_job) : list inode_fragment := first_result (seq_jobs_ j) (best_ j).

Definition best_result_found (j : categorizer_job) : bool := is_global_best_ j.

(** How [inode_::scan] runs a job. *)
Definition categorize (v : file_view) (chunk_size : Z) : result categorizer_error (list inode_fragment) :=
  let? j := categorize_random_access v (set_total_size (fv_size v) new_job) in
  let j := if best_result_found j then j else categorize_sequential v chunk_size j in
  Ok (job_result j).

(** ** The first that has something to say *)

(** What a categorizer makes of the file. *)
Definition answer (v : file_view) (chunk_size : Z) (c : categorizer) : list inode_fragment :=
  match c with
  | RandomAccess categorize => categorize path v
  | Sequential make => match make path (fv_size v) with Some job => job (file_events v chunk_size) | None => [] end
  end.

Fixpoint first_answer (answers : list (list inode_fragment)) : list inode_fragment :=
  match answers with
  | [] => []
  | [] :: answers => first_answer answers
  | a :: _ => a
  end.

(** A categorizer that looks at the whole file has nothing to say. *)
Definition silent (v : file_view) (c : categorizer) : Prop := match c with RandomAccess categorize => categorize path v = [] | Sequential _ => True end.

Lemma first_answer_app a b : first_answer (a ++ b) = match first_answer a with [] => first_answer b | x => x end.
Proof. induction a as [|[|x l] a IH]; [done|exact IH|done]. Qed.

Lemma first_answer_none {A} (f : A -> list inode_fragment) l : Forall (fun c => f c = []) l -> first_answer (map f l) = [].
Proof. induction 1 as [|c l Hc _ IH]; [done|]. cbn. by rewrite Hc. Qed.

(** The categorizers before [index]. *)
Definition before (index : option nat) (cats : list categorizer) : list categorizer := match index with Some k => take k cats | None => cats end.

Lemma sequential_answers v n cats i index best : Forall (silent v) (before ((fun k => k - i)%nat <$> index) cats) ->
  first_result (map (feed (file_events v n)) (make_seq_jobs cats i index (fv_size v))) best =
  match first_answer (map (answer v n) (before ((fun k => k - i)%nat <$> index) cats)) with [] => best | a => a end.
Proof.
  revert i. induction cats as [|c cats IH]; intros i H; [by destruct index; cbn; rewrite ?take_nil|]. cbn [make_seq_jobs].
  assert (forall jobs, Forall (silent v) (c :: before ((fun k => k - S i)%nat <$> index) cats) ->
    jobs = match c with Sequential make => match make path (fv_size v) with Some job => [(i, job, [])] | None => [] end | RandomAccess _ => [] end ->
    first_result (map (feed (file_events v n)) (jobs ++ make_seq_jobs cats (S i) index (fv_size v))) best =
    match first_answer (answer v n c :: map (answer v n) (before ((fun k => k - S i)%nat <$> index) cats)) with [] => best | a => a end) as Hstep.
  { intros jobs Hs ->. apply Forall_cons in Hs as [Hc Hs]. specialize (IH (S i) Hs). destruct c as [f|make]; cbn [silent answer] in *.
    - rewrite Hc. exact IH.
    - destruct (make path (fv_size v)) as [job|]; [|exact IH]. cbn [app map feed first_result first_answer]. destruct (job (file_events v n)); [exact IH|done]. }
  destruct index as [k|]; cbn [fmap option_fmap option_map before] in *.
  - destruct (Nat.leb_spec k i) as [Hle|Hlt]; [replace (k - i)%nat with O by lia; done|]. replace (k - i)%nat with (S (k - S i)) in * by lia. cbn [take] in *.
    refine (eq_trans _ (Hstep _ H eq_refl)). by destruct c as [f|make]; [|destruct (make path (fv_size v))].
  - refine (eq_trans _ (Hstep _ H eq_refl)). by destruct c as [f|make]; [|destruct (make path (fv_size v))].
Qed.

(** The first of the categorizers that look at the whole file. *)
Lemma random_access_answers v n cats i global_best j :
  (Forall (silent v) cats /\ random_access_loop cats i v global_best j = j) \/
  exists pre f post, cats = pre ++ RandomAccess f :: post /\ Forall (silent v) pre /\ f path v <> [] /\
    exists g, random_access_loop cats i v global_best j = CategorizerJob (f path v) (Some (i + length pre)%nat) g (total_size_ j) (seq_jobs_ j) /\
      (g = true -> global_best = true /\ Forall (fun c => answer v n c = []) pre).
Proof.
  revert i global_best. induction cats as [|c cats IH]; intros i gb; [left; split; [constructor|done]|]. cbn [random_access_loop]. destruct c as [f|make].
  - destruct (f path v) as [|x l] eqn:E.
    + destruct (IH (S i) gb) as [[H1 H2]|(pre & f' & post & -> & H1 & H2 & g & H3 & H4)]; [left; split; [by constructor|done]|right].
      exists (RandomAccess f :: pre), f', post. split; [done|]. split; [by constructor|]. split; [done|]. exists g. cbn [length]. rewrite H3.
      split; [do 2 f_equal; lia|]. intros Hg. destruct (H4 Hg). split; [done|]. by constructor.
    + right. exists [], f, cats. split; [done|]. split; [constructor|]. rewrite E. split; [done|]. exists gb. cbn [length]. rewrite Nat.add_0_r. split; [done|]. intros ->. split; [done|constructor].
  - destruct (IH (S i) false) as [[H1 H2]|(pre & f' & post & -> & H1 & H2 & g & H3 & H4)]; [left; split; [by constructor|done]|right].
    exists (Sequential make :: pre), f', post. split; [done|]. split; [by constructor|]. split; [done|]. exists false.
    assert (g = false) as -> by (destruct g; [by destruct (H4 eq_refl)|done]). cbn [length]. rewrite H3. split; [do 2 f_equal; lia|done].
Qed.

(** The answer is that of the first categorizer, in their order, that has
    one: one that looks at the whole file is asked first, but gives way to those
    before it that are given the data in order. *)
Lemma categorize_spec v n : categorize v n = Ok (first_answer (map (answer v n) categorizers)).
Proof.
  unfold categorize, categorize_random_access, new_job, set_total_size. cbn [index_ best_ is_global_best_ total_size_ seq_jobs_ rbind].
  set (j := CategorizerJob _ _ _ _ _). destruct (random_access_answers v n categorizers 0 true j) as [[Hs ->]|(pre & f & post & E & Hs & Hf & g & -> & Hg)].
  - cbn [rbind best_result_found is_global_best_ j]. unfold categorize_sequential, job_result. cbn [is_global_best_ seq_jobs_ index_ total_size_ best_ j].
    pose proof (sequential_answers v n categorizers 0 None [] Hs) as H. cbn [fmap option_fmap option_map before] in H. rewrite H. by destruct (first_answer _).
  - cbn [rbind best_result_found is_global_best_].
    assert (first_answer (map (answer v n) categorizers) = match first_answer (map (answer v n) pre) with [] => f path v | a => a end) as ->.
    { rewrite E, map_app, first_answer_app. cbn [map answer]. assert (first_answer (f path v :: map (answer v n) post) = f path v) as -> by by destruct (f path v). done. }
    destruct g.
    + destruct (Hg eq_refl) as [_ Hpre]. unfold job_result. cbn [seq_jobs_ first_result best_ j]. by rewrite (first_answer_none _ _ Hpre).
    + unfold categorize_sequential, job_result. cbn [is_global_best_ seq_jobs_ index_ total_size_ best_ j].
      pose proof (sequential_answers v n categorizers 0 (Some (0 + length pre)%nat) (f path v)) as H. cbn [fmap option_fmap option_map before] in H.
      assert (take (0 + length pre - 0) categorizers = pre) as Et by (rewrite E, Nat.sub_0_r; apply take_app_length). rewrite Et in H. by rewrite (H Hs).
Qed.
End job.

(** ** What sequential categorizers are given *)

Definition event_bytes (e : seq_event) : list Z := match e with AddData bytes => bytes | AddHole n => replicate (Z.to_nat n) 0 end.

Definition event_ok (v : file_view) (chunk_size : Z) (e : seq_event) : Prop :=
  match e with
  | AddData bytes => 0 < zlen bytes <= if chunk_size =? 0 then default_segment_size else chunk_size
  | AddHole n => 0 < n
  end.

(** They are given the whole file, in order, in parts of at most
    [chunk_size] bytes, holes as holes. *)
Lemma file_events_spec v n : view_ok v -> 0 <= n -> concat (map event_bytes (file_events v n)) = shown v /\ Forall (event_ok v n) (file_events v n).
Proof.
  intros Hv Hn. pose proof (zlen_nonneg (fv_file v)) as Hz. set (r := FileRange 0 (fv_size v)).
  assert (0 <= offset_ r /\ 0 <= size_ r /\ range_end r <= fv_size v) as (R1 & R2 & R3) by (unfold range_end, r, fv_size; cbn; lia).
  pose proof (extents_in_clipped (fv_extents v) r (fv_size v) Hv R1 R2 R3) as Hc.
  assert (read_extents (shown v) (extents_in (fv_extents v) r) = shown v) as Es.
  { rewrite extents_in_spec; rewrite ?(shown_length v Hv); try done. unfold read_range, r. cbn [offset_ size_]. rewrite <- (shown_length v Hv). by apply slice_all. }
  assert (forall e', (exists e, e ∈ fv_extents v /\ clipped r e e') ->
    concat (map event_bytes (extent_events v n e')) = read_range (shown v) (ext_range e') /\ Forall (event_ok v n) (extent_events v n e')) as He.
  { intros e' (e & Hin & Hcl). pose proof Hcl as (Hk & Ho & Hend & Hs). destruct (extent_bounds v _ 0 e Hv ltac:(lia) Hin) as (B1 & B2 & B3).
    unfold extent_events. rewrite Hk. destruct (ext_kind e) eqn:Ek.
    - rewrite map_map. cbn [event_bytes]. split; [by apply (extent_bytes_shown v Hv n e e' r)|]. set (m := if n =? 0 then default_segment_size else n).
      assert (0 < m) as Hm by (unfold m, default_segment_size; destruct (Z.eqb_spec n 0); lia).
      destruct (segments_spec (shown v) (ext_range e') m 0) as [Hseg _]; [rewrite (shown_length v Hv); unfold range_end in *; lia|done|lia|].
      apply Forall_map. eapply Forall_impl; [exact Hseg|]. intros s (H1 & H2 & H3). unfold event_ok. rewrite (segment_at_shown v Hv s e) by (unfold range_begin, range_end in *; done || lia).
      cbn [from_option id]. unfold read_range. rewrite slice_length; rewrite ?(shown_length v Hv); unfold range_begin, range_end in *; lia.
    - cbn [map concat event_bytes]. rewrite app_nil_r. rewrite (shown_range v Hv _ e) by (unfold range_end in *; done || lia). unfold is_hole_extent. rewrite Ek.
      split; [done|]. by constructor. }
  unfold file_events. fold r. rewrite <- Es at 1. unfold read_extents. revert Hc. generalize (extents_in (fv_extents v) r) as es. intros es. clear Es.
  induction 1 as [|e' es H _ [IH1 IH2]]; [by split|]. destruct (He e' H) as [H1 H2]. cbn [map concat]. rewrite map_app, concat_app, H1, IH1. split; [done|]. by apply Forall_app.
Qed.
