(* ===== verification/SparseSeek.v ===== *)
(** * SparseSeek: [SEEK_DATA] and [SEEK_HOLE]

    [sparse_file_seeker] of [include/dwarfs/reader/internal/sparse_file_seeker.h]:
    the one-off [seek] that scans the chunks of a file, and the object that
    keeps the holes and looks the offset up by binary search; both give what
    [lseek] is defined to give.  [MetadataSeek] chooses between them. *)

From S2P Require Import Prelude Bits FileRange FileChunks.
Local Open Scope Z_scope.

Inductive seek_whence : Type := seek_data | seek_hole.

(** The codes of [std::errc]; the last two are of [metadata_v2_data::seek]. *)
Inductive seek_error : Type := no_such_device_or_address | not_supported | invalid_argument.

(** ** [sparse_file_seeker] *)

Definition get_offset_hole (hole : file_range) (offset : Z) (whence : seek_whence) (is_last_hole : bool) :
    result seek_error Z :=
  match whence with
  | seek_hole => Ok (Z.max (range_begin hole) offset)
  | seek_data =>
      if offset <? range_begin hole then Ok offset
      else if is_last_hole then Err no_such_device_or_address
      else Ok (range_end hole)
  end.

Definition get_offset (hole : option file_range) (offset : Z) (whence : seek_whence) (size : Z) : result seek_error Z :=
  match hole with
  | None => Ok (match whence with seek_hole => size | seek_data => offset end)
  | Some hole => get_offset_hole hole offset whence (range_end hole =? size)
  end.

(** The loop of the static [seek]. *)
Fixpoint seek_scan (chunks : list chunk) (pos offset : Z) (whence : seek_whence) : result seek_error Z :=
  match chunks with
  | [] =>
      if pos <=? offset then Err no_such_device_or_address
      else get_offset None offset whence pos
  | chk :: chunks =>
      let end_ := pos + size chk in
      if is_hole chk && (offset <? end_)
      then get_offset_hole (FileRange pos (size chk)) offset whence (bool_decide (chunks = []))
      else seek_scan chunks end_ offset whence
  end.

Definition static_seek (chunks : list chunk) (offset : Z) (whence : seek_whence) : result seek_error Z :=
  if offset <? 0 then Err no_such_device_or_address else seek_scan chunks 0 offset whence.

Record seeker : Type := Seeker { holes_ : list file_range; seeker_size_ : Z }.

(** The loop of the constructor. *)
Fixpoint collect_holes (chunks : list chunk) (pos : Z) (holes : list file_range) : seeker :=
  match chunks with
  | [] => Seeker holes pos
  | chk :: chunks =>
      collect_holes chunks (pos + size chk)
        (if is_hole chk then holes ++ [FileRange pos (size chk)] else holes)
  end.

Definition seeker_create (chunks : list chunk) : seeker := collect_holes chunks 0 [].

(** [std::lower_bound] with the predicate [hr.end() <= off], true for a prefix
    of the holes: the first hole that ends behind the offset. *)
Fixpoint lower_bound_hole (holes : list file_range) (offset : Z) : option file_range :=
  match holes with
  | [] => None
  | h :: holes => if range_end h <=? offset then lower_bound_hole holes offset else Some h
  end.

Definition seeker_seek (s : seeker) (offset : Z) (whence : seek_whence) : result seek_error Z :=
  if (offset <? 0) || (seeker_size_ s <=? offset) then Err no_such_device_or_address
  else get_offset (lower_bound_hole (holes_ s) offset) offset whence (seeker_size_ s).

(** ** The reference: which bytes of the file are in a hole *)

Definition hole_map (chunks : list chunk) : list bool :=
  concat (map (fun c => replicate (Z.to_nat (size c)) (is_hole c)) chunks).

(** How many elements of the list, from its start, equal [b]. *)
Fixpoint lead (b : bool) (l : list bool) : nat :=
  match l with
  | x :: l => if Bool.eqb x b then S (lead b l) else O
  | [] => O
  end.

(** [lseek] of a file with these holes: the first position from [offset] on
    that is in a hole or at the end, or that is in data. *)
Definition lseek_reference (m : list bool) (offset : Z) (whence : seek_whence) : result seek_error Z :=
  if (offset <? 0) || (zlen m <=? offset) then Err no_such_device_or_address
  else
    let rest := drop (Z.to_nat offset) m in
    match whence with
    | seek_hole => Ok (offset + Z.of_nat (lead false rest))
    | seek_data =>
        if Nat.eqb (lead true rest) (length rest) then Err no_such_device_or_address
        else Ok (offset + Z.of_nat (lead true rest))
    end.

(** Chunks are not empty, and no hole follows a hole. *)
Fixpoint chunks_sparse_ok (chunks : list chunk) : Prop :=
  match chunks with
  | [] => True
  | c :: chunks =>
      0 < size c /\ chunks_sparse_ok chunks /\
      (is_hole c = true -> match chunks with c' :: _ => is_hole c' = false | [] => True end)
  end.

Lemma lead_same b n l : lead b (replicate n b ++ l) = (n + lead b l)%nat.
Proof. induction n as [|n IH]; cbn; [done|]. by rewrite Bool.eqb_reflx, IH. Qed.

Lemma lead_other b x n l : x <> b -> (0 < n)%nat -> lead b (replicate n x ++ l) = O.
Proof. intros Hx Hn. destruct n as [|n]; [lia|]. cbn. by destruct x, b. Qed.

Lemma drop_replicate_app {A} (x : A) n d l : (d <= n)%nat -> drop d (replicate n x ++ l) = replicate (n - d) x ++ l.
Proof. intros H. rewrite drop_app_le, drop_replicate by (by rewrite length_replicate). done. Qed.

Lemma drop_replicate_past {A} (x : A) n d l : (n <= d)%nat -> drop d (replicate n x ++ l) = drop (d - n) l.
Proof. intros H. by rewrite drop_app_ge, length_replicate by (by rewrite length_replicate). Qed.

(** What [seek] returns for an offset that may lie before [pos], where only
    data lies between them. *)
Definition scan_reference (m : list bool) (pos offset : Z) (whence : seek_whence) : result seek_error Z :=
  if pos + zlen m <=? offset then Err no_such_device_or_address
  else
    let rest := drop (Z.to_nat (offset - pos)) m in
    match whence with
    | seek_hole => Ok (Z.max offset pos + Z.of_nat (lead false rest))
    | seek_data =>
        if offset <? pos then Ok offset
        else if Nat.eqb (lead true rest) (length rest) then Err no_such_device_or_address
        else Ok (offset + Z.of_nat (lead true rest))
    end.

Lemma hole_map_cons c cs : hole_map (c :: cs) = replicate (Z.to_nat (size c)) (is_hole c) ++ hole_map cs.
Proof. done. Qed.

Lemma zlen_hole_map_cons c cs : 0 < size c -> zlen (hole_map (c :: cs)) = size c + zlen (hole_map cs).
Proof. intros H. rewrite hole_map_cons, zlen_app. unfold zlen. rewrite length_replicate. lia. Qed.

(** In the hole at the head of the chunks, or before it. *)
Lemma scan_in_hole c cs pos offset whence : chunks_sparse_ok (c :: cs) -> is_hole c = true -> offset < pos + size c ->
  get_offset_hole (FileRange pos (size c)) offset whence (bool_decide (cs = [])) =
  scan_reference (hole_map (c :: cs)) pos offset whence.
Proof.
  intros (Hs & Hok & Hnext) Hc Ho. specialize (Hnext Hc). unfold scan_reference. pose proof (zlen_nonneg (hole_map cs)).
  rewrite zlen_hole_map_cons by done. rewrite (proj2 (Z.leb_gt _ _)) by lia.
  rewrite hole_map_cons, Hc, drop_replicate_app by lia. unfold get_offset_hole, range_begin, range_end. cbn [FileRange.offset_ size_].
  destruct whence.
  - destruct (Z.ltb_spec offset pos); [done|]. rewrite lead_same, length_app, length_replicate. destruct cs as [|c' cs].
    + rewrite bool_decide_true by done. cbn. by rewrite Nat.eqb_refl.
    + rewrite bool_decide_false by done. destruct Hok as (Hs' & _). rewrite hole_map_cons, Hnext.
      rewrite lead_other by (done || lia). rewrite length_app, length_replicate.
      rewrite (proj2 (Nat.eqb_neq _ _)) by lia. f_equal. lia.
  - rewrite lead_other by (done || lia). f_equal. lia.
Qed.

Lemma seek_scan_spec cs pos offset whence : chunks_sparse_ok cs ->
  seek_scan cs pos offset whence = scan_reference (hole_map cs) pos offset whence.
Proof.
  revert pos. induction cs as [|c cs IH]; intros pos Hok.
  - unfold scan_reference. cbn. rewrite Z.add_0_r. destruct (Z.leb_spec pos offset); [done|].
    destruct whence; [by rewrite (proj2 (Z.ltb_lt _ _)) by lia|]. rewrite drop_nil. cbn. f_equal. lia.
  - cbn [seek_scan]. pose proof Hok as (Hs & Hok' & _). destruct (is_hole c) eqn:Hc; cbn [andb].
    + destruct (Z.ltb_spec offset (pos + size c)) as [Ho|Ho]; [by apply scan_in_hole|].
      rewrite IH by done. unfold scan_reference. rewrite zlen_hole_map_cons, Z.add_assoc by done.
      destruct (_ <=? offset); [done|]. rewrite hole_map_cons, drop_replicate_past by lia.
      replace (Z.to_nat (offset - pos) - Z.to_nat (size c))%nat with (Z.to_nat (offset - (pos + size c))) by lia.
      destruct whence; [by rewrite !(proj2 (Z.ltb_ge _ _)) by lia|]. f_equal. lia.
    + rewrite IH by done. unfold scan_reference. rewrite zlen_hole_map_cons, Z.add_assoc by done.
      destruct (_ <=? offset); [done|]. rewrite hole_map_cons, Hc. destruct (Z.leb_spec (pos + size c) offset).
      * rewrite drop_replicate_past by lia.
        replace (Z.to_nat (offset - pos) - Z.to_nat (size c))%nat with (Z.to_nat (offset - (pos + size c))) by lia.
        destruct whence; [by rewrite !(proj2 (Z.ltb_ge _ _)) by lia|]. f_equal. lia.
      * rewrite drop_replicate_app by lia. replace (Z.to_nat (offset - (pos + size c))) with O by lia. rewrite drop_0.
        destruct whence.
        -- rewrite (proj2 (Z.ltb_lt offset (pos + size c))) by lia. destruct (offset <? pos); [done|].
           rewrite lead_other by (done || lia). rewrite length_app, length_replicate.
           rewrite (proj2 (Nat.eqb_neq _ _)) by lia. f_equal. lia.
        -- rewrite lead_same. f_equal. lia.
Qed.

(** ** The object agrees with the one-off scan *)

Lemma collect_holes_spec cs pos hs :
  seeker_size_ (collect_holes cs pos hs) = seeker_size_ (collect_holes cs pos []) /\
  holes_ (collect_holes cs pos hs) = hs ++ holes_ (collect_holes cs pos []).
Proof.
  revert pos hs. induction cs as [|c cs IH]; intros pos hs; cbn; [by rewrite app_nil_r|].
  destruct (is_hole c); [|apply IH]. destruct (IH (pos + size c) (hs ++ [FileRange pos (size c)])) as [-> ->].
  destruct (IH (pos + size c) [FileRange pos (size c)]) as [-> ->]. by rewrite <- app_assoc.
Qed.

Lemma collect_holes_cons c cs pos :
  seeker_size_ (collect_holes (c :: cs) pos []) = seeker_size_ (collect_holes cs (pos + size c) []) /\
  holes_ (collect_holes (c :: cs) pos []) =
    (if is_hole c then [FileRange pos (size c)] else []) ++ holes_ (collect_holes cs (pos + size c) []).
Proof. cbn. destruct (is_hole c); [apply collect_holes_spec|done]. Qed.

Lemma collect_holes_size cs pos : chunks_sparse_ok cs -> seeker_size_ (collect_holes cs pos []) = pos + zlen (hole_map cs).
Proof.
  revert pos. induction cs as [|c cs IH]; intros pos Hok; [change (pos = pos + 0); lia|]. destruct Hok as (Hs & Hok & _).
  rewrite (proj1 (collect_holes_cons c cs pos)), IH, zlen_hole_map_cons by done. lia.
Qed.

Lemma seek_scan_seeker cs pos offset whence : chunks_sparse_ok cs -> offset < pos + zlen (hole_map cs) ->
  get_offset (lower_bound_hole (holes_ (collect_holes cs pos [])) offset) offset whence (seeker_size_ (collect_holes cs pos [])) =
  seek_scan cs pos offset whence.
Proof.
  revert pos. induction cs as [|c cs IH]; intros pos Hok Ho.
  - cbn in *. by rewrite (proj2 (Z.leb_gt pos offset)) by (change (offset < pos + 0) in Ho; lia).
  - destruct Hok as (Hs & Hok & Hn). rewrite zlen_hole_map_cons in Ho by done.
    destruct (collect_holes_cons c cs pos) as [-> ->]. cbn [seek_scan]. destruct (is_hole c); cbn [app andb].
    + cbn [lower_bound_hole]. unfold range_end at 1. cbn [FileRange.offset_ size_]. rewrite Z.leb_antisym.
      destruct (offset <? pos + size c); cbn [negb]; [|apply IH; [done|lia]].
      rewrite collect_holes_size by done. unfold get_offset, range_end. cbn [FileRange.offset_ size_]. f_equal.
      destruct cs as [|c' cs].
      * rewrite bool_decide_true by done. apply Z.eqb_eq. change (pos + size c = pos + size c + 0). lia.
      * rewrite bool_decide_false by done. apply Z.eqb_neq. destruct Hok as (Hs' & _).
        rewrite zlen_hole_map_cons by done. pose proof (zlen_nonneg (hole_map cs)). lia.
    + apply IH; [done|lia].
Qed.

Lemma static_seek_spec chunks offset whence : chunks_sparse_ok chunks ->
  static_seek chunks offset whence = lseek_reference (hole_map chunks) offset whence.
Proof.
  intros Hok. unfold static_seek, lseek_reference. destruct (Z.ltb_spec offset 0); [done|]. cbn [orb].
  rewrite seek_scan_spec by done. unfold scan_reference. rewrite Z.sub_0_r, Z.add_0_l. destruct (_ <=? offset); [done|].
  destruct whence; [by rewrite (proj2 (Z.ltb_ge _ _)) by lia|]. by rewrite Z.max_l by lia.
Qed.

Lemma seeker_seek_spec chunks offset whence : chunks_sparse_ok chunks ->
  seeker_seek (seeker_create chunks) offset whence = lseek_reference (hole_map chunks) offset whence.
Proof.
  intros Hok. rewrite <- static_seek_spec by done. unfold seeker_seek, static_seek, seeker_create. rewrite collect_holes_size by done.
  destruct (Z.ltb_spec offset 0); [done|]. cbn [orb]. destruct (Z.leb_spec (0 + zlen (hole_map chunks)) offset) as [Hl|Hl].
  - rewrite seek_scan_spec by done. unfold scan_reference. by rewrite (proj2 (Z.leb_le _ _)) by lia.
  - rewrite <- (collect_holes_size chunks 0) by done. by apply seek_scan_seeker.
Qed.
