(* ===== verification/Metadata.v ===== *)
(** * Metadata: the metadata of an image, and the checks of it

    [thrift/metadata.thrift], [src/internal/metadata_utils.cpp] and
    [check_metadata] with its parts of [src/reader/internal/metadata_types.cpp].
    The metadata is read in place through views that check nothing: reading an
    optional field that is not there or an element that is not there is
    [Undefined].  Of the fields the ones for time stamps, categories, the size
    of the file system and history are left out.  [logger] calls are left out. *)

From stdpp Require Import sorting.
From S2P Require Import Prelude FileChunks PackedInts StringTable.
Local Open Scope Z_scope.

(** ** [metadata.thrift] *)

Record directory : Type := Directory { parent_entry : Z; first_entry : Z; self_entry : Z }.

Record inode_data : Type := InodeData {
  mode_index : Z;
  owner_index : Z;
  group_index : Z;
  nlink_minus_one : Z;
  name_index_v2_2 : Z;
  inode_v2_2 : Z
}.

Record dir_entry : Type := DirEntry { name_index : Z; inode_num : Z }.

Record inode_size_cache : Type := InodeSizeCache {
  size_lookup : gmap Z Z;
  min_chunk_count : Z;
  allocated_size_lookup : gmap Z Z
}.

Record fs_options : Type := FsOptions {
  packed_chunk_table : bool;
  packed_directories : bool;
  packed_shared_files_table : bool;
  inodes_have_nlink : bool
}.

(** The chunks, the chunk table, the block size and the holes are those of
    [FileChunks].  [self_entry_bits] is the number of bits the frozen layout
    has for [directory.self_entry]. *)
Record fs_metadata : Type := FsMetadata {
  md_files : FileChunks.metadata;
  md_directories : list directory;
  md_self_entry_bits : Z;
  md_inodes : list inode_data;
  md_entry_table_v2_2 : list Z;
  md_symlink_table : list Z;
  md_uids : list Z;
  md_gids : list Z;
  md_modes : list Z;
  md_names : list (list Z);
  md_symlinks : list (list Z);
  md_devices : option (list Z);
  md_options : option fs_options;
  md_dir_entries : option (list dir_entry);
  md_shared_files_table : option (list Z);
  md_compact_names : option string_table_data;
  md_compact_symlinks : option string_table_data;
  md_features : option (list string);
  md_preferred_path_separator : option Z;
  md_reg_file_size_cache : option inode_size_cache
}.

(** What a call may do other than return: throw, terminate the process
    ([DWARFS_CHECK]), read what is not there; the last is not a behaviour of the
    code but the end of the fuel of the model. *)
Inductive metadata_error : Type :=
  | Thrown (what : string)
  | Terminated (what : string)
  | Undefined
  | OutOfFuel.

#[local] Abbreviation checked := (result metadata_error).

Definition check_that (ok : bool) (what : string) : checked unit := if ok then Ok tt else Err (Thrown what).

(** [DWARFS_CHECK]. *)
Definition dwarfs_check (ok : bool) (what : string) : checked unit := if ok then Ok tt else Err (Terminated what).

(** A value that has to be there. *)
Definition there {A} (x : option A) : checked A := match x with Some a => Ok a | None => Err Undefined end.

(** [for (auto x : l) f(x)]. *)
Fixpoint for_each {A} (f : A -> checked unit) (l : list A) : checked unit :=
  match l with
  | [] => Ok tt
  | x :: l => let? _ := f x in for_each f l
  end.

Fixpoint for_each_index {A} (i : Z) (f : Z -> A -> checked unit) (l : list A) : checked unit :=
  match l with
  | [] => Ok tt
  | x :: l => let? _ := f i x in for_each_index (i + 1) f l
  end.

Fixpoint mapR {A B} (f : A -> checked B) (l : list A) : checked (list B) :=
  match l with
  | [] => Ok []
  | x :: l => let? y := f x in let? l := mapR f l in Ok (y :: l)
  end.

Notation "a ';;?' b" := (let? _ := a in b) (at level 100, b at level 200, right associativity) : dwarfs_scope.

(** ** [file_type.h], [metadata_utils.cpp] *)

Definition S_IFMT : Z := 0xF000.
Definition S_IFSOCK : Z := 0xC000.
Definition S_IFLNK : Z := 0xA000.
Definition S_IFREG : Z := 0x8000.
Definition S_IFBLK : Z := 0x6000.
Definition S_IFDIR : Z := 0x4000.
Definition S_IFCHR : Z := 0x2000.
Definition S_IFIFO : Z := 0x1000.

Definition file_type (mode : Z) : Z := Z.land mode S_IFMT.

Definition INO_DIR : Z := 0.
Definition INO_LNK : Z := 1.
Definition INO_REG : Z := 2.
Definition INO_DEV : Z := 3.
Definition INO_OTH : Z := 4.

Definition get_inode_rank (mode : Z) : checked Z :=
  let t := file_type mode in
  if t =? S_IFDIR then Ok INO_DIR
  else if t =? S_IFLNK then Ok INO_LNK
  else if t =? S_IFREG then Ok INO_REG
  else if (t =? S_IFBLK) || (t =? S_IFCHR) then Ok INO_DEV
  else if (t =? S_IFSOCK) || (t =? S_IFIFO) then Ok INO_OTH
  else Err (Thrown "unknown file type").

Definition at_index {A} (l : list A) (i : Z) : checked A := if i <? 0 then Err Undefined else there (l !! Z.to_nat i).

(** [std::lower_bound] over [first, first + len). *)
Fixpoint lower_bound (fuel : nat) (first len : Z) (less : Z -> checked bool) : checked Z :=
  match fuel with
  | O => Ok first
  | S fuel =>
      if len =? 0 then Ok first
      else
        let half := len / 2 in
        let middle := first + half in
        let? b := less middle in
        if b then lower_bound fuel (middle + 1) (len - half - 1) less
        else lower_bound fuel first half less
  end.

Definition inode_mode (meta : fs_metadata) (index : Z) : checked Z :=
  let? ino := at_index (md_inodes meta) index in at_index (md_modes meta) (mode_index ino).

Definition find_inode_rank_offset_impl (rank size : Z) (get_inode_mode : Z -> checked Z) : checked Z :=
  lower_bound (Z.to_nat size) 0 size
    (fun inode => let? mode := get_inode_mode inode in let? r := get_inode_rank mode in Ok (r <? rank)).

Definition find_inode_rank_offset (meta : fs_metadata) (rank : Z) : checked Z :=
  match md_dir_entries meta with
  | Some _ => find_inode_rank_offset_impl rank (zlen (md_inodes meta)) (inode_mode meta)
  | None =>
      find_inode_rank_offset_impl rank (zlen (md_entry_table_v2_2 meta))
        (fun inode => let? ix := at_index (md_entry_table_v2_2 meta) inode in inode_mode meta ix)
  end.

(** ** [metadata_types.cpp]: the checks *)

Definition dir_has_self_entry (meta : fs_metadata) : bool :=
  (zlen (md_directories meta) <=? 2) || (0 <? md_self_entry_bits meta).

Definition check_empty_tables (meta : fs_metadata) : checked unit :=
  check_that (0 <? zlen (md_inodes meta)) "empty inodes table" ;;?
  check_that (0 <? zlen (md_directories meta)) "empty directories table" ;;?
  check_that (0 <? zlen (md_chunk_table (md_files meta))) "empty chunk_table table" ;;?
  match md_dir_entries meta with
  | Some de => check_that (0 <? zlen de) "empty dir_entries table"
  | None => check_that (0 <? zlen (md_entry_table_v2_2 meta)) "empty entry_table_v2_2 table"
  end ;;?
  check_that (0 <? zlen (md_modes meta)) "empty modes table".

Definition UINT32_MAX : Z := 2 ^ 32 - 1.

Definition check_inode_ranges (meta : fs_metadata) (v2_2 : bool) (ino : inode_data) : checked unit :=
  check_that (mode_index ino <? zlen (md_modes meta)) "mode_index out of range" ;;?
  check_that ((zlen (md_uids meta) =? 0) || (owner_index ino <? zlen (md_uids meta))) "owner_index out of range" ;;?
  check_that ((zlen (md_gids meta) =? 0) || (group_index ino <? zlen (md_gids meta))) "group_index out of range" ;;?
  check_that (negb v2_2 || (name_index_v2_2 ino <? zlen (md_names meta)) || (name_index_v2_2 ino <=? 0))
    "name_index_v2_2 out of range".

(** The number of names, of an index of positions one less than entries. *)
Definition number_of_names (meta : fs_metadata) : checked Z :=
  match md_compact_names meta with
  | None => Ok (zlen (md_names meta))
  | Some cn =>
      if st_packed_index cn then Ok (zlen (st_index cn))
      else check_that (0 <? zlen (st_index cn)) "empty compact_names index" ;;? Ok (zlen (st_index cn) - 1)
  end.

Definition check_index_range (meta : fs_metadata) : checked unit :=
  let num_inodes := zlen (md_inodes meta) in
  let v2_2 := match md_dir_entries meta with Some _ => false | None => true end in
  let max_names := match md_dir_entries meta with Some de => zlen de | None => num_inodes end in
  let max_inodes := match md_dir_entries meta with Some de => zlen de | None => UINT32_MAX end in
  check_that (zlen (md_modes meta) <=? num_inodes) "invalid number of modes" ;;?
  check_that (zlen (md_uids meta) <=? num_inodes) "invalid number of uids" ;;?
  check_that (zlen (md_gids meta) <=? num_inodes) "invalid number of gids" ;;?
  check_that (zlen (md_names meta) <=? max_names) "invalid number of names" ;;?
  check_that (num_inodes <=? max_inodes) "invalid number of inodes" ;;?
  for_each (check_inode_ranges meta v2_2) (md_inodes meta) ;;?
  match md_dir_entries meta with
  | Some dep =>
      check_that (zlen dep <? UINT32_MAX) "invalid number of dir_entries" ;;?
      let? num_names := number_of_names meta in
      for_each (fun de =>
        check_that ((name_index de <? num_names) || (name_index de <=? 0)) "name_index out of range" ;;?
        check_that (inode_num de <? num_inodes) "inode_num out of range") dep
  | None =>
      check_that (zlen (md_entry_table_v2_2 meta) <? UINT32_MAX) "invalid number of entries" ;;?
      for_each (fun ent => check_that (ent <? num_inodes) "entry_table_v2_2 value out of range") (md_entry_table_v2_2 meta)
  end.

(** [std::is_sorted] of numbers. *)
Fixpoint is_sorted (l : list Z) : bool :=
  match l with
  | x :: (y :: _) as l => (x <=? y) && is_sorted l
  | _ => true
  end.

Definition opt_flag (f : fs_options -> bool) (meta : fs_metadata) : bool :=
  match md_options meta with Some o => f o | None => false end.

Definition check_directory (meta : fs_metadata) (num_entries num_dirs : Z) (has_self : bool) (i : Z) (d : directory) : checked unit :=
  let is_last := i =? num_dirs - 1 in
  let f := first_entry d in
  let p := parent_entry d in
  let s := self_entry d in
  check_that (f <=? num_entries) "first_entry out of range" ;;?
  check_that (s <=? num_entries) "self_entry out of range" ;;?
  check_that (p <? num_entries) "parent_entry out of range" ;;?
  check_that (negb (f =? p)) "first_entry == parent_entry" ;;?
  if (i =? 0) || is_last then
    check_that (p =? 0) "parent_entry != 0 for root directory" ;;?
    check_that (negb (has_self && negb (s =? 0)) || is_last) "self_entry != 0 for root directory"
  else if has_self then
    check_that (negb (f =? s)) "first_entry == self_entry" ;;?
    check_that (negb (s =? p)) "self_entry == parent_entry"
  else Ok tt.

Definition check_packed_tables (meta : fs_metadata) : checked unit :=
  let num_inodes := zlen (md_inodes meta) in
  let dirs := md_directories meta in
  let table := md_chunk_table (md_files meta) in
  let num_chunks := zlen (md_chunks (md_files meta)) in
  check_that (zlen dirs <=? num_inodes + 1) "invalid number of directories" ;;?
  check_that (zlen table <=? num_inodes) "invalid number of chunk_table entries" ;;?
  (if opt_flag packed_directories meta then
     check_that (forallb (fun d => parent_entry d =? 0) dirs) "parent_entry set in packed directory" ;;?
     check_that (forallb (fun d => self_entry d =? 0) dirs) "self_entry set in packed directory" ;;?
     let? de := there (md_dir_entries meta) in
     check_that (accumulate (map first_entry dirs) 0 =? zlen de) "first_entry inconsistency in packed directories"
   else
     let num_entries := match md_dir_entries meta with Some de => zlen de | None => num_inodes end in
     check_that (is_sorted (map first_entry dirs)) "first_entry values not sorted" ;;?
     for_each_index 0 (check_directory meta num_entries (zlen dirs) (dir_has_self_entry meta)) dirs) ;;?
  (if opt_flag packed_chunk_table meta then
     check_that (accumulate table 0 =? num_chunks) "packed chunk_table inconsistency"
   else
     check_that (is_sorted table) "chunk_table values not sorted" ;;?
     let? back := there (last table) in
     check_that (back =? num_chunks) "chunk_table end value mismatch").

Definition max_element (l : list Z) : Z := foldr Z.max 0 l.

Fixpoint longest_gap (l : list Z) : Z :=
  match l with
  | x :: (y :: _) as l => Z.max (y - x) (longest_gap l)
  | _ => 0
  end.

Definition check_compact_strings (v : string_table_data) (expected_num max_item_len : Z) : checked unit :=
  let index := st_index v in
  let index_size := if negb (st_packed_index v) && (0 <? zlen index) then zlen index - 1 else zlen index in
  check_that (index_size =? expected_num) "unexpected number of compact strings" ;;?
  let? '(expected_data_size, longest_item_len) :=
    (match index with
     | [] => Ok (0, 0)
     | front :: _ =>
         if st_packed_index v then Ok (accumulate index 0, max_element index)
         else
           check_that (front =? 0) "invalid first compact index" ;;?
           check_that (is_sorted index) "compact index not sorted" ;;?
           let? back := there (last index) in
           Ok (back, longest_gap index)
     end) in
  check_that (zlen (st_buffer v) =? expected_data_size) "data size mismatch for compact strings" ;;?
  check_that (longest_item_len <=? max_item_len) "invalid item length in compact strings".

Section checks.
(** The distance from the first to the last byte of a frozen list of strings. *)
Context (frozen_string_table_size : list (list Z) -> Z).

Definition check_plain_strings (v : list (list Z)) (expected_num max_item_len : Z) : checked unit :=
  check_that (zlen v =? expected_num) "unexpected number of strings" ;;?
  for_each (fun s => check_that (zlen s <=? max_item_len) "invalid item length") v ;;?
  check_that ((zlen v =? 0) || (total_bytes v =? frozen_string_table_size v)) "unexpected data size".

Definition max_name_len : Z := 512.
Definition max_symlink_len : Z := 4096.

Definition check_strings (compact : option string_table_data) (plain : list (list Z)) (expected_num max_len : Z) : checked unit :=
  match compact with
  | Some cn =>
      check_that (zlen plain =? 0) "both compact and plain tables populated" ;;?
      check_compact_strings cn expected_num max_len
  | None => check_plain_strings plain expected_num max_len
  end.

Definition check_string_tables (meta : fs_metadata) : checked unit :=
  let expected_num_names :=
    match md_dir_entries meta with
    | Some de => if 1 <? zlen de then max_element (map name_index de) + 1 else 0
    | None => if 1 <? zlen (md_inodes meta) then max_element (map name_index_v2_2 (md_inodes meta)) + 1 else 0
    end in
  check_strings (md_compact_names meta) (md_names meta) expected_num_names max_name_len ;;?
  let num_symlink_strings := match md_symlink_table meta with [] => 0 | l => max_element l + 1 end in
  check_strings (md_compact_symlinks meta) (md_symlinks meta) num_symlink_strings max_symlink_len.

(** [std::has_single_bit]. *)
Definition has_single_bit (z : Z) : bool := (0 <? z) && (Z.land z (z - 1) =? 0).

Definition has_sparse (meta : fs_metadata) : bool :=
  match md_features meta with Some f => bool_decide ("sparsefiles"%string ∈ f) | None => false end.

Definition check_chunk (meta : fs_metadata) (c : meta_chunk) : checked unit :=
  let fm := md_files meta in
  let b := mc_block c in
  let o := mc_offset c in
  let s := mc_size c in
  let? hole := (if has_sparse meta then let? ix := there (md_hole_block_index fm) in Ok (b =? ix) else Ok false) in
  if hole then
    if o =? kChunkOffsetIsLargeHole then
      match md_large_hole_size fm with
      | None => Err (Thrown "large hole chunk but no large_hole_size set")
      | Some lhs => check_that (s <? zlen lhs) "large hole chunk size index out of range"
      end
    else Ok tt
  else
    check_that (o <? md_block_size fm) "chunk offset out of range" ;;?
    check_that (s <=? md_block_size fm) "chunk size out of range" ;;?
    check_that (wrapu 32 (o + s) <=? md_block_size fm) "chunk end outside of block".

Definition check_chunks (meta : fs_metadata) : checked unit :=
  let has_index := match md_hole_block_index (md_files meta) with Some _ => true | None => false end in
  check_that (negb has_index || has_sparse meta) "hole_block_index set but sparsefiles feature missing" ;;?
  check_that (has_index || negb (has_sparse meta)) "sparsefiles feature set but hole_block_index missing" ;;?
  check_that (has_single_bit (md_block_size (md_files meta))) "invalid block size" ;;?
  for_each (check_chunk meta) (md_chunks (md_files meta)).

(** [std::ranges::is_partitioned], [partition_point]. *)
Fixpoint is_partitioned (l : list bool) : bool :=
  match l with
  | true :: l => is_partitioned l
  | l => negb (existsb id l)
  end.

Fixpoint partition_point (l : list bool) : Z :=
  match l with
  | true :: l => 1 + partition_point l
  | _ => 0
  end.

Definition inode_ranks (meta : fs_metadata) : checked (list Z) :=
  match md_dir_entries meta with
  | Some _ => mapR (fun ino => let? mode := at_index (md_modes meta) (mode_index ino) in get_inode_rank mode) (md_inodes meta)
  | None => mapR (fun ent => let? mode := inode_mode meta ent in get_inode_rank mode) (md_entry_table_v2_2 meta)
  end.

Definition check_partitioning (meta : fs_metadata) : checked (list Z) :=
  let? ranks := inode_ranks meta in
  mapR (fun r =>
    let pred := map (fun rank => rank <? r) ranks in
    check_that (is_partitioned pred) "table is not partitioned" ;;?
    Ok (partition_point pred)) [0; 1; 2; 3; 4; 5].

(** The number of unique and of shared files, in [size_t]. *)
Definition file_counts (meta : fs_metadata) : checked (Z * Z) :=
  let num_reg_unique := zlen (md_chunk_table (md_files meta)) - 1 in
  match md_shared_files_table meta with
  | None => Ok (num_reg_unique, 0)
  | Some sf =>
      if opt_flag packed_shared_files_table meta then
        Ok (wrapu 64 (num_reg_unique - zlen sf), accumulate sf (2 * zlen sf))
      else
        check_that (is_sorted sf) "unpacked shared_files_table is not sorted" ;;?
        Ok (match last sf with Some back => wrapu 64 (num_reg_unique - (back + 1)) | None => num_reg_unique end, zlen sf)
  end.

Definition check_inode_v2_2 (meta : fs_metadata) (offsets : list Z) (ino : inode_data) : checked unit :=
  let? mode := at_index (md_modes meta) (mode_index ino) in
  let? base := get_inode_rank mode in
  let? lo := at_index offsets base in
  let? hi := at_index offsets (base + 1) in
  let i := inode_v2_2 ino in
  check_that (negb ((i <? lo) || ((hi <=? i) && (lo <? i)))) "inode_v2_2 out of range".

Definition check_metadata (meta : fs_metadata) : checked unit :=
  check_empty_tables meta ;;?
  check_index_range meta ;;?
  check_packed_tables meta ;;?
  check_string_tables meta ;;?
  check_chunks meta ;;?
  let? offsets := check_partitioning meta in
  let off i := default 0 (offsets !! i) in
  let? '(num_reg_unique, num_reg_shared) := file_counts meta in
  check_that (zlen (md_directories meta) - 1 =? off 1%nat) "wrong number of directories" ;;?
  check_that (zlen (md_symlink_table meta) =? off 2%nat - off 1%nat) "wrong number of links" ;;?
  check_that (wrapu 64 (num_reg_unique + num_reg_shared) =? off 3%nat - off 2%nat) "wrong number of files" ;;?
  check_that (match md_devices meta with Some d => zlen d | None => 0 end =? off 4%nat - off 3%nat) "wrong number of devices" ;;?
  match md_dir_entries meta with
  | Some _ => Ok tt
  | None => for_each (check_inode_v2_2 meta offsets) (md_inodes meta)
  end.
End checks.
