(* ===== verification/MetadataReader.v ===== *)
(** * MetadataReader: the metadata as the reader of an image sees it

    [global_metadata] and the views of inodes, directory entries and
    directories ([src/reader/internal/metadata_types.cpp],
    [src/reader/metadata_types.cpp]), and the operations of [metadata_v2_data]
    ([src/reader/internal/metadata_v2.cpp]): tables unpacked, entries found by
    name and by path, directories read and walked, links read, attributes and
    chunks of a file.  The functions of the FSST library are parameters.  Left
    out are case-insensitive lookup, time stamps, [statvfs] and what only
    prints. *)

From S2P Require Import Prelude FileChunks PackedInts StringTable SparseSeek Metadata.
Local Open Scope Z_scope.

#[local] Abbreviation checked := (result metadata_error).

(** The words of a [packed_int_vector<uint32_t>] have [2 ^ 2] bytes. *)
Definition word_lg : Z := 2.

(** ** [unpack_directories] *)

Definition update_directory (f : directory -> directory) (i : Z) (dirs : list directory) : checked (list directory) :=
  let? d := at_index dirs i in Ok (<[Z.to_nat i := f d]> dirs).

Definition set_parent (p : Z) (d : directory) : directory := Directory p (first_entry d) (self_entry d).
Definition set_self (s : Z) (d : directory) : directory := Directory (parent_entry d) (first_entry d) s.

Section unpacking.
Context (dirent : list dir_entry) (num_dir_inodes : Z).

(** The loop over the entries of a directory. *)
Fixpoint recover_children (parent : Z) (es : list Z) (dirs : list directory) (queue : list Z) :
    checked (list directory * list Z) :=
  match es with
  | [] => Ok (dirs, queue)
  | e :: es =>
      let? de := at_index dirent e in
      if inode_num de <? num_dir_inodes then
        let? dirs := update_directory (set_parent parent) (inode_num de) dirs in
        recover_children parent es dirs (queue ++ [e])
      else recover_children parent es dirs queue
  end.

Fixpoint recover_parents (fuel : nat) (dirs : list directory) (queue : list Z) : checked (list directory) :=
  match queue with
  | [] => Ok dirs
  | parent :: queue =>
      match fuel with
      | O => Err OutOfFuel
      | S fuel =>
          let? pe := at_index dirent parent in
          let? d := at_index dirs (inode_num pe) in
          let? n := at_index dirs (inode_num pe + 1) in
          let beg := first_entry d in
          let end_ := first_entry n in
          let? '(dirs, queue) := recover_children parent (seqZ beg (end_ - beg)) dirs queue in
          recover_parents fuel dirs queue
      end
  end.

Fixpoint recover_selves (i : Z) (rest : list dir_entry) (dirs : list directory) (count : Z) : checked (list directory * Z) :=
  match rest with
  | [] => Ok (dirs, count)
  | de :: rest =>
      if inode_num de <? num_dir_inodes then
        let? dirs := update_directory (set_self i) (inode_num de) dirs in
        recover_selves (i + 1) rest dirs (count + 1)
      else recover_selves (i + 1) rest dirs count
  end.
End unpacking.

Definition unpack_directories (fuel : nat) (meta : fs_metadata) : checked (option (list directory)) :=
  if negb (opt_flag packed_directories meta) &&
     (match md_dir_entries meta with Some _ => false | None => true end || dir_has_self_entry meta)
  then Ok None
  else
    let? dirent := there (md_dir_entries meta) in
    let? opts := there (md_options meta) in
    let metadir := md_directories meta in
    let num_dir_inodes := zlen metadir - 1 in
    let? directories :=
      (if packed_directories opts then
         let? _ := at_index metadir 0 in
         recover_parents dirent num_dir_inodes fuel
           (map (fun f => Directory 0 f 0) (partial_sum (map first_entry metadir))) [0]
       else Ok metadir) in
    let? '(directories, count) := recover_selves num_dir_inodes 0 dirent directories 0 in
    dwarfs_check (count =? num_dir_inodes) "could not recover all self entries" ;;?
    Ok (Some directories).

Section reader.
Context {decoder : Type} (fsst_import : list Z -> Z * decoder) (fsst_decompress : decoder -> list Z -> Z -> list Z).

(** ** [global_metadata] *)

Record global_metadata : Type := GlobalMetadata {
  g_meta : fs_metadata;
  g_directories : list directory;
  g_names : string_table decoder
}.

Definition open_string_table (compact : option string_table_data) (plain : list (list Z)) : checked (string_table decoder) :=
  match compact with
  | Some v => match string_table_create fsst_import v with Ok t => Ok t | Err what => Err (Thrown what) end
  | None => Ok (LegacyTable plain)
  end.

Definition string_at (t : string_table decoder) (i : Z) : checked (list Z) := there (lookup fsst_decompress t i).

Definition global_metadata_create (fuel : nat) (meta : fs_metadata) : checked global_metadata :=
  let? bundled := unpack_directories fuel meta in
  let? names := open_string_table (md_compact_names meta) (md_names meta) in
  Ok (GlobalMetadata meta (default (md_directories meta) bundled) names).

Definition first_dir_entry (g : global_metadata) (ino : Z) : checked Z :=
  let? d := at_index (g_directories g) ino in Ok (first_entry d).

Definition parent_dir_entry (g : global_metadata) (ino : Z) : checked Z :=
  let? d := at_index (g_directories g) ino in
  match md_entry_table_v2_2 (g_meta g) with
  | [] => Ok (parent_entry d)
  | table => at_index table (parent_entry d)
  end.

Definition self_dir_entry (g : global_metadata) (ino : Z) : checked Z :=
  match md_entry_table_v2_2 (g_meta g) with
  | [] => let? d := at_index (g_directories g) ino in Ok (self_entry d)
  | table => at_index table ino
  end.

(** ** [inode_view] *)

Record inode_view : Type := InodeView { iv_data : inode_data; iv_inode_num : Z }.

Definition iv_mode (meta : fs_metadata) (iv : inode_view) : checked Z := at_index (md_modes meta) (mode_index (iv_data iv)).

Definition iv_type (meta : fs_metadata) (iv : inode_view) : checked Z := let? m := iv_mode meta iv in Ok (file_type m).

Definition iv_getuid (meta : fs_metadata) (iv : inode_view) : checked Z :=
  match md_uids meta with
  | [] => Ok (owner_index (iv_data iv))
  | uids => at_index uids (owner_index (iv_data iv))
  end.

Definition iv_getgid (meta : fs_metadata) (iv : inode_view) : checked Z :=
  match md_gids meta with
  | [] => Ok (group_index (iv_data iv))
  | gids => at_index gids (group_index (iv_data iv))
  end.

Definition iv_is_directory (meta : fs_metadata) (iv : inode_view) : checked bool :=
  let? t := iv_type meta iv in Ok (t =? S_IFDIR).
Definition iv_is_symlink (meta : fs_metadata) (iv : inode_view) : checked bool :=
  let? t := iv_type meta iv in Ok (t =? S_IFLNK).
Definition iv_is_regular_file (meta : fs_metadata) (iv : inode_view) : checked bool :=
  let? t := iv_type meta iv in Ok (t =? S_IFREG).

(** ** [dir_entry_view] *)

Inductive entry_name_type : Type := OtherName | SelfName | ParentName.

Inductive entry_data : Type :=
  | EntryOf (dev : dir_entry)
  | EntryOfInode (iv : inode_data).

Record dir_entry_view : Type := DirEntryView {
  dv_data : entry_data;
  dv_self_index : Z;
  dv_parent_index : Z;
  dv_name_type : entry_name_type
}.

Definition is_root (dv : dir_entry_view) : bool :=
  match dv_data dv with EntryOf dev => inode_num dev =? 0 | EntryOfInode iv => inode_v2_2 iv =? 0 end.

Definition dv_inode (g : global_metadata) (dv : dir_entry_view) : checked inode_view :=
  match dv_data dv with
  | EntryOf dev => let? iv := at_index (md_inodes (g_meta g)) (inode_num dev) in Ok (InodeView iv (inode_num dev))
  | EntryOfInode iv => Ok (InodeView iv (inode_v2_2 iv))
  end.

(** [from_dir_entry_index] with an index of the parent. *)
Definition make_dir_entry_view (g : global_metadata) (self_index parent_index : Z) (name_type : entry_name_type) :
    checked dir_entry_view :=
  match md_dir_entries (g_meta g) with
  | Some de =>
      dwarfs_check (self_index <? zlen de) "self_index out of range" ;;?
      dwarfs_check (parent_index <? zlen de) "parent_index out of range" ;;?
      let? dev := at_index de self_index in
      Ok (DirEntryView (EntryOf dev) self_index parent_index name_type)
  | None =>
      dwarfs_check (self_index <? zlen (md_inodes (g_meta g))) "self_index out of range" ;;?
      dwarfs_check (parent_index <? zlen (md_inodes (g_meta g))) "parent_index out of range" ;;?
      let? iv := at_index (md_inodes (g_meta g)) self_index in
      Ok (DirEntryView (EntryOfInode iv) self_index parent_index name_type)
  end.

(** [from_dir_entry_index] of a directory, whose entry names the parent. *)
Definition make_directory_entry_view (g : global_metadata) (self_index : Z) (name_type : entry_name_type) :
    checked dir_entry_view :=
  let meta := g_meta g in
  match md_dir_entries meta with
  | Some de =>
      dwarfs_check (self_index <? zlen de) "self_index out of range" ;;?
      let? dev := at_index de self_index in
      dwarfs_check (inode_num dev <? zlen (md_directories meta)) "inode_num out of range" ;;?
      let? parent := parent_dir_entry g (inode_num dev) in
      Ok (DirEntryView (EntryOf dev) self_index parent name_type)
  | None =>
      dwarfs_check (self_index <? zlen (md_inodes meta)) "self_index out of range" ;;?
      let? iv := at_index (md_inodes meta) self_index in
      dwarfs_check (inode_v2_2 iv <? zlen (md_directories meta)) "inode_v2_2 out of range" ;;?
      let? d := at_index (md_directories meta) (inode_v2_2 iv) in
      let? parent := at_index (md_entry_table_v2_2 meta) (parent_entry d) in
      Ok (DirEntryView (EntryOfInode iv) self_index parent name_type)
  end.

(** The static member [name]. *)
Definition entry_name (g : global_metadata) (index : Z) : checked (list Z) :=
  match md_dir_entries (g_meta g) with
  | Some de =>
      dwarfs_check (index <? zlen de) "index out of range" ;;?
      let? dev := at_index de index in
      string_at (g_names g) (name_index dev)
  | None =>
      dwarfs_check (index <? zlen (md_inodes (g_meta g))) "index out of range" ;;?
      let? iv := at_index (md_inodes (g_meta g)) index in
      at_index (md_names (g_meta g)) (name_index_v2_2 iv)
  end.

Definition dv_name (g : global_metadata) (dv : dir_entry_view) : checked (list Z) :=
  match dv_name_type dv with
  | SelfName => Ok [46]
  | ParentName => Ok [46; 46]
  | OtherName =>
      if is_root dv then Ok []
      else
        match dv_data dv with
        | EntryOf dev => string_at (g_names g) (name_index dev)
        | EntryOfInode iv => at_index (md_names (g_meta g)) (name_index_v2_2 iv)
        end
  end.

Definition dv_parent (g : global_metadata) (dv : dir_entry_view) : checked (option dir_entry_view) :=
  if is_root dv then Ok None
  else let? p := make_directory_entry_view g (dv_parent_index dv) OtherName in Ok (Some p).

(** [append_to]: the names on the way from the root, appended to the names of
    the path. *)
Fixpoint append_to (fuel : nat) (g : global_metadata) (dv : dir_entry_view) (p : list (list Z)) : checked (list (list Z)) :=
  match fuel with
  | O => Err OutOfFuel
  | S fuel =>
      let? parent := dv_parent g dv in
      let? p := match parent with
                | Some ev => if negb (is_root ev) then append_to fuel g ev p else Ok p
                | None => Ok p
                end in
      if negb (is_root dv) then let? n := dv_name g dv in Ok (p ++ [n]) else Ok p
  end.

Definition dv_path (fuel : nat) (g : global_metadata) (dv : dir_entry_view) : checked (list (list Z)) := append_to fuel g dv [].

(** ** [directory_view] *)

(** A view of a directory is its inode number.  An [irange] that ends before it
    begins is [Undefined]. *)
Definition entry_range (g : global_metadata) (inode : Z) : checked (list Z) :=
  let? first := first_dir_entry g inode in
  let? last := first_dir_entry g (inode + 1) in
  if first <=? last then Ok (seqZ first (last - first)) else Err Undefined.

Definition entry_count (g : global_metadata) (inode : Z) : checked Z :=
  let? last := first_dir_entry g (inode + 1) in
  let? first := first_dir_entry g inode in
  Ok (wrapu 32 (last - first)).

Definition self_entry_view (g : global_metadata) (inode : Z) : checked dir_entry_view :=
  let? self := self_dir_entry g inode in make_directory_entry_view g self OtherName.

(** ** [metadata_v2_data] *)

Record metadata_options : Type := MetadataOptions {
  enable_sparse_files : bool;
  readonly : bool;
  check_consistency : bool;
  blksize : Z;
  fs_uid : option Z;
  fs_gid : option Z
}.

Record metadata_v2_data : Type := MetadataV2Data {
  meta_ : fs_metadata;
  global_ : global_metadata;
  root_ : dir_entry_view;
  inode_offset_ : Z;
  symlink_inode_offset_ : Z;
  file_inode_offset_ : Z;
  dev_inode_offset_ : Z;
  inode_count_ : Z;
  chunk_table_ : packed_int_vector;
  shared_files_ : packed_int_vector;
  unique_files_ : Z;
  nlinks_ : option packed_int_vector;
  options_ : metadata_options;
  symlinks_ : string_table decoder
}.

Definition pv_empty (v : packed_int_vector) : bool := pv_size v =? 0.

(** [std::back_inserter], and [set] with an index that counts up. *)
Fixpoint pv_append (l : list Z) (v : packed_int_vector) : checked packed_int_vector :=
  match l with
  | [] => Ok v
  | x :: l => let? v := there (pv_push_back word_lg x v) in pv_append l v
  end.

Fixpoint pv_fill (i : Z) (l : list Z) (v : packed_int_vector) : checked packed_int_vector :=
  match l with
  | [] => Ok v
  | x :: l => let? v := there (pv_set word_lg i x v) in pv_fill (i + 1) l v
  end.

Definition unpack_chunk_table (meta : fs_metadata) : checked packed_int_vector :=
  if opt_flag packed_chunk_table meta then
    pv_append (partial_sum (md_chunk_table (md_files meta)))
      (pv_reset word_lg (bit_width (zlen (md_chunks (md_files meta)))) 0 pv_default)
  else Ok (pv_default).

(** What is written for each of the counts [c], the target of which counts up. *)
Fixpoint shared_targets (target : Z) (counts : list Z) : list Z :=
  match counts with
  | [] => []
  | c :: counts => replicate (Z.to_nat (wrapu 32 (c + 2))) target ++ shared_targets (target + 1) counts
  end.

Definition unpack_shared_files (meta : fs_metadata) : checked packed_int_vector :=
  match md_shared_files_table meta with
  | Some ((_ :: _) as sf) =>
      if opt_flag packed_shared_files_table meta then
        let size := accumulate sf (2 * zlen sf) in
        pv_fill 0 (shared_targets 0 sf) (pv_reset word_lg (bit_width (zlen sf)) size pv_default)
      else Ok (pv_default)
  | _ => Ok (pv_default)
  end.

(** [int]. *)
Definition to_int (z : Z) : Z := wraps 32 z.

(** [build_nlinks], without the total size of hard links. *)
Fixpoint count_links (file_inode_offset : Z) (inodes : list Z) (nlinks : list Z) (total_links : Z) : list Z * Z :=
  match inodes with
  | [] => (nlinks, total_links)
  | ino :: inodes =>
      let index := to_int ino - file_inode_offset in
      if 0 <=? index then
        match nlinks !! Z.to_nat index with
        | Some n => count_links file_inode_offset inodes (<[Z.to_nat index := wrapu 32 (n + 1)]> nlinks)
                      (if 1 <? wrapu 32 (n + 1) then total_links + 1 else total_links)
        | None => count_links file_inode_offset inodes nlinks total_links
        end
      else count_links file_inode_offset inodes nlinks total_links
  end.

Definition build_nlinks (meta : fs_metadata) (file_inode_offset dev_inode_offset : Z) : checked (option packed_int_vector) :=
  if opt_flag inodes_have_nlink meta then Ok None
  else if file_inode_offset <? dev_inode_offset then
    let inodes := match md_dir_entries meta with
                  | Some de => map inode_num de
                  | None => map inode_v2_2 (md_inodes meta)
                  end in
    let '(nlinks, total_links) :=
      count_links file_inode_offset inodes (replicate (Z.to_nat (dev_inode_offset - file_inode_offset)) 0) 0 in
    if 0 <? total_links then
      let? v := pv_fill 0 (map (fun n => wrapu 32 (n - 1)) nlinks)
                  (pv_reset word_lg (bit_width (max_element nlinks - 1)) (zlen nlinks) pv_default) in
      Ok (Some v)
    else Ok (Some (pv_default))
  else Ok None.

(** The constructor, with its checks of the offsets. *)
Definition check_offsets (meta : fs_metadata) (symlink_offset file_offset dev_offset : Z) : checked unit :=
  check_that (zlen (md_directories meta) - 1 =? symlink_offset) "number of directories does not match link index" ;;?
  check_that (zlen (md_symlink_table meta) =? file_offset - symlink_offset) "number of symlinks does not match delta" ;;?
  check_that (match md_shared_files_table meta with Some _ => true | None => false end
              || (to_int (zlen (md_chunk_table (md_files meta)) - 1) =? dev_offset - file_offset))
    "number of files does not match delta" ;;?
  match md_devices meta with
  | None => Ok tt
  | Some devs =>
      let? other := find_inode_rank_offset meta INO_OTH in
      check_that (to_int (zlen devs) =? to_int other - dev_offset) "number of devices does not match delta"
  end.

Definition file_inode_to_chunk_index (d : metadata_v2_data) (inode : Z) : checked Z :=
  let inode := inode - file_inode_offset_ d in
  if unique_files_ d <=? inode then
    let inode := inode - unique_files_ d in
    if negb (pv_empty (shared_files_ d)) then
      if inode <? pv_size (shared_files_ d) then
        let? x := there (pv_get word_lg (shared_files_ d) inode) in Ok (to_int (x + unique_files_ d))
      else Ok inode
    else
      match md_shared_files_table (meta_ d) with
      | Some sf =>
          if inode <? zlen sf then let? x := at_index sf inode in Ok (to_int (x + unique_files_ d)) else Ok inode
      | None => Ok inode
      end
  else Ok inode.

Definition chunk_table_lookup (d : metadata_v2_data) (ino : Z) : checked Z :=
  if pv_empty (chunk_table_ d) then at_index (md_chunk_table (md_files (meta_ d))) ino
  else there (pv_get word_lg (chunk_table_ d) ino).

(** [None] is the error [invalid_argument]. *)
Definition get_chunk_range_from_index (d : metadata_v2_data) (index : Z) : checked (option (Z * Z)) :=
  if (0 <=? index) && (index + 1 <? to_int (zlen (md_chunk_table (md_files (meta_ d))))) then
    let? b := chunk_table_lookup d index in
    let? e := chunk_table_lookup d (index + 1) in
    Ok (Some (b, e))
  else Ok None.

Definition get_chunk_range (d : metadata_v2_data) (inode : Z) : checked (option (Z * Z)) :=
  let? index := file_inode_to_chunk_index d inode in get_chunk_range_from_index d index.

Definition get_chunks (d : metadata_v2_data) (inode : Z) : checked (option (Z * Z)) := get_chunk_range d (inode - inode_offset_ d).

(** The chunks of a range, one after the other. *)
Definition chunks_of_range (d : metadata_v2_data) (range : Z * Z) : checked (list chunk) :=
  if range.1 <=? range.2 then
    mapR (fun i => let? c := at_index (md_chunks (md_files (meta_ d))) i in there (chunk_view (md_files (meta_ d)) c))
      (seqZ range.1 (range.2 - range.1))
  else Err Undefined.

Definition make_inode_view (d : metadata_v2_data) (inode : Z) : checked inode_view :=
  let? index := match md_dir_entries (meta_ d) with Some _ => Ok inode | None => at_index (md_entry_table_v2_2 (meta_ d)) inode end in
  let? ino := at_index (md_inodes (meta_ d)) index in
  Ok (InodeView ino inode).

Definition get_entry (d : metadata_v2_data) (inode : Z) : checked (option inode_view) :=
  let inode := inode - inode_offset_ d in
  if (0 <=? inode) && (inode <? inode_count_ d) then let? iv := make_inode_view d inode in Ok (Some iv) else Ok None.

Inductive readlink_mode : Type := ReadlinkRaw | ReadlinkPreferred | ReadlinkPosix.

(** [std::filesystem::path::preferred_separator] of a POSIX system. *)
Definition preferred_separator : Z := 47.

Definition link_value (d : metadata_v2_data) (iv : inode_view) (mode : readlink_mode) : checked (list Z) :=
  let? index := at_index (md_symlink_table (meta_ d)) (iv_inode_num iv - symlink_inode_offset_ d) in
  let? rv := string_at (symlinks_ d) index in
  match mode with
  | ReadlinkRaw => Ok rv
  | _ =>
      let meta_preferred := wraps 8 (default preferred_separator (md_preferred_path_separator (meta_ d))) in
      Ok (map (fun c => if wraps 8 c =? meta_preferred then preferred_separator else c) rv)
  end.

Definition readlink (d : metadata_v2_data) (iv : inode_view) (mode : readlink_mode) : checked (option (list Z)) :=
  let? link := iv_is_symlink (meta_ d) iv in
  if link then let? v := link_value d iv mode in Ok (Some v) else Ok None.

Definition get_device_id (d : metadata_v2_data) (inode : Z) : checked (option Z) :=
  match md_devices (meta_ d) with
  | Some devs => let? id := at_index devs (inode - dev_inode_offset_ d) in Ok (Some id)
  | None => Ok None
  end.

Definition opendir (d : metadata_v2_data) (iv : inode_view) : checked (option Z) :=
  let? dir := iv_is_directory (meta_ d) iv in
  Ok (if dir then Some (iv_inode_num iv) else None).

Definition make_directory_view (d : metadata_v2_data) (iv : inode_view) : checked Z :=
  let? dir := iv_is_directory (meta_ d) iv in
  dwarfs_check dir "not a directory" ;;? Ok (iv_inode_num iv).

(** *** Finding an entry *)

(** The order of [std::string]. *)
Fixpoint bytes_lt (a b : list Z) : bool :=
  match a, b with
  | [], [] => false
  | [], _ :: _ => true
  | _ :: _, [] => false
  | x :: a, y :: b => (x <? y) || ((x =? y) && bytes_lt a b)
  end.

Definition find_in (d : metadata_v2_data) (dir : Z) (name : list Z) : checked (option dir_entry_view) :=
  let g := global_ d in
  let? first := first_dir_entry g dir in
  let? last := first_dir_entry g (dir + 1) in
  if last <? first then Err Undefined else
  let? it := lower_bound (Z.to_nat (last - first)) first (last - first)
               (fun ix => let? n := entry_name g ix in Ok (bytes_lt n name)) in
  if it =? last then Ok None
  else
    let? n := entry_name g it in
    if bool_decide (n = name) then
      let? self := self_dir_entry g dir in
      let? dv := make_dir_entry_view g it self OtherName in
      Ok (Some dv)
    else Ok None.

Definition slash : Z := 47.

Fixpoint skip_slashes (path : list Z) : list Z :=
  match path with
  | c :: rest => if c =? slash then skip_slashes rest else path
  | [] => []
  end.

(** The part before the first slash, and what follows the slash. *)
Fixpoint split_path (path : list Z) : list Z * list Z :=
  match path with
  | [] => ([], [])
  | c :: rest => if c =? slash then ([], rest) else let '(n, p) := split_path rest in (c :: n, p)
  end.

Fixpoint find_path_from (fuel : nat) (d : metadata_v2_data) (dev : dir_entry_view) (path : list Z) : checked (option dir_entry_view) :=
  match path with
  | [] => Ok (Some dev)
  | _ =>
      match fuel with
      | O => Err OutOfFuel
      | S fuel =>
          let? iv := dv_inode (global_ d) dev in
          let? dir := iv_is_directory (meta_ d) iv in
          if negb dir then Ok None
          else
            let '(name, path) := split_path path in
            let? inode := make_directory_view d iv in
            let? next := find_in d inode name in
            match next with
            | None => Ok None
            | Some dev => find_path_from fuel d dev path
            end
      end
  end.

Definition find_path (d : metadata_v2_data) (path : list Z) : checked (option dir_entry_view) :=
  find_path_from (length path) d (root_ d) (skip_slashes path).

(** *** Reading and walking directories *)

Definition readdir (d : metadata_v2_data) (dir offset : Z) : checked (option dir_entry_view) :=
  let g := global_ d in
  if offset =? 0 then
    let? self := self_dir_entry g dir in
    let? dv := make_directory_entry_view g self SelfName in Ok (Some dv)
  else if offset =? 1 then
    let? parent := parent_dir_entry g dir in
    let? dv := make_directory_entry_view g parent ParentName in Ok (Some dv)
  else
    let offset := offset - 2 in
    let? count := entry_count g dir in
    if count <=? offset then Ok None
    else
      let? first := first_dir_entry g dir in
      let? self := self_dir_entry g dir in
      let? dv := make_dir_entry_view g (wrapu 32 (first + offset)) self OtherName in Ok (Some dv).

Definition dirsize (d : metadata_v2_data) (dir : Z) : checked Z :=
  let? n := entry_count (global_ d) dir in Ok (2 + n).

(** The calls of the function, in order: the entry and its parent. *)
Fixpoint walk (fuel : nat) (d : metadata_v2_data) (self_index parent_index : Z) (seen : list Z) : checked (list (Z * Z)) :=
  match fuel with
  | O => Err OutOfFuel
  | S fuel =>
      let? entry := make_dir_entry_view (global_ d) self_index parent_index OtherName in
      let? iv := dv_inode (global_ d) entry in
      let? dir := iv_is_directory (meta_ d) iv in
      if dir then
        let inode := iv_inode_num iv in
        if bool_decide (inode ∈ seen) then Err (Thrown "cycle detected during directory walk")
        else
          let? range := entry_range (global_ d) inode in
          let? below := mapR (fun cur_index => walk fuel d cur_index self_index (inode :: seen)) range in
          Ok ((self_index, parent_index) :: concat below)
      else Ok [(self_index, parent_index)]
  end.

Definition walk_tree (fuel : nat) (d : metadata_v2_data) : checked (list (Z * Z)) := walk fuel d 0 0 [].

Definition directory_entries_at (d : metadata_v2_data) (index : Z) : checked dir_entry_view :=
  if index <? symlink_inode_offset_ d then
    let? self_index := self_dir_entry (global_ d) index in
    let? parent_index := parent_dir_entry (global_ d) index in
    make_dir_entry_view (global_ d) self_index parent_index OtherName
  else Err (Thrown "index out of range").

(** *** Attributes *)

Record file_size_result : Type := FileSizeResult { fsr_size : Z; fsr_allocated_size : Z }.

#[global] Instance file_size_result_eq_dec : EqDecision file_size_result.
Proof. solve_decision. Defined.

Definition sum_chunks (enable_sparse : bool) (cs : list chunk) : file_size_result :=
  foldl (fun r c => FileSizeResult (fsr_size r + size c)
                      (if negb enable_sparse || is_data c then fsr_allocated_size r + size c else fsr_allocated_size r))
    (FileSizeResult 0 0) cs.

Definition reg_file_size (d : metadata_v2_data) (inode : Z) (use_cache : bool) : checked file_size_result :=
  let? index := file_inode_to_chunk_index d inode in
  let? range := get_chunk_range_from_index d index in
  dwarfs_check (match range with Some _ => true | None => false end) "get_chunk_range" ;;?
  let? '(b, e) := there range in
  let sparse := enable_sparse_files (options_ d) in
  let cached :=
    cache ← (if use_cache then md_reg_file_size_cache (meta_ d) else None);
    if min_chunk_count cache <=? wrapu 32 (e - b) then
      n ← size_lookup cache !! index;
      Some (FileSizeResult n (if sparse then default n (allocated_size_lookup cache !! index) else n))
    else None in
  match cached with
  | Some r => Ok r
  | None => let? cs := chunks_of_range d (b, e) in Ok (sum_chunks sparse cs)
  end.

Definition file_size (d : metadata_v2_data) (iv : inode_view) (mode : Z) : checked file_size_result :=
  let t := file_type mode in
  if t =? S_IFREG then reg_file_size d (iv_inode_num iv) true
  else if t =? S_IFLNK then let? v := link_value d iv ReadlinkRaw in Ok (FileSizeResult (zlen v) (zlen v))
  else Ok (FileSizeResult 0 0).

Definition READ_ONLY_MASK : Z := 0xFF6D.

Record file_stat : Type := FileStat {
  st_mode : Z; st_size : Z; st_blocks : Z; st_allocated_size : Z; st_ino : Z; st_blksize : Z;
  st_uid : Z; st_gid : Z; st_nlink : Z; st_rdev : Z
}.

Definition getattr (d : metadata_v2_data) (iv : inode_view) (no_size : bool) : checked file_stat :=
  let? m := iv_mode (meta_ d) iv in
  let inode := iv_inode_num iv in
  let mode := if readonly (options_ d) then Z.land m READ_ONLY_MASK else m in
  let t := file_type mode in
  let? sz := (if no_size then Ok (FileSizeResult 0 0)
              else if t =? S_IFDIR then
                let? dir := make_directory_view d iv in
                let? n := entry_count (global_ d) dir in Ok (FileSizeResult n n)
              else file_size d iv mode) in
  let? uid := iv_getuid (meta_ d) iv in
  let? gid := iv_getgid (meta_ d) iv in
  let? nlink := (if t =? S_IFREG then
                   match nlinks_ d with
                   | None => Ok (wrapu 32 (nlink_minus_one (iv_data iv) + 1))
                   | Some v =>
                       if negb (pv_empty v) then
                         match pv_at word_lg v (inode - file_inode_offset_ d) with
                         | Ok x => let? x := there x in Ok (wrapu 32 (x + 1))
                         | Err _ => Err (Terminated "nlink")
                         end
                       else Ok 1
                   end
                 else Ok 1) in
  let? rdev := (if (t =? S_IFBLK) || (t =? S_IFCHR) then
                  let? id := get_device_id d inode in
                  match id with Some id => Ok id | None => Err (Thrown "bad_optional_access") end
                else Ok 0) in
  Ok (FileStat mode (fsr_size sz) ((fsr_allocated_size sz + 511) / 512) (fsr_allocated_size sz) (inode + inode_offset_ d)
        (blksize (options_ d)) (default uid (fs_uid (options_ d))) (default gid (fs_gid (options_ d))) nlink rdev).

Definition R_OK : Z := 4.
Definition W_OK : Z := 2.
Definition X_OK : Z := 1.

(** One of the three classes of permission bits. *)
Definition test_access (is_readonly : bool) (e_mode r_bit w_bit x_bit access_mode : Z) : Z :=
  let a := if Z.land e_mode r_bit =? 0 then access_mode else Z.lor access_mode R_OK in
  let a := if (Z.land e_mode w_bit =? 0) || is_readonly then a else Z.lor a W_OK in
  if Z.land e_mode x_bit =? 0 then a else Z.lor a X_OK.

(** Whether access is granted. *)
Definition access (d : metadata_v2_data) (iv : inode_view) (mode uid gid : Z) : checked bool :=
  if mode =? 0 then Ok true
  else
    let? e_mode := iv_mode (meta_ d) iv in
    let? access_mode :=
      (if uid =? 0 then Ok (if Z.land e_mode 0x49 =? 0 then Z.lor R_OK W_OK else Z.lor (Z.lor R_OK W_OK) X_OK)
       else
         let ro := readonly (options_ d) in
         let a := test_access ro e_mode 4 2 1 0 in
         let? g := iv_getgid (meta_ d) iv in
         let a := if g =? gid then test_access ro e_mode 0x20 0x10 8 a else a in
         let? u := iv_getuid (meta_ d) iv in
         Ok (if u =? uid then test_access ro e_mode 0x100 0x80 0x40 a else a)) in
    Ok (Z.land access_mode mode =? mode).

(** *** The constructor *)

(** What the check of an index of the size cache counts as errors: a cached
    size that is not the expected one, too few chunks, a cached allocated size
    of a file without a hole. *)
Definition check_cached_index (d : metadata_v2_data) (index : Z) (expected : file_size_result) (lookup : gmap Z Z)
    (size_of : file_size_result -> Z) (min_count : Z) (holes_only : bool) (errors : Z) (seen : gset Z) : checked (Z * gset Z) :=
  if bool_decide (index ∈ seen) then Ok (errors, seen)
  else
    match lookup !! index with
    | None => Ok (errors, seen)
    | Some n =>
        let? range := get_chunk_range_from_index d index in
        dwarfs_check (match range with Some _ => true | None => false end) "get_chunk_range" ;;?
        let? '(b, e) := there range in
        let errors := if n =? size_of expected then errors else errors + 1 in
        let errors := if wrapu 32 (e - b) <? min_count then errors + 1 else errors in
        let? errors := (if holes_only then
                          let? cs := chunks_of_range d (b, e) in
                          Ok (if existsb is_hole cs then errors else errors + 1)
                        else Ok errors) in
        Ok (errors, {[index]} ∪ seen)
    end.

Fixpoint check_cached_sizes (d : metadata_v2_data) (cache : inode_size_cache) (inodes : list Z) (errors : Z) (seen seen_sparse : gset Z) :
    checked (Z * gset Z * gset Z) :=
  match inodes with
  | [] => Ok (errors, seen, seen_sparse)
  | inode :: inodes =>
      let? iv := make_inode_view d inode in
      let? expected := reg_file_size d (iv_inode_num iv) false in
      let? size_cached := reg_file_size d (iv_inode_num iv) true in
      let errors := if bool_decide (size_cached = expected) then errors else errors + 1 in
      let? index := file_inode_to_chunk_index d inode in
      let? '(errors, seen) :=
        check_cached_index d index expected (size_lookup cache) fsr_size (min_chunk_count cache) false errors seen in
      let? '(errors, seen_sparse) :=
        check_cached_index d index expected (allocated_size_lookup cache) fsr_allocated_size (min_chunk_count cache) true errors
          seen_sparse in
      check_cached_sizes d cache inodes errors seen seen_sparse
  end.

(** The indices that were not seen. *)
Definition unused_entries (lookup : gmap Z Z) (seen : gset Z) : Z := Z.of_nat (base.size (dom lookup ∖ seen)).

Definition check_inode_size_cache (d : metadata_v2_data) : checked unit :=
  match md_reg_file_size_cache (meta_ d) with
  | None => Ok tt
  | Some cache =>
      let? '(errors, seen, seen_sparse) :=
        check_cached_sizes d cache (seqZ (file_inode_offset_ d) (dev_inode_offset_ d - file_inode_offset_ d)) 0 ∅ ∅ in
      let errors := errors + unused_entries (size_lookup cache) seen + unused_entries (allocated_size_lookup cache) seen_sparse in
      check_that (errors <=? 0) "inode size cache check failed"
  end.

Definition metadata_v2_data_create (frozen_string_table_size : list (list Z) -> Z) (fuel : nat) (meta : fs_metadata)
    (options : metadata_options) (inode_offset : Z) (force_consistency_check : bool) : checked metadata_v2_data :=
  let check := check_consistency options || force_consistency_check in
  (if check then check_metadata frozen_string_table_size meta else Ok tt) ;;?
  let? global := global_metadata_create fuel meta in
  let? root := make_directory_entry_view global 0 OtherName in
  let? symlink_offset := find_inode_rank_offset meta INO_LNK in
  let? file_offset := find_inode_rank_offset meta INO_REG in
  let? dev_offset := find_inode_rank_offset meta INO_DEV in
  let symlink_offset := to_int symlink_offset in
  let file_offset := to_int file_offset in
  let dev_offset := to_int dev_offset in
  let inode_count := to_int (match md_dir_entries meta with Some _ => zlen (md_inodes meta) | None => zlen (md_entry_table_v2_2 meta) end) in
  let? chunk_table := unpack_chunk_table meta in
  let? shared_files := unpack_shared_files meta in
  let num_shared :=
    if pv_empty shared_files then match md_shared_files_table meta with Some sf => zlen sf | None => 0 end
    else pv_size shared_files in
  let unique_files := to_int (dev_offset - file_offset - num_shared) in
  let? nlinks := build_nlinks meta file_offset dev_offset in
  let? symlinks := open_string_table (md_compact_symlinks meta) (md_symlinks meta) in
  let d := MetadataV2Data meta global root inode_offset symlink_offset file_offset dev_offset inode_count chunk_table shared_files
             unique_files nlinks options symlinks in
  check_offsets meta symlink_offset file_offset dev_offset ;;?
  (if check then check_inode_size_cache d else Ok tt) ;;?
  Ok d.

Definition open_file (d : metadata_v2_data) (iv : inode_view) : checked (option Z) :=
  let? reg := iv_is_regular_file (meta_ d) iv in Ok (if reg then Some (iv_inode_num iv) else None).
End reader.
