(* ===== verification/MetadataSafety.v ===== *)
(** * MetadataSafety: metadata that passed the checks is read safely

    [check_metadata] is what stands between a damaged image and a reader that
    checks no index.  Here a session of any calls of the reader's interface on
    checked metadata is shown never to read what is not there. *)

From S2P Require Import Prelude Bits FileChunks PackedInts StringTable SparseSeek Metadata MetadataReader.
Local Open Scope Z_scope.

#[local] Abbreviation checked := (result metadata_error).

(** ** Safe results *)

(** The result satisfies [P], or it is an exception, an abort or the end of the
    fuel, but no read of what is not there. *)
Definition safe {A} (r : checked A) (P : A -> Prop) : Prop :=
  match r with Ok a => P a | Err e => e <> Undefined end.

Lemma bind_safe {A B} (m : checked A) (f : A -> checked B) (P : A -> Prop) (Q : B -> Prop) :
  safe m P -> (forall a, P a -> safe (f a) Q) -> safe (rbind m f) Q.
Proof. destruct m; cbn; auto. Qed.

Lemma safe_mono {A} (m : checked A) (P Q : A -> Prop) : safe m P -> (forall a, P a -> Q a) -> safe m Q.
Proof. destruct m; cbn; auto. Qed.

Lemma safe_check_that b what : safe (check_that b what) (fun _ => b = true).
Proof. by destruct b. Qed.

Lemma safe_dwarfs_check b what : safe (dwarfs_check b what) (fun _ => b = true).
Proof. by destruct b. Qed.

Lemma safe_there {A} (x : option A) a : x = Some a -> safe (there x) (eq a).
Proof. by intros ->. Qed.

Lemma safe_at_index {A} (l : list A) i : 0 <= i < zlen l -> safe (at_index l i) (fun x => l !! Z.to_nat i = Some x).
Proof.
  intros Hi. unfold at_index. replace (i <? 0) with false by lia. destruct (lookup_lt_is_Some_2 l (Z.to_nat i)) as [x Hx]; [unfold zlen in Hi; lia|].
  by rewrite Hx.
Qed.

Lemma at_index_Some {A} (l : list A) i x : l !! Z.to_nat i = Some x -> 0 <= i -> at_index l i = Ok x.
Proof. intros H Hi. unfold at_index. replace (i <? 0) with false by lia. by rewrite H. Qed.

Lemma safe_mapR {A B} (f : A -> checked B) l (P : B -> Prop) :
  Forall (fun x => safe (f x) P) l -> safe (mapR f l) (Forall P).
Proof.
  induction 1 as [|x l Hx Hl IH]; [by constructor|]. cbn [mapR]. apply (bind_safe _ _ P); [done|]. intros y Hy.
  apply (bind_safe _ _ (Forall P)); [done|]. intros ys Hys. by constructor.
Qed.

(** The lookup of an element there is. *)
Lemma zlookup_lt {A} (l : list A) i x : l !! Z.to_nat i = Some x -> 0 <= i -> 0 <= i < zlen l.
Proof. intros H Hi. apply lookup_lt_Some in H. unfold zlen. lia. Qed.

(** ** What passed a check *)

Lemma rbind_Ok {E A B} (m : result E A) (f : A -> result E B) b : rbind m f = Ok b -> exists a, m = Ok a /\ f a = Ok b.
Proof. destruct m as [a|]; [|done]. intros H. by exists a. Qed.

Lemma check_that_Ok b what u : check_that b what = Ok u -> b = true.
Proof. by destruct b. Qed.

Lemma there_Ok {A} (x : option A) a : there x = Ok a -> x = Some a.
Proof. destruct x; [|done]. by intros [= ->]. Qed.

Lemma for_each_Ok {A} (f : A -> checked unit) l : for_each f l = Ok tt -> Forall (fun x => f x = Ok tt) l.
Proof.
  induction l as [|x l IH]; cbn [for_each]; intros H; [by constructor|].
  apply rbind_Ok in H as ([] & H1 & H2). constructor; auto.
Qed.

Lemma for_each_index_Ok {A} (f : Z -> A -> checked unit) l i : for_each_index i f l = Ok tt ->
  forall k x, l !! k = Some x -> f (i + Z.of_nat k) x = Ok tt.
Proof.
  revert i. induction l as [|y l IH]; cbn [for_each_index]; intros i H k x Hk; [done|].
  apply rbind_Ok in H as ([] & H1 & H2). destruct k as [|k]; cbn in Hk.
  - simplify_eq. by rewrite Z.add_0_r.
  - replace (i + Z.of_nat (S k)) with (i + 1 + Z.of_nat k) by lia. by apply IH.
Qed.

Lemma mapR_Ok {A B} (f : A -> checked B) l l' : mapR f l = Ok l' -> Forall2 (fun x y => f x = Ok y) l l'.
Proof.
  revert l'. induction l as [|x l IH]; cbn [mapR]; intros l' H; [simplify_eq; constructor|].
  apply rbind_Ok in H as (y & H1 & H2). apply rbind_Ok in H2 as (ys & H2 & H3). simplify_eq. constructor; auto.
Qed.

(** Takes a passed sequence of checks apart. *)
Ltac passed :=
  repeat match goal with
  | H : rbind (check_that _ _) _ = Ok _ |- _ => apply rbind_Ok in H as ([] & ?H & H)
  | H : rbind ?m _ = Ok _ |- _ => let a := fresh "a" in apply rbind_Ok in H as (a & ?H & H)
  | H : check_that _ _ = Ok _ |- _ => apply check_that_Ok in H
  | H : there _ = Ok _ |- _ => apply there_Ok in H
  | H : for_each _ _ = Ok _ |- _ => apply for_each_Ok in H
  | a : unit |- _ => destruct a
  end.

(** ** Ranks and the binary search for them *)

Lemma is_partitioned_spec l : is_partitioned l = true ->
  0 <= partition_point l <= zlen l /\ forall i b, l !! i = Some b -> b = (Z.of_nat i <? partition_point l).
Proof.
  induction l as [|[|] l IH]; cbn [is_partitioned partition_point]; intros H.
  - split; [done|]. intros i b Hi. by rewrite lookup_nil in Hi.
  - destruct (IH H) as [H1 H2]. assert (zlen (true :: l) = 1 + zlen l) as -> by (unfold zlen; cbn [length]; lia). split; [lia|].
    intros [|i] b Hi; cbn in Hi.
    + simplify_eq. symmetry. apply Z.ltb_lt. lia.
    + rewrite (H2 i b Hi). destruct (Z.ltb_spec (Z.of_nat i) (partition_point l)), (Z.ltb_spec (Z.of_nat (S i)) (1 + partition_point l)); done || lia.
  - pose proof (zlen_nonneg (false :: l)). split; [lia|]. intros i b Hi. rewrite (proj2 (Z.ltb_ge _ _)) by lia.
    destruct b; [|done]. exfalso. apply negb_true_iff in H. enough (existsb id (false :: l) = true) by congruence.
    apply existsb_exists. exists true. split; [|done]. apply list_elem_of_In. by eapply list_elem_of_lookup_2.
Qed.

Lemma lower_bound_partition fuel first len p less : first <= p <= first + len -> (Z.to_nat len <= fuel)%nat ->
  (forall i, first <= i < first + len -> less i = Ok (i <? p)) -> lower_bound fuel first len less = Ok p.
Proof.
  revert first len. induction fuel as [|fuel IH]; intros first len Hp Hf Hl; cbn [lower_bound]; [f_equal; lia|].
  destruct (Z.eqb_spec len 0); [f_equal; lia|].
  pose proof (Z.div_mod len 2 ltac:(lia)). pose proof (Z.mod_pos_bound len 2 ltac:(lia)).
  rewrite Hl by lia. cbn [rbind]. destruct (Z.ltb_spec (first + len / 2) p).
  - apply IH; [lia|lia|]. intros i Hi. apply Hl. lia.
  - apply IH; [lia|lia|]. intros i Hi. apply Hl. lia.
Qed.

(** A search that only has to be safe. *)
Lemma lower_bound_safe fuel first len less : 0 <= len -> (forall i, first <= i < first + len -> safe (less i) (fun _ => True)) ->
  safe (lower_bound fuel first len less) (fun i => first <= i <= first + len).
Proof.
  revert first len. induction fuel as [|fuel IH]; intros first len Hlen Hl; cbn [lower_bound]; [cbn; lia|].
  destruct (Z.eqb_spec len 0); [cbn; lia|].
  pose proof (Z.div_mod len 2 ltac:(lia)). pose proof (Z.mod_pos_bound len 2 ltac:(lia)).
  apply (bind_safe _ _ (fun _ => True)); [apply Hl; lia|]. intros [|] _.
  - eapply safe_mono; [apply IH; [lia|intros; apply Hl; lia]|]. cbn. lia.
  - eapply safe_mono; [apply IH; [lia|intros; apply Hl; lia]|]. cbn. lia.
Qed.

(** ** Sorted tables and sums *)

(** Neighbours in order, between the bounds. *)
Definition steps_ok (lo hi : Z) (l : list Z) : Prop :=
  forall i x y, l !! i = Some x -> l !! S i = Some y -> lo <= x <= y /\ y <= hi.

Lemma accumulate_cons x l : accumulate (x :: l) 0 = x + accumulate l 0.
Proof. unfold accumulate. cbn [foldl]. rewrite Z.add_0_l. apply accumulate_init. Qed.

Lemma accumulate_nonneg l : Forall (in_u 32) l -> 0 <= accumulate l 0.
Proof. induction 1 as [|x l [Hx _] Hl IH]; [done|]. rewrite accumulate_cons. lia. Qed.

Lemma partial_sum_steps acc l : Forall (in_u 32) l -> 0 <= acc -> acc + accumulate l 0 < 2 ^ 32 ->
  steps_ok acc (acc + accumulate l 0) (acc :: partial_sum_from acc l).
Proof.
  intros Hl. revert acc. induction Hl as [|x l Hx Hl IH]; intros acc Ha Hs; [by intros [|i] x y Hi Hj|].
  rewrite accumulate_cons in *. pose proof (accumulate_nonneg l Hl). destruct Hx as [Hx _]. cbn [partial_sum_from].
  rewrite wrapu_small by (split; lia). specialize (IH (acc + x) ltac:(lia) ltac:(lia)). intros [|i] y z Hy Hz.
  - cbn in Hy, Hz. simplify_eq. lia.
  - cbn in Hy. destruct (IH i y z Hy Hz). lia.
Qed.

(** An element of the sums is between the bounds. *)
Lemma partial_sum_range l i x : Forall (in_u 32) l -> accumulate l 0 < 2 ^ 32 -> partial_sum l !! i = Some x -> 0 <= x <= accumulate l 0.
Proof.
  intros Hl Hs Hx. destruct (lookup_lt_is_Some_2 (0 :: partial_sum l) i) as [y Hy].
  { apply lookup_lt_Some in Hx. cbn [length]. lia. }
  destruct (partial_sum_steps 0 l Hl ltac:(lia) Hs i y x Hy Hx). lia.
Qed.

Lemma steps_tail lo hi x l : steps_ok lo hi (x :: l) -> steps_ok lo hi l.
Proof. intros H i y z Hy Hz. by apply (H (S i)). Qed.

Lemma is_sorted_cons x y l : is_sorted (x :: y :: l) = (x <=? y) && is_sorted (y :: l).
Proof. done. Qed.

Lemma is_sorted_steps l lo hi : is_sorted l = true -> Forall (fun x => lo <= x) l -> last l = Some hi -> steps_ok lo hi l.
Proof.
  induction l as [|x l IH]; intros Hs Hlo Hlast; [done|]. apply Forall_cons in Hlo as [Hx Hlo]. destruct l as [|y l].
  - intros [|i] a b Ha Hb; done.
  - rewrite is_sorted_cons in Hs. apply andb_true_iff in Hs as [Hxy Hs]. rewrite last_cons_cons in Hlast.
    specialize (IH Hs Hlo Hlast). assert (y <= hi) as Hy.
    { clear Hxy Hlo. destruct l as [|z l]; [cbn in Hlast; simplify_eq; lia|].
      destruct (IH O y z) as [H1 H2]; [done..|]. lia. }
    intros [|i] a b Ha Hb; cbn in Ha.
    + cbn in Hb. simplify_eq. lia.
    + by apply (IH i).
Qed.

(** ** Metadata of the types of [metadata.thrift] *)

Definition directory_typed (d : directory) : Prop := in_u 32 (parent_entry d) /\ in_u 32 (first_entry d) /\ in_u 32 (self_entry d).
Definition inode_typed (i : inode_data) : Prop :=
  in_u 32 (mode_index i) /\ in_u 32 (owner_index i) /\ in_u 32 (group_index i).
Definition entry_typed (e : dir_entry) : Prop := in_u 32 (name_index e) /\ in_u 32 (inode_num e).
Definition chunk_typed (c : meta_chunk) : Prop := in_u 32 (mc_block c) /\ in_u 32 (mc_offset c) /\ in_u 32 (mc_size c).
Definition strings_typed (t : option string_table_data) : Prop :=
  match t with Some t => Forall (in_u 32) (st_index t) /\ zlen (st_buffer t) < 2 ^ 32 | None => True end.

#[global] Instance directory_typed_dec d : Decision (directory_typed d).
Proof. unfold directory_typed. apply _. Defined.
#[global] Instance inode_typed_dec i : Decision (inode_typed i).
Proof. unfold inode_typed. apply _. Defined.
#[global] Instance entry_typed_dec e : Decision (entry_typed e).
Proof. unfold entry_typed. apply _. Defined.
#[global] Instance chunk_typed_dec c : Decision (chunk_typed c).
Proof. unfold chunk_typed. apply _. Defined.

(** The fields fit their types, and the tables the [int] of the reader. *)
Record meta_typed (meta : fs_metadata) (de : list dir_entry) : Prop := {
  mt_directories : Forall directory_typed (md_directories meta);
  mt_inodes : Forall inode_typed (md_inodes meta);
  mt_entries : Forall entry_typed de;
  mt_chunk_table : Forall (in_u 32) (md_chunk_table (md_files meta));
  mt_chunks : Forall chunk_typed (md_chunks (md_files meta));
  mt_block_size : in_u 32 (md_block_size (md_files meta));
  mt_symlink_table : Forall (in_u 32) (md_symlink_table meta);
  mt_shared : forall sf, md_shared_files_table meta = Some sf -> Forall (in_u 32) sf /\ zlen sf < 2 ^ 31;
  mt_names : strings_typed (md_compact_names meta);
  mt_symlinks : strings_typed (md_compact_symlinks meta);
  mt_num_inodes : zlen (md_inodes meta) < 2 ^ 31;
  mt_num_chunks : zlen (md_chunks (md_files meta)) < 2 ^ 32
}.

(** What the checks leave open: the entries are those of the formats from 2.3
    on and there is no table of the older ones; without the self entries there
    are options; in packed directories the first entry is of a directory. *)
Record readable (meta : fs_metadata) (de : list dir_entry) : Prop := {
  rd_entries : md_dir_entries meta = Some de;
  rd_no_entry_table : md_entry_table_v2_2 meta = [];
  rd_options : dir_has_self_entry meta = false -> md_options meta <> None;
  rd_root : opt_flag packed_directories meta = true -> exists e, de !! O = Some e /\ inode_num e < zlen (md_directories meta) - 1
}.

Section facts.
Context (frozen_string_table_size : list (list Z) -> Z) (meta : fs_metadata) (de : list dir_entry).
Context (Htyped : meta_typed meta de) (Hreadable : readable meta de).
Context (Hcheck : check_metadata frozen_string_table_size meta = Ok tt).

(** The position of the first inode of a rank. *)
Definition rank_offset (ranks : list Z) (r : Z) : Z := partition_point (map (fun rank => rank <? r) ranks).

Record checked_facts (ranks : list Z) : Prop := {
  cf_empty : check_empty_tables meta = Ok tt;
  cf_index : check_index_range meta = Ok tt;
  cf_packed : check_packed_tables meta = Ok tt;
  cf_strings : check_string_tables frozen_string_table_size meta = Ok tt;
  cf_chunks : check_chunks meta = Ok tt;
  cf_ranks : Forall2 (fun ino r => exists m, at_index (md_modes meta) (mode_index ino) = Ok m /\ get_inode_rank m = Ok r) (md_inodes meta) ranks;
  cf_partitioned r : 0 <= r <= 5 -> is_partitioned (map (fun rank => rank <? r) ranks) = true;
  cf_dirs : zlen (md_directories meta) - 1 = rank_offset ranks 1;
  cf_links : zlen (md_symlink_table meta) = rank_offset ranks 2 - rank_offset ranks 1;
  cf_counts : exists u s, file_counts meta = Ok (u, s) /\ wrapu 64 (u + s) = rank_offset ranks 3 - rank_offset ranks 2;
  cf_devices : match md_devices meta with Some d => zlen d | None => 0 end = rank_offset ranks 4 - rank_offset ranks 3
}.

Lemma checked_facts_hold : exists ranks, checked_facts ranks.
Proof using Hcheck Hreadable.
  pose proof Hcheck as H. unfold check_metadata in H. do 5 (apply rbind_Ok in H as ([] & ? & H)).
  apply rbind_Ok in H as (offsets & Hp & H). unfold check_partitioning in Hp. apply rbind_Ok in Hp as (ranks & Hr & Hp).
  exists ranks. apply mapR_Ok in Hp.
  eapply (Forall2_impl _ (fun r o => is_partitioned (map (fun rank => rank <? r) ranks) = true /\ o = rank_offset ranks r)) in Hp;
    [|intros r o Hx; cbv beta in Hx; apply rbind_Ok in Hx as ([] & Hx & Ho); apply check_that_Ok in Hx; by simplify_eq].
  repeat (apply Forall2_cons_inv_l in Hp as (? & ? & [? ->] & Hp & ->)).
  apply Forall2_nil_inv_l in Hp as ->. simplify_eq. apply rbind_Ok in H as ([u s] & Hc & H). cbv zeta in H. passed.
  unfold inode_ranks in Hr. rewrite (rd_entries _ _ Hreadable) in Hr.
  split; try done; try (apply Z.eqb_eq; assumption).
  - eapply Forall2_impl; [by apply mapR_Ok in Hr|]. cbv beta. intros ino r Hi. by apply rbind_Ok in Hi.
  - intros r Hr'. assert (r = 0 \/ r = 1 \/ r = 2 \/ r = 3 \/ r = 4 \/ r = 5) as Hcases by lia.
    by destruct Hcases as [->|[->|[->|[->|[->| ->]]]]].
  - exists u, s. split; [done|]. by apply Z.eqb_eq.
Qed.

Context (ranks : list Z) (F : checked_facts ranks).

Lemma rank_offset_bounds q : 0 <= q <= 5 -> 0 <= rank_offset ranks q <= zlen (md_inodes meta).
Proof using F.
  intros Hq. destruct (is_partitioned_spec _ (cf_partitioned _ F q Hq)) as [H _]. unfold rank_offset.
  pose proof (Forall2_length _ _ _ (cf_ranks _ F)). unfold zlen in *. rewrite length_map in H. lia.
Qed.

Lemma rank_at i ino : md_inodes meta !! i = Some ino -> exists m r, at_index (md_modes meta) (mode_index ino) = Ok m /\
  get_inode_rank m = Ok r /\ forall q, 0 <= q <= 5 -> (r <? q) = (Z.of_nat i <? rank_offset ranks q).
Proof using F.
  intros Hi. destruct (Forall2_lookup_l _ _ _ _ _ (cf_ranks _ F) Hi) as (r & Hr & m & Hm & Hrank). exists m, r.
  split_and!; [done..|]. intros q Hq. destruct (is_partitioned_spec _ (cf_partitioned _ F q Hq)) as [_ H].
  apply (H i). rewrite list_lookup_fmap, Hr. done.
Qed.

Lemma find_rank q : 0 <= q <= 5 -> find_inode_rank_offset meta q = Ok (rank_offset ranks q).
Proof using F Hreadable.
  intros Hq. unfold find_inode_rank_offset. rewrite (rd_entries _ _ Hreadable). apply lower_bound_partition.
  - rewrite Z.add_0_l. by apply rank_offset_bounds.
  - done.
  - intros i Hi. unfold inode_mode. destruct (lookup_lt_is_Some_2 (md_inodes meta) (Z.to_nat i)) as [ino Hino]; [unfold zlen in Hi; lia|].
    rewrite (at_index_Some _ _ _ Hino) by lia. cbn [rbind]. destruct (rank_at _ _ Hino) as (m & r & -> & Hr & Hq'). cbn [rbind].
    rewrite Hr. cbn [rbind]. rewrite Hq' by done. by rewrite Z2Nat.id by lia.
Qed.

Lemma rank_of_type m r : get_inode_rank m = Ok r ->
  (file_type m = S_IFDIR /\ r = 0) \/ (file_type m = S_IFLNK /\ r = 1) \/ (file_type m = S_IFREG /\ r = 2) \/
  ((file_type m = S_IFBLK \/ file_type m = S_IFCHR) /\ r = 3) \/ ((file_type m = S_IFSOCK \/ file_type m = S_IFIFO) /\ r = 4).
Proof.
  unfold get_inode_rank. intros H.
  repeat match type of H with context [if ?b then _ else _] => let E := fresh "E" in destruct b eqn:E end; simplify_eq;
    rewrite ?orb_true_iff, ?Z.eqb_eq in *; tauto.
Qed.

(** The inode numbers of each type of file. *)
Lemma inode_of_type i ino m : md_inodes meta !! i = Some ino -> at_index (md_modes meta) (mode_index ino) = Ok m ->
  (file_type m = S_IFDIR -> Z.of_nat i < rank_offset ranks 1) /\
  (file_type m = S_IFLNK -> rank_offset ranks 1 <= Z.of_nat i < rank_offset ranks 2) /\
  (file_type m = S_IFREG -> rank_offset ranks 2 <= Z.of_nat i < rank_offset ranks 3) /\
  (file_type m = S_IFBLK \/ file_type m = S_IFCHR -> rank_offset ranks 3 <= Z.of_nat i < rank_offset ranks 4).
Proof using F.
  intros Hi Hm. destruct (rank_at i ino Hi) as (m' & r & Hm' & Hr & Hq). rewrite Hm in Hm'. simplify_eq.
  pose proof (Hq 1 ltac:(lia)) as H1. pose proof (Hq 2 ltac:(lia)) as H2. pose proof (Hq 3 ltac:(lia)) as H3.
  pose proof (Hq 4 ltac:(lia)) as H4. clear Hq.
  pose proof (rank_of_type m' r Hr) as Hcases.
  destruct Hcases as [[Ht ->]|[[Ht ->]|[[Ht ->]|[[Ht ->]|[Ht ->]]]]]; cbn in H1, H2, H3, H4;
    unfold S_IFDIR, S_IFLNK, S_IFREG, S_IFBLK, S_IFCHR, S_IFSOCK, S_IFIFO in Ht |- *; split_and!; intros Hx; lia.
Qed.

Lemma check_inode_ranges_Ok v2_2 ino : check_inode_ranges meta v2_2 ino = Ok tt ->
  mode_index ino < zlen (md_modes meta) /\
  (md_uids meta = [] \/ owner_index ino < zlen (md_uids meta)) /\ (md_gids meta = [] \/ group_index ino < zlen (md_gids meta)).
Proof.
  intros H. unfold check_inode_ranges in H. apply rbind_Ok in H as ([] & H1 & H). apply rbind_Ok in H as ([] & H2 & H).
  apply rbind_Ok in H as ([] & H3 & _). apply check_that_Ok in H1, H2, H3. rewrite orb_true_iff, Z.eqb_eq, Z.ltb_lt in H2, H3.
  apply Z.ltb_lt in H1. unfold zlen in *.
  split_and!; [done| |]; [destruct (md_uids meta)|destruct (md_gids meta)]; (by left) || (right; cbn [length] in *; lia).
Qed.

Lemma inode_indices i ino : md_inodes meta !! i = Some ino ->
  0 <= mode_index ino < zlen (md_modes meta) /\
  (md_uids meta = [] \/ 0 <= owner_index ino < zlen (md_uids meta)) /\
  (md_gids meta = [] \/ 0 <= group_index ino < zlen (md_gids meta)).
Proof using F Htyped.
  intros Hi. pose proof (Forall_lookup_1 _ _ _ _ (mt_inodes _ _ Htyped) Hi) as ([H1 _] & [H2 _] & [H3 _]).
  pose proof (cf_index _ F) as H. unfold check_index_range in H. cbv zeta in H. passed.
  match goal with Hf : Forall _ (md_inodes meta) |- _ => pose proof (Forall_lookup_1 _ _ _ _ Hf Hi) as Hc end.
  apply check_inode_ranges_Ok in Hc. tauto.
Qed.

(** The entries, and the numbers of inodes and of entries. *)
Lemma entries_ok : 0 < zlen (md_inodes meta) <= zlen de /\ zlen de < 2 ^ 32 - 1 /\
  Forall (fun e => 0 <= inode_num e < zlen (md_inodes meta)) de.
Proof using F Htyped Hreadable.
  pose proof (cf_index _ F) as H. unfold check_index_range in H. cbv zeta in H. rewrite (rd_entries _ _ Hreadable) in H.
  do 5 (apply rbind_Ok in H as ([] & ?Hn & H)). apply rbind_Ok in H as ([] & _ & H). apply rbind_Ok in H as ([] & Hmax & H).
  apply rbind_Ok in H as (num & _ & H). pose proof (cf_empty _ F) as H0. unfold check_empty_tables in H0.
  apply rbind_Ok in H0 as ([] & H0 & _). apply check_that_Ok in H0, Hn3, Hmax. apply Z.ltb_lt in H0, Hmax. apply Z.leb_le in Hn3.
  unfold UINT32_MAX in *. split_and!; try lia. apply for_each_Ok in H. apply Forall_forall. intros e He.
  pose proof (proj1 (Forall_forall _ _) H e He) as Hc. pose proof (proj1 (Forall_forall _ _) (mt_entries _ _ Htyped) e He) as [_ [Ht _]].
  cbv beta in Hc. apply rbind_Ok in Hc as ([] & _ & Hc). apply check_that_Ok in Hc. apply Z.ltb_lt in Hc. done.
Qed.
End facts.

(** ** Tables of strings *)

Section strings.
Context {decoder : Type} (fsst_import : list Z -> Z * decoder) (fsst_decompress : decoder -> list Z -> Z -> list Z).
Context (frozen_string_table_size : list (list Z) -> Z).

(** The table has a string at each of [n] indices. *)
Definition strings_ok (n : Z) (t : string_table decoder) : Prop :=
  forall i, 0 <= i < n -> exists s, lookup fsst_decompress t i = Some s.

Lemma packed_table_ok v ix dec n : zlen ix = n + 1 -> steps_ok 0 (zlen (st_buffer v)) ix -> strings_ok n (PackedTable v ix dec).
Proof.
  intros Hlen Hix i Hi. unfold lookup.
  destruct (lookup_lt_is_Some_2 ix (Z.to_nat i)) as [x Hx]; [unfold zlen in Hlen; lia|].
  destruct (lookup_lt_is_Some_2 ix (S (Z.to_nat i))) as [y Hy]; [unfold zlen in Hlen; lia|].
  replace (Z.to_nat (i + 1)) with (S (Z.to_nat i)) by lia. rewrite Hx, Hy. cbn [mbind option_bind].
  destruct (Hix _ _ _ Hx Hy). replace ((x <=? y) && (y <=? zlen (st_buffer v))) with true by lia. eauto.
Qed.

Lemma check_compact_strings_ok v n max : check_compact_strings v n max = Ok tt -> Forall (in_u 32) (st_index v) ->
  zlen (st_buffer v) < 2 ^ 32 -> forall plain, safe (open_string_table fsst_import (Some v) plain) (strings_ok n).
Proof.
  intros H Hix Hbuf plain. unfold open_string_table, string_table_create.
  match goal with |- safe (match rbind ?m _ with _ => _ end) _ => destruct m as [dec|] end; [|done]. cbn [rbind safe].
  unfold check_compact_strings in H. apply rbind_Ok in H as ([] & Hn & H). apply check_that_Ok in Hn. apply Z.eqb_eq in Hn.
  apply rbind_Ok in H as ([size len] & Hs & H). apply rbind_Ok in H as ([] & H & _). apply check_that_Ok in H. apply Z.eqb_eq in H.
  destruct (st_index v) as [|front rest] eqn:Eix.
  - intros i Hi. exfalso. change (zlen (@nil Z)) with 0 in Hn. rewrite Z.ltb_irrefl, andb_false_r in Hn. lia.
  - destruct (st_packed_index v) eqn:Ep.
    + injection Hs as <- <-. apply packed_table_ok.
      * cbn [negb andb] in Hn. rewrite <- Hn. unfold zlen. cbn [length]. rewrite length_partial_sum. cbn [length]. lia.
      * rewrite H in *. by apply (partial_sum_steps 0).
    + cbn [negb andb] in Hn. apply rbind_Ok in Hs as ([] & Hf & Hs). apply rbind_Ok in Hs as ([] & Hsorted & Hs).
      apply rbind_Ok in Hs as (back & Hback & Hs). apply check_that_Ok in Hf, Hsorted. apply there_Ok in Hback.
      injection Hs as -> <-. apply packed_table_ok.
      * replace (0 <? zlen (front :: rest)) with true in Hn by (symmetry; apply Z.ltb_lt; unfold zlen; cbn [length]; lia). lia.
      * apply is_sorted_steps; [done| |by rewrite H]. eapply Forall_impl; [done|]. by intros x [].
Qed.

Lemma check_strings_ok compact plain n max : check_strings frozen_string_table_size compact plain n max = Ok tt ->
  strings_typed compact -> safe (open_string_table fsst_import compact plain) (strings_ok n).
Proof.
  unfold check_strings. destruct compact as [v|]; intros H Ht.
  - apply rbind_Ok in H as ([] & _ & H). destruct Ht. by eapply check_compact_strings_ok.
  - unfold check_plain_strings in H. apply rbind_Ok in H as ([] & H & _). apply check_that_Ok, Z.eqb_eq in H. cbn. subst n.
    intros i Hi. cbn. apply lookup_lt_is_Some_2. unfold zlen in Hi. lia.
Qed.
End strings.

Lemma max_element_ge l x : x ∈ l -> x <= max_element l.
Proof. unfold max_element. induction 1 as [x l|x y l _ IH]; cbn [foldr]; lia. Qed.

(** ** Directories *)

Section directories.
Context (meta : fs_metadata) (de : list dir_entry) (num_dir_inodes : Z) (firsts : list Z).
Context (Hlen : zlen firsts = num_dir_inodes + 1) (Hsteps : steps_ok 0 (zlen de) firsts).
Context (Hde : Forall (fun e => 0 <= inode_num e) de).

(** The tables with these first entries, whose other fields are indices. *)
Definition dirs_like (dirs : list directory) : Prop :=
  map first_entry dirs = firsts /\ Forall (fun d => 0 <= parent_entry d /\ 0 <= self_entry d) dirs.

Lemma at_directory dirs i : dirs_like dirs -> 0 <= i < num_dir_inodes + 1 ->
  safe (at_index dirs i) (fun d => firsts !! Z.to_nat i = Some (first_entry d) /\ 0 <= parent_entry d /\ 0 <= self_entry d).
Proof.
  intros [Hd Hf] Hi. eapply safe_mono; [apply safe_at_index|].
  - rewrite <- Hd in Hlen. unfold zlen in *. rewrite length_map in Hlen. lia.
  - cbv beta. intros d Hdi. split; [by rewrite <- Hd, list_lookup_fmap, Hdi|]. apply (Forall_lookup_1 _ _ _ _ Hf Hdi).
Qed.

Lemma update_directory_safe f i dirs : dirs_like dirs -> 0 <= i < num_dir_inodes ->
  (forall d, first_entry (f d) = first_entry d /\
    (0 <= parent_entry d /\ 0 <= self_entry d -> 0 <= parent_entry (f d) /\ 0 <= self_entry (f d))) ->
  safe (update_directory f i dirs) dirs_like.
Proof.
  intros Hd Hi Hf. unfold update_directory. eapply bind_safe; [apply (at_directory dirs i Hd); lia|]. cbv beta. intros d [Hdi Hpos]. cbn.
  destruct Hd as [Hd Hall]. destruct (Hf d) as [H1 H2]. split; [|apply Forall_insert; auto].
  change (map first_entry) with (fmap first_entry (M := list)) in *. rewrite list_fmap_insert, H1, Hd. by apply list_insert_id.
Qed.

(** An entry of a directory. *)
Definition dir_entry_at (e : Z) : Prop := exists x, 0 <= e /\ de !! Z.to_nat e = Some x /\ inode_num x < num_dir_inodes.

Lemma recover_children_safe parent es dirs queue : 0 <= parent -> Forall (fun e => 0 <= e < zlen de) es -> dirs_like dirs ->
  Forall dir_entry_at queue ->
  safe (recover_children de num_dir_inodes parent es dirs queue)
    (fun '(dirs', queue') => dirs_like dirs' /\ Forall dir_entry_at queue').
Proof.
  intros Hp Hes. revert dirs queue. induction Hes as [|e es He Hes IH]; intros dirs queue Hd Hq; [done|]. cbn [recover_children].
  eapply bind_safe; [by apply safe_at_index|]. cbv beta. intros x Hx. pose proof (Forall_lookup_1 _ _ _ _ Hde Hx) as Hnum; cbv beta in Hnum.
  destruct (Z.ltb_spec (inode_num x) num_dir_inodes); [|by apply IH].
  eapply bind_safe; [apply (update_directory_safe _ _ dirs Hd); [lia|intros d; cbn; lia]|]. cbv beta. intros dirs' Hd'. apply IH; [done|].
  apply Forall_app. split; [done|]. apply Forall_singleton. exists x. split_and!; [lia|done..].
Qed.

Lemma recover_parents_safe fuel dirs queue : dirs_like dirs -> Forall dir_entry_at queue ->
  safe (recover_parents de num_dir_inodes fuel dirs queue) dirs_like.
Proof.
  revert dirs queue. induction fuel as [|fuel IH]; intros dirs queue Hd Hq; cbn [recover_parents]; destruct queue as [|e queue]; try done.
  apply Forall_cons in Hq as [(x & He & Hx & Hlt) Hq]. pose proof (Forall_lookup_1 _ _ _ _ Hde Hx) as Hnum; cbv beta in Hnum.
  eapply bind_safe; [apply safe_at_index; by eapply zlookup_lt|]. cbv beta. intros x' Hx'. assert (x' = x) as -> by congruence.
  eapply bind_safe; [apply (at_directory dirs (inode_num x) Hd); lia|]. cbv beta. intros d [Hdi _].
  eapply bind_safe; [apply (at_directory dirs (inode_num x + 1) Hd); lia|]. cbv beta. intros n [Hn _]. cbv zeta.
  replace (Z.to_nat (inode_num x + 1)) with (S (Z.to_nat (inode_num x))) in Hn by lia. destruct (Hsteps _ _ _ Hdi Hn).
  eapply bind_safe; [apply recover_children_safe; [done| |done|done]|].
  - apply Forall_forall. intros i Hi. apply elem_of_seqZ in Hi. lia.
  - intros [dirs' queue'] [Hd' Hq']. by apply IH.
Qed.

Lemma recover_selves_safe i rest dirs count : 0 <= i -> Forall (fun e => 0 <= inode_num e) rest -> dirs_like dirs ->
  safe (recover_selves num_dir_inodes i rest dirs count) (fun '(dirs', _) => dirs_like dirs').
Proof.
  intros Hi Hr. revert i dirs count Hi. induction Hr as [|e rest He Hr IH]; intros i dirs count Hi Hd; [done|]. cbn [recover_selves].
  destruct (Z.ltb_spec (inode_num e) num_dir_inodes); [|apply IH; [lia|done]].
  eapply bind_safe; [apply (update_directory_safe _ _ dirs Hd); [lia|intros d; cbn; lia]|]. cbv beta. intros dirs' Hd'. apply IH; [lia|done].
Qed.
End directories.

(** A root directory that holds its own entry makes the traversal endless. *)
Lemma recover_parents_endless e fuel dirs : inode_num e = 0 -> map first_entry dirs = [0; 1] ->
  recover_parents [e] 1 fuel dirs [0] = Err OutOfFuel.
Proof.
  intros He. revert dirs. induction fuel as [|fuel IH]; intros dirs Hd; [done|].
  destruct dirs as [|d0 [|d1 [|? ?]]]; try done. injection Hd as H0 H1.
  assert (at_index [e] 0 = Ok e /\ at_index [d0; d1] 0 = Ok d0 /\ at_index [d0; d1] (0 + 1) = Ok d1) as (E & E0 & E1) by done.
  cbn [recover_parents]. rewrite E. cbn [rbind]. rewrite He, E0. cbn [rbind]. rewrite E1. cbn [rbind]. cbv zeta.
  rewrite H0, H1. change (seqZ 0 (1 - 0)) with [0]. cbn [recover_children]. rewrite E. cbn [rbind]. rewrite He.
  unfold update_directory. rewrite E0. cbn [rbind]. apply IH.
  change (Z.to_nat 0) with O. cbn. congruence.
Qed.

(** ** Opening *)

Section opening.
Context {decoder : Type} (fsst_import : list Z -> Z * decoder) (fsst_decompress : decoder -> list Z -> Z -> list Z).
Context (frozen_string_table_size : list (list Z) -> Z) (meta : fs_metadata) (de : list dir_entry).
Context (Htyped : meta_typed meta de) (Hreadable : readable meta de).
Context (ranks : list Z) (F : checked_facts frozen_string_table_size meta ranks).

#[local] Abbreviation dirs := (md_directories meta).
#[local] Abbreviation packed := (opt_flag packed_directories meta).

Definition firsts : list Z := if packed then partial_sum (map first_entry dirs) else map first_entry dirs.

Lemma entries_nonneg : Forall (fun e => 0 <= inode_num e) de.
Proof using Htyped Hreadable F.
  eapply Forall_impl; [apply (entries_ok _ _ _ Htyped Hreadable ranks F)|]. cbv beta. lia.
Qed.

Lemma dirs_typed : Forall (in_u 32) (map first_entry dirs).
Proof using Htyped. apply Forall_map. eapply Forall_impl; [apply (mt_directories _ _ Htyped)|]. by intros d (_ & H & _). Qed.

Lemma dirs_nonempty : 0 < zlen dirs <= zlen (md_inodes meta) + 1.
Proof using F.
  split.
  - pose proof (cf_empty _ _ _ F) as H. unfold check_empty_tables in H. apply rbind_Ok in H as ([] & _ & H).
    apply rbind_Ok in H as ([] & H & _). by apply check_that_Ok, Z.ltb_lt in H.
  - pose proof (cf_packed _ _ _ F) as H. unfold check_packed_tables in H. cbv zeta in H. apply rbind_Ok in H as ([] & H & _).
    by apply check_that_Ok, Z.leb_le in H.
Qed.

(** The part of [check_packed_tables] for the directories. *)
Lemma check_directories_passed :
  if packed then accumulate (map first_entry dirs) 0 = zlen de
  else is_sorted (map first_entry dirs) = true /\
       forall i d, dirs !! i = Some d -> first_entry d <= zlen de /\ (i = O -> first_entry d <> 0).
Proof using F Hreadable Htyped.
  pose proof (cf_packed _ _ _ F) as H. unfold check_packed_tables in H. cbv zeta in H. do 2 apply rbind_Ok in H as ([] & _ & H).
  apply rbind_Ok in H as ([] & H & _). rewrite (rd_entries _ _ Hreadable) in H. destruct packed.
  - do 2 apply rbind_Ok in H as ([] & _ & H). apply rbind_Ok in H as (x & Hx & H). apply there_Ok in Hx. simplify_eq.
    by apply check_that_Ok, Z.eqb_eq in H.
  - apply rbind_Ok in H as ([] & Hs & H). apply check_that_Ok in Hs. split; [done|]. intros i d Hi.
    pose proof (for_each_index_Ok _ _ _ H i d Hi) as Hd. unfold check_directory in Hd. cbv zeta in Hd.
    apply rbind_Ok in Hd as ([] & H1 & Hd). do 2 apply rbind_Ok in Hd as ([] & _ & Hd). apply rbind_Ok in Hd as ([] & H2 & Hd).
    apply check_that_Ok in H1, H2. apply Z.leb_le in H1. split; [done|]. intros ->. apply rbind_Ok in Hd as ([] & H3 & _).
    apply check_that_Ok, Z.eqb_eq in H3. apply negb_true_iff, Z.eqb_neq in H2. congruence.
Qed.

Lemma firsts_ok : zlen firsts = zlen dirs /\ steps_ok 0 (zlen de) firsts.
Proof using F Htyped Hreadable.
  pose proof check_directories_passed as H. pose proof dirs_typed as Ht. pose proof dirs_nonempty as Hne. unfold firsts. destruct packed.
  - split; [unfold zlen; by rewrite length_partial_sum, length_map|]. rewrite <- H. eapply steps_tail.
    apply (partial_sum_steps 0); [done|lia|]. rewrite H. pose proof (entries_ok _ _ _ Htyped Hreadable ranks F). lia.
  - destruct H as [Hs Hf]. split; [unfold zlen; by rewrite length_map|].
    destruct (last (map first_entry dirs)) as [hi|] eqn:Hl; [|apply last_None in Hl; apply map_eq_nil in Hl; rewrite Hl in Hne; unfold zlen in Hne; cbn [length] in Hne; lia].
    assert (steps_ok 0 hi (map first_entry dirs)) as Hst.
    { apply is_sorted_steps; [done| |done]. eapply Forall_impl; [done|]. by intros x []. }
    intros i x y Hx Hy. destruct (Hst i x y Hx Hy). apply list_lookup_fmap_Some_1 in Hy as (d & -> & Hd). destruct (Hf _ _ Hd). lia.
Qed.

(** Only in an image with nothing but the root does the table of names have
    no name, and there no directory has entries. *)
Definition root_only_empty : Prop := zlen de = 1 -> forall i x y, firsts !! i = Some x -> firsts !! S i = Some y -> y <= x.

Lemma unpack_directories_safe fuel :
  safe (unpack_directories fuel meta) (fun o => dirs_like firsts (default dirs o) /\ root_only_empty).
Proof using F Htyped Hreadable.
  pose proof firsts_ok as [Hlen Hst]. pose proof entries_nonneg as Hde. pose proof dirs_nonempty as Hne.
  pose proof (entries_ok _ _ _ Htyped Hreadable ranks F) as (Hnum & _ & _). pose proof check_directories_passed as Hc.
  assert (Forall (fun d => 0 <= parent_entry d /\ 0 <= self_entry d) dirs) as Hpos0.
  { eapply Forall_impl; [apply (mt_directories _ _ Htyped)|]. intros d ([] & _ & []). lia. }
  unfold unpack_directories. rewrite (rd_entries _ _ Hreadable). cbn [orb there rbind].
  assert (packed = false -> root_only_empty) as Hroot.
  { intros Hp Hone i x y Hx Hy. unfold firsts in *. rewrite Hp in *. destruct (Hst i x y Hx Hy) as [H1 H2].
    apply lookup_lt_Some in Hy as Hlt. rewrite length_map in Hlt. unfold zlen in *. assert (i = O) as -> by lia.
    apply list_lookup_fmap_Some_1 in Hx as (d & -> & Hd). destruct Hc as [_ Hc]. destruct (Hc _ _ Hd) as [_ Hc']. specialize (Hc' eq_refl). lia. }
  destruct (negb packed && dir_has_self_entry meta) eqn:E.
  { apply andb_true_iff in E as [E _]. apply negb_true_iff in E. cbn. split; [|by apply Hroot].
    split; [by unfold firsts; rewrite E|done]. }
  assert (exists opts, md_options meta = Some opts /\ packed_directories opts = packed) as (opts & Ho & Hp).
  { unfold opt_flag in *. destruct (md_options meta) as [o|] eqn:Ho; [by exists o|]. by apply (rd_options _ _ Hreadable) in E. }
  rewrite Ho. cbn [there rbind]. rewrite Hp. cbv zeta. clear E.
  assert (zlen firsts = (zlen dirs - 1) + 1) as Hlen' by lia.
  eapply (bind_safe _ _ (fun ds => dirs_like firsts ds /\ root_only_empty)).
  - destruct packed eqn:Epk; [|split; [split; [by unfold firsts; rewrite Epk|done]|by apply Hroot]].
    eapply bind_safe; [apply safe_at_index; lia|]. intros _ _.
    set (ds := map _ (partial_sum _)). assert (map first_entry ds = firsts) as Hds.
    { unfold firsts, ds. rewrite Epk, map_map. cbn [first_entry]. apply map_id. }
    assert (dirs_like firsts ds) as Hlike.
    { split; [done|]. unfold ds. apply Forall_map. apply Forall_true. intros f. cbn. lia. }
    destruct (rd_root _ _ Hreadable Epk) as (e & He & Hlt). pose proof (Forall_lookup_1 _ _ _ _ Hde He) as Hpos. cbv beta in Hpos.
    destruct (decide (zlen de = 1 /\ firsts = [0; 1])) as [[Hone H01]|Hn].
    + destruct de as [|e' [|? ?]]; [done| |unfold zlen in Hone; cbn [length] in Hone; lia]. injection He as ->.
      rewrite H01 in Hds, Hlen. replace (zlen dirs - 1) with 1 by (rewrite <- Hlen; done).
      rewrite (recover_parents_endless e fuel ds); [done| |done]. rewrite <- Hlen in Hlt. change (zlen [0; 1]) with 2 in Hlt. lia.
    + eapply safe_mono; [apply (recover_parents_safe de _ firsts Hlen' Hst Hde); [done|]|].
      * apply Forall_singleton. by exists e.
      * cbv beta. intros ds' Hds'. split; [done|]. intros Hone i x y Hx Hy. destruct (Hst i x y Hx Hy) as [H1 H2].
        destruct (decide (y <= x)); [done|]. exfalso. apply Hn. split; [done|].
        apply lookup_lt_Some in Hy as Hltn. unfold zlen in Hlen, Hnum, Hone, Hne, H2. assert (i = O) as -> by lia.
        destruct firsts as [|a [|b [|c l]]]; cbn [length] in *; try lia. cbn in Hx, Hy. simplify_eq. f_equal; [lia|f_equal; lia].
  - intros ds [Hds Hre]. eapply bind_safe; [by apply (recover_selves_safe _ firsts Hlen' 0)|]. cbv beta.
    intros [ds' count] Hds'. eapply bind_safe; [apply safe_dwarfs_check|]. intros [] _. cbn. by split.
Qed.

(** *** Chunks *)

Lemma chunk_views : Forall (fun c => exists v, chunk_view (md_files meta) c = Some v) (md_chunks (md_files meta)).
Proof using F Htyped.
  pose proof (cf_chunks _ _ _ F) as H. unfold check_chunks in H. cbv zeta in H. apply rbind_Ok in H as ([] & H1 & H).
  do 2 apply rbind_Ok in H as ([] & _ & H). apply check_that_Ok in H1. apply for_each_Ok in H.
  eapply Forall_impl; [apply Forall_and; split; [exact H|apply (mt_chunks _ _ Htyped)]|]. cbv beta. intros c [Hc (_ & _ & [Hs _])].
  unfold check_chunk in Hc. cbv zeta in Hc. unfold chunk_view.
  destruct (bool_decide_reflect (md_hole_block_index (md_files meta) = Some (mc_block c))) as [Hb|]; [|eauto].
  rewrite Hb in *. cbn [orb negb] in H1. rewrite H1 in Hc. cbn [there rbind] in Hc. rewrite Z.eqb_refl in Hc.
  destruct (mc_offset c =? kChunkOffsetIsLargeHole); [|eauto].
  destruct (md_large_hole_size (md_files meta)) as [lhs|]; [|done]. apply check_that_Ok, Z.ltb_lt in Hc.
  change (default [] (Some lhs)) with lhs. destruct (lookup_lt_is_Some_2 lhs (Z.to_nat (mc_size c))) as [n Hn].
  - unfold zlen in Hc. lia.
  - rewrite Hn. cbn. eauto.
Qed.

#[local] Abbreviation table := (md_chunk_table (md_files meta)).

(** The chunk table, unpacked. *)
Definition offsets_of_chunks : list Z := if opt_flag packed_chunk_table meta then partial_sum table else table.

Lemma chunk_total : opt_flag packed_chunk_table meta = true -> accumulate table 0 = zlen (md_chunks (md_files meta)).
Proof using F.
  intros Hp. pose proof (cf_packed _ _ _ F) as H. unfold check_packed_tables in H. cbv zeta in H.
  do 3 apply rbind_Ok in H as ([] & _ & H). rewrite Hp in H. by apply check_that_Ok, Z.eqb_eq in H.
Qed.

Lemma offsets_of_chunks_ok : zlen offsets_of_chunks = zlen table /\ 1 <= zlen table <= zlen (md_inodes meta) /\
  steps_ok 0 (zlen (md_chunks (md_files meta))) offsets_of_chunks.
Proof using F Htyped.
  pose proof (cf_empty _ _ _ F) as H0. unfold check_empty_tables in H0. do 2 apply rbind_Ok in H0 as ([] & _ & H0).
  apply rbind_Ok in H0 as ([] & H0 & _). apply check_that_Ok, Z.ltb_lt in H0.
  pose proof (cf_packed _ _ _ F) as H. unfold check_packed_tables in H. cbv zeta in H. apply rbind_Ok in H as ([] & _ & H).
  apply rbind_Ok in H as ([] & H1 & H). apply check_that_Ok, Z.leb_le in H1. apply rbind_Ok in H as ([] & _ & H).
  pose proof (mt_num_chunks _ _ Htyped). pose proof (mt_chunk_table _ _ Htyped) as Ht. unfold offsets_of_chunks. destruct (opt_flag packed_chunk_table meta).
  - apply check_that_Ok, Z.eqb_eq in H. split_and!; [unfold zlen; by rewrite length_partial_sum|lia|done|]. rewrite <- H in *.
    eapply steps_tail. by apply (partial_sum_steps 0).
  - apply rbind_Ok in H as ([] & Hs & H). apply rbind_Ok in H as (back & Hb & H). apply check_that_Ok in Hs, H. apply there_Ok in Hb.
    apply Z.eqb_eq in H. subst back. split_and!; [done|lia|done|]. apply is_sorted_steps; [done| |done].
    eapply Forall_impl; [done|]. by intros x [].
Qed.

(** *** Packed vectors *)

#[local] Abbreviation inv := (pv_inv word_lg).

Lemma word_lg_pos : 0 <= word_lg.
Proof. done. Qed.

Lemma bit_width_range n : -1 <= n < 2 ^ 32 -> 0 <= bit_width n <= 32.
Proof.
  intros H. unfold bit_width. destruct (Z.eqb_spec n 0); [lia|]. pose proof (Z.log2_nonneg n).
  destruct (decide (n = -1)) as [->|]; [done|]. assert (Z.log2 n < 32) by (apply Z.log2_lt_pow2; lia). lia.
Qed.

Lemma bit_width_bound n x : 0 <= x <= n -> in_u (bit_width n) x.
Proof.
  intros H. unfold bit_width, in_u. destruct (Z.eqb_spec n 0); [lia|].
  pose proof (Z.log2_spec n ltac:(lia)). rewrite Z.add_1_r. lia.
Qed.

Lemma pv_append_safe xs v l : inv v l -> safe (pv_append xs v) (fun v' => inv v' (l ++ map (wrapu (pv_bits v)) xs)).
Proof.
  revert v l. induction xs as [|x xs IH]; intros v l Hv; cbn [pv_append map]; [cbn; by rewrite app_nil_r|].
  destruct (pv_push_back_ok word_lg word_lg_pos v l x Hv) as (v' & Hp & Hv' & Hb). rewrite Hp. cbn [there rbind].
  eapply safe_mono; [by apply IH|]. cbv beta. intros w Hw. by rewrite Hb, <- app_assoc in Hw.
Qed.

Lemma pv_fill_safe xs v l i : inv v l -> (i + length xs <= length l)%nat ->
  safe (pv_fill (Z.of_nat i) xs v) (fun v' => exists l', inv v' l' /\ length l' = length l).
Proof.
  revert v l i. induction xs as [|x xs IH]; intros v l i Hv Hi; cbn [pv_fill]; [cbn; eauto|]. cbn [length] in Hi.
  destruct (pv_set_ok word_lg word_lg_pos v l i x Hv) as (v' & Hp & Hv' & Hb); [lia|]. rewrite Hp. cbn [there rbind].
  replace (Z.of_nat i + 1) with (Z.of_nat (S i)) by lia. eapply safe_mono; [apply (IH v' _ (S i) Hv')|].
  - rewrite length_insert. lia.
  - cbv beta. intros w (l' & Hw & Hl). exists l'. by rewrite length_insert in Hl.
Qed.

Lemma unpack_chunk_table_safe : safe (unpack_chunk_table meta) (fun v => if opt_flag packed_chunk_table meta then inv v offsets_of_chunks else pv_size v = 0).
Proof using F Htyped.
  pose proof offsets_of_chunks_ok as (Hlen & HT & Hst). pose proof (mt_num_chunks _ _ Htyped). pose proof (mt_chunk_table _ _ Htyped) as Ht.
  pose proof (zlen_nonneg (md_chunks (md_files meta))). unfold unpack_chunk_table, offsets_of_chunks in *.
  destruct (opt_flag packed_chunk_table meta) eqn:Ep; [|done]. set (n := zlen (md_chunks (md_files meta))) in *.
  pose proof (bit_width_range n ltac:(lia)) as Hbw.
  pose proof (pv_reset_inv word_lg word_lg_pos (bit_width n) 0 pv_default Hbw ltac:(lia)) as Hv. 
  eapply safe_mono; [by apply pv_append_safe|]. cbv beta. intros v' Hv'. cbn [replicate Z.to_nat app pv_bits pv_reset] in Hv'.
  enough (map (wrapu (bit_width n)) (partial_sum table) = partial_sum table) as E by (by rewrite E in Hv').
  rewrite <- (map_id (partial_sum table)) at 2. apply map_ext_Forall, Forall_lookup. intros i x Hx.
  apply wrapu_small, bit_width_bound. unfold n. rewrite <- chunk_total by done. eapply partial_sum_range; [done| |done].
  by rewrite chunk_total.
Qed.

Lemma pv_filled_safe bits n xs : 0 <= bits <= 32 -> 0 <= n -> zlen xs <= n ->
  safe (pv_fill 0 xs (pv_reset word_lg bits n pv_default)) (fun v => exists l, inv v l /\ zlen l = n).
Proof.
  intros Hb Hn Hx. pose proof (pv_reset_inv word_lg word_lg_pos bits n pv_default Hb Hn) as Hv. unfold zlen in *.
  eapply safe_mono; [apply (pv_fill_safe xs _ _ 0 Hv); rewrite length_replicate; lia|]. cbv beta. intros v (l & Hl & Hlen). exists l.
  rewrite length_replicate in Hlen. split; [done|]. lia.
Qed.

(** *** Shared files and links *)

Definition num_shared : Z :=
  match md_shared_files_table meta with
  | None => 0
  | Some sf => if opt_flag packed_shared_files_table meta then accumulate sf (2 * zlen sf) else zlen sf
  end.

Lemma shared_targets_len t sf : Forall (in_u 32) sf -> zlen (shared_targets t sf) <= accumulate sf (2 * zlen sf).
Proof.
  intros H. revert t. induction H as [|c sf [Hc _] H IH]; intros t; [done|]. cbn [shared_targets]. rewrite zlen_app. specialize (IH (t + 1)).
  rewrite (accumulate_init (c :: sf)), accumulate_cons. rewrite (accumulate_init sf (2 * zlen sf)) in IH.
  assert (0 <= wrapu 32 (c + 2) <= c + 2) by (split; [apply wrapu_range; lia|apply Z.mod_le; lia]).
  unfold zlen in *. rewrite length_replicate. cbn [length]. lia.
Qed.

Definition shared_ok (v : packed_int_vector) : Prop :=
  (pv_size v = 0 /\ num_shared = match md_shared_files_table meta with Some sf => zlen sf | None => 0 end) \/
  (exists l, inv v l /\ zlen l = num_shared /\ 0 < num_shared).

Lemma unpack_shared_files_safe : safe (unpack_shared_files meta) shared_ok.
Proof using Htyped.
  unfold unpack_shared_files, shared_ok, num_shared. pose proof (mt_shared _ _ Htyped) as Hsf.
  destruct (md_shared_files_table meta) as [[|x sf]|]; [left; split; [done|]|..|left; done].
  { by destruct (opt_flag packed_shared_files_table meta). }
  destruct (Hsf _ eq_refl) as [Ht Hn]. destruct (opt_flag packed_shared_files_table meta); [|by left]. cbv zeta.
  pose proof (accumulate_nonneg _ Ht). pose proof (accumulate_init (x :: sf) (2 * zlen (x :: sf))) as Ha.
  assert (0 < zlen (x :: sf)) by (unfold zlen; cbn [length]; lia).
  eapply safe_mono; [apply pv_filled_safe|].
  - apply bit_width_range. lia.
  - lia.
  - by apply shared_targets_len.
  - cbv beta. intros v (l & Hl & Hlen). right. exists l. split_and!; [done..|lia].
Qed.

Lemma num_shared_bound : - 2 ^ 31 < rank_offset ranks 3 - rank_offset ranks 2 - num_shared < 2 ^ 31.
Proof using F Htyped.
  pose proof (cf_counts _ _ _ F) as (u & s & Hc & Hw). pose proof (mt_num_inodes _ _ Htyped) as Hi.
  pose proof (rank_offset_bounds _ _ ranks F 3 ltac:(lia)). pose proof (rank_offset_bounds _ _ ranks F 2 ltac:(lia)).
  assert (0 <= rank_offset ranks 3 - rank_offset ranks 2) as Hpos by (rewrite <- Hw; apply wrapu_range; lia).
  pose proof offsets_of_chunks_ok as (_ & HT & _). pose proof (mt_shared _ _ Htyped) as Hsf. unfold file_counts, num_shared in *.
  destruct (md_shared_files_table meta) as [sf|]; [|lia]. destruct (Hsf _ eq_refl) as [Ht Hn]. pose proof (zlen_nonneg sf).
  destruct (opt_flag packed_shared_files_table meta); [|lia]. injection Hc as <- <-.
  pose proof (accumulate_init sf (2 * zlen sf)) as Ha. pose proof (accumulate_nonneg _ Ht) as Hnn.
  assert (accumulate sf 0 <= zlen sf * 2 ^ 32) as Hup.
  { clear -Ht. induction Ht as [|x sf Hx Ht IH]; [done|]. rewrite accumulate_cons. destruct Hx. unfold zlen in *. cbn [length]. lia. }
  set (T := zlen table) in *. set (S := accumulate sf (2 * zlen sf)) in *.
  assert (wrapu 64 (wrapu 64 (T - 1 - zlen sf) + S) = T - 1 - zlen sf + S) as Hexact; [|clear -Hexact Hw HT Hi Hn H1; lia].
  unfold wrapu. rewrite Zplus_mod_idemp_l. apply Z.mod_small. clear -HT Hi Hn H1 Ha Hup Hnn. lia.
Qed.

Lemma count_links_len off inodes nlinks total : Forall (in_u 32) nlinks ->
  length (count_links off inodes nlinks total).1 = length nlinks /\ Forall (in_u 32) (count_links off inodes nlinks total).1.
Proof.
  revert nlinks total. induction inodes as [|ino inodes IH]; intros nlinks total Hl; [done|]. cbn [count_links]. cbv zeta.
  destruct (0 <=? _); [|by apply IH]. destruct (nlinks !! _) as [n|]; [|by apply IH].
  match goal with |- context [count_links _ _ (<[?i := ?x]> _) ?t] => destruct (IH (<[i := x]> nlinks) t) as [H1 H2] end.
  - apply Forall_insert; [done|]. apply wrapu_range. lia.
  - by rewrite length_insert in H1.
Qed.

Definition nlinks_ok (o : option packed_int_vector) (n : Z) : Prop :=
  forall v, o = Some v -> pv_size v = 0 \/ exists l, inv v l /\ zlen l = n.

Lemma build_nlinks_safe file dev : safe (build_nlinks meta file dev) (fun o => nlinks_ok o (dev - file)).
Proof.
  unfold build_nlinks. destruct (opt_flag inodes_have_nlink meta); [by intros v|].
  destruct (Z.ltb_spec file dev); [|by intros v].
  match goal with |- context [count_links ?f ?i ?l 0] => pose proof (count_links_len f i l 0) as Hl; destruct (count_links f i l 0) as [nlinks total] end.
  destruct Hl as [Hl Ht]; [apply Forall_replicate; split; [done|lia]|]. cbn [fst] in Hl, Ht. rewrite length_replicate in Hl.
  destruct (0 <? total); [|intros v [= <-]; by left].
  eapply bind_safe; [apply pv_filled_safe|].
  - apply bit_width_range. enough (0 <= max_element nlinks <= 2 ^ 32 - 1) by lia.
    unfold max_element. clear -Ht. induction Ht as [|x l Hx Ht IH]; cbn [foldr]; [lia|]. destruct Hx. lia.
  - apply zlen_nonneg.
  - unfold zlen. rewrite length_map. lia.
  - cbv beta. intros v (l & Hv & Hlen). intros w [= <-]. right. exists l. split; [done|]. unfold zlen in *. lia.
Qed.
End opening.

(** ** The checks themselves are safe *)

Section checking.
Context (frozen_string_table_size : list (list Z) -> Z) (meta : fs_metadata) (de : list dir_entry).
Context (Htyped : meta_typed meta de) (Hreadable : readable meta de).

Ltac check_step := eapply bind_safe; [apply safe_check_that|cbv beta; intros [] ?].

Lemma for_each_safe {A} (f : A -> checked unit) l : Forall (fun x => safe (f x) (fun _ => True)) l -> safe (for_each f l) (fun _ => True).
Proof. induction 1 as [|x l Hx Hl IH]; [done|]. cbn [for_each]. by eapply bind_safe. Qed.

Lemma for_each_index_safe {A} (f : Z -> A -> checked unit) l i : (forall i x, safe (f i x) (fun _ => True)) ->
  safe (for_each_index i f l) (fun _ => True).
Proof. intros Hf. revert i. induction l as [|x l IH]; intros i; [done|]. cbn [for_each_index]. by eapply bind_safe. Qed.

Lemma check_that_safe b what : safe (check_that b what) (fun _ => True).
Proof. by destruct b. Qed.

(** Sequences of checks are. *)
Ltac checks := repeat match goal with
  | |- safe (check_that _ _) _ => apply check_that_safe
  | |- safe (rbind (check_that _ _) _) _ => check_step
  | |- safe (Ok _) _ => done
  | |- safe (Err _) _ => done
  | |- safe (for_each _ _) _ => apply for_each_safe, Forall_true; intros ?
  | |- safe (for_each_index _ _ _) _ => apply for_each_index_safe; intros ? ?
  | |- safe (if ?b then _ else _) _ => destruct b
  end.

Lemma check_empty_tables_safe : safe (check_empty_tables meta) (fun _ => 0 < zlen (md_chunk_table (md_files meta))).
Proof using Hreadable.
  unfold check_empty_tables. rewrite (rd_entries _ _ Hreadable). do 4 check_step. eapply safe_mono; [apply check_that_safe|]. intros _ _. lia.
Qed.

Lemma check_index_range_safe : safe (check_index_range meta) (fun _ => True).
Proof using Hreadable.
  unfold check_index_range. rewrite (rd_entries _ _ Hreadable). cbv zeta. checks.
  eapply bind_safe; [apply for_each_safe, Forall_true; intros ino; unfold check_inode_ranges; checks|]. intros _ _. checks.
  eapply (bind_safe _ _ (fun _ => True)); [unfold number_of_names; destruct (md_compact_names meta); checks|]. intros n _. checks.
Qed.

Lemma check_packed_tables_safe : 0 < zlen (md_chunk_table (md_files meta)) -> safe (check_packed_tables meta) (fun _ => True).
Proof using Hreadable.
  intros Hne. unfold check_packed_tables. rewrite (rd_entries _ _ Hreadable). cbv zeta. do 2 check_step.
  eapply (bind_safe _ _ (fun _ => True)).
  - destruct (opt_flag packed_directories meta); [|checks; unfold check_directory; cbv zeta; checks].
    do 2 check_step. cbn [there rbind]. checks.
  - intros _ _. destruct (opt_flag packed_chunk_table meta); checks. destruct (last (md_chunk_table (md_files meta))) eqn:Hl; [cbn [there rbind]; checks|].
    apply last_None in Hl. rewrite Hl in Hne. unfold zlen in Hne. cbn in Hne. lia.
Qed.

Lemma check_compact_strings_safe v n max : safe (check_compact_strings v n max) (fun _ => True).
Proof.
  unfold check_compact_strings. cbv zeta. check_step. eapply (bind_safe _ _ (fun _ => True)); [|intros [? ?] _; checks].
  destruct (st_index v) as [|front rest] eqn:E; [done|]. destruct (st_packed_index v); [done|]. do 2 check_step.
  destruct (last (front :: rest)) eqn:Hl; [done|]. by apply last_None in Hl.
Qed.

Lemma check_strings_safe compact plain n max : safe (check_strings frozen_string_table_size compact plain n max) (fun _ => True).
Proof.
  unfold check_strings. destruct compact as [v|]; [check_step; apply check_compact_strings_safe|].
  unfold check_plain_strings. check_step. eapply bind_safe; [checks|]. intros _ _. checks.
Qed.

Lemma check_chunks_safe : safe (check_chunks meta) (fun _ => True).
Proof.
  unfold check_chunks. cbv zeta. do 3 check_step. apply for_each_safe, Forall_true. intros c. unfold check_chunk. cbv zeta.
  eapply (bind_safe _ _ (fun _ => True)).
  - destruct (has_sparse meta); [|done]. destruct (md_hole_block_index (md_files meta)); [done|]. done.
  - intros [|] _; [|checks]. destruct (_ =? _); [|done]. destruct (md_large_hole_size (md_files meta)); checks.
Qed.

Lemma get_inode_rank_safe m : safe (get_inode_rank m) (fun _ => True).
Proof. unfold get_inode_rank. cbv zeta. checks. Qed.

Lemma check_partitioning_safe : check_index_range meta = Ok tt -> safe (check_partitioning meta) (fun _ => True).
Proof using Htyped Hreadable.
  intros H. unfold check_partitioning. eapply (bind_safe _ _ (fun _ => True)).
  - unfold inode_ranks. rewrite (rd_entries _ _ Hreadable). eapply safe_mono; [apply (safe_mapR _ _ (fun _ => True))|done].
    unfold check_index_range in H. cbv zeta in H. do 5 apply rbind_Ok in H as ([] & _ & H). apply rbind_Ok in H as ([] & H & _).
    apply for_each_Ok in H. apply Forall_lookup. intros i ino Hi. pose proof (Forall_lookup_1 _ _ _ _ H Hi) as Hc. cbv beta in Hc.
    apply check_inode_ranges_Ok in Hc as [Hm _]. pose proof (Forall_lookup_1 _ _ _ _ (mt_inodes _ _ Htyped) Hi) as [[Hpos _] _].
    eapply bind_safe; [apply safe_at_index; lia|]. intros m _. apply get_inode_rank_safe.
  - intros rs _. eapply safe_mono; [apply (safe_mapR _ _ (fun _ => True))|done]. apply Forall_true. intros r. cbv zeta. check_step. done.
Qed.

Lemma check_metadata_safe : safe (check_metadata frozen_string_table_size meta) (fun _ => True).
Proof using Htyped Hreadable.
  unfold check_metadata. eapply bind_safe; [apply check_empty_tables_safe|]. cbv beta. intros _ Hne.
  pose proof check_index_range_safe as Hix. pose proof check_partitioning_safe as Hpart.
  destruct (check_index_range meta) as [[]|]; [|done]. cbn [rbind]. specialize (Hpart eq_refl).
  eapply bind_safe; [by apply check_packed_tables_safe|]. intros _ _.
  eapply (bind_safe _ _ (fun _ => True)).
  { unfold check_string_tables. cbv zeta. eapply bind_safe; [apply check_strings_safe|]. intros _ _. apply check_strings_safe. }
  intros _ _. eapply bind_safe; [apply check_chunks_safe|]. intros _ _. eapply bind_safe; [exact Hpart|]. intros offsets _. cbv zeta.
  eapply (bind_safe _ _ (fun _ => True)).
  - unfold file_counts. cbv zeta. destruct (md_shared_files_table meta); [|done]. destruct (opt_flag _ meta); [done|]. check_step. done.
  - intros [u s] _. do 4 check_step. rewrite (rd_entries _ _ Hreadable). done.
Qed.
End checking.
