(* ===== verification/MetadataSession.v ===== *)
(** * MetadataSession: a session of calls on checked metadata

    The calls of the interface of [metadata_v2] ([reader/internal/metadata_v2.h])
    with the handles they give out: inodes, entries and directories.  On
    metadata that passed [check_metadata], whatever calls are made, none reads
    outside of a table. *)

From S2P Require Import Prelude Bits FileChunks PackedInts StringTable SparseSeek Metadata MetadataReader MetadataSafety.
Local Open Scope Z_scope.

#[local] Abbreviation checked := (result metadata_error).

(** ** Sessions *)

(** What a call gives out and later calls take. *)
Inductive handle : Type :=
  | HInode (iv : inode_view)
  | HEntry (dv : dir_entry_view)
  | HDirectory (inode : Z).

(** The calls; a handle is named by its position among those given out. *)
Inductive call : Type :=
  | GetRoot
  | FindPath (path : list Z)
  | FindInode (inode : Z)
  | FindInInode (inode : Z) (name : list Z)
  | EntryInode (h : nat)
  | EntryParent (h : nat)
  | EntryName (h : nat)
  | EntryPath (h : nat) (fuel : nat)
  | GetAttr (h : nat) (no_size : bool)
  | Access (h : nat) (mode uid gid : Z)
  | OpenFile (h : nat)
  | ReadLink (h : nat) (mode : readlink_mode)
  | OpenDir (h : nat)
  | FindIn (h : nat) (name : list Z)
  | ReadDir (h : nat) (offset : nat)
  | DirSize (h : nat)
  | SelfEntry (h : nat)
  | ReadChunks (inode : Z)
  | DirectoryEntryAt (index : nat)
  | Walk (fuel : nat).

Section session.
Context {decoder : Type} (fsst_decompress : decoder -> list Z -> Z -> list Z).

Definition new_handle {A} (to_handle : A -> handle) (r : checked (option A)) : checked (list handle) :=
  let? o := r in Ok (match o with Some a => [to_handle a] | None => [] end).

Definition no_handle {A} (r : checked A) : checked (list handle) := let? _ := r in Ok [].

(** A call without the handle it needs cannot be made. *)
Definition with_inode (hs : list handle) (h : nat) (f : inode_view -> checked (list handle)) : checked (list handle) :=
  match hs !! h with Some (HInode iv) => f iv | _ => Ok [] end.
Definition with_entry (hs : list handle) (h : nat) (f : dir_entry_view -> checked (list handle)) : checked (list handle) :=
  match hs !! h with Some (HEntry dv) => f dv | _ => Ok [] end.
Definition with_dir (hs : list handle) (h : nat) (f : Z -> checked (list handle)) : checked (list handle) :=
  match hs !! h with Some (HDirectory d) => f d | _ => Ok [] end.

Definition one {A} (r : checked A) : checked (option A) := let? a := r in Ok (Some a).

(** [metadata_::find(inode, name)]. *)
Definition find_in_inode (d : metadata_v2_data) (inode : Z) (name : list Z) : checked (option dir_entry_view) :=
  let? iv := get_entry d inode in
  match iv with
  | None => Ok None
  | Some iv =>
      let? dir := iv_is_directory (meta_ d) iv in
      if dir : bool then let? dir := make_directory_view d iv in find_in fsst_decompress d dir name else Ok None
  end.

Definition read_chunks (d : metadata_v2_data (decoder := decoder)) (inode : Z) : checked (option (list chunk)) :=
  let? range := get_chunks d inode in
  match range with
  | None => Ok None
  | Some range => let? cs := chunks_of_range d range in Ok (Some cs)
  end.

Definition call_run (d : metadata_v2_data) (hs : list handle) (c : call) : checked (list handle) :=
  let g := global_ d in
  match c with
  | GetRoot => Ok [HEntry (root_ d)]
  | FindPath path => new_handle HEntry (find_path fsst_decompress d path)
  | FindInode inode => new_handle HInode (get_entry d inode)
  | FindInInode inode name => new_handle HEntry (find_in_inode d inode name)
  | EntryInode h => with_entry hs h (fun dv => new_handle HInode (one (dv_inode g dv)))
  | EntryParent h => with_entry hs h (fun dv => new_handle HEntry (dv_parent g dv))
  | EntryName h => with_entry hs h (fun dv => no_handle (dv_name fsst_decompress g dv))
  | EntryPath h fuel => with_entry hs h (fun dv => no_handle (dv_path fsst_decompress fuel g dv))
  | GetAttr h no_size => with_inode hs h (fun iv => no_handle (getattr fsst_decompress d iv no_size))
  | Access h mode uid gid => with_inode hs h (fun iv => no_handle (access d iv mode uid gid))
  | OpenFile h => with_inode hs h (fun iv => no_handle (open_file d iv))
  | ReadLink h mode => with_inode hs h (fun iv => no_handle (readlink fsst_decompress d iv mode))
  | OpenDir h => with_inode hs h (fun iv => new_handle HDirectory (opendir d iv))
  | FindIn h name => with_dir hs h (fun dir => new_handle HEntry (find_in fsst_decompress d dir name))
  | ReadDir h offset => with_dir hs h (fun dir => new_handle HEntry (readdir d dir (Z.of_nat offset)))
  | DirSize h => with_dir hs h (fun dir => no_handle (dirsize d dir))
  | SelfEntry h => with_dir hs h (fun dir => new_handle HEntry (one (self_entry_view g dir)))
  | ReadChunks inode => no_handle (read_chunks d inode)
  | DirectoryEntryAt index => new_handle HEntry (one (directory_entries_at d (Z.of_nat index)))
  | Walk fuel => no_handle (walk_tree fuel d)
  end.

(** After an exception the session goes on. *)
Fixpoint session (d : metadata_v2_data) (hs : list handle) (calls : list call) : checked (list handle) :=
  match calls with
  | [] => Ok hs
  | c :: calls =>
      match call_run d hs c with
      | Ok new => session d (hs ++ new) calls
      | Err (Thrown _) => session d hs calls
      | Err e => Err e
      end
  end.
End session.

(** ** Safety *)

Section safety.
Context {decoder : Type} (fsst_import : list Z -> Z * decoder) (fsst_decompress : decoder -> list Z -> Z -> list Z).
Context (frozen_string_table_size : list (list Z) -> Z) (meta : fs_metadata) (de : list dir_entry).
Context (Htyped : meta_typed meta de) (Hreadable : readable meta de).
Context (ranks : list Z) (F : checked_facts frozen_string_table_size meta ranks).

#[local] Abbreviation dirs := (md_directories meta).
#[local] Abbreviation off := (rank_offset ranks).
#[local] Abbreviation inv := (pv_inv word_lg).

(** The numbers of strings in the tables. *)
Definition num_names : Z := if 1 <? zlen de then max_element (map name_index de) + 1 else 0.
Definition num_links : Z := match md_symlink_table meta with [] => 0 | l => max_element l + 1 end.

Lemma names_safe : safe (open_string_table fsst_import (md_compact_names meta) (md_names meta)) (strings_ok fsst_decompress num_names).
Proof using F Htyped Hreadable.
  pose proof (cf_strings _ _ _ F) as H. unfold check_string_tables in H. rewrite (rd_entries _ _ Hreadable) in H. cbv zeta in H.
  apply rbind_Ok in H as ([] & H & _). eapply check_strings_ok; [done|apply (mt_names _ _ Htyped)].
Qed.

Lemma symlinks_safe : safe (open_string_table fsst_import (md_compact_symlinks meta) (md_symlinks meta)) (strings_ok fsst_decompress num_links).
Proof using F Htyped Hreadable.
  pose proof (cf_strings _ _ _ F) as H. unfold check_string_tables in H. rewrite (rd_entries _ _ Hreadable) in H. cbv zeta in H.
  apply rbind_Ok in H as ([] & _ & H). eapply check_strings_ok; [done|apply (mt_symlinks _ _ Htyped)].
Qed.

(** *** The global metadata and the handles *)

Record global_ok (g : global_metadata (decoder := decoder)) : Prop := {
  go_meta : g_meta g = meta;
  go_dirs : dirs_like (firsts meta) (g_directories g);
  go_root_only : root_only_empty meta de;
  go_names : strings_ok fsst_decompress num_names (g_names g)
}.

Definition inode_ok (iv : inode_view) : Prop := 0 <= iv_inode_num iv /\ md_inodes meta !! Z.to_nat (iv_inode_num iv) = Some (iv_data iv).
Definition entry_ok (dv : dir_entry_view) : Prop := exists dev, dv_data dv = EntryOf dev /\ dev ∈ de /\ 0 <= dv_parent_index dv.
Definition dir_ok (dir : Z) : Prop := 0 <= dir < zlen dirs - 1.
Definition handle_ok (h : handle) : Prop :=
  match h with HInode iv => inode_ok iv | HEntry dv => entry_ok dv | HDirectory d => dir_ok d end.

Lemma global_safe fuel : safe (global_metadata_create fsst_import fuel meta) global_ok.
Proof using F Htyped Hreadable.
  unfold global_metadata_create.
  eapply bind_safe; [eapply unpack_directories_safe; done|]. cbv beta. intros o [Ho Hr].
  eapply bind_safe; [apply names_safe|]. cbv beta. intros t Ht. by split.
Qed.

Section global.
Context (g : global_metadata (decoder := decoder)) (G : global_ok g).

Lemma firsts_len : zlen (firsts meta) = zlen dirs - 1 + 1.
Proof using F Htyped Hreadable. destruct (firsts_ok _ _ _ Htyped Hreadable ranks F). lia. Qed.

Lemma dir_at i : 0 <= i < zlen dirs -> exists d, at_index (g_directories g) i = Ok d /\
  firsts meta !! Z.to_nat i = Some (first_entry d) /\ 0 <= parent_entry d /\ 0 <= self_entry d.
Proof using F G Htyped Hreadable.
  intros Hi. destruct (go_dirs _ G) as [Hd Hpos]. pose proof firsts_len as Hlen.
  destruct (lookup_lt_is_Some_2 (g_directories g) (Z.to_nat i)) as [d Hdi].
  - rewrite <- Hd in Hlen. unfold zlen in *. rewrite length_map in Hlen. lia.
  - exists d. rewrite (at_index_Some _ _ _ Hdi) by lia. split; [done|]. split; [by rewrite <- Hd, list_lookup_fmap, Hdi|].
    apply (Forall_lookup_1 _ _ _ _ Hpos Hdi).
Qed.

(** The entries of a directory are there. *)
Lemma dir_range dir : dir_ok dir -> exists a b, first_dir_entry g dir = Ok a /\ first_dir_entry g (dir + 1) = Ok b /\
  0 <= a <= b /\ b <= zlen de /\ (a < b -> 1 < zlen de).
Proof using F G Htyped Hreadable.
  intros Hd. unfold dir_ok in Hd. unfold first_dir_entry.
  destruct (dir_at dir ltac:(lia)) as (d1 & -> & H1 & _). destruct (dir_at (dir + 1) ltac:(lia)) as (d2 & -> & H2 & _). cbn [rbind].
  exists (first_entry d1), (first_entry d2). replace (Z.to_nat (dir + 1)) with (S (Z.to_nat dir)) in H2 by lia.
  destruct (firsts_ok _ _ _ Htyped Hreadable ranks F) as [_ Hst]. destruct (Hst _ _ _ H1 H2). split_and!; [done..|lia|lia|lia|].
  intros Hlt. destruct (decide (1 < zlen de)) as [|Hn]; [done|]. exfalso.
  pose proof (entries_ok _ _ _ Htyped Hreadable ranks F) as (Hnum & _ & _).
  pose proof (go_root_only _ G ltac:(lia) _ _ _ H1 H2). lia.
Qed.

Lemma self_dir_entry_safe i : 0 <= i < zlen dirs -> safe (self_dir_entry g i) (fun e => 0 <= e).
Proof using F G Htyped Hreadable.
  intros Hi. unfold self_dir_entry. rewrite (go_meta _ G), (rd_no_entry_table _ _ Hreadable).
  destruct (dir_at i Hi) as (d & -> & _ & _ & H). done.
Qed.

Lemma parent_dir_entry_safe i : 0 <= i < zlen dirs -> safe (parent_dir_entry g i) (fun e => 0 <= e).
Proof using F G Htyped Hreadable.
  intros Hi. unfold parent_dir_entry. destruct (dir_at i Hi) as (d & -> & _ & H & _). cbn [rbind].
  rewrite (go_meta _ G), (rd_no_entry_table _ _ Hreadable). done.
Qed.

Lemma entry_at i : 0 <= i < zlen de -> safe (at_index de i) (fun dev => dev ∈ de /\ 0 <= inode_num dev < zlen (md_inodes meta)).
Proof using F Htyped Hreadable.
  intros Hi. eapply safe_mono; [by apply safe_at_index|]. cbv beta. intros dev Hdev. apply list_elem_of_lookup_2 in Hdev.
  split; [done|]. pose proof (entries_ok _ _ _ Htyped Hreadable ranks F) as (_ & _ & Hall).
  by apply (proj1 (Forall_forall _ _) Hall) in Hdev.
Qed.

Lemma make_dir_entry_view_safe i p t : 0 <= i -> 0 <= p -> safe (make_dir_entry_view g i p t) entry_ok.
Proof using F G Htyped Hreadable.
  intros Hi Hp. unfold make_dir_entry_view. rewrite (go_meta _ G), (rd_entries _ _ Hreadable).
  eapply bind_safe; [apply safe_dwarfs_check|]. intros _ Hlt%Z.ltb_lt. eapply bind_safe; [apply safe_dwarfs_check|]. intros _ _.
  eapply bind_safe; [by apply entry_at|]. cbv beta. intros dev [Hdev _]. by exists dev.
Qed.

Lemma make_directory_entry_view_safe i t : 0 <= i -> safe (make_directory_entry_view g i t) entry_ok.
Proof using F G Htyped Hreadable.
  intros Hi. unfold make_directory_entry_view. rewrite (go_meta _ G), (rd_entries _ _ Hreadable). cbv zeta.
  eapply bind_safe; [apply safe_dwarfs_check|]. intros _ Hlt%Z.ltb_lt.
  eapply bind_safe; [by apply entry_at|]. cbv beta. intros dev [Hdev [Hd _]].
  eapply bind_safe; [apply safe_dwarfs_check|]. intros _ Hn%Z.ltb_lt.
  eapply bind_safe; [by apply parent_dir_entry_safe|]. cbv beta. intros p Hp. by exists dev.
Qed.

Lemma dv_inode_safe dv : entry_ok dv -> safe (dv_inode g dv) inode_ok.
Proof using F G Htyped Hreadable.
  intros (dev & Hdv & Hdev & _). unfold dv_inode. rewrite Hdv, (go_meta _ G).
  pose proof (entries_ok _ _ _ Htyped Hreadable ranks F) as (_ & _ & Hall).
  pose proof (proj1 (Forall_forall _ _) Hall dev Hdev) as Hn. cbv beta in Hn.
  eapply bind_safe; [by apply safe_at_index|]. cbv beta. intros iv Hiv. cbn. split; [apply Hn|done].
Qed.

Lemma string_safe dev : dev ∈ de -> 1 < zlen de -> safe (string_at fsst_decompress (g_names g) (name_index dev)) (fun _ => True).
Proof using F G Htyped.
  intros Hdev Hn. unfold string_at. destruct (go_names _ G (name_index dev)) as [s Hs]; [|by rewrite Hs].
  pose proof (proj1 (Forall_forall _ _) (mt_entries _ _ Htyped) dev Hdev) as [[Hpos _] _]. split; [done|].
  unfold num_names. replace (1 <? zlen de) with true by lia.
  pose proof (max_element_ge (map name_index de) (name_index dev)) as Hmax.
  enough (name_index dev <= max_element (map name_index de)) by lia. apply Hmax. apply list_elem_of_fmap. by exists dev.
Qed.

Lemma entry_name_safe i : 0 <= i -> 1 < zlen de -> safe (entry_name fsst_decompress g i) (fun _ => True).
Proof using F G Htyped Hreadable.
  intros Hi Hn. unfold entry_name. rewrite (go_meta _ G), (rd_entries _ _ Hreadable).
  eapply bind_safe; [apply safe_dwarfs_check|]. intros _ Hlt%Z.ltb_lt.
  eapply bind_safe; [by apply entry_at|]. cbv beta. intros dev [Hdev _]. by apply string_safe.
Qed.

Lemma dv_name_safe dv : entry_ok dv -> safe (dv_name fsst_decompress g dv) (fun _ => True).
Proof using F G Htyped Hreadable.
  intros (dev & Hdv & Hdev & _). unfold dv_name, is_root. destruct (dv_name_type dv); [|done..]. rewrite Hdv.
  destruct (Z.eqb_spec (inode_num dev) 0) as [|Hne]; [done|]. apply string_safe; [done|].
  pose proof (entries_ok _ _ _ Htyped Hreadable ranks F) as (Hnum & _ & Hall).
  pose proof (proj1 (Forall_forall _ _) Hall dev Hdev) as Hn. cbv beta in Hn. lia.
Qed.

Lemma dv_parent_safe dv : entry_ok dv -> safe (dv_parent g dv) (fun o => forall p, o = Some p -> entry_ok p).
Proof using F G Htyped Hreadable.
  intros (dev & Hdv & Hdev & Hp). unfold dv_parent. destruct (is_root dv); [done|].
  eapply bind_safe; [by apply make_directory_entry_view_safe|]. intros p Hok. cbn. by intros q [= <-].
Qed.

Lemma append_to_safe fuel dv p : entry_ok dv -> safe (append_to fsst_decompress fuel g dv p) (fun _ => True).
Proof using F G Htyped Hreadable.
  revert dv p. induction fuel as [|fuel IH]; intros dv p Hdv; [done|]. cbn [append_to].
  eapply bind_safe; [by apply dv_parent_safe|]. cbv beta. intros parent Hparent.
  eapply (bind_safe _ _ (fun _ => True)).
  - destruct parent as [ev|]; [|done]. destruct (negb (is_root ev)); [|done]. by apply IH, Hparent.
  - intros p' _. destruct (negb (is_root dv)); [|done]. eapply bind_safe; [by apply dv_name_safe|]. done.
Qed.

Lemma entry_range_safe dir : dir_ok dir -> safe (entry_range g dir) (Forall (fun i => 0 <= i)).
Proof using F G Htyped Hreadable.
  intros Hd. unfold entry_range. destruct (dir_range dir Hd) as (a & b & -> & -> & Hab & _). cbn [rbind].
  replace (a <=? b) with true by lia. cbn. apply Forall_forall. intros i Hi. apply elem_of_seqZ in Hi. lia.
Qed.

Lemma entry_count_safe dir : dir_ok dir -> safe (entry_count g dir) (fun n => 0 <= n).
Proof using F G Htyped Hreadable.
  intros Hd. unfold entry_count. destruct (dir_range dir Hd) as (a & b & -> & -> & Hab & _). cbn [rbind safe].
  apply wrapu_range. lia.
Qed.

Lemma self_entry_view_safe dir : dir_ok dir -> safe (self_entry_view g dir) entry_ok.
Proof using F G Htyped Hreadable.
  intros Hd. unfold dir_ok in Hd. unfold self_entry_view. eapply bind_safe; [apply self_dir_entry_safe; lia|]. cbv beta. intros i Hi.
  by apply make_directory_entry_view_safe.
Qed.
End global.

(** *** The inodes *)

Lemma inode_mode_at iv : inode_ok iv -> exists m, iv_mode meta iv = Ok m /\
  (file_type m = S_IFDIR -> iv_inode_num iv < off 1) /\
  (file_type m = S_IFLNK -> off 1 <= iv_inode_num iv < off 2) /\
  (file_type m = S_IFREG -> off 2 <= iv_inode_num iv < off 3) /\
  (file_type m = S_IFBLK \/ file_type m = S_IFCHR -> off 3 <= iv_inode_num iv < off 4).
Proof using F.
  intros [Hn Hi]. destruct (rank_at _ _ _ F _ _ Hi) as (m & _ & Hm & _). exists m. split; [done|].
  pose proof (inode_of_type _ _ _ F _ _ m Hi Hm) as H. by rewrite Z2Nat.id in H.
Qed.

Lemma iv_getuid_safe iv : inode_ok iv -> safe (iv_getuid meta iv) (fun _ => True).
Proof using F Htyped.
  intros [Hn Hi]. destruct (inode_indices _ _ _ Htyped ranks F _ _ Hi) as (_ & H & _). unfold iv_getuid.
  destruct (md_uids meta) as [|u uids]; [done|]. destruct H as [|H]; [done|]. eapply safe_mono; [by apply safe_at_index|]. done.
Qed.

Lemma iv_getgid_safe iv : inode_ok iv -> safe (iv_getgid meta iv) (fun _ => True).
Proof using F Htyped.
  intros [Hn Hi]. destruct (inode_indices _ _ _ Htyped ranks F _ _ Hi) as (_ & _ & H). unfold iv_getgid.
  destruct (md_gids meta) as [|u gids]; [done|]. destruct H as [|H]; [done|]. eapply safe_mono; [by apply safe_at_index|]. done.
Qed.

(** A directory's inode number is that of a directory of the table. *)
Lemma directory_safe iv : inode_ok iv -> safe (iv_is_directory meta iv) (fun b => b = true -> dir_ok (iv_inode_num iv)).
Proof using F.
  intros Hiv. unfold iv_is_directory, iv_type. destruct (inode_mode_at iv Hiv) as (m & -> & H & _). cbn. intros Hb%Z.eqb_eq.
  destruct Hiv as [Hn _]. unfold dir_ok. rewrite (cf_dirs _ _ _ F). split; [done|]. by apply H.
Qed.

Lemma symlink_safe iv : inode_ok iv -> safe (iv_is_symlink meta iv) (fun b => b = true -> off 1 <= iv_inode_num iv < off 2).
Proof using F.
  intros Hiv. unfold iv_is_symlink, iv_type. destruct (inode_mode_at iv Hiv) as (m & -> & _ & H & _). cbn. intros Hb%Z.eqb_eq. by apply H.
Qed.

(** *** The data of the reader *)

#[local] Abbreviation data := (metadata_v2_data (decoder := decoder)).

Record data_ok (d : data) : Prop := {
  do_meta : meta_ d = meta;
  do_global : global_ok (global_ d);
  do_root : entry_ok (root_ d);
  do_links : symlink_inode_offset_ d = off 1;
  do_files : file_inode_offset_ d = off 2;
  do_devs : dev_inode_offset_ d = off 3;
  do_count : inode_count_ d = zlen (md_inodes meta);
  do_table : if opt_flag packed_chunk_table meta then inv (chunk_table_ d) (offsets_of_chunks meta) else pv_size (chunk_table_ d) = 0;
  do_shared : shared_ok meta (shared_files_ d);
  do_unique : unique_files_ d = off 3 - off 2 - num_shared meta;
  do_nlinks : nlinks_ok (nlinks_ d) (off 3 - off 2);
  do_symlinks : strings_ok fsst_decompress num_links (symlinks_ d)
}.

Section operations.
Context (d : data) (D : data_ok d).

Let G : global_ok (global_ d) := do_global _ D.

Lemma make_inode_view_safe i : 0 <= i < zlen (md_inodes meta) -> safe (make_inode_view d i) inode_ok.
Proof using D Hreadable.
  intros Hi. unfold make_inode_view. rewrite (do_meta _ D), (rd_entries _ _ Hreadable). cbn [rbind].
  eapply bind_safe; [by apply safe_at_index|]. cbv beta. intros ino Hino. cbn. split; [apply Hi|done].
Qed.

Lemma get_entry_safe i : safe (get_entry d i) (fun o => forall iv, o = Some iv -> inode_ok iv).
Proof using D Hreadable.
  unfold get_entry. cbv zeta. rewrite (do_count _ D). destruct ((0 <=? _) && _) eqn:E; [|done].
  eapply bind_safe; [apply make_inode_view_safe; lia|]. cbv beta. intros iv Hiv. cbn. by intros ? [= <-].
Qed.

Lemma file_inode_to_chunk_index_safe i : safe (file_inode_to_chunk_index d i) (fun _ => True).
Proof using D.
  unfold file_inode_to_chunk_index. cbv zeta. rewrite (do_files _ D). pose proof (do_unique _ D) as Hu.
  destruct (Z.leb_spec (unique_files_ d) (i - off 2)); [|done]. pose proof (do_shared _ D) as Hs. unfold pv_empty.
  destruct Hs as [[Hs Hnum]|(l & Hl & Hlen & Hpos)].
  - rewrite Hs. cbn [Z.eqb negb]. rewrite (do_meta _ D). destruct (md_shared_files_table meta) as [sf|]; [|done].
    destruct (Z.ltb_spec (i - off 2 - unique_files_ d) (zlen sf)); [|done].
    eapply bind_safe; [apply safe_at_index; lia|]. done.
  - rewrite (pi_size _ _ _ Hl). replace (zlen l =? 0) with false by lia. cbn [negb].
    destruct (Z.ltb_spec (i - off 2 - unique_files_ d) (zlen l)); [|done].
    destruct (lookup_lt_is_Some_2 l (Z.to_nat (i - off 2 - unique_files_ d))) as [x Hx]; [unfold zlen in *; lia|].
    pose proof (pv_get_ok word_lg word_lg_pos _ _ _ _ Hl Hx) as Hget. rewrite Z2Nat.id in Hget by lia. by rewrite Hget.
Qed.

Lemma chunk_table_lookup_ok i : 0 <= i < zlen (md_chunk_table (md_files meta)) ->
  exists x, chunk_table_lookup d i = Ok x /\ offsets_of_chunks meta !! Z.to_nat i = Some x.
Proof using D F Htyped.
  intros Hi. destruct (offsets_of_chunks_ok _ _ _ Htyped ranks F) as (Hlen & HT & _). unfold chunk_table_lookup, pv_empty.
  pose proof (do_table _ D) as Ht. rewrite (do_meta _ D).
  destruct (lookup_lt_is_Some_2 (offsets_of_chunks meta) (Z.to_nat i)) as [x Hx]; [unfold zlen in *; lia|]. exists x. split; [|done].
  unfold offsets_of_chunks in *. destruct (opt_flag packed_chunk_table meta).
  - rewrite (pi_size _ _ _ Ht). replace (zlen _ =? 0) with false by lia.
    pose proof (pv_get_ok word_lg word_lg_pos _ _ _ _ Ht Hx) as Hget. rewrite Z2Nat.id in Hget by lia. by rewrite Hget.
  - rewrite Ht. cbn. apply at_index_Some; [done|lia].
Qed.

Definition range_ok (r : Z * Z) : Prop := 0 <= r.1 <= r.2 /\ r.2 <= zlen (md_chunks (md_files meta)).

Lemma get_chunk_range_from_index_safe i : safe (get_chunk_range_from_index d i) (fun o => forall r, o = Some r -> range_ok r).
Proof using D F Htyped.
  unfold get_chunk_range_from_index. rewrite (do_meta _ D). destruct (offsets_of_chunks_ok _ _ _ Htyped ranks F) as (Hlen & HT & Hst).
  pose proof (mt_num_inodes _ _ Htyped). destruct (Z.leb_spec 0 i); [|done]. cbn [andb].
  replace (to_int (zlen (md_chunk_table (md_files meta)))) with (zlen (md_chunk_table (md_files meta)))
    by (symmetry; apply wraps_small; [lia|unfold in_s; lia]).
  destruct (Z.ltb_spec (i + 1) (zlen (md_chunk_table (md_files meta)))); [|done].
  destruct (chunk_table_lookup_ok i ltac:(lia)) as (x & -> & Hx). destruct (chunk_table_lookup_ok (i + 1) ltac:(lia)) as (y & -> & Hy).
  cbn. intros r [= <-]. replace (Z.to_nat (i + 1)) with (S (Z.to_nat i)) in Hy by lia. destruct (Hst _ _ _ Hx Hy).
  unfold range_ok. cbn. lia.
Qed.

Lemma chunks_of_range_safe r : range_ok r -> safe (chunks_of_range d r) (fun _ => True).
Proof using D F Htyped.
  intros [Hr1 Hr2]. unfold chunks_of_range. replace (r.1 <=? r.2) with true by lia. rewrite (do_meta _ D).
  eapply safe_mono; [apply (safe_mapR _ _ (fun _ => True))|done]. apply Forall_forall. intros i Hi. apply elem_of_seqZ in Hi.
  eapply bind_safe; [apply safe_at_index; lia|]. cbv beta. intros c Hc.
  destruct (Forall_lookup_1 _ _ _ _ (chunk_views _ _ _ Htyped ranks F) Hc) as [v ->]. done.
Qed.

Lemma read_chunks_safe i : safe (read_chunks d i) (fun _ => True).
Proof using D F Htyped.
  unfold read_chunks, get_chunks, get_chunk_range.
  eapply (bind_safe _ _ (fun o => forall r, o = Some r -> range_ok r)).
  - eapply bind_safe; [apply file_inode_to_chunk_index_safe|]. intros ix _. apply get_chunk_range_from_index_safe.
  - intros [r|] Hr; [|done]. eapply bind_safe; [by apply chunks_of_range_safe, Hr|]. done.
Qed.

Lemma link_value_safe iv mode : off 1 <= iv_inode_num iv < off 2 -> safe (link_value fsst_decompress d iv mode) (fun _ => True).
Proof using D F Htyped.
  intros Hi. unfold link_value. rewrite (do_meta _ D), (do_links _ D).
  eapply bind_safe; [apply safe_at_index; rewrite (cf_links _ _ _ F); lia|]. cbv beta. intros ix Hix%list_elem_of_lookup_2.
  pose proof (proj1 (Forall_forall _ _) (mt_symlink_table _ _ Htyped) ix Hix) as [Hpos _].
  pose proof (max_element_ge _ _ Hix) as Hmax. eapply (bind_safe _ _ (fun _ => True)); [|by destruct mode].
  unfold string_at. destruct (do_symlinks _ D ix) as [v Hv]; [|by rewrite Hv]. unfold num_links.
  destruct (md_symlink_table meta); [by apply not_elem_of_nil in Hix|]. lia.
Qed.

Lemma readlink_safe iv mode : inode_ok iv -> safe (readlink fsst_decompress d iv mode) (fun _ => True).
Proof using D F Htyped.
  intros Hiv. unfold readlink. rewrite (do_meta _ D). eapply bind_safe; [by apply symlink_safe|]. cbv beta. intros [|] Hb; [|done].
  eapply bind_safe; [by apply link_value_safe, Hb|]. done.
Qed.

Lemma get_device_id_safe i : off 3 <= i < off 4 -> safe (get_device_id d i) (fun _ => True).
Proof using D F.
  intros Hi. unfold get_device_id. rewrite (do_meta _ D), (do_devs _ D). pose proof (cf_devices _ _ _ F) as Hn.
  destruct (md_devices meta) as [devs|]; [|done]. eapply bind_safe; [apply safe_at_index; lia|]. done.
Qed.

Lemma reg_file_size_safe i use_cache : safe (reg_file_size d i use_cache) (fun _ => True).
Proof using D F Htyped.
  unfold reg_file_size. eapply bind_safe; [apply file_inode_to_chunk_index_safe|]. intros ix _.
  eapply bind_safe; [apply get_chunk_range_from_index_safe|]. cbv beta. intros [[b e]|] Hr; [|done]. cbn [dwarfs_check rbind there].
  cbv zeta. match goal with |- context [match ?c with Some r => Ok r | None => _ end] => destruct c end; [done|].
  eapply bind_safe; [by apply chunks_of_range_safe, Hr|]. done.
Qed.

Lemma make_directory_view_safe iv : inode_ok iv -> safe (make_directory_view d iv) (fun dir => dir = iv_inode_num iv /\ dir_ok dir).
Proof using D F.
  intros Hiv. unfold make_directory_view. rewrite (do_meta _ D). eapply bind_safe; [by apply directory_safe|]. cbv beta. intros [|] Hb; [|done].
  cbn. auto.
Qed.

Lemma file_type_readonly m : file_type (Z.land m READ_ONLY_MASK) = file_type m.
Proof. unfold file_type. by rewrite <- Z.land_assoc. Qed.

Lemma nlink_safe iv v : off 2 <= iv_inode_num iv < off 3 -> nlinks_ d = Some v -> pv_empty v = false ->
  exists x, pv_at word_lg v (iv_inode_num iv - file_inode_offset_ d) = Ok (Some x).
Proof using D.
  intros Hi Hv Hne. rewrite (do_files _ D). unfold pv_empty in Hne. apply Z.eqb_neq in Hne.
  destruct (do_nlinks _ D v Hv) as [|(l & Hl & Hlen)]; [done|].
  destruct (lookup_lt_is_Some_2 l (Z.to_nat (iv_inode_num iv - off 2))) as [x Hx]; [unfold zlen in Hlen; lia|]. exists x.
  pose proof (pv_at_ok word_lg word_lg_pos v l (Z.to_nat (iv_inode_num iv - off 2)) Hl) as H. rewrite Hx, Z2Nat.id in H by lia. done.
Qed.

Lemma getattr_safe iv no_size : inode_ok iv -> safe (getattr fsst_decompress d iv no_size) (fun _ => True).
Proof using D F G Htyped Hreadable.
  intros Hiv. unfold getattr. rewrite (do_meta _ D). destruct (inode_mode_at iv Hiv) as (m & -> & Hdir & Hlnk & Hreg & Hdev). cbn [rbind]. cbv zeta.
  set (mode := if readonly _ then _ else _). assert (file_type mode = file_type m) as Hft.
  { unfold mode. destruct (readonly _); [apply file_type_readonly|done]. }
  rewrite Hft. eapply (bind_safe _ _ (fun _ => True)).
  { destruct no_size; [done|]. destruct (Z.eqb_spec (file_type m) S_IFDIR).
    - eapply bind_safe; [by apply make_directory_view_safe|]. cbv beta. intros dir [_ Hd].
      eapply bind_safe; [by apply (entry_count_safe _ G)|]. done.
    - unfold file_size. cbv zeta. rewrite Hft. destruct (_ =? S_IFREG); [apply reg_file_size_safe|].
      destruct (Z.eqb_spec (file_type m) S_IFLNK); [|done]. eapply bind_safe; [apply link_value_safe; auto|]. done. }
  intros sz _. eapply bind_safe; [by apply iv_getuid_safe|]. intros uid _. eapply bind_safe; [by apply iv_getgid_safe|]. intros gid _.
  eapply (bind_safe _ _ (fun _ => True)).
  { destruct (Z.eqb_spec (file_type m) S_IFREG) as [Ht|]; [|done]. destruct (nlinks_ d) as [v|] eqn:Hv; [|done].
    destruct (pv_empty v) eqn:He; [done|]. destruct (nlink_safe iv v (Hreg Ht) Hv He) as [x ->]. done. }
  intros nlink _. eapply (bind_safe _ _ (fun _ => True)); [|done].
  destruct ((file_type m =? S_IFBLK) || (file_type m =? S_IFCHR)) eqn:Ht; [|done].
  eapply bind_safe; [apply get_device_id_safe, Hdev; apply orb_true_iff in Ht; rewrite !Z.eqb_eq in Ht; done|]. by intros [id|] _.
Qed.

Lemma access_safe iv mode uid gid : inode_ok iv -> safe (access d iv mode uid gid) (fun _ => True).
Proof using D F Htyped.
  intros Hiv. unfold access. destruct (mode =? 0); [done|]. rewrite (do_meta _ D).
  destruct (inode_mode_at iv Hiv) as (m & -> & _). cbn [rbind]. eapply (bind_safe _ _ (fun _ => True)); [|done].
  destruct (uid =? 0); [done|]. cbv zeta. eapply bind_safe; [by apply iv_getgid_safe|]. intros g _.
  eapply bind_safe; [by apply iv_getuid_safe|]. done.
Qed.

Lemma find_in_safe dir name : dir_ok dir -> safe (find_in fsst_decompress d dir name) (fun o => forall dv, o = Some dv -> entry_ok dv).
Proof using D F G Htyped Hreadable.
  intros Hd. unfold find_in. cbv zeta. destruct (dir_range _ G dir Hd) as (a & b & -> & -> & Hab & Hb & Hn). cbn [rbind].
  replace (b <? a) with false by lia. eapply bind_safe; [apply lower_bound_safe; [lia|]|].
  - intros i Hi. eapply bind_safe; [apply (entry_name_safe _ G); [lia|apply Hn; lia]|]. done.
  - cbv beta. intros it Hit. destruct (Z.eqb_spec it b); [done|].
    eapply bind_safe; [apply (entry_name_safe _ G); [lia|apply Hn; lia]|]. intros nm _. destruct (bool_decide _); [|done].
    unfold dir_ok in Hd. eapply bind_safe; [apply (self_dir_entry_safe _ G); lia|]. cbv beta. intros self Hself.
    eapply bind_safe; [apply (make_dir_entry_view_safe _ G); lia|]. cbv beta. intros dv Hdv. cbn. by intros ? [= <-].
Qed.

Lemma find_path_from_safe fuel dev path : entry_ok dev ->
  safe (find_path_from fsst_decompress fuel d dev path) (fun o => forall dv, o = Some dv -> entry_ok dv).
Proof using D F G Htyped Hreadable.
  revert dev path. induction fuel as [|fuel IH]; intros dev path Hdev; cbn [find_path_from]; destruct path as [|c path]; try done;
    try (intros ? [= <-]; done).
  eapply bind_safe; [by apply (dv_inode_safe _ G)|]. intros iv Hiv. rewrite (do_meta _ D).
  eapply bind_safe; [by apply directory_safe|]. cbv beta. intros [|] _; [|done]. cbn [negb].
  destruct (split_path (c :: path)) as [name rest]. eapply bind_safe; [by apply make_directory_view_safe|]. cbv beta. intros dir [_ Hd].
  eapply bind_safe; [by apply find_in_safe|]. cbv beta. intros [next|] Hnext; [|done]. by apply IH, Hnext.
Qed.

Lemma readdir_safe dir offset : dir_ok dir -> 0 <= offset -> safe (readdir d dir offset) (fun o => forall dv, o = Some dv -> entry_ok dv).
Proof using D F G Htyped Hreadable.
  intros Hd Ho. pose proof Hd as Hd'. unfold dir_ok in Hd'. unfold readdir. cbv zeta.
  destruct (offset =? 0); [|destruct (offset =? 1)].
  - eapply bind_safe; [apply (self_dir_entry_safe _ G); lia|]. cbv beta. intros i Hi.
    eapply bind_safe; [by apply (make_directory_entry_view_safe _ G)|]. cbv beta. intros dv Hdv. cbn. by intros ? [= <-].
  - eapply bind_safe; [apply (parent_dir_entry_safe _ G); lia|]. cbv beta. intros i Hi.
    eapply bind_safe; [by apply (make_directory_entry_view_safe _ G)|]. cbv beta. intros dv Hdv. cbn. by intros ? [= <-].
  - eapply bind_safe; [by apply (entry_count_safe _ G)|]. cbv beta. intros n Hn. destruct (n <=? _); [done|].
    destruct (dir_range _ G dir Hd) as (a & b & -> & _). cbn [rbind].
    eapply bind_safe; [apply (self_dir_entry_safe _ G); lia|]. cbv beta. intros self Hself.
    eapply bind_safe; [apply (make_dir_entry_view_safe _ G); [apply wrapu_range; lia|done]|]. cbv beta. intros dv Hdv. cbn. by intros ? [= <-].
Qed.

Lemma walk_safe fuel self parent seen : 0 <= self -> 0 <= parent -> safe (walk fuel d self parent seen) (fun _ => True).
Proof using D F G Htyped Hreadable.
  revert self parent seen. induction fuel as [|fuel IH]; intros self parent seen Hs Hp; [done|]. cbn [walk].
  eapply bind_safe; [by apply (make_dir_entry_view_safe _ G)|]. intros dv Hdv.
  eapply bind_safe; [by apply (dv_inode_safe _ G)|]. intros iv Hiv. rewrite (do_meta _ D).
  eapply bind_safe; [by apply directory_safe|]. cbv beta. intros [|] Hb; [|done]. cbv zeta. destruct (bool_decide _); [done|].
  eapply bind_safe; [by apply (entry_range_safe _ G), Hb|]. intros range Hr.
  eapply bind_safe; [apply (safe_mapR _ _ (fun _ => True))|done]. eapply Forall_impl; [exact Hr|]. intros i Hi. by apply IH.
Qed.

Lemma directory_entries_at_safe i : 0 <= i -> safe (directory_entries_at d i) entry_ok.
Proof using D F G Htyped Hreadable.
  intros Hi. unfold directory_entries_at. rewrite (do_links _ D), <- (cf_dirs _ _ _ F). destruct (Z.ltb_spec i (zlen dirs - 1)); [|done].
  eapply bind_safe; [apply (self_dir_entry_safe _ G); lia|]. cbv beta. intros self Hself.
  eapply bind_safe; [apply (parent_dir_entry_safe _ G); lia|]. cbv beta. intros parent Hparent.
  by apply (make_dir_entry_view_safe _ G).
Qed.

(** *** Calls and sessions *)

Lemma new_handle_safe {A} (to_handle : A -> handle) r (P : A -> Prop) : safe r (fun o => forall a, o = Some a -> P a) ->
  (forall a, P a -> handle_ok (to_handle a)) -> safe (new_handle to_handle r) (Forall handle_ok).
Proof.
  intros Hr Ha. eapply bind_safe; [exact Hr|]. cbv beta. intros [a|] Ho; cbn; [|by constructor].
  apply Forall_singleton, Ha. by apply Ho.
Qed.

Lemma one_safe {A} (r : checked A) P : safe r P -> safe (one r) (fun o => forall a, o = Some a -> P a).
Proof. intros Hr. eapply bind_safe; [exact Hr|]. intros a Ha. cbn. by intros ? [= <-]. Qed.

Lemma no_handle_safe {A} (r : checked A) : safe r (fun _ => True) -> safe (no_handle r) (Forall handle_ok).
Proof. intros Hr. eapply bind_safe; [exact Hr|]. by constructor. Qed.

Lemma with_inode_safe hs h f : Forall handle_ok hs -> (forall iv, inode_ok iv -> safe (f iv) (Forall handle_ok)) ->
  safe (with_inode hs h f) (Forall handle_ok).
Proof.
  intros Hs Hf. unfold with_inode. destruct (hs !! h) as [[iv| |]|] eqn:E; try by constructor.
  apply Hf. apply (Forall_lookup_1 _ _ _ _ Hs E).
Qed.

Lemma with_entry_safe hs h f : Forall handle_ok hs -> (forall dv, entry_ok dv -> safe (f dv) (Forall handle_ok)) ->
  safe (with_entry hs h f) (Forall handle_ok).
Proof.
  intros Hs Hf. unfold with_entry. destruct (hs !! h) as [[|dv|]|] eqn:E; try by constructor.
  apply Hf. apply (Forall_lookup_1 _ _ _ _ Hs E).
Qed.

Lemma with_dir_safe hs h f : Forall handle_ok hs -> (forall dir, dir_ok dir -> safe (f dir) (Forall handle_ok)) ->
  safe (with_dir hs h f) (Forall handle_ok).
Proof.
  intros Hs Hf. unfold with_dir. destruct (hs !! h) as [[| |dir]|] eqn:E; try by constructor.
  apply Hf. apply (Forall_lookup_1 _ _ _ _ Hs E).
Qed.

Lemma opendir_safe iv : inode_ok iv -> safe (opendir d iv) (fun o => forall dir, o = Some dir -> dir_ok dir).
Proof using D F.
  intros Hiv. unfold opendir. rewrite (do_meta _ D). eapply bind_safe; [by apply directory_safe|]. cbv beta. intros [|] Hb; cbn; [|done].
  intros ? [= <-]. by apply Hb.
Qed.

Lemma open_file_safe iv : inode_ok iv -> safe (open_file d iv) (fun _ => True).
Proof using D F.
  intros Hiv. unfold open_file, iv_is_regular_file, iv_type. rewrite (do_meta _ D).
  destruct (inode_mode_at iv Hiv) as (m & -> & _). done.
Qed.

Lemma find_in_inode_safe i name : safe (find_in_inode fsst_decompress d i name) (fun o => forall dv, o = Some dv -> entry_ok dv).
Proof using D F G Htyped Hreadable.
  unfold find_in_inode. eapply bind_safe; [apply get_entry_safe|]. cbv beta. intros [iv|] Hiv; [|done].
  specialize (Hiv _ eq_refl). rewrite (do_meta _ D). eapply bind_safe; [by apply directory_safe|]. cbv beta. intros [|] _; [|done].
  eapply bind_safe; [by apply make_directory_view_safe|]. cbv beta. intros dir [_ Hd]. by apply find_in_safe.
Qed.

Lemma call_run_safe hs c : Forall handle_ok hs -> safe (call_run fsst_decompress d hs c) (Forall handle_ok).
Proof using D F G Htyped Hreadable.
  intros Hs. destruct c; cbn [call_run]; cbv zeta;
    try (apply with_inode_safe; [done|intros iv Hiv]); try (apply with_entry_safe; [done|intros dv Hdv]);
    try (apply with_dir_safe; [done|intros dir Hdir]); try apply no_handle_safe.
  - apply Forall_singleton. apply (do_root _ D).
  - apply (new_handle_safe _ _ entry_ok); [|done]. by apply find_path_from_safe, (do_root _ D).
  - apply (new_handle_safe _ _ inode_ok); [|done]. apply get_entry_safe.
  - apply (new_handle_safe _ _ entry_ok); [|done]. apply find_in_inode_safe.
  - apply (new_handle_safe _ _ inode_ok); [|done]. by apply one_safe, (dv_inode_safe _ G).
  - apply (new_handle_safe _ _ entry_ok); [|done]. by apply (dv_parent_safe _ G).
  - by apply (dv_name_safe _ G).
  - by apply (append_to_safe _ G).
  - by apply getattr_safe.
  - by apply access_safe.
  - by apply open_file_safe.
  - by apply readlink_safe.
  - apply (new_handle_safe _ _ dir_ok); [|done]. by apply opendir_safe.
  - apply (new_handle_safe _ _ entry_ok); [|done]. by apply find_in_safe.
  - apply (new_handle_safe _ _ entry_ok); [|done]. apply readdir_safe; [done|lia].
  - eapply bind_safe; [by apply (entry_count_safe _ G)|]. done.
  - apply (new_handle_safe _ _ entry_ok); [|done]. by apply one_safe, (self_entry_view_safe _ G).
  - apply read_chunks_safe.
  - apply (new_handle_safe _ _ entry_ok); [|done]. apply one_safe, directory_entries_at_safe. lia.
  - by apply walk_safe.
Qed.

Lemma session_safe hs calls : Forall handle_ok hs -> safe (session fsst_decompress d hs calls) (Forall handle_ok).
Proof using D F G Htyped Hreadable.
  revert hs. induction calls as [|c calls IH]; intros hs Hs; [done|]. cbn [session]. pose proof (call_run_safe hs c Hs) as Hc.
  destruct (call_run fsst_decompress d hs c) as [new|[]]; try done.
  - apply IH, Forall_app. by split.
  - by apply IH.
Qed.
End operations.

(** *** Opening *)

Lemma offset_int q : 0 <= q <= 5 -> to_int (off q) = off q.
Proof using F Htyped.
  intros Hq. pose proof (rank_offset_bounds _ _ ranks F q Hq). pose proof (mt_num_inodes _ _ Htyped). apply wraps_small; [lia|unfold in_s; lia].
Qed.

Lemma check_offsets_safe a b c : safe (check_offsets meta a b c) (fun _ => True).
Proof using F Hreadable.
  unfold check_offsets. do 3 (eapply bind_safe; [apply safe_check_that|]; intros _ _). destruct (md_devices meta); [|done].
  rewrite (find_rank _ _ _ Hreadable ranks F) by (unfold INO_OTH; lia). cbn [rbind]. eapply safe_mono; [apply safe_check_that|]. done.
Qed.

Lemma check_cached_index_safe d ix expected lookup size_of min_count holes_only errors seen : data_ok d ->
  safe (check_cached_index d ix expected lookup size_of min_count holes_only errors seen) (fun _ => True).
Proof using F Htyped.
  intros D. unfold check_cached_index. destruct (bool_decide _); [done|]. destruct (lookup !! ix); [|done].
  eapply bind_safe; [by apply get_chunk_range_from_index_safe|]. cbv beta. intros [[b e]|] Hr; [|done]. cbn [dwarfs_check rbind there]. cbv zeta.
  eapply (bind_safe _ _ (fun _ => True)); [|done]. destruct holes_only; [|done].
  eapply bind_safe; [by apply chunks_of_range_safe; [done|apply Hr]|]. done.
Qed.

Lemma check_cached_sizes_safe d cache inodes errors seen seen_sparse : data_ok d ->
  Forall (fun i => 0 <= i < zlen (md_inodes meta)) inodes -> safe (check_cached_sizes d cache inodes errors seen seen_sparse) (fun _ => True).
Proof using F Htyped Hreadable.
  intros D Hi. revert errors seen seen_sparse. induction Hi as [|i inodes Hi Hall IH]; intros errors seen seen_sparse; [done|].
  cbn [check_cached_sizes]. eapply bind_safe; [by apply make_inode_view_safe|]. intros iv _.
  eapply bind_safe; [by apply reg_file_size_safe|]. intros expected _. eapply bind_safe; [by apply reg_file_size_safe|]. intros cached _. cbv zeta.
  eapply bind_safe; [by apply file_inode_to_chunk_index_safe|]. intros ix _.
  eapply bind_safe; [by apply check_cached_index_safe|]. intros [e1 s1] _. eapply bind_safe; [by apply check_cached_index_safe|]. intros [e2 s2] _.
  apply IH.
Qed.

Lemma check_inode_size_cache_safe d : data_ok d -> safe (check_inode_size_cache d) (fun _ => True).
Proof using F Htyped Hreadable.
  intros D. unfold check_inode_size_cache. rewrite (do_meta _ D), (do_files _ D), (do_devs _ D). destruct (md_reg_file_size_cache meta) as [cache|]; [|done].
  eapply bind_safe; [apply check_cached_sizes_safe; [done|]|].
  - apply Forall_forall. intros i Hi. apply elem_of_seqZ in Hi. pose proof (rank_offset_bounds _ _ ranks F 3 ltac:(lia)).
    pose proof (rank_offset_bounds _ _ ranks F 2 ltac:(lia)). lia.
  - intros [[e s1] s2] _. cbv zeta. eapply safe_mono; [apply safe_check_that|]. done.
Qed.

Lemma create_safe fuel options inode_offset : check_metadata frozen_string_table_size meta = Ok tt ->
  safe (metadata_v2_data_create fsst_import frozen_string_table_size fuel meta options inode_offset true) data_ok.
Proof using F Htyped Hreadable.
  intros Hc. unfold metadata_v2_data_create. rewrite orb_true_r, Hc. cbv zeta.
  cbn [rbind]. eapply bind_safe; [apply global_safe|]. intros g G.
  eapply bind_safe; [by apply (make_directory_entry_view_safe _ G)|]. intros root Hroot.
  rewrite !(find_rank _ _ _ Hreadable ranks F) by (unfold INO_LNK, INO_REG, INO_DEV; lia). cbn [rbind].
  unfold INO_LNK, INO_REG, INO_DEV. rewrite !offset_int by lia.
  eapply bind_safe; [by eapply unpack_chunk_table_safe|]. cbv beta. intros table Htable.
  eapply bind_safe; [by eapply unpack_shared_files_safe|]. cbv beta. intros shared Hshared.
  eapply bind_safe; [apply build_nlinks_safe|]. cbv beta. intros nlinks Hnlinks.
  eapply bind_safe; [apply symlinks_safe|]. cbv beta. intros links Hlinks.
  match goal with |- context [check_inode_size_cache ?x] => set (d := x) end.
  assert (data_ok d) as D.
  { split; try done; cbn [unique_files_ inode_count_ d].
    - rewrite (rd_entries _ _ Hreadable). pose proof (mt_num_inodes _ _ Htyped). pose proof (zlen_nonneg (md_inodes meta)).
      apply wraps_small; [lia|unfold in_s; lia].
    - pose proof (num_shared_bound _ _ _ Htyped ranks F). unfold pv_empty. destruct Hshared as [[Hs Hn]|(l & Hl & Hlen & Hpos)].
      + rewrite Hs. cbn [Z.eqb]. rewrite <- Hn. apply wraps_small; [lia|unfold in_s; lia].
      + rewrite (pi_size _ _ _ Hl), Hlen. replace (num_shared meta =? 0) with false by lia. apply wraps_small; [lia|unfold in_s; lia]. }
  eapply bind_safe; [apply check_offsets_safe|]. intros _ _. eapply bind_safe; [by apply check_inode_size_cache_safe|]. done.
Qed.
End safety.

Lemma safe_defined {A} (r : checked A) P : safe r P -> r <> Err Undefined.
Proof. destruct r; cbn; congruence. Qed.


(** A root with a link and a file, and a directory of two files with the same
    content; all tables packed. *)
Module SessionExample.
Definition create (dict : list Z) : Z * unit := (0, tt).
Definition expand (d : unit) (s : list Z) (n : Z) : list Z := s.

Definition mode_dir : Z := 0x41ED.
Definition mode_link : Z := 0xA1FF.
Definition mode_file : Z := 0x81A4.
Definition inode (mode : Z) : inode_data := InodeData mode 0 0 0 0 0.

Definition entries : list dir_entry :=
  [DirEntry 0 0; DirEntry 0 1; DirEntry 1 3; DirEntry 2 2; DirEntry 3 4; DirEntry 4 5].

Definition image : fs_metadata := FsMetadata
  (Metadata [MetaChunk 0 0 7; MetaChunk 0 7 5] [0; 1; 1] 16 None None)
  [Directory 0 1 0; Directory 0 3 0; Directory 0 2 0] 0
  [inode 0; inode 0; inode 1; inode 2; inode 2; inode 2]
  [] [0] [1000] [100] [mode_dir; mode_link; mode_file] []
  [] None (Some (FsOptions true true true false)) (Some entries) (Some [0])
  (Some (StringTableData [97; 102; 108; 103; 104] None [1; 1; 1; 1; 1] true))
  (Some (StringTableData [97; 47; 103] None [3] true)) None None None.

Definition options : metadata_options := MetadataOptions true false true 512 None None.

Definition example_data := metadata_v2_data_create create total_bytes 10 image options 1 true.

(** Looks [a/g] up, asks for its attributes and its name, reads its chunks,
    follows the link, and reads the directory [a]. *)
Definition calls : list call :=
  [FindPath [97; 47; 103]; EntryInode 0; GetAttr 1 false; EntryPath 0 3; ReadChunks 5; FindPath [108]; EntryInode 2;
   ReadLink 3 ReadlinkRaw; FindInode 2; OpenDir 4; ReadDir 5 0; ReadDir 5 3; ReadDir 5 4; Walk 4].

Lemma image_typed : meta_typed image entries.
Proof.
  split; try (apply (bool_decide_unpack _); vm_compute; done).
  - intros sf [= <-]. apply (bool_decide_unpack _). by vm_compute.
Qed.

Lemma image_readable : readable image entries.
Proof. split; [done|done|done|]. intros _. by exists (DirEntry 0 0). Qed.
End SessionExample.



(** What the checks let through: packed directories with a directory in itself
    pass them, and unpacking the directories never ends. *)
Module EndlessExample.
Definition image : fs_metadata := FsMetadata
  (Metadata [] [0] 16 None None) [Directory 0 0 0; Directory 0 1 0] 0 [InodeData 0 0 0 0 0 0]
  [] [] [] [] [0x41ED] [] [] None (Some (FsOptions true true true false)) (Some [DirEntry 0 0]) None None None None None None.

Lemma endless : check_metadata total_bytes image = Ok tt /\ forall fuel, unpack_directories fuel image = Err OutOfFuel.
Proof.
  split; [by vm_compute|]. intros fuel. unfold unpack_directories. cbn -[recover_parents partial_sum].
  by rewrite (recover_parents_endless (DirEntry 0 0) fuel).
Qed.
End EndlessExample.
