(* ===== verification/EntryTree.v ===== *)
(** * EntryTree: the tree of entries the scanner finds, and its tables

    [entry] and its subclasses ([src/writer/internal/entry.cpp]), the visitors
    of [src/writer/scanner.cpp] that number the inodes and collect names,
    [global_entry_data] ([src/writer/internal/global_entry_data.cpp]) and
    [gather_entries] of [src/writer/internal/metadata_builder.cpp].

    An entry is an object that others point to: it has an identity, and what
    is set of it later (its inode number, its index among the directory
    entries) is kept in maps by identity.  Hard links share their [data]
    object, which has the inode number.  Times, and the sizes of progress, are
    left out. *)

From stdpp Require Import sorting.
From S2P Require Import Prelude Metadata MetadataReader.
Local Open Scope Z_scope.

#[local] Abbreviation checked := (result metadata_error).

(** ** [entry], [file], [dir], [link], [device] *)

(** What of [file_stat] is packed. *)
Record entry_stat : Type := EntryStat { es_mode : Z; es_uid : Z; es_gid : Z; es_rdev : Z }.

(** The members of [entry]; [e_parent] is the weak pointer to the parent. *)
Record entry_head : Type := EntryHead {
  e_id : nat;
  e_name : list Z;
  e_parent : option nat;
  e_stat : entry_stat
}.

Inductive entry : Type :=
  | File (e : entry_head) (data : nat)
  | Dir (e : entry_head) (entries : list entry)
  | Link (e : entry_head) (linkname : list Z)
  | Device (e : entry_head).

Definition head (n : entry) : entry_head :=
  match n with File e _ => e | Dir e _ => e | Link e _ => e | Device e => e end.

Definition has_parent (e : entry_head) : bool := match e_parent e with Some _ => true | None => false end.

(** [device::type]: character and block devices, and everything else. *)
Definition is_device_type (e : entry_head) : bool :=
  let t := file_type (es_mode (e_stat e)) in (t =? S_IFCHR) || (t =? S_IFBLK).

(** The order of [dir::sort]. *)
Definition name_le (a b : entry) : Prop := bytes_lt (e_name (head b)) (e_name (head a)) = false.

#[global] Instance name_le_dec : RelDecision name_le.
Proof. intros a b. unfold name_le. apply _. Defined.

(** Every directory sorted.  [dir_set_inode_visitor] sorts a directory when it
    visits it, before its entries; the order is that of the names, so that all
    directories may as well be sorted first. *)
Fixpoint sort_tree (n : entry) : entry :=
  match n with
  | Dir e entries => Dir e (merge_sort name_le (map sort_tree entries))
  | n => n
  end.

(** ** [entry_visitor], [accept], [walk] *)

Record entry_visitor (S : Type) : Type := EntryVisitor {
  visit_file : entry_head -> nat -> S -> checked S;
  visit_dir : entry_head -> list entry -> S -> checked S;
  visit_link : entry_head -> list Z -> S -> checked S;
  visit_device : entry_head -> S -> checked S
}.
Arguments EntryVisitor {S}.
Arguments visit_file {S}.
Arguments visit_dir {S}.
Arguments visit_link {S}.
Arguments visit_device {S}.

Definition visit {S} (v : entry_visitor S) (n : entry) (s : S) : checked S :=
  match n with
  | File e data => visit_file v e data s
  | Dir e entries => visit_dir v e entries s
  | Link e linkname => visit_link v e linkname s
  | Device e => visit_device v e s
  end.

Fixpoint foldR {A S} (f : A -> S -> checked S) (l : list A) (s : S) : checked S :=
  match l with
  | [] => Ok s
  | x :: l => let? s := f x s in foldR f l s
  end.

Fixpoint accept {S} (v : entry_visitor S) (preorder : bool) (n : entry) (s : S) : checked S :=
  match n with
  | Dir e entries =>
      let? s := if preorder then visit_dir v e entries s else Ok s in
      let? s := foldR (accept v preorder) entries s in
      if preorder then Ok s else visit_dir v e entries s
  | n => visit v n s
  end.

Fixpoint walk_entries {S} (f : entry -> S -> checked S) (n : entry) (s : S) : checked S :=
  let? s := f n s in
  match n with
  | Dir _ entries => foldR (walk_entries f) entries s
  | _ => Ok s
  end.

(** ** Numbering the inodes *)

(** The inode numbers by identity, and the next number. *)
Record numbering : Type := Numbering { inode_nums : gmap nat Z; next_inode_num : Z }.

Definition set_inode_num (id : nat) (s : numbering) : numbering :=
  Numbering (<[id := next_inode_num s]> (inode_nums s)) (wrapu 32 (next_inode_num s + 1)).

Definition skip_entry {A S} (_ : entry_head) (_ : A) (s : S) : checked S := Ok s.
Definition skip_device {S} (_ : entry_head) (s : S) : checked S := Ok s.

Definition dir_set_inode_visitor : entry_visitor numbering :=
  EntryVisitor skip_entry (fun e _ s => Ok (set_inode_num (e_id e) s)) skip_entry skip_device.

Definition link_set_inode_visitor : entry_visitor numbering :=
  EntryVisitor skip_entry skip_entry (fun e _ s => Ok (set_inode_num (e_id e) s)) skip_device.

(** With the ids of the devices. *)
Definition device_set_inode_visitor : entry_visitor (numbering * list Z) :=
  EntryVisitor skip_entry skip_entry skip_entry
    (fun e '(s, dev_ids) =>
       Ok (if is_device_type e then (set_inode_num (e_id e) s, dev_ids ++ [es_rdev (e_stat e)]) else (s, dev_ids))).

Definition pipe_set_inode_visitor : entry_visitor numbering :=
  EntryVisitor skip_entry skip_entry skip_entry
    (fun e s => Ok (if is_device_type e then s else set_inode_num (e_id e) s)).

(** ** [global_entry_data] *)

(** What of [metadata_options] decides about the tables.  The chain of
    transformers of permissions is given by its functions. *)
Record writer_options : Type := WriterOptions {
  wo_uid : option Z;
  wo_gid : option Z;
  pack_chunk_table : bool;
  pack_directories : bool;
  pack_shared_files_table : bool;
  plain_names_table : bool;
  pack_names : bool;
  pack_names_index : bool;
  force_pack_string_tables : bool;
  plain_symlinks_table : bool;
  pack_symlinks : bool;
  pack_symlinks_index : bool;
  no_hardlink_table : bool;
  inode_size_cache_min_chunk_count : Z;
  chmod_chain : list (Z -> bool -> option Z)
}.

Record global_entry_data : Type := GlobalEntryData {
  ge_uids : gmap Z Z; ge_next_uid_index : Z;
  ge_gids : gmap Z Z; ge_next_gid_index : Z;
  ge_modes : gmap Z Z; ge_next_mode_index : Z;
  ge_names : gmap (list Z) Z;
  ge_symlinks : gmap (list Z) Z
}.

Definition empty_entry_data : global_entry_data := GlobalEntryData ∅ 0 ∅ 0 ∅ 0 ∅ ∅.

(** [add]: the map and the next index. *)
Definition add_index (val : Z) (m : gmap Z Z) (next_index : Z) : gmap Z Z * Z :=
  match m !! val with
  | Some _ => (m, next_index)
  | None => (<[val := next_index]> m, wrapu 32 (next_index + 1))
  end.

Definition add_uid (options : writer_options) (uid : Z) (g : global_entry_data) : global_entry_data :=
  match wo_uid options with
  | Some _ => g
  | None =>
      let '(m, n) := add_index uid (ge_uids g) (ge_next_uid_index g) in
      GlobalEntryData m n (ge_gids g) (ge_next_gid_index g) (ge_modes g) (ge_next_mode_index g) (ge_names g) (ge_symlinks g)
  end.

Definition add_gid (options : writer_options) (gid : Z) (g : global_entry_data) : global_entry_data :=
  match wo_gid options with
  | Some _ => g
  | None =>
      let '(m, n) := add_index gid (ge_gids g) (ge_next_gid_index g) in
      GlobalEntryData (ge_uids g) (ge_next_uid_index g) m n (ge_modes g) (ge_next_mode_index g) (ge_names g) (ge_symlinks g)
  end.

Definition add_mode (mode : Z) (g : global_entry_data) : global_entry_data :=
  let '(m, n) := add_index mode (ge_modes g) (ge_next_mode_index g) in
  GlobalEntryData (ge_uids g) (ge_next_uid_index g) (ge_gids g) (ge_next_gid_index g) m n (ge_names g) (ge_symlinks g).

(** [emplace(key, 0)]. *)
Definition emplace_key (key : list Z) (m : gmap (list Z) Z) : gmap (list Z) Z :=
  match m !! key with Some _ => m | None => <[key := 0]> m end.

Definition set_names (m : gmap (list Z) Z) (g : global_entry_data) : global_entry_data :=
  GlobalEntryData (ge_uids g) (ge_next_uid_index g) (ge_gids g) (ge_next_gid_index g) (ge_modes g) (ge_next_mode_index g) m (ge_symlinks g).
Definition set_symlinks (m : gmap (list Z) Z) (g : global_entry_data) : global_entry_data :=
  GlobalEntryData (ge_uids g) (ge_next_uid_index g) (ge_gids g) (ge_next_gid_index g) (ge_modes g) (ge_next_mode_index g) (ge_names g) m.

Definition add_name (name : list Z) (g : global_entry_data) : global_entry_data := set_names (emplace_key name (ge_names g)) g.
Definition add_link (link : list Z) (g : global_entry_data) : global_entry_data := set_symlinks (emplace_key link (ge_symlinks g)) g.

Definition bytes_le (a b : list Z) : Prop := bytes_lt b a = false.

#[global] Instance bytes_le_dec : RelDecision bytes_le.
Proof. intros a b. unfold bytes_le. apply _. Defined.

(** The loop of [index_map] over the sorted keys. *)
Fixpoint number_keys (keys : list (list Z)) (ix : Z) (m : gmap (list Z) Z) : gmap (list Z) Z :=
  match keys with
  | [] => m
  | k :: keys => number_keys keys (wrapu 32 (ix + 1)) (<[k := ix]> m)
  end.

Definition index_map (m : gmap (list Z) Z) : gmap (list Z) Z :=
  number_keys (merge_sort bytes_le (map_to_list m).*1) 0 m.

Definition index_data (g : global_entry_data) : global_entry_data :=
  set_symlinks (index_map (ge_symlinks g)) (set_names (index_map (ge_names g)) g).

Definition second_le {K} (a b : K * Z) : Prop := a.2 <= b.2.

#[global] Instance second_le_dec {K} : RelDecision (@second_le K).
Proof. intros a b. unfold second_le. apply _. Defined.

(** The keys in the order of their indices. *)
Definition get_vector {K} `{Countable K} (m : gmap K Z) : list K := (merge_sort second_le (map_to_list m)).*1.

Definition nothrow {A} (x : option A) : checked A :=
  match x with Some a => Ok a | None => Err (Terminated "DWARFS_NOTHROW") end.

Definition get_name_index (g : global_entry_data) (name : list Z) : checked Z := nothrow (ge_names g !! name).
Definition get_symlink_table_entry (g : global_entry_data) (link : list Z) : checked Z := nothrow (ge_symlinks g !! link).

Definition names_and_symlinks_visitor : entry_visitor global_entry_data :=
  EntryVisitor
    (fun e _ g => Ok (add_name (e_name e) g))
    (fun e _ g => Ok (if has_parent e then add_name (e_name e) g else g))
    (fun e link g => Ok (add_link link (add_name (e_name e) g)))
    (fun e g => Ok (add_name (e_name e) g)).

(** [entry::update]. *)
Definition update_data (options : writer_options) (e : entry_head) (g : global_entry_data) : global_entry_data :=
  add_mode (es_mode (e_stat e)) (add_gid options (es_gid (e_stat e)) (add_uid options (es_uid (e_stat e)) g)).

Definition pack_inode_stat (options : writer_options) (g : global_entry_data) (st : entry_stat) (ino : inode_data) : checked inode_data :=
  let? mode := nothrow (ge_modes g !! es_mode st) in
  let? owner := match wo_uid options with Some _ => Ok 0 | None => nothrow (ge_uids g !! es_uid st) end in
  let? group := match wo_gid options with Some _ => Ok 0 | None => nothrow (ge_gids g !! es_gid st) end in
  Ok (InodeData mode owner group (nlink_minus_one ino) (name_index_v2_2 ino) (inode_v2_2 ino)).

(** ** Directories and their entries *)

(** The objects a [dir*] points to, by the inode number. *)
Definition directory_slots : Type := list (option (entry_head * list entry)).

(** [save_directories_visitor]. *)
Definition save_directories_visitor (nums : gmap nat Z) : entry_visitor directory_slots :=
  EntryVisitor skip_entry
    (fun e entries dirs =>
       match nums !! e_id e with
       | None => Err (Thrown "bad_optional_access")
       | Some n => if (0 <=? n) && (n <? zlen dirs) then Ok (<[Z.to_nat n := Some (e, entries)]> dirs) else Err (Thrown "out_of_range")
       end)
    skip_entry skip_device.

(** The tables [gather_entries] fills, and the indices set in the entries. *)
Record entry_tables : Type := EntryTables {
  tb_directories : list directory;
  tb_inodes : list inode_data;
  tb_entries : list dir_entry;
  tb_index : gmap nat Z
}.

Section gathering.
(** The inode numbers of directories, links and devices, and those of files by
    their data. *)
Context (options : writer_options) (g : global_entry_data) (nums data_nums : gmap nat Z).

Definition entry_inode_num (n : entry) : option Z :=
  match n with
  | File _ data => data_nums !! data
  | n => nums !! e_id (head n)
  end.

Definition set_entry_index (id : nat) (t : entry_tables) : entry_tables :=
  EntryTables (tb_directories t) (tb_inodes t) (tb_entries t) (<[id := zlen (tb_entries t)]> (tb_index t)).

(** The end of [pack_entry] and the body of the loop of [pack]: an entry is
    appended and its inode packed. *)
Definition push_entry (name_index num : Z) (st : entry_stat) (t : entry_tables) : checked entry_tables :=
  let? ino := if num <? 0 then Err (Terminated "out_of_range") else nothrow (tb_inodes t !! Z.to_nat num) in
  let? ino := pack_inode_stat options g st ino in
  Ok (EntryTables (tb_directories t) (<[Z.to_nat num := ino]> (tb_inodes t)) (tb_entries t ++ [DirEntry name_index num]) (tb_index t)).

(** [dir::pack_entry]. *)
Definition pack_entry (e : entry_head) (t : entry_tables) : checked entry_tables :=
  let? name_index := if has_parent e then get_name_index g (e_name e) else Ok 0 in
  let? num := nothrow (nums !! e_id e) in
  push_entry name_index num (e_stat e) t.

(** The loop of [dir::pack]. *)
Definition pack_child (n : entry) (t : entry_tables) : checked entry_tables :=
  let t := set_entry_index (e_id (head n)) t in
  let? name_index := get_name_index g (e_name (head n)) in
  let? num := nothrow (entry_inode_num n) in
  push_entry name_index num (e_stat (head n)) t.

(** [dir::pack]. *)
Definition pack_dir (e : entry_head) (entries : list entry) (t : entry_tables) : checked entry_tables :=
  let? parent := match e_parent e with
                 | None => Ok 0
                 | Some p => match tb_index t !! p with Some i => Ok i | None => Err (Terminated "parent entry index not set") end
                 end in
  let first := zlen (tb_entries t) in
  let? self := match tb_index t !! e_id e with Some i => Ok i | None => Err (Terminated "self entry index not set") end in
  foldR pack_child entries
    (EntryTables (tb_directories t ++ [Directory parent first self]) (tb_inodes t) (tb_entries t) (tb_index t)).

Definition gather_dir (p : option (entry_head * list entry)) (t : entry_tables) : checked entry_tables :=
  let? '(e, entries) := there p in
  let? t := if has_parent e then Ok t else pack_entry e (set_entry_index (e_id e) t) in
  pack_dir e entries t.

Definition gather_entries (dirs : directory_slots) (num_inodes : Z) : checked entry_tables :=
  let? t := foldR gather_dir dirs (EntryTables [] (replicate (Z.to_nat num_inodes) (InodeData 0 0 0 0 0 0)) [] ∅) in
  Ok (EntryTables (tb_directories t ++ [Directory 0 (zlen (tb_entries t)) 0]) (tb_inodes t) (tb_entries t) (tb_index t)).
End gathering.
