(* ===== verification/MetadataBuilder.v ===== *)
(** * MetadataBuilder: from the tree of entries to the metadata

    What [scanner_::scan] of [src/writer/scanner.cpp] does with the tree of
    entries, and [metadata_builder_] of [src/writer/internal/metadata_builder.cpp].
    The functions of the FSST library are parameters, and so is the file
    scanner, which numbers the files.  Left out are time stamps, categories, the
    totals of the file system, and the metadata of an older image that is
    changed. *)

From S2P Require Import Prelude FileChunks PackedInts StringTable Metadata MetadataReader EntryTree.
Local Open Scope Z_scope.

#[local] Abbreviation checked := (result metadata_error).

Definition bad_optional_access {A} (x : option A) : checked A :=
  match x with Some a => Ok a | None => Err (Thrown "bad_optional_access") end.

(** ** [scanner_::scan]: inode numbers *)

(** What [file_scanner::finalize] assigns: inode numbers to the data of files,
    and to the data the number of the inode object, which is shared by files
    with the same content. *)
Record file_numbers : Type := FileNumbers {
  file_inode_nums : gmap nat Z;
  unique_file_ids : gmap nat Z;
  num_unique : Z
}.

Record assigned : Type := Assigned {
  as_nums : gmap nat Z;
  as_files : file_numbers;
  as_devices : list Z;
  first_link_inode : Z;
  first_file_inode : Z;
  first_device_inode : Z;
  last_inode : Z
}.

Definition assign_inodes (finalize : Z -> checked (Z * file_numbers)) (root : entry) : checked assigned :=
  let? s1 := accept dir_set_inode_visitor true root (Numbering ∅ 0) in
  let? s2 := accept link_set_inode_visitor true root s1 in
  let? '(first_device, files) := finalize (next_inode_num s2) in
  let? '(s3, devices) := accept device_set_inode_visitor false root (Numbering (inode_nums s2) first_device, []) in
  let? s4 := accept pipe_set_inode_visitor false root s3 in
  Ok (Assigned (inode_nums s4) files devices (next_inode_num s1) (next_inode_num s2) first_device (next_inode_num s4)).

(** ** [scanner_::scan]: names, symlinks and shared files *)

(** [add_symlink_table_entry]. *)
Definition add_symlink_table_entry (index entry : Z) (table : list Z) : checked (list Z) :=
  if (0 <=? index) && (index <? zlen table) then Ok (<[Z.to_nat index := entry]> table) else Err (Terminated "DWARFS_NOTHROW").

(** The function the tree is walked with. *)
Definition update_entry (options : writer_options) (a : assigned) (n : entry) (s : global_entry_data * list Z) :
    checked (global_entry_data * list Z) :=
  let '(g, table) := s in
  let g := update_data options (head n) g in
  match n with
  | Link e linkname =>
      let? num := bad_optional_access (as_nums a !! e_id e) in
      let? ix := get_symlink_table_entry g linkname in
      let? table := add_symlink_table_entry (wrapu 32 (num - first_link_inode a)) ix table in
      Ok (g, table)
  | _ => Ok (g, table)
  end.

(** The job that saves names and symlinks. *)
Definition save_names_and_symlinks (options : writer_options) (a : assigned) (root : entry) : checked (global_entry_data * list Z) :=
  let? g := accept names_and_symlinks_visitor false root empty_entry_data in
  walk_entries (update_entry options a) root
    (index_data g, replicate (Z.to_nat (wrapu 32 (first_file_inode a - first_link_inode a))) 0).

(** [save_shared_files_visitor]. *)
Definition save_shared_files_visitor (files : file_numbers) (begin_shared : Z) : entry_visitor (list Z) :=
  EntryVisitor
    (fun e data shared_files =>
       let? ino := bad_optional_access (file_inode_nums files !! data) in
       if begin_shared <=? ino then
         let? ufi := match unique_file_ids files !! data with Some i => Ok i | None => Err (Terminated "inode number is not set") end in
         dwarfs_check (num_unique files <=? ufi) "inconsistent file id" ;;?
         add_symlink_table_entry (ino - begin_shared) (ufi - num_unique files) shared_files
       else Ok shared_files)
    skip_entry skip_entry skip_device.

Definition save_shared_files (a : assigned) (root : entry) : checked (list Z) :=
  let begin_shared := wrapu 32 (first_file_inode a + num_unique (as_files a)) in
  dwarfs_check (num_unique (as_files a) <=? wrapu 32 (first_device_inode a - first_file_inode a)) "inconsistent file count" ;;?
  accept (save_shared_files_visitor (as_files a) begin_shared) false root
    (replicate (Z.to_nat (wrapu 32 (first_device_inode a - begin_shared))) 0).

(** [save_directories_visitor] and [gather_entries]. *)
Definition save_entries (options : writer_options) (a : assigned) (g : global_entry_data) (root : entry) : checked entry_tables :=
  let? dirs := accept (save_directories_visitor (as_nums a)) false root (replicate (Z.to_nat (first_link_inode a)) None) in
  gather_entries options g (as_nums a) (file_inode_nums (as_files a)) dirs (last_inode a).

(** ** [metadata_builder_] *)

Definition kPermissionsMask : Z := 0xFFF.

(** The chain of transformers on the permissions. *)
Definition apply_chain (chain : list (Z -> bool -> option Z)) (permissions : Z) (is_dir : bool) : Z :=
  foldl (fun p f => default p (f p is_dir)) permissions chain.

Definition transform_mode (chain : list (Z -> bool -> option Z)) (mode : Z) : Z :=
  Z.lor (Z.land mode (Z.lxor (2 ^ 32 - 1) kPermissionsMask))
    (apply_chain chain (Z.land mode kPermissionsMask) (file_type mode =? S_IFDIR)).

Definition set_mode_index (ix : Z) (ino : inode_data) : inode_data :=
  InodeData ix (owner_index ino) (group_index ino) (nlink_minus_one ino) (name_index_v2_2 ino) (inode_v2_2 ino).

(** The loop of [apply_chmod]: the modes found and their indices. *)
Fixpoint chmod_inodes (chain : list (Z -> bool -> option Z)) (modes : list Z) (inodes : list inode_data)
    (new_modes : list Z) (index_map : gmap Z Z) : checked (list inode_data * list Z) :=
  match inodes with
  | [] => Ok ([], new_modes)
  | ino :: inodes =>
      let? mode := match (if mode_index ino <? 0 then None else modes !! Z.to_nat (mode_index ino)) with
                   | Some m => Ok m
                   | None => Err (Thrown "out_of_range")
                   end in
      let new_mode := transform_mode chain mode in
      let '(ix, new_modes, index_map) :=
        match index_map !! new_mode with
        | Some ix => (ix, new_modes, index_map)
        | None => (zlen new_modes, new_modes ++ [new_mode], <[new_mode := zlen new_modes]> index_map)
        end in
      let? '(inodes, new_modes) := chmod_inodes chain modes inodes new_modes index_map in
      Ok (set_mode_index ix ino :: inodes, new_modes)
  end.

Definition apply_chmod (options : writer_options) (modes : list Z) (inodes : list inode_data) : checked (list inode_data * list Z) :=
  match chmod_chain options with
  | [] => Ok (inodes, modes)
  | chain => chmod_inodes chain modes inodes [] ∅
  end.

Definition set_nlink (n : Z) (ino : inode_data) : inode_data :=
  InodeData (mode_index ino) (owner_index ino) (group_index ino) n (name_index_v2_2 ino) (inode_v2_2 ino).

Definition add_nlink (k : Z) (ino : inode_data) : inode_data := set_nlink (wrapu 32 (nlink_minus_one ino + k)) ino.

(** The loops of [update_nlink]: over the entries, over the inodes of files. *)
Fixpoint count_entries (reg_offset dev_offset : Z) (entries : list dir_entry) (inodes : list inode_data) : list inode_data :=
  match entries with
  | [] => inodes
  | de :: entries =>
      count_entries reg_offset dev_offset entries
        (if (reg_offset <=? inode_num de) && (inode_num de <? dev_offset)
         then alter (add_nlink 1) (Z.to_nat (inode_num de)) inodes else inodes)
  end.

Definition update_nlink (options : writer_options) (meta : fs_metadata) : checked (list inode_data) :=
  match md_inodes meta with
  | [] => Ok []
  | inodes =>
      if no_hardlink_table options then Ok (map (set_nlink 0) inodes)
      else
        let? dev_offset := find_inode_rank_offset meta INO_DEV in
        let? reg_offset := find_inode_rank_offset meta INO_REG in
        if reg_offset <? dev_offset then
          let? entries := there (md_dir_entries meta) in
          let inodes := count_entries reg_offset dev_offset entries inodes in
          Ok (foldl (fun inodes i => alter (add_nlink (-1)) (Z.to_nat i) inodes) inodes
                (seqZ reg_offset (dev_offset - reg_offset)))
        else Ok inodes
  end.

(** *** [update_totals_and_size_cache] *)

Definition emplace (k v : Z) (m : gmap Z Z) : gmap Z Z := match m !! k with Some _ => m | None => <[k := v]> m end.

Definition cache_size (index : Z) (info : Z * Z * Z) (cache : inode_size_cache) : inode_size_cache :=
  let '(num_chunks, size, allocated) := info in
  if min_chunk_count cache <=? num_chunks then
    InodeSizeCache (emplace index size (size_lookup cache)) (min_chunk_count cache)
      (if allocated =? size then allocated_size_lookup cache else emplace index allocated (allocated_size_lookup cache))
  else cache.

(** The inner loop: past the other files with the same target. *)
Fixpoint skip_shared (target : Z) (shared : list Z) : nat :=
  match shared with
  | t :: shared => if t =? target then S (skip_shared target shared) else O
  | [] => O
  end.

(** The loop over the inodes of files, [n] of which are unique; [i] counts from
    the first one, up to [fuel] more.  [at] on the shared files throws. *)
Fixpoint cache_sizes (fuel : nat) (files : FileChunks.metadata) (shared : list Z) (n i total : Z) (cache : inode_size_cache) :
    checked inode_size_cache :=
  match fuel with
  | O => Ok cache
  | S fuel =>
      if i <? total then
        let? shared_index :=
          (if n <=? i then match shared !! Z.to_nat (i - n) with Some t => Ok (Some t) | None => Err (Thrown "out_of_range") end
           else Ok None) in
        let index := match shared_index with Some t => wrapu 32 (n + t) | None => i end in
        let? info := there (inode_size_provider_get files index) in
        let cache := cache_size index info cache in
        let next := match shared_index with
                    | Some t => i + 1 + Z.of_nat (skip_shared t (take (Z.to_nat (total - (i + 1))) (drop (Z.to_nat (i + 1 - n)) shared)))
                    | None => i + 1
                    end in
        cache_sizes fuel files shared n next total cache
      else Ok cache
  end.

Definition update_size_cache (options : writer_options) (meta : fs_metadata) : checked (option inode_size_cache) :=
  let? dev_offset := find_inode_rank_offset meta INO_DEV in
  let? reg_offset := find_inode_rank_offset meta INO_REG in
  if reg_offset <? dev_offset then
    let? shared := there (md_shared_files_table meta) in
    let total := dev_offset - reg_offset in
    let num_unique_files := wrapu 64 (total - zlen shared) in
    let? cache := cache_sizes (Z.to_nat total) (md_files meta) shared num_unique_files 0 total
                    (InodeSizeCache ∅ (inode_size_cache_min_chunk_count options) ∅) in
    Ok (Some cache)
  else Ok None.

(** *** [build] *)

(** The loop that packs the directories. *)
Fixpoint pack_directories_from (last_first_entry : Z) (dirs : list directory) : list directory :=
  match dirs with
  | [] => []
  | d :: dirs => Directory 0 (wrapu 32 (first_entry d - last_first_entry)) 0 :: pack_directories_from (first_entry d) dirs
  end.

(** The sentinel keeps its first entry only. *)
Definition fix_sentinel (dirs : list directory) : list directory :=
  alter (set_self 0) (length dirs - 1)%nat dirs.

(** The loop over the shared files: the counts of the indices before [index],
    less two, when [count] files have [index] so far. *)
Fixpoint compress_shared (sf : list Z) (index count : Z) : checked (list Z) :=
  match sf with
  | [] => Ok [wrapu 32 (count - 2)]
  | i :: sf =>
      if i =? index then compress_shared sf index (count + 1)
      else
        dwarfs_check (i =? index + 1) "inconsistent shared files vector" ;;?
        dwarfs_check (2 <=? count) "unique file in shared files vector" ;;?
        let? compressed := compress_shared sf (index + 1) 1 in
        Ok (wrapu 32 (count - 2) :: compressed)
  end.

Definition pack_shared_files (sf : list Z) : checked (list Z) :=
  match last sf with
  | None => Ok []
  | Some back =>
      dwarfs_check (is_sorted sf) "shared files vector not sorted" ;;?
      let? compressed := compress_shared sf 0 0 in
      dwarfs_check (zlen compressed =? back + 1) "unexpected compressed vector size" ;;?
      Ok compressed
  end.

(** The bits the frozen layout has for a field: those the largest value needs. *)
Definition layout_bits (l : list Z) : Z := foldr (fun z n => Z.max (bit_width z) n) 0 l.

Section building.
Context {encoder : Type}.
Context (fsst_create : list (list Z) -> encoder) (fsst_export : encoder -> list Z)
  (fsst_compress : encoder -> list (list Z) -> Z -> list (list Z)).

(** Either the plain strings or their packed table. *)
Definition pack_strings (fuel : nat) (plain : bool) (options : pack_options) (strings : list (list Z)) :
    checked (list (list Z) * option string_table_data) :=
  if plain then Ok (strings, None)
  else match pack_generic fsst_create fsst_export fsst_compress fuel strings options with
       | Some v => Ok ([], Some v)
       | None => Err OutOfFuel
       end.

(** [build], of the metadata gathered, and the layout that is frozen. *)
Definition build (fuel : nat) (options : writer_options) (meta : fs_metadata) : checked fs_metadata :=
  let? inodes := update_nlink options meta in
  let? cache := update_size_cache options meta in
  let directories := if pack_directories options then pack_directories_from 0 (md_directories meta)
                     else fix_sentinel (md_directories meta) in
  let fm := md_files meta in
  let table := if pack_chunk_table options then adjacent_difference (md_chunk_table fm) else md_chunk_table fm in
  let? shared := match md_shared_files_table meta with
                 | None => if pack_shared_files_table options then Err Undefined else Ok None
                 | Some sf => if pack_shared_files_table options then let? sf := pack_shared_files sf in Ok (Some sf) else Ok (Some sf)
                 end in
  let? '(names, compact_names) :=
    pack_strings fuel (plain_names_table options)
      (PackOptions (pack_names options) (pack_names_index options) (force_pack_string_tables options)) (md_names meta) in
  let? '(symlinks, compact_symlinks) :=
    pack_strings fuel (plain_symlinks_table options)
      (PackOptions (pack_symlinks options) (pack_symlinks_index options) (force_pack_string_tables options)) (md_symlinks meta) in
  Ok (FsMetadata (FileChunks.Metadata (md_chunks fm) table (md_block_size fm) (md_hole_block_index fm) (md_large_hole_size fm))
        directories (layout_bits (map self_entry directories)) inodes (md_entry_table_v2_2 meta) (md_symlink_table meta)
        (md_uids meta) (md_gids meta) (md_modes meta) names symlinks (md_devices meta)
        (Some (FsOptions (pack_chunk_table options) (pack_directories options) (pack_shared_files_table options)
                 (negb (no_hardlink_table options))))
        (md_dir_entries meta) shared compact_names compact_symlinks (md_features meta) (Some preferred_separator) cache).

(** *** The whole of [scanner_::scan], from the tree to the metadata *)

(** [md_files] is what [gather_chunks] makes. *)
Definition gather_metadata (options : writer_options) (finalize : Z -> checked (Z * file_numbers)) (files : FileChunks.metadata)
    (root : entry) : checked fs_metadata :=
  let? a := assign_inodes finalize root in
  let? '(g, symlink_table) := save_names_and_symlinks options a root in
  let? t := save_entries options a g root in
  let? shared := save_shared_files a root in
  let? '(inodes, modes) := apply_chmod options (get_vector (ge_modes g)) (tb_inodes t) in
  Ok (FsMetadata files (tb_directories t) 0 inodes [] symlink_table
        (match wo_uid options with Some uid => [uid] | None => get_vector (ge_uids g) end)
        (match wo_gid options with Some gid => [gid] | None => get_vector (ge_gids g) end)
        modes (get_vector (ge_names g)) (get_vector (ge_symlinks g)) (Some (as_devices a)) None (Some (tb_entries t)) (Some shared)
        None None (Some (match md_hole_block_index files with Some _ => ["sparsefiles"%string] | None => [] end)) None None).

Definition scan (fuel : nat) (options : writer_options) (finalize : Z -> checked (Z * file_numbers)) (files : FileChunks.metadata)
    (root : entry) : checked fs_metadata :=
  let? meta := gather_metadata options finalize files (sort_tree root) in build fuel options meta.
End building.
