(* ===== verification/EntryLists.v ===== *)
(** * EntryLists: traversals of the tree of entries as lists

    What the visitors, the walks and the numbering of [EntryTree] do, in terms
    of the list of the entries of a tree in preorder. *)

From stdpp Require Import sorting.
From S2P Require Import Prelude Metadata MetadataReader EntryTree.
Local Open Scope Z_scope.

#[local] Abbreviation checked := (result metadata_error).

(** ** Induction over entries, and the entries in order *)

Lemma entry_nested_ind (P : entry -> Prop) :
  (forall e data, P (File e data)) -> (forall e entries, Forall P entries -> P (Dir e entries)) ->
  (forall e linkname, P (Link e linkname)) -> (forall e, P (Device e)) -> forall n, P n.
Proof.
  intros Hf Hd Hl Hv. fix IH 1. intros [e data|e entries|e linkname|e]; [apply Hf| |apply Hl|apply Hv].
  apply Hd. induction entries as [|n entries IHl]; [constructor|]. constructor; [apply IH|exact IHl].
Qed.

Definition children (n : entry) : list entry := match n with Dir _ entries => entries | _ => [] end.

Fixpoint preorder (n : entry) : list entry :=
  n :: match n with Dir _ entries => concat (map preorder entries) | _ => [] end.

Fixpoint postorder (n : entry) : list entry :=
  match n with Dir _ entries => concat (map postorder entries) ++ [n] | n => [n] end.

Definition eid (n : entry) : nat := e_id (head n).

Lemma preorder_eq n : preorder n = n :: concat (map preorder (children n)).
Proof. by destruct n. Qed.

Lemma postorder_eq n : postorder n = concat (map postorder (children n)) ++ [n].
Proof. by destruct n. Qed.

Lemma concat_map_Permutation {A B} (f g : A -> list B) l : Forall (fun x => f x ≡ₚ g x) l -> concat (map f l) ≡ₚ concat (map g l).
Proof. induction 1 as [|x l Hx _ IH]; [done|]. cbn. by rewrite Hx, IH. Qed.

Lemma postorder_preorder n : postorder n ≡ₚ preorder n.
Proof.
  induction n as [e data|e entries IH|e linkname|e] using entry_nested_ind; [done| |done|done].
  cbn. rewrite (concat_map_Permutation _ _ _ IH). symmetry. apply Permutation_cons_append.
Qed.

Lemma preorder_self n : n ∈ preorder n.
Proof. rewrite preorder_eq. by left. Qed.

Lemma elem_of_concat_map {A B} (f : A -> list B) l y : y ∈ concat (map f l) <-> exists x, x ∈ l /\ y ∈ f x.
Proof.
  induction l as [|x l IH]; cbn; [split; [by intros ?%elem_of_nil|by intros (? & ?%elem_of_nil & _)]|].
  rewrite elem_of_app, IH. split.
  - intros [H|(z & H1 & H2)]; [exists x; split; [by left|done]|exists z; split; [by right|done]].
  - intros (z & Hz & H). apply elem_of_cons in Hz as [->|Hz]; [by left|right; eauto].
Qed.

Lemma preorder_child n m c : m ∈ preorder n -> c ∈ children m -> c ∈ preorder n.
Proof.
  revert m. induction n as [e data|e entries IH|e linkname|e] using entry_nested_ind; intros m Hm Hc.
  1, 3, 4: cbn in Hm; apply list_elem_of_singleton in Hm as ->; by apply elem_of_nil in Hc.
  rewrite preorder_eq in *. cbn [children] in *. apply elem_of_cons in Hm as [->|Hm]; right.
  - apply elem_of_concat_map. exists c. split; [done|apply preorder_self].
  - apply elem_of_concat_map in Hm as (x & Hx & Hm). apply elem_of_concat_map. exists x. split; [done|].
    rewrite Forall_forall in IH. by eapply IH.
Qed.

(** ** Visitors, as folds *)

Lemma foldR_app {A S} (f : A -> S -> checked S) l1 l2 s : foldR f (l1 ++ l2) s = rbind (foldR f l1 s) (foldR f l2).
Proof. revert s. induction l1 as [|x l1 IH]; intros s; [done|]. cbn. destruct (f x s) as [s'|]; cbn; [apply IH|done]. Qed.

Lemma foldR_concat_map {A B S} (f : A -> S -> checked S) (g : B -> S -> checked S) (h : B -> list A) l s :
  Forall (fun x => forall s, g x s = foldR f (h x) s) l -> foldR g l s = foldR f (concat (map h l)) s.
Proof.
  intros H. revert s. induction H as [|x l Hx _ IH]; intros s; [done|]. cbn. rewrite foldR_app, Hx.
  destruct (foldR f (h x) s) as [s'|]; cbn; [apply IH|done].
Qed.

Lemma accept_preorder {S} (v : entry_visitor S) n s : accept v true n s = foldR (visit v) (preorder n) s.
Proof.
  revert s. induction n as [e data|e entries IH|e linkname|e] using entry_nested_ind; intros s; cbn.
  1, 3, 4: match goal with |- ?x = _ => by destruct x end.
  destruct (visit_dir v e entries s) as [s'|]; cbn; [|done]. rewrite (foldR_concat_map (visit v) _ preorder) by done.
  by destruct (foldR _ _ _).
Qed.

Lemma accept_postorder {S} (v : entry_visitor S) n s : accept v false n s = foldR (visit v) (postorder n) s.
Proof.
  revert s. induction n as [e data|e entries IH|e linkname|e] using entry_nested_ind; intros s; cbn.
  1, 3, 4: match goal with |- ?x = _ => by destruct x end.
  rewrite (foldR_concat_map (visit v) _ postorder) by done. rewrite foldR_app. destruct (foldR _ _ _) as [s'|]; cbn; [|done].
  by destruct (visit_dir v e entries s').
Qed.

Lemma walk_entries_preorder {S} (f : entry -> S -> checked S) n s : walk_entries f n s = foldR f (preorder n) s.
Proof.
  revert s. induction n as [e data|e entries IH|e linkname|e] using entry_nested_ind; intros s; cbn; [done| |done|done].
  destruct (f (Dir e entries) s) as [s'|]; cbn; [|done]. by apply foldR_concat_map.
Qed.

(** A fold whose steps do not fail. *)
Lemma foldR_pure {A S} (f : A -> S -> checked S) (g : A -> S -> S) l s :
  (forall x s, f x s = Ok (g x s)) -> foldR f l s = Ok (foldl (fun s x => g x s) s l).
Proof. intros H. revert s. induction l as [|x l IH]; intros s; [done|]. cbn. rewrite H. cbn. apply IH. Qed.

(** An invariant of a fold. *)
Lemma foldR_ind {A S} (f : A -> S -> checked S) (P : list A -> S -> Prop) l s :
  P [] s -> (forall l1 x l2 s, l = l1 ++ x :: l2 -> P l1 s -> exists s', f x s = Ok s' /\ P (l1 ++ [x]) s') ->
  exists s', foldR f l s = Ok s' /\ P l s'.
Proof.
  intros H0 Hs. enough (forall l2 l1 s, l = l1 ++ l2 -> P l1 s -> exists s', foldR f l2 s = Ok s' /\ P (l1 ++ l2) s') as H by (by apply (H l [])).
  induction l2 as [|x l2 IH]; intros l1 s1 -> H1; [rewrite app_nil_r; by exists s1|].
  destruct (Hs l1 x l2 s1 eq_refl H1) as (s2 & E & H2). cbn. rewrite E. cbn.
  destruct (IH (l1 ++ [x]) s2) as (s3 & E3 & H3); [by rewrite <- app_assoc|done|]. exists s3. split; [done|].
  by rewrite <- app_assoc in H3.
Qed.

(** ** Directories, and entries in the order of the entry table *)

Definition dir_of (n : entry) : option (entry_head * list entry) :=
  match n with Dir e entries => Some (e, entries) | _ => None end.

(** In the order of their inode numbers. *)
Definition dirs_of (n : entry) : list (entry_head * list entry) := omap dir_of (preorder n).

(** The root, then the entries of each directory. *)
Definition entries_of (n : entry) : list entry := n :: concat (map snd (dirs_of n)).

Lemma omap_concat {A B} (f : A -> option B) (l : list (list A)) : omap f (concat l) = concat (map (omap f) l).
Proof. induction l as [|x l IH]; [done|]. cbn. by rewrite omap_app, IH. Qed.

Lemma dirs_of_eq n : dirs_of n = match dir_of n with Some d => [d] | None => [] end ++ concat (map dirs_of (children n)).
Proof.
  unfold dirs_of. rewrite preorder_eq. cbn [omap list_omap]. rewrite omap_concat, map_map. by destruct (dir_of n).
Qed.

Lemma concat_map_concat {A B} (f : A -> B) (l : list (list A)) : concat (map (map f) l) = map f (concat l).
Proof. symmetry. apply concat_map. Qed.

Lemma concat_map_map_concat {A B} (f : A -> list (list B)) (l : list A) :
  concat (concat (map f l)) = concat (map (fun x => concat (f x)) l).
Proof. induction l as [|x l IH]; [done|]. cbn. by rewrite concat_app, IH. Qed.

Lemma concat_map_cons {A B} (f : A -> B) (g : A -> list B) (l : list A) :
  concat (map (fun x => f x :: g x) l) ≡ₚ map f l ++ concat (map g l).
Proof.
  induction l as [|x l IH]; [done|]. cbn. rewrite IH. constructor. rewrite !app_assoc. by rewrite (Permutation_app_comm (g x)).
Qed.

Lemma entries_preorder n : entries_of n ≡ₚ preorder n.
Proof.
  induction n as [e data|e entries IH|e linkname|e] using entry_nested_ind; [done| |done|done].
  rewrite preorder_eq. unfold entries_of. rewrite dirs_of_eq. cbn [dir_of children app map snd concat]. constructor.
  rewrite <- (concat_map_Permutation _ _ _ IH). unfold entries_of. rewrite concat_map_cons, map_id.
  rewrite <- concat_map_concat, concat_map_map_concat, map_map. done.
Qed.

Lemma elem_of_entries n m : m ∈ entries_of n <-> m ∈ preorder n.
Proof. by rewrite entries_preorder. Qed.

(** Every directory but the root is an entry of a directory before it. *)
Lemma dirs_of_parent n i e entries : dirs_of n !! i = Some (e, entries) ->
  (i = O /\ n = Dir e entries) \/ exists j d, (j < i)%nat /\ dirs_of n !! j = Some d /\ Dir e entries ∈ d.2.
Proof.
  revert i. induction n as [e' data|e' entries' IH|e' linkname|e'] using entry_nested_ind; intros i; try done.
  rewrite dirs_of_eq. cbn [dir_of children app]. destruct i as [|i]; cbn [lookup list_lookup].
  { intros [= -> ->]. by left. }
  intros Hi. right. revert i Hi. rewrite Forall_forall in IH.
  enough (forall l1 l2 i, entries' = l1 ++ l2 -> concat (map dirs_of l2) !! i = Some (e, entries) ->
    (Dir e entries ∈ l2) \/ exists j d, (j < i)%nat /\ concat (map dirs_of l2) !! j = Some d /\ Dir e entries ∈ d.2) as H.
  { intros i Hi. destruct (H [] entries' i eq_refl Hi) as [Hin|(j & d & Hj & Hd & Hin)].
    - exists O, (e', entries'). split; [lia|done].
    - exists (S j), d. split; [lia|done]. }
  intros l1 l2. revert l1. induction l2 as [|x l2 IHl]; intros l1 i El Hi; [done|]. cbn [map concat] in *.
  apply lookup_app_Some in Hi as [Hi|[Hge Hi]].
  - destruct (IH x ltac:(subst entries'; apply elem_of_app; right; by left) i Hi) as [[-> ->]|(j & d & Hj & Hd & Hin)].
    + left. by left.
    + right. exists j, d. split; [done|]. split; [|done]. by apply lookup_app_l_Some.
  - destruct (IHl (l1 ++ [x]) _ ltac:(by rewrite <- app_assoc) Hi) as [Hin|(j & d & Hj & Hd & Hin)].
    + left. by right.
    + right. exists (length (dirs_of x) + j)%nat, d. split; [lia|]. split; [|done]. rewrite lookup_app_r by lia. by replace (_ - _)%nat with j by lia.
Qed.

(** ** Numbering *)

(** The rank of the inode of an entry. *)
Definition kind (n : entry) : Z :=
  match n with
  | Dir _ _ => INO_DIR
  | Link _ _ => INO_LNK
  | File _ _ => INO_REG
  | Device e => if is_device_type e then INO_DEV else INO_OTH
  end.

Definition of_kind (k : Z) (l : list entry) : list entry := filter (fun n => kind n = k) l.

Lemma of_kind_dirs l : omap dir_of (of_kind INO_DIR l) = omap dir_of l.
Proof.
  induction l as [|n l IH]; [done|]. unfold of_kind in *. rewrite filter_cons. destruct (decide (kind n = INO_DIR)) as [E|E].
  - cbn [omap list_omap]. by rewrite IH.
  - rewrite IH. cbn [omap list_omap]. by destruct n.
Qed.

Definition number_ids (ids : list nat) (s : numbering) : numbering := foldl (fun s id => set_inode_num id s) s ids.

Lemma number_ids_spec ids s : NoDup ids -> 0 <= next_inode_num s -> next_inode_num s + zlen ids < 2 ^ 32 ->
  next_inode_num (number_ids ids s) = next_inode_num s + zlen ids /\
  (forall j id, ids !! j = Some id -> inode_nums (number_ids ids s) !! id = Some (next_inode_num s + Z.of_nat j)) /\
  (forall id, id ∉ ids -> inode_nums (number_ids ids s) !! id = inode_nums s !! id).
Proof.
  intros Hnd. revert s. induction Hnd as [|id ids Hid Hnd IH]; intros s H0 Hlt.
  { split; [cbn; change (zlen []) with 0; lia|]. split; [intros j id Hj; by apply lookup_nil_Some in Hj || done|done]. }
  change (zlen (id :: ids)) with (Z.of_nat (S (length ids))) in *. unfold zlen in *.
  unfold number_ids. cbn [foldl]. fold (number_ids ids (set_inode_num id s)).
  assert (next_inode_num (set_inode_num id s) = next_inode_num s + 1) as En by (cbn; apply wrapu_small; unfold in_u; lia).
  destruct (IH (set_inode_num id s)) as (I1 & I2 & I3); [lia..|]. rewrite En in *. split; [lia|]. split.
  - intros [|j] id' Hj; cbn in Hj.
    + injection Hj as <-. rewrite I3 by done. cbn. rewrite lookup_insert_eq. f_equal. lia.
    + rewrite (I2 j id' Hj). f_equal. lia.
  - intros id' Hn. apply not_elem_of_cons in Hn as [Hne Hn]. rewrite I3 by done. cbn. by rewrite lookup_insert_ne.
Qed.

Lemma visit_numbers (v : entry_visitor numbering) k l s :
  (forall n s, visit v n s = Ok (if bool_decide (kind n = k) then set_inode_num (eid n) s else s)) ->
  foldR (visit v) l s = Ok (number_ids (map eid (of_kind k l)) s).
Proof.
  intros Hv. revert s. induction l as [|n l IH]; intros s; [done|]. cbn [foldR]. rewrite Hv. cbn [rbind]. rewrite IH.
  unfold of_kind. rewrite filter_cons. by case_bool_decide; destruct (decide _).
Qed.

Lemma dir_visitor_numbers n s :
  visit dir_set_inode_visitor n s = Ok (if bool_decide (kind n = INO_DIR) then set_inode_num (eid n) s else s).
Proof. destruct n as [e data|e entries|e linkname|e]; try done. cbn. by destruct (is_device_type e). Qed.

Lemma link_visitor_numbers n s :
  visit link_set_inode_visitor n s = Ok (if bool_decide (kind n = INO_LNK) then set_inode_num (eid n) s else s).
Proof. destruct n as [e data|e entries|e linkname|e]; try done. cbn. by destruct (is_device_type e). Qed.

Lemma pipe_visitor_numbers n s :
  visit pipe_set_inode_visitor n s = Ok (if bool_decide (kind n = INO_OTH) then set_inode_num (eid n) s else s).
Proof. destruct n as [e data|e entries|e linkname|e]; try done. cbn. by destruct (is_device_type e). Qed.

Definition rdev_of (n : entry) : Z := es_rdev (e_stat (head n)).

Lemma device_visitor_numbers l s ids :
  foldR (visit device_set_inode_visitor) l (s, ids) =
    Ok (number_ids (map eid (of_kind INO_DEV l)) s, ids ++ map rdev_of (of_kind INO_DEV l)).
Proof.
  revert s ids. induction l as [|n l IH]; intros s ids; [cbn; by rewrite app_nil_r|]. cbn [foldR]. unfold of_kind in *. rewrite filter_cons.
  destruct n as [e data|e entries|e linkname|e]; [apply IH..|]. unfold kind. cbn.
  destruct (is_device_type e); cbn; rewrite IH; [|done]. by rewrite <- app_assoc.
Qed.
