(* ===== verification/TreeTables.v ===== *)
(** * TreeTables: what the builder makes of a tree of entries

    The trees the scanner finds, what is required of the file scanner, and the
    tables of inodes, names, entries and directories that
    [MetadataBuilder] makes, described in terms of the entries of the tree. *)

From stdpp Require Import sorting.
From S2P Require Import Prelude FileChunks PackedInts StringTable Metadata MetadataReader EntryTree MetadataBuilder EntryLists.
Local Open Scope Z_scope.

#[local] Abbreviation checked := (result metadata_error).

(** ** Trees *)

Definition ename (n : entry) : list Z := e_name (head n).
Definition estat (n : entry) : entry_stat := e_stat (head n).
Definition emode (n : entry) : Z := es_mode (estat n).
Definition link_target (n : entry) : option (list Z) := match n with Link _ l => Some l | _ => None end.

(** A name of a file: not empty, without a slash. *)
Definition name_ok (name : list Z) : Prop := (name <> []) /\ (slash ∉ name) /\ Forall is_byte name.

(** The trees that [scan_tree] builds of a file system: the parents are those
    of the tree, names are unique in a directory, the type of an entry is that
    of its mode, hard links have the same attributes, the target of a link is
    not empty. *)
Record tree_ok (t : entry) : Prop := {
  to_root : exists e entries, (t = Dir e entries) /\ (e_parent e = None);
  to_ids : NoDup (map eid (preorder t));
  to_parents : forall e entries c, Dir e entries ∈ preorder t -> c ∈ entries -> e_parent (head c) = Some (e_id e);
  to_types : forall n, n ∈ preorder t -> get_inode_rank (emode n) = Ok (kind n);
  to_names : forall e entries, Dir e entries ∈ preorder t -> NoDup (map ename entries) /\ Forall (fun c => name_ok (ename c)) entries;
  to_hardlinks : forall e e' data, File e data ∈ preorder t -> File e' data ∈ preorder t -> e_stat e = e_stat e';
  to_targets : forall e target, Link e target ∈ preorder t -> target <> [];
  to_size : zlen (preorder t) < 2 ^ 31 - 1;
  to_bytes : total_bytes (map ename (preorder t)) < 2 ^ 31 /\ total_bytes (omap link_target (preorder t)) < 2 ^ 31
}.

(** ** What is required of the file scanner *)

(** The targets of the shared files, of groups of so many files. *)
Definition shared_list (groups : list nat) : list Z := concat (imap (fun g n => replicate n (Z.of_nat g)) groups).

(** Every file has a number, of the range given, every number of the range is
    used, and files have the same number when they have the same data; the
    files that share no inode object come first, then those that do, in
    groups. *)
Record files_numbered (t : entry) (first_file first_device : Z) (fn : file_numbers) : Prop := {
  fn_range : forall e data, File e data ∈ preorder t ->
    exists num, file_inode_nums fn !! data = Some num /\ first_file <= num < first_device;
  fn_onto : forall num, first_file <= num < first_device ->
    exists e data, File e data ∈ preorder t /\ file_inode_nums fn !! data = Some num;
  fn_inj : forall data data' num, file_inode_nums fn !! data = Some num -> file_inode_nums fn !! data' = Some num -> data = data';
  fn_order : first_file <= first_device;
  fn_unique : 0 <= num_unique fn;
  fn_groups : exists groups, Forall (fun n => (2 <= n)%nat) groups /\
    zlen (shared_list groups) = first_device - first_file - num_unique fn /\
    forall e data num, File e data ∈ preorder t -> file_inode_nums fn !! data = Some num -> exists u, unique_file_ids fn !! data = Some u /\
      if num - first_file <? num_unique fn then u = num - first_file
      else shared_list groups !! Z.to_nat (num - first_file - num_unique fn) = Some (u - num_unique fn)
}.

Class FinalizesFiles (t : entry) (finalize : Z -> checked (Z * file_numbers)) : Prop := {
  finalizes : forall first_file, 0 <= first_file -> first_file + zlen (of_kind INO_REG (preorder t)) < 2 ^ 32 ->
    exists first_device fn, finalize first_file = Ok (first_device, fn) /\ files_numbered t first_file first_device fn
}.

(** ** The inode numbers *)

Section numbers.
Context (t : entry) (Ht : tree_ok t).

Definition devs : list entry := of_kind INO_DEV (postorder t).
Definition others : list entry := of_kind INO_OTH (postorder t).

Record numbered (a : assigned) : Prop := {
  nb_files : files_numbered t (first_file_inode a) (first_device_inode a) (as_files a);
  nb_dirs : forall i n, of_kind INO_DIR (preorder t) !! i = Some n -> as_nums a !! eid n = Some (Z.of_nat i);
  nb_links : forall i n, of_kind INO_LNK (preorder t) !! i = Some n -> as_nums a !! eid n = Some (first_link_inode a + Z.of_nat i);
  nb_devs : forall i n, devs !! i = Some n -> as_nums a !! eid n = Some (first_device_inode a + Z.of_nat i);
  nb_others : forall i n, others !! i = Some n -> as_nums a !! eid n = Some (first_device_inode a + zlen devs + Z.of_nat i);
  nb_first_link : first_link_inode a = zlen (of_kind INO_DIR (preorder t));
  nb_first_file : first_file_inode a = first_link_inode a + zlen (of_kind INO_LNK (preorder t));
  nb_last : last_inode a = first_device_inode a + zlen devs + zlen others;
  nb_devices : as_devices a = map rdev_of devs;
  nb_bound : last_inode a <= zlen (preorder t)
}.

Lemma of_kind_elem k l n : n ∈ of_kind k l <-> kind n = k /\ n ∈ l.
Proof. unfold of_kind. by rewrite list_elem_of_filter. Qed.

Lemma of_kind_sublist k l : of_kind k l `sublist_of` l.
Proof. apply sublist_filter. Qed.

Lemma eid_inj n m : n ∈ preorder t -> m ∈ preorder t -> eid n = eid m -> n = m.
Proof.
  intros Hn Hm E. apply list_elem_of_lookup in Hn as [i Hi]. apply list_elem_of_lookup in Hm as [j Hj].
  assert (i = j) as <-; [|congruence]. eapply NoDup_lookup; [apply (to_ids _ Ht)|..].
  - rewrite list_lookup_fmap, Hi. done.
  - rewrite list_lookup_fmap, Hj. cbn. by rewrite E.
Qed.

(** Numbering the entries of a kind. *)
Lemma number_kind k l s : l ≡ₚ preorder t -> 0 <= next_inode_num s -> next_inode_num s + zlen (of_kind k l) < 2 ^ 32 ->
  let s' := number_ids (map eid (of_kind k l)) s in
  next_inode_num s' = next_inode_num s + zlen (of_kind k l) /\
  (forall i n, of_kind k l !! i = Some n -> inode_nums s' !! eid n = Some (next_inode_num s + Z.of_nat i)) /\
  (forall n, n ∈ preorder t -> kind n <> k -> inode_nums s' !! eid n = inode_nums s !! eid n).
Proof.
  intros Hl H0 Hlt. destruct (number_ids_spec (map eid (of_kind k l)) s) as (S1 & S2 & S3); [|done| |].
  - apply (sublist_NoDup _ (map eid l)); [rewrite Hl; apply (to_ids _ Ht)|]. apply (fmap_sublist eid), of_kind_sublist.
  - unfold zlen in *. by rewrite length_map.
  - split_and!.
    + rewrite S1. unfold zlen. by rewrite length_map.
    + intros i n Hi. apply S2. by rewrite list_lookup_fmap, Hi.
    + intros n Hn Hk. apply S3. intros (m & E & Hm)%list_elem_of_fmap. apply of_kind_elem in Hm as [Hmk Hm].
      rewrite Hl in Hm. apply eid_inj in E; [|done..]. congruence.
Qed.

Lemma kind_cases n : kind n = INO_DIR \/ kind n = INO_LNK \/ kind n = INO_REG \/ kind n = INO_DEV \/ kind n = INO_OTH.
Proof. destruct n; cbn; [tauto..|]. destruct (is_device_type e); tauto. Qed.

(** The entries of each kind, counted. *)
Lemma kinds_count l : zlen (of_kind INO_DIR l) + zlen (of_kind INO_LNK l) + zlen (of_kind INO_REG l) + zlen (of_kind INO_DEV l) +
  zlen (of_kind INO_OTH l) = zlen l.
Proof.
  induction l as [|n l IH]; [done|]. unfold of_kind in *. rewrite !filter_cons. unfold zlen in *.
  destruct (kind_cases n) as [E|[E|[E|[E|E]]]]; rewrite E; repeat (destruct (decide _); [try done|try done]); cbn [length]; lia.
Qed.

Lemma of_kind_Permutation k l l' : l ≡ₚ l' -> of_kind k l ≡ₚ of_kind k l'.
Proof. intros H. unfold of_kind. by rewrite H. Qed.

Lemma zlen_Permutation {A} (l l' : list A) : l ≡ₚ l' -> zlen l = zlen l'.
Proof. intros H. unfold zlen. by rewrite (Permutation_length H). Qed.

(** There are no more numbers than files. *)
Lemma files_count first_file first_device fn : files_numbered t first_file first_device fn ->
  first_device - first_file <= zlen (of_kind INO_REG (preorder t)).
Proof.
  intros H. pose proof (fn_order _ _ _ _ H).
  assert (seqZ first_file (first_device - first_file) ⊆+
          map (fun n => match n with File _ d => default 0 (file_inode_nums fn !! d) | _ => 0 end) (of_kind INO_REG (preorder t))) as Hs.
  { apply NoDup_submseteq; [apply NoDup_seqZ|]. intros x Hx. apply elem_of_seqZ in Hx.
    destruct (fn_onto _ _ _ _ H x) as (e & d & Hin & Hd); [lia|]. apply list_elem_of_fmap. exists (File e d). rewrite Hd.
    split; [done|]. by apply of_kind_elem. }
  apply submseteq_length in Hs. rewrite length_seqZ, length_map in Hs. unfold zlen. lia.
Qed.

Lemma assign_inodes_ok finalize : FinalizesFiles t finalize -> exists a, assign_inodes finalize t = Ok a /\ numbered a.
Proof.
  intros Hfin. unfold assign_inodes. pose proof (kinds_count (preorder t)) as Hcount. pose proof (to_size _ Ht) as Hsize.
  pose proof (zlen_nonneg (of_kind INO_DIR (preorder t))). pose proof (zlen_nonneg (of_kind INO_LNK (preorder t))).
  pose proof (zlen_nonneg (of_kind INO_REG (preorder t))). pose proof (zlen_nonneg devs). pose proof (zlen_nonneg others).
  rewrite (zlen_Permutation (of_kind INO_DEV (preorder t)) devs) in Hcount by (apply of_kind_Permutation; symmetry; apply postorder_preorder).
  rewrite (zlen_Permutation (of_kind INO_OTH (preorder t)) others) in Hcount by (apply of_kind_Permutation; symmetry; apply postorder_preorder).
  rewrite accept_preorder, (visit_numbers _ _ _ _ dir_visitor_numbers). cbn [rbind].
  destruct (number_kind INO_DIR (preorder t) (Numbering ∅ 0)) as (D1 & D2 & D3); [done|done|cbn; lia|].
  set (s1 := number_ids (map eid (of_kind INO_DIR (preorder t))) (Numbering ∅ 0)) in *. cbn [next_inode_num inode_nums] in *.
  rewrite accept_preorder, (visit_numbers _ _ _ _ link_visitor_numbers). cbn [rbind].
  destruct (number_kind INO_LNK (preorder t) s1) as (L1 & L2 & L3); [done|lia|lia|].
  set (s2 := number_ids (map eid (of_kind INO_LNK (preorder t))) s1) in *.
  destruct (finalizes (next_inode_num s2)) as (fd & fn & Ef & Hfn); [lia..|]. rewrite Ef. cbn [rbind].
  pose proof (files_count _ _ _ Hfn) as Hfc. pose proof (fn_order _ _ _ _ Hfn) as Hfo.
  rewrite accept_postorder, device_visitor_numbers. cbn [rbind app]. pose proof (postorder_preorder t) as Hpost.
  destruct (number_kind INO_DEV (postorder t) (Numbering (inode_nums s2) fd)) as (V1 & V2 & V3); [done|cbn; lia|cbn; fold devs; lia|].
  fold devs in V1, V2, V3 |- *. set (s3 := number_ids (map eid devs) (Numbering (inode_nums s2) fd)) in *. cbn [next_inode_num inode_nums] in *.
  rewrite accept_postorder, (visit_numbers _ _ _ _ pipe_visitor_numbers). cbn [rbind].
  destruct (number_kind INO_OTH (postorder t) s3) as (P1 & P2 & P3); [done|lia|fold others; lia|].
  fold others in P1, P2, P3 |- *. set (s4 := number_ids (map eid others) s3) in *.
  assert (forall k l i n, l ≡ₚ preorder t -> of_kind k l !! i = Some n -> n ∈ preorder t /\ kind n = k) as Hin.
  { intros k l i n Hl Hi. apply list_elem_of_lookup_2, of_kind_elem in Hi as [? Hi]. by rewrite Hl in Hi. }
  eexists. split; [done|]. split; cbn [as_nums as_files as_devices first_link_inode first_file_inode first_device_inode last_inode].
  - done.
  - intros i n Hi. destruct (Hin _ _ _ _ (Permutation_refl _) Hi) as [Hn Hk].
    rewrite P3, V3, L3 by (done || by rewrite Hk). by apply D2.
  - intros i n Hi. destruct (Hin _ _ _ _ (Permutation_refl _) Hi) as [Hn Hk].
    rewrite P3, V3 by (done || by rewrite Hk). by apply L2.
  - intros i n Hi. destruct (Hin _ _ _ _ Hpost Hi) as [Hn Hk]. rewrite P3 by (done || by rewrite Hk). by apply V2.
  - intros i n Hi. rewrite (P2 i n Hi). f_equal. lia.
  - lia.
  - lia.
  - lia.
  - done.
  - lia.
Qed.
(** *** What follows from the numbering *)

Definition num_of (a : assigned) (n : entry) : option Z := entry_inode_num (as_nums a) (file_inode_nums (as_files a)) n.

(** Where the numbers of a rank begin. *)
Definition rank_offset (a : assigned) (k : Z) : Z :=
  if k <=? INO_DIR then 0
  else if k =? INO_LNK then first_link_inode a
  else if k =? INO_REG then first_file_inode a
  else if k =? INO_DEV then first_device_inode a
  else if k =? INO_OTH then first_device_inode a + zlen devs
  else last_inode a.

Context (a : assigned) (Ha : numbered a).

Lemma rank_offset_mono k k' : k <= k' -> rank_offset a k <= rank_offset a k'.
Proof.
  intros Hk. destruct Ha as [Hf _ _ _ _ Hl Hff Hla _ _]. pose proof (fn_order _ _ _ _ Hf).
  pose proof (zlen_nonneg (of_kind INO_DIR (preorder t))). pose proof (zlen_nonneg (of_kind INO_LNK (preorder t))).
  pose proof (zlen_nonneg devs). pose proof (zlen_nonneg others).
  unfold rank_offset, INO_DIR, INO_LNK, INO_REG, INO_DEV, INO_OTH in *.
  repeat match goal with |- context [Z.leb ?x ?y] => destruct (Z.leb_spec x y) | |- context [Z.eqb ?x ?y] => destruct (Z.eqb_spec x y) end; lia.
Qed.

Lemma rank_values :
  (rank_offset a INO_DIR = 0 /\ rank_offset a (INO_DIR + 1) = first_link_inode a) /\
  (rank_offset a INO_LNK = first_link_inode a /\ rank_offset a (INO_LNK + 1) = first_file_inode a) /\
  (rank_offset a INO_REG = first_file_inode a /\ rank_offset a (INO_REG + 1) = first_device_inode a) /\
  (rank_offset a INO_DEV = first_device_inode a /\ rank_offset a (INO_DEV + 1) = first_device_inode a + zlen devs) /\
  (rank_offset a INO_OTH = first_device_inode a + zlen devs /\ rank_offset a (INO_OTH + 1) = last_inode a).
Proof. done. Qed.

Lemma in_preorder_kind k n : n ∈ preorder t -> kind n = k -> exists i, of_kind k (preorder t) !! i = Some n.
Proof. intros Hn Hk. apply list_elem_of_lookup, of_kind_elem. by split. Qed.

Lemma in_postorder_kind k n : n ∈ preorder t -> kind n = k -> exists i, of_kind k (postorder t) !! i = Some n.
Proof. intros Hn Hk. apply list_elem_of_lookup, of_kind_elem. split; [done|]. by rewrite postorder_preorder. Qed.

Lemma lookup_zlen {A} (l : list A) i x : l !! i = Some x -> 0 <= Z.of_nat i < zlen l.
Proof. intros H. apply lookup_lt_Some in H. unfold zlen. lia. Qed.

Lemma num_of_other n : kind n <> INO_REG -> num_of a n = as_nums a !! eid n.
Proof. by destruct n. Qed.

Lemma num_range n : n ∈ preorder t -> exists x, num_of a n = Some x /\ rank_offset a (kind n) <= x < rank_offset a (kind n + 1).
Proof.
  intros Hn. destruct Ha as [Hf Hd Hl Hv Ho Hfl Hff Hla _ _].
  pose proof rank_values. destruct (kind_cases n) as [E|[E|[E|[E|E]]]]; rewrite E.
  - destruct (in_preorder_kind _ n Hn E) as [i Hi]. exists (Z.of_nat i). rewrite num_of_other by (by rewrite E).
    pose proof (lookup_zlen _ _ _ Hi). split; [by apply Hd|]. lia.
  - destruct (in_preorder_kind _ n Hn E) as [i Hi]. eexists. rewrite num_of_other by (by rewrite E).
    pose proof (lookup_zlen _ _ _ Hi). split; [by apply Hl|]. lia.
  - destruct n as [e data|e entries|e linkname|e]; try done; [|cbn in E; by destruct (is_device_type e)].
    destruct (fn_range _ _ _ _ Hf e data Hn) as (x & Hx & Hr). exists x. split; [done|]. lia.
  - destruct (in_postorder_kind _ n Hn E) as [i Hi]. eexists. rewrite num_of_other by (by rewrite E).
    pose proof (lookup_zlen _ _ _ Hi). split; [by apply Hv|]. unfold devs in *. lia.
  - destruct (in_postorder_kind _ n Hn E) as [i Hi]. eexists. rewrite num_of_other by (by rewrite E).
    pose proof (lookup_zlen _ _ _ Hi). split; [by apply Ho|]. unfold others, devs in *. lia.
Qed.

Lemma num_onto x : 0 <= x < last_inode a -> exists n, n ∈ preorder t /\ num_of a n = Some x.
Proof.
  intros Hx. destruct Ha as [Hf Hd Hl Hv Ho Hfl Hff Hla _ _].
  assert (forall k l (f : Z) i, l ≡ₚ preorder t -> k <> INO_REG ->
    (forall i n, of_kind k l !! i = Some n -> as_nums a !! eid n = Some (f + Z.of_nat i)) ->
    0 <= i < zlen (of_kind k l) -> exists n, n ∈ preorder t /\ num_of a n = Some (f + i)) as Hget.
  { intros k l f i Hperm Hk Hnum Hi. destruct (lookup_lt_is_Some_2 (of_kind k l) (Z.to_nat i)) as [n Hn]; [unfold zlen in Hi; lia|].
    exists n. pose proof (list_elem_of_lookup_2 _ _ _ Hn) as Hin. apply of_kind_elem in Hin as [Hkn Hin]. rewrite Hperm in Hin.
    split; [done|]. rewrite num_of_other by congruence. rewrite (Hnum _ _ Hn). f_equal. lia. }
  pose proof (postorder_preorder t) as Hpost.
  destruct (Z_lt_le_dec x (first_link_inode a)).
  { destruct (Hget INO_DIR (preorder t) 0 x) as (n & H1 & H2); [done|done| |lia|by exists n]. intros i n Hi. by apply Hd. }
  destruct (Z_lt_le_dec x (first_file_inode a)).
  { destruct (Hget INO_LNK (preorder t) (first_link_inode a) (x - first_link_inode a)) as (n & H1 & H2); [done|done|done|lia|].
    exists n. split; [done|]. rewrite H2. f_equal. lia. }
  destruct (Z_lt_le_dec x (first_device_inode a)).
  { destruct (fn_onto _ _ _ _ Hf x) as (e & d & H1 & H2); [lia|]. by exists (File e d). }
  destruct (Z_lt_le_dec x (first_device_inode a + zlen devs)).
  { destruct (Hget INO_DEV (postorder t) (first_device_inode a) (x - first_device_inode a)) as (n & H1 & H2); [done|done|done|unfold devs in *; lia|].
    exists n. split; [done|]. rewrite H2. f_equal. lia. }
  destruct (Hget INO_OTH (postorder t) (first_device_inode a + zlen devs) (x - (first_device_inode a + zlen devs))) as (n & H1 & H2);
    [done|done|done|unfold others in *; lia|]. exists n. split; [done|]. rewrite H2. f_equal. lia.
Qed.

Lemma num_kind n m x : n ∈ preorder t -> m ∈ preorder t -> num_of a n = Some x -> num_of a m = Some x -> kind n = kind m.
Proof.
  intros Hn Hm En Em. destruct (num_range n Hn) as (x1 & E1 & R1). destruct (num_range m Hm) as (x2 & E2 & R2).
  rewrite En in E1. rewrite Em in E2. injection E1 as <-. injection E2 as <-.
  destruct (Z_lt_le_dec (kind n) (kind m)) as [H|H]; [pose proof (rank_offset_mono (kind n + 1) (kind m)); lia|].
  destruct (Z_lt_le_dec (kind m) (kind n)) as [H'|H']; [pose proof (rank_offset_mono (kind m + 1) (kind n)); lia|lia].
Qed.

Lemma num_inj n m x : n ∈ preorder t -> m ∈ preorder t -> num_of a n = Some x -> num_of a m = Some x ->
  n = m \/ exists e e' data, n = File e data /\ m = File e' data.
Proof.
  intros Hn Hm En Em. pose proof (num_kind n m x Hn Hm En Em) as Hk. destruct Ha as [Hf Hd Hl Hv Ho _ _ _ _ _].
  assert (forall k l f, (forall i n, of_kind k l !! i = Some n -> as_nums a !! eid n = Some (f + Z.of_nat i)) ->
    k <> INO_REG -> kind n = k -> l ≡ₚ preorder t -> n = m) as Hsame.
  { intros k l f Hnum Hne Hkn Hperm. rewrite num_of_other in En by congruence. rewrite num_of_other in Em by congruence.
    destruct (proj1 (list_elem_of_lookup (of_kind k l) n)) as [i Hi]; [apply of_kind_elem; split; [done|by rewrite Hperm]|].
    destruct (proj1 (list_elem_of_lookup (of_kind k l) m)) as [j Hj]; [apply of_kind_elem; split; [congruence|by rewrite Hperm]|].
    rewrite (Hnum _ _ Hi) in En. rewrite (Hnum _ _ Hj) in Em. assert (i = j) as <- by (injection En; injection Em; lia). congruence. }
  pose proof (postorder_preorder t) as Hpost.
  destruct (kind_cases n) as [E|[E|[E|[E|E]]]].
  - left. by apply (Hsame INO_DIR (preorder t) 0).
  - left. by apply (Hsame INO_LNK (preorder t) (first_link_inode a)).
  - right. destruct n as [e data|e entries|e linkname|e]; try done; [|cbn in E; by destruct (is_device_type e)].
    destruct m as [e' data'|e' entries|e' linkname|e']; try done; [|cbn in Hk; by destruct (is_device_type e')].
    exists e, e', data. split; [done|]. f_equal. symmetry. by apply (fn_inj _ _ _ _ Hf data data' x).
  - left. by apply (Hsame INO_DEV (postorder t) (first_device_inode a)).
  - left. by apply (Hsame INO_OTH (postorder t) (first_device_inode a + zlen devs)).
Qed.

Lemma num_stat n m x : n ∈ preorder t -> m ∈ preorder t -> num_of a n = Some x -> num_of a m = Some x -> estat n = estat m.
Proof.
  intros Hn Hm En Em. destruct (num_inj n m x Hn Hm En Em) as [->|(e & e' & data & -> & ->)]; [done|].
  by apply (to_hardlinks _ Ht e e' data).
Qed.

(** A directory's number is its place among the directories. *)
Lemma num_dir i e entries : dirs_of t !! i = Some (e, entries) -> as_nums a !! e_id e = Some (Z.of_nat i).
Proof.
  intros Hi. destruct Ha as [_ Hd _ _ _ _ _ _ _ _]. unfold dirs_of in Hi. rewrite <- of_kind_dirs in Hi.
  assert (forall l : list entry, (forall n, n ∈ l -> kind n = INO_DIR) -> omap dir_of l !! i = Some (e, entries) -> l !! i = Some (Dir e entries)) as Hl.
  { clear. intros l. revert i. induction l as [|n l IH]; intros i Hk Hi; [done|]. pose proof (Hk n ltac:(by left)) as Hn.
    destruct n as [e' data|e' entries'|e' linkname|e']; try done; [|cbn in Hn; by destruct (is_device_type e')].
    cbn [omap list_omap dir_of] in Hi. destruct i as [|i]; cbn in *; [congruence|]. apply IH; [|done]. intros n Hin. apply Hk. by right. }
  apply Hl in Hi; [|intros n Hn; by apply of_kind_elem in Hn as [? _]]. by apply (Hd i _ Hi).
Qed.
End numbers.
