(* ===== verification/EntryData.v ===== *)
(** * EntryData: the tables of names, links, owners and modes

    The lemmas on [global_entry_data]: the maps number their keys, without
    gaps, and the vectors made of them have each key at its number. *)

From stdpp Require Import sorting.
From S2P Require Import Prelude FileChunks Metadata MetadataReader EntryTree MetadataBuilder EntryLists TreeTables.
Local Open Scope Z_scope.

#[local] Abbreviation checked := (result metadata_error).

(** ** Maps that number their keys *)

Section enumerated.
Context {K : Type} `{Countable K}.
Implicit Types (m : gmap K Z).

Definition count m : Z := Z.of_nat (base.size m).
Definition enumerated m : Prop := (map_to_list m).*2 ≡ₚ seqZ 0 (count m).

#[local] Instance second_le_trans : Transitive (@second_le K).
Proof. intros a b c. unfold second_le. lia. Qed.

#[local] Instance second_le_total : Total (@second_le K).
Proof. intros a b. unfold second_le. lia. Qed.

Lemma seqZ_sorted i n : StronglySorted Z.le (seqZ i n).
Proof.
  destruct (Z_lt_le_dec n 0) as [Hn|Hn]; [rewrite seqZ_nil by lia; constructor|].
  revert i. pattern n. apply natlike_ind; [intros i; rewrite seqZ_nil by lia; constructor| |done].
  clear n Hn. intros n Hn IH i. rewrite seqZ_cons by lia. constructor; [rewrite Z.pred_succ; apply IH|].
  rewrite Z.pred_succ. apply Forall_forall. intros x Hx. apply elem_of_seqZ in Hx. lia.
Qed.

Lemma sorted_seconds m : enumerated m -> (merge_sort second_le (map_to_list m)).*2 = seqZ 0 (count m).
Proof.
  intros Hm. apply (StronglySorted_unique Z.le).
  - pose proof (StronglySorted_merge_sort (@second_le K) (map_to_list m)) as Hs.
    induction Hs as [|x l Hl IH Hx]; [constructor|].
    cbn. constructor; [exact IH|]. apply Forall_fmap. eapply Forall_impl; [exact Hx|]. done.
  - apply seqZ_sorted.
  - etrans; [|exact Hm]. by rewrite merge_sort_Permutation.
Qed.

Lemma get_vector_lookup m j k : enumerated m -> get_vector m !! j = Some k <-> m !! k = Some (Z.of_nat j).
Proof.
  intros Hm. pose proof (sorted_seconds m Hm) as Hs. unfold get_vector.
  assert (forall j p, merge_sort second_le (map_to_list m) !! j = Some p -> p.2 = Z.of_nat j) as Hj.
  { intros j' p Hp. assert ((merge_sort second_le (map_to_list m)).*2 !! j' = Some p.2) as E by (by rewrite list_lookup_fmap, Hp).
    rewrite Hs in E. apply lookup_seqZ in E. lia. }
  assert (forall p, p ∈ merge_sort second_le (map_to_list m) <-> m !! p.1 = Some p.2) as Hin.
  { intros [k' x]. rewrite merge_sort_Permutation. apply elem_of_map_to_list. }
  rewrite list_lookup_fmap, fmap_Some. split.
  - intros (p & Hp & ->). rewrite <- (Hj _ _ Hp). apply Hin. by eapply list_elem_of_lookup_2.
  - intros Hk. assert ((k, Z.of_nat j) ∈ merge_sort second_le (map_to_list m)) as Hp by (by apply Hin).
    apply list_elem_of_lookup in Hp as [j' Hp]. pose proof (Hj _ _ Hp) as E. cbn in E. apply Nat2Z.inj in E as <-. by exists (k, Z.of_nat j).
Qed.

Lemma get_vector_zlen m : zlen (get_vector m) = count m.
Proof.
  unfold get_vector, count, zlen. rewrite length_fmap, merge_sort_Permutation, length_map_to_list. done.
Qed.

Lemma get_vector_index m k : enumerated m -> is_Some (m !! k) ->
  exists i, m !! k = Some i /\ get_vector m !! Z.to_nat i = Some k /\ 0 <= i < count m.
Proof.
  intros Hm [i Hi]. exists i. split; [done|].
  assert (i ∈ (map_to_list m).*2) as Hin by (apply list_elem_of_fmap; exists (k, i); split; [done|by apply elem_of_map_to_list]).
  unfold enumerated in Hm. rewrite Hm in Hin. apply elem_of_seqZ in Hin. split; [|lia]. apply get_vector_lookup; [exact Hm|]. rewrite Hi. f_equal. lia.
Qed.

Lemma enumerated_empty : enumerated ∅.
Proof. unfold enumerated, count. by rewrite map_to_list_empty, map_size_empty. Qed.

Lemma enumerated_insert m k : enumerated m -> m !! k = None -> enumerated (<[k := count m]> m).
Proof.
  intros Hm Hk. unfold enumerated, count in *. rewrite map_to_list_insert by done. rewrite map_size_insert_None by done. cbn [fmap list_fmap snd].
  rewrite Hm. replace (Z.of_nat (S (base.size m))) with (Z.of_nat (base.size m) + 1) by lia.
  rewrite seqZ_app by lia. rewrite Z.add_0_l, (seqZ_cons (Z.of_nat (base.size m)) 1), (seqZ_nil _ (Z.pred 1)) by lia.
  apply Permutation_cons_append.
Qed.
End enumerated.

(** ** [add], [emplace], [index_map] *)

(** [add] keeps the numbers and has a number for the value. *)
Lemma add_index_ok val m next : enumerated m -> next = count m -> count m + 1 < 2 ^ 32 ->
  let '(m', next') := add_index val m next in
  enumerated m' /\ next' = count m' /\ (forall v, is_Some (m' !! v) <-> v = val \/ is_Some (m !! v)) /\ count m' <= count m + 1.
Proof.
  intros Hm -> Hlt. unfold add_index. destruct (m !! val) as [i|] eqn:E.
  - split_and!; [done|done| |lia]. intros v. split; [tauto|]. intros [->|?]; [by rewrite E|done].
  - pose proof (Zle_0_nat (base.size m)) as H0. fold (count m) in H0.
    assert (count (<[val := count m]> m) = count m + 1) as Ec by (unfold count; rewrite map_size_insert_None by done; lia).
    split_and!; [by apply enumerated_insert|by rewrite wrapu_small by (unfold in_u; lia)| |lia]. intros v. rewrite lookup_insert_is_Some'. split; intros [->|?]; auto.
Qed.

Lemma emplace_key_ok key m k : is_Some (emplace_key key m !! k) <-> k = key \/ is_Some (m !! k).
Proof.
  unfold emplace_key. destruct (m !! key) as [i|] eqn:E.
  - split; [tauto|]. intros [->|?]; [by rewrite E|done].
  - rewrite lookup_insert_is_Some'. split; intros [->|?]; auto.
Qed.

Lemma emplace_key_count key m : count (emplace_key key m) <= count m + 1.
Proof. unfold emplace_key, count. destruct (m !! key) eqn:E; [lia|]. rewrite map_size_insert_None by done. lia. Qed.

Lemma number_keys_out keys ix m k : k ∉ keys -> number_keys keys ix m !! k = m !! k.
Proof.
  revert ix m. induction keys as [|k' keys IH]; intros ix m Hk; [done|]. apply not_elem_of_cons in Hk as [Hne Hk]. cbn.
  rewrite IH by done. by apply lookup_insert_ne.
Qed.

Lemma number_keys_in keys ix m j k : NoDup keys -> 0 <= ix -> ix + zlen keys < 2 ^ 32 -> keys !! j = Some k ->
  number_keys keys ix m !! k = Some (ix + Z.of_nat j).
Proof.
  intros Hnd. revert ix m j. induction Hnd as [|k' keys Hk Hnd IH]; intros ix m j H0 Hlt Hj; [done|].
  change (zlen (k' :: keys)) with (Z.of_nat (S (length keys))) in Hlt. cbn [number_keys]. destruct j as [|j]; cbn in Hj.
  - injection Hj as ->. rewrite number_keys_out by done. rewrite lookup_insert_eq. f_equal. lia.
  - rewrite wrapu_small by (unfold in_u; lia). rewrite (IH (ix + 1) _ j) by (unfold zlen in *; lia || done). f_equal. lia.
Qed.

Lemma index_map_ok m : count m < 2 ^ 32 ->
  enumerated (index_map m) /\ (forall k, is_Some (index_map m !! k) <-> is_Some (m !! k)) /\ count (index_map m) = count m.
Proof.
  intros Hlt. unfold index_map. set (keys := merge_sort bytes_le (map_to_list m).*1).
  assert (keys ≡ₚ (map_to_list m).*1) as Hperm by apply merge_sort_Permutation.
  assert (NoDup keys) as Hnd by (rewrite Hperm; apply NoDup_fst_map_to_list).
  assert (zlen keys = count m) as Hlen by (unfold zlen; rewrite Hperm, length_fmap, length_map_to_list; done).
  assert (forall k, k ∈ keys <-> is_Some (m !! k)) as Hin.
  { intros k. rewrite Hperm, list_elem_of_fmap. split.
    - intros ([k' x] & -> & Hx). apply elem_of_map_to_list in Hx. by exists x.
    - intros [x Hx]. exists (k, x). split; [done|by apply elem_of_map_to_list]. }
  assert (forall k x, number_keys keys 0 m !! k = Some x <-> exists j, keys !! j = Some k /\ x = Z.of_nat j) as Hnum.
  { intros k x. split.
    - intros Hx. destruct (decide (k ∈ keys)) as [Hk|Hk].
      + apply list_elem_of_lookup in Hk as [j Hj]. exists j. split; [done|]. rewrite (number_keys_in keys 0 m j k) in Hx by (done || lia).
        injection Hx as <-. lia.
      + rewrite number_keys_out in Hx by done. exfalso. apply Hk, Hin. by exists x.
    - intros (j & Hj & ->). rewrite (number_keys_in keys 0 m j k) by (done || lia). f_equal. }
  assert (number_keys keys 0 m = list_to_map (zip keys (seqZ 0 (zlen keys)))) as Em.
  { apply map_eq. intros k. apply option_eq. intros x. rewrite Hnum, <- elem_of_list_to_map.
    - rewrite list_elem_of_lookup. apply exist_proper. intros j. rewrite lookup_zip_Some, lookup_seqZ. split; [|intros (Hj & -> & _); split; [done|lia]].
      intros [Hj ->]. apply lookup_lt_Some in Hj as Hlt'. unfold zlen. split; [done|lia].
    - rewrite fst_zip; [done|]. rewrite length_seqZ. unfold zlen. lia. }
  assert (map_to_list (number_keys keys 0 m) ≡ₚ zip keys (seqZ 0 (zlen keys))) as Hl.
  { rewrite Em. apply map_to_list_to_map. rewrite fst_zip; [done|]. rewrite length_seqZ. unfold zlen. lia. }
  assert (count (number_keys keys 0 m) = count m) as Hc.
  { unfold count at 1. rewrite <- length_map_to_list, Hl, length_zip, length_seqZ. unfold zlen in *. lia. }
  split_and!; [|intros k|done].
  - unfold enumerated. rewrite Hc, Hl, snd_zip, Hlen; [done|]. rewrite length_seqZ. unfold zlen. lia.
  - rewrite <- Hin. split.
    + intros [x Hx]. apply Hnum in Hx as (j & Hj & _). by eapply list_elem_of_lookup_2.
    + intros Hk. apply list_elem_of_lookup in Hk as [j Hj]. exists (Z.of_nat j). apply Hnum. by exists j.
Qed.

(** ** The maps after the visitors *)

Definition wants_name (n : entry) : bool := match n with Dir e _ => has_parent e | _ => true end.

(** The keys are those of entries. *)
Definition keyed {K} `{Countable K} (f : entry -> option K) (l : list entry) (m : gmap K Z) : Prop :=
  (forall k, is_Some (m !! k) <-> exists n, n ∈ l /\ f n = Some k) /\ count m <= zlen l.

Lemma keyed_nil {K} `{Countable K} (f : entry -> option K) : keyed f [] ∅.
Proof. split; [|by unfold count; rewrite map_size_empty]. intros k. rewrite lookup_empty. split; [by intros []|by intros (n & ?%elem_of_nil & _)]. Qed.

Lemma keyed_snoc {K} `{Countable K} (f : entry -> option K) l n (m m' : gmap K Z) : keyed f l m ->
  (forall k, is_Some (m' !! k) <-> f n = Some k \/ is_Some (m !! k)) -> count m' <= count m + 1 -> keyed f (l ++ [n]) m'.
Proof.
  intros [Hk Hc] Hm Hc'. split; [|rewrite zlen_app; change (zlen [n]) with 1; lia]. intros k. rewrite Hm, Hk. split.
  - intros [Hf|(n' & Hn & Hf)]; [exists n|exists n']; (split; [|done]); apply elem_of_app; [right; by left|by left].
  - intros (n' & Hn & Hf). apply elem_of_app in Hn as [Hn|Hn]; [right; eauto|]. apply list_elem_of_singleton in Hn as ->. by left.
Qed.

Lemma keyed_skip {K} `{Countable K} (f : entry -> option K) l n (m : gmap K Z) : keyed f l m -> f n = None -> keyed f (l ++ [n]) m.
Proof. intros Hm Hf. apply (keyed_snoc f l n m m Hm); [|lia]. intros k. rewrite Hf. split; [by right|]. by intros [?|?]. Qed.

Lemma keyed_Permutation {K} `{Countable K} (f : entry -> option K) l l' (m : gmap K Z) : l ≡ₚ l' -> keyed f l m -> keyed f l' m.
Proof. intros Hl [H1 H2]. split; [|by rewrite <- (zlen_Permutation _ _ Hl)]. intros k. rewrite H1. by setoid_rewrite Hl. Qed.

Definition name_key (n : entry) : option (list Z) := if wants_name n then Some (ename n) else None.
Definition uid_key (n : entry) : option Z := Some (es_uid (estat n)).
Definition gid_key (n : entry) : option Z := Some (es_gid (estat n)).
Definition mode_key (n : entry) : option Z := Some (emode n).

Lemma keyed_emplace (f : entry -> option (list Z)) l n m k : keyed f l m -> f n = Some k -> keyed f (l ++ [n]) (emplace_key k m).
Proof.
  intros Hm Hf. apply (keyed_snoc f l n m _ Hm); [|apply emplace_key_count]. intros k'. rewrite emplace_key_ok, Hf. split.
  - intros [->|?]; [by left|by right].
  - intros [[= ->]|?]; [by left|by right].
Qed.

(** The names and the targets of links. *)
Lemma names_collected l : exists g, foldR (visit names_and_symlinks_visitor) l empty_entry_data = Ok g /\
  keyed name_key l (ge_names g) /\ keyed link_target l (ge_symlinks g) /\
  g = set_symlinks (ge_symlinks g) (set_names (ge_names g) empty_entry_data).
Proof.
  destruct (foldR_ind (visit names_and_symlinks_visitor) (fun l g => keyed name_key l (ge_names g) /\ keyed link_target l (ge_symlinks g) /\
    g = set_symlinks (ge_symlinks g) (set_names (ge_names g) empty_entry_data)) l empty_entry_data) as (g & Hg & H).
  - split_and!; [apply keyed_nil..|done].
  - intros l1 n l2 g _ (Hn & Hs & Hg). destruct n as [e data|e entries|e linkname|e]; cbn [visit names_and_symlinks_visitor visit_file visit_dir visit_link visit_device].
    + eexists. split; [done|]. rewrite Hg. split_and!; [by apply keyed_emplace|by apply keyed_skip|done].
    + destruct (has_parent e) eqn:E; eexists; (split; [done|]); rewrite Hg;
        (split_and!; [|by apply keyed_skip|done]); [apply keyed_emplace|apply keyed_skip]; try done; unfold name_key; cbn; by rewrite E.
    + eexists. split; [done|]. rewrite Hg. split_and!; [by apply keyed_emplace|by apply keyed_emplace|done].
    + eexists. split; [done|]. rewrite Hg. split_and!; [by apply keyed_emplace|by apply keyed_skip|done].
  - by exists g.
Qed.

(** Owners, groups and modes; an owner given by the options is not looked up. *)
Definition numbers {K} `{Countable K} (f : entry -> option K) (l : list entry) (m : gmap K Z) (next : Z) : Prop :=
  enumerated m /\ next = count m /\ keyed f l m.

Lemma numbers_nil {K} `{Countable K} (f : entry -> option K) : numbers f [] ∅ 0.
Proof. split_and!; [apply enumerated_empty|by unfold count; rewrite map_size_empty|apply keyed_nil]. Qed.

Lemma numbers_add (f : entry -> option Z) l n m next k : numbers f l m next -> f n = Some k -> zlen l + 1 < 2 ^ 32 ->
  numbers f (l ++ [n]) (add_index k m next).1 (add_index k m next).2.
Proof.
  intros (He & Hn & Hk) Hf Hlt. pose proof Hk as [_ Hc]. pose proof (add_index_ok k m next He Hn ltac:(lia)) as H.
  destruct (add_index k m next) as [m' next']. destruct H as (H1 & H2 & H3 & H4). split_and!; [done|done|].
  apply (keyed_snoc f l n m m' Hk); [|done]. intros v. rewrite H3, Hf. split; intros [E|E]; [left; congruence|by right|left; congruence|by right].
Qed.

Record stats_ok (options : writer_options) (l : list entry) (g : global_entry_data) : Prop := {
  so_modes : numbers mode_key l (ge_modes g) (ge_next_mode_index g);
  so_uids : wo_uid options = None -> numbers uid_key l (ge_uids g) (ge_next_uid_index g);
  so_gids : wo_gid options = None -> numbers gid_key l (ge_gids g) (ge_next_gid_index g)
}.

Lemma update_data_eq options e g :
  let g' := update_data options e g in
  let added v m next m' next' := m' = (add_index v m next).1 /\ next' = (add_index v m next).2 in
  added (es_mode (e_stat e)) (ge_modes g) (ge_next_mode_index g) (ge_modes g') (ge_next_mode_index g') /\
  (wo_uid options = None -> added (es_uid (e_stat e)) (ge_uids g) (ge_next_uid_index g) (ge_uids g') (ge_next_uid_index g')) /\
  (wo_gid options = None -> added (es_gid (e_stat e)) (ge_gids g) (ge_next_gid_index g) (ge_gids g') (ge_next_gid_index g')) /\
  ge_names g' = ge_names g /\ ge_symlinks g' = ge_symlinks g.
Proof.
  unfold update_data, add_mode, add_gid, add_uid. destruct g as [us un gs gn ms mn ns ss]. cbn.
  destruct (wo_uid options), (wo_gid options); cbn;
    repeat (match goal with |- context [add_index ?v ?m ?x] => is_var m; destruct (add_index v m x) as [? ?] end; cbn);
    split_and!; try done; intros ?; by split_and!.
Qed.

Lemma update_data_ok options l n g : stats_ok options l g -> zlen l + 1 < 2 ^ 32 ->
  let g' := update_data options (head n) g in
  stats_ok options (l ++ [n]) g' /\ ge_names g' = ge_names g /\ ge_symlinks g' = ge_symlinks g.
Proof.
  intros [Hm Hu Hg] Hlt g'. destruct (update_data_eq options (head n) g) as ([M1 M2] & U & G & N & S). fold g' in M1, M2, U, G, N, S.
  split_and!; [|done|done]. split.
  - rewrite M1, M2. by apply numbers_add.
  - intros E. destruct (U E) as [-> ->]. apply numbers_add; [by apply Hu|done|done].
  - intros E. destruct (G E) as [-> ->]. apply numbers_add; [by apply Hg|done|done].
Qed.

(** ** The job as a whole *)

Record entry_data_ok (options : writer_options) (l : list entry) (g : global_entry_data) : Prop := {
  ed_stats : stats_ok options l g;
  ed_names : enumerated (ge_names g) /\ keyed name_key l (ge_names g);
  ed_symlinks : enumerated (ge_symlinks g) /\ keyed link_target l (ge_symlinks g)
}.

Section job.
Context (t : entry) (Ht : tree_ok t) (a : assigned) (Ha : numbered t a).

Lemma size_u32 : zlen (preorder t) + 1 < 2 ^ 32.
Proof. pose proof (to_size _ Ht). lia. Qed.

Lemma keyed_index {K} `{Countable K} (f : entry -> option K) l (m m' : gmap K Z) :
  keyed f l m -> (forall k, is_Some (m' !! k) <-> is_Some (m !! k)) -> count m' = count m -> keyed f l m'.
Proof. intros [H1 H2] Hk Hc. split; [|lia]. intros k. by rewrite Hk, H1. Qed.

Lemma save_names_and_symlinks_ok options : exists g table, save_names_and_symlinks options a t = Ok (g, table) /\
  entry_data_ok options (preorder t) g /\ zlen table = first_file_inode a - first_link_inode a /\
  forall e target x, Link e target ∈ preorder t -> as_nums a !! e_id e = Some x ->
    table !! Z.to_nat (x - first_link_inode a) = ge_symlinks g !! target.
Proof.
  pose proof size_u32 as Hsize. pose proof (rank_offset_mono t a Ha INO_DIR INO_LNK ltac:(done)) as R1.
  pose proof (rank_offset_mono t a Ha INO_LNK INO_REG ltac:(done)) as R2. pose proof (rank_offset_mono t a Ha INO_REG (INO_OTH + 1) ltac:(done)) as R3.
  destruct (rank_values t a) as ((V1 & V2) & (V3 & V4) & (V5 & V6) & (V7 & V8) & (V9 & V10)). pose proof (nb_bound _ _ Ha) as Hb.
  unfold save_names_and_symlinks. rewrite accept_postorder.
  destruct (names_collected (postorder t)) as (g1 & -> & Hn & Hs & Hg1). cbn [rbind].
  pose proof (keyed_Permutation _ _ _ _ (postorder_preorder t) Hn) as Hn'. pose proof (keyed_Permutation _ _ _ _ (postorder_preorder t) Hs) as Hs'.
  destruct (index_map_ok (ge_names g1)) as (N1 & N2 & N3); [destruct Hn' as [_ ?]; lia|].
  destruct (index_map_ok (ge_symlinks g1)) as (S1 & S2 & S3); [destruct Hs' as [_ ?]; lia|].
  set (g2 := index_data g1). assert (stats_ok options [] g2) as Hst2.
  { unfold g2. rewrite Hg1. split; intros; apply numbers_nil. }
  assert (ge_names g2 = index_map (ge_names g1)) as En by done. assert (ge_symlinks g2 = index_map (ge_symlinks g1)) as Es by done.
  rewrite walk_entries_preorder. rewrite wrapu_small by (unfold in_u; lia).
  destruct (foldR_ind (update_entry options a) (fun l s =>
      stats_ok options l s.1 /\ ge_names s.1 = ge_names g2 /\ ge_symlinks s.1 = ge_symlinks g2 /\
      zlen s.2 = first_file_inode a - first_link_inode a /\
      forall e target x, Link e target ∈ l -> as_nums a !! e_id e = Some x -> s.2 !! Z.to_nat (x - first_link_inode a) = ge_symlinks g2 !! target)
    (preorder t) (g2, replicate (Z.to_nat (first_file_inode a - first_link_inode a)) 0)) as ([g table] & Eg & H1 & H2 & H3 & H4 & H5).
  - cbn [fst snd]. split_and!; [done|done|done|unfold zlen; rewrite length_replicate; lia|]. intros ? ? ? []%elem_of_nil.
  - intros l1 n l2 [g table] El (I1 & I2 & I3 & I4 & I5). cbn [fst snd] in *.
    assert (n ∈ preorder t) as Hin by (rewrite El; apply elem_of_app; right; by left).
    destruct (update_data_ok options l1 n g I1) as (U1 & U2 & U3).
    { rewrite El in Hsize. rewrite zlen_app in Hsize. change (zlen (n :: l2)) with (Z.of_nat (S (length l2))) in Hsize. lia. }
    assert (forall e target x, Link e target ∈ l1 -> as_nums a !! e_id e = Some x -> table !! Z.to_nat (x - first_link_inode a) = ge_symlinks g2 !! target) as Hold by done.
    unfold update_entry. destruct n as [e data|e entries|e linkname|e]; cbn [head] in *.
    1, 2, 4: eexists; split; [done|]; cbn [fst snd]; split_and!; [done|congruence|congruence|done|];
      intros e' target x Hl; apply elem_of_app in Hl as [Hl|Hl%list_elem_of_singleton]; [by apply Hold|done].
    destruct (num_range t a Ha _ Hin) as (x & Ex & Rx). change (kind (Link e linkname)) with INO_LNK in Rx. rewrite V3, V4 in Rx.
    change (num_of a (Link e linkname)) with (as_nums a !! e_id e) in Ex. rewrite Ex. cbn [bad_optional_access rbind].
    assert (is_Some (ge_symlinks g2 !! linkname)) as [ix Hix].
    { rewrite Es, S2. destruct Hs' as [Hk _]. apply Hk. by exists (Link e linkname). }
    unfold get_symlink_table_entry. rewrite U3, I3, Hix. cbn [nothrow rbind].
    rewrite wrapu_small by (unfold in_u; lia). unfold add_symlink_table_entry.
    replace ((0 <=? x - first_link_inode a) && (x - first_link_inode a <? zlen table)) with true by lia. cbn [rbind].
    eexists. split; [done|]. cbn [fst snd]. split_and!; [done|congruence|congruence|unfold zlen in *; by rewrite length_insert|].
    intros e' target x' Hl Hx'. apply elem_of_app in Hl as [Hl|Hl%list_elem_of_singleton].
    + destruct (decide (x' = x)) as [->|Hne].
      * assert (Link e' target ∈ preorder t) as Hin' by (rewrite El; apply elem_of_app; by left).
        destruct (num_inj t a Ha (Link e' target) (Link e linkname) x Hin' Hin Hx' Ex) as [[= -> ->]|(? & ? & ? & ? & _)]; [|done].
        rewrite list_lookup_insert_eq by (unfold zlen in *; lia). done.
      * assert (Link e' target ∈ preorder t) as Hin' by (rewrite El; apply elem_of_app; by left).
        destruct (num_range t a Ha _ Hin') as (y & Ey & Ry). change (kind (Link e' target)) with INO_LNK in Ry. rewrite V3, V4 in Ry.
        change (num_of a (Link e' target)) with (as_nums a !! e_id e') in Ey. rewrite Hx' in Ey. injection Ey as <-.
        rewrite list_lookup_insert_ne by lia. by apply Hold with e'.
    + injection Hl as -> ->. rewrite Ex in Hx'. injection Hx' as <-. rewrite list_lookup_insert_eq by (unfold zlen in *; lia). done.
  - exists g, table. cbn [fst snd] in *. split; [done|]. split_and!; [|done|].
    + split; [done|rewrite H2, En|rewrite H3, Es]; (split; [done|]); by eapply keyed_index.
    + intros e target x Hin Hx. rewrite H3. by apply H5 with e.
Qed.
End job.
