(* ===== verification/EntryTables.v ===== *)
(** * EntryTables: the tables of entries, inodes and directories

    What [gather_entries] makes of a tree: the entries in the order of
    [entries_of], each directory with the places of its own entry, its parent's
    and its first child's, and at each inode number the inode of the entries
    that have it. *)

From S2P Require Import Prelude FileChunks Metadata MetadataReader EntryTree MetadataBuilder EntryLists TreeTables EntryData.
Local Open Scope Z_scope.

#[local] Abbreviation checked := (result metadata_error).

(** The place of an entry in the table. *)
Definition entry_pos (t : entry) (id : nat) : Z :=
  match list_find (fun n => eid n = id) (entries_of t) with Some (i, _) => Z.of_nat i | None => 0 end.

(** Where the entries of a directory begin. *)
Definition first_of (t : entry) (i : nat) : Z := 1 + zlen (concat (map snd (take i (dirs_of t)))).

Definition parent_pos (t : entry) (e : entry_head) : Z := match e_parent e with Some p => entry_pos t p | None => 0 end.

Definition dir_at (t : entry) (i : nat) (d : entry_head * list entry) : directory :=
  Directory (parent_pos t d.1) (first_of t i) (entry_pos t (e_id d.1)).

Definition expected_dirs (t : entry) : list directory :=
  imap (dir_at t) (dirs_of t) ++ [Directory 0 (zlen (entries_of t)) 0].

Definition name_index_of (g : global_entry_data) (n : entry) : Z :=
  if has_parent (head n) then default 0 (ge_names g !! ename n) else 0.

Definition expected_entry (g : global_entry_data) (a : assigned) (n : entry) : dir_entry :=
  DirEntry (name_index_of g n) (default 0 (num_of a n)).

Definition expected_inode (options : writer_options) (g : global_entry_data) (n : entry) : inode_data :=
  InodeData (default 0 (ge_modes g !! emode n))
    (match wo_uid options with Some _ => 0 | None => default 0 (ge_uids g !! es_uid (estat n)) end)
    (match wo_gid options with Some _ => 0 | None => default 0 (ge_gids g !! es_gid (estat n)) end) 0 0 0.

Definition bare (ino : inode_data) : Prop := (nlink_minus_one ino = 0) /\ (name_index_v2_2 ino = 0) /\ (inode_v2_2 ino = 0).

Section tables.
Context (t : entry) (Ht : tree_ok t) (a : assigned) (Ha : numbered t a).
Context (options : writer_options) (g : global_entry_data) (Hg : entry_data_ok options (preorder t) g).

#[local] Abbreviation nums := (as_nums a).
#[local] Abbreviation data_nums := (file_inode_nums (as_files a)).

Lemma entries_ids : NoDup (map eid (entries_of t)).
Proof. rewrite entries_preorder. apply (to_ids _ Ht). Qed.

Lemma entry_pos_lookup i n : entries_of t !! i = Some n -> entry_pos t (eid n) = Z.of_nat i.
Proof.
  intros Hi. unfold entry_pos. destruct (list_find (fun m => eid m = eid n) (entries_of t)) as [[j m]|] eqn:E.
  - apply list_find_Some in E as (Hj & Em & _). f_equal. eapply NoDup_lookup; [apply entries_ids|..].
    + by rewrite list_lookup_fmap, Hj.
    + rewrite list_lookup_fmap, Hi. cbn. by rewrite Em.
  - exfalso. rewrite list_find_None, Forall_forall in E. apply (E n); [by eapply list_elem_of_lookup_2|done].
Qed.

(** *** An entry is appended *)

Record packed (l : list entry) (tb : entry_tables) : Prop := {
  pk_entries : tb_entries tb = map (expected_entry g a) l;
  pk_index : forall i n, l !! i = Some n -> tb_index tb !! eid n = Some (Z.of_nat i);
  pk_length : zlen (tb_inodes tb) = last_inode a;
  pk_inodes : forall n x, n ∈ l -> num_of a n = Some x -> tb_inodes tb !! Z.to_nat x = Some (expected_inode options g n);
  pk_bare : Forall bare (tb_inodes tb)
}.

Lemma mode_there n : n ∈ preorder t -> exists i, ge_modes g !! emode n = Some i.
Proof.
  intros Hn. destruct Hg as [[(_ & _ & [Hm _]) _ _] _ _]. destruct (proj2 (Hm (emode n))) as [i Hi]; [by exists n|by exists i].
Qed.

Lemma uid_there n : n ∈ preorder t -> wo_uid options = None -> exists i, ge_uids g !! es_uid (estat n) = Some i.
Proof.
  intros Hn E. destruct Hg as [[_ Hu _] _ _]. destruct (Hu E) as (_ & _ & [Hk _]). destruct (proj2 (Hk (es_uid (estat n)))) as [i Hi]; [by exists n|by exists i].
Qed.

Lemma gid_there n : n ∈ preorder t -> wo_gid options = None -> exists i, ge_gids g !! es_gid (estat n) = Some i.
Proof.
  intros Hn E. destruct Hg as [[_ _ Hu] _ _]. destruct (Hu E) as (_ & _ & [Hk _]). destruct (proj2 (Hk (es_gid (estat n)))) as [i Hi]; [by exists n|by exists i].
Qed.

Lemma pack_inode_stat_ok n ino : n ∈ preorder t -> bare ino ->
  pack_inode_stat options g (estat n) ino = Ok (expected_inode options g n).
Proof.
  intros Hn (B1 & B2 & B3). unfold pack_inode_stat, expected_inode. destruct (mode_there n Hn) as [m Em]. unfold emode in *. rewrite Em, B1, B2, B3. cbn [nothrow rbind default].
  pose proof (uid_there n Hn) as Hu. pose proof (gid_there n Hn) as Hgid.
  destruct (wo_uid options) as [u|]; [|destruct (Hu eq_refl) as [i ->]]; cbn [nothrow rbind default];
    (destruct (wo_gid options) as [v|]; [|destruct (Hgid eq_refl) as [j ->]]); done.
Qed.

Lemma expected_inode_stat n m : estat n = estat m -> expected_inode options g n = expected_inode options g m.
Proof. unfold expected_inode, emode. by intros ->. Qed.

Lemma num_bounds n x : n ∈ preorder t -> num_of a n = Some x -> 0 <= x < last_inode a.
Proof.
  intros Hn Ex. destruct (num_range t a Ha n Hn) as (y & Ey & Ry). rewrite Ex in Ey. injection Ey as <-.
  pose proof (rank_offset_mono t a Ha INO_DIR (kind n)) as H1. pose proof (rank_offset_mono t a Ha (kind n + 1) (INO_OTH + 1)) as H2.
  destruct (rank_values t a) as ((V1 & _) & _ & _ & _ & (_ & V2)).
  destruct (kind_cases n) as [E|[E|[E|[E|E]]]]; rewrite E in *; unfold INO_DIR, INO_LNK, INO_REG, INO_DEV, INO_OTH in *; lia.
Qed.

Lemma push_ok l tb n x : packed l tb -> n ∈ preorder t -> (forall m, m ∈ l -> m ∈ preorder t) -> n ∉ l -> num_of a n = Some x ->
  exists tb', push_entry options g (name_index_of g n) x (estat n) (set_entry_index (eid n) tb) = Ok tb' /\
    tb_directories tb' = tb_directories tb /\ packed (l ++ [n]) tb'.
Proof.
  intros [P1 P2 P3 P4 P5] Hn Hl Hnew Ex. pose proof (num_bounds n x Hn Ex) as Hx. unfold push_entry. cbn [set_entry_index tb_directories tb_inodes tb_entries tb_index].
  replace (x <? 0) with false by lia. destruct (lookup_lt_is_Some_2 (tb_inodes tb) (Z.to_nat x)) as [ino Hino]; [unfold zlen in P3; lia|].
  rewrite Hino. cbn [nothrow rbind]. rewrite pack_inode_stat_ok by (done || by eapply Forall_lookup_1). cbn [rbind].
  eexists. split; [done|]. split; [done|]. split; cbn [tb_entries tb_index tb_inodes].
  - rewrite P1, map_app. cbn [map]. unfold expected_entry. by rewrite Ex.
  - rewrite P1. intros i m Hi. apply lookup_app_Some in Hi as [Hi|[Hge Hi]].
    + assert (m ∈ l) as Hm by (by eapply list_elem_of_lookup_2). rewrite lookup_insert_ne; [by apply P2|].
      intros E. apply Hnew. rewrite (eid_inj t Ht n m); [done|done|by apply Hl|done].
    + apply list_lookup_singleton_Some in Hi as [Hi0 <-]. rewrite lookup_insert_eq. unfold zlen. rewrite length_map. f_equal. lia.
  - unfold zlen in *. by rewrite length_insert.
  - intros m y Hm Ey. assert (m ∈ preorder t) as Hmt by (apply elem_of_app in Hm as [?| ->%list_elem_of_singleton]; [by apply Hl|done]).
    destruct (decide (y = x)) as [->|Hne].
    + rewrite list_lookup_insert_eq by (unfold zlen in P3; lia). f_equal. apply expected_inode_stat. by apply (num_stat t Ht a Ha n m x).
    + pose proof (num_bounds m y Hmt Ey). rewrite list_lookup_insert_ne by lia. apply P4; [|done].
      apply elem_of_app in Hm as [?| ->%list_elem_of_singleton]; [done|]. congruence.
  - apply Forall_insert; [done|]. unfold bare. done.
Qed.
Lemma pack_child_ok l tb n : packed l tb -> n ∈ preorder t -> has_parent (head n) = true ->
  (forall m, m ∈ l -> m ∈ preorder t) -> n ∉ l ->
  exists tb', pack_child options g nums data_nums n tb = Ok tb' /\ tb_directories tb' = tb_directories tb /\ packed (l ++ [n]) tb'.
Proof.
  intros Hp Hn Hpar Hl Hnew. destruct (num_range t a Ha n Hn) as (x & Ex & _).
  destruct (push_ok l tb n x Hp Hn Hl Hnew Ex) as (tb' & E & Hd & Hp'). exists tb'. split; [|done].
  unfold pack_child. fold (ename n). unfold get_name_index.
  assert (is_Some (ge_names g !! ename n)) as [ix Hix].
  { destruct Hg as [_ [_ [Hk _]] _]. apply Hk. exists n. split; [done|]. unfold name_key. destruct n; try done. cbn in *. by rewrite Hpar. }
  rewrite Hix. cbn [nothrow rbind]. fold (num_of a n). rewrite Ex. cbn [nothrow rbind].
  unfold name_index_of in E. rewrite Hpar, Hix in E. exact E.
Qed.

Lemma entries_nodup : NoDup (entries_of t).
Proof. eapply NoDup_fmap_1, entries_ids. Qed.

Lemma dirs_preorder i e entries : dirs_of t !! i = Some (e, entries) -> Dir e entries ∈ preorder t.
Proof.
  intros Hi. apply list_elem_of_lookup_2 in Hi. unfold dirs_of in Hi. apply list_elem_of_omap in Hi as (n & Hn & E).
  by destruct n; try done; injection E as <- <-.
Qed.

Lemma child_parent i e entries c : dirs_of t !! i = Some (e, entries) -> c ∈ entries -> c ∈ preorder t /\ e_parent (head c) = Some (e_id e).
Proof.
  intros Hi Hc. pose proof (dirs_preorder i e entries Hi) as Hd. split; [by eapply preorder_child|]. by apply (to_parents _ Ht e entries c).
Qed.

Lemma pack_children_ok k e entries : dirs_of t !! k = Some (e, entries) -> forall es2 es1 tb, entries = es1 ++ es2 ->
  packed (t :: concat (map snd (take k (dirs_of t))) ++ es1) tb ->
  exists tb', foldR (pack_child options g nums data_nums) es2 tb = Ok tb' /\ tb_directories tb' = tb_directories tb /\
    packed (t :: concat (map snd (take k (dirs_of t))) ++ entries) tb'.
Proof.
  intros Hk. induction es2 as [|n es2 IH]; intros es1 tb -> Hp.
  { exists tb. rewrite app_nil_r in *. done. }
  destruct (child_parent k e _ n Hk) as [Hn Hpar]; [apply elem_of_app; right; by left|].
  assert (entries_of t = (t :: concat (map snd (take k (dirs_of t))) ++ es1) ++ n :: es2 ++ concat (map snd (drop (S k) (dirs_of t)))) as Eall.
  { unfold entries_of. cbn [app]. f_equal. rewrite <- (take_drop_middle _ _ _ Hk) at 1. rewrite map_app, concat_app. cbn [map concat snd].
    by rewrite <- !app_assoc. }
  pose proof entries_nodup as Hnd. rewrite Eall in Hnd. apply NoDup_app in Hnd as (_ & Hdisj & _).
  destruct (pack_child_ok _ tb n Hp Hn) as (tb1 & E1 & D1 & P1).
  - unfold has_parent. by rewrite Hpar.
  - intros m Hm. apply elem_of_entries. rewrite Eall. apply elem_of_app. by left.
  - intros Hin. apply (Hdisj n Hin). by left.
  - destruct (IH (es1 ++ [n]) tb1) as (tb2 & E2 & D2 & P2); [by rewrite <- app_assoc| |].
    + rewrite app_comm_cons, app_assoc in *. cbn [app] in P1. by rewrite <- !app_assoc in *.
    + exists tb2. cbn [foldR]. rewrite E1. cbn [rbind]. split; [done|]. by rewrite D2, D1.
Qed.

(** An entry that was appended before has its place. *)
Lemma index_of_entry k l tb n : packed l tb -> l = t :: concat (map snd (take k (dirs_of t))) -> n ∈ l ->
  tb_index tb !! eid n = Some (entry_pos t (eid n)).
Proof.
  intros Hp -> Hn. apply list_elem_of_lookup in Hn as [i Hi]. rewrite (pk_index _ _ Hp i n Hi). f_equal. symmetry.
  apply entry_pos_lookup. unfold entries_of. rewrite <- (take_drop k (dirs_of t)). rewrite map_app, concat_app, app_comm_cons.
  by apply lookup_app_l_Some.
Qed.

Lemma earlier_entry k e entries : dirs_of t !! k = Some (e, entries) ->
  Dir e entries ∈ t :: concat (map snd (take k (dirs_of t))).
Proof.
  intros Hk. destruct (dirs_of_parent t k e entries Hk) as [[-> ->]|(j & d & Hj & Hd & Hin)]; [by left|]. right.
  apply elem_of_concat_map. exists d. split; [|done]. apply list_elem_of_lookup. exists j. by rewrite lookup_take_lt.
Qed.

Lemma pack_dir_ok k e entries tb : dirs_of t !! k = Some (e, entries) -> packed (t :: concat (map snd (take k (dirs_of t)))) tb ->
  exists tb', pack_dir options g nums data_nums e entries tb = Ok tb' /\ tb_directories tb' = tb_directories tb ++ [dir_at t k (e, entries)] /\
    packed (t :: concat (map snd (take (S k) (dirs_of t)))) tb'.
Proof.
  intros Hk Hp. unfold pack_dir.
  assert (match e_parent e with None => Ok 0 | Some p => match tb_index tb !! p with Some i => Ok i | None => Err (Terminated "parent entry index not set") end end =
    Ok (E := metadata_error) (parent_pos t e)) as ->.
  { unfold parent_pos. destruct (e_parent e) as [p|] eqn:Ep; [|done].
    destruct (dirs_of_parent t k e entries Hk) as [[-> Et]|(j & [pe pes] & Hj & Hd & Hin)].
    - destruct (to_root _ Ht) as (e' & es' & Et' & Hr). rewrite Et in Et'. injection Et' as <- <-. congruence.
    - destruct (child_parent j pe pes (Dir e entries) Hd Hin) as [_ Hpar]. cbn [head] in Hpar. rewrite Ep in Hpar. injection Hpar as ->.
      pose proof (index_of_entry k _ tb (Dir pe pes) Hp eq_refl) as Hix. change (eid (Dir pe pes)) with (e_id pe) in Hix. rewrite Hix; [done|].
      pose proof (earlier_entry j pe pes Hd) as He. apply elem_of_cons in He as [->|He]; [by left|]. right.
      apply elem_of_concat_map in He as (d & Hd' & Hin'). apply elem_of_concat_map. exists d. split; [|done].
      apply list_elem_of_lookup in Hd' as [i Hi]. apply lookup_take_Some in Hi as [Hi Hij]. apply list_elem_of_lookup. exists i. by rewrite lookup_take_lt by lia. }
  cbn [rbind]. pose proof (index_of_entry k _ tb (Dir e entries) Hp eq_refl (earlier_entry k e entries Hk)) as Hix.
  change (eid (Dir e entries)) with (e_id e) in Hix. rewrite Hix. cbn [rbind].
  destruct (pack_children_ok k e entries Hk entries []
    (EntryTables (tb_directories tb ++ [Directory (parent_pos t e) (zlen (tb_entries tb)) (entry_pos t (e_id e))]) (tb_inodes tb) (tb_entries tb) (tb_index tb)))
    as (tb' & E & D & P); [done| |].
  - rewrite app_nil_r. destruct Hp. by split.
  - exists tb'. split; [exact E|]. split.
    + rewrite D. cbn [tb_directories]. unfold dir_at. cbn [fst]. repeat f_equal. rewrite (pk_entries _ _ Hp). unfold zlen, first_of, zlen. rewrite length_map. cbn [length]. lia.
    + rewrite (take_S_r _ _ _ Hk), map_app, concat_app. cbn [map concat snd]. by rewrite app_nil_r.
Qed.

Lemma gather_dirs_ok ds2 ds1 tb : dirs_of t = ds1 ++ ds2 -> ds1 <> [] ->
  packed (t :: concat (map snd ds1)) tb -> tb_directories tb = imap (dir_at t) ds1 ->
  exists tb', foldR (gather_dir options g nums data_nums) (map Some ds2) tb = Ok tb' /\
    packed (entries_of t) tb' /\ tb_directories tb' = imap (dir_at t) (dirs_of t).
Proof.
  revert ds1 tb. induction ds2 as [|[e entries] ds2 IH]; intros ds1 tb Ed Hne Hp Hd.
  { exists tb. unfold entries_of. rewrite Ed, app_nil_r. done. }
  assert (dirs_of t !! length ds1 = Some (e, entries)) as Hk by (rewrite Ed; apply list_lookup_middle; done).
  assert (take (length ds1) (dirs_of t) = ds1) as Htake by (rewrite Ed; apply take_app_length).
  assert (has_parent e = true) as Hpar.
  { destruct (dirs_of_parent t _ e entries Hk) as [[E _]|(j & [pe pes] & Hj & Hd' & Hin)]; [by destruct ds1|].
    destruct (child_parent j pe pes (Dir e entries) Hd' Hin) as [_ Hpar]. unfold has_parent. cbn [head] in Hpar. by rewrite Hpar. }
  destruct (pack_dir_ok (length ds1) e entries tb Hk) as (tb1 & E1 & D1 & P1); [by rewrite Htake|].
  assert (take (S (length ds1)) (dirs_of t) = ds1 ++ [(e, entries)]) as Htake1 by (by rewrite (take_S_r _ _ _ Hk), Htake).
  rewrite Htake1 in P1. destruct (IH (ds1 ++ [(e, entries)]) tb1) as (tb2 & E2 & H2).
  - by rewrite <- app_assoc.
  - by destruct ds1.
  - exact P1.
  - rewrite D1, Hd, imap_app. cbn [imap]. by rewrite Nat.add_0_r.
  - exists tb2. split; [|done]. cbn [map foldR]. unfold gather_dir at 1. cbn [there rbind]. rewrite Hpar. cbn [rbind]. rewrite E1. exact E2.
Qed.

Record tables_ok (tb : entry_tables) : Prop := {
  tk_entries : tb_entries tb = map (expected_entry g a) (entries_of t);
  tk_directories : tb_directories tb = expected_dirs t;
  tk_length : zlen (tb_inodes tb) = last_inode a;
  tk_inodes : forall n x, n ∈ preorder t -> num_of a n = Some x -> tb_inodes tb !! Z.to_nat x = Some (expected_inode options g n);
  tk_bare : Forall bare (tb_inodes tb)
}.

Lemma gather_entries_ok : exists tb, gather_entries options g nums data_nums (map Some (dirs_of t)) (last_inode a) = Ok tb /\ tables_ok tb.
Proof.
  destruct (to_root _ Ht) as (e & entries & Et & Hroot). unfold gather_entries.
  assert (dirs_of t = (e, entries) :: concat (map dirs_of entries)) as Ed by (rewrite dirs_of_eq, Et; done).
  set (tb0 := EntryTables [] (replicate (Z.to_nat (last_inode a)) (InodeData 0 0 0 0 0 0)) [] ∅).
  assert (t ∈ preorder t) as Hin by apply preorder_self.
  assert (0 <= last_inode a) as Hlast by (pose proof (rank_offset_mono t a Ha INO_DIR (INO_OTH + 1) ltac:(done)); destruct (rank_values t a) as ((V1 & _) & _ & _ & _ & (_ & V2)); lia).
  assert (packed [] tb0) as P0.
  { split; cbn; [done|done|unfold zlen; rewrite length_replicate; lia|by intros ? ? ?%elem_of_nil|]. apply Forall_replicate. done. }
  destruct (num_range t a Ha t Hin) as (x & Ex & _).
  destruct (push_ok [] tb0 t x P0 Hin) as (tb1 & E1 & D1 & P1); [by intros ? ?%elem_of_nil|by apply not_elem_of_nil|done|].
  cbn [app] in P1.
  destruct (pack_dir_ok 0 e entries tb1) as (tb2 & E2 & D2 & P2); [by rewrite Ed|done|].
  assert (take 1 (dirs_of t) = [(e, entries)]) as Htake by (by rewrite Ed). rewrite Htake in P2.
  destruct (gather_dirs_ok (concat (map dirs_of entries)) [(e, entries)] tb2) as (tb3 & E3 & P3 & D3); [done|done|done|by rewrite D2, D1|].
  assert (foldR (gather_dir options g nums data_nums) (map Some (dirs_of t)) tb0 = Ok tb3) as ->.
  { rewrite Ed. cbn [map foldR]. unfold gather_dir at 1. cbn [there rbind]. unfold has_parent at 1. rewrite Hroot. cbn [negb].
    unfold pack_entry. assert (has_parent e = false) as Hhp by (unfold has_parent; by rewrite Hroot). rewrite Hhp.
    cbn [rbind]. assert (nums !! e_id e = Some x) as Hx by (rewrite Et in Ex; exact Ex). rewrite Hx. cbn [nothrow rbind].
    unfold name_index_of, estat, eid in E1. rewrite Et in E1. cbn [head] in E1. rewrite Hhp in E1. rewrite E1. cbn [rbind]. rewrite E2. exact E3. }
  cbn [rbind]. eexists. split; [done|]. destruct P3 as [K1 K2 K3 K4 K5]. split; cbn; try done.
  - rewrite D3, K1. unfold expected_dirs, zlen. by rewrite length_map.
  - intros n y Hn. apply K4. by apply elem_of_entries.
Qed.

Lemma dirs_count : zlen (dirs_of t) = first_link_inode a.
Proof.
  rewrite (nb_first_link _ _ Ha). unfold dirs_of. rewrite <- of_kind_dirs. unfold zlen. f_equal.
  assert (forall l, (forall n, n ∈ l -> kind n = INO_DIR) -> length (omap dir_of l) = length l) as Hl; [|apply Hl; intros n Hn; by apply of_kind_elem in Hn as [? _]].
  clear. induction l as [|n l IH]; intros Hk; [done|]. pose proof (Hk n ltac:(by left)) as Hn.
  destruct n as [e data|e entries|e linkname|e]; try done; [|cbn in Hn; by destruct (is_device_type e)].
  cbn. rewrite IH; [done|]. intros n Hin. apply Hk. by right.
Qed.

(** The directories, saved by their numbers. *)
Lemma save_directories_ok : accept (save_directories_visitor nums) false t (replicate (Z.to_nat (first_link_inode a)) None) = Ok (map Some (dirs_of t)).
Proof.
  rewrite accept_postorder.
  pose proof dirs_count as Hlen.
  destruct (foldR_ind (visit (save_directories_visitor nums)) (fun l dirs =>
      zlen dirs = first_link_inode a /\ forall i d, dirs_of t !! i = Some d -> Dir d.1 d.2 ∈ l -> dirs !! i = Some (Some d))
    (postorder t) (replicate (Z.to_nat (first_link_inode a)) None)) as (dirs & -> & Hl & Hd).
  - split; [unfold zlen in *; rewrite length_replicate; lia|]. by intros i d _ ?%elem_of_nil.
  - intros l1 n l2 dirs El [Hl Hd].
    assert (forall l, (forall i d, dirs_of t !! i = Some d -> Dir d.1 d.2 ∈ l1 ++ [n] -> l !! i = Some (Some d)) -> zlen l = first_link_inode a ->
      visit (save_directories_visitor nums) n dirs = Ok l -> exists s', visit (save_directories_visitor nums) n dirs = Ok s' /\ zlen s' = first_link_inode a /\
        forall i d, dirs_of t !! i = Some d -> Dir d.1 d.2 ∈ l1 ++ [n] -> s' !! i = Some (Some d)) as Hdone by eauto.
    destruct n as [e data|e entries|e linkname|e].
    1, 3, 4: apply (Hdone dirs); [|done|done]; intros i d Hi Hin; apply Hd; [done|]; by apply elem_of_app in Hin as [?|Hin%list_elem_of_singleton].
    assert (Dir e entries ∈ preorder t) as Hin by (rewrite <- postorder_preorder, El; apply elem_of_app; right; by left).
    assert ((e, entries) ∈ dirs_of t) as Hde by (apply list_elem_of_omap; by exists (Dir e entries)).
    apply list_elem_of_lookup in Hde as [i Hi]. pose proof (num_dir t a Ha i e entries Hi) as Hnum. pose proof (lookup_zlen _ _ _ Hi) as Hil.
    cbn [visit save_directories_visitor visit_dir]. rewrite Hnum. replace ((0 <=? Z.of_nat i) && (Z.of_nat i <? zlen dirs)) with true by lia.
    eexists. split; [done|]. split; [unfold zlen in *; by rewrite length_insert|]. intros j d Hj Hjn. rewrite Nat2Z.id.
    destruct (decide (j = i)) as [->|Hne].
    + etrans; [apply list_lookup_insert_eq; unfold zlen in *; lia|]. congruence.
    + etrans; [by apply list_lookup_insert_ne|]. apply Hd; [done|]. apply elem_of_app in Hjn as [?|Hjn%list_elem_of_singleton]; [done|].
      exfalso. apply Hne. injection Hjn as E1 E2. destruct d as [e' es']. cbn in *. subst.
      pose proof (num_dir t a Ha j e entries Hj) as Hnum'. rewrite Hnum in Hnum'. injection Hnum' as ?. lia.
  - f_equal. apply list_eq. intros i. rewrite list_lookup_fmap. destruct (dirs_of t !! i) as [d|] eqn:Ed; cbn.
    + apply Hd; [done|]. rewrite postorder_preorder. destruct d as [e es]. by eapply dirs_preorder.
    + apply lookup_ge_None. apply lookup_ge_None in Ed. unfold zlen in *. lia.
Qed.
End tables.
