(* ===== verification/GatheredMetadata.v ===== *)
(** * GatheredMetadata: the metadata gathered from a tree

    The table of shared files, the change of modes, and what
    [gather_metadata] has made when nothing is packed yet. *)

From S2P Require Import Prelude FileChunks PackedInts StringTable Metadata MetadataReader EntryTree MetadataBuilder EntryLists TreeTables EntryData EntryTables.
Local Open Scope Z_scope.

#[local] Abbreviation checked := (result metadata_error).

(** ** Shared files *)

Lemma shared_from_nonneg groups k i x : concat (imap (fun g n => replicate n (Z.of_nat (k + g))) groups) !! i = Some x -> 0 <= x.
Proof.
  intros H. apply list_elem_of_lookup_2 in H. apply list_elem_of_In, in_concat in H as (l & Hl & Hx).
  apply list_elem_of_In in Hl, Hx. apply elem_of_lookup_imap in Hl as (g & n & -> & _). apply elem_of_replicate in Hx as [-> _]. lia.
Qed.

Section gathered.
Context (t : entry) (Ht : tree_ok t) (a : assigned) (Ha : numbered t a).

Lemma offsets_bound : 0 <= first_link_inode a <= first_file_inode a /\ first_file_inode a <= first_device_inode a <= last_inode a /\
  last_inode a < 2 ^ 31 - 1.
Proof.
  pose proof (nb_bound _ _ Ha). pose proof (to_size _ Ht).
  pose proof (rank_offset_mono t a Ha INO_DIR INO_LNK ltac:(done)). pose proof (rank_offset_mono t a Ha INO_LNK INO_REG ltac:(done)).
  pose proof (rank_offset_mono t a Ha INO_REG INO_DEV ltac:(done)). pose proof (rank_offset_mono t a Ha INO_DEV (INO_OTH + 1) ltac:(done)).
  destruct (rank_values t a) as ((V1 & V2) & (V3 & V4) & (V5 & V6) & (V7 & V8) & (V9 & V10)). unfold INO_OTH in *.
  assert (rank_offset t a INO_DEV = first_device_inode a) by done. lia.
Qed.

Lemma save_shared_files_ok : exists groups, save_shared_files a t = Ok (shared_list groups) /\ Forall (fun n => (2 <= n)%nat) groups /\
  zlen (shared_list groups) = first_device_inode a - first_file_inode a - num_unique (as_files a) /\
  forall e data num, File e data ∈ preorder t -> file_inode_nums (as_files a) !! data = Some num ->
    exists u, unique_file_ids (as_files a) !! data = Some u /\
      if num - first_file_inode a <? num_unique (as_files a) then u = num - first_file_inode a
      else shared_list groups !! Z.to_nat (num - first_file_inode a - num_unique (as_files a)) = Some (u - num_unique (as_files a)).
Proof.
  pose proof (nb_files _ _ Ha) as Hf. destruct (fn_groups _ _ _ _ Hf) as (groups & G1 & G2 & G3). exists groups.
  split_and!; [|done|done|done]. pose proof offsets_bound as Hb. pose proof (fn_unique _ _ _ _ Hf) as Hu. pose proof (zlen_nonneg (shared_list groups)).
  unfold save_shared_files. set (first := first_file_inode a) in *. set (nu := num_unique (as_files a)) in *.
  rewrite (wrapu_small 32 (first_device_inode a - first)) by (unfold in_u; lia). unfold dwarfs_check.
  replace (nu <=? first_device_inode a - first) with true by lia. cbn [rbind]. rewrite !(wrapu_small 32) by (unfold in_u; lia).
  rewrite accept_postorder.
  destruct (foldR_ind (visit (save_shared_files_visitor (as_files a) (first + nu))) (fun l table =>
      zlen table = zlen (shared_list groups) /\
      forall e data num, File e data ∈ l -> file_inode_nums (as_files a) !! data = Some num -> first + nu <= num ->
        table !! Z.to_nat (num - (first + nu)) = shared_list groups !! Z.to_nat (num - (first + nu)))
    (postorder t) (replicate (Z.to_nat (first_device_inode a - (first + nu))) 0)) as (table & -> & Hl & Htab).
  - split; [unfold zlen at 1; rewrite length_replicate; lia|]. by intros ? ? ? ?%elem_of_nil.
  - intros l1 n l2 table El [Hl Htab].
    destruct n as [e data|e entries|e linkname|e].
    2, 3, 4: exists table; split; [done|]; split; [done|]; intros e' data num Hin; apply (Htab e'); by apply elem_of_app in Hin as [?|Hin%list_elem_of_singleton].
    assert (File e data ∈ preorder t) as Hin by (rewrite <- postorder_preorder, El; apply elem_of_app; right; by left).
    destruct (fn_range _ _ _ _ Hf e data Hin) as (num & Enum & Rnum). destruct (G3 e data num Hin Enum) as (u & Eu & Hshared).
    cbn [visit save_shared_files_visitor visit_file]. rewrite Enum. cbn [bad_optional_access rbind].
    destruct (Z.leb_spec (first + nu) num) as [Hge|Hlt].
    + replace (num - first <? nu) with false in Hshared by lia. rewrite Eu. cbn [rbind].
      pose proof (shared_from_nonneg groups 0 _ _ Hshared) as Hpos. fold nu. unfold dwarfs_check. replace (nu <=? u) with true by lia. cbn [rbind].
      unfold add_symlink_table_entry. fold first in Rnum. replace ((0 <=? num - (first + nu)) && (num - (first + nu) <? zlen table)) with true by lia.
      eexists. split; [done|]. split; [unfold zlen in *; by rewrite length_insert|]. intros e' data' num' Hin' Enum' Hge'.
      destruct (decide (num' = num)) as [->|Hne].
      * rewrite list_lookup_insert_eq by (unfold zlen in *; lia). rewrite Z.sub_add_distr in *. by rewrite Hshared.
      * rewrite list_lookup_insert_ne by lia. apply (Htab e' data'); [|done|done].
        apply elem_of_app in Hin' as [?|Hin'%list_elem_of_singleton]; [done|]. congruence.
    + exists table. split; [done|]. split; [done|]. intros e' data' num' Hin' Enum' Hge'. apply (Htab e' data'); [|done|done].
      apply elem_of_app in Hin' as [?|Hin'%list_elem_of_singleton]; [done|]. injection Hin' as -> ->. rewrite Enum in Enum'. injection Enum' as <-. lia.
  - f_equal. apply list_eq. intros i. destruct (decide (i < length table)%nat) as [Hi|Hi].
    + destruct (fn_onto _ _ _ _ Hf (first + nu + Z.of_nat i)) as (e & d & Hin & Hd); [unfold zlen in *; fold first; lia|].
      replace i with (Z.to_nat (first + nu + Z.of_nat i - (first + nu))) by lia. apply (Htab e d); [|done|lia]. by rewrite postorder_preorder.
    + rewrite !lookup_ge_None_2; [done|unfold zlen in *; lia|lia].
Qed.
End gathered.

(** ** Modes *)

(** The mode an entry has in the image. *)
Definition new_mode (options : writer_options) (mode : Z) : Z :=
  match chmod_chain options with [] => mode | chain => transform_mode chain mode end.

Lemma chmod_inodes_ok chain modes inodes new_modes index_map :
  Forall (fun ino => 0 <= mode_index ino < zlen modes) inodes ->
  (forall m ix, index_map !! m = Some ix -> new_modes !! Z.to_nat ix = Some m /\ 0 <= ix) ->
  exists inodes' modes', chmod_inodes chain modes inodes new_modes index_map = Ok (inodes', new_modes ++ modes') /\
    Forall2 (fun ino ino' => exists m ix, modes !! Z.to_nat (mode_index ino) = Some m /\ ino' = set_mode_index ix ino /\ 0 <= ix /\
      (new_modes ++ modes') !! Z.to_nat ix = Some (transform_mode chain m)) inodes inodes'.
Proof.
  intros Hin. revert new_modes index_map. induction Hin as [|ino inodes Hi _ IH]; intros new_modes index_map Hmap.
  { exists [], []. by rewrite app_nil_r. }
  cbn [chmod_inodes]. replace (mode_index ino <? 0) with false by lia.
  destruct (lookup_lt_is_Some_2 modes (Z.to_nat (mode_index ino))) as [m Em]; [unfold zlen in Hi; lia|]. rewrite Em. cbn [rbind].
  destruct (index_map !! transform_mode chain m) as [ix|] eqn:Eix.
  - destruct (IH new_modes index_map Hmap) as (inodes' & modes' & -> & H). cbn [rbind]. exists (set_mode_index ix ino :: inodes'), modes'.
    split; [done|]. constructor; [|done]. exists m, ix. destruct (Hmap _ _ Eix) as [H1 H2]. split_and!; [done|done|done|by apply lookup_app_l_Some].
  - assert ((new_modes ++ [transform_mode chain m]) !! Z.to_nat (zlen new_modes) = Some (transform_mode chain m)) as Hnew.
    { unfold zlen. rewrite Nat2Z.id. by apply list_lookup_middle. }
    destruct (IH (new_modes ++ [transform_mode chain m]) (<[transform_mode chain m := zlen new_modes]> index_map)) as (inodes' & modes' & -> & H).
    + intros m' ix' H'. apply lookup_insert_Some in H' as [[<- <-]|[_ H']]; [split; [done|apply zlen_nonneg]|].
      destruct (Hmap _ _ H') as [H1 H2]. split; [by apply lookup_app_l_Some|done].
    + cbn [rbind]. exists (set_mode_index (zlen new_modes) ino :: inodes'), (transform_mode chain m :: modes').
      rewrite <- app_assoc in H |- *. cbn [app] in *. split; [done|]. constructor; [|done]. exists m, (zlen new_modes).
      split_and!; [done|done|apply zlen_nonneg|]. replace (new_modes ++ transform_mode chain m :: modes') with ((new_modes ++ [transform_mode chain m]) ++ modes') by (by rewrite <- app_assoc).
      by apply lookup_app_l_Some.
Qed.

Lemma apply_chmod_ok options modes inodes : Forall (fun ino => 0 <= mode_index ino < zlen modes) inodes ->
  exists inodes' modes', apply_chmod options modes inodes = Ok (inodes', modes') /\
    Forall2 (fun ino ino' => exists m ix, modes !! Z.to_nat (mode_index ino) = Some m /\ ino' = set_mode_index ix ino /\ 0 <= ix /\
      modes' !! Z.to_nat ix = Some (new_mode options m)) inodes inodes'.
Proof.
  intros Hin. unfold apply_chmod, new_mode. destruct (chmod_chain options) as [|f chain].
  - exists inodes, modes. split; [done|]. induction Hin as [|ino inodes Hi _ IH]; [constructor|]. constructor; [|done].
    destruct (lookup_lt_is_Some_2 modes (Z.to_nat (mode_index ino))) as [m Em]; [unfold zlen in Hi; lia|].
    exists m, (mode_index ino). split_and!; [done|by destruct ino|lia|done].
  - destruct (chmod_inodes_ok (f :: chain) modes inodes [] ∅ Hin) as (inodes' & modes' & E & H); [by intros m ix; rewrite lookup_empty|].
    by exists inodes', modes'.
Qed.

(** The transformers give permissions. *)
Definition chain_ok (chain : list (Z -> bool -> option Z)) : Prop :=
  Forall (fun f => forall p d q, 0 <= p <= kPermissionsMask -> f p d = Some q -> 0 <= q <= kPermissionsMask) chain.

Lemma apply_chain_range chain p d : chain_ok chain -> 0 <= p <= kPermissionsMask -> 0 <= apply_chain chain p d <= kPermissionsMask.
Proof.
  unfold apply_chain. intros H. revert p. induction H as [|f chain Hf _ IH]; intros p Hp; [done|]. cbn [foldl]. apply IH.
  destruct (f p d) as [q|] eqn:E; cbn [default]; [by eapply Hf|done].
Qed.

Lemma transform_mode_type chain m : chain_ok chain -> file_type (transform_mode chain m) = file_type m.
Proof.
  intros Hc. unfold file_type at 1, transform_mode.
  pose proof (apply_chain_range chain (Z.land m kPermissionsMask) (file_type m =? S_IFDIR) Hc ltac:(apply land_le_r; done)) as Hp.
  set (p := apply_chain _ _ _) in *. rewrite Z.land_lor_distr_l, <- Z.land_assoc.
  replace (Z.land (Z.lxor (2 ^ 32 - 1) kPermissionsMask) S_IFMT) with S_IFMT by done.
  assert (Z.land p S_IFMT = 0) as ->; [|by rewrite Z.lor_0_r]. apply Z.bits_inj'. intros i Hi. rewrite Z.land_spec, Z.bits_0.
  unfold kPermissionsMask in Hp. destruct (Z_lt_le_dec i 12) as [Hlt|Hge]; [|by rewrite (testbit_above 12 p i) by lia].
  replace (Z.testbit S_IFMT i) with false; [apply andb_false_r|]. change S_IFMT with (Z.shiftl 0xF 12). by rewrite Z.shiftl_spec_low by lia.
Qed.

Lemma new_mode_rank options m : chain_ok (chmod_chain options) -> get_inode_rank (new_mode options m) = get_inode_rank m.
Proof.
  intros Hc. unfold get_inode_rank, new_mode. destruct (chmod_chain options) as [|f chain]; [done|]. by rewrite transform_mode_type.
Qed.

(** ** Finding where a rank begins *)

Lemma lower_bound_ok fuel first len p less : (forall i, first <= i < first + len -> less i = Ok (i <? p)) ->
  first <= p <= first + len -> 0 <= len <= Z.of_nat fuel -> lower_bound fuel first len less = Ok p.
Proof.
  revert first len. induction fuel as [|fuel IH]; intros first len Hless Hp Hf; cbn [lower_bound].
  { f_equal. lia. }
  destruct (Z.eqb_spec len 0) as [->|Hne]; [f_equal; lia|].
  pose proof (Z.div_pos len 2 ltac:(lia) ltac:(lia)). pose proof (Z.div_lt len 2 ltac:(lia) ltac:(lia)).
  rewrite Hless by lia. cbn [rbind]. destruct (Z.ltb_spec (first + len / 2) p).
  - apply IH; [intros i Hi; apply Hless; lia|lia|lia].
  - apply IH; [intros i Hi; apply Hless; lia|lia|lia].
Qed.

Section described.
Context (t : entry) (Ht : tree_ok t) (a : assigned) (Ha : numbered t a) (options : writer_options) (g : global_entry_data).

(** An inode of the metadata has the attributes of the entry. *)
Record shows (meta : fs_metadata) (n : entry) (ino : inode_data) : Prop := {
  sh_mode : 0 <= mode_index ino /\ md_modes meta !! Z.to_nat (mode_index ino) = Some (new_mode options (emode n));
  sh_uid : 0 <= owner_index ino /\ md_uids meta !! Z.to_nat (owner_index ino) = Some (default (es_uid (estat n)) (wo_uid options));
  sh_gid : 0 <= group_index ino /\ md_gids meta !! Z.to_nat (group_index ino) = Some (default (es_gid (estat n)) (wo_gid options))
}.

Record described (meta : fs_metadata) : Prop := {
  ds_entries : md_dir_entries meta = Some (map (expected_entry g a) (entries_of t));
  ds_old : md_entry_table_v2_2 meta = [];
  ds_length : zlen (md_inodes meta) = last_inode a;
  ds_inodes : forall n x, n ∈ preorder t -> num_of a n = Some x ->
    exists ino, md_inodes meta !! Z.to_nat x = Some ino /\ shows meta n ino;
  ds_table : zlen (md_symlink_table meta) = first_file_inode a - first_link_inode a;
  ds_links : forall e target x, Link e target ∈ preorder t -> as_nums a !! e_id e = Some x ->
    exists ix, md_symlink_table meta !! Z.to_nat (x - first_link_inode a) = Some ix /\ 0 <= ix /\
      get_vector (ge_symlinks g) !! Z.to_nat ix = Some target;
  ds_devices : md_devices meta = Some (map rdev_of (devs t))
}.

Context (Hc : chain_ok (chmod_chain options)).

Lemma described_rank meta x : described meta -> 0 <= x < last_inode a ->
  exists n m, n ∈ preorder t /\ num_of a n = Some x /\ inode_mode meta x = Ok m /\ get_inode_rank m = Ok (kind n).
Proof.
  intros Hd Hx. destruct (num_onto t a Ha x Hx) as (n & Hn & Ex). destruct (ds_inodes _ Hd n x Hn Ex) as (ino & Hino & [[H0 Hm] _ _]).
  exists n, (new_mode options (emode n)). split_and!; [done|done| |].
  - unfold inode_mode, at_index. replace (x <? 0) with false by lia. rewrite Hino. cbn [there rbind].
    replace (mode_index ino <? 0) with false by lia. by rewrite Hm.
  - rewrite new_mode_rank by done. by apply (to_types _ Ht).
Qed.

Lemma find_inode_rank_offset_ok meta k : described meta -> INO_DIR <= k <= INO_OTH + 1 ->
  find_inode_rank_offset meta k = Ok (rank_offset t a k).
Proof.
  intros Hd Hk. unfold find_inode_rank_offset. rewrite (ds_entries _ Hd). unfold find_inode_rank_offset_impl. rewrite (ds_length _ Hd).
  pose proof (rank_offset_mono t a Ha INO_DIR k ltac:(lia)) as R1. pose proof (rank_offset_mono t a Ha k (INO_OTH + 1) ltac:(lia)) as R2.
  destruct (rank_values t a) as ((V1 & _) & _ & _ & _ & (_ & V2)).
  apply lower_bound_ok; [|lia|lia]. intros i Hi. destruct (described_rank meta i Hd ltac:(lia)) as (n & m & Hn & Ex & Em & Er).
  rewrite Em. cbn [rbind]. rewrite Er. cbn [rbind]. f_equal.
  destruct (num_range t a Ha n Hn) as (y & Ey & Ry). rewrite Ex in Ey. injection Ey as <-.
  destruct (Z.ltb_spec (kind n) k) as [H|H].
  - pose proof (rank_offset_mono t a Ha (kind n + 1) k ltac:(lia)). symmetry. apply Z.ltb_lt. lia.
  - pose proof (rank_offset_mono t a Ha k (kind n) ltac:(lia)). symmetry. apply Z.ltb_ge. lia.
Qed.
End described.

(** ** How many modes and owners there are *)

Section counts.
Context (t : entry) (Ht : tree_ok t) (a : assigned) (Ha : numbered t a).

(** An attribute that the inodes of entries have takes at most as many values as
    there are inodes. *)
Lemma attribute_count (h : entry_stat -> Z) (m : gmap Z Z) : enumerated m -> keyed (fun n => Some (h (estat n))) (preorder t) m ->
  zlen (get_vector m) <= last_inode a.
Proof.
  intros He [Hk _]. set (f := fun x => match list_find (fun n => num_of a n = Some x) (preorder t) with Some (_, n) => h (estat n) | None => 0 end).
  pose proof (offsets_bound t Ht a Ha) as Hb. assert (get_vector m ⊆+ map f (seqZ 0 (last_inode a))) as Hs.
  { apply NoDup_submseteq.
    - apply NoDup_alt. intros i j x Hi Hj. apply get_vector_lookup in Hi, Hj; [|done..]. rewrite Hi in Hj. injection Hj as ?. lia.
    - intros x Hx. apply list_elem_of_lookup in Hx as [i Hi]. apply get_vector_lookup in Hi; [|done].
      destruct (proj1 (Hk x)) as (n & Hn & [= <-]); [by eexists|]. destruct (num_range t a Ha n Hn) as (y & Ey & _).
      apply list_elem_of_fmap. exists y. split; [|apply elem_of_seqZ; pose proof (num_bounds t a Ha n y Hn Ey); lia].
      unfold f. destruct (list_find_elem_of (fun n => num_of a n = Some y) (preorder t) n Hn Ey) as [[j n'] E]. rewrite E.
      apply list_find_Some in E as (Hj & Ey' & _). apply list_elem_of_lookup_2 in Hj. by rewrite (num_stat t Ht a Ha n n' y Hn Hj Ey Ey'). }
  apply submseteq_length in Hs. rewrite length_map, length_seqZ in Hs. unfold zlen. lia.
Qed.

Lemma some_inode : 0 < last_inode a.
Proof.
  destruct (num_range t a Ha t (preorder_self t)) as (x & Ex & _). pose proof (num_bounds t a Ha t x (preorder_self t) Ex). lia.
Qed.
End counts.

Lemma chmod_inodes_count chain modes inodes new_modes index_map inodes' modes' :
  chmod_inodes chain modes inodes new_modes index_map = Ok (inodes', modes') -> zlen modes' <= zlen new_modes + zlen inodes.
Proof.
  revert new_modes index_map inodes'. induction inodes as [|ino inodes IH]; intros new_modes index_map inodes' H; cbn [chmod_inodes] in H.
  { injection H as _ <-. unfold zlen. cbn [length]. lia. }
  change (zlen (ino :: inodes)) with (Z.of_nat (S (length inodes))). destruct (if mode_index ino <? 0 then None else modes !! Z.to_nat (mode_index ino)) as [m|]; [|done].
  cbn [rbind] in H. destruct (index_map !! transform_mode chain m) as [ix|].
  - destruct (chmod_inodes chain modes inodes new_modes index_map) as [[i' m']|] eqn:E; [|done]. cbn [rbind] in H. injection H as _ <-. apply IH in E. unfold zlen in *. lia.
  - destruct (chmod_inodes chain modes inodes _ _) as [[i' m']|] eqn:E; [|done]. cbn [rbind] in H. injection H as _ <-. apply IH in E. rewrite zlen_app in E. unfold zlen in *. cbn [length] in E. lia.
Qed.

Lemma apply_chmod_count options modes inodes inodes' modes' : apply_chmod options modes inodes = Ok (inodes', modes') ->
  zlen modes <= zlen inodes -> zlen modes' <= zlen inodes.
Proof.
  unfold apply_chmod. destruct (chmod_chain options) as [|f chain]; [by intros [= _ <-]|]. intros H _. apply chmod_inodes_count in H. unfold zlen in *. cbn [length] in H. lia.
Qed.

(** ** The gathered metadata *)

Record gathered (t : entry) (a : assigned) (options : writer_options) (files : FileChunks.metadata) (g : global_entry_data) (groups : list nat)
    (meta : fs_metadata) : Prop := {
  gm_described : described t a options g meta;
  gm_files : md_files meta = files;
  gm_directories : md_directories meta = expected_dirs t;
  gm_bare : Forall bare (md_inodes meta);
  gm_names : md_names meta = get_vector (ge_names g);
  gm_symlinks : md_symlinks meta = get_vector (ge_symlinks g);
  gm_shared : md_shared_files_table meta = Some (shared_list groups);
  gm_groups : Forall (fun n => (2 <= n)%nat) groups;
  gm_shared_length : zlen (shared_list groups) = first_device_inode a - first_file_inode a - num_unique (as_files a);
  gm_targets : forall e data num, File e data ∈ preorder t -> file_inode_nums (as_files a) !! data = Some num ->
    exists u, unique_file_ids (as_files a) !! data = Some u /\
      if num - first_file_inode a <? num_unique (as_files a) then u = num - first_file_inode a
      else shared_list groups !! Z.to_nat (num - first_file_inode a - num_unique (as_files a)) = Some (u - num_unique (as_files a));
  gm_counts : zlen (md_modes meta) <= last_inode a /\ zlen (md_uids meta) <= last_inode a /\ zlen (md_gids meta) <= last_inode a;
  gm_features : md_features meta = Some (match md_hole_block_index files with Some _ => ["sparsefiles"%string] | None => [] end)
}.

Lemma gather_metadata_ok t finalize options files : tree_ok t -> FinalizesFiles t finalize ->
  exists a g groups meta, assign_inodes finalize t = Ok a /\ numbered t a /\ entry_data_ok options (preorder t) g /\
    gather_metadata options finalize files t = Ok meta /\ gathered t a options files g groups meta.
Proof.
  intros Ht Hfin. destruct (assign_inodes_ok t Ht finalize Hfin) as (a & Ea & Ha).
  destruct (save_names_and_symlinks_ok t Ht a Ha options) as (g & table & Eg & Hg & Htab & Hlinks).
  destruct (gather_entries_ok t Ht a Ha options g Hg) as (tb & Etb & [T1 T2 T3 T4 T5]).
  destruct (save_shared_files_ok t Ht a Ha) as (groups & Esh & G1 & G2 & G3).
  assert (Forall (fun ino => 0 <= mode_index ino < zlen (get_vector (ge_modes g))) (tb_inodes tb)) as Hmi.
  { apply Forall_lookup_2. intros x ino Hx. pose proof (lookup_zlen _ _ _ Hx) as Hxl.
    destruct (num_onto t a Ha (Z.of_nat x)) as (n & Hn & Ex); [lia|]. pose proof (T4 n _ Hn Ex) as Hino. rewrite Nat2Z.id, Hx in Hino. injection Hino as ->.
    destruct Hg as [[(He & _ & [Hk _]) _ _] _ _].
    destruct (get_vector_index (ge_modes g) (emode n) He) as (i & Ei & _ & Ri); [apply Hk; by exists n|].
    cbn [mode_index expected_inode]. rewrite Ei, get_vector_zlen. exact Ri. }
  destruct (apply_chmod_ok options (get_vector (ge_modes g)) (tb_inodes tb) Hmi) as (inodes & modes & Ech & Hch).
  unfold gather_metadata. rewrite Ea. cbn [rbind]. rewrite Eg. cbn [rbind]. unfold save_entries. rewrite (save_directories_ok t a Ha). cbn [rbind].
  rewrite Etb. cbn [rbind]. rewrite Esh. cbn [rbind]. rewrite Ech. cbn [rbind]. exists a, g, groups. eexists. split; [done|]. split; [done|]. split; [done|]. split; [done|].
  split; cbn; try done; [split; cbn; try done|..].
  - by rewrite T1.
  - unfold zlen in *. by rewrite <- (Forall2_length _ _ _ Hch).
  - intros n x Hn Ex. destruct (Forall2_lookup_l _ _ _ _ _ Hch (T4 n x Hn Ex)) as (ino & Hino & m & ix & Em & -> & Hix & Eix).
    eexists. split; [exact Hino|]. destruct Hg as [[(He & _ & [Hk _]) Hu Hgi] _ _].
    destruct (get_vector_index (ge_modes g) (emode n) He) as (i & Ei & Gi & Ri); [apply Hk; by exists n|].
    cbn [mode_index expected_inode] in Em. rewrite Ei in Em. change (default 0 (Some i)) with i in Em. rewrite Gi in Em. injection Em as <-.
    split; cbn.
    + done.
    + destruct (wo_uid options) as [u|] eqn:Eu; [done|]. destruct (Hu eq_refl) as (Hue & _ & [Huk _]).
      destruct (get_vector_index (ge_uids g) (es_uid (estat n)) Hue) as (j & Ej & Gj & Rj); [apply Huk; by exists n|].
      rewrite Ej. cbn. split; [lia|done].
    + destruct (wo_gid options) as [v|] eqn:Ev; [done|]. destruct (Hgi eq_refl) as (Hge & _ & [Hgk _]).
      destruct (get_vector_index (ge_gids g) (es_gid (estat n)) Hge) as (j & Ej & Gj & Rj); [apply Hgk; by exists n|].
      rewrite Ej. cbn. split; [lia|done].
  - intros e target x Hin Hx. rewrite (Hlinks e target x Hin Hx). destruct Hg as [_ _ [He [Hk _]]].
    destruct (get_vector_index (ge_symlinks g) target He) as (ix & Ei & Gi & Ri); [apply Hk; by exists (Link e target)|].
    exists ix. split_and!; [done|lia|done].
  - by rewrite (nb_devices _ _ Ha).
  - apply Forall_lookup_2. intros x ino Hx. destruct (Forall2_lookup_r _ _ _ _ _ Hch Hx) as (ino0 & Hino0 & m & ix & _ & -> & _).
    pose proof (Forall_lookup_1 _ _ _ _ T5 Hino0) as (B1 & B2 & B3). split_and!; by cbn.
  - pose proof (some_inode t a Ha) as Hpos. assert (zlen (tb_inodes tb) = last_inode a) as Hlen by done. destruct Hg as [[(Hme & _ & Hmk) Hu Hgi] _ _]. split_and!.
    + rewrite <- Hlen. apply (apply_chmod_count _ _ _ _ _ Ech). rewrite Hlen. by apply (attribute_count t Ht a Ha es_mode).
    + destruct (wo_uid options) as [u|]; [change (zlen [u]) with 1; lia|]. destruct (Hu eq_refl) as (Hue & _ & Huk). by apply (attribute_count t Ht a Ha es_uid).
    + destruct (wo_gid options) as [v|]; [change (zlen [v]) with 1; lia|]. destruct (Hgi eq_refl) as (Hge & _ & Hgk). by apply (attribute_count t Ht a Ha es_gid).
Qed.
