(* ===== verification/BuiltMetadata.v ===== *)
(** * BuiltMetadata: the metadata that is built

    What [build] does with the gathered metadata: the counts of links, the
    cache of sizes, and the tables that are packed or not, each of which the
    reader unpacks to what it was. *)

From S2P Require Import Prelude FileChunks PackedInts StringTable Metadata MetadataReader EntryTree MetadataBuilder EntryLists TreeTables EntryData EntryTables GatheredMetadata.
Local Open Scope Z_scope.

#[local] Abbreviation checked := (result metadata_error).

(** ** Directories *)

Lemma pack_directories_first last dirs : map first_entry (pack_directories_from last dirs) = adjacent_difference_from last (map first_entry dirs).
Proof. revert last. induction dirs as [|d dirs IH]; intros last; [done|]. cbn. by rewrite IH. Qed.

Lemma pack_directories_length last dirs : length (pack_directories_from last dirs) = length dirs.
Proof. revert last. induction dirs as [|d dirs IH]; intros last; [done|]. cbn. by rewrite IH. Qed.

(** The directories the reader starts from. *)
Lemma unpacked_first dirs : Forall (in_u 32) (map first_entry dirs) ->
  map (fun f => Directory 0 f 0) (partial_sum (map first_entry (pack_directories_from 0 dirs))) =
    map (fun d => Directory 0 (first_entry d) 0) dirs.
Proof.
  intros H. rewrite pack_directories_first. fold (adjacent_difference (map first_entry dirs)).
  rewrite partial_sum_adjacent_difference by done. by rewrite map_map.
Qed.

(** ** Shared files *)

Lemma imap_shift {A} (f : nat -> A -> list Z) l : imap (fun i x => f (S i) x) l = imap (f ∘ S) l.
Proof. done. Qed.

Definition shared_from (k : Z) (groups : list nat) : list Z := concat (imap (fun g n => replicate n (k + Z.of_nat g)) groups).

Lemma shared_from_cons k n groups : shared_from k (n :: groups) = replicate n k ++ shared_from (k + 1) groups.
Proof.
  unfold shared_from. cbn [imap concat]. rewrite Z.add_0_r. f_equal. f_equal. apply imap_ext. intros i m _. cbn. f_equal. lia.
Qed.

Lemma shared_list_from groups : shared_list groups = shared_from 0 groups.
Proof. done. Qed.

Definition pack_groups (groups : list nat) : list Z := map (fun n => Z.of_nat n - 2) groups.

Lemma compress_run m sf k c : compress_shared (replicate m k ++ sf) k c = compress_shared sf k (c + Z.of_nat m).
Proof.
  revert c. induction m as [|m IH]; intros c; [cbn [replicate app]; f_equal; lia|]. cbn [replicate app compress_shared].
  rewrite Z.eqb_refl, IH. f_equal. lia.
Qed.

Lemma compress_groups groups k n : Forall (fun n => (2 <= n)%nat) groups -> (2 <= n)%nat -> Z.of_nat n < 2 ^ 32 -> zlen (shared_from k groups) < 2 ^ 32 ->
  compress_shared (shared_from k groups) (k - 1) (Z.of_nat n) = Ok (pack_groups (n :: groups)).
Proof.
  intros Hg. revert k n. induction Hg as [|m groups Hm Hg IH]; intros k n Hn Hlt Hlen.
  { unfold shared_from. cbn. rewrite wrapu_small by (unfold in_u; lia). done. }
  rewrite shared_from_cons in *. rewrite zlen_app in Hlen. unfold zlen at 1 in Hlen. rewrite length_replicate in Hlen.
  pose proof (zlen_nonneg (shared_from (k + 1) groups)).
  destruct m as [|m]; [lia|]. cbn [replicate app compress_shared]. replace (k =? k - 1) with false by lia. unfold dwarfs_check.
  replace (k - 1 + 1) with k by lia. rewrite Z.eqb_refl. replace (2 <=? Z.of_nat n) with true by lia. cbn [rbind].
  rewrite compress_run. replace (1 + Z.of_nat m) with (Z.of_nat (S m)) by lia.
  specialize (IH (k + 1) (S m) Hm ltac:(lia) ltac:(lia)). replace (k + 1 - 1) with k in IH by lia. rewrite IH. cbn [rbind].
  rewrite wrapu_small by (unfold in_u; lia). done.
Qed.

Lemma compress_all n groups : Forall (fun n => (2 <= n)%nat) (n :: groups) -> zlen (shared_list (n :: groups)) < 2 ^ 32 ->
  compress_shared (shared_list (n :: groups)) 0 0 = Ok (pack_groups (n :: groups)).
Proof.
  intros Hg Hlen. apply Forall_cons in Hg as [Hn Hg]. rewrite shared_list_from, shared_from_cons in *. rewrite compress_run.
  rewrite zlen_app in Hlen. unfold zlen at 1 in Hlen. rewrite length_replicate in Hlen. pose proof (zlen_nonneg (shared_from (0 + 1) groups)).
  replace (0 + Z.of_nat n) with (Z.of_nat n) by lia. by apply (compress_groups groups (0 + 1) n Hg Hn ltac:(lia)); lia.
Qed.

Lemma is_sorted_app_replicate n k l : is_sorted l = true -> Forall (fun x => k <= x) l -> is_sorted (replicate n k ++ l) = true.
Proof.
  intros Hl Hk. induction n as [|n IH]; [done|]. cbn [replicate app]. destruct (replicate n k ++ l) as [|y l'] eqn:E; [done|].
  change (is_sorted (k :: y :: l')) with ((k <=? y) && is_sorted (y :: l')). rewrite IH. apply andb_true_iff. split; [|done]. destruct n as [|n]; cbn in E.
  - subst l. apply Forall_cons in Hk as [? _]. lia.
  - injection E as <- _. lia.
Qed.

Lemma shared_from_ge k groups : Forall (fun x => k <= x) (shared_from k groups).
Proof.
  revert k. induction groups as [|n groups IH]; intros k; [constructor|]. rewrite shared_from_cons. apply Forall_app. split.
  - apply Forall_replicate. lia.
  - eapply Forall_impl; [apply IH|]. cbn. lia.
Qed.

Lemma shared_from_sorted k groups : is_sorted (shared_from k groups) = true.
Proof.
  revert k. induction groups as [|n groups IH]; intros k; [done|]. rewrite shared_from_cons. apply is_sorted_app_replicate; [done|].
  eapply Forall_impl; [apply shared_from_ge|]. cbn. lia.
Qed.

Lemma shared_from_last k groups : Forall (fun n => (2 <= n)%nat) groups -> groups <> [] -> last (shared_from k groups) = Some (k + zlen groups - 1).
Proof.
  intros Hg. revert k. induction Hg as [|n groups Hn _ IH]; intros k Hne; [done|]. rewrite shared_from_cons, last_app.
  change (zlen (n :: groups)) with (Z.of_nat (S (length groups))). destruct groups as [|m groups].
  - cbn [shared_from imap concat last]. destruct n as [|n]; [lia|]. change (replicate (S n) k) with (k :: replicate n k).
    rewrite replicate_cons_app, last_snoc. f_equal. cbn. lia.
  - rewrite (IH (k + 1)) by done. f_equal. unfold zlen. lia.
Qed.

Lemma pack_shared_files_ok groups : Forall (fun n => (2 <= n)%nat) groups -> zlen (shared_list groups) < 2 ^ 32 ->
  pack_shared_files (shared_list groups) = Ok (pack_groups groups).
Proof.
  intros Hg Hlen. unfold pack_shared_files. destruct groups as [|n groups]; [done|].
  rewrite shared_list_from, (shared_from_last 0 (n :: groups)) by done. rewrite <- shared_list_from. unfold dwarfs_check.
  rewrite shared_list_from, shared_from_sorted, <- shared_list_from. cbn [rbind]. rewrite compress_all by done. cbn [rbind].
  unfold zlen, pack_groups. rewrite length_map. replace (_ =? _) with true by lia. done.
Qed.

Lemma shared_targets_ok groups k : Forall (fun n => (2 <= n)%nat) groups -> zlen (shared_from k groups) < 2 ^ 32 ->
  shared_targets k (pack_groups groups) = shared_from k groups.
Proof.
  intros Hg. revert k. induction Hg as [|n groups Hn _ IH]; intros k Hlen; [done|]. rewrite shared_from_cons in *.
  rewrite zlen_app in Hlen. unfold zlen at 1 in Hlen. rewrite length_replicate in Hlen. pose proof (zlen_nonneg (shared_from (k + 1) groups)).
  cbn [pack_groups map shared_targets]. fold (pack_groups groups). rewrite IH by lia. rewrite wrapu_small by (unfold in_u; lia).
  f_equal. f_equal. lia.
Qed.

Lemma accumulate_groups groups i : accumulate (pack_groups groups) i = i - 2 * zlen groups + zlen (shared_list groups).
Proof.
  rewrite accumulate_init, shared_list_from. enough (forall k, accumulate (pack_groups groups) 0 = zlen (shared_from k groups) - 2 * zlen groups) as H; [rewrite (H 0); lia|].
  induction groups as [|n groups IH]; intros k; [done|]. rewrite shared_from_cons, zlen_app.
  change (accumulate (pack_groups (n :: groups)) 0) with (accumulate (pack_groups groups) (0 + (Z.of_nat n - 2))). rewrite accumulate_init, (IH (k + 1)).
  change (zlen (n :: groups)) with (Z.of_nat (S (length groups))). unfold zlen. rewrite length_replicate. lia.
Qed.

(** ** Counting links *)

(** How many entries have a number. *)
Definition count_num (x : Z) (entries : list dir_entry) : Z := zlen (filter (fun de => inode_num de = x) entries).

Lemma count_num_cons x de entries : count_num x (de :: entries) = (if decide (inode_num de = x) then 1 else 0) + count_num x entries.
Proof. unfold count_num, zlen. rewrite filter_cons. destruct (decide _); cbn [length]; lia. Qed.

Lemma count_num_nonneg x entries : 0 <= count_num x entries.
Proof. apply zlen_nonneg. Qed.

Lemma count_num_le x entries : count_num x entries <= zlen entries.
Proof. unfold count_num, zlen. pose proof (length_filter (fun de => inode_num de = x) entries). lia. Qed.

(** An inode that differs in the number of links. *)
Definition relinked (n : Z) (ino ino' : inode_data) : Prop := ino' = set_nlink n ino.

Lemma add_nlink_set k n ino : add_nlink k (set_nlink n ino) = set_nlink (wrapu 32 (n + k)) ino.
Proof. done. Qed.

Lemma count_entries_ok lo hi entries inodes i ino n : Forall (fun de => 0 <= inode_num de) entries -> 0 <= n -> n + zlen entries < 2 ^ 32 ->
  inodes !! i = Some (set_nlink n ino) ->
  count_entries lo hi entries inodes !! i =
    Some (set_nlink (if (lo <=? Z.of_nat i) && (Z.of_nat i <? hi) then n + count_num (Z.of_nat i) entries else n) ino).
Proof.
  intros He. revert inodes n. induction He as [|de entries H0 _ IH]; intros inodes n Hn Hlt Hi.
  { cbn. change (count_num _ []) with 0. rewrite Hi, Z.add_0_r. by destruct (_ && _). }
  change (zlen (de :: entries)) with (Z.of_nat (S (length entries))) in Hlt. unfold zlen in IH. cbn [count_entries]. rewrite count_num_cons.
  destruct ((lo <=? inode_num de) && (inode_num de <? hi)) eqn:Ein.
  - destruct (decide (inode_num de = Z.of_nat i)) as [E|Hne].
    + rewrite (IH _ (n + 1)); [|lia|lia|].
      * rewrite E in Ein. rewrite Ein. do 2 f_equal. lia.
      * rewrite E, Nat2Z.id, list_lookup_alter_eq, Hi. cbn [fmap option_fmap option_map]. rewrite add_nlink_set, wrapu_small by (unfold in_u; lia). done.
    + rewrite (IH _ n); [|lia|lia|]; [do 2 f_equal|]. rewrite list_lookup_alter_ne by lia. done.
  - rewrite (IH _ n) by (lia || done). destruct (decide (inode_num de = Z.of_nat i)) as [E|Hne]; [|done]. rewrite E in Ein. by rewrite Ein.
Qed.

Lemma count_entries_length lo hi entries inodes : length (count_entries lo hi entries inodes) = length inodes.
Proof. revert inodes. induction entries as [|de entries IH]; intros inodes; [done|]. cbn. rewrite IH. destruct (_ && _); [apply length_alter|done]. Qed.

Lemma decrement_ok ks (inodes : list inode_data) i ino n : NoDup ks -> Forall (fun k => 0 <= k) ks -> inodes !! i = Some (set_nlink n ino) ->
  foldl (fun inodes k => alter (add_nlink (-1)) (Z.to_nat k) inodes) inodes ks !! i =
    Some (set_nlink (if decide (Z.of_nat i ∈ ks) then wrapu 32 (n - 1) else n) ino).
Proof.
  intros Hnd. revert inodes n. induction Hnd as [|k ks Hk Hnd IH]; intros inodes n Hpos Hi.
  { cbn. destruct (decide _) as [H|_]; [by apply elem_of_nil in H|done]. }
  apply Forall_cons in Hpos as [H0 Hpos]. cbn [foldl]. destruct (decide (Z.of_nat i = k)) as [E|Hne].
  - subst k. rewrite Nat2Z.id. rewrite (IH _ (wrapu 32 (n - 1)) Hpos); [|by rewrite list_lookup_alter_eq, Hi].
    destruct (decide (Z.of_nat i ∈ ks)) as [?|_]; [done|]. destruct (decide (Z.of_nat i ∈ Z.of_nat i :: ks)) as [_|H]; [done|]. exfalso. apply H. by left.
  - rewrite (IH _ n Hpos); [|rewrite list_lookup_alter_ne by lia; done]. do 2 f_equal.
    destruct (decide (Z.of_nat i ∈ ks)) as [H|H], (decide (Z.of_nat i ∈ k :: ks)) as [H'|H']; try done.
    + exfalso. apply H'. by right.
    + apply elem_of_cons in H' as [?|?]; done.
Qed.

Lemma decrement_length ks (inodes : list inode_data) : length (foldl (fun inodes k => alter (add_nlink (-1)) (Z.to_nat k) inodes) inodes ks) = length inodes.
Proof. revert inodes. induction ks as [|k ks IH]; intros inodes; [done|]. cbn [foldl]. by rewrite IH, length_alter. Qed.

(** ** The cache of sizes *)

(** What the cache holds is what the chunks say. *)
Definition cache_right (files : FileChunks.metadata) (cache : inode_size_cache) : Prop :=
  forall i, (size_lookup cache !! i = None /\ allocated_size_lookup cache !! i = None) \/
    exists n sz al, inode_size_provider_get files i = Some (n, sz, al) /\ min_chunk_count cache <= n /\
      size_lookup cache !! i = Some sz /\ default sz (allocated_size_lookup cache !! i) = al /\ allocated_size_lookup cache !! i <> Some sz.

Lemma cache_size_ok files i info cache : inode_size_provider_get files i = Some info -> cache_right files cache ->
  cache_right files (cache_size i info cache).
Proof.
  intros Hi Hc. destruct info as [[n sz] al]. unfold cache_size. destruct (Z.leb_spec (min_chunk_count cache) n); [|done].
  intros j. destruct (decide (j = i)) as [->|Hne]; [|].
  - right. exists n, sz, al. split; [done|]. split; [done|]. cbn. destruct (Hc i) as [[H1 H2]|(n' & sz' & al' & H0 & _ & H1 & H2 & H3)].
    + unfold emplace. rewrite H1, H2, lookup_insert_eq. split; [done|]. destruct (Z.eqb_spec al sz) as [->|Hd]; [by rewrite H2|]. rewrite lookup_insert_eq. split; [done|congruence].
    + rewrite Hi in H0. injection H0 as <- <- <-. unfold emplace at 1. rewrite H1. split; [done|].
      destruct (Z.eqb_spec al sz) as [->|Hd]; [done|]. unfold emplace. destruct (allocated_size_lookup cache !! i) as [x|] eqn:E; [by rewrite E|].
      cbn in H2. congruence.
  - assert (forall v (m : gmap Z Z), emplace i v m !! j = m !! j) as He.
    { intros v m. unfold emplace. destruct (m !! i); [done|]. by apply lookup_insert_ne. }
    cbn. rewrite He. destruct (al =? sz); rewrite ?He; apply Hc.
Qed.

Lemma cache_sizes_ok files shared n N total : 0 <= n <= N -> N < 2 ^ 32 -> total = n + zlen shared ->
  Forall (fun t => 0 <= t /\ n + t < N) shared -> (forall i, 0 <= i < N -> is_Some (inode_size_provider_get files i)) ->
  forall fuel i cache, 0 <= i -> cache_right files cache ->
  exists cache', cache_sizes fuel files shared n i total cache = Ok cache' /\ cache_right files cache'.
Proof.
  intros Hn HN Htot Hsh Hinfo. induction fuel as [|fuel IH]; intros i cache Hi Hc; [by exists cache|]. cbn [cache_sizes].
  destruct (Z.ltb_spec i total) as [Hlt|_]; [|by exists cache]. destruct (Z.leb_spec n i) as [Hge|Hlt'].
  - destruct (lookup_lt_is_Some_2 shared (Z.to_nat (i - n))) as [tg Htg]; [unfold zlen in *; lia|]. rewrite Htg. cbn [rbind].
    destruct (Forall_lookup_1 _ _ _ _ Hsh Htg) as [T1 T2]. rewrite wrapu_small by (unfold in_u; lia).
    destruct (Hinfo (n + tg)) as [info Einfo]; [lia|]. rewrite Einfo. cbn [there rbind]. apply IH; [lia|]. by apply cache_size_ok.
  - cbn [rbind]. destruct (Hinfo i) as [info Einfo]; [lia|]. rewrite Einfo. cbn [there rbind]. apply IH; [lia|]. by apply cache_size_ok.
Qed.

Lemma cache_right_empty files n : cache_right files (InodeSizeCache ∅ n ∅).
Proof. intros i. left. split; apply lookup_empty. Qed.

(** ** Numbers of links, of the tree *)

Section built.
Context (t : entry) (Ht : tree_ok t) (a : assigned) (Ha : numbered t a) (options : writer_options) (g : global_entry_data).
Context (Hg : entry_data_ok options (preorder t) g) (Hc : chain_ok (chmod_chain options)).

Definition link_count (x : Z) : Z := count_num x (map (expected_entry g a) (entries_of t)).

Definition expected_nlink (x : Z) : Z :=
  if negb (no_hardlink_table options) && (first_file_inode a <=? x) && (x <? first_device_inode a) then link_count x - 1 else 0.

Lemma expected_entry_num n : n ∈ preorder t -> num_of a n = Some (inode_num (expected_entry g a n)) /\ 0 <= inode_num (expected_entry g a n) < last_inode a.
Proof.
  intros Hn. destruct (num_range t a Ha n Hn) as (x & Ex & _). unfold expected_entry. rewrite Ex. cbn. split; [done|]. by apply (num_bounds t a Ha n).
Qed.

Lemma link_count_pos x : 0 <= x < last_inode a -> 1 <= link_count x.
Proof.
  intros Hx. destruct (num_onto t a Ha x Hx) as (n & Hn & Ex). unfold link_count, count_num.
  assert (expected_entry g a n ∈ filter (fun de => inode_num de = x) (map (expected_entry g a) (entries_of t))) as Hin.
  { apply list_elem_of_filter. split; [|apply list_elem_of_fmap; exists n; split; [done|by apply elem_of_entries]].
    destruct (expected_entry_num n Hn) as [E _]. rewrite Ex in E. by injection E. }
  apply list_elem_of_lookup in Hin as [i Hi]. pose proof (lookup_zlen _ _ _ Hi). lia.
Qed.

Lemma entries_count : zlen (map (expected_entry g a) (entries_of t)) = zlen (preorder t).
Proof. unfold zlen. rewrite length_map. f_equal. apply Permutation_length, entries_preorder. Qed.

Lemma entry_nums_nonneg : Forall (fun de => 0 <= inode_num de) (map (expected_entry g a) (entries_of t)).
Proof.
  apply Forall_map, Forall_forall. intros n Hn. apply elem_of_entries in Hn. by destruct (expected_entry_num n Hn) as (_ & ? & _).
Qed.

Lemma set_nlink_bare ino : bare ino -> ino = set_nlink 0 ino.
Proof. destruct ino. unfold bare. cbn. by intros (-> & _). Qed.

Lemma update_nlink_ok meta : described t a options g meta -> Forall bare (md_inodes meta) ->
  exists inodes, update_nlink options meta = Ok inodes /\ length inodes = length (md_inodes meta) /\
    forall i ino, md_inodes meta !! i = Some ino -> inodes !! i = Some (set_nlink (expected_nlink (Z.of_nat i)) ino).
Proof.
  intros Hd Hbare. pose proof (offsets_bound t Ht a Ha) as Hb. pose proof (to_size _ Ht) as Hsize.
  unfold update_nlink, expected_nlink. destruct (md_inodes meta) as [|ino0 rest] eqn:Ei; [exists []; split; [done|]; split; [done|]; done|].
  rewrite <- Ei in *. clear Ei ino0 rest. destruct (no_hardlink_table options); cbn [negb andb].
  - eexists. split; [done|]. split; [apply length_map|]. intros i ino Hi. by rewrite list_lookup_fmap, Hi.
  - rewrite !(find_inode_rank_offset_ok t Ht a Ha options g Hc meta) by (done || unfold INO_DIR, INO_REG, INO_DEV, INO_OTH; lia). cbn [rbind].
    destruct (rank_values t a) as (_ & _ & (V3 & _) & (V4 & _) & _). rewrite V3, V4.
    destruct (Z.ltb_spec (first_file_inode a) (first_device_inode a)) as [Hlt|Hge].
    + rewrite (ds_entries _ _ _ _ _ Hd). cbn [there rbind]. eexists. split; [done|]. split; [by rewrite decrement_length, count_entries_length|].
      intros i ino Hi. pose proof (Forall_lookup_1 _ _ _ _ Hbare Hi) as Hib.
      erewrite decrement_ok; [| | |eapply (count_entries_ok _ _ _ _ _ ino 0)].
      2: apply NoDup_seqZ. 2: apply Forall_forall; intros x Hx; apply elem_of_seqZ in Hx; lia.
      2: apply entry_nums_nonneg. 2: lia. 2: rewrite entries_count; lia. 2: by rewrite <- set_nlink_bare.
      f_equal. f_equal. destruct ((first_file_inode a <=? Z.of_nat i) && (Z.of_nat i <? first_device_inode a)) eqn:Ein.
      * destruct (decide _) as [_|Hn]; [|exfalso; apply Hn, elem_of_seqZ; lia]. fold (link_count (Z.of_nat i)).
        pose proof (link_count_pos (Z.of_nat i) ltac:(lia)). pose proof (count_num_le (Z.of_nat i) (map (expected_entry g a) (entries_of t))) as Hle.
        fold (link_count (Z.of_nat i)) in Hle. rewrite entries_count in Hle. apply wrapu_small. unfold in_u. lia.
      * destruct (decide _) as [Hy|_]; [|done]. apply elem_of_seqZ in Hy. lia.
    + eexists. split; [done|]. split; [done|]. intros i ino Hi. rewrite Hi. replace (_ && _) with false by lia.
      by rewrite <- set_nlink_bare by (by eapply Forall_lookup_1).
Qed.

(** ** The tables after [build] *)

Lemma fix_sentinel_expected : fix_sentinel (expected_dirs t) = expected_dirs t.
Proof.
  unfold fix_sentinel, expected_dirs. rewrite length_app. cbn [length]. replace (_ + 1 - 1)%nat with (length (imap (dir_at t) (dirs_of t)) + 0)%nat by lia.
  by rewrite alter_app_r.
Qed.

Lemma total_bytes_submseteq l k : l ⊆+ k -> total_bytes l <= total_bytes k.
Proof.
  induction 1 as [|x l k _ IH|x y l|x l k _ IH|l1 l2 l3 _ IH1 _ IH2]; rewrite ?total_bytes_cons; try lia. pose proof (zlen_nonneg x). lia.
Qed.

(** The strings of a table are among those of the entries. *)
Lemma strings_bytes (f : entry -> option (list Z)) (m : gmap (list Z) Z) : enumerated m -> keyed f (preorder t) m ->
  get_vector m ⊆+ omap f (preorder t).
Proof.
  intros He [Hk _]. apply NoDup_submseteq.
  - apply NoDup_alt. intros i j x Hi Hj. apply get_vector_lookup in Hi, Hj; [|done..]. rewrite Hi in Hj. injection Hj as ?. lia.
  - intros x Hx. apply list_elem_of_lookup in Hx as [i Hi]. apply get_vector_lookup in Hi; [|done].
    destruct (proj1 (Hk x)) as (n & Hn & Hf); [by eexists|]. apply list_elem_of_omap. by exists n.
Qed.

Lemma omap_name_key l : omap name_key l ⊆+ map ename l.
Proof.
  induction l as [|n l IH]; [done|]. cbn [omap list_omap map]. unfold name_key at 1. destruct (wants_name n).
  - by apply submseteq_skip.
  - by apply submseteq_cons.
Qed.

Lemma names_bytes : total_bytes (get_vector (ge_names g)) < 2 ^ 31.
Proof.
  destruct Hg as [_ [He Hk] _]. destruct (to_bytes _ Ht) as [Hb _].
  pose proof (total_bytes_submseteq _ _ (strings_bytes name_key _ He Hk)). pose proof (total_bytes_submseteq _ _ (omap_name_key (preorder t))). lia.
Qed.

Lemma symlinks_bytes : total_bytes (get_vector (ge_symlinks g)) < 2 ^ 31.
Proof.
  destruct Hg as [_ _ [He Hk]]. destruct (to_bytes _ Ht) as [_ Hb]. pose proof (total_bytes_submseteq _ _ (strings_bytes link_target _ He Hk)). lia.
Qed.

Lemma nonempty_bytes l : Forall (fun s => s <> []) l -> l = [] \/ 0 < total_bytes l.
Proof.
  intros [|s l' Hs _]; [by left|]. right. rewrite total_bytes_cons. pose proof (total_bytes_nonneg l'). destruct s as [|b s]; [done|].
  change (zlen (b :: s)) with (Z.of_nat (S (length s))). lia.
Qed.

Lemma name_ok_of n : n ∈ preorder t -> wants_name n = true -> name_ok (ename n).
Proof.
  intros Hn Hw. apply elem_of_entries in Hn. apply elem_of_cons in Hn as [->|Hn].
  - exfalso. destruct (to_root _ Ht) as (e & es & Et & Hr). rewrite Et in Hw. cbn in Hw. unfold has_parent in Hw. by rewrite Hr in Hw.
  - apply elem_of_concat_map in Hn as ([e es] & Hd & Hn). unfold dirs_of in Hd. apply list_elem_of_omap in Hd as (m & Hm & Em).
    destruct m; try done. injection Em as <- <-. destruct (to_names _ Ht _ _ Hm) as [_ Hok]. rewrite Forall_forall in Hok. by apply Hok.
Qed.

Lemma names_nonempty : Forall (fun s => s <> []) (get_vector (ge_names g)).
Proof.
  apply Forall_forall. intros s Hs. destruct Hg as [_ [He [Hk _]] _]. apply list_elem_of_lookup in Hs as [i Hi]. apply get_vector_lookup in Hi; [|done].
  destruct (proj1 (Hk s)) as (n & Hn & Hf); [by eexists|]. unfold name_key in Hf. destruct (wants_name n) eqn:Ew; [|done]. injection Hf as <-.
  by destruct (name_ok_of n Hn Ew).
Qed.

Lemma symlinks_nonempty : Forall (fun s => s <> []) (get_vector (ge_symlinks g)).
Proof.
  apply Forall_forall. intros s Hs. destruct Hg as [_ _ [He [Hk _]]]. apply list_elem_of_lookup in Hs as [i Hi]. apply get_vector_lookup in Hi; [|done].
  destruct (proj1 (Hk s)) as (n & Hn & Hf); [by eexists|]. destruct n as [| |e target|]; try done. injection Hf as <-. by apply (to_targets _ Ht e).
Qed.

Section fsst.
Context {encoder decoder : Type} (fsst_create : list (list Z) -> encoder) (fsst_export : encoder -> list Z)
  (fsst_compress : encoder -> list (list Z) -> Z -> list (list Z))
  (fsst_import : list Z -> Z * decoder) (fsst_decompress : decoder -> list Z -> Z -> list Z)
  `{!Fsst fsst_create fsst_export fsst_compress fsst_import fsst_decompress}.

(** The table the reader opens has the strings. *)
Definition opens_to (compact : option string_table_data) (plain strings : list (list Z)) : Prop :=
  exists tbl, open_string_table fsst_import compact plain = Ok tbl /\ forall i, lookup fsst_decompress tbl (Z.of_nat i) = strings !! i.

(** How the strings are stored. *)
Definition stores (opts : pack_options) (compact : option string_table_data) (plain strings : list (list Z)) : Prop :=
  match compact with Some v => plain = [] /\ packed_shape opts v strings | None => plain = strings end.

Definition names_options : pack_options := PackOptions (pack_names options) (pack_names_index options) (force_pack_string_tables options).
Definition symlinks_options : pack_options := PackOptions (pack_symlinks options) (pack_symlinks_index options) (force_pack_string_tables options).

Lemma pack_strings_ok fuel plain opts strings : total_bytes strings < 2 ^ 31 -> Forall (fun s => s <> []) strings -> (5 <= fuel)%nat ->
  exists plain' compact, pack_strings fsst_create fsst_export fsst_compress fuel plain opts strings = Ok (plain', compact) /\ opens_to compact plain' strings /\
    stores opts compact plain' strings.
Proof.
  intros Hb Hne Hfuel. unfold pack_strings, opens_to, stores. destruct plain.
  - exists strings, None. split; [done|]. split; [|done]. eexists. split; [done|]. intros i. cbn. by rewrite Nat2Z.id.
  - destruct (string_table_roundtrip_spec fsst_create fsst_export fsst_compress fsst_import fsst_decompress strings opts fuel Hb) as (v & tbl & E & Et & Htbl & Hshape);
      [intros _ _; by apply nonempty_bytes|done|].
    rewrite E. exists [], (Some v). split; [done|]. split; [|done]. cbn [open_string_table]. rewrite Et. eexists. split; [done|]. apply Htbl.
Qed.

Record built (files : FileChunks.metadata) (groups : list nat) (meta : fs_metadata) : Prop := {
  bt_described : described t a options g meta;
  bt_nlink : forall i ino, md_inodes meta !! i = Some ino -> nlink_minus_one ino = expected_nlink (Z.of_nat i);
  bt_options : md_options meta = Some (FsOptions (pack_chunk_table options) (pack_directories options) (pack_shared_files_table options)
                                        (negb (no_hardlink_table options)));
  bt_files : md_files meta = FileChunks.Metadata (md_chunks files)
    (if pack_chunk_table options then adjacent_difference (md_chunk_table files) else md_chunk_table files)
    (md_block_size files) (md_hole_block_index files) (md_large_hole_size files);
  bt_directories : md_directories meta = if pack_directories options then pack_directories_from 0 (expected_dirs t) else expected_dirs t;
  bt_bits : md_self_entry_bits meta = layout_bits (map self_entry (md_directories meta));
  bt_shared : md_shared_files_table meta = Some (if pack_shared_files_table options then pack_groups groups else shared_list groups);
  bt_names : opens_to (md_compact_names meta) (md_names meta) (get_vector (ge_names g));
  bt_symlinks : opens_to (md_compact_symlinks meta) (md_symlinks meta) (get_vector (ge_symlinks g));
  bt_cache : match md_reg_file_size_cache meta with Some cache => cache_right files cache | None => True end;
  bt_separator : md_preferred_path_separator meta = Some preferred_separator;
  bt_stored_names : stores names_options (md_compact_names meta) (md_names meta) (get_vector (ge_names g));
  bt_stored_symlinks : stores symlinks_options (md_compact_symlinks meta) (md_symlinks meta) (get_vector (ge_symlinks g));
  bt_counts : zlen (md_modes meta) <= last_inode a /\ zlen (md_uids meta) <= last_inode a /\ zlen (md_gids meta) <= last_inode a;
  bt_features : md_features meta = Some (match md_hole_block_index files with Some _ => ["sparsefiles"%string] | None => [] end)
}.

Lemma shared_from_upper k groups : Forall (fun x => x < k + zlen groups) (shared_from k groups).
Proof.
  revert k. induction groups as [|n groups IH]; intros k; [constructor|]. rewrite shared_from_cons. change (zlen (n :: groups)) with (Z.of_nat (S (length groups))).
  apply Forall_app. split; [apply Forall_replicate; lia|]. eapply Forall_impl; [apply IH|]. cbn. unfold zlen. lia.
Qed.

Lemma groups_bound groups : Forall (fun n => (2 <= n)%nat) groups -> zlen groups <= zlen (shared_list groups).
Proof.
  rewrite shared_list_from. generalize 0. intros k H. revert k. induction H as [|n groups Hn _ IH]; intros k; [done|].
  rewrite shared_from_cons, zlen_app. change (zlen (n :: groups)) with (Z.of_nat (S (length groups))). unfold zlen at 1. rewrite length_replicate.
  specialize (IH (k + 1)). unfold zlen in *. lia.
Qed.

Lemma build_ok fuel files groups meta : gathered t a options files g groups meta -> (5 <= fuel)%nat ->
  (forall i, 0 <= i < num_unique (as_files a) + zlen groups -> is_Some (inode_size_provider_get files i)) ->
  exists meta', build fsst_create fsst_export fsst_compress fuel options meta = Ok meta' /\ built files groups meta'.
Proof.
  intros [Hd Hfiles Hdirs Hbare Hnames Hsym Hsh Hgr Hshl Htgt Hcounts Hfeat] Hfuel Hinfo. pose proof (offsets_bound t Ht a Ha) as Hb.
  pose proof (fn_unique _ _ _ _ (nb_files _ _ Ha)) as Hnu. pose proof (zlen_nonneg (shared_list groups)) as Hs0. pose proof (groups_bound groups Hgr) as Hgb.
  unfold build. destruct (update_nlink_ok meta Hd Hbare) as (inodes & -> & Hil & Hin). cbn [rbind].
  assert (exists cache, update_size_cache options meta = Ok cache /\ match cache with Some c => cache_right files c | None => True end) as (cache & -> & Hcache).
  { unfold update_size_cache. rewrite !(find_inode_rank_offset_ok t Ht a Ha options g Hc meta) by (done || unfold INO_DIR, INO_REG, INO_DEV, INO_OTH; lia). cbn [rbind].
    destruct (rank_values t a) as (_ & _ & (V3 & _) & (V4 & _) & _). rewrite V3, V4. destruct (Z.ltb_spec (first_file_inode a) (first_device_inode a)) as [Hlt|Hge]; [|by exists None].
    rewrite Hsh, Hfiles. cbn [there rbind]. rewrite wrapu_small by (unfold in_u; lia).
    replace (first_device_inode a - first_file_inode a - zlen (shared_list groups)) with (num_unique (as_files a)) by lia.
    destruct (cache_sizes_ok files (shared_list groups) (num_unique (as_files a)) (num_unique (as_files a) + zlen groups) (first_device_inode a - first_file_inode a))
      with (fuel := Z.to_nat (first_device_inode a - first_file_inode a)) (i := 0) (cache := InodeSizeCache ∅ (inode_size_cache_min_chunk_count options) ∅)
      as (cache & E & Hcr); [pose proof (zlen_nonneg groups); lia|lia|lia| |done|lia|apply cache_right_empty|].
    - rewrite shared_list_from. pose proof (shared_from_ge 0 groups) as H1. pose proof (shared_from_upper 0 groups) as H2.
      eapply Forall_impl; [apply Forall_and; split; [exact H1|exact H2]|]. cbn. intros x. lia.
    - rewrite E. cbn [rbind]. by exists (Some cache). }
  cbn [rbind]. rewrite Hdirs, Hsh, Hfiles. 
  assert ((if pack_shared_files_table options then let? sf := pack_shared_files (shared_list groups) in Ok (Some sf) else Ok (Some (shared_list groups))) =
    Ok (E := metadata_error) (Some (if pack_shared_files_table options then pack_groups groups else shared_list groups))) as ->.
  { destruct (pack_shared_files_table options); [|done]. rewrite pack_shared_files_ok by (done || lia). done. }
  cbn [rbind]. rewrite Hnames, Hsym.
  destruct (pack_strings_ok fuel (plain_names_table options) (PackOptions (pack_names options) (pack_names_index options) (force_pack_string_tables options))
    (get_vector (ge_names g)) names_bytes names_nonempty Hfuel) as (pn & cn & -> & Hon & Hsn). cbn [rbind].
  destruct (pack_strings_ok fuel (plain_symlinks_table options) (PackOptions (pack_symlinks options) (pack_symlinks_index options) (force_pack_string_tables options))
    (get_vector (ge_symlinks g)) symlinks_bytes symlinks_nonempty Hfuel) as (ps & cs & -> & Hos & Hss). cbn [rbind].
  eexists. split; [done|]. destruct Hd as [D1 D2 D3 D4 D5 D6 D7]. split; cbn; try done; [split; cbn; try done|..].
  - unfold zlen in *. by rewrite Hil.
  - intros n x Hn Ex. destruct (D4 n x Hn Ex) as (ino & Hino & [S1 S2 S3]). eexists. split; [by apply Hin|]. by split.
  - intros i ino' Hi. assert (i < length (md_inodes meta))%nat as Hlt by (rewrite <- Hil; by eapply lookup_lt_Some).
    destruct (lookup_lt_is_Some_2 _ _ Hlt) as [ino Hino]. rewrite (Hin i ino Hino) in Hi. by injection Hi as <-.
  - by rewrite fix_sentinel_expected.
Qed.
End fsst.
End built.
