(* ===== verification/RecoveredDirectories.v ===== *)
(** * RecoveredDirectories: the reader recovers packed directories

    [unpack_directories] on the directories and entries of a tree that was
    packed: the places of the parents and of the own entries, which are not
    stored, are those they had. *)

From S2P Require Import Prelude FileChunks PackedInts StringTable Metadata MetadataReader EntryTree MetadataBuilder EntryLists TreeTables EntryData EntryTables GatheredMetadata BuiltMetadata.
Local Open Scope Z_scope.

#[local] Abbreviation checked := (result metadata_error).

Section recovery.
Context (t : entry) (Ht : tree_ok t) (a : assigned) (Ha : numbered t a) (g : global_entry_data).

#[local] Abbreviation entries := (map (expected_entry g a) (entries_of t)).
#[local] Abbreviation num_dirs := (zlen (dirs_of t)).

Definition pos_of (n : entry) : Z := entry_pos t (eid n).

(** ** Where things are *)

Lemma first_of_next k d : dirs_of t !! k = Some d -> first_of t (S k) = first_of t k + zlen d.2.
Proof.
  intros Hk. unfold first_of. rewrite (take_S_r _ _ _ Hk), map_app, concat_app, zlen_app. cbn [map concat]. rewrite app_nil_r. lia.
Qed.

Lemma expected_dirs_lookup k d : dirs_of t !! k = Some d -> expected_dirs t !! k = Some (dir_at t k d).
Proof.
  intros Hk. unfold expected_dirs. apply lookup_app_l_Some. by rewrite list_lookup_imap, Hk.
Qed.

Lemma expected_dirs_length : zlen (expected_dirs t) = num_dirs + 1.
Proof. unfold expected_dirs, zlen. rewrite length_app, length_imap. cbn. lia. Qed.

Lemma expected_first k : (k <= length (dirs_of t))%nat -> exists d, expected_dirs t !! k = Some d /\ first_entry d = first_of t k.
Proof.
  intros Hk. destruct (dirs_of t !! k) as [d|] eqn:E.
  - eexists. split; [by apply expected_dirs_lookup|done].
  - apply lookup_ge_None in E. assert (k = length (dirs_of t)) as -> by lia. exists (Directory 0 (zlen (entries_of t)) 0). split.
    + unfold expected_dirs. rewrite lookup_app_r by (rewrite length_imap; lia). by rewrite length_imap, Nat.sub_diag.
    + unfold first_of, entries_of. rewrite take_ge by lia. unfold zlen. cbn [length first_entry]. lia.
Qed.

Lemma child_lookup k d j c : dirs_of t !! k = Some d -> d.2 !! j = Some c -> entries_of t !! (Z.to_nat (first_of t k) + j)%nat = Some c.
Proof.
  intros Hk Hj. unfold entries_of, first_of. set (l := concat (map snd (take k (dirs_of t)))).
  assert (concat (map snd (dirs_of t)) = l ++ d.2 ++ concat (map snd (drop (S k) (dirs_of t)))) as ->.
  { rewrite <- (take_drop_middle _ _ _ Hk) at 1. rewrite map_app, concat_app. done. }
  replace (Z.to_nat (1 + zlen l) + j)%nat with (S (length l + j)) by (unfold zlen; lia).
  match goal with |- (_ :: ?l') !! S ?i = _ => change (l' !! i = Some c) end. rewrite lookup_app_r by lia. replace (length l + j - length l)%nat with j by lia. by apply lookup_app_l_Some.
Qed.

Lemma tree_entry_at i n : entries_of t !! i = Some n -> at_index entries (Z.of_nat i) = Ok (expected_entry g a n).
Proof. intros Hi. unfold at_index. destruct (Z.ltb_spec (Z.of_nat i) 0); [lia|]. by rewrite Nat2Z.id, list_lookup_fmap, Hi. Qed.

Lemma pos_lookup n : n ∈ preorder t -> exists i, entries_of t !! i = Some n /\ pos_of n = Z.of_nat i.
Proof.
  intros Hn. apply elem_of_entries, list_elem_of_lookup in Hn as [i Hi]. exists i. split; [done|]. by apply entry_pos_lookup.
Qed.

Lemma pos_bound n : n ∈ preorder t -> 0 <= pos_of n < zlen (entries_of t).
Proof. intros Hn. destruct (pos_lookup n Hn) as (i & Hi & ->). by eapply lookup_zlen. Qed.

Lemma entry_at_pos n : n ∈ preorder t -> at_index entries (pos_of n) = Ok (expected_entry g a n).
Proof. intros Hn. destruct (pos_lookup n Hn) as (i & Hi & ->). by apply tree_entry_at. Qed.

(** The inode numbers below the number of directories are theirs. *)
Lemma dir_number n : n ∈ preorder t ->
  match dir_of n with
  | Some d => exists k, dirs_of t !! k = Some d /\ inode_num (expected_entry g a n) = Z.of_nat k
  | None => num_dirs <= inode_num (expected_entry g a n)
  end.
Proof.
  intros Hn. destruct (num_range t a Ha n Hn) as (x & Ex & Rx). unfold expected_entry. rewrite Ex. cbn [default inode_num].
  destruct (dir_of n) as [[e es]|] eqn:E.
  - destruct n as [e' data|e' es'|e' linkname|e']; try done. injection E as -> ->.
    assert ((e, es) ∈ dirs_of t) as Hd by (apply list_elem_of_omap; by exists (Dir e es)).
    apply list_elem_of_lookup in Hd as [k Hk]. exists k. split; [done|]. pose proof (num_dir t a Ha k _ _ Hk) as Hnum. cbn in Ex. rewrite Hnum in Ex. by injection Ex.
  - assert (kind n <> INO_DIR) as Hk by (destruct n; try done; cbn; by destruct (is_device_type _)).
    pose proof (rank_offset_mono t a Ha (INO_DIR + 1) (kind n)) as Hm. destruct (rank_values t a) as ((_ & V) & _).
    assert (INO_DIR + 1 <= kind n) by (destruct (kind_cases n) as [E'|[E'|[E'|[E'|E']]]]; rewrite E' in *; unfold INO_DIR, INO_LNK, INO_REG, INO_DEV, INO_OTH in *; lia).
    rewrite (dirs_count t a Ha). specialize (Hm ltac:(done)). change (first_link_inode a <= x). lia.
Qed.
(** ** The parents, breadth first *)

(** The first entries are right, and for the directories that are done the
    parents too. *)
Record recovered (done : nat -> Prop) (dirs : list directory) : Prop := {
  rc_length : zlen dirs = num_dirs + 1;
  rc_first : forall k, (k <= length (dirs_of t))%nat -> exists p, dirs !! k = Some (Directory p (first_of t k) 0);
  rc_done : forall k d, dirs_of t !! k = Some d -> done k -> dirs !! k = Some (Directory (parent_pos t d.1) (first_of t k) 0);
  rc_last : dirs !! length (dirs_of t) = Some (Directory 0 (first_of t (length (dirs_of t))) 0)
}.

Lemma recovered_mono (done done' : nat -> Prop) dirs : recovered done dirs -> (forall k, done' k -> done k) -> recovered done' dirs.
Proof. intros [R1 R2 R3 R4] H. split; eauto. Qed.

Lemma set_parent_ok done dirs k d : recovered done dirs -> dirs_of t !! k = Some d ->
  exists dirs', update_directory (set_parent (parent_pos t d.1)) (Z.of_nat k) dirs = Ok dirs' /\ recovered (fun j => done j \/ j = k) dirs'.
Proof.
  intros [R1 R2 R3 R4] Hk. pose proof (lookup_lt_Some _ _ _ Hk) as Hlt. destruct (R2 k ltac:(lia)) as (p & Hp).
  unfold update_directory, at_index. destruct (Z.ltb_spec (Z.of_nat k) 0); [lia|]. rewrite Nat2Z.id, Hp. cbn [there rbind].
  eexists. split; [done|]. unfold zlen in R1. split.
  - unfold zlen. by rewrite length_insert.
  - intros j Hj. destruct (decide (j = k)) as [->|Hne]; [eexists; by rewrite list_lookup_insert_eq by lia|].
    rewrite list_lookup_insert_ne by done. by apply R2.
  - intros j d' Hd' [Hdone| ->].
    + destruct (decide (j = k)) as [->|Hne]; [|rewrite list_lookup_insert_ne by done; by apply R3].
      rewrite list_lookup_insert_eq by lia. rewrite Hk in Hd'. by injection Hd' as <-.
    + rewrite list_lookup_insert_eq by lia. rewrite Hk in Hd'. by injection Hd' as <-.
  - rewrite list_lookup_insert_ne by lia. done.
Qed.

Definition subdirs (es : list entry) : list entry := filter (fun n => is_Some (dir_of n)) es.

(** The directories among some entries. *)
Definition among (es : list entry) (j : nat) : Prop := exists d, dirs_of t !! j = Some d /\ Dir d.1 d.2 ∈ es.

Lemma recover_children_ok k e es : dirs_of t !! k = Some (e, es) -> forall es2 es1 done dirs queue, es = es1 ++ es2 -> recovered done dirs ->
  exists dirs', recover_children entries num_dirs (entry_pos t (e_id e)) (seqZ (first_of t k + zlen es1) (zlen es2)) dirs queue =
      Ok (dirs', queue ++ map pos_of (subdirs es2)) /\ recovered (fun j => done j \/ among es2 j) dirs'.
Proof.
  intros Hk. induction es2 as [|c es2 IH]; intros es1 done dirs queue Ees Hr.
  { exists dirs. change (zlen []) with 0. rewrite seqZ_nil by lia. cbn [recover_children subdirs filter list_filter map]. rewrite app_nil_r. split; [done|].
    eapply recovered_mono; [exact Hr|]. intros j [?|(d & _ & []%elem_of_nil)]. done. }
  change (zlen (c :: es2)) with (Z.of_nat (S (length es2))). rewrite seqZ_cons by lia. cbn [recover_children].
  assert (es !! length es1 = Some c) as Hc by (rewrite Ees; by apply list_lookup_middle).
  destruct (child_parent t Ht k e es c Hk) as [Hcin Hpar]; [by eapply list_elem_of_lookup_2|].
  pose proof (child_lookup k (e, es) (length es1) c Hk Hc) as Hcl.
  assert (0 <= first_of t k) as Hf0 by (unfold first_of; pose proof (zlen_nonneg (concat (map snd (take k (dirs_of t))))); lia).
  pose proof (tree_entry_at _ _ Hcl) as Hat.
  replace (Z.of_nat (Z.to_nat (first_of t k) + length es1)) with (first_of t k + zlen es1) in Hat by (unfold zlen; lia). rewrite Hat. cbn [rbind].
  replace (Z.succ (first_of t k + zlen es1)) with (first_of t k + zlen (es1 ++ [c])) by (rewrite zlen_app; change (zlen [c]) with 1; lia).
  replace (Z.pred (Z.of_nat (S (length es2)))) with (zlen es2) by (unfold zlen; lia).
  pose proof (dir_number c Hcin) as Hnum. pose proof (child_lookup k (e, es) (length es1) c Hk Hc) as Hcl'.
  assert (pos_of c = first_of t k + zlen es1) as Hpos by (unfold pos_of; rewrite (entry_pos_lookup t Ht _ _ Hcl'); unfold zlen; lia).
  destruct (dir_of c) as [d|] eqn:Ed.
  - destruct Hnum as (j & Hj & Enum). rewrite Enum. pose proof (lookup_zlen _ _ _ Hj). destruct (Z.ltb_spec (Z.of_nat j) num_dirs); [|lia].
    destruct (set_parent_ok done dirs j d Hr Hj) as (dirs1 & E1 & R1).
    assert (parent_pos t d.1 = entry_pos t (e_id e)) as Epp.
    { destruct c; try done. injection Ed as <-. cbn [fst head] in *. unfold parent_pos. by rewrite Hpar. }
    rewrite Epp in E1. rewrite E1. cbn [rbind].
    destruct (IH (es1 ++ [c]) (fun i => done i \/ i = j) dirs1 (queue ++ [first_of t k + zlen es1])) as (dirs2 & E2 & R2); [by rewrite <- app_assoc|exact R1|].
    exists dirs2. rewrite E2. split.
    + f_equal. unfold subdirs. rewrite filter_cons_True by (by rewrite Ed). cbn [map]. rewrite Hpos, <- app_assoc. done.
    + eapply recovered_mono; [exact R2|]. intros i [?|(d' & Hd' & Hin)]; [by do 2 left|]. apply elem_of_cons in Hin as [E|Hin].
      * left. right. destruct c; try done. injection Ed as <-. injection E as <- <-. destruct d' as [e' es']. cbn [fst snd] in *.
        pose proof (num_dir t a Ha _ _ _ Hd') as N1. pose proof (num_dir t a Ha _ _ _ Hj) as N2. rewrite N1 in N2. injection N2. lia.
      * right. by exists d'.
  - destruct (Z.ltb_spec (inode_num (expected_entry g a c)) num_dirs); [lia|].
    destruct (IH (es1 ++ [c]) done dirs queue) as (dirs2 & E2 & R2); [by rewrite <- app_assoc|done|]. exists dirs2. rewrite E2. split.
    + unfold subdirs. rewrite filter_cons_False by (rewrite Ed; by intros []). done.
    + eapply recovered_mono; [exact R2|]. intros i [?|(d' & Hd' & Hin)]; [by left|]. right. exists d'. split; [done|].
      apply elem_of_cons in Hin as [E|Hin]; [by subst c|done].
Qed.

Definition below (q : list entry) (j : nat) : Prop := among (concat (map (fun n => concat (map preorder (children n))) q)) j.

Lemma dirs_of_subdirs es : concat (map dirs_of (subdirs es)) = concat (map dirs_of es).
Proof.
  induction es as [|n es IH]; [done|]. unfold subdirs in *. rewrite filter_cons. destruct (decide (is_Some (dir_of n))) as [H|H]; cbn [map concat]; rewrite IH; [done|].
  destruct n; try done. exfalso. apply H. by eexists.
Qed.

Lemma recover_parents_ok fuel : forall q done dirs, Forall (fun n => n ∈ preorder t /\ is_Some (dir_of n)) q ->
  (length (concat (map dirs_of q)) <= fuel)%nat -> recovered done dirs ->
  exists dirs', recover_parents entries num_dirs fuel dirs (map pos_of q) = Ok dirs' /\ recovered (fun j => done j \/ below q j) dirs'.
Proof.
  assert (forall f done dirs, recovered done dirs -> exists dirs', recover_parents entries num_dirs f dirs [] = Ok dirs' /\ recovered (fun j => done j \/ below [] j) dirs') as H0.
  { intros f done dirs Hr. exists dirs. split; [by destruct f|]. eapply recovered_mono; [exact Hr|]. intros j [?|(d & _ & Hin)]; [done|].
    by apply elem_of_nil in Hin. }
  induction fuel as [|fuel IH]; intros [|n q] done dirs Hq Hfuel Hr; cbn [map recover_parents]; [by apply (H0 O)| |by apply (H0 (S fuel))|].
  - exfalso. apply Forall_cons in Hq as [[_ [d Hd]] _]. cbn [map concat] in Hfuel. rewrite dirs_of_eq, Hd in Hfuel. cbn in Hfuel. lia.
  - apply Forall_cons in Hq as [[Hn [d Hd]] Hq]. rewrite (entry_at_pos n Hn). cbn [rbind]. pose proof (dir_number n Hn) as Hnum. rewrite Hd in Hnum.
    destruct Hnum as (k & Hk & ->). destruct n as [e' data|e es|e' linkname|e']; try done. injection Hd as <-. pose proof (lookup_lt_Some _ _ _ Hk) as Hlt.
    destruct (rc_first _ _ Hr k ltac:(lia)) as (p1 & E1). destruct (rc_first _ _ Hr (S k) ltac:(lia)) as (p2 & E2).
    unfold at_index at 1. destruct (Z.ltb_spec (Z.of_nat k) 0); [lia|]. rewrite Nat2Z.id, E1. cbn [there rbind].
    unfold at_index at 1. destruct (Z.ltb_spec (Z.of_nat k + 1) 0); [lia|]. replace (Z.to_nat (Z.of_nat k + 1)) with (S k) by lia. rewrite E2. cbn [there rbind first_entry].
    rewrite (first_of_next k _ Hk). cbn [snd]. replace (first_of t k + zlen es - first_of t k) with (zlen es) by lia.
    destruct (recover_children_ok k e es Hk es [] done dirs (map pos_of q) eq_refl Hr) as (dirs1 & E3 & R3).
    change (zlen []) with 0 in E3. rewrite Z.add_0_r in E3. change (pos_of (Dir e es)) with (entry_pos t (e_id e)). rewrite E3. cbn [rbind].
    rewrite <- map_app. destruct (IH (q ++ subdirs es) (fun j => done j \/ among es j) dirs1) as (dirs2 & E4 & R4); [| |exact R3|].
    + apply Forall_app. split; [done|]. apply Forall_forall. intros c Hc. apply list_elem_of_filter in Hc as [Hcd Hc]. split; [|done].
      by apply (preorder_child t (Dir e es)).
    + cbn [map concat] in Hfuel. rewrite dirs_of_eq in Hfuel. cbn [dir_of children app length] in Hfuel. rewrite map_app, concat_app, dirs_of_subdirs.
      rewrite length_app in *. lia.
    + exists dirs2. split; [done|]. eapply recovered_mono; [exact R4|]. intros j [?|(d & Hd & Hin)]; [by do 2 left|].
      cbn [map concat children] in Hin. apply elem_of_app in Hin as [Hin|Hin].
      * apply elem_of_concat_map in Hin as (c & Hc & Hin). rewrite preorder_eq in Hin. apply elem_of_cons in Hin as [E|Hin].
        -- left. right. exists d. split; [done|]. by rewrite E.
        -- right. exists d. split; [done|]. apply elem_of_concat_map. exists c. split; [|done]. apply elem_of_app. right. apply list_elem_of_filter. split; [|done].
           destruct c; try by apply elem_of_nil in Hin. by eexists.
      * right. exists d. split; [done|]. apply elem_of_concat_map in Hin as (m & Hm & Hin). apply elem_of_concat_map. exists m. split; [|done]. apply elem_of_app. by left.
Qed.

(** ** The own entries *)

Record self_recovered (done : entry -> Prop) (dirs : list directory) : Prop := {
  sr_length : zlen dirs = num_dirs + 1;
  sr_dir : forall k d, dirs_of t !! k = Some d -> exists s, dirs !! k = Some (Directory (parent_pos t d.1) (first_of t k) s) /\
    (done (Dir d.1 d.2) -> s = entry_pos t (e_id d.1));
  sr_last : dirs !! length (dirs_of t) = Some (Directory 0 (first_of t (length (dirs_of t))) 0)
}.

Lemma recover_selves_ok E2 : forall E1 dirs count, entries_of t = E1 ++ E2 -> self_recovered (fun n => n ∈ E1) dirs -> count = zlen (omap dir_of E1) ->
  exists dirs', recover_selves num_dirs (zlen E1) (map (expected_entry g a) E2) dirs count = Ok (dirs', zlen (omap dir_of (entries_of t))) /\
    self_recovered (fun n => n ∈ entries_of t) dirs'.
Proof.
  induction E2 as [|n E2 IH]; intros E1 dirs count EE Hr ->.
  { rewrite app_nil_r in EE. subst E1. exists dirs. done. }
  assert (n ∈ preorder t) as Hn by (apply elem_of_entries; rewrite EE; apply elem_of_app; right; by left).
  assert (entries_of t !! length E1 = Some n) as Hi by (rewrite EE; by apply list_lookup_middle).
  cbn [map recover_selves]. replace (zlen E1 + 1) with (zlen (E1 ++ [n])) by (rewrite zlen_app; done). pose proof (dir_number n Hn) as Hnum.
  assert (omap dir_of (E1 ++ [n]) = omap dir_of E1 ++ match dir_of n with Some d => [d] | None => [] end) as Eo.
  { rewrite omap_app. cbn. by destruct (dir_of n). }
  destruct (dir_of n) as [[e es]|] eqn:Ed.
  - destruct Hnum as (k & Hk & ->). pose proof (lookup_zlen _ _ _ Hk). destruct (Z.ltb_spec (Z.of_nat k) num_dirs); [|lia].
    destruct Hr as [R1 R2 R3]. destruct (R2 k _ Hk) as (s & Hs & _). unfold update_directory, at_index.
    destruct (Z.ltb_spec (Z.of_nat k) 0); [lia|]. rewrite Nat2Z.id, Hs. cbn [there rbind]. unfold zlen in R1.
    apply (IH (E1 ++ [n])); [by rewrite <- app_assoc| |rewrite Eo, zlen_app; done]. destruct n; try done. injection Ed as -> ->.
    assert (k < length (dirs_of t))%nat as Hkl by (by eapply lookup_lt_Some). unfold zlen in R1.
    pose proof (entry_pos_lookup t Ht _ _ Hi) as Hpos. change (eid (Dir e es)) with (e_id e) in Hpos. split.
    + unfold zlen. by rewrite length_insert.
    + intros j d Hj. destruct (decide (j = k)) as [->|Hne].
      * rewrite list_lookup_insert_eq by lia. rewrite Hk in Hj. injection Hj as <-. eexists. split; [done|]. intros _. cbn [fst]. by rewrite Hpos.
      * rewrite list_lookup_insert_ne by done. destruct (R2 j d Hj) as (s' & Hs' & Hself). exists s'. split; [done|]. intros Hin. apply Hself.
        apply elem_of_app in Hin as [?|Hin%list_elem_of_singleton]; [done|]. exfalso. apply Hne. injection Hin as E1' E2'. destruct d as [e' es']. cbn in *. subst.
        pose proof (num_dir t a Ha _ _ _ Hj) as N1. pose proof (num_dir t a Ha _ _ _ Hk) as N2. rewrite N1 in N2. injection N2. lia.
    + rewrite list_lookup_insert_ne by lia. done.
  - destruct (Z.ltb_spec (inode_num (expected_entry g a n)) num_dirs); [lia|].
    apply (IH (E1 ++ [n])); [by rewrite <- app_assoc| |by rewrite Eo, app_nil_r]. destruct Hr as [R1 R2 R3]. split; [done| |done].
    intros k d Hk. destruct (R2 k d Hk) as (s & Hs & Hself). exists s. split; [done|]. intros Hin. apply Hself.
    apply elem_of_app in Hin as [?|Hin%list_elem_of_singleton]; [done|]. by subst n.
Qed.
(** ** [unpack_directories] *)

Lemma first_of_bounds k : 0 <= first_of t k < 2 ^ 32.
Proof.
  pose proof (to_size _ Ht). pose proof (zlen_nonneg (concat (map snd (take k (dirs_of t))))). unfold first_of.
  assert (zlen (entries_of t) = zlen (preorder t)) as E by (unfold zlen; f_equal; apply Permutation_length, entries_preorder).
  unfold entries_of in E. rewrite <- (take_drop k (dirs_of t)), map_app, concat_app in E at 1.
  change (zlen (t :: ?l)) with (Z.of_nat (S (length l))) in E. unfold zlen in *. cbn [length] in E. rewrite length_app in E. lia.
Qed.

Lemma expected_firsts : Forall (in_u 32) (map first_entry (expected_dirs t)).
Proof.
  apply Forall_map, Forall_lookup_2. intros k d Hd. pose proof (lookup_lt_Some _ _ _ Hd) as Hlt. pose proof expected_dirs_length as Hl. unfold zlen in Hl.
  destruct (expected_first k) as (d' & Hd' & Ef); [lia|]. rewrite Hd in Hd'. injection Hd' as <-. rewrite Ef. apply first_of_bounds.
Qed.

Lemma start_recovered : recovered (fun j => j = O) (map (fun d => Directory 0 (first_entry d) 0) (expected_dirs t)).
Proof.
  assert (forall k, (k <= length (dirs_of t))%nat -> map (fun d => Directory 0 (first_entry d) 0) (expected_dirs t) !! k = Some (Directory 0 (first_of t k) 0)) as H.
  { intros k Hk. destruct (expected_first k Hk) as (d & Hd & <-). by rewrite list_lookup_fmap, Hd. }
  split.
  - rewrite <- expected_dirs_length. unfold zlen. by rewrite length_map.
  - intros k Hk. exists 0. by apply H.
  - intros k d Hd ->. rewrite (H O) by lia. do 2 f_equal. destruct (to_root _ Ht) as (e & es & Et & Hr). unfold dirs_of in Hd. rewrite preorder_eq, Et in Hd.
    cbn in Hd. injection Hd as <-. unfold parent_pos. cbn [fst]. by rewrite Hr.
  - by apply H.
Qed.

Lemma below_root j d : dirs_of t !! j = Some d -> j = O \/ below [t] j.
Proof.
  intros Hj. destruct d as [e es]. pose proof (dirs_preorder t j e es Hj) as Hin. rewrite preorder_eq in Hin. apply elem_of_cons in Hin as [E|Hin].
  - left. assert (dirs_of t !! O = Some (e, es)) as H0 by (unfold dirs_of; rewrite preorder_eq, <- E; done).
    pose proof (num_dir t a Ha _ _ _ Hj) as N1. pose proof (num_dir t a Ha _ _ _ H0) as N2. rewrite N1 in N2. injection N2. lia.
  - right. exists (e, es). split; [done|]. cbn [map concat fst snd]. by rewrite app_nil_r.
Qed.

Lemma pos_of_root : pos_of t = 0.
Proof. unfold pos_of. by rewrite (entry_pos_lookup t Ht O t). Qed.

Lemma dirs_of_positive : 0 < num_dirs.
Proof. destruct (to_root _ Ht) as (e & es & Et & _). rewrite dirs_of_eq, Et. cbn [dir_of app]. unfold zlen. cbn [length]. lia. Qed.

Lemma omap_entries : zlen (omap dir_of (entries_of t)) = num_dirs.
Proof. unfold zlen, dirs_of. f_equal. by rewrite entries_preorder. Qed.

Lemma unpack_packed fuel meta packed : md_dir_entries meta = Some entries -> md_options meta = Some packed -> packed_directories packed = true ->
  md_directories meta = pack_directories_from 0 (expected_dirs t) -> num_dirs <= Z.of_nat fuel ->
  unpack_directories fuel meta = Ok (Some (expected_dirs t)).
Proof.
  intros Hde Hopt Hp Hdirs Hfuel. unfold unpack_directories, opt_flag. rewrite Hopt, Hp. cbn [negb andb]. rewrite Hde. cbn [there rbind]. rewrite Hp, Hdirs.
  assert (zlen (pack_directories_from 0 (expected_dirs t)) - 1 = num_dirs) as ->.
  { pose proof expected_dirs_length as H. unfold zlen in *. rewrite pack_directories_length. lia. }
  assert (exists d, at_index (pack_directories_from 0 (expected_dirs t)) 0 = Ok d) as [d0 ->].
  { unfold at_index. cbn [Z.ltb Z.compare]. destruct (lookup_lt_is_Some_2 (pack_directories_from 0 (expected_dirs t)) (Z.to_nat 0)) as [d Hd].
    - rewrite pack_directories_length. pose proof expected_dirs_length as H. pose proof dirs_of_positive. unfold zlen in *. lia.
    - exists d. by rewrite Hd. }
  cbn [rbind]. rewrite unpacked_first by apply expected_firsts.
  destruct (recover_parents_ok fuel [t] _ _ ltac:(constructor; [|constructor]; split; [apply preorder_self|]; destruct (to_root _ Ht) as (e & es & -> & _); by eexists)
    ltac:(cbn [map concat]; rewrite app_nil_r; unfold zlen in Hfuel; lia) start_recovered) as (dirs1 & E1 & R1).
  cbn [map] in E1. rewrite pos_of_root in E1. rewrite E1. cbn [rbind].
  destruct (recover_selves_ok (entries_of t) [] dirs1 0) as (dirs2 & E2 & [S1 S2 S3]); [done| |done|].
  { split; [apply (rc_length _ _ R1)| |apply (rc_last _ _ R1)]. intros k d Hk. exists 0. split; [|by intros ?%elem_of_nil].
    apply (rc_done _ _ R1); [done|]. by apply below_root in Hk. }
  change (zlen []) with 0 in E2. rewrite E2. cbn [rbind]. unfold dwarfs_check. rewrite omap_entries, Z.eqb_refl. cbn [rbind]. do 2 f_equal.
  apply list_eq. intros k. destruct (decide (k < length (dirs_of t))%nat) as [Hlt|Hge].
  - destruct (lookup_lt_is_Some_2 _ _ Hlt) as [d Hd]. rewrite (expected_dirs_lookup k d Hd). destruct (S2 k d Hd) as (s & -> & Hs). unfold dir_at. do 2 f_equal.
    apply Hs, elem_of_entries. destruct d as [e es]. by eapply dirs_preorder.
  - destruct (decide (k = length (dirs_of t))) as [->|Hne].
    + rewrite S3. destruct (expected_first (length (dirs_of t))) as (d & Hd & <-); [lia|]. rewrite Hd. unfold expected_dirs in Hd.
      rewrite lookup_app_r in Hd by (rewrite length_imap; lia). rewrite length_imap, Nat.sub_diag in Hd. by injection Hd as <-.
    + pose proof expected_dirs_length as H. unfold zlen in *. rewrite !lookup_ge_None_2; [done|lia|lia].
Qed.

(** The own entries have bits when there is more than the root. *)
Lemma layout_bits_pos l x : x ∈ l -> 0 < x -> 0 < layout_bits l.
Proof.
  intros Hx Hpos. induction l as [|y l IH]; [by apply elem_of_nil in Hx|]. cbn [layout_bits foldr]. fold (layout_bits l).
  apply elem_of_cons in Hx as [->|Hx]; [|specialize (IH Hx); lia]. unfold bit_width. destruct (Z.eqb_spec y 0); [lia|]. pose proof (Z.log2_nonneg y). lia.
Qed.

Lemma unpack_unpacked fuel meta opts : md_dir_entries meta = Some entries -> md_options meta = Some opts -> packed_directories opts = false ->
  md_directories meta = expected_dirs t -> md_self_entry_bits meta = layout_bits (map self_entry (md_directories meta)) ->
  unpack_directories fuel meta = Ok None.
Proof.
  intros Hde Hopt Hp Hdirs Hbits. unfold unpack_directories, opt_flag. rewrite Hopt, Hp, Hde. cbn [negb andb orb].
  assert (dir_has_self_entry meta = true) as ->; [|done]. unfold dir_has_self_entry. rewrite Hbits, Hdirs, expected_dirs_length.
  destruct (Z.leb_spec (num_dirs + 1) 2) as [_|Hlt]; [done|]. cbn [orb]. apply Z.ltb_lt.
  destruct (lookup_lt_is_Some_2 (dirs_of t) 1) as [[e es] Hd]; [unfold zlen in Hlt; lia|].
  apply (layout_bits_pos _ (entry_pos t (e_id e))).
  - apply list_elem_of_fmap. exists (dir_at t 1 (e, es)). split; [done|]. by eapply list_elem_of_lookup_2, expected_dirs_lookup.
  - pose proof (dirs_preorder t 1 e es Hd) as Hin. destruct (pos_lookup _ Hin) as (i & Hi & Ep). unfold pos_of in Ep. change (eid (Dir e es)) with (e_id e) in Ep.
    rewrite Ep. destruct i as [|i]; [|lia]. exfalso. cbn in Hi. injection Hi as Hi.
    assert (dirs_of t !! O = Some (e, es)) as H0 by (unfold dirs_of; rewrite preorder_eq, Hi; done).
    pose proof (num_dir t a Ha _ _ _ Hd) as N1. pose proof (num_dir t a Ha _ _ _ H0) as N2. rewrite N1 in N2. injection N2. lia.
Qed.
End recovery.
