(* ===== verification/OpenedTree.v ===== *)
(** * OpenedTree: the reader opens the metadata that was built

    The constructor of [metadata_v2_data] on what [build] returns: the tables
    that were packed are unpacked to what they were, the numbers of links are
    counted again when they were not stored, and the offsets of the inodes
    agree with the tables. *)

From S2P Require Import Prelude FileChunks PackedInts StringTable Metadata MetadataReader MetadataSafety EntryTree MetadataBuilder EntryLists TreeTables EntryData EntryTables GatheredMetadata BuiltMetadata RecoveredDirectories.
Local Open Scope Z_scope.

#[local] Abbreviation checked := (result metadata_error).

(** ** Unpacked vectors *)

#[local] Abbreviation vector_of := (pv_inv word_lg).

Lemma pv_append_ok xs v l : vector_of v l -> exists v', pv_append xs v = Ok v' /\ vector_of v' (l ++ map (wrapu (pv_bits v)) xs).
Proof.
  revert v l. induction xs as [|x xs IH]; intros v l Hv; cbn [pv_append map]; [exists v; by rewrite app_nil_r|].
  destruct (pv_push_back_ok word_lg word_lg_pos v l x Hv) as (v' & -> & Hv' & Hb). cbn [there rbind].
  destruct (IH v' _ Hv') as (w & -> & Hw). exists w. split; [done|]. by rewrite Hb, <- app_assoc in Hw.
Qed.

Lemma pv_fill_ok xs v l1 l2 : vector_of v (l1 ++ l2) -> length xs = length l2 ->
  exists v', pv_fill (zlen l1) xs v = Ok v' /\ vector_of v' (l1 ++ map (wrapu (pv_bits v)) xs).
Proof.
  revert v l1 l2. induction xs as [|x xs IH]; intros v l1 [|y l2] Hv Hl; try done; cbn [pv_fill map]; [by exists v|].
  destruct (pv_set_ok word_lg word_lg_pos v (l1 ++ y :: l2) (length l1) x Hv) as (v' & E & Hv' & Hb); [rewrite length_app; cbn; lia|].
  unfold zlen at 1. rewrite E. cbn [there rbind]. rewrite insert_app_r_alt, Nat.sub_diag in Hv' by lia.
  change (<[0%nat := ?z]> (y :: l2)) with (z :: l2) in Hv'. set (z := wrapu (pv_bits v) x) in *.
  destruct (IH v' (l1 ++ [z]) l2) as (w & Ew & Hw); [by rewrite <- app_assoc|by injection Hl|].
  rewrite zlen_app in Ew. change (zlen [z]) with 1 in Ew. rewrite Ew. exists w. split; [done|].
  by rewrite Hb, <- app_assoc in Hw.
Qed.

Lemma map_wrapu_id bits xs : Forall (in_u bits) xs -> map (wrapu bits) xs = xs.
Proof. induction 1 as [|x xs Hx _ IH]; [done|]. cbn [map]. by rewrite IH, wrapu_small. Qed.

Lemma pv_filled bits xs : 0 <= bits <= 32 -> Forall (in_u bits) xs ->
  exists v, pv_fill 0 xs (pv_reset word_lg bits (zlen xs) pv_default) = Ok v /\ vector_of v xs.
Proof.
  intros Hb Hx. pose proof (pv_reset_inv word_lg word_lg_pos bits (zlen xs) pv_default Hb (zlen_nonneg _)) as Hv.
  destruct (pv_fill_ok xs _ [] _ Hv) as (v & E & Hf); [rewrite length_replicate; unfold zlen; lia|]. exists v. split; [exact E|].
  cbn [pv_bits pv_reset app] in Hf. by rewrite map_wrapu_id in Hf.
Qed.

Lemma pv_appended bits xs : 0 <= bits <= 32 -> Forall (in_u bits) xs ->
  exists v, pv_append xs (pv_reset word_lg bits 0 pv_default) = Ok v /\ vector_of v xs.
Proof.
  intros Hb Hx. pose proof (pv_reset_inv word_lg word_lg_pos bits 0 pv_default Hb ltac:(done)) as Hv.
  destruct (pv_append_ok xs _ _ Hv) as (v & E & Hf). exists v. split; [exact E|].
  cbn [pv_bits pv_reset app replicate Z.to_nat] in Hf. by rewrite map_wrapu_id in Hf.
Qed.

Lemma vector_size v l : vector_of v l -> pv_size v = zlen l.
Proof. by intros []. Qed.

Lemma empty_vector : pv_empty (pv_default) = true.
Proof. done. Qed.

Lemma vector_empty v l : vector_of v l -> pv_empty v = bool_decide (l = []).
Proof.
  intros H. unfold pv_empty. rewrite (vector_size _ _ H). destruct l; [done|]. rewrite bool_decide_eq_false_2 by done.
  unfold zlen. cbn [length]. apply Z.eqb_neq. lia.
Qed.

Lemma at_index_lookup {A} (l : list A) i x : 0 <= i -> l !! Z.to_nat i = Some x -> at_index l i = Ok x.
Proof. intros Hi Hx. unfold at_index. destruct (Z.ltb_spec i 0); [lia|]. by rewrite Hx. Qed.

Lemma to_int_small x : 0 <= x < 2 ^ 31 -> to_int x = x.
Proof. intros H. apply wraps_small; [done|]. unfold in_s. lia. Qed.

(** ** The numbers of links *)

Lemma max_element_le l x : x ∈ l -> x <= max_element l.
Proof. induction 1 as [|x y l _ IH]; cbn [max_element foldr]; [lia|]. fold (max_element l). lia. Qed.

Lemma max_element_lt l b : 0 <= b -> Forall (fun x => x <= b) l -> 0 <= max_element l <= b.
Proof. intros Hb. induction 1 as [|x l Hx _ IH]; cbn [max_element foldr]; [lia|]. fold (max_element l). lia. Qed.

(** How often a number occurs. *)
Definition occurrences (x : Z) (nums : list Z) : Z := zlen (filter (eq x) nums).

Lemma occurrences_cons x y nums : occurrences x (y :: nums) = (if decide (x = y) then 1 else 0) + occurrences x nums.
Proof. unfold occurrences, zlen. rewrite filter_cons. destruct (decide _); cbn [length]; lia. Qed.

Lemma occurrences_nonneg x nums : 0 <= occurrences x nums.
Proof. apply zlen_nonneg. Qed.

Lemma count_num_occurrences x entries : count_num x entries = occurrences x (map inode_num entries).
Proof.
  induction entries as [|de entries IH]; [done|]. cbn [map]. rewrite count_num_cons, occurrences_cons, IH.
  destruct (decide (inode_num de = x)), (decide (x = inode_num de)); lia.
Qed.

(** [build_nlinks] counts them, and finds whether one occurs twice. *)
Lemma count_links_ok off nums nlinks total : 0 <= off -> Forall (fun x => 0 <= x < 2 ^ 31) nums ->
  (forall i n, nlinks !! i = Some n -> 0 <= n /\ n + zlen nums < 2 ^ 32) ->
  exists nlinks' total', count_links off nums nlinks total = (nlinks', total') /\ length nlinks' = length nlinks /\ total <= total' /\
    (forall i n, nlinks !! i = Some n -> nlinks' !! i = Some (n + occurrences (off + Z.of_nat i) nums)) /\
    (total' = total -> forall i n, nlinks !! i = Some n -> n <= 1 -> n + occurrences (off + Z.of_nat i) nums <= 1).
Proof.
  intros Hoff Hn. revert nlinks total. induction Hn as [|x nums Hx _ IH]; intros nlinks total Hnl.
  { exists nlinks, total. split_and!; [done|done|lia| |].
    - intros i n Hi. change (occurrences _ []) with 0. by rewrite Z.add_0_r.
    - intros _ i n _. change (occurrences _ []) with 0. lia. }
  assert (zlen (x :: nums) = 1 + zlen nums) as Hlen by (unfold zlen; cbn [length]; lia).
  cbn [count_links]. rewrite to_int_small by lia.
  assert (forall i n, nlinks !! i = Some n -> (0 <= x - off -> Z.to_nat (x - off) <> i) -> occurrences (off + Z.of_nat i) (x :: nums) = occurrences (off + Z.of_nat i) nums) as Hother.
  { intros i n _ H. rewrite occurrences_cons. destruct (decide _); [|done]. exfalso. apply H; lia. }
  assert (exists nlinks' total', count_links off nums nlinks total = (nlinks', total') /\ length nlinks' = length nlinks /\ total <= total' /\
    (forall i n, nlinks !! i = Some n -> nlinks' !! i = Some (n + occurrences (off + Z.of_nat i) nums)) /\
    (total' = total -> forall i n, nlinks !! i = Some n -> n <= 1 -> n + occurrences (off + Z.of_nat i) nums <= 1)) as Hskip.
  { apply IH. intros i n Hi. specialize (Hnl i n Hi). lia. }
  destruct (Z.leb_spec 0 (x - off)) as [H0|H0].
  - destruct (nlinks !! Z.to_nat (x - off)) as [n0|] eqn:E.
    + destruct (Hnl _ _ E) as [N1 N2]. pose proof (zlen_nonneg nums). rewrite wrapu_small by (unfold in_u; lia).
      set (j := Z.to_nat (x - off)) in *. pose proof (lookup_lt_Some _ _ _ E) as Hj.
      destruct (IH (<[j := n0 + 1]> nlinks) (if 1 <? n0 + 1 then total + 1 else total)) as (nl' & t' & -> & L & T & V & W).
      { intros i n Hi. destruct (decide (j = i)) as [<-|Hne].
        - rewrite list_lookup_insert_eq in Hi by done. injection Hi as <-. lia.
        - rewrite list_lookup_insert_ne in Hi by done. specialize (Hnl i n Hi). lia. }
      rewrite length_insert in L. exists nl', t'. split_and!; [done|done|destruct (Z.ltb_spec 1 (n0 + 1)); lia| |].
      * intros i n Hi. destruct (decide (j = i)) as [<-|Hne].
        -- rewrite E in Hi. injection Hi as <-. rewrite (V j (n0 + 1)) by (by rewrite list_lookup_insert_eq). f_equal.
           rewrite occurrences_cons. destruct (decide _); [lia|lia].
        -- rewrite (V i n) by (by rewrite list_lookup_insert_ne). by rewrite (Hother i n Hi).
      * intros Et i n Hi Hle. destruct (Z.ltb_spec 1 (n0 + 1)) as [?|Hn0]; [lia|]. destruct (decide (j = i)) as [<-|Hne].
        -- rewrite E in Hi. injection Hi as <-. rewrite occurrences_cons. destruct (decide _); [|lia].
           specialize (W Et j (n0 + 1)). rewrite list_lookup_insert_eq in W by done. specialize (W eq_refl ltac:(lia)). lia.
        -- rewrite (Hother i n Hi) by done. apply (W Et i n); [by rewrite list_lookup_insert_ne|done].
    + destruct Hskip as (nl' & t' & -> & L & T & V & W). exists nl', t'. split_and!; [done|done|done| |].
      * intros i n Hi. rewrite (Hother i n Hi); [by apply V|]. intros _ <-. by rewrite E in Hi.
      * intros Et i n Hi. rewrite (Hother i n Hi); [by apply W|]. intros _ <-. by rewrite E in Hi.
  - destruct Hskip as (nl' & t' & -> & L & T & V & W). exists nl', t'. split_and!; [done|done|done| |].
    + intros i n Hi. rewrite (Hother i n Hi) by lia. by apply V.
    + intros Et i n Hi. rewrite (Hother i n Hi) by lia. by apply W.
Qed.

(** ** The constructor *)

(** The chunk table has indices of chunks. *)
Record table_fits (files : FileChunks.metadata) : Prop := {
  tf_values : Forall (fun x => 0 <= x <= zlen (md_chunks files)) (md_chunk_table files);
  tf_bound : zlen (md_chunks files) < 2 ^ 32
}.

Section opening.
Context (t : entry) (Ht : tree_ok t) (a : assigned) (Ha : numbered t a) (options : writer_options) (g : global_entry_data).
Context (Hg : entry_data_ok options (preorder t) g) (Hc : chain_ok (chmod_chain options)).
Context {decoder : Type} (fsst_import : list Z -> Z * decoder) (fsst_decompress : decoder -> list Z -> Z -> list Z).
Context (files : FileChunks.metadata) (groups : list nat) (meta : fs_metadata).
Context (Hbuilt : built t a options g fsst_import fsst_decompress files groups meta).
Context (Hgroups : Forall (fun n => (2 <= n)%nat) groups)
  (Hshared : zlen (shared_list groups) = first_device_inode a - first_file_inode a - num_unique (as_files a)).
Context (Hfits : table_fits files).

#[local] Abbreviation num_files := (first_device_inode a - first_file_inode a).

Lemma described_meta : described t a options g meta.
Proof. apply Hbuilt. Qed.

Lemma open_global fuel : zlen (dirs_of t) <= Z.of_nat fuel -> exists tbl,
  global_metadata_create fsst_import fuel meta = Ok (GlobalMetadata meta (expected_dirs t) tbl) /\
  forall i, lookup fsst_decompress tbl (Z.of_nat i) = get_vector (ge_names g) !! i.
Proof.
  intros Hfuel. unfold global_metadata_create. pose proof (ds_entries _ _ _ _ _ described_meta) as Hde.
  destruct (bt_names _ _ _ _ _ _ _ _ _ Hbuilt) as (tbl & Etbl & Htbl). pose proof (bt_directories _ _ _ _ _ _ _ _ _ Hbuilt) as Hdirs.
  destruct (pack_directories options) eqn:Ep.
  - erewrite (unpack_packed t Ht a Ha g) by (apply Hde || apply Hdirs || apply (bt_options _ _ _ _ _ _ _ _ _ Hbuilt) || done).
    cbn [rbind]. rewrite Etbl. cbn [rbind default]. by exists tbl.
  - erewrite (unpack_unpacked t Ht a Ha g) by (apply Hde || apply Hdirs || apply (bt_options _ _ _ _ _ _ _ _ _ Hbuilt) || apply (bt_bits _ _ _ _ _ _ _ _ _ Hbuilt) || done).
    cbn [rbind]. rewrite Etbl. cbn [rbind]. rewrite Hdirs. by exists tbl.
Qed.

Lemma open_symlinks : exists tbl, open_string_table fsst_import (md_compact_symlinks meta) (md_symlinks meta) = Ok tbl /\
  forall i, lookup fsst_decompress tbl (Z.of_nat i) = get_vector (ge_symlinks g) !! i.
Proof. apply (bt_symlinks _ _ _ _ _ _ _ _ _ Hbuilt). Qed.

Lemma root_number : exists e es, t = Dir e es /\ e_parent e = None /\ dirs_of t !! O = Some (e, es) /\ inode_num (expected_entry g a t) = 0.
Proof.
  destruct (to_root _ Ht) as (e & es & Et & Hp). exists e, es. assert (dirs_of t !! O = Some (e, es)) as H0 by (by rewrite dirs_of_eq, Et).
  split_and!; try done. pose proof (num_dir t a Ha _ _ _ H0) as Hn. rewrite Et. unfold expected_entry. cbn [inode_num].
  change (num_of a (Dir e es)) with (as_nums a !! e_id e). by rewrite Hn.
Qed.

Lemma entries_head : map (expected_entry g a) (entries_of t) !! O = Some (expected_entry g a t).
Proof. done. Qed.

Lemma directories_bound : zlen (md_directories meta) = zlen (dirs_of t) + 1.
Proof.
  rewrite (bt_directories _ _ _ _ _ _ _ _ _ Hbuilt). pose proof (expected_dirs_length t) as H. unfold zlen in *.
  destruct (pack_directories options); [by rewrite pack_directories_length|done].
Qed.

Lemma open_root tbl : make_directory_entry_view (decoder := decoder) (GlobalMetadata meta (expected_dirs t) tbl) 0 OtherName =
  Ok (DirEntryView (EntryOf (expected_entry g a t)) 0 0 OtherName).
Proof.
  destruct root_number as (e & es & Et & Hp & H0 & Hn). unfold make_directory_entry_view. cbn [g_meta].
  rewrite (ds_entries _ _ _ _ _ described_meta). unfold dwarfs_check.
  assert ((0 <? zlen (map (expected_entry g a) (entries_of t))) = true) as ->.
  { apply Z.ltb_lt. apply (lookup_zlen _ _ _ entries_head). }
  cbn [rbind]. rewrite (at_index_lookup _ 0 _ ltac:(done) entries_head). cbn [rbind]. rewrite Hn, directories_bound.
  destruct (Z.ltb_spec 0 (zlen (dirs_of t) + 1)) as [_|?]; [|pose proof (zlen_nonneg (dirs_of t)); lia]. cbn [rbind].
  unfold parent_dir_entry. cbn [g_directories g_meta]. erewrite at_index_lookup; [|done|apply (expected_dirs_lookup t O _ H0)]. cbn [rbind].
  rewrite (ds_old _ _ _ _ _ described_meta). cbn [rbind]. unfold dir_at. cbn [parent_entry fst]. unfold parent_pos. by rewrite Hp.
Qed.

(** *** Chunks and shared files *)

Lemma open_chunk_table : exists v, unpack_chunk_table meta = Ok v /\
  forall i x, md_chunk_table files !! i = Some x ->
    (if pv_empty v then at_index (md_chunk_table (md_files meta)) (Z.of_nat i) else there (pv_get word_lg v (Z.of_nat i))) = Ok x.
Proof.
  destruct Hfits as [F2 F3]. unfold unpack_chunk_table, opt_flag. rewrite (bt_options _ _ _ _ _ _ _ _ _ Hbuilt). cbn [packed_chunk_table].
  rewrite (bt_files _ _ _ _ _ _ _ _ _ Hbuilt). cbn [md_chunk_table md_chunks]. destruct (pack_chunk_table options).
  - pose proof (zlen_nonneg (md_chunks files)). rewrite partial_sum_adjacent_difference.
    2: { eapply Forall_impl; [exact F2|]. cbn. intros x. unfold in_u. lia. }
    destruct (pv_appended (bit_width (zlen (md_chunks files))) (md_chunk_table files)) as (v & -> & Hv).
    { apply bit_width_range. lia. } { eapply Forall_impl; [exact F2|]. cbn. intros x. apply bit_width_bound. }
    exists v. split; [done|]. intros i x Hi. rewrite (vector_empty _ _ Hv), bool_decide_eq_false_2 by (intros E; by rewrite E in Hi).
    by rewrite (pv_get_ok word_lg word_lg_pos v _ i x Hv Hi).
  - eexists. split; [done|]. intros i x Hi. rewrite empty_vector. apply at_index_lookup; [lia|by rewrite Nat2Z.id].
Qed.

(** The shared files, unpacked or as they are. *)
Definition shares (v : packed_int_vector) : Prop :=
  (pv_empty v = true /\ md_shared_files_table meta = Some (shared_list groups)) \/ (pv_empty v = false /\ vector_of v (shared_list groups)).

Lemma shared_bound : zlen (shared_list groups) < 2 ^ 31 - 1 /\ zlen groups < 2 ^ 31 - 1.
Proof.
  pose proof (offsets_bound t Ht a Ha). pose proof (fn_unique _ _ _ _ (nb_files _ _ Ha)). pose proof (groups_bound groups Hgroups). lia.
Qed.

Lemma open_shared_files : exists v, unpack_shared_files meta = Ok v /\ shares v.
Proof.
  pose proof shared_bound as [B1 B2]. unfold unpack_shared_files, shares, opt_flag.
  rewrite (bt_shared _ _ _ _ _ _ _ _ _ Hbuilt), (bt_options _ _ _ _ _ _ _ _ _ Hbuilt). cbn [packed_shared_files_table].
  destruct (pack_shared_files_table options).
  - destruct groups as [|n gs] eqn:Eg; [by eexists; split; [done|]; left|]. rewrite <- Eg in *. 
    assert (forall A (l : list Z) (x y : A), l <> [] -> match l with [] => x | _ :: _ => y end = y) as Hcons by (by intros A []).
    rewrite Hcons by (by rewrite Eg). rewrite shared_targets_ok by (done || rewrite <- shared_list_from; lia). rewrite <- shared_list_from.
    rewrite accumulate_groups. replace (zlen (pack_groups groups)) with (zlen groups) by (unfold zlen, pack_groups; by rewrite length_map).
    replace (2 * zlen groups - 2 * zlen groups + zlen (shared_list groups)) with (zlen (shared_list groups)) by lia.
    pose proof (zlen_nonneg groups). destruct (pv_filled (bit_width (zlen groups)) (shared_list groups)) as (v & E & Hv).
    + apply bit_width_range. lia.
    + pose proof (shared_from_ge 0 groups) as H1. pose proof (shared_from_upper 0 groups) as H2. rewrite shared_list_from.
      eapply Forall_impl; [apply Forall_and; split; [exact H1|exact H2]|]. cbn. intros x Hx. apply bit_width_bound. lia.
    + exists v. split; [exact E|]. right. split; [|done]. rewrite (vector_empty _ _ Hv). apply bool_decide_eq_false_2. intros El.
      rewrite shared_list_from, Eg, shared_from_cons in El. apply app_eq_nil in El as [El _].
      rewrite Eg in Hgroups. apply Forall_cons in Hgroups as [Hn _]. destruct n; [lia|done].
  - eexists. split; [by destruct (shared_list groups)|]. by left.
Qed.

(** *** The numbers of links *)

(** The number of links of a regular file, as [getattr] finds it. *)
Definition reg_nlink (nlinks : option packed_int_vector) (file_offset inode : Z) (ino : inode_data) : checked Z :=
  match nlinks with
  | None => Ok (wrapu 32 (nlink_minus_one ino + 1))
  | Some v =>
      if negb (pv_empty v) then
        match pv_at word_lg v (inode - file_offset) with
        | Ok x => let? x := there x in Ok (wrapu 32 (x + 1))
        | Err _ => Err (Terminated "nlink")
        end
      else Ok 1
  end.

Lemma link_count_range x : 0 <= x < last_inode a -> 1 <= link_count t a g x < 2 ^ 31 - 1.
Proof.
  intros Hx. split; [by apply link_count_pos|]. pose proof (count_num_le x (map (expected_entry g a) (entries_of t))) as H.
  fold (link_count t a g x) in H. rewrite entries_count in H. pose proof (to_size _ Ht). lia.
Qed.

Lemma open_nlinks : exists nlinks, build_nlinks meta (first_file_inode a) (first_device_inode a) = Ok nlinks /\
  forall x ino, first_file_inode a <= x < first_device_inode a -> md_inodes meta !! Z.to_nat x = Some ino ->
    reg_nlink nlinks (first_file_inode a) x ino = Ok (link_count t a g x).
Proof.
  pose proof (offsets_bound t Ht a Ha) as Hb. unfold build_nlinks, opt_flag. rewrite (bt_options _ _ _ _ _ _ _ _ _ Hbuilt). cbn [inodes_have_nlink].
  destruct (no_hardlink_table options) eqn:Eh; cbn [negb].
  - destruct (Z.ltb_spec (first_file_inode a) (first_device_inode a)) as [Hlt|Hge]; [|by exists None; split; [done|]; intros x ino Hx; lia].
    rewrite (ds_entries _ _ _ _ _ described_meta). set (nums := map inode_num (map (expected_entry g a) (entries_of t))).
    assert (zlen nums = zlen (preorder t)) as Enums by (unfold nums; pose proof (entries_count t a g) as H; unfold zlen in *; rewrite length_map; exact H).
    assert (forall x, link_count t a g x = occurrences x nums) as Hlc by (intros x; apply count_num_occurrences).
    destruct (count_links_ok (first_file_inode a) nums (replicate (Z.to_nat num_files) 0) 0) as (nl & total & -> & L & T & V & W); [lia| | |].
    { apply Forall_map, Forall_map, Forall_forall. intros n Hn. apply elem_of_entries in Hn. destruct (expected_entry_num t a Ha g n Hn) as [_ H]. change (0 <= inode_num (expected_entry g a n) < 2 ^ 31). lia. }
    { intros i n Hi. apply lookup_replicate in Hi as [-> _]. rewrite Enums. pose proof (to_size _ Ht). lia. }
    rewrite length_replicate in L.
    assert (forall x, first_file_inode a <= x < first_device_inode a -> nl !! Z.to_nat (x - first_file_inode a) = Some (link_count t a g x)) as Hnl.
    { intros x Hx. rewrite (V _ 0) by (apply lookup_replicate_2; lia). f_equal. rewrite Hlc, Z.add_0_l. f_equal. lia. }
    assert (Forall (fun n => 1 <= n < 2 ^ 31 - 1) nl) as Hrange.
    { apply Forall_lookup_2. intros i n Hi. pose proof (lookup_lt_Some _ _ _ Hi) as Hlt'. specialize (Hnl (first_file_inode a + Z.of_nat i) ltac:(lia)).
      replace (Z.to_nat _) with i in Hnl by lia. rewrite Hi in Hnl. injection Hnl as ->. apply link_count_range. lia. }
    destruct (Z.ltb_spec 0 total) as [Hpos|Hz].
    + destruct (max_element_lt nl (2 ^ 31)) as [M1 M2]; [lia|eapply Forall_impl; [exact Hrange|]; cbn; lia|].
      destruct (pv_filled (bit_width (max_element nl - 1)) (map (fun n => wrapu 32 (n - 1)) nl)) as (v & E & Hv); [apply bit_width_range; lia| |].
      { apply Forall_map, Forall_lookup_2. intros i n Hi. cbn. pose proof (Forall_lookup_1 _ _ _ _ Hrange Hi) as Hn. cbn in Hn.
        rewrite wrapu_small by (unfold in_u; lia). apply bit_width_bound. pose proof (max_element_le nl n) as Hm. specialize (Hm ltac:(by eapply list_elem_of_lookup_2)). lia. }
      unfold zlen in E. rewrite length_map in E. fold (zlen nl) in E. rewrite E. cbn [rbind]. exists (Some v). split; [done|].
      intros x ino Hx _. cbn [reg_nlink]. specialize (Hnl x Hx). rewrite (vector_empty _ _ Hv).
      rewrite bool_decide_eq_false_2 by (destruct nl; [by rewrite lookup_nil in Hnl|done]). cbn [negb].
      replace (x - first_file_inode a) with (Z.of_nat (Z.to_nat (x - first_file_inode a))) by lia.
      rewrite (pv_at_ok word_lg word_lg_pos v _ _ Hv), list_lookup_fmap, Hnl. cbn [fmap option_fmap option_map there rbind].
      pose proof (link_count_range x ltac:(lia)). rewrite (wrapu_small 32 (_ - 1)) by (unfold in_u; lia). rewrite wrapu_small by (unfold in_u; lia). f_equal. lia.
    + eexists. split; [done|]. intros x ino Hx _. cbn [reg_nlink]. rewrite empty_vector. cbn [negb].
      specialize (W ltac:(lia) (Z.to_nat (x - first_file_inode a)) 0 ltac:(apply lookup_replicate_2; lia) ltac:(lia)).
      pose proof (link_count_range x ltac:(lia)) as Hr. rewrite Hlc in *. f_equal.
      replace (first_file_inode a + Z.of_nat (Z.to_nat (x - first_file_inode a))) with x in W by lia. lia.
  - exists None. split; [done|]. intros x ino Hx Hi. cbn [reg_nlink]. rewrite (bt_nlink _ _ _ _ _ _ _ _ _ Hbuilt _ _ Hi).
    unfold expected_nlink. rewrite Eh. cbn [negb andb]. rewrite Z2Nat.id by lia.
    destruct (Z.leb_spec (first_file_inode a) x); [|lia]. destruct (Z.ltb_spec x (first_device_inode a)); [|lia]. cbn [andb].
    pose proof (link_count_range x ltac:(lia)). rewrite wrapu_small by (unfold in_u; lia). f_equal. lia.
Qed.

(** *** The opened metadata *)

(** The index of the chunks of a file. *)
Definition file_index (i : Z) : Z :=
  if i <? num_unique (as_files a) then i else num_unique (as_files a) + default 0 (shared_list groups !! Z.to_nat (i - num_unique (as_files a))).

Record opened (reader_options : metadata_options) (inode_offset : Z) (d : metadata_v2_data) : Prop := {
  op_meta : meta_ d = meta;
  op_global : g_meta (global_ d) = meta;
  op_directories : g_directories (global_ d) = expected_dirs t;
  op_names : forall i, lookup fsst_decompress (g_names (global_ d)) (Z.of_nat i) = get_vector (ge_names g) !! i;
  op_symlinks : forall i, lookup fsst_decompress (symlinks_ d) (Z.of_nat i) = get_vector (ge_symlinks g) !! i;
  op_root : root_ d = DirEntryView (EntryOf (expected_entry g a t)) 0 0 OtherName;
  op_inode_offset : inode_offset_ d = inode_offset;
  op_first_link : symlink_inode_offset_ d = first_link_inode a;
  op_first_file : file_inode_offset_ d = first_file_inode a;
  op_first_device : dev_inode_offset_ d = first_device_inode a;
  op_count : inode_count_ d = last_inode a;
  op_chunk_table : forall i x, md_chunk_table files !! i = Some x -> chunk_table_lookup d (Z.of_nat i) = Ok x;
  op_index : forall i, 0 <= i < num_files -> file_inode_to_chunk_index d (first_file_inode a + i) = Ok (file_index i);
  op_nlink : forall x ino, first_file_inode a <= x < first_device_inode a -> md_inodes meta !! Z.to_nat x = Some ino ->
    reg_nlink (nlinks_ d) (first_file_inode a) x ino = Ok (link_count t a g x);
  op_options : options_ d = reader_options
}.

Lemma file_index_range i : 0 <= i < num_files -> 0 <= file_index i < num_unique (as_files a) + zlen groups.
Proof.
  intros Hi. unfold file_index. pose proof (zlen_nonneg groups). destruct (Z.ltb_spec i (num_unique (as_files a))) as [Hlt|Hge]; [lia|].
  destruct (lookup_lt_is_Some_2 (shared_list groups) (Z.to_nat (i - num_unique (as_files a)))) as [x Hx]; [unfold zlen in *; lia|]. rewrite Hx.
  pose proof (shared_from_ge 0 groups) as H1. pose proof (shared_from_upper 0 groups) as H2. rewrite shared_list_from in Hx.
  pose proof (Forall_lookup_1 _ _ _ _ H1 Hx) as X1. pose proof (Forall_lookup_1 _ _ _ _ H2 Hx) as X2. cbn in X1, X2.
  change (default 0 (Some x)) with x. pose proof (fn_unique _ _ _ _ (nb_files _ _ Ha)). lia.
Qed.

Lemma open_check_offsets : check_offsets meta (first_link_inode a) (first_file_inode a) (first_device_inode a) = Ok tt.
Proof.
  pose proof (offsets_bound t Ht a Ha) as Hb. unfold check_offsets, check_that. rewrite directories_bound, (dirs_count t a Ha).
  replace (first_link_inode a + 1 - 1) with (first_link_inode a) by lia. rewrite Z.eqb_refl. cbn [rbind].
  rewrite (ds_table _ _ _ _ _ described_meta), Z.eqb_refl. cbn [rbind]. rewrite (bt_shared _ _ _ _ _ _ _ _ _ Hbuilt). cbn [orb rbind].
  rewrite (ds_devices _ _ _ _ _ described_meta), (find_inode_rank_offset_ok t Ht a Ha options g Hc meta) by (done || apply described_meta).
  cbn [rbind]. destruct (rank_values t a) as (_ & _ & _ & (_ & V) & (V' & _)). pose proof (nb_last _ _ Ha).
  pose proof (zlen_nonneg (devs t)). pose proof (zlen_nonneg (others t)). unfold zlen at 1. rewrite length_map. fold (zlen (devs t)).
  rewrite V'. rewrite !to_int_small by lia. replace (_ =? _) with true; [done|]. symmetry. apply Z.eqb_eq. lia.
Qed.

(** The metadata is opened, whether it is checked or not: what the checks do on
    it is not part of this statement. *)
Lemma open_ok frozen_string_table_size fuel reader_options inode_offset : check_consistency reader_options = false -> zlen (dirs_of t) <= Z.of_nat fuel ->
  exists d, metadata_v2_data_create fsst_import frozen_string_table_size fuel meta reader_options inode_offset false = Ok d /\
    opened reader_options inode_offset d.
Proof.
  intros Hcheck Hfuel. pose proof (offsets_bound t Ht a Ha) as Hb. pose proof shared_bound as [B1 B2].
  pose proof (zlen_nonneg (shared_list groups)) as B0. pose proof (fn_unique _ _ _ _ (nb_files _ _ Ha)) as Hnu.
  unfold metadata_v2_data_create. rewrite Hcheck. cbn [orb rbind].
  destruct (open_global fuel Hfuel) as (tbl & -> & Htbl). cbn [rbind]. rewrite open_root. cbn [rbind].
  rewrite !(find_inode_rank_offset_ok t Ht a Ha options g Hc meta) by (apply described_meta || unfold INO_DIR, INO_LNK, INO_REG, INO_DEV, INO_OTH; lia). cbn [rbind].
  destruct (rank_values t a) as (_ & (V2 & _) & (V3 & _) & (V4 & _) & _). rewrite V2, V3, V4. rewrite (ds_entries _ _ _ _ _ described_meta).
  rewrite (ds_length _ _ _ _ _ described_meta). rewrite (to_int_small (first_link_inode a)), (to_int_small (first_file_inode a)), (to_int_small (first_device_inode a)), (to_int_small (last_inode a)) by lia.
  destruct open_chunk_table as (ct & -> & Hct). cbn [rbind]. destruct open_shared_files as (sf & -> & Hsf). cbn [rbind].
  assert ((if pv_empty sf then match md_shared_files_table meta with Some sf => zlen sf | None => 0 end else pv_size sf) = zlen (shared_list groups)) as ->.
  { destruct Hsf as [[-> ->]|[-> Hv]]; [done|]. by apply vector_size. }
  rewrite to_int_small by lia. replace (first_device_inode a - first_file_inode a - zlen (shared_list groups)) with (num_unique (as_files a)) by lia.
  destruct open_nlinks as (nl & -> & Hnl). cbn [rbind]. destruct open_symlinks as (sy & -> & Hsy). cbn [rbind]. rewrite open_check_offsets. cbn [rbind].
  eexists. split; [done|]. split; cbn [meta_ global_ g_meta g_directories g_names symlinks_ root_ inode_offset_ symlink_inode_offset_ file_inode_offset_ dev_inode_offset_ inode_count_ options_]; try done.
  - intros i Hi. unfold file_inode_to_chunk_index, file_index. cbn [file_inode_offset_ unique_files_ shared_files_ meta_].
    replace (first_file_inode a + i - first_file_inode a) with i by lia. destruct (Z.ltb_spec i (num_unique (as_files a))) as [Hlt|Hge].
    + destruct (Z.leb_spec (num_unique (as_files a)) i); [lia|done].
    + destruct (Z.leb_spec (num_unique (as_files a)) i); [|lia].
      destruct (lookup_lt_is_Some_2 (shared_list groups) (Z.to_nat (i - num_unique (as_files a)))) as [x Hx]; [unfold zlen in *; lia|]. rewrite Hx.
      assert (0 <= num_unique (as_files a) + x < 2 ^ 31) as Hr.
      { pose proof (file_index_range i Hi) as H1. unfold file_index in H1. rewrite Hx in H1. change (default 0 (Some x)) with x in H1.
        destruct (Z.ltb_spec i (num_unique (as_files a))); [lia|]. pose proof (groups_bound groups Hgroups). lia. }
      change (default 0 (Some x)) with x. destruct Hsf as [[-> ->]|[-> Hv]]; cbn [negb].
      * destruct (Z.ltb_spec (i - num_unique (as_files a)) (zlen (shared_list groups))); [|lia].
        rewrite (at_index_lookup _ _ x) by (done || lia). cbn [rbind]. f_equal. rewrite to_int_small; lia.
      * rewrite (vector_size _ _ Hv). destruct (Z.ltb_spec (i - num_unique (as_files a)) (zlen (shared_list groups))); [|lia].
        pose proof (pv_get_ok word_lg word_lg_pos sf _ _ x Hv Hx) as E. rewrite Z2Nat.id in E by lia. rewrite E. cbn [there rbind]. f_equal. rewrite to_int_small; lia.
Qed.
End opening.
