(* ===== verification/DirectoryTree.v ===== *)
(** * DirectoryTree: what the opened metadata says of each entry

    The abstract contents of a directory tree, looked up by names, and what the
    operations of [metadata_v2_data] return on the metadata of that tree: paths
    are found exactly when the tree has them, directories list their entries in
    order, attributes, links and chunks are those of the entry. *)

From S2P Require Import Prelude FileChunks PackedInts StringTable Metadata MetadataReader MetadataSafety EntryTree MetadataBuilder EntryLists TreeTables EntryData EntryTables GatheredMetadata BuiltMetadata RecoveredDirectories OpenedTree.
Local Open Scope Z_scope.

#[local] Abbreviation checked := (result metadata_error).

(** ** The order of names *)

Lemma bytes_lt_irrefl a : bytes_lt a a = false.
Proof. induction a as [|x a IH]; [done|]. cbn. rewrite IH. destruct (Z.ltb_spec x x), (Z.eqb_spec x x); done || lia. Qed.

Lemma bytes_lt_cons x y a b : bytes_lt (x :: a) (y :: b) = true <-> x < y \/ (x = y /\ bytes_lt a b = true).
Proof. cbn. destruct (Z.ltb_spec x y), (Z.eqb_spec x y); cbn; intuition (done || lia). Qed.

Lemma bytes_lt_trans a b c : bytes_lt a b = true -> bytes_lt b c = true -> bytes_lt a c = true.
Proof.
  revert b c. induction a as [|x a IH]; intros [|y b] [|z c] H1 H2; try done. apply bytes_lt_cons in H1, H2. apply bytes_lt_cons.
  destruct H1 as [?|[-> ?]], H2 as [?|[-> ?]]; [left; lia|left; lia|left; lia|right; split; [done|by eapply IH]].
Qed.

Lemma bytes_lt_total a b : bytes_lt a b = true \/ a = b \/ bytes_lt b a = true.
Proof.
  revert b. induction a as [|x a IH]; intros [|y b]; [by right; left|by left|by right; right|].
  rewrite !bytes_lt_cons. destruct (Z.lt_total x y) as [?|[->|?]]; [by left; left| |by right; right; left].
  destruct (IH b) as [?|[->|?]]; [left; by right|by right; left|right; right; by right].
Qed.

Definition sorted_names (names : list (list Z)) : Prop :=
  forall i j n m, (i < j)%nat -> names !! i = Some n -> names !! j = Some m -> bytes_lt n m = true.

(** How many names come before a name. *)
Definition names_before (name : list Z) (names : list (list Z)) : nat := length (filter (fun n => bytes_lt n name = true) names).

Lemma sorted_names_tail n names : sorted_names (n :: names) -> sorted_names names.
Proof. intros H i j a b Hij Ha Hb. apply (H (S i) (S j) a b); [lia|done|done]. Qed.

Lemma names_before_spec name names : sorted_names names -> forall i n, names !! i = Some n ->
  bytes_lt n name = bool_decide (i < names_before name names)%nat.
Proof.
  unfold names_before. induction names as [|m names IH]; intros Hs i n Hi; [done|]. pose proof (sorted_names_tail _ _ Hs) as Hs'. rewrite filter_cons.
  destruct (decide (bytes_lt m name = true)) as [E|E].
  - destruct i as [|i]; cbn in Hi; [injection Hi as <-; rewrite E; by rewrite bool_decide_eq_true_2 by (cbn; lia)|].
    rewrite (IH Hs' i n Hi). apply bool_decide_ext. cbn [length]. lia.
  - assert (forall j k, names !! j = Some k -> bytes_lt k name = false) as Hno.
    { intros j k Hk. pose proof (Hs O (S j) m k ltac:(lia) eq_refl Hk) as Hmk. destruct (bytes_lt k name) eqn:Ek; [|done].
      exfalso. by apply E, (bytes_lt_trans m k name). }
    assert (filter (fun n => bytes_lt n name = true) names = []) as ->.
    { destruct (filter _ names) as [|k l] eqn:Ef; [done|]. assert (k ∈ filter (fun n => bytes_lt n name = true) names) as Hk by (rewrite Ef; by left).
      apply list_elem_of_filter in Hk as [Hk Hin]. apply list_elem_of_lookup in Hin as [j Hj]. by rewrite (Hno j k Hj) in Hk. }
    cbn [length]. rewrite bool_decide_eq_false_2 by lia. destruct i as [|i]; cbn in Hi; [injection Hi as <-; by destruct (bytes_lt m name)|by eapply Hno].
Qed.

Lemma names_before_le name names : (names_before name names <= length names)%nat.
Proof. apply length_filter. Qed.

(** The name is there exactly at that place. *)
Lemma name_at_before name names i : sorted_names names -> names !! i = Some name -> i = names_before name names.
Proof.
  intros Hs Hi. pose proof (names_before_spec name names Hs i name Hi) as H. rewrite bytes_lt_irrefl in H. symmetry in H. apply bool_decide_eq_false in H.
  destruct (decide (i = names_before name names)) as [|Hne]; [done|]. exfalso.
  pose proof (lookup_lt_Some _ _ _ Hi). destruct (lookup_lt_is_Some_2 names (names_before name names)) as [m Hm]; [lia|].
  assert (names_before name names < i)%nat as Hbefore by lia. pose proof (Hs _ _ _ _ Hbefore Hm Hi) as Hlt.
  rewrite (names_before_spec name names Hs _ m Hm) in Hlt. apply bool_decide_eq_true in Hlt. lia.
Qed.

(** ** The tree, looked up by names *)

Definition child_named (name : list Z) (es : list entry) : option entry := find (fun c => bool_decide (ename c = name)) es.

Lemma child_named_lookup name es i c : sorted_names (map ename es) -> es !! i = Some c -> ename c = name -> child_named name es = Some c.
Proof.
  revert i. induction es as [|x es IH]; intros i Hs Hi En; [done|]. unfold child_named. cbn [find]. destruct i as [|i].
  - injection Hi as ->. by rewrite bool_decide_eq_true_2.
  - change (es !! i = Some c) in Hi. rewrite bool_decide_eq_false_2; [by apply (IH i); [apply (sorted_names_tail (ename x))|..]|].
    intros E. assert (map ename (x :: es) !! S i = Some (ename c)) as Ec by (change (map ename es !! i = Some (ename c)); by rewrite list_lookup_fmap, Hi).
    pose proof (Hs O (S i) (ename x) (ename c) ltac:(lia) eq_refl Ec) as H. by rewrite En, E, bytes_lt_irrefl in H.
Qed.

Lemma child_named_Some name es c : child_named name es = Some c -> c ∈ es /\ ename c = name.
Proof. intros H. apply find_some in H as [H1 H2]. split; [by apply list_elem_of_In|]. by apply bool_decide_eq_true in H2. Qed.

Lemma child_named_None name es : (forall i c, es !! i = Some c -> ename c <> name) -> child_named name es = None.
Proof.
  intros H. destruct (child_named name es) as [c|] eqn:E; [|done]. apply child_named_Some in E as [Hin Hn].
  apply list_elem_of_lookup in Hin as [i Hi]. by destruct (H i c Hi).
Qed.

(** The entry with a path, given as its names. *)
Fixpoint lookup_path (n : entry) (names : list (list Z)) : option entry :=
  match names with
  | [] => Some n
  | name :: names =>
      match n with
      | Dir _ es => c ← child_named name es; lookup_path c names
      | _ => None
      end
  end.

Definition path_of (names : list (list Z)) : list Z := concat (map (cons slash) names).

Lemma lookup_path_preorder t n names m : n ∈ preorder t -> lookup_path n names = Some m -> m ∈ preorder t.
Proof.
  revert n. induction names as [|name names IH]; intros n Hn H; cbn in H; [by injection H as <-|].
  destruct n as [|e es| |]; try done. destruct (child_named name es) as [c|] eqn:E; [|done]. cbn in H. apply child_named_Some in E as [Hin _].
  eapply IH; [|done]. by eapply preorder_child.
Qed.

(** ** Paths as bytes *)

Lemma split_path_name name rest : slash ∉ name -> split_path (name ++ slash :: rest) = (name, rest).
Proof.
  induction name as [|c name IH]; intros H; [done|]. apply not_elem_of_cons in H as [Hc H]. cbn.
  destruct (Z.eqb_spec c slash); [congruence|]. by rewrite IH.
Qed.

Lemma split_path_last name : slash ∉ name -> split_path name = (name, []).
Proof.
  induction name as [|c name IH]; intros H; [done|]. apply not_elem_of_cons in H as [Hc H]. cbn.
  destruct (Z.eqb_spec c slash); [congruence|]. by rewrite IH.
Qed.

Definition good_name (name : list Z) : Prop := name <> [] /\ slash ∉ name.

(** A path without its first slash. *)
Definition inner_path (names : list (list Z)) : list Z := tl (path_of names).

Lemma split_inner name names : good_name name -> split_path (inner_path (name :: names)) = (name, inner_path names).
Proof.
  intros [_ Hs]. unfold inner_path, path_of. cbn [map concat tl app]. destruct names as [|n names]; cbn [map concat tl app].
  - rewrite app_nil_r. by apply split_path_last.
  - by apply split_path_name.
Qed.

Lemma inner_path_nil names : Forall good_name names -> inner_path names = [] -> names = [].
Proof. intros H E. destruct names as [|n names]; [done|]. apply Forall_cons in H as [[Hn _] _]. by destruct n. Qed.

Lemma skip_slashes_inner names : Forall good_name names -> skip_slashes (path_of names) = inner_path names.
Proof.
  intros H. destruct names as [|n names]; [done|]. apply Forall_cons in H as [[Hn Hs] _]. unfold inner_path, path_of. cbn [map concat tl app skip_slashes].
  rewrite Z.eqb_refl. destruct n as [|c n]; [done|]. cbn [app skip_slashes]. apply not_elem_of_cons in Hs as [Hc _].
  destruct (Z.eqb_spec c slash); [congruence|done].
Qed.

Lemma length_inner names : Forall good_name names -> (length names <= length (path_of names))%nat.
Proof.
  unfold path_of. induction names as [|n names IH]; intros H; [done|]. apply Forall_cons in H as [_ H]. cbn. rewrite length_app. specialize (IH H). lia.
Qed.

Lemma new_mode_type options m : chain_ok (chmod_chain options) -> file_type (new_mode options m) = file_type m.
Proof. intros Hc. unfold new_mode. destruct (chmod_chain options) as [|f chain]; [done|]. by apply transform_mode_type. Qed.

(** ** What the reader returns *)

(** The chunks of an inode. *)
Record chunks_at (files : FileChunks.metadata) (u : Z) (cs : list chunk) : Prop := {
  ca_range : exists range, FileChunks.get_chunk_range_from_index files u = Some range /\ range_chunks files range = Some cs;
  ca_size : inode_size_provider_get files u = Some (zlen cs, sum_sizes cs, sum_data_sizes cs)
}.

Section reading.
Context (t : entry) (Ht : tree_ok t) (a : assigned) (Ha : numbered t a) (options : writer_options) (g : global_entry_data).
Context (Hg : entry_data_ok options (preorder t) g) (Hc : chain_ok (chmod_chain options)).
Context {decoder : Type} (fsst_import : list Z -> Z * decoder) (fsst_decompress : decoder -> list Z -> Z -> list Z).
Context (files : FileChunks.metadata) (groups : list nat) (meta : fs_metadata).
Context (Hbuilt : built t a options g fsst_import fsst_decompress files groups meta).
Context (ro : metadata_options) (inode_offset : Z) (d : metadata_v2_data (decoder := decoder)).
Context (Hopen : opened t a g fsst_decompress files groups meta ro inode_offset d).
Context (Hsorted : forall e es, Dir e es ∈ preorder t -> sorted_names (map ename es)).

#[local] Abbreviation entries := (map (expected_entry g a) (entries_of t)).

Lemma reading_meta : meta_ d = meta. Proof using Hopen. apply Hopen. Qed.
Lemma reading_global : g_meta (global_ d) = meta. Proof using Hopen. apply Hopen. Qed.
Lemma reading_described : described t a options g meta. Proof using Hbuilt. apply Hbuilt. Qed.
Lemma reading_entries : md_dir_entries meta = Some entries. Proof using Hbuilt. apply reading_described. Qed.

(** The view of an entry. *)
Definition view_of (n : entry) : dir_entry_view :=
  DirEntryView (EntryOf (expected_entry g a n)) (entry_pos t (eid n)) (parent_pos t (head n)) OtherName.

Definition number (n : entry) : Z := inode_num (expected_entry g a n).

Lemma number_num n : n ∈ preorder t -> num_of a n = Some (number n) /\ 0 <= number n < last_inode a.
Proof. apply (expected_entry_num t a Ha g). Qed.

Lemma root_view : root_ d = view_of t.
Proof using Hopen Ht.
  rewrite (op_root _ _ _ _ _ _ _ _ _ _ Hopen). unfold view_of. pose proof (pos_of_root t Ht) as Hp. unfold pos_of in Hp. rewrite Hp.
  destruct (to_root _ Ht) as (e & es & Et & Hr). unfold parent_pos. rewrite Et at 3. cbn [head]. by rewrite Hr.
Qed.

(** *** Names *)

Lemma name_at n : n ∈ preorder t -> has_parent (head n) = true -> string_at fsst_decompress (g_names (global_ d)) (name_index_of g n) = Ok (ename n).
Proof.
  intros Hn Hp. destruct Hg as [_ [He [Hk _]] _]. assert (wants_name n = true) as Hw by (by destruct n).
  destruct (get_vector_index (ge_names g) (ename n) He) as (i & Ei & Gi & Ri).
  { apply Hk. exists n. split; [done|]. unfold name_key. by rewrite Hw. }
  unfold string_at, name_index_of. rewrite Hp, Ei. change (default 0 (Some i)) with i. replace i with (Z.of_nat (Z.to_nat i)) by lia.
  by rewrite (op_names _ _ _ _ _ _ _ _ _ _ Hopen), Gi.
Qed.

Lemma child_has_parent k e es c : dirs_of t !! k = Some (e, es) -> c ∈ es -> has_parent (head c) = true /\ parent_pos t (head c) = entry_pos t (e_id e) /\ c ∈ preorder t.
Proof.
  intros Hk Hin. destruct (child_parent t Ht k e es c Hk Hin) as [H1 H2]. unfold has_parent, parent_pos. by rewrite H2.
Qed.

Lemma child_place k e es j c : dirs_of t !! k = Some (e, es) -> es !! j = Some c -> entry_pos t (eid c) = first_of t k + Z.of_nat j /\
  at_index entries (first_of t k + Z.of_nat j) = Ok (expected_entry g a c) /\ first_of t k + Z.of_nat j < zlen entries.
Proof.
  intros Hk Hj. pose proof (child_lookup t k (e, es) j c Hk Hj) as Hl. assert (0 <= first_of t k) as H0 by (unfold first_of; pose proof (zlen_nonneg (concat (map snd (take k (dirs_of t))))); lia).
  replace (first_of t k + Z.of_nat j) with (Z.of_nat (Z.to_nat (first_of t k) + j)) by lia. split_and!.
  - by apply entry_pos_lookup.
  - by apply tree_entry_at.
  - apply lookup_lt_Some in Hl. unfold zlen. rewrite length_map. lia.
Qed.

Lemma child_name k e es j c : dirs_of t !! k = Some (e, es) -> es !! j = Some c -> entry_name fsst_decompress (global_ d) (first_of t k + Z.of_nat j) = Ok (ename c).
Proof.
  intros Hk Hj. destruct (child_place k e es j c Hk Hj) as (_ & Hat & Hlt). destruct (child_has_parent k e es c Hk) as (Hp & _ & Hin); [by eapply list_elem_of_lookup_2|].
  unfold entry_name. rewrite reading_global, reading_entries. unfold dwarfs_check. destruct (Z.ltb_spec (first_of t k + Z.of_nat j) (zlen entries)); [|lia].
  cbn [rbind]. rewrite Hat. cbn [rbind]. by apply name_at.
Qed.

Lemma make_child k e es j c : dirs_of t !! k = Some (e, es) -> es !! j = Some c ->
  make_dir_entry_view (global_ d) (first_of t k + Z.of_nat j) (entry_pos t (e_id e)) OtherName = Ok (view_of c).
Proof.
  intros Hk Hj. destruct (child_place k e es j c Hk Hj) as (Hpos & Hat & Hlt). destruct (child_has_parent k e es c Hk) as (_ & Hpp & _); [by eapply list_elem_of_lookup_2|].
  unfold make_dir_entry_view. rewrite reading_global, reading_entries. unfold dwarfs_check. destruct (Z.ltb_spec (first_of t k + Z.of_nat j) (zlen entries)); [|lia]. cbn [rbind].
  pose proof (pos_bound t Ht (Dir e es) (dirs_preorder t k e es Hk)) as Hb. unfold pos_of in Hb. change (eid (Dir e es)) with (e_id e) in Hb.
  assert (zlen entries = zlen (entries_of t)) as El by (unfold zlen; by rewrite length_map). destruct (Z.ltb_spec (entry_pos t (e_id e)) (zlen entries)); [|lia]. cbn [rbind].
  rewrite Hat. cbn [rbind]. unfold view_of. by rewrite Hpos, Hpp.
Qed.

(** *** Directories *)

Lemma first_entry_ok k : (k <= length (dirs_of t))%nat -> first_dir_entry (global_ d) (Z.of_nat k) = Ok (first_of t k).
Proof.
  intros Hk. destruct (expected_first t k Hk) as (x & Hx & <-). unfold first_dir_entry. rewrite (op_directories _ _ _ _ _ _ _ _ _ _ Hopen).
  rewrite (at_index_lookup _ _ x) by (done || lia || by rewrite Nat2Z.id). done.
Qed.

Lemma dir_entry_ok k e es : dirs_of t !! k = Some (e, es) ->
  self_dir_entry (global_ d) (Z.of_nat k) = Ok (entry_pos t (e_id e)) /\ parent_dir_entry (global_ d) (Z.of_nat k) = Ok (parent_pos t e).
Proof.
  intros Hk. pose proof (expected_dirs_lookup t k (e, es) Hk) as Hx. unfold self_dir_entry, parent_dir_entry.
  rewrite reading_global, (ds_old _ _ _ _ _ reading_described), (op_directories _ _ _ _ _ _ _ _ _ _ Hopen).
  rewrite (at_index_lookup _ _ (dir_at t k (e, es))) by (lia || by rewrite Nat2Z.id). done.
Qed.

Lemma dir_extent k e es : dirs_of t !! k = Some (e, es) ->
  first_dir_entry (global_ d) (Z.of_nat k) = Ok (first_of t k) /\ first_dir_entry (global_ d) (Z.of_nat k + 1) = Ok (first_of t k + zlen es).
Proof.
  intros Hk. pose proof (lookup_lt_Some _ _ _ Hk). split; [apply first_entry_ok; lia|].
  replace (Z.of_nat k + 1) with (Z.of_nat (S k)) by lia. rewrite first_entry_ok by lia. by rewrite (first_of_next t k (e, es) Hk).
Qed.

(** [find] among the entries of a directory. *)
Lemma find_in_ok k e es name : dirs_of t !! k = Some (e, es) ->
  find_in fsst_decompress d (Z.of_nat k) name = Ok (view_of <$> child_named name es).
Proof.
  intros Hk. destruct (dir_extent k e es Hk) as [E1 E2]. pose proof (Hsorted e es (dirs_preorder t k e es Hk)) as Hs. pose proof (zlen_nonneg es).
  unfold find_in. rewrite E1. cbn [rbind]. rewrite E2. cbn [rbind]. destruct (Z.ltb_spec (first_of t k + zlen es) (first_of t k)); [lia|].
  set (p := names_before name (map ename es)). pose proof (names_before_le name (map ename es)) as Hp. fold p in Hp. rewrite length_map in Hp.
  rewrite (lower_bound_ok _ _ _ (first_of t k + Z.of_nat p)); [| |unfold zlen; lia|lia].
  2: { intros i Hi. destruct (lookup_lt_is_Some_2 es (Z.to_nat (i - first_of t k))) as [c Hc']; [unfold zlen in Hi; lia|].
       pose proof (child_name k e es _ c Hk Hc') as Hn. replace (first_of t k + _) with i in Hn by lia. rewrite Hn. cbn [rbind]. f_equal.
       rewrite (names_before_spec name _ Hs (Z.to_nat (i - first_of t k))) by (by rewrite list_lookup_fmap, Hc'). fold p.
       destruct (Z.ltb_spec i (first_of t k + Z.of_nat p)); [apply bool_decide_eq_true_2|apply bool_decide_eq_false_2]; lia. }
  cbn [rbind]. destruct (Z.eqb_spec (first_of t k + Z.of_nat p) (first_of t k + zlen es)) as [Ee|Hne].
  - rewrite child_named_None; [done|]. intros i c Hi En. assert (i = p) as ->.
    { apply name_at_before; [done|]. by rewrite list_lookup_fmap, Hi, <- En. }
    apply lookup_lt_Some in Hi. unfold zlen in Ee. lia.
  - destruct (lookup_lt_is_Some_2 es p) as [c Hcp]; [unfold zlen in Hne; lia|]. rewrite (child_name k e es p c Hk Hcp). cbn [rbind].
    destruct (dir_entry_ok k e es Hk) as [-> _]. cbn [rbind]. case_bool_decide as En.
    + rewrite (make_child k e es p c Hk Hcp). cbn [rbind]. by rewrite (child_named_lookup name es p c).
    + rewrite child_named_None; [done|]. intros i c' Hi En'. assert (i = p) as ->; [|congruence].
      apply name_at_before; [done|]. by rewrite list_lookup_fmap, Hi, <- En'.
Qed.

(** *** Inodes *)

Lemma inode_there n : n ∈ preorder t -> exists ino, md_inodes meta !! Z.to_nat (number n) = Some ino /\ shows options meta n ino /\
  dv_inode (global_ d) (view_of n) = Ok (InodeView ino (number n)).
Proof.
  intros Hn. destruct (number_num n Hn) as [En Hr]. destruct (ds_inodes _ _ _ _ _ reading_described n _ Hn En) as (ino & Hino & Hs).
  exists ino. split; [done|]. split; [done|]. unfold dv_inode, view_of. cbn [dv_data]. fold (number n). rewrite reading_global.
  rewrite (at_index_lookup _ _ ino) by (done || lia). done.
Qed.

Lemma mode_ok n ino : shows options meta n ino -> iv_mode meta (InodeView ino (number n)) = Ok (new_mode options (emode n)).
Proof. intros [[H0 H1] _ _]. unfold iv_mode. cbn [iv_data]. by apply at_index_lookup. Qed.

(** The type of an entry is that of the tree. *)
Lemma type_ok n : n ∈ preorder t -> file_type (new_mode options (emode n)) = file_type (emode n) /\
  (file_type (emode n) =? S_IFDIR) = (kind n =? INO_DIR) /\ (file_type (emode n) =? S_IFLNK) = (kind n =? INO_LNK) /\
  (file_type (emode n) =? S_IFREG) = (kind n =? INO_REG) /\ ((file_type (emode n) =? S_IFBLK) || (file_type (emode n) =? S_IFCHR)) = (kind n =? INO_DEV).
Proof.
  intros Hn. split; [by apply new_mode_type|].
  pose proof (to_types _ Ht n Hn) as Hk. unfold get_inode_rank in Hk.
  destruct (Z.eqb_spec (file_type (emode n)) S_IFDIR) as [E|_]; [injection Hk as <-; by rewrite E|].
  destruct (Z.eqb_spec (file_type (emode n)) S_IFLNK) as [E|_]; [injection Hk as <-; by rewrite E|].
  destruct (Z.eqb_spec (file_type (emode n)) S_IFREG) as [E|_]; [injection Hk as <-; by rewrite E|].
  destruct ((file_type (emode n) =? S_IFBLK) || (file_type (emode n) =? S_IFCHR)); [injection Hk as <-; done|].
  destruct ((file_type (emode n) =? S_IFSOCK) || (file_type (emode n) =? S_IFIFO)); [injection Hk as <-; done|done].
Qed.

Lemma is_directory_ok n ino : n ∈ preorder t -> shows options meta n ino -> iv_is_directory meta (InodeView ino (number n)) = Ok (kind n =? INO_DIR).
Proof.
  intros Hn Hs. unfold iv_is_directory, iv_type. rewrite (mode_ok n ino Hs). cbn [rbind]. destruct (type_ok n Hn) as (-> & -> & _). done.
Qed.

Lemma dir_place e es : Dir e es ∈ preorder t -> exists k, dirs_of t !! k = Some (e, es) /\ number (Dir e es) = Z.of_nat k.
Proof. intros Hn. apply (dir_number t a Ha g _ Hn). Qed.

Lemma make_directory_ok n ino : n ∈ preorder t -> shows options meta n ino ->
  make_directory_view d (InodeView ino (number n)) = if kind n =? INO_DIR then Ok (number n) else Err (Terminated "not a directory").
Proof.
  intros Hn Hs. unfold make_directory_view. rewrite reading_meta, (is_directory_ok n ino Hn Hs). cbn [rbind]. by destruct (kind n =? INO_DIR).
Qed.

(** *** Finding a path *)

Lemma find_path_from_ok fuel n names : n ∈ preorder t -> Forall good_name names -> (length names <= fuel)%nat ->
  find_path_from fsst_decompress fuel d (view_of n) (inner_path names) = Ok (view_of <$> lookup_path n names).
Proof.
  revert n names. induction fuel as [|fuel IH]; intros n names Hn Hnames Hf.
  { destruct names; [done|cbn in Hf; lia]. }
  destruct names as [|name names]; [done|]. apply Forall_cons in Hnames as Hcons. destruct Hcons as [Hname Hrest].
  cbn [find_path_from]. destruct (inner_path (name :: names)) as [|b path] eqn:Ep.
  { apply inner_path_nil in Ep; [done|done]. }
  rewrite <- Ep. clear Ep b path. destruct (inode_there n Hn) as (ino & _ & Hs & ->). cbn [rbind].
  rewrite reading_meta, (is_directory_ok n ino Hn Hs). cbn [rbind]. destruct (Z.eqb_spec (kind n) INO_DIR) as [Ek|Ek]; cbn [negb].
  - rewrite split_inner by done. rewrite (make_directory_ok n ino Hn Hs), Ek. cbn [Z.eqb rbind].
    destruct n as [|e es| |e]; [done| |done|cbn in Ek; by destruct (is_device_type e)]. destruct (dir_place e es Hn) as (k & Hk & Hnum).
    change (INO_DIR =? INO_DIR) with true. cbv iota. cbn [rbind]. rewrite Hnum, (find_in_ok k e es name Hk). cbn [rbind lookup_path].
    destruct (child_named name es) as [c|] eqn:Ec; [|done]. cbn [fmap option_fmap option_map mbind option_bind].
    apply IH; [|done|cbn in Hf; lia]. apply child_named_Some in Ec as [Hin _]. by apply (preorder_child t (Dir e es)).
  - destruct n as [|e es| |]; done.
Qed.

Lemma find_path_ok names : Forall good_name names -> find_path fsst_decompress d (path_of names) = Ok (view_of <$> lookup_path t names).
Proof.
  intros Hn. unfold find_path. rewrite root_view, skip_slashes_inner by done. apply find_path_from_ok; [apply preorder_self|done|by apply length_inner].
Qed.

(** *** Reading directories *)

(** The place of the parent of a directory is that of a directory; the root is its
    own parent. *)
Lemma parent_is_dir e es : Dir e es ∈ preorder t -> exists e' es', Dir e' es' ∈ preorder t /\ parent_pos t e = entry_pos t (e_id e') /\
  (Dir e es ∈ es' \/ (e' = e /\ es' = es /\ Dir e es = t)).
Proof.
  intros Hn. destruct (dir_place e es Hn) as (k & Hk & _). destruct (dirs_of_parent t k e es Hk) as [[-> Et]|(j & [e' es'] & Hj & Hd & Hin)].
  - exists e, es. split_and!; [done| |by right]. destruct (to_root _ Ht) as (e0 & es0 & Et0 & Hr). rewrite Et in Et0. injection Et0 as <- <-.
    unfold parent_pos. rewrite Hr. pose proof (pos_of_root t Ht) as Hp. unfold pos_of in Hp. rewrite Et in Hp at 2. symmetry. exact Hp.
  - exists e', es'. destruct (child_has_parent j e' es' (Dir e es) Hd Hin) as (_ & Hp & _). split_and!; [by eapply dirs_preorder|exact Hp|by left].
Qed.

(** The view of a directory as [.] or [..]. *)
Definition dir_view_of (n : entry) (name_type : entry_name_type) : dir_entry_view :=
  DirEntryView (EntryOf (expected_entry g a n)) (entry_pos t (eid n)) (parent_pos t (head n)) name_type.

Lemma make_directory_entry_ok e es name_type : Dir e es ∈ preorder t ->
  make_directory_entry_view (global_ d) (entry_pos t (e_id e)) name_type = Ok (dir_view_of (Dir e es) name_type).
Proof.
  intros Hn. destruct (dir_place e es Hn) as (k & Hk & Hnum). unfold make_directory_entry_view. rewrite reading_global, reading_entries.
  pose proof (pos_bound t Ht (Dir e es) Hn) as Hb. unfold pos_of in Hb. change (eid (Dir e es)) with (e_id e) in Hb.
  unfold dwarfs_check. assert (zlen entries = zlen (entries_of t)) as -> by (unfold zlen; by rewrite length_map).
  destruct (Z.ltb_spec (entry_pos t (e_id e)) (zlen (entries_of t))); [|lia]. cbn [rbind].
  pose proof (entry_at_pos t Ht a g (Dir e es) Hn) as Hat. unfold pos_of in Hat. change (eid (Dir e es)) with (e_id e) in Hat. rewrite Hat. cbn [rbind].
  fold (number (Dir e es)). rewrite Hnum, (directories_bound t a options g fsst_import fsst_decompress files groups meta Hbuilt).
  apply lookup_lt_Some in Hk as Hlt. destruct (Z.ltb_spec (Z.of_nat k) (zlen (dirs_of t) + 1)); [|unfold zlen in *; lia]. cbn [rbind].
  destruct (dir_entry_ok k e es Hk) as [_ ->]. done.
Qed.

Lemma dir_size_bound e es : Dir e es ∈ preorder t -> zlen es < 2 ^ 31 - 1.
Proof.
  intros Hn. destruct (dir_place e es Hn) as (k & Hk & _). pose proof (to_size _ Ht). unfold zlen in *.
  assert (length es <= length (entries_of t))%nat as Hle; [|rewrite (Permutation_length (entries_preorder t)) in Hle; lia].
  unfold entries_of. rewrite <- (take_drop_middle _ _ _ Hk), map_app, concat_app. cbn [length map concat snd]. rewrite !length_app. lia.
Qed.

Lemma entry_count_ok e es : Dir e es ∈ preorder t -> entry_count (global_ d) (number (Dir e es)) = Ok (zlen es).
Proof.
  intros Hn. destruct (dir_place e es Hn) as (k & Hk & ->). destruct (dir_extent k e es Hk) as [E1 E2]. unfold entry_count. rewrite E2. cbn [rbind]. rewrite E1. cbn [rbind].
  pose proof (dir_size_bound e es Hn). pose proof (zlen_nonneg es). rewrite wrapu_small by (unfold in_u; lia). f_equal. lia.
Qed.

(** [readdir]: the directory, its parent, its entries in order, and the end. *)
Lemma readdir_self_ok e es : Dir e es ∈ preorder t -> readdir d (number (Dir e es)) 0 = Ok (Some (dir_view_of (Dir e es) SelfName)).
Proof.
  intros Hn. destruct (dir_place e es Hn) as (k & Hk & Hnum). unfold readdir. rewrite Hnum. cbn [Z.eqb]. destruct (dir_entry_ok k e es Hk) as [-> _]. cbn [rbind].
  by rewrite (make_directory_entry_ok e es).
Qed.

Lemma readdir_parent_ok e es : Dir e es ∈ preorder t -> exists e' es', Dir e' es' ∈ preorder t /\ (Dir e es ∈ es' \/ (Dir e' es' = t /\ Dir e es = t)) /\
  readdir d (number (Dir e es)) 1 = Ok (Some (dir_view_of (Dir e' es') ParentName)).
Proof.
  intros Hn. destruct (dir_place e es Hn) as (k & Hk & Hnum). destruct (parent_is_dir e es Hn) as (e' & es' & Hn' & Hp & Hor). exists e', es'.
  split; [done|]. split; [destruct Hor as [?|(-> & -> & ?)]; [by left|by right]|].
  unfold readdir. rewrite Hnum. cbn [Z.eqb]. destruct (dir_entry_ok k e es Hk) as [_ ->]. cbn [rbind]. rewrite Hp. by rewrite (make_directory_entry_ok e' es').
Qed.

Lemma readdir_ok e es j : Dir e es ∈ preorder t -> readdir d (number (Dir e es)) (2 + Z.of_nat j) = Ok (view_of <$> es !! j).
Proof.
  intros Hn. destruct (dir_place e es Hn) as (k & Hk & Hnum). unfold readdir. destruct (Z.eqb_spec (2 + Z.of_nat j) 0); [lia|]. destruct (Z.eqb_spec (2 + Z.of_nat j) 1); [lia|].
  rewrite (entry_count_ok e es Hn). cbn [rbind]. replace (2 + Z.of_nat j - 2) with (Z.of_nat j) by lia. destruct (es !! j) as [c|] eqn:Ej.
  - apply lookup_lt_Some in Ej as Hlt. destruct (Z.leb_spec (zlen es) (Z.of_nat j)); [unfold zlen in *; lia|]. rewrite Hnum.
    destruct (dir_extent k e es Hk) as [-> _]. cbn [rbind]. destruct (dir_entry_ok k e es Hk) as [-> _]. cbn [rbind].
    destruct (child_place k e es j c Hk Ej) as (_ & _ & Hb). assert (0 <= first_of t k) as H0 by (unfold first_of; pose proof (zlen_nonneg (concat (map snd (take k (dirs_of t))))); lia).
    assert (zlen entries = zlen (preorder t)) as El by apply entries_count. pose proof (to_size _ Ht). rewrite wrapu_small by (unfold in_u; lia).
    rewrite (make_child k e es j c Hk Ej). done.
  - apply lookup_ge_None in Ej. destruct (Z.leb_spec (zlen es) (Z.of_nat j)); [done|unfold zlen in *; lia].
Qed.
End reading.
