(* ===== verification/TreeAttributes.v ===== *)
(** * TreeAttributes: attributes, links and chunks of the entries of a tree

    What [getattr], [readlink], [get_chunks] and [file_size] return for an
    entry of the tree whose metadata was opened: its mode as the writer
    transformed it, its owner, the number of its links, its device, and for a
    file the chunks and the size of its contents, cached or not. *)

From S2P Require Import Prelude FileChunks PackedInts StringTable SparseSeek Metadata MetadataReader MetadataSafety EntryTree MetadataBuilder EntryLists TreeTables EntryData EntryTables GatheredMetadata BuiltMetadata RecoveredDirectories OpenedTree DirectoryTree.
Local Open Scope Z_scope.

#[local] Abbreviation checked := (result metadata_error).

(** ** Sums over chunks *)

Lemma sum_chunks_from sparse cs r : foldl (fun r c => FileSizeResult (fsr_size r + size c)
    (if negb sparse || is_data c then fsr_allocated_size r + size c else fsr_allocated_size r)) r cs =
  FileSizeResult (fsr_size r + sum_sizes cs) (fsr_allocated_size r + if sparse then sum_data_sizes cs else sum_sizes cs).
Proof.
  revert r. induction cs as [|c cs IH]; intros [n al]; cbn [foldl]; [cbn; f_equal; [lia|destruct sparse; lia]|].
  rewrite IH. cbn [fsr_size fsr_allocated_size]. unfold sum_sizes, sum_data_sizes. cbn [foldr]. fold (sum_sizes cs) (sum_data_sizes cs).
  unfold is_data. destruct sparse, (is_hole c); cbn [negb orb]; f_equal; lia.
Qed.

Lemma sum_chunks_sums sparse cs : sum_chunks sparse cs = FileSizeResult (sum_sizes cs) (if sparse then sum_data_sizes cs else sum_sizes cs).
Proof. unfold sum_chunks. rewrite sum_chunks_from. cbn. by destruct sparse. Qed.

Lemma mapR_mapM {A B} (f : A -> checked B) (h : A -> option B) l k :
  Forall (fun x => f x = there (h x)) l -> mapM h l = Some k -> mapR f l = Ok k.
Proof.
  intros Hf. revert k. induction Hf as [|x l Hx _ IH]; intros k H; [by injection H as <-|]. cbn [mapR].
  change (mapM h (x :: l)) with (y ← h x; k' ← mapM h l; Some (y :: k')) in H.
  rewrite Hx. destruct (h x) as [y|]; [|done]. cbn [mbind option_bind] in H. cbn [there rbind]. destruct (mapM h l) as [k'|]; [|done].
  cbn [mbind option_bind] in H. injection H as <-. by rewrite (IH k').
Qed.

Section attributes.
Context (t : entry) (Ht : tree_ok t) (a : assigned) (Ha : numbered t a) (options : writer_options) (g : global_entry_data).
Context (Hg : entry_data_ok options (preorder t) g) (Hc : chain_ok (chmod_chain options)).
Context {decoder : Type} (fsst_import : list Z -> Z * decoder) (fsst_decompress : decoder -> list Z -> Z -> list Z).
Context (files : FileChunks.metadata) (groups : list nat) (meta : fs_metadata).
Context (Hbuilt : built t a options g fsst_import fsst_decompress files groups meta).
Context (ro : metadata_options) (inode_offset : Z) (d : metadata_v2_data (decoder := decoder)).
Context (Hopen : opened t a g fsst_decompress files groups meta ro inode_offset d).
Context (Hfits : table_fits files) (contents : nat -> list chunk).
Context (Htargets : forall e data num, File e data ∈ preorder t -> file_inode_nums (as_files a) !! data = Some num ->
  unique_file_ids (as_files a) !! data = Some (file_index a groups (num - first_file_inode a))).
Context (Hcontents : forall e data u, File e data ∈ preorder t -> unique_file_ids (as_files a) !! data = Some u -> chunks_at files u (contents data)).
Context (Hfew : forall e data, File e data ∈ preorder t -> zlen (contents data) < 2 ^ 32).

#[local] Abbreviation number := (number a g).
#[local] Abbreviation entries := (map (expected_entry g a) (entries_of t)).

Lemma attr_meta : meta_ d = meta. Proof using Hopen. apply Hopen. Qed.
Lemma attr_described : described t a options g meta. Proof using Hbuilt. apply Hbuilt. Qed.

(** ** The numbers of the kinds *)

Lemma number_kind_range n : n ∈ preorder t -> rank_offset t a (kind n) <= number n < rank_offset t a (kind n + 1).
Proof.
  intros Hn. destruct (num_range t a Ha n Hn) as (x & Ex & Rx). destruct (number_num t a Ha g n Hn) as [En _]. rewrite Ex in En. by injection En as ->.
Qed.

Lemma file_number e data : File e data ∈ preorder t -> first_file_inode a <= number (File e data) < first_device_inode a /\
  file_inode_nums (as_files a) !! data = Some (number (File e data)).
Proof.
  intros Hn. pose proof (number_kind_range _ Hn) as Hr. cbn [kind] in Hr. destruct (rank_values t a) as (_ & _ & (V1 & V2) & _). rewrite V1, V2 in Hr.
  split; [done|]. by destruct (number_num t a Ha g _ Hn) as [En _].
Qed.

(** ** Files *)

Lemma file_chunk_index e data : File e data ∈ preorder t -> exists u, file_inode_to_chunk_index d (number (File e data)) = Ok u /\ chunks_at files u (contents data).
Proof.
  intros Hn. destruct (file_number e data Hn) as [Hr Hnum]. pose proof (Htargets e data _ Hn Hnum) as Hu.
  exists (file_index a groups (number (File e data) - first_file_inode a)). split; [|by eapply Hcontents].
  pose proof (op_index _ _ _ _ _ _ _ _ _ _ Hopen (number (File e data) - first_file_inode a) ltac:(lia)) as H.
  by replace (first_file_inode a + _) with (number (File e data)) in H by lia.
Qed.

Lemma chunk_range_ok u cs : chunks_at files u cs -> exists b e, get_chunk_range_from_index d u = Ok (Some (b, e)) /\
  FileChunks.get_chunk_range_from_index files u = Some (b, e) /\ b <= e /\ e - b = zlen cs /\ range_chunks files (b, e) = Some cs.
Proof.
  intros [([b e] & Hr & Hcs) Hs]. exists b, e. unfold inode_size_provider_get in Hs. rewrite Hr in Hs. cbn [mbind option_bind] in Hs.
  destruct (foldl _ _ _) as [acc|] in Hs; [|done]. cbn [mbind option_bind fst snd] in Hs. injection Hs as Hlen _ _. pose proof (zlen_nonneg cs).
  split; [|split_and!; [done|lia|done|done]]. unfold FileChunks.get_chunk_range_from_index in Hr. unfold get_chunk_range_from_index. rewrite attr_meta, (bt_files _ _ _ _ _ _ _ _ _ Hbuilt).
  cbn [md_chunk_table]. assert (zlen (if pack_chunk_table options then adjacent_difference (md_chunk_table files) else md_chunk_table files) = zlen (md_chunk_table files)) as ->.
  { destruct (pack_chunk_table options); [|done]. unfold zlen. by rewrite length_adjacent_difference. }
  unfold to_int. destruct ((0 <=? u) && _) eqn:E; [|done]. apply andb_true_iff in E as [E0 _]. apply Z.leb_le in E0.
  destruct (md_chunk_table files !! Z.to_nat u) as [b'|] eqn:Eb; [|done]. cbn [mbind option_bind] in Hr.
  destruct (md_chunk_table files !! Z.to_nat (u + 1)) as [e'|] eqn:Ee; [|done]. cbn [mbind option_bind] in Hr. injection Hr as -> ->.
  pose proof (op_chunk_table _ _ _ _ _ _ _ _ _ _ Hopen _ _ Eb) as C1. pose proof (op_chunk_table _ _ _ _ _ _ _ _ _ _ Hopen _ _ Ee) as C2.
  rewrite Z2Nat.id in C1, C2 by lia. rewrite C1. cbn [rbind]. by rewrite C2.
Qed.

(** [chunk_view] and the chunks do not depend on the table. *)
Lemma chunk_view_files v : chunk_view (md_files meta) v = chunk_view files v.
Proof. rewrite (bt_files _ _ _ _ _ _ _ _ _ Hbuilt). done. Qed.

Lemma chunks_of_range_ok b e cs : 0 <= b <= e -> range_chunks files (b, e) = Some cs -> chunks_of_range d (b, e) = Ok cs.
Proof.
  intros [H0 Hbe] Hcs. unfold chunks_of_range. cbn [fst snd]. destruct (Z.leb_spec b e); [|lia]. rewrite attr_meta.
  eapply mapR_mapM; [|exact Hcs]. apply Forall_forall. intros i Hi. apply elem_of_seqZ in Hi. cbn [fst] in Hi. cbn beta.
  assert (md_chunks (md_files meta) = md_chunks files) as -> by (by rewrite (bt_files _ _ _ _ _ _ _ _ _ Hbuilt)).
  unfold at_index. destruct (Z.ltb_spec i 0); [lia|]. destruct (md_chunks files !! Z.to_nat i) as [v|]; [|done]. cbn [there rbind mbind option_bind].
  by rewrite chunk_view_files.
Qed.

Lemma range_start u b e : FileChunks.get_chunk_range_from_index files u = Some (b, e) -> 0 <= b.
Proof.
  unfold FileChunks.get_chunk_range_from_index. destruct (_ && _); [|done]. destruct (md_chunk_table files !! Z.to_nat u) as [b'|] eqn:Eb; [|done].
  cbn [mbind option_bind]. destruct (md_chunk_table files !! Z.to_nat (u + 1)); [|done]. cbn [mbind option_bind]. intros [= -> ->].
  by destruct (Forall_lookup_1 _ _ _ _ (tf_values _ Hfits) Eb).
Qed.

(** [get_chunks]: the chunks of the contents of a file. *)
Lemma get_chunks_ok e data : File e data ∈ preorder t ->
  exists range, get_chunks d (number (File e data) + inode_offset) = Ok (Some range) /\ chunks_of_range d range = Ok (contents data).
Proof.
  intros Hn. destruct (file_chunk_index e data Hn) as (u & Eu & Hu). destruct (chunk_range_ok u _ Hu) as (b & f & Er & Hr & Hbe & _ & Hcs).
  exists (b, f). split.
  - unfold get_chunks, get_chunk_range. rewrite (op_inode_offset _ _ _ _ _ _ _ _ _ _ Hopen). replace (number (File e data) + inode_offset - inode_offset) with (number (File e data)) by lia.
    by rewrite Eu.
  - apply chunks_of_range_ok; [|done]. split; [by eapply range_start|done].
Qed.

(** The cache does not change the size. *)
Lemma reg_file_size_ok e data use_cache : File e data ∈ preorder t ->
  reg_file_size d (number (File e data)) use_cache = Ok (sum_chunks (enable_sparse_files ro) (contents data)).
Proof.
  intros Hn. destruct (file_chunk_index e data Hn) as (u & Eu & Hu). destruct (chunk_range_ok u _ Hu) as (b & f & Er & Hr & Hbe & Hlen & Hcs).
  unfold reg_file_size. rewrite Eu. cbn [rbind]. rewrite Er. cbn [rbind]. unfold dwarfs_check. cbn [rbind there].
  rewrite (op_options _ _ _ _ _ _ _ _ _ _ Hopen), attr_meta. pose proof (range_start _ _ _ Hr) as H0. pose proof (Hfew e data Hn) as Hsmall.
  pose proof (chunks_of_range_ok b f _ ltac:(lia) Hcs) as Hsum. pose proof (bt_cache _ _ _ _ _ _ _ _ _ Hbuilt) as Hcache.
  match goal with |- match ?c with _ => _ end = _ => destruct c as [r|] eqn:Ec end.
  - destruct use_cache; [|done]. destruct (md_reg_file_size_cache meta) as [cache|]; [|done]. cbn [mbind option_bind] in Ec.
    destruct (min_chunk_count cache <=? wrapu 32 (f - b)); [|done]. destruct (size_lookup cache !! u) as [n|] eqn:En; [|done]. cbn [mbind option_bind] in Ec. injection Ec as <-.
    destruct (Hcache u) as [[Hnone _]|(k & sz & al & Hi & _ & Hsz & Hal & _)]; [congruence|]. rewrite (ca_size _ _ _ Hu) in Hi. injection Hi as <- <- <-.
    rewrite En in Hsz. injection Hsz as ->. rewrite Hal, sum_chunks_sums. by destruct (enable_sparse_files ro).
  - by rewrite Hsum.
Qed.

(** ** Links *)

Definition file_data (n : entry) : option nat := match n with File _ data => Some data | _ => None end.

(** How many entries of the tree are the file. *)
Definition links_of (n : entry) : Z :=
  match n with File _ data => zlen (filter (fun m => file_data m = Some data) (preorder t)) | _ => 1 end.

Lemma zlen_filter_iff {A} (P Q : A -> Prop) `{HP : !forall x, Decision (P x), HQ : !forall x, Decision (Q x)} l :
  (forall x, x ∈ l -> P x <-> Q x) -> zlen (filter P l) = zlen (filter Q l).
Proof.
  induction l as [|x l IH]; intros H; [done|]. rewrite !filter_cons. specialize (IH (fun y Hy => H y (list_elem_of_further _ _ _ Hy))).
  pose proof (H x (list_elem_of_here _ _)) as Hx. destruct (decide (P x)), (decide (Q x)); [|tauto|tauto|done]. unfold zlen in *. cbn [length]. lia.
Qed.

Lemma count_num_map x l : count_num x (map (expected_entry g a) l) = zlen (filter (fun m => number m = x) l).
Proof.
  induction l as [|m l IH]; [done|]. cbn [map]. rewrite count_num_cons, IH, filter_cons. fold (number m).
  destruct (decide (number m = x)); unfold zlen; cbn [length]; lia.
Qed.

Lemma link_count_links e data : File e data ∈ preorder t -> link_count t a g (number (File e data)) = links_of (File e data).
Proof.
  intros Hn. unfold link_count. rewrite count_num_map. cbn [links_of].
  rewrite (zlen_filter_iff _ (fun m => file_data m = Some data)).
  - unfold zlen. f_equal. apply Permutation_length. by rewrite entries_preorder.
  - intros m Hm. apply elem_of_entries in Hm. destruct (number_num t a Ha g m Hm) as [Em _]. destruct (number_num t a Ha g _ Hn) as [En _]. split.
    + intros E. rewrite E in Em. destruct (num_inj t a Ha _ _ _ Hm Hn Em En) as [->|(e1 & e2 & d' & -> & [= -> ->])]; done.
    + intros E. destruct m as [e' data'| | |]; try done. injection E as ->.
      done.
Qed.

Lemma readlink_ok e target : Link e target ∈ preorder t -> exists ino, dv_inode (global_ d) (view_of t a g (Link e target)) = Ok (InodeView ino (number (Link e target))) /\
  readlink fsst_decompress d (InodeView ino (number (Link e target))) ReadlinkRaw = Ok (Some target) /\
  link_value fsst_decompress d (InodeView ino (number (Link e target))) ReadlinkRaw = Ok target.
Proof.
  intros Hn. destruct (inode_there t a Ha options g fsst_import fsst_decompress files groups meta Hbuilt ro inode_offset d Hopen _ Hn) as (ino & Hino & Hs & Hv).
  exists ino. split; [done|]. enough (link_value fsst_decompress d (InodeView ino (number (Link e target))) ReadlinkRaw = Ok target) as El.
  { split; [|done]. unfold readlink, iv_is_symlink, iv_type. rewrite attr_meta, (mode_ok a options g meta _ ino Hs). cbn [rbind].
    destruct (type_ok t Ht options Hc _ Hn) as (-> & _ & -> & _). cbn [kind]. change (INO_LNK =? INO_LNK) with true. cbv iota. by rewrite El. }
  destruct (number_num t a Ha g _ Hn) as [En _]. destruct (ds_links _ _ _ _ _ attr_described e target _ Hn En) as (ix & Hix & H0 & Hstr).
  unfold link_value. cbn [iv_inode_num]. rewrite attr_meta, (op_first_link _ _ _ _ _ _ _ _ _ _ Hopen).
  pose proof (number_kind_range _ Hn) as Hr. cbn [kind] in Hr. destruct (rank_values t a) as (_ & (V1 & V2) & _). rewrite V1, V2 in Hr.
  rewrite (at_index_lookup _ _ ix) by (done || lia). cbn [rbind]. unfold string_at.
  replace ix with (Z.of_nat (Z.to_nat ix)) by lia. by rewrite (op_symlinks _ _ _ _ _ _ _ _ _ _ Hopen), Hstr.
Qed.

(** ** Devices *)

Lemma device_ok n : n ∈ preorder t -> kind n = INO_DEV -> get_device_id d (number n) = Ok (Some (rdev_of n)).
Proof.
  intros Hn Hk. pose proof (number_kind_range n Hn) as Hr. rewrite Hk in Hr. destruct (rank_values t a) as (_ & _ & _ & (V1 & V2) & _). rewrite V1, V2 in Hr.
  unfold get_device_id. rewrite attr_meta, (ds_devices _ _ _ _ _ attr_described), (op_first_device _ _ _ _ _ _ _ _ _ _ Hopen).
  destruct (lookup_lt_is_Some_2 (devs t) (Z.to_nat (number n - first_device_inode a))) as [m Hm]; [unfold zlen in *; lia|].
  pose proof (nb_devs _ _ Ha _ _ Hm) as Em. rewrite Z2Nat.id in Em by lia. replace (first_device_inode a + _) with (number n) in Em by lia.
  assert (m ∈ preorder t /\ kind m = INO_DEV) as [Hin Hkm].
  { apply list_elem_of_lookup_2, of_kind_elem in Hm as [? Hm]. by rewrite postorder_preorder in Hm. }
  destruct (number_num t a Ha g n Hn) as [En _]. rewrite <- num_of_other in Em by (by rewrite Hkm).
  destruct (num_inj t a Ha _ _ _ Hin Hn Em En) as [->|(e1 & e2 & d' & -> & ->)]; [|done].
  rewrite (at_index_lookup _ _ (rdev_of n)); [done|lia|]. rewrite list_lookup_fmap, Hm. done.
Qed.

(** ** Attributes *)

Definition expected_size (n : entry) : file_size_result :=
  match n with
  | Dir _ es => FileSizeResult (zlen es) (zlen es)
  | Link _ target => FileSizeResult (zlen target) (zlen target)
  | File _ data => sum_chunks (enable_sparse_files ro) (contents data)
  | Device _ => FileSizeResult 0 0
  end.

Definition expected_attr (n : entry) : file_stat :=
  let sz := expected_size n in
  let mode := new_mode options (emode n) in
  FileStat (if readonly ro then Z.land mode READ_ONLY_MASK else mode) (fsr_size sz) ((fsr_allocated_size sz + 511) / 512) (fsr_allocated_size sz)
    (number n + inode_offset) (blksize ro)
    (default (default (es_uid (estat n)) (wo_uid options)) (fs_uid ro)) (default (default (es_gid (estat n)) (wo_gid options)) (fs_gid ro))
    (links_of n) (if kind n =? INO_DEV then rdev_of n else 0).

Lemma read_only_type m : file_type (Z.land m READ_ONLY_MASK) = file_type m.
Proof. unfold file_type. by rewrite <- Z.land_assoc. Qed.

Lemma owner_ok (l : list Z) i x : 0 <= i -> l !! Z.to_nat i = Some x -> match l with [] => Ok i | y :: l' => at_index (y :: l') i end = Ok (E := metadata_error) x.
Proof. intros H0 Hx. destruct l as [|y l]; [done|]. by apply at_index_lookup. Qed.

Lemma getattr_ok n : n ∈ preorder t -> exists ino, dv_inode (global_ d) (view_of t a g n) = Ok (InodeView ino (number n)) /\
  getattr fsst_decompress d (InodeView ino (number n)) false = Ok (expected_attr n).
Proof.
  intros Hn. destruct (inode_there t a Ha options g fsst_import fsst_decompress files groups meta Hbuilt ro inode_offset d Hopen _ Hn) as (ino & Hino & Hs & Hv).
  exists ino. split; [done|]. unfold getattr. rewrite attr_meta, (mode_ok a options g meta _ ino Hs). cbn [rbind iv_inode_num iv_data].
  rewrite (op_options _ _ _ _ _ _ _ _ _ _ Hopen), (op_inode_offset _ _ _ _ _ _ _ _ _ _ Hopen), (op_first_file _ _ _ _ _ _ _ _ _ _ Hopen).
  destruct (type_ok t Ht options Hc n Hn) as (Ty & Td & Tl & Tr & Tv). set (m := new_mode options (emode n)) in *. set (mode := if readonly ro then _ else m).
  assert (file_type mode = file_type (emode n)) as Hmode by (unfold mode; destruct (readonly ro); rewrite ?read_only_type; done).
  rewrite Hmode, Td, Tr, Tv.
  assert ((if kind n =? INO_DIR then let? dir := make_directory_view d (InodeView ino (number n)) in let? c := entry_count (global_ d) dir in Ok (FileSizeResult c c)
           else file_size fsst_decompress d (InodeView ino (number n)) mode) = Ok (expected_size n)) as ->.
  { unfold file_size. rewrite Hmode, Tr, Tl. cbn [iv_inode_num].
    rewrite (make_directory_ok t Ht a options g Hc fsst_decompress files groups meta ro inode_offset d Hopen n ino Hn Hs).
    destruct n as [e data|e es|e target|e]; cbn [kind expected_size].
    - change (INO_REG =? INO_DIR) with false. change (INO_REG =? INO_REG) with true. cbv iota. by apply (reg_file_size_ok e).
    - change (INO_DIR =? INO_DIR) with true. cbv iota. cbn [rbind].
      by rewrite (entry_count_ok t Ht a Ha g fsst_decompress files groups meta ro inode_offset d Hopen e es Hn).
    - change (INO_LNK =? INO_DIR) with false. change (INO_LNK =? INO_REG) with false. change (INO_LNK =? INO_LNK) with true. cbv iota.
      destruct (readlink_ok e target Hn) as (ino' & Hv' & _ & El). rewrite Hv in Hv'. injection Hv' as <-. by rewrite El.
    - by destruct (is_device_type e). }
  cbn [rbind].
  assert (iv_getuid meta (InodeView ino (number n)) = Ok (default (es_uid (estat n)) (wo_uid options))) as -> by (unfold iv_getuid; cbn [iv_data]; destruct (sh_uid _ _ _ _ Hs); by apply owner_ok).
  assert (iv_getgid meta (InodeView ino (number n)) = Ok (default (es_gid (estat n)) (wo_gid options))) as -> by (unfold iv_getgid; cbn [iv_data]; destruct (sh_gid _ _ _ _ Hs); by apply owner_ok).
  cbn [rbind].
  match goal with |- context [rbind ?x _] => assert (x = Ok (links_of n)) as -> end.
  { destruct (Z.eqb_spec (kind n) INO_REG) as [Ek|Ek]; [|by destruct n].
    destruct n as [e data|e es|e target|e]; try done; [|cbn in Ek; by destruct (is_device_type e)].
    destruct (file_number e data Hn) as [Hr _]. pose proof (op_nlink _ _ _ _ _ _ _ _ _ _ Hopen _ _ Hr Hino) as Hl. unfold reg_nlink in Hl. by rewrite Hl, link_count_links. }
  cbn [rbind]. unfold expected_attr. fold m. fold mode.
  destruct (Z.eqb_spec (kind n) INO_DEV) as [Ek|Ek]; [|done]. rewrite (device_ok n Hn Ek). done.
Qed.
End attributes.
