(* ===== verification/SortedTree.v ===== *)
(** * SortedTree: sorting the directories of a tree

    The scanner sorts the entries of every directory by name.  The tree stays
    the tree it was: the same entries, files and numbers, and the same paths. *)

From stdpp Require Import sorting.
From S2P Require Import Prelude FileChunks StringTable Metadata MetadataReader EntryTree MetadataBuilder EntryLists TreeTables DirectoryTree.
Local Open Scope Z_scope.

#[local] Abbreviation checked := (result metadata_error).

(** ** The order of the names *)

#[export] Instance name_le_total : Total name_le.
Proof.
  intros x y. unfold name_le. destruct (bytes_lt (e_name (head y)) (e_name (head x))) eqn:E1; [|by left].
  destruct (bytes_lt (e_name (head x)) (e_name (head y))) eqn:E2; [|by right].
  pose proof (bytes_lt_trans _ _ _ E1 E2) as H. by rewrite bytes_lt_irrefl in H.
Qed.

#[export] Instance name_le_trans : Transitive name_le.
Proof.
  intros x y z. unfold name_le. intros H1 H2. destruct (bytes_lt (e_name (head z)) (e_name (head x))) eqn:E; [|done].
  destruct (bytes_lt_total (e_name (head y)) (e_name (head x))) as [H|[H|H]]; [congruence| |].
  - by rewrite H, E in H2.
  - pose proof (bytes_lt_trans _ _ _ E H) as H3. congruence.
Qed.

Lemma name_le_lt x y : name_le x y -> ename x <> ename y -> bytes_lt (ename x) (ename y) = true.
Proof. unfold name_le, ename. intros H Hne. destruct (bytes_lt_total (e_name (head x)) (e_name (head y))) as [E|[E|E]]; [done|done|congruence]. Qed.

Lemma merge_sort_names es : NoDup (map ename es) -> sorted_names (map ename (merge_sort name_le es)).
Proof.
  intros Hnd i j n m Hij Hn Hm. rewrite list_lookup_fmap in Hn, Hm.
  destruct (merge_sort name_le es !! i) as [x|] eqn:Ex; [|done]. destruct (merge_sort name_le es !! j) as [y|] eqn:Ey; [|done].
  injection Hn as <-. injection Hm as <-. apply name_le_lt.
  - eapply StronglySorted_lookup; [apply (StronglySorted_merge_sort name_le es)|done|done|done].
  - intros E. assert (NoDup (map ename (merge_sort name_le es))) as Hnd' by (by rewrite merge_sort_Permutation).
    assert (i = j) as ->; [|lia]. eapply (NoDup_lookup _ i j (ename x) Hnd'); [by rewrite list_lookup_fmap, Ex|by rewrite list_lookup_fmap, Ey, E].
Qed.

(** ** The entries of the sorted tree *)

Lemma head_sort n : head (sort_tree n) = head n.
Proof. by destruct n. Qed.

Lemma ename_sort n : ename (sort_tree n) = ename n.
Proof. unfold ename. by rewrite head_sort. Qed.

Lemma kind_sort n : kind (sort_tree n) = kind n.
Proof. by destruct n. Qed.

Lemma concat_Permutation {A} (l l' : list (list A)) : l ≡ₚ l' -> concat l ≡ₚ concat l'.
Proof.
  induction 1 as [|x l l' _ IH|x y l|l1 l2 l3 _ IH1 _ IH2]; cbn; [done|by rewrite IH| |by etrans].
  rewrite !app_assoc. by rewrite (Permutation_app_comm y x).
Qed.

Lemma preorder_sort n : preorder (sort_tree n) ≡ₚ map sort_tree (preorder n).
Proof.
  induction n as [e data|e es IH|e target|e] using entry_nested_ind; [done| |done|done].
  rewrite !preorder_eq. cbn [sort_tree children map]. constructor.
  rewrite (concat_Permutation _ (map preorder (map sort_tree es))) by (apply (fmap_Permutation preorder), merge_sort_Permutation).
  rewrite map_map, <- concat_map_concat, map_map. by apply concat_map_Permutation.
Qed.

Lemma elem_of_sorted n m : m ∈ preorder (sort_tree n) <-> exists m0, m = sort_tree m0 /\ m0 ∈ preorder n.
Proof. rewrite preorder_sort. apply list_elem_of_fmap. Qed.

Lemma sorted_file n e data : File e data ∈ preorder (sort_tree n) <-> File e data ∈ preorder n.
Proof.
  rewrite elem_of_sorted. split.
  - intros (m & E & Hm). by destruct m; try done; injection E as -> ->.
  - intros H. by exists (File e data).
Qed.

Lemma sorted_dir n e es : Dir e es ∈ preorder (sort_tree n) -> exists es0, es = merge_sort name_le (map sort_tree es0) /\ Dir e es0 ∈ preorder n.
Proof. rewrite elem_of_sorted. intros (m & E & Hm). destruct m as [|e' es'| |]; try done. injection E as -> ->. by exists es'. Qed.

Lemma map_sort_preserved {B} (f : entry -> B) n : (forall m, f (sort_tree m) = f m) -> map f (preorder (sort_tree n)) ≡ₚ map f (preorder n).
Proof. intros Hf. rewrite preorder_sort, map_map. by rewrite (map_ext (fun x => f (sort_tree x)) f Hf). Qed.

Lemma zlen_sorted n : zlen (preorder (sort_tree n)) = zlen (preorder n).
Proof. rewrite (zlen_Permutation _ _ (preorder_sort n)). unfold zlen. by rewrite length_map. Qed.

Lemma total_bytes_Permutation l l' : l ≡ₚ l' -> total_bytes l = total_bytes l'.
Proof. induction 1 as [|x l l' _ IH|x y l|l1 l2 l3 _ IH1 _ IH2]; rewrite ?total_bytes_cons; lia. Qed.

Lemma omap_targets_sorted l : omap link_target (map sort_tree l) = omap link_target l.
Proof. induction l as [|n l IH]; [done|]. cbn [map omap list_omap]. rewrite IH. by destruct n. Qed.

Lemma tree_ok_sorted root : tree_ok root -> tree_ok (sort_tree root).
Proof.
  intros [T1 T2 T3 T4 T5 T6 T7 T8 T9]. split.
  - destruct T1 as (e & es & -> & Hp). exists e. eexists. split; [done|done].
  - rewrite (map_sort_preserved eid) by (intros m; unfold eid; by rewrite head_sort). done.
  - intros e es c Hd Hc. apply sorted_dir in Hd as (es0 & -> & Hd). rewrite merge_sort_Permutation in Hc.
    apply list_elem_of_fmap in Hc as (c0 & -> & Hc). rewrite head_sort. by apply (T3 e es0).
  - intros n Hn. apply elem_of_sorted in Hn as (m & -> & Hm). unfold emode, estat. rewrite head_sort, kind_sort. by apply T4.
  - intros e es Hd. apply sorted_dir in Hd as (es0 & -> & Hd). destruct (T5 e es0 Hd) as [H1 H2].
    assert (map ename (merge_sort name_le (map sort_tree es0)) ≡ₚ map ename es0) as Hperm.
    { rewrite merge_sort_Permutation, map_map. by rewrite (map_ext (fun x => ename (sort_tree x)) ename ename_sort). }
    split; [by rewrite Hperm|]. rewrite merge_sort_Permutation. apply Forall_map. eapply Forall_impl; [exact H2|]. intros c. cbn. by rewrite ename_sort.
  - intros e e' data H1 H2. rewrite sorted_file in H1, H2. by apply (T6 e e' data).
  - intros e target Hn. apply elem_of_sorted in Hn as (m & E & Hm). destruct m as [| |e' target'|]; try done. injection E as -> ->. by apply (T7 e').
  - by rewrite zlen_sorted.
  - split; [rewrite (total_bytes_Permutation _ (map ename (preorder root))) by (apply map_sort_preserved, ename_sort)|
      rewrite (total_bytes_Permutation _ (omap link_target (preorder root))) by (rewrite preorder_sort, omap_targets_sorted; done)]; tauto.
Qed.

Lemma sorted_names_tree root e es : tree_ok root -> Dir e es ∈ preorder (sort_tree root) -> sorted_names (map ename es).
Proof.
  intros Ht Hd. apply sorted_dir in Hd as (es0 & -> & Hd). apply merge_sort_names. destruct (to_names _ Ht e es0 Hd) as [H _].
  rewrite map_map. by rewrite (map_ext (fun x => ename (sort_tree x)) ename ename_sort).
Qed.

Lemma files_numbered_sorted root first dev fn : files_numbered root first dev fn -> files_numbered (sort_tree root) first dev fn.
Proof.
  intros [F1 F2 F3 F4 F5 (groups & G1 & G2 & G3)]. split; [| |done|done|done|].
  - intros e data Hn. rewrite sorted_file in Hn. by apply (F1 e).
  - intros num Hnum. destruct (F2 num Hnum) as (e & data & Hn & E). exists e, data. split; [by apply sorted_file|done].
  - exists groups. split; [done|]. split; [done|]. intros e data num Hn. rewrite sorted_file in Hn. by apply (G3 e).
Qed.

#[export] Instance finalizes_sorted root finalize : FinalizesFiles root finalize -> FinalizesFiles (sort_tree root) finalize.
Proof.
  intros Hf. constructor. intros first H0 Hlt. destruct (finalizes (t := root) first H0) as (dev & fn & E & Hn).
  - assert (zlen (of_kind INO_REG (preorder (sort_tree root))) = zlen (of_kind INO_REG (preorder root))) as <-; [|done].
    rewrite (zlen_Permutation _ _ (of_kind_Permutation INO_REG _ _ (preorder_sort root))).
    generalize (preorder root). clear. intros l. induction l as [|n l IH]; [done|]. unfold of_kind in *. cbn [map]. rewrite !filter_cons, kind_sort.
    unfold zlen in *. destruct (decide _); cbn [length]; lia.
  - exists dev, fn. split; [done|]. by apply files_numbered_sorted.
Qed.

(** ** The paths of the sorted tree *)

Lemma child_named_sorted name es : NoDup (map ename es) ->
  child_named name (merge_sort name_le (map sort_tree es)) = sort_tree <$> child_named name es.
Proof.
  intros Hnd. assert (sorted_names (map ename (merge_sort name_le (map sort_tree es)))) as Hs.
  { apply merge_sort_names. rewrite map_map. by rewrite (map_ext (fun x => ename (sort_tree x)) ename ename_sort). }
  destruct (child_named name es) as [c|] eqn:E.
  - apply child_named_Some in E as [Hin En]. assert (sort_tree c ∈ merge_sort name_le (map sort_tree es)) as Hc.
    { rewrite merge_sort_Permutation. apply list_elem_of_fmap. by exists c. }
    apply list_elem_of_lookup in Hc as [i Hi]. apply (child_named_lookup _ _ i); [done|done|]. by rewrite ename_sort.
  - apply child_named_None. intros i c Hi En. assert (c ∈ merge_sort name_le (map sort_tree es)) as Hc by (by eapply list_elem_of_lookup_2).
    rewrite merge_sort_Permutation in Hc. apply list_elem_of_fmap in Hc as (c0 & -> & Hc0). rewrite ename_sort in En.
    unfold child_named in E. pose proof (find_none _ _ E c0 (proj1 (list_elem_of_In _ _) Hc0)) as Hb. by apply bool_decide_eq_false in Hb.
Qed.

Lemma lookup_path_sorted root n names : tree_ok root -> n ∈ preorder root -> lookup_path (sort_tree n) names = sort_tree <$> lookup_path n names.
Proof.
  intros Ht. revert n. induction names as [|name names IH]; intros n Hn; [done|]. destruct n as [|e es| |]; try done.
  cbn [sort_tree lookup_path]. destruct (to_names _ Ht e es Hn) as [Hnd _]. rewrite child_named_sorted by done.
  destruct (child_named name es) as [c|] eqn:E; [|done]. cbn [fmap option_fmap option_map mbind option_bind].
  apply IH. apply child_named_Some in E as [Hin _]. by apply (preorder_child root (Dir e es)).
Qed.

Lemma same_name es x y : NoDup (map ename es) -> x ∈ es -> y ∈ es -> ename x = ename y -> x = y.
Proof.
  intros Hnd Hx Hy E. apply list_elem_of_lookup in Hx as [i Hi]. apply list_elem_of_lookup in Hy as [j Hj].
  assert (i = j) as <-; [|congruence]. apply (NoDup_lookup _ i j (ename x) Hnd); [by rewrite list_lookup_fmap, Hi|by rewrite list_lookup_fmap, Hj, E].
Qed.

Lemma child_named_NoDup es c : NoDup (map ename es) -> c ∈ es -> child_named (ename c) es = Some c.
Proof.
  intros Hnd Hc. destruct (child_named (ename c) es) as [c'|] eqn:E.
  - apply child_named_Some in E as [Hin En]. f_equal. by apply (same_name es).
  - unfold child_named in E. pose proof (find_none _ _ E c (proj1 (list_elem_of_In _ _) Hc)) as Hb. by apply bool_decide_eq_false in Hb.
Qed.

(** Sorting the entries of a directory, each sorted or not, is the same. *)
Lemma merge_sort_map_sort es : NoDup (map ename es) -> merge_sort name_le (map sort_tree es) = map sort_tree (merge_sort name_le es).
Proof.
  intros Hnd. apply (StronglySorted_unique_strong name_le).
  - intros x y Hx Hy H1 H2. rewrite merge_sort_Permutation in Hx. apply list_elem_of_fmap in Hx as (x0 & -> & Hx). apply list_elem_of_fmap in Hy as (y0 & -> & Hy).
    rewrite merge_sort_Permutation in Hy. f_equal. apply (same_name es); [done..|]. unfold name_le in H1, H2. rewrite !head_sort in H1, H2.
    unfold ename. destruct (bytes_lt_total (e_name (head x0)) (e_name (head y0))) as [E|[E|E]]; congruence.
  - apply (StronglySorted_merge_sort name_le).
  - apply (StronglySorted_fmap sort_tree name_le); [|apply (StronglySorted_merge_sort name_le)]. intros x y. unfold name_le. by rewrite !head_sort.
  - rewrite merge_sort_Permutation. apply (fmap_Permutation sort_tree). symmetry. apply merge_sort_Permutation.
Qed.
