(* ===== verification/TreeRoundtrip.v ===== *)
(** * TreeRoundtrip: a tree of files through its metadata

    [scan] of a tree of entries, and [metadata_v2_data] of what it returns: the
    metadata opens, exactly the paths of the tree are found, each with the
    attributes, the link or the contents of its entry, directories list their
    entries in order, and two paths have the same inode only when they are
    hard links. *)

From stdpp Require Import sorting.
From S2P Require Import Prelude FileChunks PackedInts StringTable SparseSeek Metadata MetadataReader MetadataSafety EntryTree MetadataBuilder EntryLists TreeTables EntryData EntryTables GatheredMetadata BuiltMetadata RecoveredDirectories OpenedTree DirectoryTree TreeAttributes SortedTree.
Local Open Scope Z_scope.

#[local] Abbreviation checked := (result metadata_error).

(** ** What is packed *)

(** The number the first file gets: directories and links come before. *)
Definition first_file_of (root : entry) : Z := zlen (of_kind INO_DIR (preorder root)) + zlen (of_kind INO_LNK (preorder root)).

Lemma of_kind_sorted k n : zlen (of_kind k (preorder (sort_tree n))) = zlen (of_kind k (preorder n)).
Proof.
  rewrite (zlen_Permutation _ _ (of_kind_Permutation k _ _ (preorder_sort n))). generalize (preorder n). intros l. unfold of_kind.
  induction l as [|m l IH]; [done|]. cbn [map]. rewrite !filter_cons, kind_sort. destruct (decide _); [|done]. unfold zlen in *. cbn [length]. lia.
Qed.

Lemma first_file_sorted root : first_file_of (sort_tree root) = first_file_of root.
Proof. unfold first_file_of. by rewrite !of_kind_sorted. Qed.

(** A tree of files, with the numbers the file scanner gives them and the
    chunks of their contents. *)
Record packable (root : entry) (options : writer_options) (finalize : Z -> checked (Z * file_numbers)) (files : FileChunks.metadata)
    (contents : nat -> list chunk) : Prop := {
  pb_tree : tree_ok root;
  pb_chain : chain_ok (chmod_chain options);
  pb_finalize : FinalizesFiles root finalize;
  pb_table : table_fits files;
  pb_contents : forall first_device fn e data u, finalize (first_file_of root) = Ok (first_device, fn) -> File e data ∈ preorder root ->
    unique_file_ids fn !! data = Some u -> chunks_at files u (contents data);
  pb_few : forall e data, File e data ∈ preorder root -> zlen (contents data) < 2 ^ 32
}.

(** ** Indices of files *)

Lemma assign_inodes_finalize finalize t a : assign_inodes finalize t = Ok a -> finalize (first_file_inode a) = Ok (first_device_inode a, as_files a).
Proof.
  unfold assign_inodes. destruct (accept dir_set_inode_visitor true t _) as [s1|]; [|done]. cbn [rbind].
  destruct (accept link_set_inode_visitor true t s1) as [s2|]; [|done]. cbn [rbind]. destruct (finalize (next_inode_num s2)) as [[dev fn]|] eqn:E; [|done]. cbn [rbind].
  destruct (accept device_set_inode_visitor false t _) as [[s3 devices]|]; [|done]. cbn [rbind]. destruct (accept pipe_set_inode_visitor false t s3) as [s4|]; [|done].
  cbn [rbind]. by intros [= <-].
Qed.

Lemma first_file_number root a : numbered (sort_tree root) a -> first_file_inode a = first_file_of root.
Proof. intros Ha. rewrite (nb_first_file _ _ Ha), (nb_first_link _ _ Ha). apply first_file_sorted. Qed.

Lemma shared_from_onto k groups g : Forall (fun n => (2 <= n)%nat) groups -> k <= g < k + zlen groups -> exists i, shared_from k groups !! i = Some g.
Proof.
  intros H. revert k. induction H as [|n groups Hn _ IH]; intros k Hg; [unfold zlen in Hg; cbn [length] in Hg; lia|]. change (zlen (n :: groups)) with (Z.of_nat (S (length groups))) in Hg.
  rewrite shared_from_cons. destruct (decide (g = k)) as [->|Hne].
  - exists O. apply lookup_app_l_Some, lookup_replicate_2. lia.
  - destruct (IH (k + 1)) as [i Hi]; [unfold zlen; lia|]. exists (n + i)%nat. rewrite lookup_app_r by (rewrite length_replicate; lia).
    rewrite length_replicate. by replace (n + i - n)%nat with i by lia.
Qed.

(** Every index of chunks below their number is that of a file. *)
Lemma unique_onto t a options files g groups meta i : numbered t a -> gathered t a options files g groups meta ->
  0 <= i < num_unique (as_files a) + zlen groups -> exists e data, File e data ∈ preorder t /\ unique_file_ids (as_files a) !! data = Some i.
Proof.
  intros Ha Hgm Hi. pose proof (fn_unique _ _ _ _ (nb_files _ _ Ha)) as Hnu. pose proof (gm_shared_length _ _ _ _ _ _ _ Hgm) as Hlen.
  pose proof (zlen_nonneg (shared_list groups)). destruct (Z_lt_le_dec i (num_unique (as_files a))) as [Hlt|Hge].
  - destruct (fn_onto _ _ _ _ (nb_files _ _ Ha) (first_file_inode a + i)) as (e & data & Hn & E); [lia|]. exists e, data. split; [done|].
    destruct (gm_targets _ _ _ _ _ _ _ Hgm e data _ Hn E) as (u & -> & Hu). replace (first_file_inode a + i - first_file_inode a) with i in Hu by lia.
    destruct (Z.ltb_spec i (num_unique (as_files a))); [by rewrite Hu|lia].
  - destruct (shared_from_onto 0 groups (i - num_unique (as_files a)) (gm_groups _ _ _ _ _ _ _ Hgm)) as [j Hj]; [lia|]. rewrite <- shared_list_from in Hj.
    pose proof (lookup_zlen _ _ _ Hj) as Hjl. destruct (fn_onto _ _ _ _ (nb_files _ _ Ha) (first_file_inode a + num_unique (as_files a) + Z.of_nat j)) as (e & data & Hn & E); [lia|].
    exists e, data. split; [done|]. destruct (gm_targets _ _ _ _ _ _ _ Hgm e data _ Hn E) as (u & -> & Hu).
    destruct (Z.ltb_spec (first_file_inode a + num_unique (as_files a) + Z.of_nat j - first_file_inode a) (num_unique (as_files a))); [lia|].
    replace (Z.to_nat _) with j in Hu by lia. rewrite Hj in Hu. injection Hu as Hu. f_equal. lia.
Qed.

Lemma targets_index t a options files g groups meta e data num : numbered t a -> gathered t a options files g groups meta ->
  File e data ∈ preorder t -> file_inode_nums (as_files a) !! data = Some num ->
  unique_file_ids (as_files a) !! data = Some (file_index a groups (num - first_file_inode a)).
Proof.
  intros Ha Hgm Hn E. destruct (gm_targets _ _ _ _ _ _ _ Hgm e data num Hn E) as (u & -> & Hu). f_equal. unfold file_index.
  destruct (Z.ltb_spec (num - first_file_inode a) (num_unique (as_files a))); [done|]. rewrite Hu. change (default 0 (Some ?x)) with x. lia.
Qed.

Section mounting.
Context {encoder decoder : Type} (fsst_create : list (list Z) -> encoder) (fsst_export : encoder -> list Z)
  (fsst_compress : encoder -> list (list Z) -> Z -> list (list Z))
  (fsst_import : list Z -> Z * decoder) (fsst_decompress : decoder -> list Z -> Z -> list Z)
  `{!Fsst fsst_create fsst_export fsst_compress fsst_import fsst_decompress}.
Context (frozen_string_table_size : list (list Z) -> Z) (fuel : nat).
Context (root : entry) (options : writer_options) (finalize : Z -> checked (Z * file_numbers)) (files : FileChunks.metadata) (contents : nat -> list chunk).
Context (ro : metadata_options) (inode_offset : Z).

(** The metadata of the tree is built and opened. *)
Definition mounts (d : metadata_v2_data (decoder := decoder)) : Prop :=
  exists meta, scan fsst_create fsst_export fsst_compress fuel options finalize files root = Ok meta /\
    metadata_v2_data_create fsst_import frozen_string_table_size fuel meta ro inode_offset false = Ok d.

Context (Hp : packable root options finalize files contents) (Hcheck : check_consistency ro = false).
Context (Hfuel : (5 <= fuel)%nat) (Hdirs : zlen (preorder root) <= Z.of_nat fuel).

#[local] Abbreviation t := (sort_tree root).

(** All there is to know of the opened metadata. *)
Record mounted (a : assigned) (g : global_entry_data) (groups : list nat) (meta : fs_metadata) (d : metadata_v2_data (decoder := decoder)) : Prop := {
  mo_numbered : numbered t a;
  mo_data : entry_data_ok options (preorder t) g;
  mo_built : built t a options g fsst_import fsst_decompress files groups meta;
  mo_opened : opened t a g fsst_decompress files groups meta ro inode_offset d;
  mo_targets : forall e data num, File e data ∈ preorder t -> file_inode_nums (as_files a) !! data = Some num ->
    unique_file_ids (as_files a) !! data = Some (file_index a groups (num - first_file_inode a));
  mo_contents : forall e data u, File e data ∈ preorder t -> unique_file_ids (as_files a) !! data = Some u -> chunks_at files u (contents data);
  mo_groups : Forall (fun n => (2 <= n)%nat) groups;
  mo_shared : zlen (shared_list groups) = first_device_inode a - first_file_inode a - num_unique (as_files a);
  mo_onto : forall i, 0 <= i < num_unique (as_files a) + zlen groups -> exists e data, File e data ∈ preorder t /\ unique_file_ids (as_files a) !! data = Some i;
  mo_finalize : finalize (first_file_of root) = Ok (first_device_inode a, as_files a)
}.

Lemma sorted_ok : tree_ok t.
Proof. apply tree_ok_sorted, Hp. Qed.

Lemma dirs_fuel : zlen (dirs_of t) <= Z.of_nat fuel.
Proof.
  rewrite <- (zlen_sorted root) in Hdirs. etrans; [|exact Hdirs]. unfold dirs_of, zlen. generalize (preorder t). intros l.
  induction l as [|n l IH]; [done|]. cbn [omap list_omap]. destruct (dir_of n); cbn [length]; lia.
Qed.

Lemma scan_mounted : exists a g groups meta d, scan fsst_create fsst_export fsst_compress fuel options finalize files root = Ok meta /\
  metadata_v2_data_create fsst_import frozen_string_table_size fuel meta ro inode_offset false = Ok d /\ mounted a g groups meta d.
Proof.
  pose proof sorted_ok as Ht. destruct Hp as [_ Hchain Hfin Hfits Hcont _].
  destruct (gather_metadata_ok t finalize options files Ht _) as (a & g & groups & meta & Ea & Ha & Hg & Egm & Hgm).
  assert (forall e data u, File e data ∈ preorder t -> unique_file_ids (as_files a) !! data = Some u -> chunks_at files u (contents data)) as Hc.
  { intros e data u Hn Eu. pose proof (assign_inodes_finalize finalize t a Ea) as Ef. rewrite (first_file_number root a Ha) in Ef. rewrite sorted_file in Hn. by apply (Hcont (first_device_inode a) (as_files a) e data u). }
  destruct (build_ok t Ht a Ha options g Hg Hchain fsst_create fsst_export fsst_compress fsst_import fsst_decompress fuel files groups meta Hgm Hfuel) as (meta' & Eb & Hb).
  { intros i Hi. destruct (unique_onto t a options files g groups meta i Ha Hgm Hi) as (e & data & Hn & Eu). pose proof (Hc e data i Hn Eu) as Hca. rewrite (ca_size _ _ _ Hca). by eexists. }
  destruct (open_ok t Ht a Ha options g Hchain fsst_import fsst_decompress files groups meta' Hb (gm_groups _ _ _ _ _ _ _ Hgm) (gm_shared_length _ _ _ _ _ _ _ Hgm) Hfits
    frozen_string_table_size fuel ro inode_offset Hcheck dirs_fuel) as (d & Ed & Ho).
  exists a, g, groups, meta', d. split; [|split; [done|]].
  - unfold scan. rewrite Egm. cbn [rbind]. exact Eb.
  - split; try done.
    + intros e data num Hn E. by apply (targets_index t a options files g groups meta e data).
    + by apply Hgm.
    + by apply Hgm.
    + intros i Hi. by apply (unique_onto t a options files g groups meta).
    + rewrite <- (first_file_number root a Ha). by apply (assign_inodes_finalize finalize t).
Qed.

Lemma mounts_mounted : exists a g groups meta d, mounts d /\ mounted a g groups meta d.
Proof. destruct scan_mounted as (a & g & groups & meta & d & E1 & E2 & Hm). exists a, g, groups, meta, d. split; [by exists meta|done]. Qed.

Lemma mounts_facts d : mounts d -> exists a g groups meta, mounted a g groups meta d.
Proof.
  intros (meta & E1 & E2). destruct mounts_mounted as (a & g & groups & meta' & d' & (meta1 & E1' & E2') & Hm). rewrite E1 in E1'. injection E1' as <-.
  rewrite E2 in E2'. injection E2' as <-. by exists a, g, groups, meta'.
Qed.

(** ** What is found *)

(** The attributes of an entry whose inode has the number. *)
Definition stat_of (ino : Z) (n : entry) : file_stat :=
  let sz := match n with
            | Dir _ es => FileSizeResult (zlen es) (zlen es)
            | Link _ target => FileSizeResult (zlen target) (zlen target)
            | File _ data => sum_chunks (enable_sparse_files ro) (contents data)
            | Device _ => FileSizeResult 0 0
            end in
  let mode := new_mode options (emode n) in
  FileStat (if readonly ro then Z.land mode READ_ONLY_MASK else mode) (fsr_size sz) ((fsr_allocated_size sz + 511) / 512) (fsr_allocated_size sz)
    ino (blksize ro)
    (default (default (es_uid (estat n)) (wo_uid options)) (fs_uid ro)) (default (default (es_gid (estat n)) (wo_gid options)) (fs_gid ro))
    (links_of root n) (if kind n =? INO_DEV then rdev_of n else 0).

Lemma links_of_sorted n : links_of t (sort_tree n) = links_of root n.
Proof.
  destruct n as [e data|e es|e target|e]; try done. cbn [sort_tree links_of].
  rewrite (zlen_Permutation _ _ (filter_Permutation _ _ _ (preorder_sort root))). generalize (preorder root). intros l.
  induction l as [|m l IH]; [done|]. cbn [map]. rewrite !filter_cons. assert (file_data (sort_tree m) = file_data m) as -> by (by destruct m).
  unfold zlen in *. destruct (decide _); cbn [length]; lia.
Qed.

Lemma expected_stat_of a g n : expected_attr t a options g ro inode_offset contents (sort_tree n) = stat_of (number a g (sort_tree n) + inode_offset) n.
Proof.
  unfold expected_attr, stat_of. rewrite links_of_sorted. destruct n as [e data|e es|e target|e]; try done.
  cbn [sort_tree expected_size]. assert (zlen (merge_sort name_le (map sort_tree es)) = zlen es) as ->; [|done].
  unfold zlen. f_equal. rewrite (Permutation_length (merge_sort_Permutation _ _)). apply length_map.
Qed.

(** What the operations of the metadata return for an entry. *)
Definition contents_shown (d : metadata_v2_data (decoder := decoder)) (iv : inode_view) (n : entry) : Prop :=
  match n with
  | File _ data => exists ino range, open_file d iv = Ok (Some ino) /\ get_chunks d (ino + inode_offset) = Ok (Some range) /\
      chunks_of_range d range = Ok (contents data)
  | Dir _ es => exists dir, opendir d iv = Ok (Some dir) /\ dirsize d dir = Ok (2 + zlen es)
  | Link _ target => readlink fsst_decompress d iv ReadlinkRaw = Ok (Some target)
  | Device _ => open_file d iv = Ok None /\ opendir d iv = Ok None /\ readlink fsst_decompress d iv ReadlinkRaw = Ok None
  end.

Section facts.
Context (a : assigned) (g : global_entry_data) (groups : list nat) (meta : fs_metadata) (d : metadata_v2_data (decoder := decoder)).
Context (Hm : mounted a g groups meta d).

Lemma in_sorted n : n ∈ preorder root -> sort_tree n ∈ preorder t.
Proof. intros Hn. apply elem_of_sorted. by exists n. Qed.

Lemma find_sorted names : Forall good_name names -> find_path fsst_decompress d (path_of names) = Ok (view_of t a g <$> (sort_tree <$> lookup_path root names)).
Proof.
  intros Hn. destruct Hm as [Ha Hg Hb Ho _ _].
  rewrite (find_path_ok t sorted_ok a Ha options g Hg (pb_chain _ _ _ _ _ Hp) fsst_import fsst_decompress files groups meta Hb ro inode_offset d Ho) by
    (done || intros e es; apply (sorted_names_tree root e es), Hp).
  by rewrite (lookup_path_sorted root) by (apply Hp || apply preorder_self).
Qed.

Lemma contents_shown_ok n ino : n ∈ preorder root ->
  dv_inode (global_ d) (view_of t a g (sort_tree n)) = Ok (InodeView ino (number a g (sort_tree n))) ->
  contents_shown d (InodeView ino (number a g (sort_tree n))) n.
Proof.
  intros Hn Hv. destruct Hm as [Ha Hg Hb Ho Htg Hct]. pose proof (in_sorted n Hn) as Hs.
  destruct (inode_there t a Ha options g fsst_import fsst_decompress files groups meta Hb ro inode_offset d Ho _ Hs) as (ino' & Hino & Hsh & Hv').
  rewrite Hv in Hv'. injection Hv' as <-. pose proof (mode_ok a options g meta _ ino Hsh) as Em.
  destruct (type_ok t sorted_ok options (pb_chain _ _ _ _ _ Hp) _ Hs) as (Ty & Td & Tl & Tr & _).
  unfold contents_shown, open_file, opendir, iv_is_regular_file, iv_is_directory, iv_type, readlink, iv_is_symlink, iv_type.
  rewrite (op_meta _ _ _ _ _ _ _ _ _ _ Ho), Em. cbn [rbind]. rewrite Ty, Td, Tr, Tl. rewrite kind_sort.
  destruct n as [e data|e es|e target|e]; cbn [kind].
  - exists (number a g (File e data)). destruct (get_chunks_ok t a Ha options g fsst_import fsst_decompress files groups meta Hb ro inode_offset d Ho (pb_table _ _ _ _ _ Hp) contents Htg Hct
      e data Hs) as (range & E1 & E2). by exists range.
  - exists (number a g (sort_tree (Dir e es))). split; [done|]. unfold dirsize. cbn [sort_tree] in *.
    rewrite (entry_count_ok t sorted_ok a Ha g fsst_decompress files groups meta ro inode_offset d Ho e _ Hs). cbn [rbind]. do 2 f_equal.
    unfold zlen. f_equal. rewrite (Permutation_length (merge_sort_Permutation _ _)). apply length_map.
  - change (INO_LNK =? INO_LNK) with true. cbv iota.
    destruct (readlink_ok t sorted_ok a Ha options g (pb_chain _ _ _ _ _ Hp) fsst_import fsst_decompress files groups meta Hb ro inode_offset d Ho e target Hs) as (ino' & Hv' & _ & El).
    cbn [sort_tree] in *. rewrite Hv in Hv'. injection Hv' as <-. by rewrite El.
  - by destruct (is_device_type e).
Qed.

Lemma attributes_ok n : n ∈ preorder root -> exists iv st, dv_inode (global_ d) (view_of t a g (sort_tree n)) = Ok iv /\
  iv_inode_num iv = number a g (sort_tree n) /\ getattr fsst_decompress d iv false = Ok st /\ st = stat_of (iv_inode_num iv + inode_offset) n /\ contents_shown d iv n.
Proof.
  intros Hn. destruct Hm as [Ha Hg Hb Ho Htg Hct]. pose proof (in_sorted n Hn) as Hs.
  destruct (getattr_ok t sorted_ok a Ha options g (pb_chain _ _ _ _ _ Hp) fsst_import fsst_decompress files groups meta Hb ro inode_offset d Ho (pb_table _ _ _ _ _ Hp) contents Htg Hct)
    with (n := sort_tree n) as (ino & Hv & Hst); [|done|].
  { intros e data He. rewrite sorted_file in He. by apply (pb_few _ _ _ _ _ Hp e). }
  eexists _, _. split; [exact Hv|]. split; [done|]. split; [exact Hst|]. split; [apply expected_stat_of|]. by apply contents_shown_ok.
Qed.

(** *** Names and parents *)

Lemma root_number_0 : number a g t = 0.
Proof. destruct Hm as [Ha _ _ _ _ _]. by destruct (root_number t sorted_ok a Ha g) as (e & es & _ & _ & _ & H). Qed.

Lemma child_not_root e es c : Dir e es ∈ preorder t -> c ∈ es -> has_parent (head c) = true /\ c ∈ preorder t /\ is_root (view_of t a g c) = false.
Proof.
  intros Hd Hc. pose proof (to_parents _ sorted_ok e es c Hd Hc) as Hpar. assert (has_parent (head c) = true) as Hhp by (unfold has_parent; by rewrite Hpar).
  assert (c ∈ preorder t) as Hin by (by apply (preorder_child t (Dir e es))). split; [done|]. split; [done|].
  cbn [view_of is_root dv_data]. fold (number a g c). apply Z.eqb_neq. intros E. destruct Hm as [Ha _ _ _ _ _].
  destruct (number_num t a Ha g c Hin) as [Ec _]. destruct (number_num t a Ha g t (preorder_self t)) as [Et _].
  rewrite root_number_0 in Et. rewrite E in Ec. destruct (to_root _ sorted_ok) as (e0 & es0 & Er & Hr).
  destruct (num_inj t a Ha c t 0 Hin (preorder_self t) Ec Et) as [->|(e1 & e2 & data & _ & Ef)]; [|by rewrite Er in Ef].
  rewrite Er in Hpar. cbn [head] in Hpar. congruence.
Qed.

Lemma child_view_name e es c : Dir e es ∈ preorder t -> c ∈ es -> dv_name fsst_decompress (global_ d) (view_of t a g c) = Ok (ename c).
Proof.
  intros Hd Hc. destruct (child_not_root e es c Hd Hc) as (Hhp & Hin & Hr). unfold dv_name. cbn [dv_name_type view_of]. 
  change (DirEntryView _ _ _ _) with (view_of t a g c). rewrite Hr. cbn [view_of dv_data]. destruct Hm as [Ha Hg Hb Ho _ _].
  apply (name_at t a options g Hg fsst_decompress files groups meta ro inode_offset d Ho c Hin Hhp).
Qed.

Lemma child_view_parent e es c : Dir e es ∈ preorder t -> c ∈ es -> dv_parent (global_ d) (view_of t a g c) = Ok (Some (view_of t a g (Dir e es))).
Proof.
  intros Hd Hc. destruct (child_not_root e es c Hd Hc) as (_ & _ & Hr). unfold dv_parent. rewrite Hr. cbn [view_of dv_parent_index].
  unfold parent_pos at 1. rewrite (to_parents _ sorted_ok e es c Hd Hc). destruct Hm as [Ha Hg Hb Ho _ _].
  by rewrite (make_directory_entry_ok t sorted_ok a Ha options g fsst_import fsst_decompress files groups meta Hb ro inode_offset d Ho e es OtherName Hd).
Qed.

Lemma lookup_path_app n l1 l2 : lookup_path n (l1 ++ l2) = m ← lookup_path n l1; lookup_path m l2.
Proof.
  revert n. induction l1 as [|x l1 IH]; intros n; [done|]. cbn [app lookup_path]. destruct n as [|e es| |]; try done.
  destruct (child_named x es) as [c|]; [|done]. cbn [mbind option_bind]. apply IH.
Qed.

Lemma lookup_path_snoc n names x m : lookup_path n (names ++ [x]) = Some m -> exists e es, lookup_path n names = Some (Dir e es) /\ m ∈ es /\ ename m = x.
Proof.
  rewrite lookup_path_app. destruct (lookup_path n names) as [k|]; [|done]. cbn [mbind option_bind lookup_path].
  destruct k as [|e es| |]; try done. destruct (child_named x es) as [c|] eqn:E; [|done]. cbn [mbind option_bind]. intros [= <-].
  exists e, es. split; [done|]. by apply child_named_Some.
Qed.

Lemma append_to_ok names n k p : lookup_path t names = Some n -> (length names < k)%nat ->
  append_to fsst_decompress k (global_ d) (view_of t a g n) p = Ok (p ++ names).
Proof.
  revert n k. induction names as [|x names IH] using rev_ind; intros n k Hl Hk; destruct k as [|k]; [lia| |lia|].
  - injection Hl as <-. cbn [append_to]. assert (is_root (view_of t a g t) = true) as Hr by (cbn [view_of is_root dv_data]; fold (number a g t); by rewrite root_number_0).
    unfold dv_parent. rewrite Hr. cbn [rbind negb]. by rewrite app_nil_r.
  - destruct (lookup_path_snoc _ _ _ _ Hl) as (e & es & Hd & Hin & Hx). pose proof (lookup_path_preorder t t names _ (preorder_self t) Hd) as Hdt.
    rewrite length_app in Hk. cbn [length] in Hk. specialize (IH _ k Hd ltac:(lia)).
    cbn [append_to]. rewrite (child_view_parent e es n Hdt Hin). cbn [rbind]. destruct (child_not_root e es n Hdt Hin) as (_ & _ & ->). cbn [negb].
    rewrite (child_view_name e es n Hdt Hin), Hx. destruct (is_root (view_of t a g (Dir e es))) eqn:Er; cbn [negb].
    + destruct k as [|k]; [lia|]. cbn [append_to] in IH. unfold dv_parent in IH. rewrite Er in IH. cbn [rbind negb] in IH. injection IH as E.
      rewrite <- (app_nil_r p) in E at 1. apply app_inv_head in E as <-. done.
    + rewrite IH. cbn [rbind]. by rewrite <- app_assoc.
Qed.

(** *** The four statements, of the facts *)

Lemma same_number n m : n ∈ preorder root -> m ∈ preorder root ->
  number a g (sort_tree n) = number a g (sort_tree m) <-> n = m \/ exists e e' data, n = File e data /\ m = File e' data.
Proof.
  intros Hn Hm'. destruct Hm as [Ha _ _ _ _ _]. pose proof (in_sorted n Hn) as Hsn. pose proof (in_sorted m Hm') as Hsm.
  destruct (number_num t a Ha g _ Hsn) as [En _]. destruct (number_num t a Ha g _ Hsm) as [Em _]. split.
  - intros E. rewrite E in En. destruct (num_inj t a Ha _ _ _ Hsn Hsm En Em) as [Es|(e & e' & data & E1 & E2)].
    + left. apply (eid_inj root (pb_tree _ _ _ _ _ Hp) n m Hn Hm'). apply (f_equal eid) in Es. unfold eid in *. by rewrite !head_sort in Es.
    + right. exists e, e', data. by destruct n, m.
  - intros [->|(e & e' & data & -> & ->)]; done.
Qed.

Lemma readdir_parent_sorted e es names : lookup_path root names = Some (Dir e es) -> exists p, lookup_path root (removelast names) = Some p /\
  readdir d (number a g (sort_tree (Dir e es))) 1 = Ok (Some (dir_view_of t a g (sort_tree p) ParentName)).
Proof.
  intros Hl. pose proof (lookup_path_preorder root root names _ (preorder_self root) Hl) as Hn. pose proof (in_sorted _ Hn) as Hs.
  destruct Hm as [Ha Hg Hb Ho _ _]. cbn [sort_tree] in *. set (es' := merge_sort name_le (map sort_tree es)) in *.
  destruct (readdir_parent_ok t sorted_ok a Ha options g fsst_import fsst_decompress files groups meta Hb ro inode_offset d Ho e es' Hs) as (e1 & es1 & Hd1 & Hor & Er).
  assert (names = [] -> Dir e es = root) as Hnil by (intros ->; cbn in Hl; by injection Hl).
  destruct names as [|x names'] using rev_ind.
  - exists root. split; [done|]. rewrite Er. do 2 f_equal. specialize (Hnil eq_refl).
    assert (Dir e1 es1 = t) as ->; [|done]. destruct Hor as [Hin|[? _]]; [|done]. exfalso.
    pose proof (to_parents _ sorted_ok e1 es1 _ Hd1 Hin) as Hpar. destruct (to_root _ (pb_tree _ _ _ _ _ Hp)) as (e0 & es0 & Er0 & Hr).
    rewrite <- Hnil in Er0. injection Er0 as -> ->. cbn [head] in Hpar. congruence.
  - clear IHnames'. rewrite removelast_last. destruct (lookup_path_snoc _ _ _ _ Hl) as (e2 & es2 & Hp2 & Hin2 & _).
    exists (Dir e2 es2). split; [done|]. rewrite Er. do 2 f_equal. pose proof (lookup_path_preorder root root names' _ (preorder_self root) Hp2) as Hn2.
    pose proof (to_parents _ (pb_tree _ _ _ _ _ Hp) e2 es2 _ Hn2 Hin2) as Hpar2. cbn [head] in Hpar2. f_equal.
    apply (eid_inj t sorted_ok); [done|by apply in_sorted|]. cbn [eid head sort_tree]. unfold eid. cbn [head]. destruct Hor as [Hin|[_ Et]].
    + pose proof (to_parents _ sorted_ok e1 es1 _ Hd1 Hin) as Hpar. cbn [head] in Hpar. congruence.
    + exfalso. destruct (to_root _ sorted_ok) as (e0 & es0 & Er0 & Hr). rewrite Er0 in Et. injection Et as -> ->. congruence.
Qed.
End facts.

(** ** The theorems *)

(** C6: A tree of files that is scanned and whose metadata is built, with any of
    the tables packed or not, opens in the reader; there a path is found exactly
    when the tree has it, and its entry has the mode (as the writer's chain of
    transformers changes it), owner, device, size and number of links of the
    entry of the tree, and the chunks, the target or the number of entries that
    it has in the tree. *)
Theorem tree_roundtrip : exists d, mounts d /\ forall names, Forall good_name names ->
  match lookup_path root names with
  | None => find_path fsst_decompress d (path_of names) = Ok None
  | Some n => exists dv iv st, find_path fsst_decompress d (path_of names) = Ok (Some dv) /\ dv_inode (global_ d) dv = Ok iv /\
      getattr fsst_decompress d iv false = Ok st /\ st = stat_of (iv_inode_num iv + inode_offset) n /\ contents_shown d iv n
  end.
Proof.
  destruct mounts_mounted as (a & g & groups & meta & d & Hd & Hm). exists d. split; [done|]. intros names Hnames.
  pose proof (find_sorted a g groups meta d Hm names Hnames) as Hf. destruct (lookup_path root names) as [n|] eqn:El; [|done].
  pose proof (lookup_path_preorder root root names n (preorder_self root) El) as Hn.
  destruct (attributes_ok a g groups meta d Hm n Hn) as (iv & st & Hv & _ & Hst & Es & Hc). exists (view_of t a g (sort_tree n)), iv, st. done.
Qed.

(** C7: Reading a directory of such an image lists the directory itself, its
    parent, and then its entries in the order of their names, each with the
    view its path is found with, and then it ends. *)
Theorem tree_readdir d : mounts d -> forall names e es, Forall good_name names -> lookup_path root names = Some (Dir e es) ->
  exists dv iv dir v0 v1 vp, find_path fsst_decompress d (path_of names) = Ok (Some dv) /\ dv_inode (global_ d) dv = Ok iv /\ opendir d iv = Ok (Some dir) /\
    (readdir d dir 0 = Ok (Some v0) /\ dv_name fsst_decompress (global_ d) v0 = Ok [46] /\ dv_inode (global_ d) v0 = Ok iv) /\
    (readdir d dir 1 = Ok (Some v1) /\ dv_name fsst_decompress (global_ d) v1 = Ok [46; 46] /\
     find_path fsst_decompress d (path_of (removelast names)) = Ok (Some vp) /\ dv_inode (global_ d) v1 = dv_inode (global_ d) vp) /\
    forall j, match merge_sort name_le es !! j with
              | None => readdir d dir (2 + Z.of_nat j) = Ok None
              | Some c => exists v, readdir d dir (2 + Z.of_nat j) = Ok (Some v) /\ dv_name fsst_decompress (global_ d) v = Ok (ename c) /\
                  find_path fsst_decompress d (path_of (names ++ [ename c])) = Ok (Some v)
              end.
Proof.
  intros Hd names e es Hnames El. destruct (mounts_facts d Hd) as (a & g & groups & meta & Hm).
  pose proof (lookup_path_preorder root root names _ (preorder_self root) El) as Hn. pose proof (in_sorted _ Hn) as Hs.
  destruct (attributes_ok a g groups meta d Hm _ Hn) as (iv & _ & Hv & Hnum & _ & _ & (dir & Hdir & _)).
  assert (dir = number a g (sort_tree (Dir e es))) as ->.
  { unfold opendir in Hdir. destruct (iv_is_directory (meta_ d) iv) as [[]|]; try done. cbn [rbind] in Hdir. injection Hdir as <-. exact Hnum. }
  destruct (readdir_parent_sorted a g groups meta d Hm e es names El) as (p & Hp1 & Er1).
  exists (view_of t a g (sort_tree (Dir e es))), iv, (number a g (sort_tree (Dir e es))), (dir_view_of t a g (sort_tree (Dir e es)) SelfName),
    (dir_view_of t a g (sort_tree p) ParentName), (view_of t a g (sort_tree p)).
  destruct (to_names _ (pb_tree _ _ _ _ _ Hp) e es Hn) as [Hnd Hok]. pose proof Hm as [Ha Hg Hb Ho _ _]. split; [by rewrite (find_sorted a g groups meta d Hm names Hnames), El|]. split; [done|]. split; [done|]. split; [|split].
  - split_and!; [|done|exact Hv]. by apply (readdir_self_ok t sorted_ok a Ha options g fsst_import fsst_decompress files groups meta Hb ro inode_offset d Ho).
  - split_and!; [done|done| |done]. rewrite (find_sorted a g groups meta d Hm); [by rewrite Hp1|].
    apply Forall_forall. intros x Hx. rewrite Forall_forall in Hnames. apply Hnames. destruct names as [|y l] using rev_ind; [done|].
    rewrite removelast_last in Hx. apply elem_of_app. by left.
  - intros j. pose proof (readdir_ok t sorted_ok a Ha options g fsst_import fsst_decompress files groups meta Hb ro inode_offset d Ho e _ j Hs) as Hr.
    cbn [sort_tree] in *. rewrite merge_sort_map_sort in Hr by done. rewrite list_lookup_fmap in Hr. destruct (merge_sort name_le es !! j) as [c|] eqn:Ec; [|done].
    assert (c ∈ es) as Hc by (rewrite <- (merge_sort_Permutation name_le es); by eapply list_elem_of_lookup_2).
    exists (view_of t a g (sort_tree c)). split; [done|]. split.
    + rewrite <- (ename_sort c). eapply (child_view_name a g groups meta d Hm e); [exact Hs|]. rewrite merge_sort_Permutation. apply list_elem_of_fmap. by exists c.
    + rewrite (find_sorted a g groups meta d Hm).
      * rewrite lookup_path_app, El. cbn [mbind option_bind lookup_path]. by rewrite child_named_NoDup.
      * apply Forall_app. split; [done|]. constructor; [|constructor]. rewrite Forall_forall in Hok. destruct (Hok c Hc) as (H1 & H2 & _). done.
Qed.

(** The path of the view a path is found with is that path. *)
Theorem tree_path d names n k : mounts d -> Forall good_name names -> lookup_path root names = Some n -> (length names < k)%nat ->
  exists dv, find_path fsst_decompress d (path_of names) = Ok (Some dv) /\ dv_path fsst_decompress k (global_ d) dv = Ok names.
Proof.
  intros Hd Hnames El Hk. destruct (mounts_facts d Hd) as (a & g & groups & meta & Hm). exists (view_of t a g (sort_tree n)). split.
  - by rewrite (find_sorted a g groups meta d Hm names Hnames), El.
  - apply (append_to_ok a g groups meta d Hm names _ k []); [|done]. rewrite (lookup_path_sorted root) by (apply Hp || apply preorder_self). by rewrite El.
Qed.

(** Two paths lead to the same inode exactly when they are the same entry or
    hard links to one file. *)
Theorem tree_hardlinks d names names' n m : mounts d -> Forall good_name names -> Forall good_name names' ->
  lookup_path root names = Some n -> lookup_path root names' = Some m ->
  exists dv dv' iv iv', find_path fsst_decompress d (path_of names) = Ok (Some dv) /\ find_path fsst_decompress d (path_of names') = Ok (Some dv') /\
    dv_inode (global_ d) dv = Ok iv /\ dv_inode (global_ d) dv' = Ok iv' /\
    (iv_inode_num iv = iv_inode_num iv' <-> n = m \/ exists e e' data, n = File e data /\ m = File e' data).
Proof.
  intros Hd Hnames Hnames' En Em. destruct (mounts_facts d Hd) as (a & g & groups & meta & Hm).
  pose proof (lookup_path_preorder root root names n (preorder_self root) En) as Hn. pose proof (lookup_path_preorder root root names' m (preorder_self root) Em) as Hm'.
  destruct (attributes_ok a g groups meta d Hm n Hn) as (iv & _ & Hv & Hnum & _). destruct (attributes_ok a g groups meta d Hm m Hm') as (iv' & _ & Hv' & Hnum' & _).
  exists (view_of t a g (sort_tree n)), (view_of t a g (sort_tree m)), iv, iv'. rewrite Hnum, Hnum'. split_and!; [| |done|done|by apply (same_number a g groups meta d Hm)].
  - by rewrite (find_sorted a g groups meta d Hm names Hnames), En.
  - by rewrite (find_sorted a g groups meta d Hm names' Hnames'), Em.
Qed.
End mounting.

(** ** An example *)

(** A directory with a file that has a hard link, two files with the same
    contents, and a directory with a link, a device and a pipe. *)
Module Sample.
Definition mode_dir : Z := 0x41ED.
Definition mode_file : Z := 0x81A4.
Definition mode_link : Z := 0xA1FF.
Definition mode_chr : Z := 0x21B6.
Definition mode_fifo : Z := 0x11A4.

Definition entry_at (id : nat) (name : list Z) (parent : option nat) (mode uid rdev : Z) : entry_head :=
  EntryHead id name parent (EntryStat mode uid 100 rdev).

Definition root : entry :=
  Dir (entry_at 0 [] None mode_dir 0 0)
    [File (entry_at 1 [99] (Some 0%nat) mode_file 1000 0) 2;
     Dir (entry_at 5 [115; 117; 98] (Some 0%nat) mode_dir 1000 0)
       [Link (entry_at 6 [108] (Some 5%nat) mode_link 1000 0) [120];
        Device (entry_at 7 [112] (Some 5%nat) mode_fifo 0 0);
        Device (entry_at 8 [110] (Some 5%nat) mode_chr 0 259)];
     File (entry_at 2 [98] (Some 0%nat) mode_file 1000 0) 1;
     File (entry_at 3 [97] (Some 0%nat) mode_file 1000 0) 1;
     File (entry_at 4 [100] (Some 0%nat) mode_file 1000 0) 3].

Definition finalize (first_file : Z) : checked (Z * file_numbers) :=
  Ok (first_file + 3, FileNumbers {[1%nat := first_file; 2%nat := first_file + 1; 3%nat := first_file + 2]} {[1%nat := 0; 2%nat := 1; 3%nat := 1]} 1).

Definition files : FileChunks.metadata := FileChunks.Metadata [MetaChunk 0 0 5; MetaChunk 0 5 7; MetaChunk 1 0 9] [0; 1; 3] 4096 None None.

Definition contents (data : nat) : list chunk := if Nat.eqb data 1 then [Chunk 0 0 5] else [Chunk 0 5 7; Chunk 1 0 9].

(** Everything is packed, and everybody loses the right to write. *)
Definition options : writer_options :=
  WriterOptions (Some 42) None true true true false true true true false false false false 2 [fun p _ => Some (Z.land p 0x16D)].

Definition reader_options : metadata_options := MetadataOptions true false false 512 None None.

Lemma entries_forall (P : entry -> Prop) : Forall P (preorder root) -> forall n, n ∈ preorder root -> P n.
Proof. intros H n Hn. rewrite Forall_forall in H. by apply H. Qed.

Lemma root_ok : tree_ok root.
Proof.
  split.
  - by eexists _, _.
  - by apply (bool_decide_unpack _); vm_compute.
  - intros e es c Hd Hc. pose proof (entries_forall (fun n => match n with Dir e es => Forall (fun c => e_parent (head c) = Some (e_id e)) es | _ => True end)
      ltac:(repeat constructor) _ Hd) as H. cbn in H. rewrite Forall_forall in H. by apply H.
  - apply entries_forall. repeat constructor.
  - intros e es Hd. apply (entries_forall (fun n => match n with Dir e es => NoDup (map ename es) /\ Forall (fun c => name_ok (ename c)) es | _ => True end)
      ltac:(unfold name_ok, is_byte; repeat (apply List.Forall_cons; [first [exact I|apply (bool_decide_unpack _); vm_compute; exact I]|]); constructor) _ Hd).
  - intros e e' data H1 H2.
    apply (entries_forall (fun n => forall e data, n = File e data -> e_stat e = EntryStat mode_file 1000 100 0) ltac:(repeat constructor; by intros ? ? [= <- <-])) with (e := e) (data := data) in H1; [|done].
    apply (entries_forall (fun n => forall e data, n = File e data -> e_stat e = EntryStat mode_file 1000 100 0) ltac:(repeat constructor; by intros ? ? [= <- <-])) with (e := e') (data := data) in H2; [|done].
    congruence.
  - intros e target Hn. by apply (entries_forall (fun n => forall e target, n = Link e target -> target <> []) ltac:(repeat constructor; by intros ? ? [= <- <-]) _ Hn e target).
  - done.
  - done.
Qed.

Lemma file_cases e data : File e data ∈ preorder root -> data = 1%nat \/ data = 2%nat \/ data = 3%nat.
Proof.
  intros H. by apply (entries_forall (fun n => forall e data, n = File e data -> data = 1%nat \/ data = 2%nat \/ data = 3%nat)
    ltac:(repeat (apply List.Forall_cons; [intros ? ? [= <- <-]; tauto|]); constructor) _ H e data).
Qed.

Lemma some_file data : data = 1%nat \/ data = 2%nat \/ data = 3%nat -> exists e, File e data ∈ preorder root.
Proof.
  intros H. destruct H as [->|[->| ->]]; eexists; apply list_elem_of_lookup; [exists 6%nat|exists 1%nat|exists 8%nat]; reflexivity.
Qed.

#[local] Instance finalizes_files : FinalizesFiles root finalize.
Proof.
  constructor. intros first _ _. eexists _, _. split; [done|]. split; cbn [file_inode_nums unique_file_ids num_unique].
  - intros e data Hn. destruct (file_cases e data Hn) as [->|[->| ->]]; eexists; (split; [reflexivity|lia]).
  - intros num Hnum. assert (num = first \/ num = first + 1 \/ num = first + 2) as [->|[->| ->]] by lia.
    + destruct (some_file 1) as [e He]; [tauto|]. by exists e, 1%nat.
    + destruct (some_file 2) as [e He]; [tauto|]. by exists e, 2%nat.
    + destruct (some_file 3) as [e He]; [tauto|]. by exists e, 3%nat.
  - intros data data' num H1 H2. repeat (apply lookup_insert_Some in H1 as [[<- <-]|[_ H1]] || apply lookup_singleton_Some in H1 as [<- <-]);
      repeat (apply lookup_insert_Some in H2 as [[<- ?]|[_ H2]] || apply lookup_singleton_Some in H2 as [<- ?]); done || lia.
  - lia.
  - lia.
  - exists [2%nat]. split; [repeat constructor|]. split; [change (zlen (shared_list [2%nat])) with 2; lia|]. intros e data num Hn Hnum.
    destruct (file_cases e data Hn) as [->|[->| ->]];
      [change (Some first = Some num) in Hnum|change (Some (first + 1) = Some num) in Hnum|change (Some (first + 2) = Some num) in Hnum];
      injection Hnum as <-; (eexists; split; [reflexivity|]).
    + destruct (Z.ltb_spec (first - first) 1); lia.
    + destruct (Z.ltb_spec (first + 1 - first) 1); [lia|]. by replace (Z.to_nat (first + 1 - first - 1)) with 0%nat by lia.
    + destruct (Z.ltb_spec (first + 2 - first) 1); [lia|]. by replace (Z.to_nat (first + 2 - first - 1)) with 1%nat by lia.
Qed.

Lemma sample_packable : packable root options finalize files contents.
Proof.
  split.
  - apply root_ok.
  - constructor; [|constructor]. intros p d q Hpq [= <-]. split; [apply Z.land_nonneg; lia|]. etrans; [apply land_le_r; done|done].
  - apply _.
  - split; [|done]. repeat (apply List.Forall_cons; [split; done|]). constructor.
  - intros dev fn e data u [= <- <-] Hn Hu. cbn [unique_file_ids] in Hu.
    destruct (file_cases e data Hn) as [->|[->| ->]]; injection Hu as <-; (split; [eexists; split; reflexivity|reflexivity]).
  - intros e data Hn. by destruct (file_cases e data Hn) as [->|[->| ->]].
Qed.

#[local] Abbreviation opened_sample := (mounts (decoder := unit) Escapes.create Escapes.export Escapes.compress Escapes.import (fun _ => 0) 20 root options finalize files reader_options 1).

Lemma sample_mounts : exists d, opened_sample d.
Proof.
  destruct (mounts_mounted Escapes.create Escapes.export Escapes.compress Escapes.import Escapes.expand (fun _ => 0) 20 root options finalize files contents reader_options 1
    sample_packable eq_refl) as (a & g & groups & meta & d & Hd & _); [lia|done|]. by exists d.
Qed.

(** [/sub/l] and [/b]. *)
Definition path_l : list (list Z) := [[115; 117; 98]; [108]].
Definition path_b : list (list Z) := [[98]].
Definition path_a : list (list Z) := [[97]].

Lemma good_names : Forall good_name path_l /\ Forall good_name path_b /\ Forall good_name path_a.
Proof. unfold good_name. split_and!; apply (bool_decide_unpack _); vm_compute; exact I. Qed.
End Sample.

(** The file [/b], which has a hard link, has the chunk of its contents, two
    links, and no right to write. *)
Lemma tree_roundtrip_witness : exists d iv st, mounts (decoder := unit) Escapes.create Escapes.export Escapes.compress Escapes.import (fun _ => 0) 20 Sample.root Sample.options
    Sample.finalize Sample.files Sample.reader_options 1 d /\ getattr Escapes.expand d iv false = Ok st /\
  st_mode st = 0x8124 /\ st_size st = 5 /\ st_uid st = 42 /\ st_nlink st = 2 /\
  exists ino range, open_file d iv = Ok (Some ino) /\ get_chunks d (ino + 1) = Ok (Some range) /\ chunks_of_range d range = Ok [Chunk 0 0 5].
Proof.
  destruct (tree_roundtrip Escapes.create Escapes.export Escapes.compress Escapes.import Escapes.expand (fun _ => 0) 20 Sample.root Sample.options Sample.finalize
    Sample.files Sample.contents Sample.reader_options 1 Sample.sample_packable eq_refl) as (d & Hd & H); [lia|vm_compute; discriminate|].
  destruct (H Sample.path_b (proj1 (proj2 Sample.good_names))) as (dv & iv & st & _ & _ & Hst & Est & Hc). exists d, iv, st.
  split; [exact Hd|]. split; [exact Hst|]. rewrite Est. split; [reflexivity|]. split; [reflexivity|]. split; [reflexivity|]. split; [reflexivity|]. exact Hc.
Defined.

Lemma tree_readdir_witness : exists d dir v, mounts (decoder := unit) Escapes.create Escapes.export Escapes.compress Escapes.import (fun _ => 0) 20 Sample.root Sample.options
    Sample.finalize Sample.files Sample.reader_options 1 d /\ readdir d dir 3 = Ok (Some v) /\ dv_name Escapes.expand (global_ d) v = Ok [98] /\ readdir d dir 7 = Ok None.
Proof.
  destruct Sample.sample_mounts as [d Hd].
  destruct (tree_readdir Escapes.create Escapes.export Escapes.compress Escapes.import Escapes.expand (fun _ => 0) 20 Sample.root Sample.options Sample.finalize
    Sample.files Sample.contents Sample.reader_options 1 Sample.sample_packable eq_refl) with (d := d) (names := @nil (list Z)) (e := head Sample.root) (es := children Sample.root)
    as (dv & iv & dir & v0 & v1 & vp & _ & _ & _ & _ & _ & H); [lia|vm_compute; discriminate|exact Hd|constructor|reflexivity|].
  destruct (H 1%nat) as (v & Hv & Hn & _). exists d, dir, v. split; [exact Hd|]. split; [exact Hv|]. split; [exact Hn|]. exact (H 5%nat).
Defined.

Lemma tree_path_witness : exists d dv, mounts (decoder := unit) Escapes.create Escapes.export Escapes.compress Escapes.import (fun _ => 0) 20 Sample.root Sample.options
    Sample.finalize Sample.files Sample.reader_options 1 d /\ find_path Escapes.expand d [47; 115; 117; 98; 47; 108] = Ok (Some dv) /\
    dv_path Escapes.expand 3 (global_ d) dv = Ok [[115; 117; 98]; [108]].
Proof.
  destruct Sample.sample_mounts as [d Hd].
  destruct (tree_path Escapes.create Escapes.export Escapes.compress Escapes.import Escapes.expand (fun _ => 0) 20 Sample.root Sample.options Sample.finalize
    Sample.files Sample.contents Sample.reader_options 1 Sample.sample_packable eq_refl) with (d := d) (names := Sample.path_l) (k := 3%nat)
    (n := Link (Sample.entry_at 6 [108] (Some 5%nat) Sample.mode_link 1000 0) [120]) as (dv & Hf & Hp);
    [lia|vm_compute; discriminate|exact Hd|apply Sample.good_names|reflexivity|cbn; lia|]. exists d, dv. split; [exact Hd|]. split; [exact Hf|exact Hp].
Defined.

Lemma tree_hardlinks_witness : exists d iv iv', mounts (decoder := unit) Escapes.create Escapes.export Escapes.compress Escapes.import (fun _ => 0) 20 Sample.root Sample.options
    Sample.finalize Sample.files Sample.reader_options 1 d /\ iv_inode_num iv = iv_inode_num iv'.
Proof.
  destruct Sample.sample_mounts as [d Hd].
  destruct (tree_hardlinks Escapes.create Escapes.export Escapes.compress Escapes.import Escapes.expand (fun _ => 0) 20 Sample.root Sample.options Sample.finalize
    Sample.files Sample.contents Sample.reader_options 1 Sample.sample_packable eq_refl) with (d := d) (names := Sample.path_b) (names' := Sample.path_a)
    (n := File (Sample.entry_at 2 [98] (Some 0%nat) Sample.mode_file 1000 0) 1) (m := File (Sample.entry_at 3 [97] (Some 0%nat) Sample.mode_file 1000 0) 1)
    as (dv & dv' & iv & iv' & _ & _ & _ & _ & Heq); [lia|vm_compute; discriminate|exact Hd|apply Sample.good_names|apply Sample.good_names|reflexivity|reflexivity|].
  exists d, iv, iv'. split; [exact Hd|]. apply Heq. right. eexists _, _, _. split; reflexivity.
Defined.
