(* ===== verification/CheckedTables.v ===== *)
(** * CheckedTables: the tables that are written pass the checks

    [check_metadata] of [src/reader/internal/metadata_types.cpp] on the metadata
    that [metadata_builder] of [src/writer/internal/metadata_builder.cpp] makes of a
    tree of entries: none of its checks fails. *)

From S2P Require Import Prelude FileChunks PackedInts StringTable Metadata MetadataReader MetadataSafety EntryTree MetadataBuilder EntryLists TreeTables EntryData EntryTables GatheredMetadata BuiltMetadata RecoveredDirectories OpenedTree DirectoryTree.
Local Open Scope Z_scope.

#[local] Abbreviation checked := (result metadata_error).

(** ** Checks that pass *)

Lemma check_that_true (b : bool) what : b = true -> check_that b what = Ok tt.
Proof. by intros ->. Qed.

Lemma for_each_pass {A} (f : A -> checked unit) l : (forall x, x ∈ l -> f x = Ok tt) -> for_each f l = Ok tt.
Proof.
  induction l as [|x l IH]; intros H; [done|]. cbn [for_each]. rewrite H by left. apply IH. intros y Hy. apply H. by right.
Qed.

Lemma for_each_index_pass {A} (f : Z -> A -> checked unit) l i : (forall k x, l !! k = Some x -> f (i + Z.of_nat k) x = Ok tt) -> for_each_index i f l = Ok tt.
Proof.
  revert i. induction l as [|x l IH]; intros i H; [done|]. cbn [for_each_index]. pose proof (H O x eq_refl) as H0. rewrite Z.add_0_r in H0. rewrite H0. apply IH.
  intros k y Hk. specialize (H (S k) y Hk). by replace (i + 1 + Z.of_nat k) with (i + Z.of_nat (S k)) by lia.
Qed.

(** One check after the other: leaves the conditions. *)
Ltac pass := rewrite (check_that_true _ _); [cbn [rbind]|].

(** ** Lists *)

Lemma is_sorted_StronglySorted l : StronglySorted Z.le l -> is_sorted l = true.
Proof.
  induction 1 as [|x l _ IH Hx]; [done|]. destruct l as [|y l]; [done|]. rewrite is_sorted_cons.
  rewrite IH, andb_true_r. apply Forall_cons in Hx as [? _]. lia.
Qed.

Lemma is_sorted_lookup l : (forall i x y, l !! i = Some x -> l !! S i = Some y -> x <= y) -> is_sorted l = true.
Proof.
  induction l as [|x [|y l] IH]; intros H; [done|done|]. rewrite is_sorted_cons.
  apply andb_true_iff. split; [pose proof (H O x y eq_refl eq_refl); lia|]. apply IH. intros i u v Hu Hv. by apply (H (S i)).
Qed.

Lemma max_element_attained l b : 0 <= b -> Forall (fun x => x <= b) l -> b ∈ l -> max_element l = b.
Proof.
  intros Hb Hl Hin. pose proof (max_element_le l b Hin). pose proof (max_element_lt l b Hb Hl). lia.
Qed.

Lemma accumulate_sizes out : accumulate (map zlen out) 0 = total_bytes out.
Proof. done. Qed.

Lemma accumulate_differences l p z : is_sorted (p :: l) = true -> Forall (in_u 32) (p :: l) -> last (p :: l) = Some z ->
  accumulate (adjacent_difference_from p l) p = z.
Proof.
  revert p. induction l as [|x l IH]; intros p Hs Hu Hz; [by injection Hz as <-|]. cbn [adjacent_difference_from].
  rewrite is_sorted_cons in Hs. apply andb_true_iff in Hs as [Hpx Hs]. apply Z.leb_le in Hpx.
  apply Forall_cons in Hu as [Hp Hu]. pose proof (proj1 (proj1 (Forall_cons _ _ _) Hu)) as Hx. unfold in_u in *.
  unfold accumulate in *. cbn [foldl]. rewrite wrapu_small by (unfold in_u; lia). replace (p + (x - p)) with x by lia. by apply IH.
Qed.

Lemma accumulate_difference l z : is_sorted l = true -> Forall (in_u 32) l -> last l = Some z -> accumulate (adjacent_difference l) 0 = z.
Proof.
  intros Hs Hu Hz. destruct l as [|x l]; [done|]. apply accumulate_differences.
  - rewrite is_sorted_cons. apply andb_true_iff. split; [|done]. apply Forall_cons in Hu as [[? _] _]. lia.
  - constructor; [by split|done].
  - done.
Qed.

(** ** The tables of strings *)

Lemma offsets_last out base : last (offsets base out) = Some (base + total_bytes out).
Proof.
  revert base. induction out as [|s out IH]; intros base; cbn [offsets]; [cbn; f_equal; lia|].
  rewrite last_cons, IH, total_bytes_cons. f_equal. lia.
Qed.

Lemma offsets_sorted out base : is_sorted (offsets base out) = true.
Proof.
  revert base. induction out as [|s out IH]; intros base; [done|]. cbn [offsets]. specialize (IH (base + zlen s)). destruct out as [|s' out].
  - cbn. pose proof (zlen_nonneg s). lia.
  - cbn [offsets] in *. rewrite is_sorted_cons, IH, andb_true_r. pose proof (zlen_nonneg s). lia.
Qed.

Lemma offsets_gap out base b : 0 <= b -> Forall (fun s => zlen s <= b) out -> 0 <= longest_gap (offsets base out) <= b.
Proof.
  intros Hb. revert base. induction out as [|s out IH]; intros base H; [done|]. apply Forall_cons in H as [Hs H]. specialize (IH (base + zlen s) H).
  cbn [offsets]. pose proof (zlen_nonneg s). destruct out as [|s' out]; [cbn; lia|]. cbn [offsets longest_gap] in *. lia.
Qed.

Lemma check_compact_pass options v strings b : packed_shape options v strings -> 0 <= b ->
  Forall (fun s => zlen s <= b) strings -> (pack_data options = true -> Forall (fun s => 2 * zlen s <= b) strings) ->
  check_compact_strings v (zlen strings) b = Ok tt.
Proof.
  intros (out & Hsz & Hpd & Htot & Hbuf & Hix) Hb Hfit Hfit2. pose proof (Forall2_length _ _ _ Hsz) as Hlen.
  assert (Forall (fun c => zlen c <= b) out) as Hout.
  { destruct (pack_data options); [|by rewrite Hpd]. specialize (Hfit2 eq_refl). apply Forall_forall. intros c Hc. apply list_elem_of_lookup in Hc as [i Hi].
    destruct (Forall2_lookup_l _ _ _ _ _ Hsz Hi) as (s & Hs & Hcs). pose proof (Forall_lookup_1 _ _ _ _ Hfit2 Hs) as H. cbn in H. lia. }
  assert (zlen (concat out) = total_bytes out) as Hcat by apply total_bytes_concat. unfold check_compact_strings. rewrite Hbuf, Hix.
  destruct (st_packed_index v); cbn [negb andb].
  - pass; [|rewrite zlen_map; apply Z.eqb_eq; unfold zlen; lia]. destruct (map zlen out) as [|n ns] eqn:E.
    + apply map_eq_nil in E as ->. cbn [rbind]. pass; [pass; [done|lia]|done].
    + cbn [rbind]. rewrite <- E, accumulate_sizes, Hcat. pass; [|apply Z.eqb_refl]. pass; [done|].
      enough (max_element (map zlen out) <= b) by lia. apply max_element_lt; [done|]. by apply Forall_map.
  - rewrite offsets_length. replace (0 <? zlen out + 1) with true by (pose proof (zlen_nonneg out); lia). pass; [|apply Z.eqb_eq; unfold zlen; lia].
    assert (exists x l, offsets 0 out = x :: l /\ x = 0) as (x & l & E & ->) by (destruct out; by eexists _, _). rewrite E, <- E.
    cbv iota. rewrite Z.eqb_refl. cbn [check_that rbind]. pass; [|apply offsets_sorted]. rewrite offsets_last. cbn [there rbind]. rewrite Hcat, Z.add_0_l.
    pass; [|apply Z.eqb_refl]. pass; [done|]. pose proof (offsets_gap out 0 b Hb Hout). lia.
Qed.

(** ** What the tree and the chunks have to be *)

(** Names are at most 255 bytes where the operating system limits them; what
    FSST makes of them may be twice as long. *)
Record strings_fit (t : entry) (options : writer_options) : Prop := {
  sf_names : forall n, n ∈ preorder t -> zlen (ename n) <= 256;
  sf_links : forall e target, Link e target ∈ preorder t -> zlen target <= if pack_symlinks options then 2048 else 4096
}.

(** A chunk lies in its block; a large hole has its size. *)
Definition chunk_fits (files : FileChunks.metadata) (c : meta_chunk) : Prop :=
  if bool_decide (md_hole_block_index files = Some (mc_block c)) then
    mc_offset c = kChunkOffsetIsLargeHole -> mc_size c < zlen (default [] (md_large_hole_size files))
  else 0 <= mc_offset c < md_block_size files /\ 0 <= mc_size c /\ mc_offset c + mc_size c <= md_block_size files.

(** The table of chunks has the places of all chunks. *)
Record files_fit (files : FileChunks.metadata) : Prop := {
  ff_sorted : is_sorted (md_chunk_table files) = true;
  ff_last : last (md_chunk_table files) = Some (zlen (md_chunks files));
  ff_block_size : exists k, 0 <= k < 32 /\ md_block_size files = 2 ^ k;
  ff_large : is_Some (md_hole_block_index files) -> is_Some (md_large_hole_size files);
  ff_chunks : forall c, c ∈ md_chunks files -> chunk_fits files c
}.

Section tables.
Context (t : entry) (Ht : tree_ok t) (a : assigned) (Ha : numbered t a) (options : writer_options) (g : global_entry_data).
Context (Hg : entry_data_ok options (preorder t) g) (Hc : chain_ok (chmod_chain options)).
Context {decoder : Type} (fsst_import : list Z -> Z * decoder) (fsst_decompress : decoder -> list Z -> Z -> list Z).
Context (files : FileChunks.metadata) (groups : list nat) (meta : fs_metadata).
Context (Hbuilt : built t a options g fsst_import fsst_decompress files groups meta).
Context (Hgroups : Forall (fun n => (2 <= n)%nat) groups)
  (Hshared : zlen (shared_list groups) = first_device_inode a - first_file_inode a - num_unique (as_files a)).
Context (Hfits : table_fits files) (Hfiles : files_fit files) (Hcount : zlen (md_chunk_table files) = num_unique (as_files a) + zlen groups + 1) (Hstrings : strings_fit t options).

#[local] Abbreviation entries := (map (expected_entry g a) (entries_of t)).

Lemma the_entries : md_dir_entries meta = Some entries.
Proof. apply Hbuilt. Qed.

Lemma entries_length : zlen entries = zlen (entries_of t).
Proof. apply zlen_map. Qed.

Lemma entries_size : zlen (entries_of t) = zlen (preorder t).
Proof. unfold zlen. f_equal. apply Permutation_length, entries_preorder. Qed.

Lemma entries_positive : 0 < zlen (entries_of t).
Proof. unfold entries_of, zlen. cbn [length]. lia. Qed.

Lemma inodes_length : zlen (md_inodes meta) = last_inode a.
Proof. apply Hbuilt. Qed.

(** An inode is that of an entry. *)
Lemma inode_of i ino : md_inodes meta !! i = Some ino -> exists n, n ∈ preorder t /\ num_of a n = Some (Z.of_nat i) /\ shows options meta n ino.
Proof.
  intros Hi. pose proof (lookup_zlen _ _ _ Hi) as Hlt. rewrite inodes_length in Hlt. destruct (num_onto t a Ha (Z.of_nat i) Hlt) as (n & Hn & Ex).
  destruct (ds_inodes _ _ _ _ _ (bt_described _ _ _ _ _ _ _ _ _ Hbuilt) n _ Hn Ex) as (ino' & Hino & Hs). rewrite Nat2Z.id, Hi in Hino. injection Hino as <-. by exists n.
Qed.

Lemma empty_tables_pass : check_empty_tables meta = Ok tt.
Proof.
  pose proof (some_inode t a Ha) as Hpos. unfold check_empty_tables. rewrite the_entries, inodes_length.
  pass; [|lia]. pass; [|rewrite (bt_directories _ _ _ _ _ _ _ _ _ Hbuilt); apply Z.ltb_lt; pose proof (dirs_of_positive t Ht); pose proof (expected_dirs_length t) as Hdl;
    destruct (pack_directories options); unfold zlen in *; rewrite ?pack_directories_length; lia].
  pass. 2: { rewrite (bt_files _ _ _ _ _ _ _ _ _ Hbuilt). cbn [md_chunk_table]. pose proof (zlen_nonneg groups). pose proof (fn_unique _ _ _ _ (nb_files _ _ Ha)).
    apply Z.ltb_lt. destruct (pack_chunk_table options); [unfold zlen in *; rewrite length_adjacent_difference|]; lia. }
  pass; [|rewrite entries_length; pose proof entries_positive; lia].
  apply check_that_true. destruct (md_inodes meta) as [|ino l] eqn:E; [pose proof inodes_length as H; rewrite E in H; change (zlen []) with 0 in H; lia|].
  destruct (inode_of O ino) as (n & _ & _ & [[H0 Hm] _ _]); [by rewrite E|]. apply lookup_zlen in Hm. lia.
Qed.

(** *** Indices *)

Lemma inode_ranges_pass ino : ino ∈ md_inodes meta -> check_inode_ranges meta false ino = Ok tt.
Proof.
  intros [i Hi]%list_elem_of_lookup. destruct (inode_of i ino Hi) as (n & _ & _ & [[M0 M] [U0 U] [G0 G]]). unfold check_inode_ranges.
  apply lookup_zlen in M, U, G. pass; [|lia]. pass; [|lia]. pass; [|lia]. done.
Qed.

Lemma names_count : zlen (get_vector (ge_names g)) <= zlen (entries_of t).
Proof.
  rewrite get_vector_zlen, entries_size. destruct Hg as [_ [_ [_ H]] _]. exact H.
Qed.

Lemma name_index_range n : n ∈ preorder t -> name_index_of g n = 0 \/ (0 <= name_index_of g n < zlen (get_vector (ge_names g)) /\ has_parent (head n) = true).
Proof.
  intros Hn. unfold name_index_of. destruct (has_parent (head n)) eqn:E; [|by left]. right. split; [|done]. destruct Hg as [_ [He [Hk _]] _].
  destruct (get_vector_index (ge_names g) (ename n) He) as (i & Ei & _ & Ri).
  { apply Hk. exists n. split; [done|]. unfold name_key. replace (wants_name n) with true; [done|]. destruct n; [done| |done|done]. by cbn in *. }
  rewrite Ei, get_vector_zlen. exact Ri.
Qed.

Lemma number_of_names_ok : number_of_names meta = Ok (zlen (get_vector (ge_names g))).
Proof.
  pose proof (bt_stored_names _ _ _ _ _ _ _ _ _ Hbuilt) as Hs. unfold number_of_names, stores in *. destruct (md_compact_names meta) as [v|]; [|by rewrite Hs].
  destruct Hs as (_ & out & Hsz & _ & _ & _ & Hix). pose proof (Forall2_length _ _ _ Hsz) as Hlen. rewrite Hix. destruct (st_packed_index v).
  - rewrite zlen_map. f_equal. unfold zlen. lia.
  - rewrite offsets_length. pass; [f_equal; unfold zlen; lia|]. pose proof (zlen_nonneg out). lia.
Qed.

Lemma index_range_pass : check_index_range meta = Ok tt.
Proof.
  destruct (bt_counts _ _ _ _ _ _ _ _ _ Hbuilt) as (Hm & Hu & Hgi). pose proof (offsets_bound t Ht a Ha) as Hb. pose proof (to_size _ Ht) as Hsize.
  pose proof entries_size as Hes. pose proof (nb_bound _ _ Ha) as Hnb. unfold check_index_range. rewrite the_entries, inodes_length, entries_length.
  pass; [|lia]. pass; [|lia]. pass; [|lia]. pass.
  2: { pose proof (bt_stored_names _ _ _ _ _ _ _ _ _ Hbuilt) as Hs. pose proof names_count. unfold stores in Hs. destruct (md_compact_names meta) as [v|]; [|rewrite Hs; lia].
    destruct Hs as [-> _]. change (zlen []) with 0. pose proof entries_positive. lia. }
  pass; [|lia]. rewrite for_each_pass by apply inode_ranges_pass. cbn [rbind]. pass; [|unfold UINT32_MAX; lia]. rewrite number_of_names_ok. cbn [rbind].
  apply for_each_pass. intros de Hde. apply list_elem_of_fmap in Hde as (n & -> & Hn). apply elem_of_entries in Hn. cbn [name_index inode_num expected_entry].
  pass. 2: { destruct (name_index_range n Hn) as [->|[H _]]; [by rewrite orb_true_r|]. apply orb_true_iff. left. lia. }
  apply check_that_true. destruct (num_range t a Ha n Hn) as (x & Ex & _). rewrite Ex. cbn. pose proof (num_bounds t a Ha n x Hn Ex). lia.
Qed.

(** *** Directories and chunks *)

Lemma first_of_mono j k : (j <= k)%nat -> first_of t j <= first_of t k.
Proof.
  intros H. unfold first_of. replace k with (j + (k - j))%nat by lia. rewrite <- take_take_drop, map_app, concat_app, zlen_app.
  pose proof (zlen_nonneg (concat (map snd (take (k - j) (drop j (dirs_of t)))))). lia.
Qed.

(** A directory that is not the root is an entry of another one before it. *)
Lemma dir_child_pos k e es : dirs_of t !! k = Some (e, es) -> (k = O /\ Dir e es = t) \/
  exists j d, (j < k)%nat /\ dirs_of t !! j = Some d /\ parent_pos t e = entry_pos t (e_id d.1) /\ first_of t j <= entry_pos t (e_id e) < first_of t (S j).
Proof.
  intros Hk. destruct (dirs_of_parent t k e es Hk) as [[-> ->]|(j & [e' es'] & Hj & Hd & Hin)]; [by left|]. right. exists j, (e', es'). cbn [fst snd] in *.
  split; [done|]. split; [done|]. destruct (child_parent t Ht j e' es' _ Hd Hin) as [_ Hp]. cbn [head] in Hp. split; [unfold parent_pos; by rewrite Hp|].
  apply list_elem_of_lookup in Hin as [i Hi]. pose proof (child_lookup t j _ i _ Hd Hi) as Hl. apply (entry_pos_lookup t Ht) in Hl. cbn [eid head] in Hl. unfold eid in Hl. cbn [head] in Hl. rewrite Hl.
  rewrite (first_of_next t j _ Hd). cbn [snd]. pose proof (lookup_zlen _ _ _ Hi). pose proof (first_of_bounds t Ht j). lia.
Qed.

Lemma dir_before_children k e es : dirs_of t !! k = Some (e, es) -> 0 <= entry_pos t (e_id e) < first_of t k.
Proof.
  intros Hk. destruct (dir_child_pos k e es Hk) as [[-> E]|(j & d & Hj & Hd & _ & Hpos)].
  - pose proof (pos_of_root t Ht) as H. unfold pos_of in H. assert (eid t = e_id e) as <- by (by rewrite <- E). rewrite H. change (first_of t 0) with 1. lia.
  - pose proof (first_of_mono (S j) k ltac:(lia)). pose proof (first_of_bounds t Ht j). lia.
Qed.

Lemma parent_before k e es : dirs_of t !! k = Some (e, es) -> k <> O -> 0 <= parent_pos t e < entry_pos t (e_id e).
Proof.
  intros Hk Hne. destruct (dir_child_pos k e es Hk) as [[? _]|(j & [e' es'] & Hj & Hd & Hp & Hpos)]; [done|]. rewrite Hp. pose proof (dir_before_children j e' es' Hd). cbn [fst] in *. lia.
Qed.

Lemma root_dir_at d : dirs_of t !! O = Some d -> dir_at t O d = Directory 0 1 0.
Proof.
  intros Hd. destruct (to_root _ Ht) as (e & es & Et & Hr). unfold dirs_of in Hd. rewrite preorder_eq, Et in Hd. cbn in Hd. injection Hd as <-.
  pose proof (pos_of_root t Ht) as H. unfold pos_of in H. unfold dir_at, parent_pos. cbn [fst]. rewrite Hr. assert (eid t = e_id e) as <- by (by rewrite Et). by rewrite H.
Qed.

Lemma first_of_le k : first_of t k <= zlen (entries_of t).
Proof.
  etrans; [apply (first_of_mono k (Nat.max k (length (dirs_of t)))); lia|]. unfold first_of, entries_of. rewrite take_ge by lia. unfold zlen. cbn [length]. lia.
Qed.

Lemma expected_dir_cases i d : expected_dirs t !! i = Some d ->
  (exists e es, dirs_of t !! i = Some (e, es) /\ d = dir_at t i (e, es)) \/ (Z.of_nat i = zlen (dirs_of t) /\ d = Directory 0 (zlen (entries_of t)) 0).
Proof.
  unfold expected_dirs. intros [H|[Hge H]]%lookup_app_Some.
  - left. rewrite list_lookup_imap in H. destruct (dirs_of t !! i) as [[e es]|] eqn:E; [|done]. injection H as <-. by exists e, es.
  - right. rewrite length_imap in *. apply list_lookup_singleton_Some in H as [H <-]. split; [unfold zlen; lia|done].
Qed.

Lemma check_directory_pass i d has_self : expected_dirs t !! i = Some d -> check_directory meta (zlen (entries_of t)) (zlen (dirs_of t) + 1) has_self (Z.of_nat i) d = Ok tt.
Proof.
  intros Hi. pose proof entries_positive as Hpos. unfold check_directory.
  destruct (expected_dir_cases i d Hi) as [(e & es & Hd & ->)|[Ei ->]].
  - pose proof (lookup_zlen _ _ _ Hd) as Hlt. pose proof (first_of_le i) as Hle. pose proof (dir_before_children i e es Hd) as Hs. destruct i as [|i].
    + rewrite (root_dir_at _ Hd). cbn [first_entry parent_entry self_entry Z.of_nat]. pass; [|lia]. pass; [|lia]. pass; [|lia]. pass; [|done]. cbn [Z.eqb orb]. pass; [|done].
      apply check_that_true. by rewrite andb_false_r.
    + pose proof (parent_before (S i) e es Hd ltac:(lia)) as Hp. cbn [dir_at first_entry parent_entry self_entry fst]. pass; [|lia]. pass; [|lia]. pass; [|lia]. pass; [|lia].
      assert ((Z.of_nat (S i) =? 0) || (Z.of_nat (S i) =? zlen (dirs_of t) + 1 - 1) = false) as -> by (apply orb_false_iff; split; apply Z.eqb_neq; lia). destruct has_self; [|done]. pass; [|lia]. apply check_that_true. lia.
  - cbn [first_entry parent_entry self_entry]. pass; [|lia]. pass; [|lia]. pass; [|lia]. pass; [|lia].
    assert ((Z.of_nat i =? 0) || (Z.of_nat i =? zlen (dirs_of t) + 1 - 1) = true) as -> by (apply orb_true_iff; right; apply Z.eqb_eq; lia). pass; [|done]. apply check_that_true. by rewrite andb_false_r.
Qed.

Lemma expected_sorted : is_sorted (map first_entry (expected_dirs t)) = true.
Proof.
  apply is_sorted_lookup. intros i x y Hx Hy. apply list_lookup_fmap_Some in Hx as (dx & -> & Hdx). apply list_lookup_fmap_Some in Hy as (dy & -> & Hdy).
  pose proof (lookup_lt_Some _ _ _ Hdy) as Hlt. pose proof (expected_dirs_length t) as Hl. unfold zlen in Hl.
  destruct (expected_first t i) as (d1 & H1 & E1); [lia|]. destruct (expected_first t (S i)) as (d2 & H2 & E2); [lia|]. rewrite Hdx in H1. rewrite Hdy in H2.
  injection H1 as <-. injection H2 as <-. rewrite E1, E2. apply first_of_mono. lia.
Qed.

Lemma expected_last : last (map first_entry (expected_dirs t)) = Some (zlen (entries_of t)).
Proof. unfold expected_dirs. rewrite map_app. cbn [map first_entry]. by rewrite last_snoc. Qed.

Lemma packed_zero last_first dirs : forallb (fun d => parent_entry d =? 0) (pack_directories_from last_first dirs) = true /\
  forallb (fun d => self_entry d =? 0) (pack_directories_from last_first dirs) = true.
Proof. revert last_first. induction dirs as [|d dirs IH]; intros last_first; [done|]. apply IH. Qed.

Lemma directories_pass : (if opt_flag packed_directories meta then
     check_that (forallb (fun d => parent_entry d =? 0) (md_directories meta)) "parent_entry set in packed directory" ;;?
     check_that (forallb (fun d => self_entry d =? 0) (md_directories meta)) "self_entry set in packed directory" ;;?
     let? de := there (Some entries) in
     check_that (accumulate (map first_entry (md_directories meta)) 0 =? zlen de) "first_entry inconsistency in packed directories"
   else
     check_that (is_sorted (map first_entry (md_directories meta))) "first_entry values not sorted" ;;?
     for_each_index 0 (check_directory meta (zlen (entries_of t)) (zlen (dirs_of t) + 1) (dir_has_self_entry meta)) (md_directories meta)) = Ok tt.
Proof.
  unfold opt_flag. rewrite (bt_options _ _ _ _ _ _ _ _ _ Hbuilt). cbn [packed_directories]. rewrite (bt_directories _ _ _ _ _ _ _ _ _ Hbuilt). destruct (pack_directories options).
  - destruct (packed_zero 0 (expected_dirs t)) as [Z1 Z2]. pass; [|done]. pass; [|done]. cbn [there rbind]. apply check_that_true.
    rewrite pack_directories_first, entries_length. apply Z.eqb_eq. apply (accumulate_difference (map first_entry (expected_dirs t)));
      [apply expected_sorted|apply (expected_firsts t Ht)|apply expected_last].
  - pass; [|apply expected_sorted]. apply for_each_index_pass. intros k d Hd. rewrite Z.add_0_l. by apply check_directory_pass.
Qed.

Lemma chunk_table_pass table : table = (if pack_chunk_table options then adjacent_difference (md_chunk_table files) else md_chunk_table files) ->
  (if opt_flag packed_chunk_table meta then check_that (accumulate table 0 =? zlen (md_chunks files)) "packed chunk_table inconsistency"
   else
     check_that (is_sorted table) "chunk_table values not sorted" ;;?
     let? back := there (last table) in
     check_that (back =? zlen (md_chunks files)) "chunk_table end value mismatch") = Ok tt.
Proof.
  intros ->. unfold opt_flag. rewrite (bt_options _ _ _ _ _ _ _ _ _ Hbuilt). cbn [packed_chunk_table]. destruct Hfiles as [F1 F2 _ _ _]. destruct (pack_chunk_table options).
  - apply check_that_true, Z.eqb_eq, accumulate_difference; [done| |done]. destruct Hfits as [Hv Hbd]. eapply Forall_impl; [exact Hv|]. unfold in_u. cbn. lia.
  - pass; [|done]. rewrite F2. cbn [there rbind]. apply check_that_true, Z.eqb_refl.
Qed.

Lemma packed_tables_pass : check_packed_tables meta = Ok tt.
Proof.
  pose proof (offsets_bound t Ht a Ha) as Hb. pose proof (fn_unique _ _ _ _ (nb_files _ _ Ha)) as Hnu. pose proof (groups_bound groups Hgroups) as Hgb.
  pose proof (zlen_nonneg groups) as Hg0. pose proof (dirs_count t a Ha) as Hdc. pose proof (dirs_of_positive t Ht) as Hdp.
  pose proof (bt_directories _ _ _ _ _ _ _ _ _ Hbuilt) as Hdirs. pose proof (bt_files _ _ _ _ _ _ _ _ _ Hbuilt) as Hft.
  assert (zlen (md_directories meta) = zlen (dirs_of t) + 1) as Hdl.
  { rewrite Hdirs, <- expected_dirs_length. destruct (pack_directories options); [|done]. unfold zlen. by rewrite pack_directories_length. }
  assert (zlen (md_chunk_table (md_files meta)) = num_unique (as_files a) + zlen groups + 1) as Htl.
  { rewrite <- Hcount, Hft. cbn [md_chunk_table]. destruct (pack_chunk_table options); [|done]. unfold zlen. by rewrite length_adjacent_difference. }
  unfold check_packed_tables. rewrite inodes_length, the_entries, Hdl, Htl, entries_length. pass; [|lia]. pass; [|lia]. rewrite directories_pass. cbn [rbind].
  rewrite Hft. cbn [md_chunks]. by apply chunk_table_pass.
Qed.

(** *** Strings *)

Lemma named_child n : n ∈ preorder t -> wants_name n = true -> n ∈ concat (map snd (dirs_of t)) /\ has_parent (head n) = true.
Proof.
  intros Hn Hw. apply elem_of_entries in Hn. apply elem_of_cons in Hn as [->|Hn].
  - exfalso. destruct (to_root _ Ht) as (e & es & Et & Hr). rewrite Et in Hw. cbn in Hw. unfold has_parent in Hw. by rewrite Hr in Hw.
  - split; [done|]. apply elem_of_concat_map in Hn as ([e es] & Hd & Hn). apply list_elem_of_lookup in Hd as [k Hk].
    destruct (child_parent t Ht k e es n Hk Hn) as [_ Hp]. unfold has_parent. by rewrite Hp.
Qed.

Lemma child_wants_name n : n ∈ concat (map snd (dirs_of t)) -> n ∈ preorder t /\ wants_name n = true.
Proof.
  intros Hn. apply elem_of_concat_map in Hn as ([e es] & Hd & Hn). apply list_elem_of_lookup in Hd as [k Hk].
  destruct (child_parent t Ht k e es n Hk Hn) as [Hin Hp]. split; [done|]. destruct n as [| e' es' | |]; try done. cbn in *. unfold has_parent. by rewrite Hp.
Qed.

Lemma name_indices : (if 1 <? zlen entries then max_element (map name_index entries) + 1 else 0) = zlen (get_vector (ge_names g)).
Proof.
  rewrite entries_length. destruct Hg as [_ [He [Hk _]] _]. assert (zlen (entries_of t) = 1 + zlen (concat (map snd (dirs_of t)))) as -> by (unfold entries_of, zlen; cbn [length]; lia).
  destruct (concat (map snd (dirs_of t))) as [|c cs] eqn:Ec.
  - cbn. destruct (get_vector (ge_names g)) as [|s names] eqn:Ev; [done|]. exfalso.
    assert (get_vector (ge_names g) !! O = Some s) as Hs by (by rewrite Ev). apply get_vector_lookup in Hs; [|done].
    destruct (proj1 (Hk s)) as (n & Hn & Hf); [by eexists|]. unfold name_key in Hf. destruct (wants_name n) eqn:Ew; [|done].
    destruct (named_child n Hn Ew) as [Hin _]. rewrite Ec in Hin. by apply elem_of_nil in Hin.
  - assert ((1 <? 1 + zlen (c :: cs)) = true) as -> by (apply Z.ltb_lt; unfold zlen; cbn [length]; lia).
    destruct (child_wants_name c) as [Hc0 Hw0]; [rewrite Ec; by left|]. destruct (get_vector_index (ge_names g) (ename c) He) as (i0 & _ & _ & R0).
    { apply Hk. exists c. split; [done|]. unfold name_key. by rewrite Hw0. }
    rewrite get_vector_zlen. enough (max_element (map name_index entries) = count (ge_names g) - 1) by lia. apply max_element_attained; [lia| |].
    + apply Forall_map, Forall_map, Forall_forall. intros n Hn. apply elem_of_entries in Hn. cbn [name_index expected_entry].
      destruct (name_index_range n Hn) as [->|[H _]]; [lia|]. rewrite get_vector_zlen in H. lia.
    + assert (is_Some (get_vector (ge_names g) !! Z.to_nat (count (ge_names g) - 1))) as [s Hs].
      { apply lookup_lt_is_Some_2. pose proof (get_vector_zlen (ge_names g)) as H. unfold zlen in H. lia. }
      apply get_vector_lookup in Hs; [|done]. rewrite Z2Nat.id in Hs by lia. destruct (proj1 (Hk s)) as (n & Hn & Hf); [by eexists|].
      unfold name_key in Hf. destruct (wants_name n) eqn:Ew; [|done]. injection Hf as <-. destruct (named_child n Hn Ew) as [_ Hp].
      apply list_elem_of_fmap. exists (expected_entry g a n). split; [|apply list_elem_of_fmap; exists n; split; [done|by apply elem_of_entries]].
      cbn [name_index expected_entry]. unfold name_index_of. by rewrite Hp, Hs.
Qed.

Lemma link_of_kind n : kind n = INO_LNK -> exists e target, n = Link e target.
Proof. destruct n as [e data|e es|e target|e]; try done; [intros _; by exists e, target|]. cbn. by destruct (is_device_type e). Qed.

Lemma link_indices : (match md_symlink_table meta with [] => 0 | l => max_element l + 1 end) = zlen (get_vector (ge_symlinks g)).
Proof.
  destruct (bt_described _ _ _ _ _ _ _ _ _ Hbuilt) as [_ _ _ _ Hlen Hlinks _]. destruct Hg as [_ _ [He [Hk _]]].
  destruct (rank_values t a) as (_ & (V1 & V2) & _). assert (forall x, x ∈ md_symlink_table meta -> 0 <= x < count (ge_symlinks g)) as Hr.
  { intros x [i Hi]%list_elem_of_lookup. pose proof (lookup_zlen _ _ _ Hi) as Hlt. pose proof (offsets_bound t Ht a Ha) as Hb.
    destruct (num_onto t a Ha (first_link_inode a + Z.of_nat i)) as (n & Hn & Ex); [lia|]. destruct (num_range t a Ha n Hn) as (y & Ey & Ry). rewrite Ex in Ey. injection Ey as <-.
    assert (kind n = INO_LNK) as Hkind.
    { destruct (Z_lt_le_dec (kind n) INO_LNK) as [H|H]; [pose proof (rank_offset_mono t a Ha (kind n + 1) INO_LNK ltac:(lia)); lia|].
      destruct (Z_lt_le_dec INO_LNK (kind n)) as [H'|H']; [pose proof (rank_offset_mono t a Ha (INO_LNK + 1) (kind n) ltac:(lia)); lia|lia]. }
    destruct (link_of_kind n Hkind) as (e & target & ->). change (num_of a (Link e target)) with (as_nums a !! e_id e) in Ex.
    destruct (Hlinks e target _ Hn Ex) as (ix & Hix & H0 & Hg1). replace (Z.to_nat (first_link_inode a + Z.of_nat i - first_link_inode a)) with i in Hix by lia.
    rewrite Hi in Hix. injection Hix as ->. pose proof (lookup_zlen _ _ _ Hg1) as H. rewrite get_vector_zlen in H. lia. }
  rewrite get_vector_zlen. destruct (decide (count (ge_symlinks g) = 0)) as [E|Hne].
  - destruct (md_symlink_table meta) as [|x l]; [done|]. specialize (Hr x ltac:(by left)). lia.
  - assert (0 <= count (ge_symlinks g)) by (unfold count; lia). assert (count (ge_symlinks g) - 1 ∈ md_symlink_table meta) as Hin.
    { assert (is_Some (get_vector (ge_symlinks g) !! Z.to_nat (count (ge_symlinks g) - 1))) as [s Hs].
      { apply lookup_lt_is_Some_2. pose proof (get_vector_zlen (ge_symlinks g)) as H'. unfold zlen in H'. lia. }
      pose proof Hs as Hs'. apply get_vector_lookup in Hs'; [|done]. destruct (proj1 (Hk s)) as (n & Hn & Hf); [by eexists|]. destruct n as [| |e target|]; try done. injection Hf as ->.
      destruct (num_range t a Ha _ Hn) as (x & Ex & _). change (num_of a (Link e s)) with (as_nums a !! e_id e) in Ex. destruct (Hlinks e s x Hn Ex) as (ix & Hix & H0 & Hg1).
      apply list_elem_of_lookup. exists (Z.to_nat (x - first_link_inode a)). rewrite Hix. f_equal. apply get_vector_lookup in Hg1; [|done]. rewrite Hg1 in Hs'. injection Hs' as ?. lia. }
    destruct (md_symlink_table meta) as [|x l] eqn:El; [by apply elem_of_nil in Hin|]. rewrite <- El in *. rewrite (max_element_attained _ (count (ge_symlinks g) - 1)); [lia|lia| |done].
    apply Forall_forall. intros y Hy. specialize (Hr y Hy). lia.
Qed.

(** What the reader takes for the number of bytes of plain strings. *)
Context (frozen_string_table_size : list (list Z) -> Z) (Hfrozen : forall v, v <> [] -> frozen_string_table_size v = total_bytes v).

Lemma strings_pass opts compact plain strings b : stores opts compact plain strings -> 0 <= b ->
  Forall (fun s => zlen s <= b) strings -> (pack_data opts = true -> Forall (fun s => 2 * zlen s <= b) strings) ->
  check_strings frozen_string_table_size compact plain (zlen strings) b = Ok tt.
Proof.
  intros Hs Hb H1 H2. unfold check_strings, stores in *. destruct compact as [v|].
  - destruct Hs as [-> Hs]. pass; [|done]. by apply (check_compact_pass opts).
  - subst plain. unfold check_plain_strings. pass; [|apply Z.eqb_refl]. rewrite for_each_pass; [cbn [rbind]; apply check_that_true|].
    + destruct strings as [|s l]; [done|]. rewrite Hfrozen, Z.eqb_refl by done. apply orb_true_r.
    + intros s Hin. rewrite Forall_forall in H1. specialize (H1 s Hin). apply check_that_true. cbn in H1. lia.
Qed.

Lemma names_fit : Forall (fun s => zlen s <= 256) (get_vector (ge_names g)).
Proof.
  apply Forall_lookup_2. intros i s Hs. destruct Hg as [_ [He [Hk _]] _]. apply get_vector_lookup in Hs; [|done].
  destruct (proj1 (Hk s)) as (n & Hn & Hf); [by eexists|]. unfold name_key in Hf. destruct (wants_name n); [|done]. injection Hf as <-. by apply (sf_names _ _ Hstrings).
Qed.

Lemma links_fit : Forall (fun s => zlen s <= if pack_symlinks options then 2048 else 4096) (get_vector (ge_symlinks g)).
Proof.
  apply Forall_lookup_2. intros i s Hs. destruct Hg as [_ _ [He [Hk _]]]. apply get_vector_lookup in Hs; [|done].
  destruct (proj1 (Hk s)) as (n & Hn & Hf); [by eexists|]. destruct n as [| |e target|]; try done. injection Hf as <-. by eapply (sf_links _ _ Hstrings).
Qed.

Lemma string_tables_pass : check_string_tables frozen_string_table_size meta = Ok tt.
Proof.
  unfold check_string_tables. rewrite the_entries, name_indices, link_indices. pose proof names_fit as Hn. pose proof links_fit as Hl.
  rewrite (strings_pass (names_options options) _ _ _ _ (bt_stored_names _ _ _ _ _ _ _ _ _ Hbuilt)).
  - cbn [rbind]. apply (strings_pass (symlinks_options options) _ _ _ _ (bt_stored_symlinks _ _ _ _ _ _ _ _ _ Hbuilt)); [done| |].
    + eapply Forall_impl; [exact Hl|]. unfold max_symlink_len. cbn. intros s Hs. destruct (pack_symlinks options); lia.
    + cbn [pack_data symlinks_options]. intros E. rewrite E in Hl. eapply Forall_impl; [exact Hl|]. unfold max_symlink_len. cbn. lia.
  - done.
  - eapply Forall_impl; [exact Hn|]. unfold max_name_len. cbn. lia.
  - intros _. eapply Forall_impl; [exact Hn|]. unfold max_name_len. cbn. lia.
Qed.

(** *** Chunks *)

Lemma sparse_feature : has_sparse meta = match md_hole_block_index files with Some _ => true | None => false end.
Proof. unfold has_sparse. rewrite (bt_features _ _ _ _ _ _ _ _ _ Hbuilt). by destruct (md_hole_block_index files). Qed.

Lemma single_bit k : 0 <= k -> has_single_bit (2 ^ k) = true.
Proof.
  intros Hk. unfold has_single_bit. pose proof (pow2_pos k Hk). apply andb_true_iff. split; [lia|]. apply Z.eqb_eq.
  replace (2 ^ k - 1) with (Z.ones k) by (rewrite Z.ones_equiv; lia). rewrite Z.land_ones by done. apply Z_mod_same_full.
Qed.

Lemma chunks_pass : check_chunks meta = Ok tt.
Proof.
  destruct Hfiles as [_ _ (k & Hk & Hbs) Hlarge Hch]. unfold check_chunks. rewrite sparse_feature, (bt_files _ _ _ _ _ _ _ _ _ Hbuilt).
  cbn [md_hole_block_index md_block_size md_chunks]. rewrite Hbs. pass; [|by destruct (md_hole_block_index files)]. pass; [|by destruct (md_hole_block_index files)].
  pass; [|apply single_bit; lia]. apply for_each_pass. intros c Hc0. pose proof (Hch c Hc0) as Hfit. unfold check_chunk. rewrite sparse_feature, (bt_files _ _ _ _ _ _ _ _ _ Hbuilt).
  cbn [md_hole_block_index md_block_size md_large_hole_size]. unfold chunk_fits in Hfit. assert (2 ^ k <= 2 ^ 31) as Hk2 by (apply Z.pow_le_mono_r; lia).
  assert ((if match md_hole_block_index files with Some _ => true | None => false end then let? ix := there (md_hole_block_index files) in Ok (mc_block c =? ix) else Ok false) =
    Ok (E := metadata_error) (bool_decide (md_hole_block_index files = Some (mc_block c)))) as ->.
  { destruct (md_hole_block_index files) as [ix|]; cbn [there rbind]; [|by rewrite bool_decide_false]. f_equal. destruct (Z.eqb_spec (mc_block c) ix) as [->|Hne].
    - by rewrite bool_decide_true. - rewrite bool_decide_false; [done|]. by intros [= ->]. }
  cbn [rbind]. destruct (bool_decide (md_hole_block_index files = Some (mc_block c))) eqn:Eb.
  - apply bool_decide_eq_true in Eb. destruct (Z.eqb_spec (mc_offset c) kChunkOffsetIsLargeHole) as [E|]; [|done]. destruct Hlarge as [l Hl]; [by eexists|]. rewrite Hl in *.
    apply check_that_true. specialize (Hfit E). cbn in Hfit. lia.
  - rewrite Hbs in Hfit. pass; [|lia]. pass; [|lia]. apply check_that_true. rewrite wrapu_small by (unfold in_u; lia). lia.
Qed.

(** *** The order of the inodes *)

Lemma mapR_there {A B} (f : A -> checked B) (P : nat -> B -> Prop) l : (forall i x, l !! i = Some x -> exists y, f x = Ok y /\ P i y) ->
  exists k, mapR f l = Ok k /\ length k = length l /\ forall i y, k !! i = Some y -> P i y.
Proof.
  revert P. induction l as [|x l IH]; intros P H; [by exists []|]. destruct (H O x eq_refl) as (y & Ey & Hy).
  destruct (IH (fun i => P (S i))) as (k & Ek & Hlen & Hk); [intros i z Hz; by apply (H (S i))|]. exists (y :: k). cbn [mapR]. rewrite Ey. cbn [rbind]. rewrite Ek. cbn [rbind].
  split; [done|]. split; [cbn; lia|]. intros [|i] z Hz; [by injection Hz as <-|by apply Hk].
Qed.

Lemma partition_before p l : 0 <= p <= zlen l -> (forall i b, l !! i = Some b -> b = (Z.of_nat i <? p)) -> is_partitioned l = true /\ partition_point l = p.
Proof.
  revert p. induction l as [|b l IH]; intros p Hp H; [unfold zlen in Hp; cbn [length] in Hp; split; [done|cbn; lia]|]. pose proof (H O b eq_refl) as Hb. change (Z.of_nat 0) with 0 in Hb.
  change (zlen (b :: l)) with (Z.of_nat (S (length l))) in Hp. destruct (Z.ltb_spec 0 p) as [Hlt|Hge]; subst b.
  - destruct (IH (p - 1)) as [H1 H2]; [unfold zlen; lia| |].
    + intros i b Hi. specialize (H (S i) b Hi). subst b. destruct (Z.ltb_spec (Z.of_nat (S i)) p), (Z.ltb_spec (Z.of_nat i) (p - 1)); lia.
    + cbn [is_partitioned partition_point]. split; [done|lia].
  - cbn [is_partitioned partition_point existsb id]. split; [|lia]. apply negb_true_iff. cbn. apply not_true_iff_false. intros Hex. apply existsb_exists in Hex as (b & Hb & Ht').
    apply list_elem_of_In, list_elem_of_lookup in Hb as [i Hi]. specialize (H (S i) b Hi). unfold id in Ht'. subst b. apply Z.ltb_lt in Ht'. lia.
Qed.

Lemma partitioning_pass : check_partitioning meta = Ok (map (rank_offset t a) [0; 1; 2; 3; 4; 5]).
Proof.
  unfold check_partitioning, inode_ranks. rewrite the_entries.
  destruct (mapR_there (fun ino => let? mode := at_index (md_modes meta) (mode_index ino) in get_inode_rank mode)
    (fun i y => rank_offset t a y <= Z.of_nat i < rank_offset t a (y + 1)) (md_inodes meta)) as (ranks & -> & Hlen & Hranks).
  { intros i ino Hi. destruct (inode_of i ino Hi) as (n & Hn & Ex & [[H0 Hm] _ _]). exists (kind n). rewrite (at_index_lookup _ _ _ H0 Hm). cbn [rbind].
    rewrite new_mode_rank by done. split; [by apply (to_types _ Ht)|]. destruct (num_range t a Ha n Hn) as (y & Ey & Ry). rewrite Ex in Ey. by injection Ey as <-. }
  cbn [rbind]. destruct (rank_values t a) as ((V1 & _) & _ & _ & _ & (_ & V2)).
  assert (zlen ranks = last_inode a) as Hrl by (rewrite <- inodes_length; unfold zlen; lia).
  assert (forall r, 0 <= r <= 5 -> (check_that (is_partitioned (map (fun rank => rank <? r) ranks)) "table is not partitioned" ;;?
    Ok (partition_point (map (fun rank => rank <? r) ranks))) = Ok (rank_offset t a r)) as Hr.
  { intros r Hr. destruct (partition_before (rank_offset t a r) (map (fun rank => rank <? r) ranks)) as [H1 H2].
    - rewrite zlen_map, Hrl. pose proof (rank_offset_mono t a Ha INO_DIR r ltac:(unfold INO_DIR; lia)). pose proof (rank_offset_mono t a Ha r (INO_OTH + 1) ltac:(unfold INO_OTH; lia)). lia.
    - intros i b Hb. apply list_lookup_fmap_Some in Hb as (y & -> & Hy). pose proof (Hranks i y Hy) as H. destruct (Z.ltb_spec y r) as [Hyr|Hyr].
      + pose proof (rank_offset_mono t a Ha (y + 1) r ltac:(lia)). symmetry. apply Z.ltb_lt. lia.
      + pose proof (rank_offset_mono t a Ha r y ltac:(lia)). symmetry. apply Z.ltb_ge. lia.
    - rewrite H1, H2. done. }
  cbn [mapR map]. rewrite !Hr by lia. done.
Qed.

(** *** Files *)

Lemma file_counts_pass : file_counts meta = Ok (num_unique (as_files a), zlen (shared_list groups)).
Proof.
  pose proof (offsets_bound t Ht a Ha) as Hb. pose proof (fn_unique _ _ _ _ (nb_files _ _ Ha)) as Hnu. pose proof (groups_bound groups Hgroups) as Hgb. pose proof (zlen_nonneg groups).
  unfold file_counts. rewrite (bt_shared _ _ _ _ _ _ _ _ _ Hbuilt), (bt_files _ _ _ _ _ _ _ _ _ Hbuilt). unfold opt_flag. rewrite (bt_options _ _ _ _ _ _ _ _ _ Hbuilt).
  cbn [md_chunk_table packed_shared_files_table].
  assert (zlen (if pack_chunk_table options then adjacent_difference (md_chunk_table files) else md_chunk_table files) - 1 = num_unique (as_files a) + zlen groups) as ->.
  { destruct (pack_chunk_table options); [unfold zlen in *; rewrite length_adjacent_difference|]; lia. }
  destruct (pack_shared_files_table options).
  - rewrite accumulate_groups. unfold pack_groups. rewrite zlen_map, wrapu_small by (unfold in_u; lia). do 2 f_equal; lia.
  - pass; [|rewrite shared_list_from; apply shared_from_sorted]. destruct (decide (groups = [])) as [->|Hne].
    + cbn. do 2 f_equal. unfold zlen. cbn. lia.
    + rewrite shared_list_from, (shared_from_last 0 groups Hgroups Hne), <- shared_list_from. rewrite wrapu_small by (unfold in_u; lia). do 2 f_equal; lia.
Qed.

(** The metadata passes the checks. *)
Lemma check_metadata_pass : check_metadata frozen_string_table_size meta = Ok tt.
Proof.
  pose proof (offsets_bound t Ht a Ha) as Hb. pose proof (dirs_count t a Ha) as Hdc. pose proof (fn_unique _ _ _ _ (nb_files _ _ Ha)) as Hnu. pose proof (zlen_nonneg (shared_list groups)).
  unfold check_metadata. rewrite empty_tables_pass, index_range_pass, packed_tables_pass, string_tables_pass, chunks_pass, partitioning_pass. cbn [rbind].
  rewrite file_counts_pass. cbn [rbind].
  set (offs := map (rank_offset t a) _). assert (default 0 (offs !! 1%nat) = first_link_inode a /\ default 0 (offs !! 2%nat) = first_file_inode a /\
    default 0 (offs !! 3%nat) = first_device_inode a /\ default 0 (offs !! 4%nat) = first_device_inode a + zlen (devs t)) as (-> & -> & -> & ->) by done. clearbody offs.
  pass. 2: { rewrite (bt_directories _ _ _ _ _ _ _ _ _ Hbuilt). pose proof (expected_dirs_length t). apply Z.eqb_eq. destruct (pack_directories options); unfold zlen in *; rewrite ?pack_directories_length; lia. }
  pass. 2: { rewrite (ds_table _ _ _ _ _ (bt_described _ _ _ _ _ _ _ _ _ Hbuilt)). apply Z.eqb_refl. }
  pass. 2: { rewrite wrapu_small by (unfold in_u; lia). apply Z.eqb_eq. lia. }
  pass; [by rewrite the_entries|]. rewrite (ds_devices _ _ _ _ _ (bt_described _ _ _ _ _ _ _ _ _ Hbuilt)). apply Z.eqb_eq. rewrite zlen_map. lia.
Qed.
End tables.
