(* ===== verification/CheckedTree.v ===== *)
(** * CheckedTree: what is written is accepted

    The metadata of a tree, built by [scan], passes [check_metadata] and
    [check_inode_size_cache] of [src/reader/internal/metadata_v2.cpp]: it opens when
    it is checked, and to the same as without the checks. *)

From S2P Require Import Prelude FileChunks PackedInts StringTable Metadata MetadataReader MetadataSafety EntryTree MetadataBuilder EntryLists TreeTables EntryData EntryTables GatheredMetadata BuiltMetadata RecoveredDirectories OpenedTree DirectoryTree TreeAttributes SortedTree TreeRoundtrip CheckedTables.
Local Open Scope Z_scope.

#[local] Abbreviation checked := (result metadata_error).

(** ** Cached sizes *)

Lemma no_holes_sums cs : existsb is_hole cs = false -> sum_data_sizes cs = sum_sizes cs.
Proof.
  induction cs as [|c cs IH]; intros H; [done|]. cbn [existsb] in H. apply orb_false_iff in H as [Hc H].
  unfold sum_data_sizes, sum_sizes in *. cbn [foldr]. rewrite IH by done. unfold is_data. by rewrite Hc.
Qed.

(** What has been seen after some inodes. *)
Definition seen_by (indices : list Z) (lookup : gmap Z Z) (seen : gset Z) : Prop := forall u, u ∈ indices -> is_Some (lookup !! u) -> u ∈ seen.

Lemma unused_none indices lookup seen : (forall u, is_Some (lookup !! u) -> u ∈ indices) -> seen_by indices lookup seen -> unused_entries lookup seen = 0.
Proof.
  intros Hin Hs. unfold unused_entries. assert (dom lookup ∖ seen = ∅) as ->; [|by rewrite size_empty]. apply set_eq. intros u. rewrite elem_of_difference, elem_of_dom.
  split; [|set_solver]. intros [Hu Hn]. destruct Hn. by apply Hs; [apply Hin|].
Qed.

Section cache.
Context {decoder : Type} (d : metadata_v2_data (decoder := decoder)) (files : FileChunks.metadata) (cache : inode_size_cache).
Context (Hcache : cache_right files cache).

(** The inode of a file with the chunks [cs] at index [u]. *)
Record cached_file (inode u : Z) (cs : list chunk) : Prop := {
  cf_view : exists ino, make_inode_view d inode = Ok (InodeView ino inode);
  cf_size : forall use_cache, reg_file_size d inode use_cache = Ok (sum_chunks true cs);
  cf_index : file_inode_to_chunk_index d inode = Ok u;
  cf_chunks : chunks_at files u cs;
  cf_few : zlen cs < 2 ^ 32;
  cf_range : exists b e, get_chunk_range_from_index d u = Ok (Some (b, e)) /\ e - b = zlen cs /\ chunks_of_range d (b, e) = Ok cs
}.

(** A cached number that is right is no error. *)
Lemma check_index_pass inode u cs lookup size_of (holes_only : bool) seen : cached_file inode u cs ->
  (forall n, lookup !! u = Some n -> n = size_of (sum_chunks true cs) /\ min_chunk_count cache <= zlen cs /\ (holes_only = true -> existsb is_hole cs = true)) ->
  check_cached_index d u (sum_chunks true cs) lookup size_of (min_chunk_count cache) holes_only 0 seen =
    Ok (0, if decide (is_Some (lookup !! u)) then {[u]} ∪ seen else seen).
Proof.
  intros [_ _ _ _ Hfew (b & e & Hr & Hlen & Hcs)] H. unfold check_cached_index. destruct (bool_decide_reflect (u ∈ seen)) as [Hin|_].
  { do 2 f_equal. destruct (decide _); [symmetry; apply subseteq_union_1_L; by apply singleton_subseteq_l|done]. }
  destruct (lookup !! u) as [n|] eqn:E; [|destruct (decide _) as [[? ?]|]; done]. destruct (H n eq_refl) as (-> & Hm & Hh). rewrite Hr. cbn [rbind there dwarfs_check].
  rewrite Z.eqb_refl. pose proof (zlen_nonneg cs). rewrite wrapu_small by (unfold in_u; lia). replace (e - b <? min_chunk_count cache) with false by lia.
  destruct (decide (is_Some (Some (size_of (sum_chunks true cs))))) as [_|Hn]; [|destruct Hn; by eexists]. destruct holes_only; [|done].
  rewrite Hcs. cbn [rbind]. by rewrite Hh.
Qed.

Lemma cached_size u cs n : chunks_at files u cs -> size_lookup cache !! u = Some n ->
  n = fsr_size (sum_chunks true cs) /\ min_chunk_count cache <= zlen cs /\ (false = true -> existsb is_hole cs = true).
Proof.
  intros Hu Hn. destruct (Hcache u) as [[H _]|(k & sz & al & Hi & Hk & Hsz & _)]; [congruence|]. rewrite (ca_size _ _ _ Hu) in Hi. injection Hi as <- <- <-.
  rewrite Hsz in Hn. injection Hn as <-. by rewrite sum_chunks_sums.
Qed.

Lemma cached_allocated u cs n : chunks_at files u cs -> allocated_size_lookup cache !! u = Some n ->
  n = fsr_allocated_size (sum_chunks true cs) /\ min_chunk_count cache <= zlen cs /\ (true = true -> existsb is_hole cs = true).
Proof.
  intros Hu Hn. destruct (Hcache u) as [[_ H]|(k & sz & al & Hi & Hk & Hsz & Hal & Hne)]; [congruence|]. rewrite (ca_size _ _ _ Hu) in Hi. injection Hi as <- <- <-.
  rewrite Hn in Hal, Hne. cbn in Hal. subst n. rewrite sum_chunks_sums. split; [done|]. split; [done|]. intros _. apply not_false_iff_true. intros E. by rewrite (no_holes_sums cs E) in Hne.
Qed.

Lemma check_sizes_pass inodes indices : Forall2 (fun inode u => exists cs, cached_file inode u cs) inodes indices ->
  forall before seen seen_sparse, seen_by before (size_lookup cache) seen -> seen_by before (allocated_size_lookup cache) seen_sparse ->
  exists seen' seen_sparse', check_cached_sizes d cache inodes 0 seen seen_sparse = Ok (0, seen', seen_sparse') /\
    seen_by (before ++ indices) (size_lookup cache) seen' /\ seen_by (before ++ indices) (allocated_size_lookup cache) seen_sparse'.
Proof.
  induction 1 as [|inode u inodes indices [cs Hf] _ IH]; intros before seen seen_sparse Hs Hsp; [exists seen, seen_sparse; by rewrite app_nil_r|].
  pose proof Hf as [[ino Eino] Hsize Hix Hu _ _]. cbn [check_cached_sizes]. rewrite Eino. cbn [rbind iv_inode_num]. rewrite !Hsize. cbn [rbind].
  rewrite bool_decide_true by done. rewrite Hix. cbn [rbind].
  rewrite (check_index_pass inode u cs _ _ false _ Hf) by (intros n; by apply cached_size). cbn [rbind].
  rewrite (check_index_pass inode u cs _ _ true _ Hf) by (intros n; by apply cached_allocated). cbn [rbind].
  assert (forall (lookup : gmap Z Z) (seen : gset Z), seen_by before lookup seen -> seen_by (before ++ [u]) lookup (if decide (is_Some (lookup !! u)) then {[u]} ∪ seen else seen)) as Hnext.
  { intros lookup sn H v Hv Hl. apply elem_of_app in Hv as [Hv|Hv%list_elem_of_singleton].
    - specialize (H v Hv Hl). destruct (decide _); set_solver.
    - subst v. destruct (decide _); [set_solver|done]. }
  destruct (IH (before ++ [u]) _ _ (Hnext _ _ Hs) (Hnext _ _ Hsp)) as (s1 & s2 & E & H1 & H2). rewrite <- app_assoc in H1, H2. by exists s1, s2.
Qed.

(** The keys of the cache are indices of files. *)
Lemma cached_range (lookup : gmap Z Z) u : lookup = size_lookup cache \/ lookup = allocated_size_lookup cache -> is_Some (lookup !! u) -> is_Some (inode_size_provider_get files u).
Proof.
  intros Hl [n Hn]. destruct (Hcache u) as [[H1 H2]|(k & sz & al & Hi & _)]; [by destruct Hl as [-> | ->]; congruence|by eexists].
Qed.
End cache.

(** ** Opening with the checks *)

Section forced.
Context {decoder : Type} (fsst_import : list Z -> Z * decoder) (frozen_string_table_size : list (list Z) -> Z).

(** When the checks pass, they change nothing. *)
Lemma create_checked fuel meta ro inode_offset d :
  metadata_v2_data_create fsst_import frozen_string_table_size fuel meta ro inode_offset false = Ok d ->
  check_metadata frozen_string_table_size meta = Ok tt -> check_inode_size_cache d = Ok tt ->
  metadata_v2_data_create fsst_import frozen_string_table_size fuel meta ro inode_offset true = Ok d.
Proof.
  intros H Hm Hi. unfold metadata_v2_data_create in *. rewrite orb_true_r. rewrite Hm. cbn [rbind].
  destruct (if check_consistency ro || false then check_metadata frozen_string_table_size meta else Ok tt) as [[]|]; [|done]. cbn [rbind] in H.
  destruct (global_metadata_create fsst_import fuel meta) as [gm|]; [|done]. cbn [rbind] in *. destruct (make_directory_entry_view gm 0 OtherName) as [root|]; [|done]. cbn [rbind] in *.
  destruct (find_inode_rank_offset meta INO_LNK) as [o1|]; [|done]. cbn [rbind] in *. destruct (find_inode_rank_offset meta INO_REG) as [o2|]; [|done]. cbn [rbind] in *.
  destruct (find_inode_rank_offset meta INO_DEV) as [o3|]; [|done]. cbn [rbind] in *. destruct (unpack_chunk_table meta) as [ct|]; [|done]. cbn [rbind] in *.
  destruct (unpack_shared_files meta) as [sf|]; [|done]. cbn [rbind] in *. destruct (build_nlinks meta (to_int o2) (to_int o3)) as [nl|]; [|done]. cbn [rbind] in *.
  destruct (open_string_table fsst_import (md_compact_symlinks meta) (md_symlinks meta)) as [sy|]; [|done]. cbn [rbind] in *. destruct (check_offsets meta _ _ _) as [[]|]; [|done]. cbn [rbind] in *.
  destruct (if check_consistency ro || false then _ else Ok tt) as [[]|]; [|done]. cbn [rbind] in H. injection H as <-. by rewrite Hi.
Qed.
End forced.

Section accepted.
Context {encoder decoder : Type} (fsst_create : list (list Z) -> encoder) (fsst_export : encoder -> list Z)
  (fsst_compress : encoder -> list (list Z) -> Z -> list (list Z))
  (fsst_import : list Z -> Z * decoder) (fsst_decompress : decoder -> list Z -> Z -> list Z)
  `{!Fsst fsst_create fsst_export fsst_compress fsst_import fsst_decompress}.
Context (frozen_string_table_size : list (list Z) -> Z) (fuel : nat).
Context (root : entry) (options : writer_options) (finalize : Z -> checked (Z * file_numbers)) (files : FileChunks.metadata) (contents : nat -> list chunk).
Context (ro : metadata_options) (inode_offset : Z).

#[local] Abbreviation t := (sort_tree root).
#[local] Abbreviation mounts := (mounts fsst_create fsst_export fsst_compress fsst_import frozen_string_table_size fuel root options finalize files ro inode_offset).
#[local] Abbreviation mounted := (mounted fsst_import fsst_decompress root options finalize files contents ro inode_offset).

(** What the checks ask of a tree and of its chunks. *)
Record checkable : Prop := {
  ck_strings : strings_fit root options;
  ck_files : files_fit files;
  ck_rows : forall first_device fn u, finalize (first_file_of root) = Ok (first_device, fn) -> 0 <= u < zlen (md_chunk_table files) - 1 ->
    exists e data, File e data ∈ preorder root /\ unique_file_ids fn !! data = Some u
}.

Context (Hp : packable root options finalize files contents) (Hcheck : check_consistency ro = false) (Hsparse : enable_sparse_files ro = true).
Context (Hfuel : (5 <= fuel)%nat) (Hdirs : zlen (preorder root) <= Z.of_nat fuel).
Context (Hk : checkable) (Hfrozen : forall v, v <> [] -> frozen_string_table_size v = total_bytes v).

Lemma sorted_fit : strings_fit t options.
Proof.
  destruct (ck_strings Hk) as [Hn Hl]. split.
  - intros n (m & -> & Hm)%elem_of_sorted. rewrite ename_sort. by apply Hn.
  - intros e target (m & Em & Hm)%elem_of_sorted. destruct m; try done. injection Em as -> ->. by eapply Hl.
Qed.

Section mounted.
Context (a : assigned) (g : global_entry_data) (groups : list nat) (meta : fs_metadata) (d : metadata_v2_data (decoder := decoder)) (Hm : mounted a g groups meta d).

Lemma accepted_ok : tree_ok t.
Proof. apply tree_ok_sorted, Hp. Qed.

(** The table of chunks has a row for each content, and one for the end. *)
Lemma rows_count : zlen (md_chunk_table files) = num_unique (as_files a) + zlen groups + 1.
Proof.
  destruct Hm as [Ha _ _ Ho Htg Hcont Hgr Hsh Honto Ef]. set (N := num_unique (as_files a) + zlen groups).
  assert (forall u, 0 <= u < N -> u + 1 < zlen (md_chunk_table files)) as Hlow.
  { intros u Hu. destruct (Honto u Hu) as (e & data & Hn & Eu). destruct (ca_range _ _ _ (Hcont e data u Hn Eu)) as (range & Hr & _).
    unfold FileChunks.get_chunk_range_from_index in Hr. destruct (_ && _); [|done]. destruct (md_chunk_table files !! Z.to_nat u); [|done]. cbn [mbind option_bind] in Hr.
    destruct (md_chunk_table files !! Z.to_nat (u + 1)) eqn:E; [|done]. apply lookup_zlen in E. lia. }
  assert (forall u, 0 <= u < zlen (md_chunk_table files) - 1 -> u < N) as Hup.
  { intros u Hu. destruct (ck_rows Hk (first_device_inode a) (as_files a) u Ef Hu) as (e & data & Hn & Eu). apply sorted_file in Hn.
    destruct (file_number t a Ha g e data Hn) as [Hr Hnum]. rewrite (Htg e data _ Hn Hnum) in Eu. injection Eu as <-.
    pose proof (file_index_range t a Ha groups Hsh (number a g (File e data) - first_file_inode a) ltac:(lia)) as H. unfold N. lia. }
  assert (0 <= N) as HN by (pose proof (fn_unique _ _ _ _ (nb_files _ _ Ha)); pose proof (zlen_nonneg groups); unfold N; lia).
  assert (0 < zlen (md_chunk_table files)) as Hpos.
  { pose proof (ff_last _ (ck_files Hk)) as Hl. destruct (md_chunk_table files); [done|]. unfold zlen. cbn [length]. lia. }
  destruct (Z_lt_le_dec (zlen (md_chunk_table files)) (N + 1)) as [Hlt|Hge].
  - specialize (Hlow (N - 1) ltac:(lia)). lia.
  - destruct (Z_lt_le_dec N (zlen (md_chunk_table files) - 1)) as [Hlt|]; [|lia]. specialize (Hup N ltac:(lia)). lia.
Qed.

Lemma metadata_passes : check_metadata frozen_string_table_size meta = Ok tt.
Proof.
  destruct Hm as [Ha Hg Hb _ _ _ Hgr Hsh _ _]. destruct Hp as [_ Hc _ Hfits _ _].
  exact (check_metadata_pass t accepted_ok a Ha options g Hg Hc fsst_import fsst_decompress files groups meta Hb Hgr Hsh Hfits (ck_files Hk) rows_count sorted_fit frozen_string_table_size Hfrozen).
Qed.

(** The inodes of files, with their indices. *)
Lemma cached_inode inode : first_file_inode a <= inode < first_device_inode a ->
  exists cs, cached_file d files inode (file_index a groups (inode - first_file_inode a)) cs.
Proof.
  intros Hi. destruct Hm as [Ha Hg Hb Ho Htg Hcont Hgr Hsh Honto _]. destruct Hp as [_ Hc _ Hfits _ Hfew]. pose proof accepted_ok as Ht. pose proof (offsets_bound t Ht a Ha) as Hbd.
  destruct (fn_onto _ _ _ _ (nb_files _ _ Ha) inode Hi) as (e & data & Hn & Enum). destruct (file_number t a Ha g e data Hn) as [_ Hnum].
  assert (number a g (File e data) = inode) as Ei by congruence. exists (contents data).
  assert (forall e data, File e data ∈ preorder t -> zlen (contents data) < 2 ^ 32) as Hfew' by (intros e' data' Hn'; exact (Hfew e' data' (proj1 (sorted_file _ _ _) Hn'))).
  pose proof (Htg e data inode Hn Enum) as Eu. pose proof (Hcont e data _ Hn Eu) as Hu. split.
  - destruct (inode_there t a Ha options g fsst_import fsst_decompress files groups meta Hb ro inode_offset d Ho (File e data) Hn) as (ino & Hino & _).
    exists ino. unfold make_inode_view. rewrite (op_meta _ _ _ _ _ _ _ _ _ _ Ho), (ds_entries _ _ _ _ _ (bt_described _ _ _ _ _ _ _ _ _ Hb)). cbn [rbind].
    rewrite Ei in Hino. by rewrite (at_index_lookup _ _ ino) by (done || lia).
  - intros use_cache. rewrite <- Ei.
    rewrite (reg_file_size_ok t a Ha options g fsst_import fsst_decompress files groups meta Hb ro inode_offset d Ho Hfits contents Htg Hcont Hfew' e data use_cache Hn). by rewrite Hsparse.
  - pose proof (op_index _ _ _ _ _ _ _ _ _ _ Ho (inode - first_file_inode a) ltac:(lia)) as H. by replace (first_file_inode a + (inode - first_file_inode a)) with inode in H by lia.
  - done.
  - exact (Hfew' e data Hn).
  - destruct (chunk_range_ok t a options g fsst_import fsst_decompress files groups meta Hb ro inode_offset d Ho _ _ Hu) as (b & f & Er & Hr & Hbe & Hlen & Hcs).
    exists b, f. split; [done|]. split; [done|]. apply (chunks_of_range_ok t a options g fsst_import fsst_decompress files groups meta Hb ro inode_offset d Ho); [|done].
    split; [by apply (range_start files Hfits _ _ _ Hr)|done].
Qed.

Lemma size_cache_passes : check_inode_size_cache d = Ok tt.
Proof.
  destruct Hm as [Ha Hg Hb Ho Htg Hcont Hgr Hsh Honto _]. unfold check_inode_size_cache. rewrite (op_meta _ _ _ _ _ _ _ _ _ _ Ho), (op_first_file _ _ _ _ _ _ _ _ _ _ Ho), (op_first_device _ _ _ _ _ _ _ _ _ _ Ho).
  pose proof (bt_cache _ _ _ _ _ _ _ _ _ Hb) as Hcache. destruct (md_reg_file_size_cache meta) as [cache|]; [|done].
  set (inodes := seqZ (first_file_inode a) (first_device_inode a - first_file_inode a)). set (indices := map (fun inode => file_index a groups (inode - first_file_inode a)) inodes).
  destruct (check_sizes_pass d files cache Hcache inodes indices) with (before := @nil Z) (seen := ∅ : gset Z) (seen_sparse := ∅ : gset Z) as (s1 & s2 & -> & H1 & H2).
  - apply Forall2_fmap_r, Forall_Forall2_diag, Forall_forall. intros inode Hin. apply elem_of_seqZ in Hin. apply cached_inode. lia.
  - by intros u Hu%elem_of_nil.
  - by intros u Hu%elem_of_nil.
  - cbn [rbind]. assert (forall lookup : gmap Z Z, lookup = size_lookup cache \/ lookup = allocated_size_lookup cache -> forall u, is_Some (lookup !! u) -> u ∈ [] ++ indices) as Hin.
    { intros lookup Hl u Hu. pose proof (cached_range files cache Hcache lookup u Hl Hu) as [info Hi]. unfold inode_size_provider_get, FileChunks.get_chunk_range_from_index in Hi.
      destruct ((0 <=? u) && _) eqn:E0; [|done]. apply andb_true_iff in E0 as [H0%Z.leb_le _]. destruct (md_chunk_table files !! Z.to_nat u); [|done]. cbn [mbind option_bind] in Hi.
      destruct (md_chunk_table files !! Z.to_nat (u + 1)) eqn:E; [|done]. apply lookup_zlen in E. pose proof rows_count as Hr.
      destruct (Honto u) as (e & data & Hn & Eu); [lia|]. destruct (file_number t a Ha g e data Hn) as [Hr2 Hnum]. rewrite (Htg e data _ Hn Hnum) in Eu. injection Eu as <-.
      apply list_elem_of_fmap. exists (number a g (File e data)). split; [done|]. apply elem_of_seqZ. lia. }
    rewrite (unused_none _ _ _ (Hin _ (or_introl eq_refl)) H1), (unused_none _ _ _ (Hin _ (or_intror eq_refl)) H2). done.
Qed.
End mounted.

(** C14: what is written is accepted: the metadata that [scan] makes of a tree of
    files passes every check of the reader, also those of the cache of sizes
    (with the reader's option [enable_sparse_files] at its default), and opens, when it is checked, to what it opens to when it is not; whatever
    of it is packed. *)
Theorem written_metadata_accepted : exists meta d,
  scan fsst_create fsst_export fsst_compress fuel options finalize files root = Ok meta /\ check_metadata frozen_string_table_size meta = Ok tt /\
  metadata_v2_data_create fsst_import frozen_string_table_size fuel meta ro inode_offset true = Ok d /\ mounts d.
Proof.
  destruct (scan_mounted fsst_create fsst_export fsst_compress fsst_import fsst_decompress frozen_string_table_size fuel root options finalize files contents ro inode_offset
    Hp Hcheck Hfuel Hdirs) as (a & g & groups & meta & d & Es & Ec & Hm). exists meta, d. split; [done|].
  pose proof (metadata_passes a g groups meta d Hm) as Hpass. split; [done|]. split; [|by exists meta].
  apply create_checked; [done|done|]. by apply (size_cache_passes a g groups meta).
Qed.
End accepted.

(** ** Sample *)

Definition sample_options : metadata_options := MetadataOptions true true false 512 None None.

Lemma sample_files_fit : files_fit Sample.files.
Proof.
  split; [done|done|by exists 12|by intros []|]. apply Forall_forall.
  repeat (apply List.Forall_cons; [split; cbn; lia|]). constructor.
Qed.

Lemma sample_checkable : checkable Sample.root Sample.options Sample.finalize Sample.files.
Proof.
  split; [split| |].
  - apply Sample.entries_forall. repeat (apply List.Forall_cons; [by apply (bool_decide_unpack _)|]). constructor.
  - intros e target Hn. apply (Sample.entries_forall (fun n => forall e target, n = Link e target -> zlen target <= if pack_symlinks Sample.options then 2048 else 4096)
      ltac:(repeat (apply List.Forall_cons; [by intros ? ? [= <- <-]|]); constructor) _ Hn e target eq_refl).
  - apply sample_files_fit.
  - intros dev fn u [= <- <-] Hu. change (zlen (md_chunk_table Sample.files)) with 3 in Hu. cbn [unique_file_ids]. assert (u = 0 \/ u = 1) as [-> | ->] by lia.
    + destruct (Sample.some_file 1) as [e He]; [tauto|]. by exists e, 1%nat.
    + destruct (Sample.some_file 2) as [e He]; [tauto|]. by exists e, 2%nat.
Qed.

(** All is packed, a size is cached, and the checks are on. *)
Lemma written_metadata_accepted_witness : exists meta d,
  scan Escapes.create Escapes.export Escapes.compress 20 Sample.options Sample.finalize Sample.files Sample.root = Ok meta /\ check_metadata total_bytes meta = Ok tt /\
  metadata_v2_data_create Escapes.import total_bytes 20 meta sample_options 1 true = Ok (d : metadata_v2_data (decoder := unit)).
Proof.
  destruct (written_metadata_accepted Escapes.create Escapes.export Escapes.compress Escapes.import Escapes.expand total_bytes 20 Sample.root Sample.options Sample.finalize
    Sample.files Sample.contents sample_options 1 Sample.sample_packable eq_refl eq_refl) as (meta & d & Hs & Hc & Hd & _);
    [lia|vm_compute; discriminate|apply sample_checkable|done|]. exists meta, d. split; [exact Hs|]. split; [exact Hc|exact Hd].
Defined.
