(* ===== verification/ChmodTransformer.v ===== *)
(** * ChmodTransformer: changing modes the way chmod does

    [src/writer/internal/chmod_transformer.cpp]: the parser of specifications such
    as [u+x], [Fgo-w] or [755], and the change of a mode.  A specification is
    given its meaning a second time as what it says of each permission; the
    theorems are that the parser and the masks implement that meaning, and that a
    permission never leaves the twelve bits of permissions. *)

From Stdlib Require Import Ascii.
From S2P Require Import Prelude Metadata MetadataReader EntryTree MetadataBuilder EntryLists TreeTables EntryData EntryTables GatheredMetadata.
Local Open Scope Z_scope.

(** A character of a string. *)
Definition ch (c : ascii) : Z := Z.of_N (N_of_ascii c).

Definition kSetUidBit : Z := 0x800.
Definition kSetGidBit : Z := 0x400.
Definition kStickyBit : Z := 0x200.
Definition kUserReadBit : Z := 0x100.
Definition kUserWriteBit : Z := 0x80.
Definition kUserExecBit : Z := 0x40.
Definition kGroupReadBit : Z := 0x20.
Definition kGroupWriteBit : Z := 0x10.
Definition kGroupExecBit : Z := 0x8.
Definition kOtherReadBit : Z := 0x4.
Definition kOtherWriteBit : Z := 0x2.
Definition kOtherExecBit : Z := 0x1.
Definition kAllUidBits : Z := Z.lor kSetUidBit kSetGidBit.
Definition kAllUserBits : Z := Z.lor (Z.lor kUserReadBit kUserWriteBit) kUserExecBit.
Definition kAllGroupBits : Z := Z.lor (Z.lor kGroupReadBit kGroupWriteBit) kGroupExecBit.
Definition kAllOtherBits : Z := Z.lor (Z.lor kOtherReadBit kOtherWriteBit) kOtherExecBit.
Definition kAllReadBits : Z := Z.lor (Z.lor kUserReadBit kGroupReadBit) kOtherReadBit.
Definition kAllWriteBits : Z := Z.lor (Z.lor kUserWriteBit kGroupWriteBit) kOtherWriteBit.
Definition kAllExecBits : Z := Z.lor (Z.lor kUserExecBit kGroupExecBit) kOtherExecBit.
Definition kAllRWXBits : Z := Z.lor (Z.lor kAllReadBits kAllWriteBits) kAllExecBits.
Definition kAllModeBits : Z := Z.lor (Z.lor (Z.lor (Z.lor kAllUidBits kStickyBit) kAllUserBits) kAllGroupBits) kAllOtherBits.

(** [opmode], [modifier]. *)
Inductive opmode : Type := normal | promote_exec | copy_from.

Record modifier : Type := Modifier { oper : Z; m_mode : opmode; m_whom : Z; m_bits : Z; m_mask : Z }.

(** [chmod_transformer_]. *)
Record transformer : Type := Transformer { modifiers_ : list modifier; flag_D_ : bool; flag_F_ : bool; umask_ : Z }.

(** [std::invalid_argument], [DWARFS_PANIC]; [ChmodFuel]: the loop did not end. *)
Inductive chmod_error : Type :=
  | InvalidArgument (what : string)
  | Panic (what : string)
  | ChmodFuel.

#[local] Abbreviation checked := (result chmod_error).

Definition is_op (c : Z) : bool := (c =? ch "=") || (c =? ch "+") || (c =? ch "-").
Definition is_ugo (c : Z) : bool := (c =? ch "u") || (c =? ch "g") || (c =? ch "o").

(** ** The parser *)

Definition is_oct_digit (c : Z) : bool := (ch "0" <=? c) && (c <=? ch "7").

(** [std::from_chars] of an unsigned number in base 8: the number, and what
    follows its digits. *)
Fixpoint oct_digits (value : Z) (spec : list Z) : Z * list Z :=
  match spec with
  | c :: rest => if is_oct_digit c then oct_digits (8 * value + (c - ch "0")) rest else (value, spec)
  | [] => (value, [])
  end.

Definition from_chars_8 (spec : list Z) : option (Z * list Z) :=
  match spec with
  | c :: _ => if is_oct_digit c then let '(value, rest) := oct_digits 0 spec in if value <? 2 ^ 32 then Some (value, rest) else None else None
  | [] => None
  end.

Definition parse_oct (spec : list Z) : option (Z * list Z) :=
  match from_chars_8 spec with
  | Some (mode, rest) => if mode <=? kAllModeBits then Some (mode, rest) else None
  | None => None
  end.

(** [parse_whom]: the mask and what follows, and the flags. *)
Fixpoint parse_whom (spec : list Z) (whom : Z) (flag_D flag_F : bool) : option (Z * list Z) * bool * bool :=
  match spec with
  | [] => (None, flag_D, flag_F)
  | c :: rest =>
      if c =? ch "u" then parse_whom rest (Z.lor whom (Z.lor kSetUidBit kAllUserBits)) flag_D flag_F
      else if c =? ch "g" then parse_whom rest (Z.lor whom (Z.lor kSetGidBit kAllGroupBits)) flag_D flag_F
      else if c =? ch "o" then parse_whom rest (Z.lor whom (Z.lor kStickyBit kAllOtherBits)) flag_D flag_F
      else if c =? ch "a" then parse_whom rest kAllModeBits flag_D flag_F
      else if c =? ch "D" then parse_whom rest whom true flag_F
      else if c =? ch "F" then parse_whom rest whom flag_D true
      else if is_op c then (Some (whom, spec), flag_D, flag_F)
      else parse_whom rest whom flag_D flag_F
  end.

(** The loop over permissions. *)
Fixpoint parse_perms (spec : list Z) (mode : opmode) (bits : Z) : opmode * Z * list Z :=
  match spec with
  | [] => (mode, bits, [])
  | c :: rest =>
      if c =? ch "r" then parse_perms rest mode (Z.lor bits kAllReadBits)
      else if c =? ch "w" then parse_perms rest mode (Z.lor bits kAllWriteBits)
      else if c =? ch "x" then parse_perms rest mode (Z.lor bits kAllExecBits)
      else if c =? ch "s" then parse_perms rest mode (Z.lor bits kAllUidBits)
      else if c =? ch "t" then parse_perms rest mode (Z.lor bits kStickyBit)
      else if c =? ch "X" then parse_perms rest promote_exec bits
      else (mode, bits, spec)
  end.

Definition ugo_bits (c : Z) : checked Z :=
  if c =? ch "u" then Ok kAllUserBits
  else if c =? ch "g" then Ok kAllGroupBits
  else if c =? ch "o" then Ok kAllOtherBits
  else Err (Panic "internal error: invalid ugo in mode spec").

(** The loop over operations: the modifiers, and what is left of the
    specification. *)
Fixpoint parse_ops (fuel : nat) (spec : list Z) (whom : Z) (acc : list modifier) : checked (list modifier * list Z) :=
  let mask := if whom =? 0 then kAllModeBits else whom in
  match fuel with
  | O => Err ChmodFuel
  | S fuel =>
      match spec with
      | op :: spec =>
          if is_op op then
            match spec with
            | [] => Err (InvalidArgument "missing permissions in chmod mode")
            | c :: rest =>
                match parse_oct spec with
                | Some (mode, rest) =>
                    if negb (whom =? 0) then Err (InvalidArgument "cannot combine whom with octal chmod mode")
                    else match rest with
                         | [] => Ok (acc ++ [Modifier op normal kAllModeBits mode kAllModeBits], [])
                         | _ => Err (InvalidArgument "invalid octal chmod mode after operation")
                         end
                | None =>
                    if is_ugo c then
                      let? bits := ugo_bits c in parse_ops fuel rest whom (acc ++ [Modifier op copy_from whom bits (Z.land bits mask)])
                    else
                      let '(mode, bits, rest) := parse_perms spec normal 0 in
                      parse_ops fuel rest whom (acc ++ [Modifier op mode whom bits (Z.land bits mask)])
                end
            end
          else Ok (acc, op :: spec)
      | [] => Ok (acc, [])
      end
  end.

(** The constructor. *)
Definition make_transformer (spec : list Z) (umask : Z) : checked transformer :=
  match spec with
  | [] => Err (InvalidArgument "empty chmod mode")
  | c :: _ =>
      if is_oct_digit c then
        match parse_oct spec with
        | Some (mode, spec) =>
            if 0 <? zlen spec then Err (InvalidArgument "invalid octal chmod mode")
            else
              let mask := if 4 <? zlen spec then kAllModeBits else Z.lor (Z.lor (Z.land mode kAllUidBits) kStickyBit) kAllRWXBits in
              Ok (Transformer [Modifier (ch "=") normal kAllModeBits mode mask] false false umask)
        | None => Err (InvalidArgument "invalid octal chmod mode")
        end
      else
        match parse_whom spec 0 false false with
        | (Some (whom, rest), flag_D, flag_F) =>
            let? '(modifiers, rest) := parse_ops (S (length rest)) rest whom [] in
            match rest with
            | [] => Ok (Transformer modifiers flag_D flag_F umask)
            | _ => Err (InvalidArgument "trailing characters in chmod mode")
            end
        | (None, _, _) => Err (InvalidArgument "missing whom in chmod mode")
        end
  end.

(** ** The change of a mode *)

(** [~x] of a [uint32_t]. *)
Definition lnot32 (x : Z) : Z := Z.lxor x (Z.ones 32).

Definition modifier_bits (m : modifier) (mode : Z) (isdir : bool) : Z :=
  match m_mode m with
  | normal => m_bits m
  | promote_exec => if isdir || negb (Z.land mode kAllExecBits =? 0) then Z.lor (m_bits m) kAllExecBits else m_bits m
  | copy_from =>
      let bits := Z.land (m_bits m) mode in
      let bits := if Z.land bits kAllReadBits =? 0 then bits else Z.lor bits kAllReadBits in
      let bits := if Z.land bits kAllWriteBits =? 0 then bits else Z.lor bits kAllWriteBits in
      if Z.land bits kAllExecBits =? 0 then bits else Z.lor bits kAllExecBits
  end.

Definition apply_modifier (umask : Z) (m : modifier) (mode : Z) (isdir : bool) : checked Z :=
  let omit := if isdir then Z.land kAllUidBits (lnot32 (m_mask m)) else 0 in
  let bits := Z.land (Z.land (modifier_bits m mode isdir) (if m_whom m =? 0 then lnot32 umask else m_whom m)) (lnot32 omit) in
  if oper m =? ch "=" then Ok (Z.lor (Z.land mode (Z.lor (if m_whom m =? 0 then 0 else lnot32 (m_whom m)) omit)) bits)
  else if oper m =? ch "+" then Ok (Z.lor mode bits)
  else if oper m =? ch "-" then Ok (Z.land mode (lnot32 bits))
  else Err (Panic "internal error: invalid operator in modifier").

Fixpoint apply_modifiers (umask : Z) (ms : list modifier) (mode : Z) (isdir : bool) : checked Z :=
  match ms with
  | [] => Ok mode
  | m :: ms => let? mode := apply_modifier umask m mode isdir in apply_modifiers umask ms mode isdir
  end.

(** [transform]. *)
Definition transform (x : transformer) (mode : Z) (isdir : bool) : checked (option Z) :=
  if (flag_D_ x && negb isdir) || (flag_F_ x && isdir) then Ok None
  else let? mode := apply_modifiers (umask_ x) (modifiers_ x) mode isdir in Ok (Some mode).

(** [split_to]. *)
Fixpoint split_to (delimiter : Z) (part str : list Z) : list (list Z) :=
  match str with
  | [] => [part]
  | c :: str => if c =? delimiter then part :: split_to delimiter [] str else split_to delimiter (part ++ [c]) str
  end.

Fixpoint make_transformers (parts : list (list Z)) (umask : Z) : checked (list transformer) :=
  match parts with
  | [] => Ok []
  | part :: parts =>
      let? x := make_transformer part umask in
      let? xs := make_transformers parts umask in
      Ok (x :: xs)
  end.

(** [build_chain]. *)
Definition build_chain (spec : list Z) (umask : Z) : checked (list transformer) :=
  make_transformers (match spec with [] => [] | _ => split_to (ch ",") [] spec end) umask.

(** ** What a specification means *)

Inductive perm_class : Type := User | Group | Other.
Inductive perm_kind : Type := Read | Write | Exec.

(** The twelve permissions, and the bit of each. *)
Inductive permission : Type := Rwx (c : perm_class) (k : perm_kind) | SetUid | SetGid | Sticky.

Definition bit_of (b : permission) : Z :=
  match b with
  | SetUid => 11
  | SetGid => 10
  | Sticky => 9
  | Rwx c k => (match c with User => 6 | Group => 3 | Other => 0 end) + (match k with Read => 2 | Write => 1 | Exec => 0 end)
  end.

Definition has (mode : Z) (b : permission) : bool := Z.testbit mode (bit_of b).

(** Specifications: whom it is about and which entries, and the operations. *)
Inductive who : Type := WhoU | WhoG | WhoO | WhoA | OnlyD | OnlyF.
Inductive letter : Type := LetterR | LetterW | LetterX | LetterS | LetterT | LetterBigX.
Inductive operator : Type := Assign | Plus | Minus.
Inductive what : Type := Letters (ls : list letter) | CopyOf (c : perm_class).

Record symbolic : Type := Symbolic { s_who : list who; s_ops : list (operator * what) }.

Definition who_char (w : who) : Z := ch (match w with WhoU => "u" | WhoG => "g" | WhoO => "o" | WhoA => "a" | OnlyD => "D" | OnlyF => "F" end)%char.
Definition letter_char (l : letter) : Z :=
  ch (match l with LetterR => "r" | LetterW => "w" | LetterX => "x" | LetterS => "s" | LetterT => "t" | LetterBigX => "X" end)%char.
Definition operator_char (op : operator) : Z := ch (match op with Assign => "=" | Plus => "+" | Minus => "-" end)%char.
Definition class_char (c : perm_class) : Z := ch (match c with User => "u" | Group => "g" | Other => "o" end)%char.

Definition print_what (w : what) : list Z := match w with Letters ls => map letter_char ls | CopyOf c => [class_char c] end.
Definition print_ops (ops : list (operator * what)) : list Z := concat (map (fun o => operator_char o.1 :: print_what o.2) ops).
Definition print_symbolic (s : symbolic) : list Z := map who_char (s_who s) ++ print_ops (s_ops s).

(** At least one operation, and the last has permissions. *)
Definition symbolic_ok (s : symbolic) : bool := match last (s_ops s) with Some (_, Letters []) | None => false | _ => true end.

(** Whom a specification is about; without any, everybody that the umask
    allows. *)
Definition covers (w : who) (b : permission) : bool :=
  match w, b with
  | WhoU, (SetUid | Rwx User _) | WhoG, (SetGid | Rwx Group _) | WhoO, (Sticky | Rwx Other _) | WhoA, _ => true
  | _, _ => false
  end.

Definition anybody (w : who) : bool := match w with OnlyD | OnlyF => false | _ => true end.
Definition named (ws : list who) (b : permission) : bool := existsb (fun w => covers w b) ws.
Definition affects (ws : list who) (umask : Z) (b : permission) : bool := if existsb anybody ws then named ws b else negb (has umask b).

(** The permissions a letter stands for, with the mode before. *)
Definition executable (mode : Z) : bool := has mode (Rwx User Exec) || has mode (Rwx Group Exec) || has mode (Rwx Other Exec).

Definition letter_asks (l : letter) (mode : Z) (isdir : bool) (b : permission) : bool :=
  match l, b with
  | LetterR, Rwx _ Read | LetterW, Rwx _ Write | LetterX, Rwx _ Exec | LetterS, (SetUid | SetGid) | LetterT, Sticky => true
  | LetterBigX, Rwx _ Exec => isdir || executable mode
  | _, _ => false
  end.

Definition asks (w : what) (mode : Z) (isdir : bool) (b : permission) : bool :=
  match w, b with
  | Letters ls, b => existsb (fun l => letter_asks l mode isdir b) ls
  | CopyOf c, Rwx _ k => has mode (Rwx c k)
  | CopyOf _, _ => false
  end.

(** Directories keep their set-user-id and set-group-id permissions unless these
    are mentioned. *)
Definition mentions_s (w : what) : bool := match w with Letters ls => existsb (fun l => match l with LetterS => true | _ => false end) ls | CopyOf _ => false end.

Definition kept (ws : list who) (w : what) (isdir : bool) (b : permission) : bool :=
  match b with
  | SetUid | SetGid => isdir && negb (mentions_s w && (if existsb anybody ws then named ws b else true))
  | _ => false
  end.

(** A permission after an operation. *)
Definition new_permission (ws : list who) (umask mode : Z) (isdir : bool) (op : operator) (w : what) (b : permission) : bool :=
  let changed := asks w mode isdir b && affects ws umask b && negb (kept ws w isdir b) in
  match op with
  | Plus => has mode b || changed
  | Minus => has mode b && negb changed
  | Assign => if (existsb anybody ws && negb (named ws b)) || kept ws w isdir b then has mode b else changed
  end.

Definition all_permissions : list permission :=
  [SetUid; SetGid; Sticky; Rwx User Read; Rwx User Write; Rwx User Exec; Rwx Group Read; Rwx Group Write; Rwx Group Exec;
   Rwx Other Read; Rwx Other Write; Rwx Other Exec].

Definition mode_of (f : permission -> bool) : Z := foldr (fun b m => Z.lor (if f b then 2 ^ bit_of b else 0) m) 0 all_permissions.

(** The mode after all operations; each sees the mode the one before has left. *)
Definition change_mode (ws : list who) (umask : Z) (isdir : bool) (ops : list (operator * what)) (mode : Z) : Z :=
  foldl (fun mode o => mode_of (new_permission ws umask mode isdir o.1 o.2)) mode ops.

Definition applies_to (ws : list who) (isdir : bool) : bool :=
  negb (existsb (fun w => match w with OnlyD => negb isdir | OnlyF => isdir | _ => false end) ws).

(** ** Bits *)

Definition in_mode (x : Z) : Prop := 0 <= x < 2 ^ 12.

Lemma in_mode_bits x : 0 <= x -> (forall i, 12 <= i -> Z.testbit x i = false) -> in_mode x.
Proof.
  intros H0 Hb. split; [done|]. destruct (Z_lt_le_dec x (2 ^ 12)) as [|Hge]; [done|]. exfalso.
  assert (0 < x) as Hpos by lia. pose proof (Z.bit_log2 x Hpos) as H. rewrite Hb in H; [done|]. apply Z.log2_le_pow2; lia.
Qed.

Lemma mode_above x i : in_mode x -> 12 <= i -> Z.testbit x i = false.
Proof. intros [H0 H1] Hi. apply (testbit_above 12); lia. Qed.

Lemma in_mode_lor x y : in_mode x -> in_mode y -> in_mode (Z.lor x y).
Proof.
  intros Hx Hy. apply in_mode_bits; [apply Z.lor_nonneg; split; [apply Hx|apply Hy]|]. intros i Hi. by rewrite Z.lor_spec, !mode_above.
Qed.

Lemma in_mode_land x y : in_mode x -> in_mode (Z.land x y).
Proof.
  intros Hx. apply in_mode_bits; [apply Z.land_nonneg; left; apply Hx|]. intros i Hi. by rewrite Z.land_spec, mode_above.
Qed.

Lemma bit_of_range b : 0 <= bit_of b < 12.
Proof. by destruct b as [[] []| | |]. Qed.

Lemma has_lor x y b : has (Z.lor x y) b = has x b || has y b.
Proof. apply Z.lor_spec. Qed.

Lemma has_land x y b : has (Z.land x y) b = has x b && has y b.
Proof. apply Z.land_spec. Qed.

Lemma has_lnot32 x b : has (lnot32 x) b = negb (has x b).
Proof. unfold has, lnot32. pose proof (bit_of_range b). rewrite Z.lxor_spec, Z.ones_spec_low by lia. by destruct (Z.testbit x _). Qed.

Lemma has_zero b : has 0 b = false.
Proof. apply Z.bits_0. Qed.

Create Rewrite HintDb has.
#[export] Hint Rewrite has_lor has_land has_lnot32 has_zero : has.

Lemma permission_at i : 0 <= i < 12 -> exists b, bit_of b = i.
Proof.
  intros Hi. assert (i ∈ map bit_of [Rwx Other Exec; Rwx Other Write; Rwx Other Read; Rwx Group Exec; Rwx Group Write; Rwx Group Read;
    Rwx User Exec; Rwx User Write; Rwx User Read; Sticky; SetGid; SetUid]) as H.
  { cbn [map bit_of]. rewrite !elem_of_cons. lia. }
  apply list_elem_of_fmap in H as (b & -> & _). by exists b.
Qed.

(** Whether a mode has one of the permissions of a mask. *)
Lemma land_zero x m : in_mode m -> (Z.land x m =? 0) = true <-> forall b, has x b && has m b = false.
Proof.
  intros Hm. rewrite Z.eqb_eq. split.
  - intros H b. by rewrite <- has_land, H, has_zero.
  - intros H. apply Z.bits_inj'. intros i Hi. rewrite Z.land_spec, Z.bits_0. destruct (Z_lt_le_dec i 12) as [Hlt|Hge].
    + destruct (permission_at i) as [b <-]; [done|]. apply H.
    + by rewrite (mode_above m), andb_false_r.
Qed.

Lemma executable_land mode : negb (Z.land mode kAllExecBits =? 0) = executable mode.
Proof.
  destruct (executable mode) eqn:E.
  - apply negb_true_iff. destruct (Z.land mode kAllExecBits =? 0) eqn:Ez; [|done]. pose proof (proj1 (land_zero mode kAllExecBits ltac:(by split)) Ez) as H.
    unfold executable in E. pose proof (H (Rwx User Exec)) as H1. pose proof (H (Rwx Group Exec)) as H2. pose proof (H (Rwx Other Exec)) as H3.
    change (has kAllExecBits (Rwx User Exec)) with true in H1. change (has kAllExecBits (Rwx Group Exec)) with true in H2. change (has kAllExecBits (Rwx Other Exec)) with true in H3.
    rewrite andb_true_r in H1, H2, H3. by rewrite H1, H2, H3 in E.
  - apply negb_false_iff. apply (land_zero mode kAllExecBits ltac:(by split)). unfold executable in E. apply orb_false_iff in E as [E E3]. apply orb_false_iff in E as [E1 E2].
    intros [c k| | |]; [|by rewrite andb_false_r..]. destruct k; [by destruct c; rewrite andb_false_r..|]. by destruct c; rewrite ?E1, ?E2, ?E3.
Qed.

Definition class_bits (c : perm_class) : Z := match c with User => kAllUserBits | Group => kAllGroupBits | Other => kAllOtherBits end.
Definition kind_bits (k : perm_kind) : Z := match k with Read => kAllReadBits | Write => kAllWriteBits | Exec => kAllExecBits end.

(** The steps of the copy of a class. *)
Definition spread (k : perm_kind) (bits : Z) : Z := if Z.land bits (kind_bits k) =? 0 then bits else Z.lor bits (kind_bits k).

Lemma has_class_bits c b : has (class_bits c) b = match b with Rwx c' _ => match c, c' with User, User | Group, Group | Other, Other => true | _, _ => false end | _ => false end.
Proof. by destruct c, b as [[] []| | |]. Qed.

Lemma has_kind_bits k b : has (kind_bits k) b = match b with Rwx _ k' => match k, k' with Read, Read | Write, Write | Exec, Exec => true | _, _ => false end | _ => false end.
Proof. by destruct k, b as [[] []| | |]. Qed.

Lemma has_spread k x b : has (spread k x) b = has x b || (has (kind_bits k) b && (has x (Rwx User k) || has x (Rwx Group k) || has x (Rwx Other k))).
Proof.
  unfold spread. destruct (Z.land x (kind_bits k) =? 0) eqn:E.
  - assert (in_mode (kind_bits k)) as Hk by (destruct k; by split). assert (forall c, has x (Rwx c k) = false) as Hc.
    { intros c. pose proof (proj1 (land_zero x _ Hk) E (Rwx c k)) as H. rewrite has_kind_bits in H. destruct k; by rewrite andb_true_r in H. }
    by rewrite !Hc, andb_false_r, orb_false_r.
  - rewrite has_lor. f_equal. destruct (has (kind_bits k) b) eqn:Eb; [|done]. cbn. symmetry.
    destruct (has x (Rwx User k) || has x (Rwx Group k) || has x (Rwx Other k)) eqn:Eo; [done|]. exfalso.
    assert ((Z.land x (kind_bits k) =? 0) = true) as H; [|congruence]. apply (land_zero x (kind_bits k) ltac:(destruct k; by split)).
    apply orb_false_iff in Eo as [Eo E3]. apply orb_false_iff in Eo as [E1 E2]. intros b'. rewrite has_kind_bits.
    destruct b' as [c k'| | |]; [|by rewrite andb_false_r..]. destruct k, k', c; rewrite ?andb_false_r; rewrite ?E1, ?E2, ?E3; done.
Qed.

(** ** The change of a mode implements the meaning *)

Definition who_step (m : Z) (w : who) : Z :=
  match w with
  | WhoU => Z.lor m (Z.lor kSetUidBit kAllUserBits)
  | WhoG => Z.lor m (Z.lor kSetGidBit kAllGroupBits)
  | WhoO => Z.lor m (Z.lor kStickyBit kAllOtherBits)
  | WhoA => kAllModeBits
  | OnlyD | OnlyF => m
  end.

Definition who_mask (ws : list who) : Z := foldl who_step 0 ws.

Lemma has_who_mask ws b : has (who_mask ws) b = named ws b.
Proof.
  unfold who_mask. enough (forall m, has (foldl who_step m ws) b = has m b || named ws b) as H by (by rewrite H, has_zero).
  induction ws as [|w ws IH]; intros m; [by rewrite orb_false_r|]. cbn [foldl named existsb]. rewrite IH. fold (named ws b).
  destruct w; cbn [who_step covers]; rewrite ?has_lor, ?orb_assoc; rewrite ?orb_false_r; try done; destruct b as [[] []| | |]; cbn; by rewrite ?orb_true_r, ?orb_false_r.
Qed.

Lemma who_mask_range ws : in_mode (who_mask ws).
Proof.
  unfold who_mask. enough (forall m, in_mode m -> in_mode (foldl who_step m ws)) as H by (by apply H).
  induction ws as [|w ws IH]; intros m Hm; [done|]. apply IH. destruct w; try done; by apply in_mode_lor.
Qed.

Lemma who_mask_zero ws : (who_mask ws =? 0) = negb (existsb anybody ws).
Proof.
  destruct (existsb anybody ws) eqn:E; cbn [negb].
  - apply existsb_exists in E as (w & Hw & Ea). apply Z.eqb_neq. intros H0.
    assert (exists b, covers w b = true) as [b Hb] by (destruct w; [by exists SetUid|by exists SetGid|by exists Sticky|by exists SetUid|done|done]).
    assert (named ws b = true) as Hn by (apply existsb_exists; by exists w). rewrite <- has_who_mask, H0, has_zero in Hn. done.
  - apply Z.eqb_eq. assert (forall b, named ws b = false) as Hn.
    { intros b. apply not_true_iff_false. intros H. apply existsb_exists in H as (w & Hw & Hc). apply not_true_iff_false in E. apply E, existsb_exists. exists w. split; [done|].
      by destruct w. }
    apply Z.bits_inj'. intros i Hi. rewrite Z.bits_0. destruct (Z_lt_le_dec i 12) as [Hlt|Hge].
    + destruct (permission_at i) as [b <-]; [done|]. change (has (who_mask ws) b = false). by rewrite has_who_mask, Hn.
    + apply (mode_above (who_mask ws)); [apply who_mask_range|done].
Qed.

Definition letter_step (bits : Z) (l : letter) : Z :=
  match l with
  | LetterR => Z.lor bits kAllReadBits
  | LetterW => Z.lor bits kAllWriteBits
  | LetterX => Z.lor bits kAllExecBits
  | LetterS => Z.lor bits kAllUidBits
  | LetterT => Z.lor bits kStickyBit
  | LetterBigX => bits
  end.

Definition letters_bits (ls : list letter) : Z := foldl letter_step 0 ls.

Definition plain (l : letter) (b : permission) : bool := match l with LetterBigX => false | _ => letter_asks l 0 false b end.

Lemma has_letters ls b : has (letters_bits ls) b = existsb (fun l => plain l b) ls.
Proof.
  unfold letters_bits. enough (forall m, has (foldl letter_step m ls) b = has m b || existsb (fun l => plain l b) ls) as H by (by rewrite H, has_zero).
  induction ls as [|l ls IH]; intros m; [by rewrite orb_false_r|]. cbn [foldl existsb]. rewrite IH.
  destruct l; cbn [letter_step]; rewrite ?has_lor, <- ?orb_assoc; try done; f_equal; f_equal; by destruct b as [[] []| | |].
Qed.

Lemma letters_range ls : in_mode (letters_bits ls).
Proof.
  unfold letters_bits. enough (forall m, in_mode m -> in_mode (foldl letter_step m ls)) as H by (by apply H).
  induction ls as [|l ls IH]; intros m Hm; [done|]. apply IH. destruct l; try done; by apply in_mode_lor.
Qed.

Definition is_big_x (l : letter) : bool := match l with LetterBigX => true | _ => false end.

(** The modifier of an operation. *)
Definition modifier_of (ws : list who) (o : operator * what) : modifier :=
  let mask := if who_mask ws =? 0 then kAllModeBits else who_mask ws in
  match o.2 with
  | Letters ls => Modifier (operator_char o.1) (if existsb is_big_x ls then promote_exec else normal) (who_mask ws) (letters_bits ls) (Z.land (letters_bits ls) mask)
  | CopyOf c => Modifier (operator_char o.1) copy_from (who_mask ws) (class_bits c) (Z.land (class_bits c) mask)
  end.

Lemma letters_ask ls mode isdir b : existsb (fun l => letter_asks l mode isdir b) ls =
  existsb (fun l => plain l b) ls || (existsb is_big_x ls && (has kAllExecBits b && (isdir || executable mode))).
Proof.
  induction ls as [|l ls IH]; [done|]. cbn [existsb]. rewrite IH. destruct (existsb (fun l => plain l b) ls), (existsb is_big_x ls), (isdir || executable mode) eqn:E;
    destruct l, b as [[] []| | |]; cbn; rewrite ?E; done.
Qed.

(** What a modifier asks for. *)
Lemma has_modifier_bits ws (o : operator * what) mode isdir b : has (modifier_bits (modifier_of ws o) mode isdir) b = asks o.2 mode isdir b.
Proof.
  destruct o as [op [ls|c]]; unfold modifier_of, modifier_bits; cbn [fst snd m_mode m_bits].
  - cbn [asks]. rewrite letters_ask. destruct (existsb is_big_x ls) eqn:E; cbn [m_mode m_bits andb].
    + rewrite executable_land. destruct (isdir || executable mode); [by rewrite has_lor, has_letters, andb_true_r|by rewrite has_letters, !andb_false_r, orb_false_r].
    + by rewrite has_letters, orb_false_r.
  - change (has (spread Exec (spread Write (spread Read (Z.land (class_bits c) mode)))) b = asks (CopyOf c) mode isdir b).
    rewrite !has_spread, !has_land, !has_class_bits, !has_kind_bits. cbn [asks].
    destruct c, b as [[] []| | |]; cbn [andb orb]; rewrite ?orb_false_r, ?orb_diag, ?andb_false_r, ?orb_false_r; done.
Qed.

Lemma has_omit ws (o : operator * what) (isdir : bool) b : has (if isdir then Z.land kAllUidBits (lnot32 (m_mask (modifier_of ws o))) else 0) b = kept ws o.2 isdir b.
Proof.
  assert (has (if who_mask ws =? 0 then kAllModeBits else who_mask ws) b = if existsb anybody ws then named ws b else true) as Hmask.
  { rewrite who_mask_zero. destruct (existsb anybody ws); cbn [negb]; [apply has_who_mask|by destruct b as [[] []| | |]]. }
  destruct isdir; [|rewrite has_zero; by destruct b]. rewrite has_land, has_lnot32. destruct o as [op [ls|c]]; cbn [modifier_of fst snd m_mask]; rewrite has_land, Hmask.
  - rewrite has_letters. destruct b as [c k| | |]; cbn [kept].
    + by destruct c, k.
    + change (has kAllUidBits SetUid) with true. cbn [andb mentions_s]. f_equal. f_equal. induction ls as [|l ls IH]; [done|]. cbn [existsb]. rewrite IH. by destruct l.
    + change (has kAllUidBits SetGid) with true. cbn [andb mentions_s]. f_equal. f_equal. induction ls as [|l ls IH]; [done|]. cbn [existsb]. rewrite IH. by destruct l.
    + done.
  - rewrite has_class_bits. by destruct c, b as [[] []| | |].
Qed.

Lemma in_mode_spread k x : in_mode x -> in_mode (spread k x).
Proof. intros Hx. unfold spread. destruct (_ =? 0); [done|]. apply in_mode_lor; [done|by destruct k; split]. Qed.

Lemma modifier_bits_range m mode isdir : in_mode (m_bits m) -> in_mode (modifier_bits m mode isdir).
Proof.
  intros Hb. unfold modifier_bits. destruct (m_mode m); [done|destruct (_ || _); [by apply in_mode_lor|done]|].
  change (in_mode (spread Exec (spread Write (spread Read (Z.land (m_bits m) mode))))). by apply in_mode_spread, in_mode_spread, in_mode_spread, in_mode_land.
Qed.

(** A modifier does what its operation says. *)
Lemma apply_modifier_ok ws (o : operator * what) umask mode isdir : in_mode mode -> exists mode', apply_modifier umask (modifier_of ws o) mode isdir = Ok mode' /\ in_mode mode' /\
  forall b, has mode' b = new_permission ws umask mode isdir o.1 o.2 b.
Proof.
  intros Hm. unfold apply_modifier. set (omit := if isdir then Z.land kAllUidBits (lnot32 (m_mask (modifier_of ws o))) else 0).
  set (bits := Z.land (Z.land (modifier_bits (modifier_of ws o) mode isdir) (if m_whom (modifier_of ws o) =? 0 then lnot32 umask else m_whom (modifier_of ws o))) (lnot32 omit)).
  assert (m_whom (modifier_of ws o) = who_mask ws /\ oper (modifier_of ws o) = operator_char o.1) as [Ew Eo] by (by destruct o as [op []]).
  assert (forall b, has omit b = kept ws o.2 isdir b) as Homit by (intros b; apply has_omit).
  assert (forall b, has bits b = asks o.2 mode isdir b && affects ws umask b && negb (kept ws o.2 isdir b)) as Hbits.
  { intros b. unfold bits. rewrite !has_land, has_lnot32, Homit, has_modifier_bits, Ew, who_mask_zero. unfold affects.
    destruct (existsb anybody ws); cbn [negb]; [by rewrite has_who_mask|by rewrite has_lnot32]. }
  assert (in_mode bits) as Hr.
  { unfold bits. apply in_mode_land, in_mode_land, modifier_bits_range. destruct o as [op [ls|[]]]; [apply letters_range|by split..]. }
  rewrite Eo, Ew, who_mask_zero. destruct o as [[] w]; cbn [fst snd] in *.
  - change (operator_char Assign =? ch "=") with true. eexists. split; [done|]. split; [apply in_mode_lor; [by apply in_mode_land|done]|]. intros b.
    autorewrite with has. rewrite Homit, Hbits. cbn [new_permission]. assert (has (if negb (existsb anybody ws) then 0 else lnot32 (who_mask ws)) b = existsb anybody ws && negb (named ws b)) as ->
      by (destruct (existsb anybody ws); cbn [negb]; [by rewrite has_lnot32, has_who_mask|apply has_zero]).
    unfold affects. destruct (has mode b), (asks w mode isdir b), (existsb anybody ws), (named ws b), (has umask b), (kept ws w isdir b); done.
  - change (operator_char Plus =? ch "=") with false. change (operator_char Plus =? ch "+") with true. eexists. split; [done|]. split; [by apply in_mode_lor|].
    intros b. by rewrite has_lor, Hbits.
  - change (operator_char Minus =? ch "=") with false. change (operator_char Minus =? ch "+") with false. change (operator_char Minus =? ch "-") with true.
    eexists. split; [done|]. split; [by apply in_mode_land|]. intros b. by rewrite has_land, has_lnot32, Hbits.
Qed.

(** The mode with given permissions. *)
Lemma mode_ext x y : in_mode x -> in_mode y -> (forall b, has x b = has y b) -> x = y.
Proof.
  intros Hx Hy H. apply Z.bits_inj'. intros i Hi. destruct (Z_lt_le_dec i 12) as [Hlt|Hge]; [|by rewrite !mode_above].
  destruct (permission_at i) as [b <-]; [done|]. apply H.
Qed.

Lemma has_bit (c : bool) x b : has (if c then 2 ^ bit_of x else 0) b = c && (bit_of x =? bit_of b).
Proof.
  destruct c; [|apply has_zero]. unfold has. pose proof (bit_of_range x). by rewrite Z.pow2_bits_eqb by lia.
Qed.

Lemma has_mode_of f b : has (mode_of f) b = f b.
Proof.
  unfold mode_of, all_permissions. cbn [foldr]. rewrite !has_lor, !has_bit, has_zero.
  destruct b as [[] []| | |]; cbn [bit_of Z.add Z.eqb Pos.add Pos.eqb Pos.succ]; by rewrite ?andb_true_r, ?andb_false_r, ?orb_false_r.
Qed.

Lemma mode_of_range f : in_mode (mode_of f).
Proof. unfold mode_of, all_permissions. cbn [foldr bit_of]. repeat (apply in_mode_lor; [by destruct (f _)|]). done. Qed.

Lemma apply_modifiers_ok ws ops umask mode isdir : in_mode mode ->
  apply_modifiers umask (map (modifier_of ws) ops) mode isdir = Ok (change_mode ws umask isdir ops mode) /\ in_mode (change_mode ws umask isdir ops mode).
Proof.
  revert mode. induction ops as [|o ops IH]; intros mode Hm; [done|]. cbn [map apply_modifiers change_mode foldl].
  destruct (apply_modifier_ok ws o umask mode isdir Hm) as (m & -> & Hr & Hb). cbn [rbind].
  assert (mode_of (new_permission ws umask mode isdir o.1 o.2) = m) as ->; [|by apply IH].
  apply mode_ext; [apply mode_of_range|done|]. intros b. by rewrite has_mode_of, Hb.
Qed.

(** ** The parser reads what is printed *)

(** Comparisons of characters that are known. *)
Ltac eval_chars :=
  repeat match goal with
         | |- context [?x =? ch ?c] => let v := eval vm_compute in (x =? ch c) in match v with true => idtac | false => idtac end; change (x =? ch c) with v; cbv iota
         end.

Lemma parse_whom_print ws op rest whom D F : is_op op = true ->
  parse_whom (map who_char ws ++ op :: rest) whom D F =
    (Some (foldl who_step whom ws, op :: rest), D || existsb (fun w => match w with OnlyD => true | _ => false end) ws, F || existsb (fun w => match w with OnlyF => true | _ => false end) ws).
Proof.
  intros Hop. revert whom D F. induction ws as [|w ws IH]; intros whom D F.
  - cbn [map app parse_whom foldl existsb]. rewrite !orb_false_r, Hop.
    unfold is_op in Hop. destruct (Z.eqb_spec op (ch "=")) as [->|]; [done|]. destruct (Z.eqb_spec op (ch "+")) as [->|]; [done|]. by destruct (Z.eqb_spec op (ch "-")) as [->|].
  - destruct w; cbn [map app parse_whom]; eval_chars; cbn [existsb foldl who_step orb]; rewrite IH; by rewrite ?orb_true_r.
Qed.

Lemma operator_is_op op : is_op (operator_char op) = true.
Proof. by destruct op. Qed.

(** What follows an operation: another one, or nothing. *)
Definition op_next (rest : list Z) : Prop := match rest with [] => True | c :: _ => is_op c = true end.

Lemma print_ops_next ops : op_next (print_ops ops).
Proof. destruct ops as [|[op w] ops]; [done|]. apply operator_is_op. Qed.

Lemma parse_perms_print ls rest mode bits : op_next rest ->
  parse_perms (map letter_char ls ++ rest) mode bits = (if existsb is_big_x ls then promote_exec else mode, foldl letter_step bits ls, rest).
Proof.
  intros Hrest. revert mode bits. induction ls as [|l ls IH]; intros mode bits.
  - cbn [map app existsb foldl]. destruct rest as [|c rest]; [done|]. cbn in Hrest. unfold is_op in Hrest. cbn [parse_perms].
    destruct (Z.eqb_spec c (ch "=")) as [->|]; [done|]. destruct (Z.eqb_spec c (ch "+")) as [->|]; [done|]. by destruct (Z.eqb_spec c (ch "-")) as [->|].
  - destruct l; cbn [map app parse_perms]; eval_chars; rewrite IH; cbn [existsb foldl is_big_x orb]; try done. by destruct (existsb is_big_x ls).
Qed.

Lemma not_octal c rest : is_oct_digit c = false -> parse_oct (c :: rest) = None.
Proof. intros H. unfold parse_oct, from_chars_8. by rewrite H. Qed.

Lemma parse_op_print fuel op w rest ws acc : op_next rest -> (rest = [] -> w <> Letters []) ->
  parse_ops (S fuel) (operator_char op :: print_what w ++ rest) (who_mask ws) acc = parse_ops fuel rest (who_mask ws) (acc ++ [modifier_of ws (op, w)]).
Proof.
  intros Hrest Hne. cbn [parse_ops]. rewrite operator_is_op. destruct w as [ls|c].
  - cbn [print_what]. assert (exists x y, map letter_char ls ++ rest = x :: y /\ is_oct_digit x = false /\ is_ugo x = false) as (x & y & E & Ho & Hu).
    { destruct ls as [|l ls]; [|eexists _, _; split; [done|]; by destruct l]. destruct rest as [|c rest]; [by destruct (Hne eq_refl)|]. exists c, rest. split; [done|].
      cbn in Hrest. unfold is_op in Hrest. destruct (Z.eqb_spec c (ch "=")) as [->|]; [done|]. destruct (Z.eqb_spec c (ch "+")) as [->|]; [done|]. by destruct (Z.eqb_spec c (ch "-")) as [->|]. }
    rewrite E, (not_octal x y Ho), Hu, <- E, (parse_perms_print ls rest normal 0 Hrest). done.
  - cbn [print_what app]. rewrite not_octal by (by destruct c). by destruct c.
Qed.

Lemma parse_ops_print ops fuel ws acc : (length ops < fuel)%nat -> match last ops with Some (_, Letters []) => false | _ => true end = true ->
  parse_ops fuel (print_ops ops) (who_mask ws) acc = Ok (acc ++ map (modifier_of ws) ops, []).
Proof.
  revert fuel acc. induction ops as [|[op w] ops IH]; intros [|fuel] acc Hf Hlast; [cbn in Hf; lia|by rewrite app_nil_r|cbn in Hf; lia|].
  unfold print_ops. cbn [map concat fst snd]. fold (print_ops ops). rewrite <- app_comm_cons, parse_op_print; [|apply print_ops_next|].
  - rewrite IH; [by rewrite <- app_assoc|cbn in Hf; lia|]. by destruct ops.
  - intros E ->. destruct ops as [|[op' w'] ops]; [done|]. unfold print_ops in E. discriminate E.
Qed.

Lemma print_ops_length ops : (length ops <= length (print_ops ops))%nat.
Proof. induction ops as [|[op w] ops IH]; [done|]. unfold print_ops in *. cbn [map concat fst snd]. rewrite length_app. cbn [length]. lia. Qed.

Lemma make_transformer_print s umask : symbolic_ok s = true -> make_transformer (print_symbolic s) umask =
  Ok (Transformer (map (modifier_of (s_who s)) (s_ops s)) (existsb (fun w => match w with OnlyD => true | _ => false end) (s_who s))
        (existsb (fun w => match w with OnlyF => true | _ => false end) (s_who s)) umask).
Proof.
  destruct s as [ws ops]. unfold symbolic_ok, print_symbolic. cbn [s_who s_ops]. intros Hok. destruct ops as [|[op w] ops]; [done|].
  assert (exists rest, print_ops ((op, w) :: ops) = operator_char op :: rest) as [rest Er] by (by eexists).
  assert (exists x y, map who_char ws ++ operator_char op :: rest = x :: y /\ is_oct_digit x = false) as (x & y & Exy & Hx).
  { destruct ws as [|w0 ws]; [eexists _, _; split; [done|]; by destruct op|eexists _, _; split; [done|]; by destruct w0]. }
  unfold make_transformer. rewrite Er, Exy, Hx, <- Exy, (parse_whom_print ws _ _ _ _ _ (operator_is_op op)), <- Er. fold (who_mask ws).
  rewrite parse_ops_print; [done|pose proof (print_ops_length ((op, w) :: ops)); lia|]. by destruct (last ((op, w) :: ops)) as [[? [[|]|]]|].
Qed.

(** ** Every specification *)

Record modifier_ok (m : modifier) : Prop := { mo_bits : in_mode (m_bits m); mo_oper : is_op (oper m) = true }.

Lemma apply_modifier_range umask m mode isdir : modifier_ok m -> in_mode mode -> exists mode', apply_modifier umask m mode isdir = Ok mode' /\ in_mode mode'.
Proof.
  intros [Hb Ho] Hm. unfold apply_modifier. set (omit := if isdir then Z.land kAllUidBits (lnot32 (m_mask m)) else 0).
  set (bits := Z.land (Z.land (modifier_bits m mode isdir) (if m_whom m =? 0 then lnot32 umask else m_whom m)) (lnot32 omit)).
  assert (in_mode bits) as Hr by (by apply in_mode_land, in_mode_land, modifier_bits_range). unfold is_op in Ho.
  destruct (oper m =? ch "="); [eexists; split; [done|by apply in_mode_lor; [apply in_mode_land|]]|].
  destruct (oper m =? ch "+"); [eexists; split; [done|by apply in_mode_lor]|].
  destruct (oper m =? ch "-"); [eexists; split; [done|by apply in_mode_land]|done].
Qed.

Lemma apply_modifiers_range umask ms mode isdir : Forall modifier_ok ms -> in_mode mode -> exists mode', apply_modifiers umask ms mode isdir = Ok mode' /\ in_mode mode'.
Proof.
  intros H. revert mode. induction H as [|m ms Hm _ IH]; intros mode Hmode; [by exists mode|]. cbn [apply_modifiers].
  destruct (apply_modifier_range umask m mode isdir Hm Hmode) as (mode' & -> & H'). cbn [rbind]. by apply IH.
Qed.

Lemma parse_perms_range spec mode bits : in_mode bits -> let '(_, bits', rest) := parse_perms spec mode bits in in_mode bits' /\ (length rest <= length spec)%nat.
Proof.
  revert mode bits. induction spec as [|c spec IH]; intros mode bits Hb; [done|].
  assert (forall m b, in_mode b -> let '(_, bits', rest) := parse_perms spec m b in in_mode bits' /\ (length rest <= length (c :: spec))%nat) as Hstep.
  { intros m b Hm. specialize (IH m b Hm). destruct (parse_perms spec m b) as [[? ?] ?]. cbn [length]. split; [apply IH|]. destruct IH. lia. }
  cbn [parse_perms]. repeat (destruct (_ =? _); [apply Hstep; try done; by apply in_mode_lor|]). done.
Qed.

Lemma parse_oct_range spec mode rest : parse_oct spec = Some (mode, rest) -> in_mode mode.
Proof.
  unfold parse_oct, from_chars_8. destruct spec as [|c spec]; [done|]. destruct (is_oct_digit c) eqn:E; [|done].
  assert (forall l v, 0 <= v -> 0 <= (oct_digits v l).1) as Hnn.
  { induction l as [|c0 l IH]; intros v Hv; [done|]. cbn [oct_digits]. destruct (is_oct_digit c0) eqn:E0; [|done]. apply IH.
    unfold is_oct_digit in E0. change (ch "0") with 48 in *. lia. }
  specialize (Hnn (c :: spec) 0 ltac:(lia)). destruct (oct_digits 0 (c :: spec)) as [v r]. cbn in Hnn. destruct (v <? 2 ^ 32); [|done].
  destruct (Z.leb_spec v kAllModeBits); [|done]. intros [= <- _]. change kAllModeBits with 4095 in *. unfold in_mode. lia.
Qed.

Lemma ugo_bits_ok c : is_ugo c = true -> exists bits, ugo_bits c = Ok bits /\ in_mode bits.
Proof.
  unfold is_ugo, ugo_bits. destruct (c =? ch "u"); [by eexists|]. destruct (c =? ch "g"); [by eexists|]. by destruct (c =? ch "o"); [eexists|].
Qed.

Lemma parse_ops_range fuel spec whom acc : (length spec < fuel)%nat -> Forall modifier_ok acc ->
  match parse_ops fuel spec whom acc with Ok (ms, _) => Forall modifier_ok ms | Err (InvalidArgument _) => True | Err _ => False end.
Proof.
  revert spec acc. induction fuel as [|fuel IH]; intros spec acc Hf Hacc; [lia|]. cbn [parse_ops]. destruct spec as [|op spec]; [done|].
  destruct (is_op op) eqn:Eop; [|done]. destruct spec as [|c rest]; [done|]. cbn [length] in Hf.
  assert (forall mode bits mask, in_mode bits -> Forall modifier_ok (acc ++ [Modifier op mode whom bits mask])) as Hadd.
  { intros mode bits mask Hb. apply Forall_app. split; [done|]. by constructor. }
  destruct (parse_oct (c :: rest)) as [[mode r]|] eqn:Eo.
  - destruct (negb (whom =? 0)); [done|]. destruct r; [|done]. apply Forall_app. split; [done|]. constructor; [|done]. split; [by eapply parse_oct_range|done].
  - destruct (is_ugo c) eqn:Eu.
    + destruct (ugo_bits_ok c Eu) as (bits & -> & Hb). cbn [rbind]. apply IH; [lia|by apply Hadd].
    + pose proof (parse_perms_range (c :: rest) normal 0 ltac:(by split)) as H. destruct (parse_perms (c :: rest) normal 0) as [[mode bits] r]. destruct H as [Hb Hl].
      cbn [length] in Hl. apply IH; [lia|by apply Hadd].
Qed.

Lemma make_transformer_range spec umask :
  match make_transformer spec umask with Ok x => Forall modifier_ok (modifiers_ x) | Err (InvalidArgument _) => True | Err _ => False end.
Proof.
  unfold make_transformer. destruct spec as [|c spec]; [done|]. destruct (is_oct_digit c).
  - destruct (parse_oct (c :: spec)) as [[mode r]|] eqn:Eo; [|done]. destruct (0 <? zlen r); [done|]. cbn [modifiers_]. constructor; [|done]. split; [by eapply parse_oct_range|done].
  - destruct (parse_whom (c :: spec) 0 false false) as [[[[whom rest]|] D] F]; [|done].
    pose proof (parse_ops_range (S (length rest)) rest whom [] ltac:(lia) (Forall_nil_2 _)) as H.
    destruct (parse_ops (S (length rest)) rest whom []) as [[ms [|]]|e]; cbn [rbind]; done.
Qed.

(** ** The chain of the metadata builder *)

(** The transformers as [apply_chmod] calls them. *)
Definition chain_of (xs : list transformer) : list (Z -> bool -> option Z) :=
  map (fun x p d => match transform x p d with Ok r => r | Err _ => None end) xs.

Lemma transform_range x mode isdir : Forall modifier_ok (modifiers_ x) -> in_mode mode ->
  exists r, transform x mode isdir = Ok r /\ match r with Some mode' => in_mode mode' | None => True end.
Proof.
  intros Hx Hm. unfold transform. destruct (_ || _); [by eexists|].
  destruct (apply_modifiers_range (umask_ x) (modifiers_ x) mode isdir Hx Hm) as (mode' & -> & H). by eexists.
Qed.

Lemma make_transformers_range parts umask xs : make_transformers parts umask = Ok xs -> Forall (fun x => Forall modifier_ok (modifiers_ x)) xs.
Proof.
  revert xs. induction parts as [|part parts IH]; intros xs H; cbn in H; [by injection H as <-|].
  pose proof (make_transformer_range part umask) as Hr. destruct (make_transformer part umask) as [x|]; [|done]. cbn [rbind] in H.
  destruct (make_transformers parts umask) as [ys|]; [|done]. cbn [rbind] in H. injection H as <-. constructor; [done|by apply IH].
Qed.

Lemma chain_of_ok spec umask xs : build_chain spec umask = Ok xs -> chain_ok (chain_of xs).
Proof.
  intros H. apply make_transformers_range in H. unfold chain_ok, chain_of. apply Forall_map. eapply Forall_impl; [exact H|].
  intros x Hx p d q Hp E. change kPermissionsMask with (2 ^ 12 - 1) in *. destruct (transform_range x p d Hx) as (r & Er & Hr); [unfold in_mode; lia|].
  rewrite Er in E. subst r. unfold in_mode in Hr. lia.
Qed.

(** ** Numbers *)

Lemma oct_digits_value value ds : forallb is_oct_digit ds = true -> oct_digits value ds = (foldl (fun v c => 8 * v + (c - ch "0")) value ds, []).
Proof.
  revert value. induction ds as [|c ds IH]; intros value H; [done|]. cbn in H. apply andb_true_iff in H as [Hc H]. cbn [oct_digits foldl]. by rewrite Hc, IH.
Qed.

(** A number sets the mode; directories keep their set-user-id and set-group-id
    permissions unless the number has them, however many digits it has. *)
Lemma chmod_octal ds umask mode isdir : ds <> [] -> forallb is_oct_digit ds = true -> in_mode mode ->
  let v := foldl (fun v c => 8 * v + (c - ch "0")) 0 ds in in_mode v ->
  exists x, make_transformer ds umask = Ok x /\ transform x mode isdir = Ok (Some (if isdir then Z.lor v (Z.land mode kAllUidBits) else v)).
Proof.
  intros Hne Hds Hm v Hv. assert (parse_oct ds = Some (v, [])) as Hp.
  { unfold parse_oct, from_chars_8. destruct ds as [|c ds]; [done|]. pose proof Hds as Hc. cbn in Hc. apply andb_true_iff in Hc as [-> _].
    rewrite oct_digits_value by done. fold v. unfold in_mode in Hv. destruct (Z.ltb_spec v (2 ^ 32)); [|lia]. destruct (Z.leb_spec v kAllModeBits); [done|]. change kAllModeBits with 4095 in *. lia. }
  unfold make_transformer. destruct ds as [|c ds]; [done|]. pose proof Hds as Hc. cbn in Hc. apply andb_true_iff in Hc as [-> _]. rewrite Hp. cbn [zlen length Z.of_nat].
  eexists. split; [done|]. unfold transform. cbn [flag_D_ flag_F_ andb orb umask_ modifiers_ apply_modifiers].
  set (m := Modifier _ _ _ _ _). destruct (apply_modifier_range umask m mode isdir) as (mode' & E & Hr); [by split|done|]. rewrite E. cbn [rbind]. do 2 f_equal.
  apply mode_ext; [done|destruct isdir; [by apply in_mode_lor; [|apply in_mode_land]|done]|]. intros b.
  unfold apply_modifier, m, modifier_bits in E. cbn [oper m_whom m_mode m_bits m_mask] in E. change (ch "=" =? ch "=") with true in E. change (kAllModeBits =? 0) with false in E.
  injection E as <-. assert (has kAllModeBits b = true) as Ha by (by destruct b as [[] []| | |]).
  assert (has kAllUidBits b = match b with SetUid | SetGid => true | _ => false end) as Hu by (by destruct b as [[] []| | |]).
  assert (has kStickyBit b || has kAllRWXBits b = match b with SetUid | SetGid => false | _ => true end) as Hs by (by destruct b as [[] []| | |]).
  change (4 <? 0) with false. cbv iota. destruct isdir; autorewrite with has; rewrite Ha, <- ?orb_assoc, ?Hs, ?Hu; destruct (has v b), (has mode b), b; done.
Qed.

(** ** Theorems *)

(** C31: a printed symbolic specification is accepted, and the transformer
    built from it does to every mode what the specification says of each
    permission: nothing on entries it does not apply to, and otherwise every
    operation in turn, each on the mode the one before has left. *)
Theorem chmod_symbolic s umask mode isdir : symbolic_ok s = true -> in_mode mode ->
  exists x, make_transformer (print_symbolic s) umask = Ok x /\
    transform x mode isdir = Ok (if applies_to (s_who s) isdir then Some (change_mode (s_who s) umask isdir (s_ops s) mode) else None).
Proof.
  intros Hok Hm. eexists. split; [by apply make_transformer_print|]. unfold transform. cbn [flag_D_ flag_F_ umask_ modifiers_].
  assert (applies_to (s_who s) isdir = negb ((existsb (fun w => match w with OnlyD => true | _ => false end) (s_who s) && negb isdir) ||
    (existsb (fun w => match w with OnlyF => true | _ => false end) (s_who s) && isdir))) as ->.
  { unfold applies_to. f_equal. generalize (s_who s) as ws. induction ws as [|w ws IH]; [done|]. cbn [existsb]. rewrite IH. by destruct w, isdir; rewrite ?andb_false_r, ?orb_true_r. }
  destruct (_ || _); [done|]. cbn [negb]. by rewrite (proj1 (apply_modifiers_ok _ _ _ _ _ Hm)).
Qed.

(** [Dug+rX-s,...]: a specification with both parts. *)
Definition sample_symbolic : symbolic := Symbolic [WhoU; WhoG] [(Plus, Letters [LetterR; LetterBigX]); (Assign, CopyOf User)].

Example chmod_symbolic_witness : exists x, make_transformer (print_symbolic sample_symbolic) 18 = Ok x /\ transform x 392 false = Ok (Some 504).
Proof.
  destruct (chmod_symbolic sample_symbolic 18 392 false) as (x & Hx & Ht); [reflexivity|split; vm_compute; congruence|]. exists x. split; [exact Hx|].
  rewrite Ht. vm_compute. reflexivity.
Defined.

(** C32: whatever the specification, building the chain of transformers ends, and
    either refuses it as an invalid argument or gives transformers that neither
    panic nor take a mode out of the twelve bits of permissions. *)
Theorem chmod_chain_safe spec umask :
  match build_chain spec umask with
  | Ok xs => forall x mode isdir, x ∈ xs -> in_mode mode -> exists r, transform x mode isdir = Ok r /\ match r with Some mode' => in_mode mode' | None => True end
  | Err e => exists what, e = InvalidArgument what
  end.
Proof.
  unfold build_chain. set (parts := match spec with [] => [] | _ => _ end). clearbody parts.
  destruct (make_transformers parts umask) as [xs|e] eqn:E.
  - apply make_transformers_range in E. rewrite Forall_forall in E. intros x mode isdir Hx Hm. apply transform_range; [by apply E|done].
  - revert e E. induction parts as [|part parts IH]; intros e E; [done|]. cbn [make_transformers] in E.
    pose proof (make_transformer_range part umask) as Hr. destruct (make_transformer part umask) as [x|e']; cbn [rbind] in E.
    + destruct (make_transformers parts umask) as [ys|e']; cbn [rbind] in E; [done|]. injection E as ->. by apply IH.
    + injection E as ->. destruct e as [w| |]; [by exists w|done|done].
Qed.

Example chmod_chain_sample : exists xs, build_chain (map ch ["u"; "="; "r"; "w"; "X"; ","; "D"; "g"; "="; "u"; ","; "o"; "="]%char) 18 = Err (InvalidArgument "missing permissions in chmod mode") /\
  build_chain (map ch ["u"; "="; "r"; "w"; "X"; ","; "D"; "g"; "="; "u"]%char) 18 = Ok xs /\ length xs = 2%nat.
Proof. eexists. split; [reflexivity|]. split; reflexivity. Qed.
