(* ===== verification/FileScanner.v ===== *)
(** * FileScanner: which files share an inode

    [file_scanner_] ([src/writer/internal/file_scanner.cpp]) with the objects of
    [src/writer/internal/entry.cpp] it works on and the queue and threads of
    [src/internal/worker_group.cpp] that run its jobs: the scanning thread and
    the jobs that hash files are steps of a system, which may interleave in any
    order.  The hash functions, the operating system's files and the order in
    which a hash map is iterated are parameters.

    What is modelled are the options for which inodes need no scan
    ([inodes_need_scanning_] of [src/writer/internal/inode_manager.cpp] is false:
    no categorizer and no order by similarity), so [scan_background] adds no
    jobs.  Progress counters and what only dumps are left out. *)

From stdpp Require Import sorting.
From S2P Require Import Prelude Metadata MetadataReader EntryTree MetadataBuilder.
Local Open Scope Z_scope.

#[local] Abbreviation checked := (result metadata_error).

Definition kLargeFileThreshold : Z := 1024 * 1024.
Definition kLargeFileStartHashSize : Z := 4096.

(** ** The objects *)

(** What of a [file] does not change: [unique_inode_id], the size,
    [num_hard_links], and the names of the entry and of its parents, from the
    entry up. *)
Record file_status : Type := FileStatus { f_inode_id : Z * Z; f_size : Z; f_nlink : Z; f_revpath : list (list Z) }.

(** [less_revpath], which goes on with the parents if there are two. *)
Fixpoint less_revpath (a b : list (list Z)) : bool :=
  match a, b with
  | x :: a, y :: b => if bytes_lt x y then true else if bytes_lt y x then false else less_revpath a b
  | [], _ :: _ => true
  | _, [] => false
  end.

(** [file::data]. *)
Record file_data : Type := FileData { da_hash : list Z; da_hardlink_count : Z; da_inode_num : option Z; da_invalid : bool }.

(** The objects the pointers lead to: the data of a file (named by the file that
    created it), the inode of a file (named by a number that counts the calls of
    [create_inode]). *)
Record objects : Type := Objects {
  data_of : gmap nat nat;
  datas : gmap nat file_data;
  file_inode : gmap nat nat;
  inode_count : nat
}.

Definition get_data (p : nat) (o : objects) : checked (nat * file_data) :=
  let? i := there (data_of o !! p) in let? d := there (datas o !! i) in Ok (i, d).

Definition put_data (i : nat) (d : file_data) (o : objects) : objects :=
  Objects (data_of o) (<[i := d]> (datas o)) (file_inode o) (inode_count o).

(** [create_data], [hardlink], [set_invalid], [set_inode]. *)
Definition create_data (p : nat) (o : objects) : objects :=
  Objects (<[p := p]> (data_of o)) (<[p := FileData [] 1 None false]> (datas o)) (file_inode o) (inode_count o).

Definition hardlink (p other : nat) (o : objects) : checked objects :=
  let? '(i, d) := get_data other o in
  Ok (Objects (<[p := i]> (data_of o))
        (<[i := FileData (da_hash d) (wrapu 32 (da_hardlink_count d + 1)) (da_inode_num d) (da_invalid d)]> (datas o)) (file_inode o) (inode_count o)).

Definition set_invalid (p : nat) (o : objects) : checked objects :=
  let? '(i, d) := get_data p o in Ok (put_data i (FileData (da_hash d) (da_hardlink_count d) (da_inode_num d) true) o).

Definition set_hash (p : nat) (h : list Z) (o : objects) : checked objects :=
  let? '(i, d) := get_data p o in Ok (put_data i (FileData h (da_hardlink_count d) (da_inode_num d) (da_invalid d)) o).

Definition is_invalid (p : nat) (o : objects) : checked bool := let? '(_, d) := get_data p o in Ok (da_invalid d).
Definition hash (p : nat) (o : objects) : checked (list Z) := let? '(_, d) := get_data p o in Ok (da_hash d).

Definition set_inode (p i : nat) (o : objects) : checked objects :=
  match file_inode o !! p with
  | Some _ => Err (Terminated "inode already set for file")
  | None => Ok (Objects (data_of o) (datas o) (<[p := i]> (file_inode o)) (inode_count o))
  end.

(** [add_inode], but the similarity scan. *)
Definition add_inode (p : nat) (o : objects) : checked objects :=
  set_inode p (inode_count o) (Objects (data_of o) (datas o) (file_inode o) (S (inode_count o))).

(** ** The scanner *)

(** The tables of [file_scanner_]; a latch is a number, those that are counted
    down are kept. *)
Record scan_state : Type := ScanState {
  objects_ : objects;
  hardlinks_ : gmap (Z * Z) (list nat);
  unique_size_ : gmap (Z * Z) (list nat);
  file_start_hash_ : gmap nat Z;
  first_file_hashed_ : gmap (Z * Z) nat;
  next_latch : nat;
  counted_down : gset nat;
  by_inode_id_ : gmap (Z * Z) (list nat);
  by_hash_ : gmap (list Z) (list nat)
}.

Definition empty_scan_state : scan_state := ScanState (Objects ∅ ∅ ∅ O) ∅ ∅ ∅ ∅ O ∅ ∅ ∅.

Definition with_objects (o : objects) (s : scan_state) : scan_state :=
  ScanState o (hardlinks_ s) (unique_size_ s) (file_start_hash_ s) (first_file_hashed_ s) (next_latch s) (counted_down s) (by_inode_id_ s) (by_hash_ s).
Definition with_hardlinks (m : gmap (Z * Z) (list nat)) (s : scan_state) : scan_state :=
  ScanState (objects_ s) m (unique_size_ s) (file_start_hash_ s) (first_file_hashed_ s) (next_latch s) (counted_down s) (by_inode_id_ s) (by_hash_ s).
Definition with_unique_size (m : gmap (Z * Z) (list nat)) (s : scan_state) : scan_state :=
  ScanState (objects_ s) (hardlinks_ s) m (file_start_hash_ s) (first_file_hashed_ s) (next_latch s) (counted_down s) (by_inode_id_ s) (by_hash_ s).
Definition with_start_hash (m : gmap nat Z) (s : scan_state) : scan_state :=
  ScanState (objects_ s) (hardlinks_ s) (unique_size_ s) m (first_file_hashed_ s) (next_latch s) (counted_down s) (by_inode_id_ s) (by_hash_ s).
Definition with_latches (m : gmap (Z * Z) nat) (next : nat) (down : gset nat) (s : scan_state) : scan_state :=
  ScanState (objects_ s) (hardlinks_ s) (unique_size_ s) (file_start_hash_ s) m next down (by_inode_id_ s) (by_hash_ s).
Definition with_by_inode_id (m : gmap (Z * Z) (list nat)) (s : scan_state) : scan_state :=
  ScanState (objects_ s) (hardlinks_ s) (unique_size_ s) (file_start_hash_ s) (first_file_hashed_ s) (next_latch s) (counted_down s) m (by_hash_ s).
Definition with_by_hash (m : gmap (list Z) (list nat)) (s : scan_state) : scan_state :=
  ScanState (objects_ s) (hardlinks_ s) (unique_size_ s) (file_start_hash_ s) (first_file_hashed_ s) (next_latch s) (counted_down s) (by_inode_id_ s) m.

(** [map[key].push_back(p)]. *)
Definition push_file {K} `{Countable K} (key : K) (p : nat) (m : gmap K (list nat)) : gmap K (list nat) :=
  <[key := default [] (m !! key) ++ [p]]> m.

(** The jobs: to hash the first file of a size, and any other file. *)
Inductive job : Type :=
  | FirstJob (p latch : nat) (key : Z * Z)
  | NextJob (p : nat) (latch : option nat).

Definition job_file (j : job) : nat := match j with FirstJob p _ _ => p | NextJob p _ => p end.

Section scanning.
(** The status of each file; its first segment and its contents, when it can be
    opened; the hash functions. *)
Context (info : nat -> file_status) (segment_at_0 open_file : nat -> option (list Z)) (xxh3_64 : list Z -> Z) (hash_algo : option (list Z -> list Z)).

Definition size_of (p : nat) : Z := f_size (info p).
Definition inode_id (p : nat) : Z * Z := f_inode_id (info p).

(** The part of [scan_dedupe] for large files: the hash, and the state. *)
Definition start_hash_file (p : nat) (s : scan_state) : checked (Z * scan_state) :=
  if kLargeFileThreshold <=? size_of p then
    let? invalid := is_invalid p (objects_ s) in
    let? '(start, o) :=
      (if invalid then Ok (0, objects_ s)
       else match segment_at_0 p with
            | Some span => Ok (xxh3_64 (take (Z.to_nat kLargeFileStartHashSize) span), objects_ s)
            | None => let? o := set_invalid p (objects_ s) in Ok (0, o)
            end) in
    Ok (start, with_start_hash (match file_start_hash_ s !! p with Some _ => file_start_hash_ s | None => <[p := start]> (file_start_hash_ s) end)
                 (with_objects o s))
  else Ok (0, s).

(** [scan_dedupe]: the jobs are added to the worker group in this order. *)
Definition scan_dedupe (p : nat) (s : scan_state) : checked (scan_state * list job) :=
  let? '(start_hash, s) := start_hash_file p s in
  let key := (size_of p, start_hash) in
  match unique_size_ s !! key with
  | None =>
      let? o := add_inode p (objects_ s) in
      Ok (with_unique_size (<[key := [p]]> (unique_size_ s)) (with_objects o s), [])
  | Some [] => Ok (s, [NextJob p (first_file_hashed_ s !! key)])
  | Some (first :: _) =>
      let latch := next_latch s in
      dwarfs_check (match first_file_hashed_ s !! key with Some _ => false | None => true end)
        "internal error: first file hashed latch already exists" ;;?
      Ok (with_unique_size (<[key := []]> (unique_size_ s))
            (with_latches (<[key := latch]> (first_file_hashed_ s)) (S latch) (counted_down s) s),
          [FirstJob first latch key; NextJob p (Some latch)])
  end.

Definition scan_data (p : nat) (s : scan_state) : checked (scan_state * list job) :=
  let s := with_objects (create_data p (objects_ s)) s in
  match hash_algo with
  | Some _ => scan_dedupe p s
  | None =>
      let s := with_by_inode_id (push_file (inode_id p) p (by_inode_id_ s)) s in
      let? o := add_inode p (objects_ s) in
      Ok (with_objects o s, [])
  end.

(** [scan]. *)
Definition scan_file (p : nat) (s : scan_state) : checked (scan_state * list job) :=
  if 1 <? f_nlink (info p) then
    let hardlinks := push_file (inode_id p) p (hardlinks_ s) in
    let s := with_hardlinks hardlinks s in
    match hardlinks !! inode_id p with
    | Some (first :: _ :: _) => let? o := hardlink p first (objects_ s) in Ok (with_objects o s, [])
    | _ => scan_data p s
    end
  else scan_data p s.

(** [hash_file], with the checksum of [file::scan]. *)
Definition hash_file (p : nat) (o : objects) : checked objects :=
  let? invalid := is_invalid p o in
  if invalid then Ok o
  else
    let algo := default (fun _ => []) hash_algo in
    if 0 <? size_of p then
      match open_file p with
      | None => set_invalid p o
      | Some mm => if zlen mm =? size_of p then set_hash p (algo mm) o else set_invalid p o
      end
    else set_hash p (algo []) o.

(** The locked part of the job of the first file. *)
Definition commit_first (p latch : nat) (key : Z * Z) (s : scan_state) : checked scan_state :=
  let? invalid := is_invalid p (objects_ s) in
  let? s :=
    (if invalid then Ok (with_by_inode_id (push_file (inode_id p) p (by_inode_id_ s)) s)
     else
       let? h := hash p (objects_ s) in
       dwarfs_check (match default [] (by_hash_ s !! h) with [] => true | _ => false end) "internal error: unexpected existing hash" ;;?
       Ok (with_by_hash (push_file h p (by_hash_ s)) s)) in
  let s := with_latches (first_file_hashed_ s) (next_latch s) ({[latch]} ∪ counted_down s) s in
  dwarfs_check (match first_file_hashed_ s !! key with Some _ => true | None => false end) "internal error: missing first file hashed latch" ;;?
  Ok (with_latches (delete key (first_file_hashed_ s)) (next_latch s) (counted_down s) s).

(** The locked part of the other jobs. *)
Definition commit_next (p : nat) (s : scan_state) : checked scan_state :=
  let? invalid := is_invalid p (objects_ s) in
  if invalid then
    let? o := add_inode p (objects_ s) in
    Ok (with_by_inode_id (push_file (inode_id p) p (by_inode_id_ s)) (with_objects o s))
  else
    let? h := hash p (objects_ s) in
    let? o := match default [] (by_hash_ s !! h) with
              | [] => add_inode p (objects_ s)
              | first :: _ => let? i := there (file_inode (objects_ s) !! first) in set_inode p i (objects_ s)
              end in
    Ok (with_by_hash (push_file h p (by_hash_ s)) (with_objects o s)).

Definition commit (j : job) (s : scan_state) : checked scan_state :=
  match j with
  | FirstJob p latch key => commit_first p latch key s
  | NextJob p _ => commit_next p s
  end.

(** Whether the job has not to wait for its latch. *)
Definition latch_open (j : job) (s : scan_state) : bool :=
  match j with NextJob _ (Some l) => bool_decide (l ∈ counted_down s) | _ => true end.

(** ** The threads *)

(** The files to be scanned, the jobs the scanning thread has still to add, the
    queue, the jobs that were taken from it in that order (with whether they
    have hashed their file), and the tables. *)
Record system : Type := System {
  todo : list nat;
  to_add : list job;
  queue : list job;
  running : list (job * bool);
  scanned : scan_state
}.

Definition start_system (files : list nat) : system := System files [] [] [] empty_scan_state.

Inductive scan_event : Type :=
  | EvScan
  | EvAdd
  | EvStart
  | EvHash (i : nat)
  | EvCommit (i : nat).

(** The numbers of threads and of places in the queue. *)
Context (num_workers max_queue_len : nat).

(** [None] when the event cannot happen: a thread waits. *)
Definition scan_step (ev : scan_event) (y : system) : option (checked system) :=
  match ev with
  | EvScan =>
      match todo y, to_add y with
      | p :: rest, [] => Some (let? '(s, jobs) := scan_file p (scanned y) in Ok (System rest jobs (queue y) (running y) s))
      | _, _ => None
      end
  | EvAdd =>
      match to_add y with
      | j :: rest => if (length (queue y) <? max_queue_len)%nat then Some (Ok (System (todo y) rest (queue y ++ [j]) (running y) (scanned y))) else None
      | [] => None
      end
  | EvStart =>
      match queue y with
      | j :: rest => if (length (running y) <? num_workers)%nat then Some (Ok (System (todo y) (to_add y) rest (running y ++ [(j, false)]) (scanned y))) else None
      | [] => None
      end
  | EvHash i =>
      match running y !! i with
      | Some (j, false) =>
          Some (let? o := hash_file (job_file j) (objects_ (scanned y)) in
                Ok (System (todo y) (to_add y) (queue y) (<[i := (j, true)]> (running y)) (with_objects o (scanned y))))
      | _ => None
      end
  | EvCommit i =>
      match running y !! i with
      | Some (j, true) =>
          if latch_open j (scanned y) then
            Some (let? s := commit j (scanned y) in Ok (System (todo y) (to_add y) (queue y) (delete i (running y)) s))
          else None
      | _ => None
      end
  end.

Definition finished (y : system) : bool :=
  match todo y, to_add y, queue y, running y with [], [], [], [] => true | _, _, _, _ => false end.

(** The states that can be reached. *)
Inductive reachable (files : list nat) : system -> Prop :=
  | reach_start : reachable files (start_system files)
  | reach_step y ev y' : reachable files y -> scan_step ev y = Some (Ok y') -> reachable files y'.

(** A schedule: events that cannot happen are skipped. *)
Fixpoint run_schedule (evs : list scan_event) (y : system) : checked system :=
  match evs with
  | [] => Ok y
  | ev :: evs =>
      match scan_step ev y with
      | None => run_schedule evs y
      | Some r => let? y := r in run_schedule evs y
      end
  end.
End scanning.

(** ** [finalize] *)

(** What [finalize] sets: the numbers given out, those of the inodes and their
    files. *)
Record final_state : Type := FinalState {
  fi_scan : scan_state;
  fi_inode_num : Z;
  fi_obj_num : Z;
  fi_num_unique : Z;
  fi_nums : gmap nat Z;
  fi_files : gmap nat (list nat)
}.

(** The files vector a lookup returns a reference to. *)
Inductive files_ref : Type :=
  | InHash (h : list Z)
  | InSize (key : Z * Z)
  | InInodeId (id : Z * Z).

Definition ref_files (r : files_ref) (s : scan_state) : list nat :=
  match r with
  | InHash h => default [] (by_hash_ s !! h)
  | InSize key => default [] (unique_size_ s !! key)
  | InInodeId id => default [] (by_inode_id_ s !! id)
  end.

Definition ref_push (r : files_ref) (p : nat) (s : scan_state) : scan_state :=
  match r with
  | InHash h => with_by_hash (push_file h p (by_hash_ s)) s
  | InSize key => with_unique_size (push_file key p (unique_size_ s)) s
  | InInodeId id => with_by_inode_id (push_file id p (by_inode_id_ s)) s
  end.

(** [set_inode] of what [get_inode] returns, which may be null. *)
Definition copy_inode (p from : nat) (o : objects) : checked objects :=
  match file_inode o !! from with
  | Some i => set_inode p i o
  | None => dwarfs_check (match file_inode o !! p with Some _ => false | None => true end) "inode already set for file" ;;? Ok o
  end.

Definition first_file (l : list nat) : checked nat := match l with p :: _ => Ok p | [] => Err Undefined end.

Section finalizing.
Context (info : nat -> file_status) (dedupe : bool).
(** The order in which a hash map is iterated. *)
Context (iterate : gmap (Z * Z) (list nat) -> list ((Z * Z) * list nat)).

(** The lookups of [finalize]. *)
Definition lookup_first (p : nat) (s : scan_state) : checked files_ref :=
  if dedupe then
    let? h := hash p (objects_ s) in
    match by_hash_ s !! h with
    | Some _ => Ok (InHash h)
    | None =>
        let size := f_size (info p) in
        let? h := (if kLargeFileThreshold <=? size then
                     match file_start_hash_ s !! p with
                     | Some h => Ok h
                     | None => Err (Terminated "internal error: missing start hash for large file")
                     end
                   else Ok 0) in
        match unique_size_ s !! (size, h) with Some _ => Ok (InSize (size, h)) | None => Err (Thrown "out_of_range") end
    end
  else
    match by_inode_id_ s !! f_inode_id (info p) with Some _ => Ok (InInodeId (f_inode_id (info p))) | None => Err (Thrown "out_of_range") end.

Definition add_hardlink (r : files_ref) (p : nat) (s : scan_state) : checked scan_state :=
  let? first := first_file (ref_files r s) in
  let? o := copy_inode p first (objects_ s) in
  Ok (ref_push r p (with_objects o s)).

(** [finalize_hardlinks]. *)
Definition finalize_hardlinks (s : scan_state) : checked scan_state :=
  let? s := foldR (fun '(_, hlv) s =>
    match hlv with
    | first :: _ :: _ => let? r := lookup_first first s in foldR (add_hardlink r) (tl hlv) s
    | _ => Ok s
    end) (iterate (hardlinks_ s)) s in
  Ok (with_hardlinks ∅ s).

Definition hardlink_count (p : nat) (o : objects) : checked Z := let? '(_, d) := get_data p o in Ok (da_hardlink_count d).
Definition inode_num_of (p : nat) (o : objects) : checked (option Z) := let? '(_, d) := get_data p o in Ok (da_inode_num d).

Definition set_file_inode_num (p : nat) (num : Z) (o : objects) : checked objects :=
  let? '(i, d) := get_data p o in
  dwarfs_check (match da_inode_num d with Some _ => false | None => true end) "attempt to set inode number more than once" ;;?
  Ok (put_data i (FileData (da_hash d) (da_hardlink_count d) (Some num) (da_invalid d)) o).

(** The loop that gives numbers to the files of an inode. *)
Definition number_file (p : nat) (f : final_state) : checked final_state :=
  let? num := inode_num_of p (objects_ (fi_scan f)) in
  match num with
  | Some _ => Ok f
  | None =>
      let? o := set_file_inode_num p (fi_inode_num f) (objects_ (fi_scan f)) in
      Ok (FinalState (with_objects o (fi_scan f)) (wrapu 32 (fi_inode_num f + 1)) (fi_obj_num f) (fi_num_unique f) (fi_nums f) (fi_files f))
  end.

(** The end of the body of the loop of [finalize_inodes]. *)
Definition finish_inode (files : list nat) (f : final_state) : checked final_state :=
  let? f := foldR number_file files f in
  let? fp := first_file files in
  let? i := there (file_inode (objects_ (fi_scan f)) !! fp) in
  dwarfs_check (match fi_nums f !! i with Some _ => false | None => true end) "attempt to set inode number multiple times" ;;?
  dwarfs_check (match default [] (fi_files f !! i) with [] => true | _ => false end) "files already set for inode" ;;?
  Ok (FinalState (fi_scan f) (fi_inode_num f) (wrapu 32 (fi_obj_num f + 1)) (fi_num_unique f) (<[i := fi_obj_num f]> (fi_nums f)) (<[i := files]> (fi_files f))).

(** The order in which the files of an inode are sorted. *)
Definition revpath_le (a b : nat) : Prop := less_revpath (f_revpath (info b)) (f_revpath (info a)) = false.

#[export] Instance revpath_le_dec : RelDecision revpath_le.
Proof. intros a b. unfold revpath_le. apply _. Defined.

(** [finalize_inodes]: files that are moved to an inode leave an empty vector. *)
Definition finalize_unique_inode (files : list nat) (f : final_state) : checked (list nat * final_state) :=
  let? front := match files with p :: _ => Ok p | [] => Err (Terminated "internal error in finalize_inodes: empty files vector") end in
  let? count := hardlink_count front (objects_ (fi_scan f)) in
  if count <? zlen files then Ok (files, f)
  else
    let f := FinalState (fi_scan f) (fi_inode_num f) (fi_obj_num f) (wrapu 32 (fi_num_unique f + 1)) (fi_nums f) (fi_files f) in
    let? f := finish_inode files f in Ok ([], f).

Definition finalize_shared_inode (files : list nat) (f : final_state) : checked (list nat * final_state) :=
  match files with
  | [] => Ok ([], f)
  | _ =>
      dwarfs_check (1 <? zlen files) "unexpected non-duplicate file" ;;?
      let? f := finish_inode (merge_sort revpath_le files) f in Ok ([], f)
  end.

Fixpoint finalize_inodes (unique : bool) (ent : list (list nat)) (f : final_state) : checked (list (list nat) * final_state) :=
  match ent with
  | [] => Ok ([], f)
  | files :: ent =>
      let? '(files, f) := (if unique then finalize_unique_inode files f else finalize_shared_inode files f) in
      let? '(ent, f) := finalize_inodes unique ent f in
      Ok (files :: ent, f)
  end.

Definition key_order {K} (key_le : K -> K -> Prop) (a b : K * list nat) : Prop := key_le a.1 b.1.

#[export] Instance key_order_dec {K} (key_le : K -> K -> Prop) `{!RelDecision key_le} : RelDecision (key_order key_le).
Proof. intros a b. unfold key_order. apply _. Defined.

(** The entries of a map in the order of their keys, which are different, and
    of them the vectors that are not empty. *)
Definition sorted_vectors {K} `{Countable K} (key_le : K -> K -> Prop) `{!RelDecision key_le} (m : gmap K (list nat)) : list (list nat) :=
  (merge_sort (key_order key_le) (filter (fun e => e.2 <> []) (map_to_list m))).*2.

(** [finalize_files]. *)
Definition finalize_files (unique_only : bool) (ent : list (list nat)) (f : final_state) : checked final_state :=
  let? f := (if unique_only then
               foldR (fun files f =>
                 let? front := first_file files in
                 let? count := hardlink_count front (objects_ (fi_scan f)) in
                 dwarfs_check (zlen files =? count) "internal error" ;;? Ok f) ent f
             else Ok f) in
  let? '(ent, f) := finalize_inodes true ent f in
  if unique_only then Ok f else let? '(_, f) := finalize_inodes false ent f in Ok f.

(** The order of the keys, which are pairs of numbers or strings. *)
Definition pair_le (a b : Z * Z) : Prop := a.1 < b.1 \/ (a.1 = b.1 /\ a.2 <= b.2).

#[export] Instance pair_le_dec : RelDecision pair_le.
Proof. intros a b. unfold pair_le. apply _. Defined.

(** [finalize]; what [unique_file_id] and [inode_num] return afterwards. *)
Definition finalize_scan (s : scan_state) (inode_num : Z) : checked final_state :=
  let? s := finalize_hardlinks s in
  let f := FinalState s inode_num 0 0 ∅ ∅ in
  if dedupe then
    let? f := finalize_files true (sorted_vectors pair_le (unique_size_ s)) f in
    let? f := finalize_files false (sorted_vectors pair_le (by_inode_id_ s)) f in
    finalize_files false (sorted_vectors bytes_le (by_hash_ s)) f
  else finalize_files false (sorted_vectors pair_le (by_inode_id_ s)) f.

Definition numbers_of (f : final_state) : file_numbers :=
  let o := objects_ (fi_scan f) in
  FileNumbers (omap da_inode_num (datas o))
    (map_imap (fun p _ => i ← file_inode o !! p; fi_nums f !! i) (datas o)) (fi_num_unique f).

Definition finalize (s : scan_state) (inode_num : Z) : checked (Z * file_numbers) :=
  let? f := finalize_scan s inode_num in Ok (fi_inode_num f, numbers_of f).
End finalizing.
