(* ===== verification/FileDedup.v ===== *)
(** * FileDedup: files share an inode exactly when they have the same contents

    Whatever the order in which the threads of the file scanner run: no check of
    the scanner fails, no job waits for ever, and in the end two files that are
    not hard links have the same inode exactly when both could be read and have
    the same contents. *)

From S2P Require Import Prelude Metadata MetadataReader EntryTree MetadataBuilder FileScanner.
Local Open Scope Z_scope.

#[local] Abbreviation checked := (result metadata_error).

Section dedup.
Context (info : nat -> file_status).

#[local] Abbreviation size := (size_of info).
#[local] Abbreviation id_of := (inode_id info).
#[local] Abbreviation linked_file p := (1 < f_nlink (info p)).

(** ** Hard links *)

(** The files scanned that are hard links of one inode. *)
Definition linked (l : list nat) (id : Z * Z) : list nat := filter (fun q => linked_file q /\ id_of q = id) l.

(** The file whose data a file has. *)
Definition owner (l : list nat) (p : nat) : nat := if decide (linked_file p) then default p (hd_error (linked l (id_of p))) else p.

Definition primaries (l : list nat) : list nat := filter (fun p => owner l p = p) l.

Lemma linked_app l k id : linked (l ++ k) id = linked l id ++ linked k id.
Proof. apply filter_app. Qed.

Lemma elem_of_linked l id p : p ∈ linked l id <-> (linked_file p /\ id_of p = id) /\ p ∈ l.
Proof. unfold linked. by rewrite list_elem_of_filter. Qed.

Lemma owner_app l k p : p ∈ l -> owner (l ++ k) p = owner l p.
Proof.
  intros Hp. unfold owner. destruct (decide (linked_file p)) as [Hl|]; [|done]. rewrite linked_app.
  destruct (linked l (id_of p)) as [|q v] eqn:E; [|done]. assert (p ∈ linked l (id_of p)) as H by (by apply elem_of_linked). rewrite E in H. by apply elem_of_nil in H.
Qed.

Lemma owner_in l p : p ∈ l -> owner l p ∈ l.
Proof.
  intros Hp. unfold owner. destruct (decide _) as [Hl|]; [|done]. destruct (linked l (id_of p)) as [|q v] eqn:E; [done|].
  cbn. assert (q ∈ linked l (id_of p)) as H by (rewrite E; by left). by apply elem_of_linked in H as [_ H].
Qed.

Lemma owner_owner l p : p ∈ l -> owner l (owner l p) = owner l p.
Proof.
  intros Hp. unfold owner at 2 3. destruct (decide (linked_file p)) as [Hl|Hn]; [|unfold owner; by destruct (decide (linked_file p))].
  destruct (linked l (id_of p)) as [|q v] eqn:E.
  { assert (p ∈ linked l (id_of p)) as H by (by apply elem_of_linked). rewrite E in H. by apply elem_of_nil in H. }
  cbn. assert (q ∈ linked l (id_of p)) as H by (rewrite E; by left). apply elem_of_linked in H as [[Hq Hi] _]. unfold owner.
  destruct (decide (linked_file q)); [|done]. by rewrite Hi, E.
Qed.

Lemma elem_of_primaries l p : p ∈ primaries l <-> p ∈ l /\ owner l p = p.
Proof. unfold primaries. rewrite list_elem_of_filter. tauto. Qed.

Lemma owner_primary l p : p ∈ l -> owner l p ∈ primaries l.
Proof. intros Hp. apply elem_of_primaries. split; [by apply owner_in|by apply owner_owner]. Qed.

Lemma primaries_snoc l p : primaries (l ++ [p]) = primaries l ++ (if decide (owner (l ++ [p]) p = p) then [p] else []).
Proof.
  unfold primaries. rewrite filter_app. f_equal.
  assert (forall k, k ⊆ l -> filter (fun q => owner (l ++ [p]) q = q) k = filter (fun q => owner l q = q) k) as H; [|by apply H].
  induction k as [|q k IH]; intros Hk; [done|]. rewrite !filter_cons, owner_app by (apply Hk; by left). rewrite IH; [done|]. intros x Hx. apply Hk. by right.
Qed.

(** A new file is a hard link of one that was scanned, or it is new. *)
Lemma owner_snoc l p : p ∉ l -> owner (l ++ [p]) p = if decide (linked_file p) then default p (hd_error (linked l (id_of p))) else p.
Proof.
  intros Hp. unfold owner. destruct (decide (linked_file p)) as [Hl|]; [|done]. rewrite linked_app.
  destruct (linked l (id_of p)) as [|q v]; [|done]. unfold linked. rewrite filter_cons. by destruct (decide _).
Qed.

(** ** What the tables depend on *)

Context (segment_at_0 open_file : nat -> option (list Z)) (xxh3_64 : list Z -> Z) (algo : list Z -> list Z).

Definition start_of (p : nat) : Z :=
  if kLargeFileThreshold <=? size p then
    match segment_at_0 p with Some span => xxh3_64 (take (Z.to_nat kLargeFileStartHashSize) span) | None => 0 end
  else 0.

Definition start_ok (p : nat) : bool :=
  negb (kLargeFileThreshold <=? size p) || match segment_at_0 p with Some _ => true | None => false end.

Definition key_of (p : nat) : Z * Z := (size p, start_of p).

(** The contents that are read of a file, unless it is invalid. *)
Definition content (p : nat) : option (list Z) :=
  if start_ok p then
    if 0 <? size p then match open_file p with Some mm => if zlen mm =? size p then Some mm else None | None => None end
    else Some []
  else None.

Definition class (l : list nat) (key : Z * Z) : list nat := filter (fun p => key_of p = key) (primaries l).

Lemma elem_of_class l key p : p ∈ class l key <-> key_of p = key /\ p ∈ primaries l.
Proof. unfold class. by rewrite list_elem_of_filter. Qed.

Lemma class_snoc l p key : class (l ++ [p]) key = class l key ++ (if decide (owner (l ++ [p]) p = p /\ key_of p = key) then [p] else []).
Proof.
  unfold class. rewrite primaries_snoc, filter_app. f_equal. destruct (decide (owner (l ++ [p]) p = p)) as [E|E].
  - rewrite filter_cons. destruct (decide (key_of p = key)), (decide (owner (l ++ [p]) p = p /\ key_of p = key)); done || tauto.
  - destruct (decide (_ /\ _)); [tauto|done].
Qed.

Lemma class_NoDup l key : NoDup l -> NoDup (class l key).
Proof. intros H. by apply NoDup_filter, NoDup_filter. Qed.

(** Files with the same contents have the same size and start. *)
Class Hashes : Prop := {
  hash_injective p q c c' : content p = Some c -> content q = Some c' -> algo c = algo c' -> c = c';
  same_start p q c : content p = Some c -> content q = Some c -> start_of p = start_of q;
  size_nonneg p : 0 <= size p
}.
Context {Hhashes : Hashes}.

Lemma content_size p c : content p = Some c -> zlen c = size p.
Proof.
  unfold content. pose proof (size_nonneg p). destruct (start_ok p); [|done]. destruct (Z.ltb_spec 0 (size p)).
  - destruct (open_file p) as [mm|]; [|done]. destruct (Z.eqb_spec (zlen mm) (size p)); [|done]. by intros [= <-].
  - intros [= <-]. unfold zlen. cbn [length]. lia.
Qed.

Lemma same_content_key p q c : content p = Some c -> content q = Some c -> key_of p = key_of q.
Proof. intros Hp Hq. unfold key_of. by rewrite <- (content_size p c Hp), <- (content_size q c Hq), (same_start p q c Hp Hq). Qed.

(** ** The invariant *)

(** The jobs that are not done, in the order in which they were added, with
    whether they have hashed their file. *)
Definition inflight (y : system) : list (job * bool) := running y ++ map (fun j => (j, false)) (queue y ++ to_add y).

Definition files_of (js : list job) : list nat := map job_file js.

(** The file was hashed: its job is done, or about to be. *)
Definition hashed (comm : gset nat) (fl : list (job * bool)) (p : nat) : Prop := p ∈ comm \/ exists j, (j, true) ∈ fl /\ job_file j = p.

Definition hash_status (p : nat) (is_hashed : Prop) (d : file_data) : Prop :=
  da_inode_num d = None /\
  (is_hashed -> match content p with Some c => da_hash d = algo c /\ da_invalid d = false | None => da_hash d = [] /\ da_invalid d = true end) /\
  (~ is_hashed -> da_hash d = [] /\ da_invalid d = negb (start_ok p)).

(** [l]: the files that were scanned; [comm]: those whose jobs are done. *)
Record data_inv (l : list nat) (comm : gset nat) (fl : list (job * bool)) (s : scan_state) : Prop := {
  di_of : forall p, data_of (objects_ s) !! p = if decide (p ∈ l) then Some (owner l p) else None;
  di_datas : forall p d, datas (objects_ s) !! p = Some d -> p ∈ primaries l;
  di_status : forall p, p ∈ primaries l -> exists d, datas (objects_ s) !! p = Some d /\ hash_status p (hashed comm fl p) d /\
    da_hardlink_count d = zlen (filter (fun q => owner l q = p) l);
  di_links : forall id, hardlinks_ s !! id = match linked l id with [] => None | v => Some v end;
  di_start : forall p, p ∈ primaries l -> kLargeFileThreshold <= size p -> file_start_hash_ s !! p = Some (start_of p);
  di_start_in : forall p h, file_start_hash_ s !! p = Some h -> p ∈ primaries l
}.

Record job_inv (l : list nat) (comm : gset nat) (js : list job) (s : scan_state) : Prop := {
  ji_unique : forall key, unique_size_ s !! key = match class l key with [] => None | [p] => Some [p] | _ => Some [] end;
  ji_NoDup : NoDup (files_of js);
  ji_split : forall p, p ∈ comm \/ p ∈ files_of js <-> p ∈ primaries l /\ (2 <= length (class l (key_of p)))%nat;
  ji_disjoint : forall p, p ∈ comm -> p ∉ files_of js;
  ji_first : forall p la key, FirstJob p la key ∈ js -> key = key_of p /\ hd_error (class l key) = Some p /\
    first_file_hashed_ s !! key = Some la /\ la ∉ counted_down s;
  ji_next : forall js1 p ol js2, js = js1 ++ NextJob p ol :: js2 -> exists f, hd_error (class l (key_of p)) = Some f /\ f <> p /\
    ((f ∈ comm /\ forall la, ol = Some la -> la ∈ counted_down s) \/ exists la, ol = Some la /\ FirstJob f la (key_of p) ∈ js1);
  ji_latch : forall key la, first_file_hashed_ s !! key = Some la -> (la < next_latch s)%nat /\ exists p, FirstJob p la key ∈ js;
  ji_down : forall la, la ∈ counted_down s -> (la < next_latch s)%nat;
  ji_latch_inj : forall key key' la, first_file_hashed_ s !! key = Some la -> first_file_hashed_ s !! key' = Some la -> key = key';
  ji_comm : forall p, p ∈ comm -> exists f, hd_error (class l (key_of p)) = Some f /\ f ∈ comm
}.

Record hash_inv (comm : gset nat) (s : scan_state) : Prop := {
  hi_hash : forall h p, p ∈ default [] (by_hash_ s !! h) <-> p ∈ comm /\ exists c, content p = Some c /\ algo c = h;
  hi_NoDup : forall h, NoDup (default [] (by_hash_ s !! h));
  hi_nonempty : forall h, by_hash_ s !! h <> Some [];
  hi_by_id : forall id p, p ∈ default [] (by_inode_id_ s !! id) <-> p ∈ comm /\ content p = None /\ id_of p = id;
  hi_by_id_NoDup : forall id, NoDup (default [] (by_inode_id_ s !! id))
}.

(** Two files are to have one inode. *)
Definition same_file (comm : gset nat) (p q : nat) : Prop := p ∈ comm /\ q ∈ comm /\ exists c, content p = Some c /\ content q = Some c.

Record inode_inv (l : list nat) (comm : gset nat) (s : scan_state) : Prop := {
  ii_some : forall p, is_Some (file_inode (objects_ s) !! p) <-> p ∈ primaries l /\ (p ∈ comm \/ hd_error (class l (key_of p)) = Some p);
  ii_lt : forall p i, file_inode (objects_ s) !! p = Some i -> (i < inode_count (objects_ s))%nat;
  ii_inj : forall p q i, file_inode (objects_ s) !! p = Some i -> file_inode (objects_ s) !! q = Some i -> p = q \/ same_file comm p q;
  ii_same : forall p q, same_file comm p q -> file_inode (objects_ s) !! p = file_inode (objects_ s) !! q;
  ii_onto : forall i, (i < inode_count (objects_ s))%nat -> exists p, file_inode (objects_ s) !! p = Some i
}.

Record scan_inv (l : list nat) (comm : gset nat) (fl : list (job * bool)) (s : scan_state) : Prop := {
  si_files : NoDup l;
  si_data : data_inv l comm fl s;
  si_jobs : job_inv l comm (fl.*1) s;
  si_hash : hash_inv comm s;
  si_inodes : inode_inv l comm s
}.

Lemma scan_inv_start : scan_inv [] ∅ [] empty_scan_state.
Proof.
  split; [constructor|split|split|split|split]; cbn; try done.
  - by intros p H%elem_of_nil.
  - by intros p H%elem_of_nil.
  - constructor.
  - intros p. split; [by intros [H|H%elem_of_nil]|by intros [H%elem_of_nil _]].
  - by intros p la key H%elem_of_nil.
  - intros js1 p ol js2 E. by destruct js1.
  - intros h p. split; [by intros H%elem_of_nil|by intros [H _]].
  - intros h. constructor.
  - intros id p. split; [by intros H%elem_of_nil|by intros [H _]].
  - intros id. constructor.
  - intros p. split; [by intros []|by intros [H%elem_of_nil _]].
  - lia.
Qed.

(** ** Hashing a file *)

Lemma primary_in l p : p ∈ primaries l -> p ∈ l /\ owner l p = p.
Proof. by rewrite elem_of_primaries. Qed.

Lemma class_primary l key p : hd_error (class l key) = Some p -> p ∈ primaries l /\ key_of p = key.
Proof. destruct (class l key) as [|q v] eqn:E; [done|]. intros [= ->]. assert (p ∈ class l key) as H by (rewrite E; by left). apply elem_of_class in H. tauto. Qed.

Lemma job_in (fl : list (job * bool)) j b : (j, b) ∈ fl -> job_file j ∈ files_of fl.*1.
Proof. intros H. apply list_elem_of_fmap. exists j. split; [done|]. apply list_elem_of_fmap. by exists (j, b). Qed.

(** The data of a file whose job is not done. *)
Lemma inflight_data l comm fl s j b : scan_inv l comm fl s -> (j, b) ∈ fl -> exists d, job_file j ∈ primaries l /\
  get_data (job_file j) (objects_ s) = Ok (job_file j, d) /\ datas (objects_ s) !! job_file j = Some d /\ hash_status (job_file j) (hashed comm fl (job_file j)) d /\
  da_hardlink_count d = zlen (filter (fun q => owner l q = job_file j) l) /\ job_file j ∉ comm.
Proof.
  intros [_ D J _ _] Hj. pose proof (job_in fl j b Hj) as Hin.
  destruct (proj1 (ji_split _ _ _ _ J (job_file j)) (or_intror Hin)) as [Hp _]. destruct (di_status _ _ _ _ D _ Hp) as (d & Hd & Hs & Hc).
  destruct (primary_in _ _ Hp) as [Hl Ho]. exists d. split_and!; try done.
  - unfold get_data. rewrite (di_of _ _ _ _ D), decide_True, Ho by done. cbn [there rbind]. by rewrite Hd.
  - intros Hcomm. by apply (ji_disjoint _ _ _ _ J) in Hcomm.
Qed.

(** The job of a file is the only one. *)
Lemma job_unique (fl : list (job * bool)) j j' b b' : NoDup (files_of fl.*1) -> (j, b) ∈ fl -> (j', b') ∈ fl -> job_file j = job_file j' -> j = j' /\ b = b'.
Proof.
  intros Hnd H1 H2 E. apply list_elem_of_lookup in H1 as [i Hi]. apply list_elem_of_lookup in H2 as [k Hk].
  assert (i = k) as <-; [|by rewrite Hi in Hk; injection Hk].
  apply (NoDup_lookup _ i k (job_file j) Hnd); unfold files_of; rewrite !list_lookup_fmap; [by rewrite Hi|by rewrite Hk, E].
Qed.

(** The data after [hash_file]. *)
Definition hashed_data (p : nat) (d : file_data) : file_data :=
  match content p with
  | Some c => FileData (algo c) (da_hardlink_count d) (da_inode_num d) (da_invalid d)
  | None => FileData (da_hash d) (da_hardlink_count d) (da_inode_num d) true
  end.

Lemma hash_file_ok p o d : get_data p o = Ok (p, d) -> datas o !! p = Some d -> hash_status p False d ->
  exists o', hash_file info open_file (Some algo) p o = Ok o' /\ data_of o' = data_of o /\ file_inode o' = file_inode o /\ inode_count o' = inode_count o /\
    datas o' = <[p := hashed_data p d]> (datas o) /\ hash_status p True (hashed_data p d).
Proof.
  intros Eg Ed (Hnum & _ & Hs). destruct (Hs (fun H => H)) as [Hh Hi]. unfold hash_file, is_invalid, set_invalid, set_hash. rewrite Eg. cbn [rbind].
  unfold hashed_data, hash_status. rewrite Hi. pose proof (size_nonneg p) as H0.
  assert (forall A B : Prop, ~ True -> A /\ B) as Hno by tauto.
  destruct (start_ok p) eqn:Es; cbn [negb] in *.
  - unfold content. rewrite Es. destruct (Z.ltb_spec 0 (size p)).
    + destruct (open_file p) as [mm|]; [destruct (zlen mm =? size p)|]; (eexists; split; [done|]; cbn; split_and!; done).
    + eexists. split; [done|]. cbn. split_and!; done.
  - unfold content. rewrite Es. exists o. split; [done|]. split_and!; try done.
    symmetry. apply insert_id. rewrite Ed. f_equal. destruct d; cbn in *. by subst.
Qed.

Lemma hashed_one comm fl1 fl2 j p b : hashed comm (fl1 ++ (j, b) :: fl2) p <-> (b = true /\ job_file j = p) \/ hashed comm (fl1 ++ fl2) p.
Proof.
  unfold hashed. split.
  - intros [H|(j' & H & E)]; [by right; left|]. rewrite elem_of_app, elem_of_cons in H.
    destruct H as [H|[[= -> <-]|H]]; [right; right; exists j'; split; [apply elem_of_app; by left|done]|by left|right; right; exists j'; split; [apply elem_of_app; by right|done]].
  - intros [[-> E]|[H|(j' & H & E)]]; [right; exists j; split; [apply elem_of_app; right; by left|done]|by left|].
    right. exists j'. split; [|done]. rewrite elem_of_app in *. destruct H as [H|H]; [by left|by right; right].
Qed.

(** The file of one job, and those of the others. *)
Lemma other_job l comm fl1 j b fl2 s q : scan_inv l comm (fl1 ++ (j, b) :: fl2) s -> hashed comm (fl1 ++ fl2) q -> q <> job_file j.
Proof.
  intros [_ _ J _ _] H ->. destruct H as [H|(j' & Hj & E)].
  - apply (ji_disjoint _ _ _ _ J _ H). apply (job_in _ j b), elem_of_app. right. by left.
  - pose proof (ji_NoDup _ _ _ _ J) as Hnd. unfold files_of in Hnd. rewrite fmap_app, map_app in Hnd. cbn [fmap list_fmap map] in Hnd.
    apply NoDup_app in Hnd as (_ & H1 & H2). apply NoDup_cons in H2 as [H2 _]. apply elem_of_app in Hj as [Hj|Hj].
    + apply (H1 (job_file j)); [|by left]. rewrite <- E. apply (job_in fl1 j' true Hj).
    + apply H2. cbn [fst]. rewrite <- E. apply (job_in fl2 j' true Hj).
Qed.

Lemma hash_status_iff p (P Q : Prop) d : (P <-> Q) -> hash_status p P d -> hash_status p Q d.
Proof. unfold hash_status. tauto. Qed.

Lemma hash_step l comm fl1 j fl2 s : scan_inv l comm (fl1 ++ (j, false) :: fl2) s ->
  exists o, hash_file info open_file (Some algo) (job_file j) (objects_ s) = Ok o /\ scan_inv l comm (fl1 ++ (j, true) :: fl2) (with_objects o s).
Proof.
  intros Hinv. destruct (inflight_data _ _ _ _ j false Hinv) as (d & Hp & Eg & Ed & Hs & Hcount & Hnc); [apply elem_of_app; right; by left|].
  assert (~ hashed comm (fl1 ++ (j, false) :: fl2) (job_file j)) as Hnh.
  { rewrite hashed_one. intros [[? _]|H]; [done|]. by apply (other_job _ _ _ _ _ _ _ _ Hinv) in H. }
  destruct (hash_file_ok (job_file j) (objects_ s) d Eg Ed) as (o & Eo & O1 & O2 & O3 & O4 & Hst); [by apply (hash_status_iff _ (hashed comm (fl1 ++ (j, false) :: fl2) (job_file j)))|].
  exists o. split; [done|]. pose proof Hinv as [L D J Hh I]. split; [done| | | |].
  - destruct D as [D1 D2 D3 D4 D5 D6]. split; cbn [objects_ with_objects hardlinks_ file_start_hash_]; rewrite ?O1, ?O4; try done.
    + intros p d' H. apply lookup_insert_Some in H as [[<- _]|[_ H]]; [done|by eapply D2].
    + intros p Hpp. destruct (decide (p = job_file j)) as [->|Hne].
      * rewrite lookup_insert_eq. eexists. split; [done|]. split; [|unfold hashed_data; destruct (content _); done].
        eapply hash_status_iff; [|exact Hst]. rewrite hashed_one. tauto.
      * rewrite lookup_insert_ne by done. destruct (D3 p Hpp) as (d' & E' & H1 & H2). exists d'. split; [done|]. split; [|done].
        eapply hash_status_iff; [|exact H1]. rewrite !hashed_one. split; [intros [[? _]|?]; [done|by right]|intros [[_ ?]|?]; [congruence|by right]].
  - assert ((fl1 ++ (j, true) :: fl2).*1 = (fl1 ++ (j, false) :: fl2).*1) as -> by (by rewrite !fmap_app). by destruct J; split.
  - by destruct Hh; split.
  - destruct I as [I1 I2 I3 I4]. split; cbn [objects_ with_objects]; rewrite ?O2, ?O3; done.
Qed.

(** ** A job is done *)

Lemma delete_decomp {A} (js1 js2 a b : list A) j x : js1 ++ js2 = a ++ x :: b ->
  exists a' b', js1 ++ j :: js2 = a' ++ x :: b' /\ forall y, y ∈ a' -> y ∈ a \/ y = j.
Proof.
  intros E. apply app_eq_inv in E as [(k & -> & Ek)|(k & -> & ->)].
  - destruct k as [|y k].
    + cbn in Ek. subst js2. exists (a ++ [j]), b. rewrite app_nil_r, <- app_assoc. split; [done|]. intros y Hy. apply elem_of_app in Hy as [?|Hy]; [by left|right; by apply list_elem_of_singleton in Hy].
    + injection Ek as <- ->. exists a, (k ++ j :: js2). rewrite <- app_assoc. split; [done|]. intros y Hy. by left.
  - exists (js1 ++ j :: k), b. rewrite <- app_assoc. split; [done|]. intros y Hy. rewrite elem_of_app, elem_of_cons in *. tauto.
Qed.

Lemma files_of_app js1 js2 : files_of (js1 ++ js2) = files_of js1 ++ files_of js2.
Proof. apply map_app. Qed.

Lemma files_delete js1 j js2 q : q ∈ files_of (js1 ++ j :: js2) <-> q = job_file j \/ q ∈ files_of (js1 ++ js2).
Proof. rewrite !files_of_app. cbn [files_of map]. rewrite !elem_of_app, elem_of_cons. unfold files_of. tauto. Qed.

Lemma files_NoDup_delete js1 j js2 : NoDup (files_of (js1 ++ j :: js2)) -> NoDup (files_of (js1 ++ js2)) /\ job_file j ∉ files_of (js1 ++ js2).
Proof.
  intros H. assert (files_of (js1 ++ j :: js2) ≡ₚ job_file j :: files_of (js1 ++ js2)) as E.
  { rewrite !files_of_app. cbn [files_of map]. symmetry. apply Permutation_middle. }
  rewrite E in H. by apply NoDup_cons in H as [? ?].
Qed.

(** A job that waits for nothing finds the first file of its size done. *)
Lemma first_done l comm js1 p ol js2 s : job_inv l comm (js1 ++ NextJob p ol :: js2) s -> latch_open (NextJob p ol) s = true ->
  exists f, hd_error (class l (key_of p)) = Some f /\ f <> p /\ f ∈ comm.
Proof.
  intros J Ho. destruct (ji_next _ _ _ _ J js1 p ol js2 eq_refl) as (f & Hf & Hne & [[Hc _]|(la & -> & Hin)]); [by exists f|].
  cbn in Ho. apply bool_decide_eq_true in Ho. destruct (ji_first _ _ _ _ J f la (key_of p)) as (_ & _ & _ & Hn); [apply elem_of_app; by left|done].
Qed.

Lemma next_done l comm js1 p ol js2 s s' : job_inv l comm (js1 ++ NextJob p ol :: js2) s -> latch_open (NextJob p ol) s = true ->
  unique_size_ s' = unique_size_ s -> first_file_hashed_ s' = first_file_hashed_ s -> next_latch s' = next_latch s -> counted_down s' = counted_down s ->
  job_inv l ({[p]} ∪ comm) (js1 ++ js2) s'.
Proof.
  intros J Ho E1 E2 E3 E4. destruct (first_done _ _ _ _ _ _ _ J Ho) as (f & Hf & Hne & Hfc). pose proof J as [J1 J2 J3 J4 J5 J6 J7 J8 J9 J10].
  destruct (files_NoDup_delete _ _ _ J2) as [N1 N2]. split; rewrite ?E1, ?E2, ?E3, ?E4; try done.
  - intros q. rewrite <- J3, files_delete, elem_of_union, elem_of_singleton. cbn [job_file]. tauto.
  - intros q Hq Hin. apply elem_of_union in Hq as [->%elem_of_singleton|Hq]; [done|]. apply (J4 q Hq), files_delete. by right.
  - intros q la key H. apply J5. rewrite elem_of_app, elem_of_cons in *. tauto.
  - intros a q ol' b E. destruct (delete_decomp _ _ _ _ (NextJob p ol) _ E) as (a' & b' & E' & Ha). destruct (J6 a' q ol' b' E') as (f' & Hf' & Hne' & H).
    exists f'. split; [done|]. split; [done|]. destruct H as [[H1 H2]|(la & -> & H)]; [left; split; [by apply elem_of_union_r|done]|].
    right. exists la. split; [done|]. by destruct (Ha _ H) as [?|?].
  - intros key la H. destruct (J7 key la H) as [H1 (q & H2)]. split; [done|]. exists q. rewrite elem_of_app, elem_of_cons in *. destruct H2 as [?|[?|?]]; [by left|done|by right].
  - intros q Hq. apply elem_of_union in Hq as [->%elem_of_singleton|Hq]; [exists f; split; [done|by apply elem_of_union_r]|].
    destruct (J10 q Hq) as (f' & H1 & H2). exists f'. split; [done|by apply elem_of_union_r].
Qed.

Lemma first_job_done l comm js1 p la key js2 s s' : job_inv l comm (js1 ++ FirstJob p la key :: js2) s ->
  unique_size_ s' = unique_size_ s -> first_file_hashed_ s' = delete key (first_file_hashed_ s) -> next_latch s' = next_latch s -> counted_down s' = {[la]} ∪ counted_down s ->
  job_inv l ({[p]} ∪ comm) (js1 ++ js2) s'.
Proof.
  intros J E1 E2 E3 E4. pose proof J as [J1 J2 J3 J4 J5 J6 J7 J8 J9 J10]. destruct (files_NoDup_delete _ _ _ J2) as [N1 N2]. cbn [job_file] in *.
  destruct (J5 p la key) as (Ekey & Hhd & Hla & Hdown); [apply elem_of_app; right; by left|].
  assert (forall q la' key', FirstJob q la' key' ∈ js1 ++ js2 -> FirstJob q la' key' ∈ js1 ++ FirstJob p la key :: js2) as Hold.
  { intros q la' key' H. rewrite elem_of_app, elem_of_cons in *. tauto. }
  assert (forall q la' key', FirstJob q la' key' ∈ js1 ++ js2 -> key' <> key /\ la' <> la) as Hother.
  { intros q la' key' H. destruct (J5 q la' key' (Hold _ _ _ H)) as (_ & H2 & H3 & _).
    assert (key' <> key) as Hk; [|split; [done|]; intros ->; by apply Hk, (J9 key' key la)].
    intros ->. rewrite Hhd in H2. injection H2 as ->. apply N2. apply list_elem_of_fmap. by exists (FirstJob q la' key). }
  split; rewrite ?E1, ?E2, ?E3, ?E4; try done.
  - intros q. rewrite <- J3, files_delete, elem_of_union, elem_of_singleton. cbn [job_file]. tauto.
  - intros q Hq Hin. apply elem_of_union in Hq as [->%elem_of_singleton|Hq]; [done|]. apply (J4 q Hq), files_delete. by right.
  - intros q la' key' H. destruct (J5 q la' key' (Hold _ _ _ H)) as (H1 & H2 & H3 & H4). destruct (Hother _ _ _ H) as [Hk Hl]. split_and!; [done|done| |].
    + by rewrite lookup_delete_ne.
    + rewrite elem_of_union, elem_of_singleton. tauto.
  - intros a q ol' b E. destruct (delete_decomp _ _ _ _ (FirstJob p la key) _ E) as (a' & b' & E' & Ha). destruct (J6 a' q ol' b' E') as (f' & Hf' & Hne' & H).
    exists f'. split; [done|]. split; [done|]. destruct H as [[H1 H2]|(la' & -> & H)].
    + left. split; [by apply elem_of_union_r|]. intros la' El. apply elem_of_union_r. by apply H2.
    + destruct (Ha _ H) as [?|[= -> -> Ek]]; [right; by exists la'|]. left. split; [apply elem_of_union_l; by apply elem_of_singleton|].
      intros la' [= <-]. apply elem_of_union_l. by apply elem_of_singleton.
  - intros key' la' H. apply lookup_delete_Some in H as [Hk H]. destruct (J7 key' la' H) as [H1 (q & H2)]. split; [done|]. exists q.
    rewrite elem_of_app, elem_of_cons in *. destruct H2 as [?|[[= -> -> ->]|?]]; [by left|done|by right].
  - intros la' H. apply elem_of_union in H as [->%elem_of_singleton|H]; [by destruct (J7 key la Hla)|by apply J8].
  - intros k1 k2 la' H1 H2. apply lookup_delete_Some in H1 as [_ H1]. apply lookup_delete_Some in H2 as [_ H2]. by apply (J9 k1 k2 la').
  - intros q Hq. apply elem_of_union in Hq as [->%elem_of_singleton|Hq]; [exists p; subst key; split; [done|apply elem_of_union_l; by apply elem_of_singleton]|].
    destruct (J10 q Hq) as (f' & H1 & H2). exists f'. split; [done|by apply elem_of_union_r].
Qed.

Lemma hashed_commit comm fl1 j fl2 q : hashed ({[job_file j]} ∪ comm) (fl1 ++ fl2) q <-> hashed comm (fl1 ++ (j, true) :: fl2) q.
Proof. rewrite hashed_one. unfold hashed. rewrite elem_of_union, elem_of_singleton. split; [intros [[?|?]|?]; auto|intros [[_ ?]|[?|?]]; auto]. Qed.

Lemma data_inv_ext l comm comm' fl fl' s s' : data_inv l comm fl s -> (forall q, hashed comm fl q <-> hashed comm' fl' q) ->
  data_of (objects_ s') = data_of (objects_ s) -> datas (objects_ s') = datas (objects_ s) -> hardlinks_ s' = hardlinks_ s -> file_start_hash_ s' = file_start_hash_ s ->
  data_inv l comm' fl' s'.
Proof.
  intros [D1 D2 D3 D4 D5 D6] Hh E1 E2 E3 E4. split; rewrite ?E1, ?E2, ?E3, ?E4; try done.
  intros p Hp. destruct (D3 p Hp) as (d & Hd & H1 & H2). exists d. split; [done|]. split; [|done]. exact (hash_status_iff p _ _ d (Hh p) H1).
Qed.

Lemma push_file_lookup {K} `{Countable K} (k k' : K) p m : default [] (push_file k p m !! k') = default [] (m !! k') ++ (if decide (k = k') then [p] else []).
Proof.
  unfold push_file. destruct (decide (k = k')) as [->|Hne]; [by rewrite lookup_insert_eq|]. by rewrite lookup_insert_ne, app_nil_r.
Qed.

Lemma hash_push comm p c s s' : hash_inv comm s -> content p = Some c -> p ∉ comm ->
  by_hash_ s' = push_file (algo c) p (by_hash_ s) -> by_inode_id_ s' = by_inode_id_ s -> hash_inv ({[p]} ∪ comm) s'.
Proof.
  intros [H1 H2 H3 H4 H5] Hc Hp E1 E2. split; rewrite ?E1, ?E2; try done.
  - intros h q. rewrite push_file_lookup, elem_of_app, H1, elem_of_union, elem_of_singleton. destruct (decide (algo c = h)) as [<-|Hne].
    + rewrite list_elem_of_singleton. split; [intros [[? ?]| ->]; [split; [by right|done]|split; [by left|by exists c]]|].
      intros [[->|?] ?]; [by right|by left].
    + split; [intros [[? ?]|?%elem_of_nil]; [split; [by right|done]|done]|]. intros [[->|?] (c' & Hc' & E)]; [exfalso; congruence|left; split; [done|by exists c']].
  - intros h. rewrite push_file_lookup. apply NoDup_app. split; [apply H2|]. destruct (decide (algo c = h)) as [<-|Hne].
    + split; [|apply NoDup_singleton]. intros x Hx ->%list_elem_of_singleton. by apply H1 in Hx as [? _].
    + split; [|constructor]. by intros x _ ?%elem_of_nil.
  - intros h. unfold push_file. destruct (decide (algo c = h)) as [<-|Hne]; [rewrite lookup_insert_eq; intros [= E]; by destruct (default _ _)|by rewrite lookup_insert_ne].
  - intros id q. rewrite H4, elem_of_union, elem_of_singleton. split; [intros (? & ? & ?); auto|]. intros ([->|?] & Hn & ?); [congruence|done].
Qed.

Lemma id_push comm p s s' : hash_inv comm s -> content p = None -> p ∉ comm ->
  by_hash_ s' = by_hash_ s -> by_inode_id_ s' = push_file (id_of p) p (by_inode_id_ s) -> hash_inv ({[p]} ∪ comm) s'.
Proof.
  intros [H1 H2 H3 H4 H5] Hc Hp E1 E2. split; rewrite ?E1, ?E2; try done.
  - intros h q. rewrite H1, elem_of_union, elem_of_singleton. split; [intros [? ?]; auto|]. intros ([->|?] & (c & Hc' & ?)); [congruence|by split; [|exists c]].
  - intros id q. rewrite push_file_lookup, elem_of_app, H4, elem_of_union, elem_of_singleton. destruct (decide (id_of p = id)) as [<-|Hne].
    + rewrite list_elem_of_singleton. split; [intros [(? & ? & ?)| ->]; [auto|auto]|]. intros ([->|?] & ? & ?); auto.
    + split; [intros [(? & ? & ?)|?%elem_of_nil]; [auto|done]|]. intros ([->|?] & ? & ?); [congruence|auto].
  - intros id. rewrite push_file_lookup. apply NoDup_app. split; [apply H5|]. destruct (decide (id_of p = id)) as [<-|Hne].
    + split; [|apply NoDup_singleton]. intros x Hx ->%list_elem_of_singleton. by apply H4 in Hx as [? _].
    + split; [|constructor]. by intros x _ ?%elem_of_nil.
Qed.

(** *** Inodes *)

Lemma same_file_sym comm p q : same_file comm p q -> same_file comm q p.
Proof. intros (H1 & H2 & c & H3 & H4). split; [done|]. split; [done|]. by exists c. Qed.

Lemma same_file_mono comm p q r : same_file comm p q -> same_file ({[r]} ∪ comm) p q.
Proof. intros (H1 & H2 & H3). split; [by apply elem_of_union_r|]. split; [by apply elem_of_union_r|done]. Qed.

(** A pair of files that are to have one inode now, and were not before. *)
Lemma same_file_new comm p q r : same_file ({[p]} ∪ comm) q r -> same_file comm q r \/ (q = p /\ r = p) \/
  (q = p /\ r ∈ comm /\ exists c, content p = Some c /\ content r = Some c) \/ (r = p /\ q ∈ comm /\ exists c, content p = Some c /\ content q = Some c).
Proof.
  intros (H1 & H2 & c & H3 & H4). apply elem_of_union in H1 as [->%elem_of_singleton|H1]; apply elem_of_union in H2 as [->%elem_of_singleton|H2].
  - right; left. done.
  - right; right; left. split; [done|]. split; [done|]. by exists c.
  - right; right; right. split; [done|]. split; [done|]. by exists c.
  - left. split; [done|]. split; [done|]. by exists c.
Qed.

(** A new inode has its file. *)
Lemma new_inode_onto (m : gmap nat nat) n p : m !! p = None -> (forall i, (i < n)%nat -> exists q, m !! q = Some i) ->
  forall i, (i < S n)%nat -> exists q, <[p := n]> m !! q = Some i.
Proof.
  intros Hp H i Hi. destruct (decide (i = n)) as [->|Hne]; [exists p; apply lookup_insert_eq|]. destruct (H i) as [q Hq]; [lia|]. exists q. by rewrite lookup_insert_ne by congruence.
Qed.

(** The first file of its size has its inode already. *)
Lemma inode_first l comm p s s' : inode_inv l comm s -> hd_error (class l (key_of p)) = Some p ->
  (forall q c, q ∈ comm -> content q = Some c -> content p <> Some c) ->
  file_inode (objects_ s') = file_inode (objects_ s) -> inode_count (objects_ s') = inode_count (objects_ s) -> inode_inv l ({[p]} ∪ comm) s'.
Proof.
  intros [I1 I2 I3 I4 I5] Hp Hnew E1 E2. split; rewrite ?E1, ?E2; try done.
  - intros q. rewrite I1, elem_of_union, elem_of_singleton. split; [intros [? [?|?]]; auto|]. intros [Hq [[->|?]|?]]; auto.
  - intros q r i Hq Hr. destruct (I3 q r i Hq Hr) as [?|?]; [by left|right; by apply same_file_mono].
  - intros q r H. apply same_file_new in H as [H|[[-> ->]|[(-> & Hr & c & H1 & H2)|(-> & Hq & c & H1 & H2)]]]; [by apply I4|done| |]; by edestruct Hnew.
Qed.

(** Another file gets a new inode. *)
Lemma inode_new l comm p s : inode_inv l comm s -> p ∈ primaries l -> p ∉ comm -> hd_error (class l (key_of p)) <> Some p ->
  (forall q c, q ∈ comm -> content q = Some c -> content p <> Some c) ->
  exists o, add_inode p (objects_ s) = Ok o /\ data_of o = data_of (objects_ s) /\ datas o = datas (objects_ s) /\
    forall s', objects_ s' = o -> inode_inv l ({[p]} ∪ comm) s'.
Proof.
  intros [I1 I2 I3 I4 I5] Hpp Hpc Hp Hnew. assert (file_inode (objects_ s) !! p = None) as Hnone.
  { destruct (file_inode (objects_ s) !! p) as [i|] eqn:E; [|done]. destruct (proj1 (I1 p)) as [_ [?|?]]; [by eexists|done|done]. }
  unfold add_inode, set_inode. cbn [file_inode]. rewrite Hnone. eexists. split; [done|]. split; [done|]. split; [done|].
  intros s' Es. assert (forall q r i, file_inode (objects_ s') !! q = Some i -> file_inode (objects_ s') !! r = Some i -> q = r \/ (q <> p /\ r <> p /\
    file_inode (objects_ s) !! q = Some i /\ file_inode (objects_ s) !! r = Some i)) as Hold.
  { rewrite Es. cbn [file_inode]. intros q r i Hq Hr. apply lookup_insert_Some in Hq as [[<- <-]|[Hqp Hq]]; apply lookup_insert_Some in Hr as [[<- Ei]|[Hrp Hr]].
    - by left.
    - apply I2 in Hr. lia.
    - subst i. apply I2 in Hq. lia.
    - right. done. }
  split.
  - intros q. rewrite Es. cbn [file_inode]. rewrite elem_of_union, elem_of_singleton. destruct (decide (q = p)) as [->|Hne].
    + rewrite lookup_insert_eq. split; [intros _; auto|by eexists].
    + rewrite lookup_insert_ne by done. rewrite I1. tauto.
  - intros q i. rewrite Es. cbn [file_inode inode_count]. intros Hq. apply lookup_insert_Some in Hq as [[_ <-]|[_ Hq]]; [lia|]. apply I2 in Hq. lia.
  - intros q r i Hq Hr. destruct (Hold q r i Hq Hr) as [?|(_ & _ & Hq' & Hr')]; [by left|]. destruct (I3 q r i Hq' Hr') as [?|?]; [by left|right; by apply same_file_mono].
  - intros q r H. apply same_file_new in H as [H|[[-> ->]|[(-> & Hr & c & H1 & H2)|(-> & Hq & c & H1 & H2)]]]; [|done|by edestruct Hnew|by edestruct Hnew].
    pose proof H as (Hqc & Hrc & _). rewrite Es. cbn [file_inode]. rewrite !lookup_insert_ne by (intros ->; done). by apply I4.
  - rewrite Es. cbn [file_inode inode_count]. apply new_inode_onto; [done|by apply I5].
Qed.

(** Another file gets the inode of a file with its contents. *)
Lemma inode_shared l comm p q c s : inode_inv l comm s -> p ∈ primaries l -> p ∉ comm -> hd_error (class l (key_of p)) <> Some p ->
  q ∈ comm -> q ∈ primaries l -> content q = Some c -> content p = Some c ->
  exists i o, file_inode (objects_ s) !! q = Some i /\ set_inode p i (objects_ s) = Ok o /\ data_of o = data_of (objects_ s) /\ datas o = datas (objects_ s) /\
    forall s', objects_ s' = o -> inode_inv l ({[p]} ∪ comm) s'.
Proof.
  intros [I1 I2 I3 I4 I5] Hpp Hpc Hp Hqc Hqp Hcq Hcp. destruct (proj2 (I1 q)) as [i Hi]; [auto|]. assert (file_inode (objects_ s) !! p = None) as Hnone.
  { destruct (file_inode (objects_ s) !! p) as [k|] eqn:E; [|done]. destruct (proj1 (I1 p)) as [_ [?|?]]; [by eexists|done|done]. }
  unfold set_inode. rewrite Hnone. exists i. eexists. split; [done|]. split; [done|]. split; [done|]. split; [done|]. intros s' Es.
  assert (q <> p) as Hqp' by (by intros ->).
  assert (forall r, file_inode (objects_ s) !! r = Some i -> same_file ({[p]} ∪ comm) p r) as Hwith.
  { intros r Hr. split; [apply elem_of_union_l; by apply elem_of_singleton|]. destruct (I3 q r i Hi Hr) as [<-|(_ & Hrc & c' & H1 & H2)].
    - split; [by apply elem_of_union_r|]. by exists c.
    - split; [by apply elem_of_union_r|]. exists c. split; [done|]. congruence. }
  split.
  - intros r. rewrite Es. cbn [file_inode]. rewrite elem_of_union, elem_of_singleton. destruct (decide (r = p)) as [->|Hne].
    + rewrite lookup_insert_eq. split; [intros _; auto|by eexists].
    + rewrite lookup_insert_ne by done. rewrite I1. tauto.
  - intros r k. rewrite Es. cbn [file_inode inode_count]. intros Hr. apply lookup_insert_Some in Hr as [[_ <-]|[_ Hr]]; by eapply I2.
  - intros r r' k. rewrite Es. cbn [file_inode]. intros Hr Hr'. apply lookup_insert_Some in Hr as [[<- <-]|[Hrp Hr]]; apply lookup_insert_Some in Hr' as [[<- Ek]|[Hrp' Hr']].
    + by left.
    + right. by apply Hwith.
    + subst k. right. by apply same_file_sym, Hwith.
    + destruct (I3 r r' k Hr Hr') as [?|?]; [by left|right; by apply same_file_mono].
  - assert (forall r c', r ∈ comm -> content p = Some c' -> content r = Some c' -> file_inode (objects_ s) !! r = Some i) as Hothers.
    { intros r c' Hr H1 H2. rewrite <- Hi. symmetry. apply I4. split; [done|]. split; [done|]. exists c. split; [done|]. congruence. }
    intros r r' H. rewrite Es. cbn [file_inode]. apply same_file_new in H as [H|[[-> ->]|[(-> & Hr & c' & H1 & H2)|(-> & Hq & c' & H1 & H2)]]]; [|done| |].
    + pose proof H as (Hrc & Hrc' & _). rewrite !lookup_insert_ne by (intros ->; done). by apply I4.
    + rewrite lookup_insert_eq, lookup_insert_ne by (intros ->; done). symmetry. by eapply Hothers.
    + rewrite lookup_insert_eq, lookup_insert_ne by (intros ->; done). by eapply Hothers.
  - rewrite Es. cbn [file_inode inode_count]. intros j Hj. destruct (I5 j Hj) as [r Hr]. exists r. by rewrite lookup_insert_ne by congruence.
Qed.

(** *** The two kinds of jobs *)

Lemma hashed_status_data l comm fl1 j fl2 s d : hash_status (job_file j) (hashed comm (fl1 ++ (j, true) :: fl2) (job_file j)) d ->
  scan_inv l comm (fl1 ++ (j, true) :: fl2) s ->
  match content (job_file j) with Some c => da_hash d = algo c /\ da_invalid d = false | None => da_hash d = [] /\ da_invalid d = true end.
Proof. intros (_ & H & _) _. apply H. rewrite hashed_one. by left. Qed.

Lemma commit_jobs (fl1 fl2 : list (job * bool)) j b : (fl1 ++ (j, b) :: fl2).*1 = fl1.*1 ++ j :: fl2.*1 /\ (fl1 ++ fl2).*1 = fl1.*1 ++ fl2.*1.
Proof. by rewrite !fmap_app. Qed.

(** No other file with a hash has the contents of the first file of its size
    when its job is not done. *)
Lemma first_is_new l comm js p s q c : job_inv l comm js s -> hd_error (class l (key_of p)) = Some p -> p ∉ comm ->
  q ∈ comm -> content q = Some c -> content p <> Some c.
Proof.
  intros J Hp Hpc Hq Hcq Hcp. destruct (ji_comm _ _ _ _ J q Hq) as (f & Hf & Hfc). rewrite (same_content_key q p c Hcq Hcp), Hp in Hf. by injection Hf as <-.
Qed.

Lemma commit_first_step l comm fl1 p la key fl2 s : scan_inv l comm (fl1 ++ (FirstJob p la key, true) :: fl2) s ->
  exists s', commit_first info p la key s = Ok s' /\ scan_inv l ({[p]} ∪ comm) (fl1 ++ fl2) s'.
Proof.
  intros Hinv. destruct (inflight_data _ _ _ _ (FirstJob p la key) true Hinv) as (d & Hp & Eg & Ed & Hs & _ & Hnc); [apply elem_of_app; right; by left|].
  pose proof (hashed_status_data _ _ _ _ _ _ _ Hs Hinv) as Hst. cbn [job_file] in *. pose proof Hinv as [L D J Hh I].
  destruct (commit_jobs fl1 fl2 (FirstJob p la key) true) as [Ej1 Ej2]. rewrite Ej1 in J.
  destruct (ji_first _ _ _ _ J p la key) as (Ekey & Hhd & Hla & _); [apply elem_of_app; right; by left|]. subst key.
  pose proof (fun q c => first_is_new _ _ _ p s q c J Hhd Hnc) as Hnew.
  unfold commit_first, is_invalid, hash. rewrite Eg. cbn [rbind]. destruct (content p) as [c|] eqn:Ec; destruct Hst as [-> ->]; cbn [rbind].
  - assert (default [] (by_hash_ s !! algo c) = []) as Hempty.
    { destruct (default [] (by_hash_ s !! algo c)) as [|q v] eqn:E; [done|]. exfalso.
      assert (q ∈ default [] (by_hash_ s !! algo c)) as Hq by (rewrite E; by left). apply (hi_hash _ _ Hh) in Hq as [Hq (c' & Hc' & Ealgo)].
      rewrite (hash_injective q p c' c Hc' Ec Ealgo) in Hc'. by apply (Hnew q c Hq Hc'). }
    rewrite Hempty. unfold dwarfs_check. cbn [rbind first_file_hashed_ with_by_hash with_latches]. rewrite Hla. cbn [rbind].
    eexists. split; [done|]. split; [done| | | |].
    + eapply data_inv_ext; [exact D|intros q; symmetry; apply (hashed_commit comm fl1 (FirstJob p la (key_of p)))|done..].
    + rewrite Ej2. by apply (first_job_done l comm _ p la (key_of p) _ s).
    + by apply (hash_push comm p c s).
    + apply (inode_first l comm p s); [done|done| |done|done]. intros q c' Hq H1 H2. rewrite H2 in Ec. by apply (Hnew q c' Hq H1).
  - unfold dwarfs_check. cbn [rbind first_file_hashed_ with_by_inode_id with_latches]. rewrite Hla. cbn [rbind].
    eexists. split; [done|]. split; [done| | | |].
    + eapply data_inv_ext; [exact D|intros q; symmetry; apply (hashed_commit comm fl1 (FirstJob p la (key_of p)))|done..].
    + rewrite Ej2. by apply (first_job_done l comm _ p la (key_of p) _ s).
    + by apply (id_push comm p s).
    + apply (inode_first l comm p s); [done|done| |done|done]. intros q c' Hq H1 H2. congruence.
Qed.

Lemma commit_next_step l comm fl1 p ol fl2 s : scan_inv l comm (fl1 ++ (NextJob p ol, true) :: fl2) s -> latch_open (NextJob p ol) s = true ->
  exists s', commit_next info p s = Ok s' /\ scan_inv l ({[p]} ∪ comm) (fl1 ++ fl2) s'.
Proof.
  intros Hinv Hopen. destruct (inflight_data _ _ _ _ (NextJob p ol) true Hinv) as (d & Hp & Eg & Ed & Hs & _ & Hnc); [apply elem_of_app; right; by left|].
  pose proof (hashed_status_data _ _ _ _ _ _ _ Hs Hinv) as Hst. cbn [job_file] in *. pose proof Hinv as [L D J Hh I].
  destruct (commit_jobs fl1 fl2 (NextJob p ol) true) as [Ej1 Ej2]. rewrite Ej1 in J. destruct (first_done _ _ _ _ _ _ _ J Hopen) as (f & Hf & Hne & Hfc).
  assert (hd_error (class l (key_of p)) <> Some p) as Hhd by congruence.
  unfold commit_next, is_invalid, hash. rewrite Eg. cbn [rbind]. destruct (content p) as [c|] eqn:Ec; destruct Hst as [-> ->]; cbn [rbind].
  - destruct (default [] (by_hash_ s !! algo c)) as [|q v] eqn:E.
    + destruct (inode_new l comm p s I Hp Hnc Hhd) as (o & -> & O1 & O2 & HI).
      { intros q c' Hq H1 H2. rewrite Ec in H2. injection H2 as <-. assert (q ∈ default [] (by_hash_ s !! algo c)) as Hin by (apply (hi_hash _ _ Hh); split; [done|by exists c]).
        rewrite E in Hin. by apply elem_of_nil in Hin. }
      cbn [rbind]. eexists. split; [done|]. split; [done| | | |].
      * eapply data_inv_ext; [exact D|intros r; symmetry; apply (hashed_commit comm fl1 (NextJob p ol))|done..].
      * rewrite Ej2. by apply (next_done l comm _ p ol _ s).
      * by apply (hash_push comm p c s).
      * by apply HI.
    + assert (q ∈ default [] (by_hash_ s !! algo c)) as Hq by (rewrite E; by left). apply (hi_hash _ _ Hh) in Hq as [Hq (c' & Hc' & Ealgo)].
      rewrite (hash_injective q p c' c Hc' Ec Ealgo) in Hc'. destruct (proj1 (ji_split _ _ _ _ J q) (or_introl Hq)) as [Hqp _].
      destruct (inode_shared l comm p q c s I Hp Hnc Hhd Hq Hqp Hc' Ec) as (i & o & Ei & Eo & O1 & O2 & HI).
      rewrite Ei. cbn [there rbind]. rewrite Eo. cbn [rbind]. eexists. split; [done|]. split; [done| | | |].
      * eapply data_inv_ext; [exact D|intros r; symmetry; apply (hashed_commit comm fl1 (NextJob p ol))|done..].
      * rewrite Ej2. by apply (next_done l comm _ p ol _ s).
      * by apply (hash_push comm p c s).
      * by apply HI.
  - destruct (inode_new l comm p s I Hp Hnc Hhd) as (o & -> & O1 & O2 & HI); [intros; congruence|].
    cbn [rbind]. eexists. split; [done|]. split; [done| | | |].
    + eapply data_inv_ext; [exact D|intros r; symmetry; apply (hashed_commit comm fl1 (NextJob p ol))|done..].
    + rewrite Ej2. by apply (next_done l comm _ p ol _ s).
    + by apply (id_push comm p s).
    + by apply HI.
Qed.

(** ** A file is scanned *)

Lemma owned_snoc l p r : filter (fun q => owner (l ++ [p]) q = r) (l ++ [p]) =
  filter (fun q => owner l q = r) l ++ (if decide (owner (l ++ [p]) p = r) then [p] else []).
Proof.
  rewrite filter_app. f_equal.
  assert (forall k, k ⊆ l -> filter (fun q => owner (l ++ [p]) q = r) k = filter (fun q => owner l q = r) k) as H; [|by apply H].
  induction k as [|q k IH]; intros Hk; [done|]. rewrite !filter_cons, owner_app by (apply Hk; by left). rewrite IH; [done|]. intros x Hx. apply Hk. by right.
Qed.

Lemma owned_none l p : p ∉ l -> filter (fun q => owner l q = p) l = [].
Proof.
  intros Hp. destruct (filter (fun q => owner l q = p) l) as [|q v] eqn:E; [done|]. exfalso.
  assert (q ∈ filter (fun q => owner l q = p) l) as H by (rewrite E; by left). apply list_elem_of_filter in H as [<- H]. by apply Hp, owner_in.
Qed.

Lemma owned_le l r : zlen (filter (fun q => owner l q = r) l) <= zlen l.
Proof. pose proof (length_filter (fun q => owner l q = r) l). unfold zlen. lia. Qed.

Lemma hashed_more comm fl jobs q : hashed comm (fl ++ map (fun j => (j, false)) jobs) q <-> hashed comm fl q.
Proof.
  unfold hashed. split; (intros [?|(j & Hj & E)]; [by left|right; exists j; split; [|done]]).
  - apply elem_of_app in Hj as [?|Hj]; [done|]. by apply list_elem_of_fmap in Hj as (j' & [= _ ?] & _).
  - apply elem_of_app. by left.
Qed.

Lemma fresh_file l comm fl s p : scan_inv l comm fl s -> p ∉ l -> (p ∉ comm) /\ (p ∉ files_of fl.*1) /\ ~ hashed comm fl p.
Proof.
  intros Hinv Hp. pose proof Hinv as [_ _ J _ _]. assert (~ (p ∈ comm \/ p ∈ files_of fl.*1)) as Hn.
  { intros H. apply (ji_split _ _ _ _ J p) in H as [H _]. by apply elem_of_primaries in H as [? _]. }
  assert ((p ∉ comm) /\ (p ∉ files_of fl.*1)) as [H1 H2] by tauto.
  split; [done|]. split; [done|]. intros [?|(j & Hj & <-)]; [done|]. by apply H2, (job_in fl j true).
Qed.

Lemma linked_snoc l p id : linked (l ++ [p]) id = linked l id ++ (if decide (linked_file p /\ id_of p = id) then [p] else []).
Proof. apply linked_app. Qed.

(** The table of hard links. *)
Lemma links_snoc l s p m : (forall id, hardlinks_ s !! id = match linked l id with [] => None | v => Some v end) ->
  (if 1 <? f_nlink (info p) then m = push_file (id_of p) p (hardlinks_ s) else m = hardlinks_ s) ->
  forall id, m !! id = match linked (l ++ [p]) id with [] => None | v => Some v end.
Proof.
  intros Hl Hm id. rewrite linked_snoc. destruct (Z.ltb_spec 1 (f_nlink (info p))) as [H1|H1].
  - subst m. unfold push_file. destruct (decide (id_of p = id)) as [<-|Hne].
    + rewrite lookup_insert_eq, decide_True by done. rewrite Hl. by destruct (linked l (id_of p)).
    + rewrite lookup_insert_ne by done. rewrite Hl, decide_False by tauto. by rewrite app_nil_r.
  - subst m. rewrite Hl, decide_False by lia. by rewrite app_nil_r.
Qed.

(** *** A hard link *)

Lemma scan_hardlink l comm fl s p q v : scan_inv l comm fl s -> p ∉ l -> zlen l + 1 < 2 ^ 32 -> linked_file p -> linked l (id_of p) = q :: v ->
  exists s', scan_file info segment_at_0 xxh3_64 (Some algo) p s = Ok (s', []) /\ scan_inv (l ++ [p]) comm fl s'.
Proof.
  intros Hinv Hp Hlen Hl Ev. pose proof Hinv as [L D J Hh I]. pose proof D as [D1 D2 D3 D4 D5 D6].
  assert (owner (l ++ [p]) p = q) as Ho by (rewrite owner_snoc by done; rewrite decide_True, Ev by done; done).
  assert (q ∈ linked l (id_of p)) as Hq by (rewrite Ev; by left). apply elem_of_linked in Hq as [[Hql Hqi] Hq].
  assert (p <> q) as Hpq by (by intros ->). assert (q ∈ primaries l) as Hqp.
  { apply elem_of_primaries. split; [done|]. unfold owner. rewrite decide_True, Hqi, Ev by done. done. }
  assert (primaries (l ++ [p]) = primaries l) as Epr by (rewrite primaries_snoc, decide_False by congruence; apply app_nil_r).
  assert (forall key, class (l ++ [p]) key = class l key) as Ecl by (intros key; unfold class; by rewrite Epr).
  destruct (D3 q Hqp) as (d & Hd & Hst & Hcnt). destruct (primary_in _ _ Hqp) as [_ Hqo].
  unfold scan_file. destruct (Z.ltb_spec 1 (f_nlink (info p))) as [H1|H1]; [|lia].
  assert (push_file (id_of p) p (hardlinks_ s) !! id_of p = Some (q :: v ++ [p])) as Elook by (unfold push_file; rewrite lookup_insert_eq, D4, Ev; done).
  rewrite Elook. destruct (v ++ [p]) as [|x w] eqn:Evp; [by destruct v|].
  cbn [objects_ with_hardlinks]. unfold hardlink, get_data. rewrite D1, decide_True, Hqo by done. cbn [there rbind]. rewrite Hd. cbn [there rbind].
  eexists. split; [done|]. split; cbn [objects_ with_hardlinks with_objects].
  - apply NoDup_app. split; [done|]. split; [|apply NoDup_singleton]. intros y Hy ->%list_elem_of_singleton. done.
  - assert (da_hardlink_count d + 1 < 2 ^ 32) as Hc by (pose proof (owned_le l q); lia). pose proof (zlen_nonneg (filter (fun r => owner l r = q) l)) as Hc0.
    split; cbn [objects_ with_hardlinks with_objects data_of datas hardlinks_ file_start_hash_].
    + intros r. destruct (decide (r = p)) as [->|Hne].
      * rewrite lookup_insert_eq, decide_True by (apply elem_of_app; right; by apply list_elem_of_singleton). by rewrite Ho.
      * rewrite lookup_insert_ne by done. rewrite D1. destruct (decide (r ∈ l)) as [Hr|Hr].
        -- rewrite decide_True by (apply elem_of_app; by left). by rewrite owner_app.
        -- rewrite decide_False; [done|]. rewrite elem_of_app, list_elem_of_singleton. tauto.
    + intros r d' H. rewrite Epr. apply lookup_insert_Some in H as [[<- _]|[_ H]]; [done|by eapply D2].
    + intros r. rewrite Epr. intros Hr. rewrite owned_snoc, Ho. destruct (decide (r = q)) as [->|Hne].
      * rewrite lookup_insert_eq, decide_True by done. eexists. split; [done|]. split; [exact Hst|]. cbn [da_hardlink_count].
        rewrite zlen_app, wrapu_small by (unfold in_u; lia). unfold zlen in *. cbn [length]. lia.
      * rewrite lookup_insert_ne, decide_False, app_nil_r by done. by apply D3.
    + apply (links_snoc l s); [done|]. by destruct (Z.ltb_spec 1 (f_nlink (info p))); [|lia].
    + by rewrite Epr.
    + by rewrite Epr.
  - destruct J as [J1 J2 J3 J4 J5 J6 J7 J8 J9 J10]. split; cbn; try done.
    + intros key. by rewrite Ecl.
    + intros r. by rewrite Ecl, Epr.
    + intros r la key. rewrite Ecl. apply J5.
    + intros a r ol b E. rewrite Ecl. by eapply J6.
    + intros r. rewrite Ecl. apply J10.
  - by destruct Hh; split.
  - destruct I as [I1 I2 I3 I4]. split; try done. cbn. intros r. rewrite Ecl, Epr. apply I1.
Qed.

(** *** A new file *)

(** The tables after the data of a new file was created and the hash of its start
    computed. *)
Lemma start_hash_ok l comm fl s p m : scan_inv l comm fl s -> p ∉ l -> owner (l ++ [p]) p = p ->
  (if 1 <? f_nlink (info p) then m = push_file (id_of p) p (hardlinks_ s) else m = hardlinks_ s) ->
  exists s', start_hash_file info segment_at_0 xxh3_64 p (with_objects (create_data p (objects_ (with_hardlinks m s))) (with_hardlinks m s)) = Ok (start_of p, s') /\
    data_inv (l ++ [p]) comm fl s' /\ unique_size_ s' = unique_size_ s /\ first_file_hashed_ s' = first_file_hashed_ s /\ next_latch s' = next_latch s /\
    counted_down s' = counted_down s /\ by_inode_id_ s' = by_inode_id_ s /\ by_hash_ s' = by_hash_ s /\
    file_inode (objects_ s') = file_inode (objects_ s) /\ inode_count (objects_ s') = inode_count (objects_ s).
Proof.
  intros Hinv Hp Ho Hm. pose proof Hinv as [L D J Hh I]. pose proof D as [D1 D2 D3 D4 D5 D6]. destruct (fresh_file _ _ _ _ _ Hinv Hp) as (Hpc & Hpf & Hph).
  assert (primaries (l ++ [p]) = primaries l ++ [p]) as Epr by (rewrite primaries_snoc, decide_True by done; done).
  assert (forall r, r ∈ primaries l -> r <> p) as Hne by (intros r Hr ->; by apply elem_of_primaries in Hr as [? _]).
  set (o := create_data p (objects_ (with_hardlinks m s))).
  assert (get_data p o = Ok (p, FileData [] 1 None false)) as Eg by (unfold get_data, o, create_data; cbn; rewrite lookup_insert_eq; cbn; by rewrite lookup_insert_eq).
  (* The data and the start hash that result. *)
  assert (forall s' d, data_of (objects_ s') = <[p := p]> (data_of (objects_ s)) -> datas (objects_ s') = <[p := d]> (datas (objects_ s)) -> hardlinks_ s' = m ->
    da_hash d = [] -> da_inode_num d = None -> da_invalid d = negb (start_ok p) -> da_hardlink_count d = 1 ->
    (forall r, r <> p -> file_start_hash_ s' !! r = file_start_hash_ s !! r) -> (kLargeFileThreshold <= size p -> file_start_hash_ s' !! p = Some (start_of p)) ->
    data_inv (l ++ [p]) comm fl s') as Hdata.
  { intros s' d E1 E2 E3 F1 F2 F3 F4 S1 S2. split; rewrite ?E1, ?E2, ?E3.
    - intros r. destruct (decide (r = p)) as [->|Hr].
      + rewrite lookup_insert_eq, decide_True by (apply elem_of_app; right; by apply list_elem_of_singleton). by rewrite Ho.
      + rewrite lookup_insert_ne by done. rewrite D1. destruct (decide (r ∈ l)) as [Hrl|Hrl].
        * rewrite decide_True by (apply elem_of_app; by left). by rewrite owner_app.
        * rewrite decide_False; [done|]. rewrite elem_of_app, list_elem_of_singleton. tauto.
    - intros r d' H. rewrite Epr, elem_of_app, list_elem_of_singleton. apply lookup_insert_Some in H as [[<- _]|[_ H]]; [by right|left; by eapply D2].
    - intros r Hr. rewrite Epr, elem_of_app, list_elem_of_singleton in Hr. rewrite owned_snoc, Ho. destruct Hr as [Hr| ->].
      + pose proof (Hne r Hr). rewrite lookup_insert_ne, decide_False, app_nil_r by done. by apply D3.
      + rewrite lookup_insert_eq, decide_True by done. exists d. split; [done|]. split; [by split_and!|]. by rewrite owned_none.
    - by apply (links_snoc l s).
    - intros r Hr Hbig. rewrite Epr, elem_of_app, list_elem_of_singleton in Hr. destruct Hr as [Hr| ->]; [rewrite S1 by (by apply Hne); by apply D5|by apply S2].
    - intros r h Hh'. rewrite Epr, elem_of_app, list_elem_of_singleton. destruct (decide (r = p)) as [->|Hr]; [by right|left]. rewrite S1 in Hh' by done. by eapply D6. }
  assert (file_start_hash_ s !! p = None) as Hnone by (destruct (file_start_hash_ s !! p) as [h|] eqn:E; [|done]; by apply D6 in E as [? _]%elem_of_primaries).
  unfold start_hash_file. fold (size p). unfold start_of, start_ok in *. destruct (Z.leb_spec kLargeFileThreshold (size p)) as [Hbig|Hsmall]; cbn [negb orb] in *.
  - cbn [objects_ with_objects file_start_hash_]. unfold is_invalid. rewrite Eg. cbn [rbind da_invalid]. change (file_start_hash_ (with_hardlinks m s)) with (file_start_hash_ s).
    rewrite Hnone. destruct (segment_at_0 p) as [span|] eqn:Es.
    + cbn [rbind]. eexists. split; [done|]. split; [|done]. apply (Hdata _ (FileData [] 1 None false)); try done.
      * intros r Hr. cbn. by apply lookup_insert_ne.
      * intros _. cbn. apply lookup_insert_eq.
    + unfold set_invalid. rewrite Eg. cbn [rbind]. eexists. split; [done|]. split; [|done]. apply (Hdata _ (FileData [] 1 None true)); try done.
      * cbn. apply insert_insert_eq.
      * intros r Hr. cbn. by apply lookup_insert_ne.
      * intros _. cbn. apply lookup_insert_eq.
  - eexists. split; [done|]. split; [|done]. apply (Hdata _ (FileData [] 1 None false)); try done. lia.
Qed.

(** The jobs added. *)
Lemma in_more (q : nat) (comm : gset nat) js new : (q ∈ comm \/ q ∈ files_of (js ++ new)) <-> (q ∈ comm \/ q ∈ files_of js) \/ q ∈ files_of new.
Proof. rewrite files_of_app, elem_of_app. tauto. Qed.

(** The classes after a new file. *)
Lemma class_new l p key : owner (l ++ [p]) p = p -> class (l ++ [p]) key = class l key ++ (if decide (key_of p = key) then [p] else []).
Proof. intros Ho. rewrite class_snoc. do 2 destruct (decide _); done || tauto. Qed.

Lemma primaries_new l p q : owner (l ++ [p]) p = p -> q ∈ primaries (l ++ [p]) <-> q ∈ primaries l \/ q = p.
Proof. intros Ho. by rewrite primaries_snoc, decide_True, elem_of_app, list_elem_of_singleton by done. Qed.

Lemma class_hd_new l p key f : owner (l ++ [p]) p = p -> hd_error (class l key) = Some f -> hd_error (class (l ++ [p]) key) = Some f.
Proof. intros Ho H. rewrite class_new by done. by destruct (class l key). Qed.

Lemma next_new l p js1 ol js2 comm s q : owner (l ++ [p]) p = p -> job_inv l comm (js1 ++ NextJob q ol :: js2) s ->
  exists f, hd_error (class (l ++ [p]) (key_of q)) = Some f /\ f <> q /\
    ((f ∈ comm /\ forall la, ol = Some la -> la ∈ counted_down s) \/ exists la, ol = Some la /\ FirstJob f la (key_of q) ∈ js1).
Proof.
  intros Ho J. destruct (ji_next _ _ _ _ J js1 q ol js2 eq_refl) as (g & H1 & H2). exists g. split; [by apply class_hd_new|done].
Qed.

(** The first file of its size and start. *)
Lemma job_new_size l comm js s s' p : job_inv l comm js s -> p ∉ l -> owner (l ++ [p]) p = p -> class l (key_of p) = [] ->
  unique_size_ s' = <[key_of p := [p]]> (unique_size_ s) -> first_file_hashed_ s' = first_file_hashed_ s -> next_latch s' = next_latch s ->
  counted_down s' = counted_down s -> job_inv (l ++ [p]) comm js s'.
Proof.
  intros J Hp Ho Hc E1 E2 E3 E4. pose proof J as [J1 J2 J3 J4 J5 J6 J7 J8 J9 J10]. split; rewrite ?E1, ?E2, ?E3, ?E4; try done.
  - intros key. rewrite class_new by done. destruct (decide (key_of p = key)) as [<-|Hne]; [by rewrite lookup_insert_eq, Hc|].
    by rewrite lookup_insert_ne, app_nil_r.
  - intros q. rewrite J3, primaries_new, class_new by done. destruct (decide (key_of p = key_of q)) as [E|Hne].
    + rewrite <- E, Hc. cbn [length app]. lia.
    + rewrite app_nil_r. split; [tauto|]. intros [[?| ->] ?]; done.
  - intros q la key H. destruct (J5 q la key H) as (H1 & H2 & H3 & H4). split_and!; [done|by apply class_hd_new|done|done].
  - intros js1 q ol js2 ->. by apply (next_new l p js1 ol js2 comm s q).
  - intros q Hq. destruct (J10 q Hq) as (f & H1 & H2). exists f. split; [by apply class_hd_new|done].
Qed.

(** Another file of a size of which the first one is to be hashed or was. *)
Lemma job_new_file l comm js s s' p f g v : job_inv l comm js s -> p ∉ l -> owner (l ++ [p]) p = p -> class l (key_of p) = f :: g :: v ->
  unique_size_ s' = unique_size_ s -> first_file_hashed_ s' = first_file_hashed_ s -> next_latch s' = next_latch s ->
  counted_down s' = counted_down s -> job_inv (l ++ [p]) comm (js ++ [NextJob p (first_file_hashed_ s !! key_of p)]) s'.
Proof.
  intros J Hp Ho Hc E1 E2 E3 E4. pose proof J as [J1 J2 J3 J4 J5 J6 J7 J8 J9 J10].
  assert (f ∈ class l (key_of p)) as Hf by (rewrite Hc; by left). apply elem_of_class in Hf as [Hfk Hfp].
  assert (f ∈ comm \/ f ∈ files_of js) as Hfj by (apply J3; rewrite Hfk, Hc; split; [done|cbn; lia]).
  assert (f <> p) as Hfne by (intros ->; by apply elem_of_primaries in Hfp as [? _]).
  assert ((p ∉ comm) /\ (p ∉ files_of js)) as [Hpc Hpj].
  { split; intros H; [destruct (proj1 (J3 p) (or_introl H)) as [H' _]|destruct (proj1 (J3 p) (or_intror H)) as [H' _]]; by apply elem_of_primaries in H' as [? _]. }
  split; rewrite ?E1, ?E2, ?E3, ?E4; try done.
  - intros key. rewrite class_new by done. destruct (decide (key_of p = key)) as [<-|Hne]; [by rewrite J1, Hc|by rewrite app_nil_r].
  - rewrite files_of_app. apply NoDup_app. split; [done|]. split; [|apply NoDup_singleton]. intros x Hx ->%list_elem_of_singleton. done.
  - intros q. rewrite in_more, J3, primaries_new, class_new by done.
    cbn [files_of map job_file]. rewrite list_elem_of_singleton. destruct (decide (key_of p = key_of q)) as [E|Hne].
    + rewrite <- E, Hc. cbn [length app]. rewrite length_app. split; [intros [[? ?]| ->]; split; auto; cbn; lia|].
      intros [[?| ->] _]; [left; split; [done|lia]|by right].
    + rewrite app_nil_r. split; [intros [[? ?]| ->]; [auto|done]|]. intros [[?| ->] ?]; [auto|done].
  - intros q Hq. rewrite files_of_app, elem_of_app. intros [H|H]; [by apply (J4 q)|]. apply list_elem_of_singleton in H as ->. done.
  - intros q la key H. apply elem_of_app in H as [H|H]; [|by apply list_elem_of_singleton in H].
    destruct (J5 q la key H) as (H1 & H2 & H3 & H4). split_and!; [done|by apply class_hd_new|done|done].
  - intros js1 q ol js2 E. destruct js2 as [|x js2 _] using rev_ind.
    + apply app_inj_tail in E as [<- [= <- <-]]. exists f. split; [apply class_hd_new; [done|by rewrite Hc]|]. split; [done|].
      destruct Hfj as [Hfc|Hfj].
      * left. split; [done|]. intros la Hla. destruct (J7 _ la Hla) as [_ (q & Hq)]. destruct (J5 _ _ _ Hq) as (_ & H2 & _). rewrite Hc in H2. injection H2 as ->.
        exfalso. apply (J4 q Hfc). apply list_elem_of_fmap. by exists (FirstJob q la (key_of p)).
      * right. apply list_elem_of_fmap in Hfj as (j & Ej & Hj). destruct j as [f' la key|f' ol]; cbn [job_file] in Ej; subst f'.
        -- destruct (J5 _ _ _ Hj) as (-> & _ & H3 & _). rewrite Hfk in *. by exists la.
        -- apply list_elem_of_split in Hj as (a & b & ->). destruct (J6 a f ol b eq_refl) as (h & H1 & H2 & _). rewrite Hfk, Hc in H1. by injection H1 as ->.
    + rewrite app_comm_cons, app_assoc in E. apply app_inj_tail in E as [-> _]. by apply (next_new l p js1 ol js2 comm s q).
  - intros key la H. destruct (J7 key la H) as [H1 (q & H2)]. split; [done|]. exists q. apply elem_of_app. by left.
  - intros q Hq. destruct (J10 q Hq) as (h & H1 & H2). exists h. split; [by apply class_hd_new|done].
Qed.

(** The second file of its size and start: the first one is to be hashed, too. *)
Lemma job_new_pair l comm js s s' p f : job_inv l comm js s -> p ∉ l -> owner (l ++ [p]) p = p -> class l (key_of p) = [f] ->
  unique_size_ s' = <[key_of p := []]> (unique_size_ s) -> first_file_hashed_ s' = <[key_of p := next_latch s]> (first_file_hashed_ s) ->
  next_latch s' = S (next_latch s) -> counted_down s' = counted_down s ->
  first_file_hashed_ s !! key_of p = None /\ job_inv (l ++ [p]) comm (js ++ [FirstJob f (next_latch s) (key_of p); NextJob p (Some (next_latch s))]) s'.
Proof.
  intros J Hp Ho Hc E1 E2 E3 E4. pose proof J as [J1 J2 J3 J4 J5 J6 J7 J8 J9 J10]. set (la := next_latch s) in *. set (key := key_of p) in *.
  assert (f ∈ class l key) as Hf by (rewrite Hc; by left). apply elem_of_class in Hf as [Hfk Hfp].
  assert (~ (f ∈ comm \/ f ∈ files_of js)) as Hfj by (rewrite J3, Hfk, Hc; intros [_ ?]; cbn in *; lia).
  assert (f <> p) as Hfne by (intros ->; by apply elem_of_primaries in Hfp as [? _]).
  assert (~ (p ∈ comm \/ p ∈ files_of js)) as Hpj by (rewrite J3; intros [H' _]; by apply elem_of_primaries in H' as [? _]).
  assert (forall q la' k, FirstJob q la' k ∈ js -> k <> key /\ la' <> la) as Hold.
  { intros q la' k H. destruct (J5 q la' k H) as (H1 & H2 & H3 & _). split.
    - intros ->. rewrite Hc in H2. injection H2 as ->. apply Hfj. right. apply list_elem_of_fmap. by exists (FirstJob q la' key).
    - destruct (J7 k la' H3) as [? _]. unfold la. lia. }
  assert (forall k la', first_file_hashed_ s !! k = Some la' -> k <> key /\ la' <> la) as Hfirst.
  { intros k la' H. destruct (J7 k la' H) as [_ (q & Hq)]. by apply Hold in Hq. }
  split; [destruct (first_file_hashed_ s !! key) eqn:E; [by apply Hfirst in E as [? _]|done]|]. split; rewrite ?E1, ?E2, ?E3, ?E4.
  - intros k. rewrite class_new by done. destruct (decide (key_of p = k)) as [<-|Hne]; [fold key; by rewrite lookup_insert_eq, Hc|].
    by rewrite lookup_insert_ne, app_nil_r.
  - rewrite files_of_app. apply NoDup_app. split; [done|]. split; [|cbn; apply NoDup_cons; split; [by rewrite list_elem_of_singleton|apply NoDup_singleton]].
    intros x Hx Hx'. cbn in Hx'. rewrite !elem_of_cons in Hx'. destruct Hx' as [->|[->|?%elem_of_nil]]; tauto.
  - intros q. rewrite in_more, J3, primaries_new, class_new by done.
    cbn [files_of map job_file]. rewrite !elem_of_cons, elem_of_nil. destruct (decide (key_of p = key_of q)) as [E|Hne].
    + rewrite <- E. fold key. rewrite Hc. cbn [length app]. split; [intros [[? ?]|[->|[->|?]]]; [lia|split; [by left|lia]|split; [by right|lia]|done]|].
      intros [[Hq| ->] _]; [|tauto]. assert (q ∈ class l key) as Hin by (by apply elem_of_class). rewrite Hc in Hin. apply list_elem_of_singleton in Hin as ->. tauto.
    + rewrite app_nil_r. split; [intros [[? ?]|[->|[->|?]]]; [auto|by rewrite Hfk in Hne|done|done]|]. intros [[?| ->] ?]; [auto|done].
  - intros q Hq. rewrite files_of_app, elem_of_app. cbn [files_of map job_file]. rewrite !elem_of_cons, elem_of_nil.
    intros [H|[->|[->|?]]]; [by apply (J4 q)|tauto|tauto|done].
  - intros q la' k H. rewrite elem_of_app, !elem_of_cons, elem_of_nil in H. destruct H as [H|[[= -> -> ->]|[?|?]]]; [| |done|done].
    + destruct (J5 q la' k H) as (H1 & H2 & H3 & H4). destruct (Hold _ _ _ H) as [Hk _]. split_and!; [done|by apply class_hd_new| |done].
      by rewrite lookup_insert_ne.
    + split_and!; [done|apply class_hd_new; [done|by rewrite Hc]|by rewrite lookup_insert_eq|]. intros H%J8. unfold la in H. lia.
  - intros js1 q ol js2 E. destruct js2 as [|x js2 _] using rev_ind.
    + change [FirstJob f la key; NextJob p (Some la)] with ([FirstJob f la key] ++ [NextJob p (Some la)]) in E. rewrite app_assoc in E.
      apply app_inj_tail in E as [<- [= <- <-]]. exists f. split; [apply class_hd_new; [done|fold key; by rewrite Hc]|]. split; [done|].
      right. exists la. split; [done|]. apply elem_of_app. right. by left.
    + rewrite app_comm_cons, app_assoc in E. change [FirstJob f la key; NextJob p (Some la)] with ([FirstJob f la key] ++ [NextJob p (Some la)]) in E. rewrite app_assoc in E.
      apply app_inj_tail in E as [E _]. destruct js2 as [|y js2 _] using rev_ind; [by apply app_inj_tail in E as [_ ?]|].
      rewrite app_comm_cons, app_assoc in E. apply app_inj_tail in E as [-> _]. by apply (next_new l p js1 ol js2 comm s q).
  - intros k la' H. apply lookup_insert_Some in H as [[<- <-]|[Hk H]].
    + split; [lia|]. exists f. apply elem_of_app. right. by left.
    + destruct (J7 k la' H) as [H1 (q & H2)]. split; [fold la in H1; lia|]. exists q. apply elem_of_app. by left.
  - intros la' H%J8. fold la in H. lia.
  - intros k1 k2 la' H1 H2. apply lookup_insert_Some in H1 as [[<- <-]|[_ H1]]; apply lookup_insert_Some in H2 as [[<- E]|[_ H2]]; [done| | |by apply (J9 k1 k2 la')].
    + by apply Hfirst in H2 as [_ ?].
    + apply Hfirst in H1 as [_ ?]. congruence.
  - intros q Hq. destruct (J10 q Hq) as (h & H1 & H2). exists h. split; [by apply class_hd_new|done].
Qed.

(** The inodes: only the first file of a size and start gets one when it is
    scanned. *)
Lemma inode_new_file l comm s s' p f v : inode_inv l comm s -> p ∉ l -> p ∉ comm -> owner (l ++ [p]) p = p -> class l (key_of p) = f :: v ->
  file_inode (objects_ s') = file_inode (objects_ s) -> inode_count (objects_ s') = inode_count (objects_ s) -> inode_inv (l ++ [p]) comm s'.
Proof.
  intros [I1 I2 I3 I4 I5] Hp Hpc Ho Hc E1 E2. assert (f ∈ class l (key_of p)) as Hf by (rewrite Hc; by left). apply elem_of_class in Hf as [_ Hf].
  apply elem_of_primaries in Hf as [Hf _]. split; rewrite ?E1, ?E2; try done. intros q. rewrite I1, primaries_new, class_new by done.
  destruct (decide (key_of p = key_of q)) as [E|Hne].
  - rewrite <- E, Hc. cbn [hd_error app]. split; [tauto|]. intros [[?| ->] [?|Hq]]; [tauto|tauto|done|congruence].
  - rewrite app_nil_r. split; [tauto|]. intros [[?| ->] ?]; done.
Qed.

Lemma inode_new_size l comm s s' p : inode_inv l comm s -> p ∉ l -> p ∉ comm -> owner (l ++ [p]) p = p -> class l (key_of p) = [] -> (forall q, q ∈ comm -> q ∈ l) ->
  file_inode (objects_ s') = <[p := inode_count (objects_ s)]> (file_inode (objects_ s)) -> inode_count (objects_ s') = S (inode_count (objects_ s)) ->
  file_inode (objects_ s) !! p = None /\ inode_inv (l ++ [p]) comm s'.
Proof.
  intros [I1 I2 I3 I4 I5] Hp Hpc Ho Hc Hcl E1 E2. assert (file_inode (objects_ s) !! p = None) as Hnone.
  { destruct (file_inode (objects_ s) !! p) as [i|] eqn:E; [|done]. destruct (proj1 (I1 p)) as [H _]; [by eexists|]. by apply elem_of_primaries in H as [? _]. }
  split; [done|]. split; rewrite ?E1, ?E2.
  - intros q. rewrite primaries_new, class_new by done. destruct (decide (q = p)) as [->|Hne].
    + rewrite lookup_insert_eq, decide_True, Hc by done. split; [|by eexists]. intros _. split; [by right|by right].
    + rewrite lookup_insert_ne by done. rewrite I1. destruct (decide (key_of p = key_of q)) as [E|Hk]; [|rewrite app_nil_r; tauto].
      rewrite <- E, Hc. cbn [hd_error app]. split; [intros [? [?|?]]; [auto|done]|]. intros [[?|?] [?|[= ?]]]; [auto|congruence|done|congruence].
  - intros q i H. apply lookup_insert_Some in H as [[_ <-]|[_ H]]; [lia|]. apply I2 in H. lia.
  - intros q r i H1 H2. apply lookup_insert_Some in H1 as [[<- <-]|[Hq H1]]; apply lookup_insert_Some in H2 as [[<- E]|[Hr H2]]; [by left| | |by apply I3 with i].
    + apply I2 in H2. lia.
    + subst i. apply I2 in H1. lia.
  - intros q r H. pose proof H as (Hq & Hr & _). rewrite !lookup_insert_ne by (intros ->; done). by apply I4.
  - apply new_inode_onto; [done|by apply I5].
Qed.

Lemma hash_inv_ext comm s s' : hash_inv comm s -> by_hash_ s' = by_hash_ s -> by_inode_id_ s' = by_inode_id_ s -> hash_inv comm s'.
Proof. intros [H1 H2 H3 H4 H5] E1 E2. split; rewrite ?E1, ?E2; done. Qed.

Lemma job_inv_ext l comm js s s' : job_inv l comm js s -> unique_size_ s' = unique_size_ s -> first_file_hashed_ s' = first_file_hashed_ s ->
  next_latch s' = next_latch s -> counted_down s' = counted_down s -> job_inv l comm js s'.
Proof. intros [J1 J2 J3 J4 J5 J6 J7 J8 J9 J10] E1 E2 E3 E4. split; rewrite ?E1, ?E2, ?E3, ?E4; done. Qed.

Lemma NoDup_snoc (l : list nat) p : NoDup l -> p ∉ l -> NoDup (l ++ [p]).
Proof. intros H Hp. apply NoDup_app. split; [done|]. split; [|apply NoDup_singleton]. by intros x Hx ->%list_elem_of_singleton. Qed.

Lemma added_fst (fl : list (job * bool)) jobs : (fl ++ map (fun j => (j, false)) jobs).*1 = fl.*1 ++ jobs.
Proof. rewrite fmap_app. f_equal. rewrite <- list_fmap_compose. by rewrite list_fmap_id. Qed.

Lemma scan_new l comm fl s p m : scan_inv l comm fl s -> p ∉ l -> owner (l ++ [p]) p = p ->
  (if 1 <? f_nlink (info p) then m = push_file (id_of p) p (hardlinks_ s) else m = hardlinks_ s) ->
  exists s' jobs, scan_data info segment_at_0 xxh3_64 (Some algo) p (with_hardlinks m s) = Ok (s', jobs) /\
    scan_inv (l ++ [p]) comm (fl ++ map (fun j => (j, false)) jobs) s'.
Proof.
  intros Hinv Hp Ho Hm. destruct (start_hash_ok _ _ _ _ _ _ Hinv Hp Ho Hm) as (s1 & E1 & D1 & U1 & U2 & U3 & U4 & U5 & U6 & U7 & U8).
  pose proof Hinv as [L D J Hh I]. destruct (fresh_file _ _ _ _ _ Hinv Hp) as (Hpc & _ & _). pose proof (NoDup_snoc l p L Hp) as L'.
  assert (job_inv l comm fl.*1 s1) as J1 by (by apply (job_inv_ext _ _ _ s)).
  unfold scan_data, scan_dedupe. rewrite E1. cbn [rbind]. change (size_of info p, start_of p) with (key_of p).
  rewrite (ji_unique _ _ _ _ J1 (key_of p)). destruct (class l (key_of p)) as [|f [|g v]] eqn:Ec.
  - assert (forall q, q ∈ comm -> q ∈ l) as Hcl by (intros q Hq; destruct (proj1 (ji_split _ _ _ _ J q) (or_introl Hq)) as [H _]; by apply elem_of_primaries in H as [? _]).
    set (o := Objects (data_of (objects_ s1)) (datas (objects_ s1)) (<[p := inode_count (objects_ s1)]> (file_inode (objects_ s1))) (S (inode_count (objects_ s1)))).
    set (s2 := with_unique_size (<[key_of p := [p]]> (unique_size_ s1)) (with_objects o s1)).
    destruct (inode_new_size l comm s s2 p I Hp Hpc Ho Ec Hcl) as [Hnone I2]; [cbn; by rewrite U7, U8|cbn; by rewrite U8|].
    unfold add_inode, set_inode. cbn [file_inode]. rewrite U7, Hnone. cbn [rbind]. rewrite <- U7. exists s2, []. split; [done|]. cbn [map]. rewrite app_nil_r. split; [done| | |by apply (hash_inv_ext _ s)|done].
    + by apply (data_inv_ext _ comm comm fl fl s1).
    + by apply (job_new_size l comm _ s1).
  - set (s2 := with_unique_size (<[key_of p := []]> (unique_size_ s1)) (with_latches (<[key_of p := next_latch s1]> (first_file_hashed_ s1)) (S (next_latch s1)) (counted_down s1) s1)).
    destruct (job_new_pair l comm fl.*1 s1 s2 p f J1 Hp Ho Ec) as [Hnone J2]; [done..|]. rewrite Hnone. unfold dwarfs_check. cbn [rbind].
    exists s2, [FirstJob f (next_latch s1) (key_of p); NextJob p (Some (next_latch s1))]. split; [done|]. split; [done| | |by apply (hash_inv_ext _ s)|].
    + apply (data_inv_ext _ comm comm fl _ s1); try done. intros q. by rewrite hashed_more.
    + by rewrite added_fst.
    + by apply (inode_new_file l comm s s2 p f []).
  - exists s1, [NextJob p (first_file_hashed_ s1 !! key_of p)]. split; [done|]. split; [done| | |by apply (hash_inv_ext _ s)|].
    + apply (data_inv_ext _ comm comm fl _ s1); try done. intros q. by rewrite hashed_more.
    + rewrite added_fst. by apply (job_new_file l comm _ s1 s1 p f g v).
    + by apply (inode_new_file l comm s s1 p f (g :: v)).
Qed.

Lemma with_own_hardlinks s : with_hardlinks (hardlinks_ s) s = s.
Proof. by destruct s. Qed.

Lemma scan_file_step l comm fl s p : scan_inv l comm fl s -> p ∉ l -> zlen l + 1 < 2 ^ 32 ->
  exists s' jobs, scan_file info segment_at_0 xxh3_64 (Some algo) p s = Ok (s', jobs) /\ scan_inv (l ++ [p]) comm (fl ++ map (fun j => (j, false)) jobs) s'.
Proof.
  intros Hinv Hp Hlen. destruct (linked l (id_of p)) as [|q v] eqn:Ev.
  - assert (owner (l ++ [p]) p = p) as Ho by (rewrite owner_snoc, Ev by done; by destruct (decide _)).
    unfold scan_file. destruct (Z.ltb_spec 1 (f_nlink (info p))) as [Hl|Hl].
    + pose proof (di_links _ _ _ _ (si_data _ _ _ _ Hinv) (id_of p)) as E. rewrite Ev in E.
      assert (push_file (id_of p) p (hardlinks_ s) !! id_of p = Some [p]) as -> by (unfold push_file; by rewrite lookup_insert_eq, E).
      apply scan_new; try done. by destruct (Z.ltb_spec 1 (f_nlink (info p))); [|lia].
    + rewrite <- (with_own_hardlinks s). apply scan_new; try done. by destruct (Z.ltb_spec 1 (f_nlink (info p))); [lia|].
  - destruct (decide (linked_file p)) as [Hl|Hl].
    + destruct (scan_hardlink l comm fl s p q v Hinv Hp Hlen Hl Ev) as (s' & E & H). exists s', []. split; [done|]. by rewrite app_nil_r.
    + assert (owner (l ++ [p]) p = p) as Ho by (unfold owner; by rewrite decide_False).
      unfold scan_file. destruct (Z.ltb_spec 1 (f_nlink (info p))) as [Hl'|Hl']; [done|].
      rewrite <- (with_own_hardlinks s). apply scan_new; try done. by destruct (Z.ltb_spec 1 (f_nlink (info p))); [lia|].
Qed.
End dedup.
