(* ===== verification/ScannerRuns.v ===== *)
(** * ScannerRuns: the file scanner with its threads

    Every state that the scanning thread and the workers can reach satisfies the
    invariant of [FileDedup]: no check fails, a thread that waits is not waited
    for by the one it waits for, every run ends, and in the end files share an
    inode exactly when they have the same contents. *)

From S2P Require Import Prelude Metadata MetadataReader EntryTree MetadataBuilder FileScanner FileDedup.
Local Open Scope Z_scope.

#[local] Abbreviation checked := (result metadata_error).

Section running.
Context (info : nat -> file_status) (segment_at_0 open_file : nat -> option (list Z)) (xxh3_64 : list Z -> Z) (algo : list Z -> list Z).
Context (num_workers max_queue_len : nat).
Context {Hhashes : Hashes info segment_at_0 open_file xxh3_64 algo}.

#[local] Abbreviation scan_one := (scan_step info segment_at_0 open_file xxh3_64 (Some algo) num_workers max_queue_len).
#[local] Abbreviation reachable := (reachable info segment_at_0 open_file xxh3_64 (Some algo) num_workers max_queue_len).
#[local] Abbreviation scan_inv := (scan_inv info segment_at_0 open_file xxh3_64 algo).
#[local] Abbreviation content := (content info segment_at_0 open_file).
#[local] Abbreviation primaries := (primaries info).

(** ** The invariant of the system *)

Definition sys_inv (files : list nat) (y : system) : Prop :=
  exists l comm, files = l ++ todo y /\ scan_inv l comm (inflight y) (scanned y).

Lemma sys_inv_start files : sys_inv files (start_system files).
Proof. exists [], ∅. split; [done|]. apply scan_inv_start. Qed.

Lemma inflight_at y i j b : running y !! i = Some (j, b) -> exists fl1 fl2, inflight y = fl1 ++ (j, b) :: fl2 /\
  (forall b', inflight (System (todo y) (to_add y) (queue y) (<[i := (j, b')]> (running y)) (scanned y)) = fl1 ++ (j, b') :: fl2) /\
  inflight (System (todo y) (to_add y) (queue y) (delete i (running y)) (scanned y)) = fl1 ++ fl2.
Proof.
  intros H. set (rest := map (fun j => (j, false)) (queue y ++ to_add y)). pose proof (lookup_lt_Some _ _ _ H) as Hlt.
  exists (take i (running y)), (drop (S i) (running y) ++ rest). unfold inflight; cbn [running queue to_add]. fold rest. split_and!.
  - rewrite app_comm_cons, app_assoc. f_equal. by rewrite take_drop_middle.
  - intros b'. rewrite insert_take_drop by done. by rewrite <- app_assoc.
  - by rewrite delete_take_drop, app_assoc.
Qed.

(** Every step that can happen succeeds and preserves the invariant. *)
Lemma sys_inv_step files y ev r : NoDup files -> zlen files < 2 ^ 32 -> sys_inv files y -> scan_one ev y = Some r -> exists y', r = Ok y' /\ sys_inv files y'.
Proof.
  intros Hnd Hlen (l & comm & Ef & Hinv) Hstep. destruct ev as [| | |i|i]; cbn [scan_step] in Hstep.
  - destruct (todo y) as [|p rest] eqn:Et; [done|]. destruct (to_add y) as [|] eqn:Ea; [|done]. injection Hstep as <-.
    assert (p ∉ l) as Hp by (subst files; apply NoDup_app in Hnd as (_ & Hnd & _); intros H; apply (Hnd p H); by left).
    assert (zlen l + 1 < 2 ^ 32) as Hl by (subst files; unfold zlen in *; rewrite length_app in Hlen; cbn [length] in Hlen; lia).
    destruct (scan_file_step _ _ _ _ _ _ _ _ _ _ Hinv Hp Hl) as (s' & jobs & -> & H). cbn [rbind]. eexists. split; [done|].
    exists (l ++ [p]), comm. split; [by rewrite <- app_assoc|]. cbn [scanned]. unfold inflight in *. cbn [running queue to_add]. rewrite Ea, app_nil_r in H.
    by rewrite map_app, app_assoc.
  - destruct (to_add y) as [|j rest] eqn:Ea; [done|]. destruct (_ <? _)%nat; [|done]. injection Hstep as <-. eexists. split; [done|].
    exists l, comm. split; [done|]. cbn [scanned]. unfold inflight in *. cbn [running queue to_add]. rewrite Ea in Hinv. by rewrite <- app_assoc.
  - destruct (queue y) as [|j rest] eqn:Ea; [done|]. destruct (_ <? _)%nat; [|done]. injection Hstep as <-. eexists. split; [done|].
    exists l, comm. split; [done|]. cbn [scanned]. unfold inflight in *. cbn [running queue to_add]. rewrite Ea in Hinv. by rewrite <- app_assoc.
  - destruct (running y !! i) as [[j [|]]|] eqn:Er; [done| |done]. injection Hstep as <-.
    destruct (inflight_at y i j false Er) as (fl1 & fl2 & E1 & E2 & _). rewrite E1 in Hinv.
    destruct (hash_step _ _ _ _ _ _ _ _ _ _ _ Hinv) as (o & -> & H). cbn [rbind]. eexists. split; [done|].
    exists l, comm. split; [done|]. cbn [scanned]. specialize (E2 true). unfold inflight in *. cbn [running queue to_add] in *. by rewrite E2.
  - destruct (running y !! i) as [[j [|]]|] eqn:Er; [|done|done]. destruct (latch_open j (scanned y)) eqn:El; [|done]. injection Hstep as <-.
    destruct (inflight_at y i j true Er) as (fl1 & fl2 & E1 & _ & E2). rewrite E1 in Hinv.
    assert (exists s, commit info j (scanned y) = Ok s /\ scan_inv l ({[job_file j]} ∪ comm) (fl1 ++ fl2) s) as (s & -> & H).
    { destruct j as [p la key|p ol]; [by eapply commit_first_step|by eapply commit_next_step]. }
    cbn [rbind]. eexists. split; [done|]. exists l, ({[job_file j]} ∪ comm). split; [done|]. unfold inflight in *. cbn [running queue to_add scanned] in *. by rewrite E2.
Qed.

Lemma reachable_inv files y : NoDup files -> zlen files < 2 ^ 32 -> reachable files y -> sys_inv files y.
Proof.
  intros Hnd Hlen Hr. induction Hr as [|y ev y' Hr IH Hs]; [apply sys_inv_start|].
  destruct (sys_inv_step files y ev _ Hnd Hlen IH Hs) as (y2 & [= <-] & H). done.
Qed.

(** ** Runs end *)

(** At most nine steps are done for a file: it is scanned, and four for each of
    two jobs. *)
Definition work_left (y : system) : nat :=
  9 * length (todo y) + 4 * length (to_add y) + 3 * length (queue y) + sum_list_with (fun jb : job * bool => if jb.2 then 1 else 2)%nat (running y).

Lemma scan_file_jobs p s s' jobs : scan_file info segment_at_0 xxh3_64 (Some algo) p s = Ok (s', jobs) -> (length jobs <= 2)%nat.
Proof.
  assert (forall s, scan_data info segment_at_0 xxh3_64 (Some algo) p s = Ok (s', jobs) -> (length jobs <= 2)%nat) as H.
  { intros s0. unfold scan_data, scan_dedupe. destruct (start_hash_file _ _ _ _ _) as [[h s1]|]; [|done]. cbn [rbind].
    destruct (unique_size_ s1 !! _) as [[|f v]|]; [intros [= _ <-]; cbn; lia| |].
    - destruct (dwarfs_check _ _); [|done]. cbn [rbind]. intros [= _ <-]. cbn. lia.
    - destruct (add_inode _ _); [|done]. cbn [rbind]. intros [= _ <-]. cbn. lia. }
  unfold scan_file. destruct (1 <? f_nlink (info p)); [|apply H]. destruct (push_file _ _ _ !! _) as [[|f [|g v]]|]; [apply H|apply H| |apply H].
  destruct (hardlink _ _ _); [|done]. cbn [rbind]. intros [= _ <-]. cbn. lia.
Qed.

Lemma sum_insert (l : list (job * bool)) i j b b' (w : job * bool -> nat) : l !! i = Some (j, b) ->
  (sum_list_with w (<[i := (j, b')]> l) + w (j, b) = sum_list_with w l + w (j, b'))%nat.
Proof. revert i. induction l as [|x l IH]; intros [|i] H; [done|done|injection H as ->; cbn; lia|]. specialize (IH i H).
  change (w x + sum_list_with w (<[i := (j, b')]> l) + w (j, b) = w x + sum_list_with w l + w (j, b'))%nat. lia. Qed.

Lemma sum_delete (l : list (job * bool)) i x (w : job * bool -> nat) : l !! i = Some x -> (sum_list_with w (delete i l) + w x = sum_list_with w l)%nat.
Proof. revert i. induction l as [|y l IH]; intros [|i] H; [done|done|injection H as ->; cbn; lia|]. specialize (IH i H).
  change (w y + sum_list_with w (delete i l) + w x = w y + sum_list_with w l)%nat. lia. Qed.

Lemma step_work ev y y' : scan_one ev y = Some (Ok y') -> (work_left y' < work_left y)%nat.
Proof.
  intros Hstep. destruct ev as [| | |i|i]; cbn [scan_step] in Hstep; unfold work_left.
  - destruct (todo y) as [|p rest] eqn:Et; [done|]. destruct (to_add y) as [|] eqn:Ea; [|done].
    destruct (scan_file _ _ _ _ p (scanned y)) as [[s jobs]|] eqn:Es; [|done]. cbn in Hstep. injection Hstep as <-. apply scan_file_jobs in Es.
    cbn [todo to_add queue running length]. lia.
  - destruct (to_add y) as [|j rest] eqn:Ea; [done|]. destruct (_ <? _)%nat; [|done]. injection Hstep as <-.
    cbn [todo to_add queue running length]. rewrite length_app. cbn [length]. lia.
  - destruct (queue y) as [|j rest] eqn:Ea; [done|]. destruct (_ <? _)%nat; [|done]. injection Hstep as <-.
    cbn [todo to_add queue running length]. rewrite sum_list_with_app. cbn. lia.
  - destruct (running y !! i) as [[j [|]]|] eqn:Er; [done| |done]. destruct (hash_file _ _ _ _ _) as [o|]; [|done]. injection Hstep as <-.
    cbn [todo to_add queue running]. pose proof (sum_insert _ i j false true (fun jb => if jb.2 then 1 else 2)%nat Er) as H. cbn [snd] in *. lia.
  - destruct (running y !! i) as [[j [|]]|] eqn:Er; [|done|done]. destruct (latch_open _ _); [|done]. destruct (commit _ _ _) as [s|]; [|done]. injection Hstep as <-.
    cbn [todo to_add queue running]. pose proof (sum_delete _ i _ (fun jb => if jb.2 then 1 else 2)%nat Er) as H. cbn [snd] in *. lia.
Qed.

(** ** Something can happen *)

(** The job that was taken from the queue first does not wait: the job it could
    wait for was added before it. *)
Lemma head_open files y j b rest : sys_inv files y -> running y = (j, b) :: rest -> latch_open j (scanned y) = true.
Proof.
  intros (l & comm & _ & Hinv) E. destruct j as [p la key|p [la|]]; [done| |done]. cbn. apply bool_decide_eq_true.
  destruct (ji_next _ _ _ _ _ _ _ (si_jobs _ _ _ _ _ _ _ _ _ Hinv) [] p (Some la) ((inflight (System (todo y) (to_add y) (queue y) rest (scanned y))).*1))
    as (f & _ & _ & [[_ H]|(la' & _ & H)]).
  - unfold inflight. rewrite E. done.
  - by apply H.
  - by apply elem_of_nil in H.
Qed.

Lemma can_step files y : NoDup files -> zlen files < 2 ^ 32 -> (1 <= num_workers)%nat -> (1 <= max_queue_len)%nat -> sys_inv files y ->
  finished y = false -> exists ev y', scan_one ev y = Some (Ok y').
Proof.
  intros Hnd Hlen Hw Hq Hinv Hf. assert (exists ev r, scan_one ev y = Some r) as (ev & r & H).
  { destruct (running y) as [|[j [|]] rest] eqn:Er.
    - destruct (queue y) as [|j rest] eqn:Eq.
      + destruct (to_add y) as [|j rest] eqn:Ea.
        * destruct (todo y) as [|p rest] eqn:Et; [unfold finished in Hf; by rewrite Et, Ea, Eq, Er in Hf|].
          exists EvScan. eexists. cbn [scan_step]. by rewrite Et, Ea.
        * exists EvAdd. eexists. cbn [scan_step]. rewrite Ea, Eq. cbn [length]. by destruct (Nat.ltb_spec 0 max_queue_len); [|lia].
      + exists EvStart. eexists. cbn [scan_step]. rewrite Eq, Er. cbn [length]. by destruct (Nat.ltb_spec 0 num_workers); [|lia].
    - exists (EvCommit 0). eexists. cbn [scan_step]. rewrite Er. cbn [lookup list_lookup]. by rewrite (head_open files y j true rest).
    - exists (EvHash 0). eexists. cbn [scan_step]. by rewrite Er. }
  destruct (sys_inv_step files y ev r Hnd Hlen Hinv H) as (y' & -> & _). by exists ev, y'.
Qed.

(** Every step that can happen in a reachable state succeeds, there is one
    unless the scan has finished, and each brings the end nearer. *)
Lemma runs_finish files y : NoDup files -> zlen files < 2 ^ 32 -> (1 <= num_workers)%nat -> (1 <= max_queue_len)%nat -> reachable files y ->
  (forall ev r, scan_one ev y = Some r -> exists y', r = Ok y' /\ (work_left y' < work_left y)%nat) /\
  (finished y = false -> exists ev y', scan_one ev y = Some (Ok y')).
Proof.
  intros Hnd Hlen Hw Hq Hr. pose proof (reachable_inv files y Hnd Hlen Hr) as Hinv. split; [|by apply (can_step files)].
  intros ev r H. destruct (sys_inv_step files y ev r Hnd Hlen Hinv H) as (y' & -> & _). exists y'. split; [done|]. by apply (step_work ev).
Qed.

(** ** The end *)

Lemma owner_same files p q : p ∈ files -> q ∈ files ->
  owner info files p = owner info files q <-> p = q \/ (1 < f_nlink (info p) /\ 1 < f_nlink (info q) /\ inode_id info p = inode_id info q).
Proof.
  intros Hp Hq. assert (forall r, r ∈ files -> 1 < f_nlink (info r) -> exists a, hd_error (linked info files (inode_id info r)) = Some a /\ owner info files r = a /\ 1 < f_nlink (info a) /\ inode_id info a = inode_id info r) as H.
  { intros r Hr Hl. unfold owner. rewrite decide_True by done. destruct (linked info files (inode_id info r)) as [|a v] eqn:E.
    - assert (r ∈ linked info files (inode_id info r)) as Hin by (by apply elem_of_linked). rewrite E in Hin. by apply elem_of_nil in Hin.
    - exists a. assert (a ∈ linked info files (inode_id info r)) as Hin by (rewrite E; by left). apply elem_of_linked in Hin as [[? ?] _]. done. }
  destruct (decide (1 < f_nlink (info p))) as [Lp|Lp], (decide (1 < f_nlink (info q))) as [Lq|Lq].
  - destruct (H p Hp Lp) as (a & Ha & -> & _ & Ea), (H q Hq Lq) as (b & Hb & -> & _ & Eb). split; [intros ->; right; split_and!; congruence|].
    intros [->|(_ & _ & E)]; [congruence|]. rewrite E in Ha. congruence.
  - destruct (H p Hp Lp) as (a & Ha & -> & La & _). unfold owner. rewrite decide_False by done. split; [by intros ->|by intros [->|(_ & ? & _)]].
  - destruct (H q Hq Lq) as (b & Hb & -> & Lb & _). unfold owner. rewrite decide_False by done. split; [by intros ->|by intros [->|(? & _)]].
  - unfold owner. rewrite !decide_False by done. split; [by left|by intros [?|[? _]]].
Qed.

(** When no job is left, the files of a size and start that another file has,
    too, are those that were hashed. *)
Lemma finished_inodes l comm s : scan_inv l comm [] s -> forall p q, p ∈ primaries l -> q ∈ primaries l -> exists i j,
  file_inode (objects_ s) !! p = Some i /\ file_inode (objects_ s) !! q = Some j /\
  (i = j <-> p = q \/ exists c, content p = Some c /\ content q = Some c).
Proof.
  intros [L D J Hh I]. cbn [fmap list_fmap] in J.
  assert (forall p, p ∈ comm <-> p ∈ primaries l /\ (2 <= length (class info segment_at_0 xxh3_64 l (key_of info segment_at_0 xxh3_64 p)))%nat) as Hcomm.
  { intros p. rewrite <- (ji_split _ _ _ _ _ _ _ J p). split; [by left|by intros [?|?%elem_of_nil]]. }
  assert (forall p, p ∈ primaries l -> p ∈ class info segment_at_0 xxh3_64 l (key_of info segment_at_0 xxh3_64 p)) as Hin by (intros p Hp; by apply elem_of_class).
  assert (forall p, p ∈ primaries l -> is_Some (file_inode (objects_ s) !! p)) as Hsome.
  { intros p Hp. apply (ii_some _ _ _ _ _ _ _ I). split; [done|]. specialize (Hin p Hp). specialize (Hcomm p).
    destruct (class _ _ _ l (key_of _ _ _ p)) as [|f [|g v]]; [by apply elem_of_nil in Hin|right; by apply list_elem_of_singleton in Hin as ->|].
    left. apply Hcomm. split; [done|]. cbn. lia. }
  intros p q Hp Hq. destruct (Hsome p Hp) as [i Hi], (Hsome q Hq) as [j Hj]. exists i, j. split; [done|]. split; [done|]. split.
  - intros <-. destruct (ii_inj _ _ _ _ _ _ _ I p q i Hi Hj) as [?|(_ & _ & ?)]; [by left|by right].
  - intros [->|(c & Hcp & Hcq)]; [congruence|]. destruct (decide (p = q)) as [->|Hne]; [congruence|].
    pose proof (same_content_key info segment_at_0 open_file xxh3_64 algo p q c Hcp Hcq) as Hkey.
    assert (2 <= length (class info segment_at_0 xxh3_64 l (key_of info segment_at_0 xxh3_64 p)))%nat as H2.
    { pose proof (Hin p Hp) as H1. pose proof (Hin q Hq) as H2. rewrite <- Hkey in H2.
      destruct (class _ _ _ l (key_of _ _ _ p)) as [|f [|g v]]; [by apply elem_of_nil in H1| |cbn; lia].
      apply list_elem_of_singleton in H1, H2. congruence. }
    assert (Some i = Some j) as [= <-]; [|done]. rewrite <- Hi, <- Hj. apply (ii_same _ _ _ _ _ _ _ I).
    split; [by apply Hcomm|]. split; [apply Hcomm; by rewrite <- Hkey|]. by exists c.
Qed.

Lemma finished_inv files y : NoDup files -> zlen files < 2 ^ 32 -> reachable files y -> finished y = true -> exists comm, scan_inv files comm [] (scanned y).
Proof.
  intros Hnd Hlen Hr Hf. destruct (reachable_inv files y Hnd Hlen Hr) as (l & comm & E & Hinv). exists comm. unfold finished in Hf. unfold inflight in Hinv.
  destruct (todo y), (to_add y), (queue y), (running y); try done. by rewrite app_nil_r in E; subst l.
Qed.

Lemma scan_outcome files y p q : NoDup files -> zlen files < 2 ^ 32 -> reachable files y -> finished y = true -> p ∈ files -> q ∈ files ->
  exists a b i j, data_of (objects_ (scanned y)) !! p = Some a /\ data_of (objects_ (scanned y)) !! q = Some b /\
    file_inode (objects_ (scanned y)) !! a = Some i /\ file_inode (objects_ (scanned y)) !! b = Some j /\
    (a = b <-> p = q \/ (1 < f_nlink (info p) /\ 1 < f_nlink (info q) /\ inode_id info p = inode_id info q)) /\
    (i = j <-> a = b \/ exists c, content a = Some c /\ content b = Some c).
Proof.
  intros Hnd Hlen Hr Hf Hp Hq. destruct (finished_inv files y Hnd Hlen Hr Hf) as [comm Hinv]. pose proof (si_data _ _ _ _ _ _ _ _ _ Hinv) as D.
  exists (owner info files p), (owner info files q).
  destruct (finished_inodes files comm _ Hinv (owner info files p) (owner info files q)) as (i & j & Hi & Hj & H); [by apply owner_primary..|].
  exists i, j. rewrite !(di_of _ _ _ _ _ _ _ _ _ D), !decide_True by done. split_and!; try done. all: by apply owner_same || apply H.
Qed.

Lemma run_reachable files evs y y' : reachable files y -> run_schedule info segment_at_0 open_file xxh3_64 (Some algo) num_workers max_queue_len evs y = Ok y' -> reachable files y'.
Proof.
  revert y. induction evs as [|ev evs IH]; intros y Hr H; cbn in H; [by injection H as <-|].
  destruct (scan_step _ _ _ _ _ _ _ ev y) as [[y1|]|] eqn:E; cbn in H; [|done|by apply (IH y)]. apply (IH y1); [|done]. by apply (reach_step _ _ _ _ _ _ _ files y ev).
Qed.
End running.

(** ** What holds of every run *)

(** C8: When the file scanner has finished, in whatever order its threads have
    run, every file has an inode. Two files have the same data exactly when they
    are one file or hard links of one inode of the source, and the inodes of
    files that are not are the same exactly when both could be read and their
    contents are equal: files are stored once, and never mixed up. *)
Theorem scan_shares_inodes info segment_at_0 open_file xxh3_64 algo num_workers max_queue_len files y p q :
  Hashes info segment_at_0 open_file xxh3_64 algo -> NoDup files -> zlen files < 2 ^ 32 ->
  reachable info segment_at_0 open_file xxh3_64 (Some algo) num_workers max_queue_len files y -> finished y = true -> p ∈ files -> q ∈ files ->
  exists a b i j, data_of (objects_ (scanned y)) !! p = Some a /\ data_of (objects_ (scanned y)) !! q = Some b /\
    file_inode (objects_ (scanned y)) !! a = Some i /\ file_inode (objects_ (scanned y)) !! b = Some j /\
    (a = b <-> p = q \/ (1 < f_nlink (info p) /\ 1 < f_nlink (info q) /\ inode_id info p = inode_id info q)) /\
    (i = j <-> a = b \/ exists c, content info segment_at_0 open_file a = Some c /\ content info segment_at_0 open_file b = Some c).
Proof. intros. by eapply scan_outcome. Qed.

(** C17: The threads of the file scanner never fail a check and never block each
    other for ever: in every state that can be reached each step that a thread
    can take succeeds and decreases the work that is left, and unless the scan
    has finished some thread can take a step, although jobs wait for latches that
    other jobs count down and the queue is bounded. *)
Theorem scan_finishes info segment_at_0 open_file xxh3_64 algo num_workers max_queue_len files y :
  Hashes info segment_at_0 open_file xxh3_64 algo -> NoDup files -> zlen files < 2 ^ 32 -> (1 <= num_workers)%nat -> (1 <= max_queue_len)%nat ->
  reachable info segment_at_0 open_file xxh3_64 (Some algo) num_workers max_queue_len files y ->
  (forall ev r, scan_step info segment_at_0 open_file xxh3_64 (Some algo) num_workers max_queue_len ev y = Some r ->
     exists y', r = Ok y' /\ (work_left y' < work_left y)%nat) /\
  (finished y = false -> exists ev y', scan_step info segment_at_0 open_file xxh3_64 (Some algo) num_workers max_queue_len ev y = Some (Ok y')).
Proof. intros. by apply (runs_finish info segment_at_0 open_file xxh3_64 algo num_workers max_queue_len files y). Qed.

(** ** An example *)

Module Sample.
(** Two files with the same contents, one of the same size, one of another, two
    hard links of an inode with the contents of the first, and a file that cannot
    be read. *)
Definition files : list nat := [0; 1; 2; 3; 4; 5; 6]%nat.

Definition text (p : nat) : list Z := match p with 2%nat => [97; 98; 100] | 3%nat => [1; 2; 3; 4; 5] | _ => [97; 98; 99] end.

Definition info (p : nat) : file_status :=
  FileStatus (1, if (p =? 5)%nat then 4 else Z.of_nat p) (zlen (text p)) (if ((p =? 4) || (p =? 5))%nat then 2 else 1) [[Z.of_nat p]].

Definition read_sample (p : nat) : option (list Z) := if (p =? 6)%nat then None else Some (text p).

(** A digest that is never empty. *)
Definition digest (c : list Z) : list Z := 0 :: c.

#[export] Instance sample_hashes : Hashes info read_sample read_sample zlen digest.
Proof.
  split; [by intros p q c c' _ _ [= ->]| |intros p; apply zlen_nonneg]. intros p q c _ _.
  assert (forall r, start_of info read_sample zlen r = 0) as H; [|by rewrite !H].
  intros r. unfold start_of, size_of, info. cbn [f_size]. by do 4 (destruct r as [|r]; [done|]).
Qed.

(** The threads in some order: the last job is hashed first. *)
Definition events : list scan_event :=
  flat_map (fun _ => [EvScan; EvAdd; EvStart; EvAdd; EvStart; EvHash 3; EvHash 2; EvCommit 2; EvHash 1; EvCommit 1; EvHash 0; EvCommit 0; EvHash 0; EvCommit 0]) (seq 0 12).

Definition run : checked system := run_schedule info read_sample read_sample zlen (Some digest) 4 2 events (start_system files).

Definition ended : system := match run with Ok y => y | _ => start_system [] end.

Lemma run_ended : reachable info read_sample read_sample zlen (Some digest) 4 2 files ended /\ finished ended = true.
Proof.
  split; [|vm_compute; reflexivity]. apply (run_reachable _ _ _ _ _ 4 2 files events (start_system files)); [constructor|]. vm_compute. reflexivity.
Qed.

(** A state in which a job has hashed its file and waits for the first file. *)
Definition midway : system :=
  match run_schedule info read_sample read_sample zlen (Some digest) 4 2 [EvScan; EvScan; EvAdd; EvStart; EvAdd; EvStart; EvHash 1; EvCommit 1] (start_system files) with
  | Ok y => y
  | Err _ => start_system []
  end.

Lemma midway_reachable : reachable info read_sample read_sample zlen (Some digest) 4 2 files midway.
Proof.
  eapply (run_reachable _ _ _ _ _ 4 2 files _ (start_system files)); [constructor|].
  instantiate (1 := [EvScan; EvScan; EvAdd; EvStart; EvAdd; EvStart; EvHash 1; EvCommit 1]). vm_compute. reflexivity.
Qed.

Lemma midway_waits : running midway = [(FirstJob 0 0 (3, 0), false); (NextJob 1 (Some 0%nat), true)].
Proof. vm_compute. reflexivity. Qed.

Lemma scan_shares_inodes_witness : exists a b i j, data_of (objects_ (scanned ended)) !! 1%nat = Some a /\ data_of (objects_ (scanned ended)) !! 5%nat = Some b /\
    file_inode (objects_ (scanned ended)) !! a = Some i /\ file_inode (objects_ (scanned ended)) !! b = Some j /\
    (a = b <-> 1%nat = 5%nat \/ (1 < f_nlink (info 1) /\ 1 < f_nlink (info 5) /\ inode_id info 1 = inode_id info 5)) /\
    (i = j <-> a = b \/ exists c, content info read_sample read_sample a = Some c /\ content info read_sample read_sample b = Some c).
Proof.
  apply (scan_shares_inodes info read_sample read_sample zlen digest 4 2 files ended 1 5 sample_hashes).
  - apply (bool_decide_unpack _). vm_compute. exact I.
  - done.
  - exact (proj1 run_ended).
  - exact (proj2 run_ended).
  - apply (bool_decide_unpack _). vm_compute. exact I.
  - apply (bool_decide_unpack _). vm_compute. exact I.
Defined.

Lemma scan_finishes_witness :
  (forall ev r, scan_step info read_sample read_sample zlen (Some digest) 4 2 ev midway = Some r -> exists y', r = Ok y' /\ (work_left y' < work_left midway)%nat) /\
  (finished midway = false -> exists ev y', scan_step info read_sample read_sample zlen (Some digest) 4 2 ev midway = Some (Ok y')).
Proof.
  apply (scan_finishes info read_sample read_sample zlen digest 4 2 files midway sample_hashes).
  - apply (bool_decide_unpack _). vm_compute. exact I.
  - done.
  - lia.
  - lia.
  - exact midway_reachable.
Defined.

(** The inodes of the example. *)
Lemma sample_inodes : (fun p => (data_of (objects_ (scanned ended)) !! p, file_inode (objects_ (scanned ended)) !! p)) <$> files =
  [(Some 0, Some 0); (Some 1, Some 0); (Some 2, Some 1); (Some 3, Some 2); (Some 4, Some 0); (Some 4, None); (Some 6, Some 3)]%nat.
Proof. vm_compute. reflexivity. Qed.
End Sample.
