(* ===== verification/FileNumbers.v ===== *)
(** * FileNumbers: the numbers the file scanner gives to files and inodes

    [finalize] of a scan that has finished: hard links get the inode of the file
    they are linked to, and files and inodes get the numbers that the metadata
    builder requires ([files_numbered] of [TreeTables]): files that share no
    inode first, then those that do, in groups. *)

From stdpp Require Import sorting.
From S2P Require Import Prelude Metadata MetadataReader EntryTree MetadataBuilder EntryLists TreeTables BuiltMetadata FileScanner FileDedup ScannerRuns.
Local Open Scope Z_scope.

#[local] Abbreviation checked := (result metadata_error).

Section numbering.
Context (info : nat -> file_status) (segment_at_0 open_file : nat -> option (list Z)) (xxh3_64 : list Z -> Z) (algo : list Z -> list Z).
Context (iterate : gmap (Z * Z) (list nat) -> list ((Z * Z) * list nat)).
Context {Hhashes : Hashes info segment_at_0 open_file xxh3_64 algo}.
Context (files : list nat) (comm : gset nat) (s : scan_state).
Context (Hs : scan_inv info segment_at_0 open_file xxh3_64 algo files comm [] s).

#[local] Abbreviation id_of := (inode_id info).
#[local] Abbreviation linked_file p := (1 < f_nlink (info p)).
#[local] Abbreviation content := (content info segment_at_0 open_file).
#[local] Abbreviation key_of := (key_of info segment_at_0 xxh3_64).
#[local] Abbreviation class := (class info segment_at_0 xxh3_64 files).
#[local] Abbreviation owner := (owner info files).
#[local] Abbreviation primaries := (primaries info files).
#[local] Abbreviation linked := (linked info files).
#[local] Abbreviation inode_of p := (file_inode (objects_ s) !! p).

(** What is assumed: a digest is not empty, the iterator of a map visits each of
    its entries, files with hard links could be read, and the files that could
    not have different inodes in the source. *)
Class Numberable : Prop := {
  digest_not_empty c : algo c <> [];
  iterates m : iterate m ≡ₚ map_to_list m;
  links_readable p : p ∈ primaries -> linked_file p -> is_Some (content p);
  unreadable_ids p q : p ∈ primaries -> q ∈ primaries -> content p = None -> content q = None -> id_of p = id_of q -> p = q
}.
Context {Hnum : Numberable}.

Lemma in_primaries p : p ∈ primaries <-> p ∈ files /\ owner p = p.
Proof. apply elem_of_primaries. Qed.

(** A file whose job is done, or the only one of its size and start. *)
Lemma comm_class p : p ∈ comm <-> p ∈ primaries /\ (2 <= length (class (key_of p)))%nat.
Proof. rewrite <- (ji_split _ _ _ _ _ _ _ (si_jobs _ _ _ _ _ _ _ _ _ Hs) p). cbn. split; [by left|by intros [?|?%elem_of_nil]]. Qed.

Lemma not_comm_class p : p ∈ primaries -> p ∉ comm -> class (key_of p) = [p].
Proof.
  intros Hp Hn. assert (p ∈ class (key_of p)) as Hin by (by apply elem_of_class). rewrite comm_class in Hn.
  destruct (class (key_of p)) as [|f [|g v]] eqn:E; [by apply elem_of_nil in Hin|by apply list_elem_of_singleton in Hin as ->|].
  exfalso. apply Hn. split; [done|]. cbn. lia.
Qed.

Lemma size_vector key v : unique_size_ s !! key = Some v -> v = [] \/ exists p, v = [p] /\ p ∈ primaries /\ (p ∉ comm) /\ key_of p = key.
Proof.
  rewrite (ji_unique _ _ _ _ _ _ _ (si_jobs _ _ _ _ _ _ _ _ _ Hs)). destruct (class key) as [|p [|q w]] eqn:E; [done| |by intros [= <-]; left].
  intros [= <-]. right. exists p. assert (p ∈ class key) as Hp by (rewrite E; by left). apply elem_of_class in Hp as [Hk Hp].
  split_and!; try done. rewrite comm_class, Hk, E. cbn. intros [_ ?]. lia.
Qed.

Lemma hash_vector h v p : by_hash_ s !! h = Some v -> (p ∈ v <-> p ∈ comm /\ exists c, content p = Some c /\ algo c = h).
Proof. intros E. pose proof (hi_hash _ _ _ _ _ _ (si_hash _ _ _ _ _ _ _ _ _ Hs) h p) as H. by rewrite E in H. Qed.

(** ** Hard links *)

Definition with_links (ps v : list nat) : list nat := v ++ filter (fun q => owner q ∈ v) ps.

Lemma with_links_snoc ps q v : with_links (ps ++ [q]) v = with_links ps v ++ (if decide (owner q ∈ v) then [q] else []).
Proof. unfold with_links. rewrite filter_app, app_assoc. f_equal. Qed.

(** [ps]: the files that were added. *)
Record linked_state (ps : list nat) (s' : scan_state) : Prop := {
  ls_data : data_of (objects_ s') = data_of (objects_ s);
  ls_datas : datas (objects_ s') = datas (objects_ s);
  ls_inode : forall q, file_inode (objects_ s') !! q = if decide (q ∈ ps) then inode_of (owner q) else inode_of q;
  ls_hash : forall h, by_hash_ s' !! h = with_links ps <$> by_hash_ s !! h;
  ls_size : forall key, unique_size_ s' !! key = with_links ps <$> unique_size_ s !! key;
  ls_id : by_inode_id_ s' = by_inode_id_ s;
  ls_start : file_start_hash_ s' = file_start_hash_ s;
  ls_count : inode_count (objects_ s') = inode_count (objects_ s)
}.

Lemma linked_start : linked_state [] s.
Proof.
  split; try done.
  - intros h. destruct (by_hash_ s !! h) as [v|]; [|done]. cbn. unfold with_links. by rewrite app_nil_r.
  - intros h. destruct (unique_size_ s !! h) as [v|]; [|done]. cbn. unfold with_links. by rewrite app_nil_r.
Qed.

(** The vector that has a file. *)
Definition home (p : nat) : files_ref := if decide (p ∈ comm) then InHash (algo (default [] (content p))) else InSize (key_of p).

Lemma lookup_home ps s' p : linked_state ps s' -> p ∈ primaries -> linked_file p -> lookup_first info true p s' = Ok (home p).
Proof.
  intros [L1 L2 L3 L4 L5 L6 L7] Hp Hl. pose proof (si_data _ _ _ _ _ _ _ _ _ Hs) as D. destruct (proj1 (in_primaries p) Hp) as [Hf Ho].
  destruct (di_status _ _ _ _ _ _ _ _ _ D p Hp) as (d & Hd & (_ & Hst & Hnst) & _). destruct (links_readable p Hp Hl) as [c Hc].
  unfold lookup_first, hash, get_data. rewrite L1, L2, (di_of _ _ _ _ _ _ _ _ _ D), decide_True, Ho by done. cbn [there rbind]. rewrite Hd. cbn [there rbind].
  unfold home. destruct (decide (p ∈ comm)) as [Hcomm|Hcomm].
  - assert (hashed comm [] p) as H by (by left). apply Hst in H. rewrite Hc in H. destruct H as [-> _]. rewrite Hc, L4.
    destruct (by_hash_ s !! algo c) as [v|] eqn:E; [done|]. exfalso.
    pose proof (proj2 (hi_hash _ _ _ _ _ _ (si_hash _ _ _ _ _ _ _ _ _ Hs) (algo c) p)) as H. rewrite E in H.
    assert (p ∈ (@nil nat)) as Hn by (apply H; split; [done|by exists c]). by apply elem_of_nil in Hn.
  - destruct Hnst as [-> _]; [intros [?|(j & Hj & _)]; [done|by apply elem_of_nil in Hj]|]. rewrite L4.
    destruct (by_hash_ s !! []) as [[|q v]|] eqn:E.
    + by apply (hi_nonempty _ _ _ _ _ _ (si_hash _ _ _ _ _ _ _ _ _ Hs)) in E.
    + destruct (proj1 (hash_vector [] _ q E)) as [_ (c' & _ & E')]; [by left|]. by apply digest_not_empty in E'.
    + assert ((if kLargeFileThreshold <=? f_size (info p) then match file_start_hash_ s' !! p with Some h => Ok h | None => Err (Terminated "internal error: missing start hash for large file") end else Ok 0)
        = Ok (start_of info segment_at_0 xxh3_64 p) :> checked Z) as Estart.
      { unfold start_of at 1, size_of. destruct (Z.leb_spec kLargeFileThreshold (f_size (info p))) as [Hb|]; [|done].
        rewrite L7, (di_start _ _ _ _ _ _ _ _ _ D p Hp Hb). unfold start_of. by destruct (Z.leb_spec kLargeFileThreshold (size_of info p)); [|unfold size_of in *; lia]. }
      cbn [fmap option_fmap option_map]. rewrite Estart. cbn [rbind]. change (f_size (info p), start_of info segment_at_0 xxh3_64 p) with (key_of p). rewrite L5.
      rewrite (ji_unique _ _ _ _ _ _ _ (si_jobs _ _ _ _ _ _ _ _ _ Hs)), (not_comm_class p Hp Hcomm). done.
Qed.

(** The vector of a file, and the files that are in it. *)
Lemma home_vector ps s' p : linked_state ps s' -> p ∈ primaries -> linked_file p -> exists v,
  ref_files (home p) s' = with_links ps v /\ ref_files (home p) s = v /\ p ∈ v /\
  (forall h w, by_hash_ s !! h = Some w -> p ∈ w -> home p = InHash h) /\ (forall key w, unique_size_ s !! key = Some w -> p ∈ w -> home p = InSize key) /\
  forall q, q ∈ v -> inode_of q = inode_of p /\ is_Some (inode_of q) /\ q ∈ primaries.
Proof.
  intros L Hp Hl. destruct (links_readable p Hp Hl) as [c Hc].
  assert (forall h w, by_hash_ s !! h = Some w -> p ∈ w -> p ∈ comm /\ algo c = h) as Hhash.
  { intros h w E H. apply (hash_vector h w p E) in H as [H (c' & Hc' & Eh)]. split; [done|congruence]. }
  assert (forall key w, unique_size_ s !! key = Some w -> p ∈ w -> (p ∉ comm) /\ key_of p = key) as Hsize.
  { intros key w E H. apply size_vector in E as [->|(q & -> & _ & ? & ?)]; [by apply elem_of_nil in H|]. by apply list_elem_of_singleton in H as ->. }
  pose proof (ii_some _ _ _ _ _ _ _ (si_inodes _ _ _ _ _ _ _ _ _ Hs)) as Hsome.
  unfold home. rewrite Hc. change (default [] (Some c)) with c. destruct (decide (p ∈ comm)) as [Hcomm|Hcomm]; cbn [ref_files].
  - rewrite (ls_hash _ _ L). destruct (by_hash_ s !! algo c) as [v|] eqn:E.
    2: { pose proof (proj2 (hi_hash _ _ _ _ _ _ (si_hash _ _ _ _ _ _ _ _ _ Hs) (algo c) p)) as H. rewrite E in H.
         assert (p ∈ (@nil nat)) as Hn by (apply H; split; [done|by exists c]). by apply elem_of_nil in Hn. }
    exists v. split; [done|]. split; [done|]. split; [apply (hash_vector _ _ _ E); split; [done|by exists c]|]. split; [|split].
    + intros h w E' H. destruct (Hhash h w E' H) as [_ <-]. done.
    + intros key w E' H. by destruct (Hsize key w E' H).
    + intros q Hq. apply (hash_vector _ _ _ E) in Hq as [Hq (c' & Hc' & Ealgo)]. assert (c' = c) as -> by (by apply (hash_injective info segment_at_0 open_file xxh3_64 algo q p)).
      destruct (proj1 (comm_class q) Hq) as [Hqp _]. split; [|split; [apply Hsome; by split; [|left]|done]].
      apply (ii_same _ _ _ _ _ _ _ (si_inodes _ _ _ _ _ _ _ _ _ Hs)). split; [done|]. split; [done|]. by exists c.
  - assert (unique_size_ s !! key_of p = Some [p]) as E by (by rewrite (ji_unique _ _ _ _ _ _ _ (si_jobs _ _ _ _ _ _ _ _ _ Hs)), (not_comm_class p Hp Hcomm)).
    rewrite (ls_size _ _ L), E. exists [p]. split; [done|]. split; [done|]. split; [by left|]. split; [|split].
    + intros h w E' H. by destruct (Hhash h w E' H).
    + intros key w E' H. by destruct (Hsize key w E' H) as [_ <-].
    + intros q ->%list_elem_of_singleton. split; [done|]. split; [|done]. apply Hsome. split; [done|]. right. by rewrite (not_comm_class p Hp Hcomm).
Qed.

Lemma add_link_ok ps s' q : linked_state ps s' -> q ∈ files -> owner q <> q -> q ∉ ps -> (forall r, r ∈ ps -> owner r <> r) -> linked_file (owner q) ->
  exists s'', add_hardlink (home (owner q)) q s' = Ok s'' /\ linked_state (ps ++ [q]) s''.
Proof.
  intros L Hq Ho Hqps Hps Hl. pose proof (owner_primary info files q Hq) as Hp. destruct (home_vector ps s' (owner q) L Hp Hl) as (v & E1 & E0 & Hv & Uh & Us & Hin).
  destruct v as [|f v]; [by apply elem_of_nil in Hv|]. destruct (Hin f) as (Ef & [i Hi] & Hfp); [by left|].
  assert (f ∉ ps) as Hfps by (intros H; by apply (Hps f H); destruct (proj1 (in_primaries f) Hfp)).
  assert (inode_of q = None) as Hnone.
  { destruct (inode_of q) as [k|] eqn:E; [|done]. destruct (proj1 (ii_some _ _ _ _ _ _ _ (si_inodes _ _ _ _ _ _ _ _ _ Hs) q)) as [H _]; [by eexists|].
    by apply in_primaries in H as [_ H]. }
  unfold add_hardlink. rewrite E1. cbn [first_file with_links app rbind]. unfold copy_inode. rewrite (ls_inode _ _ L), decide_False, Hi by done.
  unfold set_inode. rewrite (ls_inode _ _ L), decide_False, Hnone by done. cbn [rbind]. eexists. split; [done|].
  assert (forall v', owner q ∈ v' -> with_links (ps ++ [q]) v' = with_links ps v' ++ [q]) as Hadd by (intros v' H; by rewrite with_links_snoc, decide_True).
  assert (forall v', owner q ∉ v' -> with_links (ps ++ [q]) v' = with_links ps v') as Hskip by (intros v' H; by rewrite with_links_snoc, decide_False, app_nil_r).
  assert (forall r, file_inode (objects_ s') !! r = if decide (r ∈ ps) then inode_of (owner r) else inode_of r) as Hold by apply (ls_inode _ _ L).
  assert (forall r, <[q := i]> (file_inode (objects_ s')) !! r = if decide (r ∈ ps ++ [q]) then inode_of (owner r) else inode_of r) as Hinodes.
  { intros r. destruct (decide (r = q)) as [->|Hne].
    - rewrite lookup_insert_eq, decide_True by (apply elem_of_app; right; by apply list_elem_of_singleton). by rewrite <- Ef.
    - rewrite lookup_insert_ne, Hold by done. destruct (decide (r ∈ ps)) as [Hr|Hr]; [rewrite decide_True by (apply elem_of_app; by left); done|].
      rewrite decide_False; [done|]. rewrite elem_of_app, list_elem_of_singleton. tauto. }
  destruct L as [L1 L2 L3 L4 L5 L6 L7 L8]. destruct (home (owner q)) as [h|key|id] eqn:Eh.
  - cbn [ref_push ref_files] in *. rewrite L4 in E1. split; cbn; try done.
    + intros h'. unfold push_file. cbn [by_hash_ with_objects]. destruct (decide (h = h')) as [<-|Hne].
      * rewrite lookup_insert_eq, L4, E1. destruct (by_hash_ s !! h) as [w|] eqn:Ew; [|done]. cbn in E0. subst w. cbn [fmap option_fmap option_map]. by rewrite Hadd.
      * rewrite lookup_insert_ne, L4 by done. destruct (by_hash_ s !! h') as [w|] eqn:Ew; [|done]. cbn [fmap option_fmap option_map]. rewrite Hskip; [done|].
        intros H. specialize (Uh h' w Ew H). congruence.
    + intros key. rewrite L5. destruct (unique_size_ s !! key) as [w|] eqn:Ew; [|done]. cbn [fmap option_fmap option_map]. rewrite Hskip; [done|]. intros H. by specialize (Us key w Ew H).
  - cbn [ref_push ref_files] in *. rewrite L5 in E1. split; cbn; try done.
    + intros h'. rewrite L4. destruct (by_hash_ s !! h') as [w|] eqn:Ew; [|done]. cbn [fmap option_fmap option_map]. rewrite Hskip; [done|]. intros H. by specialize (Uh h' w Ew H).
    + intros key'. unfold push_file. cbn [unique_size_ with_objects]. destruct (decide (key = key')) as [<-|Hne].
      * rewrite lookup_insert_eq, L5, E1. destruct (unique_size_ s !! key) as [w|] eqn:Ew; [|done]. cbn in E0. subst w. cbn [fmap option_fmap option_map]. by rewrite Hadd.
      * rewrite lookup_insert_ne, L5 by done. destruct (unique_size_ s !! key') as [w|] eqn:Ew; [|done]. cbn [fmap option_fmap option_map]. rewrite Hskip; [done|].
        intros H. specialize (Us key' w Ew H). congruence.
  - unfold home in Eh. by destruct (decide _).
Qed.

(** The files of an entry of the table of hard links. *)
Lemma hardlink_group id hlv : hardlinks_ s !! id = Some hlv -> exists p v, hlv = p :: v /\ p ∈ primaries /\ linked_file p /\ NoDup hlv /\
  forall q, q ∈ hlv <-> (q ∈ files /\ linked_file q /\ id_of q = id) /\ owner q = p.
Proof.
  rewrite (di_links _ _ _ _ _ _ _ _ _ (si_data _ _ _ _ _ _ _ _ _ Hs)). destruct (linked id) as [|p v] eqn:E; [done|]. intros [= <-]. exists p, v.
  assert (forall q, q ∈ p :: v <-> (q ∈ files /\ linked_file q /\ id_of q = id)) as Hin by (intros q; rewrite <- E, elem_of_linked; tauto).
  assert (forall q, q ∈ p :: v -> owner q = p) as Ho.
  { intros q Hq. apply Hin in Hq as (Hq & Hl & <-). unfold FileDedup.owner. by rewrite decide_True, E. }
  destruct (proj1 (Hin p)) as (Hpf & Hpl & Hpi); [by left|]. split; [done|]. split; [apply in_primaries; split; [done|apply Ho; by left]|].
  split; [done|]. split; [rewrite <- E; apply NoDup_filter, (si_files _ _ _ _ _ _ _ _ _ Hs)|].
  intros q. split; [intros Hq; split; [by apply Hin|by apply Ho]|]. intros [Hq _]. by apply Hin.
Qed.

Definition entry_links (e : (Z * Z) * list nat) : list nat := tl e.2.

Lemma iterated id hlv : (id, hlv) ∈ iterate (hardlinks_ s) <-> hardlinks_ s !! id = Some hlv.
Proof. by rewrite iterates, elem_of_map_to_list. Qed.

Lemma entry_links_in e q : e ∈ iterate (hardlinks_ s) -> (q ∈ entry_links e <-> (q ∈ files /\ linked_file q /\ id_of q = e.1) /\ owner q <> q).
Proof.
  destruct e as [id hlv]. intros He. apply iterated in He. destruct (hardlink_group id hlv He) as (p & v & -> & Hp & Hl & Hnd & Hin). cbn [entry_links tl fst snd].
  apply NoDup_cons in Hnd as [Hpv _]. split.
  - intros Hq. destruct (proj1 (Hin q)) as [H Ho]; [by right|]. split; [done|]. rewrite Ho. by intros ->.
  - intros [H Ho]. destruct (proj1 (in_primaries p) Hp) as [Hpf Hpo]. assert (owner q = p) as Hqp.
    { destruct (proj1 (Hin p)) as [(_ & _ & Hpi) _]; [by left|]. destruct H as (Hq & Hql & Hqi). rewrite <- Hpo. apply owner_same; [done|done|right; split_and!; congruence]. }
    pose proof (proj2 (Hin q) (conj H Hqp)) as H2. apply elem_of_cons in H2 as [?|H2]; [congruence|done].
Qed.

Lemma finalize_hardlinks_ok : exists ps s', finalize_hardlinks info true iterate s = Ok s' /\ linked_state ps s' /\ NoDup ps /\
  forall q, q ∈ ps <-> q ∈ files /\ owner q <> q.
Proof.
  set (ents := iterate (hardlinks_ s)). assert (NoDup ents.*1) as Hkeys.
  { assert (ents ≡ₚ map_to_list (hardlinks_ s)) as E by apply iterates. rewrite E. apply NoDup_fst_map_to_list. }
  set (all l := concat (map entry_links l)).
  assert (forall l q, q ∈ all l <-> exists e, e ∈ l /\ q ∈ entry_links e) as Hall by (intros l q; apply elem_of_concat_map).
  unfold finalize_hardlinks. fold ents.
  destruct (foldR_ind (fun '(_, hlv) s => match hlv with first :: _ :: _ => let? r := lookup_first info true first s in foldR (add_hardlink r) (tl hlv) s | _ => Ok s end)
    (fun l s' => linked_state (all l) s' /\ NoDup (all l)) ents s) as (s' & -> & L & Hnd).
  - split; [apply linked_start|constructor].
  - intros l1 [id hlv] l2 s1 E [L Hnd]. assert ((id, hlv) ∈ ents) as He by (rewrite E; apply elem_of_app; right; by left).
    pose proof (proj1 (iterated id hlv) He) as Eh. destruct (hardlink_group id hlv Eh) as (p & v & -> & Hp & Hl & Hndv & Hin).
    assert (forall l, all (l ++ [(id, p :: v)]) = all l ++ v) as Eall by (intros l; unfold all; rewrite map_app, concat_app; cbn; by rewrite app_nil_r).
    assert (forall q, q ∈ v -> (q ∈ files /\ linked_file q /\ id_of q = id) /\ owner q <> q) as Hv by (intros q Hq; by apply (entry_links_in (id, p :: v) q He)).
    assert (forall r, r ∈ all l1 -> owner r <> r /\ id_of r <> id) as Hbefore.
    { intros r Hr. apply Hall in Hr as (e & He1 & Hr). assert (e ∈ ents) as He' by (rewrite E; apply elem_of_app; by left).
      apply (entry_links_in e r He') in Hr as [(_ & _ & Hid) Ho]. split; [done|]. intros Eid. rewrite E, fmap_app in Hkeys. apply NoDup_app in Hkeys as (_ & Hd & _).
      apply (Hd e.1); [by apply list_elem_of_fmap_2|]. rewrite <- Hid, Eid. by left. }
    rewrite Eall. apply NoDup_cons in Hndv as [Hpv Hndv].
    assert (forall q, q ∈ v -> q ∉ all l1) as Hnew by (intros q Hq Hr; destruct (Hv q Hq) as [(_ & _ & ?) _]; by destruct (Hbefore q Hr)).
    assert (exists s2, foldR (add_hardlink (home p)) v s1 = Ok s2 /\ linked_state (all l1 ++ v) s2) as (s2 & E2 & L2).
    { destruct (foldR_ind (add_hardlink (home p)) (fun w s' => linked_state (all l1 ++ w) s') v s1) as (s2 & E2 & L2); [by rewrite app_nil_r| |by exists s2].
      intros w1 q w2 s2 Ew L2. assert (q ∈ v) as Hqv by (rewrite Ew; apply elem_of_app; right; by left). destruct (Hv q Hqv) as [Hq Ho].
      assert (owner q = p) as Hqp by (by apply Hin; right). assert (forall r, r ∈ w1 -> r ∈ v) as Hw by (intros r Hr; rewrite Ew; apply elem_of_app; by left).
      destruct (add_link_ok (all l1 ++ w1) s2 q L2) as (s3 & E3 & L3); [tauto|done| | |by rewrite Hqp|].
      - intros [H|H]%elem_of_app; [by apply (Hnew q)|]. rewrite Ew in Hndv. apply NoDup_app in Hndv as (_ & Hd & _). apply (Hd q H). by left.
      - intros r [H|H]%elem_of_app; [by apply Hbefore|by apply (Hv r), Hw].
      - rewrite Hqp in E3. exists s3. split; [done|]. by rewrite app_assoc. }
    exists s2. split.
    + destruct v as [|x v]; [cbn in E2; by injection E2 as <-|]. rewrite (lookup_home _ _ _ L Hp Hl). cbn [rbind tl]. done.
    + split; [done|]. apply NoDup_app. split; [done|]. split; [|done]. intros q Hr Hq. by apply (Hnew q).
  - cbn [rbind]. exists (all ents), (with_hardlinks ∅ s'). split; [done|]. split; [by destruct L; split|]. split; [done|]. intros q. rewrite Hall. split.
    + intros (e & He & Hq). apply (entry_links_in e q He) in Hq. tauto.
    + intros [Hq Ho]. assert (linked_file q) as Hl by (destruct (decide (linked_file q)) as [|Hn]; [done|]; exfalso; apply Ho; unfold FileDedup.owner; by rewrite decide_False).
      assert (q ∈ linked (id_of q)) as Hin by (by apply elem_of_linked). destruct (linked (id_of q)) as [|p v] eqn:El; [by apply elem_of_nil in Hin|].
      assert ((id_of q, p :: v) ∈ ents) as He by (apply iterated; by rewrite (di_links _ _ _ _ _ _ _ _ _ (si_data _ _ _ _ _ _ _ _ _ Hs)), El).
      exists (id_of q, p :: v). split; [done|]. by apply (entry_links_in _ _ He).
Qed.

(** ** Numbers of the files *)

(** The data that have numbers, in the order of the numbers. *)
Definition note (nums : list nat) (p : nat) : list nat := if decide (p ∈ nums) then nums else nums ++ [p].

Definition files_with (p : nat) : list nat := filter (fun q => owner q = p) files.

(** The tables after the hard links. *)
Context (ps : list nat) (s' : scan_state) (L : linked_state ps s') (Hps : forall q, q ∈ ps <-> q ∈ files /\ owner q <> q).
Context (first : Z) (Hfirst : 0 <= first) (Hlimit : first + zlen files < 2 ^ 32).

Lemma final_inode q : q ∈ files -> file_inode (objects_ s') !! q = inode_of (owner q).
Proof.
  intros Hq. rewrite (ls_inode _ _ L). destruct (decide (q ∈ ps)) as [|Hn]; [done|]. rewrite Hps in Hn.
  destruct (decide (owner q = q)) as [->|]; [done|]. exfalso. tauto.
Qed.

Record data_numbered (nums : list nat) (f : final_state) : Prop := {
  dn_data : data_of (objects_ (fi_scan f)) = data_of (objects_ s);
  dn_inode : file_inode (objects_ (fi_scan f)) = file_inode (objects_ s');
  dn_datas : forall p, p ∈ primaries -> exists d, datas (objects_ (fi_scan f)) !! p = Some d /\ da_hardlink_count d = zlen (files_with p) /\
    (forall k, nums !! k = Some p -> da_inode_num d = Some (first + Z.of_nat k)) /\ (p ∉ nums -> da_inode_num d = None);
  dn_datas_in : forall p d, datas (objects_ (fi_scan f)) !! p = Some d -> p ∈ primaries;
  dn_NoDup : NoDup nums;
  dn_in : forall p, p ∈ nums -> p ∈ primaries;
  dn_next : fi_inode_num f = first + zlen nums;
  dn_count : inode_count (objects_ (fi_scan f)) = inode_count (objects_ s');
  dn_invalid : forall p d, datas (objects_ (fi_scan f)) !! p = Some d -> exists d0, datas (objects_ s) !! p = Some d0 /\ da_invalid d = da_invalid d0
}.

Lemma dn_get nums f q : data_numbered nums f -> q ∈ files -> exists d, get_data q (objects_ (fi_scan f)) = Ok (owner q, d) /\
  datas (objects_ (fi_scan f)) !! owner q = Some d /\ da_hardlink_count d = zlen (files_with (owner q)) /\
  (forall k, nums !! k = Some (owner q) -> da_inode_num d = Some (first + Z.of_nat k)) /\ (owner q ∉ nums -> da_inode_num d = None).
Proof.
  intros D Hq. destruct (dn_datas _ _ D (owner q) (owner_primary info files q Hq)) as (d & Hd & H). exists d. split; [|done].
  unfold get_data. rewrite (dn_data _ _ D), (di_of _ _ _ _ _ _ _ _ _ (si_data _ _ _ _ _ _ _ _ _ Hs)), decide_True by done. cbn [there rbind]. by rewrite Hd.
Qed.

Lemma primaries_length nums : NoDup nums -> (forall p, p ∈ nums -> p ∈ primaries) -> (length nums <= length files)%nat.
Proof. intros H Hin. apply submseteq_length, NoDup_submseteq; [done|]. intros p Hp. by apply in_primaries, Hin. Qed.

(** The fields of the numbering of inodes. *)
Definition same_objs (f f' : final_state) : Prop :=
  fi_obj_num f' = fi_obj_num f /\ fi_num_unique f' = fi_num_unique f /\ fi_nums f' = fi_nums f /\ fi_files f' = fi_files f.

Lemma number_file_ok nums f q : data_numbered nums f -> q ∈ files ->
  exists f', number_file q f = Ok f' /\ data_numbered (note nums (owner q)) f' /\ same_objs f f'.
Proof.
  intros D Hq. destruct (dn_get nums f q D Hq) as (d & Eg & Ed & Hc & Hin & Hout). pose proof (owner_primary info files q Hq) as Hp.
  unfold number_file, inode_num_of. rewrite Eg. cbn [rbind]. unfold note. destruct (decide (owner q ∈ nums)) as [Hn|Hn].
  - apply list_elem_of_lookup in Hn as [k Hk]. rewrite (Hin k Hk). exists f. split; [done|]. split; [done|]. by unfold same_objs.
  - rewrite (Hout Hn). unfold set_file_inode_num. rewrite Eg. cbn [rbind]. rewrite (Hout Hn). unfold dwarfs_check. cbn [rbind].
    eexists. split; [done|]. split; [|done]. destruct D as [D1 D2 D3 D4 D5 D6 D7 D8 D9].
    assert (NoDup (nums ++ [owner q])) as Hnd by (by apply NoDup_snoc). assert (forall p, p ∈ nums ++ [owner q] -> p ∈ primaries) as Hprim.
    { intros p [H| ->%list_elem_of_singleton]%elem_of_app; [by apply D6|done]. }
    pose proof (primaries_length _ Hnd Hprim) as Hlen. rewrite length_app in Hlen. cbn [length] in Hlen.
    split; cbn [fi_scan fi_inode_num objects_ with_objects put_data data_of datas file_inode]; try done.
    + intros p Hpp. destruct (decide (p = owner q)) as [->|Hne].
      * rewrite lookup_insert_eq. eexists. split; [done|]. split; [done|]. cbn [da_inode_num]. split.
        -- intros k Hk. rewrite D7. destruct (decide (k = length nums)) as [->|Hkn]; [unfold zlen; done|]. exfalso. apply lookup_app_Some in Hk as [Hk|[Hk Hl]].
           ++ apply Hn. by eapply list_elem_of_lookup_2.
           ++ apply list_lookup_singleton_Some in Hl as [? _]. lia.
        -- intros H. exfalso. apply H, elem_of_app. right. by left.
      * rewrite lookup_insert_ne by done. destruct (D3 p Hpp) as (d' & Ed' & Hc' & Hin' & Hout'). exists d'. split; [done|]. split; [done|]. split.
        -- intros k Hk. apply Hin'. apply lookup_app_Some in Hk as [Hk|[_ Hk]]; [done|]. apply list_lookup_singleton_Some in Hk as [_ ?]. done.
        -- intros H. apply Hout'. intros H'. apply H, elem_of_app. by left.
    + intros p d' H. apply lookup_insert_Some in H as [[<- _]|[_ H]]; [done|by apply (D4 p d')].
    + rewrite D7, zlen_app. unfold zlen in *. cbn [length]. rewrite wrapu_small; [lia|]. unfold in_u. lia.
    + intros p d' H. apply lookup_insert_Some in H as [[<- <-]|[_ H]]; [|by apply D9]. cbn [da_invalid]. by apply D9.
Qed.

Definition note_all (nums : list nat) (l : list nat) : list nat := fold_left note l nums.

Lemma number_files_ok v nums f : data_numbered nums f -> (forall q, q ∈ v -> q ∈ files) ->
  exists f', foldR number_file v f = Ok f' /\ data_numbered (note_all nums (map owner v)) f' /\ same_objs f f'.
Proof.
  revert nums f. induction v as [|q v IH]; intros nums f D Hv; [by exists f|].
  destruct (number_file_ok nums f q D) as (f1 & E1 & D1 & S1); [apply Hv; by left|]. cbn [foldR map note_all fold_left]. rewrite E1. cbn [rbind].
  destruct (IH _ f1 D1) as (f2 & E2 & D2 & S2); [intros r Hr; apply Hv; by right|]. exists f2. split; [done|]. split; [done|].
  unfold same_objs in *. split_and!; intuition congruence.
Qed.

(** The data that get numbers. *)
Lemma note_all_new l nums : NoDup nums -> (forall x, x ∈ l -> x ∉ nums) ->
  exists new, note_all nums l = nums ++ new /\ NoDup new /\ forall x, x ∈ new <-> x ∈ l.
Proof.
  intros Hnd. assert (forall l acc, NoDup acc -> (forall x, x ∈ acc ++ l -> x ∉ nums) ->
    exists new, note_all (nums ++ acc) l = nums ++ new /\ NoDup new /\ forall x, x ∈ new <-> x ∈ acc ++ l) as H.
  { clear l. induction l as [|y l IH]; intros acc Ha Hn; [exists acc; rewrite app_nil_r; done|]. cbn [note_all fold_left]. unfold note.
    assert (y ∉ nums) as Hy by (apply Hn, elem_of_app; right; by left). destruct (decide (y ∈ nums ++ acc)) as [Hin|Hout].
    - apply elem_of_app in Hin as [?|Hin]; [done|]. destruct (IH acc Ha) as (new & E & H1 & H2); [intros x Hx; apply Hn; rewrite elem_of_app, elem_of_cons in *; tauto|].
      exists new. split; [done|]. split; [done|]. intros x. rewrite H2, !elem_of_app, elem_of_cons. split; [tauto|]. intros [?|[->|?]]; auto.
    - rewrite elem_of_app in Hout. rewrite <- app_assoc. destruct (IH (acc ++ [y])) as (new & E & H1 & H2).
      + apply NoDup_snoc; [done|tauto].
      + intros x Hx. apply Hn. rewrite <- app_assoc in Hx. exact Hx.
      + exists new. split; [done|]. split; [done|]. intros x. by rewrite H2, <- app_assoc. }
  intros Hn. destruct (H l [] (NoDup_nil_2) Hn) as (new & E & H1 & H2). rewrite app_nil_r in E. by exists new.
Qed.

(** ** Numbers of the inodes *)

(** [objs]: the inodes that have numbers; [sizes]: of how many data each is the
    inode. *)
(** The vector of all files that have inode [i], if it has them all. *)
Record whole (v : list nat) (i : nat) : Prop := {
  wh_nonempty : v <> [];
  wh_NoDup : NoDup v;
  wh_inode : forall q, q ∈ v -> q ∈ files /\ inode_of (owner q) = Some i;
  wh_closed : forall q r, q ∈ v -> r ∈ files -> owner r = owner q -> r ∈ v
}.

Record inodes_numbered (nums objs sizes : list nat) (f : final_state) : Prop := {
  in_next : fi_obj_num f = zlen objs;
  in_NoDup : NoDup objs;
  in_nums : forall k i, objs !! k = Some i -> fi_nums f !! i = Some (Z.of_nat k);
  in_out : forall i, i ∉ objs -> fi_nums f !! i = None /\ fi_files f !! i = None;
  in_groups : forall k p, nums !! k = Some p -> exists g i, shared_list sizes !! k = Some (Z.of_nat g) /\ inode_of p = Some i /\ objs !! g = Some i;
  in_sizes : zlen (shared_list sizes) = zlen nums;
  in_length : length sizes = length objs;
  in_pos : Forall (fun n => (1 <= n)%nat) sizes;
  in_files : forall i, i ∈ objs -> exists v, fi_files f !! i = Some v /\ whole v i /\ forall p, p ∈ nums -> inode_of p = Some i -> p ∈ map owner v
}.

Record numbered_state (nums objs sizes : list nat) (f : final_state) : Prop := {
  nst_data : data_numbered nums f;
  nst_inodes : inodes_numbered nums objs sizes f
}.

Lemma shared_list_snoc sizes n : shared_list (sizes ++ [n]) = shared_list sizes ++ replicate n (zlen sizes).
Proof. unfold shared_list. rewrite imap_app, concat_app. cbn. by rewrite Nat.add_0_r, app_nil_r. Qed.

Lemma sizes_bound sizes : Forall (fun n => (1 <= n)%nat) sizes -> zlen sizes <= zlen (shared_list sizes).
Proof.
  rewrite shared_list_from. generalize 0. intros k H. revert k. induction H as [|n sizes Hn _ IH]; intros k; [done|].
  rewrite shared_from_cons, zlen_app. specialize (IH (k + 1)). unfold zlen in *. rewrite length_replicate. cbn [length]. lia.
Qed.

Lemma finish_inode_ok nums objs sizes f v i : numbered_state nums objs sizes f -> whole v i -> i ∉ objs ->
  exists f' new, finish_inode v f = Ok f' /\ numbered_state (nums ++ new) (objs ++ [i]) (sizes ++ [length new]) f' /\
    NoDup new /\ (forall x, x ∈ new <-> x ∈ map owner v) /\ fi_num_unique f' = fi_num_unique f.
Proof.
  intros [D N] W Hi. pose proof W as [W1 W2 W3 W4]. destruct (number_files_ok v nums f D) as (f1 & E1 & D1 & S1 & S2 & S3 & S4); [intros q Hq; by apply W3|].
  destruct (note_all_new (map owner v) nums (dn_NoDup _ _ D)) as (new & En & Hnd & Hnew).
  { intros x Hx Hn. apply list_elem_of_fmap in Hx as (q & -> & Hq). apply list_elem_of_lookup in Hn as [k Hk].
    destruct (in_groups _ _ _ _ N k _ Hk) as (g & j & _ & Ej & Hg). destruct (W3 q Hq) as [_ Ei]. apply Hi. rewrite Ei in Ej. injection Ej as <-. by eapply list_elem_of_lookup_2. }
  rewrite En in D1. unfold finish_inode. rewrite E1. cbn [rbind]. destruct v as [|q v]; [done|]. cbn [first_file rbind].
  destruct (W3 q) as [Hq Eq]; [by left|]. rewrite (dn_inode _ _ D1), final_inode, Eq by done. cbn [there rbind].
  destruct (in_out _ _ _ _ N i Hi) as [O1 O2]. rewrite S3, S4, O1, O2. unfold dwarfs_check. cbn [default rbind].
  eexists _, new. split; [done|]. assert (1 <= length new)%nat as Hlen.
  { destruct new as [|x new]; [|cbn; lia]. exfalso. assert (owner q ∈ (@nil nat)) as H by (apply Hnew; by left). by apply elem_of_nil in H. }
  assert (NoDup (objs ++ [i])) as Hobjs by (by apply NoDup_snoc; [apply N|]).
  destruct N as [N1 N2 N3 N4 N5 N6 N7 N8 N9]. split; [split; [by destruct D1; split|split; cbn [fi_obj_num fi_nums fi_files]]|done].
  - rewrite S1, N1. pose proof (sizes_bound _ N8) as Hb. pose proof (primaries_length _ (dn_NoDup _ _ D1) (dn_in _ _ D1)) as Hp. rewrite length_app in Hp.
    unfold zlen in *. rewrite length_app. cbn [length]. rewrite wrapu_small; [lia|]. unfold in_u. lia.
  - done.
  - intros k j Hk. apply lookup_app_Some in Hk as [Hk|[Hle Hk]].
    + assert (j ∈ objs) as Hj by (by eapply list_elem_of_lookup_2). rewrite lookup_insert_ne by (intros ->; done). by apply N3.
    + apply list_lookup_singleton_Some in Hk as [Hk <-]. rewrite lookup_insert_eq, S1, N1. unfold zlen. f_equal. lia.
  - intros j Hj. rewrite elem_of_app, list_elem_of_singleton in Hj. rewrite !lookup_insert_ne by (intros ->; tauto). apply N4. tauto.
  - rewrite shared_list_snoc. intros k p Hk. apply lookup_app_Some in Hk as [Hk|[Hle Hk]].
    + destruct (N5 k p Hk) as (g & j & Hg & Ej & Ho). exists g, j. split; [by apply lookup_app_l_Some|]. split; [done|]. by apply lookup_app_l_Some.
    + exists (length objs), i. assert (p ∈ new) as Hp by (by eapply list_elem_of_lookup_2). apply Hnew, list_elem_of_fmap in Hp as (r & -> & Hr).
      assert (length nums = length (shared_list sizes)) as Hls by (unfold zlen in N6; lia). split_and!.
      * rewrite lookup_app_r by lia. apply lookup_lt_Some in Hk. rewrite lookup_replicate_2 by lia. unfold zlen. by rewrite N7.
      * by apply W3.
      * rewrite lookup_app_r, Nat.sub_diag by lia. done.
  - rewrite shared_list_snoc, !zlen_app, N6. unfold zlen. by rewrite length_replicate.
  - rewrite !length_app, N7. done.
  - apply Forall_app. split; [done|]. by constructor.
  - assert (forall p, p ∈ new -> inode_of p = Some i) as Hin by (intros p (r & -> & Hr)%Hnew%list_elem_of_fmap; by apply W3).
    intros j Hj. destruct (decide (j = i)) as [->|Hne].
    + exists (q :: v). split; [apply lookup_insert_eq|]. split; [done|]. intros p [Hp|Hp]%elem_of_app Ep; [|by apply Hnew]. apply list_elem_of_lookup in Hp as [k Hk].
      destruct (N5 k p Hk) as (g & j & _ & Ej & Ho). exfalso. apply Hi. rewrite Ep in Ej. injection Ej as <-. by eapply list_elem_of_lookup_2.
    + apply elem_of_app in Hj as [Hj|Hj%list_elem_of_singleton]; [|done]. destruct (N9 j Hj) as (v' & Hv' & Hw' & Hall). exists v'. split; [by rewrite lookup_insert_ne|]. split; [done|].
      intros p [Hp|Hp]%elem_of_app Ep; [by apply Hall|]. rewrite (Hin p Hp) in Ep. by injection Ep as ->.
Qed.

(** *** Inodes of one file, and of several *)

(** All files of the vector have the same data. *)
Definition single (v : list nat) : bool := match v with [] => false | q :: _ => forallb (fun r => (owner r =? owner q)%nat) v end.

Lemma single_true v : single v = true <-> exists q, q ∈ v /\ forall r, r ∈ v -> owner r = owner q.
Proof.
  unfold single. destruct v as [|q v]; [split; [done|intros (q & H & _); by apply elem_of_nil in H]|]. rewrite forallb_forall. split.
  - intros H. exists q. split; [by left|]. intros r Hr. apply Nat.eqb_eq, H. by apply list_elem_of_In.
  - intros (x & _ & H) r Hr. apply list_elem_of_In in Hr. apply Nat.eqb_eq. rewrite (H r Hr). symmetry. apply H. by left.
Qed.

(** A vector whose files have the same data has as many as there are hard
    links. *)
Lemma whole_single q v i : whole (q :: v) i -> single (q :: v) = true -> files_with (owner q) ≡ₚ q :: v.
Proof.
  intros [W1 W2 W3 W4] Es. apply single_true in Es as (x & Hx & Hall). apply NoDup_Permutation; [apply NoDup_filter, (si_files _ _ _ _ _ _ _ _ _ Hs)|done|].
  intros r. unfold files_with. rewrite list_elem_of_filter. split; [intros [Ho Hr]; by apply (W4 q r); [left|..]|]. intros Hr. split; [|by apply W3].
  rewrite (Hall r Hr). symmetry. apply Hall. by left.
Qed.

Lemma not_single q v : single (q :: v) = false -> exists r, r ∈ q :: v /\ owner r <> owner q.
Proof.
  intros Es. destruct (existsb (fun r => negb (owner r =? owner q)%nat) (q :: v)) eqn:Ex.
  - apply existsb_exists in Ex as (r & Hr & Hb). exists r. split; [by apply list_elem_of_In|]. apply negb_true_iff, Nat.eqb_neq in Hb. done.
  - exfalso. assert (single (q :: v) = true) as H; [|congruence]. apply single_true. exists q. split; [by left|]. intros r Hr.
    destruct (decide (owner r = owner q)) as [|Hne]; [done|]. exfalso. assert (existsb (fun r => negb (owner r =? owner q)%nat) (q :: v) = true) as H; [|congruence].
    apply existsb_exists. exists r. split; [by apply list_elem_of_In|]. by apply negb_true_iff, Nat.eqb_neq.
Qed.

(** The comparison of the size with the count of hard links. *)
Lemma whole_count q v i : whole (q :: v) i -> (zlen (files_with (owner q)) <? zlen (q :: v)) = negb (single (q :: v)).
Proof.
  intros W. destruct (single (q :: v)) eqn:Es; cbn [negb].
  - apply Z.ltb_ge. unfold zlen. rewrite (whole_single q v i W Es). lia.
  - apply Z.ltb_lt. destruct W as [W1 W2 W3 W4]. destruct (not_single q v Es) as (r & Hr & Hne).
    assert (NoDup (r :: files_with (owner q))) as Hnd.
    { apply NoDup_cons. split; [unfold files_with; rewrite list_elem_of_filter; tauto|apply NoDup_filter, (si_files _ _ _ _ _ _ _ _ _ Hs)]. }
    assert (length (r :: files_with (owner q)) <= length (q :: v))%nat as Hle.
    { apply submseteq_length, NoDup_submseteq; [done|]. intros x [->|Hx]%elem_of_cons; [done|]. unfold files_with in Hx. apply list_elem_of_filter in Hx as [Ho Hx].
      by apply (W4 q x); [left|..]. }
    unfold zlen. cbn [length] in *. lia.
Qed.

(** *** The loops *)

(** Vectors with their inodes, to be numbered after the inodes [objs]. *)
Record to_number (objs : list nat) (es : list (list nat * nat)) : Prop := {
  tn_whole : Forall (fun e => whole e.1 e.2) es;
  tn_NoDup : NoDup es.*2;
  tn_new : forall e, e ∈ es -> e.2 ∉ objs
}.

Lemma to_number_cons objs e es : to_number objs (e :: es) -> whole e.1 e.2 /\ (e.2 ∉ objs) /\ to_number objs es /\ to_number (objs ++ [e.2]) es.
Proof.
  intros [H1 H2 H3]. apply Forall_cons in H1 as [Hw H1]. cbn in H2. apply NoDup_cons in H2 as [Hn H2]. split; [done|]. split; [apply H3; by left|].
  split; (split; [done|done|]).
  - intros x Hx. apply H3. by right.
  - intros x Hx [H| H%list_elem_of_singleton]%elem_of_app; [by apply (H3 x); [right|]|]. apply Hn. rewrite <- H. by apply list_elem_of_fmap_2.
Qed.

Definition ones (es : list (list nat * nat)) : list nat := (filter (fun e => single e.1 = true) es).*2.
Definition several (es : list (list nat * nat)) : list nat := (filter (fun e => single e.1 = false) es).*2.
Definition moved (e : list nat * nat) : list nat := if single e.1 then [] else e.1.

(** The data of the vectors of one kind. *)
Definition data_of_kind (b : bool) (es : list (list nat * nat)) (x : nat) : Prop := exists e, e ∈ es /\ single e.1 = b /\ x ∈ map owner e.1.

Lemma data_of_kind_cons b e es x : data_of_kind b (e :: es) x <-> (single e.1 = b /\ x ∈ map owner e.1) \/ data_of_kind b es x.
Proof.
  unfold data_of_kind. split.
  - intros (e' & He & H). apply elem_of_cons in He as [->|He]; [by left|]. right. by exists e'.
  - intros [H|(e' & He & H)]; [exists e; split; [by left|done]|exists e'; split; [by right|done]].
Qed.

Lemma single_new v new : single v = true -> NoDup new -> (forall x, x ∈ new <-> x ∈ map owner v) -> length new = 1%nat.
Proof.
  intros Hs1 Hnd Hin. apply single_true in Hs1 as (q & Hq & Hall). assert (forall x, x ∈ new -> x = owner q) as Hx.
  { intros x Hx. apply Hin, list_elem_of_fmap in Hx as (r & -> & Hr). by apply Hall. }
  destruct new as [|x [|y new]]; [|done|].
  - exfalso. assert (owner q ∈ (@nil nat)) as H by (apply Hin, list_elem_of_fmap_2; done). by apply elem_of_nil in H.
  - exfalso. apply NoDup_cons in Hnd as [Hn _]. apply Hn. rewrite (Hx x), (Hx y); [by left|right; by left|by left].
Qed.

Lemma several_new v new : v <> [] -> single v = false -> (forall x, x ∈ new <-> x ∈ map owner v) -> (2 <= length new)%nat.
Proof.
  intros Hne Hs1 Hin. destruct v as [|q v]; [done|]. destruct new as [|x [|y new]]; [| |cbn; lia]; exfalso.
  - assert (owner q ∈ (@nil nat)) as H by (apply Hin; by left). by apply elem_of_nil in H.
  - assert (single (q :: v) = true) as H; [|congruence]. apply single_true. exists q. split; [by left|]. intros r Hr.
    assert (owner q ∈ [x]) as H1 by (apply Hin; by left). assert (owner r ∈ [x]) as H2 by (by apply Hin, list_elem_of_fmap_2).
    apply list_elem_of_singleton in H1, H2. congruence.
Qed.

Lemma unique_stage es : forall nums objs sizes f, numbered_state nums objs sizes f -> to_number objs es -> 0 <= fi_num_unique f <= zlen objs ->
  exists f' new, finalize_inodes info true es.*1 f = Ok (map moved es, f') /\
    numbered_state (nums ++ new) (objs ++ ones es) (sizes ++ replicate (length (ones es)) 1%nat) f' /\
    (forall x, x ∈ new <-> data_of_kind true es x) /\ fi_num_unique f' = fi_num_unique f + zlen (ones es).
Proof.
  induction es as [|[v i] es IH]; intros nums objs sizes f N T Hu.
  { exists f, []. cbn. rewrite !app_nil_r. split; [done|]. split; [done|]. split; [|unfold zlen; cbn [ones length]; cbn; lia]. intros x. split; [by intros ?%elem_of_nil|]. by intros (e & ?%elem_of_nil & _). }
  destruct (to_number_cons _ _ _ T) as (Hw & Hi & T1 & T2). cbn [fst snd] in *. cbn [fmap list_fmap fst finalize_inodes]. unfold finalize_unique_inode.
  destruct v as [|q v]; [by destruct Hw|]. cbn [rbind]. destruct (wh_inode _ _ Hw q) as [Hq _]; [by left|].
  unfold hardlink_count. destruct (dn_get nums f q (nst_data _ _ _ _ N) Hq) as (d & Eg & _ & Ec & _). rewrite Eg. cbn [rbind]. rewrite Ec. rewrite (whole_count q v i Hw).
  destruct (single (q :: v)) eqn:Es; cbn [negb].
  - set (f0 := FinalState (fi_scan f) (fi_inode_num f) (fi_obj_num f) (wrapu 32 (fi_num_unique f + 1)) (fi_nums f) (fi_files f)).
    assert (numbered_state nums objs sizes f0) as N0 by (destruct N as [[] []]; by split; split).
    destruct (finish_inode_ok _ _ _ f0 _ i N0 Hw Hi) as (f1 & new1 & E1 & N1 & Hnd & Hin & Eu). rewrite E1. cbn [rbind].
    pose proof (single_new _ _ Es Hnd Hin) as Hone. rewrite Hone in N1.
    assert (zlen objs + 1 < 2 ^ 32) as Hb.
    { pose proof (primaries_length _ (dn_NoDup _ _ (nst_data _ _ _ _ N1)) (dn_in _ _ (nst_data _ _ _ _ N1))) as Hp. rewrite length_app in Hp.
      pose proof (sizes_bound _ (in_pos _ _ _ _ (nst_inodes _ _ _ _ N))) as Hsz. pose proof (in_length _ _ _ _ (nst_inodes _ _ _ _ N)) as Hl.
      pose proof (in_sizes _ _ _ _ (nst_inodes _ _ _ _ N)) as Hz. unfold zlen in *. lia. }
    assert (fi_num_unique f1 = fi_num_unique f + 1) as Eu1 by (rewrite Eu; cbn; apply wrapu_small; unfold in_u; lia).
    destruct (IH _ _ _ f1 N1 T2) as (f2 & new2 & E2 & N2 & Hin2 & Eu2); [rewrite Eu1, zlen_app; unfold zlen in *; cbn [length]; lia|].
    rewrite E2. cbn [rbind]. exists f2, (new1 ++ new2).
    assert (ones ((q :: v, i) :: es) = i :: ones es) as -> by (unfold ones; rewrite filter_cons, decide_True by done; done).
    split; [cbn [map]; unfold moved at 2; cbn [fst]; by rewrite Es|]. split; [|split].
    + cbn [length replicate]. rewrite <- !app_assoc in N2. exact N2.
    + intros x. rewrite elem_of_app, data_of_kind_cons, Hin, Hin2. cbn [fst]. rewrite Es. tauto.
    + rewrite Eu2, Eu1. unfold zlen. cbn [length]. lia.
  - cbn [rbind]. destruct (IH _ _ _ f N T1 Hu) as (f2 & new2 & E2 & N2 & Hin2 & Eu2). rewrite E2. cbn [rbind]. exists f2, new2.
    assert (ones ((q :: v, i) :: es) = ones es) as -> by (unfold ones; by rewrite filter_cons, decide_False by (cbn [fst]; congruence)).
    split; [cbn [map]; unfold moved at 2; cbn [fst]; by rewrite Es|]. split; [done|]. split; [|done].
    intros x. rewrite Hin2, data_of_kind_cons. cbn [fst]. rewrite Es. split; [by right|]. by intros [[? _]|?].
Qed.

Lemma whole_Permutation v w i : v ≡ₚ w -> whole v i -> whole w i.
Proof.
  intros E [W1 W2 W3 W4]. assert (forall q, q ∈ w <-> q ∈ v) as Hin by (intros q; by rewrite E). split.
  - intros ->. apply W1. by apply Permutation_nil_r.
  - by rewrite <- E.
  - intros q Hq. by apply W3, Hin.
  - intros q r Hq Hr Ho. apply Hin, (W4 q r); [by apply Hin|done..].
Qed.

Lemma shared_stage es : forall nums objs sizes f, numbered_state nums objs sizes f -> to_number objs (filter (fun e => single e.1 = false) es) ->
  exists f' new groups out, finalize_inodes info false (map moved es) f = Ok (out, f') /\ numbered_state (nums ++ new) (objs ++ several es) (sizes ++ groups) f' /\
    Forall (fun n => (2 <= n)%nat) groups /\ length groups = length (several es) /\
    (forall x, x ∈ new <-> data_of_kind false es x) /\ fi_num_unique f' = fi_num_unique f.
Proof.
  induction es as [|[v i] es IH]; intros nums objs sizes f N T.
  { exists f, [], [], []. cbn. rewrite !app_nil_r. split_and!; try done. intros x. split; [by intros ?%elem_of_nil|]. by intros (e & ?%elem_of_nil & _). }
  rewrite filter_cons in T. cbn [map finalize_inodes]. unfold moved at 1. cbn [fst] in *. destruct (single v) eqn:Es.
  - rewrite decide_False in T by done. cbn [finalize_shared_inode rbind]. destruct (IH _ _ _ f N T) as (f2 & new2 & groups & out & E2 & N2 & Hg & Hlen & Hin2 & Eu2). rewrite E2. cbn [rbind].
    assert (several ((v, i) :: es) = several es) as -> by (unfold several; by rewrite filter_cons, decide_False by (cbn [fst]; congruence)).
    eexists f2, new2, groups, _. split_and!; try done. intros x. rewrite Hin2, data_of_kind_cons. cbn [fst]. rewrite Es. split; [by right|]. by intros [[? _]|?].
  - rewrite decide_True in T by done. destruct (to_number_cons _ _ _ T) as (Hw & Hi & _ & T2). cbn [fst snd] in *.
    set (w := merge_sort (revpath_le info) v). assert (v ≡ₚ w) as Ew by (symmetry; apply merge_sort_Permutation).
    pose proof (whole_Permutation v w i Ew Hw) as Hww. destruct (finish_inode_ok _ _ _ f w i N Hww Hi) as (f1 & new1 & E1 & N1 & Hnd & Hin & Eu).
    assert (forall x, x ∈ new1 <-> x ∈ map owner v) as Hin' by (intros x; by rewrite Hin, Ew).
    pose proof (several_new v new1 (wh_nonempty _ _ Hw) Es Hin') as Htwo.
    assert (finalize_shared_inode info v f = Ok ([], f1)) as ->.
    { destruct v as [|q [|r v0]] eqn:Ev; [by destruct Hw|exfalso|].
      - assert (single [q] = true) as H by (apply single_true; exists q; split; [by left|]; by intros r ->%list_elem_of_singleton). congruence.
      - cbn [finalize_shared_inode]. unfold dwarfs_check. destruct (Z.ltb_spec 1 (zlen (q :: r :: v0))) as [_|Hle]; [|unfold zlen in Hle; cbn [length] in Hle; lia].
        cbn [rbind]. fold w. rewrite E1. done. }
    cbn [rbind]. destruct (IH _ _ _ f1 N1 T2) as (f2 & new2 & groups & out & E2 & N2 & Hg & Hlen & Hin2 & Eu2). rewrite E2. cbn [rbind].
    assert (several ((v, i) :: es) = i :: several es) as -> by (unfold several; rewrite filter_cons, decide_True by done; done).
    eexists f2, (new1 ++ new2), (length new1 :: groups), _. split; [done|]. rewrite <- !app_assoc in N2. cbn [app] in N2. split_and!.
    + exact N2.
    + by constructor.
    + cbn [length]. by rewrite Hlen.
    + intros x. rewrite elem_of_app, data_of_kind_cons, Hin', Hin2. cbn [fst]. rewrite Es. tauto.
    + by rewrite Eu2, Eu.
Qed.

(** ** The vectors of the tables *)

Context (Hps_NoDup : NoDup ps).

Lemma in_with_links v0 q : (forall p, p ∈ v0 -> p ∈ primaries) -> q ∈ with_links ps v0 <-> q ∈ files /\ owner q ∈ v0.
Proof.
  intros Hv. unfold with_links. rewrite elem_of_app, list_elem_of_filter, Hps. split.
  - intros [Hq|(Ho & Hq & _)]; [|done]. destruct (proj1 (in_primaries q) (Hv q Hq)) as [? Eo]. split; [done|]. by rewrite Eo.
  - intros [Hq Ho]. destruct (decide (owner q = q)) as [E|]; [left; by rewrite <- E|by right].
Qed.

Lemma whole_links v0 i : v0 <> [] -> NoDup v0 -> (forall p, p ∈ v0 -> p ∈ primaries /\ inode_of p = Some i) -> whole (with_links ps v0) i.
Proof.
  intros Hne Hnd Hv. assert (forall p, p ∈ v0 -> p ∈ primaries) as Hp by (intros p Hp; by apply Hv).
  assert (forall q, q ∈ with_links ps v0 <-> q ∈ files /\ owner q ∈ v0) as Hin by (intros q; by apply in_with_links). split.
  - unfold with_links. by destruct v0.
  - unfold with_links. apply NoDup_app. split; [done|]. split; [|by apply NoDup_filter]. intros q Hq H. apply list_elem_of_filter in H as [_ H].
    apply Hps in H as [_ H]. by destruct (proj1 (in_primaries q) (Hp q Hq)).
  - intros q Hq. apply Hin in Hq as [Hq Ho]. split; [done|]. by apply Hv.
  - intros q r Hq Hr E. apply Hin in Hq as [_ Ho]. apply Hin. by rewrite E.
Qed.

Lemma owners_with_links v0 x : (forall p, p ∈ v0 -> p ∈ primaries) -> x ∈ map owner (with_links ps v0) <-> x ∈ v0.
Proof.
  intros Hv. split.
  - intros H. apply list_elem_of_fmap in H as (q & -> & Hq). by apply in_with_links in Hq as [_ ?].
  - intros Hx. destruct (proj1 (in_primaries x) (Hv x Hx)) as [Hf Ho]. apply list_elem_of_fmap. exists x. split; [done|]. apply in_with_links; [done|]. by rewrite Ho.
Qed.

(** A vector with its inode. *)
Definition vec_inode (v : list nat) : nat := match v with q :: _ => default O (inode_of (owner q)) | [] => O end.
Definition with_inode (v : list nat) : list nat * nat := (v, vec_inode v).

Lemma vec_inode_whole v i : whole v i -> vec_inode v = i.
Proof. intros [W1 _ W3 _]. destruct v as [|q v]; [done|]. cbn. destruct (W3 q) as [_ ->]; [by left|done]. Qed.

Lemma with_inode_fst l : (map with_inode l).*1 = l.
Proof. rewrite <- list_fmap_compose. apply list_fmap_id. Qed.

Lemma in_sorted_vectors {K} `{Countable K} (key_le : K -> K -> Prop) `{!RelDecision key_le} (m : gmap K (list nat)) v :
  v ∈ sorted_vectors key_le m <-> exists k, m !! k = Some v /\ v <> [].
Proof.
  unfold sorted_vectors. rewrite list_elem_of_fmap. setoid_rewrite merge_sort_Permutation. setoid_rewrite list_elem_of_filter. split.
  - intros ([k w] & -> & Hne & Hin). exists k. by apply elem_of_map_to_list in Hin.
  - intros (k & Hm & Hne). exists (k, v). split; [done|]. split; [done|]. by apply elem_of_map_to_list.
Qed.

Lemma vectors_to_number {K} `{Countable K} (key_le : K -> K -> Prop) `{!RelDecision key_le} (m : gmap K (list nat)) objs :
  (forall k v, m !! k = Some v -> v <> [] -> whole v (vec_inode v) /\ vec_inode v ∉ objs) ->
  (forall k v k' v', m !! k = Some v -> m !! k' = Some v' -> v <> [] -> v' <> [] -> vec_inode v = vec_inode v' -> k = k') ->
  to_number objs (map with_inode (sorted_vectors key_le m)).
Proof.
  intros Hw Hinj. split.
  - apply Forall_forall. intros e He. apply list_elem_of_fmap in He as (v & -> & Hv). apply in_sorted_vectors in Hv as (k & Hk & Hne). by apply (Hw k).
  - rewrite <- list_fmap_compose. unfold sorted_vectors. rewrite <- list_fmap_compose.
    assert (NoDup (merge_sort (key_order key_le) (filter (fun e => e.2 <> []) (map_to_list m)))) as Hnd.
    { rewrite merge_sort_Permutation. apply NoDup_filter, NoDup_map_to_list. }
    apply NoDup_fmap_2_strong; [|done]. intros [k v] [k' v'] H1 H2 E. rewrite merge_sort_Permutation in H1, H2.
    apply list_elem_of_filter in H1 as [N1 H1], H2 as [N2 H2]. apply elem_of_map_to_list in H1, H2. cbn in N1, N2, E.
    assert (k = k') as <- by (by apply (Hinj k v k' v')). rewrite H1 in H2. by injection H2 as <-.
  - intros e He. apply list_elem_of_fmap in He as (v & -> & Hv). apply in_sorted_vectors in Hv as (k & Hk & Hne). by apply (Hw k).
Qed.

(** Inodes of the data of a kind. *)
Definition inodes_from (P : nat -> Prop) (objs : list nat) : Prop := forall i, i ∈ objs -> exists p, P p /\ p ∈ primaries /\ inode_of p = Some i.

(** Two data with one inode were hashed and have the same contents. *)
Lemma one_inode p q i : inode_of p = Some i -> inode_of q = Some i -> p = q \/ (p ∈ comm /\ q ∈ comm /\ exists c, content p = Some c /\ content q = Some c).
Proof. apply (ii_inj _ _ _ _ _ _ _ (si_inodes _ _ _ _ _ _ _ _ _ Hs)). Qed.

Lemma primary_inode p : p ∈ primaries -> is_Some (inode_of p).
Proof.
  intros Hp. apply (ii_some _ _ _ _ _ _ _ (si_inodes _ _ _ _ _ _ _ _ _ Hs)). split; [done|].
  destruct (decide (p ∈ comm)) as [|Hn]; [by left|right]. by rewrite (not_comm_class p Hp Hn).
Qed.

(** The three tables. *)
Definition lone (p : nat) : Prop := p ∈ primaries /\ p ∉ comm.
Definition unreadable (p : nat) : Prop := p ∈ comm /\ content p = None.
Definition readable (p : nat) : Prop := p ∈ comm /\ is_Some (content p).

Lemma comm_primary p : p ∈ comm -> p ∈ primaries.
Proof. intros H. exact (proj1 (proj1 (comm_class p) H)). Qed.

Lemma one_vector p : p ∈ primaries -> exists i, inode_of p = Some i /\ whole (with_links ps [p]) i /\ single (with_links ps [p]) = true /\
  forall x, x ∈ map owner (with_links ps [p]) <-> x = p.
Proof.
  intros Hp. destruct (primary_inode p Hp) as [i Hi]. assert (forall q, q ∈ [p] -> q ∈ primaries) as Hv by (by intros q ->%list_elem_of_singleton).
  assert (forall x, x ∈ map owner (with_links ps [p]) <-> x = p) as Ho by (intros x; by rewrite owners_with_links, list_elem_of_singleton).
  exists i. split; [done|]. split; [apply whole_links; [done|apply NoDup_singleton|by intros q ->%list_elem_of_singleton]|]. split; [|done].
  apply single_true. destruct (proj1 (in_primaries p) Hp) as [Hf Hop]. exists p. split; [by left|]. intros r Hr. rewrite Hop. apply Ho. by apply list_elem_of_fmap_2.
Qed.

Lemma size_table key v : unique_size_ s' !! key = Some v -> v <> [] -> exists p, lone p /\ key_of p = key /\ v = with_links ps [p].
Proof.
  rewrite (ls_size _ _ L). intros H Hne. destruct (unique_size_ s !! key) as [v0|] eqn:E; [|done]. cbn in H. injection H as <-.
  apply size_vector in E as [->|(p & -> & Hp & Hn & Hk)].
  - exfalso. apply Hne. unfold with_links. cbn. clear. induction ps as [|q l IH]; [done|]. rewrite filter_cons, decide_False; [done|apply not_elem_of_nil].
  - by exists p.
Qed.

Lemma id_table id v : by_inode_id_ s' !! id = Some v -> v <> [] -> exists p, unreadable p /\ id_of p = id /\ v = with_links ps [p].
Proof.
  rewrite (ls_id _ _ L). intros E Hne. assert (forall p, p ∈ v <-> p ∈ comm /\ content p = None /\ id_of p = id) as Hin.
  { intros p. pose proof (hi_by_id _ _ _ _ _ _ (si_hash _ _ _ _ _ _ _ _ _ Hs) id p) as H. by rewrite E in H. }
  pose proof (hi_by_id_NoDup _ _ _ _ _ _ (si_hash _ _ _ _ _ _ _ _ _ Hs) id) as Hnd. rewrite E in Hnd. cbn in Hnd.
  destruct v as [|p v]; [done|]. destruct (proj1 (Hin p)) as (Hp & Hc & Hid); [by left|]. exists p. split; [done|]. split; [done|].
  assert (v = []) as ->.
  { destruct v as [|q v]; [done|]. exfalso. destruct (proj1 (Hin q)) as (Hq & Hcq & Hidq); [right; by left|].
    assert (p = q) as <- by (apply unreadable_ids; [by apply comm_primary..|done|done|congruence]).
    apply NoDup_cons in Hnd as [Hn _]. apply Hn. by left. }
  assert (~ linked_file p) as Hnl by (intros Hl; destruct (links_readable p (comm_primary p Hp) Hl); congruence).
  unfold with_links. assert (filter (fun q => owner q ∈ [p]) ps = []) as ->; [|done].
  destruct (filter (fun q => owner q ∈ [p]) ps) as [|q w] eqn:Ef; [done|]. exfalso. assert (q ∈ filter (fun q => owner q ∈ [p]) ps) as Hq by (rewrite Ef; by left).
  apply list_elem_of_filter in Hq as [Ho%list_elem_of_singleton Hq]. apply Hps in Hq as [Hq Hne']. destruct (proj1 (in_primaries p) (comm_primary p Hp)) as [Hpf Hpo].
  rewrite <- Hpo in Ho. apply owner_same in Ho as [->|(_ & ? & _)]; [|done|done|done]. done.
Qed.

Lemma hash_table h v : by_hash_ s' !! h = Some v -> exists v0 p c i, v = with_links ps v0 /\ p ∈ v0 /\ content p = Some c /\ algo c = h /\
  inode_of p = Some i /\ whole v i /\ (forall q, q ∈ v0 <-> q ∈ comm /\ content q = Some c) /\ forall q, q ∈ v0 -> q ∈ primaries.
Proof.
  rewrite (ls_hash _ _ L). destruct (by_hash_ s !! h) as [v0|] eqn:E; [|done]. intros [= <-].
  pose proof (hi_NoDup _ _ _ _ _ _ (si_hash _ _ _ _ _ _ _ _ _ Hs) h) as Hnd. rewrite E in Hnd. cbn in Hnd.
  destruct v0 as [|p w] eqn:Ev; [by apply (hi_nonempty _ _ _ _ _ _ (si_hash _ _ _ _ _ _ _ _ _ Hs)) in E|]. rewrite <- Ev in *.
  destruct (proj1 (hash_vector h v0 p E)) as [Hp (c & Hc & Eh)]; [rewrite Ev; by left|].
  assert (forall q, q ∈ v0 <-> q ∈ comm /\ content q = Some c) as Hin.
  { intros q. rewrite (hash_vector h v0 q E). split; [|intros [Hq Hcq]; split; [done|by exists c]]. intros [Hq (c' & Hc' & Eh')]. split; [done|].
    rewrite Hc'. f_equal. apply (hash_injective info segment_at_0 open_file xxh3_64 algo q p); [done|done|congruence]. }
  destruct (primary_inode p (comm_primary p Hp)) as [i Hi]. exists v0, p, c, i. split; [done|]. split; [rewrite Ev; by left|]. split; [done|]. split; [done|]. split; [done|].
  split; [|split; [done|intros q Hq; by apply comm_primary, Hin]]. apply whole_links; [by rewrite Ev|done|]. intros q Hq. apply Hin in Hq as [Hq Hcq].
  split; [by apply comm_primary|]. rewrite <- Hi. apply (ii_same _ _ _ _ _ _ _ (si_inodes _ _ _ _ _ _ _ _ _ Hs)). split; [done|]. split; [done|]. by exists c.
Qed.

(** ** The three stages *)

Lemma start_state : numbered_state [] [] [] (FinalState s' first 0 0 ∅ ∅).
Proof.
  pose proof (si_data _ _ _ _ _ _ _ _ _ Hs) as D. split; split; cbn [fi_scan fi_inode_num fi_obj_num fi_nums fi_files]; try done.
  - apply (ls_data _ _ L).
  - intros p Hp. rewrite (ls_datas _ _ L). destruct (di_status _ _ _ _ _ _ _ _ _ D p Hp) as (d & Hd & (Hnum' & _) & Hc). by exists d.
  - intros p d. rewrite (ls_datas _ _ L). apply (di_datas _ _ _ _ _ _ _ _ _ D).
  - constructor.
  - by intros p ?%elem_of_nil.
  - unfold zlen. cbn. lia.
  - intros p d. rewrite (ls_datas _ _ L). intros Hd. by exists d.
  - constructor.
  - by intros i ?%elem_of_nil.
Qed.

Lemma all_single es : (forall e, e ∈ es -> single e.1 = true) -> ones es = es.*2 /\ several es = [] /\ forall x, ~ data_of_kind false es x.
Proof.
  intros H. split; [|split].
  - unfold ones. f_equal. induction es as [|e es IH]; [done|]. rewrite filter_cons, decide_True by (apply H; by left). f_equal. apply IH. intros x Hx. apply H. by right.
  - unfold several. induction es as [|e es IH]; [done|]. rewrite filter_cons, decide_False; [|rewrite H; [done|by left]]. apply IH. intros x Hx. apply H. by right.
  - intros x (e & He & Es & _). by rewrite (H e He) in Es.
Qed.

Section one_table.
Context {K} `{Countable K} (key_le : K -> K -> Prop) `{!RelDecision key_le} (m : gmap K (list nat)) (P : nat -> Prop).

(** A table in which every vector has the files of one data. *)
Lemma single_table objs : (forall k v, m !! k = Some v -> v <> [] -> exists p, P p /\ v = with_links ps [p]) -> (forall p, P p -> p ∈ primaries) ->
  (forall k v k' v', m !! k = Some v -> m !! k' = Some v' -> v <> [] -> v' <> [] -> vec_inode v = vec_inode v' -> k = k') ->
  (forall p i, P p -> inode_of p = Some i -> i ∉ objs) -> (forall p, P p -> exists k, m !! k = Some (with_links ps [p])) ->
  let es := map with_inode (sorted_vectors key_le m) in
  to_number objs es /\ (forall e, e ∈ es -> single e.1 = true) /\ (forall x, data_of_kind true es x <-> P x) /\ inodes_from P es.*2.
Proof.
  intros Hm HP Hinj Hobjs Hall es.
  assert (forall v, v ∈ sorted_vectors key_le m -> exists p, P p /\ v = with_links ps [p]) as Hv by (intros v Hv; apply in_sorted_vectors in Hv as (k & Hk & Hne); by apply (Hm k)).
  assert (forall e, e ∈ es -> exists p, P p /\ e = with_inode (with_links ps [p])) as He.
  { intros e He. apply list_elem_of_fmap in He as (v & -> & Hvin). destruct (Hv v Hvin) as (p & Hp & ->). by exists p. }
  split; [|split; [|split]].
  - apply vectors_to_number; [|done]. intros k v Hk Hne. destruct (Hm k v Hk Hne) as (p & Hp & ->). destruct (one_vector p (HP p Hp)) as (i & Hi & W & _).
    rewrite (vec_inode_whole _ i W). split; [done|]. by apply (Hobjs p).
  - intros e Hin. destruct (He e Hin) as (p & Hp & ->). by destruct (one_vector p (HP p Hp)) as (i & _ & _ & Hsg & _).
  - intros x. split.
    + intros (e & Hin & _ & Hx). destruct (He e Hin) as (p & Hp & ->). destruct (one_vector p (HP p Hp)) as (i & _ & _ & _ & Ho). apply Ho in Hx as ->. done.
    + intros Hp. destruct (Hall x Hp) as [k Hk]. destruct (one_vector x (HP x Hp)) as (i & _ & W & Hsg & Ho). exists (with_inode (with_links ps [x])). split; [|split; [done|by apply Ho]].
      apply list_elem_of_fmap_2, in_sorted_vectors. exists k. split; [done|]. by destruct W.
  - intros i Hi. apply list_elem_of_fmap in Hi as (e & -> & Hin). destruct (He e Hin) as (p & Hp & ->). destruct (one_vector p (HP p Hp)) as (i & Hi & W & _).
    exists p. split; [done|]. split; [by apply HP|]. cbn [with_inode snd]. by rewrite (vec_inode_whole _ i W).
Qed.
End one_table.

Lemma size_entries : let es := map with_inode (sorted_vectors pair_le (unique_size_ s')) in
  to_number [] es /\ (forall e, e ∈ es -> single e.1 = true) /\ (forall x, data_of_kind true es x <-> lone x) /\ inodes_from lone es.*2.
Proof.
  apply (single_table pair_le _ lone).
  - intros k v Hk Hne. destruct (size_table k v Hk Hne) as (p & Hp & _ & E). by exists p.
  - by intros p [? _].
  - intros k v k' v' H1 H2 N1 N2 E. destruct (size_table k v H1 N1) as (p & [Hp Hn] & <- & ->), (size_table k' v' H2 N2) as (q & [Hq Hn'] & <- & ->).
    destruct (one_vector p Hp) as (i & Hi & W & _), (one_vector q Hq) as (j & Hj & W' & _). rewrite (vec_inode_whole _ i W), (vec_inode_whole _ j W') in E. subst j.
    by destruct (one_inode p q i Hi Hj) as [->|[? _]].
  - intros p i _ _. apply not_elem_of_nil.
  - intros p [Hp Hn]. exists (key_of p). rewrite (ls_size _ _ L), (ji_unique _ _ _ _ _ _ _ (si_jobs _ _ _ _ _ _ _ _ _ Hs)), (not_comm_class p Hp Hn). done.
Qed.

Lemma id_entries objs : inodes_from lone objs -> let es := map with_inode (sorted_vectors pair_le (by_inode_id_ s')) in
  to_number objs es /\ (forall e, e ∈ es -> single e.1 = true) /\ (forall x, data_of_kind true es x <-> unreadable x) /\ inodes_from unreadable es.*2.
Proof.
  intros Hobjs. apply (single_table pair_le _ unreadable).
  - intros k v Hk Hne. destruct (id_table k v Hk Hne) as (p & Hp & _ & E). by exists p.
  - intros p [Hp _]. by apply comm_primary.
  - intros k v k' v' H1 H2 N1 N2 E. destruct (id_table k v H1 N1) as (p & [Hp Hn] & <- & ->), (id_table k' v' H2 N2) as (q & [Hq Hn'] & <- & ->).
    destruct (one_vector p (comm_primary p Hp)) as (i & Hi & W & _), (one_vector q (comm_primary q Hq)) as (j & Hj & W' & _).
    rewrite (vec_inode_whole _ i W), (vec_inode_whole _ j W') in E. subst j. destruct (one_inode p q i Hi Hj) as [->|(_ & _ & c & ? & _)]; [done|congruence].
  - intros p i [Hp Hc] Hi Hin. destruct (Hobjs i Hin) as (q & [_ Hq] & _ & Hi'). destruct (one_inode p q i Hi Hi') as [->|(_ & ? & _)]; done.
  - intros p [Hp Hc]. exists (id_of p). destruct (by_inode_id_ s' !! id_of p) as [v|] eqn:E.
    + assert (p ∈ v) as Hin.
      { pose proof (proj2 (hi_by_id _ _ _ _ _ _ (si_hash _ _ _ _ _ _ _ _ _ Hs) (id_of p) p)) as H. rewrite (ls_id _ _ L) in E. rewrite E in H. by apply H. }
      destruct (id_table _ v E) as (q & Hq & _ & Ev); [by intros ->; apply elem_of_nil in Hin|]. rewrite Ev in *. f_equal. f_equal. f_equal.
      assert (forall r, r ∈ [q] -> r ∈ primaries) as Hv by (intros r ->%list_elem_of_singleton; apply comm_primary, Hq). apply in_with_links in Hin as [_ Ho]; [|done].
      apply list_elem_of_singleton in Ho. by destruct (proj1 (in_primaries p) (comm_primary p Hp)) as [_ <-].
    + exfalso. pose proof (proj2 (hi_by_id _ _ _ _ _ _ (si_hash _ _ _ _ _ _ _ _ _ Hs) (id_of p) p)) as H. rewrite (ls_id _ _ L) in E. rewrite E in H.
      assert (p ∈ (@nil nat)) as Hn by (by apply H). by apply elem_of_nil in Hn.
Qed.

Lemma hash_entries objs : inodes_from (fun p => lone p \/ unreadable p) objs -> let es := map with_inode (sorted_vectors bytes_le (by_hash_ s')) in
  to_number objs es /\ (forall x, data_of_kind true es x \/ data_of_kind false es x <-> readable x).
Proof.
  intros Hobjs es. split.
  - apply vectors_to_number.
    + intros k v Hk Hne. destruct (hash_table k v Hk) as (v0 & p & c & i & -> & Hp & Hc & _ & Hi & W & Hin & Hprim). rewrite (vec_inode_whole _ i W). split; [done|].
      intros Ho. apply Hin in Hp as [Hp _]. destruct (Hobjs i Ho) as (q & Hq & _ & Hi'). destruct (one_inode p q i Hi Hi') as [->|(_ & Hqc & c' & _ & ?)].
      * destruct Hq as [[_ ?]|[_ ?]]; [done|congruence].
      * destruct Hq as [[_ ?]|[_ ?]]; [done|congruence].
    + intros k v k' v' H1 H2 _ _ E. destruct (hash_table k v H1) as (v0 & p & c & i & -> & Hp & Hc & <- & Hi & W & Hin & _), (hash_table k' v' H2) as (w0 & q & c' & j & -> & Hq & Hc' & <- & Hj & W' & Hin' & _).
      rewrite (vec_inode_whole _ i W), (vec_inode_whole _ j W') in E. subst j. destruct (one_inode p q i Hi Hj) as [->|(_ & _ & c2 & ? & ?)]; congruence.
  - intros x. assert (data_of_kind true es x \/ data_of_kind false es x <-> exists e, e ∈ es /\ x ∈ map owner e.1) as ->.
    { unfold data_of_kind. split; [intros [(e & ? & _ & ?)|(e & ? & _ & ?)]; by exists e|]. intros (e & ? & ?). destruct (single e.1) eqn:Es; [left|right]; by exists e. }
    split.
    + intros (e & He & Hx). apply list_elem_of_fmap in He as (v & -> & Hv). apply in_sorted_vectors in Hv as (k & Hk & _).
      destruct (hash_table k v Hk) as (v0 & p & c & i & -> & Hp & Hc & _ & Hi & W & Hin & Hprim). cbn [with_inode fst] in Hx. rewrite (owners_with_links v0 x Hprim) in Hx.
      apply Hin in Hx as [? ?]. split; [done|]. by exists c.
    + intros [Hx [c Hc]]. destruct (by_hash_ s' !! algo c) as [v|] eqn:E.
      * destruct (hash_table _ v E) as (v0 & p & c' & i & -> & Hp & Hc' & Ealgo & Hi & W & Hin & Hprim). exists (with_inode (with_links ps v0)).
        split; [apply list_elem_of_fmap_2, in_sorted_vectors; exists (algo c); split; [done|by destruct W]|]. cbn [with_inode fst]. apply owners_with_links; [done|].
        apply Hin. split; [done|]. rewrite Hc. f_equal. by apply (hash_injective info segment_at_0 open_file xxh3_64 algo x p).
      * exfalso. rewrite (ls_hash _ _ L) in E. pose proof (proj2 (hi_hash _ _ _ _ _ _ (si_hash _ _ _ _ _ _ _ _ _ Hs) (algo c) x)) as H.
        destruct (by_hash_ s !! algo c) as [w|]; [done|]. assert (x ∈ (@nil nat)) as Hn by (apply H; split; [done|by exists c]). by apply elem_of_nil in Hn.
Qed.

(** The check that a vector of [unique_size_] has the files of one data. *)
Lemma check_unique nums objs sizes f es : numbered_state nums objs sizes f -> to_number objs es -> (forall e, e ∈ es -> single e.1 = true) ->
  foldR (fun v f => let? front := first_file v in let? count := hardlink_count front (objects_ (fi_scan f)) in
    dwarfs_check (zlen v =? count) "internal error" ;;? Ok f) es.*1 f = Ok f.
Proof.
  intros N. induction es as [|[v i] es IH]; intros T Hsg; [done|]. destruct (to_number_cons _ _ _ T) as (Hw & _ & T1 & _). cbn [fst snd] in *.
  pose proof (Hsg (v, i) ltac:(by left)) as Hv. cbn [fst] in Hv. destruct v as [|q v]; [done|]. destruct (wh_inode _ _ Hw q) as [Hq _]; [by left|].
  cbn [fmap list_fmap foldR first_file rbind fst]. unfold hardlink_count. destruct (dn_get nums f q (nst_data _ _ _ _ N) Hq) as (d & Eg & _ & Ec & _). rewrite Eg. cbn [rbind].
  rewrite Ec. unfold dwarfs_check at 1. destruct (Z.eqb_spec (zlen (q :: v)) (zlen (files_with (owner q)))) as [_|Hne].
  - cbn [rbind]. apply IH; [done|]. intros e He. apply Hsg. by right.
  - exfalso. apply Hne. unfold zlen. by rewrite (whole_single q v i Hw Hv).
Qed.

Lemma finalize_unique_ok nums objs sizes f es : numbered_state nums objs sizes f -> to_number objs es -> (forall e, e ∈ es -> single e.1 = true) ->
  0 <= fi_num_unique f <= zlen objs -> exists f' new, finalize_files info true es.*1 f = Ok f' /\
    numbered_state (nums ++ new) (objs ++ es.*2) (sizes ++ replicate (length es) 1%nat) f' /\ (forall x, x ∈ new <-> data_of_kind true es x) /\
    fi_num_unique f' = fi_num_unique f + zlen es.
Proof.
  intros N T Hsg Hu. unfold finalize_files. rewrite (check_unique nums objs sizes f es N T Hsg). cbn [rbind].
  destruct (unique_stage es nums objs sizes f N T Hu) as (f' & new & E & N' & Hin & Eu). rewrite E. cbn [rbind]. destruct (all_single es Hsg) as (Eo & _ & _).
  rewrite Eo in *. rewrite length_fmap in N'. unfold zlen in *. rewrite length_fmap in Eu. by exists f', new.
Qed.

Lemma several_to_number objs es : to_number objs es -> to_number (objs ++ ones es) (filter (fun e => single e.1 = false) es).
Proof.
  intros [T1 T2 T3]. split.
  - apply Forall_forall. intros e He. apply list_elem_of_filter in He as [_ He]. rewrite Forall_forall in T1. by apply T1.
  - clear T1 T3. induction es as [|e es IH]; [done|]. cbn in T2. apply NoDup_cons in T2 as [Hn T2]. rewrite filter_cons. destruct (decide _); [|by apply IH].
    cbn. apply NoDup_cons. split; [|by apply IH]. intros H. apply Hn. apply list_elem_of_fmap in H as (x & -> & Hx). apply list_elem_of_filter in Hx as [_ Hx]. by apply list_elem_of_fmap_2.
  - intros e He [H|H]%elem_of_app; apply list_elem_of_filter in He as [Es He]; [by apply (T3 e)|].
    apply list_elem_of_fmap in H as (e' & E & He'). apply list_elem_of_filter in He' as [Es' He'].
    apply list_elem_of_lookup in He as [k Hk]. apply list_elem_of_lookup in He' as [k' Hk'].
    assert (k = k') as <-; [|congruence]. eapply (NoDup_lookup es.*2); [done|by rewrite list_lookup_fmap, Hk|by rewrite list_lookup_fmap, Hk'; cbn; rewrite E].
Qed.

Lemma finalize_both_ok nums objs sizes f es : numbered_state nums objs sizes f -> to_number objs es -> 0 <= fi_num_unique f <= zlen objs ->
  exists f' new groups, finalize_files info false es.*1 f = Ok f' /\
    numbered_state (nums ++ new) ((objs ++ ones es) ++ several es) (sizes ++ replicate (length (ones es)) 1%nat ++ groups) f' /\
    Forall (fun n => (2 <= n)%nat) groups /\ length groups = length (several es) /\
    (forall x, x ∈ new <-> data_of_kind true es x \/ data_of_kind false es x) /\ fi_num_unique f' = fi_num_unique f + zlen (ones es).
Proof.
  intros N T Hu. unfold finalize_files. cbn [rbind]. destruct (unique_stage es nums objs sizes f N T Hu) as (f1 & new1 & E1 & N1 & Hin1 & Eu1). rewrite E1. cbn [rbind].
  destruct (shared_stage es (nums ++ new1) (objs ++ ones es) _ f1 N1 (several_to_number objs es T)) as (f2 & new2 & groups & out & E2 & N2 & Hg & Hlen & Hin2 & Eu2).
  rewrite E2. cbn [rbind]. exists f2, (new1 ++ new2), groups. split; [done|]. rewrite <- !app_assoc in *. split_and!; try done.
  - intros x. by rewrite elem_of_app, Hin1, Hin2.
  - by rewrite Eu2, Eu1.
Qed.

Lemma primary_kinds p : p ∈ primaries <-> (lone p \/ unreadable p) \/ readable p.
Proof.
  unfold lone, unreadable, readable. split; [|intros [[[? _]|[? _]]|[? _]]; [done|by apply comm_primary..]].
  intros Hp. destruct (decide (p ∈ comm)); [|by left; left]. destruct (content p) eqn:E; [right; by eexists|by left; right].
Qed.

Lemma finalize_stages : exists f nums objs n groups,
  (let? f := finalize_files info true (sorted_vectors pair_le (unique_size_ s')) (FinalState s' first 0 0 ∅ ∅) in
   let? f := finalize_files info false (sorted_vectors pair_le (by_inode_id_ s')) f in
   finalize_files info false (sorted_vectors bytes_le (by_hash_ s')) f) = Ok f /\
  numbered_state nums objs (replicate n 1%nat ++ groups) f /\ Forall (fun n => (2 <= n)%nat) groups /\ fi_num_unique f = Z.of_nat n /\
  (forall p, p ∈ nums <-> p ∈ primaries).
Proof.
  pose proof start_state as N0. destruct size_entries as (T1 & S1 & K1 & I1). set (es1 := map with_inode (sorted_vectors pair_le (unique_size_ s'))) in *.
  destruct (finalize_unique_ok _ _ _ _ es1 N0 T1 S1) as (f1 & new1 & E1 & N1 & H1 & U1); [cbn; unfold zlen; cbn; lia|].
  cbn [app] in N1. destruct (id_entries es1.*2 I1) as (T2 & S2 & K2 & I2). set (es2 := map with_inode (sorted_vectors pair_le (by_inode_id_ s'))) in *.
  assert (fi_num_unique f1 = zlen es1) as U1' by (rewrite U1; cbn; lia).
  destruct (finalize_both_ok _ _ _ f1 es2 N1 T2) as (f2 & new2 & groups2 & E2 & N2 & _ & L2 & H2 & U2); [rewrite U1'; unfold zlen; rewrite length_fmap; lia|].
  destruct (all_single es2 S2) as (O2 & V2 & F2). rewrite O2, V2 in *. destruct groups2; [|done]. rewrite !app_nil_r in N2.
  assert (inodes_from (fun p => lone p \/ unreadable p) (es1.*2 ++ es2.*2)) as I12.
  { intros i [Hi|Hi]%elem_of_app; [destruct (I1 i Hi) as (p & ? & ?)|destruct (I2 i Hi) as (p & ? & ?)]; exists p; tauto. }
  destruct (hash_entries _ I12) as (T3 & K3). set (es3 := map with_inode (sorted_vectors bytes_le (by_hash_ s'))) in *.
  assert (fi_num_unique f2 = zlen (es1.*2 ++ es2.*2)) as U2' by (rewrite U2, U1'; unfold zlen; rewrite length_app, !length_fmap; lia).
  destruct (finalize_both_ok _ _ _ f2 es3 N2 T3) as (f3 & new3 & groups & E3 & N3 & G3 & L3 & H3 & U3); [rewrite U2'; unfold zlen; lia|].
  unfold es1 in E1. rewrite with_inode_fst in E1. rewrite E1. cbn [rbind]. unfold es2 in E2. rewrite with_inode_fst in E2. rewrite E2. cbn [rbind].
  unfold es3 in E3. rewrite with_inode_fst in E3. rewrite E3.
  eexists f3, _, _, (length es1 + (length es2 + length (ones es3)))%nat, groups. split; [done|]. split; [|split; [done|split]].
  - rewrite !replicate_add, <- !app_assoc. rewrite <- !app_assoc in N3. rewrite length_fmap in N3. exact N3.
  - rewrite U3, U2'. unfold zlen. rewrite length_app, !length_fmap. lia.
  - intros p. rewrite primary_kinds, !elem_of_app, H1, H2, H3, K1, K2, K3. pose proof (F2 p). tauto.
Qed.

(** ** What the builder of the metadata requires *)

Lemma shared_from_shift k groups j : shared_from k groups !! j = (fun g => k + g) <$> shared_from 0 groups !! j.
Proof.
  assert (forall k d, shared_from (k + d) groups = map (fun g => d + g) (shared_from k groups)) as H.
  { clear k. induction groups as [|n gs IH]; intros k d; [done|]. rewrite !shared_from_cons, map_app, <- IH. f_equal; [|f_equal; lia].
    clear. induction n as [|n IHn]; [done|]. cbn. rewrite <- IHn. f_equal. lia. }
  rewrite <- (Z.add_0_l k) at 1. rewrite H. apply list_lookup_fmap.
Qed.

Lemma shared_list_ones n groups k : shared_list (replicate n 1%nat ++ groups) !! k = if (k <? n)%nat then Some (Z.of_nat k) else (fun g => Z.of_nat n + g) <$> shared_list groups !! (k - n)%nat.
Proof.
  rewrite !shared_list_from. assert (forall d, shared_from d (replicate n 1%nat ++ groups) !! k = if (k <? n)%nat then Some (d + Z.of_nat k) else shared_from (d + Z.of_nat n) groups !! (k - n)%nat) as H.
  { revert k. induction n as [|n IH]; intros k d; [cbn [replicate app]; rewrite Nat.sub_0_r; by rewrite Z.add_0_r|]. cbn [replicate app]. rewrite shared_from_cons.
    destruct k as [|k]; [cbn; f_equal; lia|]. cbn [replicate app]. change ((d :: shared_from (d + 1) (replicate n 1%nat ++ groups)) !! S k) with (shared_from (d + 1) (replicate n 1%nat ++ groups) !! k).
    rewrite IH. change (S k <? S n)%nat with (k <? n)%nat. destruct (k <? n)%nat; [f_equal; lia|]. cbn [Nat.sub]. f_equal. f_equal. lia. }
  rewrite H. destruct (k <? n)%nat; [done|]. rewrite shared_from_shift. by rewrite Z.add_0_l.
Qed.

Lemma shared_list_ones_length n groups : zlen (shared_list (replicate n 1%nat ++ groups)) = Z.of_nat n + zlen (shared_list groups).
Proof.
  rewrite (shared_list_from groups), shared_list_from. assert (forall k d, zlen (shared_from k groups) = zlen (shared_from d groups)) as Hd.
  { induction groups as [|m gs IH]; intros k d; [done|]. rewrite !shared_from_cons, !zlen_app. f_equal; [unfold zlen; by rewrite !length_replicate|apply IH]. }
  generalize 0 at 1. induction n as [|n IH]; intros k; [cbn [replicate app]; rewrite (Hd k 0); lia|]. cbn [replicate app]. rewrite shared_from_cons, zlen_app, IH.
  unfold zlen. cbn [length replicate]. lia.
Qed.

(** The tree of which the files were scanned. *)
Record scanned_tree (t : entry) : Prop := {
  st_files : forall p, p ∈ files <-> exists e data, File e data ∈ preorder t /\ e_id e = p;
  st_data : forall e data, File e data ∈ preorder t -> data_of (objects_ s) !! e_id e = Some data
}.

Lemma tree_data t e data : scanned_tree t -> File e data ∈ preorder t -> e_id e ∈ files /\ owner (e_id e) = data /\ data ∈ primaries.
Proof.
  intros [T1 T2] He. assert (e_id e ∈ files) as Hf by (apply T1; by exists e, data). pose proof (T2 e data He) as E.
  rewrite (di_of _ _ _ _ _ _ _ _ _ (si_data _ _ _ _ _ _ _ _ _ Hs)), decide_True in E by done. injection E as <-. split; [done|]. split; [done|]. by apply owner_primary.
Qed.

Lemma numbers_are t f nums objs n groups : scanned_tree t -> numbered_state nums objs (replicate n 1%nat ++ groups) f -> Forall (fun n => (2 <= n)%nat) groups ->
  fi_num_unique f = Z.of_nat n -> (forall p, p ∈ nums <-> p ∈ primaries) -> files_numbered t first (fi_inode_num f) (numbers_of f).
Proof.
  intros T [D N] Hg Hu Hall.
  assert (forall p num, file_inode_nums (numbers_of f) !! p = Some num <-> exists k, nums !! k = Some p /\ num = first + Z.of_nat k) as Hnums.
  { intros p num. cbn. rewrite lookup_omap. split.
    - intros H. destruct (datas (objects_ (fi_scan f)) !! p) as [d|] eqn:Ed; [|done]. cbn in H. pose proof (dn_datas_in _ _ D p d Ed) as Hp.
      destruct (dn_datas _ _ D p Hp) as (d' & Ed' & _ & Hin & Hout). rewrite Ed in Ed'. injection Ed' as <-. apply Hall in Hp as Hn. apply list_elem_of_lookup in Hn as [k Hk].
      exists k. split; [done|]. rewrite (Hin k Hk) in H. by injection H as <-.
    - intros (k & Hk & ->). assert (p ∈ primaries) as Hp by (apply Hall; by eapply list_elem_of_lookup_2). destruct (dn_datas _ _ D p Hp) as (d & -> & _ & Hin & _).
      cbn. by apply Hin. }
  pose proof (zlen_nonneg nums) as Hz. pose proof (dn_next _ _ D) as Hnext. split.
  - intros e data He. destruct (tree_data t e data T He) as (_ & _ & Hp). apply Hall, list_elem_of_lookup in Hp as [k Hk]. exists (first + Z.of_nat k).
    split; [apply Hnums; by exists k|]. apply lookup_lt_Some in Hk. unfold zlen in *. lia.
  - intros num Hr. destruct (lookup_lt_is_Some_2 nums (Z.to_nat (num - first))) as [p Hp]; [unfold zlen in *; lia|].
    assert (p ∈ primaries) as Hpp by (apply Hall; by eapply list_elem_of_lookup_2). destruct (proj1 (in_primaries p) Hpp) as [Hf Ho].
    destruct (proj1 (st_files _ T p) Hf) as (e & data & He & Eid). exists e, data. split; [done|]. destruct (tree_data t e data T He) as (_ & Ed & _).
    rewrite Eid, Ho in Ed. subst data. apply Hnums. exists (Z.to_nat (num - first)). split; [done|]. lia.
  - intros data data' num H1 H2. apply Hnums in H1 as (k & Hk & ->), H2 as (k' & Hk' & E). assert (k = k') as <- by lia. congruence.
  - lia.
  - cbn. lia.
  - exists groups. split; [done|]. cbn [num_unique numbers_of]. rewrite Hu. pose proof (in_sizes _ _ _ _ N) as Hsz. rewrite shared_list_ones_length in Hsz. split; [lia|].
    intros e data num He H. apply Hnums in H as (k & Hk & ->). destruct (in_groups _ _ _ _ N k data Hk) as (g & i & Eg & Ei & Eo).
    destruct (tree_data t e data T He) as (_ & _ & Hp). destruct (dn_datas _ _ D data Hp) as (d & Ed & _). exists (Z.of_nat g). split.
    + cbn. rewrite map_lookup_imap, Ed. cbn. destruct (proj1 (in_primaries data) Hp) as [Hf Ho]. rewrite (dn_inode _ _ D), (final_inode data Hf), Ho, Ei. cbn. by apply (in_nums _ _ _ _ N).
    + rewrite shared_list_ones in Eg. replace (first + Z.of_nat k - first) with (Z.of_nat k) by lia. destruct (Nat.ltb_spec k n) as [Hlt|Hge].
      * injection Eg as Eg. destruct (Z.ltb_spec (Z.of_nat k) (Z.of_nat n)); lia.
      * destruct (Z.ltb_spec (Z.of_nat k) (Z.of_nat n)); [lia|]. replace (Z.to_nat (Z.of_nat k - Z.of_nat n)) with (k - n)%nat by lia.
        destruct (shared_list groups !! (k - n)%nat) as [x|]; [|done]. cbn in Eg. injection Eg as Eg. f_equal. lia.
Qed.

(** Data have one [unique_file_id] exactly when they have one inode. *)
Lemma unique_ids f nums objs sizes p q : numbered_state nums objs sizes f -> (forall r, r ∈ nums <-> r ∈ primaries) -> p ∈ primaries -> q ∈ primaries ->
  unique_file_ids (numbers_of f) !! p = unique_file_ids (numbers_of f) !! q <-> inode_of p = inode_of q.
Proof.
  intros [D N] Hall Hp Hq. assert (forall r, r ∈ primaries -> exists g i, unique_file_ids (numbers_of f) !! r = Some (Z.of_nat g) /\ inode_of r = Some i /\ objs !! g = Some i) as H.
  { intros r Hr. apply Hall in Hr as Hn. apply list_elem_of_lookup in Hn as [k Hk]. destruct (in_groups _ _ _ _ N k r Hk) as (g & i & _ & Ei & Eo). exists g, i. split; [|done].
    destruct (dn_datas _ _ D r Hr) as (d & Ed & _). destruct (proj1 (in_primaries r) Hr) as [Hf Ho]. cbn. rewrite map_lookup_imap, Ed. cbn.
    rewrite (dn_inode _ _ D), (final_inode r Hf), Ho, Ei. cbn. by apply (in_nums _ _ _ _ N). }
  destruct (H p Hp) as (g & i & -> & -> & Hg), (H q Hq) as (g' & j & -> & -> & Hg'). split; [intros [= E]|intros [= <-]].
  - assert (g = g') as <- by lia. congruence.
  - f_equal. f_equal. by apply (NoDup_lookup objs g g' i (in_NoDup _ _ _ _ N)).
Qed.

(** The inodes after [finalize]: each has a number and all its files. *)
Record inodes_final (f : final_state) : Prop := {
  if_count : inode_count (objects_ (fi_scan f)) = inode_count (objects_ s);
  if_nums : exists objs, objs ≡ₚ seq 0 (inode_count (objects_ s)) /\ forall k i, objs !! k = Some i -> fi_nums f !! i = Some (Z.of_nat k);
  if_files : forall i, (i < inode_count (objects_ s))%nat -> exists v, fi_files f !! i = Some v /\ v <> [] /\ NoDup v /\ forall q, q ∈ v <-> q ∈ files /\ inode_of (owner q) = Some i;
  if_data : data_of (objects_ (fi_scan f)) = data_of (objects_ s);
  if_invalid : forall p d, datas (objects_ (fi_scan f)) !! p = Some d -> exists d0, datas (objects_ s) !! p = Some d0 /\ da_invalid d = da_invalid d0;
  if_ids : forall p i, p ∈ primaries -> inode_of p = Some i -> unique_file_ids (numbers_of f) !! p = fi_nums f !! i
}.

Lemma numbered_final f nums objs sizes : numbered_state nums objs sizes f -> (forall p, p ∈ nums <-> p ∈ primaries) -> inodes_final f.
Proof.
  intros [D N] Hall. pose proof (si_inodes _ _ _ _ _ _ _ _ _ Hs) as I.
  assert (forall i, i ∈ objs <-> (i < inode_count (objects_ s))%nat) as Hobjs.
  { intros i. split.
    - intros Hi. destruct (in_files _ _ _ _ N i Hi) as (v & _ & [W1 _ W3 _] & _). destruct v as [|q v]; [done|]. destruct (W3 q) as [_ E]; [by left|]. by eapply (ii_lt _ _ _ _ _ _ _ I).
    - intros Hi. destruct (ii_onto _ _ _ _ _ _ _ I i Hi) as [p Hp]. destruct (proj1 (ii_some _ _ _ _ _ _ _ I p)) as [Hpp _]; [by eexists|]. apply Hall, list_elem_of_lookup in Hpp as [k Hk].
      destruct (in_groups _ _ _ _ N k p Hk) as (g & j & _ & Ej & Ho). rewrite Hp in Ej. injection Ej as <-. by eapply list_elem_of_lookup_2. }
  split.
  - by rewrite (dn_count _ _ D), (ls_count _ _ L).
  - exists objs. split; [|apply N]. apply NoDup_Permutation; [apply N|apply NoDup_seq|]. intros i. rewrite Hobjs, elem_of_seq. lia.
  - intros i Hi. destruct (in_files _ _ _ _ N i (proj2 (Hobjs i) Hi)) as (v & Hv & [W1 W2 W3 W4] & Hin). exists v. do 3 (split; [done|]). intros q. split; [apply W3|]. intros [Hq E].
    assert (owner q ∈ map owner v) as (r & Er & Hr)%list_elem_of_fmap by (apply Hin; [by apply Hall, owner_primary|done]). by apply (W4 r q).
  - apply D.
  - apply D.
  - intros p i Hp Hi. destruct (dn_datas _ _ D p Hp) as (d & Ed & _). destruct (proj1 (in_primaries p) Hp) as [Hf Ho]. cbn. rewrite map_lookup_imap, Ed. cbn.
    by rewrite (dn_inode _ _ D), (final_inode p Hf), Ho, Hi.
Qed.
End numbering.

Section finalized.
Context (info : nat -> file_status) (segment_at_0 open_file : nat -> option (list Z)) (xxh3_64 : list Z -> Z) (algo : list Z -> list Z).
Context (iterate : gmap (Z * Z) (list nat) -> list ((Z * Z) * list nat)).
Context {Hhashes : Hashes info segment_at_0 open_file xxh3_64 algo}.
Context (files : list nat) (comm : gset nat) (s : scan_state).
Context (Hs : scan_inv info segment_at_0 open_file xxh3_64 algo files comm [] s).
Context {Hnum : Numberable info segment_at_0 open_file algo iterate files}.

Lemma finalize_scan_ok t first : scanned_tree files s t -> 0 <= first -> first + zlen files < 2 ^ 32 ->
  exists dev fn, finalize info true iterate s first = Ok (dev, fn) /\ files_numbered t first dev fn /\
    forall p q, p ∈ primaries info files -> q ∈ primaries info files ->
      unique_file_ids fn !! p = unique_file_ids fn !! q <-> file_inode (objects_ s) !! p = file_inode (objects_ s) !! q.
Proof.
  intros T H0 Hlt. destruct (finalize_hardlinks_ok info segment_at_0 open_file xxh3_64 algo iterate files comm s Hs) as (ps & s' & E & L & Hnd & Hps).
  destruct (finalize_stages info segment_at_0 open_file xxh3_64 algo iterate files comm s Hs ps s' L Hps first H0 Hlt Hnd) as (f & nums & objs & n & groups & Ef & N & Hg & Hu & Hall).
  unfold finalize, finalize_scan. rewrite E. cbn [rbind]. rewrite Ef. cbn [rbind]. eexists _, _. split; [done|]. split.
  - by eapply numbers_are.
  - intros p q Hp Hq. by eapply unique_ids.
Qed.

Lemma finalize_inodes_final first : 0 <= first -> first + zlen files < 2 ^ 32 ->
  exists f, finalize_scan info true iterate s first = Ok f /\ inodes_final info files s f.
Proof.
  intros H0 Hlt. destruct (finalize_hardlinks_ok info segment_at_0 open_file xxh3_64 algo iterate files comm s Hs) as (ps & s' & E & L & Hnd & Hps).
  destruct (finalize_stages info segment_at_0 open_file xxh3_64 algo iterate files comm s Hs ps s' L Hps first H0 Hlt Hnd) as (f & nums & objs & n & groups & Ef & N & Hg & Hu & Hall).
  unfold finalize_scan. rewrite E. cbn [rbind]. rewrite Ef. exists f. split; [done|]. by eapply numbered_final.
Qed.
End finalized.
