(* ===== verification/ScannedTree.v ===== *)
(** * ScannedTree: the file scanner numbers the files of a tree

    Put together: whatever the schedule, the scan of the files of a tree and
    [finalize] give what the builder of the metadata requires of the file scanner
    ([FinalizesFiles]), so that the theorems on trees apply to trees that are
    scanned; and files are stored once for each contents. *)

From S2P Require Import Prelude Metadata MetadataReader EntryTree MetadataBuilder EntryLists TreeTables FileScanner FileDedup ScannerRuns FileNumbers.
Local Open Scope Z_scope.

#[local] Abbreviation checked := (result metadata_error).

Section scanned.
Context (info : nat -> file_status) (segment_at_0 open_file : nat -> option (list Z)) (xxh3_64 : list Z -> Z) (algo : list Z -> list Z).
Context (num_workers max_queue_len : nat) (iterate : gmap (Z * Z) (list nat) -> list ((Z * Z) * list nat)).
Context {Hhashes : Hashes info segment_at_0 open_file xxh3_64 algo}.
Context (files : list nat) (y : system) (t : entry) {Hnum : Numberable info segment_at_0 open_file algo iterate files}.
Context (Hnd : NoDup files) (Hlen : zlen files < 2 ^ 32)
  (Hreach : reachable info segment_at_0 open_file xxh3_64 (Some algo) num_workers max_queue_len files y) (Hfin : finished y = true)
  (Htree : scanned_tree files (scanned y) t).

Lemma scanned_files_count : zlen files <= zlen (of_kind INO_REG (preorder t)).
Proof.
  assert (length files <= length (map eid (of_kind INO_REG (preorder t))))%nat as H.
  { apply submseteq_length, NoDup_submseteq; [done|]. intros p Hp. apply (st_files _ _ _ Htree) in Hp as (e & data & He & <-).
    apply list_elem_of_fmap. exists (File e data). split; [done|]. by apply of_kind_elem. }
  rewrite length_map in H. unfold zlen. lia.
Qed.

Lemma scan_finalizes : FinalizesFiles t (finalize info true iterate (scanned y)) /\
  forall first dev fn e data e' data', 0 <= first -> first + zlen files < 2 ^ 32 -> finalize info true iterate (scanned y) first = Ok (dev, fn) ->
    File e data ∈ preorder t -> File e' data' ∈ preorder t ->
    (unique_file_ids fn !! data = unique_file_ids fn !! data' <->
     data = data' \/ exists c, content info segment_at_0 open_file data = Some c /\ content info segment_at_0 open_file data' = Some c).
Proof.
  destruct (finished_inv info segment_at_0 open_file xxh3_64 algo num_workers max_queue_len files y Hnd Hlen Hreach Hfin) as [comm Hs].
  pose proof (finalize_scan_ok info segment_at_0 open_file xxh3_64 algo iterate files comm (scanned y) Hs t) as H. split.
  - constructor. intros first H0 Hlt. pose proof scanned_files_count as Hc. destruct (H first Htree H0) as (dev & fn & E & Hn & _); [lia|]. by exists dev, fn.
  - intros first dev fn e data e' data' H0 Hlt E He He'. destruct (H first Htree H0 Hlt) as (dev' & fn' & E' & _ & Hid). rewrite E in E'. injection E' as <- <-.
    destruct (tree_data info segment_at_0 open_file xxh3_64 algo files comm (scanned y) Hs t e data Htree He) as (_ & _ & Hp).
    destruct (tree_data info segment_at_0 open_file xxh3_64 algo files comm (scanned y) Hs t e' data' Htree He') as (_ & _ & Hq).
    rewrite (Hid data data' Hp Hq). destruct (finished_inodes info segment_at_0 open_file xxh3_64 algo files comm (scanned y) Hs data data' Hp Hq) as (i & j & -> & -> & <-).
    split; [by intros [= ->]|by intros ->].
Qed.
End scanned.

(** The files of a tree, scanned by any schedule of the threads, get the
    numbers that the builder of the metadata requires: [finalize] succeeds,
    numbers every file from the first number on without gaps, hard links alike,
    first the files that share their inode with no other and then the groups of
    those that do; and two files have the same [unique_file_id], by which their
    chunks are found, exactly when they are hard links or were read with the same
    contents. *)
Theorem scanned_files_numbered info segment_at_0 open_file xxh3_64 algo num_workers max_queue_len iterate files y t :
  Hashes info segment_at_0 open_file xxh3_64 algo -> Numberable info segment_at_0 open_file algo iterate files -> NoDup files -> zlen files < 2 ^ 32 ->
  reachable info segment_at_0 open_file xxh3_64 (Some algo) num_workers max_queue_len files y -> finished y = true -> scanned_tree files (scanned y) t ->
  FinalizesFiles t (finalize info true iterate (scanned y)) /\
  forall first dev fn e data e' data', 0 <= first -> first + zlen files < 2 ^ 32 -> finalize info true iterate (scanned y) first = Ok (dev, fn) ->
    File e data ∈ preorder t -> File e' data' ∈ preorder t ->
    (unique_file_ids fn !! data = unique_file_ids fn !! data' <->
     data = data' \/ exists c, content info segment_at_0 open_file data = Some c /\ content info segment_at_0 open_file data' = Some c).
Proof. intros. by apply (scan_finalizes info segment_at_0 open_file xxh3_64 algo num_workers max_queue_len). Qed.

(** ** An example *)

(** The files of the example of [ScannerRuns] in a directory. *)
Definition sample_file (id data : nat) : entry := File (EntryHead id [Z.of_nat id] (Some 100%nat) (EntryStat 0x81A4 0 0 0)) data.

Definition sample_tree : entry :=
  Dir (EntryHead 100 [] None (EntryStat 0x41ED 0 0 0))
    [sample_file 0 0; sample_file 1 1; sample_file 2 2; sample_file 3 3; sample_file 4 4; sample_file 5 4; sample_file 6 6].

Lemma sample_entry e data : File e data ∈ preorder sample_tree -> (e_id e, data) ∈ [(0, 0); (1, 1); (2, 2); (3, 3); (4, 4); (5, 4); (6, 6)]%nat.
Proof.
  intros H. assert (Forall (fun n => match n with File e data => (e_id e, data) ∈ [(0, 0); (1, 1); (2, 2); (3, 3); (4, 4); (5, 4); (6, 6)]%nat | _ => True end) (preorder sample_tree)) as Hall.
  { repeat (apply List.Forall_cons; [first [exact I|apply (bool_decide_unpack _); vm_compute; exact I]|]). constructor. }
  rewrite Forall_forall in Hall. exact (Hall _ H).
Qed.

Lemma sample_scanned : scanned_tree Sample.files (scanned Sample.ended) sample_tree.
Proof.
  split.
  - intros p. split.
    + intros Hp. assert (forallb (fun p => existsb (fun n => match n with File e _ => (e_id e =? p)%nat | _ => false end) (preorder sample_tree)) Sample.files = true) as Hall
        by (vm_compute; reflexivity).
      rewrite forallb_forall in Hall. specialize (Hall p (proj1 (list_elem_of_In _ _) Hp)). apply existsb_exists in Hall as ([e data| | |] & Hn & E); [|done..].
      exists e, data. split; [by apply list_elem_of_In|by apply Nat.eqb_eq].
    + intros (e & data & He & <-). apply sample_entry in He. assert (Forall (fun x : nat * nat => x.1 ∈ Sample.files) [(0, 0); (1, 1); (2, 2); (3, 3); (4, 4); (5, 4); (6, 6)]%nat) as Hall
        by (apply (bool_decide_unpack _); vm_compute; exact I). rewrite Forall_forall in Hall. exact (Hall _ He).
  - intros e data He. apply sample_entry in He.
    assert (Forall (fun x : nat * nat => data_of (objects_ (scanned Sample.ended)) !! x.1 = Some x.2) [(0, 0); (1, 1); (2, 2); (3, 3); (4, 4); (5, 4); (6, 6)]%nat) as Hall
      by (apply (bool_decide_unpack _); vm_compute; exact I). rewrite Forall_forall in Hall. exact (Hall _ He).
Qed.

#[export] Instance sample_numberable : Numberable Sample.info Sample.read_sample Sample.read_sample Sample.digest map_to_list Sample.files.
Proof.
  split; [done|done| |].
  - intros p Hp Hl. assert (Forall (fun p => 1 < f_nlink (Sample.info p) -> content Sample.info Sample.read_sample Sample.read_sample p <> None) (primaries Sample.info Sample.files)) as Hall
      by (apply (bool_decide_unpack _); vm_compute; exact I). rewrite Forall_forall in Hall. specialize (Hall p Hp).
    destruct (content _ _ _ p); [by eexists|by destruct (Hall Hl)].
  - intros p q Hp Hq _ _ E. assert (Forall (fun p => Forall (fun q => inode_id Sample.info p = inode_id Sample.info q -> p = q) (primaries Sample.info Sample.files)) (primaries Sample.info Sample.files)) as Hall
      by (apply (bool_decide_unpack _); vm_compute; exact I). rewrite Forall_forall in Hall. specialize (Hall p Hp). rewrite Forall_forall in Hall. by apply Hall.
Qed.

Lemma scanned_files_numbered_witness : FinalizesFiles sample_tree (finalize Sample.info true map_to_list (scanned Sample.ended)) /\
  forall first dev fn e data e' data', 0 <= first -> first + zlen Sample.files < 2 ^ 32 -> finalize Sample.info true map_to_list (scanned Sample.ended) first = Ok (dev, fn) ->
    File e data ∈ preorder sample_tree -> File e' data' ∈ preorder sample_tree ->
    (unique_file_ids fn !! data = unique_file_ids fn !! data' <->
     data = data' \/ exists c, content Sample.info Sample.read_sample Sample.read_sample data = Some c /\ content Sample.info Sample.read_sample Sample.read_sample data' = Some c).
Proof.
  apply (scanned_files_numbered Sample.info Sample.read_sample Sample.read_sample zlen Sample.digest 4 2 map_to_list Sample.files Sample.ended sample_tree).
  - exact Sample.sample_hashes.
  - exact sample_numberable.
  - apply (bool_decide_unpack _). vm_compute. exact I.
  - done.
  - exact (proj1 Sample.run_ended).
  - exact (proj2 Sample.run_ended).
  - exact sample_scanned.
Defined.

(** The numbers of the example, from 10 on: first files 3, 6 and 2, which share
    no contents, then 0, 1 and 4, which do. *)
Lemma sample_numbers : match finalize Sample.info true map_to_list (scanned Sample.ended) 10 with
  | Ok (dev, fn) => (dev, (fun d => (file_inode_nums fn !! d, unique_file_ids fn !! d)) <$> [0; 1; 2; 3; 4; 6]%nat, num_unique fn)
  | Err _ => (0, [], 0)
  end = (16, [(Some 13, Some 3); (Some 14, Some 3); (Some 12, Some 2); (Some 10, Some 0); (Some 15, Some 3); (Some 11, Some 1)], 3).
Proof. vm_compute. reflexivity. Qed.

(** ** What [Numberable] excludes *)

(** Two hard links that cannot be read, and a file of the same size: the lookup
    of [finalize] does not consider [by_inode_id_], finds the empty vector that
    [unique_size_] has for their size, and takes its front. *)
Module Unreadable.
Definition info (p : nat) : file_status := FileStatus (1, if (p =? 0)%nat then 1 else 2) 3 (if (p =? 0)%nat then 1 else 2) [[Z.of_nat p]].

Definition read_file (p : nat) : option (list Z) := if (p =? 0)%nat then Some [1; 2; 3] else None.

Definition scan_run : checked system :=
  run_schedule info read_file read_file zlen (Some Sample.digest) 1 2 (flat_map (fun _ => [EvScan; EvAdd; EvStart; EvHash 0; EvCommit 0]) (seq 0 8)) (start_system [0; 1; 2]%nat).

Lemma unreadable_hardlinks_undefined : match scan_run with Ok y => finished y = true /\ finalize info true map_to_list (scanned y) 0 = Err Undefined | Err _ => False end.
Proof. vm_compute. split; reflexivity. Qed.
End Unreadable.
