(* ===== verification/InodeManager.v ===== *)
(** * InodeManager: the inodes of files and their fragments

    [inode_] and [inode_manager_] of [src/writer/internal/inode_manager.cpp]:
    each inode has the files that share it and the fragments of their contents,
    which a categorizer may have cut it into.

    A file is a number; hard links have one [file::data], which has the flag of
    [set_invalid].  Opening a file is an argument.  Hashes for similarity,
    progress, logging and what only dumps are left out. *)

From stdpp Require Import sorting.
From S2P Require Import Prelude Metadata MetadataReader EntryTree MetadataBuilder FileChunks FileScanner FileRange Segmenter FileView Categorizer.
Local Open Scope Z_scope.

#[local] Abbreviation checked := (result metadata_error).

(** [inode_]: the number once it is set, the fragments, the files, and the file
    that could not be scanned. *)
Record inode : Type := Inode {
  ino_num_ : option Z;
  ino_fragments_ : list inode_fragment;
  ino_files_ : list nat;
  ino_scan_error_ : option nat
}.

Definition new_inode : inode := Inode None [] [] None.

Definition with_fragments (fs : list inode_fragment) (i : inode) : inode := Inode (ino_num_ i) fs (ino_files_ i) (ino_scan_error_ i).

Definition set_num (num : Z) (i : inode) : checked inode :=
  dwarfs_check (match ino_num_ i with None => true | Some _ => false end) "attempt to set inode number multiple times" ;;?
  Ok (Inode (Some num) (ino_fragments_ i) (ino_files_ i) (ino_scan_error_ i)).

Definition ino_num (i : inode) : checked Z :=
  match ino_num_ i with Some n => Ok n | None => Err (Terminated "inode number is not set") end.

Definition has_category (cat : fragment_category) (i : inode) : checked bool :=
  dwarfs_check (negb (bool_decide (ino_fragments_ i = []))) "has_category() called with no fragments" ;;?
  Ok (existsb (fun f => bool_decide (f.1 = cat)) (ino_fragments_ i)).

Definition set_files (files : list nat) (i : inode) : checked inode :=
  dwarfs_check (bool_decide (ino_files_ i = [])) "files already set for inode" ;;?
  Ok (Inode (ino_num_ i) (ino_fragments_ i) files (ino_scan_error_ i)).

Definition populate (size : Z) (i : inode) : inode :=
  with_fragments (ino_fragments_ i ++ [(default_category, data_fragment size)]) i.

Definition set_scan_error (p : nat) (i : inode) : inode := Inode (ino_num_ i) (ino_fragments_ i) (ino_files_ i) (Some p).

(** The modes of [fragment_order_mode]. *)
Inductive order_mode : Type := order_none | order_path | order_revpath | order_explicit | order_similarity | order_nilsimsa.

Section manager.
(** The data of a file, its size, and the categorizers, if there are any, with the
    size of the parts sequential ones get. *)
Context (f_data : nat -> nat) (f_size : nat -> Z) (f_path : nat -> list Z).
Context (categorizers : option (list categorizer)) (chunk_size : Z).

(** ** [inode_] *)

(** [any]: the first file that is not invalid, or the first. *)
Definition any (invalid : gset nat) (i : inode) : checked nat :=
  match ino_files_ i with
  | [] => Err (Terminated "inode has no file (any)")
  | front :: _ => Ok (default front (hd_error (base.filter (fun p => f_data p ∉ invalid) (ino_files_ i))))
  end.

(** [scan] of a file that was mapped, or of none: the fragments. *)
Definition scan_inode (path : list Z) (v : option file_view) (i : inode) : checked inode :=
  let? i := (match categorizers, v with
             | Some cats, Some v =>
                 match categorize cats path v chunk_size with
                 | Ok fs => Ok (with_fragments fs i)
                 | Err index_already_set => Err (Terminated "index already set in categorize_random_access")
                 end
             | _, _ => Ok i
             end) in
  match ino_fragments_ i with
  | [] => Ok (populate (match v with Some v => fv_size v | None => 0 end) i)
  | _ => Ok i
  end.

(** The loop of [mmap_any]: the view, the file it is of, the files that could not
    be mapped, and who is invalid then. *)
Fixpoint mmap_files (open_file : nat -> option file_view) (files : list nat) (invalid : gset nat) : option (file_view * nat) * list nat * gset nat :=
  match files with
  | [] => (None, [], invalid)
  | p :: files =>
      if bool_decide (f_data p ∈ invalid) then mmap_files open_file files invalid
      else
        match open_file p with
        | Some v =>
            if fv_size v =? f_size p then (Some (v, p), [], invalid)
            else let '(r, errors, invalid) := mmap_files open_file files ({[f_data p]} ∪ invalid) in (r, p :: errors, invalid)
        | None => let '(r, errors, invalid) := mmap_files open_file files ({[f_data p]} ∪ invalid) in (r, p :: errors, invalid)
        end
  end.

Definition mmap_any (open_file : nat -> option file_view) (invalid : gset nat) (i : inode) := mmap_files open_file (ino_files_ i) invalid.

(** ** [inode_manager_] *)

(** The inodes, in the order they were created, the data that is invalid, and
    [num_invalid_inodes_]. *)
Record manager : Type := Manager { inodes_ : list inode; invalid_ : gset nat; num_invalid_inodes_ : Z }.

Definition create_inode (m : manager) : nat * manager := (length (inodes_ m), Manager (inodes_ m ++ [new_inode]) (invalid_ m) (num_invalid_inodes_ m)).

Definition put_inode (k : nat) (i : inode) (m : manager) : manager := Manager (<[k := i]> (inodes_ m)) (invalid_ m) (num_invalid_inodes_ m).

(** [inodes_need_scanning]. *)
Definition inodes_need_scanning (modes : list order_mode) : bool :=
  match categorizers with Some _ => true | None => existsb (fun m => match m with order_similarity | order_nilsimsa => true | _ => false end) modes end.

(** The job of [scan_background]. *)
Definition scan_job (open_file : nat -> option file_view) (k p : nat) (m : manager) : checked manager :=
  let? i := there (inodes_ m !! k) in
  let failed := Manager (<[k := set_scan_error p i]> (inodes_ m)) ({[f_data p]} ∪ invalid_ m) (num_invalid_inodes_ m + 1) in
  if (0 <? f_size p) && negb (bool_decide (f_data p ∈ invalid_ m)) then
    match open_file p with
    | None => Ok failed
    | Some v =>
        if negb (fv_size v =? f_size p) then Ok failed
        else let? i := scan_inode (f_path p) (Some v) i in Ok (put_inode k i m)
    end
  else let? i := scan_inode (f_path p) None i in Ok (put_inode k i m).

Definition scan_background (need : bool) (open_file : nat -> option file_view) (k p : nat) (m : manager) : checked manager :=
  if need then scan_job open_file k p m
  else let? i := there (inodes_ m !! k) in Ok (put_inode k (populate (f_size p) i) m).

Definition has_invalid_inodes (m : manager) : bool := 0 <? num_invalid_inodes_ m.

(** The body of the loop of [try_scan_invalid]. *)
Definition try_scan (open_file : nat -> option file_view) (k : nat) (m : manager) : checked manager :=
  let? i := there (inodes_ m !! k) in
  match ino_scan_error_ i with
  | None => Ok m
  | Some _ =>
      let '(r, invalid) := (if 1 <? zlen (ino_files_ i) then let '(r, _, invalid) := mmap_any open_file (invalid_ m) i in (r, invalid) else (None, invalid_ m)) in
      let? i := (match r with
                 | Some (v, p) => scan_inode (f_path p) (Some v) i
                 | None => scan_inode [] None i
                 end) in
      Ok (Manager (<[k := i]> (inodes_ m)) invalid (num_invalid_inodes_ m))
  end.

Definition try_scan_invalid (open_file : nat -> option file_view) (m : manager) : checked manager :=
  foldR (try_scan open_file) (seq 0 (length (inodes_ m))) m.

End manager.
