(* ===== verification/InodeOrdering.v ===== *)
(** * InodeOrdering: the order in which inodes are segmented

    [src/writer/internal/inode_ordering.cpp], [ordered_span],
    [for_each_inode_in_order] and [fragment_category_info] of
    [src/writer/internal/inode_manager.cpp] and
    [include/dwarfs/writer/internal/sortable_span.h].  The hashes of similarity,
    and the order [similarity_ordering] makes of them for the nilsimsa mode, are
    arguments. *)

From stdpp Require Import sorting.
From S2P Require Import Prelude Metadata MetadataReader EntryTree MetadataBuilder FileChunks FileScanner Categorizer InodeManager.
Local Open Scope Z_scope.

#[local] Abbreviation checked := (result metadata_error).

(** ** [std::sort] *)

(** What it requires of the order: that it is a strict weak order on what is
    sorted; otherwise its behaviour is undefined. *)
Definition strict_weak {A} (less : A -> A -> bool) (l : list A) : bool :=
  forallb (fun a => forallb (fun b => negb (less a b && less b a) && forallb (fun c => implb (less a c) (less a b || less b c)) l) l) l.

Definition not_greater {A} (less : A -> A -> bool) (a b : A) : Prop := less b a = false.

#[export] Instance not_greater_dec {A} (less : A -> A -> bool) : RelDecision (not_greater less).
Proof. intros a b. unfold not_greater. apply _. Defined.

Definition std_sort {A} (less : A -> A -> bool) (l : list A) : checked (list A) :=
  if strict_weak less l then Ok (merge_sort (not_greater less) l) else Err Undefined.

Class StrictWeak {A} (less : A -> A -> bool) : Prop := {
  less_asym a b : less a b = true -> less b a = false;
  less_weak a b c : less a c = true -> less a b = true \/ less b c = true
}.

Lemma strict_weak_ok {A} (less : A -> A -> bool) `{!StrictWeak less} l : strict_weak less l = true.
Proof.
  apply forallb_forall. intros a _. apply forallb_forall. intros b _. apply andb_true_iff. split.
  - destruct (less a b) eqn:E; [|done]. by rewrite (less_asym a b E).
  - apply forallb_forall. intros c _. destruct (less a c) eqn:E; [|done]. cbn. apply orb_true_iff. by apply less_weak.
Qed.

Section sorting.
Context {A : Type} (less : A -> A -> bool) `{!StrictWeak less}.

#[export] Instance not_greater_total : Total (not_greater less).
Proof. intros a b. unfold not_greater. destruct (less b a) eqn:E; [right; by apply less_asym|by left]. Qed.

#[export] Instance not_greater_trans : Transitive (not_greater less).
Proof. unfold not_greater. intros a b c H1 H2. destruct (less c a) eqn:E; [|done]. destruct (less_weak c b a E); congruence. Qed.

Lemma std_sort_spec l : exists l', std_sort less l = Ok l' /\ l' ≡ₚ l /\ StronglySorted (not_greater less) l'.
Proof.
  unfold std_sort. rewrite strict_weak_ok by done. eexists. split; [done|]. split; [apply merge_sort_Permutation|]. apply StronglySorted_merge_sort; apply _.
Qed.
End sorting.

(** Orders by a key, and by one key and then another. *)
#[export] Instance key_strict_weak {A B} (key : A -> B) (less : B -> B -> bool) `{!StrictWeak less} : StrictWeak (fun a b => less (key a) (key b)).
Proof. split; intros *; [apply less_asym|apply less_weak]. Qed.

Definition then_by {A} (less1 less2 : A -> A -> bool) (a b : A) : bool := less1 a b || (negb (less1 b a) && less2 a b).

#[export] Instance then_by_strict_weak {A} (less1 less2 : A -> A -> bool) `{!StrictWeak less1, !StrictWeak less2} : StrictWeak (then_by less1 less2).
Proof.
  unfold then_by. split.
  - intros a b. destruct (less1 a b) eqn:E1; [by rewrite (less_asym (less := less1) a b E1)|]. cbn. destruct (less1 b a) eqn:E2; [done|]. cbn. apply less_asym.
  - intros a b c. destruct (less1 a c) eqn:E1.
    + intros _. destruct (less_weak (less := less1) a b c E1) as [->| ->]; [by left|]. by right.
    + cbn. destruct (less1 c a) eqn:E2; [done|]. cbn. intros H2.
      destruct (less1 a b) eqn:Eab; [by left|]. destruct (less1 b c) eqn:Ebc; [by right|]. cbn.
      assert (less1 b a = false) as -> by (destruct (less1 b a) eqn:E; [destruct (less_weak (less := less1) b c a E); congruence|done]).
      assert (less1 c b = false) as -> by (destruct (less1 c b) eqn:E; [destruct (less_weak (less := less1) c a b E); congruence|done]).
      cbn. by apply less_weak.
Qed.

#[export] Instance ltb_strict_weak : StrictWeak Z.ltb.
Proof. split; intros *; rewrite ?Z.ltb_lt, ?Z.ltb_ge; lia. Qed.

#[export] Instance gtb_strict_weak : StrictWeak Z.gtb.
Proof. split; intros *; rewrite !Z.gtb_ltb, ?Z.ltb_lt, ?Z.ltb_ge; lia. Qed.

Lemma bytes_lt_weak a b c : bytes_lt a c = true -> bytes_lt a b = true \/ bytes_lt b c = true.
Proof.
  revert a c. induction b as [|y b IH]; intros a c H; [destruct a, c; try done; by right|]. destruct a as [|x a]; [by left|]. destruct c as [|z c]; [done|]. cbn in H |- *.
  destruct (Z.ltb_spec x z), (Z.eqb_spec x z), (Z.ltb_spec x y), (Z.eqb_spec x y), (Z.ltb_spec y z), (Z.eqb_spec y z); cbn in *; try lia; auto.
Qed.

#[export] Instance bytes_lt_strict_weak : StrictWeak bytes_lt.
Proof.
  split; [|intros a b c; apply bytes_lt_weak]. intros a. induction a as [|x a IH]; intros [|y b] H; try done. cbn in H |- *.
  destruct (Z.ltb_spec x y), (Z.eqb_spec x y), (Z.ltb_spec y x), (Z.eqb_spec y x); cbn in *; try lia; try done. by apply IH.
Qed.

#[export] Instance less_revpath_strict_weak : StrictWeak less_revpath.
Proof.
  split.
  - intros a. induction a as [|x a IH]; intros [|y b] H; try done. cbn in H |- *. destruct (bytes_lt x y) eqn:E1; [by rewrite (less_asym (less := bytes_lt) x y E1)|].
    destruct (bytes_lt y x); [done|]. by apply IH.
  - intros a b. revert a. induction b as [|y b IH]; intros a c H; [destruct a, c; try done; by right|]. destruct a as [|x a]; [by left|]. destruct c as [|z c]; [done|].
    cbn in H |- *. destruct (bytes_lt x z) eqn:E1.
    + destruct (bytes_lt_weak x y z E1) as [->| ->]; [by left|by right].
    + destruct (bytes_lt z x) eqn:E2; [done|]. destruct (bytes_lt x y) eqn:Exy; [by left|]. destruct (bytes_lt y z) eqn:Eyz; [by right|].
      destruct (bytes_lt y x) eqn:Eyx; [destruct (bytes_lt_weak y z x Eyx); congruence|]. destruct (bytes_lt z y) eqn:Ezy; [destruct (bytes_lt_weak z x y Ezy); congruence|].
      by apply IH.
Qed.

(** ** [sortable_span] *)

Fixpoint mapR {A B} (f : A -> checked B) (l : list A) : checked (list B) :=
  match l with
  | [] => Ok []
  | x :: l => let? y := f x in let? ys := mapR f l in Ok (y :: ys)
  end.

(** [all], and [select]: the indices of those that fulfil the predicate. *)
Definition span_all {A} (values : list A) : list nat := seq 0 (length values).

Definition select {A} (pred : A -> checked bool) (values : list A) : checked (list nat) :=
  let? oks := mapR pred values in Ok (filter (fun k => oks !! k = Some true) (seq 0 (length values))).

(** Sorting indices by what is computed of each. *)
Definition sort_index {K} (key : nat -> checked K) (less : nat * K -> nat * K -> bool) (index : list nat) : checked (list nat) :=
  let? keys := mapR (fun k => let? x := key k in Ok (k, x)) index in
  let? sorted := std_sort less keys in Ok sorted.*1.

Section ordering.
Context (f_data : nat -> nat) (f_size : nat -> Z) (f_path : nat -> list Z) (f_revpath : nat -> list (list Z)) (f_order_index : nat -> Z) (f_explicit : nat -> option Z).
Context (similarity_hash : nat -> option Z) (has_nilsimsa_hash : nat -> bool) (similarity_ordering : list nat -> list nat).
Context (max_similarity_scan_size : option Z) (list_mode : bool).
Context (inodes : list inode) (invalid : gset nat).

Definition any_of (k : nat) : checked nat := let? i := there (inodes !! k) in any f_data invalid i.
Definition num_of (k : nat) : checked Z := let? i := there (inodes !! k) in ino_num i.

Definition by_inode_number (index : list nat) : checked (list nat) := sort_index num_of (fun a b => a.2 <? b.2) index.

Definition by_input_order (index : list nat) : checked (list nat) :=
  sort_index (fun k => let? p := any_of k in Ok (f_order_index p)) (fun a b => a.2 <? b.2) index.

Definition by_path (index : list nat) : checked (list nat) :=
  sort_index (fun k => let? p := any_of k in Ok (f_path p)) (fun a b => bytes_lt a.2 b.2) index.

Definition by_reverse_path (index : list nat) : checked (list nat) :=
  sort_index (fun k => let? p := any_of k in Ok (f_revpath p)) (fun a b => less_revpath a.2 b.2) index.

(** [inode_less_by_size]. *)
Definition size_less (a b : Z * list (list Z)) : bool := (a.1 >? b.1) || ((a.1 =? b.1) && less_revpath a.2 b.2).

Definition size_key (k : nat) : checked (Z * list (list Z)) := let? p := any_of k in Ok (f_size p, f_revpath p).

Definition by_size (index : list nat) : checked (list nat) := sort_index size_key (fun a b => size_less a.2 b.2) index.

Definition similarity_less (a b : Z * (Z * list (list Z))) : bool :=
  if a.1 <? b.1 then true else if b.1 <? a.1 then false else size_less a.2 b.2.

(** Those without a hash come first. *)
Definition by_similarity (index : list nat) : checked (list nat) :=
  let? missing := by_size (filter (fun k => similarity_hash k = None) index) in
  let? rest := sort_index (fun k => let? h := there (similarity_hash k) in let? s := size_key k in Ok (h, s)) (fun a b => similarity_less a.2 b.2)
                 (filter (fun k => similarity_hash k <> None) index) in
  Ok (missing ++ rest).

Definition by_nilsimsa (index : list nat) : checked (list nat) :=
  match max_similarity_scan_size with
  | None => Ok (similarity_ordering index)
  | Some _ =>
      match filter (fun k => has_nilsimsa_hash k = false) index with
      | [] => Ok (similarity_ordering (filter (fun k => has_nilsimsa_hash k = true) index))
      | missing =>
          let? missing := by_size missing in
          Ok (missing ++ match filter (fun k => has_nilsimsa_hash k = true) index with [] => [] | small => similarity_ordering small end)
      end
  end.

(** Those with a position are compared by it, others by their numbers. *)
Definition explicit_less (a b : option Z * Z) : bool :=
  match a.1, b.1 with
  | Some x, Some y => x <? y
  | _, _ => a.2 <? b.2
  end.

Definition by_explicit_order (index : list nat) : checked (list nat) :=
  sort_index (fun k => let? p := any_of k in let? n := num_of k in Ok (f_explicit p, n)) (fun a b => explicit_less a.2 b.2) index.

(** ** [inode_manager_] *)

Definition in_order : checked (list nat) := by_inode_number (span_all inodes).

Definition ordered_span (mode : order_mode) (cat : fragment_category) : checked (list nat) :=
  let? index := select (has_category cat) inodes in
  match mode with
  | order_none => if list_mode then by_input_order index else Ok index
  | order_path => by_path index
  | order_revpath => by_reverse_path index
  | order_explicit => by_explicit_order index
  | order_similarity => by_similarity index
  | order_nilsimsa => by_nilsimsa index
  end.
End ordering.

(** What of [fragment_category_info] is not only shown: the categories, in order. *)
Definition fragment_categories (less : fragment_category -> fragment_category -> bool) (inodes : list inode) : checked (list fragment_category) :=
  std_sort less (elements (list_to_set (C := gset fragment_category) (concat (map (fun i => map fst (ino_fragments_ i)) inodes)))).

(** ** Lemmas *)

Lemma mapR_spec {A B} (f : A -> checked B) l : (forall x, x ∈ l -> exists y, f x = Ok y) -> exists ys, mapR f l = Ok ys /\ Forall2 (fun x y => f x = Ok y) l ys.
Proof.
  induction l as [|x l IH]; intros H; [by exists []|]. destruct (H x ltac:(by left)) as [y Ey]. destruct IH as (ys & E & Hys); [intros z Hz; apply H; by right|].
  exists (y :: ys). cbn [mapR]. rewrite Ey. cbn [rbind]. rewrite E. split; [done|by constructor].
Qed.

Lemma filter_split (P : nat -> Prop) `{!forall k, Decision (P k)} (l : list nat) : l ≡ₚ filter P l ++ filter (fun k => ~ P k) l.
Proof.
  induction l as [|x l IH]; [done|]. rewrite !filter_cons. destruct (decide (P x)) as [Hx|Hx].
  - rewrite decide_False by tauto. cbn. by rewrite <- IH.
  - rewrite decide_True by done. rewrite <- Permutation_middle. by rewrite <- IH.
Qed.

Section sorting_by_key.
Context {K : Type} (key : nat -> checked K) (less : nat * K -> nat * K -> bool) `{!StrictWeak less}.

(** In the order of the keys. *)
Definition in_key_order (a b : nat) : Prop := forall x y, key a = Ok x -> key b = Ok y -> less (b, y) (a, x) = false.

Lemma sort_index_spec index : (forall k, k ∈ index -> exists x, key k = Ok x) ->
  exists sorted, sort_index key less index = Ok sorted /\ sorted ≡ₚ index /\ StronglySorted in_key_order sorted.
Proof.
  intros H. unfold sort_index. destruct (mapR_spec (fun k => let? x := key k in Ok (k, x)) index) as (keys & E & Hkeys).
  { intros k Hk. destruct (H k Hk) as [x Ex]. exists (k, x). by rewrite Ex. }
  rewrite E. cbn [rbind]. destruct (std_sort_spec less keys) as (sorted & Es & Hp & Hs). rewrite Es. cbn [rbind]. exists sorted.*1. split; [done|].
  assert (Forall (fun p => key p.1 = Ok p.2) keys /\ keys.*1 = index) as [Hk Ek].
  { clear -Hkeys. induction Hkeys as [|k [k' x] ks keys Hx _ [IH1 IH2]]; [done|]. destruct (key k) as [y|] eqn:Ey; [|done]. cbn in Hx. injection Hx as <- <-.
    split; [by constructor|]. cbn. by rewrite IH2. }
  split; [rewrite <- Ek; by apply fmap_Permutation|]. assert (Forall (fun p => key p.1 = Ok p.2) sorted) as Hk' by by rewrite Hp.
  clear -Hs Hk'. induction Hs as [|[a x] l _ IH Ha]; [constructor|]. apply Forall_cons in Hk' as [Hx Hk']. cbn. constructor; [by apply IH|].
  apply Forall_fmap. rewrite Forall_forall in Ha, Hk' |- *. intros [b y] Hb u v Eu Ev. cbn in *. specialize (Ha _ Hb). specialize (Hk' _ Hb). cbn in Hk'.
  assert (u = x) as -> by congruence. assert (v = y) as -> by congruence. exact Ha.
Qed.
End sorting_by_key.

#[export] Instance size_less_strict_weak : StrictWeak size_less.
Proof.
  assert (StrictWeak (then_by (fun a b : Z * list (list Z) => a.1 >? b.1) (fun a b => less_revpath a.2 b.2))) as [H1 H2].
  { apply then_by_strict_weak; [apply (key_strict_weak fst Z.gtb)|apply (key_strict_weak snd less_revpath)]. }
  assert (forall a b, size_less a b = then_by (fun a b : Z * list (list Z) => a.1 >? b.1) (fun a b => less_revpath a.2 b.2) a b) as E.
  { intros a b. unfold size_less, then_by. rewrite !Z.gtb_ltb. destruct (Z.ltb_spec b.1 a.1), (Z.ltb_spec a.1 b.1), (Z.eqb_spec a.1 b.1); try lia; done. }
  split; intros *; rewrite !E; [apply H1|apply H2].
Qed.

#[export] Instance similarity_less_strict_weak : StrictWeak similarity_less.
Proof.
  assert (StrictWeak (then_by (fun a b : Z * (Z * list (list Z)) => a.1 <? b.1) (fun a b => size_less a.2 b.2))) as [H1 H2].
  { apply then_by_strict_weak; [apply (key_strict_weak fst Z.ltb)|apply (key_strict_weak snd size_less)]. }
  assert (forall a b, similarity_less a b = then_by (fun a b : Z * (Z * list (list Z)) => a.1 <? b.1) (fun a b => size_less a.2 b.2) a b) as E.
  { intros a b. unfold similarity_less, then_by. by destruct (a.1 <? b.1), (b.1 <? a.1). }
  split; intros *; rewrite !E; [apply H1|apply H2].
Qed.

Section ordered.
Context (f_data : nat -> nat) (f_size : nat -> Z) (f_path : nat -> list Z) (f_revpath : nat -> list (list Z)) (f_order_index : nat -> Z) (f_explicit : nat -> option Z).
Context (similarity_hash : nat -> option Z) (has_nilsimsa_hash : nat -> bool) (similarity_ordering : list nat -> list nat).
Context (max_similarity_scan_size : option Z) (list_mode : bool).
Context (inodes : list inode) (invalid : gset nat).

(** The inodes as they are when blocks are built: each has a number, a fragment
    and a file. *)
Definition complete (i : inode) : Prop := is_Some (ino_num_ i) /\ ino_fragments_ i <> [] /\ ino_files_ i <> [].

Context (Hcomplete : Forall complete inodes).

#[local] Abbreviation any_file := (any_of f_data inodes invalid).
#[local] Abbreviation in_range index := (forall k, k ∈ index -> (k < length inodes)%nat).

Lemma inode_at k : (k < length inodes)%nat -> exists i, inodes !! k = Some i /\ complete i.
Proof. intros H. destruct (lookup_lt_is_Some_2 inodes k H) as [i Hi]. exists i. split; [done|]. rewrite Forall_forall in Hcomplete. apply Hcomplete. by eapply list_elem_of_lookup_2. Qed.

Lemma any_there k : (k < length inodes)%nat -> exists p, any_file k = Ok p.
Proof.
  intros H. destruct (inode_at k H) as (i & Hi & _ & _ & Hf). unfold any_of. rewrite Hi. cbn [there rbind]. unfold any. destruct (ino_files_ i); [done|by eexists].
Qed.

Lemma num_there k : (k < length inodes)%nat -> exists n, num_of inodes k = Ok n.
Proof. intros H. destruct (inode_at k H) as (i & Hi & [n Hn] & _). exists n. unfold num_of. rewrite Hi. cbn [there rbind]. unfold ino_num. by rewrite Hn. Qed.

(** The inodes with a fragment of the category. *)
Definition in_category (cat : fragment_category) (k : nat) : bool :=
  match inodes !! k with Some i => existsb (fun f => bool_decide (f.1 = cat)) (ino_fragments_ i) | None => false end.

Definition selected (cat : fragment_category) : list nat := filter (fun k => in_category cat k = true) (seq 0 (length inodes)).

Lemma elem_of_selected cat k : k ∈ selected cat <-> (k < length inodes)%nat /\ in_category cat k = true.
Proof. unfold selected. rewrite list_elem_of_filter, elem_of_seq. split; [intros [? [_ ?]]; split; done|intros [? ?]; split; [done|split; [apply Nat.le_0_l|done]]]. Qed.

Lemma NoDup_selected cat : NoDup (selected cat).
Proof. apply NoDup_filter, NoDup_seq. Qed.

Lemma select_spec cat : select (has_category cat) inodes = Ok (selected cat).
Proof.
  unfold select. destruct (mapR_spec (has_category cat) inodes) as (oks & -> & Hoks).
  { intros i Hi. rewrite Forall_forall in Hcomplete. destruct (Hcomplete i Hi) as (_ & Hf & _). unfold has_category. rewrite bool_decide_false by done. by eexists. }
  cbn [rbind]. f_equal. unfold selected. apply list_filter_iff. intros k. unfold in_category. destruct (oks !! k) as [b|] eqn:E.
  - destruct (Forall2_lookup_r _ _ _ _ _ Hoks E) as (i & -> & Hb). rewrite Forall_forall in Hcomplete.
    unfold has_category in Hb. destruct (dwarfs_check _ _); [|done]. cbn [rbind] in Hb. injection Hb as <-. split; [by intros [= ->]|by intros ->].
  - destruct (inodes !! k) eqn:Ei; [|done]. destruct (Forall2_lookup_l _ _ _ _ _ Hoks Ei) as (y & ? & _). congruence.
Qed.

Lemma size_key_there k : (k < length inodes)%nat -> exists x, size_key f_data f_size f_revpath inodes invalid k = Ok x.
Proof. intros H. destruct (any_there k H) as [p Hp]. unfold size_key. rewrite Hp. by eexists. Qed.

(** The larger files first, those of a size by the reversed paths. *)
Definition size_order (a b : nat) : Prop := forall p q, any_file a = Ok p -> any_file b = Ok q ->
  f_size q < f_size p \/ (f_size p = f_size q /\ less_revpath (f_revpath q) (f_revpath p) = false).

(** By the hashes, those with the same hash by size. *)
Definition similarity_order (a b : nat) : Prop := forall x y, similarity_hash a = Some x -> similarity_hash b = Some y ->
  x < y \/ (x = y /\ size_order a b).

(** The order of the similarity mode: first those without a hash, by size, then the others by their hashes. *)
Definition similarity_ordered (span : list nat) : Prop := exists missing rest, span = missing ++ rest /\
  Forall (fun k => similarity_hash k = None) missing /\ StronglySorted size_order missing /\
  Forall (fun k => similarity_hash k <> None) rest /\ StronglySorted similarity_order rest.

Lemma StronglySorted_weaken {A} (R S : A -> A -> Prop) l : (forall a b, a ∈ l -> b ∈ l -> R a b -> S a b) -> StronglySorted R l -> StronglySorted S l.
Proof.
  intros H Hs. induction Hs as [|x l _ IH Hx]; constructor; [apply IH; intros a b Ha Hb; apply H; by right|].
  rewrite Forall_forall in Hx |- *. intros y Hy. apply H; [by left|by right|by apply Hx].
Qed.

Lemma Forall_filter_holds {A} (P : A -> Prop) `{!forall x, Decision (P x)} l : Forall P (filter P l).
Proof. apply Forall_forall. by intros x [? _]%list_elem_of_filter. Qed.

Lemma size_less_order p q x y : size_less (y, q) (x, p) = false -> y < x \/ (x = y /\ less_revpath q p = false).
Proof. unfold size_less. cbn. rewrite Z.gtb_ltb. destruct (Z.ltb_spec x y), (Z.eqb_spec y x); cbn; intros; try done; [by right|left; lia]. Qed.

Lemma size_key_eq k p : any_file k = Ok p -> size_key f_data f_size f_revpath inodes invalid k = Ok (f_size p, f_revpath p).
Proof. intros H. unfold size_key. by rewrite H. Qed.

Lemma by_size_spec index : in_range index ->
  exists sorted, by_size f_data f_size f_revpath inodes invalid index = Ok sorted /\ sorted ≡ₚ index /\ StronglySorted size_order sorted.
Proof.
  intros H. destruct (sort_index_spec (size_key f_data f_size f_revpath inodes invalid) (fun a b => size_less a.2 b.2) index) as (l & E & Hp & Hs).
  { intros k Hk. by apply size_key_there, H. }
  exists l. split_and!; [done|done|]. revert Hs. apply StronglySorted_weaken.
  intros a b _ _ R p q Ha Hb. apply size_less_order. apply (R _ _ (size_key_eq _ _ Ha) (size_key_eq _ _ Hb)).
Qed.

Lemma by_similarity_spec index : in_range index ->
  exists sorted, by_similarity f_data f_size f_revpath similarity_hash inodes invalid index = Ok sorted /\ sorted ≡ₚ index /\ similarity_ordered sorted.
Proof.
  intros H. unfold by_similarity. destruct (by_size_spec (filter (fun k => similarity_hash k = None) index)) as (missing & -> & Hm & Hsm).
  { intros k [_ Hk]%list_elem_of_filter. by apply H. }
  cbn [rbind].
  match goal with |- context [sort_index ?key ?less ?l] => destruct (sort_index_spec key less l) as (rest & -> & Hr & Hsr) end.
  { intros k [Hh Hk]%list_elem_of_filter. destruct (similarity_hash k); [|done]. cbn [there rbind]. destruct (size_key_there k (H k Hk)) as [x ->]. by eexists. }
  cbn [rbind]. exists (missing ++ rest). split; [done|]. split; [rewrite Hm, Hr; symmetry; apply filter_split|].
  exists missing, rest. split_and!; [done|rewrite Hm; apply Forall_filter_holds|done|rewrite Hr; apply Forall_filter_holds|].
  revert Hsr. apply StronglySorted_weaken. intros a b Ha Hb R x y Hx Hy.
  assert (forall k, k ∈ rest -> (k < length inodes)%nat) as Hin by (intros k; rewrite Hr; intros [_ ?]%list_elem_of_filter; by apply H).
  assert (forall p q, any_file a = Ok p -> any_file b = Ok q -> similarity_less (y, (f_size q, f_revpath q)) (x, (f_size p, f_revpath p)) = false) as R'.
  { intros p q Hp Hq. apply (R (x, (f_size p, f_revpath p)) (y, (f_size q, f_revpath q))).
    - by rewrite Hx; cbn [there rbind]; rewrite (size_key_eq _ _ Hp).
    - by rewrite Hy; cbn [there rbind]; rewrite (size_key_eq _ _ Hq). }
  destruct (any_there a (Hin a Ha)) as [p Hp], (any_there b (Hin b Hb)) as [q Hq]. pose proof (R' p q Hp Hq) as Hl.
  unfold similarity_less in Hl. cbn in Hl. destruct (Z.ltb_spec y x); [done|]. destruct (Z.ltb_spec x y); [by left|]. right.
  split; [lia|]. intros p' q' Hp' Hq'. specialize (R' p' q' Hp' Hq'). unfold similarity_less in R'. cbn in R'.
  rewrite (proj2 (Z.ltb_ge _ _)), (proj2 (Z.ltb_ge _ _)) in R' by lia. by apply size_less_order.
Qed.

Lemma by_nilsimsa_spec index (Hsim : forall l, similarity_ordering l ≡ₚ l) : in_range index ->
  exists sorted, by_nilsimsa f_data f_size f_revpath has_nilsimsa_hash similarity_ordering max_similarity_scan_size inodes invalid index = Ok sorted /\ sorted ≡ₚ index.
Proof.
  intros H. unfold by_nilsimsa. destruct max_similarity_scan_size as [m|]; [|exists (similarity_ordering index); by split].
  assert (index ≡ₚ filter (fun k => has_nilsimsa_hash k = false) index ++ filter (fun k => has_nilsimsa_hash k = true) index) as Hsplit.
  { assert (filter (fun k => has_nilsimsa_hash k = true) index = filter (fun k => ~ has_nilsimsa_hash k = false) index) as ->; [|apply filter_split].
    apply list_filter_iff. intros k. by destruct (has_nilsimsa_hash k). }
  destruct (filter (fun k => has_nilsimsa_hash k = false) index) as [|k0 missing] eqn:E.
  - eexists. split; [done|]. rewrite Hsim. by symmetry.
  - destruct (by_size_spec (k0 :: missing)) as (l & -> & Hl & _).
    { intros k Hk. rewrite <- E in Hk. apply list_elem_of_filter in Hk as [_ Hk]. by apply H. }
    cbn [rbind]. eexists. split; [done|]. etransitivity; [|by symmetry]. apply Permutation_app; [done|]. destruct (filter (fun k => has_nilsimsa_hash k = true) index); [done|apply Hsim].
Qed.

(** Every mode but the explicit one hands out exactly the inodes with the
    category, each once. *)
Lemma ordered_span_spec mode cat : mode <> order_explicit -> (mode = order_nilsimsa -> forall l, similarity_ordering l ≡ₚ l) ->
  exists span, ordered_span f_data f_size f_path f_revpath f_order_index f_explicit similarity_hash has_nilsimsa_hash similarity_ordering
      max_similarity_scan_size list_mode inodes invalid mode cat = Ok span /\ span ≡ₚ selected cat /\
    match mode with
    | order_path => StronglySorted (in_key_order (fun k => let? p := any_file k in Ok (f_path p)) (fun a b => bytes_lt a.2 b.2)) span
    | order_revpath => StronglySorted (in_key_order (fun k => let? p := any_file k in Ok (f_revpath p)) (fun a b => less_revpath a.2 b.2)) span
    | order_none => if list_mode then StronglySorted (in_key_order (fun k => let? p := any_file k in Ok (f_order_index p)) (fun a b => a.2 <? b.2)) span else span = selected cat
    | order_similarity => similarity_ordered span
    | order_explicit | order_nilsimsa => True
    end.
Proof.
  intros Hm Hsim. unfold ordered_span. rewrite select_spec. cbn [rbind]. assert (in_range (selected cat)) as Hr by (intros k [? _]%elem_of_selected; done).
  assert (forall K (f : nat -> K) k, k ∈ selected cat -> exists x, (let? p := any_file k in Ok (f p)) = Ok x) as Hkey.
  { intros K f k Hk. destruct (any_there k (Hr k Hk)) as [p ->]. by eexists. }
  destruct mode; [destruct list_mode| | |done| |].
  - apply sort_index_spec; [apply _|]. by apply Hkey.
  - by eexists.
  - apply sort_index_spec; [apply _|]. by apply Hkey.
  - apply sort_index_spec; [apply _|]. by apply Hkey.
  - by apply by_similarity_spec.
  - destruct (by_nilsimsa_spec (selected cat) (Hsim eq_refl) Hr) as (l & E & Hp). by exists l.
Qed.

(** The inodes in the order of their numbers. *)
Lemma in_order_spec : exists order, in_order inodes = Ok order /\ order ≡ₚ seq 0 (length inodes) /\ StronglySorted (in_key_order (num_of inodes) (fun a b => a.2 <? b.2)) order.
Proof.
  unfold in_order, by_inode_number, span_all. apply sort_index_spec; [apply _|]. intros k Hk. apply elem_of_seq in Hk. apply num_there. lia.
Qed.
End ordered.

(** ** The theorem *)

(** C36: once every inode has a number, fragments and files, [ordered_span] of any
    mode but the explicit one (whose comparison is no strict weak order, see
    [explicit_order_cycle]) and the nilsimsa one (whose order
    [similarity_ordering] makes, which is not modelled) meets the requirement of
    [std::sort], does not fail, and hands out the inodes with a fragment of the
    category, each once, in the order of the mode: of the input list, of the
    paths or of the reversed paths; for the similarity mode first those without a
    hash, the larger first and those of a size by their reversed paths, then the
    others by their hashes, those of a hash by size and reversed path; and of the
    inodes where the mode says nothing. *)
Theorem ordered_span_permutation f_data f_size f_path f_revpath f_order_index f_explicit similarity_hash has_nilsimsa_hash similarity_ordering
    max_similarity_scan_size list_mode inodes invalid mode cat :
  Forall complete inodes -> mode <> order_explicit -> mode <> order_nilsimsa ->
  exists span, ordered_span f_data f_size f_path f_revpath f_order_index f_explicit similarity_hash has_nilsimsa_hash similarity_ordering
      max_similarity_scan_size list_mode inodes invalid mode cat = Ok span /\
    NoDup span /\ (forall k, k ∈ span <-> (k < length inodes)%nat /\ in_category inodes cat k = true) /\
    match mode with
    | order_path => StronglySorted (in_key_order (fun k => let? p := any_of f_data inodes invalid k in Ok (f_path p)) (fun a b => bytes_lt a.2 b.2)) span
    | order_revpath => StronglySorted (in_key_order (fun k => let? p := any_of f_data inodes invalid k in Ok (f_revpath p)) (fun a b => less_revpath a.2 b.2)) span
    | order_none => if list_mode then StronglySorted (in_key_order (fun k => let? p := any_of f_data inodes invalid k in Ok (f_order_index p)) (fun a b => a.2 <? b.2)) span
                    else span = selected inodes cat
    | order_similarity => similarity_ordered f_data f_size f_revpath similarity_hash inodes invalid span
    | order_explicit | order_nilsimsa => False
    end.
Proof.
  intros Hc Hm Hn. destruct (ordered_span_spec f_data f_size f_path f_revpath f_order_index f_explicit similarity_hash has_nilsimsa_hash similarity_ordering
    max_similarity_scan_size list_mode inodes invalid Hc mode cat Hm ltac:(done)) as (span & E & Hp & H).
  exists span. split; [done|]. split; [rewrite Hp; apply NoDup_selected|]. split; [intros k; rewrite Hp; apply elem_of_selected|by destruct mode].
Qed.

(** Three inodes: one with a category of its own, too. *)
Definition sample_inodes : list inode :=
  [Inode (Some 1) [(default_category, data_fragment 5)] [0%nat] None;
   Inode (Some 0) [(FragmentCategory 1 0, data_fragment 3); (default_category, data_fragment 2)] [1%nat; 2%nat] None;
   Inode (Some 2) [(FragmentCategory 1 0, data_fragment 7)] [3%nat] None].

Definition sample_hash (k : nat) : option Z := match k with 0%nat => None | _ => Some (- Z.of_nat k) end.

Lemma ordered_span_permutation_witness : exists span,
  ordered_span id Z.of_nat (fun p => [Z.of_nat (9 - p)]) (fun _ => []) Z.of_nat (fun _ => None) sample_hash (fun _ => false) (@rev nat)
    None false sample_inodes ∅ order_similarity (FragmentCategory 1 0) = Ok span /\ NoDup span /\ span = [2; 1]%nat.
Proof.
  destruct (ordered_span_permutation id Z.of_nat (fun p => [Z.of_nat (9 - p)]) (fun _ => []) Z.of_nat (fun _ => None) sample_hash (fun _ => false) (@rev nat)
    None false sample_inodes ∅ order_similarity (FragmentCategory 1 0)) as (span & E & Hn & _).
  - repeat (apply List.Forall_cons; [split; [by eexists|done]|]). constructor.
  - done.
  - done.
  - exists span. split; [exact E|]. split; [exact Hn|]. vm_compute in E. injection E as <-. reflexivity.
Defined.

(** The comparison of the explicit order is no strict weak order when only some
    of the inodes have a position: here the second is before the first by
    position, the first before the third and the third before the second by
    number.  [std::sort] is then undefined. *)
Lemma explicit_order_cycle :
  let a := (Some 1, 1) in let b := (Some 0, 9) in let c := (None, 5) in
  explicit_less b a = true /\ explicit_less a c = true /\ explicit_less c b = true /\ std_sort explicit_less [a; b; c] = Err Undefined.
Proof. vm_compute. split_and!; reflexivity. Qed.
