(* ===== verification/OffsetCache.v ===== *)
(** * OffsetCache: remembering where chunks start

    [lru_cache] ([include/dwarfs/reader/internal/lru_cache.h]) and
    [basic_offset_cache] ([include/dwarfs/reader/internal/offset_cache.h]).
    The list and the hash index of [lru_cache] are one association list, most
    recent first; prune hooks are the entries returned. *)

From S2P Require Import Prelude.
Local Open Scope Z_scope.

(** ** [lru_cache] *)

Section lru.
Context {K V : Type} `{EqDecision K}.

Record lru_cache : Type := LruCache { max_size_ : Z; cache_ : list (K * V) }.

Definition lru_create (max_size : Z) : lru_cache := LruCache max_size [].

Fixpoint lru_lookup (key : K) (l : list (K * V)) : option V :=
  match l with
  | [] => None
  | (k, v) :: l => if decide (k = key) then Some v else lru_lookup key l
  end.

Definition lru_remove (key : K) (l : list (K * V)) : list (K * V) := filter (fun e => e.1 <> key) l.

(** The entry evicted, and the cache. *)
Definition evict_lru (c : lru_cache) : option (K * V) * lru_cache :=
  (last (cache_ c), LruCache (max_size_ c) (removelast (cache_ c))).

Definition lru_set (key : K) (value : V) (c : lru_cache) : option (K * V) * lru_cache :=
  match lru_lookup key (cache_ c) with
  | Some _ => (None, LruCache (max_size_ c) ((key, value) :: lru_remove key (cache_ c)))
  | None =>
      let '(pruned, c) := if max_size_ c <=? zlen (cache_ c) then evict_lru c else (None, c) in
      (pruned, LruCache (max_size_ c) ((key, value) :: cache_ c))
  end.

Definition lru_find (key : K) (promote : bool) (c : lru_cache) : option V * lru_cache :=
  match lru_lookup key (cache_ c) with
  | None => (None, c)
  | Some v =>
      (Some v, if promote then LruCache (max_size_ c) ((key, v) :: lru_remove key (cache_ c)) else c)
  end.

Definition lru_erase (key : K) (c : lru_cache) : lru_cache := LruCache (max_size_ c) (lru_remove key (cache_ c)).

(** [while (cache_.size() > max_size_) evict_lru()]: the entries evicted. *)
Fixpoint shrink (fuel : nat) (c : lru_cache) : list (K * V) * lru_cache :=
  match fuel with
  | O => ([], c)
  | S fuel =>
      if max_size_ c <? zlen (cache_ c) then
        let '(pruned, c) := evict_lru c in
        let '(more, c) := shrink fuel c in
        (option_list pruned ++ more, c)
      else ([], c)
  end.

Definition set_max_size (max_size : Z) (c : lru_cache) : list (K * V) * lru_cache :=
  shrink (length (cache_ c)) (LruCache max_size (cache_ c)).
End lru.
Arguments lru_cache K V : clear implicits.

(** ** [basic_offset_cache] *)

Section offset_cache.
Context (chunk_index_interval : Z).

(** [chunk_offsets] *)
Record chunk_offsets : Type := ChunkOffsets {
  last_chunk_index_ : Z;
  last_file_offset_ : Z;
  last_chunk_size_ : Z;
  offsets_ : list Z
}.

Definition chunk_offsets_create : chunk_offsets := ChunkOffsets 0 0 0 [].

Record updater : Type := Updater { upd_offsets_ : list Z; first_index_ : Z }.

Definition updater_create : updater := Updater [] 0.

Definition add_offset (index offset : Z) (u : updater) : updater :=
  if (index <? chunk_index_interval) || negb (index mod chunk_index_interval =? 0) then u
  else
    let ix := index / chunk_index_interval - 1 in
    if ix =? first_index_ u + zlen (upd_offsets_ u)
    then Updater (upd_offsets_ u ++ [offset]) (first_index_ u) else u.

Definition chunk_offsets_update (u : updater) (chunk_index file_offset chunk_size : Z) (e : chunk_offsets) : chunk_offsets :=
  ChunkOffsets chunk_index file_offset chunk_size
    (if zlen (offsets_ e) <? first_index_ u + zlen (upd_offsets_ u)
     then offsets_ e ++ drop (Z.to_nat (zlen (offsets_ e) - first_index_ u)) (upd_offsets_ u)
     else offsets_ e).

(** [std::lower_bound] in the sorted offsets: how many are smaller. *)
Fixpoint lower_bound (l : list Z) (offset : Z) : Z :=
  match l with
  | x :: l => if x <? offset then 1 + lower_bound l offset else 0
  | [] => 0
  end.

Definition chunk_offsets_find (offset : Z) (e : chunk_offsets) (u : updater) : Z * Z * updater :=
  let u := Updater (upd_offsets_ u) (zlen (offsets_ e)) in
  if (last_file_offset_ e <=? offset) && (offset <=? last_file_offset_ e + last_chunk_size_ e)
  then (last_chunk_index_ e, last_file_offset_ e, u)
  else
    let best_index :=
      match last (offsets_ e) with
      | None => 0
      | Some back =>
          if offset <? back then
            let it := lower_bound (offsets_ e) offset in
            if it =? zlen (offsets_ e) then zlen (offsets_ e) else it
          else zlen (offsets_ e)
      end in
    if 0 <? best_index
    then (chunk_index_interval * best_index, nth (Z.to_nat (best_index - 1)) (offsets_ e) 0, u)
    else (0, 0, u).
End offset_cache.

(** [basic_offset_cache]: the entries are shared objects; [heap_] holds them,
    with the inode each was made for, and the cache holds references. *)
Record offset_cache : Type := OffsetCache {
  oc_cache_ : lru_cache Z nat;
  heap_ : list (Z * chunk_offsets)
}.

Definition offset_cache_create (cache_size : Z) : offset_cache := OffsetCache (lru_create cache_size) [].

Definition offset_cache_find (inode : Z) (c : offset_cache) : nat * offset_cache :=
  let '(found, cache) := lru_find inode true (oc_cache_ c) in
  match found with
  | Some p => (p, OffsetCache cache (heap_ c))
  | None => (length (heap_ c), OffsetCache cache (heap_ c ++ [(inode, chunk_offsets_create)]))
  end.

Definition offset_cache_set (inode : Z) (p : nat) (c : offset_cache) : offset_cache :=
  OffsetCache (lru_set inode p (oc_cache_ c)).2 (heap_ c).

(** The entry at a reference. *)
Definition entry (c : offset_cache) (p : nat) : chunk_offsets :=
  match heap_ c !! p with Some (_, e) => e | None => chunk_offsets_create end.

Definition set_entry (p : nat) (e : chunk_offsets) (c : offset_cache) : offset_cache :=
  OffsetCache (oc_cache_ c) (alter (fun x => (x.1, e)) p (heap_ c)).

(** ** The least recently used entries go first *)

Section lru_lemmas.
Context {K V : Type} `{EqDecision K}.
#[local] Abbreviation cache := (lru_cache K V).

Inductive lru_op : Type :=
  | LruSet (key : K) (value : V)
  | LruFind (key : K)
  | LruErase (key : K)
  | LruSetMaxSize (max_size : Z).

Definition lru_step (c : cache) (op : lru_op) : cache :=
  match op with
  | LruSet k v => (lru_set k v c).2
  | LruFind k => (lru_find k true c).2
  | LruErase k => lru_erase k c
  | LruSetMaxSize n => (set_max_size n c).2
  end.

(** The value last set for a key. *)
Definition latest_step (m : K -> option V) (op : lru_op) : K -> option V :=
  match op with
  | LruSet k v => fun k' => if decide (k' = k) then Some v else m k'
  | LruErase k => fun k' => if decide (k' = k) then None else m k'
  | _ => m
  end.

(** The keys, most recently used first: set, or found in the cache. *)
Definition recency_step (st : cache * list K) (op : lru_op) : cache * list K :=
  (lru_step st.1 op,
   match op with
   | LruSet k _ => k :: filter (fun k' => k' <> k) st.2
   | LruFind k => match lru_lookup k (cache_ st.1) with Some _ => k :: filter (fun k' => k' <> k) st.2 | None => st.2 end
   | LruErase k => filter (fun k' => k' <> k) st.2
   | LruSetMaxSize _ => st.2
   end).

Lemma lru_lookup_in (l : list (K * V)) k v : lru_lookup k l = Some v -> (k, v) ∈ l.
Proof.
  induction l as [|[k' v'] l IH]; cbn; [done|]. case_decide as E; [intros [= ->]; subst; left|]. intros H. right. by apply IH.
Qed.

Lemma lru_lookup_none (l : list (K * V)) k : lru_lookup k l = None <-> k ∉ l.*1.
Proof.
  induction l as [|[k' v'] l IH]; cbn; [split; [intros _ H; by apply elem_of_nil in H|done]|].
  rewrite not_elem_of_cons. case_decide as E; [split; [done|intros [? _]; congruence]|]. rewrite IH. split; [|by intros [_ ?]].
  intros ?. split; [congruence|done].
Qed.

Lemma lru_lookup_some (l : list (K * V)) k v : NoDup l.*1 -> (k, v) ∈ l -> lru_lookup k l = Some v.
Proof.
  induction l as [|[k' v'] l IH]; cbn; [intros _ H; by apply elem_of_nil in H|].
  intros [Hn Hd]%NoDup_cons [[= -> ->]|H]%elem_of_cons; [by rewrite decide_True|].
  case_decide as E; [|by apply IH]. subst k'. destruct Hn. apply list_elem_of_fmap. by exists (k, v).
Qed.

Lemma lru_remove_keys (l : list (K * V)) k : (lru_remove k l).*1 = filter (fun k' => k' <> k) l.*1.
Proof.
  unfold lru_remove. induction l as [|[k' v'] l IH]; [done|]. cbn [fmap list_fmap fst]. rewrite !filter_cons. cbn [fst].
  case_decide; [cbn; by f_equal|exact IH].
Qed.

Lemma lru_remove_lookup (l : list (K * V)) k k' : lru_lookup k' (lru_remove k l) = if decide (k' = k) then None else lru_lookup k' l.
Proof.
  unfold lru_remove. induction l as [|[k0 v0] l IH]; cbn [lru_lookup]; [by case_decide|]. rewrite filter_cons. cbn [fst].
  destruct (decide (k0 <> k)) as [Hk|Hk]; cbn [lru_lookup]; rewrite IH.
  - destruct (decide (k0 = k')), (decide (k' = k)); congruence.
  - apply dec_stable in Hk. subst k0. destruct (decide (k = k')), (decide (k' = k)); congruence.
Qed.

Lemma filter_not_in (l : list K) k : k ∉ l -> filter (fun k' => k' <> k) l = l.
Proof.
  induction l as [|x l IH]; [done|]. intros [Hx Hl]%not_elem_of_cons. rewrite filter_cons, decide_True, IH by congruence. done.
Qed.

Lemma lru_remove_absent (l : list (K * V)) k : k ∉ l.*1 -> lru_remove k l = l.
Proof.
  unfold lru_remove. induction l as [|[k' v'] l IH]; [done|]. cbn [fmap list_fmap fst]. intros [Hx Hl]%not_elem_of_cons.
  rewrite filter_cons, decide_True by (cbn; congruence). f_equal. by apply IH.
Qed.

Lemma zlen_remove_in (l : list (K * V)) k v : NoDup l.*1 -> lru_lookup k l = Some v -> zlen (lru_remove k l) + 1 = zlen l.
Proof.
  induction l as [|[k' v'] l IH]; [done|]. cbn [fmap list_fmap fst]. intros [Hn Hd]%NoDup_cons. cbn [lru_lookup].
  unfold lru_remove. rewrite filter_cons. cbn [fst]. case_decide as E.
  - intros _. subst k'. rewrite decide_False by (intros H; by apply H).
    pose proof (lru_remove_absent l k Hn) as E'. unfold lru_remove in E'. rewrite E'. unfold zlen. cbn. lia.
  - rewrite decide_True by congruence. intros H%IH; [|done]. unfold zlen, lru_remove in *. cbn. lia.
Qed.

Lemma zlen_removelast (l : list (K * V)) : l <> [] -> zlen (removelast l) = zlen l - 1.
Proof. intros H. destruct (exists_last H) as (l' & x & ->). rewrite removelast_last, zlen_app. unfold zlen. cbn. lia. Qed.

(** The cache holds the most recently used keys, each once, with the values
    last set, and no more of them than allowed. *)
Record lru_inv (c : cache) (recency : list K) (latest : K -> option V) : Prop := {
  li_size : 1 <= max_size_ c;
  li_bound : zlen (cache_ c) <= max_size_ c;
  li_recency : (cache_ c).*1 `prefix_of` recency;
  li_nodup : NoDup recency;
  li_latest : forall k v, lru_lookup k (cache_ c) = Some v -> latest k = Some v
}.

Lemma li_keys c r m : lru_inv c r m -> NoDup (cache_ c).*1.
Proof. intros [_ _ [x Hr] Hn _]. rewrite Hr in Hn. by apply NoDup_app in Hn as [? _]. Qed.

Lemma prefix_filter (P : K -> Prop) `{forall x, Decision (P x)} (l1 l2 : list K) :
  l1 `prefix_of` l2 -> filter P l1 `prefix_of` filter P l2.
Proof. intros [l ->]. rewrite filter_app. by exists (filter P l). Qed.

(** Moving a key to the front. *)
Lemma front_recency (l : list K) r k : NoDup r -> l `prefix_of` r ->
  (k :: filter (fun k' => k' <> k) l) `prefix_of` (k :: filter (fun k' => k' <> k) r) /\
  NoDup (k :: filter (fun k' => k' <> k) r).
Proof.
  intros Hn Hp. split; [by apply prefix_cons, prefix_filter|]. constructor; [|by apply NoDup_filter].
  intros H. apply list_elem_of_filter in H as [? _]. congruence.
Qed.

Lemma removelast_keys (l : list (K * V)) : (removelast l).*1 `prefix_of` l.*1.
Proof.
  destruct l as [|e l] using rev_ind; [done|]. rewrite removelast_last, fmap_app. by apply prefix_app_r.
Qed.

Lemma removelast_lookup (l : list (K * V)) k v : NoDup l.*1 -> lru_lookup k (removelast l) = Some v -> lru_lookup k l = Some v.
Proof.
  intros Hn H. apply lru_lookup_some; [done|]. apply lru_lookup_in in H. destruct l as [|e l] using rev_ind; [done|].
  rewrite removelast_last in H. apply elem_of_app. by left.
Qed.

Lemma shrink_inv fuel c r m : 1 <= max_size_ c -> (cache_ c).*1 `prefix_of` r -> NoDup r ->
  (forall k v, lru_lookup k (cache_ c) = Some v -> m k = Some v) -> zlen (cache_ c) <= max_size_ c + Z.of_nat fuel ->
  lru_inv (shrink fuel c).2 r m /\ max_size_ (shrink fuel c).2 = max_size_ c.
Proof.
  revert c. induction fuel as [|fuel IH]; intros c H1 H2 H3 H4 H5; cbn [shrink].
  - split; [|done]. split; cbn; try done. lia.
  - destruct (Z.ltb_spec (max_size_ c) (zlen (cache_ c))) as [Hl|Hl]; [|split; [by split|done]].
    assert (cache_ c <> []) as Hne by (intros E; rewrite E in Hl; unfold zlen in Hl; cbn in Hl; lia).
    assert (NoDup (cache_ c).*1) as Hn by (destruct H2 as [x Hx]; rewrite Hx in H3; by apply NoDup_app in H3 as [? _]).
    unfold evict_lru. destruct (IH (LruCache (max_size_ c) (removelast (cache_ c)))) as [I1 I2]; cbn; try done.
    + etransitivity; [apply removelast_keys|done].
    + intros k v Hk. apply H4. by apply removelast_lookup.
    + rewrite zlen_removelast by done. lia.
    + destruct (shrink fuel _) as [more c']. done.
Qed.

Lemma lru_set_inv c r m k v : lru_inv c r m ->
  lru_inv (lru_set k v c).2 (k :: filter (fun k' => k' <> k) r) (latest_step m (LruSet k v)).
Proof.
  intros Hinv. pose proof (li_keys _ _ _ Hinv) as Hkeys. destruct Hinv as [H1 H2 H3 H4 H5].
  unfold lru_set. destruct (lru_lookup k (cache_ c)) as [w|] eqn:E.
  - destruct (front_recency _ r k H4 H3) as [F1 F2]. split; cbn [snd cache_ max_size_]; try done.
    + pose proof (zlen_remove_in _ _ _ Hkeys E). unfold zlen in *. cbn. lia.
    + cbn [fmap list_fmap fst]. by rewrite lru_remove_keys.
    + intros k' v'. cbn [lru_lookup latest_step]. rewrite lru_remove_lookup.
      destruct (decide (k = k')), (decide (k' = k)); try congruence. apply H5.
  - pose proof (proj1 (lru_lookup_none _ _) E) as Hno.
    set (c' := if max_size_ c <=? zlen (cache_ c) then evict_lru c else (None, c)).
    assert (max_size_ c'.2 = max_size_ c /\ zlen (cache_ c'.2) + 1 <= max_size_ c /\
      (cache_ c'.2).*1 `prefix_of` (cache_ c).*1 /\
      (forall k v, lru_lookup k (cache_ c'.2) = Some v -> lru_lookup k (cache_ c) = Some v)) as (G1 & G2 & G3 & G4).
    { unfold c'. destruct (Z.leb_spec (max_size_ c) (zlen (cache_ c))) as [Hl|Hl]; cbn; [|split_and!; try done; lia].
      assert (cache_ c <> []) by (intros E'; rewrite E' in Hl; unfold zlen in Hl; cbn in Hl; lia).
      split_and!; [done|rewrite zlen_removelast by done; lia|apply removelast_keys|intros; by apply removelast_lookup]. }
    destruct c' as [pr c']. cbn [snd] in *.
    destruct (front_recency (cache_ c').*1 r k H4) as [F1 F2]; [by etransitivity|].
    rewrite filter_not_in in F1 by (intros Hin; apply Hno; destruct G3 as [x Hx]; rewrite Hx; apply elem_of_app; by left).
    split; cbn [snd cache_ max_size_]; try done; try lia.
    + unfold zlen in *. cbn. lia.
    + intros k' v'. cbn [lru_lookup latest_step]. destruct (decide (k = k')), (decide (k' = k)); try congruence.
      intros Hl. by apply H5, G4.
Qed.

Lemma lru_step_inv c r m op : (forall n, op = LruSetMaxSize n -> 1 <= n) -> lru_inv c r m ->
  lru_inv (recency_step (c, r) op).1 (recency_step (c, r) op).2 (latest_step m op).
Proof.
  intros Hop Hinv. pose proof (li_keys _ _ _ Hinv) as Hkeys. destruct op as [k v|k|k|n]; cbn [recency_step lru_step fst snd].
  - by apply lru_set_inv.
  - destruct Hinv as [H1 H2 H3 H4 H5]. unfold lru_find. destruct (lru_lookup k (cache_ c)) as [v|] eqn:E; [|by split].
    destruct (front_recency _ r k H4 H3) as [F1 F2]. split; cbn [snd cache_ max_size_ latest_step]; try done.
    + pose proof (zlen_remove_in _ _ _ Hkeys E). unfold zlen in *. cbn. lia.
    + cbn [fmap list_fmap fst]. by rewrite lru_remove_keys.
    + intros k' v'. cbn [lru_lookup]. rewrite lru_remove_lookup. destruct (decide (k = k')) as [->|].
      * intros [= <-]. by apply H5.
      * destruct (decide (k' = k)); [congruence|]. apply H5.
  - destruct Hinv as [H1 H2 H3 H4 H5]. split; cbn [lru_erase cache_ max_size_ latest_step]; try done.
    + etransitivity; [|exact H2]. unfold zlen, lru_remove. pose proof (length_filter (fun e : K * V => e.1 <> k) (cache_ c)). lia.
    + rewrite lru_remove_keys. by apply prefix_filter.
    + by apply NoDup_filter.
    + intros k' v'. rewrite lru_remove_lookup. case_decide; [done|]. apply H5.
  - destruct Hinv as [H1 H2 H3 H4 H5]. unfold set_max_size. apply shrink_inv; cbn; try done; [by apply Hop|].
    pose proof (Hop n eq_refl). unfold zlen. lia.
Qed.

(** [lru_cache] keeps the most recently used entries: after any sequence
    of operations it holds at most the allowed number of entries, each key
    once; its keys are, in order, the first of the keys by recency of use (set
    or found), so what is evicted is what was least recently used; and the value
    of a key is the one last set for it, never a stale or an erased one. *)
Theorem lru_cache_spec n ops : 1 <= n -> (forall m, LruSetMaxSize m ∈ ops -> 1 <= m) ->
  let '(c, recency) := foldl recency_step (lru_create n, []) ops in
  zlen (cache_ c) <= max_size_ c /\ NoDup (cache_ c).*1 /\ (cache_ c).*1 `prefix_of` recency /\
  forall k v, lru_lookup k (cache_ c) = Some v -> foldl latest_step (fun _ => None) ops k = Some v.
Proof.
  intros Hn Hops. assert (forall st m, lru_inv st.1 st.2 m ->
    lru_inv (foldl recency_step st ops).1 (foldl recency_step st ops).2 (foldl latest_step m ops)) as H.
  { revert Hops. induction ops as [|op ops IH]; intros Hops [c r] m Hinv; [done|]. cbn [foldl].
    apply IH; [intros n' Hin; apply Hops; by right|]. apply lru_step_inv; [|done]. intros n' ->. apply Hops. left. }
  specialize (H (lru_create n, []) (fun _ => None)). destruct (foldl recency_step _ ops) as [c r].
  destruct H as [H1 H2 H3 H4 H5]; [|split_and!; try done].
  - split; cbn; try done; try constructor. change (0 <= n). lia.
  - cbn in *. destruct H3 as [x Hr]. rewrite Hr in H4. by apply NoDup_app in H4 as [? _].
Qed.
End lru_lemmas.

Lemma lru_cache_spec_witness :
  let ops := [LruSet 1 10; LruSet 2 20; LruFind 1; LruSet 3 30; LruSet 1 11] in
  cache_ (foldl recency_step (lru_create (K := Z) (V := Z) 2, []) ops).1 = [(1, 11); (3, 30)] /\
  let '(c, recency) := foldl recency_step (lru_create (K := Z) (V := Z) 2, []) ops in
  zlen (cache_ c) <= max_size_ c /\ NoDup (cache_ c).*1 /\ (cache_ c).*1 `prefix_of` recency /\
  forall k v, lru_lookup k (cache_ c) = Some v -> foldl latest_step (fun _ => None) ops k = Some v.
Proof.
  cbv zeta. split; [done|].
  apply (lru_cache_spec 2 [LruSet 1 10; LruSet 2 20; LruFind 1; LruSet 3 30; LruSet 1 11]); [lia|].
  intros m H. repeat (apply elem_of_cons in H as [[=]|H]). by apply elem_of_nil in H.
Defined.

(** ** Where chunks start *)

Section starts.
Context (interval : Z) (Hinterval : 0 < interval) (sizes : list Z) (Hsizes : Forall (fun n => 0 < n) sizes).

(** The offset of chunk [i]. *)
Definition start (i : Z) : Z := foldr Z.add 0 (take (Z.to_nat i) sizes).

Lemma start_0 : start 0 = 0.
Proof. done. Qed.

Lemma start_succ i n : 0 <= i -> sizes !! Z.to_nat i = Some n -> start (i + 1) = start i + n.
Proof.
  intros Hi H. unfold start. replace (Z.to_nat (i + 1)) with (S (Z.to_nat i)) by lia. rewrite (take_S_r _ _ n) by done.
  rewrite foldr_app. cbn. generalize (take (Z.to_nat i) sizes) as l. induction l as [|x l IH]; cbn; lia.
Qed.

(** An entry of the cache holds true offsets, and no gap below the last index. *)
Record entry_ok (e : chunk_offsets) : Prop := {
  eo_index : 0 <= last_chunk_index_ e <= zlen sizes;
  eo_offset : last_file_offset_ e = start (last_chunk_index_ e);
  eo_offsets : forall j x, offsets_ e !! j = Some x -> x = start ((Z.of_nat j + 1) * interval);
  eo_inside : zlen (offsets_ e) * interval <= zlen sizes;
  eo_covered : last_chunk_index_ e / interval <= zlen (offsets_ e)
}.

(** The updater of a read that is at chunk [ix]. *)
Record updater_ok (u : updater) (ix : Z) : Prop := {
  uo_first : 0 <= first_index_ u;
  uo_offsets : forall j x, upd_offsets_ u !! j = Some x -> x = start ((first_index_ u + Z.of_nat j + 1) * interval);
  uo_inside : (first_index_ u + zlen (upd_offsets_ u)) * interval <= zlen sizes;
  uo_covered : ix / interval <= first_index_ u + zlen (upd_offsets_ u)
}.

Lemma chunk_offsets_create_ok : entry_ok chunk_offsets_create.
Proof. pose proof (zlen_nonneg sizes). split; cbn; try done; lia. Qed.

Lemma updater_create_ok : updater_ok updater_create 0.
Proof. pose proof (zlen_nonneg sizes). split; cbn; try done; lia. Qed.

Lemma lower_bound_spec l offset : 0 <= lower_bound l offset <= zlen l /\
  forall j x, Z.of_nat j < lower_bound l offset -> l !! j = Some x -> x < offset.
Proof.
  induction l as [|y l [IH1 IH2]]; cbn [lower_bound]; [split; [unfold zlen; cbn; lia|]; intros j x _ H; by rewrite lookup_nil in H|].
  destruct (Z.ltb_spec y offset).
  - split; [unfold zlen in *; cbn [length]; lia|]. intros [|j] x Hj Hl; cbn in Hl; [by simplify_eq|]. apply (IH2 j); [lia|done].
  - split; [unfold zlen; cbn [length]; lia|]. intros j x Hj. lia.
Qed.

(** [find] returns the start of a chunk at or before the offset. *)
Lemma chunk_offsets_find_ok offset e first : entry_ok e -> 0 <= offset ->
  let '(ix, off, u) := chunk_offsets_find interval offset e (Updater [] first) in
  0 <= ix <= zlen sizes /\ off = start ix /\ off <= offset /\ updater_ok u ix /\ first_index_ u = zlen (offsets_ e).
Proof.
  intros [H1 H2 H3 H4 H5] Ho. unfold chunk_offsets_find. cbn [upd_offsets_].
  pose proof (zlen_nonneg (offsets_ e)) as Hz. set (u := Updater [] (zlen (offsets_ e))).
  assert (forall ix, ix / interval <= zlen (offsets_ e) -> updater_ok u ix) as Hu.
  { intros ix Hix. unfold u. split; cbn [first_index_ upd_offsets_]; try lia; [|unfold zlen at 2; cbn; lia|unfold zlen at 2; cbn; lia].
    intros j x Hj. by rewrite lookup_nil in Hj. }
  destruct (Z.leb_spec (last_file_offset_ e) offset) as [Hl|Hl]; cbn [andb].
  1: destruct (offset <=? last_file_offset_ e + last_chunk_size_ e);
    [split_and!; [lia|lia|done|done|by apply Hu|done]|].
  all: match goal with |- context [if 0 <? ?b then _ else _] => set (best := b) end.
  all: assert (0 <= best <= zlen (offsets_ e) /\
      forall j x, Z.of_nat j + 1 = best -> offsets_ e !! j = Some x -> x <= offset) as [Hb Hle].
  1, 3: unfold best; destruct (last (offsets_ e)) as [back|] eqn:El; [|split; [lia|intros; lia]];
    destruct (Z.ltb_spec offset back) as [Hlt|Hge];
    [destruct (lower_bound_spec (offsets_ e) offset) as [L1 L2];
     destruct (Z.eqb_spec (lower_bound (offsets_ e) offset) (zlen (offsets_ e))) as [E|E];
     (split; [lia|]; intros j x Hj Hx; specialize (L2 j x ltac:(lia) Hx); lia)
    |split; [lia|]; intros j x Hj Hx; rewrite last_lookup in El;
     replace (pred (length (offsets_ e))) with j in El by (unfold zlen in Hj; lia); congruence].
  all: destruct (Z.ltb_spec 0 best) as [Hpos|Hpos];
    [|split_and!; [lia|pose proof (zlen_nonneg sizes); lia|done|done|apply Hu; by rewrite Z.div_0_l by lia|done]].
  all: assert (offsets_ e !! Z.to_nat (best - 1) = Some (nth (Z.to_nat (best - 1)) (offsets_ e) 0)) as Hlk
      by (apply lookup_nth; unfold zlen in *; lia);
    assert (interval * best <= zlen sizes) by nia;
    split_and!; [nia|done| |apply (Hle (Z.to_nat (best - 1))); [lia|done]
      |apply Hu; rewrite Z.mul_comm, Z.div_mul by lia; lia|done];
    rewrite (H3 _ _ Hlk), (Z.mul_comm interval); do 2 f_equal; lia.
Qed.

(** One chunk on: the offset recorded is the start of the next chunk, and the
    assertion of [add_offset] holds. *)
Lemma add_offset_ok u ix n : updater_ok u ix -> 0 <= ix -> sizes !! Z.to_nat ix = Some n ->
  updater_ok (add_offset interval (ix + 1) (start ix + n) u) (ix + 1) /\
  first_index_ (add_offset interval (ix + 1) (start ix + n) u) = first_index_ u.
Proof.
  intros [H1 H2 H3 H4] Hix Hn. pose proof (lookup_lt_Some _ _ _ Hn) as Hlt. unfold add_offset.
  pose proof (zlen_nonneg (upd_offsets_ u)) as Hz.
  pose proof (Z.div_mod ix interval ltac:(lia)) as D1. pose proof (Z.mod_pos_bound ix interval ltac:(lia)) as D2.
  pose proof (Z.div_mod (ix + 1) interval ltac:(lia)) as D3. pose proof (Z.mod_pos_bound (ix + 1) interval ltac:(lia)) as D4.
  destruct (Z.ltb_spec (ix + 1) interval) as [Hs|Hs]; cbn [orb].
  - split; [|done]. split; try done. rewrite Z.div_small by lia. lia.
  - destruct (Z.eqb_spec ((ix + 1) mod interval) 0) as [Hm|Hm]; cbn [negb].
    + destruct (Z.eqb_spec ((ix + 1) / interval - 1) (first_index_ u + zlen (upd_offsets_ u))) as [E|E].
      * split; [|done]. split; cbn [first_index_ upd_offsets_].
        -- done.
        -- intros j x Hj. apply lookup_app_Some in Hj as [Hj|[Hj1 Hj2]]; [by apply H2|].
           apply list_lookup_singleton_Some in Hj2 as [Hj2 <-]. rewrite <- (start_succ ix n) by done. f_equal.
           unfold zlen in *. nia.
        -- rewrite zlen_app. change (zlen [start ix + n]) with 1. unfold zlen in *. nia.
        -- rewrite zlen_app. change (zlen [start ix + n]) with 1. lia.
      * split; [|done]. split; try done.
        assert ((ix + 1) / interval <= ix / interval + 1) by nia. lia.
    + split; [|done]. split; try done. assert ((ix + 1) / interval <= ix / interval) by nia. lia.
Qed.

(** [update], on an entry that others may have extended since [find]. *)
Lemma chunk_offsets_update_ok u ix n e : entry_ok e -> updater_ok u ix -> first_index_ u <= zlen (offsets_ e) ->
  0 <= ix <= zlen sizes ->
  entry_ok (chunk_offsets_update u ix (start ix) n e) /\
  offsets_ e `prefix_of` offsets_ (chunk_offsets_update u ix (start ix) n e).
Proof.
  intros [H1 H2 H3 H4 H5] [U1 U2 U3 U4] Hf Hix. unfold chunk_offsets_update.
  pose proof (zlen_nonneg (upd_offsets_ u)). pose proof (zlen_nonneg (offsets_ e)).
  destruct (Z.ltb_spec (zlen (offsets_ e)) (first_index_ u + zlen (upd_offsets_ u))) as [Hl|Hl].
  - assert (zlen (offsets_ e ++ drop (Z.to_nat (zlen (offsets_ e) - first_index_ u)) (upd_offsets_ u)) =
      first_index_ u + zlen (upd_offsets_ u)) as Hlen.
    { unfold zlen in *. rewrite length_app, length_drop. lia. }
    split; [|by apply prefix_app_r]. split; cbn [last_chunk_index_ last_file_offset_ offsets_]; try done; [|by rewrite Hlen|by rewrite Hlen].
    intros j x Hj. apply lookup_app_Some in Hj as [Hj|[Hj1 Hj2]]; [by apply H3|]. rewrite lookup_drop in Hj2.
    rewrite (U2 _ _ Hj2). f_equal. unfold zlen in *. nia.
  - split; [|done]. split; cbn; try done. lia.
Qed.
End starts.
