(* ===== verification/MetadataSeek.v ===== *)
(** * MetadataSeek: seeking in the files of an image

    [metadata_v2_data::seek] of [src/reader/internal/metadata_v2.cpp]: the
    option that turns it off, the error of an inode that is not a file, the
    choice between the one-off scan and a seeker, and the cache of the seekers of
    files with many chunks, which is shared by all calls. *)

From S2P Require Import Prelude Bits FileChunks PackedInts StringTable SparseSeek Metadata MetadataReader OffsetCache.
Local Open Scope Z_scope.

#[local] Abbreviation checked := (result metadata_error).

Definition kMinChunksForCachedSeeker : Z := 16.

(** [seek_cache_], for 64 files. *)
Definition seek_cache_create : lru_cache Z seeker := lru_create 64.

(** The result, and the cache. *)
Definition metadata_seek {decoder} (d : metadata_v2_data (decoder := decoder)) (inode offset : Z) (whence : seek_whence)
    (seek_cache_ : lru_cache Z seeker) : checked (result seek_error Z * lru_cache Z seeker) :=
  if negb (enable_sparse_files (options_ d)) then Ok (Err not_supported, seek_cache_)
  else
    let? chunks := get_chunks d (to_int inode) in
    match chunks with
    | None => Ok (Err invalid_argument, seek_cache_)
    | Some range =>
        if range.2 - range.1 <? kMinChunksForCachedSeeker then
          let? chunks := chunks_of_range d range in Ok (static_seek chunks offset whence, seek_cache_)
        else
          match lru_find inode true seek_cache_ with
          | (Some s, seek_cache_) => Ok (seeker_seek s offset whence, seek_cache_)
          | (None, seek_cache_) =>
              let? chunks := chunks_of_range d range in
              let s := seeker_create chunks in
              Ok (seeker_seek s offset whence, (lru_set inode s seek_cache_).2)
          end
    end.

(** Calls one after the other. *)
Fixpoint seek_calls {decoder} (d : metadata_v2_data (decoder := decoder)) (calls : list (Z * Z * seek_whence)) (seek_cache_ : lru_cache Z seeker) :
    checked (list (result seek_error Z)) :=
  match calls with
  | [] => Ok []
  | (inode, offset, whence) :: calls =>
      let? r := metadata_seek d inode offset whence seek_cache_ in
      let? answers := seek_calls d calls r.2 in
      Ok (r.1 :: answers)
  end.

(** ** The answers *)

(** The chunks of a file; [None] for what is not one. *)
Definition chunks_of_inode {decoder} (d : metadata_v2_data (decoder := decoder)) (inode : Z) : checked (option (list chunk)) :=
  let? chunks := get_chunks d (to_int inode) in
  match chunks with
  | None => Ok None
  | Some range => let? chunks := chunks_of_range d range in Ok (Some chunks)
  end.

(** Whether the chunks of the inode, if it is a file, can be read, are not empty,
    and no hole follows a hole. *)
Definition seekable {decoder} (d : metadata_v2_data (decoder := decoder)) (inode : Z) : Prop :=
  match chunks_of_inode d inode with
  | Ok (Some chunks) => chunks_sparse_ok chunks
  | Ok None => True
  | Err _ => False
  end.

(** What a call answers. *)
Definition seek_answer {decoder} (d : metadata_v2_data (decoder := decoder)) (call : Z * Z * seek_whence) (answer : result seek_error Z) : Prop :=
  let '(inode, offset, whence) := call in
  if enable_sparse_files (options_ d) then
    match chunks_of_inode d inode with
    | Ok (Some chunks) => answer = lseek_reference (hole_map chunks) offset whence
    | Ok None => answer = Err invalid_argument
    | Err _ => False
    end
  else answer = Err not_supported.

Section seek.
Context {decoder : Type} (d : metadata_v2_data (decoder := decoder)).

(** Every cached seeker is the one of its file. *)
Definition seekers_ok (c : lru_cache Z seeker) : Prop :=
  Forall (fun e => exists chunks, chunks_of_inode d e.1 = Ok (Some chunks) /\ e.2 = seeker_create chunks) (cache_ c).

Lemma lru_remove_Forall {K V} `{EqDecision K} (P : K * V -> Prop) k l : Forall P l -> Forall P (lru_remove k l).
Proof. rewrite !Forall_forall. intros H x [_ Hx]%list_elem_of_filter. by apply H. Qed.

Lemma find_seeker inode c : seekers_ok c -> seekers_ok (lru_find inode true c).2 /\
  forall s, (lru_find inode true c).1 = Some s -> exists chunks, chunks_of_inode d inode = Ok (Some chunks) /\ s = seeker_create chunks.
Proof.
  intros H. unfold lru_find. destruct (lru_lookup inode (cache_ c)) as [s|] eqn:E; [|by split].
  apply lru_lookup_in in E. unfold seekers_ok in *. pose proof H as Ha. rewrite Forall_forall in Ha. specialize (Ha _ E). cbn [fst snd] in *.
  split; [|by intros ? [= <-]]. constructor; [done|by apply lru_remove_Forall].
Qed.

Lemma removelast_Forall {A} (P : A -> Prop) l : Forall P l -> Forall P (removelast l).
Proof. intros H. induction H as [|x l Hx Hl IH]; [constructor|]. cbn. destruct l; [constructor|by constructor]. Qed.

Lemma set_seeker inode chunks c : chunks_of_inode d inode = Ok (Some chunks) -> seekers_ok c ->
  seekers_ok (lru_set inode (seeker_create chunks) c).2.
Proof.
  intros Hc H. unfold lru_set, seekers_ok in *. destruct (lru_lookup inode (cache_ c)); [constructor; [by eexists|by apply lru_remove_Forall]|].
  destruct (max_size_ c <=? zlen (cache_ c)); cbn; (constructor; [by eexists|]); [by apply removelast_Forall|done].
Qed.

(** A call, with the seekers that calls before it left. *)
Lemma metadata_seek_spec inode offset whence c : seekers_ok c -> (enable_sparse_files (options_ d) = true -> seekable d inode) ->
  exists answer c', metadata_seek d inode offset whence c = Ok (answer, c') /\ seek_answer d (inode, offset, whence) answer /\ seekers_ok c'.
Proof.
  intros Hc Hs. unfold metadata_seek, seek_answer. destruct (enable_sparse_files (options_ d)); cbn [negb]; [|by do 2 eexists].
  specialize (Hs eq_refl). unfold seekable in Hs. destruct (chunks_of_inode d inode) as [[chunks|]|] eqn:Ef; [| |done]; pose proof Ef as Ef'; unfold chunks_of_inode in Ef'.
  - destruct (get_chunks d (to_int inode)) as [[range|]|]; cbn [rbind] in *; [|done|done].
    destruct (chunks_of_range d range) as [chunks'|]; [|done]. cbn [rbind] in *. injection Ef' as ->. destruct (_ <? _).
    + do 2 eexists. split; [done|]. split; [by apply static_seek_spec|done].
    + pose proof (find_seeker inode c Hc) as [Hc' Hfound]. destruct (lru_find inode true c) as [[s|] c']; cbn [fst snd] in *.
      * destruct (Hfound s eq_refl) as (chunks' & E & ->). rewrite Ef in E. injection E as <-. do 2 eexists. split; [done|]. split; [by apply seeker_seek_spec|done].
      * do 2 eexists. split; [done|]. split; [by apply seeker_seek_spec|by apply set_seeker].
  - destruct (get_chunks d (to_int inode)) as [[range|]|]; cbn [rbind] in *; [|by do 2 eexists|done]. by destruct (chunks_of_range d range).
Qed.
End seek.

(** C39: seeking in the files of an image is [lseek] with [SEEK_DATA] and
    [SEEK_HOLE].  Whatever calls are made of [metadata_v2_data::seek], one after
    the other, with the seekers the earlier ones left in the cache, each answers,
    for a file, with the first position from the offset on that is in data, or
    that is in a hole or at the end of the file, and fails with [ENXIO] where
    there is none or the offset is outside of the file; for what is not a file it
    fails with [EINVAL], and where the reader does not support sparse files with
    [ENOTSUP], whatever the inode.  The files have no empty chunk and no hole
    right after a hole. *)
Theorem seek_spec {decoder} (d : metadata_v2_data (decoder := decoder)) calls :
  (enable_sparse_files (options_ d) = true -> Forall (fun call => seekable d call.1.1) calls) ->
  exists answers, seek_calls d calls seek_cache_create = Ok answers /\ Forall2 (seek_answer d) calls answers.
Proof.
  intros Hs. assert (seekers_ok d seek_cache_create) as Hc by constructor. revert Hc Hs. generalize seek_cache_create.
  induction calls as [|[[inode offset] whence] calls IH]; intros c Hc Hs; [by exists []|]. cbn [seek_calls].
  destruct (metadata_seek_spec d inode offset whence c Hc) as (answer & c' & -> & Ha & Hc'); [intros He; by specialize (Hs He); inversion Hs|].
  cbn [rbind fst snd]. destruct (IH c' Hc') as (answers & -> & H); [intros He; by specialize (Hs He); inversion Hs|]. eexists. split; [done|by constructor].
Qed.

(** A link and two files: data, hole, data, hole; and nine times data and a hole. *)
Module SeekExample.
Definition small : list meta_chunk := [MetaChunk 0 0 4; MetaChunk 9 6 0; MetaChunk 0 4 2; MetaChunk 9 3 0].
Definition large : list meta_chunk := concat (replicate 9 [MetaChunk 0 0 4; MetaChunk 9 6 0]).
Definition inode (mode : Z) : inode_data := InodeData mode 0 0 0 0 0.

Definition image : fs_metadata := FsMetadata
  (Metadata (small ++ large) [0; 4; 22] 16 (Some 9) None)
  [Directory 0 1 0; Directory 0 4 0] 0
  [inode 0; inode 1; inode 2; inode 2]
  [] [0] [1000] [100] [0x41ED; 0xA1FF; 0x81A4] [[97]; [98]; [99]]
  [[97]] None (Some (FsOptions false false false false)) (Some [DirEntry 0 0; DirEntry 0 1; DirEntry 1 2; DirEntry 2 3]) None
  None None (Some ["sparsefiles"%string]) None None.

Definition opened (sparse : bool) := metadata_v2_data_create (fun _ => (0, tt)) total_bytes 10 image (MetadataOptions sparse false true 512 None None) 1 true.

(** In the small file, in the large one twice, and in the link. *)
Definition calls : list (Z * Z * seek_whence) := [(3, 5, seek_data); (4, 25, seek_hole); (4, 89, seek_data); (2, 0, seek_hole)].
End SeekExample.

Lemma seek_spec_witness :
  match SeekExample.opened true, SeekExample.opened false with
  | Ok d, Ok d' =>
      (exists answers, seek_calls d SeekExample.calls seek_cache_create = Ok answers /\ Forall2 (seek_answer d) SeekExample.calls answers /\
        answers = [Ok 10; Ok 25; Err no_such_device_or_address; Err invalid_argument]) /\
      (exists answers, seek_calls d' SeekExample.calls seek_cache_create = Ok answers /\ Forall2 (seek_answer d') SeekExample.calls answers /\
        answers = replicate 4 (Err not_supported))
  | _, _ => False
  end.
Proof.
  destruct (SeekExample.opened true) as [d|] eqn:E; [|by vm_compute in E]. destruct (SeekExample.opened false) as [d'|] eqn:E'; [|by vm_compute in E'].
  vm_compute in E, E'. injection E as <-. injection E' as <-. split.
  - match goal with |- exists _, seek_calls ?d _ _ = _ /\ _ => destruct (seek_spec d SeekExample.calls) as (answers & Ea & Hf) end.
    + intros _. repeat (apply List.Forall_cons; [vm_compute; repeat split; done|]). apply List.Forall_nil.
    + exists answers. split; [exact Ea|]. split; [exact Hf|]. vm_compute in Ea. injection Ea as <-. reflexivity.
  - match goal with |- exists _, seek_calls ?d _ _ = _ /\ _ => destruct (seek_spec d SeekExample.calls) as (answers & Ea & Hf) end.
    + done.
    + exists answers. split; [exact Ea|]. split; [exact Hf|]. vm_compute in Ea. injection Ea as <-. reflexivity.
Defined.
