(* ===== verification/BlockCache.v ===== *)
(** * BlockCache: the cache of decompressed blocks

    [block_cache_] of [src/reader/internal/block_cache.cpp] with the blocks of
    [src/reader/internal/cached_block.cpp]: the threads that ask for ranges of
    blocks and the workers that decompress them, as steps of an execution, a
    step for each critical section and each frame that is decompressed.  The
    objects the code shares (blocks, sets of requests, promises) are references
    into lists.  The decompressors, the checks of the sections and the
    threshold on the ratio are parameters; counters and logging are left out. *)

From stdpp Require Import relations sorting.
From S2P Require Import Prelude OffsetCache.
Local Open Scope Z_scope.

(** ** The detector of sequential access *)

Record lru_detector : Type := LruDetector {
  det_lru : lru_cache Z Z;
  is_sequential_ : option bool;
  det_num_blocks : Z;
  seq_blocks_ : Z
}.

(** [no_sequential_access_detector], [lru_sequential_access_detector]. *)
Definition detector : Type := option lru_detector.

Definition create_seq_access_detector (threshold : Z) : detector :=
  if threshold =? 0 then None else Some (LruDetector (lru_create threshold) None 0 threshold).

Definition set_block_count (n : Z) (d : detector) : detector :=
  d ← d; Some (LruDetector (LruCache (max_size_ (det_lru d)) []) None n (seq_blocks_ d)).

Definition touch (block_no : Z) (d : detector) : detector :=
  d ← d;
  let '(pruned, l) := lru_set block_no block_no (det_lru d) in
  Some (LruDetector l (match pruned with Some _ => None | None => is_sequential_ d end) (det_num_blocks d) (seq_blocks_ d)).

Definition prefetch (d : detector) : option Z * detector :=
  match d with
  | None => (None, None)
  | Some d =>
      if zlen (cache_ (det_lru d)) <? seq_blocks_ d then (None, Some d)
      else
        match is_sequential_ d, (cache_ (det_lru d)).*1 with
        | Some _, _ | _, [] => (None, Some d)
        | None, k :: ks =>
            let min := foldl Z.min k ks in
            let max := foldl Z.max k ks in
            let seq := max - min + 1 =? seq_blocks_ d in
            (if seq && (max + 1 <? det_num_blocks d) then Some (max + 1) else None,
             Some (LruDetector (det_lru d) (Some seq) (det_num_blocks d) (seq_blocks_ d)))
        end
  end.

(** ** Blocks, requests, sets of requests *)

(** [cached_block_]: the data decompressed so far, up to [range_end_], and
    whether the decompressor is gone. *)
Record cached_block : Type := CachedBlock { cb_no : Z; cb_data : list Z; cb_done : bool }.
Definition cb_range_end (b : cached_block) : Z := zlen (cb_data b).

(** [block_request]: the promise is a reference; there is none that anybody
    waits for when a block is prefetched. *)
Record block_request : Type := BlockRequest { rq_begin : Z; rq_end : Z; rq_promise : option nat }.

(** [block_request_set]; [rs_alive] as long as a job or a worker holds it. *)
Record block_request_set : Type := RequestSet {
  rs_block : nat;
  rs_block_no : Z;
  rs_range_end : Z;
  rs_queue : list block_request;
  rs_alive : bool
}.

Inductive cache_error : Type :=
  | block_number_out_of_range
  | cannot_create_block
  | no_decompressor
  | decompression_failed
  | range_out_of_block
  | outside_of_memory.

(** [block_request_set::add], [merge], and the end of its last reference. *)
Definition rs_add (r : block_request) (s : block_request_set) : block_request_set :=
  RequestSet (rs_block s) (rs_block_no s) (Z.max (rq_end r) (rs_range_end s)) (r :: rs_queue s) (rs_alive s).
Definition rs_merge (other s : block_request_set) : block_request_set :=
  RequestSet (rs_block s) (rs_block_no s) (Z.max (rs_range_end s) (rs_range_end other)) (rs_queue s ++ rs_queue other) (rs_alive s).
Definition rs_reset (s : block_request_set) : block_request_set :=
  RequestSet (rs_block s) (rs_block_no s) (rs_range_end s) [] false.
Definition rs_take (rest : list block_request) (s : block_request_set) : block_request_set :=
  RequestSet (rs_block s) (rs_block_no s) (rs_range_end s) rest (rs_alive s).

(** ** The cache *)

(** A worker: between taking the job and the check for another worker, at the
    head of its loop, with a request and the position to decompress to, about
    to insert the block. *)
Inductive worker : Type :=
  | WStart (s : nat)
  | WLoop (s : nat)
  | WRun (s : nat) (r : block_request) (target : Z)
  | WInsert (block_no : Z) (b : nat).

(** A promise: the range it is for, and what it has been given. *)
Record promise : Type := Promise {
  pr_range : Z * Z * Z;
  pr_value : option (result cache_error (list Z))
}.

Record block_cache : Type := BlockCache {
  lru_ : lru_cache Z nat;
  active_ : gmap Z (list nat);
  decompressing_ : gmap Z nat;
  blocks_ : list cached_block;
  sets_ : list block_request_set;
  promises_ : list promise;
  jobs_ : list nat;
  workers_ : list worker;
  seq_access_detector_ : detector
}.

Definition with_lru x (c : block_cache) : block_cache :=
  BlockCache x (active_ c) (decompressing_ c) (blocks_ c) (sets_ c) (promises_ c) (jobs_ c) (workers_ c) (seq_access_detector_ c).
Definition with_active x (c : block_cache) : block_cache :=
  BlockCache (lru_ c) x (decompressing_ c) (blocks_ c) (sets_ c) (promises_ c) (jobs_ c) (workers_ c) (seq_access_detector_ c).
Definition with_decompressing x (c : block_cache) : block_cache :=
  BlockCache (lru_ c) (active_ c) x (blocks_ c) (sets_ c) (promises_ c) (jobs_ c) (workers_ c) (seq_access_detector_ c).
Definition with_blocks x (c : block_cache) : block_cache :=
  BlockCache (lru_ c) (active_ c) (decompressing_ c) x (sets_ c) (promises_ c) (jobs_ c) (workers_ c) (seq_access_detector_ c).
Definition with_sets x (c : block_cache) : block_cache :=
  BlockCache (lru_ c) (active_ c) (decompressing_ c) (blocks_ c) x (promises_ c) (jobs_ c) (workers_ c) (seq_access_detector_ c).
Definition with_promises x (c : block_cache) : block_cache :=
  BlockCache (lru_ c) (active_ c) (decompressing_ c) (blocks_ c) (sets_ c) x (jobs_ c) (workers_ c) (seq_access_detector_ c).
Definition with_jobs x (c : block_cache) : block_cache :=
  BlockCache (lru_ c) (active_ c) (decompressing_ c) (blocks_ c) (sets_ c) (promises_ c) x (workers_ c) (seq_access_detector_ c).
Definition with_workers x (c : block_cache) : block_cache :=
  BlockCache (lru_ c) (active_ c) (decompressing_ c) (blocks_ c) (sets_ c) (promises_ c) (jobs_ c) x (seq_access_detector_ c).
Definition with_detector x (c : block_cache) : block_cache :=
  BlockCache (lru_ c) (active_ c) (decompressing_ c) (blocks_ c) (sets_ c) (promises_ c) (jobs_ c) (workers_ c) x.

Definition SIZE_MAX : Z := 2 ^ 64 - 1.

Section cache.
(** The number of blocks; for a block that is stored uncompressed in a file with
    raw bytes, the memory from its data on, which does not end with the section;
    whether a block can be created,
    the size it will have, a frame of its data from a position on ([None]
    where that throws, and whether it is the last one), and whether what is
    decompressed is over the ratio. *)
Context (block_count : Z) (raw_data : Z -> option (list Z)) (creatable : Z -> bool) (uncompressed_size : Z -> Z)
  (decompress_frame : Z -> Z -> option (list Z * bool)) (over_ratio : Z -> Z -> bool).

(** The constructor, with [insert] of the sections and [set_block_size]. *)
Definition block_cache_create (max_bytes block_size threshold : Z) : block_cache :=
  let max_blocks := Z.max (max_bytes / block_size) 1 in
  let max_blocks := if (0 <? block_count) && (block_count <? max_blocks) then block_count else max_blocks in
  BlockCache (lru_create max_blocks) ∅ ∅ [] [] [] [] [] (set_block_count block_count (create_seq_access_detector threshold)).

(** [block_range]: the bytes, when the range has been decompressed. *)
Definition block_range (b : cached_block) (offset size : Z) : result cache_error (list Z) :=
  if cb_range_end b <? offset + size then Err range_out_of_block else Ok (slice (cb_data b) offset size).

(** [promise.set_value], [set_exception]. *)
Definition set_value (p : option nat) (v : result cache_error (list Z)) (c : block_cache) : block_cache :=
  match p with
  | Some p => with_promises (alter (fun x => Promise (pr_range x) (Some v)) p (promises_ c)) c
  | None => c
  end.

(** [block_->data_], by reference. *)
Definition block_at (c : block_cache) (i : nat) : cached_block := default (CachedBlock (-1) [] true) (blocks_ c !! i).
Definition set_at (c : block_cache) (j : nat) : block_request_set := default (RequestSet 0 (-1) 0 [] false) (sets_ c !! j).

(** A new set of one request for a block, active and enqueued. *)
Definition enqueue_set (block_no : Z) (others : list nat) (i : nat) (r : block_request) (c : block_cache) : block_cache :=
  let j := length (sets_ c) in
  let s := rs_add r (RequestSet i block_no 0 [] true) in
  with_jobs (jobs_ c ++ [j]) (with_active (<[block_no := others ++ [j]]> (active_ c)) (with_sets (sets_ c ++ [s]) c)).

Definition active_sets (block_no : Z) (c : block_cache) : list nat := default [] (active_ c !! block_no).

Definition create_cached_block (block_no : Z) (p : option nat) (offset range_end : Z) (c : block_cache) : block_cache :=
  if negb (creatable block_no) then set_value p (Err cannot_create_block) c
  else
    let i := length (blocks_ c) in
    let c := with_blocks (blocks_ c ++ [CachedBlock block_no [] false]) c in
    enqueue_set block_no (active_sets block_no c) i (BlockRequest offset range_end p) c.

(** The choice among the sets that are alive: the first one that reaches far
    enough, the first one otherwise. *)
Fixpoint choose_set (c : block_cache) (range_end : Z) (l : list nat) (brs : option (nat * bool)) : option (nat * bool) :=
  match l with
  | [] => brs
  | j :: l =>
      let can_add_to_set := range_end <=? rs_range_end (set_at c j) in
      choose_set c range_end l
        match brs with
        | None => Some (j, can_add_to_set)
        | Some (_, add_to_set) => if can_add_to_set && negb add_to_set then Some (j, can_add_to_set) else brs
        end
  end.

(** [get], the part that holds the lock; [p] is the promise. *)
Definition get_from_cache (block_no offset size : Z) (p : nat) (c : block_cache) : block_cache :=
  let range_end := offset + size in
  match lru_find block_no true (lru_ c) with
  | (Some i, l) =>
      let c := with_lru l c in
      if range_end <=? cb_range_end (block_at c i) then set_value (Some p) (block_range (block_at c i) offset size) c
      else enqueue_set block_no (active_sets block_no c) i (BlockRequest offset range_end (Some p)) c
  | (None, l) => create_cached_block block_no (Some p) offset range_end (with_lru l c)
  end.

Definition get_locked (block_no offset size : Z) (p : nat) (c : block_cache) : block_cache :=
  let range_end := offset + size in
  match active_ c !! block_no with
  | None => get_from_cache block_no offset size p c
  | Some l =>
      let l := filter (fun j => rs_alive (set_at c j) = true) l in
      match choose_set c range_end l None with
      | None => get_from_cache block_no offset size p (with_active (delete block_no (active_ c)) c)
      | Some (j, add_to_set) =>
          let c := with_active (<[block_no := l]> (active_ c)) c in
          let i := rs_block (set_at c j) in
          if range_end <=? cb_range_end (block_at c i) then set_value (Some p) (block_range (block_at c i) offset size) c
          else
            let r := BlockRequest offset range_end (Some p) in
            if add_to_set then with_sets (alter (rs_add r) j (sets_ c)) c
            else enqueue_set block_no l i r c
      end
  end.

(** [get]: the reference to the promise.  The range of an uncompressed section is
    not compared with its length: what follows the section is handed out with it,
    and where the memory ends, reading the range is an error of the machine
    ([outside_of_memory]). *)
Definition get (block_no offset size : Z) (c : block_cache) : nat * block_cache :=
  let c := with_detector (touch block_no (seq_access_detector_ c)) c in
  let p := length (promises_ c) in
  let c := with_promises (promises_ c ++ [Promise (block_no, offset, size) None]) c in
  (p, if block_count <=? block_no then set_value (Some p) (Err block_number_out_of_range) c
      else
        match raw_data block_no with
        | Some d => set_value (Some p) (if zlen d <? offset + size then Err outside_of_memory else Ok (slice d offset size)) c
        | None => get_locked block_no offset size p c
        end).

(** [do_prefetch], when [get] is left. *)
Definition do_prefetch (c : block_cache) : block_cache :=
  match prefetch (seq_access_detector_ c) with
  | (None, d) => with_detector d c
  | (Some next, d) =>
      let c := with_detector d c in
      match lru_find next false (lru_ c), active_ c !! next with
      | (None, _), None => create_cached_block next None 0 SIZE_MAX c
      | _, _ => c
      end
  end.

(** *** [process_job] *)

(** The check for another worker with the block: the requests are merged into
    its set, or the worker goes on with this one. *)
Definition process_start (j : nat) (c : block_cache) : block_cache * option worker :=
  let block_no := rs_block_no (set_at c j) in
  let go := (with_decompressing (<[block_no := j]> (decompressing_ c)) c, Some (WLoop j)) in
  match decompressing_ c !! block_no with
  | None => go
  | Some k =>
      if rs_alive (set_at c k) then
        (with_sets (alter rs_reset j (alter (rs_merge (set_at c j)) k (sets_ c))) c, None)
      else go
  end.

(** Where to decompress to for a request. *)
Definition target_of (block_no : Z) (r : block_request) (is_last_req : bool) : Z :=
  let max_end := uncompressed_size block_no in
  let range_end := if rq_end r =? SIZE_MAX then max_end else rq_end r in
  if is_last_req && over_ratio range_end max_end then max_end else range_end.

(** A turn of [decompress_until], or [fulfill] or [error]. *)
Definition process_run (j : nat) (r : block_request) (target : Z) (c : block_cache) : block_cache * worker :=
  let i := rs_block (set_at c j) in
  let b := block_at c i in
  if cb_range_end b <? target then
    if cb_done b then (set_value (rq_promise r) (Err no_decompressor) c, WLoop j)
    else
      match decompress_frame (cb_no b) (cb_range_end b) with
      | None => (set_value (rq_promise r) (Err decompression_failed) c, WLoop j)
      | Some (data, last) =>
          (with_blocks (<[i := CachedBlock (cb_no b) (cb_data b ++ data) last]> (blocks_ c)) c, WRun j r target)
      end
  else (set_value (rq_promise r) (block_range b (rq_begin r) (rq_end r - rq_begin r)) c, WLoop j).

Inductive worker_step : block_cache -> block_cache -> Prop :=
  | step_job c j js :
      jobs_ c = j :: js -> worker_step c (with_workers (workers_ c ++ [WStart j]) (with_jobs js c))
  | step_start c ws1 ws2 j c' w :
      workers_ c = ws1 ++ WStart j :: ws2 -> process_start j c = (c', w) ->
      worker_step c (with_workers (ws1 ++ option_list w ++ ws2) c')
  | step_request c ws1 ws2 j r rest :
      workers_ c = ws1 ++ WLoop j :: ws2 -> rs_queue (set_at c j) ≡ₚ r :: rest ->
      Forall (fun r' => rq_end r' <= rq_end r) rest ->
      worker_step c (with_workers (ws1 ++ WRun j r (target_of (rs_block_no (set_at c j)) r (bool_decide (rest = []))) :: ws2)
        (with_sets (alter (rs_take rest) j (sets_ c)) c))
  | step_end c ws1 ws2 j :
      workers_ c = ws1 ++ WLoop j :: ws2 -> rs_queue (set_at c j) = [] ->
      worker_step c (with_workers (ws1 ++ WInsert (rs_block_no (set_at c j)) (rs_block (set_at c j)) :: ws2)
        (with_sets (alter rs_reset j (sets_ c)) c))
  | step_run c ws1 ws2 j r target c' w :
      workers_ c = ws1 ++ WRun j r target :: ws2 -> process_run j r target c = (c', w) ->
      worker_step c (with_workers (ws1 ++ w :: ws2) c')
  | step_insert c ws1 ws2 b i :
      workers_ c = ws1 ++ WInsert b i :: ws2 ->
      worker_step c (with_workers (ws1 ++ ws2) (with_lru (lru_set b i (lru_ c)).2 c)).

(** Everything that happens: the calls of [get], the prefetches, the workers,
    and the blocks that [tidy_cache] removes. *)
Inductive cache_step : block_cache -> block_cache -> Prop :=
  | step_get c b o n : 0 <= o -> 0 < n -> o + n < SIZE_MAX -> 0 <= b -> cache_step c (get b o n c).2
  | step_prefetch c : cache_step c (do_prefetch c)
  | step_worker c c' : worker_step c c' -> cache_step c c'
  | step_tidy c b : cache_step c (with_lru (lru_erase b (lru_ c)) c).
End cache.

(** ** The invariant *)

Lemma forall_filter {A} (P Q : A -> Prop) `{forall x, Decision (Q x)} l : Forall P l -> Forall P (filter Q l).
Proof. rewrite !Forall_forall. intros HP x [_ Hx]%list_elem_of_filter. by apply HP. Qed.

(** What is relied on of the memory and of the decompressors: the memory starts
    with the data of the block, and the frames of a block, one after the other,
    are its data, which is neither empty nor as large as the
    address space. *)
Class Decompresses (raw_data : Z -> option (list Z)) (uncompressed_size : Z -> Z)
    (decompress_frame : Z -> Z -> option (list Z * bool)) (data : Z -> list Z) : Prop := {
  dc_raw b d : raw_data b = Some d -> exists rest, d = data b ++ rest;
  dc_size b : uncompressed_size b = zlen (data b);
  dc_range b : 0 < zlen (data b) < SIZE_MAX;
  dc_frame b pos l last : 0 <= pos < zlen (data b) -> decompress_frame b pos = Some (l, last) ->
    0 < zlen l /\ pos + zlen l <= zlen (data b) /\ l = slice (data b) pos (zlen l) /\
    (last = true <-> pos + zlen l = zlen (data b))
}.

Section invariant.
Context (block_count : Z) (raw_data : Z -> option (list Z)) (creatable : Z -> bool) (uncompressed_size : Z -> Z)
  (decompress_frame : Z -> Z -> option (list Z * bool)) (over_ratio : Z -> Z -> bool) (data : Z -> list Z)
  `{!Decompresses raw_data uncompressed_size decompress_frame data}.
#[local] Abbreviation worker_step := (worker_step uncompressed_size decompress_frame over_ratio).
#[local] Abbreviation cache_step := (cache_step block_count raw_data creatable uncompressed_size decompress_frame over_ratio).

(** A block that can be read. *)
Definition good (b : Z) : Prop :=
  b < block_count /\
  (is_Some (raw_data b) \/ creatable b = true /\ forall pos, 0 <= pos < zlen (data b) -> is_Some (decompress_frame b pos)).

(** What a promise for a range may be given: the bytes of the range, when it is
    inside the block; what lies in memory there, when the block is not compressed
    and the range is not inside it; an error only where the block cannot be read,
    or the range is not inside it. *)
Definition answer (range : Z * Z * Z) (v : result cache_error (list Z)) : Prop :=
  let '(b, o, n) := range in
  match v with
  | Ok l => if o + n <=? zlen (data b) then l = slice (data b) o n
            else exists mem, raw_data b = Some mem /\ l = slice mem o n
  | Err _ => ~ (good b /\ o + n <= zlen (data b))
  end.

Definition block_inv (b : cached_block) : Prop :=
  cb_data b = slice (data (cb_no b)) 0 (zlen (cb_data b)) /\ zlen (cb_data b) <= zlen (data (cb_no b)) /\
  (cb_done b = true <-> zlen (cb_data b) = zlen (data (cb_no b))) /\ creatable (cb_no b) = true.

(** The set a worker holds, the request it has taken. *)
Definition owner (w : worker) : option nat :=
  match w with
  | WStart j | WLoop j | WRun j _ _ => Some j
  | WInsert _ _ => None
  end.
Definition running (w : worker) : list block_request := match w with WRun _ r _ => [r] | _ => [] end.

Definition owners (c : block_cache) : list nat := jobs_ c ++ omap owner (workers_ c).
Definition queues (sets : list block_request_set) : list block_request := concat (map rs_queue sets).
#[local] Arguments queues : simpl never.
Definition requests (c : block_cache) : list block_request := queues (sets_ c) ++ concat (map running (workers_ c)).
Definition pids (c : block_cache) : list nat := omap rq_promise (requests c).

Definition request_ok (ps : list promise) (block_no : Z) (r : block_request) : Prop :=
  0 <= rq_begin r < rq_end r /\ rq_end r <= SIZE_MAX /\
  forall p, rq_promise r = Some p -> raw_data block_no = None /\ ps !! p = Some (Promise (block_no, rq_begin r, rq_end r - rq_begin r) None).

(** A reference to a block, to a set, for a block number. *)
Definition block_ref (blocks : list cached_block) (i : nat) (block_no : Z) : Prop :=
  exists b, blocks !! i = Some b /\ cb_no b = block_no.
Definition set_ref (sets : list block_request_set) (j : nat) (block_no : Z) : Prop :=
  exists s, sets !! j = Some s /\ rs_block_no s = block_no.

Definition set_inv (c : block_cache) (s : block_request_set) : Prop :=
  block_ref (blocks_ c) (rs_block s) (rs_block_no s) /\
  Forall (request_ok (promises_ c) (rs_block_no s)) (rs_queue s) /\
  (rs_alive s = false -> rs_queue s = []).

Definition worker_inv (c : block_cache) (w : worker) : Prop :=
  match w with
  | WStart j => map_Forall (fun _ k => k <> j) (decompressing_ c)
  | WLoop j => decompressing_ c !! rs_block_no (set_at c j) = Some j
  | WRun j r target =>
      decompressing_ c !! rs_block_no (set_at c j) = Some j /\
      request_ok (promises_ c) (rs_block_no (set_at c j)) r /\
      (rq_end r <= zlen (data (rs_block_no (set_at c j))) -> rq_end r <= target <= zlen (data (rs_block_no (set_at c j))))
  | WInsert b i => block_ref (blocks_ c) i b
  end.

Record inv (c : block_cache) : Prop := {
  i_blocks : Forall block_inv (blocks_ c);
  i_sets : Forall (set_inv c) (sets_ c);
  i_workers : Forall (worker_inv c) (workers_ c);
  i_jobs : Forall (fun j => map_Forall (fun _ k => k <> j) (decompressing_ c)) (jobs_ c);
  i_owners : NoDup (owners c);
  i_alive : forall j, j ∈ owners c <-> exists s, sets_ c !! j = Some s /\ rs_alive s = true;
  i_pids : NoDup (pids c);
  i_pending : forall p q, promises_ c !! p = Some q -> pr_value q = None -> p ∈ pids c;
  i_done : forall p q v, promises_ c !! p = Some q -> pr_value q = Some v -> answer (pr_range q) v;
  i_decompressing : map_Forall (fun b j => set_ref (sets_ c) j b) (decompressing_ c);
  i_active : map_Forall (fun b l => Forall (fun j => set_ref (sets_ c) j b) l) (active_ c);
  i_cache : Forall (fun e => block_ref (blocks_ c) e.2 e.1) (cache_ (lru_ c))
}.

Lemma inv_create max_bytes block_size threshold : inv (block_cache_create block_count max_bytes block_size threshold).
Proof.
  split; try (by constructor); try done.
  intros j. split; [by intros ?%elem_of_nil|]. by intros (s & H & _).
Qed.

(** *** Sets and requests *)

Lemma queues_alter sets j s f : sets !! j = Some s ->
  exists rest, queues sets ≡ₚ rs_queue s ++ rest /\ queues (alter f j sets) ≡ₚ rs_queue (f s) ++ rest.
Proof.
  revert j. induction sets as [|x sets IH]; intros [|j] H; try done.
  - injection H as ->. exists (queues sets). split; done.
  - destruct (IH j H) as (rest & H1 & H2). exists (rs_queue x ++ rest). unfold queues in *. cbn.
    split; rewrite ?H1, ?H2, !app_assoc; by rewrite (Permutation_app_comm (rs_queue x)).
Qed.

Lemma queues_app a b : queues (a ++ b) = queues a ++ queues b.
Proof. unfold queues. by rewrite map_app, concat_app. Qed.

Lemma queues_one s : queues [s] = rs_queue s.
Proof. apply app_nil_r. Qed.

Lemma set_at_lookup c j s : sets_ c !! j = Some s -> set_at c j = s.
Proof. intros H. unfold set_at. by rewrite H. Qed.

Lemma block_at_lookup c i b : blocks_ c !! i = Some b -> block_at c i = b.
Proof. intros H. unfold block_at. by rewrite H. Qed.

Lemma block_ref_app blocks b i n : block_ref blocks i n -> block_ref (blocks ++ [b]) i n.
Proof. intros (x & H & E). exists x. split; [by apply lookup_app_l_Some|done]. Qed.

Lemma set_ref_app sets s j n : set_ref sets j n -> set_ref (sets ++ [s]) j n.
Proof. intros (x & H & E). exists x. split; [by apply lookup_app_l_Some|done]. Qed.

Lemma set_ref_alter sets f k j n : (forall s, rs_block_no (f s) = rs_block_no s) -> set_ref sets j n -> set_ref (alter f k sets) j n.
Proof.
  intros Hf (x & H & E). destruct (decide (k = j)) as [->|Hne].
  - exists (f x). rewrite list_lookup_alter_eq, H. by rewrite Hf.
  - exists x. by rewrite list_lookup_alter_ne.
Qed.

Lemma request_ok_app ps qs no r : request_ok ps no r -> request_ok (ps ++ qs) no r.
Proof. intros (H1 & H2 & H3). split; [done|]. split; [done|]. intros p Hp. destruct (H3 p Hp). split; [done|]. by apply lookup_app_l_Some. Qed.

(** A promise is given a value by the request that has it, and only by that
    one. *)
Lemma request_ok_set ps no r p f : request_ok ps no r -> rq_promise r <> Some p -> request_ok (alter f p ps) no r.
Proof.
  intros (H1 & H2 & H3) Hp. split; [done|]. split; [done|]. intros p' Hp'. rewrite list_lookup_alter_ne by congruence. by apply H3.
Qed.

Lemma inv_set_lru c l : inv c -> Forall (fun e => block_ref (blocks_ c) e.2 e.1) (cache_ l) -> inv (with_lru l c).
Proof. by intros [] H. Qed.

Lemma inv_set_active c a : inv c -> map_Forall (fun b l => Forall (fun j => set_ref (sets_ c) j b) l) a -> inv (with_active a c).
Proof. by intros [] H. Qed.

Lemma inv_set_detector c d : inv c -> inv (with_detector d c).
Proof. by intros []. Qed.

(** The promises of the requests wait. *)
Lemma pids_waiting c p : inv c -> p ∈ pids c -> exists rng, promises_ c !! p = Some (Promise rng None).
Proof.
  intros Hinv Hp. unfold pids, requests in Hp. apply list_elem_of_omap in Hp as (r & Hr & Ep). apply elem_of_app in Hr as [Hr|Hr].
  - unfold queues in Hr. apply list_elem_of_In, in_concat in Hr as (q & Hq & Hr). apply list_elem_of_In, list_elem_of_fmap in Hq as (s & -> & Hs).
    pose proof (i_sets _ Hinv) as H. rewrite Forall_forall in H. destruct (H s Hs) as (_ & Hq & _).
    rewrite Forall_forall in Hq. destruct (Hq r) as (_ & _ & H3); [by apply list_elem_of_In|]. eexists. by apply (H3 p).
  - apply list_elem_of_In, in_concat in Hr as (q & Hq & Hr). apply list_elem_of_In, list_elem_of_fmap in Hq as (w & -> & Hw).
    pose proof (i_workers _ Hinv) as H. rewrite Forall_forall in H. specialize (H w Hw).
    destruct w as [j|j|j r' t|b i]; cbn in Hr; try done. destruct Hr as [->|[]]. destruct H as (_ & (_ & _ & H3) & _).
    eexists. by apply (H3 p).
Qed.

Lemma set_inv_promises c ps c' s : blocks_ c' = blocks_ c -> promises_ c' = promises_ c ++ ps -> set_inv c s -> set_inv c' s.
Proof.
  intros Eb Ep (H1 & H2 & H3). unfold set_inv. rewrite Eb, Ep. split; [done|]. split; [|done].
  eapply Forall_impl; [exact H2|]. intros r Hr. by apply request_ok_app.
Qed.

Lemma worker_inv_promises c ps c' w : blocks_ c' = blocks_ c -> decompressing_ c' = decompressing_ c ->
  promises_ c' = promises_ c ++ ps -> (forall j, set_ref (sets_ c) j (rs_block_no (set_at c j)) -> rs_block_no (set_at c' j) = rs_block_no (set_at c j)) ->
  (forall j, owner w = Some j -> set_ref (sets_ c) j (rs_block_no (set_at c j))) ->
  worker_inv c w -> worker_inv c' w.
Proof.
  intros Eb Ed Ep Es Ho. unfold worker_inv. rewrite Eb, Ed, Ep. destruct w as [j|j|j r t|b i]; try done.
  - by rewrite Es by (by apply Ho).
  - rewrite Es by (by apply Ho). intros (H1 & H2 & H3). split_and!; [done|by apply request_ok_app|done].
Qed.

(** The sets that jobs and workers hold are there. *)
Lemma owner_ref c j : inv c -> j ∈ owners c -> set_ref (sets_ c) j (rs_block_no (set_at c j)).
Proof. intros Hinv Hj. apply (i_alive _ Hinv) in Hj as (s & Hs & _). exists s. split; [done|]. by rewrite (set_at_lookup _ _ _ Hs). Qed.

Lemma worker_owner c w j : w ∈ workers_ c -> owner w = Some j -> j ∈ owners c.
Proof. intros Hw Hj. unfold owners. apply elem_of_app. right. apply list_elem_of_omap. by exists w. Qed.

(** A promise that is given its value at once. *)
Lemma inv_new_done c rng v : inv c -> answer rng v -> inv (with_promises (promises_ c ++ [Promise rng (Some v)]) c).
Proof.
  intros Hinv Hv. pose proof Hinv as []. split; try done.
  - eapply Forall_impl; [exact i_sets0|]. intros s. by eapply set_inv_promises.
  - rewrite Forall_forall in *. intros w Hw. eapply worker_inv_promises; [..|by apply i_workers0]; try done.
    intros j Hj. apply owner_ref; [done|]. by eapply worker_owner.
  - intros p q Hp Hq. apply lookup_app_Some in Hp as [Hp|[_ Hp]]; [by eapply i_pending0|].
    by apply list_lookup_singleton_Some in Hp as [_ <-].
  - intros p q v' Hp Hq. apply lookup_app_Some in Hp as [Hp|[_ Hp]]; [by eapply i_done0|].
    apply list_lookup_singleton_Some in Hp as [_ <-]. by injection Hq as <-.
Qed.

(** A new request: its promise, when there is one, is the new one. *)
Definition new_request (c : block_cache) (b : Z) (r : block_request) (extra : list promise) : Prop :=
  request_ok (promises_ c ++ extra) b r /\
  (rq_promise r = None /\ extra = [] \/ rq_promise r = Some (length (promises_ c)) /\ exists rng, extra = [Promise rng None]).

Lemma inv_new_pids c b r extra c' : inv c -> new_request c b r extra ->
  promises_ c' = promises_ c ++ extra -> requests c' ≡ₚ r :: requests c ->
  NoDup (pids c') /\ (forall p q, promises_ c' !! p = Some q -> pr_value q = None -> p ∈ pids c') /\
  (forall p q v, promises_ c' !! p = Some q -> pr_value q = Some v -> answer (pr_range q) v).
Proof.
  intros Hinv [_ Hr] Ep Er. assert (pids c' ≡ₚ omap rq_promise (r :: requests c)) as Epids by (unfold pids; by rewrite Er).
  assert (forall p q, extra !! (p - length (promises_ c))%nat = Some q -> (length (promises_ c) <= p)%nat ->
    p = length (promises_ c) /\ rq_promise r = Some p /\ exists rng, q = Promise rng None) as Hextra.
  { intros p q Hq Hp. destruct Hr as [(_ & ->)|(E & rng & ->)]; [by rewrite lookup_nil in Hq|].
    apply list_lookup_singleton_Some in Hq as [H0 <-]. assert (p = length (promises_ c)) as -> by lia. by eauto. }
  rewrite Epids. cbn [omap list_omap]. split_and!.
  - destruct Hr as [(-> & _)|(-> & _)]; [apply Hinv|]. constructor; [|apply Hinv].
    intros Hin. destruct (pids_waiting c _ Hinv Hin) as (rng & Hl). apply lookup_lt_Some in Hl. lia.
  - intros p q Hp Hq. rewrite Ep in Hp. apply lookup_app_Some in Hp as [Hp|[Hle Hp]].
    + pose proof (i_pending _ Hinv p q Hp Hq). rewrite Epids. cbn [omap list_omap]. destruct (rq_promise r); [by apply elem_of_cons; right|done].
    + destruct (Hextra p q Hp Hle) as (-> & E & _). rewrite Epids. cbn [omap list_omap]. rewrite E. by left.
  - intros p q v Hp Hq. rewrite Ep in Hp. apply lookup_app_Some in Hp as [Hp|[Hle Hp]]; [by eapply (i_done _ Hinv)|].
    by destruct (Hextra p q Hp Hle) as (_ & _ & rng & ->).
Qed.

Lemma set_at_app c c' s j n : sets_ c' = sets_ c ++ [s] -> set_ref (sets_ c) j n -> rs_block_no (set_at c' j) = rs_block_no (set_at c j).
Proof. intros Es (x & H & _). unfold set_at. by rewrite Es, (lookup_app_l_Some _ _ _ _ H), H. Qed.

Lemma inv_enqueue c b others i r extra : inv c -> block_ref (blocks_ c) i b -> Forall (fun j => set_ref (sets_ c) j b) others ->
  new_request c b r extra -> inv (enqueue_set b others i r (with_promises (promises_ c ++ extra) c)).
Proof.
  intros Hinv Hi Ho Hr. pose proof Hr as [Hrok _]. set (c' := enqueue_set _ _ _ _ _).
  assert (requests c' ≡ₚ r :: requests c) as Ereq.
  { unfold requests, c', enqueue_set. cbn. rewrite queues_app, queues_one. cbn. rewrite <- app_assoc. symmetry. apply Permutation_middle. }
  destruct (inv_new_pids c b r extra c' Hinv Hr eq_refl Ereq) as (N1 & N2 & N3).
  set (n := length (sets_ c)). assert (n ∉ owners c) as Hn.
  { intros Hj. apply (i_alive _ Hinv) in Hj as (s & Hs & _). apply lookup_lt_Some in Hs. unfold n in *. lia. }
  assert (owners c' ≡ₚ n :: owners c) as Eown.
  { unfold owners, c', enqueue_set. cbn. rewrite <- app_assoc. symmetry. apply Permutation_middle. }
  assert (map_Forall (fun _ k => k <> n) (decompressing_ c)) as Hfresh.
  { intros k j Hk ->. destruct (i_decompressing _ Hinv k n Hk) as (s & Hs & _). apply lookup_lt_Some in Hs. unfold n in *. lia. }
  split; try done.
  - apply Hinv.
  - unfold c', enqueue_set. cbn. apply Forall_app. split.
    + eapply Forall_impl; [apply Hinv|]. intros s. by eapply set_inv_promises.
    + constructor; [|done]. split; [done|]. split; [|done]. by constructor.
  - unfold c', enqueue_set. cbn. pose proof (i_workers _ Hinv) as Hw. rewrite Forall_forall in *. intros w Hin.
    eapply worker_inv_promises; [..|by apply Hw]; try done.
    + intros j Hj. by eapply set_at_app.
    + intros j Hj. apply owner_ref; [done|]. by eapply worker_owner.
  - unfold c', enqueue_set. cbn. apply Forall_app. split; [apply Hinv|by constructor].
  - rewrite Eown. constructor; [done|apply Hinv].
  - intros j. rewrite Eown, elem_of_cons, (i_alive _ Hinv). unfold c', enqueue_set. cbn. split.
    + intros [->|(s & Hs & Ha)].
      * eexists. split; [by apply list_lookup_middle|done].
      * exists s. split; [by apply lookup_app_l_Some|done].
    + intros (s & Hs & Ha). apply lookup_app_Some in Hs as [Hs|[Hle Hs]]; [right; by exists s|].
      left. apply list_lookup_singleton_Some in Hs as [H0 _]. unfold n. lia.
  - intros k j Hk. unfold c', enqueue_set. cbn. apply set_ref_app. by apply (i_decompressing _ Hinv k j).
  - unfold c', enqueue_set. cbn. apply map_Forall_insert_2.
    + apply Forall_app. split; [eapply Forall_impl; [exact Ho|]; intros; by apply set_ref_app|].
      constructor; [|done]. eexists. split; [by apply list_lookup_middle|done].
    + intros k l Hk. eapply Forall_impl; [by apply (i_active _ Hinv k l)|]. intros; by apply set_ref_app.
  - apply Hinv.
Qed.

Lemma inv_add_to_set c b j s r extra : inv c -> sets_ c !! j = Some s -> rs_alive s = true -> rs_block_no s = b ->
  new_request c b r extra -> inv (with_sets (alter (rs_add r) j (sets_ c)) (with_promises (promises_ c ++ extra) c)).
Proof.
  intros Hinv Hj Ha Eb Hr. pose proof Hr as [Hrok _]. set (c' := with_sets _ _).
  assert (requests c' ≡ₚ r :: requests c) as Ereq.
  { unfold requests, c'. cbn. destruct (queues_alter (sets_ c) j s (rs_add r) Hj) as (rest & E1 & E2). rewrite E1, E2. cbn. done. }
  destruct (inv_new_pids c b r extra c' Hinv Hr eq_refl Ereq) as (N1 & N2 & N3).
  assert (forall k, rs_block_no (set_at c' k) = rs_block_no (set_at c k)) as Hno.
  { intros k. unfold set_at, c'. cbn. destruct (decide (j = k)) as [->|Hne].
    - by rewrite list_lookup_alter_eq, Hj.
    - by rewrite list_lookup_alter_ne. }
  split; try done.
  - apply Hinv.
  - unfold c'. cbn. apply Forall_lookup. intros k x Hk. pose proof (i_sets _ Hinv) as Hs. rewrite Forall_lookup in Hs.
    destruct (decide (j = k)) as [<-|Hne].
    + rewrite list_lookup_alter_eq, Hj in Hk. injection Hk as <-. destruct (Hs j s Hj) as (S1 & S2 & S3).
      split; [done|]. split; [|by cbn; rewrite Ha]. cbn. rewrite Eb in *. constructor; [done|].
      eapply Forall_impl; [exact S2|]. intros. by apply request_ok_app.
    + rewrite list_lookup_alter_ne in Hk by done. eapply set_inv_promises; [..|by eapply Hs]; done.
  - unfold c'. cbn. pose proof (i_workers _ Hinv) as Hw. rewrite Forall_forall in *. intros w Hin.
    eapply worker_inv_promises; [..|by apply Hw]; try done.
    intros k Hk. apply owner_ref; [done|]. by eapply worker_owner.
  - apply Hinv.
  - apply Hinv.
  - intros k. change (owners c') with (owners c). rewrite (i_alive _ Hinv). unfold c'. cbn. destruct (decide (j = k)) as [<-|Hne].
    + rewrite list_lookup_alter_eq, Hj. cbn. split; intros (x & [= <-] & ?); by eexists.
    + by rewrite list_lookup_alter_ne.
  - intros k i Hk. unfold c'. cbn. apply set_ref_alter; [done|]. by apply (i_decompressing _ Hinv k i).
  - intros k l Hk. unfold c'. cbn. eapply Forall_impl; [by apply (i_active _ Hinv k l)|]. intros; by apply set_ref_alter.
  - apply Hinv.
Qed.

(** A new block. *)
Lemma inv_new_block c b : inv c -> creatable b = true ->
  inv (with_blocks (blocks_ c ++ [CachedBlock b [] false]) c).
Proof.
  intros [] Hc. pose proof (dc_range b) as Hrange. split; try done; cbn.
  - apply Forall_app. split; [done|]. constructor; [|done]. unfold block_inv. cbn. change (zlen (@nil Z)) with 0.
    split_and!; [done|lia| |done]. split; [done|lia].
  - eapply Forall_impl; [exact i_sets0|]. intros s (H1 & H2 & H3). split_and!; try done. by apply block_ref_app.
  - eapply Forall_impl; [exact i_workers0|]. intros [j|j|j r t|n i]; try done. cbn. intros. by apply block_ref_app.
  - eapply Forall_impl; [exact i_cache0|]. intros. by apply block_ref_app.
Qed.

(** *** The calls *)

Lemma set_value_new c rng v :
  set_value (Some (length (promises_ c))) v (with_promises (promises_ c ++ [Promise rng None]) c) =
    with_promises (promises_ c ++ [Promise rng (Some v)]) c.
Proof.
  unfold set_value. cbn [promises_ with_promises]. rewrite <- (Nat.add_0_r (length _)), alter_app_r. done.
Qed.

Lemma slice_of_slice (l : list Z) m o n : 0 <= o -> 0 <= n -> o + n <= m -> slice (slice l 0 m) o n = slice l o n.
Proof. intros. by rewrite slice_slice by lia. Qed.

Lemma answer_inside b o n : o + n <= zlen (data b) -> answer (b, o, n) (Ok (slice (data b) o n)).
Proof. intros H. cbn. by replace (o + n <=? zlen (data b)) with true by lia. Qed.

Lemma block_range_answer b blk o n : block_inv blk -> cb_no blk = b -> 0 <= o -> 0 <= n -> o + n <= cb_range_end blk ->
  block_range blk o n = Ok (slice (data b) o n) /\ o + n <= zlen (data b).
Proof.
  intros (E & Hle & _) <- Ho Hn Hr. unfold block_range. replace (cb_range_end blk <? o + n) with false by lia.
  unfold cb_range_end in *. split; [|lia]. rewrite E at 1. by rewrite slice_of_slice by lia.
Qed.

Lemma block_ref_at c i b : inv c -> block_ref (blocks_ c) i b -> block_inv (block_at c i) /\ cb_no (block_at c i) = b.
Proof.
  intros Hinv (blk & Hb & E). rewrite (block_at_lookup _ _ _ Hb). split; [|done].
  pose proof (i_blocks _ Hinv) as H. rewrite Forall_lookup in H. by apply (H i).
Qed.

Lemma promote_forall (P : Z * nat -> Prop) c k i : lru_lookup k (cache_ c) = Some i -> Forall P (cache_ c) ->
  Forall P (cache_ (lru_find k true c).2) /\ P (k, i).
Proof.
  intros E H. pose proof H as H'. rewrite Forall_forall in H'. specialize (H' _ (lru_lookup_in _ _ _ E)).
  unfold lru_find. rewrite E. cbn. split; [|done]. constructor; [done|]. by apply forall_filter.
Qed.

Section call.
Context (c : block_cache) (b o n : Z) (Hinv : inv c) (Ho : 0 <= o) (Hn : 0 < n) (Hon : o + n < SIZE_MAX).
Context (Hb : b < block_count) (Hraw : raw_data b = None).
#[local] Abbreviation p := (length (promises_ c)).
#[local] Abbreviation waiting c := (with_promises (promises_ c ++ [Promise (b, o, n) None]) c).

Lemma new_request_ok : new_request c b (BlockRequest o (o + n) (Some p)) [Promise (b, o, n) None].
Proof.
  split; [|right; split; [done|by eexists]]. split; [cbn; lia|]. split; [cbn; lia|]. intros p' [= <-]. split; [done|]. cbn.
  replace (o + n - o) with n by lia. by apply list_lookup_middle.
Qed.

(** Given at once from a block, or by a new set for the block. *)
Lemma inv_from_block c' i others : inv c' -> promises_ c' = promises_ c -> block_ref (blocks_ c') i b ->
  Forall (fun j => set_ref (sets_ c') j b) others ->
  inv (if o + n <=? cb_range_end (block_at c' i) then set_value (Some p) (block_range (block_at c' i) o n) (waiting c')
       else enqueue_set b others i (BlockRequest o (o + n) (Some p)) (waiting c')).
Proof.
  intros Hinv' Ep Hi Ho'. destruct (block_ref_at c' i b Hinv' Hi) as [Hblk Eno].
  destruct (Z.leb_spec (o + n) (cb_range_end (block_at c' i))) as [Hle|Hgt].
  - destruct (block_range_answer b _ o n Hblk Eno Ho ltac:(lia) Hle) as [-> Hin].
    rewrite <- Ep. rewrite set_value_new. apply inv_new_done; [done|]. by apply answer_inside.
  - apply inv_enqueue; try done. pose proof new_request_ok as [H1 H2]. unfold new_request. by rewrite Ep.
Qed.

Lemma inv_create_block c' : inv c' -> promises_ c' = promises_ c ->
  inv (create_cached_block creatable b (Some p) o (o + n) (waiting c')).
Proof.
  intros Hinv' Ep. unfold create_cached_block. destruct (creatable b) eqn:Ec; cbn [negb].
  - change (with_blocks (blocks_ (waiting c') ++ [CachedBlock b [] false]) (waiting c')) with
      (waiting (with_blocks (blocks_ c' ++ [CachedBlock b [] false]) c')).
    pose proof (inv_new_block c' b Hinv' Ec) as Hnb.
    apply inv_enqueue; [done|cbn; eexists; split; [by apply list_lookup_middle|done]| |].
    + unfold active_sets. cbn. destruct (active_ c' !! b) as [l|] eqn:El; [|constructor]. by apply (i_active _ Hinv' b l).
    + pose proof new_request_ok as [H1 H2]. unfold new_request. cbn. by rewrite Ep.
  - rewrite <- Ep, set_value_new. apply inv_new_done; [done|]. cbn. intros [[_ [[d Hd]|[H _]]] _]; congruence.
Qed.

Lemma inv_get_from_cache c' : inv c' -> promises_ c' = promises_ c -> inv (get_from_cache creatable b o n p (waiting c')).
Proof.
  intros Hinv' Ep. unfold get_from_cache. cbn [lru_ with_promises]. unfold lru_find.
  destruct (lru_lookup b (cache_ (lru_ c'))) as [i|] eqn:El.
  - destruct (promote_forall (fun e => block_ref (blocks_ c') e.2 e.1) (lru_ c') b i El (i_cache _ Hinv')) as [Hl Hi].
    unfold lru_find in Hl. rewrite El in Hl. cbn [snd] in Hl. set (l := LruCache _ _) in *.
    change (with_lru l (waiting c')) with (waiting (with_lru l c')).
    apply (inv_from_block (with_lru l c') i); [by apply inv_set_lru|done|done|].
    unfold active_sets. cbn. destruct (active_ c' !! b) as [l'|] eqn:E; [|constructor]. by apply (i_active _ Hinv' b l').
  - change (with_lru (lru_ c') (waiting c')) with (waiting (with_lru (lru_ c') c')). apply inv_create_block; [|done].
    apply inv_set_lru; [done|]. apply Hinv'.
Qed.

Lemma choose_set_in l re brs j add : choose_set c re l brs = Some (j, add) ->
  j ∈ l \/ exists add', brs = Some (j, add').
Proof.
  revert brs. induction l as [|k l IH]; intros brs H; [right; by exists add|]. cbn [choose_set] in H.
  apply IH in H as [H|[a Ha]]; [left; by right|]. destruct brs as [[k' a']|].
  - destruct (_ && _); injection Ha as <- <-; [left; by left|right; by eexists].
  - injection Ha as <- <-. left. by left.
Qed.

Lemma choose_set_sets c1 c2 re l brs : sets_ c1 = sets_ c2 -> choose_set c1 re l brs = choose_set c2 re l brs.
Proof.
  intros E. revert brs. induction l as [|j l IH]; intros brs; [done|]. cbn [choose_set]. unfold set_at. by rewrite E, IH.
Qed.

Lemma inv_get_locked : inv (get_locked creatable b o n p (waiting c)).
Proof.
  unfold get_locked. cbn [active_ with_promises]. destruct (active_ c !! b) as [l|] eqn:Ea.
  2: by apply inv_get_from_cache.
  change (set_at (waiting c)) with (set_at c).
  rewrite (choose_set_sets (waiting c) c) by done.
  set (l' := filter _ l).
  assert (Forall (fun j => set_ref (sets_ c) j b) l') as Hl' by (apply forall_filter; by apply (i_active _ Hinv b l)).
  destruct (choose_set c (o + n) l' None) as [[j add]|] eqn:Ec.
  - apply choose_set_in in Ec as [Hj|[a Ha]]; [|done].
    apply list_elem_of_filter in Hj as [Halive Hj]. pose proof (i_active _ Hinv b l Ea) as Hl. rewrite Forall_forall in Hl.
    destruct (Hl j Hj) as (s & Hs & Eno). rewrite (set_at_lookup _ _ _ Hs) in Halive.
    set (c' := with_active (<[b := l']> (active_ c)) c).
    assert (inv c') as Hc' by (apply inv_set_active; [done|]; apply map_Forall_insert_2; [done|apply Hinv]).
    assert (block_ref (blocks_ c') (rs_block s) b) as Hi.
    { pose proof (i_sets _ Hinv) as H. rewrite Forall_lookup in H. destruct (H j s Hs) as (Hr & _). by rewrite Eno in Hr. }
    change (with_active (<[b := l']> (active_ c)) (waiting c)) with (waiting c').
    change (set_at (waiting c')) with (set_at c). rewrite (set_at_lookup _ _ _ Hs).
    pose proof (inv_from_block c' (rs_block s) l' Hc' eq_refl Hi Hl') as Hfb. change (block_at (waiting c')) with (block_at c').
    destruct (o + n <=? cb_range_end (block_at c' (rs_block s))); [done|]. destruct add; [|done].
    eapply (inv_add_to_set c' b j s); [done..|]. apply new_request_ok.
  - change (with_active (delete b (active_ c)) (waiting c)) with (waiting (with_active (delete b (active_ c)) c)).
    apply inv_get_from_cache; [|done]. apply inv_set_active; [done|]. apply map_Forall_delete, Hinv.
Qed.
End call.

Lemma inv_get c b o n : inv c -> 0 <= o -> 0 < n -> o + n < SIZE_MAX -> inv (get block_count raw_data creatable b o n c).2.
Proof.
  intros Hinv Ho Hn Hon. unfold get. cbn [snd]. set (c' := with_detector _ c).
  assert (inv c') as Hc' by (by apply inv_set_detector).
  destruct (Z.leb_spec block_count b) as [Hle|Hlt].
  { rewrite set_value_new. apply inv_new_done; [done|]. cbn. intros [[H _] _]. lia. }
  destruct (raw_data b) as [d|] eqn:Er.
  - rewrite set_value_new. apply inv_new_done; [done|]. destruct (dc_raw b d Er) as [rest ->]. rewrite zlen_app in *.
    pose proof (zlen_nonneg rest). destruct (Z.ltb_spec (zlen (data b) + zlen rest) (o + n)); [cbn; intros [_ ?]; lia|].
    cbn. destruct (Z.leb_spec (o + n) (zlen (data b))); [by apply slice_app_l; lia|by eexists].
  - by apply inv_get_locked.
Qed.

Lemma inv_prefetch c : inv c -> inv (do_prefetch creatable c).
Proof.
  intros Hinv. unfold do_prefetch. destruct (prefetch (seq_access_detector_ c)) as [[next|] d]; [|by apply inv_set_detector].
  cbn [lru_ active_ with_detector].
  assert (inv (with_detector d c)) as Hd by (by apply inv_set_detector). set (c' := with_detector d c) in *.
  destruct (lru_find next false (lru_ c)) as [[i|] l]; [done|]. change (active_ c) with (active_ c').
  destruct (active_ c' !! next) as [l'|] eqn:Ea; [done|].
  unfold create_cached_block. destruct (creatable next) eqn:Ec; cbn [negb]; [|done].
  pose proof (inv_new_block c' next Hd Ec) as Hnb.
  pose proof (inv_enqueue (with_blocks (blocks_ c' ++ [CachedBlock next [] false]) c') next [] (length (blocks_ c'))
    (BlockRequest 0 SIZE_MAX None) [] Hnb) as H.
  unfold active_sets. cbn [active_ with_blocks]. rewrite Ea. cbn [default from_option id].
  cbn [promises_ with_blocks] in H. rewrite app_nil_r in H. apply H.
  - cbn. eexists. split; [by apply list_lookup_middle|done].
  - constructor.
  - split; [|by left]. split; [cbn; unfold SIZE_MAX; lia|]. by split.
Qed.
(** *** The workers *)

Lemma owners_split c ws1 w ws2 : workers_ c = ws1 ++ w :: ws2 ->
  owners c ≡ₚ option_list (owner w) ++ jobs_ c ++ omap owner (ws1 ++ ws2).
Proof.
  intros E. unfold owners. rewrite E, !omap_app. cbn [omap list_omap].
  destruct (owner w); [|done].
  cbn [option_list app]. rewrite !app_assoc. symmetry. apply Permutation_middle.
Qed.

Lemma requests_split c ws1 w ws2 : workers_ c = ws1 ++ w :: ws2 ->
  requests c ≡ₚ running w ++ queues (sets_ c) ++ concat (map running (ws1 ++ ws2)).
Proof.
  intros E. unfold requests. rewrite E, !map_app, !concat_app. cbn [map concat].
  rewrite !app_assoc. rewrite (Permutation_app_comm _ (running w)). by rewrite !app_assoc.
Qed.

(** What the sets, the workers and the requests that stay rely on does not
    change. *)
Record stays (c c' : block_cache) : Prop := {
  st_blocks i n : block_ref (blocks_ c) i n -> block_ref (blocks_ c') i n;
  st_sets j : rs_block_no (set_at c' j) = rs_block_no (set_at c j);
  st_refs j n : set_ref (sets_ c) j n -> set_ref (sets_ c') j n
}.

Lemma stays_refl c : stays c c.
Proof. by split. Qed.

Lemma set_ref_block_no c j n : set_ref (sets_ c) j n -> rs_block_no (set_at c j) = n.
Proof. intros (s & H & <-). by rewrite (set_at_lookup _ _ _ H). Qed.

Lemma block_no_alter c c' j f : sets_ c' = alter f j (sets_ c) -> (forall s, rs_block_no (f s) = rs_block_no s) ->
  forall k, rs_block_no (set_at c' k) = rs_block_no (set_at c k).
Proof.
  intros E Hf k. unfold set_at. rewrite E. destruct (decide (j = k)) as [->|Hne].
  - rewrite list_lookup_alter_eq. destruct (sets_ c !! k); [apply Hf|done].
  - by rewrite list_lookup_alter_ne.
Qed.

Lemma stays_alter c c' j f : blocks_ c' = blocks_ c -> sets_ c' = alter f j (sets_ c) -> (forall s, rs_block_no (f s) = rs_block_no s) -> stays c c'.
Proof.
  intros Eb Es Hf. split; [by rewrite Eb| |].
  - by eapply block_no_alter.
  - intros k n. rewrite Es. by apply set_ref_alter.
Qed.

Lemma worker_stays c c' w : stays c c' -> decompressing_ c' = decompressing_ c ->
  (forall n r, r ∈ running w -> request_ok (promises_ c) n r -> request_ok (promises_ c') n r) ->
  worker_inv c w -> worker_inv c' w.
Proof.
  intros [Sb Ss Sr] Ed Hr. destruct w as [j|j|j r t|b i]; cbn; rewrite ?Ed, ?Ss; try done; [|apply Sb].
  intros (H1 & H2 & H3). split_and!; [done| |done]. apply Hr; [by left|done].
Qed.

Lemma sets_stay c c' : stays c c' -> Forall (set_inv c) (sets_ c) ->
  (forall j s', sets_ c' !! j = Some s' ->
     exists s, sets_ c !! j = Some s /\ rs_block s' = rs_block s /\ rs_block_no s' = rs_block_no s /\ (rs_alive s' = false -> rs_queue s' = []) /\
       Forall (fun r => request_ok (promises_ c') (rs_block_no s) r) (rs_queue s')) ->
  Forall (set_inv c') (sets_ c').
Proof.
  intros [Sb _ _] H Hs. apply Forall_lookup. intros j s' Hj. destruct (Hs j s' Hj) as (s & Hj' & E1 & E2 & E3 & E4).
  rewrite Forall_lookup in H. destruct (H j s Hj') as (H1 & _ & _). unfold set_inv. rewrite E1, E2. split_and!; auto.
Qed.

Lemma inv_job c j js : inv c -> jobs_ c = j :: js -> inv (with_workers (workers_ c ++ [WStart j]) (with_jobs js c)).
Proof.
  intros [] E. set (c' := with_workers _ _).
  assert (owners c' ≡ₚ owners c) as Eo.
  { unfold owners, c'. cbn. rewrite E, omap_app. cbn. rewrite app_assoc. by rewrite <- Permutation_cons_append. }
  assert (requests c' = requests c) as Er by (unfold requests, c'; cbn; by rewrite map_app, concat_app, !app_nil_r).
  rewrite E in i_jobs0. apply Forall_cons in i_jobs0 as [Hj Hjs].
  split; try done; unfold pids; rewrite ?Er, ?Eo; try done.
  - cbn. apply Forall_app. split; [done|]. by constructor.
  - intros k. rewrite Eo. apply i_alive0.
Qed.

Lemma worker_in c ws1 w ws2 : workers_ c = ws1 ++ w :: ws2 -> inv c -> worker_inv c w /\ Forall (worker_inv c) (ws1 ++ ws2).
Proof.
  intros E Hinv. pose proof (i_workers _ Hinv) as H. rewrite E in H. apply Forall_app in H as [H1 [H2 H3]%Forall_cons].
  split; [done|]. by apply Forall_app.
Qed.

Lemma set_of_worker c ws1 w ws2 j : workers_ c = ws1 ++ w :: ws2 -> inv c -> owner w = Some j ->
  exists s, sets_ c !! j = Some s /\ rs_alive s = true /\ set_at c j = s /\ set_inv c s.
Proof.
  intros E Hinv Hj. destruct (proj1 (i_alive _ Hinv j)) as (s & Hs & Ha).
  { eapply worker_owner; [|done]. rewrite E. apply elem_of_app. right. by left. }
  exists s. split_and!; [done..|by apply set_at_lookup|]. pose proof (i_sets _ Hinv) as H. rewrite Forall_lookup in H. by apply (H j).
Qed.

(** The worker goes on with the block. *)
Lemma inv_start_go c ws1 ws2 j b : inv c -> workers_ c = ws1 ++ WStart j :: ws2 -> rs_block_no (set_at c j) = b ->
  (forall k, decompressing_ c !! b = Some k -> rs_alive (set_at c k) = false) ->
  inv (with_workers (ws1 ++ WLoop j :: ws2) (with_decompressing (<[b := j]> (decompressing_ c)) c)).
Proof.
  intros Hinv E Eb Hdead. set (c' := with_workers _ _).
  destruct (worker_in c _ _ _ E Hinv) as [Hj Hws]. destruct (set_of_worker c _ _ _ j E Hinv eq_refl) as (s & Hs & Ha & Es & _).
  assert (owners c' ≡ₚ owners c) as Eo.
  { rewrite (owners_split c _ _ _ E), (owners_split c' ws1 (WLoop j) ws2 eq_refl). done. }
  assert (requests c' ≡ₚ requests c) as Er.
  { rewrite (requests_split c _ _ _ E), (requests_split c' ws1 (WLoop j) ws2 eq_refl). done. }
  assert (forall k, k ∈ jobs_ c ++ omap owner (ws1 ++ ws2) -> k <> j) as Hne.
  { pose proof (i_owners _ Hinv) as Hnd. rewrite (owners_split c _ _ _ E) in Hnd. apply NoDup_cons in Hnd as [Hnin _].
    intros k Hk ->. done. }
  assert (forall k, k ∈ jobs_ c ++ omap owner (ws1 ++ ws2) -> decompressing_ c !! b <> Some k) as Hnb.
  { intros k Hk Hb. specialize (Hdead k Hb). assert (k ∈ owners c) as Ho.
    { rewrite (owners_split c _ _ _ E). apply elem_of_app. by right. }
    apply (i_alive _ Hinv) in Ho as (x & Hx & Hax). rewrite (set_at_lookup _ _ _ Hx) in Hdead. congruence. }
  pose proof Hinv as []. split; try done; unfold pids; rewrite ?Er, ?Eo; try done.
  - assert (forall w, w ∈ ws1 ++ ws2 -> worker_inv c' w) as Hw'.
    { intros w Hw. pose proof Hws as H. rewrite Forall_forall in H. specialize (H w Hw).
      assert (forall k, owner w = Some k -> k ∈ jobs_ c ++ omap owner (ws1 ++ ws2)) as Hown.
      { intros k Hk. apply elem_of_app. right. apply list_elem_of_omap. by exists w. }
      destruct w as [k|k|k r t|n i]; cbn in H |- *; try done.
      - apply map_Forall_insert_2; [by apply not_eq_sym, Hne, Hown|done].
      - rewrite lookup_insert_ne; [done|]. intros Hbk. apply (Hnb k); [by apply Hown|]. by rewrite Hbk.
      - rewrite lookup_insert_ne; [done|]. intros Hbk. destruct H as [H _]. apply (Hnb k); [by apply Hown|]. by rewrite Hbk. }
    cbn. apply Forall_app. split; [|constructor].
    + apply Forall_forall. intros w Hw. apply Hw'. apply elem_of_app. by left.
    + cbn. change (set_at c' j) with (set_at c j). by rewrite Eb, lookup_insert_eq.
    + apply Forall_forall. intros w Hw. apply Hw'. apply elem_of_app. by right.
  - cbn. rewrite Forall_forall in *. intros k Hk. apply map_Forall_insert_2; [|by apply i_jobs0].
    cbn. apply not_eq_sym, Hne. apply elem_of_app. by left.
  - intros k. rewrite Eo. apply i_alive0.
  - intros p q Hp Hq. rewrite Er. by apply (i_pending0 p q).
  - cbn. apply map_Forall_insert_2; [|done]. exists s. split; [done|]. by rewrite <- Eb, Es.
Qed.

(** The sets after the requests of one are moved into another. *)
Lemma inv_start_merge c ws1 ws2 j k b : inv c -> workers_ c = ws1 ++ WStart j :: ws2 -> rs_block_no (set_at c j) = b ->
  decompressing_ c !! b = Some k -> rs_alive (set_at c k) = true ->
  inv (with_workers (ws1 ++ ws2) (with_sets (alter rs_reset j (alter (rs_merge (set_at c j)) k (sets_ c))) c)).
Proof.
  intros Hinv E Eb Hk Hka.
  destruct (worker_in c _ _ _ E Hinv) as [Hj Hws]. destruct (set_of_worker c _ _ _ j E Hinv eq_refl) as (s & Hs & Ha & Es & Hsi).
  rewrite Es in *. set (c' := with_workers _ _).
  assert (k <> j) as Hkj by (by apply (Hj b k)). destruct (i_decompressing _ Hinv b k Hk) as (x & Hx & Ex).
  rewrite (set_at_lookup _ _ _ Hx) in Hka. pose proof Hinv as [].
  assert (set_inv c x) as Hxi by (rewrite Forall_lookup in i_sets0; by apply (i_sets0 k)).
  set (c1 := with_sets (alter (rs_merge s) k (sets_ c)) c).
  assert (stays c c1) as St1 by (by apply (stays_alter c c1 k (rs_merge s))).
  assert (stays c1 c') as St2 by (by apply (stays_alter c1 c' j rs_reset)).
  assert (stays c c') as St.
  { destruct St1, St2. split; [done| |auto]. intros i. by rewrite st_sets1, st_sets0. }
  assert (owners c ≡ₚ j :: owners c') as Eo by (by rewrite (owners_split c _ _ _ E)).
  assert (alter (rs_merge s) k (sets_ c) !! j = Some s) as Hs1 by (by rewrite list_lookup_alter_ne).
  assert (requests c' ≡ₚ requests c) as Er.
  { rewrite (requests_split c _ _ _ E). unfold requests, c'. cbn [sets_ with_sets with_workers workers_ running app].
    apply Permutation_app; [|done].
    destruct (queues_alter (sets_ c) k x (rs_merge s) Hx) as (rest & Q1 & Q2).
    destruct (queues_alter _ j s rs_reset Hs1) as (rest' & Q3 & Q4). rewrite Q4, Q1. cbn [rs_reset rs_queue app].
    rewrite Q2 in Q3. cbn [rs_merge rs_queue] in Q3. rewrite (Permutation_app_comm (rs_queue x)), <- app_assoc in Q3.
    by apply Permutation_app_inv_l in Q3. }
  split; try done; unfold pids; rewrite ?Er; try done.
  - eapply sets_stay; [exact St|done|]. intros i s' Hi. unfold c' in Hi. cbn in Hi. destruct (decide (j = i)) as [<-|Hji].
    { rewrite list_lookup_alter_eq, Hs1 in Hi. injection Hi as <-. exists s. by split_and!. }
    rewrite list_lookup_alter_ne in Hi by done. rewrite Forall_lookup in i_sets0. destruct (decide (k = i)) as [<-|Hki].
    + rewrite list_lookup_alter_eq, Hx in Hi. injection Hi as <-. exists x. split_and!; [done..| |]; cbn; [by rewrite Hka|].
      apply Forall_app. split; [apply Hxi|]. rewrite Ex, <- Eb. apply Hsi.
    + rewrite list_lookup_alter_ne in Hi by done. exists s'. destruct (i_sets0 i s' Hi) as (H1 & H2 & H3). by split_and!.
  - cbn. eapply Forall_impl; [exact Hws|]. intros w Hw. by eapply worker_stays.
  - rewrite Eo in i_owners0. by apply NoDup_cons in i_owners0 as [_ H].
  - intros i. assert (i ∈ owners c' <-> i ∈ owners c /\ i <> j) as ->.
    { rewrite Eo, elem_of_cons. rewrite Eo in i_owners0. apply NoDup_cons in i_owners0 as [Hn _].
      split; [|by intros [[->|H] H2]]. intros H. split; [by right|]. by intros ->. }
    rewrite i_alive0. unfold c'. cbn. destruct (decide (j = i)) as [<-|Hji].
    { rewrite list_lookup_alter_eq, Hs1. cbn. split; [by intros [_ H]|]. by intros (y & [= <-] & H). }
    rewrite list_lookup_alter_ne by done. destruct (decide (k = i)) as [<-|Hki].
    + rewrite list_lookup_alter_eq, Hx. cbn. split; [|intros _; split; [by exists x|done]]. intros _. by eexists.
    + rewrite list_lookup_alter_ne by done. split; [by intros [H _]|]. intros H. split; [done|congruence].
  - intros p q Hp Hq. rewrite Er. by apply (i_pending0 p q).
  - intros n i Hn. apply St, (i_decompressing0 n i Hn).
  - intros n l Hn. eapply Forall_impl; [by apply (i_active0 n l)|]. intros i. apply St.
Qed.

Lemma alive_alter c j s f : sets_ c !! j = Some s -> (forall x, rs_alive (f x) = rs_alive x) -> forall i,
  (exists x, alter f j (sets_ c) !! i = Some x /\ rs_alive x = true) <-> (exists x, sets_ c !! i = Some x /\ rs_alive x = true).
Proof.
  intros Hs Hf i. destruct (decide (j = i)) as [<-|Hne].
  - rewrite list_lookup_alter_eq, Hs. cbn. split; intros (x & [= <-] & H).
    + exists s. by rewrite <- (Hf s).
    + exists (f s). by rewrite Hf.
  - by rewrite list_lookup_alter_ne.
Qed.

Lemma target_reaches b r is_last : rq_end r <= zlen (data b) ->
  rq_end r <= target_of uncompressed_size over_ratio b r is_last <= zlen (data b).
Proof.
  intros H. pose proof (dc_range b) as Hb. unfold target_of. rewrite (dc_size (uncompressed_size := uncompressed_size) b).
  rewrite (proj2 (Z.eqb_neq (rq_end r) SIZE_MAX)) by (generalize dependent SIZE_MAX; lia).
  destruct (_ && _); lia.
Qed.

Lemma inv_request c ws1 ws2 j r rest : inv c -> workers_ c = ws1 ++ WLoop j :: ws2 -> rs_queue (set_at c j) ≡ₚ r :: rest ->
  inv (with_workers (ws1 ++ WRun j r (target_of uncompressed_size over_ratio (rs_block_no (set_at c j)) r (bool_decide (rest = []))) :: ws2)
        (with_sets (alter (rs_take rest) j (sets_ c)) c)).
Proof.
  intros Hinv E Hq. destruct (worker_in c _ _ _ E Hinv) as [Hj Hws].
  destruct (set_of_worker c _ _ _ j E Hinv eq_refl) as (s & Hs & Ha & Es & Hsi). cbn in Hj. rewrite Es in *.
  set (w := WRun _ _ _). set (c' := with_workers _ _). pose proof Hinv as [].
  assert (stays c c') as St by (by apply (stays_alter c c' j (rs_take rest))).
  assert (owners c' ≡ₚ owners c) as Eo by (by rewrite (owners_split c _ _ _ E), (owners_split c' ws1 w ws2 eq_refl)).
  assert (requests c' ≡ₚ requests c) as Er.
  { rewrite (requests_split c _ _ _ E), (requests_split c' ws1 w ws2 eq_refl). cbn [running w app]. unfold c'. cbn [sets_ with_sets with_workers].
    destruct (queues_alter (sets_ c) j s (rs_take rest) Hs) as (rest' & Q1 & Q2). by rewrite Q1, Q2, Hq. }
  destruct Hsi as (S1 & S2 & S3). rewrite Hq in S2. apply Forall_cons in S2 as [Hr Hrest].
  split; try done; unfold pids; rewrite ?Er, ?Eo; try done.
  - eapply sets_stay; [exact St|done|]. intros i s' Hi. unfold c' in Hi. cbn in Hi. destruct (decide (j = i)) as [<-|Hji].
    + rewrite list_lookup_alter_eq, Hs in Hi. injection Hi as <-. exists s. split_and!; try done. cbn. congruence.
    + rewrite list_lookup_alter_ne in Hi by done. exists s'. rewrite Forall_lookup in i_sets0.
      destruct (i_sets0 i s' Hi) as (H1 & H2 & H3). by split_and!.
  - cbn. apply Forall_app in Hws as [H1 H2].
    assert (forall ws, Forall (worker_inv c) ws -> Forall (worker_inv c') ws) as Hst.
    { intros ws H. eapply Forall_impl; [exact H|]. intros x Hx. by eapply worker_stays. }
    apply Forall_app. split; [by apply Hst|]. constructor; [|by apply Hst]. cbn. rewrite (st_sets _ _ St j), Es.
    split_and!; [done|done|]. apply target_reaches.
  - intros i. rewrite Eo, i_alive0. symmetry. by apply (alive_alter c j s).
  - intros p q Hp Hv. rewrite Er. by apply (i_pending0 p q).
  - intros n i Hn. apply St, (i_decompressing0 n i Hn).
  - intros n l Hn. eapply Forall_impl; [by apply (i_active0 n l)|]. intros i. apply St.
Qed.

Lemma inv_end c ws1 ws2 j : inv c -> workers_ c = ws1 ++ WLoop j :: ws2 -> rs_queue (set_at c j) = [] ->
  inv (with_workers (ws1 ++ WInsert (rs_block_no (set_at c j)) (rs_block (set_at c j)) :: ws2)
        (with_sets (alter rs_reset j (sets_ c)) c)).
Proof.
  intros Hinv E Hq. destruct (worker_in c _ _ _ E Hinv) as [Hj Hws].
  destruct (set_of_worker c _ _ _ j E Hinv eq_refl) as (s & Hs & Ha & Es & Hsi). cbn in Hj. rewrite Es in *.
  set (w := WInsert _ _). set (c' := with_workers _ _). pose proof Hinv as [].
  assert (stays c c') as St by (by apply (stays_alter c c' j rs_reset)).
  assert (owners c ≡ₚ j :: owners c') as Eo by (by rewrite (owners_split c _ _ _ E), (owners_split c' ws1 w ws2 eq_refl)).
  assert (requests c' ≡ₚ requests c) as Er.
  { rewrite (requests_split c _ _ _ E), (requests_split c' ws1 w ws2 eq_refl). cbn [running w app]. unfold c'. cbn [sets_ with_sets with_workers].
    destruct (queues_alter (sets_ c) j s rs_reset Hs) as (rest' & Q1 & Q2). by rewrite Q1, Q2, Hq. }
  rewrite Eo in i_owners0. apply NoDup_cons in i_owners0 as [Hnj Hnd].
  split; try done; unfold pids; rewrite ?Er; try done.
  - eapply sets_stay; [exact St|done|]. intros i s' Hi. unfold c' in Hi. cbn in Hi. destruct (decide (j = i)) as [<-|Hji].
    + rewrite list_lookup_alter_eq, Hs in Hi. injection Hi as <-. exists s. by split_and!.
    + rewrite list_lookup_alter_ne in Hi by done. exists s'. rewrite Forall_lookup in i_sets0.
      destruct (i_sets0 i s' Hi) as (H1 & H2 & H3). by split_and!.
  - cbn. apply Forall_app in Hws as [H1 H2].
    assert (forall ws, Forall (worker_inv c) ws -> Forall (worker_inv c') ws) as Hst.
    { intros ws H. eapply Forall_impl; [exact H|]. intros x Hx. by eapply worker_stays. }
    apply Forall_app. split; [by apply Hst|]. constructor; [|by apply Hst]. apply Hsi.
  - intros i. assert (i ∈ owners c' <-> i ∈ owners c /\ i <> j) as ->.
    { rewrite Eo, elem_of_cons. split; [|by intros [[->|H] H2]]. intros H. split; [by right|]. by intros ->. }
    rewrite i_alive0. unfold c'. cbn. destruct (decide (j = i)) as [<-|Hji].
    + rewrite list_lookup_alter_eq, Hs. cbn. split; [by intros [_ H]|]. by intros (y & [= <-] & H).
    + rewrite list_lookup_alter_ne by done. split; [by intros [H _]|]. intros H. split; [done|congruence].
  - intros p q Hp Hv. rewrite Er. by apply (i_pending0 p q).
  - intros n i Hn. apply St, (i_decompressing0 n i Hn).
  - intros n l Hn. eapply Forall_impl; [by apply (i_active0 n l)|]. intros i. apply St.
Qed.

Lemma pids_request c r p : r ∈ requests c -> rq_promise r = Some p -> p ∈ pids c.
Proof. intros Hr Hp. apply list_elem_of_omap. by exists r. Qed.

(** The request a worker has taken is answered. *)
Lemma inv_value c ws1 ws2 j r t v : inv c -> workers_ c = ws1 ++ WRun j r t :: ws2 ->
  (rq_promise r <> None -> answer (rs_block_no (set_at c j), rq_begin r, rq_end r - rq_begin r) v) ->
  inv (with_workers (ws1 ++ WLoop j :: ws2) (set_value (rq_promise r) v c)).
Proof.
  intros Hinv E Hans. destruct (worker_in c _ _ _ E Hinv) as [(Hj & Hr & _) Hws].
  pose proof (requests_split c _ _ _ E) as Er. cbn [running app] in Er. set (c' := with_workers _ _).
  set (b := rs_block_no (set_at c j)) in *. pose proof Hinv as [].
  assert (exists ps, set_value (rq_promise r) v c = with_promises ps c) as [ps Eps].
  { unfold set_value. destruct (rq_promise r); [by eexists|exists (promises_ c); by destruct c]. }
  assert (c' = with_workers (ws1 ++ WLoop j :: ws2) (with_promises ps c)) as Ec' by (unfold c'; by rewrite Eps). subst c'.
  rewrite Ec'. set (c' := with_workers _ (with_promises ps c)) in *.
  set (others := queues (sets_ c) ++ concat (map running (ws1 ++ ws2))) in *.
  assert (requests c' ≡ₚ others) as Er' by (by rewrite (requests_split c' ws1 (WLoop j) ws2 eq_refl)).
  assert (owners c' ≡ₚ owners c) as Eo by (by rewrite (owners_split c _ _ _ E), (owners_split c' ws1 (WLoop j) ws2 eq_refl)).
  assert (pids c ≡ₚ option_list (rq_promise r) ++ pids c') as Ep.
  { unfold pids. rewrite Er, Er'. cbn. by destruct (rq_promise r). }
  assert (ps = match rq_promise r with Some p => alter (fun x => Promise (pr_range x) (Some v)) p (promises_ c) | None => promises_ c end) as Hps.
  { unfold set_value in Eps. destruct c, (rq_promise r); by injection Eps. }
  assert (forall n r', r' ∈ others -> request_ok (promises_ c) n r' -> request_ok ps n r') as Hok.
  { intros n r' Hin Hr'. subst ps. destruct (rq_promise r) as [p|] eqn:Epr; [|done]. apply request_ok_set; [done|]. intros Ep'.
    rewrite Ep in i_pids0. cbn in i_pids0. apply NoDup_cons in i_pids0 as [Hnin _]. apply Hnin.
    eapply pids_request; [|exact Ep']. by rewrite Er'. }
  assert (stays c c') as St by done.
  assert (NoDup (pids c')) as Hnd. { rewrite Ep in i_pids0. by apply NoDup_app in i_pids0 as (_ & _ & ?). }
  split; try done; rewrite ?Eo; try done.
  - eapply sets_stay; [exact St|done|]. intros i s' Hi. exists s'. rewrite Forall_lookup in i_sets0. destruct (i_sets0 i s' Hi) as (H1 & H2 & H3).
    split_and!; try done. rewrite Forall_forall in *. intros r' Hr'. apply Hok; [|by apply H2].
    unfold others. apply elem_of_app. left. apply list_elem_of_In, in_concat. exists (rs_queue s'). split; [|by apply list_elem_of_In].
    apply in_map, list_elem_of_In. by eapply list_elem_of_lookup_2.
  - assert (forall w, w ∈ ws1 ++ ws2 -> worker_inv c' w) as Hst.
    { intros w Hw. rewrite Forall_forall in Hws. eapply worker_stays; [exact St|done| |by apply Hws]. intros n r' Hr'. apply Hok.
      unfold others. apply elem_of_app. right. apply list_elem_of_In, in_concat. exists (running w). split; [|by apply list_elem_of_In].
      by apply in_map, list_elem_of_In. }
    cbn. apply Forall_app. split; [|constructor; [done|]]; apply Forall_forall; intros w Hw; apply Hst; apply elem_of_app; first [by left|by right].
  - intros i. rewrite Eo. apply i_alive0.
  - intros p q Hp Hv. change (promises_ c') with ps in Hp. rewrite Hps in Hp.
    assert (rq_promise r <> Some p /\ promises_ c !! p = Some q) as [Hne Hl].
    { destruct (rq_promise r) as [p'|]; [|done]. destruct (decide (p' = p)) as [->|Hn]; [|by rewrite list_lookup_alter_ne in Hp by done; split; [congruence|]].
      rewrite list_lookup_alter_eq in Hp. destruct (promises_ c !! p); [|done]. by injection Hp as <-. }
    pose proof (i_pending0 p q Hl Hv) as Hin. rewrite Ep in Hin. apply elem_of_app in Hin as [Hin|?]; [|done].
    destruct (rq_promise r); [|by apply elem_of_nil in Hin]. apply list_elem_of_singleton in Hin. congruence.
  - intros p q v' Hp Hv. change (promises_ c') with ps in Hp. rewrite Hps in Hp. destruct Hr as (_ & _ & Hr).
    destruct (rq_promise r) as [p'|]; [|by eapply i_done0]. destruct (decide (p' = p)) as [->|Hn].
    + rewrite list_lookup_alter_eq in Hp. destruct (Hr p eq_refl) as [_ Hpp]. rewrite Hpp in Hp. injection Hp as <-. injection Hv as <-. by apply Hans.
    + rewrite list_lookup_alter_ne in Hp by done. by eapply i_done0.
Qed.

(** A frame more of the block. *)
Lemma inv_frame c i b l last : inv c -> blocks_ c !! i = Some b -> cb_done b = false ->
  decompress_frame (cb_no b) (cb_range_end b) = Some (l, last) ->
  inv (with_blocks (<[i := CachedBlock (cb_no b) (cb_data b ++ l) last]> (blocks_ c)) c).
Proof.
  intros [] Hb Hdone Hf. set (b' := CachedBlock _ _ _). pose proof i_blocks0 as Hbs. rewrite Forall_lookup in Hbs.
  destruct (Hbs i b Hb) as (B1 & B2 & B3 & B4). rewrite Hdone in B3. unfold cb_range_end in Hf.
  assert (zlen (cb_data b) <> zlen (data (cb_no b))) as Hne by (intros H; by apply B3 in H).
  pose proof (zlen_nonneg (cb_data b)). assert (0 <= zlen (cb_data b) < zlen (data (cb_no b))) as Hpos by lia.
  destruct (dc_frame _ _ _ _ Hpos Hf) as (F1 & F2 & F3 & F4).
  assert (block_inv b') as Hb'.
  { unfold block_inv, b'. cbn. rewrite zlen_app. split_and!; [|lia|done|done].
    rewrite slice_add by lia. rewrite Z.add_0_l, <- F3. by rewrite <- B1. }
  assert (forall k n, block_ref (blocks_ c) k n -> block_ref (<[i := b']> (blocks_ c)) k n) as Href.
  { intros k n (x & Hx & En). destruct (decide (i = k)) as [<-|Hik].
    - exists b'. rewrite list_lookup_insert_eq by (by eapply lookup_lt_Some). split; [done|]. cbn. congruence.
    - exists x. by rewrite list_lookup_insert_ne. }
  split; try done; cbn.
  - by apply Forall_insert.
  - eapply Forall_impl; [exact i_sets0|]. intros s (H1 & H2 & H3). split_and!; auto.
  - eapply Forall_impl; [exact i_workers0|]. intros [k|k|k r t|n k]; try done. apply Href.
  - eapply Forall_impl; [exact i_cache0|]. intros e. apply Href.
Qed.

Lemma inv_run c ws1 ws2 j r t c' w : inv c -> workers_ c = ws1 ++ WRun j r t :: ws2 ->
  process_run decompress_frame j r t c = (c', w) -> inv (with_workers (ws1 ++ w :: ws2) c').
Proof.
  intros Hinv E H. destruct (worker_in c _ _ _ E Hinv) as [(Hj & Hr & Ht) _].
  destruct (set_of_worker c _ _ _ j E Hinv eq_refl) as (s & Hs & Ha & Es & (x & Hx & Ex) & _). rewrite Es in *.
  unfold process_run in H. rewrite Es, (block_at_lookup _ _ _ Hx) in H. pose proof (i_blocks _ Hinv) as Hb. rewrite Forall_lookup in Hb.
  specialize (Hb _ x Hx). pose proof Hb as (B1 & B2 & B3 & B4). destruct Hr as (R1 & R2 & R3). unfold cb_range_end in *.
  assert (forall e, (good (rs_block_no s) -> rq_end r <= zlen (data (rs_block_no s)) -> False) -> rq_promise r <> None ->
    answer (rs_block_no (set_at c j), rq_begin r, rq_end r - rq_begin r) (Err e)) as Herr.
  { intros e He _. cbn. rewrite Es. intros [Hg Hle]. apply He; [done|]. lia. }
  destruct (Z.ltb_spec (zlen (cb_data x)) t) as [Hlt|Hge].
  - destruct (cb_done x) eqn:Edone.
    { injection H as <- <-. apply inv_value with (t := t); [done..|]. apply Herr. intros _ Hle. pose proof (proj1 B3 eq_refl). rewrite Ex in *. lia. }
    destruct (decompress_frame (cb_no x) (zlen (cb_data x))) as [[l last]|] eqn:Ef; injection H as <- <-.
    + pose proof (inv_frame c _ x l last Hinv Hx Edone Ef) as H. set (c2 := with_blocks _ c) in *.
      assert (with_workers (ws1 ++ WRun j r t :: ws2) c2 = c2) as ->; [|done]. unfold c2. rewrite <- E. by destruct c.
    + apply inv_value with (t := t); [done..|]. intros Hp. destruct (rq_promise r) as [p|] eqn:Epr; [|done].
      destruct (R3 p eq_refl) as [Hraw _]. apply Herr; [|done]. intros [_ [[d Hd]|[_ Hg]]] _; [congruence|].
      destruct (Hg (zlen (cb_data x))) as [y Hy]; [|rewrite Ex in *; congruence].
      pose proof (zlen_nonneg (cb_data x)). rewrite Ex in *. split; [done|]. destruct (Z.eq_dec (zlen (cb_data x)) (zlen (data (rs_block_no s)))); [|lia].
      assert (false = true) by (by apply B3). done.
  - injection H as <- <-. apply inv_value with (t := t); [done..|]. intros Hp. unfold block_range, cb_range_end.
    destruct (Z.ltb_spec (zlen (cb_data x)) (rq_begin r + (rq_end r - rq_begin r))) as [Hlt|Hle].
    + apply Herr; [|done]. intros _ Hle. specialize (Ht Hle). lia.
    + rewrite Es, B1, Ex, slice_of_slice by lia. apply answer_inside. rewrite Ex in *. lia.
Qed.

Lemma inv_insert c ws1 ws2 b i : inv c -> workers_ c = ws1 ++ WInsert b i :: ws2 ->
  inv (with_workers (ws1 ++ ws2) (with_lru (lru_set b i (lru_ c)).2 c)).
Proof.
  intros Hinv E. destruct (worker_in c _ _ _ E Hinv) as [Hb Hws]. pose proof Hinv as []. set (c' := with_workers _ _).
  assert (owners c' ≡ₚ owners c) as Eo by (by rewrite (owners_split c _ _ _ E)).
  assert (requests c' ≡ₚ requests c) as Er by (by rewrite (requests_split c _ _ _ E)).
  split; try done; unfold pids; rewrite ?Er, ?Eo; try done.
  - intros k. rewrite Eo. apply i_alive0.
  - intros p q Hp Hv. rewrite Er. by apply (i_pending0 p q).
  - cbn. unfold lru_set. destruct (lru_lookup b _); cbn.
    + constructor; [done|]. by apply forall_filter.
    + destruct (_ <=? _); cbn; (constructor; [done|]); [|done].
      rewrite removelast_firstn_len. by apply Forall_take.
Qed.

Lemma inv_worker_step c c' : worker_step c c' -> inv c -> inv c'.
Proof.
  intros H Hinv. destruct H as [c j js E|c ws1 ws2 j c' w E Hp|c ws1 ws2 j r rest E Hq _|c ws1 ws2 j E Hq|c ws1 ws2 j r t c' w E Hp|c ws1 ws2 b i E].
  - by apply inv_job.
  - unfold process_start in Hp. destruct (decompressing_ c !! rs_block_no (set_at c j)) as [k|] eqn:Ek.
    + destruct (rs_alive (set_at c k)) eqn:Ea; injection Hp as <- <-.
      * by eapply inv_start_merge.
      * eapply inv_start_go; [done..|]. intros k' Hk'. rewrite Ek in Hk'. by injection Hk' as <-.
    + injection Hp as <- <-. eapply inv_start_go; [done..|]. congruence.
  - by eapply inv_request.
  - by eapply inv_end.
  - by eapply inv_run.
  - by apply inv_insert.
Qed.

Lemma inv_step c c' : cache_step c c' -> inv c -> inv c'.
Proof.
  intros [] Hinv; [by apply inv_get|by apply inv_prefetch|by eapply inv_worker_step|].
  apply inv_set_lru; [done|]. apply forall_filter, Hinv.
Qed.

Lemma inv_steps c c' : rtc cache_step c c' -> inv c -> inv c'.
Proof. induction 1; eauto using inv_step. Qed.

Lemma nodup_omap {A B} (f : A -> option B) l i k x y a : NoDup (omap f l) ->
  l !! i = Some x -> l !! k = Some y -> f x = Some a -> f y = Some a -> i = k.
Proof.
  revert i k. induction l as [|z l IH]; intros i k Hnd Hi Hk Hx Hy; [done|]. cbn [omap list_omap] in Hnd.
  assert (forall n u, l !! n = Some u -> f u = Some a -> f z = Some a -> False) as Hin.
  { intros n u Hn Hu Hz. rewrite Hz in Hnd. apply NoDup_cons in Hnd as [Hnin _]. apply Hnin. apply list_elem_of_omap.
    exists u. split; [by eapply list_elem_of_lookup_2|done]. }
  destruct i as [|i], k as [|k]; cbn in Hi, Hk.
  - done.
  - injection Hi as ->. exfalso. by eapply Hin.
  - injection Hk as ->. exfalso. by eapply Hin.
  - f_equal. eapply IH; try done. destruct (f z); [by apply NoDup_cons in Hnd as [_ ?]|done].
Qed.

(** No two workers decompress a block. *)
Lemma one_worker c i k j1 r1 t1 j2 r2 t2 : inv c ->
  workers_ c !! i = Some (WRun j1 r1 t1) -> workers_ c !! k = Some (WRun j2 r2 t2) ->
  rs_block (set_at c j1) = rs_block (set_at c j2) -> i = k.
Proof.
  intros Hinv Hi Hk E. assert (forall n j r t, workers_ c !! n = Some (WRun j r t) ->
    decompressing_ c !! rs_block_no (set_at c j) = Some j /\ block_ref (blocks_ c) (rs_block (set_at c j)) (rs_block_no (set_at c j))) as Hw.
  { intros n j r t Hn. pose proof (i_workers _ Hinv) as H. rewrite Forall_lookup in H. destruct (H n _ Hn) as [Hd _]. split; [done|].
    apply list_elem_of_split_length in Hn as (ws1 & ws2 & Hs & _).
    destruct (set_of_worker c _ _ _ j Hs Hinv eq_refl) as (s & _ & _ & -> & Hr & _). done. }
  destruct (Hw _ _ _ _ Hi) as [D1 (b1 & B1 & E1)]. destruct (Hw _ _ _ _ Hk) as [D2 (b2 & B2 & E2)].
  assert (j1 = j2) as -> by (rewrite E, B2 in B1; congruence).
  pose proof (i_owners _ Hinv) as Hnd. apply NoDup_app in Hnd as (_ & _ & Hnd). by eapply (nodup_omap owner).
Qed.

(** *** The work that is left *)

Definition weight (w : worker) : nat :=
  match w with
  | WStart _ | WRun _ _ _ => 5
  | WLoop _ => 3
  | WInsert _ _ => 1
  end.

Definition undecompressed (b : cached_block) : nat := Z.to_nat (zlen (data (cb_no b)) - zlen (cb_data b)).

Definition work (c : block_cache) : nat :=
  sum_list_with undecompressed (blocks_ c) + 6 * length (jobs_ c) + sum_list_with weight (workers_ c) + 4 * length (queues (sets_ c)).

Lemma weight_split c ws1 w ws2 : workers_ c = ws1 ++ w :: ws2 ->
  sum_list_with weight (workers_ c) = (weight w + sum_list_with weight (ws1 ++ ws2))%nat.
Proof. intros ->. rewrite !sum_list_with_app. cbn. lia. Qed.

Lemma weights ws1 w ws2 : sum_list_with weight (ws1 ++ w :: ws2) = (weight w + sum_list_with weight (ws1 ++ ws2))%nat.
Proof. rewrite !sum_list_with_app. cbn. lia. Qed.

Lemma queues_length_alter sets j s f : sets !! j = Some s ->
  (length (queues (alter f j sets)) + length (rs_queue s) = length (queues sets) + length (rs_queue (f s)))%nat.
Proof.
  intros H. destruct (queues_alter sets j s f H) as (rest & -> & ->). rewrite !length_app. lia.
Qed.

Lemma work_frame blocks i b b' : blocks !! i = Some b -> (undecompressed b' < undecompressed b)%nat ->
  (sum_list_with undecompressed (<[i := b']> blocks) < sum_list_with undecompressed blocks)%nat.
Proof.
  revert i. induction blocks as [|x l IH]; intros [|i] H Hlt; try done; cbn.
  - injection H as ->. lia.
  - apply Nat.add_lt_mono_l. by apply IH.
Qed.

Lemma set_value_work p v c : jobs_ (set_value p v c) = jobs_ c /\ blocks_ (set_value p v c) = blocks_ c /\
  sets_ (set_value p v c) = sets_ c.
Proof. by destruct p. Qed.

Lemma work_value c ws1 ws2 j r t p v : workers_ c = ws1 ++ WRun j r t :: ws2 ->
  (work (with_workers (ws1 ++ WLoop j :: ws2) (set_value p v c)) < work c)%nat.
Proof.
  intros E. unfold work. rewrite (weight_split c _ _ _ E). cbn [workers_ with_workers jobs_ blocks_ sets_].
  destruct (set_value_work p v c) as (-> & -> & ->). rewrite weights. cbn [weight]. lia.
Qed.

Lemma work_start c ws1 ws2 j c' w : inv c -> workers_ c = ws1 ++ WStart j :: ws2 -> process_start j c = (c', w) ->
  (work (with_workers (ws1 ++ option_list w ++ ws2) c') < work c)%nat.
Proof.
  intros Hinv E Hp. destruct (worker_in c _ _ _ E Hinv) as [Hj _].
  destruct (set_of_worker c _ _ _ j E Hinv eq_refl) as (s & Hs & _ & Es & _).
  assert (work (with_workers (ws1 ++ WLoop j :: ws2) (with_decompressing (<[rs_block_no (set_at c j) := j]> (decompressing_ c)) c)) < work c)%nat as Hgo.
  { unfold work. rewrite (weight_split c _ _ _ E). cbn. rewrite weights. cbn. lia. }
  unfold process_start in Hp. destruct (decompressing_ c !! rs_block_no (set_at c j)) as [k|] eqn:Ek; [|by injection Hp as <- <-].
  destruct (rs_alive (set_at c k)); injection Hp as <- <-; [|done].
  destruct (i_decompressing _ Hinv _ k Ek) as (x & Hx & _). assert (k <> j) as Hne by (by eapply Hj).
  unfold work. rewrite (weight_split c _ _ _ E). cbn [workers_ with_workers jobs_ blocks_ sets_ with_sets option_list app weight].
  assert (alter (rs_merge (set_at c j)) k (sets_ c) !! j = Some s) as Hs1 by (by rewrite list_lookup_alter_ne).
  pose proof (queues_length_alter _ j s rs_reset Hs1) as Q1. pose proof (queues_length_alter _ k x (rs_merge (set_at c j)) Hx) as Q2.
  cbn in Q1, Q2. rewrite Es in *. rewrite length_app in Q2. change (option_list (@None worker)) with (@nil worker). cbn [app]. lia.
Qed.

Lemma work_run c ws1 ws2 j r t c' w : inv c -> workers_ c = ws1 ++ WRun j r t :: ws2 -> process_run decompress_frame j r t c = (c', w) ->
  (work (with_workers (ws1 ++ w :: ws2) c') < work c)%nat.
Proof.
  intros Hinv E Hp. destruct (set_of_worker c _ _ _ j E Hinv eq_refl) as (s & Hs & _ & Es & (x & Hx & Ex) & _).
  unfold process_run in Hp. rewrite Es, (block_at_lookup _ _ _ Hx) in Hp.
  destruct (_ <? t); [|injection Hp as <- <-; by eapply work_value].
  destruct (cb_done x) eqn:Ed; [injection Hp as <- <-; by eapply work_value|].
  destruct (decompress_frame _ _) as [[l last]|] eqn:Ef; injection Hp as <- <-; [|by eapply work_value].
  pose proof (i_blocks _ Hinv) as Hb. rewrite Forall_lookup in Hb. destruct (Hb _ x Hx) as (B1 & B2 & B3 & _).
  assert (zlen (cb_data x) <> zlen (data (cb_no x))) as Hne by (intros H; apply B3 in H; congruence).
  pose proof (zlen_nonneg (cb_data x)). unfold cb_range_end in Ef.
  assert (0 <= zlen (cb_data x) < zlen (data (cb_no x))) as Hpos by lia. destruct (dc_frame _ _ _ _ Hpos Ef) as (F1 & F2 & _).
  unfold work. rewrite (weight_split c _ _ _ E). cbn [workers_ with_workers jobs_ blocks_ sets_ with_blocks]. rewrite weights.
  enough (sum_list_with undecompressed (<[rs_block s:=CachedBlock (cb_no x) (cb_data x ++ l) last]> (blocks_ c)) <
    sum_list_with undecompressed (blocks_ c))%nat by lia.
  apply (work_frame _ _ x); [done|]. unfold undecompressed. cbn. rewrite zlen_app. lia.
Qed.

(** Every step of a worker does some of the work. *)
Lemma worker_step_work c c' : inv c -> worker_step c c' -> (work c' < work c)%nat.
Proof.
  intros Hinv H. destruct H as [c j js E|c ws1 ws2 j c' w E Hp|c ws1 ws2 j r rest E Hq _|c ws1 ws2 j E Hq|c ws1 ws2 j r t c' w E Hp|c ws1 ws2 b i E].
  - unfold work. cbn. rewrite E, sum_list_with_app. cbn. lia.
  - by eapply work_start.
  - destruct (set_of_worker c _ _ _ j E Hinv eq_refl) as (s & Hs & _ & Es & _). rewrite Es in *.
    unfold work. rewrite (weight_split c _ _ _ E). cbn. rewrite weights. cbn.
    pose proof (queues_length_alter _ j s (rs_take rest) Hs) as Q. cbn in Q. rewrite Hq in Q. cbn in Q. lia.
  - destruct (set_of_worker c _ _ _ j E Hinv eq_refl) as (s & Hs & _ & Es & _). rewrite Es in *.
    unfold work. rewrite (weight_split c _ _ _ E). cbn. rewrite weights. cbn.
    pose proof (queues_length_alter _ j s rs_reset Hs) as Q. cbn in Q. lia.
  - by eapply work_run.
  - unfold work. rewrite (weight_split c _ _ _ E). cbn. lia.
Qed.

Lemma workers_stop c : inv c -> sn worker_step c.
Proof.
  intros Hinv. remember (work c) as n eqn:En. revert c Hinv En. induction n as [n IH] using lt_wf_ind.
  intros c Hinv ->. constructor. intros c' Hs. unfold flip in Hs.
  apply (IH (work c')); [by apply worker_step_work|by eapply inv_worker_step|done].
Qed.

(** The request of a set that is decompressed for first. *)
Lemma largest_request (q : list block_request) : q <> [] ->
  exists r rest, q ≡ₚ r :: rest /\ Forall (fun r' => rq_end r' <= rq_end r) rest.
Proof.
  induction q as [|x q IH]; [done|]. intros _. destruct q as [|y q]; [by exists x, []|].
  destruct IH as (r & rest & Hp & Hr); [done|]. destruct (Z.le_ge_cases (rq_end x) (rq_end r)).
  - exists r, (x :: rest). split; [rewrite Hp; constructor|by constructor].
  - exists x, (r :: rest). split; [by rewrite Hp|]. constructor; [done|]. eapply Forall_impl; [exact Hr|]. cbn. lia.
Qed.

Lemma worker_goes_on c ws1 w ws2 : workers_ c = ws1 ++ w :: ws2 -> exists c', worker_step c c'.
Proof.
  intros E. destruct w as [j|j|j r t|b i].
  - destruct (process_start j c) as [c' w] eqn:Ep. eexists. by eapply step_start.
  - destruct (rs_queue (set_at c j)) as [|x q] eqn:Eq; [eexists; by eapply step_end|].
    destruct (largest_request (x :: q)) as (r & rest & Hp & Hr); [done|]. eexists. eapply step_request; [done| |done]. by rewrite Eq.
  - destruct (process_run decompress_frame j r t c) as [c' w] eqn:Ep. eexists. by eapply step_run.
  - eexists. by eapply step_insert.
Qed.

Lemma nothing_left c : inv c -> nf worker_step c -> jobs_ c = [] /\ workers_ c = [] /\ pids c = [].
Proof.
  intros Hinv Hnf. assert (jobs_ c = []) as Ej by (destruct (jobs_ c) eqn:E; [done|]; exfalso; apply Hnf; eexists; by eapply step_job).
  assert (workers_ c = []) as Ew.
  { destruct (workers_ c) as [|w ws] eqn:E; [done|]. exfalso. apply Hnf. by apply (worker_goes_on c [] w ws). }
  split_and!; [done..|]. unfold pids, requests. rewrite Ew, app_nil_r.
  assert (queues (sets_ c) = []) as ->; [|done]. unfold queues. apply concat_nil_Forall. apply List.Forall_map, List.Forall_forall.
  intros s Hs. apply list_elem_of_In, list_elem_of_lookup in Hs as [j Hj]. pose proof (i_sets _ Hinv) as H. rewrite Forall_lookup in H.
  destruct (H j s Hj) as (_ & _ & Hq). apply Hq. destruct (rs_alive s) eqn:Ea; [|done].
  assert (j ∈ owners c) as Ho by (apply (i_alive _ Hinv); by exists s). unfold owners in Ho. rewrite Ej, Ew in Ho. by apply elem_of_nil in Ho.
Qed.

Section theorems.
Context (max_bytes block_size threshold : Z).
#[local] Abbreviation created := (block_cache_create block_count max_bytes block_size threshold).

(** C16: the block cache is safe. Whatever calls, prefetches, steps of workers
    and evictions have been made in whatever order, each promise that has been
    given a value has been given the bytes of its range if that is inside the
    block; if it is not, an error, or, of a block that is not compressed, whatever
    lies in memory there, which the code does not check; an error otherwise only
    where the block cannot be read; each promise that has no value is in exactly
    one request that waits or is worked on; and no block is decompressed by two
    workers. *)
Theorem cache_answers_right c : rtc cache_step created c ->
  (forall p q v, promises_ c !! p = Some q -> pr_value q = Some v -> answer (pr_range q) v) /\
  (forall p q, promises_ c !! p = Some q -> pr_value q = None -> p ∈ pids c) /\ NoDup (pids c) /\
  (forall i k j1 r1 t1 j2 r2 t2, workers_ c !! i = Some (WRun j1 r1 t1) -> workers_ c !! k = Some (WRun j2 r2 t2) ->
     rs_block (set_at c j1) = rs_block (set_at c j2) -> i = k).
Proof.
  intros H. pose proof (inv_steps _ _ H (inv_create max_bytes block_size threshold)) as Hinv.
  split_and!; [apply Hinv|apply Hinv|apply Hinv|]. intros. by eapply one_worker.
Qed.

(** C15: the block cache answers. From whatever state has been reached the
    workers cannot go on forever, and where they cannot go on at all no job is
    left and every promise has been given a value: the bytes of its range if that
    is inside the block and the block can be read; for a range that is not inside,
    an error, or of an uncompressed block what lies in memory there. *)
Theorem cache_answers_all c : rtc cache_step created c ->
  sn worker_step c /\
  forall c', rtc worker_step c c' -> nf worker_step c' ->
    jobs_ c' = [] /\ workers_ c' = [] /\
    forall p q, promises_ c' !! p = Some q -> exists v, pr_value q = Some v /\ answer (pr_range q) v.
Proof.
  intros H. pose proof (inv_steps _ _ H (inv_create max_bytes block_size threshold)) as Hinv.
  split; [by apply workers_stop|]. intros c' Hs Hnf.
  assert (inv c') as Hinv' by (clear -Hs Hinv Decompresses0; induction Hs; eauto using inv_worker_step).
  destruct (nothing_left c' Hinv' Hnf) as (-> & -> & Ep). split_and!; [done..|]. intros p q Hp.
  destruct (pr_value q) as [v|] eqn:Ev; [exists v; split; [done|by eapply (i_done _ Hinv')]|].
  pose proof (i_pending _ Hinv' p q Hp Ev) as Hin. rewrite Ep in Hin. by apply elem_of_nil in Hin.
Qed.
End theorems.

End invariant.

Module CacheExample.

Definition data (b : Z) : list Z := if b =? 0 then [1; 2; 3; 4; 5] else [6; 7].
Definition raw_data (b : Z) : option (list Z) := if b =? 1 then Some (data b ++ [99; 98]) else None.
Definition creatable (b : Z) : bool := b <? 2.
Definition uncompressed_size (b : Z) : Z := zlen (data b).
Definition decompress_frame (b pos : Z) : option (list Z * bool) :=
  let n := Z.min 2 (zlen (data b) - pos) in
  Some (slice (data b) pos n, pos + n =? zlen (data b)).
Definition over_ratio (range_end max_end : Z) : bool := 4 * max_end <? 5 * range_end.

#[global] Instance decompresses : Decompresses raw_data uncompressed_size decompress_frame data.
Proof.
  split.
  - intros b d. unfold raw_data. destruct (b =? 1); [|done]. intros [= <-]. by eexists.
  - done.
  - intros b. unfold data. by destruct (b =? 0).
  - intros b pos l last Hpos [= <- <-]. rewrite slice_length by lia. split_and!; [lia|lia|done|]. by rewrite Z.eqb_eq.
Qed.

#[local] Abbreviation example_step := (cache_step 2 raw_data creatable uncompressed_size decompress_frame over_ratio).

(** The second and the third byte of block 0 are asked for, which are in its
    first two frames, then a range that is partly outside of it. *)
Definition c0 : block_cache := block_cache_create 2 64 16 1.
Definition c1 : block_cache := (get 2 raw_data creatable 0 1 2 c0).2.
Definition c2 : block_cache := (get 2 raw_data creatable 0 3 4 c1).2.

Definition turn (w : worker) (c : block_cache) : block_cache := with_workers [w] c.
Definition c3 : block_cache := with_workers [WStart 0] (with_jobs [1%nat] c2).
Definition c4 : block_cache := turn (WLoop 0) (process_start 0 c3).1.
Definition c5 : block_cache :=
  turn (WRun 0 (BlockRequest 1 3 (Some 0%nat)) 3) (with_sets (alter (rs_take []) 0%nat (sets_ c4)) c4).
Definition run (c : block_cache) : block_cache := (process_run decompress_frame 0 (BlockRequest 1 3 (Some 0%nat)) 3 c).1.
Definition c6 : block_cache := turn (WRun 0 (BlockRequest 1 3 (Some 0%nat)) 3) (run c5).
Definition c7 : block_cache := turn (WRun 0 (BlockRequest 1 3 (Some 0%nat)) 3) (run c6).
Definition c8 : block_cache := turn (WLoop 0) (run c7).

Lemma calls : rtc example_step c0 c2.
Proof.
  apply (rtc_l _ _ c1); [by apply (step_get _ _ _ _ _ _ c0 0 1 2)|].
  apply (rtc_l _ _ c2); [by apply (step_get _ _ _ _ _ _ c1 0 3 4)|constructor].
Qed.

Lemma steps : rtc example_step c0 c8.
Proof.
  etrans; [exact calls|].
  apply (rtc_l _ _ c3); [apply step_worker; by apply (step_job uncompressed_size decompress_frame over_ratio c2 0 [1%nat])|].
  apply (rtc_l _ _ c4); [apply step_worker; apply (step_start uncompressed_size decompress_frame over_ratio c3 [] [] 0 _ (Some (WLoop 0))); by vm_compute|].
  apply (rtc_l _ _ c5).
  { apply step_worker. apply (step_request uncompressed_size decompress_frame over_ratio c4 [] [] 0 (BlockRequest 1 3 (Some 0%nat)) []); [by vm_compute|by vm_compute|constructor]. }
  apply (rtc_l _ _ c6); [apply step_worker; apply (step_run uncompressed_size decompress_frame over_ratio c5 [] [] 0 (BlockRequest 1 3 (Some 0%nat)) 3); by vm_compute|].
  apply (rtc_l _ _ c7); [apply step_worker; apply (step_run uncompressed_size decompress_frame over_ratio c6 [] [] 0 (BlockRequest 1 3 (Some 0%nat)) 3); by vm_compute|].
  apply (rtc_l _ _ c8); [apply step_worker; apply (step_run uncompressed_size decompress_frame over_ratio c7 [] [] 0 (BlockRequest 1 3 (Some 0%nat)) 3); by vm_compute|].
  constructor.
Qed.
End CacheExample.

Lemma cache_answers_right_witness :
  promises_ CacheExample.c8 !! 0%nat = Some (Promise (0, 1, 2) (Some (Ok [2; 3]))) /\
  answer 2 CacheExample.raw_data CacheExample.creatable CacheExample.decompress_frame CacheExample.data (0, 1, 2) (Ok [2; 3]) /\
  1%nat ∈ pids CacheExample.c8.
Proof.
  assert (promises_ CacheExample.c8 !! 0%nat = Some (Promise (0, 1, 2) (Some (Ok [2; 3])))) as E by (vm_compute; reflexivity).
  destruct (cache_answers_right 2 CacheExample.raw_data CacheExample.creatable CacheExample.uncompressed_size CacheExample.decompress_frame
    CacheExample.over_ratio CacheExample.data 64 16 1 CacheExample.c8 CacheExample.steps) as (H1 & H2 & _).
  split; [exact E|]. split; [exact (H1 0%nat _ _ E eq_refl)|].
  apply (H2 1%nat (Promise (0, 3, 4) None)); [vm_compute; reflexivity|reflexivity].
Defined.

Lemma cache_answers_all_witness :
  length (promises_ CacheExample.c2) = 2%nat /\
  sn (worker_step CacheExample.uncompressed_size CacheExample.decompress_frame CacheExample.over_ratio) CacheExample.c2.
Proof.
  split; [vm_compute; reflexivity|].
  exact (proj1 (cache_answers_all 2 CacheExample.raw_data CacheExample.creatable CacheExample.uncompressed_size CacheExample.decompress_frame
    CacheExample.over_ratio CacheExample.data 64 16 1 CacheExample.c2 CacheExample.calls)).
Defined.
