(* ===== verification/InodeReader.v ===== *)
(** * InodeReader: reading a file from its chunks

    [inode_reader_] of [src/reader/internal/inode_reader_v2.cpp]: the ranges of
    blocks and holes that make up a read, the offset cache that saves the
    scan of the chunks, and the readahead.  A read is in four parts, the
    critical sections that touch the offset cache and what happens between
    them, so that concurrent reads interleave.  [block_cache::get] is a
    parameter.  Logging and performance counters are left out. *)

From S2P Require Import Prelude Bits FileChunks OffsetCache.
Local Open Scope Z_scope.

Definition offset_cache_chunk_index_interval : Z := 256.
Definition offset_cache_size : Z := 64.
Definition readahead_cache_size : Z := 64.
Definition kReadAllIOV : Z := 2 ^ 64 - 1.

#[local] Abbreviation interval := offset_cache_chunk_index_interval.

Inductive errc : Type :=
  | invalid_argument
  | io_error
  | system_code (n : Z).

(** [DWARFS_CHECK] of a chunk without bytes. *)
Inductive reader_error : Type := zero_sized_chunk.

(** What [ranges] holds: a range of a block to get, or of the hole data. *)
Inductive range : Type :=
  | DataRange (block offset size : Z)
  | HoleRange (size : Z).

(** Where the reading loop was left by [break]. *)
Record stop : Type := Stop {
  stop_it : list chunk;
  stop_index : Z;
  stop_offset : Z;
  stop_chunk_size : Z;
  stop_updater : updater
}.

Section reader.
Context {E : Type} (get : Z -> Z -> Z -> result E (list Z)) (error_code : E -> errc).
Context (hole_data_size readahead : Z).

(** ** [read_internal] *)

(** The search in the offset cache; the reference to the entry, and the index
    and the offset of the chunk to start from. *)
Definition uses_cache (chunks : list chunk) (offset : Z) : bool := (0 <? offset) && (interval <=? zlen chunks).

Definition entry_find (offset : Z) (p : nat) (c : offset_cache) : Z * Z * updater :=
  chunk_offsets_find interval offset (entry c p) updater_create.

(** The first loop. *)
Fixpoint skip_chunks (it : list chunk) (offset it_index it_offset : Z) (oc_upd : updater) :
    list chunk * Z * Z * Z * updater :=
  match it with
  | [] => ([], offset, it_index, it_offset, oc_upd)
  | c :: rest =>
      let chunksize := size c in
      if offset <? chunksize then (it, offset, it_index, it_offset, oc_upd)
      else skip_chunks rest (offset - chunksize) (it_index + 1) (it_offset + chunksize)
             (add_offset interval (it_index + 1) (it_offset + chunksize) oc_upd)
  end.

(** [while (copysize > 0)]: every iteration reads at least a byte. *)
Fixpoint hole_ranges (fuel : nat) (copysize : Z) : list range :=
  match fuel with
  | O => []
  | S fuel =>
      if 0 <? copysize then
        let n := Z.min copysize hole_data_size in
        HoleRange n :: hole_ranges fuel (copysize - n)
      else []
  end.

(** The second loop. *)
Fixpoint collect (it : list chunk) (offset num_read : Z) (ranges : list range) (sz maxiov : Z)
    (it_index it_offset : Z) (oc_upd : updater) : result reader_error (list range * option stop) :=
  match it with
  | [] => Ok (ranges, None)
  | c :: rest =>
      let chunksize := size c in
      let copysize := chunksize - offset in
      if copysize <=? 0 then Err zero_sized_chunk
      else
        let copysize := if sz <? num_read + copysize then sz - num_read else copysize in
        let ranges := ranges ++
          (if is_data c then [DataRange (block_ c) (offset_ c + offset) copysize]
           else hole_ranges (Z.to_nat copysize) copysize) in
        let num_read := num_read + copysize in
        if (num_read =? sz) || (maxiov <=? zlen ranges)
        then Ok (ranges, Some (Stop it it_index it_offset chunksize oc_upd))
        else collect rest 0 num_read ranges sz maxiov (it_index + 1) (it_offset + chunksize)
               (add_offset interval (it_index + 1) (it_offset + chunksize) oc_upd)
  end.

(** Both loops, from what the cache has found. *)
Definition read_plan (chunks : list chunk) (sz offset maxiov : Z) (found : Z * Z * updater) :
    result reader_error (list range * option stop) :=
  let '(it_index, it_offset, oc_upd) := found in
  let '(it, offset, it_index, it_offset, oc_upd) :=
    skip_chunks (drop (Z.to_nat it_index) chunks) (offset - it_offset) it_index it_offset oc_upd in
  match it with
  | [] => Ok ([], None)
  | _ => collect it offset 0 [] sz maxiov it_index it_offset oc_upd
  end.

(** [oc_ent->update] of the shared entry. *)
Definition entry_update (p : nat) (s : stop) (c : offset_cache) : offset_cache :=
  set_entry p (chunk_offsets_update (stop_updater s) (stop_index s) (stop_offset s) (stop_chunk_size s) (entry c p)) c.

(** *** [do_readahead] *)

(** The loop: the requests to the block cache.  A hole has block 0 and
    offset 0. *)
Fixpoint readahead_loop (it : list chunk) (it_offset readahead_pos readahead_until : Z) : list (Z * Z * Z) :=
  match it with
  | [] => []
  | c :: rest =>
      let reqs := if readahead_pos <=? it_offset + size c then [(block_ c, offset_ c, size c)] else [] in
      let it_offset := it_offset + size c in
      if readahead_until <=? it_offset then reqs
      else reqs ++ readahead_loop rest it_offset readahead_pos readahead_until
  end.

Definition do_readahead (inode : Z) (it : list chunk) (read_offset sz it_offset : Z) (rc : lru_cache Z Z) :
    list (Z * Z * Z) * lru_cache Z Z :=
  let readahead_until := read_offset + sz + readahead in
  if 0 <? read_offset then
    let '(found, rc) := lru_find inode true rc in
    let readahead_pos := default 0 found in
    if readahead_until <=? readahead_pos then ([], rc)
    else (readahead_loop it it_offset readahead_pos readahead_until, (lru_set inode readahead_until rc).2)
  else (readahead_loop it it_offset 0 readahead_until, (lru_set inode readahead_until rc).2).

(** *** A read on its own *)

Record reader : Type := Reader {
  offset_cache_ : offset_cache;
  readahead_cache_ : lru_cache Z Z
}.

Definition reader_create : reader := Reader (offset_cache_create offset_cache_size) (lru_create readahead_cache_size).

(** The error code, the ranges, and the requests made ahead. *)
Record read_result : Type := ReadResult {
  rr_error : option errc;
  rr_ranges : list range;
  rr_ahead : list (Z * Z * Z)
}.

Definition read_internal (inode sz read_offset maxiov : Z) (chunks : list chunk) (ec : option errc) :
    action reader_error reader read_result :=
  if read_offset <? 0 then ret (ReadResult (Some invalid_argument) [] [])
  else if (sz =? 0) || bool_decide (chunks = []) then ret (ReadResult None [] [])
  else
    let! rd := Prelude.get in
    let '(oc_ent, c) :=
      if uses_cache chunks read_offset
      then let '(p, c) := offset_cache_find inode (offset_cache_ rd) in (Some p, c)
      else (None, offset_cache_ rd) in
    let found := match oc_ent with Some p => entry_find read_offset p c | None => (0, 0, updater_create) end in
    put (Reader c (readahead_cache_ rd)) ;;
    match read_plan chunks sz read_offset maxiov found with
    | Err e => throw e
    | Ok (ranges, None) =>
        ret (ReadResult (if bool_decide (ranges = []) then None else ec) ranges [])
    | Ok (ranges, Some s) =>
        let c := match oc_ent with Some p => offset_cache_set inode p (entry_update p s c) | None => c end in
        let '(ahead, rc) := if 0 <? readahead
                            then do_readahead inode (stop_it s) read_offset sz (stop_offset s) (readahead_cache_ rd)
                            else ([], readahead_cache_ rd) in
        put (Reader c rc) ;;
        ret (ReadResult ec ranges ahead)
    end.

(** ** The read functions *)

(** [r.get()]. *)
Definition fetch (r : range) : result E (list Z) :=
  match r with
  | DataRange b o n => get b o n
  | HoleRange n => Ok (replicate (Z.to_nat n) 0)
  end.

(** The pieces up to a range that fails. *)
Fixpoint fetch_all (rs : list range) : list (list Z) * option E :=
  match rs with
  | [] => ([], None)
  | r :: rs =>
      match fetch r with
      | Ok b => let '(bs, e) := fetch_all rs in (b :: bs, e)
      | Err e => ([], Some e)
      end
  end.

Definition read_string (inode sz offset : Z) (chunks : list chunk) (ec : option errc) :
    action reader_error reader (list Z * option errc) :=
  let! rr := read_internal inode sz offset kReadAllIOV chunks ec in
  match rr_error rr with
  | Some e => ret ([], Some e)
  | None =>
      match fetch_all (rr_ranges rr) with
      | (bs, None) => ret (concat bs, None)
      | (_, Some _) => ret ([], Some io_error)
      end
  end.

(** [memcpy(buf + num_read, br)] *)
Definition store_at (buf : list Z) (num_read : Z) (br : list Z) : list Z :=
  take (Z.to_nat num_read) buf ++ br ++ drop (Z.to_nat num_read + length br) buf.

(** The bytes read, the buffer, and the error of a range that failed. *)
Fixpoint fill_buffer (rs : list range) (num_read : Z) (buf : list Z) : Z * list Z * option E :=
  match rs with
  | [] => (num_read, buf, None)
  | r :: rs =>
      match fetch r with
      | Ok br => fill_buffer rs (num_read + zlen br) (store_at buf num_read br)
      | Err e => (0, buf, Some e)
      end
  end.

Definition read (buf : list Z) (inode sz offset : Z) (chunks : list chunk) (ec : option errc) :
    action reader_error reader (Z * list Z * option errc) :=
  let! rr := read_internal inode sz offset kReadAllIOV chunks ec in
  match rr_error rr with
  | Some e => ret (0, buf, Some e)
  | None =>
      match fill_buffer (rr_ranges rr) 0 buf with
      | (n, buf, None) => ret (n, buf, None)
      | (_, buf, Some e) => ret (0, buf, Some (error_code e))
      end
  end.

(** [readv] into an [iovec_read_buf]: the pieces, and the bytes read. *)
Definition readv (inode sz offset maxiov : Z) (chunks : list chunk) (ec : option errc) :
    action reader_error reader (list (list Z) * Z * option errc) :=
  let! rr := read_internal inode sz offset maxiov chunks ec in
  match rr_error rr with
  | Some e => ret ([], 0, Some e)
  | None =>
      match fetch_all (rr_ranges rr) with
      | (bs, None) => ret (bs, foldl (fun n b => n + zlen b) 0 bs, None)
      | (bs, Some e) => ret (bs, 0, Some (error_code e))
      end
  end.
End reader.

(** ** What the block cache promises *)

(** Getting a range that lies in a block gives its bytes. *)
Class ReadsBlocks {E} (get : Z -> Z -> Z -> result E (list Z)) (blocks : Z -> list Z) : Prop := {
  get_range b o n : 0 <= o -> 0 <= n -> o + n <= zlen (blocks b) -> get b o n = Ok (slice (blocks b) o n)
}.

Section reading.
Context {E : Type} (get : Z -> Z -> Z -> result E (list Z)) (blocks : Z -> list Z) `{!ReadsBlocks get blocks}.
Context (hole_data_size : Z) (Hhole : 0 < hole_data_size).

(** A chunk of a file that is read. *)
Definition chunk_valid (c : chunk) : Prop :=
  0 < size c /\ (is_hole c = false -> 0 <= offset_ c /\ offset_ c + size c <= zlen (blocks (block_ c))).

(** The bytes of a file. *)
Definition file_bytes (chunks : list chunk) : list Z := concat (map (chunk_bytes blocks) chunks).

Definition range_bytes (r : range) : list Z :=
  match r with
  | DataRange b o n => slice (blocks b) o n
  | HoleRange n => replicate (Z.to_nat n) 0
  end.

Definition range_ok (r : range) : Prop :=
  match r with
  | DataRange b o n => 0 <= o /\ 0 < n /\ o + n <= zlen (blocks b)
  | HoleRange n => 0 < n
  end.

Definition ranges_bytes (rs : list range) : list Z := concat (map range_bytes rs).

Lemma fetch_ok r : range_ok r -> fetch get r = Ok (range_bytes r).
Proof. destruct r as [b o n|n]; cbn; [|done]. intros (H1 & H2 & H3). apply get_range; lia. Qed.

Lemma fetch_all_ok rs : Forall range_ok rs -> fetch_all get rs = (map range_bytes rs, None).
Proof. induction 1 as [|r rs Hr _ IH]; [done|]. cbn. by rewrite fetch_ok, IH. Qed.

Lemma range_nonempty r : range_ok r -> 0 < zlen (range_bytes r).
Proof.
  destruct r as [b o n|n]; cbn.
  - intros (H1 & H2 & H3). rewrite slice_length by lia. done.
  - unfold zlen. rewrite length_replicate. lia.
Qed.

Lemma ranges_bytes_app a b : ranges_bytes (a ++ b) = ranges_bytes a ++ ranges_bytes b.
Proof. unfold ranges_bytes. by rewrite map_app, concat_app. Qed.

Lemma ranges_count rs : Forall range_ok rs -> zlen rs <= zlen (ranges_bytes rs).
Proof.
  induction 1 as [|r rs Hr _ IH]; [done|]. change (ranges_bytes (r :: rs)) with (range_bytes r ++ ranges_bytes rs).
  rewrite zlen_app. pose proof (range_nonempty r Hr). unfold zlen in *. cbn [length]. lia.
Qed.

Lemma chunk_bytes_length c : chunk_valid c -> zlen (chunk_bytes blocks c) = size c.
Proof.
  intros [H1 H2]. unfold chunk_bytes. destruct (is_hole c); [unfold zlen; rewrite length_replicate; lia|].
  destruct (H2 eq_refl). rewrite slice_length by lia. done.
Qed.

Lemma hole_ranges_spec fuel n : 0 <= n <= Z.of_nat fuel ->
  Forall range_ok (hole_ranges hole_data_size fuel n) /\
  ranges_bytes (hole_ranges hole_data_size fuel n) = replicate (Z.to_nat n) 0.
Proof.
  revert n. induction fuel as [|fuel IH]; intros n Hn; cbn [hole_ranges].
  - replace n with 0 by lia. done.
  - destruct (Z.ltb_spec 0 n); [|replace n with 0 by lia; done].
    set (m := Z.min n hole_data_size). destruct (IH (n - m) ltac:(lia)) as [IH1 IH2]. split.
    + constructor; [cbn; lia|done].
    + change (ranges_bytes (HoleRange m :: hole_ranges hole_data_size fuel (n - m))) with
        (replicate (Z.to_nat m) 0 ++ ranges_bytes (hole_ranges hole_data_size fuel (n - m))).
      rewrite IH2, <- replicate_add. f_equal. lia.
Qed.

(** The ranges of a part of a chunk. *)
Lemma chunk_ranges_spec c off n : chunk_valid c -> 0 <= off -> 0 < n -> off + n <= size c ->
  let rs := if is_data c then [DataRange (block_ c) (offset_ c + off) n]
            else hole_ranges hole_data_size (Z.to_nat n) n in
  Forall range_ok rs /\ ranges_bytes rs = slice (chunk_bytes blocks c) off n.
Proof.
  intros [H1 H2] Ho Hn Hl. cbv zeta. unfold is_data, chunk_bytes. destruct (is_hole c); cbn [negb].
  - destruct (hole_ranges_spec (Z.to_nat n) n ltac:(lia)) as [I1 I2]. split; [done|]. rewrite I2.
    unfold slice. rewrite drop_replicate, take_replicate. f_equal. lia.
  - destruct (H2 eq_refl). split; [constructor; [cbn; lia|done]|]. unfold ranges_bytes. cbn.
    rewrite app_nil_r. symmetry. apply slice_slice; lia.
Qed.

(** *** The loops *)

Section loops.
Context (chunks : list chunk) (Hvalid : Forall chunk_valid chunks).
#[local] Abbreviation sizes := (map size chunks).
#[local] Abbreviation start := (start sizes).
#[local] Abbreviation updater_ok := (updater_ok interval sizes).

Lemma file_bytes_cons c cs : file_bytes (c :: cs) = chunk_bytes blocks c ++ file_bytes cs.
Proof. done. Qed.

Lemma slice_app_over (l1 l2 : list Z) off n : 0 <= off <= zlen l1 -> zlen l1 - off <= n ->
  slice (l1 ++ l2) off n = slice l1 off (zlen l1 - off) ++ slice l2 0 (n - (zlen l1 - off)).
Proof.
  intros. unfold slice, zlen in *. rewrite drop_app_le, drop_0 by lia.
  rewrite (take_ge (drop (Z.to_nat off) l1)) by (rewrite length_drop; lia).
  rewrite take_app_ge by (rewrite length_drop; lia). f_equal. f_equal. rewrite length_drop. lia.
Qed.

(** The next chunk. *)
Lemma drop_next ix c rest : 0 <= ix -> drop (Z.to_nat ix) chunks = c :: rest ->
  chunk_valid c /\ sizes !! Z.to_nat ix = Some (size c) /\ drop (Z.to_nat (ix + 1)) chunks = rest /\ ix + 1 <= zlen chunks /\
  start (ix + 1) = start ix + size c.
Proof.
  intros Hix H. assert (chunks !! Z.to_nat ix = Some c) as Hc.
  { rewrite <- (Nat.add_0_r (Z.to_nat ix)), <- lookup_drop, H. done. }
  assert (sizes !! Z.to_nat ix = Some (size c)) as Hs by (change sizes with (size <$> chunks); by rewrite list_lookup_fmap, Hc).
  split_and!; [by eapply Forall_lookup_1|done| | |by apply start_succ].
  - replace (Z.to_nat (ix + 1)) with (Z.to_nat ix + 1)%nat by lia. rewrite <- drop_drop, H. done.
  - apply lookup_lt_Some in Hc. unfold zlen. lia.
Qed.

Lemma sizes_positive : Forall (fun n => 0 < n) sizes.
Proof. apply Forall_map. eapply Forall_impl; [exact Hvalid|]. by intros c [? _]. Qed.

(** A position of the scan: a chunk, its offset, and what the updater has. *)
Record at_chunk (it : list chunk) (ix off : Z) (u : updater) (first : Z) : Prop := {
  ac_index : 0 <= ix <= zlen chunks;
  ac_it : it = drop (Z.to_nat ix) chunks;
  ac_offset : off = start ix;
  ac_updater : updater_ok u ix;
  ac_first : first_index_ u = first
}.

Lemma at_chunk_next c rest ix off u first : at_chunk (c :: rest) ix off u first ->
  chunk_valid c /\ at_chunk rest (ix + 1) (off + size c) (add_offset interval (ix + 1) (off + size c) u) first.
Proof.
  intros [H1 H2 H3 H4 H5]. destruct (drop_next ix c rest ltac:(lia) ltac:(done)) as (N1 & N2 & N3 & N4 & N5). split; [done|]. subst off.
  destruct (add_offset_ok interval ltac:(done) sizes u ix (size c) H4 ltac:(lia) N2) as [A1 A2].
  split; [lia|done|done|done|by rewrite A2].
Qed.

Lemma skip_chunks_spec it offset ix off u first : at_chunk it ix off u first -> 0 <= offset ->
  let '(it', offset', ix', off', u') := skip_chunks it offset ix off u in
  at_chunk it' ix' off' u' first /\ 0 <= offset' /\
  (it' = [] \/ exists c rest, it' = c :: rest /\ offset' < size c) /\
  forall n, slice (file_bytes it) offset n = slice (file_bytes it') offset' n.
Proof.
  revert offset ix off u. induction it as [|c rest IH]; intros offset ix off u Hat Ho; cbn [skip_chunks].
  - split_and!; [done|done|by left|done].
  - destruct (at_chunk_next c rest ix off u first Hat) as [Hc Hn]. destruct (Z.ltb_spec offset (size c)).
    + split_and!; [done|done|right; by exists c, rest|done].
    + specialize (IH (offset - size c) (ix + 1) (off + size c) (add_offset interval (ix + 1) (off + size c) u) Hn ltac:(lia)).
      destruct (skip_chunks rest (offset - size c) (ix + 1) (off + size c) (add_offset interval (ix + 1) (off + size c) u))
        as [[[[it' offset'] ix'] off'] u']. destruct IH as (I1 & I2 & I3 & I4). split_and!; try done.
      intros n. rewrite <- I4, file_bytes_cons. unfold slice. rewrite drop_app_ge.
      * f_equal. f_equal. pose proof (chunk_bytes_length c Hc). unfold zlen in *. lia.
      * pose proof (chunk_bytes_length c Hc). unfold zlen in *. lia.
Qed.

(** What the reading loop has found for the bytes [want] of the file. *)
Definition collected (want : list Z) (ranges rs : list range) (maxiov : Z) (st : option stop) (first : Z) : Prop :=
  Forall range_ok rs /\ ranges_bytes rs `prefix_of` want /\
  (ranges_bytes rs = want \/ maxiov <= zlen (ranges ++ rs)) /\
  forall s, st = Some s -> at_chunk (stop_it s) (stop_index s) (stop_offset s) (stop_updater s) first.

Lemma collect_spec it offset num_read ranges sz maxiov ix off u first : at_chunk it ix off u first ->
  (it = [] \/ exists c rest, it = c :: rest /\ 0 <= offset < size c) -> num_read < sz ->
  exists rs st, collect hole_data_size it offset num_read ranges sz maxiov ix off u = Ok (ranges ++ rs, st) /\
    (it <> [] -> rs <> []) /\ collected (slice (file_bytes it) offset (sz - num_read)) ranges rs maxiov st first.
Proof.
  revert offset num_read ranges ix off u. induction it as [|c rest IH]; intros offset num_read ranges ix off u Hat Hoff Hsz.
  - exists [], None. rewrite app_nil_r. cbn [collect]. split_and!; [done|done|].
    assert (slice (file_bytes []) offset (sz - num_read) = []) as -> by (unfold slice, file_bytes; cbn; by rewrite drop_nil, take_nil).
    split_and!; [done|done|by left|done].
  - destruct Hoff as [|(c' & rest' & [= <- <-] & Ho)]; [done|].
    destruct (at_chunk_next c rest ix off u first Hat) as [Hc Hn]. cbn [collect].
    rewrite (proj2 (Z.leb_gt _ _)) by lia.
    set (n := if sz <? num_read + (size c - offset) then sz - num_read else size c - offset).
    assert (n = Z.min (sz - num_read) (size c - offset)) as En.
    { unfold n. destruct (Z.ltb_spec sz (num_read + (size c - offset))); lia. }
    destruct (chunk_ranges_spec c offset n Hc ltac:(lia) ltac:(lia) ltac:(lia)) as [R1 R2].
    set (rs1 := if is_data c then [DataRange (block_ c) (offset_ c + offset) n] else hole_ranges hole_data_size (Z.to_nat n) n) in *.
    assert (rs1 <> []) as Hne.
    { intros E0. rewrite E0 in R2. pose proof (slice_length (chunk_bytes blocks c) offset n ltac:(lia) ltac:(lia)
        ltac:(rewrite (chunk_bytes_length c Hc); lia)) as Hl. rewrite <- R2 in Hl. unfold zlen in Hl. cbn in Hl. lia. }
    destruct ((num_read + n =? sz) || (maxiov <=? zlen (ranges ++ rs1))) eqn:Estop.
    + exists rs1, (Some (Stop (c :: rest) ix off (size c) u)). split_and!; [done|done|].
      assert (ranges_bytes rs1 `prefix_of` slice (file_bytes (c :: rest)) offset (sz - num_read) /\
        (num_read + n = sz -> ranges_bytes rs1 = slice (file_bytes (c :: rest)) offset (sz - num_read))) as [Hp He].
      { rewrite R2, file_bytes_cons. pose proof (chunk_bytes_length c Hc) as Hlc. split.
        - replace (sz - num_read) with (n + (sz - num_read - n)) by lia. rewrite slice_add by lia.
          rewrite (slice_app_l _ _ offset n) by lia. by apply prefix_app_r.
        - intros E0. replace (sz - num_read) with n by lia. by rewrite slice_app_l by lia. }
      split_and!; [done|done| |by intros s [= <-]].
      apply orb_true_iff in Estop as [E0%Z.eqb_eq|E0%Z.leb_le]; [left; by apply He|by right].
    + apply orb_false_iff in Estop as [E1%Z.eqb_neq E2%Z.leb_gt].
      destruct (IH 0 (num_read + n) (ranges ++ rs1) (ix + 1) (off + size c)
        (add_offset interval (ix + 1) (off + size c) u) Hn) as (rs & st & Ec & _ & C1 & C2 & C3 & C4); [|lia|].
      { destruct rest as [|c2 rest]; [by left|right]. exists c2, rest. split; [done|].
        destruct (at_chunk_next c2 rest _ _ _ _ Hn) as [[? _] _]. lia. }
      exists (rs1 ++ rs), st. rewrite Ec, app_assoc. split_and!; [done|by destruct rs1|].
      pose proof (chunk_bytes_length c Hc) as Hlc.
      assert (slice (file_bytes (c :: rest)) offset (sz - num_read) =
        ranges_bytes rs1 ++ slice (file_bytes rest) 0 (sz - (num_read + n))) as ->.
      { rewrite file_bytes_cons, slice_app_over, Hlc, R2 by lia. f_equal; f_equal; lia. }
      unfold collected. rewrite ranges_bytes_app, <- app_assoc in *. split_and!; [by apply Forall_app| | |done].
      * by apply prefix_app.
      * destruct C3 as [-> |C3]; [by left|by right].
Qed.

Lemma bytes_before ix : 0 <= ix <= zlen chunks -> zlen (file_bytes (take (Z.to_nat ix) chunks)) = start ix.
Proof.
  intros _. unfold OffsetCache.start. change (map size chunks) with (size <$> chunks). rewrite <- fmap_take.
  assert (Forall chunk_valid (take (Z.to_nat ix) chunks)) as H by by apply Forall_take.
  induction H as [|c cs Hc _ IH]; [done|]. rewrite file_bytes_cons, zlen_app, IH, chunk_bytes_length by done. done.
Qed.

Lemma file_from ix offset n : 0 <= ix <= zlen chunks -> start ix <= offset ->
  slice (file_bytes chunks) offset n = slice (file_bytes (drop (Z.to_nat ix) chunks)) (offset - start ix) n.
Proof.
  intros Hix Ho. pose proof (bytes_before ix Hix) as Hb. rewrite <- (take_drop (Z.to_nat ix) chunks) at 1.
  unfold file_bytes. rewrite map_app, concat_app. fold (file_bytes (take (Z.to_nat ix) chunks)).
  unfold slice. rewrite drop_app_ge; [|unfold zlen in *; lia]. f_equal. f_equal. unfold zlen in *. lia.
Qed.

(** What a read is to return: the bytes wanted, or a part when it has made
    [maxiov] ranges. *)
Definition read_ok (sz offset maxiov : Z) (rs : list range) : Prop :=
  let want := slice (file_bytes chunks) offset sz in
  Forall range_ok rs /\ ranges_bytes rs `prefix_of` want /\ (ranges_bytes rs = want \/ maxiov <= zlen rs).

Definition stop_ok (s : stop) (first : Z) : Prop :=
  at_chunk (stop_it s) (stop_index s) (stop_offset s) (stop_updater s) first.

Lemma read_plan_spec sz offset maxiov ix off u : 0 <= ix <= zlen chunks -> off = start ix -> off <= offset ->
  updater_ok u ix -> 0 < sz ->
  exists rs st, read_plan hole_data_size chunks sz offset maxiov (ix, off, u) = Ok (rs, st) /\
    read_ok sz offset maxiov rs /\ forall s, st = Some s -> stop_ok s (first_index_ u).
Proof.
  intros Hix -> Hoff Hu Hsz. unfold read_plan.
  assert (at_chunk (drop (Z.to_nat ix) chunks) ix (start ix) u (first_index_ u)) as Hat by by split.
  pose proof (skip_chunks_spec _ (offset - start ix) _ _ _ _ Hat ltac:(lia)) as Hskip.
  destruct (skip_chunks (drop (Z.to_nat ix) chunks) (offset - start ix) ix (start ix) u) as [[[[it o'] ix'] off'] u'].
  destruct Hskip as (S1 & S2 & S3 & S4). unfold read_ok. rewrite (file_from ix offset sz Hix Hoff), S4.
  destruct it as [|c rest].
  - exists [], None. assert (slice (file_bytes []) o' sz = []) as -> by (unfold slice, file_bytes; cbn; by rewrite drop_nil, take_nil).
    split_and!; [done|done|done|by left|done].
  - destruct (collect_spec (c :: rest) o' 0 [] sz maxiov ix' off' u' _ S1) as (rs & st & Ec & _ & C1 & C2 & C3 & C4); [|lia|].
    { destruct S3 as [|(c' & r' & [= <- <-] & ?)]; [done|]. right. by exists c, rest. }
    rewrite Z.sub_0_r in *. exists rs, st. split_and!; try done.
Qed.
End loops.

(** *** The offset cache between reads *)

Context (files : Z -> list chunk) (Hfiles : forall ino, Forall chunk_valid (files ino)).
#[local] Abbreviation ok_entry := (fun ino => entry_ok interval (map size (files ino))).

Record cache_inv (c : offset_cache) : Prop := {
  ci_entries : forall p ino e, heap_ c !! p = Some (ino, e) -> ok_entry ino e;
  ci_cache : forall ino p, (ino, p) ∈ cache_ (oc_cache_ c) -> exists e, heap_ c !! p = Some (ino, e)
}.

(** Entries are only made or extended. *)
Definition cache_le (c c' : offset_cache) : Prop :=
  forall p ino e, heap_ c !! p = Some (ino, e) ->
    exists e', heap_ c' !! p = Some (ino, e') /\ zlen (offsets_ e) <= zlen (offsets_ e').

Lemma cache_le_refl c : cache_le c c.
Proof. intros p ino e H. by exists e. Qed.

Lemma cache_le_trans c1 c2 c3 : cache_le c1 c2 -> cache_le c2 c3 -> cache_le c1 c3.
Proof.
  intros H1 H2 p ino e H. destruct (H1 p ino e H) as (e1 & E1 & L1). destruct (H2 p ino e1 E1) as (e2 & E2 & L2).
  exists e2. split; [done|lia].
Qed.

Lemma lru_remove_in {V} (l : list (Z * V)) k e : e ∈ lru_remove k l -> e ∈ l.
Proof. intros H. by apply list_elem_of_filter in H as [_ ?]. Qed.

Lemma offset_cache_find_ok ino c : cache_inv c ->
  let '(p, c') := offset_cache_find ino c in
  cache_inv c' /\ cache_le c c' /\ exists e, heap_ c' !! p = Some (ino, e).
Proof.
  intros [H1 H2]. unfold offset_cache_find, lru_find. destruct (lru_lookup ino (cache_ (oc_cache_ c))) as [p|] eqn:El.
  - pose proof (lru_lookup_in _ _ _ El) as Hin. split_and!; [split; cbn [heap_ oc_cache_ cache_]|by intros ? ? e ?; exists e|by apply H2].
    + apply H1.
    + intros i q [[= -> ->]|H]%elem_of_cons; [by apply H2|]. apply H2. by eapply lru_remove_in.
  - split_and!; [split; cbn [heap_ oc_cache_ cache_]|..]; cbn [heap_].
    + intros q i e Hq. apply lookup_app_Some in Hq as [Hq|[_ Hq]]; [by apply (H1 q)|].
      apply list_lookup_singleton_Some in Hq as [_ [= <- <-]]. apply chunk_offsets_create_ok.
    + intros i q H. destruct (H2 i q H) as [e He]. exists e. by apply lookup_app_l_Some.
    + intros q i e Hq. exists e. split; [by apply lookup_app_l_Some|lia].
    + exists chunk_offsets_create. rewrite lookup_app_r, Nat.sub_diag by lia. done.
Qed.

Lemma offset_cache_set_ok ino p c e : cache_inv c -> heap_ c !! p = Some (ino, e) -> cache_inv (offset_cache_set ino p c).
Proof.
  intros [H1 H2] Hp. split; [done|]. intros i q Hin. cbn [oc_cache_ offset_cache_set heap_] in *.
  unfold lru_set in Hin. destruct (lru_lookup ino (cache_ (oc_cache_ c))).
  - cbn in Hin. apply elem_of_cons in Hin as [[= -> ->]|H]; [by exists e|]. apply H2. by eapply lru_remove_in.
  - destruct (max_size_ (oc_cache_ c) <=? zlen (cache_ (oc_cache_ c))); cbn in Hin;
      (apply elem_of_cons in Hin as [[= -> ->]|H]; [by exists e|]); apply H2; [|done].
    destruct (cache_ (oc_cache_ c)) as [|x l] using rev_ind; [done|]. rewrite removelast_last in H. apply elem_of_app. by left.
Qed.

Lemma entry_lookup c p ino e : heap_ c !! p = Some (ino, e) -> entry c p = e.
Proof. intros H. unfold entry. by rewrite H. Qed.

Lemma entry_update_ok ino p c e s first : cache_inv c -> heap_ c !! p = Some (ino, e) ->
  stop_ok (files ino) s first -> first <= zlen (offsets_ e) ->
  cache_inv (entry_update p s c) /\ cache_le c (entry_update p s c).
Proof.
  intros [H1 H2] Hp [S1 S2 S3 S4 S5] Hf. unfold entry_update. rewrite (entry_lookup _ _ _ _ Hp), S3.
  assert (zlen (map size (files ino)) = zlen (files ino)) as Hz by (unfold zlen; by rewrite length_map).
  destruct (chunk_offsets_update_ok interval ltac:(done) (map size (files ino)) (stop_updater s) (stop_index s) (stop_chunk_size s) e)
    as [U1 U2]; [by apply (H1 p)|done|by rewrite S5|by rewrite Hz|].
  set (e' := chunk_offsets_update _ _ _ _ _) in *.
  assert (forall q i x, alter (fun y : Z * chunk_offsets => (y.1, e')) p (heap_ c) !! q = Some (i, x) ->
    (q = p /\ i = ino /\ x = e') \/ heap_ c !! q = Some (i, x)) as Halter.
  { intros q i x Hq. rewrite list_lookup_alter in Hq. case_decide as Eq; [|by right]. subst q. rewrite Hp in Hq. cbn in Hq.
    simplify_eq. by left. }
  assert (alter (fun y : Z * chunk_offsets => (y.1, e')) p (heap_ c) !! p = Some (ino, e')) as Hnew
    by (rewrite list_lookup_alter_eq, Hp; done).
  split; [split|]; cbn [set_entry heap_ oc_cache_].
  - intros q i x Hq. destruct (Halter q i x Hq) as [(-> & -> & ->)|Hq']; [done|]. by apply (H1 q).
  - intros i q Hin. destruct (H2 i q Hin) as [x Hx]. destruct (decide (q = p)) as [->|].
    + rewrite Hp in Hx. simplify_eq. by exists e'.
    + exists x. by rewrite list_lookup_alter_ne.
  - intros q i x Hq. destruct (decide (q = p)) as [->|].
    + rewrite Hp in Hq. simplify_eq. exists e'. split; [done|]. apply prefix_length in U2. unfold zlen. lia.
    + exists x. split; [|lia]. cbn [set_entry heap_]. by rewrite list_lookup_alter_ne.
Qed.

(** What a read finds in the cache, at any moment. *)
Lemma entry_find_ok ino p c e offset : cache_inv c -> heap_ c !! p = Some (ino, e) -> 0 <= offset ->
  let '(ix, off, u) := entry_find offset p c in
  0 <= ix <= zlen (files ino) /\ off = start (map size (files ino)) ix /\ off <= offset /\
  updater_ok interval (map size (files ino)) u ix /\ first_index_ u <= zlen (offsets_ e).
Proof.
  intros [H1 _] Hp Ho. unfold entry_find. rewrite (entry_lookup _ _ _ _ Hp).
  pose proof (chunk_offsets_find_ok interval ltac:(done) (map size (files ino)) offset e 0 (H1 p ino e Hp) Ho) as H.
  unfold updater_create. destruct (chunk_offsets_find interval offset e (Updater [] 0)) as [[ix off] u].
  destruct H as (F1 & F2 & F3 & F4 & F5). assert (zlen (map size (files ino)) = zlen (files ino)) by (unfold zlen; by rewrite length_map).
  split_and!; try done; lia.
Qed.

Lemma nothing_found_ok ino offset : 0 <= offset ->
  0 <= 0 <= zlen (files ino) /\ 0 = start (map size (files ino)) 0 /\ 0 <= offset /\
  updater_ok interval (map size (files ino)) updater_create 0.
Proof. intros Ho. pose proof (zlen_nonneg (files ino)). split_and!; try done; try lia. by apply updater_create_ok. Qed.

(** *** A read on its own *)

Definition reader_inv (rd : reader) : Prop := cache_inv (offset_cache_ rd).

Lemma read_internal_ok readahead ino sz offset maxiov rd : reader_inv rd -> 0 <= sz ->
  exists rr rd', read_internal hole_data_size readahead ino sz offset maxiov (files ino) None rd = (Ok rr, rd') /\
    reader_inv rd' /\
    (offset < 0 -> rr_error rr = Some invalid_argument) /\
    (0 <= offset -> rr_error rr = None /\ read_ok (files ino) sz offset maxiov (rr_ranges rr)).
Proof.
  intros Hinv Hsz. unfold read_internal. destruct (Z.ltb_spec offset 0) as [Hneg|Hneg].
  { eexists _, rd. split; [done|]. split_and!; [done|done|lia]. }
  destruct ((sz =? 0) || bool_decide (files ino = [])) eqn:Eempty.
  { eexists _, rd. split; [done|]. split_and!; [done|lia|]. intros _. split; [done|].
    assert (slice (file_bytes (files ino)) offset sz = []) as Hnil.
    { apply orb_true_iff in Eempty as [->%Z.eqb_eq|Ee%bool_decide_eq_true]; [done|]. rewrite Ee.
      unfold slice, file_bytes. cbn. by rewrite drop_nil, take_nil. }
    unfold read_ok. rewrite Hnil. cbn. split_and!; [done|done|by left]. }
  apply orb_false_iff in Eempty as [Esz%Z.eqb_neq _]. rewrite abind_get.
  set (fc := if uses_cache (files ino) offset then _ else _).
  assert (exists oc_ent c, fc = (oc_ent, c) /\ cache_inv c /\
    match oc_ent with Some p => exists e, heap_ c !! p = Some (ino, e) | None => True end) as (oc_ent & c & -> & Hc & Hent).
  { unfold fc. destruct (uses_cache (files ino) offset); [|by exists None, (offset_cache_ rd)].
    pose proof (offset_cache_find_ok ino (offset_cache_ rd) Hinv) as Hf.
    destruct (offset_cache_find ino (offset_cache_ rd)) as [p c]. destruct Hf as (F1 & _ & F2). by exists (Some p), c. }
  set (found := match oc_ent with Some p => entry_find offset p c | None => (0, 0, updater_create) end).
  assert (exists ix off u, found = (ix, off, u) /\ 0 <= ix <= zlen (files ino) /\ off = start (map size (files ino)) ix /\
    off <= offset /\ updater_ok interval (map size (files ino)) u ix /\
    match oc_ent with Some p => forall e, heap_ c !! p = Some (ino, e) -> first_index_ u <= zlen (offsets_ e) | None => True end)
    as (ix & off & u & -> & F1 & F2 & F3 & F4 & F5).
  { unfold found. destruct oc_ent as [p|].
    - destruct Hent as [e He]. pose proof (entry_find_ok ino p c e offset Hc He Hneg) as Hf.
      destruct (entry_find offset p c) as [[ix off] u]. destruct Hf as (G1 & G2 & G3 & G4 & G5). exists ix, off, u.
      split_and!; try done; try lia. intros e' He'. rewrite He in He'. by simplify_eq.
    - exists 0, 0, updater_create. destruct (nothing_found_ok ino offset Hneg) as (G1 & G2 & G3 & G4). split_and!; try done; lia. }
  destruct (read_plan_spec (files ino) (Hfiles ino) sz offset maxiov ix off u F1 F2 F3 F4 ltac:(lia)) as (rs & st & Ep & Hok & Hst).
  unfold abind at 1. cbn [put]. rewrite Ep. destruct st as [s|].
  - set (ra := if 0 <? readahead then _ else _). destruct ra as [ahead rc].
    eexists _, _. split; [done|]. split_and!; [|lia|by intros _].
    unfold reader_inv. cbn [offset_cache_]. destruct oc_ent as [p|]; [|done]. destruct Hent as [e He].
    destruct (entry_update_ok ino p c e s (first_index_ u) Hc He (Hst s eq_refl) (F5 e He)) as [U1 U2].
    destruct (U2 p ino e He) as (e' & He' & _). by apply (offset_cache_set_ok ino p _ e').
  - eexists _, _. split; [done|]. split_and!; [done|lia|]. intros _. by destruct (bool_decide (rs = [])).
Qed.

(** *** Concurrent reads *)

Record read_request : Type := ReadRequest { rq_inode : Z; rq_size : Z; rq_offset : Z; rq_maxiov : Z }.

#[local] Abbreviation rq_chunks := (fun rq => files (rq_inode rq)).

(** Where a thread that uses the offset cache is: between the critical
    sections of [read_internal]. *)
Inductive thread : Type :=
  | AfterFind (rq : read_request) (p : nat)
  | AfterScan (rq : read_request) (p : nat) (ranges : list range) (s : stop)
  | AfterUpdate (rq : read_request) (p : nat) (ranges : list range).

Record system : Type := System {
  sys_cache : offset_cache;
  threads : list thread;
  answers : list (read_request * list range)
}.

Inductive sys_step : system -> system -> Prop :=
  | step_find c ts ans rq p c' :
      0 <= rq_offset rq -> 0 < rq_size rq -> uses_cache (rq_chunks rq) (rq_offset rq) = true ->
      offset_cache_find (rq_inode rq) c = (p, c') ->
      sys_step (System c ts ans) (System c' (ts ++ [AfterFind rq p]) ans)
  | step_uncached c ts ans rq rs st :
      0 <= rq_offset rq -> 0 < rq_size rq -> uses_cache (rq_chunks rq) (rq_offset rq) = false ->
      read_plan hole_data_size (rq_chunks rq) (rq_size rq) (rq_offset rq) (rq_maxiov rq) (0, 0, updater_create) = Ok (rs, st) ->
      sys_step (System c ts ans) (System c ts ((rq, rs) :: ans))
  | step_scan c ts1 ts2 ans rq p rs s :
      read_plan hole_data_size (rq_chunks rq) (rq_size rq) (rq_offset rq) (rq_maxiov rq) (entry_find (rq_offset rq) p c) =
        Ok (rs, Some s) ->
      sys_step (System c (ts1 ++ AfterFind rq p :: ts2) ans) (System c (ts1 ++ AfterScan rq p rs s :: ts2) ans)
  | step_scan_end c ts1 ts2 ans rq p rs :
      read_plan hole_data_size (rq_chunks rq) (rq_size rq) (rq_offset rq) (rq_maxiov rq) (entry_find (rq_offset rq) p c) =
        Ok (rs, None) ->
      sys_step (System c (ts1 ++ AfterFind rq p :: ts2) ans) (System c (ts1 ++ ts2) ((rq, rs) :: ans))
  | step_update c ts1 ts2 ans rq p rs s :
      sys_step (System c (ts1 ++ AfterScan rq p rs s :: ts2) ans)
        (System (entry_update p s c) (ts1 ++ AfterUpdate rq p rs :: ts2) ans)
  | step_set c ts1 ts2 ans rq p rs :
      sys_step (System c (ts1 ++ AfterUpdate rq p rs :: ts2) ans)
        (System (offset_cache_set (rq_inode rq) p c) (ts1 ++ ts2) ((rq, rs) :: ans)).

Definition system_create : system := System (offset_cache_create offset_cache_size) [] [].

Definition answer_ok (a : read_request * list range) : Prop :=
  read_ok (rq_chunks a.1) (rq_size a.1) (rq_offset a.1) (rq_maxiov a.1) a.2.

Definition thread_ok (c : offset_cache) (t : thread) : Prop :=
  match t with
  | AfterFind rq p => 0 <= rq_offset rq /\ 0 < rq_size rq /\ exists e, heap_ c !! p = Some (rq_inode rq, e)
  | AfterScan rq p rs s =>
      answer_ok (rq, rs) /\ exists e first, heap_ c !! p = Some (rq_inode rq, e) /\
        stop_ok (rq_chunks rq) s first /\ first <= zlen (offsets_ e)
  | AfterUpdate rq p rs => answer_ok (rq, rs) /\ exists e, heap_ c !! p = Some (rq_inode rq, e)
  end.

Lemma thread_ok_le c c' t : cache_le c c' -> thread_ok c t -> thread_ok c' t.
Proof.
  intros Hle. destruct t as [rq p|rq p rs s|rq p rs]; cbn.
  - intros (H1 & H2 & e & He). destruct (Hle p _ e He) as (e' & He' & _). split_and!; try done. by exists e'.
  - intros (H1 & e & first & He & H2 & H3). destruct (Hle p _ e He) as (e' & He' & Hl). split; [done|].
    exists e', first. split_and!; try done. lia.
  - intros (H1 & e & He). destruct (Hle p _ e He) as (e' & He' & _). split; [done|]. by exists e'.
Qed.

Record system_inv (s : system) : Prop := {
  si_cache : cache_inv (sys_cache s);
  si_threads : Forall (thread_ok (sys_cache s)) (threads s);
  si_answers : Forall answer_ok (answers s)
}.

Lemma cache_create_inv n : cache_inv (offset_cache_create n).
Proof. split; cbn; [intros p ino e H; by rewrite lookup_nil in H|intros ino p H; by apply elem_of_nil in H]. Qed.

(** The scan of a thread, whatever the others did since it found its entry. *)
Lemma scan_ok c rq p : cache_inv c -> thread_ok c (AfterFind rq p) ->
  exists rs st, read_plan hole_data_size (rq_chunks rq) (rq_size rq) (rq_offset rq) (rq_maxiov rq)
      (entry_find (rq_offset rq) p c) = Ok (rs, st) /\
    answer_ok (rq, rs) /\ forall s, st = Some s -> thread_ok c (AfterScan rq p rs s).
Proof.
  intros Hc (H1 & H2 & e & He). pose proof (entry_find_ok (rq_inode rq) p c e (rq_offset rq) Hc He H1) as Hf.
  destruct (entry_find (rq_offset rq) p c) as [[ix off] u]. destruct Hf as (F1 & F2 & F3 & F4 & F5).
  destruct (read_plan_spec (rq_chunks rq) (Hfiles _) (rq_size rq) (rq_offset rq) (rq_maxiov rq) ix off u F1 F2 F3 F4 H2)
    as (rs & st & Ep & Hok & Hst). exists rs, st. split_and!; [done|done|]. intros s Hs. split; [done|].
  exists e, (first_index_ u). split_and!; [done|by apply Hst|done].
Qed.

Lemma sys_step_inv s s' : system_inv s -> sys_step s s' -> system_inv s'.
Proof.
  intros [Hc Ht Ha] Hstep. destruct Hstep as [c ts ans rq p c' H1 H2 H3 H4|c ts ans rq rs st H1 H2 H3 H4|c ts1 ts2 ans rq p rs s H
    |c ts1 ts2 ans rq p rs H|c ts1 ts2 ans rq p rs s|c ts1 ts2 ans rq p rs]; cbn [sys_cache threads answers] in *.
  - pose proof (offset_cache_find_ok (rq_inode rq) c Hc) as Hf. rewrite H4 in Hf. destruct Hf as (F1 & F2 & F3).
    split; cbn; [done| |done]. apply Forall_app. split; [|by constructor; [|constructor]].
    eapply Forall_impl; [exact Ht|]. intros t. by apply thread_ok_le.
  - destruct (nothing_found_ok (rq_inode rq) (rq_offset rq) H1) as (F1 & F2 & F3 & F4).
    destruct (read_plan_spec (rq_chunks rq) (Hfiles _) (rq_size rq) (rq_offset rq) (rq_maxiov rq) 0 0 updater_create F1 F2 F3 F4 H2)
      as (rs' & st' & Ep & Hok & _). rewrite H4 in Ep. simplify_eq. split; cbn; [done|done|by constructor].
  - apply Forall_app in Ht as [Ht1 Ht2]. apply Forall_cons in Ht2 as [Ht Ht2].
    destruct (scan_ok c rq p Hc Ht) as (rs' & st' & Ep & _ & Hs). rewrite H in Ep. simplify_eq.
    split; cbn; [done| |done]. apply Forall_app. split; [done|]. constructor; [by apply Hs|done].
  - apply Forall_app in Ht as [Ht1 Ht2]. apply Forall_cons in Ht2 as [Ht Ht2].
    destruct (scan_ok c rq p Hc Ht) as (rs' & st' & Ep & Hans & _). rewrite H in Ep. simplify_eq.
    split; cbn; [done|by apply Forall_app|by constructor].
  - apply Forall_app in Ht as [Ht1 Ht2]. apply Forall_cons in Ht2 as [(Hans & e & first & He & Hs & Hf) Ht2].
    destruct (entry_update_ok (rq_inode rq) p c e s first Hc He Hs Hf) as [U1 U2].
    split; cbn; [done| |done]. apply Forall_app. split; [eapply Forall_impl; [exact Ht1|]; intros t; by apply thread_ok_le|].
    constructor; [|eapply Forall_impl; [exact Ht2|]; intros t; by apply thread_ok_le].
    split; [done|]. destruct (U2 p _ e He) as (e' & He' & _). by exists e'.
  - apply Forall_app in Ht as [Ht1 Ht2]. apply Forall_cons in Ht2 as [(Hans & e & He) Ht2].
    split; cbn; [by apply (offset_cache_set_ok _ _ _ e)| |by constructor]. by apply Forall_app.
Qed.

(** C12: concurrent reads share the offset cache safely: however the critical
    sections of any number of reads interleave (entries found, shared, updated
    and evicted by others in between), every read that ends has the ranges of
    exactly the bytes asked for, in order (or as many as allowed), and no read
    is ever stuck or fails its check. *)
Theorem concurrent_reads_correct s : rtc sys_step system_create s ->
  Forall answer_ok (answers s) /\
  forall t, t ∈ threads s -> exists s', sys_step s s'.
Proof.
  intros Hreach. assert (system_inv s) as Hinv.
  { assert (system_inv system_create) as Hinit by (split; cbn; [apply cache_create_inv|constructor|constructor]).
    revert Hinit. induction Hreach as [s|s1 s2 s3 H12 _ IH]; [done|]. intros H1. apply IH. by apply (sys_step_inv s1). }
  destruct s as [c ts ans]. destruct Hinv as [Hc Ht Ha]. cbn in *. split; [done|]. intros t Hin.
  apply list_elem_of_split in Hin as (ts1 & ts2 & ->). apply Forall_app in Ht as [_ Ht]. apply Forall_cons in Ht as [Ht _].
  destruct t as [rq p|rq p rs st|rq p rs].
  - destruct (scan_ok c rq p Hc Ht) as (rs & [st|] & Ep & _ & _); eexists; [by eapply step_scan|by eapply step_scan_end].
  - eexists. apply step_update.
  - eexists. apply step_set.
Qed.

(** *** Sequences of reads *)

Inductive read_call : Type :=
  | ReadString (inode sz offset : Z)
  | ReadBuffer (buf : list Z) (inode sz offset : Z)
  | ReadVector (inode sz offset maxiov : Z).

(** The pieces returned (the buffer, for [read]), the size and the error. *)
Definition read_call_run (error_code : E -> errc) (readahead : Z) (call : read_call) :
    action reader_error reader (list (list Z) * Z * option errc) :=
  match call with
  | ReadString ino sz off =>
      let! '(bs, e) := read_string get hole_data_size readahead ino sz off (files ino) None in ret ([bs], zlen bs, e)
  | ReadBuffer buf ino sz off =>
      let! '(n, buf, e) := read get error_code hole_data_size readahead buf ino sz off (files ino) None in ret ([buf], n, e)
  | ReadVector ino sz off maxiov => readv get error_code hole_data_size readahead ino sz off maxiov (files ino) None
  end.

Fixpoint run_reads (error_code : E -> errc) (readahead : Z) (calls : list read_call) :
    action reader_error reader (list (list (list Z) * Z * option errc)) :=
  match calls with
  | [] => ret []
  | call :: calls =>
      let! a := read_call_run error_code readahead call in
      let! rest := run_reads error_code readahead calls in ret (a :: rest)
  end.

(** The answer a call must get. *)
Definition call_answer (call : read_call) (a : list (list Z) * Z * option errc) : Prop :=
  let '(pieces, n, e) := a in
  match call with
  | ReadString ino sz off =>
      if off <? 0 then e = Some invalid_argument
      else pieces = [slice (file_bytes (files ino)) off sz] /\ e = None
  | ReadBuffer buf ino sz off =>
      if off <? 0 then pieces = [buf] /\ e = Some invalid_argument
      else
        let bs := slice (file_bytes (files ino)) off sz in
        pieces = [bs ++ drop (length bs) buf] /\ n = zlen bs /\ e = None
  | ReadVector ino sz off maxiov =>
      if off <? 0 then e = Some invalid_argument
      else
        let bs := slice (file_bytes (files ino)) off sz in
        concat pieces `prefix_of` bs /\ (concat pieces = bs \/ maxiov <= zlen pieces) /\
        n = zlen (concat pieces) /\ e = None
  end.

Definition call_ok (call : read_call) : Prop :=
  match call with
  | ReadString _ sz _ | ReadBuffer _ _ sz _ => 0 <= sz < kReadAllIOV
  | ReadVector _ sz _ _ => 0 <= sz
  end.

Lemma read_all_ok cs sz offset rs : read_ok cs sz offset kReadAllIOV rs -> 0 <= sz < kReadAllIOV ->
  ranges_bytes rs = slice (file_bytes cs) offset sz.
Proof.
  intros (H1 & H2 & [H3|H3]) Hsz; [done|]. pose proof (ranges_count rs H1). apply prefix_length in H2.
  assert (zlen (slice (file_bytes cs) offset sz) <= sz).
  { unfold zlen, slice. rewrite length_take. lia. }
  unfold zlen in *. lia.
Qed.

Lemma fill_buffer_ok rs pre buf : Forall range_ok rs ->
  fill_buffer get rs (zlen pre) (pre ++ drop (length pre) buf) =
  (zlen (pre ++ ranges_bytes rs), (pre ++ ranges_bytes rs) ++ drop (length (pre ++ ranges_bytes rs)) buf, None).
Proof.
  intros H. revert pre. induction H as [|r rs Hr _ IH]; intros pre; cbn [fill_buffer].
  - unfold ranges_bytes. cbn. by rewrite app_nil_r.
  - rewrite fetch_ok by done. replace (zlen pre + zlen (range_bytes r)) with (zlen (pre ++ range_bytes r)) by (rewrite zlen_app; done).
    assert (store_at (pre ++ drop (length pre) buf) (zlen pre) (range_bytes r) =
      (pre ++ range_bytes r) ++ drop (length (pre ++ range_bytes r)) buf) as ->.
    { unfold store_at, zlen. rewrite Nat2Z.id, take_app_length, <- app_assoc. f_equal. f_equal.
      rewrite length_app, drop_app_ge, drop_drop by lia. f_equal. lia. }
    rewrite IH. change (ranges_bytes (r :: rs)) with (range_bytes r ++ ranges_bytes rs). by rewrite !app_assoc.
Qed.

Lemma foldl_zlen (bs : list (list Z)) n : foldl (fun n b => n + zlen b) n bs = n + zlen (concat bs).
Proof. revert n. induction bs as [|b bs IH]; intros n; cbn [foldl concat]; [change (n = n + 0); lia|]. rewrite IH, zlen_app. lia. Qed.

Lemma read_call_ok error_code readahead call rd : reader_inv rd -> call_ok call ->
  exists a rd', read_call_run error_code readahead call rd = (Ok a, rd') /\ reader_inv rd' /\ call_answer call a.
Proof.
  intros Hinv Hok. destruct call as [ino sz off|buf ino sz off|ino sz off maxiov]; cbn [call_ok read_call_run call_answer] in *.
  - destruct (read_internal_ok readahead ino sz off kReadAllIOV rd Hinv ltac:(lia)) as (rr & rd' & Er & Hr & Hneg & Hpos).
    unfold read_string, abind at 1 2. rewrite Er. destruct (Z.ltb_spec off 0) as [Hl|Hl].
    + rewrite (Hneg Hl). eexists _, _. split; [done|]. split; [done|]. cbn. by rewrite (proj2 (Z.ltb_lt off 0)) by lia.
    + destruct (Hpos Hl) as [-> Hread]. pose proof Hread as (Hrs & _). rewrite (fetch_all_ok _ Hrs). 
      eexists _, _. split; [done|]. split; [done|]. cbn. rewrite (proj2 (Z.ltb_ge off 0)) by lia.
      split; [|done]. f_equal. by apply read_all_ok.
  - destruct (read_internal_ok readahead ino sz off kReadAllIOV rd Hinv ltac:(lia)) as (rr & rd' & Er & Hr & Hneg & Hpos).
    unfold read, abind at 1 2. rewrite Er. destruct (Z.ltb_spec off 0) as [Hl|Hl].
    + rewrite (Hneg Hl). eexists _, _. split; [done|]. split; [done|]. cbn. by rewrite (proj2 (Z.ltb_lt off 0)) by lia.
    + destruct (Hpos Hl) as [-> Hread]. pose proof Hread as (Hrs & _).
      pose proof (fill_buffer_ok (rr_ranges rr) [] buf Hrs) as Hf. cbn [app length] in Hf. rewrite drop_0 in Hf.
      change (zlen []) with 0 in Hf. rewrite Hf, (read_all_ok _ _ _ _ Hread Hok).
      eexists _, _. split; [done|]. split; [done|]. cbn. by rewrite (proj2 (Z.ltb_ge off 0)) by lia.
  - destruct (read_internal_ok readahead ino sz off maxiov rd Hinv Hok) as (rr & rd' & Er & Hr & Hneg & Hpos).
    unfold readv, abind at 1. rewrite Er. destruct (Z.ltb_spec off 0) as [Hl|Hl].
    + rewrite (Hneg Hl). eexists _, _. split; [done|]. split; [done|]. cbn. by rewrite (proj2 (Z.ltb_lt off 0)) by lia.
    + destruct (Hpos Hl) as [-> (Hrs & Hp & He)]. rewrite (fetch_all_ok _ Hrs). 
      eexists _, _. split; [done|]. split; [done|]. cbn. rewrite (proj2 (Z.ltb_ge off 0)) by lia.
      split_and!; [done| |by rewrite foldl_zlen|done].
      destruct He as [He|He]; [by left|right]. unfold zlen in *. by rewrite length_map.
Qed.

Lemma run_reads_ok error_code readahead calls : Forall call_ok calls ->
  exists answers rd, run_reads error_code readahead calls reader_create = (Ok answers, rd) /\
    Forall2 call_answer calls answers.
Proof.
  intros Hok. assert (forall rd, reader_inv rd -> exists answers rd',
    run_reads error_code readahead calls rd = (Ok answers, rd') /\ Forall2 call_answer calls answers) as H.
  { induction Hok as [|call calls Hc _ IH]; intros rd Hinv; [by exists [], rd|].
    destruct (read_call_ok error_code readahead call rd Hinv Hc) as (a & rd1 & E1 & Hinv1 & Ha).
    destruct (IH rd1 Hinv1) as (answers & rd2 & E2 & Hans). exists (a :: answers), rd2. split; [|by constructor].
    cbn [run_reads]. unfold abind. by rewrite E1, E2. }
  apply H. apply cache_create_inv.
Qed.

(** C11: a file system read returns the file: from a fresh reader, any sequence
    of [read_string], [read] and [readv] calls on any files, with the offset
    cache and the readahead as they come, returns for every call exactly the
    bytes of the file from the offset, cut at the end of the file (a buffer
    keeps its other bytes; [readv] may stop early only when it has made the
    pieces allowed), and [EINVAL] for a negative offset. *)
Theorem reads_return_file_bytes error_code readahead calls : Forall call_ok calls ->
  exists answers rd, run_reads error_code readahead calls reader_create = (Ok answers, rd) /\
    Forall2 call_answer calls answers.
Proof. apply run_reads_ok. Qed.
End reading.

(** ** What readahead asks for *)

(** Readahead does not look whether a chunk is a hole: over a hole it asks the
    block cache for the start of block 0, as many bytes as the hole has. *)
Lemma readahead_requests_hole inode n rest read_offset sz it_offset readahead rc : 0 <= n < 2 ^ 63 ->
  read_offset = 0 -> 0 <= it_offset ->
  exists reqs rc', do_readahead readahead inode (hole_chunk n :: rest) read_offset sz it_offset rc =
    ((0, 0, n) :: reqs, rc').
Proof.
  intros Hn -> Hi. unfold do_readahead. cbn [Z.ltb Z.compare readahead_loop].
  destruct (hole_chunk_spec n Hn) as [_ ->]. rewrite (proj2 (Z.leb_le 0 (it_offset + n))) by lia.
  destruct (0 + sz + readahead <=? it_offset + n); cbn; by eexists _, _.
Qed.

(** ** Witnesses *)

Module ReaderExample.
Definition blocks (b : Z) : list Z := if b =? 0 then [1; 2; 3; 4; 5; 6] else [7; 8; 9].
Definition get (b o n : Z) : result unit (list Z) := Ok (slice (blocks b) o n).

#[global] Instance get_reads : ReadsBlocks get blocks.
Proof. split. done. Defined.

(** A file with a hole, and one with enough chunks for the offset cache. *)
Definition files (ino : Z) : list chunk :=
  if ino =? 0 then [Chunk 0 1 4; hole_chunk 5; Chunk 1 0 2] else replicate 300 (Chunk 1 1 2).

Lemma files_valid ino : Forall (chunk_valid blocks) (files ino).
Proof.
  unfold files. destruct (ino =? 0).
  - rewrite !Forall_cons. split_and!; [..|apply Forall_nil_2]; (split; [by vm_compute|]; intros H; vm_compute; by split).
  - apply Forall_replicate. split; [by vm_compute|]. intros _. vm_compute. by split.
Qed.

Definition calls : list read_call := [ReadString 0 8 2; ReadBuffer (replicate 6 0) 1 3 520; ReadVector 1 100 521 2; ReadString 0 1 (-1)].
End ReaderExample.

Lemma reads_return_file_bytes_witness :
  exists answers rd, run_reads ReaderExample.get 4 ReaderExample.files (fun _ => io_error) 16 ReaderExample.calls reader_create =
      (Ok answers, rd) /\
    Forall2 (call_answer ReaderExample.blocks ReaderExample.files) ReaderExample.calls answers.
Proof.
  apply (reads_return_file_bytes ReaderExample.get ReaderExample.blocks 4 ltac:(lia) ReaderExample.files
    ReaderExample.files_valid (fun _ => io_error) 16 ReaderExample.calls).
  repeat constructor; vm_compute; congruence.
Defined.

Lemma concurrent_reads_correct_witness :
  exists s, rtc (sys_step 4 ReaderExample.files) system_create s /\ length (answers s) = 2%nat /\
    Forall (answer_ok ReaderExample.blocks ReaderExample.files) (answers s) /\
    forall t, t ∈ threads s -> exists s', sys_step 4 ReaderExample.files s s'.
Proof.
  set (rq := ReadRequest 1 3 520 100). set (rq' := ReadRequest 1 4 521 100).
  assert (exists s, rtc (sys_step 4 ReaderExample.files) system_create s /\ length (answers s) = 2%nat) as (s & Hs & Hl).
  { eexists. split.
    - eapply rtc_l; [apply (step_find 4 ReaderExample.files _ _ _ rq); [by vm_compute|by vm_compute|reflexivity|reflexivity]|].
      eapply rtc_l; [apply (step_find 4 ReaderExample.files _ _ _ rq'); [by vm_compute|by vm_compute|reflexivity|reflexivity]|].
      eapply rtc_l; [eapply (step_scan 4 ReaderExample.files _ []); vm_compute; reflexivity|].
      eapply rtc_l; [eapply (step_scan 4 ReaderExample.files _ [_] []); vm_compute; reflexivity|].
      eapply rtc_l; [eapply (step_update 4 ReaderExample.files _ [_] [])|].
      eapply rtc_l; [eapply (step_set 4 ReaderExample.files _ [_] [])|].
      eapply rtc_l; [eapply (step_update 4 ReaderExample.files _ [] [])|].
      eapply rtc_l; [eapply (step_set 4 ReaderExample.files _ [] [])|].
      apply rtc_refl.
    - done. }
  exists s. split; [done|]. split; [done|].
  apply (concurrent_reads_correct ReaderExample.blocks 4 ltac:(lia) ReaderExample.files ReaderExample.files_valid s Hs).
Defined.
