(* ===== verification/EndToEnd.v ===== *)
(** * EndToEnd: what is written is what is read

    The path of file data through the system: the segmenter cuts files into
    blocks and chunks, the fragments collect the chunks
    ([src/writer/internal/fragment_chunkable.cpp]), the block manager says
    which written block holds a logical block, the metadata builder makes the
    chunk tables, and the reader decodes the tables and reads the blocks. *)

From S2P Require Import Prelude Bits CyclicHash BloomFilter Segmenter FileChunks OffsetCache InodeReader.
Local Open Scope Z_scope.

(** [fragment_chunkable::add_chunk] and [add_hole]. *)
Definition emission_of (c : chunk_ref) : emission :=
  match c with
  | DataChunk b o n => EmitData b o n
  | HoleChunk n => EmitHole n
  end.

(** What a fragment has after the calls. *)
Definition collect_chunks (f : fragment) (r : list chunk_ref) : fragment := foldl emit f (map emission_of r).

(** The fragment of a file that is one fragment. *)
Definition fragment_of (c : chunkable) (r : list chunk_ref) : fragment := collect_chunks (data_fragment (chk_size c)) r.

(** The logical blocks, by number. *)
Definition logical_data (blocks : list (Z * list Z)) (n : Z) : list Z := default [] (list_to_map (M := gmap Z (list Z)) blocks !! n).

(** The file system opened from the metadata: the chunks of an inode. *)
Definition opened (meta : metadata) (ino : Z) : list chunk :=
  default [] (r ← get_chunk_range_from_index meta ino; range_chunks meta r).

(** The blocks are where the block manager says. *)
Definition stored_at (bm : block_manager) (blocks : list (Z * list Z)) (stored : Z -> list Z) : Prop :=
  forall n d, (n, d) ∈ blocks -> 0 <= n < num_blocks_ bm /\ exists w, written_block bm n = Some w /\ stored w = d.

Section end_to_end.
Context (cfg : segmenter_config) (granularity : Z).
Context (blocks : list (Z * list Z)) (bm : block_manager) (stored : Z -> list Z).
Context (Hnum : 0 <= num_blocks_ bm < 2 ^ 32 - 1) (Hnd : NoDup blocks.*1) (Hst : stored_at bm blocks stored).
Context (Hsize : Forall (fun e => zlen e.2 < 2 ^ 32) blocks).

Lemma logical_data_in n d : (n, d) ∈ blocks -> logical_data blocks n = d.
Proof. intros H. unfold logical_data. by rewrite (proj1 (elem_of_list_to_map _ _ _ Hnd) H). Qed.

Lemma logical_data_some n : logical_data blocks n <> [] -> (n, logical_data blocks n) ∈ blocks.
Proof.
  unfold logical_data. destruct (list_to_map (M := gmap Z (list Z)) blocks !! n) as [d|] eqn:E; [|done].
  intros _. by apply elem_of_list_to_map_2.
Qed.

Lemma logical_data_size n : zlen (logical_data blocks n) < 2 ^ 32.
Proof.
  destruct (decide (logical_data blocks n = [])) as [->|Hne]; [done|].
  apply logical_data_some in Hne. rewrite Forall_forall in Hsize. apply (Hsize _ Hne).
Qed.

(** The chunks the segmenter made for a file. *)
Lemma emissions_ok r x : Forall (aligned cfg granularity) r -> chunks_hold blocks r x -> zlen x < 2 ^ 63 ->
  Forall (emission_ok (num_blocks_ bm) (logical_data blocks) (enable_sparse_files cfg)) (map emission_of r) /\
  concat (map (emission_bytes (logical_data blocks)) (map emission_of r)) = x /\
  emitted_size (map emission_of r) = zlen x.
Proof.
  intros Hal (xs & Hf & ->). revert Hal. induction Hf as [|c y r xs Hc _ IH]; intros Hal Hlen; [done|].
  apply Forall_cons in Hal as [Ha Hal]. cbn [concat] in *. rewrite zlen_app in *.
  pose proof (zlen_nonneg y) as Hy. pose proof (zlen_nonneg (concat xs)) as Hxs. destruct (IH Hal ltac:(lia)) as (I1 & I2 & I3).
  destruct c as [n off sz|n]; cbn [map emission_of emission_bytes emitted_size foldr emission_size concat chunk_holds aligned] in *.
  - destruct Hc as (d & Hin & H0 & H1 & H2 & ->). destruct Ha as (_ & _ & Hp). destruct (Hst n d Hin) as [Hn _].
    rewrite (logical_data_in n d Hin), slice_length in * by lia. split_and!.
    + constructor; [|done]. cbn. rewrite (logical_data_in n d Hin). split_and!; lia.
    + by rewrite I2.
    + unfold emitted_size in I3. lia.
  - destruct Hc as [H0 ->]. destruct Ha as [Hp Hsp].
    assert (zlen (replicate (Z.to_nat n) 0) = n) as Ez by (unfold zlen; rewrite length_replicate; lia).
    rewrite Ez in *. split_and!.
    + constructor; [split; [done|lia]|done].
    + by rewrite I2.
    + unfold emitted_size in I3. lia.
Qed.

(** A chunk, as written, has the same bytes. *)
Lemma written_chunk c : chunk_in (num_blocks_ bm) (logical_data blocks) (enable_sparse_files cfg) c ->
  chunk_valid stored (written bm c) /\ chunk_bytes stored (written bm c) = chunk_bytes (logical_data blocks) c.
Proof.
  intros [Hp [[_ Hh]|[Hd Hl]]].
  - destruct (hole_ok_spec c Hh) as (Hc & _ & _). assert (written bm c = c) as -> by (unfold written; by rewrite Hc).
    unfold chunk_bytes. rewrite Hc. split; [split; [done|by rewrite Hc]|done].
  - destruct (data_ok_spec _ _ Hd) as [Hc Es]. pose proof Hd as (H1 & H2 & H3).
    assert (logical_data blocks (block_ c) <> []) as Hne.
    { intros E. rewrite E in Hl. change (zlen []) with 0 in Hl. lia. }
    destruct (Hst _ _ (logical_data_some _ Hne)) as (_ & w & Ew & Es').
    assert (written bm c = Chunk w (offset_ c) (bits_ c)) as -> by (unfold written; by rewrite Hc, Ew).
    destruct (data_bits_spec w (offset_ c) (bits_ c) ltac:(lia)) as [E1 E2].
    unfold chunk_valid, chunk_bytes. rewrite E1, E2, Hc, Es. cbn [block_ offset_]. rewrite Es'.
    split; [split; [lia|]|done]. intros _. lia.
Qed.

Lemma written_chunks cs : Forall (chunk_in (num_blocks_ bm) (logical_data blocks) (enable_sparse_files cfg)) cs ->
  Forall (chunk_valid stored) (map (written bm) cs) /\
  file_bytes stored (map (written bm) cs) = concat (map (chunk_bytes (logical_data blocks)) cs).
Proof.
  induction 1 as [|c cs Hc _ [IH1 IH2]]; [done|]. destruct (written_chunk c Hc) as [H1 H2]. split; [by constructor|].
  cbn [map concat]. rewrite file_bytes_cons, H2, IH2. done.
Qed.

(** A fragment with the chunks of its bytes. *)
Lemma collect_chunks_ok f r x : Forall (aligned cfg granularity) r -> chunks_hold blocks r x -> chunks_ f = [] -> frag_size f = zlen x -> zlen x < 2 ^ 63 ->
  Forall (chunk_in (num_blocks_ bm) (logical_data blocks) (enable_sparse_files cfg)) (chunks_ (collect_chunks f r)) /\
  concat (map (chunk_bytes (logical_data blocks)) (chunks_ (collect_chunks f r))) = x /\
  chunks_are_consistent (collect_chunks f r) = true.
Proof.
  intros Ha Hr H0 Hs Hl. destruct (emissions_ok r x Ha Hr Hl) as (E1 & E2 & E3).
  destruct (collects_spec (num_blocks_ bm) ltac:(lia) (logical_data blocks) logical_data_size (enable_sparse_files cfg) f (map emission_of r) E1 H0) as (F1 & _ & F2 & F3).
  fold (collect_chunks f r) in F1, F2, F3. rewrite E2 in F2. split_and!; [done|done|]. rewrite F3. apply bool_decide_eq_true. lia.
Qed.

(** The fragment of a file. *)
Lemma fragment_of_ok c r : Forall (aligned cfg granularity) r -> chunks_hold blocks r (content c) ->
  chk_size c = zlen (content c) -> zlen (content c) < 2 ^ 63 ->
  Forall (chunk_in (num_blocks_ bm) (logical_data blocks) (enable_sparse_files cfg)) (chunks_ (fragment_of c r)) /\
  concat (map (chunk_bytes (logical_data blocks)) (chunks_ (fragment_of c r))) = content c /\
  inode_chunks [fragment_of c r] = chunks_ (fragment_of c r).
Proof.
  intros Ha Hr Hs Hl. pose proof (zlen_nonneg (content c)). unfold fragment_of.
  destruct (collect_chunks_ok (data_fragment (chk_size c)) r (content c) Ha Hr eq_refl) as (F1 & F2 & F3); [rewrite frag_size_data by lia; done|done|].
  split_and!; [done|done|]. unfold inode_chunks. cbn [forallb map concat]. rewrite F3. cbn [andb]. by rewrite app_nil_r.
Qed.
End end_to_end.

(** The inodes of the files, one fragment each. *)
Definition inodes_of (files : list chunkable) (rs : list (list chunk_ref)) : list (list fragment) :=
  zip_with (fun c r => [fragment_of c r]) files rs.

Lemma inodes_ok cfg granularity blocks bm stored files rs :
  0 <= num_blocks_ bm < 2 ^ 32 - 1 -> NoDup blocks.*1 -> stored_at bm blocks stored ->
  Forall (fun e => zlen e.2 < 2 ^ 32) blocks ->
  Forall2 (fun c r => chunks_hold blocks r (content c)) files rs -> Forall (Forall (aligned cfg granularity)) rs ->
  Forall (fun c => chk_size c = zlen (content c) /\ zlen (content c) < 2 ^ 63) files ->
  Forall2 (fun c fs => exists f, fs = [f] /\
      Forall (chunk_in (num_blocks_ bm) (logical_data blocks) (enable_sparse_files cfg)) (chunks_ f) /\
      concat (map (chunk_bytes (logical_data blocks)) (chunks_ f)) = content c /\
      inode_chunks [f] = chunks_ f) files (inodes_of files rs).
Proof.
  intros Hnum Hnd Hst Hsz Hf. induction Hf as [|c r files rs Hc _ IH]; intros Ha Hs; [constructor|].
  apply Forall_cons in Ha as [Ha1 Ha]. apply Forall_cons in Hs as [[Hs1 Hs2] Hs].
  cbn [inodes_of zip_with]. constructor; [|by apply IH]. exists (fragment_of c r). split; [done|].
  by apply (fragment_of_ok cfg granularity blocks bm stored).
Qed.

(** C3: what is written is what is read.  For every configuration and sequence
    of files of data and holes: the segmenter deduplicates them into blocks and
    chunks, and, wherever the blocks end up in the file system, the metadata
    built from the chunks, opened by the reader, describes each file's content,
    and any sequence of reads returns exactly the bytes of the files. *)
Theorem written_files_read_back cfg granularity logical_block files :
  cfg_ok cfg granularity -> Inj (=) (=) logical_block -> Forall (chunkable_ok granularity) files ->
  Forall (fun c => zlen (content c) < 2 ^ 63) files -> zlen files < 2 ^ 31 - 1 ->
  exists s rs s', segmenter_create cfg granularity = Ok s /\
    segment_files cfg granularity logical_block files s = (Ok rs, s') /\
    forall bm stored k, 0 <= num_blocks_ bm < 2 ^ 32 - 1 -> blocks_written bm -> stored_at bm (ready s') stored ->
      zlen (concat (map inode_chunks (inodes_of files rs))) < 2 ^ 32 -> 0 <= k < 32 ->
      exists meta, gather_chunks (enable_sparse_files cfg) (2 ^ k) bm (inodes_of files rs) = Ok meta /\
        (forall i c, files !! i = Some c -> file_bytes stored (opened meta (Z.of_nat i)) = content c) /\
        forall (get : Z -> Z -> Z -> result unit (list Z)) hole_data_size error_code readahead calls,
          ReadsBlocks get stored -> 0 < hole_data_size -> Forall call_ok calls ->
          exists answers rd,
            run_reads get hole_data_size (opened meta) error_code readahead calls reader_create = (Ok answers, rd) /\
            Forall2 (call_answer stored (opened meta)) calls answers.
Proof.
  intros Hcfg Hinj Hfiles Hlen Hcount.
  destruct (segment_files_spec cfg granularity logical_block Hcfg Hinj files Hfiles) as (s & rs & s' & E & Er & Hrs & Ha & Hnd & Hsto).
  exists s, rs, s'. split; [done|]. split; [done|]. intros bm stored k Hnum Hbm Hst Htotal Hk.
  assert (Forall (fun e => zlen e.2 < 2 ^ 32) (ready s')) as Hsz.
  { eapply Forall_impl; [exact Hsto|]. intros e He. pose proof (stored_ok_size cfg granularity e Hcfg He). lia. }
  assert (Forall (fun c => chk_size c = zlen (content c) /\ zlen (content c) < 2 ^ 63) files) as Hs.
  { apply Forall_and. split; [|done]. eapply Forall_impl; [exact Hfiles|]. by intros c [? _]. }
  pose proof (inodes_ok cfg granularity (ready s') bm stored files rs Hnum Hnd Hst Hsz Hrs Ha Hs) as Hino.
  pose proof (Forall2_length _ _ _ Hino) as Hl.
  destruct (gather_chunks_spec (enable_sparse_files cfg) k bm (inodes_of files rs) Hk Hnum Hbm) as (meta & Em & Hmeta & Hnone);
    [|done|unfold zlen in *; lia|].
  { clear -Hino. induction Hino as [|c fs files' inodes (f & -> & Hf & _) _ IH]; [constructor|]. constructor; [|done].
    cbn. rewrite app_nil_r. eapply Forall_impl; [exact Hf|]. by intros c' [_ [[? ?]|[? _]]]; [left|right]. }
  assert (forall i c, files !! i = Some c -> Forall (chunk_valid stored) (opened meta (Z.of_nat i)) /\
    file_bytes stored (opened meta (Z.of_nat i)) = content c) as Hopen.
  { intros i c Hi. destruct (Forall2_lookup_l _ _ _ _ _ Hino Hi) as (fs & Hfs & f & -> & Hf & Hbytes & Hic).
    destruct (Hmeta i _ Hfs) as (r & Hr & Hrange & _). unfold opened. rewrite Hr. cbn [mbind option_bind]. rewrite Hrange, Hic.
    destruct (written_chunks cfg (ready s') bm stored Hst (chunks_ f) Hf) as [W1 W2].
    cbn [from_option id]. by rewrite W2. }
  exists meta. split; [done|]. split; [intros i c Hi; by apply Hopen|].
  intros get hole_data_size error_code readahead calls Hget Hhole Hcalls.
  apply (run_reads_ok get stored hole_data_size Hhole (opened meta)); [|done]. intros ino.
  destruct (decide (0 <= ino < zlen (inodes_of files rs))) as [Hin|Hout].
  - destruct (lookup_lt_is_Some_2 files (Z.to_nat ino)) as [c Hc]; [unfold zlen in *; lia|].
    destruct (Hopen _ c Hc) as [Hv _]. by rewrite Z2Nat.id in Hv by lia.
  - unfold opened. by rewrite Hnone.
Qed.

(** ** Witness: two files that share data, blocks written in the other order *)

(** The whole segmenter, keeping what it made: the chunks and the blocks. *)
Definition run_segmenter (cfg : segmenter_config) (granularity : Z) (logical_block : nat -> Z) (files : list chunkable) :
  option (list (list chunk_ref) * list (Z * list Z)) :=
  match segmenter_create cfg granularity with
  | Ok s => match segment_files cfg granularity logical_block files s with
            | (Ok rs, s') => Some (rs, ready s')
            | _ => None
            end
  | Err _ => None
  end.

Lemma run_segmenter_eq cfg granularity logical_block files s rs s' :
  segmenter_create cfg granularity = Ok s -> segment_files cfg granularity logical_block files s = (Ok rs, s') ->
  run_segmenter cfg granularity logical_block files = Some (rs, ready s').
Proof. intros E Er. unfold run_segmenter. by rewrite E, Er. Qed.

Module WriteReadExample.
Definition chunk_refs : list (list chunk_ref) :=
  [[DataChunk 0 0 16; DataChunk 1 0 2];
   [DataChunk 1 2 1; DataChunk 0 0 12; DataChunk 1 3 2; HoleChunk 5]].
Definition logical : list (Z * list Z) :=
  [(0, [1; 2; 3; 4; 5; 6; 7; 8; 9; 10; 11; 12; 13; 14; 15; 16]); (1, [17; 18; 99; 77; 76])].
Definition manager : block_manager := BlockManager 2 [Some 1; Some 0].
Definition stored (w : Z) : list Z := logical_data logical (1 - w).
Definition get (b o n : Z) : result unit (list Z) := Ok (slice (stored b) o n).

#[global] Instance get_reads : ReadsBlocks get stored.
Proof. split. done. Defined.

Lemma manager_written : blocks_written manager.
Proof.
  intros b Hb. change (num_blocks_ manager) with 2 in *. assert (b = 0 \/ b = 1) as [-> | ->] by lia.
  - exists 1. split; [done|lia].
  - exists 0. split; [done|lia].
Qed.

Lemma manager_stored : stored_at manager logical stored.
Proof.
  intros n d Hin. change (num_blocks_ manager) with 2. unfold logical in Hin. rewrite !elem_of_cons, elem_of_nil in Hin.
  destruct Hin as [[= -> ->]|[[= -> ->]|[]]]; (split; [lia|]); [exists 1|exists 0]; done.
Qed.

Lemma made : run_segmenter witness_config 1 Z.of_nat witness_files = Some (chunk_refs, logical).
Proof. vm_compute. reflexivity. Qed.
End WriteReadExample.

Lemma written_files_read_back_witness :
  exists meta answers rd,
    gather_chunks true (2 ^ 4) WriteReadExample.manager (inodes_of witness_files WriteReadExample.chunk_refs) = Ok meta /\
    run_reads WriteReadExample.get 8 (opened meta) (fun _ => io_error) 0 [ReadString 0 10 12; ReadString 1 100 0] reader_create =
      (Ok answers, rd) /\
    Forall2 (call_answer WriteReadExample.stored (opened meta)) [ReadString 0 10 12; ReadString 1 100 0] answers.
Proof.
  destruct (written_files_read_back witness_config 1 Z.of_nat witness_files witness_config_ok Nat2Z.inj witness_files_ok)
    as (s & rs & s' & E & Er & H); [repeat constructor; by vm_compute|by vm_compute|].
  pose proof (run_segmenter_eq _ _ _ _ _ _ _ E Er) as Em. rewrite WriteReadExample.made in Em.
  injection Em as <- Eready.
  destruct (H WriteReadExample.manager WriteReadExample.stored 4) as (meta & Em & _ & Hread);
    [cbn; lia|apply WriteReadExample.manager_written|rewrite <- Eready; apply WriteReadExample.manager_stored|by vm_compute|lia|].
  destruct (Hread WriteReadExample.get 8 (fun _ => io_error) 0 [ReadString 0 10 12; ReadString 1 100 0] _)
    as (answers & rd & Ea & Ha); [lia|repeat constructor; vm_compute; congruence|].
  by exists meta, answers, rd.
Defined.
