(* ===== verification/Blockify.v ===== *)
(** * Blockify: the fragments of the inodes are cut into blocks

    [scanner_::scan] of [src/writer/scanner.cpp], from "building blocks..." to the
    end of its jobs, with [src/writer/internal/fragment_chunkable.cpp]: for each
    category, a segmenter is given the fragments of the inodes that have it, in
    the order of [ordered_span], and each fragment collects its chunks.

    The jobs of the categories run in parallel; a job touches the fragments of its
    category only, and the numbers of logical blocks it gets are its own.  They
    run here one after the other, in any order; the numbers each of them gets are
    arguments.  Opening a file gives the same while blocks are built. *)

From S2P Require Import Prelude Metadata MetadataReader FileChunks Segmenter FileRange FileView Categorizer InodeManager InodeOrdering OffsetCache InodeReader EndToEnd.
Local Open Scope Z_scope.

#[local] Abbreviation checked := (result metadata_error).

Inductive blockify_error : Type :=
  | SegmenterFailed (e : segmenter_error)
  | ManagerFailed (e : metadata_error).

#[local] Abbreviation blockify := (action blockify_error segmenter).

Definition segmenting {A} (m : action segmenter_error segmenter A) : blockify A :=
  fun s => match m s with (Ok a, s) => (Ok a, s) | (Err e, s) => (Err (SegmenterFailed e), s) end.

Definition managing {A} (r : checked A) : blockify A :=
  fun s => (match r with Ok a => Ok a | Err e => Err (ManagerFailed e) end, s).

(** [fragment_chunkable]: a fragment of a file that was mapped. *)
Definition fragment_chunkable (v : file_view) (f : fragment) (offset : Z) : chunkable :=
  Chunkable (frag_size f) (view_extents v (Some (FileRange offset (frag_size f)))).

(** What the order of a span is required to do: it hands out the inodes with a
    fragment of the category, each once. *)
Class SpanOrder (order : manager -> fragment_category -> checked (list nat)) : Prop := {
  orders m c : Forall complete (inodes_ m) -> exists span, order m c = Ok span /\ NoDup span /\
    forall k, k ∈ span <-> (k < length (inodes_ m))%nat /\ in_category (inodes_ m) c k = true
}.

(** [ordered_span] does, but in the explicit mode, and in the nilsimsa mode if the
    order that [similarity_ordering] makes does. *)
Lemma ordered_span_order f_data f_size f_path f_revpath f_order_index f_explicit similarity_hash has_nilsimsa_hash similarity_ordering max_similarity_scan_size list_mode
    (mode : fragment_category -> order_mode) : (forall c, mode c <> order_explicit) -> (forall l, similarity_ordering l ≡ₚ l) ->
  SpanOrder (fun m c => ordered_span f_data f_size f_path f_revpath f_order_index f_explicit (similarity_hash c) (has_nilsimsa_hash c) similarity_ordering
    max_similarity_scan_size list_mode (inodes_ m) (invalid_ m) (mode c) c).
Proof.
  intros Hm Hs. constructor. intros m c Hc. destruct (ordered_span_spec f_data f_size f_path f_revpath f_order_index f_explicit (similarity_hash c) (has_nilsimsa_hash c)
    similarity_ordering max_similarity_scan_size list_mode (inodes_ m) (invalid_ m) Hc (mode c) c (Hm c) (fun _ => Hs)) as (span & E & Hp & _).
  exists span. split; [done|]. split; [rewrite Hp; apply NoDup_selected|]. intros k. rewrite Hp. apply elem_of_selected.
Qed.

Section scanner.
Context (f_data : nat -> nat) (f_size : nat -> Z) (open_file : nat -> option file_view).
Context (order : manager -> fragment_category -> checked (list nat)).
Context (cfg : fragment_category -> segmenter_config) (granularity : fragment_category -> Z) (logical_block : fragment_category -> nat -> Z).

Section category.
Context (category : fragment_category).

(** The loop over the fragments. *)
Fixpoint add_fragments (v : file_view) (fs : list inode_fragment) (offset : Z) : action segmenter_error segmenter (list inode_fragment) :=
  match fs with
  | [] => ret []
  | (c, f) :: fs =>
      let! f' := (if bool_decide (c = category) then
                    let! r := add_chunkable (cfg category) (granularity category) (logical_block category) (fragment_chunkable v f offset) in
                    ret (collect_chunks f r)
                  else ret f) in
      let! fs := add_fragments v fs (offset + frag_size f) in
      ret ((c, f') :: fs)
  end.

(** The body of the loop over the span. *)
Definition add_inode (k : nat) (m : manager) : blockify manager :=
  let! i := managing (there (inodes_ m !! k)) in
  let! p := managing (any f_data (invalid_ m) i) in
  if (0 <? f_size p) && negb (bool_decide (f_data p ∈ invalid_ m)) then
    match mmap_any f_data f_size open_file (invalid_ m) i with
    | (Some (v, _), _, invalid) =>
        let! fs := segmenting (add_fragments v (ino_fragments_ i) 0) in
        ret (Manager (<[k := with_fragments fs i]> (inodes_ m)) invalid (num_invalid_inodes_ m))
    | (None, _, invalid) => ret (Manager (inodes_ m) invalid (num_invalid_inodes_ m))
    end
  else ret m.

Fixpoint add_span (span : list nat) (m : manager) : blockify manager :=
  match span with
  | [] => ret m
  | k :: span => let! m := add_inode k m in add_span span m
  end.

(** The job of the category: the inodes with their chunks, and the blocks that are
    ready. *)
Definition segment_category (m : manager) : result blockify_error (manager * list (Z * list Z)) :=
  match order m category with
  | Err e => Err (ManagerFailed e)
  | Ok span =>
      match segmenter_create (cfg category) (granularity category) with
      | Err e => Err (SegmenterFailed e)
      | Ok s =>
          match (let! m := add_span span m in segmenting (finish (cfg category) (granularity category)) ;; ret m) s with
          | (Ok m, s) => Ok (m, ready s)
          | (Err e, _) => Err e
          end
      end
  end.
End category.

Fixpoint build_blocks (categories : list fragment_category) (m : manager) : result blockify_error (manager * list (Z * list Z)) :=
  match categories with
  | [] => Ok (m, [])
  | c :: categories =>
      let? '(m, blocks) := segment_category c m in
      let? '(m, rest) := build_blocks categories m in
      Ok (m, blocks ++ rest)
  end.

(** ** Mapping files *)

(** Mapping the files of an inode again finds the same file. *)
Lemma mmap_files_again files invalid : let '(r, _, invalid') := mmap_files f_data f_size open_file files invalid in
  (forall d, d ∈ invalid -> d ∈ invalid') /\ (forall d, d ∈ invalid' -> d ∈ invalid \/ exists p, p ∈ files /\ d = f_data p) /\
  mmap_files f_data f_size open_file files invalid' = (r, [], invalid').
Proof.
  revert invalid. induction files as [|p files IH]; intros invalid; [set_solver|]. cbn [mmap_files]. case_bool_decide as Hp.
  - specialize (IH invalid). destruct (mmap_files _ _ _ files invalid) as [[r errors] invalid']. destruct IH as (H1 & H2 & H3).
    split; [done|]. split; [set_solver|]. by rewrite bool_decide_true by by apply H1.
  - assert (let '(r, _, invalid') := mmap_files f_data f_size open_file files ({[f_data p]} ∪ invalid) in
      (forall d, d ∈ invalid -> d ∈ invalid') /\ (forall d, d ∈ invalid' -> d ∈ invalid \/ exists p', p' ∈ p :: files /\ d = f_data p') /\ f_data p ∈ invalid' /\
      mmap_files f_data f_size open_file files invalid' = (r, [], invalid')) as Hfail.
    { specialize (IH ({[f_data p]} ∪ invalid)). destruct (mmap_files _ _ _ files _) as [[r errors] invalid']. destruct IH as (H1 & H2 & H3). set_solver. }
    destruct (open_file p) as [v|] eqn:Eo; [destruct (fv_size v =? f_size p) eqn:Es|].
    + split; [done|]. split; [set_solver|]. by rewrite bool_decide_false by done.
    + destruct (mmap_files _ _ _ files ({[f_data p]} ∪ invalid)) as [[r errors] invalid']. destruct Hfail as (H1 & H2 & H3 & H4). split; [done|]. split; [done|].
      by rewrite bool_decide_true by done.
    + destruct (mmap_files _ _ _ files ({[f_data p]} ∪ invalid)) as [[r errors] invalid']. destruct Hfail as (H1 & H2 & H3 & H4). split; [done|]. split; [done|].
      by rewrite bool_decide_true by done.
Qed.

Lemma mmap_files_agree files inv1 inv2 : (forall p, p ∈ files -> f_data p ∈ inv1 <-> f_data p ∈ inv2) ->
  (mmap_files f_data f_size open_file files inv1).1.1 = (mmap_files f_data f_size open_file files inv2).1.1.
Proof.
  revert inv1 inv2. induction files as [|p files IH]; intros inv1 inv2 H; [done|]. cbn [mmap_files].
  assert (forall inv1 inv2 : gset nat, (forall p', p' ∈ files -> f_data p' ∈ inv1 <-> f_data p' ∈ inv2) ->
    (let '(r, errors, invalid) := mmap_files f_data f_size open_file files inv1 in (r, p :: errors, invalid)).1.1 =
    (let '(r, errors, invalid) := mmap_files f_data f_size open_file files inv2 in (r, p :: errors, invalid)).1.1) as Hrest.
  { intros i1 i2 Hi. specialize (IH i1 i2 Hi). by destruct (mmap_files _ _ _ files i1) as [[? ?] ?], (mmap_files _ _ _ files i2) as [[? ?] ?]. }
  pose proof (H p ltac:(by left)) as Hp. rewrite (bool_decide_ext _ _ Hp). case_bool_decide; [apply IH; intros p' Hp'; apply H; by right|].
  destruct (open_file p) as [v|]; [destruct (fv_size v =? f_size p); [done|]|]; apply Hrest; intros p' Hp'; pose proof (H p' ltac:(by right)); set_solver.
Qed.

(** Who is mapped is a file of the inode, with its size. *)
Lemma mmap_files_found files invalid v p errors invalid' : mmap_files f_data f_size open_file files invalid = (Some (v, p), errors, invalid') ->
  p ∈ files /\ (f_data p ∉ invalid) /\ open_file p = Some v /\ fv_size v = f_size p.
Proof.
  revert invalid errors invalid'. induction files as [|q files IH]; intros invalid errors invalid' E; [done|]. cbn [mmap_files] in E. case_bool_decide as Hq.
  - destruct (IH _ _ _ E) as (H1 & H2). split; [by right|done].
  - assert (forall e i, (let '(r, errors, invalid) := mmap_files f_data f_size open_file files ({[f_data q]} ∪ invalid) in (r, q :: errors, invalid)) = (Some (v, p), e, i) ->
      p ∈ q :: files /\ (f_data p ∉ invalid) /\ open_file p = Some v /\ fv_size v = f_size p) as Hrest.
    { intros e i. destruct (mmap_files _ _ _ files _) as [[r er] inv] eqn:Er. intros [= -> <- <-]. destruct (IH _ _ _ Er) as (H1 & H2 & H3 & H4). split; [by right|]. set_solver. }
    destruct (open_file q) as [w|] eqn:Eo; [destruct (Z.eqb_spec (fv_size w) (f_size q)) as [Es|]|]; [|by eapply Hrest..].
    injection E as -> -> <- <-. split; [by left|done].
Qed.

(** ** Cutting fragments *)

(** A fragment of the category [c] that has the chunks of its bytes [x]. *)
Definition fragment_cut (st : list (Z * list Z)) (c : fragment_category) (x : list Z) (f0 f : fragment) : Prop :=
  exists r, f = collect_chunks f0 r /\ chunks_hold st r x /\ Forall (aligned (cfg c) (granularity c)) r.

(** The fragments of the categories that are done have their chunks. *)
Fixpoint fragments_cut (done : fragment_category -> bool) (st : list (Z * list Z)) (v : file_view) (offset : Z) (fs0 fs : list inode_fragment) : Prop :=
  match fs0, fs with
  | [], [] => True
  | (c0, f0) :: fs0, (c, f) :: fs =>
      c = c0 /\ (if done c then fragment_cut st c (read_range (shown v) (FileRange offset (frag_size f0))) f0 f else f = f0) /\
      fragments_cut done st v (offset + frag_size f0) fs0 fs
  | _, _ => False
  end.

(** The fragments, from [offset] on, are those of the view; where their category
    has a granularity, no frame is cut by a hole. *)
Fixpoint fragments_fit (v : file_view) (offset : Z) (fs : list inode_fragment) : Prop :=
  match fs with
  | [] => offset = fv_size v
  | (c, f) :: fs =>
      chunks_ f = [] /\ Forall (fun x => zlen (raw_bytes x) mod granularity c = 0) (view_extents v (Some (FileRange offset (frag_size f)))) /\
      fragments_fit v (offset + frag_size f) fs
  end.

Lemma frag_size_nonneg f : 0 <= frag_size f.
Proof. apply Z.land_nonneg. by right. Qed.

Lemma fragments_fit_le v offset fs : fragments_fit v offset fs -> offset <= fv_size v.
Proof.
  revert offset. induction fs as [|[c f] fs IH]; intros offset H; [cbn in H; lia|]. destruct H as (_ & _ & H). specialize (IH _ H). pose proof (frag_size_nonneg f). lia.
Qed.

Lemma collect_chunks_bits f r : frag_bits_ (collect_chunks f r) = frag_bits_ f.
Proof.
  unfold collect_chunks. generalize (map emission_of r) as es. intros es. revert f. induction es as [|e es IH]; intros f; [done|]. cbn [foldl]. rewrite IH.
  destruct e as [b o n|n]; [|done]. unfold emit, FileChunks.add_chunk. destruct (last (chunks_ f)); [|done]. by destruct (_ && _).
Qed.

Lemma fragment_cut_size st c x f0 f : fragment_cut st c x f0 f -> frag_size f = frag_size f0.
Proof. intros (r & -> & _). unfold frag_size. by rewrite collect_chunks_bits. Qed.

Lemma fragments_cut_extends done st st' v offset fs0 fs : extends st st' -> fragments_cut done st v offset fs0 fs -> fragments_cut done st' v offset fs0 fs.
Proof.
  intros He. revert offset fs. induction fs0 as [|[c0 f0] fs0 IH]; intros offset [|[c f] fs] H; try done. destruct H as (-> & H1 & H2). split; [done|]. split; [|by apply IH].
  destruct (done c0); [|done]. destruct H1 as (r & E & Hr & Ha). exists r. split; [done|]. split; [by eapply chunks_hold_extends|done].
Qed.

Lemma fragments_cut_categories done st v offset fs0 fs : fragments_cut done st v offset fs0 fs -> fs.*1 = fs0.*1.
Proof.
  revert offset fs. induction fs0 as [|[c0 f0] fs0 IH]; intros offset [|[c f] fs] H; try done. destruct H as (-> & _ & H). cbn. by rewrite (IH _ _ H).
Qed.

Lemma fragments_cut_none v st offset fs : fragments_cut (fun _ => false) st v offset fs fs.
Proof. revert offset. induction fs as [|[c f] fs IH]; intros offset; [done|]. split; [done|]. split; [done|apply IH]. Qed.

(** Another category is done, which the fragments do not have. *)
Lemma fragments_cut_other done category st v offset fs0 fs : category ∉ fs0.*1 ->
  fragments_cut done st v offset fs0 fs -> fragments_cut (fun c => done c || bool_decide (c = category)) st v offset fs0 fs.
Proof.
  revert offset fs. induction fs0 as [|[c0 f0] fs0 IH]; intros offset [|[c f] fs] Hn H; try done. destruct H as (-> & H1 & H2). cbn in Hn. apply not_elem_of_cons in Hn as [Hc Hn].
  split; [done|]. split; [|by apply IH]. rewrite bool_decide_false by done. by rewrite orb_false_r.
Qed.

Section category_lemmas.
Context (Hcfg : forall c, cfg_ok (cfg c) (granularity c)) (Hinj : forall c, Inj (=) (=) (logical_block c)).
Context (category : fragment_category) (finished : list (Z * list Z)).

#[local] Abbreviation blocks_of := (store (cfg category) (granularity category)).
#[local] Abbreviation inv := (seg_inv (cfg category) (granularity category) (logical_block category)).

Lemma extends_finished st st' : extends st st' -> extends (finished ++ st) (finished ++ st').
Proof.
  intros H n d Hin. apply elem_of_app in Hin as [Hin|Hin].
  - exists []. rewrite app_nil_r. apply elem_of_app. by left.
  - destruct (H n d Hin) as [d' Hd]. exists d'. apply elem_of_app. by right.
Qed.

Lemma chunkable_of_fragment v f offset : view_ok v -> 0 <= offset -> offset + frag_size f <= fv_size v ->
  Forall (fun x => zlen (raw_bytes x) mod granularity category = 0) (view_extents v (Some (FileRange offset (frag_size f)))) ->
  chunkable_ok (granularity category) (fragment_chunkable v f offset) /\ content (fragment_chunkable v f offset) = read_range (shown v) (FileRange offset (frag_size f)).
Proof.
  intros Hv Ho He Hg. pose proof (frag_size_nonneg f) as Hs. destruct (view_extents_shown v (Some (FileRange offset (frag_size f))) Hv) as [H1 H2]; [done|done|done|].
  unfold fragment_chunkable, content, chunkable_ok. cbn [chk_size extents]. unfold content. cbn [extents]. rewrite H1. cbn [from_option id]. split; [|done]. split.
  - unfold read_range. cbn. rewrite slice_length by (rewrite ?(shown_length v Hv); lia). done.
  - rewrite Forall_forall in H2, Hg |- *. intros x Hx. destruct (H2 x Hx). by split; [apply Hg|].
Qed.

Lemma add_fragments_spec done v fs0 fs offset s : done category = false -> view_ok v -> 0 <= offset -> fragments_fit v offset fs0 ->
  fragments_cut done (finished ++ blocks_of s) v offset fs0 fs -> inv s -> chunk_size s = 0 ->
  exists s' fs', add_fragments category v fs offset s = (Ok fs', s') /\ inv s' /\ chunk_size s' = 0 /\ extends (blocks_of s) (blocks_of s') /\
    fragments_cut (fun c => done c || bool_decide (c = category)) (finished ++ blocks_of s') v offset fs0 fs'.
Proof.
  intros Hd Hv. revert fs offset s. induction fs0 as [|[c0 f0] fs0 IH]; intros [|[c f] fs] offset s Ho Hfit Hcut Hs Hz; try done.
  { exists s, []. by split_and!. }
  destruct Hfit as (H0 & Hg & Hfit). destruct Hcut as (-> & Hf & Hcut). pose proof (frag_size_nonneg f0) as Hn. pose proof (fragments_fit_le _ _ _ Hfit) as Hle.
  assert (frag_size f = frag_size f0) as Esz by (destruct (done c0); [by eapply fragment_cut_size|by rewrite Hf]). cbn [add_fragments].
  assert (exists s1 f', (if bool_decide (c0 = category) then
      let! r := add_chunkable (cfg category) (granularity category) (logical_block category) (fragment_chunkable v f offset) in ret (collect_chunks f r)
      else ret f) s = (Ok f', s1) /\ inv s1 /\ chunk_size s1 = 0 /\ extends (blocks_of s) (blocks_of s1) /\
      (if done c0 || bool_decide (c0 = category) then fragment_cut (finished ++ blocks_of s1) c0 (read_range (shown v) (FileRange offset (frag_size f0))) f0 f' else f' = f0)) as
    (s1 & f' & E1 & Hs1 & Hz1 & He1 & Hf').
  { case_bool_decide as Hc.
    - subst c0. rewrite Hd in Hf. subst f. destruct (chunkable_of_fragment v f0 offset Hv Ho ltac:(lia) Hg) as [Hok Hcon].
      destruct (add_chunkable_spec (cfg category) (granularity category) (logical_block category) (Hcfg category) (Hinj category) _ s Hok Hs Hz) as (s1 & r & E & Hs1 & He1 & Hz1 & Hr & Ha).
      exists s1, (collect_chunks f0 r). erewrite abind_ok by exact E. rewrite orb_true_r. split_and!; try done. exists r. split; [done|]. rewrite Hcon in Hr. split; [|done].
      destruct Hr as (xs & Hxs & ->). exists xs. split; [|done]. eapply Forall2_impl; [exact Hxs|]. intros [b o n|n] x; [|done]. intros (d & Hin & H). exists d. split; [apply elem_of_app; by right|done].
    - exists s, f. split_and!; try done. rewrite orb_false_r. exact Hf. }
  assert (fragments_cut done (finished ++ blocks_of s1) v (offset + frag_size f0) fs0 fs) as Hcut1 by (eapply fragments_cut_extends; [by apply extends_finished|done]).
  destruct (IH fs (offset + frag_size f0) s1 ltac:(lia) Hfit Hcut1 Hs1 Hz1) as (s2 & fs' & E2 & Hs2 & Hz2 & He2 & Hcut2).
  exists s2, ((c0, f') :: fs'). erewrite abind_ok by exact E1. rewrite Esz. erewrite abind_ok by exact E2. split_and!; try done; [by etransitivity|].
  split; [done|]. split; [|done]. destruct (done c0 || bool_decide (c0 = category)); [|done].
  destruct Hf' as (r & E & Hr & Ha). exists r. split; [done|]. split; [|done]. eapply chunks_hold_extends; [by apply extends_finished|done].
Qed.

(** *** The inodes *)

Context (m0 : manager).

(** What of an inode is mapped when blocks are built. *)
Definition mapped_view (i : inode) : option file_view :=
  match (mmap_any f_data f_size open_file (invalid_ m0) i).1.1 with
  | Some (v, _) => if 0 <? fv_size v then Some v else None
  | None => None
  end.

Definition inode_cut (done : fragment_category -> bool) (st : list (Z * list Z)) (i0 i : inode) : Prop :=
  exists fs, i = with_fragments fs i0 /\
    match mapped_view i0 with Some v => fragments_cut done st v 0 (ino_fragments_ i0) fs | None => fs = ino_fragments_ i0 end.

(** The inodes that blocks are built of: they are complete, have files of one
    size, no two of them have the same data, and their fragments fit what is
    mapped. *)
Record inodes_ready : Prop := {
  ir_complete : Forall complete (inodes_ m0);
  ir_sizes : forall i p q, i ∈ inodes_ m0 -> p ∈ ino_files_ i -> q ∈ ino_files_ i -> f_size p = f_size q;
  ir_apart : forall k k' i i' p q, inodes_ m0 !! k = Some i -> inodes_ m0 !! k' = Some i' -> p ∈ ino_files_ i -> q ∈ ino_files_ i' -> f_data p = f_data q -> k = k';
  ir_views : forall i v, i ∈ inodes_ m0 -> mapped_view i = Some v -> view_ok v /\ fragments_fit v 0 (ino_fragments_ i)
}.
Context (Hready : inodes_ready).

(** Mapping finds what it finds at first. *)
Definition mapping_ok (invalid : gset nat) : Prop :=
  forall i, i ∈ inodes_ m0 -> (mmap_files f_data f_size open_file (ino_files_ i) invalid).1.1 = (mmap_files f_data f_size open_file (ino_files_ i) (invalid_ m0)).1.1.

Record building (span : list nat) (done : fragment_category -> bool) (st : list (Z * list Z)) (m : manager) : Prop := {
  bu_length : length (inodes_ m) = length (inodes_ m0);
  bu_mapping : mapping_ok (invalid_ m);
  bu_inodes : forall k i0, inodes_ m0 !! k = Some i0 -> exists i, inodes_ m !! k = Some i /\
    inode_cut (fun c => done c || (bool_decide (c = category) && negb (bool_decide (k ∈ span)))) st i0 i
}.

Lemma inode_cut_ext done done' st st' i0 i : extends st st' -> (forall c, c ∈ (ino_fragments_ i0).*1 -> done c = done' c) -> inode_cut done st i0 i -> inode_cut done' st' i0 i.
Proof.
  intros He Hd (fs & -> & H). exists fs. split; [done|]. destruct (mapped_view i0) as [v|]; [|done]. apply (fragments_cut_extends _ st st') in H; [|done].
  revert H Hd. generalize (ino_fragments_ i0) as fs0. generalize 0 as o. intros o fs0. revert o fs. induction fs0 as [|[c0 f0] fs0 IH]; intros o [|[c f] fs] H Hd; try done.
  destruct H as (-> & H1 & H2). split; [done|]. rewrite <- (Hd c0) by by left. split; [done|]. apply IH; [done|]. intros c Hc. apply Hd. by right.
Qed.

(** Mapping an inode's files keeps what is found. *)
Lemma mapping_step k i r errors invalid invalid' : inodes_ m0 !! k = Some i -> mapping_ok invalid ->
  mmap_files f_data f_size open_file (ino_files_ i) invalid = (r, errors, invalid') -> mapping_ok invalid'.
Proof.
  intros Hk Hm E j Hj. rewrite <- (Hm j Hj). pose proof (mmap_files_again (ino_files_ i) invalid) as H. rewrite E in H. destruct H as (H1 & H2 & H3).
  apply list_elem_of_lookup in Hj as [k' Hk']. destruct (decide (k' = k)) as [->|Hne]; [assert (j = i) as -> by congruence; by rewrite H3, E|]. apply mmap_files_agree. intros p Hp. split; [|apply H1]. intros Hin. destruct (H2 _ Hin) as [?|(q & Hq & Eq)]; [done|].
  by destruct Hne; apply (ir_apart Hready k' k j i p q).
Qed.

Lemma add_inode_spec done k span s m : done category = false -> (k < length (inodes_ m0))%nat -> k ∉ span ->
  building (k :: span) done (finished ++ blocks_of s) m -> inv s -> chunk_size s = 0 ->
  exists s' m', add_inode category k m s = (Ok m', s') /\ inv s' /\ chunk_size s' = 0 /\ extends (blocks_of s) (blocks_of s') /\
    building span done (finished ++ blocks_of s') m'.
Proof.
  intros Hd Hk Hns [Hl Hmap Hin] Hs Hz. destruct (lookup_lt_is_Some_2 _ _ Hk) as [i0 Hi0]. pose proof (list_elem_of_lookup_2 _ _ _ Hi0) as Hel.
  destruct (Hin k i0 Hi0) as (i & Hi & Hcut). pose proof Hcut as (fs & Ei & Hfs).
  assert (forall s' m', extends (blocks_of s) (blocks_of s') -> length (inodes_ m') = length (inodes_ m) -> mapping_ok (invalid_ m') ->
    (forall k', k' <> k -> inodes_ m' !! k' = inodes_ m !! k') ->
    (exists i', inodes_ m' !! k = Some i' /\ inode_cut (fun c => done c || bool_decide (c = category)) (finished ++ blocks_of s') i0 i') ->
    building span done (finished ++ blocks_of s') m') as Hbuild.
  { intros s' m' He Hl' Hmap' Hother (i' & Hi' & Hc'). split; [lia|done|]. intros k' j0 Hj0. destruct (decide (k' = k)) as [->|Hne].
    - rewrite Hi0 in Hj0. injection Hj0 as <-. exists i'. split; [done|]. eapply inode_cut_ext; [| |exact Hc']; [reflexivity|]. intros c _. cbn. by rewrite (bool_decide_false (k ∈ span)), andb_true_r.
    - destruct (Hin k' j0 Hj0) as (j & Hj & Hc). exists j. split; [by rewrite Hother|]. eapply inode_cut_ext; [by apply extends_finished| |exact Hc]. intros c _. cbn.
      f_equal. f_equal. f_equal. apply bool_decide_ext. rewrite elem_of_cons. naive_solver. }
  unfold add_inode. unfold managing at 1. rewrite Hi. cbn [there]. erewrite abind_ok by reflexivity.
  assert (ino_files_ i = ino_files_ i0) as Ef by by rewrite Ei.
  pose proof (ir_complete Hready) as Hc. rewrite Forall_forall in Hc. destruct (Hc i0 Hel) as (_ & _ & Hfiles).
  assert (exists p, any f_data (invalid_ m) i = Ok p /\ p ∈ ino_files_ i0 /\ (f_data p ∈ invalid_ m -> forall q, q ∈ ino_files_ i0 -> f_data q ∈ invalid_ m)) as (p & Ep & Hp & Hall).
  { unfold any. rewrite Ef. destruct (ino_files_ i0) as [|p0 files] eqn:Efs; [done|]. eexists. split; [done|].
    destruct (base.filter (fun p => f_data p ∉ invalid_ m) (p0 :: files)) as [|q l] eqn:Eq; cbn [hd_error from_option id default].
    - split; [by left|]. intros _ q Hq. apply dec_stable. intros Hn. assert (q ∈ base.filter (fun p => f_data p ∉ invalid_ m) (p0 :: files)) as H by by apply list_elem_of_filter. rewrite Eq in H. by apply elem_of_nil in H.
    - assert (q ∈ base.filter (fun p => f_data p ∉ invalid_ m) (p0 :: files)) as [Hq1 Hq2]%list_elem_of_filter by (rewrite Eq; by left). by split. }
  unfold managing at 1. rewrite Ep. erewrite abind_ok by reflexivity.
  assert (inode_cut done (finished ++ blocks_of s) i0 i) as Hcut0.
  { eapply inode_cut_ext; [reflexivity| |exact Hcut]. intros c _. cbn. rewrite (bool_decide_true (k ∈ k :: span)) by by left. by rewrite andb_false_r, orb_false_r. }
  assert (mapped_view i0 = None -> exists s' m', (ret m : action blockify_error segmenter manager) s = (Ok m', s') /\ inv s' /\ chunk_size s' = 0 /\
    extends (blocks_of s) (blocks_of s') /\ building span done (finished ++ blocks_of s') m') as Hskip.
  { intros Hv. exists s, m. split_and!; try done. apply Hbuild; try done. exists i. split; [done|]. destruct Hcut0 as (fs' & E & H). exists fs'. split; [done|]. by rewrite Hv in *. }
  destruct ((0 <? f_size p) && negb (bool_decide (f_data p ∈ invalid_ m))) eqn:Eb.
  - apply andb_true_iff in Eb as [Hpos%Z.ltb_lt _]. destruct (mmap_any f_data f_size open_file (invalid_ m) i) as [[r errors] inv'] eqn:Em.
    unfold mmap_any in Em. rewrite Ef in Em. pose proof (mapping_step k i0 r errors _ _ Hi0 Hmap Em) as Hmap'. pose proof (Hmap i0 Hel) as Er. rewrite Em in Er. cbn in Er.
    destruct r as [[v q]|].
    + destruct (mmap_files_found _ _ _ _ _ _ Em) as (Hq & _ & _ & Hsz). assert (mapped_view i0 = Some v) as Ev.
      { unfold mapped_view, mmap_any. rewrite <- Er. by rewrite (proj2 (Z.ltb_lt 0 (fv_size v))) by (rewrite Hsz, (ir_sizes Hready i0 q p); done). }
      destruct (ir_views Hready i0 v Hel Ev) as [Hv Hfit]. destruct Hcut0 as (fs1 & E1 & Hfs1). rewrite Ev in Hfs1.
      assert (ino_fragments_ i = fs1) as Efr by by rewrite E1. rewrite Efr.
      destruct (add_fragments_spec done v (ino_fragments_ i0) fs1 0 s Hd Hv ltac:(lia) Hfit Hfs1 Hs Hz) as (s' & fs' & Ea & Hs' & Hz' & He & Hcut').
      unfold segmenting at 1. erewrite abind_ok by (rewrite Ea; reflexivity). eexists s', _. split; [done|]. split; [done|]. split; [done|]. split; [done|].
      apply Hbuild; cbn [inodes_ invalid_]; [done|by rewrite length_insert|done|intros k' Hne; by rewrite list_lookup_insert_ne by done|].
      eexists. split; [apply list_lookup_insert_eq; lia|]. exists fs'. split; [by rewrite E1|]. by rewrite Ev.
    + assert (mapped_view i0 = None) as Ev by (unfold mapped_view, mmap_any; by rewrite <- Er).
      exists s. eexists. split; [done|]. split; [done|]. split; [done|]. split; [reflexivity|]. apply Hbuild; cbn [inodes_ invalid_]; try done. exists i. split; [done|].
      destruct Hcut0 as (fs1 & E1 & Hfs1). exists fs1. split; [done|]. by rewrite Ev in *.
  - apply Hskip. unfold mapped_view, mmap_any. pose proof (Hmap i0 Hel) as Er. rewrite <- Er.
    destruct (mmap_files _ _ _ (ino_files_ i0) (invalid_ m)) as [[[[v q]|] errors] inv'] eqn:Em; [|done]. cbn. destruct (mmap_files_found _ _ _ _ _ _ Em) as (Hq & Hv & _ & Hsz).
    destruct (Z.ltb_spec 0 (fv_size v)) as [Hpos|]; [|done]. exfalso. apply andb_false_iff in Eb as [Eb|Eb].
    + apply Z.ltb_ge in Eb. rewrite Hsz, (ir_sizes Hready i0 q p) in Hpos by done. lia.
    + apply negb_false_iff, bool_decide_eq_true in Eb. by apply Hv, Hall.
Qed.

Lemma add_span_spec done span s m : done category = false -> NoDup span -> (forall k, k ∈ span -> (k < length (inodes_ m0))%nat) ->
  building span done (finished ++ blocks_of s) m -> inv s -> chunk_size s = 0 ->
  exists s' m', add_span category span m s = (Ok m', s') /\ inv s' /\ building [] done (finished ++ blocks_of s') m'.
Proof.
  intros Hd Hnd. revert s m. induction Hnd as [|k span Hk _ IH]; intros s m Hr Hb Hs Hz; [by exists s, m|].
  destruct (add_inode_spec done k span s m Hd (Hr k ltac:(by left)) Hk Hb Hs Hz) as (s1 & m1 & E1 & Hs1 & Hz1 & _ & Hb1).
  destruct (IH s1 m1) as (s2 & m2 & E2 & Hs2 & Hb2); [intros k' Hk'; apply Hr; by right|done|done|done|]. exists s2, m2. cbn [add_span]. erewrite abind_ok by exact E1. done.
Qed.

(** After the job, the category is done. *)
Definition built (done : fragment_category -> bool) (st : list (Z * list Z)) (m : manager) : Prop :=
  length (inodes_ m) = length (inodes_ m0) /\ mapping_ok (invalid_ m) /\
  forall k i0, inodes_ m0 !! k = Some i0 -> exists i, inodes_ m !! k = Some i /\ inode_cut done st i0 i.

Lemma inode_cut_same done st i0 i : inode_cut done st i0 i -> (ino_fragments_ i).*1 = (ino_fragments_ i0).*1 /\ ino_files_ i = ino_files_ i0 /\ ino_num_ i = ino_num_ i0.
Proof.
  intros (fs & -> & H). split; [|done]. cbn. destruct (mapped_view i0); [by eapply fragments_cut_categories|by rewrite H].
Qed.

Lemma built_complete done st m : built done st m -> Forall complete (inodes_ m).
Proof.
  intros (Hl & _ & H). apply Forall_lookup. intros k i Hi. destruct (lookup_lt_is_Some_2 (inodes_ m0) k) as [i0 Hi0]; [rewrite <- Hl; by eapply lookup_lt_Some|].
  destruct (H k i0 Hi0) as (i' & Hi' & Hc). assert (i' = i) as -> by congruence. destruct (inode_cut_same _ _ _ _ Hc) as (E1 & E2 & E3).
  pose proof (ir_complete Hready) as Hcm. rewrite Forall_lookup in Hcm. destruct (Hcm k i0 Hi0) as (H1 & H2 & H3). unfold complete. rewrite E2, E3. split; [done|]. split; [|done].
  intros E. rewrite E in E1. by destruct (ino_fragments_ i0).
Qed.

Lemma built_selected done st m k : built done st m -> in_category (inodes_ m) category k = in_category (inodes_ m0) category k.
Proof.
  intros (Hl & _ & H). unfold in_category. destruct (inodes_ m0 !! k) as [i0|] eqn:Hi0.
  - destruct (H k i0 Hi0) as (i & -> & Hc). destruct (inode_cut_same _ _ _ _ Hc) as (E1 & _). revert E1. generalize (ino_fragments_ i) as a, (ino_fragments_ i0) as b. clear.
    induction a as [|[c f] a IH]; intros [|[c' f'] b] E; try done. cbn in E. injection E as -> E. cbn. by rewrite (IH b E).
  - assert (inodes_ m !! k = None) as ->; [|done]. apply lookup_ge_None_2. rewrite Hl. by apply lookup_ge_None_1.
Qed.

(** *** The job of a category *)

Context {Horder : SpanOrder order}.

Lemma extends_app st : extends finished (finished ++ st).
Proof. intros n d H. exists []. rewrite app_nil_r. apply elem_of_app. by left. Qed.

Lemma in_category_elem k i0 : inodes_ m0 !! k = Some i0 -> in_category (inodes_ m0) category k = true <-> category ∈ (ino_fragments_ i0).*1.
Proof.
  intros Hk. unfold in_category. rewrite Hk, existsb_exists. split.
  - intros ([c f] & Hin & E%bool_decide_eq_true). cbn in E. subst c. apply list_elem_of_fmap. exists (category, f). split; [done|]. by apply list_elem_of_In.
  - intros ([c f] & -> & Hin)%list_elem_of_fmap. exists (c, f). split; [by apply list_elem_of_In|]. by apply bool_decide_eq_true.
Qed.

Lemma segment_category_spec done m : done category = false -> built done finished m ->
  exists m' blocks, segment_category category m = Ok (m', blocks) /\
    built (fun c => done c || bool_decide (c = category)) (finished ++ blocks) m' /\
    NoDup blocks.*1 /\ Forall (fun n => exists i, n = logical_block category i) blocks.*1 /\ Forall (stored_ok (cfg category) (granularity category)) blocks.
Proof.
  intros Hd Hb. pose proof Hb as (Hl & Hmap & Hin). destruct (orders m category (built_complete _ _ _ Hb)) as (span & Es & Hnd & Hspan).
  destruct (segmenter_create_spec (cfg category) (granularity category) (logical_block category) (Hcfg category)) as (s & Ec & Hs & Hz).
  assert (building span done (finished ++ blocks_of s) m) as Hbuild.
  { split; [done|done|]. intros k i0 Hi0. destruct (Hin k i0 Hi0) as (i & Hi & Hc). exists i. split; [done|]. eapply inode_cut_ext; [apply extends_app| |exact Hc].
    intros c Hcin. cbn. case_bool_decide as E; [|by rewrite orb_false_r]. subst c. rewrite bool_decide_true; [by rewrite orb_false_r|]. apply Hspan. split; [by eapply lookup_lt_Some|].
    rewrite (built_selected _ _ _ k Hb). by apply (in_category_elem k i0). }
  destruct (add_span_spec done span s m Hd Hnd) as (s1 & m' & E1 & Hs1 & Hb1); [intros k Hk; apply Hspan in Hk as [Hk _]; lia|done|done|done|].
  destruct (finish_spec (cfg category) (granularity category) (logical_block category) s1 Hs1) as (s2 & E2 & Er).
  exists m', (blocks_of s1). unfold segment_category. rewrite Es, Ec. erewrite abind_ok by exact E1. unfold segmenting at 1. erewrite abind_ok by (rewrite E2; reflexivity).
  unfold ret. rewrite Er. split; [done|]. split; [|split; [apply Hs1|split]].
  - destruct Hb1 as [H1 H2 H3]. split; [done|]. split; [done|]. intros k i0 Hi0. destruct (H3 k i0 Hi0) as (i & Hi & Hc). exists i. split; [done|].
    eapply inode_cut_ext; [reflexivity| |exact Hc]. intros c _. cbn. by rewrite (bool_decide_false (k ∈ [])), andb_true_r by apply not_elem_of_nil.
  - eapply Forall_impl; [apply Hs1|]. intros n (i & _ & ->). by exists i.
  - by apply (store_stored _ _ (logical_block category)).
Qed.
End category_lemmas.

(** ** All categories *)

Lemma build_blocks_loop m0 categories : (forall c, cfg_ok (cfg c) (granularity c)) -> (forall c c' i j, logical_block c i = logical_block c' j -> c = c' /\ i = j) ->
  SpanOrder order -> inodes_ready m0 -> NoDup categories ->
  forall done finished m, (forall c, c ∈ categories -> done c = false) -> built m0 done finished m -> NoDup finished.*1 ->
  Forall (fun n => exists c i, done c = true /\ n = logical_block c i) finished.*1 -> Forall (fun e => exists c, stored_ok (cfg c) (granularity c) e) finished ->
  exists m' blocks, build_blocks categories m = Ok (m', blocks) /\ built m0 (fun c => done c || bool_decide (c ∈ categories)) (finished ++ blocks) m' /\
    NoDup (finished ++ blocks).*1 /\ Forall (fun e => exists c, stored_ok (cfg c) (granularity c) e) (finished ++ blocks).
Proof.
  intros Hcfg Hjoint Horder Hready Hnd. assert (forall c, Inj (=) (=) (logical_block c)) as Hinj by (intros c i j E; by destruct (Hjoint c c i j E)).
  induction Hnd as [|c categories Hc _ IH]; intros done finished m Hdone Hb Hn Ha Hst.
  - exists m, []. cbn [build_blocks]. rewrite app_nil_r. split_and!; try done. destruct Hb as (H1 & H2 & H3). split; [done|]. split; [done|]. intros k i0 Hi0.
    destruct (H3 k i0 Hi0) as (i & Hi & Hcut). exists i. split; [done|]. eapply inode_cut_ext; [reflexivity| |exact Hcut]. intros c _. cbn. by rewrite orb_false_r.
  - destruct (segment_category_spec Hcfg Hinj c finished m0 Hready done m (Hdone c ltac:(by left)) Hb) as (m1 & blocks & E1 & Hb1 & Hn1 & Ha1 & Hst1).
    destruct (IH (fun c' => done c' || bool_decide (c' = c)) (finished ++ blocks) m1) as (m2 & rest & E2 & Hb2 & Hn2 & Hst2).
    + intros c' Hc'. rewrite (Hdone c') by by right. cbn. apply bool_decide_eq_false. by intros ->.
    + done.
    + rewrite fmap_app. apply NoDup_app. split; [done|]. split; [|done]. intros n Hn' Hin. rewrite Forall_forall in Ha, Ha1.
      destruct (Ha n Hn') as (c' & i & Hd & ->). destruct (Ha1 _ Hin) as (j & E). destruct (Hjoint _ _ _ _ E) as [-> _]. rewrite (Hdone c) in Hd by by left. done.
    + rewrite fmap_app. apply Forall_app. split.
      * eapply Forall_impl; [exact Ha|]. intros n (c' & i & Hd & ->). exists c', i. by rewrite Hd.
      * eapply Forall_impl; [exact Ha1|]. intros n (i & ->). exists c, i. rewrite bool_decide_true by done. by rewrite orb_true_r.
    + apply Forall_app. split; [done|]. eapply Forall_impl; [exact Hst1|]. intros e He. by exists c.
    + exists m2, (blocks ++ rest). cbn [build_blocks]. rewrite E1. cbn [rbind]. rewrite E2. cbn [rbind]. rewrite app_assoc. split; [done|]. split; [|done].
      destruct Hb2 as (H1 & H2 & H3). split; [done|]. split; [done|]. intros k i0 Hi0. destruct (H3 k i0 Hi0) as (i & Hi & Hcut). exists i. split; [done|].
      eapply inode_cut_ext; [reflexivity| |exact Hcut]. intros c' _. cbn. rewrite <- orb_assoc. f_equal. rewrite <- bool_decide_or. apply bool_decide_ext. by rewrite elem_of_cons.
Qed.

(** All the fragments get their chunks. *)
Lemma build_blocks_spec m0 categories : (forall c, cfg_ok (cfg c) (granularity c)) -> (forall c c' i j, logical_block c i = logical_block c' j -> c = c' /\ i = j) ->
  SpanOrder order -> inodes_ready m0 -> NoDup categories -> (forall i c, i ∈ inodes_ m0 -> c ∈ (ino_fragments_ i).*1 -> c ∈ categories) ->
  exists m blocks, build_blocks categories m0 = Ok (m, blocks) /\ built m0 (fun _ => true) blocks m /\ NoDup blocks.*1 /\
    Forall (fun e => exists c, stored_ok (cfg c) (granularity c) e) blocks.
Proof.
  intros Hcfg Hjoint Horder Hready Hnd Hall.
  destruct (build_blocks_loop m0 categories Hcfg Hjoint Horder Hready Hnd (fun _ => false) [] m0) as (m & blocks & E & Hb & Hn & Hst); try done; try by constructor.
  - split; [done|]. split; [done|]. intros k i0 Hi0. exists i0. split; [done|]. exists (ino_fragments_ i0). split; [by destruct i0|].
    destruct (mapped_view m0 i0); [apply fragments_cut_none|done].
  - exists m, blocks. split; [done|]. split; [|done]. destruct Hb as (H1 & H2 & H3). split; [done|]. split; [done|]. intros k i0 Hi0. destruct (H3 k i0 Hi0) as (i & Hi & Hcut).
    exists i. split; [done|]. eapply inode_cut_ext; [reflexivity| |exact Hcut]. intros c Hc. cbn. apply bool_decide_eq_true. apply (Hall i0); [by eapply list_elem_of_lookup_2|done].
Qed.
End scanner.
