(* ===== verification/StoredChunks.v ===== *)
(** * StoredChunks: the tables of chunks that are written pass the checks

    What [metadata_builder_::gather_chunks] makes of chunks that lie in the blocks
    of the segmenters is what [check_chunks] and the chunk table of
    [src/reader/internal/metadata_v2.cpp] ask for. *)

From stdpp Require Import sorting.
From S2P Require Import Prelude FileChunks Metadata MetadataReader EntryTree MetadataBuilder EntryLists OpenedTree DirectoryTree CheckedTables.
Local Open Scope Z_scope.

(** ** The table *)

Lemma starts_le {A} (vss : list (list A)) base : StronglySorted Z.le (starts base vss ++ [base + zlen (concat vss)]) /\
  Forall (fun x => base <= x <= base + zlen (concat vss)) (starts base vss ++ [base + zlen (concat vss)]).
Proof.
  revert base. induction vss as [|vs vss IH]; intros base; cbn [starts app concat].
  - change (zlen (@nil A)) with 0. split; repeat constructor; lia.
  - rewrite zlen_app, Z.add_assoc. destruct (IH (base + zlen vs)) as [IH1 IH2]. pose proof (zlen_nonneg vs). pose proof (zlen_nonneg (concat vss)).
    split; constructor; try done; try lia; (eapply Forall_impl; [exact IH2|]); cbn; intros; lia.
Qed.

Section fits.
Context (sparse : bool) (k : Z) (bm : block_manager) (blocks : Z -> list Z) (inodes : list (list fragment)).
Context (Hk : 0 <= k < 32) (Hnum : 0 <= num_blocks_ bm < 2 ^ 32 - 1) (Hbm : blocks_written bm) (Hblocks : forall n, zlen (blocks n) <= 2 ^ k).
Context (Hin : Forall (fun fs => Forall (chunk_in (num_blocks_ bm) blocks sparse) (concat (map chunks_ fs))) inodes).
Context (Hlen : zlen (concat (map inode_chunks inodes)) < 2 ^ 32).
Context (w : Z) (hm : option hole_mapper) (vss : list (list meta_chunk)) (Hm : made k bm inodes w hm vss).

#[local] Abbreviation files := (tables_of k bm hm vss).

Lemma files_chunks : md_chunks files = map (relabel bm hm) (concat vss).
Proof. unfold tables_of, meta_of. destruct hm as [m|]; [|done]. by destruct (has_holes m). Qed.

Lemma files_block_size : md_block_size files = 2 ^ k.
Proof. unfold tables_of, meta_of. destruct hm as [m|]; [|done]. by destruct (has_holes m). Qed.

Lemma table_chunks_count : zlen (md_chunks files) = zlen (concat vss) /\ zlen (concat vss) < 2 ^ 32.
Proof.
  rewrite files_chunks. pose proof (Forall2_length _ _ _ (made_chunks k bm inodes w hm vss Hm)) as H. unfold zlen in *. rewrite length_map. lia.
Qed.

(** A chunk in the table stands for one of an inode. *)
Lemma table_chunk v' : v' ∈ md_chunks files -> exists c v, v' = relabel bm hm v /\ enc k bm hm c v /\ chunk_in (num_blocks_ bm) blocks sparse c.
Proof.
  rewrite files_chunks. intros (v & -> & Hv)%list_elem_of_fmap. apply list_elem_of_lookup in Hv as [i Hv].
  destruct (Forall2_lookup_r _ _ _ _ _ (made_chunks k bm inodes w hm vss Hm) Hv) as (c & Hc & He). exists c, v. split; [done|]. split; [done|].
  apply list_elem_of_lookup_2 in Hc. apply list_elem_of_In, in_concat in Hc as (cs & Hcs & Hc). apply in_map_iff in Hcs as (fs & <- & Hfs). apply list_elem_of_In in Hfs, Hc.
  rewrite Forall_forall in Hin. specialize (Hin _ Hfs). rewrite Forall_forall in Hin. apply Hin. unfold inode_chunks in Hc. destruct (forallb _ _); [done|]. by apply elem_of_nil in Hc.
Qed.

Lemma table_chunk_fits v' : v' ∈ md_chunks files -> chunk_fits files v'.
Proof.
  intros H. destruct (table_chunk v' H) as (c & v & -> & He & Hp & Hc). unfold chunk_fits. destruct (is_hole c) eqn:Eh.
  - destruct (relabel_hole k w bm hm c v (ma_mapper _ _ _ _ _ _ Hm) He Eh) as [-> Hb]. destruct He as [(m & _ & Ehm & H1 & _ & H3 & _ & H5)|[Hd _]];
      [|by rewrite (proj1 (data_ok_spec _ _ Hd)) in Eh].
    pose proof (ma_mapper _ _ _ _ _ _ Hm) as Hinv. unfold tables_of, meta_of. rewrite Ehm in *. unfold has_holes. rewrite (proj2 (Z.ltb_lt 0 _)) by lia. cbn.
    rewrite (hm_index _ _ _ _ Hinv), wrapu_small by (unfold in_u; lia). rewrite Hb, bool_decide_true by done. unfold hole_decodes in H3. intros Eo. rewrite Eo, Z.eqb_refl in H3.
    apply lookup_lt_Some in H3. unfold in_u, zlen in *. lia.
  - destruct (relabel_data k w bm Hnum Hbm hm c v (ma_mapper _ _ _ _ _ _ Hm) He Eh) as (x & Hx & Hr & Hd & -> & _). rewrite bool_decide_false.
    + rewrite files_block_size. cbn [mc_offset mc_size]. destruct (data_ok_spec _ _ Hd) as [_ Es]. destruct Hd as (Hd1 & Hd2 & Hd3).
      destruct Hc as [[_ Hh]|[_ Hle]]; [by rewrite (proj1 (hole_ok_spec _ Hh)) in Eh|]. pose proof (Hblocks (block_ c)). lia.
    + pose proof (ma_mapper _ _ _ _ _ _ Hm) as Hinv. unfold tables_of, meta_of. destruct hm as [m|]; [|done]. destruct (has_holes m); [|done]. cbn.
      rewrite (hm_index _ _ _ _ Hinv), wrapu_small by (unfold in_u; lia). intros [= E]. lia.
Qed.

Lemma stored_table_fits : table_fits files.
Proof.
  destruct table_chunks_count as [E H]. split; [|lia]. rewrite tables_table, E. destruct (starts_le vss 0) as [_ Hall]. eapply Forall_impl; [exact Hall|]. cbn. intros; lia.
Qed.

Lemma stored_files_fit : files_fit files.
Proof.
  destruct table_chunks_count as [E H]. split.
  - rewrite tables_table. apply is_sorted_StronglySorted, starts_le.
  - rewrite tables_table, E. apply last_snoc.
  - exists k. split; [done|]. apply files_block_size.
  - unfold tables_of, meta_of. destruct hm as [m|]; [|by intros []]. destruct (has_holes m); [by eexists|by intros []].
  - apply table_chunk_fits.
Qed.

Lemma stored_table_length : zlen (md_chunk_table files) = zlen inodes + 1.
Proof.
  rewrite tables_table. pose proof (Forall2_length _ _ _ (ma_inodes _ _ _ _ _ _ Hm)) as E. unfold zlen in *. rewrite length_app, length_starts. cbn [length]. lia.
Qed.
End fits.
