(* ===== verification/StoredInodes.v ===== *)
(** * StoredInodes: the chunks of an inode are its contents

    After all blocks were built ([Blockify]): the fragments of every inode are
    consistent, their chunks lie in the blocks and have the bytes that its file
    shows, and [for_each_inode_in_order] of [src/writer/internal/inode_manager.cpp]
    hands the inodes to [metadata_builder_::gather_chunks] by their numbers. *)

From stdpp Require Import sorting.
From S2P Require Import Prelude Metadata MetadataReader EntryTree MetadataBuilder EntryLists EntryData FileChunks FileRange Segmenter FileView Categorizer InodeManager InodeOrdering OffsetCache InodeReader EndToEnd Blockify.
Local Open Scope Z_scope.

(** The fragments [append_chunks_to] of an inode looks at. *)
Definition fragments_of (i : inode) : list fragment := (ino_fragments_ i).*2.

(** What [for_each_inode_in_order] hands out. *)
Definition inodes_in (order : list nat) (m : manager) : list (list fragment) := map (fun k => from_option fragments_of [] (inodes_ m !! k)) order.

(** ** The order of the numbers *)

Section in_order.
Context (inodes : list inode) (Hcomplete : Forall complete inodes) (Hnums : map (fun i => default (-1) (ino_num_ i)) inodes ≡ₚ seqZ 0 (zlen inodes)).

Definition num_at (k : nat) : Z := default (-1) (inodes !! k ≫= ino_num_).

Lemma num_at_of k : (k < length inodes)%nat -> num_of inodes k = Ok (num_at k).
Proof.
  intros Hk. destruct (lookup_lt_is_Some_2 _ _ Hk) as [i Hi]. rewrite Forall_lookup in Hcomplete. destruct (Hcomplete k i Hi) as ([n Hn] & _).
  unfold num_of, num_at, ino_num. rewrite Hi. cbn [there rbind mbind option_bind]. by rewrite Hn.
Qed.

Lemma nums_at : map num_at (seq 0 (length inodes)) = map (fun i => default (-1) (ino_num_ i)) inodes.
Proof.
  apply list_eq. intros j. rewrite !list_lookup_fmap. destruct (decide (j < length inodes)%nat) as [Hj|Hj].
  - rewrite lookup_seq_lt by done. destruct (lookup_lt_is_Some_2 _ _ Hj) as [i Hi]. unfold num_at. cbn. by rewrite Hi.
  - rewrite lookup_seq_ge, lookup_ge_None_2 by lia. done.
Qed.

(** The inode with a number is handed out at that place. *)
Lemma in_order_numbers : exists order, in_order inodes = Ok order /\ length order = length inodes /\
  forall u k, order !! u = Some k -> exists i, inodes !! k = Some i /\ ino_num_ i = Some (Z.of_nat u).
Proof.
  destruct (in_order_spec inodes Hcomplete) as (order & E & Hp & Hs). exists order. split; [done|]. split; [by rewrite (Permutation_length Hp), length_seq|].
  assert (forall k, k ∈ order -> (k < length inodes)%nat) as Hr by (intros k Hk; rewrite Hp in Hk; apply elem_of_seq in Hk; lia).
  assert (map num_at order = seqZ 0 (zlen inodes)) as En.
  { apply (StronglySorted_unique Z.le).
    - clear E Hp. induction Hs as [|k order _ IH Hk]; [constructor|]. constructor; [apply IH; intros; apply Hr; by right|].
      apply Forall_fmap. rewrite Forall_forall in Hk |- *. intros j Hj. specialize (Hk j Hj). unfold in_key_order in Hk.
      specialize (Hk (num_at k) (num_at j) (num_at_of k (Hr k ltac:(by left))) (num_at_of j (Hr j ltac:(by right)))). cbn in *. lia.
    - apply seqZ_sorted.
    - rewrite <- Hnums, <- nums_at. by apply (fmap_Permutation num_at). }
  intros u k Hu. pose proof (Hr k (list_elem_of_lookup_2 _ _ _ Hu)) as Hk. destruct (lookup_lt_is_Some_2 _ _ Hk) as [i Hi]. exists i. split; [done|].
  assert (map num_at order !! u = Some (num_at k)) as H by (rewrite list_lookup_fmap, Hu; done). rewrite En in H. apply lookup_seqZ in H as [H _].
  rewrite Forall_lookup in Hcomplete. destruct (Hcomplete k i Hi) as ([n Hn] & _). unfold num_at in H. rewrite Hi in H. cbn [mbind option_bind] in H. rewrite Hn in *. cbn in H. by subst n.
Qed.
End in_order.

(** ** The chunks *)

Section stored.
Context (f_data : nat -> nat) (f_size : nat -> Z) (open_file : nat -> option file_view) (cfg : fragment_category -> segmenter_config) (granularity : fragment_category -> Z).
Context (sparse : bool) (Hsparse : forall c, Segmenter.enable_sparse_files (cfg c) = sparse) (Hcfg : forall c, cfg_ok (cfg c) (granularity c)).
Context (blocks : list (Z * list Z)) (bm : block_manager) (stored : Z -> list Z).
Context (Hnum : 0 <= num_blocks_ bm < 2 ^ 32 - 1) (Hnd : NoDup blocks.*1) (Hst : stored_at bm blocks stored)
  (Hblocks : Forall (fun e => exists c, stored_ok (cfg c) (granularity c) e) blocks).

#[local] Abbreviation L := (logical_data blocks).
#[local] Abbreviation in_blocks := (chunk_in (num_blocks_ bm) L sparse).

Lemma blocks_size : Forall (fun e : Z * list Z => zlen e.2 < 2 ^ 32) blocks.
Proof. eapply Forall_impl; [exact Hblocks|]. intros e [c He]. pose proof (stored_ok_size _ _ e (Hcfg c) He). lia. Qed.

Lemma fragments_stored v offset fs0 fs : view_ok v -> fv_size v < 2 ^ 63 -> 0 <= offset -> fragments_fit granularity v offset fs0 ->
  fragments_cut cfg granularity (fun _ => true) blocks v offset fs0 fs ->
  Forall in_blocks (concat (map chunks_ fs.*2)) /\
  concat (map (chunk_bytes L) (concat (map chunks_ fs.*2))) = slice (shown v) offset (fv_size v - offset) /\ forallb chunks_are_consistent fs.*2 = true.
Proof.
  intros Hv Hsz. revert offset fs. induction fs0 as [|[c0 f0] fs0 IH]; intros offset [|[c f] fs] Ho Hfit Hcut; try done.
  - cbn in Hfit. rewrite Hfit, Z.sub_diag, slice_0. repeat constructor.
  - destruct Hfit as (H0 & _ & Hfit). destruct Hcut as (-> & (r & -> & Hr & Ha) & Hcut). pose proof (frag_size_nonneg f0) as Hf0. pose proof (fragments_fit_le _ _ _ _ Hfit) as Hle.
    assert (zlen (read_range (shown v) (FileRange offset (frag_size f0))) = frag_size f0) as Hl by (apply slice_length; cbn; rewrite ?shown_length; done || lia).
    destruct (collect_chunks_ok (cfg c0) (granularity c0) blocks bm stored Hnum Hnd Hst blocks_size f0 r _ Ha Hr H0) as (C1 & C2 & C3); [done|lia|].
    destruct (IH (offset + frag_size f0) fs ltac:(lia) Hfit Hcut) as (I1 & I2 & I3). cbn [fmap list_fmap snd map concat forallb]. rewrite Hsparse in C1. split; [by apply Forall_app|].
    split; [|by rewrite C3]. rewrite map_app, concat_app, C2. fold (@fmap list _ _ _ (@snd fragment_category fragment) fs). rewrite I2. unfold read_range. cbn [offset_ size_].
    rewrite <- slice_add by lia. f_equal. lia.
Qed.

Lemma fragments_stored_all v fs0 fs : view_ok v -> fv_size v < 2 ^ 63 -> fragments_fit granularity v 0 fs0 -> fragments_cut cfg granularity (fun _ => true) blocks v 0 fs0 fs ->
  Forall in_blocks (concat (map chunks_ fs.*2)) /\ concat (map (chunk_bytes L) (inode_chunks fs.*2)) = shown v.
Proof.
  intros Hv Hsz Hfit Hcut. destruct (fragments_stored v 0 fs0 fs Hv Hsz ltac:(lia) Hfit Hcut) as (H1 & H2 & H3). split; [done|]. unfold inode_chunks. rewrite H3, H2.
  apply slice_all. rewrite shown_length by done. lia.
Qed.

Context (m0 m : manager) (Hready : inodes_ready f_data f_size open_file granularity m0) (Hbuilt : built f_data f_size open_file cfg granularity m0 (fun _ => true) blocks m).
Context (Hfresh : forall i f, i ∈ inodes_ m0 -> f ∈ ino_fragments_ i -> chunks_ f.2 = []) (Hviews : forall i v, i ∈ inodes_ m0 -> mapped_view f_data f_size open_file m0 i = Some v -> fv_size v < 2 ^ 63).

(** What is read of an inode: nothing, if none of its files can be mapped. *)
Definition inode_content (i : inode) : list Z := from_option shown [] (mapped_view f_data f_size open_file m0 i).

Lemma inode_stored k i0 : inodes_ m0 !! k = Some i0 -> exists i, inodes_ m !! k = Some i /\ ino_num_ i = ino_num_ i0 /\ ino_files_ i = ino_files_ i0 /\
  Forall in_blocks (concat (map chunks_ (fragments_of i))) /\ concat (map (chunk_bytes L) (inode_chunks (fragments_of i))) = inode_content i0.
Proof.
  intros Hk. destruct Hbuilt as (_ & _ & H). destruct (H k i0 Hk) as (i & Hi & fs & -> & Hcut). eexists. split; [exact Hi|]. split; [done|]. split; [done|].
  pose proof (list_elem_of_lookup_2 _ _ _ Hk) as Hel. unfold fragments_of, inode_content. cbn [ino_fragments_ with_fragments].
  destruct (mapped_view f_data f_size open_file m0 i0) as [v|] eqn:Ev; cbn [from_option].
  - destruct (ir_views _ _ _ _ _ Hready i0 v Hel Ev) as [Hv Hfit]. apply (fragments_stored_all v (ino_fragments_ i0)); [done|by apply (Hviews i0)|done|done].
  - subst fs. assert (concat (map chunks_ (ino_fragments_ i0).*2) = []) as E.
    { pose proof (fun f => Hfresh i0 f Hel) as Hf. revert Hf. generalize (ino_fragments_ i0) as l. induction l as [|[c f] l IH]; intros Hf; [done|].
      cbn [fmap list_fmap map concat snd]. pose proof (Hf (c, f) ltac:(by left)) as E. cbn in E. rewrite E. apply IH. intros f' Hf'. apply Hf. by right. }
    rewrite E. split; [constructor|]. unfold inode_chunks. rewrite E. by destruct (forallb _ _).
Qed.
End stored.
