(* ===== verification/WholeTree.v ===== *)
(** * WholeTree: a tree with its files is written and read back

    Put together: the blocks of all categories are built of the inodes of a tree
    ([Blockify]), [gather_chunks] makes the tables of their chunks, [scan] the
    metadata of the tree, and the reader, with its checks, finds every entry and
    reads the contents of every file. *)

From S2P Require Import Prelude OffsetCache InodeReader FileRange Segmenter FileView PackedInts StringTable FileChunks Metadata MetadataReader MetadataSafety EntryTree MetadataBuilder EntryLists TreeTables EntryData EntryTables GatheredMetadata BuiltMetadata RecoveredDirectories OpenedTree DirectoryTree TreeAttributes SortedTree TreeRoundtrip CheckedTables CheckedTree Categorizer InodeManager InodeOrdering EndToEnd Blockify StoredChunks StoredInodes.
Local Open Scope Z_scope.

#[local] Abbreviation checked := (result metadata_error).

(** ** Chunks that are written *)

Lemma size_written bm c : size (written bm c) = size c /\ is_hole (written bm c) = is_hole c.
Proof. unfold written. destruct (is_hole c) eqn:E; by rewrite ?E. Qed.

Lemma sums_written bm cs : sum_sizes (map (written bm) cs) = sum_sizes cs /\ sum_data_sizes (map (written bm) cs) = sum_data_sizes cs.
Proof.
  induction cs as [|c cs [IH1 IH2]]; [done|]. destruct (size_written bm c) as [E1 E2]. unfold sum_sizes, sum_data_sizes in *. cbn [map foldr]. by rewrite E1, E2, IH1, IH2.
Qed.

Lemma chunk_in_size num blocks sparse c : chunk_in num blocks sparse c -> zlen (FileChunks.chunk_bytes blocks c) = size c.
Proof.
  intros [Hp [[_ Hh]|[Hd Hl]]]; unfold FileChunks.chunk_bytes.
  - rewrite (proj1 (hole_ok_spec c Hh)). unfold zlen. rewrite length_replicate. lia.
  - rewrite (proj1 (data_ok_spec _ _ Hd)). apply slice_length; [apply Hd|lia|done].
Qed.

Lemma chunks_in_sums num blocks sparse cs : Forall (chunk_in num blocks sparse) cs ->
  sum_sizes cs = zlen (concat (map (FileChunks.chunk_bytes blocks) cs)) /\ 0 <= sum_data_sizes cs <= sum_sizes cs.
Proof.
  induction 1 as [|c cs Hc _ [IH1 IH2]]; [done|]. cbn [map concat]. rewrite zlen_app, (chunk_in_size num _ sparse) by done. unfold sum_sizes, sum_data_sizes in *. cbn [foldr].
  destruct Hc as [Hp _]. split; [lia|]. destruct (is_hole c); lia.
Qed.

(** ** What is read through the metadata *)

Definition file_chunks {decoder} (d : metadata_v2_data (decoder := decoder)) (ino : Z) : list chunk :=
  match get_chunks d ino with
  | Ok (Some range) => match chunks_of_range d range with Ok cs => cs | Err _ => [] end
  | _ => []
  end.

Section whole.
Context {encoder decoder : Type} (fsst_create : list (list Z) -> encoder) (fsst_export : encoder -> list Z)
  (fsst_compress : encoder -> list (list Z) -> Z -> list (list Z))
  (fsst_import : list Z -> Z * decoder) (fsst_decompress : decoder -> list Z -> Z -> list Z)
  `{!Fsst fsst_create fsst_export fsst_compress fsst_import fsst_decompress}.
Context (frozen_string_table_size : list (list Z) -> Z) (fuel : nat).
Context (root : entry) (options : writer_options) (finalize : Z -> checked (Z * file_numbers)) (ro : metadata_options) (inode_offset : Z).
Context (f_data : nat -> nat) (f_size : nat -> Z) (open_inode_file : nat -> option file_view).
Context (order : manager -> fragment_category -> checked (list nat)) {Horder : SpanOrder order}.
Context (cfg : fragment_category -> segmenter_config) (granularity : fragment_category -> Z) (logical_block : fragment_category -> nat -> Z).
Context (k : Z) (sparse : bool) (m0 : manager) (categories : list fragment_category).

#[local] Abbreviation content := (inode_content f_data f_size open_inode_file m0).
#[local] Abbreviation holds i data := (data ∈ map f_data (ino_files_ i)).

(** The inodes of the files of a tree, after the scan, and before blocks are
    built: they have the numbers that [finalize] gives their data. *)
Record tree_inodes : Prop := {
  ti_ready : inodes_ready f_data f_size open_inode_file granularity m0;
  ti_fresh : forall i f, i ∈ inodes_ m0 -> f ∈ ino_fragments_ i -> chunks_ f.2 = [];
  ti_views : forall i v, i ∈ inodes_ m0 -> mapped_view f_data f_size open_inode_file m0 i = Some v -> fv_size v < 2 ^ 63;
  ti_categories : forall i c, i ∈ inodes_ m0 -> c ∈ (ino_fragments_ i).*1 -> c ∈ categories;
  ti_nums : map (fun i => default (-1) (ino_num_ i)) (inodes_ m0) ≡ₚ seqZ 0 (zlen (inodes_ m0));
  ti_few : zlen (inodes_ m0) < 2 ^ 31 - 1;
  ti_files : forall dev fn e data u, finalize (first_file_of root) = Ok (dev, fn) -> File e data ∈ preorder root -> unique_file_ids fn !! data = Some u ->
    exists i, i ∈ inodes_ m0 /\ ino_num_ i = Some u /\ holds i data;
  ti_rows : forall dev fn i, finalize (first_file_of root) = Ok (dev, fn) -> i ∈ inodes_ m0 ->
    exists e data, File e data ∈ preorder root /\ unique_file_ids fn !! data = ino_num_ i
}.

(** The options of the segmenters. *)
Record segmenters_ok : Prop := {
  sg_cfg : forall c, cfg_ok (cfg c) (granularity c);
  sg_bits : forall c, block_size_bits (cfg c) = k;
  sg_sparse : forall c, Segmenter.enable_sparse_files (cfg c) = sparse;
  sg_numbers : forall c c' i j, logical_block c i = logical_block c' j -> c = c' /\ i = j
}.

Context (Htree : tree_ok root) (Hchain : chain_ok (chmod_chain options)) (Hfin : FinalizesFiles root finalize) (Hstrings : strings_fit root options).
Context (Hcheck : check_consistency ro = false) (Hsparse : MetadataReader.enable_sparse_files ro = true).
Context (Hfuel : (5 <= fuel)%nat) (Hdirs : zlen (preorder root) <= Z.of_nat fuel) (Hfrozen : forall v, v <> [] -> frozen_string_table_size v = total_bytes v).
Context (Hino : tree_inodes) (Hseg : segmenters_ok) (Hcat : NoDup categories) (Hk : 0 <= k < 32).

(** The inode that has the data. *)
Definition data_at (data : nat) : option nat :=
  hd_error (base.filter (fun j => from_option (fun i => bool_decide (holds i data)) false (inodes_ m0 !! j) = true) (seq 0 (length (inodes_ m0)))).

Lemma data_at_inode j i data : inodes_ m0 !! j = Some i -> holds i data -> data_at data = Some j.
Proof.
  intros Hj Hd. unfold data_at. set (P := fun j => from_option _ false (inodes_ m0 !! j) = true).
  assert (P j) as Hp by (unfold P; rewrite Hj; cbn; by rewrite bool_decide_true).
  assert (forall j', P j' -> j' = j) as Hu.
  { intros j' Hp'. unfold P in Hp'. destruct (inodes_ m0 !! j') as [i'|] eqn:Hj'; [|done]. cbn in Hp'. apply bool_decide_eq_true in Hp'.
    apply list_elem_of_fmap in Hd as (p & -> & Hq). apply list_elem_of_fmap in Hp' as (q & E & Hq'). by apply (ir_apart _ _ _ _ _ (ti_ready Hino) j' j i' i q p). }
  assert (j ∈ base.filter P (seq 0 (length (inodes_ m0)))) as Hin by (apply list_elem_of_filter; split; [done|]; apply elem_of_seq; apply lookup_lt_Some in Hj; lia).
  destruct (base.filter P _) as [|j' l] eqn:E; [by apply elem_of_nil in Hin|]. cbn. f_equal. apply Hu.
  assert (j' ∈ base.filter P (seq 0 (length (inodes_ m0)))) as H by (rewrite E; by left). by apply list_elem_of_filter in H as [? _].
Qed.

Section built.
Context (m : manager) (blocks : list (Z * list Z)).
Context (Hbuilt : built f_data f_size open_inode_file cfg granularity m0 (fun _ => true) blocks m) (Hnd : NoDup blocks.*1)
  (Hblocks : Forall (fun e => exists c, stored_ok (cfg c) (granularity c) e) blocks).
Context (bm : block_manager) (stored : Z -> list Z) (Hnum : 0 <= num_blocks_ bm < 2 ^ 32 - 1) (Hbm : blocks_written bm) (Hst : stored_at bm blocks stored).

#[local] Abbreviation L := (logical_data blocks).

(** The chunks that an inode has in the end. *)
Definition chunks_at_inode (j : nat) : list chunk := map (written bm) (inode_chunks (from_option fragments_of [] (inodes_ m !! j))).

Definition contents (data : nat) : list chunk := from_option chunks_at_inode [] (data_at data).

Lemma stored_inode j i0 : inodes_ m0 !! j = Some i0 -> exists i, inodes_ m !! j = Some i /\ ino_num_ i = ino_num_ i0 /\
  Forall (chunk_in (num_blocks_ bm) L sparse) (concat (map chunks_ (fragments_of i))) /\ concat (map (FileChunks.chunk_bytes L) (inode_chunks (fragments_of i))) = content i0.
Proof.
  intros Hj. destruct (inode_stored f_data f_size open_inode_file cfg granularity sparse (sg_sparse Hseg) (sg_cfg Hseg) blocks bm stored Hnum Hnd Hst Hblocks m0 m (ti_ready Hino) Hbuilt
    (ti_fresh Hino) (ti_views Hino) j i0 Hj) as (i & H1 & H2 & _ & H3 & H4). by exists i.
Qed.

Lemma inode_content_size i : i ∈ inodes_ m0 -> zlen (content i) < 2 ^ 63.
Proof.
  intros Hi. unfold inode_content. destruct (mapped_view f_data f_size open_inode_file m0 i) as [v|] eqn:Ev; [|done]. cbn [from_option].
  destruct (ir_views _ _ _ _ _ (ti_ready Hino) i v Hi Ev) as [Hv _]. rewrite shown_length by done. by apply (ti_views Hino i).
Qed.

(** The chunks of an inode, as they are written: their bytes are the contents. *)
Lemma written_inode j i0 : inodes_ m0 !! j = Some i0 ->
  Forall (chunk_valid stored) (chunks_at_inode j) /\ file_bytes stored (chunks_at_inode j) = content i0 /\ sum_sizes (chunks_at_inode j) = zlen (content i0) /\
  0 <= sum_data_sizes (chunks_at_inode j) <= sum_sizes (chunks_at_inode j).
Proof.
  intros Hj. destruct (stored_inode j i0 Hj) as (i & Hi & _ & Hin & Hb). unfold chunks_at_inode. rewrite Hi. cbn [from_option].
  assert (Forall (chunk_in (num_blocks_ bm) L sparse) (inode_chunks (fragments_of i))) as Hc by (unfold inode_chunks; destruct (forallb _ _); [done|constructor]).
  destruct (chunks_in_sums _ _ _ _ Hc) as [S1 S2]. destruct (sums_written bm (inode_chunks (fragments_of i))) as [-> ->]. rewrite S1, Hb in *.
  pose proof (written_chunks (cfg default_category) blocks bm stored Hst (inode_chunks (fragments_of i))) as W. rewrite (sg_sparse Hseg) in W.
  destruct (W Hc) as [W1 W2]. rewrite W2. done.
Qed.

(** *** The tables *)

Context (ord : list nat) (Eord : in_order (inodes_ m) = Ok ord) (Hlen : zlen (concat (map inode_chunks (inodes_in ord m))) < 2 ^ 32).

Lemma complete_built : Forall complete (inodes_ m).
Proof. by apply (built_complete f_data f_size open_inode_file cfg granularity m0 (ti_ready Hino) (fun _ => true) blocks). Qed.

Lemma nums_built : map (fun i => default (-1) (ino_num_ i)) (inodes_ m) = map (fun i => default (-1) (ino_num_ i)) (inodes_ m0).
Proof.
  apply list_eq. intros j. rewrite !list_lookup_fmap. destruct (inodes_ m0 !! j) as [i0|] eqn:Hj.
  - destruct (stored_inode j i0 Hj) as (i & -> & E & _). cbn. by rewrite E.
  - assert (inodes_ m !! j = None) as ->; [|done]. apply lookup_ge_None_2. destruct Hbuilt as [-> _]. by apply lookup_ge_None_1.
Qed.

Lemma length_built : length (inodes_ m) = length (inodes_ m0).
Proof. by destruct Hbuilt as [-> _]. Qed.

(** The inodes are gathered by their numbers. *)
Lemma gathered_order : length ord = length (inodes_ m0) /\ forall u j, ord !! u = Some j -> exists i0, inodes_ m0 !! j = Some i0 /\ ino_num_ i0 = Some (Z.of_nat u).
Proof.
  destruct (in_order_numbers (inodes_ m) complete_built) as (ord' & E & Hl & H); [rewrite nums_built; unfold zlen; rewrite length_built; apply Hino|].
  rewrite Eord in E. injection E as <-. split; [by rewrite Hl, length_built|]. intros u j Hj. destruct (H u j Hj) as (i & Hi & En).
  destruct (lookup_lt_is_Some_2 (inodes_ m0) j) as [i0 Hi0]; [rewrite <- length_built; by eapply lookup_lt_Some|]. exists i0. split; [done|].
  destruct (stored_inode j i0 Hi0) as (i' & Hi' & E & _). congruence.
Qed.

Lemma inodes_in_lookup u fs : inodes_in ord m !! u = Some fs -> exists j i0 i, ord !! u = Some j /\ inodes_ m0 !! j = Some i0 /\ ino_num_ i0 = Some (Z.of_nat u) /\
  inodes_ m !! j = Some i /\ fs = fragments_of i.
Proof.
  unfold inodes_in. rewrite list_lookup_fmap. destruct (ord !! u) as [j|] eqn:Hu; [|done]. destruct (proj2 gathered_order u j Hu) as (i0 & Hi0 & En).
  destruct (stored_inode j i0 Hi0) as (i & Hi & _). cbn. rewrite Hi. intros [= <-]. by exists j, i0, i.
Qed.

Lemma fragments_in_blocks : Forall (fun fs => Forall (chunk_in (num_blocks_ bm) L sparse) (concat (map chunks_ fs))) (inodes_in ord m).
Proof.
  apply Forall_lookup. intros u fs Hu. destruct (inodes_in_lookup u fs Hu) as (j & i0 & i & _ & Hi0 & _ & Hi & ->).
  destruct (stored_inode j i0 Hi0) as (i' & Hi' & _ & H & _). congruence.
Qed.

Lemma inodes_in_length : zlen (inodes_in ord m) = zlen (inodes_ m0).
Proof. unfold zlen, inodes_in. rewrite length_map. by rewrite (proj1 gathered_order). Qed.

Lemma logical_size n : zlen (L n) <= 2 ^ k.
Proof.
  destruct (decide (L n = [])) as [->|Hne]; [change (zlen []) with 0; lia|]. apply logical_data_some in Hne. rewrite Forall_forall in Hblocks. destruct (Hblocks _ Hne) as [c Hc].
  pose proof (stored_ok_size _ _ _ (sg_cfg Hseg c) Hc) as [H _]. by rewrite (sg_bits Hseg) in H.
Qed.

Context (w : Z) (hm : option hole_mapper) (vss : list (list meta_chunk)) (Hm : made k bm (inodes_in ord m) w hm vss).

#[local] Abbreviation files := (tables_of k bm hm vss).

(** The row of an inode. *)
Lemma row_of j i0 u : inodes_ m0 !! j = Some i0 -> ino_num_ i0 = Some u -> 0 <= u < zlen (inodes_ m0) /\ chunks_at files u (chunks_at_inode j).
Proof.
  intros Hj En. pose proof (ti_nums Hino) as Hp. assert (u ∈ seqZ 0 (zlen (inodes_ m0))) as Hu.
  { rewrite <- Hp. apply list_elem_of_fmap. exists i0. rewrite En. split; [done|by eapply list_elem_of_lookup_2]. }
  apply elem_of_seqZ in Hu. split; [lia|]. destruct gathered_order as [Hl Ho]. destruct (lookup_lt_is_Some_2 ord (Z.to_nat u)) as [j' Hj']; [unfold zlen in *; lia|].
  destruct (Ho _ _ Hj') as (i1 & Hi1 & En1). assert (j' = j) as ->.
  { assert (NoDup (map (fun i => default (-1) (ino_num_ i)) (inodes_ m0))) as Hnn by (rewrite Hp; apply NoDup_seqZ).
    eapply (proj1 (NoDup_alt _) Hnn j' j u); rewrite list_lookup_fmap; [rewrite Hi1|rewrite Hj]; cbn; rewrite ?En1, ?En; cbn; f_equal; lia. }
  destruct (stored_inode j i0 Hj) as (i & Hi & _ & Hin & Hb). destruct (written_inode j i0 Hj) as (_ & _ & Hs & Hd). pose proof (inode_content_size i0 (list_elem_of_lookup_2 _ _ _ Hj)) as Hz.
  assert (inodes_in ord m !! Z.to_nat u = Some (fragments_of i)) as Hfs by (unfold inodes_in; rewrite list_lookup_fmap, Hj'; cbn; by rewrite Hi).
  assert (zlen (inodes_in ord m) < 2 ^ 31 - 1) as Hfew by (rewrite inodes_in_length; apply Hino).
  destruct (made_inode k bm (inodes_in ord m) Hk Hnum Hbm Hfew w hm vss _ _ Hm Hfs) as (r & R1 & R2 & R3).
  rewrite Z2Nat.id in R1, R3 by lia. unfold chunks_at_inode in *. rewrite Hi in *. cbn [from_option] in *. destruct (sums_written bm (inode_chunks (fragments_of i))) as [S1 S2]. rewrite S1, S2 in *.
  pose proof (zlen_nonneg (content i0)). split; [by exists r|]. rewrite R3, S1, S2, !wrapu_small by (unfold in_u; lia). unfold zlen. by rewrite length_map.
Qed.

Lemma contents_inode j i0 data : inodes_ m0 !! j = Some i0 -> holds i0 data -> contents data = chunks_at_inode j.
Proof. intros Hj Hd. unfold contents. by rewrite (data_at_inode j i0 data Hj Hd). Qed.

Lemma tree_packable : packable root options finalize files contents.
Proof.
  assert (forall dev fn e data u, finalize (first_file_of root) = Ok (dev, fn) -> File e data ∈ preorder root -> unique_file_ids fn !! data = Some u ->
    exists j i0, inodes_ m0 !! j = Some i0 /\ ino_num_ i0 = Some u /\ holds i0 data) as Hf.
  { intros dev fn e data u Ef Hn Hu. destruct (ti_files Hino dev fn e data u Ef Hn Hu) as (i0 & [j Hj]%list_elem_of_lookup & En & Hd). by exists j, i0. }
  split; try done.
  - by apply (stored_table_fits k bm (inodes_in ord m) Hlen w).
  - intros dev fn e data u Ef Hn Hu. destruct (Hf dev fn e data u Ef Hn Hu) as (j & i0 & Hj & En & Hd). rewrite (contents_inode j i0 data Hj Hd). by apply (row_of j i0).
  - intros e data Hn. unfold contents. destruct (data_at data) as [j|] eqn:Ej; [|done]. cbn [from_option]. unfold chunks_at_inode, zlen. rewrite length_map.
    destruct (inodes_ m !! j) as [i|] eqn:Hi; [|done]. cbn [from_option].
    destruct (in_order_spec (inodes_ m) complete_built) as (ord' & E & Hp & _). rewrite Eord in E. injection E as <-.
    assert (j ∈ ord) as [u Hu]%list_elem_of_lookup by (rewrite Hp; apply elem_of_seq; apply lookup_lt_Some in Hi; lia).
    assert (inodes_in ord m !! u = Some (fragments_of i)) as Hin by (unfold inodes_in; rewrite list_lookup_fmap, Hu; cbn; by rewrite Hi).
    destruct (concat_take_lookup (map inode_chunks (inodes_in ord m)) u (inode_chunks (fragments_of i))) as [E _]; [by rewrite list_lookup_fmap, Hin|].
    rewrite E, !zlen_app in Hlen. pose proof (zlen_nonneg (concat (take u (map inode_chunks (inodes_in ord m))))). pose proof (zlen_nonneg (concat (drop (S u) (map inode_chunks (inodes_in ord m))))).
    unfold zlen in *. lia.
Qed.

Lemma tree_checkable : checkable root options finalize files.
Proof.
  split; [done|by apply (stored_files_fit sparse k bm L (inodes_in ord m) Hk Hnum Hbm logical_size fragments_in_blocks Hlen w)|].
  intros dev fn u Ef Hu. rewrite (stored_table_length k bm (inodes_in ord m) w hm vss Hm), inodes_in_length in Hu.
  destruct gathered_order as [Hl Ho]. destruct (lookup_lt_is_Some_2 ord (Z.to_nat u)) as [j Hj]; [unfold zlen in *; lia|]. destruct (Ho _ _ Hj) as (i0 & Hi0 & En).
  destruct (ti_rows Hino dev fn i0 Ef (list_elem_of_lookup_2 _ _ _ Hi0)) as (e & data & Hn & Eu). exists e, data. split; [done|]. rewrite Eu, En. f_equal. lia.
Qed.
(** *** The opened metadata *)

Section mounted.
Context (a : assigned) (g : global_entry_data) (groups : list nat) (meta : fs_metadata) (d : metadata_v2_data (decoder := decoder)).
Context (Hmounted : mounted fsst_import fsst_decompress root options finalize files contents ro inode_offset a g groups meta d).

(** A range is that of a row. *)
Lemma range_in_files u r : get_chunk_range_from_index d u = Ok (Some r) -> FileChunks.get_chunk_range_from_index files u = Some r.
Proof.
  destruct Hmounted as [_ _ Hb Ho _ _ _ _ _ _]. unfold get_chunk_range_from_index, FileChunks.get_chunk_range_from_index. rewrite (op_meta _ _ _ _ _ _ _ _ _ _ Ho), (bt_files _ _ _ _ _ _ _ _ _ Hb).
  cbn [md_chunk_table]. assert (zlen (if pack_chunk_table options then adjacent_difference (md_chunk_table files) else md_chunk_table files) = zlen (md_chunk_table files)) as ->.
  { destruct (pack_chunk_table options); [|done]. unfold zlen. by rewrite length_adjacent_difference. }
  pose proof (stored_table_length k bm (inodes_in ord m) w hm vss Hm) as Hl. rewrite inodes_in_length in Hl. pose proof (ti_few Hino) as Hfew. pose proof (zlen_nonneg (inodes_ m0)).
  unfold to_int. rewrite wraps_small by (unfold in_s; lia). destruct (Z.leb_spec 0 u) as [H0|]; [|done]. destruct (Z.ltb_spec (u + 1) (zlen (md_chunk_table files))) as [H1|]; [|done]. cbn [andb].
  destruct (lookup_lt_is_Some_2 (md_chunk_table files) (Z.to_nat u)) as [b Eb]; [unfold zlen in *; lia|]. destruct (lookup_lt_is_Some_2 (md_chunk_table files) (Z.to_nat (u + 1))) as [e Ee]; [unfold zlen in *; lia|].
  pose proof (op_chunk_table _ _ _ _ _ _ _ _ _ _ Ho _ _ Eb) as C1. pose proof (op_chunk_table _ _ _ _ _ _ _ _ _ _ Ho _ _ Ee) as C2. rewrite Z2Nat.id in C1, C2 by lia.
  rewrite C1. cbn [rbind]. rewrite C2. cbn [rbind]. intros [= <-]. by rewrite Eb, Ee.
Qed.

(** Whatever inode is read, its chunks are valid. *)
Lemma file_chunks_valid ino : Forall (chunk_valid stored) (file_chunks d ino).
Proof.
  unfold file_chunks, get_chunks, get_chunk_range. destruct (file_inode_to_chunk_index d _) as [u|]; [|done]. cbn [rbind].
  destruct (get_chunk_range_from_index d u) as [[[b e]|]|] eqn:Er; [|done..]. apply range_in_files in Er. pose proof Er as Hr.
  destruct (decide (0 <= u < zlen (inodes_ m0))) as [Hu|Hu].
  - destruct gathered_order as [Hl Ho]. destruct (lookup_lt_is_Some_2 ord (Z.to_nat u)) as [j Hj]; [unfold zlen in *; lia|]. destruct (Ho _ _ Hj) as (i0 & Hi0 & En). rewrite Z2Nat.id in En by lia.
    destruct (row_of j i0 u Hi0 En) as [_ Hrow]. destruct Hmounted as [_ _ Hb Hop _ _ _ _ _ _].
    destruct (chunk_range_ok (sort_tree root) a options g fsst_import fsst_decompress files groups meta Hb ro inode_offset d Hop u _ Hrow) as (b' & e' & _ & Hr' & Hbe & _ & Hcs).
    rewrite Hr in Hr'. injection Hr' as <- <-. pose proof (range_start files (stored_table_fits k bm (inodes_in ord m) Hlen w hm vss Hm) _ _ _ Hr) as H0.
    rewrite (chunks_of_range_ok (sort_tree root) a options g fsst_import fsst_decompress files groups meta Hb ro inode_offset d Hop _ _ _ (conj H0 Hbe) Hcs). by apply (written_inode j i0).
  - rewrite (made_outside k bm (inodes_in ord m)) with (w := w) in Hr; [done|rewrite inodes_in_length; apply Hino|done|by rewrite inodes_in_length].
Qed.

(** A file has the bytes of its inode. *)
Lemma file_found e data iv ino range : File e data ∈ preorder root -> open_file d iv = Ok (Some ino) -> get_chunks d (ino + inode_offset) = Ok (Some range) ->
  chunks_of_range d range = Ok (contents data) -> exists i, i ∈ inodes_ m0 /\ holds i data /\ file_bytes stored (file_chunks d (ino + inode_offset)) = content i /\ sum_sizes (contents data) = zlen (content i).
Proof.
  intros Hn _ Hr Hc. unfold file_chunks. rewrite Hr, Hc. destruct Hmounted as [Ha _ _ _ Htg _ _ _ _ Ef]. apply sorted_file in Hn as Hs.
  destruct (file_number (sort_tree root) a Ha g e data Hs) as [_ Hfn]. pose proof (Htg e data _ Hs Hfn) as Hu.
  destruct (ti_files Hino _ _ e data _ Ef Hn Hu) as (i & Hi & _ & Hd). exists i. split; [done|]. split; [done|]. apply list_elem_of_lookup in Hi as [j Hj].
  rewrite (contents_inode j i data Hj Hd). destruct (written_inode j i Hj) as (_ & H1 & H2 & _). by split.
Qed.
End mounted.
End built.

(** What is found of an entry: as [tree_roundtrip] says, and of a file the bytes it
    has. *)
Definition entry_found (has_bytes : entry_head -> nat -> list Z -> Prop) (contents : nat -> list chunk) (stored : Z -> list Z) (d : metadata_v2_data (decoder := decoder))
    (dv : dir_entry_view) (n : entry) : Prop :=
  exists iv st, dv_inode (global_ d) dv = Ok iv /\ getattr fsst_decompress d iv false = Ok st /\
    st = stat_of root options contents ro (iv_inode_num iv + inode_offset) n /\ contents_shown fsst_decompress contents inode_offset d iv n /\
    forall e data, n = File e data -> exists x ino, has_bytes e data x /\ open_file d iv = Ok (Some ino) /\
      st_size st = zlen x /\ file_bytes stored (file_chunks d (ino + inode_offset)) = x.

(** The whole way: the blocks are built, the tables of chunks and the metadata made
    and opened with the checks, every path looked up, and any sequence of reads
    answered. *)
Definition read_back (has_bytes : entry_head -> nat -> list Z -> Prop) : Prop := exists m blocks,
  build_blocks f_data f_size open_inode_file order cfg granularity logical_block categories m0 = Ok (m, blocks) /\
  forall bm stored, 0 <= num_blocks_ bm < 2 ^ 32 - 1 -> blocks_written bm -> stored_at bm blocks stored ->
  exists ord, in_order (inodes_ m) = Ok ord /\ (zlen (concat (map inode_chunks (inodes_in ord m))) < 2 ^ 32 ->
  exists files meta d contents, gather_chunks sparse (2 ^ k) bm (inodes_in ord m) = Ok files /\
    scan fsst_create fsst_export fsst_compress fuel options finalize files root = Ok meta /\
    metadata_v2_data_create fsst_import frozen_string_table_size fuel meta ro inode_offset true = Ok d /\
    (forall names, Forall good_name names ->
      match lookup_path root names with
      | None => find_path fsst_decompress d (path_of names) = Ok None
      | Some n => exists dv, find_path fsst_decompress d (path_of names) = Ok (Some dv) /\ entry_found has_bytes contents stored d dv n
      end) /\
    forall (get : Z -> Z -> Z -> result unit (list Z)) hole_data_size error_code readahead calls,
      ReadsBlocks get stored -> 0 < hole_data_size -> Forall call_ok calls ->
      exists answers rd, run_reads get hole_data_size (file_chunks d) error_code readahead calls reader_create = (Ok answers, rd) /\
        Forall2 (call_answer stored (file_chunks d)) calls answers).

Lemma read_back_bytes (P Q : entry_head -> nat -> list Z -> Prop) : (forall e data x, File e data ∈ preorder root -> P e data x -> Q e data x) -> read_back P -> read_back Q.
Proof.
  intros H (m & blocks & E & Hb). exists m, blocks. split; [done|]. intros bm stored Hnum Hbm Hst. destruct (Hb bm stored Hnum Hbm Hst) as (ord & Eord & Hr). exists ord. split; [done|]. intros Hlen.
  destruct (Hr Hlen) as (files & meta & d & contents & Eg & Es & Ec & Hfind & Hread). exists files, meta, d, contents. do 3 (split; [done|]). split; [|done]. intros names Hn. specialize (Hfind names Hn).
  destruct (lookup_path root names) as [n|] eqn:El; [|done]. destruct Hfind as (dv & Hdv & iv & st & H1 & H2 & H3 & H4 & H5). exists dv. split; [done|]. exists iv, st. do 4 (split; [done|]).
  intros e data ->. destruct (H5 e data eq_refl) as (x & ino & Hx & Hrest). exists x, ino. split; [|done]. apply H; [|done]. exact (lookup_path_preorder root root names _ (preorder_self root) El).
Qed.

(** The bytes of the inode that has the data. *)
Definition inode_bytes (_ : entry_head) (data : nat) (x : list Z) : Prop := exists i, i ∈ inodes_ m0 /\ holds i data /\ x = content i.

Lemma tree_read_back : read_back inode_bytes.
Proof.
  destruct (build_blocks_spec f_data f_size open_inode_file order cfg granularity logical_block m0 categories (sg_cfg Hseg) (sg_numbers Hseg) Horder (ti_ready Hino) Hcat (ti_categories Hino))
    as (m & blocks & E & Hb & Hnd & Hblocks).
  exists m, blocks. split; [done|]. intros bm stored Hnum Hbm Hst. destruct (in_order_spec (inodes_ m) (complete_built m blocks Hb)) as (ord & Eord & _). exists ord. split; [done|]. intros Hlen.
  pose proof (fragments_in_blocks m blocks Hb Hnd Hblocks bm stored Hnum Hst ord Eord) as Hfr. pose proof (inodes_in_length m blocks Hb Hnd Hblocks bm stored Hnum Hst ord Eord) as Hn.
  destruct (gather_chunks_made sparse k bm (inodes_in ord m) Hk Hnum Hbm) as (w & hm & vss & Hm & Eg); [|done|].
  { eapply Forall_impl; [exact Hfr|]. intros fs Hfs. eapply Forall_impl; [exact Hfs|]. by intros c [_ [[? ?]|[? _]]]; [left|right]. }
  pose proof (tree_packable m blocks Hb Hnd Hblocks bm stored Hnum Hbm Hst ord Eord Hlen w hm vss Hm) as Hp. pose proof (tree_checkable m blocks Hb Hnd Hblocks bm stored Hnum Hbm Hst ord Eord Hlen w hm vss Hm) as Hck.
  destruct (scan_mounted fsst_create fsst_export fsst_compress fsst_import fsst_decompress frozen_string_table_size fuel root options finalize _ _ ro inode_offset Hp Hcheck Hfuel Hdirs)
    as (a & g & groups & meta & d & Es & Ec & Hmo).
  eexists _, meta, d, _. split; [exact Eg|]. split; [exact Es|]. split; [|split].
  - apply create_checked; [done| |].
    + by apply (metadata_passes fsst_import fsst_decompress frozen_string_table_size fuel root options finalize _ _ ro inode_offset Hp Hfuel Hck Hfrozen a g groups meta d).
    + by apply (size_cache_passes fsst_import fsst_decompress fuel root options finalize _ _ ro inode_offset Hp Hsparse Hfuel Hck a g groups meta).
  - intros names Hnames. pose proof (find_sorted fsst_import fsst_decompress root options finalize _ _ ro inode_offset Hp a g groups meta d Hmo names Hnames) as Hf.
    destruct (lookup_path root names) as [n|] eqn:El; [|done]. pose proof (lookup_path_preorder root root names n (preorder_self root) El) as Hin.
    destruct (attributes_ok fsst_import fsst_decompress fuel root options finalize _ _ ro inode_offset Hp Hfuel a g groups meta d Hmo n Hin) as (iv & st & Hv & _ & Hst' & Ess & Hc).
    exists (view_of (sort_tree root) a g (sort_tree n)). split; [done|]. exists iv, st. do 4 (split; [done|]). intros e data ->. destruct Hc as (ino & range & H1 & H2 & H3).
    destruct (file_found m blocks Hb Hnd Hblocks bm stored Hnum Hst hm vss a g groups meta d Hmo e data iv ino range Hin H1 H2 H3) as (i & Hi & Hd & Hbytes & Hsz).
    exists (content i), ino. split; [by exists i|]. split; [done|]. split; [|done]. rewrite Ess, <- Hsz. cbn. by rewrite sum_chunks_sums.
  - intros get hole error_code readahead calls Hget Hhole Hcalls. apply (run_reads_ok get stored hole Hhole (file_chunks d)); [|done].
    apply (file_chunks_valid m blocks Hb Hnd Hblocks bm stored Hnum Hbm Hst ord Eord Hlen w hm vss Hm a g groups meta d Hmo).
Qed.

(** C2: What is written of a tree with its files is what is read of it.  When the
    inodes of a tree have the numbers of their files, the segmenters of all
    categories cut their fragments into blocks without failing; wherever the
    blocks then are in the file system, the tables of chunks and the metadata are
    built of them, pass all checks of the reader and open; there a path is found
    exactly when the tree has it, with the attributes of its entry, and for a file
    its size and its chunks are those of the bytes that the file of its inode
    shows (of none, if no file of the inode can be mapped); and any sequence of
    reads of any inodes returns exactly these bytes. *)
Theorem tree_files_roundtrip : read_back inode_bytes.
Proof. apply tree_read_back. Qed.
End whole.

(** ** An example *)

(** The tree of [TreeRoundtrip]: its two contents are those of the inodes; the
    second has a hole, and one of its files cannot be opened. *)
Module WholeSample.
Definition f_data (p : nat) : nat := match p with 1 => 2 | 4 => 3 | _ => 1 end%nat.
Definition f_size (p : nat) : Z := match p with 1%nat | 4%nat => 9 | _ => 6 end.

Definition first_view : file_view := FileView [1; 2; 3; 4; 5; 6] [ExtentInfo extent_data (FileRange 0 6)].
Definition second_view : file_view := FileView [7; 8; 9; 10; 0; 0; 0; 0; 0] [ExtentInfo extent_data (FileRange 0 4); ExtentInfo extent_hole (FileRange 4 5)].

Definition open_sample (p : nat) : option file_view := match p with 1%nat => Some second_view | 4%nat => None | _ => Some first_view end.

Definition second_inode : inode := Inode (Some 1) [(default_category, data_fragment 9)] [4%nat; 1%nat] None.
Definition first_inode : inode := Inode (Some 0) [(default_category, data_fragment 6)] [2%nat; 3%nat] None.
Definition inodes : list inode := [second_inode; first_inode].

Definition order (m : manager) (c : fragment_category) : checked (list nat) :=
  ordered_span f_data f_size (fun _ => []) (fun _ => []) Z.of_nat (fun _ => None) (fun _ => None) (fun _ => false) id None false (inodes_ m) (invalid_ m) order_none c.

#[global] Instance order_spans : SpanOrder order.
Proof.
  exact (ordered_span_order f_data f_size (fun _ => []) (fun _ => []) Z.of_nat (fun _ => None) (fun _ _ => None) (fun _ _ => false) id None false (fun _ => order_none)
    (fun _ H => ltac:(discriminate H)) (fun l => Permutation_refl l)).
Defined.

Definition logical_block (c : fragment_category) (i : nat) : Z :=
  if decide (c = default_category) then 2 * Z.of_nat i else 2 * Zpos (encode (c, i)) + 1.

Lemma logical_block_inj c c' i j : logical_block c i = logical_block c' j -> c = c' /\ i = j.
Proof.
  unfold logical_block. destruct (decide (c = default_category)) as [->|], (decide (c' = default_category)) as [->|]; intros E; try lia; [split; [done|lia]|].
  assert (encode (c, i) = encode (c', j)) as H by lia. apply (inj encode) in H. by injection H as -> ->.
Qed.

Definition manager0 : manager := Manager inodes ∅ 0.

#[local] Abbreviation cut := (build_blocks f_data f_size open_sample order (fun _ => witness_config) (fun _ => 1) logical_block [default_category] manager0).

Definition logical : list (Z * list Z) := [(0, [7; 8; 9; 10; 1; 2; 3; 4; 5; 6])].
Definition stored (w : Z) : list Z := logical_data logical w.
Definition blocks : block_manager := BlockManager 1 [Some 0].
Definition get (b o n : Z) : result unit (list Z) := Ok (slice (stored b) o n).

#[global] Instance get_reads : ReadsBlocks get stored.
Proof. split. done. Defined.

Lemma cut_blocks : match cut with Ok (_, b) => b = logical | Err _ => False end.
Proof. vm_compute. reflexivity. Qed.

Lemma tree_blocks_ok : blocks_written blocks /\ stored_at blocks logical stored.
Proof.
  split.
  - intros b Hb. change (num_blocks_ blocks) with 1 in *. assert (b = 0) as -> by lia. exists 0. split; [done|lia].
  - intros n x Hin. apply list_elem_of_singleton in Hin as [= -> ->]. change (num_blocks_ blocks) with 1. split; [lia|]. by exists 0.
Qed.

Lemma second_mapped : mapped_view f_data f_size open_sample manager0 second_inode = Some second_view.
Proof. vm_compute. reflexivity. Qed.

Lemma first_mapped : mapped_view f_data f_size open_sample manager0 first_inode = Some first_view.
Proof. vm_compute. reflexivity. Qed.

Lemma in_inodes (P : inode -> Prop) : Forall P inodes -> forall i, i ∈ inodes -> P i.
Proof. intros H i Hi. rewrite Forall_forall in H. by apply H. Qed.

Lemma inodes_ready_sample : inodes_ready f_data f_size open_sample (fun _ => 1) manager0.
Proof.
  split.
  - repeat (apply List.Forall_cons; [split; [by eexists|done]|]). constructor.
  - intros i p q Hi. revert p q. apply (in_inodes (fun i => forall p q, p ∈ ino_files_ i -> q ∈ ino_files_ i -> f_size p = f_size q)); [|done].
    repeat (apply List.Forall_cons; [cbn; intros p q Hp Hq; repeat (apply elem_of_cons in Hp as [->|Hp]); repeat (apply elem_of_cons in Hq as [->|Hq]); done || by apply elem_of_nil in Hp || by apply elem_of_nil in Hq|]). constructor.
  - intros k k' i i' p q Hk Hk' Hp Hq E. assert (forall k i p, inodes !! k = Some i -> p ∈ ino_files_ i -> k = if (f_data p =? 1)%nat then 1%nat else 0%nat) as H.
    { clear. intros [|[|k]] i p [= <-]; cbn; intros Hp; repeat (apply elem_of_cons in Hp as [->|Hp]; [done|]); by apply elem_of_nil in Hp. }
    rewrite (H k i p Hk Hp), (H k' i' q Hk' Hq). by rewrite E.
  - intros i v Hi. revert v. apply (in_inodes (fun i => forall v, mapped_view f_data f_size open_sample manager0 i = Some v -> view_ok v /\ fragments_fit (fun _ => 1) v 0 (ino_fragments_ i))); [|done].
    apply List.Forall_cons; [|apply List.Forall_cons; [|constructor]]; intros v Ev; [rewrite second_mapped in Ev|rewrite first_mapped in Ev]; injection Ev as <-; vm_compute; repeat (split || constructor); done.
Qed.

Lemma tree_inodes_sample : tree_inodes Sample.root Sample.finalize f_data f_size open_sample (fun _ => 1) manager0 [default_category].
Proof.
  split.
  - apply inodes_ready_sample.
  - intros i f Hi. revert f. apply (in_inodes (fun i => forall f, f ∈ ino_fragments_ i -> chunks_ f.2 = [])); [|done].
    repeat (apply List.Forall_cons; [by intros f ->%list_elem_of_singleton|]). constructor.
  - intros i v Hi. revert v. apply (in_inodes (fun i => forall v, mapped_view f_data f_size open_sample manager0 i = Some v -> fv_size v < 2 ^ 63)); [|done].
    apply List.Forall_cons; [|apply List.Forall_cons; [|constructor]]; intros v Ev; [rewrite second_mapped in Ev|rewrite first_mapped in Ev]; by injection Ev as <-.
  - intros i c Hi. revert c. apply (in_inodes (fun i => forall c, c ∈ (ino_fragments_ i).*1 -> c ∈ [default_category])); [|done].
    repeat (apply List.Forall_cons; [done|]). constructor.
  - apply Permutation_swap.
  - done.
  - intros dev fn e data u [= <- <-] Hn Hu. cbn [unique_file_ids] in Hu. destruct (Sample.file_cases e data Hn) as [->|[->| ->]]; injection Hu as <-;
      [exists first_inode|exists second_inode..];
      (split; [first [by left|right; by left]|]); (split; [done|]); apply (bool_decide_unpack _); vm_compute; exact I.
  - intros dev fn i [= <- <-]. apply (in_inodes (fun i => exists e data, File e data ∈ preorder Sample.root /\ _ !! data = ino_num_ i)).
    apply List.Forall_cons; [|apply List.Forall_cons; [|constructor]].
    + destruct (Sample.some_file 2) as [e He]; [tauto|]. by exists e, 2%nat.
    + destruct (Sample.some_file 1) as [e He]; [tauto|]. by exists e, 1%nat.
Qed.

Lemma segmenters_sample : segmenters_ok (fun _ => witness_config) (fun _ => 1) logical_block 4 true.
Proof. split; [intros _; apply witness_config_ok|done|done|apply logical_block_inj]. Qed.
End WholeSample.

(** The file [/d], whose end is a hole, is found and read. *)
Lemma tree_files_roundtrip_witness : exists m ord files meta (d : metadata_v2_data (decoder := unit)) dv iv ino answers rd,
  build_blocks WholeSample.f_data WholeSample.f_size WholeSample.open_sample WholeSample.order (fun _ => witness_config) (fun _ => 1) WholeSample.logical_block
    [default_category] WholeSample.manager0 = Ok (m, WholeSample.logical) /\
  in_order (inodes_ m) = Ok ord /\ gather_chunks true (2 ^ 4) WholeSample.blocks (inodes_in ord m) = Ok files /\
  scan Escapes.create Escapes.export Escapes.compress 20 Sample.options Sample.finalize files Sample.root = Ok meta /\
  metadata_v2_data_create Escapes.import total_bytes 20 meta sample_options 1 true = Ok d /\
  find_path Escapes.expand d (path_of [[100]]) = Ok (Some dv) /\ dv_inode (global_ d) dv = Ok iv /\ open_file d iv = Ok (Some ino) /\
  file_bytes WholeSample.stored (file_chunks d (ino + 1)) = [7; 8; 9; 10; 0; 0; 0; 0; 0] /\
  run_reads WholeSample.get 3 (file_chunks d) (fun _ => io_error) 0 [ReadString (ino + 1) 4 2] reader_create = (Ok answers, rd) /\
  Forall2 (call_answer WholeSample.stored (file_chunks d)) [ReadString (ino + 1) 4 2] answers.
Proof.
  destruct (tree_files_roundtrip Escapes.create Escapes.export Escapes.compress Escapes.import Escapes.expand total_bytes 20 Sample.root Sample.options Sample.finalize sample_options 1
    WholeSample.f_data WholeSample.f_size WholeSample.open_sample WholeSample.order (fun _ => witness_config) (fun _ => 1) WholeSample.logical_block 4 true WholeSample.manager0 [default_category])
    as (m & blocks & E & H).
  - apply Sample.root_ok.
  - apply (pb_chain _ _ _ _ _ Sample.sample_packable).
  - apply (pb_finalize _ _ _ _ _ Sample.sample_packable).
  - apply (ck_strings _ _ _ _ sample_checkable).
  - reflexivity.
  - reflexivity.
  - lia.
  - vm_compute. discriminate.
  - intros v _. reflexivity.
  - apply WholeSample.tree_inodes_sample.
  - apply WholeSample.segmenters_sample.
  - apply NoDup_singleton.
  - lia.
  - pose proof WholeSample.cut_blocks as Hb. rewrite E in Hb. subst blocks. destruct WholeSample.tree_blocks_ok as [B1 B2].
    destruct (H WholeSample.blocks WholeSample.stored) as (ord & Eord & H1); [change (num_blocks_ WholeSample.blocks) with 1; lia|exact B1|exact B2|].
    assert (zlen (concat (map inode_chunks (inodes_in ord m))) < 2 ^ 32) as Hfew.
    { vm_compute in E. injection E as <-. vm_compute in Eord. injection Eord as <-. reflexivity. }
    destruct (H1 Hfew) as (files & meta & d & contents & Eg & Es & Ec & Hfind & Hread).
    pose proof (Hfind [[100]] ltac:(unfold good_name; apply (bool_decide_unpack _); vm_compute; exact I)) as Hd. cbn [lookup_path Sample.root] in Hd.
    change (lookup_path Sample.root [[100]]) with (Some (File (Sample.entry_at 4 [100] (Some 0%nat) Sample.mode_file 1000 0) 3)) in Hd.
    destruct Hd as (dv & Hdv & iv & st & Hiv & _ & _ & _ & Hf). destruct (Hf _ _ eq_refl) as (x & ino & (i & Hi & Hh & ->) & Ho & _ & Hbytes).
    destruct (Hread WholeSample.get 3 (fun _ => io_error) 0 [ReadString (ino + 1) 4 2] _) as (answers & rd & Er & Ha); [lia|by repeat constructor|].
    exists m, ord, files, meta, d, dv, iv, ino, answers, rd. refine (conj E (conj Eord (conj Eg (conj Es (conj Ec (conj Hdv (conj Hiv (conj Ho (conj _ (conj Er Ha)))))))))). rewrite Hbytes.
    change (i ∈ WholeSample.inodes) in Hi. apply elem_of_cons in Hi as [->|[->|Hi%elem_of_nil]%elem_of_cons]; [unfold inode_content; rewrite WholeSample.second_mapped; vm_compute; reflexivity| |destruct Hi].
    exfalso. revert Hh. apply (bool_decide_unpack _). vm_compute. exact I.
Defined.
