(* ===== verification/ScannedInodes.v ===== *)
(** * ScannedInodes: the inodes of a scan

    The inodes that [file_scanner_] created and finalized ([FileScanner]), as the
    inode manager has them when no categorizer looks at files ([InodeManager]):
    they are what blocks can be built of, and what is read of the inode of a file
    is what was to be read of the file. *)

From stdpp Require Import sorting.
From S2P Require Import Prelude Metadata MetadataReader EntryTree MetadataBuilder EntryLists TreeTables FileScanner FileDedup ScannerRuns FileNumbers ScannedTree FileChunks FileRange Segmenter FileView Categorizer InodeManager InodeOrdering EndToEnd Blockify StoredInodes.
Local Open Scope Z_scope.

#[local] Abbreviation checked := (result metadata_error).

(** When no file can be mapped, each has data that is invalid, or whose file could
    not be mapped. *)
Lemma mmap_files_none f_data f_size open_file files invalid p : (mmap_files f_data f_size open_file files invalid).1.1 = None -> p ∈ files ->
  f_data p ∈ invalid \/ exists q, q ∈ files /\ f_data q = f_data p /\ match open_file q with Some v => fv_size v <> f_size q | None => True end.
Proof.
  revert invalid. induction files as [|q files IH]; intros invalid E Hp; [by apply elem_of_nil in Hp|]. cbn [mmap_files] in E. apply elem_of_cons in Hp. case_bool_decide as Hq.
  - destruct Hp as [->|Hp]; [by left|]. destruct (IH _ E Hp) as [?|(r & Hr & H)]; [by left|]. right. exists r. split; [by right|done].
  - assert (match open_file q with Some v => fv_size v <> f_size q | None => True end /\ (mmap_files f_data f_size open_file files ({[f_data q]} ∪ invalid)).1.1 = None) as [Hopen E'].
    { destruct (open_file q) as [v|]; [destruct (Z.eqb_spec (fv_size v) (f_size q)); [done|]|]; (split; [done|]);
        by destruct (mmap_files f_data f_size open_file files _) as [[? ?] ?]. }
    destruct Hp as [->|Hp]; [right; exists q; split; [by left|done]|]. destruct (IH _ E' Hp) as [[->%elem_of_singleton|?]%elem_of_union|(r & Hr & H)].
    + right. exists q. split; [by left|]. by split.
    + by left.
    + right. exists r. split; [by right|done].
Qed.

Section scanned.
Context (info : nat -> file_status) (view : nat -> option file_view).

(** The bytes that are read of a file, and of one that has the right size. *)
Definition read_file (p : nat) : option (list Z) := shown <$> view p.
Definition text (p : nat) : option (list Z) := match view p with Some v => if fv_size v =? size_of info p then Some (shown v) else None | None => None end.

Context (xxh3_64 : list Z -> Z) (algo : list Z -> list Z) (iterate : gmap (Z * Z) (list nat) -> list ((Z * Z) * list nat)).
Context {Hhashes : Hashes info read_file read_file xxh3_64 algo}.
Context (files : list nat) (comm : gset nat) (s : scan_state).
Context (Hs : scan_inv info read_file read_file xxh3_64 algo files comm [] s).

#[local] Abbreviation owner := (owner info files).
#[local] Abbreviation primaries := (primaries info files).
#[local] Abbreviation content := (FileDedup.content info read_file read_file).
#[local] Abbreviation inode_of p := (file_inode (objects_ s) !! p).

(** The files have sizes, the system shows them as it should, and hard links are
    alike. *)
Class Disk : Prop := {
  disk_sizes p : 0 <= size_of info p < 2 ^ 63;
  disk_views p v : view p = Some v -> view_ok v;
  disk_links p q : p ∈ files -> q ∈ files -> owner p = owner q -> size_of info p = size_of info q /\ text p = text q
}.
Context {Hdisk : Disk}.

Lemma shown_nothing v : view_ok v -> fv_size v = 0 -> shown v = [].
Proof. intros Hv E. apply shown_length in Hv. rewrite E in Hv. destruct (shown v); [done|]. unfold zlen in Hv. cbn [length] in Hv. lia. Qed.

Lemma read_size p v : view p = Some v -> zlen (shown v) = fv_size v.
Proof. intros Hv. apply shown_length. by eapply disk_views. Qed.

(** What was hashed is what the file has. *)
Lemma content_text p c : content p = Some c -> default [] (text p) = c.
Proof.
  unfold FileDedup.content, text. destruct (start_ok _ _ p); [|done]. pose proof (disk_sizes p). destruct (Z.ltb_spec 0 (size_of info p)) as [Hp|Hp].
  - unfold read_file. destruct (view p) as [v|] eqn:Ev; [|done]. cbn [fmap option_fmap option_map]. rewrite (read_size p v Ev). by destruct (fv_size v =? size_of info p); [intros [= <-]|].
  - intros [= <-]. destruct (view p) as [v|] eqn:Ev; [|done]. destruct (Z.eqb_spec (fv_size v) (size_of info p)); [|done]. cbn. apply shown_nothing; [by eapply disk_views|lia].
Qed.

Lemma no_content_text p : content p = None -> text p = None.
Proof.
  unfold FileDedup.content, text, start_ok, read_file. destruct (view p) as [v|] eqn:Ev; [|done]. cbn [fmap option_fmap option_map]. rewrite orb_true_r. pose proof (disk_sizes p).
  destruct (Z.ltb_spec 0 (size_of info p)); [|done]. rewrite (read_size p v Ev). by destruct (fv_size v =? size_of info p).
Qed.

(** Invalid data is that of files that cannot be read. *)
Lemma invalid_text p d : datas (objects_ s) !! p = Some d -> da_invalid d = true -> text p = None.
Proof.
  intros Hd Hi. pose proof (si_data _ _ _ _ _ _ _ _ _ Hs) as D. pose proof (di_datas _ _ _ _ _ _ _ _ _ D p d Hd) as Hp.
  destruct (di_status _ _ _ _ _ _ _ _ _ D p Hp) as (d' & Hd' & (_ & Hh & Hn) & _). rewrite Hd in Hd'. injection Hd' as <-. destruct (decide (p ∈ comm)) as [Hc|Hc].
  - specialize (Hh (or_introl Hc)). apply no_content_text. destruct (content p) as [c|]; [destruct Hh; congruence|done].
  - destruct Hn as [_ Hv]; [intros [?|(j & Hj%elem_of_nil & _)]; done|]. rewrite Hi in Hv. unfold start_ok in Hv. unfold text.
    destruct (kLargeFileThreshold <=? size_of info p); [|done]. cbn in Hv. unfold read_file in Hv. by destruct (view p).
Qed.

(** Files with one inode have the same bytes and the same size. *)
Lemma same_inode_text p q i : p ∈ files -> q ∈ files -> inode_of (owner p) = Some i -> inode_of (owner q) = Some i ->
  default [] (text p) = default [] (text q) /\ size_of info p = size_of info q.
Proof.
  intros Hp Hq Ep Eq. pose proof (owner_in info files p Hp) as Hop. pose proof (owner_in info files q Hq) as Hoq.
  destruct (disk_links p (owner p) Hp Hop) as [Sp Tp]; [by rewrite owner_owner|]. destruct (disk_links q (owner q) Hq Hoq) as [Sq Tq]; [by rewrite owner_owner|].
  rewrite Sp, Tp, Sq, Tq. destruct (ii_inj _ _ _ _ _ _ _ (si_inodes _ _ _ _ _ _ _ _ _ Hs) _ _ _ Ep Eq) as [->|(_ & _ & c & H1 & H2)]; [done|].
  rewrite (content_text _ _ H1), (content_text _ _ H2). split; [done|]. pose proof (content_size info read_file read_file xxh3_64 algo _ _ H1). pose proof (content_size info read_file read_file xxh3_64 algo _ _ H2). congruence.
Qed.

(** ** The inodes, as the manager has them *)

Context (f : final_state) (Hf : inodes_final info files s f).

(** The inode number [k]: [populate] of the size of its files, and what [finalize]
    has set. *)
Definition inode_object (k : nat) : inode :=
  let files := default [] (fi_files f !! k) in
  populate (size_of info (default O (hd_error files))) (Inode (fi_nums f !! k) [] files None).

Definition manager_of : manager :=
  Manager (map inode_object (seq 0 (inode_count (objects_ (fi_scan f)))))
    (dom (base.filter (fun e => da_invalid e.2 = true) (datas (objects_ (fi_scan f))))) 0.

Definition data_index (p : nat) : nat := default p (data_of (objects_ (fi_scan f)) !! p).

Lemma data_index_owner p : p ∈ files -> data_index p = owner p.
Proof. intros Hp. unfold data_index. rewrite (if_data _ _ _ _ Hf), (di_of _ _ _ _ _ _ _ _ _ (si_data _ _ _ _ _ _ _ _ _ Hs)), decide_True by done. done. Qed.

Lemma manager_lookup k i : inodes_ manager_of !! k = Some i <-> (k < inode_count (objects_ s))%nat /\ i = inode_object k.
Proof.
  unfold manager_of. cbn [inodes_]. rewrite list_lookup_fmap, (if_count _ _ _ _ Hf). destruct (decide (k < inode_count (objects_ s))%nat) as [Hk|Hk].
  - rewrite lookup_seq_lt by done. cbn. split; [by intros [= <-]|by intros [_ ->]].
  - rewrite lookup_seq_ge by lia. split; [done|by intros [? _]].
Qed.

Lemma inode_files k : (k < inode_count (objects_ s))%nat -> ino_files_ (inode_object k) <> [] /\
  forall q, q ∈ ino_files_ (inode_object k) <-> q ∈ files /\ inode_of (owner q) = Some k.
Proof. intros Hk. destruct (if_files _ _ _ _ Hf k Hk) as (v & Hv & Hne & _ & Hin). unfold inode_object. cbn. by rewrite Hv. Qed.

Lemma inodes_few : (inode_count (objects_ s) <= length files)%nat.
Proof.
  set (first k := default O (hd_error (ino_files_ (inode_object k)))).
  assert (forall k, (k < inode_count (objects_ s))%nat -> first k ∈ files /\ inode_of (owner (first k)) = Some k) as Hin.
  { intros k Hk. destruct (inode_files k Hk) as [Hne Hin]. apply Hin. unfold first. destruct (ino_files_ (inode_object k)) as [|q l]; [done|by left]. }
  replace (inode_count (objects_ s)) with (length (map first (seq 0 (inode_count (objects_ s))))) by (by rewrite length_map, length_seq).
  apply submseteq_length, NoDup_submseteq.
  - apply NoDup_fmap_2_strong; [|apply NoDup_seq]. intros j k Hj%elem_of_seq Hk%elem_of_seq E. destruct (Hin j) as [_ Ej]; [lia|]. destruct (Hin k) as [_ Ek]; [lia|]. rewrite E in Ej. congruence.
  - intros x (k & -> & Hk%elem_of_seq)%list_elem_of_fmap. apply Hin. lia.
Qed.

Lemma inode_number k : (k < inode_count (objects_ s))%nat -> is_Some (ino_num_ (inode_object k)).
Proof.
  intros Hk. destruct (if_nums _ _ _ _ Hf) as (objs & Hp & Hn). assert (k ∈ objs) as [u Hu]%list_elem_of_lookup by (rewrite Hp; apply elem_of_seq; lia). eexists. exact (Hn u k Hu).
Qed.

Lemma manager_nums : map (fun i => default (-1) (ino_num_ i)) (inodes_ manager_of) ≡ₚ seqZ 0 (zlen (inodes_ manager_of)).
Proof.
  destruct (if_nums _ _ _ _ Hf) as (objs & Hp & Hn). unfold manager_of. cbn [inodes_]. rewrite (if_count _ _ _ _ Hf). unfold zlen. rewrite length_map, length_seq.
  rewrite map_map. transitivity (map (fun k => default (-1) (fi_nums f !! k)) objs); [apply Permutation_map; by symmetry|].
  assert (map (fun k => default (-1) (fi_nums f !! k)) objs = seqZ 0 (Z.of_nat (inode_count (objects_ s)))) as ->; [|done].
  apply list_eq. intros u. rewrite list_lookup_fmap. pose proof (Permutation_length Hp) as Hl. rewrite length_seq in Hl. destruct (objs !! u) as [k|] eqn:Hu.
  - cbn. rewrite (Hn u k Hu). cbn. symmetry. apply lookup_seqZ. apply lookup_lt_Some in Hu. lia.
  - symmetry. apply lookup_seqZ_ge. apply lookup_ge_None in Hu. lia.
Qed.

(** *** What is mapped *)

Lemma manager_invalid p : p ∈ invalid_ manager_of -> text p = None.
Proof.
  unfold manager_of. cbn [invalid_]. intros [d Hd]%elem_of_dom. apply map_lookup_filter_Some in Hd as [Hd Hi]. cbn in Hi.
  destruct (if_invalid _ _ _ _ Hf p d Hd) as (d0 & Hd0 & E). apply (invalid_text p d0 Hd0). by rewrite <- E.
Qed.

#[local] Abbreviation mapped := (mapped_view data_index (size_of info) view manager_of).

Lemma mapped_file k v : (k < inode_count (objects_ s))%nat -> mapped (inode_object k) = Some v ->
  exists p, p ∈ ino_files_ (inode_object k) /\ view p = Some v /\ fv_size v = size_of info p /\ 0 < fv_size v.
Proof.
  intros Hk. unfold mapped_view, mmap_any. destruct (mmap_files _ _ _ _ _) as [[[[v' p]|] errors] invalid] eqn:E; [|done]. cbn. destruct (Z.ltb_spec 0 (fv_size v')); [|done].
  intros [= <-]. destruct (mmap_files_found _ _ _ _ _ _ _ _ _ E) as (H1 & _ & H3 & H4). by exists p.
Qed.

(** What is read of an inode is what each of its files has. *)
Lemma inode_text k q : (k < inode_count (objects_ s))%nat -> q ∈ ino_files_ (inode_object k) ->
  inode_content data_index (size_of info) view manager_of (inode_object k) = default [] (text q).
Proof.
  intros Hk Hq. destruct (inode_files k Hk) as [_ Hin]. apply Hin in Hq as Hq'. destruct Hq' as [Hqf Eq]. unfold inode_content. destruct (mapped (inode_object k)) as [v|] eqn:Em; cbn [from_option].
  - destruct (mapped_file k v Hk Em) as (p & Hp & Hv & Hsz & _). apply Hin in Hp as [Hpf Ep]. destruct (same_inode_text q p k Hqf Hpf Eq Ep) as [-> _].
    unfold text. by rewrite Hv, Hsz, Z.eqb_refl.
  - unfold mapped_view, mmap_any in Em. destruct (mmap_files _ _ _ _ _) as [[[[v p]|] errors] invalid] eqn:E; cbn in Em.
    + destruct (mmap_files_found _ _ _ _ _ _ _ _ _ E) as (Hp & _ & Hv & Hsz). apply Hin in Hp as [Hpf Ep]. destruct (same_inode_text q p k Hqf Hpf Eq Ep) as [-> _].
      destruct (Z.ltb_spec 0 (fv_size v)); [done|]. unfold text. rewrite Hv, Hsz, Z.eqb_refl. cbn. symmetry. apply shown_nothing; [by eapply disk_views|]. pose proof (disk_sizes p). lia.
    + destruct (mmap_files_none data_index (size_of info) view _ _ q ltac:(by rewrite E) Hq) as [Hi|(r & Hr & Ed & Hopen)].
      * apply manager_invalid in Hi. rewrite data_index_owner in Hi by done. destruct (disk_links q (owner q) Hqf (owner_in info files q Hqf)) as [_ ->]; [by rewrite owner_owner|]. by rewrite Hi.
      * apply Hin in Hr as [Hrf _]. rewrite !data_index_owner in Ed by done. destruct (disk_links q r Hqf Hrf) as [_ ->]; [done|]. unfold text.
        destruct (view r) as [v|]; [|done]. by destruct (Z.eqb_spec (fv_size v) (size_of info r)).
Qed.

(** *** What blocks are built of *)

Context (granularity : fragment_category -> Z) (Hgran : granularity default_category = 1).

Lemma data_fragment_size n : 0 <= n < 2 ^ 63 -> frag_size (data_fragment n) = n.
Proof. apply frag_size_data. Qed.

Lemma manager_ready : inodes_ready data_index (size_of info) view granularity manager_of.
Proof.
  assert (forall i, i ∈ inodes_ manager_of -> exists k, (k < inode_count (objects_ s))%nat /\ i = inode_object k) as Hall by (intros i [k Hi]%list_elem_of_lookup; exists k; by apply manager_lookup).
  split.
  - apply Forall_forall. intros i Hi. destruct (Hall i Hi) as (k & Hk & ->). split; [by apply inode_number|]. split; [done|]. by apply inode_files.
  - intros i p q Hi Hp Hq. destruct (Hall i Hi) as (k & Hk & ->). apply inode_files in Hp as [Hp Ep], Hq as [Hq Eq]; [|done..]. by eapply same_inode_text.
  - intros k k' i i' p q Hi Hi' Hp Hq E. apply manager_lookup in Hi as [Hk ->], Hi' as [Hk' ->]. apply inode_files in Hp as [Hp Ep], Hq as [Hq Eq]; [|done..].
    rewrite !data_index_owner in E by done. rewrite E in Ep. congruence.
  - intros i v Hi Ev. destruct (Hall i Hi) as (k & Hk & ->). destruct (mapped_file k v Hk Ev) as (p & Hp & Hv & Hsz & _). split; [by eapply disk_views|].
    destruct (inode_files k Hk) as [_ Hin]. assert (exists q, q ∈ ino_files_ (inode_object k) /\ ino_fragments_ (inode_object k) = [(default_category, data_fragment (size_of info q))]) as (q & Hq & ->).
    { unfold inode_object. cbn. destruct (inode_files k Hk) as [Hne _]. unfold inode_object in Hne. cbn in Hne. destruct (default [] (fi_files f !! k)) as [|q l]; [done|]. exists q. split; [by left|done]. }
    apply Hin in Hp as [Hp Ep], Hq as [Hq Eq]. destruct (same_inode_text p q k Hp Hq Ep Eq) as [_ Es]. cbn. rewrite Hgran, <- Es, <- Hsz. pose proof (disk_sizes p).
    rewrite data_fragment_size by lia. split; [done|]. split; [|lia]. apply Forall_forall. intros x _. apply Z.mod_1_r.
Qed.
End scanned.
