(* ===== verification/WholeScan.v ===== *)
(** * WholeScan: from the files of a tree to what is read of its image

    The whole of writing and reading put together, without categorizers: the file
    scanner finds the files of a tree by any schedule of its threads, [finalize]
    numbers files and inodes, the blocks are built of the inodes, the metadata is
    made and opened, and every file of the tree has the bytes it had. *)

From S2P Require Import Prelude OffsetCache InodeReader FileRange Segmenter FileView PackedInts StringTable FileChunks Metadata MetadataReader MetadataSafety EntryTree MetadataBuilder EntryLists TreeTables EntryData EntryTables GatheredMetadata BuiltMetadata RecoveredDirectories OpenedTree DirectoryTree TreeAttributes FileScanner FileDedup ScannerRuns FileNumbers ScannedTree SortedTree TreeRoundtrip CheckedTables CheckedTree Categorizer InodeManager InodeOrdering EndToEnd Blockify StoredInodes ScannedInodes WholeTree.
Local Open Scope Z_scope.

#[local] Abbreviation checked := (result metadata_error).

Section scan.
Context {encoder decoder : Type} (fsst_create : list (list Z) -> encoder) (fsst_export : encoder -> list Z)
  (fsst_compress : encoder -> list (list Z) -> Z -> list (list Z))
  (fsst_import : list Z -> Z * decoder) (fsst_decompress : decoder -> list Z -> Z -> list Z)
  `{!Fsst fsst_create fsst_export fsst_compress fsst_import fsst_decompress}.
Context (frozen_string_table_size : list (list Z) -> Z) (fuel : nat).
Context (root : entry) (options : writer_options) (ro : metadata_options) (inode_offset : Z).
Context (info : nat -> file_status) (view : nat -> option file_view) (xxh3_64 : list Z -> Z) (algo : list Z -> list Z).
Context (num_workers max_queue_len : nat) (iterate : gmap (Z * Z) (list nat) -> list ((Z * Z) * list nat)).
Context {Hhashes : Hashes info (read_file view) (read_file view) xxh3_64 algo}.
Context (files : list nat) {Hdisk : Disk info view files} {Hnumberable : Numberable info (read_file view) (read_file view) algo iterate files}.
Context (y : system) (Hnd : NoDup files) (Hreach : reachable info (read_file view) (read_file view) xxh3_64 (Some algo) num_workers max_queue_len files y) (Hended : finished y = true)
  (Hscanned : scanned_tree files (scanned y) root).
Context (order : manager -> fragment_category -> checked (list nat)) {Horder : SpanOrder order}.
Context (cfg : fragment_category -> segmenter_config) (granularity : fragment_category -> Z) (logical_block : fragment_category -> nat -> Z) (k : Z) (sparse : bool).

Context (Htree : tree_ok root) (Hchain : chain_ok (chmod_chain options)) (Hstrings : strings_fit root options).
Context (Hcheck : check_consistency ro = false) (Hsparse : MetadataReader.enable_sparse_files ro = true).
Context (Hfuel : (5 <= fuel)%nat) (Hdirs : zlen (preorder root) <= Z.of_nat fuel) (Hfrozen : forall v, v <> [] -> frozen_string_table_size v = total_bytes v).
Context (Hseg : segmenters_ok cfg granularity logical_block k sparse) (Hgran : granularity default_category = 1) (Hk : 0 <= k < 32).

#[local] Abbreviation s := (scanned y).
#[local] Abbreviation owner := (owner info files).

(** The bytes that the file of an entry has; none, if it cannot be read. *)
Definition file_bytes_of (e : entry_head) (_ : nat) (x : list Z) : Prop := x = default [] (text info view (e_id e)).

Lemma scanned_files_few : first_file_of root + zlen files < 2 ^ 31 - 1.
Proof.
  pose proof (scanned_files_count files y root Hnd Hscanned) as H. pose proof (kinds_count (preorder root)) as Hc.
  pose proof (to_size _ Htree). pose proof (zlen_nonneg (of_kind INO_DEV (preorder root))). pose proof (zlen_nonneg (of_kind INO_OTH (preorder root))). unfold first_file_of. lia.
Qed.

Section final.
Context (comm : gset nat) (Hs : scan_inv info (read_file view) (read_file view) xxh3_64 algo files comm [] s).
Context (f : final_state) (Ef : finalize_scan info true iterate s (first_file_of root) = Ok f) (Hf : inodes_final info files s f).

#[local] Abbreviation m0 := (manager_of info f).
#[local] Abbreviation inode_of p := (file_inode (objects_ s) !! p).

(** A file of the tree, its data and its inode. *)
Lemma tree_file e data : File e data ∈ preorder root -> e_id e ∈ files /\ owner (e_id e) = data /\ data ∈ primaries info files /\
  exists j, inode_of data = Some j /\ (j < inode_count (objects_ s))%nat /\ e_id e ∈ ino_files_ (inode_object info f j) /\ data_index f (e_id e) = data /\
    forall dev fn, finalize info true iterate s (first_file_of root) = Ok (dev, fn) -> unique_file_ids fn !! data = ino_num_ (inode_object info f j).
Proof.
  intros Hn. destruct (tree_data info (read_file view) (read_file view) xxh3_64 algo files comm s Hs root e data Hscanned Hn) as (He & Ho & Hp). split; [done|]. split; [done|]. split; [done|].
  destruct (primary_inode info (read_file view) (read_file view) xxh3_64 algo files comm s Hs data Hp) as [j Hj]. exists j. split; [done|].
  pose proof (ii_lt _ _ _ _ _ _ _ (si_inodes _ _ _ _ _ _ _ _ _ Hs) _ _ Hj) as Hlt. split; [done|]. split; [apply (inode_files info files s f Hf j Hlt); split; [done|by rewrite Ho]|].
  split; [by rewrite (data_index_owner info view xxh3_64 algo files comm s Hs f Hf)|].
  intros dev fn E. unfold finalize in E. rewrite Ef in E. cbn [rbind] in E. injection E as <- <-. by rewrite (if_ids _ _ _ _ Hf data j Hp Hj).
Qed.

Lemma scanned_tree_inodes : tree_inodes root (finalize info true iterate s) (data_index f) (size_of info) view granularity m0 [default_category].
Proof.
  assert (forall i, i ∈ inodes_ m0 -> exists j, (j < inode_count (objects_ s))%nat /\ i = inode_object info f j) as Hall by (intros i [j Hi]%list_elem_of_lookup; exists j; by apply (manager_lookup info files s f Hf)).
  split.
  - by apply (manager_ready info view xxh3_64 algo files comm s Hs f Hf).
  - intros i x Hi Hx. destruct (Hall i Hi) as (j & _ & ->). by apply list_elem_of_singleton in Hx as ->.
  - intros i v Hi Hv. destruct (Hall i Hi) as (j & Hj & ->). destruct (mapped_file info view s f j v Hj Hv) as (p & _ & _ & -> & _). destruct Hdisk as [Hz _ _]. apply Hz.
  - intros i c Hi Hc. destruct (Hall i Hi) as (j & _ & ->). exact Hc.
  - by apply (manager_nums info files s f).
  - unfold manager_of. cbn [inodes_]. unfold zlen. rewrite length_map, length_seq, (if_count _ _ _ _ Hf). pose proof scanned_files_few as Hc. unfold first_file_of in Hc.
    pose proof (zlen_nonneg (of_kind INO_DIR (preorder root))). pose proof (zlen_nonneg (of_kind INO_LNK (preorder root))).
    pose proof (inodes_few info files s f Hf). unfold zlen in *. lia.
  - intros dev fn e data u E Hn Hu. destruct (tree_file e data Hn) as (_ & _ & _ & j & _ & Hj & He & Hd & Hid). exists (inode_object info f j). split; [|split].
    + apply list_elem_of_lookup. exists j. by apply (manager_lookup info files s f Hf).
    + by rewrite <- (Hid dev fn E).
    + rewrite <- Hd. by apply list_elem_of_fmap_2.
  - intros dev fn i E Hi. destruct (Hall i Hi) as (j & Hj & ->). destruct (inode_files info files s f Hf j Hj) as [Hne Hin].
    destruct (ino_files_ (inode_object info f j)) as [|q l] eqn:El; [done|]. destruct (proj1 (Hin q)) as [Hq Eq]; [by left|]. destruct (proj1 (st_files _ _ _ Hscanned q) Hq) as (e & data & He & <-).
    exists e, data. split; [done|]. destruct (tree_file e data He) as (_ & Ho & _ & j' & Hj' & _ & _ & _ & Hid). rewrite Ho, Hj' in Eq. injection Eq as ->. by apply (Hid dev fn).
Qed.

(** The bytes of the inode of a file are those of the file. *)
Lemma tree_file_bytes e data x : File e data ∈ preorder root -> inode_bytes (data_index f) (size_of info) view m0 e data x -> file_bytes_of e data x.
Proof.
  intros Hn (i & Hi & Hd & ->). destruct (tree_file e data Hn) as (He & Ho & _ & j & Hj & Hlt & Hin & _). apply list_elem_of_lookup in Hi as [j' Hi]. apply (manager_lookup info files s f Hf) in Hi as [Hj' ->].
  apply list_elem_of_fmap in Hd as (q & Eq & Hq). apply (inode_files info files s f Hf j' Hj') in Hq as [Hq Ej]. rewrite (data_index_owner info view xxh3_64 algo files comm s Hs f Hf) in Eq by done.
  rewrite <- Eq, Hj in Ej. injection Ej as <-. by apply (inode_text info view xxh3_64 algo files comm s Hs f Hf).
Qed.
End final.

End scan.

(** ** An example *)

(** A file, one with the same contents that has a hard link in a directory, a
    sparse file, and a file that cannot be read. *)
Module DiskSample.
Definition files : list nat := [0; 1; 2; 3; 4]%nat.

Definition abc : file_view := FileView [97; 98; 99] [ExtentInfo extent_data (FileRange 0 3)].
Definition sparse_view : file_view := FileView [5; 0; 0; 0; 0; 0; 0] [ExtentInfo extent_data (FileRange 0 1); ExtentInfo extent_hole (FileRange 1 6)].

Definition view (p : nat) : option file_view := match p with 3%nat => Some sparse_view | 4%nat => None | _ => Some abc end.

Definition info (p : nat) : file_status :=
  FileStatus (1, if (p =? 2)%nat then 1 else Z.of_nat p) (if (p =? 3)%nat then 7 else 3) (if ((p =? 1) || (p =? 2))%nat then 2 else 1) [[Z.of_nat p]].

#[local] Abbreviation reads := (read_file view).
#[local] Abbreviation digest := ScannerRuns.Sample.digest.

#[global] Instance hashes : Hashes info reads reads zlen digest.
Proof.
  assert (forall p, start_of info reads zlen p = 0) as H0 by (intros p; unfold start_of, size_of, info; cbn [f_size]; by destruct (p =? 3)%nat).
  split; [by intros p q c c' _ _ [= ->]|intros p q c _ _; by rewrite !H0|]. intros p. unfold size_of, info. cbn. by destruct (p =? 3)%nat.
Qed.

#[global] Instance disk : Disk info view files.
Proof.
  split.
  - intros p. unfold size_of, info. cbn [f_size]. destruct (p =? 3)%nat; lia.
  - intros p v. unfold view. do 5 (destruct p as [|p]; [by intros [= <-]; vm_compute; repeat split|]). by intros [= <-]; vm_compute; repeat split.
  - intros p q Hp Hq. assert (Forall (fun p => Forall (fun q => owner info files p = owner info files q -> size_of info p = size_of info q /\ text info view p = text info view q) files) files) as H
      by (apply (bool_decide_unpack _); vm_compute; exact I). rewrite Forall_forall in H. specialize (H p Hp). rewrite Forall_forall in H. by apply H.
Qed.

#[global] Instance numberable : Numberable info reads reads digest map_to_list files.
Proof.
  split; [done|done| |].
  - intros p Hp Hl. assert (Forall (fun p => 1 < f_nlink (info p) -> FileDedup.content info reads reads p <> None) (primaries info files)) as Hall
      by (apply (bool_decide_unpack _); vm_compute; exact I). rewrite Forall_forall in Hall. specialize (Hall p Hp).
    destruct (FileDedup.content info reads reads p); [by eexists|by destruct (Hall Hl)].
  - intros p q Hp Hq _ _ E. assert (Forall (fun p => Forall (fun q => inode_id info p = inode_id info q -> p = q) (primaries info files)) (primaries info files)) as Hall
      by (apply (bool_decide_unpack _); vm_compute; exact I). rewrite Forall_forall in Hall. specialize (Hall p Hp). rewrite Forall_forall in Hall. by apply Hall.
Qed.

Definition run : checked system := run_schedule info reads reads zlen (Some digest) 4 2 ScannerRuns.Sample.events (start_system files).
Definition ended : system := match run with Ok y => y | _ => start_system [] end.

Lemma disk_run_ended : reachable info reads reads zlen (Some digest) 4 2 files ended /\ finished ended = true.
Proof.
  split; [|vm_compute; reflexivity]. apply (run_reachable _ _ _ _ _ 4 2 files ScannerRuns.Sample.events (start_system files)); [constructor|]. vm_compute. reflexivity.
Qed.

Definition file_at (id data : nat) (name : list Z) (parent : nat) : entry := File (TreeRoundtrip.Sample.entry_at id name (Some parent) TreeRoundtrip.Sample.mode_file 1000 0) data.

Definition root : entry :=
  Dir (TreeRoundtrip.Sample.entry_at 10 [] None TreeRoundtrip.Sample.mode_dir 0 0)
    [file_at 0 0 [97] 10; file_at 1 1 [98] 10;
     Dir (TreeRoundtrip.Sample.entry_at 11 [115] (Some 10%nat) TreeRoundtrip.Sample.mode_dir 0 0) [file_at 2 1 [99] 11];
     file_at 3 3 [100] 10; file_at 4 4 [101] 10].

Lemma disk_entries (P : entry -> Prop) : Forall P (preorder root) -> forall n, n ∈ preorder root -> P n.
Proof. intros H n Hn. rewrite Forall_forall in H. by apply H. Qed.

Lemma disk_root_ok : tree_ok root.
Proof.
  split.
  - by eexists _, _.
  - by apply (bool_decide_unpack _); vm_compute.
  - intros e es c Hd Hc. pose proof (disk_entries (fun n => match n with Dir e es => Forall (fun c => e_parent (head c) = Some (e_id e)) es | _ => True end)
      ltac:(repeat constructor) _ Hd) as H. cbn in H. rewrite Forall_forall in H. by apply H.
  - apply disk_entries. repeat constructor.
  - intros e es Hd. apply (disk_entries (fun n => match n with Dir e es => NoDup (map ename es) /\ Forall (fun c => name_ok (ename c)) es | _ => True end)
      ltac:(unfold name_ok, is_byte; repeat (apply List.Forall_cons; [first [exact I|apply (bool_decide_unpack _); vm_compute; exact I]|]); constructor) _ Hd).
  - intros e e' data H1 H2.
    apply (disk_entries (fun n => forall e data, n = File e data -> e_stat e = EntryStat TreeRoundtrip.Sample.mode_file 1000 100 0) ltac:(repeat constructor; by intros ? ? [= <- <-])) with (e := e) (data := data) in H1; [|done].
    apply (disk_entries (fun n => forall e data, n = File e data -> e_stat e = EntryStat TreeRoundtrip.Sample.mode_file 1000 100 0) ltac:(repeat constructor; by intros ? ? [= <- <-])) with (e := e') (data := data) in H2; [|done].
    congruence.
  - intros e target Hn. by apply (disk_entries (fun n => forall e target, n = Link e target -> target <> []) ltac:(repeat constructor; by intros ? ? [=]) _ Hn e target).
  - done.
  - done.
Qed.

Lemma strings : strings_fit root TreeRoundtrip.Sample.options.
Proof.
  split.
  - apply disk_entries. repeat (apply List.Forall_cons; [by apply (bool_decide_unpack _)|]). constructor.
  - intros e target Hn. apply (disk_entries (fun n => forall e target, n = Link e target -> zlen target <= if pack_symlinks TreeRoundtrip.Sample.options then 2048 else 4096)
      ltac:(repeat (apply List.Forall_cons; [by intros ? ? [=]|]); constructor) _ Hn e target eq_refl).
Qed.

Lemma scanned_root : scanned_tree files (scanned ended) root.
Proof.
  assert (forall e data, File e data ∈ preorder root -> (e_id e, data) ∈ [(0, 0); (1, 1); (2, 1); (3, 3); (4, 4)]%nat) as Hentry.
  { intros e data H. assert (Forall (fun n => match n with File e data => (e_id e, data) ∈ [(0, 0); (1, 1); (2, 1); (3, 3); (4, 4)]%nat | _ => True end) (preorder root)) as Hall.
    { repeat (apply List.Forall_cons; [first [exact I|apply (bool_decide_unpack _); vm_compute; exact I]|]). constructor. }
    rewrite Forall_forall in Hall. exact (Hall _ H). }
  split.
  - intros p. split.
    + intros Hp. assert (forallb (fun p => existsb (fun n => match n with File e _ => (e_id e =? p)%nat | _ => false end) (preorder root)) files = true) as Hall by (vm_compute; reflexivity).
      rewrite forallb_forall in Hall. specialize (Hall p (proj1 (list_elem_of_In _ _) Hp)). apply existsb_exists in Hall as ([e data| | |] & Hn & E); [|done..].
      exists e, data. split; [by apply list_elem_of_In|by apply Nat.eqb_eq].
    + intros (e & data & He & <-). apply Hentry in He. assert (Forall (fun x : nat * nat => x.1 ∈ files) [(0, 0); (1, 1); (2, 1); (3, 3); (4, 4)]%nat) as Hall
        by (apply (bool_decide_unpack _); vm_compute; exact I). rewrite Forall_forall in Hall. exact (Hall _ He).
  - intros e data He. apply Hentry in He. assert (Forall (fun x : nat * nat => data_of (objects_ (scanned ended)) !! x.1 = Some x.2) [(0, 0); (1, 1); (2, 1); (3, 3); (4, 4)]%nat) as Hall
      by (apply (bool_decide_unpack _); vm_compute; exact I). rewrite Forall_forall in Hall. exact (Hall _ He).
Qed.

Definition order (m : manager) (c : fragment_category) : checked (list nat) :=
  ordered_span (fun p => match p with 2 => 1 | _ => p end)%nat (size_of info) (fun _ => []) (fun _ => []) Z.of_nat (fun _ => None) (fun _ => None) (fun _ => false) id None false
    (inodes_ m) (invalid_ m) order_none c.

#[global] Instance order_spans : SpanOrder order.
Proof.
  exact (ordered_span_order (fun p => match p with 2 => 1 | _ => p end)%nat (size_of info) (fun _ => []) (fun _ => []) Z.of_nat (fun _ => None) (fun _ _ => None) (fun _ _ => false) id None false (fun _ => order_none)
    (fun _ H => ltac:(discriminate H)) (fun l => Permutation_refl l)).
Defined.

Definition final : final_state :=
  match finalize_scan info true map_to_list (scanned ended) (first_file_of root) with Ok f => f | Err _ => FinalState (scanned ended) 0 0 0 ∅ ∅ end.

Definition result_of := build_blocks (data_index final) (size_of info) view order (fun _ => witness_config) (fun _ => 1) WholeSample.logical_block [default_category] (manager_of info final).
Definition logical : list (Z * list Z) := [(0, [97; 98; 99; 5])].
Definition stored (w : Z) : list Z := logical_data logical w.
Definition blocks : block_manager := BlockManager 1 [Some 0].

Lemma result_blocks : match result_of with Ok (_, b) => b = logical | Err _ => False end.
Proof. vm_compute. reflexivity. Qed.

Lemma disk_blocks_ok : blocks_written blocks /\ stored_at blocks logical stored.
Proof.
  split.
  - intros b Hb. change (num_blocks_ blocks) with 1 in *. assert (b = 0) as -> by lia. exists 0. split; [done|lia].
  - intros n x Hin. apply list_elem_of_singleton in Hin as [= -> ->]. change (num_blocks_ blocks) with 1. split; [lia|]. by exists 0.
Qed.
End DiskSample.

