(* ===== verification/RemapBlocks.v ===== *)
(** * RemapBlocks: the chunks of an image whose blocks are cut anew

    [metadata_builder_::remap_blocks], [remap_holes] and [block_mapping::map_chunk]
    of [src/writer/internal/metadata_builder.cpp]: every chunk of the old image is
    looked up in the mapping of its block, the pieces are merged where they
    touch, holes are packed again for the new block size, and the categories of
    the blocks follow.  The theorem: every file has the bytes it had. *)

From S2P Require Import Prelude Metadata MetadataReader EntryTree MetadataBuilder EntryLists BuiltMetadata OpenedTree CheckedTables StoredChunks FileChunks.
Local Open Scope Z_scope.

(** ** [block_chunk], [block_mapping] ([writer/internal/metadata_builder.h]) *)

Record block_chunk : Type := BlockChunk { bc_block : Z; bc_offset : Z; bc_size : Z }.
Record block_mapping : Type := BlockMapping { old_block : Z; mapping_chunks : list block_chunk }.

(** [DWARFS_CHECK]s, and what [vector::at] throws. *)
Inductive remap_error : Type :=
  | size_mismatch
  | mapped_chunk_list_is_empty
  | chunk_block_out_of_range
  | chunk_table_is_empty
  | inconsistent_sparse_files_feature
  | remap_out_of_range.

#[local] Abbreviation remapped := (result remap_error).

(** The loop of [map_chunk]; the size that is left is returned with the chunks. *)
Fixpoint map_chunk_loop (chunks : list block_chunk) (pos offset size : Z) (mapped : list block_chunk) : list block_chunk * Z :=
  match chunks with
  | [] => (mapped, size)
  | c :: chunks =>
      if offset <? wrapu 64 (pos + bc_size c) then
        let mapped_offset := wrapu 64 (offset - pos) in
        let mapped_size := Z.min size (wrapu 64 (bc_size c - mapped_offset)) in
        let mapped := mapped ++ [BlockChunk (bc_block c) (wrapu 64 (bc_offset c + mapped_offset)) mapped_size] in
        let size := wrapu 64 (size - mapped_size) in
        if size =? 0 then (mapped, size)
        else map_chunk_loop chunks (wrapu 64 (pos + bc_size c)) (wrapu 64 (offset + mapped_size)) size mapped
      else map_chunk_loop chunks (wrapu 64 (pos + bc_size c)) offset size mapped
  end.

Definition map_chunk (m : block_mapping) (offset size : Z) : remapped (list block_chunk) :=
  let '(mapped, size) := map_chunk_loop (mapping_chunks m) 0 offset size [] in
  if size =? 0 then Ok mapped else Err size_mismatch.

(** ** [remap_holes] *)

Definition kTmpHoleIx : Z := 2 ^ 32 - 1.

(** The size of a chunk of the hole block. *)
Definition old_hole_size (old_block_size : Z) (large_hole_size : option (list Z)) (offset size : Z) : remapped Z :=
  if offset =? kChunkOffsetIsLargeHole then
    match default [] large_hole_size !! Z.to_nat size with Some n => Ok (wraps 64 n) | None => Err remap_out_of_range end
  else Ok (wraps 64 (wrapu 64 (size * old_block_size) + offset)).

Fixpoint remap_hole_chunks (old_block_size : Z) (large_hole_size : option (list Z)) (chunks : list meta_chunk) (m : hole_mapper) :
    remapped (list meta_chunk * hole_mapper) :=
  match chunks with
  | [] => Ok ([], m)
  | c :: chunks =>
      let? ' (c, m) := (if mc_block c =? kTmpHoleIx then
                          let? hole_size := old_hole_size old_block_size large_hole_size (mc_offset c) (mc_size c) in
                          Ok (map_hole hole_size m)
                        else Ok (c, m)) in
      let? ' (chunks, m) := remap_hole_chunks old_block_size large_hole_size chunks m in
      Ok (c :: chunks, m)
  end.

(** ** The builder that remaps *)

(** The members of [metadata_builder_] that [remap_blocks] uses: the tables of
    chunks in [md_], with the new block size, the block size before it was set,
    the feature flag, and the categories of the blocks. *)
Record remap_state : Type := RemapState {
  rs_files : metadata;
  rs_old_block_size : Z;
  rs_has_sparsefiles : bool;
  rs_categories : option (list Z);
  rs_category_metadata : option (gmap Z Z)
}.

(** The second constructor: [old_block_size_] is the block size of the image. *)
Definition builder_of (files : metadata) (has_sparsefiles : bool) (categories : option (list Z)) (category_metadata : option (gmap Z Z)) : remap_state :=
  RemapState files (md_block_size files) has_sparsefiles categories category_metadata.

Definition set_block_size (block_size : Z) (s : remap_state) : remap_state :=
  let files := rs_files s in
  RemapState (Metadata (md_chunks files) (md_chunk_table files) (wrapu 32 block_size) (md_hole_block_index files) (md_large_hole_size files))
    (rs_old_block_size s) (rs_has_sparsefiles s) (rs_categories s) (rs_category_metadata s).

(** The chunks of [remap_holes], the index of the hole block and the sizes. *)
Definition remap_holes (s : remap_state) (new_chunks : list meta_chunk) (new_hole_index max_data_chunk_size : Z) :
    remapped (list meta_chunk * hole_mapper) :=
  remap_hole_chunks (rs_old_block_size s) (md_large_hole_size (rs_files s)) new_chunks
    (hole_mapper_create new_hole_index (md_block_size (rs_files s)) max_data_chunk_size).

(** The end of the loop over the chunks of an inode: the first piece of a data
    chunk may continue the last one. *)
Definition append_mapped (mapped mapped_chunks : list block_chunk) : list block_chunk :=
  match last mapped_chunks, mapped with
  | Some b, f :: rest =>
      if negb (bc_block b =? kTmpHoleIx) && (bc_block b =? bc_block f) && (wrapu 64 (bc_offset b + bc_size b) =? bc_offset f)
      then removelast mapped_chunks ++ BlockChunk (bc_block b) (bc_offset b) (wrapu 64 (bc_size b + bc_size f)) :: rest
      else mapped_chunks ++ mapped
  | _, _ => mapped_chunks ++ mapped
  end.

Fixpoint remap_chunks (mapping : list block_mapping) (old_hole_ix : option Z) (chunks : list meta_chunk) (mapped_chunks : list block_chunk) :
    remapped (list block_chunk) :=
  match chunks with
  | [] => Ok mapped_chunks
  | c :: chunks =>
      if bool_decide (old_hole_ix = Some (mc_block c))
      then remap_chunks mapping old_hole_ix chunks (mapped_chunks ++ [BlockChunk kTmpHoleIx (mc_offset c) (mc_size c)])
      else match mapping !! Z.to_nat (mc_block c) with
           | None => Err chunk_block_out_of_range
           | Some m =>
               let? mapped := map_chunk m (mc_offset c) (mc_size c) in
               match mapped with
               | [] => Err mapped_chunk_list_is_empty
               | _ => remap_chunks mapping old_hole_ix chunks (append_mapped mapped mapped_chunks)
               end
           end
  end.

Definition to_meta_chunk (c : block_chunk) : meta_chunk := MetaChunk (wrapu 32 (bc_block c)) (wrapu 32 (bc_offset c)) (wrapu 32 (bc_size c)).

Definition max_mapped_size (mapped_chunks : list block_chunk) (max_data_chunk_size : Z) : Z :=
  foldl (fun m c => if bc_block c =? kTmpHoleIx then m else Z.max m (bc_size c)) max_data_chunk_size mapped_chunks.

(** [old_chunks.subspan(first, last - first)]. *)
Definition chunk_span (chunks : list meta_chunk) (first last : Z) : list meta_chunk :=
  take (Z.to_nat (wrapu 32 (last - first))) (drop (Z.to_nat first) chunks).

(** The loop over the inodes: the table, without its first entry. *)
Fixpoint remap_table (mapping : list block_mapping) (old_hole_ix : option Z) (old_chunks : list meta_chunk) (old_chunk_table : list Z)
    (new_chunks : list meta_chunk) (max_data_chunk_size : Z) : remapped (list meta_chunk * list Z * Z) :=
  match old_chunk_table with
  | first :: (last :: _) as old_chunk_table =>
      let? mapped_chunks := remap_chunks mapping old_hole_ix (chunk_span old_chunks first last) [] in
      let new_chunks := new_chunks ++ map to_meta_chunk mapped_chunks in
      let? ' (chunks, table, m) := remap_table mapping old_hole_ix old_chunks old_chunk_table new_chunks (max_mapped_size mapped_chunks max_data_chunk_size) in
      Ok (chunks, wrapu 32 (zlen new_chunks) :: table, m)
  | _ => Ok (new_chunks, [], max_data_chunk_size)
  end.

(** Which old block a new one is made of: the last one in the mapping. *)
Definition old_blocks (mapping : list block_mapping) : gmap Z Z :=
  foldl (fun block_map m => foldl (fun block_map c => <[wrapu 32 (bc_block c) := wrapu 32 (old_block m)]> block_map) block_map (mapping_chunks m)) ∅ mapping.

Fixpoint remap_categories (old_categories : list Z) (block_map : list (Z * Z)) (new_categories : list Z) : remapped (list Z) :=
  match block_map with
  | [] => Ok new_categories
  | (new_block, old_block) :: block_map =>
      match old_categories !! Z.to_nat old_block with
      | None => Err remap_out_of_range
      | Some c => remap_categories old_categories block_map (<[Z.to_nat new_block := c]> new_categories)
      end
  end.

Definition add_category_metadata (old_metadata new_metadata : gmap Z Z) (e : Z * Z) : gmap Z Z :=
  match old_metadata !! e.2 with Some x => <[e.1 := x]> new_metadata | None => new_metadata end.

Definition remap_category_metadata (old_metadata : gmap Z Z) (block_map : list (Z * Z)) : gmap Z Z :=
  foldl (add_category_metadata old_metadata) ∅ block_map.

Definition remap_blocks (mapping : list block_mapping) (new_block_count : Z) (s : remap_state) : remapped remap_state :=
  let files := rs_files s in
  let old_hole_ix := md_hole_block_index files in
  if bool_decide (md_chunk_table files = []) then Err chunk_table_is_empty
  else if negb (Bool.eqb (bool_decide (is_Some old_hole_ix)) (rs_has_sparsefiles s)) then Err inconsistent_sparse_files_feature
  else
    let? ' (new_chunks, new_table, max_data_chunk_size) :=
      remap_table mapping old_hole_ix (md_chunks files) (md_chunk_table files) [] 0 in
    let? ' (new_chunks, hole_index, hole_sizes) :=
      match old_hole_ix with
      | Some _ =>
          let? ' (new_chunks, m) := remap_holes s new_chunks new_block_count max_data_chunk_size in
          Ok (new_chunks, Some (wrapu 32 (hole_block_index_ m)), Some (large_hole_sizes_ m))
      | None => Ok (new_chunks, None, md_large_hole_size files)
      end in
    let block_map := map_to_list (old_blocks mapping) in
    let? categories :=
      match rs_categories s with
      | Some old_categories =>
          let? new_categories := remap_categories old_categories block_map (replicate (length block_map) 0) in
          Ok (Some new_categories)
      | None => Ok None
      end in
    Ok (RemapState (Metadata new_chunks (0 :: new_table) (md_block_size files) hole_index hole_sizes)
          (rs_old_block_size s) (rs_has_sparsefiles s) categories
          ((fun old => remap_category_metadata old block_map) <$> rs_category_metadata s)).

(** What is read of a file: [get_chunk_range], and the bytes of the chunks. *)
Definition file_content (md : metadata) (blocks : Z -> list Z) (index : Z) : option (list Z) :=
  range ← get_chunk_range_from_index md index;
  cs ← range_chunks md range;
  Some (concat (map (chunk_bytes blocks) cs)).

(** ** The mapping of a block *)

Section remapping.
Context (mapping : list block_mapping) (new_block_count : Z) (Hcount : 0 <= new_block_count < 2 ^ 32 - 1).
Context (old new : Z -> list Z) (k k' : Z) (Hk : 0 <= k < 32) (Hk' : 0 <= k' < 32) (Hnew : forall b, zlen (new b) <= 2 ^ k').

Definition piece_ok (c : block_chunk) : Prop :=
  0 <= bc_block c < new_block_count /\ 0 <= bc_offset c /\ 0 < bc_size c /\ bc_offset c + bc_size c <= zlen (new (bc_block c)).
Definition piece_bytes (c : block_chunk) : list Z := slice (new (bc_block c)) (bc_offset c) (bc_size c).
Definition pieces_bytes (cs : list block_chunk) : list Z := concat (map piece_bytes cs).

(** Every block of the old image is made of pieces of the new one. *)
Definition mapping_ok : Prop :=
  forall b m, mapping !! b = Some m -> Forall piece_ok (mapping_chunks m) /\ pieces_bytes (mapping_chunks m) = old (Z.of_nat b) /\ zlen (old (Z.of_nat b)) < 2 ^ 32.

Lemma piece_bytes_length c : piece_ok c -> zlen (piece_bytes c) = bc_size c.
Proof. intros (_ & H1 & H2 & H3). apply slice_length; lia. Qed.

Lemma piece_small c : piece_ok c -> bc_offset c + bc_size c <= 2 ^ 31.
Proof. intros (_ & _ & _ & H). pose proof (Hnew (bc_block c)). assert (2 ^ k' <= 2 ^ 31) by (apply Z.pow_le_mono_r; lia). lia. Qed.

Lemma map_chunk_loop_ok chunks pos offset size acc : Forall piece_ok chunks -> 0 <= pos <= offset -> 0 < size ->
  offset - pos + size <= zlen (pieces_bytes chunks) -> pos + zlen (pieces_bytes chunks) < 2 ^ 64 ->
  exists mapped, map_chunk_loop chunks pos offset size acc = (acc ++ mapped, 0) /\ mapped <> [] /\ Forall piece_ok mapped /\
    pieces_bytes mapped = slice (pieces_bytes chunks) (offset - pos) size /\ (length mapped <= length chunks)%nat.
Proof.
  intros H. revert pos offset size acc. induction H as [|c chunks Hc Hcs IH]; intros pos offset size acc Hpos Hsize Hle Hlt; [change (zlen (pieces_bytes [])) with 0 in Hle; lia|].
  unfold pieces_bytes in *. cbn [map concat map_chunk_loop] in *. rewrite zlen_app, (piece_bytes_length c Hc) in *.
  pose proof (zlen_nonneg (concat (map piece_bytes chunks))) as Hn. pose proof (piece_small c Hc) as Hsm. pose proof Hc as (Hc1 & Hc2 & Hc3 & Hc4).
  rewrite !(wrapu_small 64 (pos + bc_size c)) by (unfold in_u; lia). destruct (Z.ltb_spec offset (pos + bc_size c)) as [Hin|Hout].
  - rewrite (wrapu_small 64 (offset - pos)), (wrapu_small 64 (bc_size c - _)), (wrapu_small 64 (bc_offset c + _)) by (unfold in_u; lia).
    rewrite (wrapu_small 64 (size - _)) by (unfold in_u; lia). set (p := BlockChunk _ _ _).
    assert (piece_ok p) as Hp by (unfold piece_ok, p; cbn; lia).
    destruct (Z.eqb_spec (size - Z.min size (bc_size c - (offset - pos))) 0) as [E|E].
    + exists [p]. split; [by rewrite E|]. split; [done|]. split; [by constructor|]. split; [|cbn; lia]. cbn [map concat]. rewrite app_nil_r.
      rewrite slice_app_l by (rewrite ?piece_bytes_length by done; lia). unfold piece_bytes, p. cbn [bc_block bc_offset bc_size].
      rewrite slice_slice by lia. f_equal. lia.
    + assert (Z.min size (bc_size c - (offset - pos)) = bc_size c - (offset - pos)) as Em by lia. rewrite Em in *.
      rewrite (wrapu_small 64 (offset + _)) by (unfold in_u; lia).
      destruct (IH (pos + bc_size c) (offset + (bc_size c - (offset - pos))) (size - (bc_size c - (offset - pos))) (acc ++ [p])) as (ms & -> & M1 & M2 & M3 & M4); [lia..|].
      exists (p :: ms). split; [by rewrite <- app_assoc|]. split; [done|]. split; [by constructor|]. split; [|cbn; lia]. cbn [map concat]. rewrite M3.
      replace size with ((bc_size c - (offset - pos)) + (size - (bc_size c - (offset - pos)))) at 2 by lia. rewrite slice_add by lia. f_equal.
      * rewrite slice_app_l by (rewrite ?piece_bytes_length by done; lia). unfold piece_bytes, p. cbn [bc_block bc_offset bc_size].
        rewrite slice_slice, Em by lia. done.
      * symmetry. etransitivity; [apply slice_skip with (k := bc_size c); [by apply piece_bytes_length|lia]|]. f_equal; lia.
  - destruct (IH (pos + bc_size c) offset size acc) as (ms & -> & M1 & M2 & M3 & M4); [lia..|]. exists ms. split; [done|]. split; [done|]. split; [done|].
    split; [|cbn; lia]. rewrite M3. symmetry. etransitivity; [apply slice_skip with (k := bc_size c); [by apply piece_bytes_length|lia]|]. f_equal; lia.
Qed.

Context (Hmapping : mapping_ok).

Lemma map_chunk_ok b m offset size : mapping !! b = Some m -> 0 <= offset -> 0 < size -> offset + size <= zlen (old (Z.of_nat b)) ->
  exists mapped, map_chunk m offset size = Ok mapped /\ mapped <> [] /\ Forall piece_ok mapped /\
    pieces_bytes mapped = slice (old (Z.of_nat b)) offset size /\ (length mapped <= length (mapping_chunks m))%nat.
Proof.
  intros Hb Ho Hs Hle. destruct (Hmapping b m Hb) as (H1 & H2 & H3). unfold map_chunk.
  destruct (map_chunk_loop_ok (mapping_chunks m) 0 offset size [] H1) as (ms & -> & M1 & M2 & M3 & M4); [lia|done|rewrite H2; lia|rewrite H2; lia|].
  exists ms. rewrite M3, H2, Z.sub_0_r. done.
Qed.

(** *** The chunks of an inode *)

Context (files : metadata) (Hbs : md_block_size files = 2 ^ k).

(** A chunk of the old image: a hole, or a range of a block. *)
Definition old_chunk_ok (v : meta_chunk) : Prop :=
  if bool_decide (md_hole_block_index files = Some (mc_block v))
  then in_u 32 (mc_offset v) /\ in_u 32 (mc_size v) /\ exists n, 0 <= n < 2 ^ 63 /\ hole_decodes k (default [] (md_large_hole_size files)) v n
  else 0 <= mc_block v < zlen mapping /\ 0 <= mc_offset v /\ 0 < mc_size v /\ mc_offset v + mc_size v <= zlen (old (mc_block v)).

Definition old_hole (offset size : Z) : Z :=
  if offset =? kChunkOffsetIsLargeHole then default 0 (default [] (md_large_hole_size files) !! Z.to_nat size)
  else wrapu 64 (wrapu 64 (size * 2 ^ k) + offset).

Definition old_bytes (v : meta_chunk) : list Z :=
  if bool_decide (md_hole_block_index files = Some (mc_block v)) then replicate (Z.to_nat (old_hole (mc_offset v) (mc_size v))) 0
  else slice (old (mc_block v)) (mc_offset v) (mc_size v).

(** A chunk that is mapped: a hole, with the fields of the old chunk, or a piece of a new block. *)
Definition mapped_ok (c : block_chunk) : Prop :=
  (bc_block c = kTmpHoleIx /\ in_u 32 (bc_offset c) /\ in_u 32 (bc_size c) /\ 0 <= old_hole (bc_offset c) (bc_size c) < 2 ^ 63 /\
   old_hole_size (2 ^ k) (md_large_hole_size files) (bc_offset c) (bc_size c) = Ok (old_hole (bc_offset c) (bc_size c)) /\ is_Some (md_hole_block_index files)) \/
  piece_ok c.
Definition mapped_bytes (c : block_chunk) : list Z :=
  if bc_block c =? kTmpHoleIx then replicate (Z.to_nat (old_hole (bc_offset c) (bc_size c))) 0 else piece_bytes c.
Definition all_mapped_bytes (cs : list block_chunk) : list Z := concat (map mapped_bytes cs).

Lemma all_mapped_app a b : all_mapped_bytes (a ++ b) = all_mapped_bytes a ++ all_mapped_bytes b.
Proof. unfold all_mapped_bytes. by rewrite map_app, concat_app. Qed.

Lemma piece_not_hole c : piece_ok c -> (bc_block c =? kTmpHoleIx) = false.
Proof. intros [H _]. apply Z.eqb_neq. unfold kTmpHoleIx. lia. Qed.

Lemma mapped_pieces cs : Forall piece_ok cs -> all_mapped_bytes cs = pieces_bytes cs /\ Forall mapped_ok cs.
Proof.
  induction 1 as [|c cs Hc _ [IH1 IH2]]; [done|]. split; [|by constructor; [right|]]. unfold all_mapped_bytes, pieces_bytes in *. cbn [map concat].
  rewrite IH1. unfold mapped_bytes. by rewrite piece_not_hole.
Qed.

Lemma hole_maps v : old_chunk_ok v -> md_hole_block_index files = Some (mc_block v) ->
  mapped_ok (BlockChunk kTmpHoleIx (mc_offset v) (mc_size v)) /\ mapped_bytes (BlockChunk kTmpHoleIx (mc_offset v) (mc_size v)) = old_bytes v.
Proof.
  unfold old_chunk_ok, old_bytes. intros Hv Hh. rewrite bool_decide_true in Hv |- * by done. destruct Hv as (Ho & Hs & n & Hn & Hd). split; [|done]. left. cbn [bc_block bc_offset bc_size].
  split; [done|]. split; [done|]. split; [done|]. unfold hole_decodes, old_hole, old_hole_size in *. destruct (mc_offset v =? kChunkOffsetIsLargeHole).
  - rewrite Hd. cbn [default from_option]. rewrite wraps_small by (unfold in_s; lia). split; [done|]. split; [done|]. by eexists.
  - rewrite Hd. split; [done|]. split; [|by eexists]. f_equal. rewrite <- Hd in Hn |- *. etransitivity; [apply wraps_mod_eq; symmetry; apply wrapu_idemp; lia|].
    apply wraps_small; unfold in_s; lia.
Qed.

Lemma append_mapped_ok mapped acc : Forall piece_ok mapped -> Forall mapped_ok acc -> Forall mapped_ok (append_mapped mapped acc) /\
  all_mapped_bytes (append_mapped mapped acc) = all_mapped_bytes acc ++ pieces_bytes mapped /\ (length (append_mapped mapped acc) <= length acc + length mapped)%nat.
Proof.
  intros Hm Ha. destruct (mapped_pieces mapped Hm) as [Eb Hm'].
  assert (Forall mapped_ok (acc ++ mapped) /\ all_mapped_bytes (acc ++ mapped) = all_mapped_bytes acc ++ pieces_bytes mapped /\ (length (acc ++ mapped) <= length acc + length mapped)%nat) as Happ.
  { split; [by apply Forall_app|]. split; [by rewrite all_mapped_app, Eb|]. rewrite length_app. lia. }
  unfold append_mapped. destruct (last acc) as [b|] eqn:El; [|done]. destruct mapped as [|f rest]; [done|].
  destruct (_ && _ && _) eqn:E; [|done]. apply andb_true_iff in E as [[E1 E2]%andb_true_iff E3]. apply negb_true_iff in E1. apply Z.eqb_eq in E2, E3.
  apply last_Some in El as [acc' ->]. rewrite removelast_last. apply Forall_app in Ha as [Ha Hb]. apply Forall_cons in Hb as [Hb _]. apply Forall_cons in Hm as [Hf Hrest].
  destruct Hb as [[Hb _]|Hb]; [by apply Z.eqb_neq in E1|]. pose proof (piece_small b Hb) as Sb. pose proof (piece_small f Hf) as Sf. pose proof Hb as (B1 & B2 & B3 & B4). pose proof Hf as (F1 & F2 & F3 & F4).
  rewrite wrapu_small in E3 by (unfold in_u; lia). rewrite (wrapu_small 64) by (unfold in_u; lia). set (p := BlockChunk _ _ _).
  assert (piece_ok p) as Hp by (unfold piece_ok, p; cbn; rewrite E2 in *; lia). destruct (mapped_pieces rest Hrest) as [Er Hrest'].
  split; [apply Forall_app; split; [done|constructor; [by right|done]]|]. split; [|rewrite !length_app; cbn; lia].
  change (p :: rest) with ([p] ++ rest). rewrite !all_mapped_app, Er, <- app_assoc. f_equal. unfold pieces_bytes, all_mapped_bytes. cbn [map concat]. rewrite !app_nil_r, app_assoc. f_equal.
  unfold mapped_bytes. rewrite (piece_not_hole p Hp), E1. unfold piece_bytes, p. cbn [bc_block bc_offset bc_size]. rewrite slice_add, <- E3, <- E2 by lia. done.
Qed.

(** The chunks a chunk may be mapped to. *)
Definition pieces_of (v : meta_chunk) : nat := from_option (fun m => length (mapping_chunks m)) 0%nat (mapping !! Z.to_nat (mc_block v)).
Definition max_pieces (vs : list meta_chunk) : nat := sum_list_with (fun v => S (pieces_of v)) vs.

Lemma remap_chunks_ok vs acc : Forall old_chunk_ok vs -> Forall mapped_ok acc ->
  exists ms, remap_chunks mapping (md_hole_block_index files) vs acc = Ok ms /\ Forall mapped_ok ms /\
    all_mapped_bytes ms = all_mapped_bytes acc ++ concat (map old_bytes vs) /\ (length ms <= length acc + max_pieces vs)%nat.
Proof.
  intros H. revert acc. induction H as [|v vs Hv _ IH]; intros acc Hacc; [exists acc; cbn; rewrite app_nil_r; split_and!; try done; lia|]. cbn [remap_chunks map concat].
  assert (max_pieces (v :: vs) = S (pieces_of v) + max_pieces vs)%nat as Emax by done. rewrite Emax.
  case_bool_decide as Hh.
  - destruct (hole_maps v Hv Hh) as [H1 H2]. destruct (IH (acc ++ [BlockChunk kTmpHoleIx (mc_offset v) (mc_size v)])) as (ms & -> & M1 & M2 & M3); [by apply Forall_app; split; [|constructor]|].
    exists ms. split; [done|]. split; [done|]. rewrite M2, all_mapped_app. split; [|rewrite length_app in M3; cbn in M3; lia]. unfold all_mapped_bytes at 2. cbn [map concat]. by rewrite app_nil_r, H2, app_assoc.
  - pose proof Hv as Hv'. unfold old_chunk_ok in Hv'. rewrite bool_decide_false in Hv' by done. destruct Hv' as (H1 & H2 & H3 & H4).
    destruct (lookup_lt_is_Some_2 mapping (Z.to_nat (mc_block v))) as [m Hm]; [unfold zlen in *; lia|]. rewrite Hm.
    destruct (map_chunk_ok _ m (mc_offset v) (mc_size v) Hm) as (mapped & -> & M1 & M2 & M3 & M4); [done|done|by rewrite Z2Nat.id by lia|]. cbn [rbind]. rewrite Z2Nat.id in M3 by lia.
    destruct (append_mapped_ok mapped acc M2 Hacc) as (A1 & A2 & A3). destruct (IH _ A1) as (ms & E & I1 & I2 & I3). exists ms.
    split; [by destruct mapped|]. split; [done|]. unfold pieces_of. rewrite Hm. cbn [from_option]. split; [|lia].
    rewrite I2, A2, M3, <- app_assoc. do 2 f_equal. unfold old_bytes. by rewrite bool_decide_false.
Qed.

(** *** The tables *)

Fixpoint spans (table : list Z) : list (list meta_chunk) :=
  match table with
  | first :: (last :: _) as table => chunk_span (md_chunks files) first last :: spans table
  | _ => []
  end.

Lemma spans_cons a b table : spans (a :: b :: table) = chunk_span (md_chunks files) a b :: spans (b :: table).
Proof. done. Qed.

Lemma remap_table_cons hole chunks a b table new_chunks m : remap_table mapping hole chunks (a :: b :: table) new_chunks m =
  rbind (remap_chunks mapping hole (chunk_span chunks a b) []) (fun mapped_chunks =>
    let new_chunks := new_chunks ++ map to_meta_chunk mapped_chunks in
    rbind (remap_table mapping hole chunks (b :: table) new_chunks (max_mapped_size mapped_chunks m)) (fun '(chunks, table, m) =>
      Ok (chunks, wrapu 32 (zlen new_chunks) :: table, m))).
Proof. done. Qed.

Definition inode_mapped (vs : list meta_chunk) (ms : list block_chunk) : Prop :=
  Forall mapped_ok ms /\ all_mapped_bytes ms = concat (map old_bytes vs).

Lemma mapped_size c : mapped_ok c -> (bc_block c =? kTmpHoleIx) = false -> 0 < bc_size c <= 2 ^ 31.
Proof.
  intros [[H _]|H] E; [by apply Z.eqb_neq in E|]. pose proof (piece_small c H). destruct H as (_ & ? & ? & _). lia.
Qed.

Lemma max_mapped_size_ok ms m : Forall mapped_ok ms -> 0 <= m <= 2 ^ 31 -> 0 <= max_mapped_size ms m <= 2 ^ 31.
Proof.
  intros H. revert m. induction H as [|c ms Hc _ IH]; intros m Hm; [done|]. cbn. apply IH. destruct (bc_block c =? kTmpHoleIx) eqn:E; [done|].
  pose proof (mapped_size c Hc E). lia.
Qed.

Lemma remap_table_ok table new_chunks m : Forall (Forall old_chunk_ok) (spans table) -> 0 <= m <= 2 ^ 31 ->
  zlen new_chunks + Z.of_nat (sum_list_with max_pieces (spans table)) < 2 ^ 32 ->
  exists mss m', remap_table mapping (md_hole_block_index files) (md_chunks files) table new_chunks m =
      Ok (new_chunks ++ concat (map (map to_meta_chunk) mss), tail (starts (zlen new_chunks) mss ++ [zlen new_chunks + zlen (concat mss)]), m') /\
    Forall2 inode_mapped (spans table) mss /\ 0 <= m' <= 2 ^ 31 /\ zlen (concat mss) <= Z.of_nat (sum_list_with max_pieces (spans table)).
Proof.
  revert new_chunks m. induction table as [|a [|b table] IH]; intros new_chunks m H Hm Hlen; [exists [], m; split; [cbn; by rewrite app_nil_r|by split; [constructor|split; [done|cbn; unfold zlen; cbn; lia]]]..|].
  rewrite spans_cons in *. apply Forall_cons in H as [Ha H]. change (sum_list_with max_pieces (chunk_span (md_chunks files) a b :: spans (b :: table))) with (max_pieces (chunk_span (md_chunks files) a b) + sum_list_with max_pieces (spans (b :: table)))%nat in Hlen.
  rewrite remap_table_cons. destruct (remap_chunks_ok _ [] Ha) as (ms & -> & M1 & M2 & M3); [done|]. cbn [rbind]. cbn [length] in M3.
  assert (zlen (new_chunks ++ map to_meta_chunk ms) = zlen new_chunks + zlen ms) as El by (by rewrite zlen_app, zlen_map).
  destruct (IH (new_chunks ++ map to_meta_chunk ms) (max_mapped_size ms m)) as (mss & m' & E & I1 & I2 & I3); [done|by apply max_mapped_size_ok|rewrite El; unfold zlen in *; lia|].
  rewrite E. cbn [rbind]. exists (ms :: mss), m'. split; [|split; [by constructor; [split|]|split; [done|]]].
  2: { cbn [concat]. rewrite zlen_app. change (sum_list_with max_pieces (?x :: ?l)) with (max_pieces x + sum_list_with max_pieces l)%nat. unfold zlen in *. lia. }
  cbn [map concat]. rewrite <- app_assoc, El.
  rewrite wrapu_small by (unfold in_u, zlen in *; lia). do 2 f_equal. f_equal. cbn [starts app tail]. rewrite zlen_app, Z.add_assoc.
  destruct mss; [|done]. cbn [starts app tail concat]. change (zlen (@nil block_chunk)) with 0. by rewrite Z.add_0_r.
Qed.

(** *** The holes *)

(** What a mapped chunk is in the new table. *)
Definition stored_as (m : hole_mapper) (c : block_chunk) (v : meta_chunk) : Prop :=
  (piece_ok c /\ v = to_meta_chunk c) \/
  (bc_block c = kTmpHoleIx /\ mc_block v = new_block_count /\ hole_decodes k' (large_hole_sizes_ m) v (old_hole (bc_offset c) (bc_size c)) /\
   0 <= old_hole (bc_offset c) (bc_size c) < 2 ^ 63 /\ in_u 32 (mc_offset v) /\ in_u 32 (mc_size v)).

Lemma stored_as_mono m m' c v : large_hole_sizes_ m `prefix_of` large_hole_sizes_ m' -> stored_as m c v -> stored_as m' c v.
Proof. intros Hp [H|(H1 & H2 & H3 & H4)]; [by left|right]. split; [done|]. split; [done|]. split; [by eapply hole_decodes_mono|done]. Qed.

Lemma remap_hole_chunks_ok w ms m : 0 <= w <= 32 -> mapper_inv k' w new_block_count m -> Forall mapped_ok ms -> hole_count_ m + zlen ms < 2 ^ 32 -> 0 <= hole_count_ m ->
  exists vs m', remap_hole_chunks (2 ^ k) (md_large_hole_size files) (map to_meta_chunk ms) m = Ok (vs, m') /\
    mapper_inv k' w new_block_count m' /\ large_hole_sizes_ m `prefix_of` large_hole_sizes_ m' /\ Forall2 (stored_as m') ms vs.
Proof.
  intros Hw Hm H. revert m Hm. induction H as [|c ms Hc _ IH]; intros m Hm Hlen Hcnt; [exists [], m; by split_and!|]. cbn [map remap_hole_chunks].
  change (zlen (c :: ms)) with (Z.of_nat (S (length ms))) in Hlen. destruct Hc as [(H1 & H2 & H3 & H4 & H5 & _)|Hc].
  - unfold to_meta_chunk at 1. cbn [mc_block]. rewrite H1. change (wrapu 32 kTmpHoleIx =? kTmpHoleIx) with true. cbv iota.
    unfold to_meta_chunk at 1 2. cbn [mc_offset mc_size]. rewrite (wrapu_small 32 (bc_offset c)), (wrapu_small 32 (bc_size c)), H5 by done. cbn [rbind].
    pose proof (map_hole_spec k' Hk' w new_block_count m (old_hole (bc_offset c) (bc_size c)) Hw Hm ltac:(lia) H4 ltac:(lia)) as Hs.
    destruct (map_hole (old_hole (bc_offset c) (bc_size c)) m) as [v m1]. destruct Hs as (S1 & S2 & S3 & S4 & S5 & S6 & S7).
    destruct (IH m1 S1) as (vs & m' & E & I1 & I2 & I3); [unfold zlen in *; lia|lia|]. rewrite E. cbn [rbind]. exists (v :: vs), m'. split; [done|]. split; [done|].
    split; [by etrans|]. constructor; [|done]. right. split; [done|]. split; [done|]. split; [by eapply hole_decodes_mono|exact (conj H4 (conj S6 S7))].
  - assert (mc_block (to_meta_chunk c) =? kTmpHoleIx = false) as ->.
    { unfold to_meta_chunk. cbn. pose proof (piece_not_hole c Hc). destruct Hc as [Hc _]. by rewrite wrapu_small by (unfold in_u; lia). }
    cbn [rbind]. destruct (IH m Hm) as (vs & m' & E & I1 & I2 & I3); [unfold zlen in *; lia|done|]. rewrite E. cbn [rbind]. exists (to_meta_chunk c :: vs), m'.
    split_and!; try done. constructor; [by left|done].
Qed.

(** *** What the reader makes of the new tables *)

Definition new_files (hole : option hole_mapper) (vss : list (list meta_chunk)) : metadata :=
  Metadata (concat vss) (starts 0 vss ++ [zlen (concat vss)]) (2 ^ k')
    ((fun m => wrapu 32 (hole_block_index_ m)) <$> hole) (match hole with Some m => Some (large_hole_sizes_ m) | None => md_large_hole_size files end).

Definition hole_state (hole : option hole_mapper) (c : block_chunk) (v : meta_chunk) : Prop :=
  match hole with
  | Some m => hole_block_index_ m = new_block_count /\ stored_as m c v
  | None => piece_ok c /\ v = to_meta_chunk c
  end.

Lemma piece_view md blocks c : piece_ok c -> md_hole_block_index md <> Some (bc_block c) -> blocks = new ->
  exists ch, chunk_view md (to_meta_chunk c) = Some ch /\ chunk_bytes blocks ch = piece_bytes c.
Proof.
  intros Hc Hh ->. pose proof (piece_small c Hc). pose proof Hc as (C1 & C2 & C3 & C4). unfold chunk_view, to_meta_chunk. cbn [mc_block mc_offset mc_size].
  rewrite !wrapu_small by (unfold in_u; lia). rewrite bool_decide_false by done. eexists. split; [done|]. unfold chunk_bytes.
  destruct (data_bits_spec (bc_block c) (bc_offset c) (bc_size c)) as [-> ->]; [lia|]. done.
Qed.

Lemma hole_view kk md b v n : md_hole_block_index md = Some (mc_block v) -> md_block_size md = 2 ^ kk -> 0 <= n < 2 ^ 63 ->
  hole_decodes kk (default [] (md_large_hole_size md)) v n -> exists ch, chunk_view md v = Some ch /\ chunk_bytes b ch = replicate (Z.to_nat n) 0.
Proof.
  intros Hh Hb Hn Hd. unfold chunk_view. rewrite Hh, Hb, bool_decide_true by done. unfold hole_decodes in Hd.
  exists (hole_chunk n). destruct (hole_chunk_spec n Hn) as [E1 E2]. unfold chunk_bytes. rewrite E1, E2. split; [|done].
  unfold hole_chunk. rewrite (wrapu_small 64 n) by (unfold in_u; lia). destruct (mc_offset v =? kChunkOffsetIsLargeHole); [by rewrite Hd|by rewrite Hd].
Qed.

Lemma new_view hole vss c v : hole_state hole c v -> mapped_ok c ->
  exists ch, chunk_view (new_files hole vss) v = Some ch /\ chunk_bytes new ch = mapped_bytes c.
Proof.
  intros H Hc. unfold mapped_bytes. destruct hole as [m|]; cbn [hole_state] in H.
  - destruct H as [Hm [[Hp ->]|(H1 & H2 & H3 & H4 & H5 & H6)]].
    + rewrite (piece_not_hole c Hp). apply piece_view; [done| |done]. cbn. rewrite Hm, wrapu_small by (unfold in_u; lia). intros [= E]. destruct Hp; lia.
    + rewrite H1, Z.eqb_refl. apply (hole_view k'); [|done|done|done]. cbn. rewrite Hm, wrapu_small by (unfold in_u; lia). by rewrite H2.
  - destruct H as [Hp ->]. rewrite (piece_not_hole c Hp). by apply piece_view.
Qed.

(** *** The files *)

(** The tables of the old image. *)
Record old_tables : Prop := {
  ot_table : md_chunk_table files <> [] /\ zlen (md_chunk_table files) < 2 ^ 31;
  ot_sorted : StronglySorted Z.le (md_chunk_table files);
  ot_values : Forall (fun x => 0 <= x <= zlen (md_chunks files)) (md_chunk_table files);
  ot_chunks : Forall old_chunk_ok (md_chunks files);
  ot_few : Z.of_nat (max_pieces (md_chunks files)) < 2 ^ 32
}.

Context (Htables : old_tables).

Lemma max_pieces_app a b : max_pieces (a ++ b) = (max_pieces a + max_pieces b)%nat.
Proof. unfold max_pieces. induction a as [|v a IH]; [done|]. cbn. lia. Qed.

Lemma max_pieces_length vs : (length vs <= max_pieces vs)%nat.
Proof. unfold max_pieces. induction vs as [|v vs IH]; [done|]. cbn in *. lia. Qed.

Lemma few_chunks : zlen (md_chunks files) < 2 ^ 32.
Proof. pose proof (ot_few Htables). pose proof (max_pieces_length (md_chunks files)). unfold zlen. lia. Qed.

Lemma span_take a b : 0 <= a <= b -> b < 2 ^ 32 -> chunk_span (md_chunks files) a b = take (Z.to_nat (b - a)) (drop (Z.to_nat a) (md_chunks files)).
Proof. intros Ha Hb. unfold chunk_span. by rewrite wrapu_small by (unfold in_u; lia). Qed.

Lemma span_drop a b : 0 <= a <= b -> b < 2 ^ 32 -> chunk_span (md_chunks files) a b ++ drop (Z.to_nat b) (md_chunks files) = drop (Z.to_nat a) (md_chunks files).
Proof.
  intros Ha Hb. rewrite span_take by done. rewrite <- (take_drop (Z.to_nat (b - a)) (drop (Z.to_nat a) (md_chunks files))) at 2.
  f_equal. rewrite drop_drop. f_equal. lia.
Qed.

Lemma spans_ok table : StronglySorted Z.le table -> Forall (fun x => 0 <= x <= zlen (md_chunks files)) table ->
  Forall (Forall old_chunk_ok) (spans table) /\
  (sum_list_with max_pieces (spans table) <= from_option (fun a => max_pieces (drop (Z.to_nat a) (md_chunks files))) 0 (hd_error table))%nat.
Proof.
  pose proof few_chunks as Hfew. induction 1 as [|a [|b table] Hs IH Ha]; intros Hv; [by split; [constructor|]|split; [constructor|cbn; lia]|].
  apply Forall_cons in Hv as [Hva Hv]. destruct (IH Hv) as [IH1 IH2]. apply Forall_cons in Hv as [Hvb _]. apply Forall_cons in Ha as [Hab _]. rewrite spans_cons. cbn [hd_error from_option] in *.
  pose proof (span_drop a b ltac:(lia) ltac:(lia)) as E. split.
  - constructor; [|done]. rewrite span_take by lia. by apply Forall_take, Forall_drop, (ot_chunks Htables).
  - rewrite <- E, max_pieces_app. change (sum_list_with max_pieces (?x :: ?l)) with (max_pieces x + sum_list_with max_pieces l)%nat. lia.
Qed.

Lemma spans_lookup table i a b : table !! i = Some a -> table !! S i = Some b -> spans table !! i = Some (chunk_span (md_chunks files) a b).
Proof.
  revert i. induction table as [|x [|y table] IH]; intros i Ha Hb; [done|by destruct i|]. rewrite spans_cons. destruct i as [|i]; cbn in Ha, Hb; [by simplify_eq|]. by apply IH.
Qed.

Lemma spans_length table : length (spans table) = (length table - 1)%nat.
Proof. induction table as [|x [|y table] IH]; [done|done|]. rewrite spans_cons. cbn in *. lia. Qed.

(** A file whose chunks are read one by one. *)
Lemma content_of md blocks i a b vs cs : get_chunk_range_from_index md i = Some (a, b) -> 0 <= a -> b - a = zlen vs ->
  take (length vs) (drop (Z.to_nat a) (md_chunks md)) = vs -> mapM (chunk_view md) vs = Some cs ->
  file_content md blocks i = Some (concat (map (chunk_bytes blocks) cs)).
Proof.
  intros Hr Ha Hb Hvs Hcs. unfold file_content. rewrite Hr. cbn [mbind option_bind]. unfold range_chunks. cbn [fst snd].
  destruct (decide (vs = [])) as [->|Hne]; [rewrite Hb; cbn in *; by injection Hcs as <-|].
  assert (md_chunks md = take (Z.to_nat a) (md_chunks md) ++ vs ++ drop (length vs) (drop (Z.to_nat a) (md_chunks md))) as E.
  { rewrite <- Hvs at 1. by rewrite take_drop, take_drop. }
  assert (zlen (take (Z.to_nat a) (md_chunks md)) = a) as El.
  { unfold zlen. rewrite length_take. enough (Z.to_nat a <= length (md_chunks md))%nat by lia. destruct (decide (Z.to_nat a <= length (md_chunks md))%nat); [done|].
    exfalso. apply Hne. rewrite <- Hvs, drop_ge by lia. apply take_nil. }
  pose proof (mapM_range (chunk_view md) (take (Z.to_nat a) (md_chunks md)) vs (drop (length vs) (drop (Z.to_nat a) (md_chunks md))) cs Hcs) as H. rewrite <- E, El, <- Hb in H. by rewrite H.
Qed.

Lemma views_bytes {A} md blocks (f : A -> list Z) (R : A -> meta_chunk -> Prop) l vs :
  (forall x v, R x v -> exists ch, chunk_view md v = Some ch /\ chunk_bytes blocks ch = f x) -> Forall2 R l vs ->
  exists cs, mapM (chunk_view md) vs = Some cs /\ map (chunk_bytes blocks) cs = map f l.
Proof.
  intros HR. induction 1 as [|x v l vs Hx _ (cs & IH1 & IH2)]; [by exists []|]. destruct (HR x v Hx) as (ch & E1 & E2).
  exists (ch :: cs). cbn [mapM map]. rewrite E1, IH1. cbn [mbind option_bind mret option_ret map]. by rewrite E2, IH2.
Qed.

Lemma old_view v : old_chunk_ok v -> exists ch, chunk_view files v = Some ch /\ chunk_bytes old ch = old_bytes v.
Proof.
  unfold old_chunk_ok, old_bytes. case_bool_decide as Hh.
  - intros (Ho & Hs & n & Hn & Hd). destruct (hole_view k files old v n Hh Hbs Hn Hd) as (ch & E1 & E2). exists ch. split; [done|]. rewrite E2. unfold hole_decodes in Hd. unfold old_hole.
    destruct (mc_offset v =? kChunkOffsetIsLargeHole); by rewrite Hd.
  - intros (H1 & H2 & H3 & H4). unfold chunk_view. rewrite bool_decide_false by done. eexists. split; [done|]. unfold chunk_bytes.
    destruct (lookup_lt_is_Some_2 mapping (Z.to_nat (mc_block v))) as [m Hm]; [unfold zlen in *; lia|]. destruct (Hmapping _ m Hm) as (_ & _ & Hlt). rewrite Z2Nat.id in Hlt by lia.
    destruct (data_bits_spec (mc_block v) (mc_offset v) (mc_size v)) as [-> ->]; [lia|]. done.
Qed.

Lemma old_content i vs : spans (md_chunk_table files) !! i = Some vs ->
  file_content files old (Z.of_nat i) = Some (concat (map old_bytes vs)).
Proof.
  intros Hi. pose proof (lookup_lt_Some _ _ _ Hi) as Hlt. rewrite spans_length in Hlt. destruct (ot_table Htables) as [Hne H31].
  destruct (lookup_lt_is_Some_2 (md_chunk_table files) i) as [a Ha]; [lia|]. destruct (lookup_lt_is_Some_2 (md_chunk_table files) (S i)) as [b Hb]; [lia|].
  pose proof (spans_lookup _ _ _ _ Ha Hb) as E. rewrite Hi in E. injection E as ->.
  pose proof (ot_values Htables) as Hv. rewrite Forall_lookup in Hv. pose proof (Hv _ _ Ha) as Va. pose proof (Hv _ _ Hb) as Vb. cbn in Va, Vb.
  pose proof (StronglySorted_lookup Z.le _ i (S i) a b (ot_sorted Htables) ltac:(lia) Ha Hb) as Hab. cbn in Hab. pose proof few_chunks.
  rewrite span_take by lia. set (vs := take (Z.to_nat (b - a)) (drop (Z.to_nat a) (md_chunks files))).
  assert (length vs = Z.to_nat (b - a)) as Hl by (unfold vs; rewrite length_take, length_drop; unfold zlen in *; lia).
  assert (Forall old_chunk_ok vs) as Hok by (by apply Forall_take, Forall_drop, (ot_chunks Htables)).
  destruct (views_bytes files old old_bytes (fun x v => x = v /\ old_chunk_ok v) vs vs) as (cs & E1 & E2).
  { intros x v [-> Hx]. by apply old_view. }
  { apply Forall2_same_length_lookup. split; [done|]. intros j x y Hx Hy. rewrite Hx in Hy. injection Hy as <-. split; [done|]. rewrite Forall_lookup in Hok. eauto. }
  rewrite (content_of files old (Z.of_nat i) a b vs cs); [by rewrite E2| |lia|unfold zlen; rewrite Hl; lia|unfold vs at 2; by rewrite Hl|done].
  unfold get_chunk_range_from_index. rewrite wraps_small by (unfold in_s; pose proof (zlen_nonneg (md_chunk_table files)); lia).
  replace ((0 <=? Z.of_nat i) && (Z.of_nat i + 1 <? zlen (md_chunk_table files))) with true by (unfold zlen; lia).
  rewrite Nat2Z.id. replace (Z.to_nat (Z.of_nat i + 1)) with (S i) by lia. by rewrite Ha, Hb.
Qed.

Lemma starts_same {A B} (R : A -> B -> Prop) l l' base : Forall2 (Forall2 R) l l' -> starts base l = starts base l' /\ zlen (concat l) = zlen (concat l').
Proof.
  intros H. revert base. induction H as [|x y l l' Hx _ IH]; intros base; [done|]. cbn [starts concat]. rewrite !zlen_app.
  assert (zlen x = zlen y) as E by (unfold zlen; by rewrite (Forall2_length _ _ _ Hx)). rewrite E. destruct (IH (base + zlen y)) as [-> ->]. done.
Qed.

Lemma Forall2_split {A B} (R : A -> B -> Prop) ls vs : Forall2 R (concat ls) vs -> exists vss, vs = concat vss /\ Forall2 (Forall2 R) ls vss.
Proof.
  revert vs. induction ls as [|l ls IH]; intros vs H; [apply Forall2_nil_inv_l in H as ->; by exists []|]. cbn in H.
  apply Forall2_app_inv_l in H as (v1 & v2 & H1 & H2 & ->). destruct (IH v2 H2) as (vss & -> & H3). exists (v1 :: vss). split; [done|by constructor].
Qed.

Lemma few_pieces table : StronglySorted Z.le table -> Forall (fun x => 0 <= x <= zlen (md_chunks files)) table ->
  (sum_list_with max_pieces (spans table) <= max_pieces (md_chunks files))%nat.
Proof.
  intros Hs Hv. destruct (spans_ok table Hs Hv) as [_ H]. destruct table as [|a table]; cbn [hd_error from_option] in H; [lia|].
  rewrite <- (take_drop (Z.to_nat a) (md_chunks files)), max_pieces_app. lia.
Qed.

Lemma mapped_lengths vss mss : Forall2 inode_mapped vss mss -> Forall (Forall mapped_ok) mss.
Proof. induction 1 as [|? ? ? ? [H _]]; by constructor. Qed.

(** *** The categories of the blocks *)

Lemma remap_categories_ok old_categories block_map new_categories : NoDup block_map.*1 ->
  Forall (fun e => 0 <= e.1 < zlen new_categories /\ 0 <= e.2 < zlen old_categories) block_map ->
  exists cs, remap_categories old_categories block_map new_categories = Ok cs /\ length cs = length new_categories /\
    (forall b o, (b, o) ∈ block_map -> cs !! Z.to_nat b = old_categories !! Z.to_nat o) /\
    (forall j, Z.of_nat j ∉ block_map.*1 -> cs !! j = new_categories !! j).
Proof.
  revert new_categories. induction block_map as [|[b o] block_map IH]; intros new_categories Hnd H.
  - exists new_categories. split_and!; try done. by intros ? ? ?%elem_of_nil.
  - apply NoDup_cons in Hnd as [Hb Hnd]. apply Forall_cons in H as [[H1 H2] H]. cbn [fst snd] in *. cbn [remap_categories].
    destruct (lookup_lt_is_Some_2 old_categories (Z.to_nat o)) as [c Hc]; [unfold zlen in *; lia|]. rewrite Hc.
    destruct (IH (<[Z.to_nat b := c]> new_categories) Hnd) as (cs & -> & L & V & W); [eapply Forall_impl; [exact H|]; cbn; intros e; unfold zlen; by rewrite length_insert|].
    exists cs. split; [done|]. split; [by rewrite L, length_insert|]. split.
    + intros b' o' [[= -> ->]|Hin]%elem_of_cons; [|by apply V]. rewrite W, list_lookup_insert_eq, Hc by (unfold zlen in *; lia || by rewrite Z2Nat.id by lia). done.
    + intros j Hj. rewrite fmap_cons in Hj. apply not_elem_of_cons in Hj as [Hne Hj]. rewrite W by done. cbn in Hne. by rewrite list_lookup_insert_ne by lia.
Qed.

Lemma remap_category_metadata_ok (old_metadata : gmap Z Z) block_map acc : NoDup block_map.*1 ->
  (forall b o, (b, o) ∈ block_map -> acc !! b = None) ->
  let new_metadata := foldl (add_category_metadata old_metadata) acc block_map in
  (forall b o, (b, o) ∈ block_map -> new_metadata !! b = old_metadata !! o) /\ (forall b, b ∉ block_map.*1 -> new_metadata !! b = acc !! b).
Proof.
  revert acc. induction block_map as [|[b0 o0] block_map IH]; intros acc Hnd Hacc; [split; [by intros ? ? ?%elem_of_nil|done]|].
  rewrite fmap_cons in Hnd. apply NoDup_cons in Hnd as [Hb Hnd]. change ((b0, o0).1) with b0 in Hb. cbn [foldl].
  assert (forall b o, (b, o) ∈ block_map -> b <> b0) as Hne by (intros b o Hin ->; apply Hb; exact (list_elem_of_fmap_2 fst block_map (b0, o) Hin)).
  assert (forall b, b <> b0 -> add_category_metadata old_metadata acc (b0, o0) !! b = acc !! b) as Ho.
  { intros b Hb'. unfold add_category_metadata. cbn [fst snd]. destruct (old_metadata !! o0); [by apply lookup_insert_ne|done]. }
  destruct (IH (add_category_metadata old_metadata acc (b0, o0)) Hnd) as [IH1 IH2].
  { intros b o Hin. rewrite Ho by (by eapply Hne). eapply Hacc. by right. }
  split.
  - intros b o [[= -> ->]|Hin]%elem_of_cons; [|by apply IH1]. rewrite IH2 by done. unfold add_category_metadata. cbn [fst snd]. destruct (old_metadata !! o0); [apply lookup_insert_eq|]. apply (Hacc b0 o0). by left.
  - intros b Hin. rewrite fmap_cons in Hin. apply not_elem_of_cons in Hin as [H1 H2]. cbn in H1. by rewrite IH2, Ho by done.
Qed.

(** *** All of it *)

Context (categories : option (list Z)) (category_metadata : option (gmap Z Z)).
Context (Hcats : forall cs, categories = Some cs -> Forall (fun e => 0 <= e.1 < Z.of_nat (base.size (old_blocks mapping)) /\ 0 <= e.2 < zlen cs) (map_to_list (old_blocks mapping))).

#[local] Abbreviation s := (set_block_size (2 ^ k') (builder_of files (bool_decide (is_Some (md_hole_block_index files))) categories category_metadata)).

(** The categories follow the blocks. *)
Record categories_follow (s' : remap_state) : Prop := {
  cf_categories : forall cs, categories = Some cs -> exists cs', rs_categories s' = Some cs' /\ length cs' = base.size (old_blocks mapping) /\
    forall b o, old_blocks mapping !! b = Some o -> cs' !! Z.to_nat b = cs !! Z.to_nat o;
  cf_no_categories : categories = None -> rs_categories s' = None;
  cf_metadata : rs_category_metadata s' = (fun m => remap_category_metadata m (map_to_list (old_blocks mapping))) <$> category_metadata
}.

(** A mapper is made for an image that has holes. *)
Definition hole_of (hole : option hole_mapper) : Prop :=
  (is_Some hole <-> is_Some (md_hole_block_index files)) /\ forall m, hole = Some m -> hole_block_index_ m = new_block_count.

Lemma holes_made mss m' : Forall (Forall mapped_ok) mss -> zlen (concat mss) < 2 ^ 32 -> 0 <= m' <= 2 ^ 31 -> exists hole vss,
  match md_hole_block_index files with
  | Some _ => let? ' (new_chunks, m) := remap_holes s (concat (map (map to_meta_chunk) mss)) new_block_count m' in
              Ok (new_chunks, Some (wrapu 32 (hole_block_index_ m)), Some (large_hole_sizes_ m))
  | None => Ok (concat (map (map to_meta_chunk) mss), None, md_large_hole_size files)
  end = Ok (concat vss, md_hole_block_index (new_files hole vss), md_large_hole_size (new_files hole vss)) /\
  Forall2 (Forall2 (hole_state hole)) mss vss /\ hole_of hole.
Proof.
  intros Hm Hlen Hmax. rewrite <- concat_map. destruct (md_hole_block_index files) as [hix|] eqn:Eh.
  - unfold remap_holes. cbn [rs_old_block_size rs_files set_block_size builder_of md_large_hole_size md_block_size]. rewrite Hbs, (wrapu_small 32 (2 ^ k')).
    2: { assert (2 ^ k' <= 2 ^ 31) by (apply Z.pow_le_mono_r; lia). unfold in_u. lia. }
    assert (0 <= bit_width m' <= 32) as Hw by (split; [apply bit_width_nonneg|apply bit_width_spec; lia]).
    destruct (remap_hole_chunks_ok (bit_width m') (concat mss) (hole_mapper_create new_block_count (2 ^ k') m') Hw (hole_mapper_create_inv k' Hk' new_block_count m'))
      as (vs & m & -> & I1 & _ & I2); [by apply Forall_concat|cbn; lia|done|]. cbn [rbind]. destruct (Forall2_split _ _ _ I2) as (vss & -> & I3).
    exists (Some m), vss. split; [done|]. split; [|unfold hole_of; rewrite Eh; split; [split; intros _; by eexists|intros ? [= <-]; apply (hm_index _ _ _ _ I1)]]. eapply Forall2_impl; [exact I3|]. intros x y Hxy. eapply Forall2_impl; [exact Hxy|].
    intros c v Hcv. split; [apply (hm_index _ _ _ _ I1)|done].
  - exists None, (map (map to_meta_chunk) mss). cbn. split; [by rewrite concat_map|]. split; [|by unfold hole_of; rewrite Eh; split; [split; intros []|]].
    apply Forall2_fmap_r, Forall_Forall2_diag. eapply Forall_impl; [exact Hm|]. intros ms Hms. apply Forall2_fmap_r, Forall_Forall2_diag. eapply Forall_impl; [exact Hms|].
    intros c [(_ & _ & _ & _ & _ & [? H])|Hc]; [congruence|]. by split.
Qed.

Lemma categories_made : exists categories', match categories with
  | Some old_categories => let? new_categories := remap_categories old_categories (map_to_list (old_blocks mapping)) (replicate (length (map_to_list (old_blocks mapping))) 0) in
                           Ok (Some new_categories)
  | None => Ok None
  end = Ok categories' /\ (categories = None -> categories' = None) /\
  (forall cs, categories = Some cs -> exists cs', categories' = Some cs' /\ length cs' = base.size (old_blocks mapping) /\
    forall b o, old_blocks mapping !! b = Some o -> cs' !! Z.to_nat b = cs !! Z.to_nat o).
Proof.
  destruct categories as [cs|] eqn:Ec; [|exists None; by split_and!].
  destruct (remap_categories_ok cs (map_to_list (old_blocks mapping)) (replicate (length (map_to_list (old_blocks mapping))) 0) (NoDup_fst_map_to_list _)) as (cs' & -> & L & V & _).
  { eapply Forall_impl; [apply (Hcats cs eq_refl)|]. intros e [H1 H2]. split; [|done]. unfold zlen. by rewrite length_replicate, length_map_to_list. }
  exists (Some cs'). split; [done|]. split; [done|]. intros ? [= <-]. exists cs'. split; [done|]. split; [by rewrite L, length_replicate, length_map_to_list|].
  intros b o Hb. by apply V, elem_of_map_to_list.
Qed.

Lemma remap_blocks_made : exists hole mss vss s', remap_blocks mapping new_block_count s = Ok s' /\
  rs_files s' = new_files hole vss /\ Forall2 inode_mapped (spans (md_chunk_table files)) mss /\ Forall2 (Forall2 (hole_state hole)) mss vss /\
  zlen (concat vss) < 2 ^ 32 /\ hole_of hole /\ categories_follow s'.
Proof.
  destruct (ot_table Htables) as [Hne H31]. destruct (spans_ok _ (ot_sorted Htables) (ot_values Htables)) as [Hspans _].
  pose proof (few_pieces _ (ot_sorted Htables) (ot_values Htables)) as Hfew. pose proof (ot_few Htables) as H32.
  destruct (remap_table_ok (md_chunk_table files) [] 0 Hspans) as (mss & m' & E & M1 & M2 & M3); [lia|change (zlen (@nil meta_chunk)) with 0; lia|].
  destruct (holes_made mss m' (mapped_lengths _ _ M1)) as (hole & vss & Eh & Hh & Hsome); [lia|done|]. destruct categories_made as (cats & Ec & Hc1 & Hc2).
  destruct (starts_same _ _ _ 0 Hh) as [Est Elen].
  eexists hole, mss, vss, _. split.
  { unfold remap_blocks. cbn [rs_files set_block_size builder_of md_hole_block_index md_chunk_table md_chunks rs_has_sparsefiles md_block_size md_large_hole_size rs_categories rs_category_metadata rs_old_block_size].
    rewrite bool_decide_false by done. rewrite Bool.eqb_reflx. cbn [negb]. rewrite E. cbn [rbind app]. rewrite Eh. cbn [rbind]. rewrite Ec. cbn [rbind]. reflexivity. }
  cbn [rs_files rs_categories rs_category_metadata]. split; [|split; [done|split; [done|split; [lia|split; [done|by split]]]]].
  unfold new_files. change (zlen (@nil meta_chunk)) with 0. rewrite !Z.add_0_l, Est, Elen, wrapu_small.
  2: { assert (2 ^ k' <= 2 ^ 31) by (apply Z.pow_le_mono_r; lia). unfold in_u. lia. }
  f_equal. by destruct vss.
Qed.

Lemma new_content hole mss vss i ms : Forall2 inode_mapped (spans (md_chunk_table files)) mss -> Forall2 (Forall2 (hole_state hole)) mss vss -> mss !! i = Some ms ->
  file_content (new_files hole vss) new (Z.of_nat i) = Some (all_mapped_bytes ms).
Proof.
  intros Hms Hvs Hi. destruct (Forall2_lookup_l _ _ _ _ _ Hvs Hi) as (vs & Hv & Hmv). pose proof (mapped_lengths _ _ Hms) as Hok. rewrite Forall_lookup in Hok. specialize (Hok _ _ Hi).
  destruct (views_bytes (new_files hole vss) new mapped_bytes (fun c v => hole_state hole c v /\ mapped_ok c) ms vs) as (cs & E1 & E2).
  { intros c v [H1 H2]. by apply new_view. }
  { apply Forall2_same_length_lookup. split; [by apply Forall2_length in Hmv|]. intros j x y Hx Hy. rewrite Forall_lookup in Hok. split; [|by eapply Hok].
    by apply (Forall2_lookup_lr _ _ _ _ _ _ Hmv Hx Hy). }
  assert (zlen vss < 2 ^ 31 - 1) as Hlen.
  { pose proof (Forall2_length _ _ _ Hms) as L1. pose proof (Forall2_length _ _ _ Hvs) as L2. rewrite spans_length in L1. destruct (ot_table Htables) as [Hne H31].
    unfold zlen in *. destruct (md_chunk_table files); [done|]. cbn in *. lia. }
  destruct (concat_take_lookup vss i vs Hv) as [Ec _].
  rewrite (content_of _ new (Z.of_nat i) (zlen (concat (take i vss))) (zlen (concat (take i vss)) + zlen vs) vs cs); [by rewrite E2| |apply zlen_nonneg|lia| |done].
  - apply range_ok; [cbn [new_files md_chunk_table]; by rewrite Z.add_0_l|done|done].
  - cbn [new_files md_chunks]. rewrite Ec. unfold zlen. rewrite Nat2Z.id, drop_app_length, take_app_length. done.
Qed.

Lemma table_lengths hole mss vss : Forall2 inode_mapped (spans (md_chunk_table files)) mss -> Forall2 (Forall2 (hole_state hole)) mss vss ->
  zlen (md_chunk_table (new_files hole vss)) = zlen (md_chunk_table files).
Proof.
  intros Hms Hvs. pose proof (Forall2_length _ _ _ Hms) as L1. pose proof (Forall2_length _ _ _ Hvs) as L2. rewrite spans_length in L1. destruct (ot_table Htables) as [Hne _].
  cbn. unfold zlen. rewrite length_app, length_starts. cbn. destruct (md_chunk_table files); [done|]. cbn in *. lia.
Qed.

Lemma content_kept hole mss vss i : Forall2 inode_mapped (spans (md_chunk_table files)) mss -> Forall2 (Forall2 (hole_state hole)) mss vss ->
  file_content (new_files hole vss) new i = file_content files old i.
Proof.
  intros Hms Hvs. pose proof (table_lengths hole mss vss Hms Hvs) as Hl. destruct (decide (0 <= i < zlen (md_chunk_table files) - 1)) as [Hi|Hi].
  - destruct (lookup_lt_is_Some_2 (spans (md_chunk_table files)) (Z.to_nat i)) as [vs Hv]; [rewrite spans_length; unfold zlen in *; lia|].
    destruct (Forall2_lookup_l _ _ _ _ _ Hms Hv) as (ms & Hm & _ & Eb). rewrite <- (Z2Nat.id i) by lia. rewrite (old_content _ _ Hv), (new_content _ _ _ _ _ Hms Hvs Hm). by rewrite Eb.
  - assert (forall md, zlen (md_chunk_table md) = zlen (md_chunk_table files) -> get_chunk_range_from_index md i = None) as Hn.
    { intros md E. unfold get_chunk_range_from_index. destruct (ot_table Htables) as [_ H31]. rewrite E, wraps_small by (unfold in_s; pose proof (zlen_nonneg (md_chunk_table files)); lia).
      by replace ((0 <=? i) && (i + 1 <? zlen (md_chunk_table files))) with false by lia. }
    unfold file_content. by rewrite !Hn.
Qed.

Lemma Forall2_concat {A B} (R : A -> B -> Prop) l l' : Forall2 (Forall2 R) l l' -> Forall2 R (concat l) (concat l').
Proof. induction 1 as [|x y l l' Hx _ IH]; [constructor|]. cbn. by apply Forall2_app. Qed.

Lemma new_chunk_fits hole mss vss v : Forall (Forall mapped_ok) mss -> Forall2 (Forall2 (hole_state hole)) mss vss ->
  v ∈ concat vss -> chunk_fits (new_files hole vss) v.
Proof.
  intros Hok Hvs Hv. apply list_elem_of_lookup in Hv as [j Hv]. destruct (Forall2_lookup_r _ _ _ _ _ (Forall2_concat _ _ _ Hvs) Hv) as (c & Hc & H).
  assert (forall c, piece_ok c -> md_hole_block_index (new_files hole vss) <> Some (bc_block c) -> chunk_fits (new_files hole vss) (to_meta_chunk c)) as Hpiece.
  { clear c Hc H. intros c Hc Hne. pose proof (piece_small c Hc). pose proof Hc as (C1 & C2 & C3 & C4). pose proof (Hnew (bc_block c)). unfold chunk_fits, to_meta_chunk. cbn [mc_block mc_offset mc_size].
    rewrite !wrapu_small by (unfold in_u; lia). rewrite bool_decide_false by done. cbn [new_files md_block_size]. lia. }
  destruct hole as [m|]; cbn [hole_state] in H.
  - destruct H as [Hm [[Hp ->]|(H1 & H2 & H3 & H4 & H5 & H6)]].
    + apply Hpiece; [done|]. cbn. rewrite Hm, wrapu_small by (unfold in_u; lia). intros [= E]. destruct Hp; lia.
    + unfold chunk_fits. cbn [new_files md_hole_block_index fmap option_fmap option_map]. rewrite Hm, wrapu_small, H2, bool_decide_true by (done || unfold in_u; lia).
      intros Eo. unfold hole_decodes in H3. rewrite Eo, Z.eqb_refl in H3. cbn. apply lookup_lt_Some in H3. unfold in_u, zlen in *. lia.
  - destruct H as [Hp ->]. by apply Hpiece.
Qed.

(** The tables pass the checks that are made when the image is opened. *)
Lemma new_tables_fit hole mss vss : Forall (Forall mapped_ok) mss -> Forall2 (Forall2 (hole_state hole)) mss vss -> zlen (concat vss) < 2 ^ 32 -> is_Some hole \/ md_hole_block_index files = None ->
  table_fits (new_files hole vss) /\ files_fit (new_files hole vss).
Proof.
  intros Hok Hvs Hlen Hh. destruct (starts_le vss 0) as [Hs Hv]. rewrite Z.add_0_l in *. split.
  - split; [|done]. cbn. eapply Forall_impl; [exact Hv|]. cbn. intros; lia.
  - split; cbn [new_files md_chunk_table md_chunks md_block_size md_hole_block_index md_large_hole_size].
    + by apply is_sorted_StronglySorted.
    + apply last_snoc.
    + by exists k'.
    + destruct hole as [m|]; [by eexists|]. by intros [].
    + intros c Hc. by eapply new_chunk_fits.
Qed.

Lemma remap_blocks_spec : exists s', remap_blocks mapping new_block_count s = Ok s' /\
  (forall i, file_content (rs_files s') new i = file_content files old i) /\
  zlen (md_chunk_table (rs_files s')) = zlen (md_chunk_table files) /\ md_block_size (rs_files s') = 2 ^ k' /\
  table_fits (rs_files s') /\ files_fit (rs_files s') /\
  (md_hole_block_index (rs_files s') = if decide (is_Some (md_hole_block_index files)) then Some new_block_count else None) /\ categories_follow s'.
Proof.
  destruct remap_blocks_made as (hole & mss & vss & s' & E & Ef & Hms & Hvs & Hlen & Hh & Hc). exists s'. split; [done|]. rewrite Ef.
  split; [intros i; by eapply content_kept|]. split; [by eapply table_lengths|]. split; [done|].
  destruct (new_tables_fit hole mss vss (mapped_lengths _ _ Hms) Hvs Hlen) as [F1 F2].
  { destruct hole; [left; by eexists|right]. destruct (md_hole_block_index files) as [hix|] eqn:Eh; [|done]. destruct Hh as [[_ Hh] _]. destruct Hh as [? ?]; [by rewrite Eh; eexists|done]. }
  split; [done|]. split; [done|]. split; [|done]. destruct Hh as [Hh Hm]. cbn [new_files md_hole_block_index]. destruct hole as [m|]; cbn.
  - rewrite decide_True by (apply Hh; by eexists). by rewrite (Hm m), wrapu_small by (done || unfold in_u; lia).
  - rewrite decide_False; [done|]. intros H. by destruct (proj2 Hh H).
Qed.
End remapping.
