(* ===== verification/RewriteBlocks.v ===== *)
(** * RewriteBlocks: the blocks of an image are cut anew

    [build_block_mappings] of [src/utility/rewrite_filesystem.cpp]: the blocks of
    an image are grouped by category and metadata, and every group is cut into
    blocks of a new size.  The maps it returns are what the new blocks are put
    together from and what [metadata_builder::remap_blocks] ([RemapBlocks])
    takes; the theorem puts both together: an image whose block size is changed
    has the files it had. *)

From stdpp Require Import sorting.
From S2P Require Import Prelude EntryLists EntryData RemapBlocks FileChunks.
Local Open Scope Z_scope.

(** ** The data *)

(** [block_info], without the section: its number, size, category, metadata and
    constraints ([compression_constraints], whose granularity is optional). *)
Record block_info : Type := BlockInfo {
  bi_block : Z;
  uncompressed_size : Z;
  bi_category_name : option (list Z);
  bi_metadata : option (list Z);
  bi_constraints : option (option Z)
}.

Record new_block_mapping : Type := NewBlock {
  nb_block : Z;
  nb_size : Z;
  nb_chunks : list block_chunk;
  nb_category_name : option (list Z);
  nb_metadata : option (list Z)
}.

Record rw_block_mappings : Type := Mappings {
  new_to_old : list new_block_mapping;
  old_to_new : list block_mapping
}.

Inductive rewrite_error : Type :=
  | no_such_block       (* an index out of range of [blocks] *)
  | does_not_end.       (* out of fuel *)

Definition stream_id : Type := option (list Z) * option (list Z).

Definition id_of_block (b : block_info) : stream_id := (bi_category_name b, bi_metadata b).
Definition new_id (m : new_block_mapping) : stream_id := (nb_category_name m, nb_metadata m).

(** ** The streams *)

Definition add_block (b : block_info) (s : list (list Z) * gmap stream_id nat) : list (list Z) * gmap stream_id nat :=
  let '(streams, stream_map) := s in
  let '(ix, streams, stream_map) :=
    match stream_map !! id_of_block b with
    | Some ix => (ix, streams, stream_map)
    | None => (length streams, streams ++ [[]], <[id_of_block b := length streams]> stream_map)
    end in
  (alter (fun stream => stream ++ [bi_block b]) ix streams, stream_map).

Definition streams_of (blocks : list block_info) : list (list Z) :=
  (foldl (fun s b => add_block b s) ([], ∅) blocks).1.

(** ** The loops over the blocks of a stream *)

Definition granularity_of (b : block_info) : Z := default 1 (default None (bi_constraints b)).

(** [mapped], whose last block has room. *)
Definition with_room (base max_size : Z) (b : block_info) (mapped : list new_block_mapping) : list new_block_mapping * new_block_mapping :=
  let fresh := NewBlock (base + zlen mapped) 0 [] (bi_category_name b) (bi_metadata b) in
  match last mapped with
  | Some m => if nb_size m =? max_size then (mapped, fresh) else (removelast mapped, m)
  | None => (mapped, fresh)
  end.

(** [while (offset < b.uncompressed_size)]; the chunks of [old_to_new.back()]. *)
Fixpoint cut_block (fuel : nat) (base max_size : Z) (block : Z) (b : block_info) (offset : Z) (chunks : list block_chunk)
    (mapped : list new_block_mapping) : result rewrite_error (list block_chunk * list new_block_mapping) :=
  match fuel with
  | O => Err does_not_end
  | S fuel =>
      if offset <? uncompressed_size b then
        let '(mapped, m) := with_room base max_size b mapped in
        let chunk_size := Z.min (uncompressed_size b - offset) (max_size - nb_size m) in
        let chunks := chunks ++ [BlockChunk (nb_block m) (nb_size m) chunk_size] in
        let m := NewBlock (nb_block m) (nb_size m + chunk_size) (nb_chunks m ++ [BlockChunk block offset chunk_size]) (nb_category_name m) (nb_metadata m) in
        cut_block fuel base max_size block b (offset + chunk_size) chunks (mapped ++ [m])
      else Ok (chunks, mapped)
  end.

Definition block_entry (blocks : list block_info) (block : Z) : result rewrite_error block_info :=
  match blocks !! Z.to_nat block with Some b => Ok b | None => Err no_such_block end.

Fixpoint cut_stream (fuel : nat) (blocks : list block_info) (base max_size : Z) (stream : list Z) (maps : list block_mapping)
    (mapped : list new_block_mapping) : result rewrite_error (list block_mapping * list new_block_mapping) :=
  match stream with
  | [] => Ok (maps, mapped)
  | block :: stream =>
      let? b := block_entry blocks block in
      let? ' (chunks, mapped) := cut_block fuel base max_size block b 0 [] mapped in
      cut_stream fuel blocks base max_size stream (maps ++ [BlockMapping block chunks]) mapped
  end.

Fixpoint cut_streams (fuel : nat) (blocks : list block_info) (block_size : Z) (streams : list (list Z)) (r : rw_block_mappings) :
    result rewrite_error rw_block_mappings :=
  match streams with
  | [] => Ok r
  | stream :: streams =>
      let? first := block_entry blocks (hd 0 stream) in
      let granularity := granularity_of first in
      let? ' (maps, mapped) := cut_stream fuel blocks (zlen (new_to_old r)) (granularity * (block_size / granularity)) stream (old_to_new r) [] in
      cut_streams fuel blocks block_size streams (Mappings (new_to_old r ++ mapped) maps)
  end.

Definition old_block_le (a b : block_mapping) : Prop := old_block a <= old_block b.
#[global] Instance old_block_le_dec a b : Decision (old_block_le a b).
Proof. unfold old_block_le. apply _. Defined.

Definition build_block_mappings (fuel : nat) (blocks : list block_info) (block_size : Z) : result rewrite_error rw_block_mappings :=
  let? r := cut_streams fuel blocks block_size (streams_of blocks) (Mappings [] []) in
  Ok (Mappings (new_to_old r) (merge_sort old_block_le (old_to_new r))).

(** What the function given to [rewrite_block] puts together. *)
Definition new_block_data (old : Z -> list Z) (m : new_block_mapping) : list Z :=
  concat (map (fun c => slice (old (bc_block c)) (bc_offset c) (bc_size c)) (nb_chunks m)).

(** ** Cutting *)

Section cutting.
Context (old : Z -> list Z) (blocks : list block_info) (gran : stream_id -> Z).

(** The blocks of the image: numbered, with the sizes of their data. *)
Record source_ok : Prop := {
  so_blocks : forall i b, blocks !! i = Some b -> bi_block b = Z.of_nat i /\ uncompressed_size b = zlen (old (Z.of_nat i));
  so_granularity : forall i b, blocks !! i = Some b -> granularity_of b = gran (id_of_block b) /\ 0 < gran (id_of_block b) /\ (gran (id_of_block b) | uncompressed_size b)
}.

#[local] Abbreviation data_of := (new_block_data old).

(** A range of an old block that has an identity. *)
Definition source_chunk (id : stream_id) (c : block_chunk) : Prop :=
  0 <= bc_offset c /\ 0 < bc_size c /\ bc_offset c + bc_size c <= zlen (old (bc_block c)) /\ (gran id | bc_size c) /\
  exists b, blocks !! Z.to_nat (bc_block c) = Some b /\ 0 <= bc_block c /\ id_of_block b = id.

(** A new block: its number, its size, and where its bytes come from. *)
Record new_block_ok (j : nat) (m : new_block_mapping) : Prop := {
  nk_number : nb_block m = Z.of_nat j;
  nk_size : nb_size m = zlen (data_of m);
  nk_chunks : nb_chunks m <> [] /\ Forall (source_chunk (new_id m)) (nb_chunks m)
}.

Definition new_blocks_ok (l : list new_block_mapping) : Prop := forall j m, l !! j = Some m -> new_block_ok j m.

(** Blocks are added, and the last one grows. *)
Definition grows (l l' : list new_block_mapping) : Prop :=
  forall j m, l !! j = Some m -> exists m', l' !! j = Some m' /\ data_of m `prefix_of` data_of m' /\ new_id m' = new_id m.

#[local] Instance grows_preorder : PreOrder grows.
Proof.
  split; [intros l j m Hj; by exists m|]. intros l1 l2 l3 H12 H23 j m Hj. destruct (H12 j m Hj) as (m2 & H2 & P2 & I2). destruct (H23 j m2 H2) as (m3 & H3 & P3 & I3).
  exists m3. split; [done|]. split; [by etrans|congruence].
Qed.

(** A piece of a new block. *)
Definition piece_in (l : list new_block_mapping) (id : stream_id) (c : block_chunk) : Prop :=
  0 <= bc_block c /\ 0 <= bc_offset c /\ 0 < bc_size c /\ exists m, l !! Z.to_nat (bc_block c) = Some m /\ bc_offset c + bc_size c <= zlen (data_of m) /\ new_id m = id.
Definition piece_data (l : list new_block_mapping) (c : block_chunk) : list Z :=
  from_option (fun m => slice (data_of m) (bc_offset c) (bc_size c)) [] (l !! Z.to_nat (bc_block c)).

Lemma slice_of_prefix l l' off n : l `prefix_of` l' -> 0 <= off -> 0 <= n -> off + n <= zlen l -> slice l' off n = slice l off n.
Proof. intros [k ->] H1 H2 H3. by apply slice_app_l. Qed.

Lemma piece_grows l l' id c : grows l l' -> piece_in l id c -> piece_in l' id c /\ piece_data l' c = piece_data l c.
Proof.
  intros Hg (H1 & H2 & H3 & m & Hm & H4 & H5). destruct (Hg _ m Hm) as (m' & Hm' & Hp & Hi). unfold piece_data, piece_in. rewrite Hm, Hm'. cbn [from_option].
  split; [|by apply slice_of_prefix; [done|lia..]]. split; [done|]. split; [done|]. split; [done|]. exists m'. split; [done|]. split; [|congruence].
  destruct Hp as [k ->]. rewrite zlen_app. pose proof (zlen_nonneg k). lia.
Qed.

Lemma pieces_grow l l' id cs : grows l l' -> Forall (piece_in l id) cs -> Forall (piece_in l' id) cs /\ map (piece_data l') cs = map (piece_data l) cs.
Proof.
  intros Hg. induction 1 as [|c cs Hc _ [IH1 IH2]]; [done|]. destruct (piece_grows l l' id c Hg Hc) as [H1 H2]. split; [by constructor|]. cbn. by rewrite H2, IH2.
Qed.

(** The last block of [mapped] has a byte more at most. *)
Definition room_ok (max_size : Z) (id : stream_id) (mapped : list new_block_mapping) : Prop :=
  Forall (fun m => nb_size m <= max_size /\ (gran id | nb_size m) /\ new_id m = id) mapped.

Lemma with_room_ok (done : list new_block_mapping) max_size b mapped : new_blocks_ok (done ++ mapped) -> room_ok max_size (id_of_block b) mapped -> 0 < max_size -> (gran (id_of_block b) | max_size) ->
  let '(pre, m) := with_room (zlen done) max_size b mapped in
  nb_block m = zlen (done ++ pre) /\ nb_size m = zlen (data_of m) /\ Forall (source_chunk (new_id m)) (nb_chunks m) /\ new_id m = id_of_block b /\
  0 <= nb_size m < max_size /\ (gran (id_of_block b) | nb_size m) /\ room_ok max_size (id_of_block b) pre /\ new_blocks_ok (done ++ pre) /\
  (mapped = pre \/ mapped = pre ++ [m]).
Proof.
  intros Hok Hroom Hmax Hg. unfold with_room. set (fresh := NewBlock _ _ _ _ _).
  assert (nb_block fresh = zlen (done ++ mapped) /\ nb_size fresh = zlen (data_of fresh) /\ Forall (source_chunk (new_id fresh)) (nb_chunks fresh) /\ new_id fresh = id_of_block b /\
    0 <= nb_size fresh < max_size /\ (gran (id_of_block b) | nb_size fresh) /\ room_ok max_size (id_of_block b) mapped /\ new_blocks_ok (done ++ mapped) /\ (mapped = mapped \/ mapped = mapped ++ [fresh])) as Hfresh.
  { unfold fresh. cbn. rewrite zlen_app. split_and!; try done; try lia; try (apply Z.divide_0_r); by left. }
  destruct (last mapped) as [m|] eqn:El; [|exact Hfresh]. destruct (Z.eqb_spec (nb_size m) max_size) as [E|E]; [exact Hfresh|].
  apply last_Some in El as [pre ->]. rewrite removelast_last. apply Forall_app in Hroom as [Hpre Hm]. apply Forall_cons in Hm as [(M1 & M2 & M3) _].
  assert (new_block_ok (length (done ++ pre)) m) as [N1 N2 [N3 N4]].
  { apply Hok. rewrite app_assoc, lookup_app_r, Nat.sub_diag by lia. done. }
  split; [done|]. split; [done|]. split; [done|]. split; [done|]. split; [rewrite N2 in *; pose proof (zlen_nonneg (data_of m)); lia|]. split; [done|]. split; [done|].
  split; [|by right]. intros j m' Hj. apply Hok. rewrite app_assoc. by apply lookup_app_l_Some.
Qed.

(** The new blocks that pieces are in. *)
Definition covers (l l' : list new_block_mapping) (cs : list block_chunk) : Prop :=
  (length l <= length l')%nat /\ forall j, (length l <= j < length l')%nat -> exists c, c ∈ cs /\ bc_block c = Z.of_nat j.

Definition put_chunk (m : new_block_mapping) (c : block_chunk) : new_block_mapping :=
  NewBlock (nb_block m) (nb_size m + bc_size c) (nb_chunks m ++ [c]) (nb_category_name m) (nb_metadata m).

Lemma data_put m c : data_of (put_chunk m c) = data_of m ++ slice (old (bc_block c)) (bc_offset c) (bc_size c).
Proof. unfold new_block_data. cbn [put_chunk nb_chunks]. rewrite map_app, concat_app. cbn. by rewrite app_nil_r. Qed.

Lemma source_data id c : source_chunk id c -> zlen (slice (old (bc_block c)) (bc_offset c) (bc_size c)) = bc_size c.
Proof. intros (H1 & H2 & H3 & _). apply slice_length; lia. Qed.

Lemma room_app max_size id a b : room_ok max_size id (a ++ b) <-> room_ok max_size id a /\ room_ok max_size id b.
Proof. apply Forall_app. Qed.

Lemma put_ok (done pre mapped : list new_block_mapping) max_size b m c : (mapped = pre \/ mapped = pre ++ [m]) ->
  nb_block m = zlen (done ++ pre) -> nb_size m = zlen (data_of m) -> Forall (source_chunk (new_id m)) (nb_chunks m) -> new_id m = id_of_block b ->
  0 <= nb_size m -> (gran (id_of_block b) | nb_size m) -> room_ok max_size (id_of_block b) pre -> new_blocks_ok (done ++ pre) ->
  source_chunk (id_of_block b) c -> nb_size m + bc_size c <= max_size ->
  let l := done ++ pre ++ [put_chunk m c] in let p := BlockChunk (nb_block m) (nb_size m) (bc_size c) in
  new_blocks_ok l /\ room_ok max_size (id_of_block b) (pre ++ [put_chunk m c]) /\ grows (done ++ mapped) l /\ piece_in l (id_of_block b) p /\
  piece_data l p = slice (old (bc_block c)) (bc_offset c) (bc_size c) /\ covers (done ++ mapped) l [p].
Proof.
  intros Hmapped Hn Hs Hch Hid H0 Hg Hroom Hok Hc Hle l p. pose proof (source_data _ _ Hc) as Hlen. pose proof Hc as (C1 & C2 & C3 & C4 & C5).
  assert (l !! length (done ++ pre) = Some (put_chunk m c)) as Hl by (unfold l; by rewrite app_assoc, lookup_app_r, Nat.sub_diag by lia).
  assert (Z.to_nat (nb_block m) = length (done ++ pre)) as Ej by (rewrite Hn; unfold zlen; lia).
  assert (new_block_ok (length (done ++ pre)) (put_chunk m c)) as Hm'.
  { split; [by rewrite <- Ej, Z2Nat.id by (rewrite Hn; apply zlen_nonneg)|rewrite data_put, zlen_app, Hlen, <- Hs; done|]. cbn [put_chunk nb_chunks]. split; [by destruct (nb_chunks m)|].
    apply Forall_app. split; [done|]. constructor; [|constructor]. by change (new_id (put_chunk m c)) with (new_id m); rewrite Hid. }
  assert (forall j x, (done ++ mapped) !! j = Some x -> (done ++ pre) !! j = Some x \/ j = length (done ++ pre) /\ x = m) as Hold.
  { intros j x Hj. destruct Hmapped as [->| ->]; [by left|]. rewrite app_assoc in Hj. apply lookup_app_Some in Hj as [Hj|[Hge Hj]]; [by left|right].
    apply list_lookup_singleton_Some in Hj as [Hj <-]. split; [lia|done]. }
  split; [|split; [|split; [|split; [|split]]]].
  - intros j x Hj. unfold l in Hj. rewrite app_assoc in Hj. apply lookup_app_Some in Hj as [Hj|[Hge Hj]]; [by apply Hok|].
    apply list_lookup_singleton_Some in Hj as [Hj <-]. by replace j with (length (done ++ pre)) by lia.
  - apply room_app. split; [done|]. constructor; [|constructor]. cbn [put_chunk nb_size]. split; [done|]. split; [by apply Z.divide_add_r|by rewrite <- Hid].
  - intros j x Hj. destruct (Hold j x Hj) as [H|[-> ->]].
    + exists x. split; [unfold l; rewrite app_assoc; by apply lookup_app_l_Some|done].
    + exists (put_chunk m c). split; [done|]. rewrite data_put. split; [by apply prefix_app_r|done].
  - unfold piece_in, p. cbn [bc_block bc_offset bc_size]. rewrite Ej. split; [rewrite Hn; apply zlen_nonneg|]. split; [done|]. split; [done|]. exists (put_chunk m c). split; [done|].
    rewrite data_put, zlen_app, Hlen, <- Hs. split; [lia|by rewrite <- Hid].
  - unfold piece_data, p. cbn [bc_block bc_offset bc_size]. rewrite Ej, Hl. cbn [from_option]. rewrite data_put, Hs.
    etransitivity; [apply slice_skip with (k := zlen (data_of m)); [done|pose proof (zlen_nonneg (data_of m)); lia]|]. rewrite Z.sub_diag. apply slice_all. lia.
  - unfold covers, l. rewrite app_assoc, (length_app (done ++ pre)). cbn [length]. split; [destruct Hmapped as [->| ->]; [lia|rewrite app_assoc, length_app; cbn; lia]|].
    intros j Hj. exists p. split; [by left|]. cbn [p bc_block]. rewrite Hn. unfold zlen. f_equal. destruct Hmapped as [->| ->]; [lia|]. rewrite app_assoc, length_app in Hj. cbn in Hj. lia.
Qed.

Lemma covers_trans l1 l2 l3 a b : covers l1 l2 a -> covers l2 l3 b -> covers l1 l3 (a ++ b).
Proof.
  intros [L1 C1] [L2 C2]. split; [lia|]. intros j Hj. destruct (decide (j < length l2)%nat) as [H|H].
  - destruct (C1 j ltac:(lia)) as (c & Hc & E). exists c. split; [by apply elem_of_app; left|done].
  - destruct (C2 j ltac:(lia)) as (c & Hc & E). exists c. split; [by apply elem_of_app; right|done].
Qed.

Definition whole_data (l : list new_block_mapping) (cs : list block_chunk) : list Z := concat (map (piece_data l) cs).

Lemma cut_block_ok fuel done max_size block b offset chunks mapped : blocks !! Z.to_nat block = Some b -> 0 <= block -> uncompressed_size b = zlen (old block) ->
  (gran (id_of_block b) | uncompressed_size b) -> 0 < max_size -> (gran (id_of_block b) | max_size) -> 0 <= offset <= uncompressed_size b -> (gran (id_of_block b) | offset) ->
  new_blocks_ok (done ++ mapped) -> room_ok max_size (id_of_block b) mapped -> (Z.to_nat (uncompressed_size b - offset) < fuel)%nat ->
  exists cs mapped', cut_block fuel (zlen done) max_size block b offset chunks mapped = Ok (chunks ++ cs, mapped') /\
    new_blocks_ok (done ++ mapped') /\ room_ok max_size (id_of_block b) mapped' /\ grows (done ++ mapped) (done ++ mapped') /\
    Forall (piece_in (done ++ mapped') (id_of_block b)) cs /\ whole_data (done ++ mapped') cs = slice (old block) offset (uncompressed_size b - offset) /\
    covers (done ++ mapped) (done ++ mapped') cs.
Proof.
  intros Hb H0 Hsz Hgs Hmax Hgm. revert offset chunks mapped. induction fuel as [|fuel IH]; intros offset chunks mapped Ho Hgo Hok Hroom Hfuel; [lia|]. cbn [cut_block].
  destruct (Z.ltb_spec offset (uncompressed_size b)) as [Hlt|Hge].
  - pose proof (with_room_ok done max_size b mapped Hok Hroom Hmax Hgm) as Hw. destruct (with_room (zlen done) max_size b mapped) as [pre m]. destruct Hw as (W1 & W2 & W3 & W4 & W5 & W6 & W7 & W8 & W9).
    set (n := Z.min _ _). set (c := BlockChunk block offset n).
    assert ((gran (id_of_block b) | n)) as Hgn by (unfold n; destruct (Z.min_dec (uncompressed_size b - offset) (max_size - nb_size m)) as [-> | ->]; by apply Z.divide_sub_r).
    assert (source_chunk (id_of_block b) c) as Hc by (unfold source_chunk, c; cbn [bc_block bc_offset bc_size]; split; [lia|split; [lia|split; [lia|split; [done|by exists b]]]]).
    destruct (put_ok done pre mapped max_size b m c W9 W1 W2 W3 W4 ltac:(lia) W6 W7 W8 Hc ltac:(cbn; lia)) as (P1 & P2 & P3 & P4 & P5 & P6).
    destruct (IH (offset + n) (chunks ++ [BlockChunk (nb_block m) (nb_size m) n]) (pre ++ [put_chunk m c])) as (cs & mapped' & E & I1 & I2 & I3 & I4 & I5 & I6);
      [lia|by apply Z.divide_add_r|done|done|lia|].
    change (NewBlock (nb_block m) (nb_size m + n) (nb_chunks m ++ [c]) (nb_category_name m) (nb_metadata m)) with (put_chunk m c). rewrite E.
    exists (BlockChunk (nb_block m) (nb_size m) n :: cs), mapped'. split; [by rewrite <- app_assoc|]. split; [done|]. split; [done|]. split; [by etrans|].
    destruct (piece_grows _ _ _ _ I3 P4) as [Q1 Q2]. split; [by constructor|]. split; [|by apply (covers_trans _ _ _ _ _ P6 I6)].
    unfold whole_data in *. cbn [map concat]. rewrite I5. cbn [c bc_size] in Q2, P5. rewrite Q2, P5. cbn [c bc_block bc_offset bc_size].
    rewrite <- slice_add by lia. f_equal. lia.
  - exists [], mapped. rewrite app_nil_r. split; [done|]. split; [done|]. split; [done|]. split; [done|]. split; [constructor|].
    replace (uncompressed_size b - offset) with 0 by lia. split; [done|]. split; [done|]. intros j Hj. lia.
Qed.

(** ** The streams *)

Definition has_id (id : stream_id) (block : Z) : Prop := 0 <= block /\ exists b, blocks !! Z.to_nat block = Some b /\ id_of_block b = id.
Definition stream_ok (id : stream_id) (stream : list Z) : Prop := stream <> [] /\ Forall (has_id id) stream.

Lemma concat_alter (streams : list (list Z)) ix x : (ix < length streams)%nat ->
  concat (alter (fun stream => stream ++ [x]) ix streams) ≡ₚ concat streams ++ [x].
Proof.
  revert ix. induction streams as [|s streams IH]; intros ix Hix; cbn in Hix; [lia|]. destruct ix as [|ix]; cbn.
  - rewrite <- !app_assoc. f_equiv. apply Permutation_app_comm.
  - rewrite <- app_assoc. f_equiv. apply IH. lia.
Qed.

Definition grouped (done : list block_info) (s : list (list Z) * gmap stream_id nat) : Prop :=
  exists ids, Forall2 stream_ok ids s.1 /\ (forall id ix, s.2 !! id = Some ix <-> ids !! ix = Some id) /\ concat s.1 ≡ₚ map bi_block done.

Lemma add_block_ok done b s : has_id (id_of_block b) (bi_block b) -> grouped done s -> grouped (done ++ [b]) (add_block b s).
Proof.
  intros Hb (ids & H1 & H2 & H3). destruct s as [streams stream_map]. cbn [fst snd] in *. unfold add_block. pose proof (Forall2_length _ _ _ H1) as Hl.
  destruct (stream_map !! id_of_block b) as [ix|] eqn:E; cbn [fst snd].
  - apply H2 in E as Hi. pose proof (lookup_lt_Some _ _ _ Hi) as Hlt. exists ids. cbn [fst snd]. split; [|split; [done|by rewrite concat_alter, H3, map_app by lia]].
    apply Forall2_same_length_lookup. split; [by rewrite length_alter|]. intros j id stream Hj Hs. rewrite list_lookup_alter in Hs.
    destruct (decide (ix = j)) as [->|Hne].
    + rewrite Hi in Hj. injection Hj as <-. destruct (streams !! j) as [st|] eqn:Es; [|done]. injection Hs as <-. pose proof (Forall2_lookup_lr _ _ _ _ _ _ H1 Hi Es) as [S1 S2].
      split; [by destruct st|]. apply Forall_app. split; [done|by constructor].
    + by apply (Forall2_lookup_lr _ _ _ _ _ _ H1 Hj Hs).
  - assert (alter (fun stream => stream ++ [bi_block b]) (length streams) (streams ++ [[]]) = streams ++ [[bi_block b]]) as ->.
    { rewrite <- (Nat.add_0_r (length streams)). by rewrite alter_app_r. }
    exists (ids ++ [id_of_block b]). cbn [fst snd]. split; [apply Forall2_app; [done|]; constructor; [by split; [|constructor]|constructor]|]. split; [|by rewrite concat_app, H3, map_app].
    intros id ix. rewrite lookup_insert. case_decide as Eid.
    + subst id. split.
      * intros [= <-]. by rewrite <- Hl, lookup_app_r, Nat.sub_diag by lia.
      * intros [Hi|[Hge Hi]]%lookup_app_Some; [apply H2 in Hi; congruence|]. apply list_lookup_singleton_Some in Hi as [Hi _]. f_equal. lia.
    + rewrite H2. split; [intros Hi; by apply lookup_app_l_Some|]. intros [Hi|[_ Hi]]%lookup_app_Some; [done|]. apply list_lookup_singleton_Some in Hi as [_ Hi]. congruence.
Qed.

Context (Hsource : source_ok).

Lemma block_has_id i b : blocks !! i = Some b -> has_id (id_of_block b) (bi_block b).
Proof. intros Hi. destruct (so_blocks Hsource i b Hi) as [-> _]. split; [lia|]. exists b. by rewrite Nat2Z.id. Qed.

Lemma streams_of_ok : exists ids, Forall2 stream_ok ids (streams_of blocks) /\ concat (streams_of blocks) ≡ₚ map bi_block blocks.
Proof.
  assert (forall done todo s, done ++ todo = blocks -> grouped done s -> grouped blocks (foldl (fun s b => add_block b s) s todo)) as H.
  { intros done todo. revert done. induction todo as [|b todo IH]; intros done s E Hs; cbn [foldl]; [by rewrite <- E, app_nil_r|].
    apply (IH (done ++ [b])); [by rewrite <- app_assoc|]. apply add_block_ok; [|done]. apply (block_has_id (length done)). by rewrite <- E, lookup_app_r, Nat.sub_diag by lia. }
  destruct (H [] blocks ([], ∅) eq_refl) as (ids & H1 & _ & H3); [|by exists ids].
  exists []. split; [constructor|]. split; [|done]. intros id ix. cbn. rewrite lookup_empty. by split.
Qed.

(** ** All blocks *)

(** An entry of [old_to_new]: the old block is in its pieces. *)
Definition map_ok (l : list new_block_mapping) (m : block_mapping) : Prop :=
  exists b, blocks !! Z.to_nat (old_block m) = Some b /\ 0 <= old_block m /\ Forall (piece_in l (id_of_block b)) (mapping_chunks m) /\
    whole_data l (mapping_chunks m) = old (old_block m).

Lemma maps_grow l l' ms : grows l l' -> Forall (map_ok l) ms -> Forall (map_ok l') ms.
Proof.
  intros Hg H. eapply Forall_impl; [exact H|]. intros m (b & H1 & H2 & H3 & H4). destruct (pieces_grow l l' _ _ Hg H3) as [H5 H6].
  exists b. split; [done|]. split; [done|]. split; [done|]. unfold whole_data in *. by rewrite H6.
Qed.

Definition pieces (ms : list block_mapping) : list block_chunk := concat (map mapping_chunks ms).

Lemma pieces_app a b : pieces (a ++ b) = pieces a ++ pieces b.
Proof. unfold pieces. by rewrite map_app, concat_app. Qed.

Lemma block_entry_ok id block : has_id id block -> exists b, block_entry blocks block = Ok b /\ blocks !! Z.to_nat block = Some b /\ 0 <= block /\ id_of_block b = id /\
  uncompressed_size b = zlen (old block) /\ granularity_of b = gran id /\ 0 < gran id /\ (gran id | uncompressed_size b).
Proof.
  intros (H0 & b & Hb & Hid). exists b. unfold block_entry. rewrite Hb. destruct (so_blocks Hsource _ _ Hb) as [_ H1]. destruct (so_granularity Hsource _ _ Hb) as (H2 & H3 & H4).
  rewrite Hid, Z2Nat.id in * by lia. done.
Qed.

Context (fuel : nat) (Hfuel : forall b, b ∈ blocks -> (Z.to_nat (uncompressed_size b) < fuel)%nat).

Lemma cut_stream_ok (done : list new_block_mapping) max_size id stream maps mapped : Forall (has_id id) stream -> 0 < max_size -> (gran id | max_size) ->
  new_blocks_ok (done ++ mapped) -> room_ok max_size id mapped ->
  exists ms mapped', cut_stream fuel blocks (zlen done) max_size stream maps mapped = Ok (maps ++ ms, mapped') /\
    new_blocks_ok (done ++ mapped') /\ room_ok max_size id mapped' /\ grows (done ++ mapped) (done ++ mapped') /\
    map old_block ms = stream /\ Forall (map_ok (done ++ mapped')) ms /\ covers (done ++ mapped) (done ++ mapped') (pieces ms).
Proof.
  intros Hst Hmax Hgm. revert maps mapped. induction Hst as [|block stream Hb _ IH]; intros maps mapped Hok Hroom; cbn [cut_stream].
  - exists [], mapped. rewrite app_nil_r. split; [done|]. split; [done|]. split; [done|]. split; [done|]. split; [done|]. split; [constructor|]. split; [done|]. intros j Hj. lia.
  - destruct (block_entry_ok id block Hb) as (b & -> & Eb & H0 & <- & Esz & _ & _ & Hdiv). cbn [rbind].
    destruct (cut_block_ok fuel done max_size block b 0 [] mapped Eb H0 Esz Hdiv Hmax Hgm) as (cs & mapped1 & -> & C1 & C2 & C3 & C4 & C5 & C6);
      [rewrite Esz; pose proof (zlen_nonneg (old block)); lia|apply Z.divide_0_r|done|done|rewrite Z.sub_0_r; apply Hfuel; by eapply list_elem_of_lookup_2|]. cbn [rbind app].
    destruct (IH (maps ++ [BlockMapping block cs]) mapped1 C1 C2) as (ms & mapped' & -> & I1 & I2 & I3 & I4 & I5 & I6).
    exists (BlockMapping block cs :: ms), mapped'. split; [by rewrite <- app_assoc|]. split; [done|]. split; [done|]. split; [by etrans|]. split; [cbn; by rewrite I4|].
    split; [|unfold pieces; cbn [map concat mapping_chunks]; by eapply covers_trans].
    apply (Forall_app_2 _ [BlockMapping block cs]); [|done]. apply (maps_grow _ _ _ I3). constructor; [|constructor]. exists b. cbn [old_block mapping_chunks]. split; [done|]. split; [done|]. split; [done|].
    rewrite C5, Z.sub_0_r, Esz. by apply slice_all.
Qed.

(** The sizes of the new blocks. *)
Definition sizes_ok (block_size : Z) (l : list new_block_mapping) : Prop :=
  Forall (fun m => 0 < nb_size m <= block_size /\ (gran (new_id m) | nb_size m)) l.

Lemma new_size_pos l j m : new_blocks_ok l -> l !! j = Some m -> 0 < nb_size m.
Proof.
  intros Hok Hj. destruct (Hok j m Hj) as [_ Hs [Hne Hch]]. rewrite Hs. unfold new_block_data. destruct (nb_chunks m) as [|c cs]; [done|]. apply Forall_cons in Hch as [Hc _].
  cbn [map concat]. rewrite zlen_app, (source_data _ _ Hc). destruct Hc as (_ & Hc & _). pose proof (zlen_nonneg (concat (map (fun c => slice (old (bc_block c)) (bc_offset c) (bc_size c)) cs))). lia.
Qed.

Lemma cut_streams_ok block_size streams ids r : Forall2 stream_ok ids streams -> (forall id, 0 < gran id -> gran id <= block_size) ->
  new_blocks_ok (new_to_old r) -> sizes_ok block_size (new_to_old r) -> Forall (map_ok (new_to_old r)) (old_to_new r) -> covers [] (new_to_old r) (pieces (old_to_new r)) ->
  exists r', cut_streams fuel blocks block_size streams r = Ok r' /\ new_blocks_ok (new_to_old r') /\ sizes_ok block_size (new_to_old r') /\
    Forall (map_ok (new_to_old r')) (old_to_new r') /\ covers [] (new_to_old r') (pieces (old_to_new r')) /\ map old_block (old_to_new r') = map old_block (old_to_new r) ++ concat streams.
Proof.
  intros Hst Hgran. revert r. induction Hst as [|id stream ids streams [Hne Hs] _ IH]; intros r Hok Hsz Hm Hc; cbn [cut_streams concat].
  - exists r. by rewrite app_nil_r.
  - destruct stream as [|block stream]; [done|]. cbn [hd]. pose proof Hs as Hs'. apply Forall_cons in Hs' as [Hb _].
    destruct (block_entry_ok id block Hb) as (b & -> & _ & _ & _ & _ & Egr & Hg & _). cbn [rbind]. rewrite Egr. specialize (Hgran id Hg) as Hle.
    assert (0 < gran id * (block_size / gran id) <= block_size) as Hmax by (pose proof (Z.mul_div_le block_size (gran id) Hg); pose proof (Z.div_str_pos block_size (gran id)); nia).
    destruct (cut_stream_ok (new_to_old r) (gran id * (block_size / gran id)) id (block :: stream) (old_to_new r) []) as (ms & mapped & -> & C1 & C2 & C3 & C4 & C5 & C6);
      [done|lia|by apply Z.divide_factor_l|by rewrite app_nil_r|constructor|]. cbn [rbind]. rewrite app_nil_r in C3, C6.
    destruct (IH (Mappings (new_to_old r ++ mapped) (old_to_new r ++ ms))) as (r' & E & I1 & I2 & I3 & I4 & I5); cbn [new_to_old old_to_new] in *.
    + done.
    + apply Forall_app. split; [done|]. apply Forall_lookup. intros j m Hj. unfold room_ok in C2. rewrite Forall_lookup in C2. destruct (C2 j m Hj) as (R1 & R2 & R3).
      assert (0 < nb_size m) by (apply (new_size_pos _ (length (new_to_old r) + j) m C1); by rewrite lookup_app_r, Nat.add_sub' by lia). rewrite R3. split; [lia|done].
    + apply Forall_app. split; [by eapply maps_grow|done].
    + rewrite pieces_app. by eapply covers_trans.
    + exists r'. split; [done|]. split; [done|]. split; [done|]. split; [done|]. split; [done|]. by rewrite I5, map_app, C4, <- app_assoc.
Qed.

Definition new_data (r : rw_block_mappings) (b : Z) : list Z := if 0 <=? b then from_option data_of [] (new_to_old r !! Z.to_nat b) else [].

Lemma block_numbers : map bi_block blocks = seqZ 0 (zlen blocks).
Proof.
  apply list_eq. intros i. rewrite list_lookup_fmap. destruct (decide (i < length blocks)%nat) as [Hi|Hi].
  - destruct (lookup_lt_is_Some_2 _ _ Hi) as [b Hb]. rewrite Hb, lookup_seqZ_lt by (unfold zlen; lia). cbn. by rewrite (proj1 (so_blocks Hsource i b Hb)).
  - rewrite lookup_ge_None_2 by lia. rewrite lookup_seqZ_ge by (unfold zlen; lia). done.
Qed.

#[local] Instance old_block_le_trans : Transitive old_block_le.
Proof. intros a b c. unfold old_block_le. lia. Qed.
#[local] Instance old_block_le_total : Total old_block_le.
Proof. intros a b. unfold old_block_le. lia. Qed.

(** What [build_block_mappings] makes. *)
Record mappings_ok (block_size : Z) (r : rw_block_mappings) : Prop := {
  mo_new : new_blocks_ok (new_to_old r);
  mo_sizes : sizes_ok block_size (new_to_old r);
  mo_old : Forall (map_ok (new_to_old r)) (old_to_new r);
  mo_numbers : map old_block (old_to_new r) = seqZ 0 (zlen blocks);
  mo_covers : forall j, (j < length (new_to_old r))%nat -> exists c, c ∈ pieces (old_to_new r) /\ bc_block c = Z.of_nat j
}.

Lemma build_block_mappings_ok block_size : (forall id, 0 < gran id -> gran id <= block_size) ->
  exists r, build_block_mappings fuel blocks block_size = Ok r /\ mappings_ok block_size r.
Proof.
  intros Hgran. destruct streams_of_ok as (ids & Hst & Hperm). unfold build_block_mappings.
  destruct (cut_streams_ok block_size (streams_of blocks) ids (Mappings [] []) Hst Hgran) as (r & -> & C1 & C2 & C3 & C4 & C5);
    [intros j m Hj; cbn in Hj; by rewrite lookup_nil in Hj|constructor|constructor|split; [done|intros j Hj; cbn in Hj; lia]|]. cbn [rbind]. eexists. split; [done|].
  pose proof (merge_sort_Permutation old_block_le (old_to_new r)) as Hs. split; cbn [new_to_old old_to_new]; try done.
  - by rewrite Hs.
  - apply (StronglySorted_unique Z.le).
    + clear Hs. pose proof (StronglySorted_merge_sort old_block_le (old_to_new r)) as H. induction H as [|x l Hl IH Hx]; [constructor|]. cbn. constructor; [exact IH|]. apply Forall_fmap. eapply Forall_impl; [exact Hx|]. done.
    + apply seqZ_sorted.
    + rewrite <- block_numbers. transitivity (map old_block (old_to_new r)); [by apply (fmap_Permutation old_block)|]. by rewrite C5.
  - intros j Hj. destruct C4 as [_ C4]. destruct (C4 j ltac:(cbn; lia)) as (c & Hc & E). exists c. split; [|done]. unfold pieces in *.
    apply list_elem_of_In, in_concat. apply list_elem_of_In, in_concat in Hc as (x & Hx & Hc). exists x. split; [|done]. apply in_map_iff in Hx as (m & <- & Hm). apply in_map, list_elem_of_In. rewrite Hs. by apply list_elem_of_In.
Qed.

Context (block_size : Z) (r : rw_block_mappings) (Hr : mappings_ok block_size r).

Lemma mapping_entry i m : old_to_new r !! i = Some m -> old_block m = Z.of_nat i /\ (i < length blocks)%nat.
Proof.
  intros Hi. assert (map old_block (old_to_new r) !! i = Some (old_block m)) as E by (by rewrite list_lookup_fmap, Hi). rewrite (mo_numbers _ _ Hr) in E.
  apply lookup_seqZ in E as [E1 E2]. unfold zlen in E2. lia.
Qed.

Lemma old_to_new_length : zlen (old_to_new r) = zlen blocks.
Proof. rewrite <- (zlen_map old_block), (mo_numbers _ _ Hr). unfold zlen. rewrite length_seqZ. lia. Qed.

Lemma piece_in_new id c : piece_in (new_to_old r) id c -> piece_ok (zlen (new_to_old r)) (new_data r) c /\ piece_data (new_to_old r) c = piece_bytes (new_data r) c.
Proof.
  intros (H1 & H2 & H3 & m & Hm & H4 & H5). unfold piece_ok, piece_bytes, piece_data, new_data. replace (0 <=? bc_block c) with true by lia. rewrite Hm. cbn [from_option].
  split; [|done]. apply lookup_lt_Some in Hm. unfold zlen in *. lia.
Qed.

Lemma new_data_size b : zlen (new_data r b) <= Z.max 0 block_size.
Proof.
  unfold new_data. destruct (0 <=? b); [|unfold zlen; cbn; lia]. destruct (new_to_old r !! Z.to_nat b) as [m|] eqn:E; [|unfold zlen; cbn; lia]. cbn [from_option].
  pose proof (mo_sizes _ _ Hr) as Hs. unfold sizes_ok in Hs. rewrite Forall_lookup in Hs. destruct (Hs _ _ E) as [H _]. rewrite <- (nk_size _ _ (mo_new _ _ Hr _ _ E)). lia.
Qed.

Lemma built_mapping_ok : (forall b, zlen (old b) < 2 ^ 32) -> mapping_ok (old_to_new r) (zlen (new_to_old r)) old (new_data r).
Proof.
  intros Hold i m Hi. pose proof (mo_old _ _ Hr) as Ho. rewrite Forall_lookup in Ho. destruct (Ho i m Hi) as (b & Hb & H0 & H1 & H2). destruct (mapping_entry i m Hi) as [E _]. rewrite E in *.
  split; [|split; [|apply Hold]].
  - eapply Forall_impl; [exact H1|]. intros c Hc. by apply (piece_in_new (id_of_block b)).
  - rewrite <- H2. unfold pieces_bytes, whole_data. f_equal. apply map_ext_in. intros c Hc. rewrite Forall_forall in H1. symmetry. apply (piece_in_new (id_of_block b)), H1. by apply list_elem_of_In.
Qed.

(** *** The categories of the new blocks *)

Lemma old_blocks_in (mapping : list block_mapping) :
  (forall b o, old_blocks mapping !! b = Some o -> exists m c, m ∈ mapping /\ c ∈ mapping_chunks m /\ b = wrapu 32 (bc_block c) /\ o = wrapu 32 (old_block m)) /\
  (forall c, c ∈ pieces mapping -> is_Some (old_blocks mapping !! wrapu 32 (bc_block c))).
Proof.
  unfold old_blocks, pieces. induction mapping as [|m mapping IH] using rev_ind; [split; [intros b o H; cbn in H; by rewrite lookup_empty in H|by intros c ?%elem_of_nil]|].
  rewrite foldl_app, map_app, concat_app. cbn [foldl map concat]. rewrite app_nil_r. revert IH. generalize (foldl (fun block_map m => foldl (fun block_map c => <[wrapu 32 (bc_block c) := wrapu 32 (old_block m)]> block_map) block_map (mapping_chunks m)) (∅ : gmap Z Z) mapping). intros base [IH1 IH2].
  assert (forall cs, (forall c, c ∈ cs -> c ∈ mapping_chunks m) -> let map' := foldl (fun block_map c => <[wrapu 32 (bc_block c) := wrapu 32 (old_block m)]> block_map) base cs in
    (forall b o, map' !! b = Some o -> base !! b = Some o \/ exists c, c ∈ cs /\ b = wrapu 32 (bc_block c) /\ o = wrapu 32 (old_block m)) /\
    (forall b, is_Some (base !! b) \/ (exists c, c ∈ cs /\ b = wrapu 32 (bc_block c)) -> is_Some (map' !! b))) as H.
  { intros cs. induction cs as [|c cs IHc] using rev_ind; intros Hcs; cbn.
    - split; [by left|]. intros b [H|(c & Hc & _)]; [done|by apply elem_of_nil in Hc].
    - rewrite foldl_app. cbn [foldl]. destruct IHc as [A1 A2]; [intros c' Hc'; apply Hcs, elem_of_app; by left|]. split.
      + intros b o. rewrite lookup_insert. case_decide as E.
        * intros [= <-]. right. exists c. split; [apply elem_of_app; right; by left|done].
        * intros Hb. destruct (A1 b o Hb) as [H|(c' & Hc' & H)]; [by left|right]. exists c'. split; [apply elem_of_app; by left|done].
      + intros b Hb. rewrite lookup_insert. case_decide as E; [by eexists|]. apply A2. destruct Hb as [Hb|(c' & Hc' & ->)]; [by left|right]. exists c'. split; [|done].
        apply elem_of_app in Hc' as [Hc'|Hc'%list_elem_of_singleton]; [done|by subst]. }
  destruct (H (mapping_chunks m) ltac:(done)) as [A1 A2]. split.
  - intros b o Hb. destruct (A1 b o Hb) as [H'|(c & Hc & E1 & E2)].
    + destruct (IH1 b o H') as (m' & c & Hm' & Hc). exists m', c. split; [apply elem_of_app; by left|done].
    + exists m, c. split; [apply elem_of_app; right; by left|done].
  - intros c Hc. apply A2. apply elem_of_app in Hc as [Hc|Hc]; [left; by apply IH2|right; by exists c].
Qed.

Context (Hcount : zlen (new_to_old r) < 2 ^ 32 - 1) (Hblocks : zlen blocks < 2 ^ 32).

(** Every new block is known, with an old block of its stream. *)
Lemma old_blocks_new b o : old_blocks (old_to_new r) !! b = Some o -> 0 <= b < zlen (new_to_old r) /\ 0 <= o < zlen blocks /\
  exists m bi, new_to_old r !! Z.to_nat b = Some m /\ blocks !! Z.to_nat o = Some bi /\ id_of_block bi = new_id m.
Proof.
  intros H. destruct (old_blocks_in (old_to_new r)) as [H1 _]. destruct (H1 b o H) as (m & c & Hm & Hc & Eb & Eo). apply list_elem_of_lookup in Hm as [i Hi].
  destruct (mapping_entry i m Hi) as [E Hlt]. pose proof (mo_old _ _ Hr) as Ho. rewrite Forall_lookup in Ho. destruct (Ho i m Hi) as (bi & Hbi & H0 & Hp & _).
  rewrite Forall_forall in Hp. destruct (Hp c Hc) as (P1 & P2 & P3 & nb & Hnb & P4 & P5). pose proof (lookup_lt_Some _ _ _ Hnb) as Hl.
  rewrite wrapu_small in Eb, Eo by (unfold in_u, zlen in *; lia). subst b o. split; [unfold zlen; lia|]. split; [unfold zlen; lia|]. exists nb, bi. done.
Qed.

Lemma old_blocks_size : base.size (old_blocks (old_to_new r)) = length (new_to_old r) /\ forall j, (j < length (new_to_old r))%nat -> is_Some (old_blocks (old_to_new r) !! Z.of_nat j).
Proof.
  assert (forall j, (j < length (new_to_old r))%nat -> is_Some (old_blocks (old_to_new r) !! Z.of_nat j)) as H.
  { intros j Hj. destruct (mo_covers _ _ Hr j Hj) as (c & Hc & E). destruct (old_blocks_in (old_to_new r)) as [_ H2]. specialize (H2 c Hc).
    rewrite E, wrapu_small in H2 by (unfold in_u, zlen in *; lia). done. }
  split; [|done]. rewrite <- size_dom.
  assert (dom (old_blocks (old_to_new r)) = list_to_set (C := gset Z) (seqZ 0 (zlen (new_to_old r)))) as ->.
  { apply set_eq. intros b. rewrite elem_of_dom, elem_of_list_to_set, elem_of_seqZ. split; [intros [o Ho]; apply old_blocks_new in Ho as [? _]; lia|].
    intros Hb. rewrite <- (Z2Nat.id b) by lia. apply H. unfold zlen in Hb. lia. }
  rewrite size_list_to_set by apply NoDup_seqZ. rewrite length_seqZ. unfold zlen. lia.
Qed.
End cutting.

(** C4: Changing the block size of an image keeps its files.  The blocks are
    regrouped by category and metadata and cut into blocks of at most the new
    size, whole numbers of granules; the loops end.  With the mapping that is
    returned, [metadata_builder::remap_blocks] succeeds, every file read through
    the new tables and the new blocks has the bytes it had, holes included, the
    new tables pass the checks of the reader, and every new block has the
    category of the blocks it was made of. *)
Theorem rewritten_files_kept fuel blocks old gran k k' (Hk : 0 <= k < 32) (Hk' : 0 <= k' < 32) (Hsource : source_ok old blocks gran)
    (Hold : forall b, zlen (old b) < 2 ^ 32) (Hgran : forall id, 0 < gran id -> gran id <= 2 ^ k') (Hblocks : zlen blocks < 2 ^ 32)
    (Hfuel : forall b, b ∈ blocks -> (Z.to_nat (uncompressed_size b) < fuel)%nat) :
  exists r, build_block_mappings fuel blocks (2 ^ k') = Ok r /\
    (forall m, m ∈ new_to_old r -> 0 < nb_size m <= 2 ^ k' /\ (gran (new_id m) | nb_size m) /\ zlen (new_block_data old m) = nb_size m) /\
    forall files categories category_metadata (names : Z -> list Z), zlen (new_to_old r) < 2 ^ 32 - 1 ->
      md_block_size files = 2 ^ k -> old_tables (old_to_new r) old k files ->
      (forall cs, categories = Some cs -> length cs = length blocks /\ forall i b, blocks !! i = Some b -> bi_category_name b = names <$> cs !! i) ->
      exists s', remap_blocks (old_to_new r) (zlen (new_to_old r))
          (set_block_size (2 ^ k') (builder_of files (bool_decide (is_Some (md_hole_block_index files))) categories category_metadata)) = Ok s' /\
        (forall i, file_content (rs_files s') (new_data old r) i = file_content files old i) /\
        OpenedTree.table_fits (rs_files s') /\ CheckedTables.files_fit (rs_files s') /\
        (forall cs, categories = Some cs -> exists cs', rs_categories s' = Some cs' /\ length cs' = length (new_to_old r) /\
          forall b m, new_to_old r !! b = Some m -> nb_category_name m = names <$> cs' !! b).
Proof.
  destruct (build_block_mappings_ok old blocks gran Hsource fuel Hfuel (2 ^ k') Hgran) as (r & E & Hr). exists r. split; [done|]. split.
  { intros m Hm. pose proof (mo_sizes _ _ _ _ _ Hr) as Hs. unfold sizes_ok in Hs. rewrite Forall_forall in Hs. destruct (Hs m Hm) as [H1 H2]. apply list_elem_of_lookup in Hm as [j Hj].
    split; [done|]. split; [done|]. by rewrite (nk_size _ _ _ _ _ (mo_new _ _ _ _ _ Hr j m Hj)). }
  intros files categories category_metadata names Hcount Hbs Htables Hcats. pose proof (pow2_pos k' ltac:(lia)) as Hp.
  destruct (old_blocks_size old blocks gran (2 ^ k') r Hr Hcount Hblocks) as [Hsize Hall].
  destruct (remap_blocks_spec (old_to_new r) (zlen (new_to_old r)) ltac:(pose proof (zlen_nonneg (new_to_old r)); lia) old (new_data old r) k k' Hk Hk') with (files := files) (categories := categories)
    (category_metadata := category_metadata) as (s' & R1 & R2 & _ & _ & R3 & R4 & _ & R5); [| |done|done| |].
  - intros b. pose proof (new_data_size old blocks gran (2 ^ k') r Hr b). lia.
  - by apply (built_mapping_ok old blocks gran (2 ^ k') r Hr).
  - intros cs Hcs. apply Forall_forall. intros [b o] Ho%elem_of_map_to_list. rewrite Hsize. cbn [fst snd].
    destruct (old_blocks_new old blocks gran (2 ^ k') r Hr Hcount Hblocks b o Ho) as (Hb & Ho' & _). destruct (Hcats cs Hcs) as [Hl _]. unfold zlen in *. lia.
  - exists s'. split; [done|]. split; [done|]. split; [done|]. split; [done|]. intros cs Hcs. destruct (cf_categories _ _ _ _ R5 cs Hcs) as (cs' & E' & L & V).
    exists cs'. split; [done|]. split; [by rewrite L|]. intros b m Hb. destruct (Hall b) as [o Ho]; [by eapply lookup_lt_Some|].
    destruct (old_blocks_new old blocks gran (2 ^ k') r Hr Hcount Hblocks _ o Ho) as (_ & _ & m' & bi & Hm' & Hbi & Hid). rewrite Nat2Z.id in Hm'. rewrite Hm' in Hb. injection Hb as <-.
    pose proof (V _ _ Ho) as Ev. rewrite Nat2Z.id in Ev. rewrite Ev. destruct (Hcats cs Hcs) as [_ Hn]. rewrite <- (Hn _ _ Hbi). by injection Hid.
Qed.

(** An image with three blocks of two categories; a hole; chunks that touch
    after the change. *)
Definition sample_old (b : Z) : list Z := if b =? 0 then [1; 2; 3; 4] else if b =? 1 then [5; 6; 7; 8] else if b =? 2 then [9; 10] else [].
Definition sample_blocks : list block_info :=
  [BlockInfo 0 4 (Some [65]) None None; BlockInfo 1 4 (Some [66]) None (Some (Some 2)); BlockInfo 2 2 (Some [65]) None None].
Definition sample_gran (id : stream_id) : Z := if bool_decide (id = (Some [66], None)) then 2 else 1.
Definition sample_image : metadata :=
  Metadata [MetaChunk 0 1 2; MetaChunk 3 1 25; MetaChunk 2 0 2; MetaChunk 1 0 4; MetaChunk 0 3 1; MetaChunk 2 0 1] [0; 3; 4; 6] 4 (Some 3) (Some []).

Example sample_rewritten : build_block_mappings 9 sample_blocks 8 =
  Ok (Mappings [NewBlock 0 6 [BlockChunk 0 0 4; BlockChunk 2 0 2] (Some [65]) None; NewBlock 1 4 [BlockChunk 1 0 4] (Some [66]) None]
        [BlockMapping 0 [BlockChunk 0 0 4]; BlockMapping 1 [BlockChunk 1 0 4]; BlockMapping 2 [BlockChunk 0 4 2]]).
Proof. vm_compute. reflexivity. Qed.

Lemma sample_source_ok : source_ok sample_old sample_blocks sample_gran.
Proof.
  split; intros i b Hi; destruct i as [|[|[|i]]]; cbn in Hi; try done; injection Hi as <-.
  1-3: done.
  all: split; [vm_compute; reflexivity|split; [vm_compute; reflexivity|]]; apply Z.mod_divide; [done|vm_compute; reflexivity].
Qed.

Lemma sample_tables r : build_block_mappings 9 sample_blocks 8 = Ok r -> old_tables (old_to_new r) sample_old 2 sample_image.
Proof.
  rewrite sample_rewritten. intros [= <-]. split.
  - done.
  - repeat constructor; done.
  - repeat constructor; done.
  - assert (forall b o n, b <> 3 -> 0 <= b < 3 -> 0 <= o -> 0 < n -> o + n <= zlen (sample_old b) ->
      old_chunk_ok [BlockMapping 0 [BlockChunk 0 0 4]; BlockMapping 1 [BlockChunk 1 0 4]; BlockMapping 2 [BlockChunk 0 4 2]] sample_old 2 sample_image (MetaChunk b o n)) as Hd.
    { intros b o n H3 Hb Ho Hn Hle. unfold old_chunk_ok. cbn [mc_block mc_offset mc_size]. rewrite bool_decide_false; [done|]. intros [= E]. lia. }
    cbn [sample_image md_chunks]. repeat (apply Forall_cons; split); [apply Hd; done| |apply Hd; done..|apply Forall_nil; exact I].
    unfold old_chunk_ok. rewrite bool_decide_true by reflexivity. cbn [mc_block mc_offset mc_size]. split; [done|]. split; [done|]. exists 101. split; [done|reflexivity].
  - vm_compute. reflexivity.
Qed.

Lemma rewritten_files_kept_witness : exists r s', build_block_mappings 9 sample_blocks 8 = Ok r /\
  remap_blocks (old_to_new r) 2 (set_block_size 8 (builder_of sample_image true (Some [65; 66; 65]) None)) = Ok s' /\
  file_content (rs_files s') (new_data sample_old r) 0 = Some ([2; 3] ++ replicate 101 0 ++ [9; 10]) /\
  md_chunks (rs_files s') = [MetaChunk 0 1 2; MetaChunk 2 kChunkOffsetIsLargeHole 0; MetaChunk 0 4 2; MetaChunk 1 0 4; MetaChunk 0 3 2] /\
  rs_categories s' = Some [65; 66].
Proof.
  destruct (rewritten_files_kept 9 sample_blocks sample_old sample_gran 2 3) as (r & E & _ & H).
  - lia.
  - lia.
  - apply sample_source_ok.
  - intros b. unfold sample_old. repeat case_match; done.
  - intros id _. unfold sample_gran. case_bool_decide; done.
  - done.
  - intros b Hb. apply list_elem_of_In in Hb as [<-|[<-|[<-|[]]]]; vm_compute; lia.
  - change (2 ^ 3) with 8 in E, H. destruct (H sample_image (Some [65; 66; 65]) None (fun c => [c])) as (s' & Es & Hc & _); [| |by apply sample_tables| |].
    + rewrite sample_rewritten in E. injection E as <-. vm_compute. reflexivity.
    + done.
    + intros cs [= <-]. split; [done|]. intros i b Hi. destruct i as [|[|[|i]]]; cbn in Hi; try done; by injection Hi as <-.
    + exists r, s'. pose proof E as E'. rewrite sample_rewritten in E'. injection E' as <-. split; [exact E|]. split; [exact Es|]. split; [rewrite Hc; vm_compute; reflexivity|].
      vm_compute in Es. injection Es as <-. split; reflexivity.
Defined.
