(* ===== verification/TimeResolution.v ===== *)
(** * TimeResolution: time stamps at a resolution

    The writer stores the time stamps of inodes relative to a base, in units of
    the resolution, and what is left of a second in units of its own:
    [src/writer/internal/time_resolution_converter.cpp], the time stamps in
    [src/writer/internal/global_entry_data.cpp] and, when an image is rewritten,
    in [src/writer/internal/metadata_builder.cpp].  The reader computes them
    back: [src/reader/internal/time_resolution_handler.cpp].  The theorems: a
    time stamp is rounded down to the resolution, when an image is made and when
    it is rewritten with a coarser one. *)

From Stdlib Require Import Znumtheory.
From S2P Require Import Prelude.
Local Open Scope Z_scope.

(** [std::chrono]: durations are counts of nanoseconds. *)
Definition one_second : Z := 1000000000.

Inductive time_error : Type :=
  | not_whole_seconds
  | not_divisor_of_second
  | finer_resolution
  | not_multiple_of_old.

(** ** [time_resolution_converter] *)

Definition get_sec_multiplier (resolution : option Z) : result time_error Z :=
  match resolution with
  | Some res =>
      if one_second <? res then
        if negb (Z.rem res one_second =? 0) then Err not_whole_seconds
        else Ok (wrapu 32 (Z.quot res one_second))
      else Ok 1
  | None => Ok 1
  end.

Definition get_nsec_multiplier (resolution : option Z) : result time_error Z :=
  match resolution with
  | Some res =>
      if res <? one_second then
        if negb (Z.rem one_second res =? 0) then Err not_divisor_of_second
        else Ok (wrapu 32 res)
      else Ok 0
  | None => Ok 0
  end.

Definition get_chrono_resolution (sec nsec : Z) : Z := if 0 <? nsec then nsec else sec * one_second.

Record time_conversion_factors : Type := Factors { f_sec : option Z; f_nsec : option Z }.

Record time_resolution_converter : Type := TimeConverter {
  conv_sec_ : Z;
  conv_subsec_ : Z;
  new_conv_ : time_conversion_factors
}.

(** The second constructor, with its [init_data]. *)
Definition time_converter_from (resolution : option Z) (old_conv : time_conversion_factors) : result time_error time_resolution_converter :=
  let old_sec := default 1 (f_sec old_conv) in
  let old_nsec := default 0 (f_nsec old_conv) in
  let? new_sec := (match resolution with Some _ => get_sec_multiplier resolution | None => Ok old_sec end) in
  let? new_nsec := (match resolution with Some _ => get_nsec_multiplier resolution | None => Ok old_nsec end) in
  let old_resolution := get_chrono_resolution old_sec old_nsec in
  let new_resolution := get_chrono_resolution new_sec new_nsec in
  if new_resolution <? old_resolution then Err finer_resolution
  else if 0 <? Z.rem new_resolution old_resolution then Err not_multiple_of_old
  else Ok (TimeConverter (new_sec / old_sec) (if 0 <? old_nsec then new_nsec / old_nsec else 1)
             (Factors (if 1 <? new_sec then Some new_sec else None) (if 0 <? new_nsec then Some new_nsec else None))).

(** The first constructor: files have their times in nanoseconds. *)
Definition time_converter_create (resolution : option Z) : result time_error time_resolution_converter :=
  time_converter_from (Some (default one_second resolution)) (Factors (Some 1) (Some 1)).

Definition requires_conversion (c : time_resolution_converter) : bool := negb (conv_sec_ c =? 1) || negb (conv_subsec_ c =? 1).
Definition convert_offset (c : time_resolution_converter) (val : Z) : Z := val / conv_sec_ c.
Definition convert_subsec (c : time_resolution_converter) (val : Z) : Z := if conv_subsec_ c =? 0 then 0 else val / conv_subsec_ c.
Definition align_offset (c : time_resolution_converter) (val : Z) : Z := wrapu 64 (val / conv_sec_ c * conv_sec_ c).
Definition offset_conversion_remainder (c : time_resolution_converter) (val : Z) : Z := val mod conv_sec_ c.

(** ** The times of a file, of an inode, of an image *)

(** [file_stat::timespec_type]. *)
Record timespec : Type := Timespec { ts_sec : Z; ts_nsec : Z }.
Record file_times : Type := FileTimes { ft_atime : timespec; ft_mtime : timespec; ft_ctime : timespec }.

(** The fields of the thrift struct [inode_data]: 64 bits, zero by default. *)
Record inode_times : Type := InodeTimes {
  atime_offset : Z; mtime_offset : Z; ctime_offset : Z;
  atime_subsec : Z; mtime_subsec : Z; ctime_subsec : Z
}.

(** The fields of [fs_options], and of [metadata]. *)
Record time_options : Type := TimeOptions { to_mtime_only : bool; to_resolution_sec : option Z; to_nsec_multiplier : option Z }.
Record time_metadata : Type := TimeMetadata { tm_timestamp_base : Z; tm_inodes : list inode_times; tm_options : option time_options }.

(** Of [metadata_options]. *)
Record time_write_options : Type := TimeWriteOptions { wt_timestamp : option Z; wt_keep_all_times : bool; wt_resolution : option Z }.

(** ** [global_entry_data] *)

(** [add_mtime] and [add_atime], [add_ctime] in [entry::update]. *)
Definition add_mtime (time timestamp_base : Z) : Z := Z.min (wrapu 64 time) timestamp_base.
Definition add_other_time (o : time_write_options) (time timestamp_base : Z) : Z :=
  if wt_keep_all_times o then add_mtime time timestamp_base else timestamp_base.

Definition update_times (o : time_write_options) (t : file_times) (timestamp_base : Z) : Z :=
  add_other_time o (ts_sec (ft_ctime t)) (add_mtime (ts_sec (ft_mtime t)) (add_other_time o (ts_sec (ft_atime t)) timestamp_base)).

Definition get_timestamp_base (o : time_write_options) (timestamp_base : Z) : Z := default timestamp_base (wt_timestamp o).

(** The time stamps in [pack_inode_stat]. *)
Definition pack_times (o : time_write_options) (c : time_resolution_converter) (timestamp_base : Z) (t : file_times) : inode_times :=
  match wt_timestamp o with
  | Some _ => InodeTimes 0 0 0 0 0 0
  | None =>
      let base := align_offset c timestamp_base in
      let offset ts := convert_offset c (wrapu 64 (ts_sec ts - base)) in
      let subsec ts := convert_subsec c (ts_nsec ts) in
      if wt_keep_all_times o
      then InodeTimes (offset (ft_atime t)) (offset (ft_mtime t)) (offset (ft_ctime t)) (subsec (ft_atime t)) (subsec (ft_mtime t)) (subsec (ft_ctime t))
      else InodeTimes 0 (offset (ft_mtime t)) 0 0 (subsec (ft_mtime t)) 0
  end.

(** ** [metadata_builder_] *)

(** [fsopts] in [build]. *)
Definition build_time_options (o : time_write_options) (c : time_resolution_converter) : time_options :=
  TimeOptions (negb (wt_keep_all_times o)) (f_sec (new_conv_ c)) (f_nsec (new_conv_ c)).

(** The scan updates the base with every file, then every inode is packed. *)
Definition write_times (o : time_write_options) (files : list file_times) : result time_error time_metadata :=
  let? c := time_converter_create (wt_resolution o) in
  let timestamp_base := foldl (fun base t => update_times o t base) (2 ^ 64 - 1) files in
  Ok (TimeMetadata (convert_offset c (get_timestamp_base o timestamp_base)) (map (pack_times o c timestamp_base) files) (Some (build_time_options o c))).

Definition get_conversion_factors (options : option time_options) : time_conversion_factors :=
  match options with Some fo => Factors (to_resolution_sec fo) (to_nsec_multiplier fo) | None => Factors None None end.

(** The time stamps of an inode in [update_inodes]. *)
Definition update_inode_times (c : time_resolution_converter) (set_timestamp remove_atime_ctime update_resolution : bool) (tb_adjust : Z) (i : inode_times) : inode_times :=
  let offset x := convert_offset c (wrapu 64 (x + tb_adjust)) in
  let i :=
    if set_timestamp then InodeTimes (atime_offset i) 0 (ctime_offset i) (atime_subsec i) (mtime_subsec i) (ctime_subsec i)
    else if update_resolution then
      InodeTimes (atime_offset i) (offset (mtime_offset i)) (ctime_offset i) (atime_subsec i) (convert_subsec c (mtime_subsec i)) (ctime_subsec i)
    else i in
  if set_timestamp || remove_atime_ctime then InodeTimes 0 (mtime_offset i) 0 (atime_subsec i) (mtime_subsec i) (ctime_subsec i)
  else if update_resolution then
    InodeTimes (offset (atime_offset i)) (mtime_offset i) (offset (ctime_offset i)) (convert_subsec c (atime_subsec i)) (mtime_subsec i) (convert_subsec c (ctime_subsec i))
  else i.

(** The constructor for an image that is rewritten, with [update_inodes]; then [build]. *)
Definition rewrite_times (o : time_write_options) (md : time_metadata) : result time_error time_metadata :=
  let? c := time_converter_from (wt_resolution o) (get_conversion_factors (tm_options md)) in
  let set_timestamp := bool_decide (is_Some (wt_timestamp o)) in
  let mtime_only := match tm_options md with Some fo => to_mtime_only fo | None => false end in
  let remove_atime_ctime := negb (wt_keep_all_times o) && negb mtime_only in
  let update_resolution := requires_conversion c in
  let tb_adjust := if update_resolution then offset_conversion_remainder c (tm_timestamp_base md) else 0 in
  let inodes := map (update_inode_times c set_timestamp remove_atime_ctime update_resolution tb_adjust) (tm_inodes md) in
  let base :=
    match wt_timestamp o with
    | Some timestamp => convert_offset c timestamp
    | None => if update_resolution then convert_offset c (tm_timestamp_base md) else tm_timestamp_base md
    end in
  Ok (TimeMetadata base inodes (Some (build_time_options o c))).

(** ** [time_resolution_handler] *)

Record time_resolution_handler : Type := TimeHandler { timebase_ : Z; resolution_ : Z; nsec_multiplier_ : Z; mtime_only_ : bool }.

Definition time_handler_create (md : time_metadata) : time_resolution_handler :=
  TimeHandler (tm_timestamp_base md) (default 1 (tm_options md ≫= to_resolution_sec)) (default 0 (tm_options md ≫= to_nsec_multiplier))
    (match tm_options md with Some fo => to_mtime_only fo | None => false end).

(** [set_mtimespec(sec, nsec)] with its conversions. *)
Definition stamp (h : time_resolution_handler) (offset subsec : Z) : timespec :=
  Timespec (wraps 64 (wrapu 64 (resolution_ h * wrapu 64 (timebase_ h + offset))))
    (if 0 <? nsec_multiplier_ h then wrapu 32 (wrapu 64 (subsec * nsec_multiplier_ h)) else 0).

Definition fill_stat_timevals (h : time_resolution_handler) (i : inode_times) : file_times :=
  let mtime := stamp h (mtime_offset i) (mtime_subsec i) in
  if mtime_only_ h then FileTimes mtime mtime mtime
  else FileTimes (stamp h (atime_offset i) (atime_subsec i)) mtime (stamp h (ctime_offset i) (ctime_subsec i)).

Definition read_times (md : time_metadata) : list file_times := map (fill_stat_timevals (time_handler_create md)) (tm_inodes md).

(** ** What the factors stand for *)

(** Whole seconds, or a part of a second. *)
Definition factors_ok (f : time_conversion_factors) : Prop :=
  match f_nsec f with
  | None => 1 <= default 1 (f_sec f) < 2 ^ 32
  | Some n => 0 < n < one_second /\ (n | one_second) /\ default 1 (f_sec f) = 1
  end.

Definition factors_of (o : option time_options) : time_conversion_factors := get_conversion_factors o.

(** The resolution in nanoseconds. *)
Definition resolution_of (f : time_conversion_factors) : Z := get_chrono_resolution (default 1 (f_sec f)) (default 0 (f_nsec f)).

(** Resolutions that are accepted: parts of a second, or whole seconds, and
    multiples of the resolution before. *)
Definition acceptable (old r : Z) : Prop := (r < one_second -> (r | one_second)) /\ (one_second < r -> (one_second | r)) /\ (old | r).

#[global] Instance divide_dec (a b : Z) : Decision (a | b) := Znumtheory.Zdivide_dec a b.
#[global] Instance acceptable_dec old r : Decision (acceptable old r).
Proof. unfold acceptable. apply _. Defined.

Definition in_ns (t : timespec) : Z := ts_sec t * one_second + ts_nsec t.

(** The nanoseconds of a base, an offset and a subsecond part. *)
Definition stored_ns (f : time_conversion_factors) (base offset subsec : Z) : Z :=
  default 1 (f_sec f) * (base + offset) * one_second + default 0 (f_nsec f) * subsec.

Lemma resolution_pos f : factors_ok f -> 0 < resolution_of f.
Proof.
  unfold factors_ok, resolution_of, get_chrono_resolution, one_second. destruct (f_nsec f) as [n|]; cbn [from_option id]; intros H; [rewrite (proj2 (Z.ltb_lt 0 n)); lia|]. cbn. lia.
Qed.

Lemma rem_zero a b : 0 <= a -> 0 < b -> Z.rem a b = 0 <-> (b | a).
Proof. intros Ha Hb. rewrite Z.rem_mod_nonneg by lia. apply Z.mod_divide. lia. Qed.

(** The two multipliers of a resolution. *)
Lemma multipliers_ok r : 0 < r < 2 ^ 32 * one_second -> acceptable 1 r ->
  exists sec nsec, get_sec_multiplier (Some r) = Ok sec /\ get_nsec_multiplier (Some r) = Ok nsec /\ get_chrono_resolution sec nsec = r /\
    ((nsec = 0 /\ 1 <= sec < 2 ^ 32 /\ r = sec * one_second) \/ (sec = 1 /\ nsec = r /\ r < one_second /\ (r | one_second))).
Proof.
  intros Hr (H1 & H2 & _). unfold get_sec_multiplier, get_nsec_multiplier, get_chrono_resolution.
  destruct (Z.ltb_spec one_second r) as [Hs|Hs].
  - rewrite (proj2 (Z.ltb_ge r one_second)) by lia. destruct (H2 Hs) as [k Hk]. assert (one_second = 1000000000) as E1 by done.
    rewrite (proj2 (rem_zero r one_second ltac:(lia) ltac:(lia))) by (by exists k). cbn [negb Z.eqb]. rewrite Z.quot_div_nonneg, Hk, Z.div_mul by lia.
    exists k, 0. rewrite wrapu_small by (unfold in_u; nia). split; [done|]. split; [done|]. split; [done|]. left. split; [done|]. split; [nia|done].
  - destruct (Z.ltb_spec r one_second) as [Hl|Hl].
    + rewrite (proj2 (rem_zero one_second r ltac:(done) ltac:(lia))) by auto. cbn [negb Z.eqb]. exists 1, r. rewrite wrapu_small by (unfold in_u, one_second in *; lia).
      split; [done|]. split; [done|]. rewrite (proj2 (Z.ltb_lt 0 r)) by lia. split; [done|]. right. auto.
    + exists 1, 0. assert (r = one_second) as -> by lia. split; [done|]. split; [done|]. split; [done|]. left. done.
Qed.

Lemma multipliers_refused r : 0 < r -> ~ acceptable 1 r -> (exists e, get_sec_multiplier (Some r) = Err e) \/ ((exists s, get_sec_multiplier (Some r) = Ok s) /\ exists e, get_nsec_multiplier (Some r) = Err e).
Proof.
  intros Hr Hn. unfold get_sec_multiplier, get_nsec_multiplier. assert (0 < one_second) as H1 by done. destruct (Z.ltb_spec one_second r) as [Hs|Hs].
  - left. destruct (Z.eqb_spec (Z.rem r one_second) 0) as [E|E]; cbn [negb]; [|by eexists]. exfalso. apply Hn. split; [lia|]. split; [intros _; apply rem_zero; lia|apply Z.divide_1_l].
  - right. split; [by eexists|]. destruct (Z.ltb_spec r one_second) as [Hl|Hl].
    + destruct (Z.eqb_spec (Z.rem one_second r) 0) as [E|E]; cbn [negb]; [|by eexists]. exfalso. apply Hn. split; [intros _; apply rem_zero; lia|]. split; [lia|apply Z.divide_1_l].
    + exfalso. apply Hn. split; [lia|]. split; [lia|apply Z.divide_1_l].
Qed.

(** What a converter is. *)
Record converter_ok (old : time_conversion_factors) (r : Z) (c : time_resolution_converter) : Prop := {
  co_factors : factors_ok (new_conv_ c);
  co_resolution : resolution_of (new_conv_ c) = r;
  co_sec : conv_sec_ c * default 1 (f_sec old) = default 1 (f_sec (new_conv_ c)) /\ 0 < conv_sec_ c;
  co_subsec : match f_nsec old with
              | Some n => conv_subsec_ c * n = default 0 (f_nsec (new_conv_ c)) /\ 0 <= conv_subsec_ c
              | None => f_nsec (new_conv_ c) = None /\ conv_subsec_ c = 1
              end
}.

Lemma acceptable_self f : factors_ok f -> acceptable (resolution_of f) (resolution_of f).
Proof.
  unfold factors_ok, acceptable, resolution_of, get_chrono_resolution. assert (one_second = 1000000000) as E1 by done. destruct (f_nsec f) as [n|]; cbn [from_option id].
  - intros (H1 & H2 & H3). rewrite (proj2 (Z.ltb_lt 0 n)) by lia. split; [done|]. split; [lia|done].
  - intros H. cbn. split; [intros; exfalso; nia|]. split; [intros _; by apply Z.divide_factor_r|done].
Qed.

(** The seconds and nanoseconds of the resolution of a converter. *)
Definition split_resolution (r sec nsec : Z) : Prop :=
  get_chrono_resolution sec nsec = r /\ ((nsec = 0 /\ 1 <= sec < 2 ^ 32 /\ r = sec * one_second) \/ (sec = 1 /\ nsec = r /\ r < one_second /\ (r | one_second))).

Lemma split_old f : factors_ok f -> split_resolution (resolution_of f) (default 1 (f_sec f)) (default 0 (f_nsec f)).
Proof.
  unfold factors_ok, split_resolution, resolution_of. intros H. split; [done|]. unfold get_chrono_resolution. destruct (f_nsec f) as [n|]; cbn [from_option id].
  - destruct H as (H1 & H2 & H3). rewrite (proj2 (Z.ltb_lt 0 n)) by lia. right. split; [done|]. split; [done|]. split; [lia|done].
  - left. done.
Qed.

Definition converter_of (old : time_conversion_factors) (sec nsec : Z) : time_resolution_converter :=
  TimeConverter (sec / default 1 (f_sec old)) (if 0 <? default 0 (f_nsec old) then nsec / default 0 (f_nsec old) else 1)
    (Factors (if 1 <? sec then Some sec else None) (if 0 <? nsec then Some nsec else None)).

Lemma converter_of_ok old r sec nsec : factors_ok old -> 0 < r -> split_resolution r sec nsec -> (resolution_of old | r) -> converter_ok old r (converter_of old sec nsec).
Proof.
  intros Hold Hr0 [Hr Hs] Hd. pose proof (split_old old Hold) as [_ Ho]. assert (one_second = 1000000000) as E1 by done.
  assert (default 1 (f_sec (new_conv_ (converter_of old sec nsec))) = sec) as Esec by (cbn; destruct (Z.ltb_spec 1 sec); cbn; lia).
  assert (default 0 (f_nsec (new_conv_ (converter_of old sec nsec))) = nsec) as Ensec by (cbn; destruct (Z.ltb_spec 0 nsec); cbn; lia).
  split.
  - unfold factors_ok. rewrite Esec. cbn [converter_of new_conv_ f_nsec]. destruct (Z.ltb_spec 0 nsec); destruct Hs as [(-> & H1 & H2)|(-> & -> & H2 & H3)]; try lia; auto.
  - unfold resolution_of. by rewrite Esec, Ensec.
  - rewrite Esec. cbn [converter_of conv_sec_]. destruct Ho as [(Hn & Hs1 & Hr1)|(Hs1 & Hn & Hr1)].
    + destruct Hs as [(-> & H1 & H2)|(-> & -> & H2 & H3)].
      * destruct Hd as [q Hq]. assert (sec = q * default 1 (f_sec old)) as -> by nia. rewrite Z.div_mul by lia. nia.
      * apply Z.divide_pos_le in Hd; nia.
    + rewrite Hs1, Z.div_1_r, Z.mul_1_r. lia.
  - rewrite Ensec. cbn [converter_of conv_subsec_]. unfold factors_ok in Hold. destruct (f_nsec old) as [n|] eqn:En; cbn [from_option id] in *.
    + destruct Hold as (H1 & H2 & H3). rewrite (proj2 (Z.ltb_lt 0 n)) by lia. split; [|apply Z.div_pos; lia]. destruct Hs as [(-> & _)|(_ & -> & _)]; [by rewrite Z.div_0_l by lia|].
      unfold resolution_of, get_chrono_resolution in Hd. rewrite En in Hd. cbn [from_option id] in Hd. rewrite (proj2 (Z.ltb_lt 0 n)) in Hd by lia. destruct Hd as [q ->]. by rewrite Z.div_mul by lia.
    + cbn. split; [|done]. destruct Ho as [(_ & Hs1 & Hr1)|(_ & Hn & Hr1 & _)]; [|pose proof (resolution_pos old); unfold factors_ok in *; rewrite En in *; lia].
      destruct Hs as [(-> & _)|(_ & -> & H2 & _)]; [done|]. exfalso. apply Z.divide_pos_le in Hd; nia.
Qed.

Lemma time_converter_from_ok old resolution : factors_ok old -> (forall r, resolution = Some r -> 0 < r < 2 ^ 32 * one_second) ->
  let r := default (resolution_of old) resolution in
  (acceptable (resolution_of old) r -> exists c, time_converter_from resolution old = Ok c /\ converter_ok old r c) /\
  (~ acceptable (resolution_of old) r -> exists e, time_converter_from resolution old = Err e).
Proof.
  intros Hold Hres r. pose proof (resolution_pos old Hold) as Hp.
  assert (0 < r) as Hr by (unfold r; destruct resolution as [x|]; [specialize (Hres x eq_refl); cbn; lia|done]).
  assert (forall sec nsec, get_chrono_resolution sec nsec = r ->
    (let old_resolution := get_chrono_resolution (default 1 (f_sec old)) (default 0 (f_nsec old)) in
     let new_resolution := get_chrono_resolution sec nsec in
     if new_resolution <? old_resolution then Err finer_resolution
     else if 0 <? Z.rem new_resolution old_resolution then Err not_multiple_of_old else Ok (converter_of old sec nsec)) =
    if decide ((resolution_of old | r)) then Ok (converter_of old sec nsec) else if r <? resolution_of old then Err finer_resolution else Err not_multiple_of_old) as Hcut.
  { intros sec nsec ->. cbn zeta. fold (resolution_of old). pose proof (rem_zero r (resolution_of old) ltac:(lia) Hp) as Hz. pose proof (Z.rem_bound_pos r (resolution_of old) ltac:(lia) Hp).
    destruct (decide _) as [Hd|Hd].
    - rewrite (proj2 (Z.ltb_ge r (resolution_of old))) by (apply Z.divide_pos_le; lia || done). by rewrite (proj2 Hz Hd).
    - destruct (Z.ltb_spec r (resolution_of old)); [done|]. destruct (Z.ltb_spec 0 (Z.rem r (resolution_of old))); [done|]. exfalso. apply Hd, Hz. lia. }
  destruct resolution as [x|].
  - cbn in r. subst r. specialize (Hres x eq_refl). unfold time_converter_from. split.
    + intros (A1 & A2 & A3). destruct (multipliers_ok x Hres) as (sec & nsec & -> & -> & E & Hs); [by split; [|split; [|apply Z.divide_1_l]]|]. cbn [rbind].
      specialize (Hcut sec nsec E). cbv zeta in Hcut |- *. fold (converter_of old sec nsec). rewrite Hcut, decide_True by done. eexists. split; [done|]. by apply converter_of_ok; [| |split|].
    + intros Hn. destruct (decide (acceptable 1 x)) as [Ha|Ha].
      * destruct (multipliers_ok x Hres Ha) as (sec & nsec & -> & -> & E & Hs). cbn [rbind]. specialize (Hcut sec nsec E). cbv zeta in Hcut |- *. fold (converter_of old sec nsec). rewrite Hcut.
        rewrite decide_False by (intros Hd; apply Hn; destruct Ha as (? & ? & _); by split).
        destruct (x <? resolution_of old); [exists finer_resolution|exists not_multiple_of_old]; reflexivity.
      * destruct (multipliers_refused x ltac:(lia) Ha) as [[e ->]|[[s ->] [e ->]]]; by eexists.
  - cbn in r. subst r. unfold time_converter_from. cbn [rbind]. pose proof (split_old old Hold) as Hs. split; [intros _|intros Hn; exfalso; by apply Hn, acceptable_self].
    specialize (Hcut _ _ (proj1 Hs)). cbv zeta in Hcut |- *. fold (converter_of old (default 1 (f_sec old)) (default 0 (f_nsec old))). rewrite Hcut, decide_True by done.
    eexists. split; [done|]. by apply converter_of_ok.
Qed.

(** ** Rounding *)

Lemma div_split a b c : 0 < c -> (a + b mod c) / c + b / c = (b + a) / c.
Proof.
  intros Hc. rewrite (Z.div_mod b c) at 3 by lia. replace (c * (b / c) + b mod c + a) with (a + b mod c + b / c * c) by lia. by rewrite Z.div_add by lia.
Qed.

(** A stored time that is converted is rounded down to the new resolution. *)
Lemma stored_rounds old r c base offset subsec : factors_ok old -> converter_ok old r c -> 0 <= subsec -> default 0 (f_nsec old) * subsec < one_second ->
  stored_ns (new_conv_ c) (base / conv_sec_ c) ((offset + base mod conv_sec_ c) / conv_sec_ c) (convert_subsec c subsec) = r * (stored_ns old base offset subsec / r).
Proof.
  intros Hold [Hf Hr [Hc Hc0] Hs] Hsub Hlt. unfold stored_ns. assert (one_second = 1000000000) as E1 by done.
  rewrite (Z.add_comm (base / conv_sec_ c)), div_split by done. set (q := base + offset). set (S := default 1 (f_sec old)) in *. rewrite <- Hc.
  unfold factors_ok in Hf. unfold resolution_of, get_chrono_resolution in Hr. destruct (f_nsec (new_conv_ c)) as [m|] eqn:Em; cbn [from_option id] in *.
  - destruct Hf as (M1 & [d Hd] & M2). rewrite (proj2 (Z.ltb_lt 0 m)) in Hr by lia. subst r.
    assert (0 < S) as HS by nia. assert (S = 1 /\ conv_sec_ c = 1) as [-> ->] by nia.
    destruct (f_nsec old) as [n|] eqn:En; [|by destruct Hs]. cbn [from_option id] in *. destruct Hs as [Hk Hk0]. set (k := conv_subsec_ c) in *.
    unfold convert_subsec. fold k. assert (0 < k /\ 0 < n) as [Hk1 Hn] by (unfold factors_ok in Hold; rewrite En in Hold; nia). rewrite (proj2 (Z.eqb_neq k 0)) by lia.
    rewrite Z.div_1_r. replace (1 * q * one_second + n * subsec) with (n * subsec + q * d * m) by (rewrite Hd; lia). rewrite Z.div_add by lia. rewrite <- Hk at 3. rewrite (Z.mul_comm k n), Z.div_mul_cancel_l by lia. rewrite Hd. lia.
  - cbn in Hr. subst r. rewrite <- Hc. assert (0 < S) as HS by nia.
    set (x := default 0 (f_nsec old) * subsec) in *. assert (0 <= x) as Hx.
    { unfold x. unfold factors_ok in Hold. destruct (f_nsec old) as [n|]; cbn [from_option id]; nia. }
    replace (conv_sec_ c * S * one_second) with (one_second * (S * conv_sec_ c)) by lia. rewrite <- Z.div_div by nia.
    rewrite (Z.add_comm _ x), Z.div_add, (Z.div_small x), Z.add_0_l by lia. rewrite Z.div_mul_cancel_l by lia. lia.
Qed.

(** *** Reading *)

(** The fields are such that nothing overflows. *)
Definition readable (f : time_conversion_factors) (base offset subsec : Z) : Prop :=
  0 <= base /\ 0 <= offset /\ default 1 (f_sec f) * (base + offset) < 2 ^ 63 /\ 0 <= subsec /\ default 0 (f_nsec f) * subsec < one_second.

Lemma stamp_reads md offset subsec : let f := get_conversion_factors (tm_options md) in factors_ok f -> readable f (tm_timestamp_base md) offset subsec ->
  in_ns (stamp (time_handler_create md) offset subsec) = stored_ns f (tm_timestamp_base md) offset subsec /\ 0 <= ts_nsec (stamp (time_handler_create md) offset subsec) < one_second /\
  0 <= ts_sec (stamp (time_handler_create md) offset subsec).
Proof.
  intros f Hf (H1 & H2 & H3 & H4 & H5). unfold stamp, time_handler_create, stored_ns, in_ns. cbn [timebase_ resolution_ nsec_multiplier_ ts_sec ts_nsec].
  assert (default 1 (tm_options md ≫= to_resolution_sec) = default 1 (f_sec f) /\ default 0 (tm_options md ≫= to_nsec_multiplier) = default 0 (f_nsec f)) as [-> ->] by (unfold f; by destruct (tm_options md)).
  assert (1 <= default 1 (f_sec f) /\ 0 <= default 0 (f_nsec f)) as [F1 F2].
  { unfold factors_ok in Hf. destruct (f_nsec f) as [n|]; cbn [from_option id]; [destruct Hf as (? & ? & ->)|]; lia. }
  assert (one_second = 1000000000) as E1 by done. rewrite (wrapu_small 64 (tm_timestamp_base md + offset)) by (unfold in_u; nia).
  rewrite (wrapu_small 64 (default 1 (f_sec f) * _)) by (unfold in_u; nia). rewrite wraps_small by (unfold in_s; nia).
  destruct (Z.ltb_spec 0 (default 0 (f_nsec f))) as [Hn|Hn].
  - rewrite !wrapu_small by (unfold in_u; try rewrite wrapu_small by (unfold in_u; lia); lia). split; [lia|]. nia.
  - assert (default 0 (f_nsec f) = 0) as -> by lia. split; [lia|]. nia.
Qed.

(** What a converter makes of the fields can be read again. *)
Lemma readable_converted old r c base offset subsec : factors_ok old -> converter_ok old r c -> readable old base offset subsec ->
  readable (new_conv_ c) (base / conv_sec_ c) ((offset + base mod conv_sec_ c) / conv_sec_ c) (convert_subsec c subsec).
Proof.
  intros Hold [Hf Hr [Hc Hc0] Hs] (H1 & H2 & H3 & H4 & H5). assert (one_second = 1000000000) as E1 by done. set (S := default 1 (f_sec old)) in *.
  assert (1 <= S) as HS by (unfold factors_ok in Hold; destruct (f_nsec old); unfold S; [destruct Hold as (? & ? & ->)|]; lia).
  pose proof (Z.mod_pos_bound base (conv_sec_ c) Hc0) as Hm. split; [by apply Z.div_pos|]. split; [apply Z.div_pos; lia|]. split.
  - rewrite (Z.add_comm (base / conv_sec_ c)), div_split by done. rewrite <- Hc. pose proof (Z.mul_div_le (base + offset) (conv_sec_ c) Hc0). nia.
  - unfold convert_subsec. destruct (Z.eqb_spec (conv_subsec_ c) 0) as [E|E]; [lia|]. destruct (f_nsec old) as [n|] eqn:En; cbn [from_option id] in *.
    + destruct Hs as [Hk Hk0]. rewrite <- Hk. split; [apply Z.div_pos; lia|]. pose proof (Z.mul_div_le subsec (conv_subsec_ c) ltac:(lia)).
      assert (0 < n) by (unfold factors_ok in Hold; rewrite En in Hold; lia). nia.
    + destruct Hs as [-> ->]. cbn [from_option]. rewrite Z.div_1_r. lia.
Qed.

Definition rounded (r : Z) (t t' : timespec) : Prop := in_ns t' = r * (in_ns t / r) /\ 0 <= ts_sec t' /\ 0 <= ts_nsec t' < one_second.

(** A time of a file that can be stored. *)
Definition time_ok (t : timespec) : Prop := 0 <= ts_sec t < 2 ^ 63 /\ 0 <= ts_nsec t < one_second.

(** *** An image is made *)

Definition files_unit : time_conversion_factors := Factors (Some 1) (Some 1).

Lemma files_unit_ok : factors_ok files_unit /\ resolution_of files_unit = 1.
Proof. split; [|done]. unfold factors_ok. cbn. split; [done|]. split; [|done]. apply Z.divide_1_l. Qed.

Definition times_base (o : time_write_options) (files : list file_times) : Z := foldl (fun base t => update_times o t base) (2 ^ 64 - 1) files.

(** The base is not after any time that is stored. *)
Lemma times_base_le o files : (forall t, t ∈ files -> time_ok (ft_mtime t)) -> (wt_keep_all_times o = true -> forall t, t ∈ files -> time_ok (ft_atime t) /\ time_ok (ft_ctime t)) ->
  0 <= times_base o files /\ forall t, t ∈ files -> times_base o files <= ts_sec (ft_mtime t) /\
    (wt_keep_all_times o = true -> times_base o files <= ts_sec (ft_atime t) /\ times_base o files <= ts_sec (ft_ctime t)).
Proof.
  unfold times_base. induction files as [|t files IH] using rev_ind; intros Hm Hk; [split; [done|by intros t ?%elem_of_nil]|]. rewrite foldl_app. cbn [foldl].
  assert (forall x, x ∈ files -> x ∈ files ++ [t]) as Hsub by (intros x Hx; apply elem_of_app; by left).
  destruct IH as [IH0 IH]; [auto|intros Ek x Hx; by apply Hk; [|apply Hsub]|]. set (b := foldl _ _ files) in *.
  assert (t ∈ files ++ [t]) as Ht by (apply elem_of_app; right; by left). destruct (Hm t Ht) as [Hmt _]. unfold update_times, add_other_time, add_mtime.
  destruct (wt_keep_all_times o) eqn:Ek.
  - destruct (Hk eq_refl t Ht) as [[Ha _] [Hc _]]. rewrite !wrapu_small by (unfold in_u; lia). split; [lia|]. intros x Hx. apply elem_of_app in Hx as [Hx|Hx%list_elem_of_singleton].
    + destruct (IH x Hx) as [I1 I2]. specialize (I2 eq_refl). lia.
    + subst x. lia.
  - rewrite !wrapu_small by (unfold in_u; lia). split; [lia|]. intros x Hx. split; [|done]. apply elem_of_app in Hx as [Hx|Hx%list_elem_of_singleton]; [destruct (IH x Hx); lia|subst x; lia].
Qed.

(** A time that is packed is read rounded down. *)
Lemma packed_time o r c files t inodes : converter_ok files_unit r c -> wt_timestamp o = None -> 0 <= times_base o files <= ts_sec t -> time_ok t ->
  let md := TimeMetadata (convert_offset c (times_base o files)) inodes (Some (build_time_options o c)) in
  rounded r t (stamp (time_handler_create md) (convert_offset c (wrapu 64 (ts_sec t - align_offset c (times_base o files)))) (convert_subsec c (ts_nsec t))).
Proof.
  intros Hc Ho Hb [Hs Hn] md. destruct files_unit_ok as [Hu _]. set (b := times_base o files) in *. pose proof (co_sec _ _ _ Hc) as [_ Hc0].
  assert (get_conversion_factors (tm_options md) = new_conv_ c) as Ef by (cbn; by destruct (new_conv_ c)).
  assert (readable files_unit b (ts_sec t - b) (ts_nsec t)) as Hread by (unfold readable; cbn; lia).
  pose proof (readable_converted _ _ _ _ _ _ Hu Hc Hread) as Hr. pose proof (stored_rounds files_unit r c b (ts_sec t - b) (ts_nsec t) Hu Hc ltac:(lia) ltac:(cbn; lia)) as Hst.
  assert (convert_offset c (wrapu 64 (ts_sec t - align_offset c b)) = (ts_sec t - b + b mod conv_sec_ c) / conv_sec_ c) as ->.
  { unfold convert_offset, align_offset. pose proof (Z.mul_div_le b (conv_sec_ c) Hc0) as Hle. pose proof (Z.div_pos b (conv_sec_ c) ltac:(lia) Hc0).
    rewrite (wrapu_small 64 (b / conv_sec_ c * conv_sec_ c)) by (unfold in_u; nia). rewrite wrapu_small by (unfold in_u; nia). f_equal. pose proof (Z.div_mod b (conv_sec_ c) ltac:(lia)). lia. }
  destruct (stamp_reads md ((ts_sec t - b + b mod conv_sec_ c) / conv_sec_ c) (convert_subsec c (ts_nsec t))) as (S1 & S2 & S3).
  { rewrite Ef. apply (co_factors _ _ _ Hc). } { rewrite Ef. exact Hr. }
  split; [|by split]. rewrite S1, Ef. cbn [md tm_timestamp_base]. unfold convert_offset. rewrite Hst. do 2 f_equal. unfold stored_ns, in_ns. cbn. lia.
Qed.

Lemma writer_converter o : let r := default one_second (wt_resolution o) in 0 < r < 2 ^ 32 * one_second -> acceptable 1 r ->
  exists c, time_converter_create (wt_resolution o) = Ok c /\ converter_ok files_unit r c.
Proof.
  intros r Hr Ha. destruct files_unit_ok as [Hu Er]. unfold time_converter_create. destruct (time_converter_from_ok files_unit (Some r) Hu) as [H _]; [by intros ? [= <-]|].
  rewrite Er in H. by apply H.
Qed.

(** C22: The times of the files of an image that is made are read rounded down to
    the resolution that was asked for, in nanoseconds, a second by default;
    times of access and change are those of modification unless all times are
    kept. *)
Theorem written_times_rounded o files : let r := default one_second (wt_resolution o) in
  0 < r < 2 ^ 32 * one_second -> acceptable 1 r -> wt_timestamp o = None ->
  (forall t, t ∈ files -> time_ok (ft_mtime t)) -> (wt_keep_all_times o = true -> forall t, t ∈ files -> time_ok (ft_atime t) /\ time_ok (ft_ctime t)) ->
  exists md, write_times o files = Ok md /\
    Forall2 (fun t t' => rounded r (ft_mtime t) (ft_mtime t') /\
      if wt_keep_all_times o then rounded r (ft_atime t) (ft_atime t') /\ rounded r (ft_ctime t) (ft_ctime t') else ft_atime t' = ft_mtime t' /\ ft_ctime t' = ft_mtime t')
      files (read_times md).
Proof.
  intros r Hr Ha Ho Hm Hk. destruct (writer_converter o Hr Ha) as (c & E & Hc). unfold write_times. rewrite E. cbn [rbind]. fold (times_base o files). eexists. split; [done|].
  destruct (times_base_le o files Hm Hk) as [Hb Hle]. unfold read_times. cbn [tm_inodes]. apply Forall2_fmap_r, Forall2_fmap_r, Forall_Forall2_diag, Forall_forall. intros t Ht.
  unfold get_timestamp_base, pack_times. rewrite Ho. cbn [default from_option id]. destruct (Hle t Ht) as [Hle1 Hle2].
  set (md := TimeMetadata _ _ _). assert (mtime_only_ (time_handler_create md) = negb (wt_keep_all_times o)) as Eonly by done. unfold fill_stat_timevals. rewrite Eonly.
  pose proof (fun x H1 H2 => packed_time o r c files x (tm_inodes md) Hc Ho H1 H2) as P.
  destruct (wt_keep_all_times o) eqn:Ek; cbn [negb ft_mtime ft_atime ft_ctime mtime_offset mtime_subsec atime_offset atime_subsec ctime_offset ctime_subsec].
  - destruct (Hk eq_refl t Ht) as [Hta Htc]. specialize (Hle2 eq_refl). split; [apply P; [lia|auto]|]. split; apply P; auto; lia.
  - split; [apply P; [lia|auto]|done].
Qed.

(** *** An image is rewritten *)

Definition inode_readable (md : time_metadata) (all : bool) (i : inode_times) : Prop :=
  let f := get_conversion_factors (tm_options md) in
  readable f (tm_timestamp_base md) (mtime_offset i) (mtime_subsec i) /\
  (all = true -> readable f (tm_timestamp_base md) (atime_offset i) (atime_subsec i) /\ readable f (tm_timestamp_base md) (ctime_offset i) (ctime_subsec i)).

Definition has_all_times (md : time_metadata) : bool := match tm_options md with Some fo => negb (to_mtime_only fo) | None => true end.

(** Without a conversion the fields stay. *)
Lemma conversion_fields c base offset subsec : 0 < conv_sec_ c -> 0 <= subsec ->
  (if requires_conversion c then (offset + base mod conv_sec_ c) / conv_sec_ c else offset) = (offset + base mod conv_sec_ c) / conv_sec_ c /\
  (if requires_conversion c then convert_subsec c subsec else subsec) = convert_subsec c subsec /\
  (if requires_conversion c then base / conv_sec_ c else base) = base / conv_sec_ c.
Proof.
  intros Hc Hs. destruct (requires_conversion c) eqn:E; [done|]. unfold requires_conversion in E. apply orb_false_iff in E as [E1 E2]. apply negb_false_iff, Z.eqb_eq in E1, E2.
  unfold convert_subsec. rewrite E1, E2, Z.mod_1_r, !Z.div_1_r. split; [lia|done].
Qed.

(** A stored time that is converted is read rounded down. *)
Lemma rewritten_time md r c o inodes offset subsec : let f := get_conversion_factors (tm_options md) in factors_ok f -> converter_ok f r c ->
  readable f (tm_timestamp_base md) offset subsec ->
  let md' := TimeMetadata (if requires_conversion c then convert_offset c (tm_timestamp_base md) else tm_timestamp_base md) inodes (Some (build_time_options o c)) in
  let tb_adjust := if requires_conversion c then offset_conversion_remainder c (tm_timestamp_base md) else 0 in
  rounded r (stamp (time_handler_create md) offset subsec)
    (stamp (time_handler_create md') (if requires_conversion c then convert_offset c (wrapu 64 (offset + tb_adjust)) else offset) (if requires_conversion c then convert_subsec c subsec else subsec)).
Proof.
  intros f Hf Hc Hread md' tb_adjust. pose proof (co_sec _ _ _ Hc) as [_ Hc0]. pose proof Hread as (H1 & H2 & H3 & H4 & H5). assert (one_second = 1000000000) as E1 by done.
  destruct (conversion_fields c (tm_timestamp_base md) offset subsec Hc0 H4) as (F1 & F2 & F3).
  assert ((if requires_conversion c then convert_offset c (wrapu 64 (offset + tb_adjust)) else offset) = (offset + tm_timestamp_base md mod conv_sec_ c) / conv_sec_ c) as ->.
  { rewrite <- F1. unfold tb_adjust. destruct (requires_conversion c); [|done]. unfold convert_offset, offset_conversion_remainder. rewrite wrapu_small; [done|].
    pose proof (Z.mod_pos_bound (tm_timestamp_base md) (conv_sec_ c) Hc0). pose proof (Z.mod_le (tm_timestamp_base md) (conv_sec_ c) ltac:(lia) Hc0).
    assert (1 <= default 1 (f_sec f)) by (unfold factors_ok in Hf; destruct (f_nsec f); [destruct Hf as (? & ? & ->)|]; lia). unfold in_u. nia. }
  rewrite F2. assert (get_conversion_factors (tm_options md') = new_conv_ c) as Ef by (cbn; by destruct (new_conv_ c)).
  assert (tm_timestamp_base md' = tm_timestamp_base md / conv_sec_ c) as Eb by (cbn; unfold convert_offset; done).
  destruct (stamp_reads md offset subsec Hf Hread) as (S1 & _ & _).
  destruct (stamp_reads md' ((offset + tm_timestamp_base md mod conv_sec_ c) / conv_sec_ c) (convert_subsec c subsec)) as (S2 & S3 & S4).
  { rewrite Ef. apply (co_factors _ _ _ Hc). } { rewrite Ef, Eb. by apply (readable_converted f r c). }
  split; [|by split]. rewrite S2, Ef, Eb, S1. by apply stored_rounds.
Qed.

Definition mtime_only_of (md : time_metadata) : bool := match tm_options md with Some fo => to_mtime_only fo | None => false end.

(** The times of access and change of an image without them are not set. *)
Definition unset_times (i : inode_times) : Prop :=
  atime_offset i = 0 /\ atime_subsec i = 0 /\ ctime_offset i = 0 /\ ctime_subsec i = 0.

(** The time that the base stands for. *)
Definition base_time (md : time_metadata) : timespec := stamp (time_handler_create md) 0 0.

Lemma readable_base f base offset subsec : 1 <= default 1 (f_sec f) -> readable f base offset subsec -> readable f base 0 0.
Proof. unfold readable, one_second. intros Hf (H1 & H2 & H3 & H4 & H5). split_and!; [done|done|nia|done|lia]. Qed.

(** C23: When an image is rewritten without a time stamp for all entries
    (--set-time), with a resolution that is a multiple of the one it has, times
    of modification are read rounded down to the new resolution.  The times of
    access and change are then those of modification unless all times are to be
    kept; if they are, they are rounded down where the image has them, and where
    it has only times of modification they become the time of its base, rounded
    down.  Any other resolution is refused. *)
Theorem rewritten_times_rounded o md : let f := get_conversion_factors (tm_options md) in let r := default (resolution_of f) (wt_resolution o) in
  factors_ok f -> (forall x, wt_resolution o = Some x -> 0 < x < 2 ^ 32 * one_second) -> wt_timestamp o = None ->
  Forall (inode_readable md (negb (mtime_only_of md))) (tm_inodes md) ->
  (~ acceptable (resolution_of f) r -> exists e, rewrite_times o md = Err e) /\
  (acceptable (resolution_of f) r -> exists md', rewrite_times o md = Ok md' /\
    Forall2 (fun t t' => rounded r (ft_mtime t) (ft_mtime t') /\
      (wt_keep_all_times o = false -> ft_atime t' = ft_mtime t' /\ ft_ctime t' = ft_mtime t') /\
      (wt_keep_all_times o = true -> mtime_only_of md = false -> rounded r (ft_atime t) (ft_atime t') /\ rounded r (ft_ctime t) (ft_ctime t')) /\
      (wt_keep_all_times o = true -> mtime_only_of md = true -> Forall unset_times (tm_inodes md) ->
         rounded r (base_time md) (ft_atime t') /\ rounded r (base_time md) (ft_ctime t')))
      (read_times md) (read_times md')).
Proof.
  intros f r Hf Hres Ho Hin. destruct (time_converter_from_ok f (wt_resolution o) Hf Hres) as [Hok Herr]. fold r in Hok, Herr. split.
  { intros Hn. destruct (Herr Hn) as [e E]. exists e. unfold rewrite_times. fold f. by rewrite E. }
  intros Ha. destruct (Hok Ha) as (c & E & Hc). unfold rewrite_times. fold f. rewrite E, Ho. cbn [rbind]. eexists. split; [done|].
  rewrite bool_decide_false by by intros []. unfold read_times. cbn [tm_inodes]. apply Forall2_fmap. rewrite <- (map_id (tm_inodes md)) at 1. apply Forall2_fmap, Forall_Forall2_diag.
  apply Forall_forall. intros i Hi. pose proof (proj1 (Forall_forall _ _) Hin i Hi) as [Hm Hac]. set (md' := TimeMetadata _ _ _).
  assert (mtime_only_ (time_handler_create md') = negb (wt_keep_all_times o)) as Eonly by done. assert (mtime_only_ (time_handler_create md) = mtime_only_of md) as Eold by done.
  pose proof (fun offset subsec H => rewritten_time md r c o (tm_inodes md') offset subsec Hf Hc H) as P. cbv zeta in P. fold md' in P. cbn [md' tm_inodes] in P. fold md' in P.
  set (adjust := if requires_conversion c then _ else 0) in *.
  unfold fill_stat_timevals. rewrite Eonly, Eold. fold (mtime_only_of md).
  set (i' := update_inode_times _ _ _ _ _ i).
  assert (stamp (time_handler_create md') (mtime_offset i') (mtime_subsec i') = stamp (time_handler_create md') (if requires_conversion c then convert_offset c (wrapu 64 (mtime_offset i + adjust)) else mtime_offset i)
    (if requires_conversion c then convert_subsec c (mtime_subsec i) else mtime_subsec i)) as Em.
  { unfold i', update_inode_times. by destruct (wt_keep_all_times o), (mtime_only_of md), (requires_conversion c). }
  specialize (P _ _ Hm) as Pm. rewrite <- Em in Pm.
  destruct (wt_keep_all_times o) eqn:Ek; cbn [negb ft_mtime ft_atime ft_ctime].
  - split; [by destruct (mtime_only_of md)|]. split; [done|]. split.
    + intros _ Eo. destruct (Hac ltac:(by rewrite Eo)) as [Hra Hrc]. specialize (P _ _ Hra) as Pa. specialize (P _ _ Hrc) as Pc.
      unfold i', update_inode_times. rewrite Eo. cbn [negb andb orb]. by destruct (requires_conversion c).
    + intros _ Eo Hun. destruct (proj1 (Forall_forall _ _) Hun i Hi) as (U1 & U2 & U3 & U4).
      assert (1 <= default 1 (f_sec f)) as Hf1 by (clear -Hf; unfold factors_ok in Hf; destruct (f_nsec f); [destruct Hf as (? & ? & ->)|]; lia).
      specialize (P 0 0 (readable_base _ _ _ _ Hf1 Hm)). fold (base_time md) in P.
      unfold i', update_inode_times. rewrite Eo. cbn [negb andb orb]. destruct (requires_conversion c); cbn [atime_offset atime_subsec ctime_offset ctime_subsec]; rewrite U1, U2, U3, U4; by split.
  - split; [by destruct (mtime_only_of md)|]. by split_and!.
Qed.

(** What is read after an image was rewritten with a time stamp for all
    entries.  The base becomes the time stamp divided by the factor between the
    resolutions, not by the new resolution, and the subsecond parts stay: the
    seconds that are read are the time stamp rounded down only where the image
    had a resolution of a second or finer, and are it times the old resolution
    otherwise; the fraction is that of the time before, in the new unit. *)
Theorem rewritten_set_time o md timestamp : let f := get_conversion_factors (tm_options md) in let r := default (resolution_of f) (wt_resolution o) in
  factors_ok f -> (forall x, wt_resolution o = Some x -> 0 < x < 2 ^ 32 * one_second) -> wt_timestamp o = Some timestamp -> 0 <= timestamp ->
  timestamp * default 1 (f_sec f) < 2 ^ 63 -> acceptable (resolution_of f) r ->
  exists md' c, rewrite_times o md = Ok md' /\ converter_ok f r c /\
    Forall2 (fun i t' => ts_sec (ft_mtime t') = default 1 (f_sec f) * (conv_sec_ c * (timestamp / conv_sec_ c)) /\
      ts_nsec (ft_mtime t') = (let m := default 0 (f_nsec (new_conv_ c)) in if 0 <? m then wrapu 32 (wrapu 64 (mtime_subsec i * m)) else 0)) (tm_inodes md) (read_times md').
Proof.
  intros f r Hf Hres Ho H0 Hlt Ha. destruct (time_converter_from_ok f (wt_resolution o) Hf Hres) as [Hok _]. destruct (Hok Ha) as (c & E & Hc). unfold rewrite_times. fold f. rewrite E, Ho. cbn [rbind].
  eexists _, c. split; [done|]. split; [done|]. rewrite bool_decide_true by by eexists. unfold read_times. cbn [tm_inodes]. apply Forall2_fmap_r, Forall2_fmap_r, Forall_Forall2_diag, Forall_forall. intros i _.
  unfold compose. set (md' := TimeMetadata _ _ _). assert (forall h j, ft_mtime (fill_stat_timevals h j) = stamp h (mtime_offset j) (mtime_subsec j)) as -> by (intros h j; unfold fill_stat_timevals; by destruct (mtime_only_ h)).
  unfold update_inode_times. cbn [orb mtime_offset mtime_subsec]. unfold stamp, time_handler_create. cbn [ts_sec ts_nsec timebase_ resolution_ nsec_multiplier_ md' tm_options tm_timestamp_base mbind option_bind build_time_options to_resolution_sec to_nsec_multiplier].
  split; [|done]. destruct (co_sec _ _ _ Hc) as [Es Hc0]. rewrite Z.add_0_r, <- Es. unfold convert_offset. pose proof (Z.mul_div_le timestamp (conv_sec_ c) Hc0) as Hle. pose proof (Z.div_pos timestamp (conv_sec_ c) H0 Hc0).
  assert (1 <= default 1 (f_sec f)) by (unfold factors_ok in Hf; destruct (f_nsec f); [destruct Hf as (? & ? & ->)|]; lia).
  rewrite (wrapu_small 64 (timestamp / conv_sec_ c)) by (unfold in_u; nia). rewrite wrapu_small by (unfold in_u; nia). rewrite wraps_small by (unfold in_s; nia). lia.
Qed.

(** *** Examples *)

Definition minutes : time_write_options := TimeWriteOptions None true (Some (60 * one_second)).
Definition sample_times : list file_times :=
  [FileTimes (Timespec 1000000059 5) (Timespec 1000000001 999999999) (Timespec 1000000062 0); FileTimes (Timespec 1000000000 1) (Timespec 1000000300 123456789) (Timespec 1000000299 0)].

Lemma minutes_acceptable : acceptable 1 (60 * one_second).
Proof. split; [done|]. split; [intros _; by exists 60|apply Z.divide_1_l]. Qed.

Lemma written_times_rounded_witness : exists md, write_times minutes sample_times = Ok md /\
  read_times md = [FileTimes (Timespec 1000000020 0) (Timespec 999999960 0) (Timespec 1000000020 0); FileTimes (Timespec 999999960 0) (Timespec 1000000260 0) (Timespec 1000000260 0)].
Proof.
  destruct (written_times_rounded minutes sample_times) as (md & E & _).
  - done.
  - apply minutes_acceptable.
  - done.
  - intros t Ht. apply list_elem_of_In in Ht as [<-|[<-|[]]]; done.
  - intros _ t Ht. apply list_elem_of_In in Ht as [<-|[<-|[]]]; done.
  - exists md. split; [exact E|]. vm_compute in E. injection E as <-. vm_compute. reflexivity.
Defined.

(** An image with milliseconds. *)
Definition millis_image : time_metadata :=
  TimeMetadata 1000000000 [InodeTimes 0 7 0 0 345 0; InodeTimes 0 130 0 0 999 0] (Some (TimeOptions true None (Some 1000000))).

Lemma millis_factors : factors_ok (get_conversion_factors (tm_options millis_image)).
Proof. unfold factors_ok. cbn. split; [done|]. split; [by exists 1000|done]. Qed.

Lemma rewritten_times_rounded_witness : exists md', rewrite_times (TimeWriteOptions None true (Some (60 * one_second))) millis_image = Ok md' /\
  map (fun t => (ts_sec (ft_atime t), ts_sec (ft_mtime t))) (read_times md') = [(999999960, 999999960); (999999960, 1000000080)].
Proof.
  destruct (rewritten_times_rounded (TimeWriteOptions None true (Some (60 * one_second))) millis_image) as [_ H].
  - apply millis_factors.
  - intros x [= <-]. done.
  - done.
  - unfold inode_readable, readable. repeat constructor; cbn; lia || done.
  - destruct H as (md' & E & _).
    + split; [done|]. split; [intros _; by exists 60|]. by exists 60000.
    + exists md'. split; [exact E|]. vm_compute in E. injection E as <-. vm_compute. reflexivity.
Defined.

(** An image of minutes that is rewritten with a time stamp: sixty times the
    time stamp is read. *)
Definition minutes_image : time_metadata := TimeMetadata 16666666 [InodeTimes 0 7 0 0 0 0] (Some (TimeOptions true (Some 60) None)).

Lemma rewritten_set_time_witness : exists md', rewrite_times (TimeWriteOptions (Some 1000000) false None) minutes_image = Ok md' /\
  map ft_mtime (read_times md') = [Timespec 60000000 0].
Proof.
  destruct (rewritten_set_time (TimeWriteOptions (Some 1000000) false None) minutes_image 1000000) as (md' & c & E & _ & H).
  - done.
  - done.
  - done.
  - done.
  - done.
  - split; [done|]. split; [intros _; by exists 60|]. by exists 1.
  - exists md'. split; [exact E|]. vm_compute in E. injection E as <-. vm_compute. reflexivity.
Defined.

(** An image of milliseconds: the fraction stays. *)
Example set_time_keeps_fraction : rbind (rewrite_times (TimeWriteOptions (Some 1000000) false None) millis_image) (fun md' => Ok (map ft_mtime (read_times md'))) =
  Ok [Timespec 1000000 345000000; Timespec 1000000 999000000].
Proof. vm_compute. reflexivity. Qed.

(** An image with times of modification only, to keep all times: the others are
    the base. *)
Example kept_times_are_base : rbind (rewrite_times (TimeWriteOptions None true None) millis_image) (fun md' => Ok (map (fun t => (ts_sec (ft_atime t), ts_sec (ft_mtime t))) (read_times md'))) =
  Ok [(1000000000, 1000000007); (1000000000, 1000000130)].
Proof. vm_compute. reflexivity. Qed.
