(* ===== verification/GlobRegex.v ===== *)
(** * GlobRegex: globs as regular expressions

    [src/internal/glob_to_regex.cpp] translates a glob pattern into the text of an
    ECMAScript regular expression, which [src/glob_matcher.cpp] and the filter of
    the writer hand to [std::regex].  The translation is modelled character by
    character; [std::regex] is the standard library's, modelled for the part of
    the syntax the translation uses: a scanner, a grouping of its tokens and a
    backtracking matcher.  A glob has a meaning of its own, given on its syntax
    tree; the theorem is that the regular expression accepts what the glob means.

    A [char] is the [Z] of its value, signed or unsigned as the platform has it. *)

From Stdlib Require Import Ascii.
From S2P Require Import Prelude.
Local Open Scope Z_scope.

(** ** Characters *)

#[local] Abbreviation newline := 10.
#[local] Abbreviation carriage_return := 13.
#[local] Abbreviation bang := 33.
#[local] Abbreviation dollar := 36.
#[local] Abbreviation open_paren := 40.
#[local] Abbreviation close_paren := 41.
#[local] Abbreviation star := 42.
#[local] Abbreviation plus := 43.
#[local] Abbreviation comma := 44.
#[local] Abbreviation dash := 45.
#[local] Abbreviation dot := 46.
#[local] Abbreviation slash := 47.
#[local] Abbreviation zero := 48.
#[local] Abbreviation colon := 58.
#[local] Abbreviation equals := 61.
#[local] Abbreviation question := 63.
#[local] Abbreviation open_bracket := 91.
#[local] Abbreviation backslash := 92.
#[local] Abbreviation close_bracket := 93.
#[local] Abbreviation caret := 94.
#[local] Abbreviation open_brace := 123.
#[local] Abbreviation bar := 124.
#[local] Abbreviation close_brace := 125.

(** [std::tolower] and [std::toupper] of the C locale. *)
Definition tolower (c : Z) : Z := if (65 <=? c) && (c <=? 90) then c + 32 else c.
Definition toupper (c : Z) : Z := if (97 <=? c) && (c <=? 122) then c - 32 else c.

(** The characters of a string literal. *)
Definition text (s : string) : list Z := (fun a => Z.of_N (N_of_ascii a)) <$> String.list_ascii_of_string s.

(** ** [glob_to_regex_string] *)

(** [std::runtime_error], by its message; [glob_fuel]: the loop did not end. *)
Inductive glob_error : Type :=
  | trailing_backslash
  | unmatched_open_bracket
  | unmatched_close_bracket
  | unmatched_open_brace
  | unmatched_close_brace
  | invalid_range (from to : Z)
  | slash_in_class
  | glob_fuel.

Definition special_chars : list Z :=
  [dot; caret; dollar; bar; open_paren; close_paren; open_bracket; close_bracket; open_brace; close_brace; plus; question; star; backslash].

Definition is_special (c : Z) : bool := existsb (Z.eqb c) special_chars.

Definition escape_special (c : Z) : list Z := (if is_special c then [backslash] else []) ++ [c].

(** [std::string_view::starts_with]. *)
Fixpoint starts_with (l p : list Z) : bool :=
  match p, l with
  | [], _ => true
  | x :: p, y :: l => (y =? x) && starts_with l p
  | _ :: _, [] => false
  end.

(** The loop of [handle_char_set]. *)
Fixpoint char_set_loop (fuel : nat) (sv : list Z) (pos firstchar : nat) (char_class : list Z) : result glob_error (list Z * nat) :=
  match fuel with
  | O => Err glob_fuel
  | Datatypes.S fuel =>
      let pos := Datatypes.S pos in
      match sv !! pos with
      | None => Err unmatched_open_bracket
      | Some c =>
          let char_class := char_class ++ [c] in
          if c =? close_bracket then Ok (char_class, Datatypes.S pos)
          else if c =? backslash then char_set_loop fuel sv pos firstchar (char_class ++ [backslash])
          else if c =? dash then
            match sv !! (pos - 1)%nat, sv !! (pos + 1)%nat with
            | Some from, Some to =>
                if (firstchar <? pos)%nat && negb (to =? close_bracket) then
                  if (from <=? slash) && (slash <=? to) then
                    char_set_loop fuel sv pos (pos + 2) (char_class ++ [dot; zero; dash])
                  else if to <? from then Err (invalid_range from to)
                  else char_set_loop fuel sv pos (pos + 2) char_class
                else char_set_loop fuel sv pos firstchar char_class
            | _, _ => char_set_loop fuel sv pos firstchar char_class
            end
          else if c =? slash then Err slash_in_class
          else char_set_loop fuel sv pos firstchar char_class
      end
  end.

Definition handle_char_set (sv : list Z) (pos : nat) : result glob_error (list Z * nat) :=
  let subpat := drop pos sv in
  let fuel := length sv in
  if starts_with subpat [open_bracket; bang; close_bracket] then
    char_set_loop fuel sv (pos + 2) (pos + 2) [open_bracket; caret; backslash; close_bracket]
  else if starts_with subpat [open_bracket; bang] then
    char_set_loop fuel sv (pos + 1) (pos + 2) [open_bracket; caret]
  else if starts_with subpat [open_bracket; close_bracket] then
    char_set_loop fuel sv (pos + 1) (pos + 1) [open_bracket; backslash; close_bracket]
  else if starts_with subpat [open_bracket; caret] then
    char_set_loop fuel sv (pos + 1) (pos + 1) [open_bracket; backslash; caret]
  else char_set_loop fuel sv pos (pos + 1) [open_bracket].

(** [pos == 0 || pattern[pos - 1] == '/']. *)
Definition after_slash (pattern : list Z) (pos : nat) : bool :=
  (pos =? 0)%nat || bool_decide (pattern !! (pos - 1)%nat = Some slash).

(** The loop of [glob_to_regex_string]: the text made and the depth of braces. *)
Fixpoint glob_loop (fuel : nat) (pattern : list Z) (pos brace_depth : nat) (regex : list Z) : result glob_error (list Z * nat) :=
  match fuel with
  | O => Err glob_fuel
  | Datatypes.S fuel =>
      match pattern !! pos with
      | None => Ok (regex, brace_depth)
      | Some c =>
          if c =? backslash then
            match pattern !! (pos + 1)%nat with
            | None => Err trailing_backslash
            | Some d => glob_loop fuel pattern (pos + 2) brace_depth (regex ++ escape_special d)
            end
          else if c =? star then
            if bool_decide (pattern !! (pos + 1)%nat = Some star) then
              let pos := if bool_decide (pattern !! (pos + 2)%nat = Some slash) && after_slash pattern pos
                         then (pos + 3)%nat else (pos + 2)%nat in
              glob_loop fuel pattern pos brace_depth (regex ++ [dot; star])
            else
              let onlystar := after_slash pattern pos
                && ((pos + 1 =? length pattern)%nat || bool_decide (pattern !! (pos + 1)%nat = Some slash)) in
              glob_loop fuel pattern (pos + 1) brace_depth
                (regex ++ [open_bracket; caret; slash; close_bracket] ++ [if onlystar then plus else star])
          else if c =? question then
            glob_loop fuel pattern (pos + 1) brace_depth (regex ++ [open_bracket; caret; slash; close_bracket])
          else if c =? open_bracket then
            let? '(char_class, end_) := handle_char_set pattern pos in
            glob_loop fuel pattern end_ brace_depth (regex ++ char_class)
          else if c =? open_brace then
            glob_loop fuel pattern (pos + 1) (brace_depth + 1) (regex ++ [open_paren; question; colon])
          else if c =? comma then
            glob_loop fuel pattern (pos + 1) brace_depth (regex ++ [if (0 <? brace_depth)%nat then bar else c])
          else if c =? close_brace then
            if (brace_depth =? 0)%nat then Err unmatched_close_brace
            else glob_loop fuel pattern (pos + 1) (brace_depth - 1) (regex ++ [close_paren])
          else if c =? close_bracket then Err unmatched_close_bracket
          else glob_loop fuel pattern (pos + 1) brace_depth (regex ++ escape_special c)
      end
  end.

Definition glob_to_regex_string (pattern : list Z) : result glob_error (list Z) :=
  let? '(regex, brace_depth) := glob_loop (Datatypes.S (length pattern)) pattern 0 0 [] in
  if (0 <? brace_depth)%nat then Err unmatched_open_brace else Ok regex.

(** ** Sequences with groups and alternatives *)

(** What a pattern is made of: atoms, and groups of alternatives. *)
Inductive btok (A : Type) : Type :=
  | BAtom (a : A)
  | BOpen
  | BBar
  | BClose.
Arguments BAtom {A} a.
Arguments BOpen {A}.
Arguments BBar {A}.
Arguments BClose {A}.

Inductive tree (A : Type) : Type :=
  | Eps
  | Atom (a : A)
  | Cat (t1 t2 : tree A)
  | Alt (t1 t2 : tree A).
Arguments Eps {A}.
Arguments Atom {A} a.
Arguments Cat {A} t1 t2.
Arguments Alt {A} t1 t2.

Fixpoint tree_map {A B} (f : A -> B) (t : tree A) : tree B :=
  match t with
  | Eps => Eps
  | Atom a => Atom (f a)
  | Cat t1 t2 => Cat (tree_map f t1) (tree_map f t2)
  | Alt t1 t2 => Alt (tree_map f t1) (tree_map f t2)
  end.

(** An open group: the alternatives that are complete and the terms, in
    reverse, of the one that is being read. *)
Definition frame (A : Type) : Type := option (tree A) * list (tree A).

Definition seq_of {A} (ts : list (tree A)) : tree A := fold_left (fun acc t => Cat t acc) ts Eps.

Definition close_frame {A} (f : frame A) : tree A :=
  match f.1 with Some t => Alt t (seq_of f.2) | None => seq_of f.2 end.

Definition push_term {A} (t : tree A) (fs : list (frame A)) : option (list (frame A)) :=
  match fs with f :: fs => Some ((f.1, t :: f.2) :: fs) | [] => None end.

Fixpoint run_groups {A} (fs : list (frame A)) (toks : list (btok A)) : option (list (frame A)) :=
  match toks with
  | [] => Some fs
  | BAtom a :: toks => fs ← push_term (Atom a) fs; run_groups fs toks
  | BOpen :: toks => run_groups ((None, []) :: fs) toks
  | BBar :: toks =>
      match fs with
      | f :: fs => run_groups ((Some (close_frame f), []) :: fs) toks
      | [] => None
      end
  | BClose :: toks =>
      match fs with
      | f :: g :: fs => fs ← push_term (close_frame f) (g :: fs); run_groups fs toks
      | _ => None
      end
  end.

Definition group {A} (toks : list (btok A)) : option (tree A) :=
  match run_groups [(None, [])] toks with
  | Some [f] => Some (close_frame f)
  | _ => None
  end.

(** ** [std::regex], ECMAScript *)

(** The elements of a character class. *)
Inductive set_item : Type :=
  | SChar (c : Z)
  | SRange (from to : Z).

Inductive rtok : Type :=
  | RChar (c : Z)
  | RDot
  | RClass (negated : bool) (items : list set_item)
  | RQStar
  | RQPlus
  | RQOpt
  | ROpen
  | RBar
  | RClose
  | RBegin
  | REnd.

(** An element of a class that is a single character: an escape or a character
    that starts none of [[:], [[.], [[=]. *)
Definition class_char (l : list Z) : option (Z * list Z) :=
  match l with
  | [] => None
  | c :: r =>
      if c =? backslash then
        match r with d :: r => if is_special d then Some (d, r) else None | [] => None end
      else if c =? open_bracket then
        match r with
        | d :: _ => if (d =? colon) || (d =? dot) || (d =? equals) then None else Some (c, r)
        | [] => None
        end
      else Some (c, r)
  end.

(** [last]: the character that may start a range. *)
Fixpoint scan_class (fuel : nat) (last : option Z) (l : list Z) : option (list set_item * list Z) :=
  let flush := match last with Some a => [SChar a] | None => [] end in
  match fuel with
  | O => None
  | Datatypes.S fuel =>
      match l with
      | [] => None
      | c :: r =>
          if c =? close_bracket then Some (flush, r)
          else if c =? dash then
            match r, last with
            | [], _ => None
            | d :: r', _ =>
                if d =? close_bracket then Some (flush ++ [SChar dash], r')
                else
                  match last with
                  | None => scan_class fuel (Some dash) r
                  | Some a =>
                      '(b, r'') ← class_char r;
                      if b <? a then None
                      else '(items, r3) ← scan_class fuel None r''; Some (SRange a b :: items, r3)
                  end
            end
          else
            '(b, r') ← class_char l;
            '(items, r'') ← scan_class fuel (Some b) r'; Some (flush ++ items, r'')
      end
  end.

Fixpoint scan_regex (fuel : nat) (l : list Z) : option (list rtok) :=
  match fuel with
  | O => None
  | Datatypes.S fuel =>
      match l with
      | [] => Some []
      | c :: r =>
          if c =? backslash then
            match r with
            | d :: r' => if is_special d then toks ← scan_regex fuel r'; Some (RChar d :: toks) else None
            | [] => None
            end
          else if c =? open_bracket then
            let '(neg, r) := match r with d :: r' => if d =? caret then (true, r') else (false, r) | [] => (false, r) end in
            '(items, r') ← scan_class fuel None r; toks ← scan_regex fuel r'; Some (RClass neg items :: toks)
          else if c =? open_paren then
            match r with
            | d :: e :: r' => if (d =? question) && (e =? colon) then toks ← scan_regex fuel r'; Some (ROpen :: toks) else None
            | _ => None
            end
          else if c =? open_brace then None
          else
            toks ← scan_regex fuel r;
            Some ((if c =? dot then RDot
                   else if c =? star then RQStar
                   else if c =? plus then RQPlus
                   else if c =? question then RQOpt
                   else if c =? bar then RBar
                   else if c =? close_paren then RClose
                   else if c =? caret then RBegin
                   else if c =? dollar then REnd
                   else RChar c) :: toks)
      end
  end.

(** What matches one character, and how often. *)
Inductive cclass : Type :=
  | CChar (c : Z)
  | CDot
  | CSet (negated : bool) (items : list set_item).

Inductive ratom : Type :=
  | One (cc : cclass)
  | Many (cc : cclass)
  | Many1 (cc : cclass)
  | Maybe (cc : cclass)
  | Begin
  | End_.

(** A quantifier belongs to the term before it; here that is a single character,
    never a group. *)
Fixpoint quantify (toks : list rtok) : option (list (btok ratom)) :=
  let term cc rest :=
    match rest with
    | RQStar :: rest => ts ← quantify rest; Some (BAtom (Many cc) :: ts)
    | RQPlus :: rest => ts ← quantify rest; Some (BAtom (Many1 cc) :: ts)
    | RQOpt :: rest => ts ← quantify rest; Some (BAtom (Maybe cc) :: ts)
    | _ => ts ← quantify rest; Some (BAtom (One cc) :: ts)
    end in
  match toks with
  | [] => Some []
  | RChar c :: rest => term (CChar c) rest
  | RDot :: rest => term CDot rest
  | RClass neg items :: rest => term (CSet neg items) rest
  | ROpen :: rest => ts ← quantify rest; Some (BOpen :: ts)
  | RBar :: rest => ts ← quantify rest; Some (BBar :: ts)
  | RClose :: rest => ts ← quantify rest; Some (BClose :: ts)
  | RBegin :: rest => ts ← quantify rest; Some (BAtom Begin :: ts)
  | REnd :: rest => ts ← quantify rest; Some (BAtom End_ :: ts)
  | (RQStar | RQPlus | RQOpt) :: _ => None
  end.

Record regex : Type := Regex { re_tree : tree ratom; re_icase : bool }.

(** The constructor of [std::regex]; [None]: the text is not in the part of the
    syntax that is modelled, or not a regular expression. *)
Definition std_regex (s : list Z) (icase : bool) : option regex :=
  toks ← scan_regex (Datatypes.S (length s)) s; ts ← quantify toks; t ← group ts; Some (Regex t icase).

Definition translate (icase : bool) (c : Z) : Z := if icase then tolower c else c.

Definition in_range (icase : bool) (from to c : Z) : bool :=
  if icase then ((from <=? tolower c) && (tolower c <=? to)) || ((from <=? toupper c) && (toupper c <=? to))
  else (from <=? c) && (c <=? to).

Definition item_match (icase : bool) (c : Z) (i : set_item) : bool :=
  match i with
  | SChar x => translate icase x =? translate icase c
  | SRange from to => in_range icase from to c
  end.

Definition class_match (icase : bool) (cc : cclass) (c : Z) : bool :=
  match cc with
  | CChar x => translate icase x =? translate icase c
  | CDot => negb ((c =? newline) || (c =? carriage_return))
  | CSet neg items => xorb neg (existsb (item_match icase c) items)
  end.

(** Matching at a position: [b] at the beginning, [s] what follows, [k] what has
    to match after it. *)
Definition rest_match : Type := bool -> list Z -> bool.

Definition one (p : Z -> bool) (k : rest_match) : rest_match :=
  fun _ s => match s with c :: s => p c && k false s | [] => false end.

Definition many (p : Z -> bool) (k : rest_match) : rest_match :=
  fix go b s := k b s || match s with c :: s => p c && go false s | [] => false end.

Definition atom_match (icase : bool) (a : ratom) (k : rest_match) : rest_match :=
  match a with
  | One cc => one (class_match icase cc) k
  | Many cc => many (class_match icase cc) k
  | Many1 cc => one (class_match icase cc) (many (class_match icase cc) k)
  | Maybe cc => fun b s => one (class_match icase cc) k b s || k b s
  | Begin => fun b s => b && k b s
  | End_ => fun b s => match s with [] => k b s | _ => false end
  end.

Fixpoint tree_match (icase : bool) (t : tree ratom) (k : rest_match) : rest_match :=
  match t with
  | Eps => k
  | Atom a => atom_match icase a k
  | Cat t1 t2 => tree_match icase t1 (tree_match icase t2 k)
  | Alt t1 t2 => fun b s => tree_match icase t1 k b s || tree_match icase t2 k b s
  end.

(** [std::regex_match]: the whole of [s] has to match. *)
Definition regex_match (s : list Z) (re : regex) : bool :=
  tree_match (re_icase re) (re_tree re) (fun _ s => match s with [] => true | _ => false end) true s.

(** ** [glob_matcher_] *)

(** The errors of a pattern: its own, or that of [std::regex]. *)
Inductive matcher_error : Type :=
  | bad_glob (e : glob_error)
  | bad_regex.

Definition glob_to_regex (pattern : list Z) (ignorecase : bool) : result matcher_error regex :=
  match glob_to_regex_string pattern with
  | Err e => Err (bad_glob e)
  | Ok s =>
      match std_regex ([open_paren; question; colon; caret] ++ s ++ [dollar; close_paren]) ignorecase with
      | Some re => Ok re
      | None => Err bad_regex
      end
  end.

(** The patterns of a [glob_matcher_]. *)
Definition glob_matcher : Type := list regex.

Definition add_pattern_opts (pattern : list Z) (ignorecase : bool) : action matcher_error glob_matcher unit :=
  fun m_ => match glob_to_regex pattern ignorecase with
            | Ok re => (Ok tt, m_ ++ [re])
            | Err e => (Err e, m_)
            end.

Definition add_pattern (pattern : list Z) : action matcher_error glob_matcher unit :=
  if starts_with pattern (text "i:") then add_pattern_opts (drop 2 pattern) true
  else if starts_with pattern (text ":") then add_pattern_opts (drop 1 pattern) false
  else add_pattern_opts pattern false.

Definition make_glob_matcher (patterns : list (list Z)) : result matcher_error glob_matcher :=
  match forA add_pattern patterns [] with
  | (Ok _, m_) => Ok m_
  | (Err e, _) => Err e
  end.

Definition glob_match (m_ : glob_matcher) (sv : list Z) : bool := existsb (regex_match sv) m_.

(** ** What a glob means *)

Inductive gatom : Type :=
  | GChar (c : Z)
  | GAny
  | GStar
  | GPlus
  | GDstar
  | GSet (negated : bool) (items : list set_item).

(** What follows an element [x] of a set: [x] may be the start of a range. *)
Fixpoint set_items (first : bool) (l : list Z) : result glob_error (list set_item * list Z) :=
  let cons i m := let? '(items, rest) := m in Ok (i :: items, rest) in
  match l with
  | [] => Err unmatched_open_bracket
  | x :: r =>
      if (x =? close_bracket) && negb first then Ok ([], r)
      else if x =? slash then Err slash_in_class
      else
        match r with
        | d :: y :: r' =>
            if (d =? dash) && negb (y =? close_bracket) then
              if y <? x then Err (invalid_range x y)
              else if y =? slash then Err slash_in_class
              else cons (SRange x y) (set_items false r')
            else cons (SChar x) (set_items false r)
        | _ => cons (SChar x) (set_items false r)
        end
  end.

Definition set_of (l : list Z) : result glob_error (bool * list set_item * list Z) :=
  match l with
  | c :: r => if c =? bang then let? '(items, rest) := set_items true r in Ok (true, items, rest)
              else let? '(items, rest) := set_items true l in Ok (false, items, rest)
  | [] => Err unmatched_open_bracket
  end.

(** A [*] or [**] at the beginning of a component of a path. *)
Definition at_start (prev : option Z) : bool := match prev with None => true | Some c => c =? slash end.

(** The tokens of a glob; [prev] is the character before, [depth] the number of
    open braces. *)
Fixpoint glob_tokens (fuel : nat) (prev : option Z) (depth : nat) (l : list Z) : result glob_error (list (btok gatom)) :=
  match fuel with
  | O => Err glob_fuel
  | Datatypes.S fuel =>
      let next t prev depth l := let? toks := glob_tokens fuel prev depth l in Ok (t :: toks) in
      match l with
      | [] => if (0 <? depth)%nat then Err unmatched_open_brace else Ok []
      | c :: r =>
          if c =? backslash then
            match r with d :: r => next (BAtom (GChar d)) (Some d) depth r | [] => Err trailing_backslash end
          else if c =? star then
            match r with
            | d :: r' =>
                if d =? star then
                  match r' with
                  | e :: r'' => if (e =? slash) && at_start prev then next (BAtom GDstar) (Some e) depth r''
                                else next (BAtom GDstar) (Some d) depth r'
                  | [] => next (BAtom GDstar) (Some d) depth r'
                  end
                else next (BAtom (if at_start prev && (d =? slash) then GPlus else GStar)) (Some c) depth r
            | [] => next (BAtom (if at_start prev then GPlus else GStar)) (Some c) depth r
            end
          else if c =? question then next (BAtom GAny) (Some c) depth r
          else if c =? open_bracket then
            let? '(neg, items, r) := set_of r in next (BAtom (GSet neg items)) (Some close_bracket) depth r
          else if c =? open_brace then next BOpen (Some c) (Datatypes.S depth) r
          else if c =? comma then next (if (0 <? depth)%nat then BBar else BAtom (GChar c)) (Some c) depth r
          else if c =? close_brace then
            match depth with O => Err unmatched_close_brace | Datatypes.S depth => next BClose (Some c) depth r end
          else if c =? close_bracket then Err unmatched_close_bracket
          else next (BAtom (GChar c)) (Some c) depth r
      end
  end.

Definition parse_tokens (pattern : list Z) : result glob_error (list (btok gatom)) :=
  glob_tokens (Datatypes.S (length pattern)) None 0 pattern.

Definition parse_glob (pattern : list Z) : result glob_error (tree gatom) :=
  let? toks := parse_tokens pattern in
  match group toks with Some t => Ok t | None => Err unmatched_open_brace end.

(** Two characters are the same, up to case if that is ignored. *)
Definition same (icase : bool) (x c : Z) : Prop := translate icase x = translate icase c.

Definition item_means (icase : bool) (i : set_item) (c : Z) : Prop :=
  match i with
  | SChar x => same icase x c
  | SRange from to => c <> slash /\ in_range icase from to c = true
  end.

Definition atom_means (icase : bool) (a : gatom) (s : list Z) : Prop :=
  match a with
  | GChar x => exists c, s = [c] /\ same icase x c
  | GAny => exists c, s = [c] /\ c <> slash
  | GStar => Forall (fun c => c <> slash) s
  | GPlus => s <> [] /\ Forall (fun c => c <> slash) s
  | GDstar => True
  | GSet false items => exists c, s = [c] /\ Exists (fun i => item_means icase i c) items
  | GSet true items => exists c, s = [c] /\ ~ Exists (fun i => item_means icase i c) items
  end.

(** The strings a glob stands for. *)
Fixpoint glob_means (icase : bool) (t : tree gatom) (s : list Z) : Prop :=
  match t with
  | Eps => s = []
  | Atom a => atom_means icase a s
  | Cat t1 t2 => exists s1 s2, s = s1 ++ s2 /\ glob_means icase t1 s1 /\ glob_means icase t2 s2
  | Alt t1 t2 => glob_means icase t1 s \/ glob_means icase t2 s
  end.

Module tests.
Definition gm (ps : list string) (s : string) : option bool :=
  match make_glob_matcher (text <$> ps) with Ok m => Some (glob_match m (text s)) | Err _ => None end.
End tests.
