(* ===== verification/GlobMeaning.v ===== *)
(** * GlobMeaning: a glob's regular expression accepts what the glob means

    The translation of [GlobRegex] against the syntax tree of the glob: the text
    made is the printed token sequence, [std::regex] reads the same tokens back,
    and its matcher decides the meaning of the tree.  The restriction is the one
    of the code: a character class must not hold [[:], [[.] or [[=], which the
    code does not escape. *)

From S2P Require Import Prelude GlobRegex.
Local Open Scope Z_scope.

(** ** The text of tokens *)

Definition escape_in_set (c : Z) : list Z := if c =? 92 then [92; 92] else [c].

Definition spans_slash (from to : Z) : bool := (from <=? 47) && (47 <=? to).

Definition print_range (from to : Z) : list Z := 45 :: (if spans_slash from to then [46; 48; 45] else []) ++ escape_in_set to.

Definition print_item (i : set_item) : list Z :=
  match i with
  | SChar c => escape_in_set c
  | SRange from to => escape_in_set from ++ print_range from to
  end.

(** The first element of a class: [^] and [\]] are escaped. *)
Definition escape_first (neg : bool) (c : Z) : list Z :=
  if (c =? 93) || ((c =? 94) && negb neg) then [92; c] else escape_in_set c.

Definition print_items (items : list set_item) : list Z := concat (print_item <$> items).

Definition print_first_items (neg : bool) (items : list set_item) : list Z :=
  match items with
  | SChar c :: items => escape_first neg c ++ print_items items
  | SRange from to :: items => escape_first neg from ++ print_range from to ++ print_items items
  | [] => []
  end.

Definition print_set (neg : bool) (items : list set_item) : list Z :=
  91 :: (if neg then [94] else []) ++ print_first_items neg items ++ [93].

Definition print_atom (a : gatom) : list Z :=
  match a with
  | GChar c => escape_special c
  | GAny => [91; 94; 47; 93]
  | GStar => [91; 94; 47; 93; 42]
  | GPlus => [91; 94; 47; 93; 43]
  | GDstar => [46; 42]
  | GSet neg items => print_set neg items
  end.

Definition print_tok (t : btok gatom) : list Z :=
  match t with
  | BAtom a => print_atom a
  | BOpen => [40; 63; 58]
  | BBar => [124]
  | BClose => [41]
  end.

(** ** The loop over a character class *)

Definition dash_range (l : list Z) : bool :=
  match l with d :: y :: _ => (d =? 45) && negb (y =? 93) | _ => false end.

(** What is read after the element [x] of a class. *)
Definition after_item (x : Z) (l : list Z) : result glob_error (list set_item * list Z) :=
  match l with
  | d :: y :: r' =>
      if (d =? 45) && negb (y =? 93) then
        if y <? x then Err (invalid_range x y)
        else if y =? 47 then Err slash_in_class
        else let? '(items, rest) := set_items false r' in Ok (SRange x y :: items, rest)
      else let? '(items, rest) := set_items false l in Ok (SChar x :: items, rest)
  | _ => let? '(items, rest) := set_items false l in Ok (SChar x :: items, rest)
  end.

Definition printed_set (sv cls : list Z) (p : list set_item -> list Z) (m : result glob_error (list set_item * list Z)) : result glob_error (list Z * nat) :=
  let? '(items, rest) := m in Ok (cls ++ p items ++ [93], (length sv - length rest)%nat).

(** The text of the elements after [x], which is already written. *)
Definition print_after (items : list set_item) : list Z :=
  match items with
  | SChar _ :: items => print_items items
  | SRange from to :: items => print_range from to ++ print_items items
  | [] => []
  end.

Lemma set_items_cons first x r : set_items first (x :: r) =
  if (x =? 93) && negb first then Ok ([], r) else if x =? 47 then Err slash_in_class else after_item x r.
Proof. by destruct r as [|d [|y r]]. Qed.

Lemma lookup_mid {A} (pre l : list A) x n : n = length pre -> (pre ++ x :: l) !! n = Some x.
Proof. intros ->. rewrite lookup_app_r by lia. by rewrite Nat.sub_diag. Qed.

Lemma lookup_mid1 {A} (pre l : list A) x n : n = Datatypes.S (length pre) -> (pre ++ x :: l) !! n = l !! 0%nat.
Proof. intros ->. rewrite lookup_app_r by lia. by replace (Datatypes.S (length pre) - length pre)%nat with 1%nat by lia. Qed.

Lemma char_set_loop_S fuel sv pos firstchar cls : char_set_loop (Datatypes.S fuel) sv pos firstchar cls =
  match sv !! Datatypes.S pos with
  | None => Err unmatched_open_bracket
  | Some c =>
      if c =? 93 then Ok (cls ++ [c], Datatypes.S (Datatypes.S pos))
      else if c =? 92 then char_set_loop fuel sv (Datatypes.S pos) firstchar ((cls ++ [c]) ++ [92])
      else if c =? 45 then
        match sv !! pos, sv !! Datatypes.S (Datatypes.S pos) with
        | Some from, Some to =>
            if (firstchar <? Datatypes.S pos)%nat && negb (to =? 93) then
              if (from <=? 47) && (47 <=? to) then
                char_set_loop fuel sv (Datatypes.S pos) (Datatypes.S pos + 2) ((cls ++ [c]) ++ [46; 48; 45])
              else if to <? from then Err (invalid_range from to)
              else char_set_loop fuel sv (Datatypes.S pos) (Datatypes.S pos + 2) (cls ++ [c])
            else char_set_loop fuel sv (Datatypes.S pos) firstchar (cls ++ [c])
        | _, _ => char_set_loop fuel sv (Datatypes.S pos) firstchar (cls ++ [c])
        end
      else if c =? 47 then Err slash_in_class
      else char_set_loop fuel sv (Datatypes.S pos) firstchar (cls ++ [c])
  end.
Proof.
  cbn [char_set_loop]. replace (Datatypes.S pos - 1)%nat with pos by lia.
  by replace (Datatypes.S pos + 1)%nat with (Datatypes.S (Datatypes.S pos)) by lia.
Qed.

(** Between two elements, and after the first character of one. *)
Definition between_items (l : list Z) : Prop := forall fuel pre pos firstchar cls,
  (length l < fuel)%nat -> length pre = Datatypes.S pos -> (firstchar <= Datatypes.S pos)%nat ->
  firstchar = Datatypes.S pos \/ dash_range l = false ->
  char_set_loop fuel (pre ++ l) pos firstchar cls = printed_set (pre ++ l) cls print_items (set_items false l).

Definition inside_item (l : list Z) : Prop := forall fuel pre x firstchar cls,
  (length l < fuel)%nat -> (firstchar <= length pre)%nat ->
  char_set_loop fuel (pre ++ x :: l) (length pre) firstchar cls
  = printed_set (pre ++ x :: l) cls print_after (after_item x l).

Lemma printed_set_eq sv cls cls' p p' m :
  (forall items rest, m = Ok (items, rest) -> cls ++ p items = cls' ++ p' items) ->
  printed_set sv cls p m = printed_set sv cls' p' m.
Proof.
  intros He. destruct m as [[items rest]|e]; [|done]. cbn. by rewrite !app_assoc, (He items rest).
Qed.

Lemma printed_set_cons sv cls p p' i (m : result glob_error (list set_item * list Z)) :
  (forall items, p' (i :: items) = p items) ->
  printed_set sv cls p' (let? '(items, rest) := m in Ok (i :: items, rest)) = printed_set sv cls p m.
Proof. intros Hp. destruct m as [[items rest]|e]; [|done]. cbn. by rewrite Hp. Qed.

Lemma printed_set_app sv cls q p m : printed_set sv (cls ++ q) p m = printed_set sv cls (fun items => q ++ p items) m.
Proof. destruct m as [[items rest]|e]; [|done]. cbn. by rewrite <- !app_assoc. Qed.

Lemma after_item_head x l items rest : after_item x l = Ok (items, rest) ->
  exists items', items = SChar x :: items' \/ exists y, items = SRange x y :: items'.
Proof.
  assert (Hc : forall m : result glob_error (list set_item * list Z), (let? '(items, rest) := m in Ok (SChar x :: items, rest)) = Ok (items, rest) ->
    exists items', items = SChar x :: items' \/ exists y, items = SRange x y :: items').
  { intros [[its k]|e] H; simplify_eq/=. eauto. }
  unfold after_item. destruct l as [|d [|y r]]; try apply Hc.
  destruct (_ && _); [|apply Hc]. destruct (y <? x); [done|]. destruct (y =? 47); [done|].
  destruct (set_items false r) as [[its k]|e]; intros H; simplify_eq/=. eauto.
Qed.

Lemma print_items_after x l items rest : after_item x l = Ok (items, rest) ->
  print_items items = escape_in_set x ++ print_after items.
Proof.
  intros H. destruct (after_item_head _ _ _ _ H) as (its & [->|[y ->]]); [done|].
  unfold print_items. cbn. by rewrite <- app_assoc.
Qed.

Lemma escape_in_set_step x cls : (if x =? 92 then (cls ++ [x]) ++ [92] else cls ++ [x]) = cls ++ escape_in_set x.
Proof.
  unfold escape_in_set. destruct (Z.eqb_spec x 92) as [->|]; [by rewrite <- app_assoc|done].
Qed.

(** One turn of the loop that starts no range. *)
Lemma plain_step fuel pre x r pos firstchar cls :
  length pre = Datatypes.S pos -> x <> 93 -> (Datatypes.S pos <= firstchar)%nat \/ dash_range (x :: r) = false ->
  char_set_loop (Datatypes.S fuel) (pre ++ x :: r) pos firstchar cls
  = if x =? 47 then Err slash_in_class
    else char_set_loop fuel (pre ++ x :: r) (Datatypes.S pos) firstchar (cls ++ escape_in_set x).
Proof.
  intros Hpre H93 Hb. rewrite char_set_loop_S, lookup_mid by done.
  rewrite (proj2 (Z.eqb_neq x 93) H93). unfold escape_in_set.
  destruct (Z.eqb_spec x 92) as [->|H92]; [by rewrite <- app_assoc|].
  destruct (Z.eqb_spec x 45) as [->|H45]; [|done].
  change (45 =? 47) with false. rewrite (lookup_mid1 pre r 45 (Datatypes.S (Datatypes.S pos))) by lia.
  destruct ((pre ++ 45 :: r) !! pos) as [from|]; [|done]. destruct r as [|y r]; [done|]. cbn [lookup list_lookup].
  destruct Hb as [Hle|Hb].
  - by rewrite (proj2 (Nat.ltb_ge _ _) Hle).
  - cbn in Hb. destruct (y =? 93); [|done]. by rewrite andb_false_r.
Qed.

Lemma between_spec l : (forall r, (length r < length l)%nat -> inside_item r) -> between_items l.
Proof.
  intros IH [|fuel] pre pos firstchar cls Hf Hpre Hle Hb; [lia|].
  destruct l as [|x r].
  { rewrite char_set_loop_S, lookup_ge_None_2 by (rewrite length_app; cbn; lia). done. }
  rewrite set_items_cons. cbn [negb length] in *. rewrite andb_true_r.
  destruct (Z.eqb_spec x 93) as [->|H93].
  { rewrite char_set_loop_S, lookup_mid by done. cbn. rewrite length_app. cbn. f_equal. f_equal. lia. }
  rewrite plain_step by (done || (destruct Hb; [left; lia|by right])).
  destruct (x =? 47); [done|]. rewrite <- Hpre. rewrite (IH r) by lia. apply printed_set_eq.
  intros items rest Hok. by rewrite (print_items_after _ _ _ _ Hok), app_assoc.
Qed.

Lemma inside_spec l : (forall r, (length r <= length l)%nat -> between_items r) -> inside_item l.
Proof.
  intros IH fuel pre x firstchar cls Hf Hfc.
  assert (Hsv : pre ++ x :: l = (pre ++ [x]) ++ l) by by rewrite <- app_assoc.
  assert (Hlen : forall q : list Z, length (pre ++ q) = (length pre + length q)%nat) by (intros; apply length_app).
  destruct (dash_range l) eqn:Hd.
  2: { replace (after_item x l) with (let? '(items, rest) := set_items false l in Ok (SChar x :: items, rest)).
       - rewrite (printed_set_cons _ _ print_items) by done. rewrite Hsv. apply IH; auto; rewrite Hlen; cbn; lia.
       - unfold after_item. destruct l as [|d [|y r]]; try done. cbn in Hd. by rewrite Hd. }
  destruct l as [|d [|y r]]; try done. cbn in Hd. unfold after_item. rewrite Hd.
  apply andb_true_iff in Hd as [Hdash Hy]. apply Z.eqb_eq in Hdash as ->. cbn [length] in Hf.
  assert (Hafter : forall q, y <> 47 -> q = cls ++ 45 :: (if spans_slash x y then [46; 48; 45] else []) ->
    char_set_loop (Nat.pred fuel) (pre ++ x :: 45 :: y :: r) (Datatypes.S (length pre)) (Datatypes.S (length pre) + 2) q
    = printed_set (pre ++ x :: 45 :: y :: r) cls print_after (let? '(items, rest) := set_items false r in Ok (SRange x y :: items, rest))).
  { intros q H47 ->. destruct fuel as [|[|fuel]]; try lia. cbn [Nat.pred].
    replace (pre ++ x :: 45 :: y :: r) with ((pre ++ [x; 45]) ++ y :: r) by by rewrite <- app_assoc.
    rewrite plain_step; [|rewrite Hlen; cbn; lia|by apply Z.eqb_neq, negb_true_iff|left; lia].
    rewrite (proj2 (Z.eqb_neq y 47) H47).
    replace ((pre ++ [x; 45]) ++ y :: r) with ((pre ++ [x; 45; y]) ++ r) by by rewrite <- !app_assoc.
    rewrite (printed_set_cons _ _ (fun items => print_range x y ++ print_items items)) by done.
    rewrite <- (printed_set_app _ _ (print_range x y)).
    rewrite IH; [|cbn; lia|lia|rewrite Hlen; cbn; lia|lia|left; lia].
    f_equal. unfold print_range. by rewrite <- !app_assoc. }
  destruct fuel as [|fuel]; [lia|]. rewrite char_set_loop_S.
  rewrite (lookup_mid1 pre _ x (Datatypes.S (length pre))) by done. cbn [lookup list_lookup].
  rewrite (lookup_mid pre) by done.
  replace ((pre ++ x :: 45 :: y :: r) !! Datatypes.S (Datatypes.S (length pre))) with (Some y).
  2: { rewrite lookup_app_r by lia. by replace (_ - _)%nat with 2%nat by lia. }
  rewrite (proj2 (Nat.ltb_lt _ _)) by lia. rewrite Hy. cbn [Z.eqb Pos.eqb andb Nat.pred] in *.
  unfold spans_slash in Hafter.
  destruct (Z.eqb_spec y 47) as [->|H47].
  - destruct fuel as [|fuel]; [lia|].
    assert (Herr : forall q, char_set_loop (Datatypes.S fuel) (pre ++ x :: 45 :: 47 :: r) (Datatypes.S (length pre)) (Datatypes.S (length pre) + 2) q = Err slash_in_class).
    { intros q. replace (pre ++ x :: 45 :: 47 :: r) with ((pre ++ [x; 45]) ++ 47 :: r) by by rewrite <- app_assoc.
      rewrite plain_step; [done|rewrite Hlen; cbn; lia|done|left; lia]. }
    rewrite !Herr. change (47 <=? 47) with true. rewrite andb_true_r.
    destruct (Z.leb_spec x 47), (Z.ltb_spec 47 x); done || lia.
  - specialize (fun q => Hafter q H47).
    destruct ((x <=? 47) && (47 <=? y)) eqn:Hsp.
    + rewrite Hafter by by rewrite <- app_assoc.
      apply andb_true_iff in Hsp as [?%Z.leb_le ?%Z.leb_le]. rewrite (proj2 (Z.ltb_ge y x)) by lia. done.
    + destruct (y <? x); [done|]. by rewrite Hafter.
Qed.

Lemma char_set_loop_spec n : forall l, (length l <= n)%nat -> between_items l /\ inside_item l.
Proof.
  induction n as [n IH] using lt_wf_ind. intros l Hl.
  assert (Hb : forall r, (length r <= length l)%nat -> between_items r).
  { intros r Hr. apply between_spec. intros q Hq. by apply (IH (length q)); lia. }
  split; [by apply Hb|by apply inside_spec].
Qed.

Lemma printed_first sv cls neg x r :
  printed_set sv (cls ++ escape_first neg x) print_after (after_item x r)
  = printed_set sv cls (print_first_items neg) (after_item x r).
Proof.
  apply printed_set_eq. intros items rest Hok.
  destruct (after_item_head _ _ _ _ Hok) as (its & [->|[y ->]]); cbn; by rewrite <- app_assoc.
Qed.

Definition printed_set_of (sv : list Z) (l : list Z) : result glob_error (list Z * nat) :=
  let? '(neg, items, rest) := set_of l in Ok (print_set neg items, (length sv - length rest)%nat).

Lemma set_items_end : set_items true [] = Err unmatched_open_bracket.
Proof. done. Qed.

(** The elements from the first one on: what the code does about [^] and [\]]. *)
Lemma first_items sv pre l neg cls : sv = pre ++ l -> pre <> [] ->
  (forall x r, l = x :: r -> escape_first neg x = escape_in_set x) ->
  (forall x r, l = x :: r -> x <> 93) ->
  char_set_loop (length sv) sv (length pre - 1) (length pre) cls = printed_set sv cls (print_first_items neg) (set_items true l).
Proof.
  intros -> Hne Hesc H93. assert (0 < length pre)%nat by (destruct pre; [done|cbn; lia]).
  destruct l as [|x r].
  - rewrite app_nil_r. replace (length pre) with (Datatypes.S (length pre - 1)) at 1 by lia.
    rewrite char_set_loop_S, lookup_ge_None_2 by lia. done.
  - rewrite length_app. cbn [length]. replace (length pre + Datatypes.S (length r))%nat with (Datatypes.S (length pre + length r)) by lia.
    rewrite plain_step; [|lia|by eapply H93|left; lia].
    rewrite set_items_cons. rewrite andb_false_r. destruct (x =? 47); [done|].
    replace (Datatypes.S (length pre - 1)) with (length pre) by lia.
    rewrite (proj2 (char_set_loop_spec (length r) r ltac:(lia))) by lia.
    by rewrite <- (Hesc x r) by done; apply printed_first.
Qed.

Lemma escaped_first sv pre x r neg cls : sv = pre ++ x :: r -> x <> 47 -> (0 < length pre)%nat ->
  char_set_loop (length sv) sv (length pre) (length pre) (cls ++ escape_first neg x)
  = printed_set sv cls (print_first_items neg) (set_items true (x :: r)).
Proof.
  intros -> H47 Hp. rewrite (proj2 (char_set_loop_spec (length r) r ltac:(lia))) by (rewrite ?length_app; cbn; lia).
  rewrite printed_first, set_items_cons, andb_false_r. by rewrite (proj2 (Z.eqb_neq x 47) H47).
Qed.

Lemma printed_set_of_neg sv r : printed_set_of sv (33 :: r) = printed_set sv [91; 94] (print_first_items true) (set_items true r).
Proof. unfold printed_set_of, set_of. cbn [Z.eqb Pos.eqb]. by destruct (set_items true r) as [[items rest]|]. Qed.

Lemma printed_set_of_pos sv x r : x <> 33 -> printed_set_of sv (x :: r) = printed_set sv [91] (print_first_items false) (set_items true (x :: r)).
Proof.
  intros Hx. unfold printed_set_of, set_of. rewrite (proj2 (Z.eqb_neq x 33) Hx).
  by destruct (set_items true (x :: r)) as [[items rest]|].
Qed.

Lemma starts_with_cons l p x y : starts_with (y :: l) (x :: p) = (y =? x) && starts_with l p.
Proof. done. Qed.

Lemma starts_with_all l : starts_with l [] = true.
Proof. by destruct l. Qed.

Lemma starts_with_nil x p : starts_with [] (x :: p) = false.
Proof. done. Qed.

Lemma handle_char_set_spec pre l : handle_char_set (pre ++ 91 :: l) (length pre) = printed_set_of (pre ++ 91 :: l) l.
Proof.
  assert (Hlen : forall q : list Z, length (pre ++ q) = (length pre + length q)%nat) by (intros; apply length_app).
  unfold handle_char_set. rewrite drop_app_length. cbn zeta.
  rewrite !starts_with_cons, Z.eqb_refl, !andb_true_l.
  destruct l as [|x r].
  { replace (length (pre ++ [91])) with (Datatypes.S (length pre)) by (rewrite Hlen; cbn; lia).
    rewrite !starts_with_nil, char_set_loop_S, (lookup_ge_None_2 _ (Datatypes.S _)) by (rewrite Hlen; cbn; lia).
    done. }
  rewrite !starts_with_cons, !starts_with_all, !andb_true_r. destruct (Z.eqb_spec x 33) as [->|H33].
  - rewrite printed_set_of_neg. replace (pre ++ 91 :: 33 :: r) with ((pre ++ [91; 33]) ++ r) by by rewrite <- app_assoc.
    replace (length pre + 2)%nat with (length (pre ++ [91; 33])%Z) by (rewrite Hlen; done).
    replace (length pre + 1)%nat with (length (pre ++ [91; 33])%Z - 1)%nat by (rewrite Hlen; cbn; lia).
    destruct r as [|y r].
    + apply first_items; try done. by destruct pre.
    + rewrite starts_with_cons, starts_with_all, andb_true_r. destruct (Z.eqb_spec y 93) as [->|H93].
      * apply (escaped_first _ (pre ++ [91; 33]) 93 r true [91; 94]); [done|done|rewrite Hlen; cbn; lia].
      * apply first_items; [done|by destruct pre| |]; intros z q [= <- <-]; [|done].
        unfold escape_first. by rewrite (proj2 (Z.eqb_neq y 93) H93), andb_false_r.
  - rewrite printed_set_of_pos by done. rewrite andb_false_l.
    replace (pre ++ 91 :: x :: r) with ((pre ++ [91]) ++ x :: r) by by rewrite <- app_assoc.
    replace (length pre + 1)%nat with (length (pre ++ [91])%Z) by (rewrite Hlen; done).
    destruct (Z.eqb_spec x 93) as [->|H93].
    { apply (escaped_first _ (pre ++ [91]) 93 r false [91]); [done|done|rewrite Hlen; cbn; lia]. }
    destruct (Z.eqb_spec x 94) as [->|H94].
    { apply (escaped_first _ (pre ++ [91]) 94 r false [91]); [done|done|rewrite Hlen; cbn; lia]. }
    replace (length pre) with (length (pre ++ [91])%Z - 1)%nat by (rewrite Hlen; cbn; lia).
    apply first_items; [done|by destruct pre| |]; intros z q [= <- <-]; [|done].
    unfold escape_first. by rewrite (proj2 (Z.eqb_neq x 93) H93), (proj2 (Z.eqb_neq x 94) H94).
Qed.

(** ** The loop over the pattern *)

Definition print_toks (toks : list (btok gatom)) : list Z := concat (print_tok <$> toks).

(** What the loop makes of the rest of a pattern, given its tokens. *)
Definition printed (regex : list Z) (m : result glob_error (list (btok gatom))) : result glob_error (list Z) :=
  let? toks := m in Ok (regex ++ print_toks toks).

Definition finish (m : result glob_error (list Z * nat)) : result glob_error (list Z) :=
  let? '(regex, brace_depth) := m in if (0 <? brace_depth)%nat then Err unmatched_open_brace else Ok regex.

Definition last_char (pre : list Z) : option Z := last pre.

Lemma after_slash_spec pre l : after_slash (pre ++ l) (length pre) = at_start (last_char pre).
Proof.
  unfold after_slash, at_start, last_char. destruct pre as [|c pre _] using rev_ind; [done|].
  rewrite last_snoc, length_app. cbn [length]. replace (length pre + 1 =? 0)%nat with false by (symmetry; apply Nat.eqb_neq; lia).
  cbn [orb]. rewrite <- app_assoc. rewrite lookup_app_r by lia.
  replace (length pre + 1 - 1 - length pre)%nat with 0%nat by lia. cbn.
  case_bool_decide as H; destruct (Z.eqb_spec c 47); congruence.
Qed.

Lemma printed_next regex t m p : print_tok t = p ->
  printed regex (let? toks := m in Ok (t :: toks)) = printed (regex ++ p) m.
Proof. intros <-. destruct m as [toks|]; [|done]. cbn. by rewrite <- app_assoc. Qed.

Lemma after_item_inv x l items rest : after_item x l = Ok (items, rest) ->
  (exists its, items = SChar x :: its /\ dash_range l = false /\ set_items false l = Ok (its, rest)) \/
  (exists y r its, l = 45 :: y :: r /\ x <= y /\ y <> 93 /\ y <> 47 /\ items = SRange x y :: its /\ set_items false r = Ok (its, rest)).
Proof.
  assert (Hc : (let? '(items, rest) := set_items false l in Ok (SChar x :: items, rest)) = Ok (items, rest) ->
    dash_range l = false -> exists its, items = SChar x :: its /\ dash_range l = false /\ set_items false l = Ok (its, rest)).
  { destruct (set_items false l) as [[its k]|e]; intros H Hd; simplify_eq/=. eauto. }
  unfold after_item. destruct l as [|d [|y r]]; [by left; auto..|].
  destruct (_ && _) eqn:Hd; [|by left; auto].
  apply andb_true_iff in Hd as [->%Z.eqb_eq Hy%negb_true_iff%Z.eqb_neq].
  destruct (Z.ltb_spec y x); [done|]. destruct (Z.eqb_spec y 47); [done|].
  destruct (set_items false r) as [[its k]|e] eqn:Hr; intros Hok; simplify_eq/=. right. eauto 10.
Qed.

Lemma set_items_rest n : forall l first items rest, (length l <= n)%nat ->
  set_items first l = Ok (items, rest) -> exists q, l = q ++ 93 :: rest.
Proof.
  induction n as [|n IH]; intros [|x r] first items rest Hn H; try done; [cbn in Hn; lia|].
  cbn in Hn. rewrite set_items_cons in H. destruct (Z.eqb_spec x 93) as [->|Hx]; [destruct first|]; cbn [andb negb] in H.
  2: { simplify_eq. by exists []. }
  all: destruct (_ =? 47); [done|]; apply after_item_inv in H as [(its & -> & _ & H)|(y & r' & its & -> & _ & _ & _ & -> & H)];
    (apply IH in H as [q Hq]; [|cbn in *; lia]); subst.
  1, 3: by eexists (_ :: q). all: by eexists (_ :: _ :: _ :: q).
Qed.

Lemma set_of_rest l neg items rest : set_of l = Ok (neg, items, rest) -> exists q, l = q ++ 93 :: rest.
Proof.
  unfold set_of. destruct l as [|c r]; [done|]. destruct (c =? 33); intros H.
  - destruct (set_items true r) as [[its k]|] eqn:Hs; simplify_eq/=.
    destruct (set_items_rest (length r) _ _ _ _ (le_n _) Hs) as [q ->]. by exists (c :: q).
  - destruct (set_items true (c :: r)) as [[its k]|] eqn:Hs; cbn [rbind] in H; simplify_eq.
    by apply (set_items_rest (length (c :: r)) _ _ _ _ (le_n _) Hs).
Qed.

Lemma glob_loop_spec fuel : forall pre l depth regex, (length l < fuel)%nat ->
  finish (glob_loop fuel (pre ++ l) (length pre) depth regex) = printed regex (glob_tokens fuel (last_char pre) depth l).
Proof.
  induction fuel as [|fuel IH]; intros pre l depth regex Hf; [lia|].
  assert (Hlen : forall q : list Z, length (pre ++ q) = (length pre + length q)%nat) by (intros; apply length_app).
  assert (Hstep : forall q r d regex', l = q ++ r -> q <> [] ->
    finish (glob_loop fuel (pre ++ l) (length pre + length q) d regex') = printed regex' (glob_tokens fuel (last q) d r)).
  { intros q r d regex' -> Hq. rewrite app_assoc, <- Hlen. rewrite IH.
    - f_equal. f_equal. unfold last_char. rewrite last_app. by destruct (last q) eqn:E; [|apply last_None in E].
    - rewrite length_app in Hf. destruct q; [done|]. cbn in Hf. lia. }
  destruct l as [|c r].
  { cbn [glob_loop glob_tokens]. rewrite lookup_ge_None_2 by (rewrite app_nil_r; lia).
    destruct depth; cbn; [by rewrite app_nil_r|done]. }
  cbn [glob_loop glob_tokens]. rewrite lookup_mid by done.
  rewrite (lookup_mid1 pre r c (length pre + 1)) by lia.
  destruct (c =? 92).
  { destruct r as [|d r]; cbn [lookup list_lookup]; [done|]. rewrite (printed_next _ _ _ _ eq_refl). by apply (Hstep [c; d]). }
  destruct (Z.eqb_spec c 42) as [->|].
  { rewrite after_slash_spec. destruct r as [|d r].
    - cbn [lookup list_lookup]. rewrite bool_decide_eq_false_2 by done. rewrite (proj2 (Nat.eqb_eq _ _)) by (rewrite Hlen; cbn; lia).
      cbn [orb]. rewrite andb_true_r. erewrite printed_next; [by apply (Hstep [42])|]. by destruct (at_start _).
    - cbn [lookup list_lookup]. destruct (Z.eqb_spec d 42) as [->|Hd].
      + rewrite bool_decide_eq_true_2 by done.
        replace ((pre ++ 42 :: 42 :: r) !! (length pre + 2)%nat) with (r !! 0%nat)
          by (rewrite lookup_app_r by lia; by replace (_ - _)%nat with 2%nat by lia).
        destruct r as [|e r]; cbn [lookup list_lookup].
        * rewrite bool_decide_eq_false_2 by done. cbn [andb]. rewrite (printed_next _ _ _ _ eq_refl). by apply (Hstep [42; 42]).
        * replace (bool_decide (Some e = Some 47)) with (e =? 47)
            by (destruct (Z.eqb_spec e 47); case_bool_decide; congruence).
          destruct (_ && _); rewrite (printed_next _ _ _ _ eq_refl); [by apply (Hstep [42; 42; e])|by apply (Hstep [42; 42])].
      + rewrite bool_decide_eq_false_2 by congruence.
        replace (bool_decide (Some d = Some 47)) with (d =? 47)
          by (destruct (Z.eqb_spec d 47); case_bool_decide; congruence).
        rewrite (proj2 (Nat.eqb_neq _ _)) by (rewrite Hlen; cbn; lia). cbn [orb].
        erewrite printed_next; [by apply (Hstep [42])|]. by destruct (_ && _). }
  destruct (c =? 63); [rewrite (printed_next _ _ _ _ eq_refl); by apply (Hstep [c])|].
  destruct (Z.eqb_spec c 91) as [->|].
  { rewrite handle_char_set_spec. unfold printed_set_of. destruct (set_of r) as [[[neg items] rest]|e] eqn:Hs; [|done].
    cbn [rbind]. rewrite (printed_next _ _ _ _ eq_refl). destruct (set_of_rest _ _ _ _ Hs) as [q ->].
    replace (Some 93) with (last (91 :: q ++ [93])) by (rewrite app_comm_cons; apply last_snoc).
    replace (length (pre ++ 91 :: q ++ 93 :: rest)%Z - length rest)%nat with (length pre + length (91 :: q ++ [93])%Z)%nat
      by (rewrite Hlen; cbn; rewrite !length_app; cbn; lia).
    apply Hstep; [|done]. cbn. by rewrite <- app_assoc. }
  destruct (c =? 123); [rewrite (printed_next _ _ _ _ eq_refl), (Nat.add_1_r depth); by apply (Hstep [c])|].
  destruct (Z.eqb_spec c 44) as [->|].
  { erewrite printed_next; [by apply (Hstep [44])|]. by destruct (0 <? depth)%nat. }
  destruct (c =? 125).
  { destruct depth as [|depth]; [done|]. cbn [Nat.eqb]. rewrite (printed_next _ _ _ _ eq_refl), (Nat.sub_1_r (Datatypes.S depth)). by apply (Hstep [c]). }
  destruct (c =? 93); [done|].
  rewrite (printed_next _ _ _ _ eq_refl). by apply (Hstep [c]).
Qed.

(** The text that is made of a pattern is that of its tokens. *)
Lemma glob_to_regex_string_spec pattern :
  glob_to_regex_string pattern = let? toks := parse_tokens pattern in Ok (print_toks toks).
Proof. apply (glob_loop_spec (Datatypes.S (length pattern)) [] pattern 0 []). lia. Qed.

(** ** [std::regex] reads the classes back *)

(** What a class holds after the split of the ranges around [/]. *)
Definition expand_item (i : set_item) : list set_item :=
  match i with
  | SRange from to => if spans_slash from to then [SRange from 46; SRange 48 to] else [i]
  | SChar _ => [i]
  end.

Definition opens_class (c : Z) : bool := (c =? 58) || (c =? 46) || (c =? 61).

Definition first_of (i : set_item) : Z := match i with SChar c => c | SRange from _ => from end.
Definition last_of (i : set_item) : Z := match i with SChar c => c | SRange _ to => to end.

(** No [[] before [:], [.] or [=]. *)
Fixpoint plain_items (items : list set_item) : bool :=
  match items with
  | i :: (j :: _) as rest => negb ((last_of i =? 91) && opens_class (first_of j)) && plain_items rest
  | _ => true
  end.

Definition pending (last : option Z) : list set_item := match last with Some a => [SChar a] | None => [] end.

Definition scans_class (last : option Z) (l : list Z) (items : list set_item) (rest : list Z) : Prop :=
  forall fuel, (length l < fuel)%nat -> scan_class fuel last l = Some (items, rest).

Lemma scans_end last k : scans_class last (93 :: k) (pending last) k.
Proof. intros [|fuel] Hf; [lia|]. done. Qed.

Lemma scans_last_dash last k : scans_class last (45 :: 93 :: k) (pending last ++ [SChar 45]) k.
Proof. intros [|fuel] Hf; [lia|]. done. Qed.

Lemma scans_first_dash d k items rest : d <> 93 ->
  scans_class (Some 45) (d :: k) items rest -> scans_class None (45 :: d :: k) items rest.
Proof.
  intros Hd Hs [|fuel] Hf; [cbn in Hf; lia|]. cbn [scan_class].
  change (45 =? 93) with false. change (45 =? 45) with true. cbn iota. rewrite (proj2 (Z.eqb_neq d 93) Hd).
  apply Hs. cbn in *. lia.
Qed.

Lemma scans_char last p b k items rest :
  class_char (p ++ k) = Some (b, k) -> hd 93 p <> 93 -> hd 93 p <> 45 ->
  scans_class (Some b) k items rest -> scans_class last (p ++ k) (pending last ++ items) rest.
Proof.
  intros Hc H93 H45 Hs [|fuel] Hf; [lia|]. destruct p as [|c p]; [done|]. cbn [app scan_class hd] in *.
  rewrite (proj2 (Z.eqb_neq c 93) H93), (proj2 (Z.eqb_neq c 45) H45), Hc. cbn.
  rewrite Hs; [done|]. cbn in Hf. rewrite length_app in Hf. lia.
Qed.

Lemma scans_range a p b k items rest :
  class_char (p ++ k) = Some (b, k) -> hd 93 p <> 93 -> a <= b ->
  scans_class None k items rest -> scans_class (Some a) (45 :: p ++ k) (SRange a b :: items) rest.
Proof.
  intros Hc H93 Hab Hs [|fuel] Hf; [lia|]. destruct p as [|c p]; [done|]. cbn [app scan_class hd] in *.
  change (45 =? 93) with false. change (45 =? 45) with true. cbn iota. rewrite (proj2 (Z.eqb_neq c 93) H93), Hc. cbn.
  rewrite (proj2 (Z.ltb_ge b a)) by lia. rewrite Hs; [done|]. cbn in Hf. rewrite length_app in Hf. lia.
Qed.

Lemma class_char_escape x k : (x = 91 -> exists d k', k = d :: k' /\ opens_class d = false) ->
  class_char (escape_in_set x ++ k) = Some (x, k).
Proof.
  intros Hk. unfold escape_in_set. destruct (Z.eqb_spec x 92) as [->|H92]; [done|].
  cbn. rewrite (proj2 (Z.eqb_neq x 92) H92). destruct (Z.eqb_spec x 91) as [->|]; [|done].
  destruct (Hk eq_refl) as (d & k' & -> & Hd). unfold opens_class in Hd. by rewrite Hd.
Qed.

Lemma hd_escape x : hd 93 (escape_in_set x) = x.
Proof. unfold escape_in_set. by destruct (Z.eqb_spec x 92) as [->|]. Qed.

(** What follows an element does not turn a [[] into the start of a class. *)
Lemma plain_next i its k : plain_items (i :: its) = true -> last_of i = 91 ->
  exists d k', print_items its ++ 93 :: k = d :: k' /\ opens_class d = false.
Proof.
  intros Hp Hi. destruct its as [|j its]; [by exists 93, k|].
  cbn [plain_items] in Hp. rewrite Hi in Hp. cbn [Z.eqb Pos.eqb andb] in Hp.
  apply andb_true_iff in Hp as [Hj%negb_true_iff _]. unfold print_items. cbn.
  assert (He : exists q, print_item j = (if first_of j =? 92 then 92 else first_of j) :: q).
  { destruct j as [c|x y]; cbn; unfold escape_in_set; destruct (_ =? 92); cbn; eauto. }
  destruct He as [q ->]. eexists _, _. split; [done|]. by destruct (Z.eqb_spec (first_of j) 92).
Qed.

Definition expand (items : list set_item) : list set_item := concat (expand_item <$> items).

Lemma scans_print_range a y k items rest : a <> 47 -> y <> 47 -> y <> 93 -> a <= y ->
  class_char (escape_in_set y ++ k) = Some (y, k) -> scans_class None k items rest ->
  scans_class (Some a) (print_range a y ++ k) (expand_item (SRange a y) ++ items) rest.
Proof.
  intros Ha Hy H93 Hay Hc Hs. assert (Hh : hd 93 (escape_in_set y) <> 93) by by rewrite hd_escape.
  unfold print_range, expand_item. destruct (spans_slash a y) eqn:Hsp; [|by apply scans_range].
  unfold spans_slash in Hsp. apply andb_true_iff in Hsp as [?%Z.leb_le ?%Z.leb_le].
  apply (scans_range a [46] 46); [done|done|lia|].
  apply (scans_char None [48] 48); [done..|]. by apply scans_range; [..|lia|].
Qed.

Lemma first_of_not_close first l i its rest : set_items first l = Ok (i :: its, rest) ->
  exists x r, l = x :: r /\ x = first_of i /\ x <> 47 /\ (first = false -> x <> 93) /\ after_item x r = Ok (i :: its, rest).
Proof.
  destruct l as [|x r]; [done|]. rewrite set_items_cons. destruct (_ && _) eqn:Hx; [done|].
  destruct (Z.eqb_spec x 47); [done|]. intros H. exists x, r. split_and!; [done| |done| |done].
  - by apply after_item_head in H as (its' & [[= -> ->]|[y [= -> ->]]]).
  - intros ->. rewrite andb_true_r in Hx. by apply Z.eqb_neq.
Qed.

(** An element whose first character does not end the class. *)
Lemma scans_element last x r items rest k : x <> 93 -> after_item x r = Ok (items, rest) -> plain_items items = true ->
  last = None \/ dash_range (x :: r) = false ->
  scans_class (Some x) (print_after items ++ 93 :: k) (expand items) k ->
  scans_class last (escape_in_set x ++ print_after items ++ 93 :: k) (pending last ++ expand items) k.
Proof.
  intros H93 Hok Hp Hb Hs. destruct (decide (x = 45)) as [->|H45].
  2: { apply (scans_char _ _ x); [|by rewrite hd_escape..|done]. apply class_char_escape. intros ->.
       destruct (after_item_head _ _ _ _ Hok) as (its & [->|[y ->]]); [by eapply plain_next|]. by eexists 45, _. }
  change (escape_in_set 45 ++ ?q) with (45 :: q).
  apply after_item_inv in Hok as [(its & -> & Hd & Hok)|(y & q & its & -> & _ & Hy & _ & -> & Hok)].
  - destruct its as [|j its]; [apply scans_last_dash|].
    destruct (first_of_not_close _ _ _ _ _ Hok) as (z & q & -> & -> & _ & Hz & _). specialize (Hz eq_refl).
    destruct Hb as [->|Hb]; [|cbn in Hb; apply negb_false_iff, Z.eqb_eq in Hb; done].
    assert (He : exists d q', print_item j = d :: q' /\ d <> 93).
    { exists (if first_of j =? 92 then 92 else first_of j).
      destruct j as [c|c y]; cbn in *; unfold escape_in_set; destruct (c =? 92); cbn; eauto. }
    destruct He as (d & q' & He & Hd'). cbn [pending app]. unfold print_after, print_items in *. cbn in *. rewrite He in *.
    by apply scans_first_dash.
  - destruct Hb as [->|Hb]; [by apply scans_first_dash|by cbn in Hb].
Qed.

Lemma plain_tail i its : plain_items (i :: its) = true -> plain_items its = true.
Proof. destruct its as [|j its]; [done|]. cbn [plain_items]. by intros [_ H]%andb_true_iff. Qed.

(** The elements between two others. *)
Definition scans_between (l : list Z) : Prop := forall last items rest k,
  set_items false l = Ok (items, rest) -> plain_items items = true -> last = None \/ dash_range l = false ->
  scans_class last (print_items items ++ 93 :: k) (pending last ++ expand items) k.

Lemma scans_after x r items rest k : (forall q, (length q <= length r)%nat -> scans_between q) ->
  x <> 47 -> after_item x r = Ok (items, rest) -> plain_items items = true ->
  scans_class (Some x) (print_after items ++ 93 :: k) (expand items) k.
Proof.
  intros IH H47 Hok Hp.
  apply after_item_inv in Hok as [(its & -> & Hd & Hok)|(y & q & its & -> & Hxy & Hy & Hy47 & -> & Hok)];
    pose proof (plain_tail _ _ Hp) as Ht.
  - apply (IH r (le_n _) (Some x) its rest k Hok Ht). by right.
  - cbn [print_after]. rewrite <- app_assoc. apply scans_print_range; try done.
    + apply class_char_escape. intros ->. by eapply plain_next.
    + apply (IH q ltac:(cbn; lia) None its rest k Hok Ht). by left.
Qed.

Lemma scans_items n : forall l, (length l <= n)%nat -> scans_between l.
Proof.
  induction n as [|n IH]; intros [|x r] Hn last items rest k Hok Hp Hb; try done; [cbn in Hn; lia|].
  rewrite set_items_cons, andb_true_r in Hok. destruct (Z.eqb_spec x 93) as [->|H93].
  { simplify_eq. rewrite app_nil_r. apply scans_end. }
  destruct (Z.eqb_spec x 47); [done|]. rewrite (print_items_after _ _ _ _ Hok), <- app_assoc.
  apply (scans_element _ _ r _ rest); try done. eapply scans_after; try done.
  intros q Hq. apply IH. cbn in Hn. lia.
Qed.

Lemma scans_first_items neg l items rest k : set_items true l = Ok (items, rest) -> plain_items items = true ->
  scans_class None (print_first_items neg items ++ 93 :: k) (expand items) k /\
  (neg = false -> hd 93 (print_first_items neg items) <> 94).
Proof.
  intros Hok Hp. destruct l as [|x r]; [done|]. rewrite set_items_cons, andb_false_r in Hok.
  destruct (Z.eqb_spec x 47); [done|].
  assert (Hpr : print_first_items neg items = escape_first neg x ++ print_after items).
  { destruct (after_item_head _ _ _ _ Hok) as (its & [->|[y ->]]); done. }
  assert (Hs : scans_class (Some x) (print_after items ++ 93 :: k) (expand items) k).
  { eapply scans_after; try done. intros q _. by apply (scans_items (length q)). }
  rewrite Hpr, <- app_assoc. unfold escape_first. destruct (_ || _) eqn:He.
  - split; [|done]. apply (scans_char None [92; x] x); [|done..].
    apply orb_true_iff in He as [->%Z.eqb_eq|[->%Z.eqb_eq _]%andb_true_iff]; done.
  - apply orb_false_iff in He as [H93%Z.eqb_neq He]. split.
    + apply (scans_element None x r _ rest); auto.
    + intros ->. rewrite andb_true_r in He. apply Z.eqb_neq in He.
      unfold escape_in_set. by destruct (x =? 92).
Qed.

(** ** [std::regex] reads the tokens back *)

Definition ratom_of (a : gatom) : ratom :=
  match a with
  | GChar c => One (CChar c)
  | GAny => One (CSet true [SChar 47])
  | GStar => Many (CSet true [SChar 47])
  | GPlus => Many1 (CSet true [SChar 47])
  | GDstar => Many CDot
  | GSet neg items => One (CSet neg (expand items))
  end.

Definition rtoks_of (t : btok gatom) : list rtok :=
  match t with
  | BAtom (GChar c) => [RChar c]
  | BAtom GAny => [RClass true [SChar 47]]
  | BAtom GStar => [RClass true [SChar 47]; RQStar]
  | BAtom GPlus => [RClass true [SChar 47]; RQPlus]
  | BAtom GDstar => [RDot; RQStar]
  | BAtom (GSet neg items) => [RClass neg (expand items)]
  | BOpen => [ROpen]
  | BBar => [RBar]
  | BClose => [RClose]
  end.

(** A set that was read from a pattern, and that has no class inside. *)
Definition readable (t : btok gatom) : Prop :=
  match t with
  | BAtom (GSet _ items) => plain_items items = true /\ exists l rest, set_items true l = Ok (items, rest)
  | _ => True
  end.

Definition scans (l : list Z) (toks : list rtok) : Prop :=
  forall fuel, (length l < fuel)%nat -> scan_regex fuel l = Some toks.

Lemma scans_not_special c k toks : is_special c = false -> scans k toks -> scans (c :: k) (RChar c :: toks).
Proof.
  intros Hc Hs [|fuel] Hf; [cbn in Hf; lia|]. cbn [scan_regex].
  unfold is_special, special_chars in Hc. cbn [existsb] in Hc. rewrite !orb_false_iff in Hc.
  destruct_and! Hc. repeat match goal with H : (c =? ?n) = false |- _ => rewrite H; clear H end.
  rewrite Hs by (cbn in Hf; lia). done.
Qed.

Lemma scans_special c k toks : is_special c = true -> scans k toks -> scans (92 :: c :: k) (RChar c :: toks).
Proof.
  intros Hc Hs [|fuel] Hf; [cbn in Hf; lia|]. cbn [scan_regex]. change (92 =? 92) with true. cbn iota.
  rewrite Hc, Hs by (cbn in Hf; lia). done.
Qed.

Lemma scans_set neg items k toks l rest : set_items true l = Ok (items, rest) -> plain_items items = true ->
  scans k toks -> scans (print_set neg items ++ k) (RClass neg (expand items) :: toks).
Proof.
  intros Hok Hp Hs [|fuel] Hf; [cbn in Hf; lia|]. unfold print_set in *. cbn [scan_regex app] in *.
  change (91 =? 92) with false. change (91 =? 91) with true. cbn iota.
  destruct (scans_first_items neg l items rest k Hok Hp) as [Hc Hh].
  cbn [length] in Hf. rewrite !length_app in Hf.
  replace ((((if neg then [94] else []) ++ print_first_items neg items ++ [93]) ++ k))
    with ((if neg then [94] else []) ++ (print_first_items neg items ++ 93 :: k)) by by rewrite <- !app_assoc.
  destruct neg.
  - cbn [app]. change (94 =? 94) with true. cbn iota beta. rewrite Hc by (rewrite length_app; cbn in *; lia). cbn.
    rewrite Hs by (cbn in Hf; lia). done.
  - cbn [app] in *. destruct (print_first_items false items) as [|c q] eqn:Hq.
    { cbn [app]. change (93 =? 94) with false. cbn iota beta. rewrite Hc by (cbn in *; lia). cbn.
      rewrite Hs by (cbn in Hf; lia). done. }
    specialize (Hh eq_refl). cbn [hd app] in *. rewrite (proj2 (Z.eqb_neq c 94) Hh).
    rewrite Hc by (cbn in *; rewrite length_app; cbn; lia). cbn. rewrite Hs by (cbn in Hf; lia). done.
Qed.

Lemma scans_not_slash k toks : scans k toks -> scans (91 :: 94 :: 47 :: 93 :: k) (RClass true [SChar 47] :: toks).
Proof.
  intros Hs [|fuel] Hf; [cbn in Hf; lia|]. cbn [scan_regex app length] in *.
  cbn [Z.eqb Pos.eqb]. rewrite (scans_char None [47] 47 _ _ _ eq_refl ltac:(done) ltac:(done) (scans_end _ k)) by (cbn; lia).
  cbn. rewrite Hs by lia. done.
Qed.

(** The other tokens are one step of the scanner. *)
Ltac scan_step Hs :=
  let fuel := fresh in let Hf := fresh in
  intros [|fuel] Hf; cbn [app length] in Hf; [lia|];
  cbn [scan_regex app Z.eqb Pos.eqb andb]; rewrite Hs by lia; done.

Lemma scans_star k toks : scans k toks -> scans (42 :: k) (RQStar :: toks).
Proof. intros Hs. scan_step Hs. Qed.

Lemma scans_plus k toks : scans k toks -> scans (43 :: k) (RQPlus :: toks).
Proof. intros Hs. scan_step Hs. Qed.

Lemma scans_dot k toks : scans k toks -> scans (46 :: k) (RDot :: toks).
Proof. intros Hs. scan_step Hs. Qed.

Lemma scans_open k toks : scans k toks -> scans (40 :: 63 :: 58 :: k) (ROpen :: toks).
Proof. intros Hs. scan_step Hs. Qed.

Lemma scans_bar k toks : scans k toks -> scans (124 :: k) (RBar :: toks).
Proof. intros Hs. scan_step Hs. Qed.

Lemma scans_close k toks : scans k toks -> scans (41 :: k) (RClose :: toks).
Proof. intros Hs. scan_step Hs. Qed.

Lemma scans_begin k toks : scans k toks -> scans (94 :: k) (RBegin :: toks).
Proof. intros Hs. scan_step Hs. Qed.

Lemma scans_end_anchor k toks : scans k toks -> scans (36 :: k) (REnd :: toks).
Proof. intros Hs. scan_step Hs. Qed.

Lemma scans_nil : scans [] [].
Proof. intros [|fuel] Hf; [cbn in Hf; lia|done]. Qed.

Create HintDb glob.
#[local] Hint Resolve scans_not_slash scans_star scans_plus scans_dot scans_open scans_bar scans_close scans_nil : glob.
#[local] Hint Resolve scans_begin scans_end_anchor : glob.

Lemma scans_tok t k toks : readable t -> scans k toks -> scans (print_tok t ++ k) (rtoks_of t ++ toks).
Proof.
  intros Hr Hs. destruct t as [[c| | | | |neg items]| | |]; cbn [print_tok print_atom rtoks_of app]; eauto with glob.
  - unfold escape_special. destruct (is_special c) eqn:Hc; [by apply scans_special|by apply scans_not_special].
  - destruct Hr as (Hp & l & rest & Hok). by apply (scans_set _ _ _ _ l rest).
Qed.

Lemma scans_toks toks k rtoks : Forall readable toks -> scans k rtoks ->
  scans (print_toks toks ++ k) (concat (rtoks_of <$> toks) ++ rtoks).
Proof.
  intros Hr Hs. unfold print_toks. induction Hr as [|t toks Ht _ IH]; [done|].
  rewrite !fmap_cons. cbn [concat]. rewrite <- !app_assoc. by apply scans_tok.
Qed.

Definition btok_map {A B} (f : A -> B) (t : btok A) : btok B :=
  match t with BAtom a => BAtom (f a) | BOpen => BOpen | BBar => BBar | BClose => BClose end.

(** A quantifier never starts the text of a token. *)
Definition starts_term (rtoks : list rtok) : Prop :=
  match rtoks with (RQStar | RQPlus | RQOpt) :: _ => False | _ => True end.

Lemma quantify_toks toks k ts : starts_term k -> quantify k = Some ts ->
  quantify (concat (rtoks_of <$> toks) ++ k) = Some ((btok_map ratom_of <$> toks) ++ ts).
Proof.
  intros Hk Hq. induction toks as [|t toks IH]; [done|].
  assert (Hst : starts_term (concat (rtoks_of <$> toks) ++ k)).
  { destruct toks as [|[[]| | |] toks]; done. }
  rewrite !fmap_cons. cbn [concat]. rewrite <- app_assoc.
  destruct t as [[c| | | | |neg items]| | |]; cbn [rtoks_of app quantify btok_map ratom_of]; try by rewrite IH.
  all: destruct (concat (rtoks_of <$> toks) ++ k) as [|[] r]; try done; by rewrite IH.
Qed.

(** ** Groups *)

(** Tokens that close [depth] open groups, and have no [|] outside of groups. *)
Fixpoint balanced {A} (depth : nat) (toks : list (btok A)) : Prop :=
  match toks with
  | [] => depth = 0%nat
  | BAtom _ :: toks => balanced depth toks
  | BOpen :: toks => balanced (Datatypes.S depth) toks
  | BBar :: toks => (0 < depth)%nat /\ balanced depth toks
  | BClose :: toks => match depth with O => False | Datatypes.S depth => balanced depth toks end
  end.

Lemma tokens_balanced fuel : forall prev depth l toks, glob_tokens fuel prev depth l = Ok toks -> balanced depth toks.
Proof.
  induction fuel as [|fuel IH]; intros prev depth l toks H; [done|].
  assert (Hnext : forall t p d r, (let? toks := glob_tokens fuel p d r in Ok (t :: toks)) = Ok toks ->
    (forall q, balanced d q -> balanced depth (t :: q)) -> balanced depth toks).
  { intros t p d r Hn Hb. destruct (glob_tokens fuel p d r) eqn:E; cbn in Hn; simplify_eq. by eapply Hb, IH. }
  assert (Hatom : forall a p r, (let? toks := glob_tokens fuel p depth r in Ok (BAtom a :: toks)) = Ok toks -> balanced depth toks).
  { intros a p r Hn. by eapply Hnext. }
  cbn [glob_tokens] in H. destruct l as [|c r].
  { destruct depth; simplify_eq/=; done. }
  destruct (c =? 92); [destruct r; [done|by eapply Hatom]|].
  destruct (c =? 42).
  { destruct r as [|d r]; [by eapply Hatom|]. destruct (d =? 42); [|by eapply Hatom].
    destruct r; [by eapply Hatom|]. destruct (_ && _); by eapply Hatom. }
  destruct (c =? 63); [by eapply Hatom|].
  destruct (c =? 91); [destruct (set_of r) as [[[neg items] rest]|]; [by eapply Hatom|done]|].
  destruct (c =? 123); [by eapply Hnext|].
  destruct (c =? 44); [destruct (Nat.ltb_spec 0 depth); [by eapply Hnext|by eapply Hatom]|].
  destruct (c =? 125); [destruct depth; [done|by eapply Hnext]|].
  destruct (c =? 93); [done|]. by eapply Hatom.
Qed.

Lemma run_groups_app {A} (t1 t2 : list (btok A)) : forall fs,
  run_groups fs (t1 ++ t2) = (fs' ← run_groups fs t1; run_groups fs' t2).
Proof.
  induction t1 as [|t t1 IH]; intros fs; [done|]. destruct t as [a| | |]; cbn [app run_groups].
  - destruct (push_term (Atom a) fs); [apply IH|done].
  - apply IH.
  - destruct fs; [done|apply IH].
  - destruct fs as [|f [|g fs]]; [done..|]. destruct (push_term _ _); [apply IH|done].
Qed.

Definition frame_map {A B} (f : A -> B) (fr : frame A) : frame B := (tree_map f <$> fr.1, tree_map f <$> fr.2).

Lemma seq_of_map {A B} (f : A -> B) ts : tree_map f (seq_of ts) = seq_of (tree_map f <$> ts).
Proof.
  unfold seq_of. change (@Eps B) with (tree_map f Eps). generalize (@Eps A).
  induction ts as [|t ts IH]; intros acc; [done|]. cbn. by rewrite IH.
Qed.

Lemma close_frame_map {A B} (f : A -> B) fr : tree_map f (close_frame fr) = close_frame (frame_map f fr).
Proof. destruct fr as [[t|] ts]; unfold close_frame; cbn -[seq_of]; by rewrite seq_of_map. Qed.

(** Balanced tokens add terms to the group they are in, whatever it holds. *)
Lemma run_groups_balanced {A} (toks : list (btok A)) : forall fs cur, balanced (length fs) toks ->
  exists cur', forall B (f : A -> B) alts c0 st,
    run_groups ((frame_map f <$> fs) ++ (alts, (tree_map f <$> cur) ++ c0) :: st) (btok_map f <$> toks)
    = Some ((alts, (tree_map f <$> cur') ++ c0) :: st).
Proof.
  induction toks as [|t toks IH]; intros fs cur Hb; [cbn in Hb; apply nil_length_inv in Hb as ->; by exists cur|].
  destruct t as [a| | |]; cbn [balanced] in Hb.
  - destruct fs as [|fr fs]; [apply (IH [] (Atom a :: cur) Hb)|apply (IH ((fr.1, Atom a :: fr.2) :: fs) cur Hb)].
  - apply (IH ((None, []) :: fs) cur Hb).
  - destruct fs as [|fr fs]; [cbn in Hb; lia|]. destruct Hb as [_ Hb].
    destruct (IH ((Some (close_frame fr), []) :: fs) cur Hb) as [cur' H]. exists cur'. intros B f alts c0 st.
    rewrite <- (H B f alts c0 st). rewrite !fmap_cons. cbn [app run_groups btok_map push_term mbind option_bind fmap list_fmap].
    by rewrite <- close_frame_map.
  - destruct fs as [|fr [|fr' fs]]; cbn [length] in Hb; [done| |].
    + destruct (IH [] (close_frame fr :: cur) Hb) as [cur' H]. exists cur'. intros B f alts c0 st.
      rewrite <- (H B f alts c0 st). rewrite !fmap_cons. cbn [app run_groups btok_map push_term mbind option_bind fmap list_fmap].
    by rewrite <- close_frame_map.
    + destruct (IH ((fr'.1, close_frame fr :: fr'.2) :: fs) cur Hb) as [cur' H]. exists cur'. intros B f alts c0 st.
      rewrite <- (H B f alts c0 st). rewrite !fmap_cons. cbn [app run_groups btok_map push_term mbind option_bind fmap list_fmap].
    by rewrite <- close_frame_map.
Qed.

(** ** The matcher *)

(** Whether a position is the beginning after [s1] was matched. *)
Definition beginning (b : bool) (s1 : list Z) : bool := match s1 with [] => b | _ => false end.

(** [m], followed by what [k] accepts, for a language [L]. *)
Definition accepts (m : rest_match -> rest_match) (L : list Z -> Prop) : Prop := forall k b s,
  m k b s = true <-> exists s1 s2, s = s1 ++ s2 /\ L s1 /\ k (beginning b s1) s2 = true.

Lemma accepts_ext m L L' : (forall s, L s <-> L' s) -> accepts m L -> accepts m L'.
Proof. intros HL Hm k b s. rewrite (Hm k b s). by setoid_rewrite HL. Qed.

Lemma accepts_one p : accepts (one p) (fun s => exists c, s = [c] /\ p c = true).
Proof.
  intros k b s. destruct s as [|c s]; cbn.
  - split; [done|]. intros (s1 & s2 & H & (c & -> & _) & _). done.
  - rewrite andb_true_iff. split.
    + intros [Hp Hk]. exists [c], s. eauto.
    + intros (s1 & s2 & H & (c' & -> & Hp) & Hk). by simplify_eq/=.
Qed.

Lemma accepts_many p : accepts (many p) (Forall (fun c => p c = true)).
Proof.
  intros k b s. revert b. induction s as [|c s IH]; intros b; cbn [many].
  - rewrite orb_false_r. split; [intros Hk; by exists [], []|].
    intros (s1 & s2 & H & _ & Hk). by destruct s1, s2.
  - rewrite orb_true_iff, andb_true_iff, IH. split.
    + intros [Hk|(Hp & s1 & s2 & -> & Hs & Hk)]; [by exists [], (c :: s)|].
      exists (c :: s1), s2. split_and!; [done|by constructor|by destruct s1].
    + intros (s1 & s2 & H & Hs & Hk). destruct s1 as [|c' s1]; [left; by simplify_eq/=|right].
      cbn in H. simplify_eq. inversion Hs; subst. split; [done|]. exists s1, s2. by destruct s1.
Qed.

Lemma accepts_cat m1 m2 L1 L2 : accepts m1 L1 -> accepts m2 L2 ->
  accepts (fun k => m1 (m2 k)) (fun s => exists s1 s2, s = s1 ++ s2 /\ L1 s1 /\ L2 s2).
Proof.
  intros H1 H2 k b s. rewrite (H1 (m2 k) b s). split.
  - intros (s1 & s2 & -> & Hl1 & Hk). apply H2 in Hk as (s3 & s4 & -> & Hl2 & Hk).
    exists (s1 ++ s3), s4. split_and!; [by rewrite app_assoc|eauto|]. by destruct s1, s3.
  - intros (s1 & s2 & -> & (s3 & s4 & -> & Hl1 & Hl2) & Hk). exists s3, (s4 ++ s2).
    split_and!; [by rewrite app_assoc|done|]. apply H2. exists s4, s2. by destruct s3, s4.
Qed.

Lemma accepts_alt m1 m2 L1 L2 : accepts m1 L1 -> accepts m2 L2 ->
  accepts (fun k b s => m1 k b s || m2 k b s) (fun s => L1 s \/ L2 s).
Proof. intros H1 H2 k b s. rewrite orb_true_iff, (H1 k b s), (H2 k b s). naive_solver. Qed.

Lemma tolower_slash c : tolower c = 47 <-> c = 47.
Proof. unfold tolower. destruct (_ && _) eqn:E; [|done]. apply andb_true_iff in E as [?%Z.leb_le ?%Z.leb_le]. lia. Qed.

Lemma toupper_slash c : toupper c = 47 <-> c = 47.
Proof. unfold toupper. destruct (_ && _) eqn:E; [|done]. apply andb_true_iff in E as [?%Z.leb_le ?%Z.leb_le]. lia. Qed.

Lemma translate_slash ic c : translate ic 47 = translate ic c <-> c = 47.
Proof.
  unfold translate. destruct ic; [|lia]. change (tolower 47) with 47. pose proof (tolower_slash c). split; intros; [|subst]; lia || tauto.
Qed.

Lemma not_slash_match ic c : class_match ic (CSet true [SChar 47]) c = true <-> c <> 47.
Proof.
  cbn [class_match existsb item_match]. rewrite orb_false_r. pose proof (translate_slash ic c) as H.
  destruct (Z.eqb_spec (translate ic 47) (translate ic c)); cbn; split; tauto || (intros; by auto).
Qed.

(** A range that was split has lost the slash, one that was not does not hold it. *)
Lemma expand_item_match ic i c : existsb (item_match ic c) (expand_item i) = true <-> item_means ic i c.
Proof.
  pose proof (tolower_slash c). pose proof (toupper_slash c). destruct i as [x|x y]; cbn [expand_item item_means].
  - cbn. rewrite orb_false_r. apply Z.eqb_eq.
  - destruct (spans_slash x y) eqn:Hsp; unfold spans_slash in Hsp;
      [apply andb_true_iff in Hsp as [?%Z.leb_le ?%Z.leb_le]|
       apply andb_false_iff in Hsp; rewrite !Z.leb_gt in Hsp];
      cbn [existsb item_match]; rewrite orb_false_r; unfold in_range; destruct ic;
      rewrite ?orb_true_iff, ?andb_true_iff, ?Z.leb_le; lia.
Qed.

Lemma expand_match ic items c : existsb (item_match ic c) (expand items) = true <-> Exists (fun i => item_means ic i c) items.
Proof.
  unfold expand. induction items as [|i items IH]; [by rewrite Exists_nil|].
  rewrite fmap_cons. cbn [concat]. rewrite existsb_app, orb_true_iff, Exists_cons, IH. by rewrite expand_item_match.
Qed.

(** The strings without a line terminator, the only ones [.] matches. *)
Definition no_line_end (s : list Z) : Prop := Forall (fun c => c <> 10 /\ c <> 13) s.

(** The meaning of an atom, on strings without line ends. *)
Definition atom_language (ic : bool) (a : gatom) (s : list Z) : Prop :=
  match a with
  | GDstar => no_line_end s
  | _ => atom_means ic a s
  end.

Lemma accepts_atom ic a : accepts (atom_match ic (ratom_of a)) (atom_language ic a).
Proof.
  pose proof (not_slash_match ic) as Hns.
  destruct a as [x| | | | |neg items]; cbn [atom_match ratom_of atom_language atom_means].
  - eapply accepts_ext; [|apply accepts_one]. intros s. cbn. by setoid_rewrite Z.eqb_eq.
  - eapply accepts_ext; [|apply accepts_one]. intros s. by setoid_rewrite Hns.
  - eapply accepts_ext; [|apply accepts_many]. intros s. apply Forall_iff. apply Hns.
  - set (p := class_match ic (CSet true [SChar 47])).
    assert (Hall : forall s, Forall (fun c => p c = true) s <-> Forall (fun c => c <> 47) s) by (intros; apply Forall_iff, Hns).
    eapply accepts_ext; [|exact (accepts_cat _ _ _ _ (accepts_one p) (accepts_many p))]. intros s. cbn beta. subst p. split.
    + intros (s1 & s2 & -> & (c & -> & Hc) & Hs). split; [done|].
      cbn. constructor; [by apply Hns|]. by apply Hall.
    + intros [Hne Hs]. destruct s as [|c s]; [done|]. inversion Hs; subst. exists [c], s. split_and!; [done| |by apply Hall].
      exists c. split; [done|]. by apply Hns.
  - eapply accepts_ext; [|apply accepts_many]. intros s. apply Forall_iff. intros c. cbn.
    destruct (Z.eqb_spec c 10), (Z.eqb_spec c 13); cbn; split; naive_solver.
  - eapply accepts_ext; [|apply accepts_one]. intros s. cbn [class_match].
    destruct neg; split; intros (c & -> & Hc); exists c; (split; [done|]).
    + intros He%expand_match. by rewrite He in Hc.
    + rewrite <- expand_match in Hc. by destruct (existsb _ _).
    + apply expand_match. by destruct (existsb _ _).
    + apply expand_match in Hc. by rewrite Hc.
Qed.

(** The meaning of a glob, with [**] kept on a line. *)
Fixpoint glob_language (ic : bool) (t : tree gatom) (s : list Z) : Prop :=
  match t with
  | Eps => s = []
  | Atom a => atom_language ic a s
  | Cat t1 t2 => exists s1 s2, s = s1 ++ s2 /\ glob_language ic t1 s1 /\ glob_language ic t2 s2
  | Alt t1 t2 => glob_language ic t1 s \/ glob_language ic t2 s
  end.

Lemma accepts_tree ic t : accepts (tree_match ic (tree_map ratom_of t)) (glob_language ic t).
Proof.
  induction t as [|a|t1 IH1 t2 IH2|t1 IH1 t2 IH2]; cbn [tree_match tree_map glob_language].
  - intros k b s. split; [intros Hk; by exists [], s|]. by intros (s1 & s2 & -> & -> & Hk).
  - apply accepts_atom.
  - by apply (accepts_cat _ _ _ _ IH1 IH2).
  - by apply (accepts_alt _ _ _ _ IH1 IH2).
Qed.

Lemma language_means ic t s : no_line_end s -> glob_language ic t s <-> glob_means ic t s.
Proof.
  revert s. induction t as [|a|t1 IH1 t2 IH2|t1 IH1 t2 IH2]; intros s Hs; cbn [glob_language glob_means].
  - done.
  - by destruct a.
  - split; intros (s1 & s2 & -> & H1 & H2); apply Forall_app in Hs as [Hs1 Hs2]; exists s1, s2; naive_solver.
  - by rewrite IH1, IH2.
Qed.

(** ** Patterns *)

Definition plain_tok (t : btok gatom) : bool :=
  match t with BAtom (GSet _ items) => plain_items items | _ => true end.

(** No class of the pattern holds [[:], [[.] or [[=]. *)
Definition plain_pattern (pattern : list Z) : bool :=
  match parse_tokens pattern with Ok toks => forallb plain_tok toks | Err _ => true end.

Definition from_set (t : btok gatom) : Prop :=
  match t with BAtom (GSet _ items) => exists l rest, set_items true l = Ok (items, rest) | _ => True end.

Lemma set_of_items l neg items rest : set_of l = Ok (neg, items, rest) -> exists l', set_items true l' = Ok (items, rest).
Proof.
  unfold set_of. destruct l as [|c r]; [done|]. destruct (c =? 33); intros H.
  - exists r. by destruct (set_items true r) as [[its k]|]; cbn [rbind] in H; simplify_eq.
  - exists (c :: r). by destruct (set_items true (c :: r)) as [[its k]|]; cbn [rbind] in H; simplify_eq.
Qed.

Lemma tokens_from_sets fuel : forall prev depth l toks, glob_tokens fuel prev depth l = Ok toks -> Forall from_set toks.
Proof.
  induction fuel as [|fuel IH]; intros prev depth l toks H; [done|].
  assert (Hnext : forall t p d r, (let? toks := glob_tokens fuel p d r in Ok (t :: toks)) = Ok toks ->
    from_set t -> Forall from_set toks).
  { intros t p d r Hn Hb. destruct (glob_tokens fuel p d r) eqn:E; cbn in Hn; simplify_eq. constructor; [done|by eapply IH]. }
  cbn [glob_tokens] in H. destruct l as [|c r].
  { destruct depth; simplify_eq/=; done. }
  destruct (c =? 92); [destruct r; [done|by eapply Hnext]|].
  destruct (c =? 42).
  { destruct r as [|d r]; [eapply Hnext; [done|by destruct (at_start _)]|].
    destruct (d =? 42); [|eapply Hnext; [done|by destruct (_ && _)]].
    destruct r; [by eapply Hnext|]. destruct (_ && _); by eapply Hnext. }
  destruct (c =? 63); [by eapply Hnext|].
  destruct (c =? 91).
  { destruct (set_of r) as [[[neg items] rest]|] eqn:Hs; [|done]. eapply Hnext; [done|].
    destruct (set_of_items _ _ _ _ Hs). cbn. eauto. }
  destruct (c =? 123); [by eapply Hnext|].
  destruct (c =? 44); [eapply Hnext; [done|by destruct (0 <? depth)%nat]|].
  destruct (c =? 125); [destruct depth; [done|by eapply Hnext]|].
  destruct (c =? 93); [done|]. by eapply Hnext.
Qed.

Lemma pattern_readable pattern toks : plain_pattern pattern = true -> parse_tokens pattern = Ok toks -> Forall readable toks.
Proof.
  unfold plain_pattern. intros Hp Ht. rewrite Ht in Hp. apply tokens_from_sets in Ht.
  rewrite forallb_forall in Hp. rewrite Forall_forall in *. intros t Hin. specialize (Ht t Hin).
  specialize (Hp t (proj1 (list_elem_of_In _ _) Hin)). by destruct t as [[]| | |].
Qed.

Lemma btok_map_id {A} (toks : list (btok A)) : btok_map id <$> toks = toks.
Proof. induction toks as [|[] toks IH]; cbn; by rewrite ?IH. Qed.

Lemma tree_map_id {A} (t : tree A) : tree_map id t = t.
Proof. induction t; cbn; congruence. Qed.

Lemma tree_list_map_id {A} (ts : list (tree A)) : tree_map id <$> ts = ts.
Proof. induction ts as [|t ts IH]; [done|]. cbn. by rewrite IH, tree_map_id. Qed.

(** The terms of a pattern: its tree, and what its tokens do inside a larger
    expression. *)
Lemma pattern_terms pattern toks : parse_tokens pattern = Ok toks ->
  exists ts, parse_glob pattern = Ok (seq_of ts) /\
    forall alts c0 st, run_groups ((alts, c0) :: st) (btok_map ratom_of <$> toks) = Some ((alts, (tree_map ratom_of <$> ts) ++ c0) :: st).
Proof.
  intros Ht. destruct (run_groups_balanced toks [] [] (tokens_balanced _ _ _ _ _ Ht)) as [ts Hts].
  exists ts. split; [|intros; apply Hts].
  unfold parse_glob, group. rewrite Ht. cbn [rbind]. specialize (Hts _ id None [] []).
  rewrite btok_map_id, (tree_list_map_id ts), (app_nil_r ts) in Hts. cbn [fmap list_fmap app] in Hts. by rewrite Hts.
Qed.

Lemma seq_match ic ts acc k : tree_match ic (fold_left (fun acc t => Cat t acc) ts acc) k
  = tree_match ic (seq_of ts) (tree_match ic acc k).
Proof.
  unfold seq_of. revert acc k. induction ts as [|t ts IH]; intros acc k; [done|].
  cbn [fold_left]. by rewrite (IH (Cat t acc)), (IH (Cat t Eps)).
Qed.

Lemma seq_match_snoc ic ts t k : tree_match ic (seq_of (ts ++ [t])) k = tree_match ic t (tree_match ic (seq_of ts) k).
Proof. unfold seq_of. by rewrite fold_left_app. Qed.

Lemma seq_match_app ic ts ts' k : tree_match ic (seq_of (ts ++ ts')) k = tree_match ic (seq_of ts') (tree_match ic (seq_of ts) k).
Proof. unfold seq_of at 1. rewrite fold_left_app. apply seq_match. Qed.

(** What a glob accepts at the end of an expression. *)
Definition at_end (k : rest_match) : Prop := forall b s, k b s = true <-> s = [].

Lemma at_end_nil : at_end (fun _ s => match s with [] => true | _ => false end).
Proof. intros b s. by destruct s. Qed.

Lemma at_end_anchor ic k : at_end k -> at_end (tree_match ic (seq_of [Atom End_]) k).
Proof. intros Hk b s. destruct s; cbn; [apply Hk|done]. Qed.

Lemma pattern_accepts ic ts k b s : at_end k ->
  tree_match ic (seq_of (tree_map ratom_of <$> ts)) k b s = true <-> glob_language ic (seq_of ts) s.
Proof.
  intros He. rewrite <- seq_of_map, (accepts_tree ic (seq_of ts) k b s). split.
  - intros (s1 & s2 & -> & Hl & ->%He). by rewrite app_nil_r.
  - intros Hl. exists s, []. rewrite app_nil_r. split_and!; [done..|by apply He].
Qed.

Lemma scans_regex l toks ts t ic : scans l toks -> quantify toks = Some ts -> group ts = Some t ->
  std_regex l ic = Some (Regex t ic).
Proof. intros Hs Hq Hg. unfold std_regex. rewrite Hs by lia. cbn. rewrite Hq. cbn. by rewrite Hg. Qed.

(** The expression [(?:^...$)] of a pattern. *)
Lemma anchored_pattern pattern toks ic : plain_pattern pattern = true -> parse_tokens pattern = Ok toks ->
  exists ts re, parse_glob pattern = Ok (seq_of ts)
    /\ std_regex ([40; 63; 58; 94] ++ print_toks toks ++ [36; 41]) ic = Some re
    /\ forall s, regex_match s re = true <-> glob_language ic (seq_of ts) s.
Proof.
  intros Hp Ht. destruct (pattern_terms _ _ Ht) as (ts & Hg & Hr).
  pose proof (pattern_readable _ _ Hp Ht) as Hrd.
  exists ts. eexists. split; [done|]. split.
  - eapply scans_regex.
    + cbn [app]. apply scans_open, scans_begin. apply (scans_toks toks [36; 41] [REnd; RClose]); [done|].
      apply scans_end_anchor, scans_close, scans_nil.
    + cbn [quantify]. by erewrite quantify_toks.
    + unfold group. cbn [run_groups push_term mbind option_bind]. rewrite run_groups_app.
      cbn [fst snd]. rewrite Hr. reflexivity.
  - intros s. unfold regex_match. cbn [re_tree re_icase].
    change (close_frame _) with (Cat (seq_of (([Atom End_] ++ (tree_map ratom_of <$> ts)) ++ [Atom Begin])) Eps).
    cbn [tree_match]. rewrite !seq_match_app. apply pattern_accepts, at_end_anchor, at_end_nil.
Qed.

(** The loops end. *)
Lemma set_items_fuel n : forall l first, (length l <= n)%nat -> set_items first l <> Err glob_fuel.
Proof.
  induction n as [|n IH]; intros [|x r] first Hn; try done; [cbn in Hn; lia|]. cbn in Hn.
  assert (Hr : forall i q, (length q <= n)%nat -> (let? '(items, rest) := set_items false q in Ok (i :: items, rest)) <> Err glob_fuel).
  { intros i q Hq. pose proof (IH q false Hq). destruct (set_items false q) as [[its k]|]; cbn; congruence. }
  rewrite set_items_cons. destruct (_ && _); [done|]. destruct (x =? 47); [done|]. unfold after_item.
  destruct r as [|d [|y r]]; [apply Hr; cbn in *; lia..|]. cbn in Hn.
  destruct (_ && _); [|apply Hr; cbn; lia]. destruct (y <? x); [done|]. destruct (y =? 47); [done|]. apply Hr. lia.
Qed.

Lemma set_of_fuel l : set_of l <> Err glob_fuel.
Proof.
  unfold set_of. destruct l as [|c r]; [done|]. destruct (c =? 33).
  - pose proof (set_items_fuel (length r) r true (le_n _)). destruct (set_items true r) as [[]|]; cbn; congruence.
  - pose proof (set_items_fuel _ (c :: r) true (le_n _)). destruct (set_items true (c :: r)) as [[]|]; cbn [rbind]; congruence.
Qed.

Lemma glob_tokens_fuel fuel : forall prev depth l, (length l < fuel)%nat -> glob_tokens fuel prev depth l <> Err glob_fuel.
Proof.
  induction fuel as [|fuel IH]; intros prev depth l Hf; [lia|].
  assert (Hnext : forall t p d r, (length r < fuel)%nat -> (let? toks := glob_tokens fuel p d r in Ok (t :: toks)) <> Err glob_fuel).
  { intros t p d r Hr. pose proof (IH p d r Hr). destruct (glob_tokens fuel p d r); cbn; congruence. }
  cbn [glob_tokens]. destruct l as [|c r]; [by destruct (0 <? depth)%nat|]. cbn in Hf.
  destruct (c =? 92); [destruct r; [done|apply Hnext; cbn in *; lia]|].
  destruct (c =? 42).
  { destruct r as [|d r]; [apply Hnext; cbn; lia|]. cbn in Hf. destruct (d =? 42); [|apply Hnext; cbn; lia].
    destruct r as [|e r]; [apply Hnext; cbn; lia|]. cbn in Hf. destruct (_ && _); apply Hnext; cbn; lia. }
  destruct (c =? 63); [apply Hnext; lia|].
  destruct (c =? 91).
  { pose proof (set_of_fuel r). destruct (set_of r) as [[[neg items] rest]|] eqn:Hs; cbn [rbind]; [|congruence].
    apply Hnext. destruct (set_of_rest _ _ _ _ Hs) as [q ->]. rewrite length_app in Hf. cbn in Hf. lia. }
  destruct (c =? 123); [apply Hnext; lia|]. destruct (c =? 44); [apply Hnext; lia|].
  destruct (c =? 125); [destruct depth; [done|apply Hnext; lia]|].
  destruct (c =? 93); [done|]. apply Hnext. lia.
Qed.

Lemma parse_glob_fuel pattern : parse_glob pattern <> Err glob_fuel.
Proof.
  unfold parse_glob. pose proof (glob_tokens_fuel (Datatypes.S (length pattern)) None 0 pattern (le_n _)) as H.
  unfold parse_tokens. destruct (glob_tokens _ _ _ _); cbn [rbind]; [by destruct (group _)|congruence].
Qed.

Lemma glob_to_regex_spec pattern ic : plain_pattern pattern = true ->
  match parse_glob pattern with
  | Ok t => exists re, glob_to_regex pattern ic = Ok re /\ forall s, no_line_end s -> regex_match s re = true <-> glob_means ic t s
  | Err e => glob_to_regex pattern ic = Err (bad_glob e)
  end.
Proof.
  intros Hp. unfold glob_to_regex. rewrite glob_to_regex_string_spec. destruct (parse_tokens pattern) as [toks|e] eqn:Ht.
  - destruct (anchored_pattern _ _ ic Hp Ht) as (ts & re & -> & Hre & Hm). cbn [rbind]. rewrite Hre.
    exists re. split; [done|]. intros s Hs. by rewrite Hm, language_means.
  - unfold parse_glob. by rewrite Ht.
Qed.

(** ** [glob_matcher_] *)

(** A pattern and whether it ignores case. *)
Definition pattern_options (pattern : list Z) : list Z * bool :=
  if starts_with pattern (text "i:") then (drop 2 pattern, true)
  else if starts_with pattern (text ":") then (drop 1 pattern, false) else (pattern, false).

Definition pattern_glob (pattern : list Z) : result glob_error (tree gatom) := parse_glob (pattern_options pattern).1.

Definition plain (pattern : list Z) : bool := plain_pattern (pattern_options pattern).1.

Definition pattern_means (pattern s : list Z) : Prop :=
  exists t, pattern_glob pattern = Ok t /\ glob_means (pattern_options pattern).2 t s.

Lemma add_pattern_spec pattern m_ : plain pattern = true ->
  match pattern_glob pattern with
  | Ok t => exists re, add_pattern pattern m_ = (Ok tt, m_ ++ [re]) /\
      forall s, no_line_end s -> regex_match s re = true <-> pattern_means pattern s
  | Err e => add_pattern pattern m_ = (Err (bad_glob e), m_)
  end.
Proof.
  unfold plain, pattern_glob, pattern_means. intros Hp. 
  assert (Ho : add_pattern pattern m_ = add_pattern_opts (pattern_options pattern).1 (pattern_options pattern).2 m_).
  { unfold add_pattern, pattern_options. by repeat case_match. }
  rewrite Ho. unfold add_pattern_opts. pose proof (glob_to_regex_spec _ (pattern_options pattern).2 Hp) as H.
  unfold pattern_glob. destruct (parse_glob _) as [t|e]; [|by rewrite H].
  destruct H as (re & -> & Hm). exists re. split; [done|]. intros s Hs. rewrite Hm by done. naive_solver.
Qed.

Lemma make_matcher_spec patterns : forall m_, Forall (fun p => plain p = true) patterns ->
  match forA add_pattern patterns m_ with
  | (Ok _, m) => Forall (fun p => exists t, pattern_glob p = Ok t) patterns /\
      forall s, no_line_end s -> glob_match m s = true <-> glob_match m_ s = true \/ Exists (fun p => pattern_means p s) patterns
  | (Err e, _) => exists p ge, p ∈ patterns /\ pattern_glob p = Err ge /\ e = bad_glob ge
  end.
Proof.
  induction patterns as [|p patterns IH]; intros m_ Hp.
  { cbn. split; [constructor|]. intros s _. rewrite Exists_nil. tauto. }
  inversion_clear Hp as [|? ? Hp1 Hps]. cbn [forA]. pose proof (add_pattern_spec p m_ Hp1) as Ha.
  destruct (pattern_glob p) as [t|ge] eqn:Hg.
  - destruct Ha as (re & Ha & Hm). rewrite (abind_ok _ _ _ _ _ Ha). specialize (IH (m_ ++ [re]) Hps).
    destruct (forA add_pattern patterns (m_ ++ [re])) as [[u|e] m].
    + destruct IH as [Hall IH]. split; [constructor; eauto|]. intros s Hs. rewrite (IH s Hs), Exists_cons, <- (Hm s Hs).
      unfold glob_match. rewrite existsb_app, orb_true_iff. cbn. rewrite orb_false_r. tauto.
    + destruct IH as (q & ge & Hq & Hge & ->). exists q, ge. split_and!; [by constructor|done|done].
  - rewrite (abind_err _ _ _ _ _ Ha). exists p, ge. split_and!; [constructor|done|done].
Qed.

(** C24: a [glob_matcher] made of patterns none of whose character classes holds
    [[:], [[.] or [[=] matches a string without line ends exactly when one of the
    patterns' globs means it - with the regular expressions that are made of the
    patterns read and matched as [std::regex] does; if a pattern is not a glob,
    its error is thrown, and it is not that a loop did not end. *)
Theorem glob_matcher_means patterns :
  Forall (fun p => plain p = true) patterns ->
  match make_glob_matcher patterns with
  | Ok m => Forall (fun p => exists t, pattern_glob p = Ok t) patterns /\
      forall s, no_line_end s -> glob_match m s = true <-> Exists (fun p => pattern_means p s) patterns
  | Err e => exists p ge, p ∈ patterns /\ pattern_glob p = Err ge /\ ge <> glob_fuel /\ e = bad_glob ge
  end.
Proof.
  intros Hp. unfold make_glob_matcher. pose proof (make_matcher_spec patterns [] Hp) as H.
  destruct (forA add_pattern patterns []) as [[u|e] m].
  - destruct H as [Hall H]. split; [done|]. intros s Hs. rewrite (H s Hs). cbn. naive_solver.
  - destruct H as (p & ge & Hin & Hg & ->). exists p, ge. split_and!; [done..| |done].
    intros ->. by apply (parse_glob_fuel _ Hg).
Qed.

Lemma glob_matcher_means_witness :
  exists m, make_glob_matcher [text "src/**/*.{c,h}"; text "i:[!]a-c]?"] = Ok m /\
    glob_match m (text "src/a/b.c") = true /\ glob_match m (text "Dx") = true /\ glob_match m (text "Bx") = false /\
    ~ Exists (fun p => pattern_means p (text "Bx")) [text "src/**/*.{c,h}"; text "i:[!]a-c]?"].
Proof.
  pose proof (glob_matcher_means [text "src/**/*.{c,h}"; text "i:[!]a-c]?"]
    ltac:(apply (bool_decide_unpack _); vm_compute; exact I)) as H.
  destruct (make_glob_matcher [text "src/**/*.{c,h}"; text "i:[!]a-c]?"]) as [m|e] eqn:E; [|vm_compute in E; discriminate E].
  destruct H as [_ H]. exists m.
  assert (Hm : Ok m = make_glob_matcher [text "src/**/*.{c,h}"; text "i:[!]a-c]?"]) by (symmetry; exact E).
  vm_compute in Hm. injection Hm as ->. split; [reflexivity|]. split_and!; [vm_compute; reflexivity..|].
  rewrite <- H; [vm_compute; discriminate|]. apply (bool_decide_unpack _). vm_compute. exact I.
Defined.
