(* ===== verification/EntryFilter.v ===== *)
(** * EntryFilter: which entries are stored

    The filter rules of the writer, [src/writer/rule_based_entry_filter.cpp]: a
    rule is a sign, options and a glob; files of rules are merged where they are
    named; the first rule that matches an entry's path decides.  Theorems: the
    decision is that of the first rule whose glob means the path, and reading the
    rules ends, with an error if a file merges itself. *)

From stdpp Require Import gmap.
From S2P Require Import Prelude GlobRegex GlobMeaning.
Local Open Scope Z_scope.

(** [std::runtime_error], by its message; [system_error]: a file cannot be
    opened; [filter_fuel]: files were merged without an end. *)
Inductive filter_error : Type :=
  | empty_rule
  | invalid_rule
  | no_pattern
  | no_prefix
  | bad_sign
  | unknown_option (opt : Z)
  | rule_error (e : matcher_error)
  | no_file
  | recursion_detected (file : list Z)
  | system_error
  | filter_fuel.

Inductive rule_type : Type := include_ | exclude_.

Record filter_rule : Type := FilterRule { type_ : rule_type; floating : bool; re_ : regex; rule_ : list Z }.

(** [find_first_of(c)] and [find_first_not_of(cs, pos)]. *)
Fixpoint find_first_of (c : Z) (s : list Z) : option nat :=
  match s with
  | [] => None
  | d :: s => if d =? c then Some 0%nat else Datatypes.S <$> find_first_of c s
  end.

Fixpoint skip_chars (cs : list Z) (s : list Z) : option nat :=
  match s with
  | [] => None
  | d :: s => if existsb (Z.eqb d) cs then Datatypes.S <$> skip_chars cs s else Some 0%nat
  end.

Definition find_first_not_of (cs : list Z) (s : list Z) (pos : nat) : option nat :=
  (fun n => (pos + n)%nat) <$> skip_chars cs (drop pos s).

(** The options after the sign. *)
Fixpoint rule_options (prefix : list Z) (ignore_case : bool) : result filter_error bool :=
  match prefix with
  | [] => Ok ignore_case
  | opt :: prefix => if opt =? 105 then rule_options prefix true else Err (unknown_option opt)
  end.

(** The first part of [compile_filter_rule]: the type, [ignore_case] and the
    pattern. *)
Definition split_rule (rule : list Z) : result filter_error (rule_type * bool * list Z) :=
  match rule with
  | [] => Err empty_rule
  | _ :: _ =>
      match find_first_of 32 rule with
      | None => Err invalid_rule
      | Some splitpos =>
          match find_first_not_of [32] rule splitpos with
          | None => Err no_pattern
          | Some pattern_start =>
              let prefix := take splitpos rule in
              let pattern := drop pattern_start rule in
              match prefix with
              | [] => Err no_prefix
              | sign :: opts =>
                  let? type := if sign =? 43 then Ok include_ else if sign =? 45 then Ok exclude_ else Err bad_sign in
                  let? ignore_case := rule_options opts false in
                  Ok (type, ignore_case, pattern)
              end
          end
      end
  end.

Definition compile_filter_rule (rule : list Z) : result filter_error filter_rule :=
  let? '(type, ignore_case, pattern) := split_rule rule in
  let floating := negb (bool_decide (hd_error pattern = Some 47)) in
  match glob_to_regex_string pattern with
  | Err e => Err (rule_error (bad_glob e))
  | Ok s =>
      match std_regex ((if floating then [46; 42; 47] else []) ++ s ++ [36]) ignore_case with
      | None => Err (rule_error bad_regex)
      | Some re => Ok (FilterRule type floating re rule)
      end
  end.

(** The lines [std::getline] reads. *)
Fixpoint lines_from (line : list Z) (s : list Z) : list (list Z) :=
  match s with
  | [] => match line with [] => [] | _ => [line] end
  | c :: s => if c =? 10 then line :: lines_from [] s else lines_from (line ++ [c]) s
  end.

Definition getlines (s : list Z) : list (list Z) := lines_from [] s.

(** The object: its rules and, while rules are added, the files that are being
    read. *)
Record filter_state : Type := FilterState { filter_ : list filter_rule; seen_files : gset (list Z) }.

Section files.

(** The files [fa_->open_input] can open, by name. *)
Context (files : gmap (list Z) (list Z)).

Definition skipped_line (line : list Z) : bool :=
  starts_with line [35] || bool_decide (find_first_not_of [32; 9] line 0 = None).

(** [add_rule], and [add_rules] on the stream of a file; [fuel] bounds how deep
    files are nested. *)
Fixpoint add_rule_in (fuel : nat) (rule : list Z) : action filter_error filter_state unit :=
  if starts_with rule [46] then
    match find_first_not_of [32; 9] rule 1 with
    | None => throw no_file
    | Some file_pos =>
        let file := drop file_pos rule in
        let! st := get in
        if decide (file ∈ seen_files st) then throw (recursion_detected file)
        else
          put (FilterState (filter_ st) ({[file]} ∪ seen_files st));;
          match files !! file with
          | None => throw system_error
          | Some is_ =>
              match fuel with
              | O => throw filter_fuel
              | Datatypes.S fuel =>
                  forA (fun line => if skipped_line line then ret tt else add_rule_in fuel line) (getlines is_);;
                  modify (fun st => FilterState (filter_ st) (seen_files st ∖ {[file]}))
              end
          end
    end
  else
    match compile_filter_rule rule with
    | Ok r => modify (fun st => FilterState (filter_ st ++ [r]) (seen_files st))
    | Err e => throw e
    end.

Definition add_rules_in (fuel : nat) (is_ : list Z) : action filter_error filter_state unit :=
  forA (fun line => if skipped_line line then ret tt else add_rule_in fuel line) (getlines is_).

(** No more files can be nested than there are. *)
Definition filter_depth : nat := Datatypes.S (size files).

(** The member functions: [seen_files] is empty when they start. *)
Definition add_rule (rule : list Z) (rules : list filter_rule) : result filter_error unit * list filter_rule :=
  let '(r, st) := add_rule_in filter_depth rule (FilterState rules ∅) in (r, filter_ st).

Definition add_rules (is_ : list Z) (rules : list filter_rule) : result filter_error unit * list filter_rule :=
  let '(r, st) := add_rules_in filter_depth is_ (FilterState rules ∅) in (r, filter_ st).

End files.

(** [set_root_path]: the path without a trailing slash. *)
Definition set_root_path (path : list Z) : list Z :=
  if bool_decide (last path = Some 47) then removelast path else path.

Inductive filter_action : Type := keep | remove_.

Fixpoint first_match (rules : list filter_rule) (path relpath : list Z) : filter_action :=
  match rules with
  | [] => keep
  | r :: rules =>
      if regex_match (if floating r then path else relpath) (re_ r) then
        match type_ r with include_ => keep | exclude_ => remove_ end
      else first_match rules path relpath
  end.

(** [filter]; [path] is the entry's [unix_dpath()]. *)
Definition filter_entry (root_path : list Z) (rules : list filter_rule) (path : list Z) : filter_action :=
  let relpath := if (length root_path <=? length path)%nat then drop (length root_path) path else path in
  first_match rules path relpath.

(** ** What a rule means *)

(** The path below the root. *)
Definition relative (root_path path : list Z) : list Z :=
  if (length root_path <=? length path)%nat then drop (length root_path) path else path.

(** A rule for a path below the input: a pattern that starts with a slash means
    it from the input on, any other one after any of its slashes.  [path] is
    [relpath] for a rule as it is documented, while the code matches patterns
    without a slash with the whole path. *)
Definition rule_fits (path relpath rule : list Z) : Prop :=
  exists type icase pattern t, split_rule rule = Ok (type, icase, pattern) /\ parse_glob pattern = Ok t /\
    if decide (hd_error pattern = Some 47) then glob_means icase t relpath
    else exists before rest, path = before ++ 47 :: rest /\ glob_means icase t rest.

Definition rule_matches (root_path path rule : list Z) : Prop := rule_fits path (relative root_path path) rule.

(** As [doc/mkdwarfs.md] has it: in any directory of the hierarchy. *)
Definition rule_means (relpath rule : list Z) : Prop := rule_fits relpath relpath rule.

(** A floating rule matches from a directory on that the input is in. *)
Definition matches_above (root_path path rule : list Z) : Prop :=
  exists type icase pattern t before rest, split_rule rule = Ok (type, icase, pattern) /\ parse_glob pattern = Ok t /\
    hd_error pattern <> Some 47 /\ path = before ++ 47 :: rest /\ (length before < length root_path)%nat /\ glob_means icase t rest.

Definition plain_rule (rule : list Z) : bool :=
  match split_rule rule with Ok (_, _, pattern) => plain_pattern pattern | Err _ => true end.

(** ** The regular expression of a rule *)

Lemma run_groups_atoms {A B} (f : A -> B) (atoms : list A) : forall alts c st,
  run_groups ((alts, c) :: st) (btok_map f <$> (BAtom <$> atoms)) = Some ((alts, reverse ((fun a => Atom (f a)) <$> atoms) ++ c) :: st).
Proof.
  induction atoms as [|a atoms IH]; intros alts c st; [done|].
  cbn -[reverse]. rewrite reverse_cons, <- app_assoc. apply IH.
Qed.

(** The expression of a pattern after atoms. *)
Lemma ended_pattern atoms pattern toks ic : plain_pattern pattern = true -> parse_tokens pattern = Ok toks ->
  Forall (fun a => match a with GSet _ _ => False | _ => True end) atoms ->
  exists ts re, parse_glob pattern = Ok (seq_of ts)
    /\ std_regex (print_toks ((BAtom <$> atoms) ++ toks) ++ [36]) ic = Some re
    /\ forall s, regex_match s re = true <-> glob_language ic (seq_of (ts ++ reverse (Atom <$> atoms))) s.
Proof.
  intros Hp Ht Ha. destruct (pattern_terms _ _ Ht) as (ts & Hg & Hr).
  assert (Hrd : Forall readable ((BAtom <$> atoms) ++ toks)).
  { apply Forall_app. split; [|by eapply pattern_readable]. apply Forall_fmap. eapply Forall_impl; [exact Ha|]. by intros []. }
  exists ts. eexists. split; [done|]. split.
  - eapply scans_regex.
    + apply (scans_toks _ [36] [REnd]); [done|]. apply scans_end_anchor, scans_nil.
    + by erewrite quantify_toks.
    + unfold group. rewrite fmap_app, <- app_assoc, run_groups_app, run_groups_atoms. cbn [mbind option_bind].
      rewrite run_groups_app, Hr. reflexivity.
  - intros s. unfold regex_match. cbn [re_tree re_icase].
    change (close_frame _) with (seq_of ([Atom End_] ++ ((tree_map ratom_of <$> ts) ++ (reverse ((fun a => Atom (ratom_of a)) <$> atoms) ++ [])))).
    rewrite app_nil_r, seq_match_app.
    replace ((tree_map ratom_of <$> ts) ++ reverse ((fun a => Atom (ratom_of a)) <$> atoms))
      with (tree_map ratom_of <$> (ts ++ reverse (Atom <$> atoms))).
    + apply pattern_accepts, at_end_anchor, at_end_nil.
    + rewrite fmap_app, fmap_reverse. f_equal. f_equal. by rewrite <- list_fmap_compose.
Qed.

Lemma seq_language_after ic ts t s : glob_language ic (seq_of (ts ++ [t])) s <->
  exists s1 s2, s = s1 ++ s2 /\ glob_language ic t s1 /\ glob_language ic (seq_of ts) s2.
Proof. unfold seq_of. by rewrite fold_left_app. Qed.

Lemma floating_language ic ts s : no_line_end s ->
  glob_language ic (seq_of (ts ++ reverse (Atom <$> [GDstar; GChar 47]))) s <->
  exists before rest, s = before ++ 47 :: rest /\ glob_means ic (seq_of ts) rest.
Proof.
  intros Hs. change (reverse (Atom <$> [GDstar; GChar 47])) with ([Atom (GChar 47)] ++ [Atom GDstar]).
  rewrite app_assoc, seq_language_after. split.
  - intros (before & r & -> & Hb & Hr). apply seq_language_after in Hr as (sl & rest & -> & (c & -> & Hc) & Hl).
    unfold same in Hc. apply translate_slash in Hc as ->. exists before, rest. split; [done|].
    apply language_means; [|done]. unfold no_line_end in *. rewrite !Forall_app in Hs. tauto.
  - intros (before & rest & -> & Hm). unfold no_line_end in *. apply Forall_app in Hs as [Hb Hr]. inversion_clear Hr.
    exists before, (47 :: rest). split_and!; [done|done|]. apply seq_language_after.
    exists [47], rest. split_and!; [done|by exists 47|]. by apply language_means.
Qed.

Lemma relative_no_line_end root_path path : no_line_end path -> no_line_end (relative root_path path).
Proof. intros H. unfold relative. destruct (_ <=? _)%nat; [by apply Forall_drop|done]. Qed.

(** A compiled rule matches what the rule means. *)
Lemma compiled_rule_means rule r : plain_rule rule = true -> compile_filter_rule rule = Ok r ->
  rule_ r = rule /\ (exists icase pattern, split_rule rule = Ok (type_ r, icase, pattern)) /\
  forall root_path path, no_line_end path ->
    regex_match (if floating r then path else relative root_path path) (re_ r) = true <-> rule_matches root_path path rule.
Proof.
  unfold plain_rule, compile_filter_rule, rule_matches, rule_fits. intros Hp Hc.
  destruct (split_rule rule) as [[[type ic] pattern]|e]; [|done]. cbn [rbind] in Hc.
  rewrite glob_to_regex_string_spec in Hc. destruct (parse_tokens pattern) as [toks|e] eqn:Ht; [|done]. cbn [rbind] in Hc.
  assert (He : forall atoms re, std_regex (print_toks ((BAtom <$> atoms) ++ toks) ++ [36]) ic = Some re ->
    Forall (fun a => match a with GSet _ _ => False | _ => True end) atoms ->
    exists ts, parse_glob pattern = Ok (seq_of ts) /\ forall s, regex_match s re = true <-> glob_language ic (seq_of (ts ++ reverse (Atom <$> atoms))) s).
  { intros atoms re Hre Ha. destruct (ended_pattern atoms _ _ ic Hp Ht Ha) as (ts & re' & Hg & Hre' & Hm). exists ts. split; [done|].
    rewrite Hre in Hre'. by injection Hre' as ->. }
  destruct (std_regex _ _) as [re|] eqn:Hre; [|done]. injection Hc as <-. cbn [rule_ type_ floating re_].
  split; [done|]. split; [by eauto|]. intros root_path path Hpath.
  destruct (decide (hd_error pattern = Some 47)) as [Hh|Hh].
  - rewrite bool_decide_eq_true_2 in Hre |- * by done. cbn [negb] in *.
    destruct (He [] re Hre) as (ts & Hg & Hm); [constructor|]. rewrite Hm.
    change (reverse (Atom <$> [])) with (@nil (tree gatom)). rewrite app_nil_r, language_means by by apply relative_no_line_end.
    split; [intros; eexists _, _, _, _; split; [done|]; split; [done|by rewrite decide_True]|].
    intros (? & ? & ? & t & [= <- <- <-] & Hg' & Hmean). rewrite decide_True in Hmean by done.
    rewrite Hg in Hg'. injection Hg' as <-. exact Hmean.
  - rewrite bool_decide_eq_false_2 in Hre |- * by done. cbn [negb] in *.
    destruct (He [GDstar; GChar 47] re Hre) as (ts & Hg & Hm); [by repeat constructor|]. rewrite Hm, floating_language by done.
    split; [intros; eexists _, _, _, _; split; [done|]; split; [done|by rewrite decide_False]|].
    intros (? & ? & ? & t & [= <- <- <-] & Hg' & Hmean). rewrite decide_False in Hmean by done.
    rewrite Hg in Hg'. injection Hg' as <-. exact Hmean.
Qed.

(** ** Reading rules *)

Definition compiled (r : filter_rule) : Prop := compile_filter_rule (rule_ r) = Ok r.

Lemma compile_keeps_rule rule r : compile_filter_rule rule = Ok r -> rule_ r = rule.
Proof.
  unfold compile_filter_rule. destruct (split_rule rule) as [[[type ic] pattern]|e]; [|done]. cbn [rbind].
  destruct (glob_to_regex_string pattern); [|done]. destruct (std_regex _ _); [|done]. by intros [= <-].
Qed.

Section keeps.
Context (files : gmap (list Z) (list Z)).

(** A property of the rules and the files being read that every way of adding
    rules keeps, also when it throws. *)
Definition keeps {A} (P : filter_state -> Prop) (m : action filter_error filter_state A) : Prop :=
  forall st, P st -> P (m st).2.

Lemma keeps_bind {A B} P (m : action filter_error filter_state A) (f : A -> action filter_error filter_state B) :
  keeps P m -> (forall a, keeps P (f a)) -> keeps P (abind m f).
Proof.
  intros Hm Hf st Hst. unfold abind. specialize (Hm st Hst). destruct (m st) as [[a|e] st']; [by apply Hf|done].
Qed.

Lemma keeps_for {A} P (f : A -> action filter_error filter_state unit) l : (forall a, keeps P (f a)) -> keeps P (forA f l).
Proof. intros Hf. induction l as [|a l IH]; [by intros st|]. cbn. by apply keeps_bind. Qed.

Definition all_compiled (st : filter_state) : Prop := Forall compiled (filter_ st).

(** What adding a rule does: it opens a file, or compiles the rule. *)
Definition read_file (fuel : nat) (file is_ : list Z) : action filter_error filter_state unit :=
  match fuel with
  | O => throw filter_fuel
  | Datatypes.S fuel =>
      add_rules_in files fuel is_;; modify (fun st => FilterState (filter_ st) (seen_files st ∖ {[file]}))
  end.

Definition merge_of (rule : list Z) : option (option (list Z)) :=
  if starts_with rule [46] then Some ((fun pos => drop pos rule) <$> find_first_not_of [32; 9] rule 1) else None.

Lemma add_rule_eq fuel rule st : add_rule_in files fuel rule st =
  match merge_of rule with
  | Some None => (Err no_file, st)
  | Some (Some file) =>
      if decide (file ∈ seen_files st) then (Err (recursion_detected file), st)
      else
        let st' := FilterState (filter_ st) ({[file]} ∪ seen_files st) in
        match files !! file with
        | None => (Err system_error, st')
        | Some is_ => read_file fuel file is_ st'
        end
  | None =>
      match compile_filter_rule rule with
      | Ok r => (Ok tt, FilterState (filter_ st ++ [r]) (seen_files st))
      | Err e => (Err e, st)
      end
  end.
Proof.
  unfold merge_of. destruct fuel; cbn [add_rule_in]; (destruct (starts_with rule [46]); [|by destruct (compile_filter_rule rule)]);
    (destruct (find_first_not_of _ _ _) as [pos|]; [|done]); cbn [fmap option_fmap option_map];
    rewrite abind_get; (destruct (decide _); [done|]); cbn; by destruct (files !! _).
Qed.

Lemma add_rule_keeps fuel : forall rule, keeps all_compiled (add_rule_in files fuel rule).
Proof.
  induction fuel as [|fuel IH]; intros rule st Hst; rewrite add_rule_eq;
    (destruct (merge_of rule) as [[file|]|]; [|done|]).
  2, 4: destruct (compile_filter_rule rule) as [r|e] eqn:Hc; [|done]; apply Forall_app; split; [done|]; constructor; [|done];
    unfold compiled; by rewrite (compile_keeps_rule _ _ Hc).
  all: (destruct (decide _); [done|]); cbn zeta; (destruct (files !! file) as [is_|]; [|done]); cbn [read_file].
  - done.
  - apply (keeps_bind all_compiled); [apply keeps_for|by intros _ st'|done].
    intros line. destruct (skipped_line line); [by intros st'|apply IH].
Qed.

Lemma add_rules_keeps fuel is_ : keeps all_compiled (add_rules_in files fuel is_).
Proof.
  apply keeps_for. intros line. destruct (skipped_line line); [by intros st'|apply add_rule_keeps].
Qed.
End keeps.

(** ** What is read *)

Section reads.
Context (files : gmap (list Z) (list Z)).

(** The rules a line stands for, and those of lines. *)
Inductive line_reads : list Z -> list (list Z) -> Prop :=
  | reads_rule rule : merge_of rule = None -> line_reads rule [rule]
  | reads_file rule file is_ rules : merge_of rule = Some (Some file) -> files !! file = Some is_ ->
      lines_read (getlines is_) rules -> line_reads rule rules
with lines_read : list (list Z) -> list (list Z) -> Prop :=
  | read_nil : lines_read [] []
  | read_skipped line lines rules : skipped_line line = true -> lines_read lines rules -> lines_read (line :: lines) rules
  | read_line line lines rules rules' : skipped_line line = false -> line_reads line rules -> lines_read lines rules' ->
      lines_read (line :: lines) (rules ++ rules').

(** A line of the file [f] merges the file [g]. *)
Definition merges (f g : list Z) : Prop := exists is_ line, files !! f = Some is_ /\ line ∈ getlines is_ /\ merge_of line = Some (Some g).

(** What adding rules promises: on success the rules that were read, in order;
    else an error that is not the lack of fuel, and recursion only if there is. *)
Definition promise (reads : list (list Z) -> Prop) (m : action filter_error filter_state unit) (st : filter_state) : Prop :=
  match m st with
  | (Ok _, st') => seen_files st' = seen_files st /\
      exists new, reads (rule_ <$> new) /\ filter_ st' = filter_ st ++ new /\ Forall compiled new
  | (Err e, _) => e <> filter_fuel /\ forall f, e = recursion_detected f -> tc merges f f
  end.

(** The files that are open all lead to what is merged next. *)
Definition lead_to (seen : gset (list Z)) (line : list Z) : Prop :=
  forall f g, f ∈ seen -> merge_of line = Some (Some g) -> tc merges f g.

Definition enough (fuel : nat) (seen : gset (list Z)) : Prop := (size (dom files ∖ seen) <= fuel)%nat.

Definition rules_promise (fuel : nat) : Prop := forall rule st,
  enough fuel (seen_files st) -> lead_to (seen_files st) rule -> promise (line_reads rule) (add_rule_in files fuel rule) st.

Lemma lines_promise fuel lines : rules_promise fuel -> forall st, enough fuel (seen_files st) ->
  Forall (lead_to (seen_files st)) lines ->
  promise (lines_read lines) (forA (fun line => if skipped_line line then ret tt else add_rule_in files fuel line) lines) st.
Proof.
  intros Hr. induction lines as [|line lines IH]; intros st He Hl.
  { cbn. split; [done|]. exists []. rewrite app_nil_r. split_and!; [constructor|done|constructor]. }
  inversion_clear Hl as [|? ? Hl1 Hls]. cbn [forA]. unfold promise. destruct (skipped_line line) eqn:Hs.
  - unfold abind, ret. specialize (IH st He Hls). unfold promise in IH. destruct (forA _ lines st) as [[u|e] st']; [|done].
    destruct IH as [Hseen (new & Hn & Hf)]. split; [done|]. exists new. split; [by apply read_skipped|done].
  - pose proof (Hr line st He Hl1) as H1. unfold promise in H1. unfold abind.
    destruct (add_rule_in files fuel line st) as [[u|e] st']; [|done].
    destruct H1 as [Hseen (new & Hn & Hf & Hc)]. specialize (IH st'). rewrite Hseen in IH. specialize (IH He Hls). unfold promise in IH.
    destruct (forA _ lines st') as [[u'|e] st'']; [|done]. destruct IH as [Hseen' (new' & Hn' & Hf' & Hc')].
    split; [congruence|]. exists (new ++ new'). rewrite fmap_app. split_and!; [by apply read_line| |by apply Forall_app].
    by rewrite Hf', Hf, app_assoc.
Qed.

Lemma open_file_enough fuel seen f : is_Some (files !! f) -> f ∉ seen -> enough fuel seen ->
  exists fuel', fuel = Datatypes.S fuel' /\ enough fuel' ({[f]} ∪ seen).
Proof.
  intros Hf Hs He. unfold enough in *. apply elem_of_dom in Hf.
  assert (Hlt : (size (dom files ∖ ({[f]} ∪ seen)) < size (dom files ∖ seen))%nat).
  { apply subset_size. split; [set_solver|]. intros Hsub. specialize (Hsub f). set_solver. }
  destruct fuel as [|fuel]; [lia|]. exists fuel. split; [done|lia].
Qed.

Definition reading_error (e : filter_error) : Prop := e = filter_fuel \/ exists f, e = recursion_detected f.

Lemma split_rule_error rule e : split_rule rule = Err e -> ~ reading_error e.
Proof.
  assert (Ho : forall opts b, rule_options opts b = Err e -> ~ reading_error e).
  { induction opts as [|o opts IH]; intros b; [done|]. cbn. destruct (o =? 105); [apply IH|]. intros [= <-] [|[f ?]]; done. }
  unfold split_rule. intros H He. repeat (case_match; simplify_eq/=; try by destruct He as [|[f ?]]).
  all: destruct (rule_options l0 false) eqn:Ho'; simplify_eq/=; by apply (Ho l0 false).
Qed.

Lemma compile_error rule e : compile_filter_rule rule = Err e -> ~ reading_error e.
Proof.
  unfold compile_filter_rule. destruct (split_rule rule) as [[[type ic] pattern]|e'] eqn:Hs; cbn [rbind].
  - repeat case_match; intros [= <-] [|[f ?]]; done.
  - intros [= <-]. by apply (split_rule_error rule).
Qed.

Lemma add_rule_promise fuel : rules_promise fuel.
Proof.
  induction fuel as [fuel IH] using lt_wf_ind. intros rule st He Hl. unfold promise. rewrite add_rule_eq.
  destruct (merge_of rule) as [[file|]|] eqn:Hm; [|done|].
  2: { destruct (compile_filter_rule rule) as [r|e] eqn:Hc.
       - split; [done|]. exists [r]. pose proof (compile_keeps_rule _ _ Hc) as Hr. cbn. rewrite Hr.
         split_and!; [by apply reads_rule|done|]. constructor; [|done]. unfold compiled. by rewrite Hr.
       - pose proof (compile_error _ _ Hc) as Hn. unfold reading_error in Hn. naive_solver. }
  destruct (decide (file ∈ seen_files st)) as [Hin|Hni].
  { split; [done|]. intros f [= <-]. by apply (Hl _ _ Hin Hm). }
  cbn zeta. destruct (files !! file) as [is_|] eqn:Hf; [|done].
  destruct (open_file_enough _ _ file (mk_is_Some _ _ Hf) Hni He) as (fuel' & -> & He').
  cbn [read_file]. set (st' := FilterState _ _).
  assert (Hlead : Forall (lead_to (seen_files st')) (getlines is_)).
  { apply Forall_forall. intros line Hline f g Hfs Hg. assert (Hfg : merges file g) by (by exists is_, line).
    apply elem_of_union in Hfs as [->%elem_of_singleton|Hfs]; [by apply tc_once|].
    eapply tc_r; [|done]. by apply (Hl _ _ Hfs Hm). }
  pose proof (lines_promise fuel' (getlines is_) (IH fuel' (le_n _)) st' He' Hlead) as Hp. unfold promise in Hp.
  unfold abind, add_rules_in.
  destruct (forA _ (getlines is_) st') as [[u|e] st'']; [|done]. destruct Hp as [Hseen (new & Hn & Hfi & Hc)].
  split; [cbn; rewrite Hseen; cbn; set_solver|]. exists new. split_and!; [by eapply reads_file|done|done].
Qed.

(** Reading a stream of rules from the start. *)
Lemma add_rules_promise is_ rules :
  match add_rules files is_ rules with
  | (Ok _, rules') => exists new, lines_read (getlines is_) (rule_ <$> new) /\ rules' = rules ++ new /\ Forall compiled new
  | (Err e, _) => e <> filter_fuel /\ forall f, e = recursion_detected f -> tc merges f f
  end.
Proof.
  pose proof (lines_promise (filter_depth files) (getlines is_) (add_rule_promise _) (FilterState rules ∅)) as Hp.
  unfold promise in Hp. unfold add_rules, add_rules_in.
  destruct (forA _ (getlines is_) (FilterState rules ∅)) as [[u|e] st].
  - destruct Hp as [_ Hp]; [| |exact Hp].
    + unfold enough, filter_depth. cbn. rewrite difference_empty_L, size_dom. lia.
    + apply Forall_forall. intros line _ f g Hf. by apply elem_of_empty in Hf.
  - apply Hp.
    + unfold enough, filter_depth. cbn. rewrite difference_empty_L, size_dom. lia.
    + apply Forall_forall. intros line _ f g Hf. by apply elem_of_empty in Hf.
Qed.
End reads.

(** ** The decision *)

Definition excludes (rule : list Z) : Prop := exists icase pattern, split_rule rule = Ok (exclude_, icase, pattern).

Lemma first_match_spec root_path path rules : no_line_end path -> Forall compiled rules ->
  Forall (fun r => plain_rule (rule_ r) = true) rules ->
  first_match rules path (relative root_path path) = remove_ <->
  exists before rule after, rule_ <$> rules = before ++ rule :: after /\ excludes rule /\
    rule_matches root_path path rule /\ Forall (fun r => ~ rule_matches root_path path r) before.
Proof.
  intros Hpath Hc Hp. induction rules as [|r rules IH].
  { split; [done|]. intros (before & rule & after & He & _). by destruct before. }
  inversion_clear Hc as [|? ? Hc1 Hcs]. inversion_clear Hp as [|? ? Hp1 Hps]. specialize (IH Hcs Hps).
  destruct (compiled_rule_means _ _ Hp1 Hc1) as (_ & (ic & pattern & Hsplit) & Hm). specialize (Hm root_path path Hpath).
  cbn [first_match]. destruct (regex_match _ (re_ r)).
  - pose proof (proj1 Hm eq_refl) as Hmean. split.
    + intros Ht. exists [], (rule_ r), (rule_ <$> rules). split_and!; [done| |done|constructor].
      exists ic, pattern. rewrite Hsplit. by destruct (type_ r).
    + intros ([|b before] & rule & after & He & Hx & _ & Hb); cbn in He; simplify_eq.
      * destruct Hx as (ic' & pattern' & Hx). rewrite Hsplit in Hx. by injection Hx as -> _ _.
      * by inversion_clear Hb.
  - assert (Hno : ~ rule_matches root_path path (rule_ r)) by (intros Hmean%Hm; done).
    rewrite IH. split.
    + intros (before & rule & after & He & Hx & Hmean & Hb). exists (rule_ r :: before), rule, after.
      split_and!; [cbn; by rewrite He|done..|by constructor].
    + intros ([|b before] & rule & after & He & Hx & Hmean & Hb); injection He as <- He; [done|].
      inversion_clear Hb. by exists before, rule, after.
Qed.

Lemma matches_below root_path relpath rule : ~ matches_above root_path (root_path ++ relpath) rule ->
  rule_matches root_path (root_path ++ relpath) rule <-> rule_means relpath rule.
Proof.
  intros Hno. unfold rule_matches, rule_means, rule_fits. assert (relative root_path (root_path ++ relpath) = relpath) as ->.
  { unfold relative. rewrite length_app, (proj2 (Nat.leb_le _ _)) by lia. apply drop_app_length. }
  split; intros (type & ic & pattern & t & Hs & Hg & H); exists type, ic, pattern, t; (split; [done|]); (split; [done|]);
    destruct (decide (hd_error pattern = Some 47)) as [Hh|Hh]; try done; destruct H as (before & rest & E & Hm).
  - destruct (decide (length before < length root_path)%nat) as [Hlt|Hge].
    { exfalso. apply Hno. by exists type, ic, pattern, t, before, rest. }
    exists (drop (length root_path) before), rest. split; [|done].
    apply (f_equal (drop (length root_path))) in E. by rewrite drop_app_length, drop_app_le in E by lia.
  - exists (root_path ++ before), rest. split; [|done]. by rewrite E, <- app_assoc.
Qed.

(** C26: reading filter rules from a stream ends, whatever files it merges: it adds
    the compiled rules of the stream in order, those of a merged file in its
    place; or it reports an error, and reports a recursion only of a file that
    does merge itself. *)
Theorem rules_are_read files is_ rules :
  match add_rules files is_ rules with
  | (Ok _, rules') => exists new, lines_read files (getlines is_) (rule_ <$> new) /\ rules' = rules ++ new /\ Forall compiled new
  | (Err e, _) => e <> filter_fuel /\ forall f, e = recursion_detected f -> tc (merges files) f f
  end.
Proof. apply add_rules_promise. Qed.


(** *** Above the input *)

(** [matches_above], executed. *)
Definition matched_above (root_path path rule : list Z) : bool :=
  match split_rule rule with
  | Ok (_, icase, pattern) =>
      if bool_decide (hd_error pattern = Some 47) then false
      else
        match glob_to_regex pattern icase with
        | Ok re => existsb (fun n => bool_decide (path !! n = Some 47) && regex_match (drop (S n) path) re) (seq 0 (length root_path))
        | Err _ => false
        end
  | Err _ => false
  end.

Lemma not_matched_above root_path path rule : plain_rule rule = true -> no_line_end path ->
  matched_above root_path path rule = false -> ~ matches_above root_path path rule.
Proof.
  unfold plain_rule, matched_above. intros Hp Hpath Hb (type & ic & pattern & t & before & rest & Hs & Hg & Hh & E & Hlt & Hm).
  rewrite Hs in Hp, Hb. rewrite bool_decide_eq_false_2 in Hb by done.
  pose proof (glob_to_regex_spec pattern ic Hp) as Hre. rewrite Hg in Hre. destruct Hre as (re & Hre & Hiff). rewrite Hre in Hb.
  apply not_true_iff_false in Hb. apply Hb. apply existsb_exists. exists (length before). split; [apply in_seq; lia|].
  rewrite E, bool_decide_eq_true_2 by (by rewrite lookup_app_r, Nat.sub_diag by lia).
  replace (drop (S (length before)) (before ++ 47 :: rest)) with rest.
  - apply Hiff; [|done]. unfold no_line_end in *. rewrite E in Hpath. apply Forall_app in Hpath as [_ Hpath]. by inversion_clear Hpath.
  - rewrite drop_app_ge by lia. by replace (S (length before) - length before)%nat with 1%nat by lia.
Qed.

(** With the input [/build/x], the rule [- build/**] removes what is in it,
    although it means no part of a path below the input. *)
Lemma matched_above_input : exists rules, add_rules ∅ (text "- build/**") [] = (Ok tt, rules) /\
  filter_entry (text "/build/x") rules (text "/build/x/a") = remove_ /\ ~ rule_means (text "/a") (text "- build/**").
Proof.
  destruct (compile_filter_rule (text "- build/**")) as [r|e] eqn:Hc; [|by vm_compute in Hc].
  exists [r]. assert (Hr : Ok r = compile_filter_rule (text "- build/**")) by done. vm_compute in Hr. injection Hr as ->.
  split; [by vm_compute|]. split; [by vm_compute|]. intros Hm.
  destruct (compiled_rule_means (text "- build/**") _ eq_refl Hc) as (_ & _ & Hiff).
  specialize (Hiff [] (text "/a") ltac:(apply (bool_decide_unpack _); vm_compute; exact I)). apply Hiff in Hm. by vm_compute in Hm.
Qed.

(** A stream that merges a file, with an exception to an exclusion. *)
Definition example_files : gmap (list Z) (list Z) := {[ text "more" := text "- *.o" ]}.

Definition example_rules : list Z := text "+ /src/keep.o" ++ [10] ++ text ". more" ++ [10] ++ text "-i build/".

